(* ===== verification/_CoqProject ===== *)
-Q . S2P
Prelude.v
Ids.v
RunStates.v
StateInvariants.v
RunRegistry.v
RunReducer.v
RunTheorems.v
JsText.v
TextPatch.v
TextPatchTheorems.v
CanonicalJson.v
CanonicalJsonTheorems.v
JsJson.v
Digest.v
DigestTheorems.v
RelativePath.v
ChangeApply.v
ChangeTheorems.v
PathTheorems.v
DagEngine.v
DagTheorems.v
ProfileCompose.v
ProfileCompiler.v
ProfileGraph.v
ProfileTheorems.v
ProfileLiveness.v
Requirements.v
Delivery.v
DeliveryTheorems.v
Replay.v
MutationTheorems.v
Classification.v
Egress.v
EgressTheorems.v
Identity.v
HttpGate.v
HttpGateTheorems.v
Approval.v
Plan.v
PlanTheorems.v
PlanRevise.v
Evidence.v
Verdict.v
UnionFind.v
RepairPacket.v
VerdictTheorems.v
RepairTheorems.v
Async.v
CloudWire.v
CloudGateway.v
CloudStore.v
Usage.v
CloudCalls.v
CloudProtocol.v
CloudTheorems.v
CloudApproval.v
ContextSelect.v
ContextSelectTheorems.v
ContextPacket.v
ContextCompiler.v
ContextTheorems.v
OperationStore.v
OperationTheorems.v
RunStore.v
RunStoreTheorems.v
Idempotency.v
IdempotencyTheorems.v
EvidenceGraph.v
EvidenceGraphTheorems.v
Dedupe.v
DedupeTheorems.v
Retrieval.v
RetrievalTheorems.v
Instructions.v
InstructionTheorems.v
Skills.v
SkillTheorems.v
Sandbox.v
SandboxTheorems.v
Preflight.v
