(* ===== verification/Prelude.v ===== *)
(** * PI-HEC: a verification development for its decision-making core

    PI-HEC drives coding agents through a supervised workflow.  A control plane keeps one
    projection per run and advances it by guarded events; cloud and local agents produce change
    sets; a candidate tree is computed from a sealed baseline and a change set; checks produce
    evidence about the candidate; and a verdict compiler decides from the evidence whether the
    candidate may be applied.  Everything that is signed or compared goes through one canonical JSON
    form and one family of tagged digests.  This development models the deterministic TypeScript
    code that takes those decisions, and leaves out the I/O around it.

    ** Files, in dependency order

    Shared
    - [Prelude]: the result monad for throwing code ([let?], [throw_if], [rfold], [rmap]), the tactic
      [inv_ok] that takes successful runs apart, JavaScript arrays ([includes], [uniq], [sort_by])
      and insertion-ordered maps ([JsMap]).
    - [Ids] (packages/contracts/src/ids.ts): digests and prefixed UUIDv7 identifiers.
    - [JsText], [JsJson]: JavaScript strings as lists of UTF-16 code units, UTF-8, the string methods
      in use, JSON.stringify, decimal numbers and [Date_toISOString].
    - [UnionFind]: clusters by union-find, used by repair packets and by deduplication.
    - [Async]: programs over a shared store, interleaved, that may stop at any point.

    Runs
    - [RunStates], [StateInvariants], [RunRegistry] (packages/contracts/src/generated: run-states.ts,
      phase-transitions.ts, artifact-roles.ts, state-invariants.ts, run-event-registry.ts) and
      [RunReducer] (packages/domain/src: reducer.ts, guards.ts, run-state.ts, events.ts): the state
      machine of a run.  [RunRegistry] gives the abstract relation [legal_edge] and shows
      that the generated registry implements it; [RunTheorems] proves what holds along every run.
    - [RunStore], [RunStoreTheorems] (packages/state-store/src/repositories: runs.ts, events.ts):
      the stored projection and the append-only event log.

    Canonical text and changes
    - [TextPatch], [TextPatchTheorems] (packages/verification/src/changeset/text-patch.ts): unified
      diffs on files with byte order marks and mixed line endings.
    - [CanonicalJson], [CanonicalJsonTheorems] (packages/contracts/src/canonical.ts): the RFC 8785
      printer and the strict parser.
    - [Digest], [DigestTheorems] (packages/contracts/src: digest.ts and
      generated/digest-projections.ts): tagged digests, the registry of projections, envelopes.
    - [RelativePath] (packages/repository/src/relative-path.ts and changeset/paths.ts),
      [ChangeApply] (changeset: tree.ts, apply.ts, chains.ts, validate.ts), [ChangeTheorems],
      [PathTheorems]: candidate trees and the nine change operations.

    Workflows
    - [DagEngine], [DagTheorems] (packages/domain/src: dag-engine.ts, node-reducer.ts and
      packages/agent-runtime/src/orchestrator.ts): scheduling the nodes of an agent workflow.
    - [ProfileCompose], [ProfileCompiler], [ProfileGraph], [ProfileTheorems], [ProfileLiveness]
      (packages/domain/src: profile-catalog.ts, project-adapter.ts, profile-compiler.ts,
      adaptive-router.ts): from a task contract to a compiled workflow.
    - [Requirements], [Delivery], [DeliveryTheorems] (packages/domain/src:
      requirement-projection.ts, acceptance.ts, integration.ts, no-progress.ts,
      repair-convergence.ts, failures.ts, skill-rules.ts, artifact-validation.ts).

    Security
    - [Replay], [MutationTheorems] (packages/security/src/replay.ts): signed mutations and nonces.
    - [Classification], [Egress], [EgressTheorems] (packages/security/src: classification.ts, dlp.ts,
      egress.ts): sensitive content, with the regular expressions of the language.
    - [Identity], [HttpGate], [HttpGateTheorems] (packages/security/src: identity.ts,
      authorization.ts, capability.ts and the hooks of faex1/apps/control-plane/src): the way of a
      request to its handler.
    - [Approval] (packages/security/src: approval.ts, fa-grant.ts): decisions and grants.

    Verification
    - [Plan], [PlanTheorems], [PlanRevise] (packages/verification/src/plan): the graph of
      obligations and checks and its revision.
    - [Evidence], [Verdict], [VerdictTheorems] (packages/verification/src: evidence/, verdict.ts).
    - [RepairPacket], [RepairTheorems] (packages/verification/src/repair-packet.ts).
    - [Sandbox], [SandboxTheorems] (packages/sandbox/src: protocol.ts, redact.ts, hyperv/result.ts;
      packages/verification/src: producers/sandbox-job.ts and sandbox-exec.ts,
      plan/command-authority.ts; grant-verifier.ts of the secret broker): the signed jobs that run
      the commands of checks, the protocol of the runner that admits and answers them.

    Cloud calls
    - [CloudWire], [CloudGateway], [CloudStore], [CloudCalls], [CloudProtocol], [CloudTheorems],
      [CloudApproval] (packages/cloud-gateway/src, packages/models/src/cloud, the artifact and usage
      repositories and services/cloud-dispatch.ts of the control plane).
    - [Usage] (packages/usage/src): pricing, normalization and totals.

    Context
    - [EvidenceGraph], [EvidenceGraphTheorems], [Dedupe], [DedupeTheorems], [Retrieval],
      [RetrievalTheorems] (packages/evidence/src): the evidence graph, its deduplication, the fusion
      of retrieval channels.
    - [Preflight] (packages/preflight/src: closure/, actions.ts, scheduler.ts, stability.ts,
      orchestrator.ts, tools/scanner.ts): rounds that gather evidence until the task is closed.
    - [ContextSelect], [ContextSelectTheorems], [ContextPacket], [ContextCompiler],
      [ContextTheorems] (packages/context-compiler/src): what a cloud model is sent.
    - [Instructions], [InstructionTheorems], [Skills], [SkillTheorems] (packages/instructions/src):
      instruction files, the capabilities they give, and the skills they require.

    Control plane storage
    - [OperationStore], [OperationTheorems] (packages/state-store/src/operation-store.ts and the
      operation handlers): queued operations and leases.
    - [Idempotency], [IdempotencyTheorems] (packages/state-store/src/idempotency.ts and the wrapper
      of mutation handlers).

    ** Correspondence

    Functions keep the names of the source.  Code that throws returns [result E A], with one
    constructor of [E] per error; a loop that accumulates is [rfold] or [foldl]; a [Map] or an object
    used as a map is an association list in insertion order ([JsMap]), a [Set] a list queried with
    [includes].  Strings are [ustr] (code units) where their contents matter and [string] where
    they are ASCII identifiers.  JavaScript numbers are [Z] where the code keeps them integral, with
    the safe-integer bound written out; other doubles are the interface [Doubles], whose laws
    ([DoublesLaws]) say how they print and parse, or the IEEE doubles of the kernel where the code
    computes with them.  A table of the database is the list of its rows, and a transaction a function
    that returns the new tables or throws and leaves them as they were.  SHA-256 ([Hashing]), NFC and
    upper-casing ([Unicode], [UnicodeLaws]), [Date.parse], Ed25519, AES, the compiled schemas and the
    agent runtime are parameters; the durations added to a parsed time are written out.  Further parameters
    are the comparison of a Shannon entropy, a sum of logarithms in doubles, with a threshold, and a clock that
    can be read.  No theorem assumes that the hash is injective, the theorems about digests end in an
    explicit collision instead.  Every interface has a concrete instance that the witnesses use.

    ** What the theorems show

    - Runs: the reducer accepts exactly the edges of the abstract relation whose guards hold,
      advances the version by one, keeps the role invariant of the current state, absorbs in
      terminal states, never accepts an event twice, needs verification before success and, before
      an effect, an event for which its caller asserts the guard of a consumed approval; every
      state can reach a terminal one, and success is reachable.  The stored run is the reduction
      of its event log, up to the order of artifacts and the snapshot that the store resolves.
    - Patches: applying hunks succeeds exactly for ordered, disjoint, matching hunks and then gives
      the specified rewriting; parsing and rendering a file round-trips.
    - Canonical JSON and digests: the printer is injective up to key order, the parser inverts it
      unless a property is named [__proto__], key order is irrelevant, the parser terminates, and a tagged digest binds domain, version and
      payload.
    - Change sets: a validated change set keeps the tree well-formed, changes only declared paths
      and never anything below [.git]; each operation has its post-condition; accepted paths and
      link targets stay below the root; base64 contents are canonical.
    - Workflows: progress of the scheduler, the life of a node, what a wave may spawn; compiled
      profiles are well-formed and acyclic, and when compilation succeeds; the requirement ledger is
      the contract.
    - Security: a request reaches a handler that changes state only when it is authenticated,
      authorized and signed; an accepted signature fixes the request and its time; grants are
      justified and usable once; restricted content does not leave to a public cloud.
    - Plans and verdicts: the plan check is exact, topological orders are complete, revisions are
      monotone, a candidate is accepted exactly when every mandatory obligation is discharged,
      acceptance rests on admissible evidence only, rejection on stable failures, and the sequential
      test amounts to a count; repair packets account for every failure and repeat no local finding that JSON prints as it
      is.
    - Sandbox: only a job that is signed, current and unused reaches a backend, every answer verifies
      under a key attested for fifteen minutes, and a job the verifier builds is admitted.
    - Cloud calls: whatever is interleaved and whatever stops, a call is accepted at most once; the
      report of the adapter is what happened; what two runs post under one approval is the same
      request.
    - Context: merging and deduplicating evidence keep its provenance up to the time of observation,
      retrieval is coherent, a preflight asks about known claims and is complete only on closed
      evidence with corroborated loci, the selection keeps to its budget, a compiled context is
      closed, redacted and bound to the request; a repository can only deny capabilities, and only
      trusted skills are loaded.
    - Storage: results and extensions of an operation come only from the holder of its lease, which
      a claimant gets for thirty seconds, and an answered mutation is replayed without its content
      type.

    Some theorems and lemmas record where the code falls short of what it means to do, for example
    [controller_discards_wave], [proto_member_lost], [double_bom_lost], [shared_id_admits],
    [composed_links_escape], [authorship_laundered], [cycle_missed], [safety_limit_passes] and [null_payload_throws].

    ** Fuel

    Loops that are not structural carry fuel, with a proof that it is enough: hunk parsing
    [S (length lines)], the JSON parser [2 * length + 1] ([parseCanonicalJsonText_terminates]),
    directory digests [S] of the number of nodes, line splitting the length of the text, the
    work loops of the plan graph [S (length ready + length incoming)] ([drain_fuel]), the cycle check
    of profiles the number of nodes plus one ([hasCycle_exact]), repetitions of a regular expression
    the length of the rest of the text ([rep_fuel]), union-find one more than the length of the
    array, the optional part of the selection the number of optional bundles
    ([selectBundles_exact]), the front matter parser three times the number of lines plus three
    ([parseYamlMap_terminates]), the dependencies of skills the number of skills plus two
    ([resolved_skills_sound]).  The rounds of a preflight are a list of inputs instead: nothing bounds
    how often a channel may bring new evidence, so its theorem is about the preflights that end, and
    the sample run of [SamplePreflight] ends after one round.

    ** Not modelled

    Network, process and file-system code (HTTP and PKI, connections and migrations of SQLite,
    content-addressed storage, sandbox backends, the native runner in Rust, the Pi extension and its
    user interface), repository ingestion, indexes and the statements the retrieval channels run on
    them, skill discovery, the tools and the session of a local analyst, agent sessions and their tools, the orchestration services
    of the control plane, the remaining model providers, the producers that parse tool output, and
    the schema validators, whose verdict is an input.  They are I/O around the modelled code or take
    their meaning from systems outside the repository. *)

From stdpp Require Export base list strings gmap relations sorting.
(** ** Throwing code: the result monad *)

Inductive result (E A : Type) : Type :=
| Ok (a : A)
| Err (e : E).
Arguments Ok {E A} a.
Arguments Err {E A} e.

Definition rbind {E A B} (c : result E A) (k : A -> result E B) : result E B :=
  match c with Ok a => k a | Err e => Err e end.

Declare Scope js_scope.
Delimit Scope js_scope with js.
Open Scope js_scope.

Notation "'let?' x := c 'in' k" := (rbind c (fun x => k))
  (at level 10, x name, c at level 100, k at level 200) : js_scope.
Notation "'let?' ' p := c 'in' k" := (rbind c (fun p => k))
  (at level 10, p strict pattern, c at level 100, k at level 200) : js_scope.
Notation "'throw_if' b 'with' e ; k" := (if b then Err e else k)
  (at level 10, b at level 100, e at level 100, k at level 200) : js_scope.

(** [for (const x of xs) { acc = step(acc, x) }] in throwing code. *)
Fixpoint rfold {E A S} (step : S -> A -> result E S) (s : S) (xs : list A) : result E S :=
  match xs with
  | [] => Ok s
  | x :: r => rbind (step s x) (fun s' => rfold step s' r)
  end.

(** [xs.map(f)] for a throwing [f]. *)
Fixpoint rmap {E A B} (f : A -> result E B) (xs : list A) : result E (list B) :=
  match xs with
  | [] => Ok []
  | x :: r => let? y := f x in let? ys := rmap f r in Ok (y :: ys)
  end.

#[export] Instance Ok_inj {E A} : Inj eq eq (@Ok E A).
Proof. by intros a b [= ->]. Qed.

Definition is_ok {E A} (c : result E A) : bool :=
  match c with Ok _ => true | Err _ => false end.

Section ResultLemmas.
Context {E : Type}.

Lemma rbind_ok {A B} (c : result E A) (k : A -> result E B) b :
  rbind c k = Ok b <-> exists a, c = Ok a /\ k a = Ok b.
Proof. destruct c; simpl; naive_solver. Qed.

Lemma rmap_ok {A B} (f : A -> result E B) xs ys :
  rmap f xs = Ok ys <-> Forall2 (fun x y => f x = Ok y) xs ys.
Proof.
  revert ys. induction xs as [|x xs IH]; intros ys; simpl.
  - split; [intros [= <-]; constructor | inversion 1; done].
  - rewrite rbind_ok. setoid_rewrite rbind_ok. split.
    + intros (y & Hy & zs & Hzs & [= <-]). constructor; [done | by apply IH].
    + inversion 1 as [|? y ? zs Hy Hzs]; subst.
      exists y. split; [done|]. exists zs. split; [by apply IH | done].
Qed.

Lemma rfold_app {A S} (f : S -> A -> result E S) xs ys s :
  rfold f s (xs ++ ys) = rbind (rfold f s xs) (fun s' => rfold f s' ys).
Proof.
  revert s. induction xs as [|x xs IH]; intros s; simpl; [done|].
  destruct (f s x); simpl; [apply IH | done].
Qed.

(** Invariant rule for throwing loops. *)
Lemma rfold_ind {A S} (P : S -> Prop) (f : S -> A -> result E S) xs s s' :
  (forall t x t', x ∈ xs -> P t -> f t x = Ok t' -> P t') ->
  P s -> rfold f s xs = Ok s' -> P s'.
Proof.
  revert s. induction xs as [|x xs IH]; intros s Hstep Hs H; simpl in H.
  - by injection H as <-.
  - apply rbind_ok in H as (t & Ht & H). eapply IH; [| | exact H].
    + intros u y u' Hy. apply Hstep. by right.
    + eapply Hstep; [by left | exact Hs | exact Ht].
Qed.
End ResultLemmas.

(** Decompose successful runs of throwing code. *)
Ltac inv_ok_step :=
  match goal with
  | H : rbind _ _ = Ok _ |- _ => apply rbind_ok in H as (? & ? & ?)
  | H : (if ?b then Err _ else _) = Ok _ |- _ =>
      let E := fresh "Hb" in destruct b eqn:E; [discriminate H |]
  | H : (if ?b then _ else Err _) = Ok _ |- _ =>
      let E := fresh "Hb" in destruct b eqn:E; [| discriminate H]
  | H : Err _ = Ok _ |- _ => discriminate H
  | H : Ok _ = Ok _ |- _ => injection H as H
  | H : Ok _ = Err _ |- _ => discriminate H
  end.
Ltac inv_ok := repeat (inv_ok_step; simplify_eq).

(** ** JavaScript arrays and sets used by the sources *)

(** [xs.includes(x)], and [new Set(xs).has(x)]. *)
Definition includes {A} `{EqDecision A} (x : A) (xs : list A) : bool :=
  bool_decide (x ∈ xs).

Lemma includes_true {A} `{EqDecision A} (x : A) xs : includes x xs = true <-> x ∈ xs.
Proof. apply bool_decide_eq_true. Qed.

Lemma includes_false {A} `{EqDecision A} (x : A) xs : includes x xs = false <-> x ∉ xs.
Proof. apply bool_decide_eq_false. Qed.

(** [[...new Set(xs)]]: first occurrences, in order. *)
Definition setAdd {A} `{EqDecision A} (acc : list A) (x : A) : list A :=
  if includes x acc then acc else acc ++ [x].
Definition uniq {A} `{EqDecision A} (xs : list A) : list A := fold_left setAdd xs [].

(** [xs.find(p)]. *)
Fixpoint array_find {A} (p : A -> bool) (xs : list A) : option A :=
  match xs with
  | [] => None
  | x :: r => if p x then Some x else array_find p r
  end.

(** [xs.sort(cmp)] (stable), for a comparator given by its [<=] test. *)
Fixpoint insert_by {A} (leb : A -> A -> bool) (x : A) (l : list A) : list A :=
  match l with
  | [] => [x]
  | y :: r => if leb x y then x :: y :: r else y :: insert_by leb x r
  end.
Definition sort_by {A} (leb : A -> A -> bool) (l : list A) : list A :=
  foldr (insert_by leb) [] l.

Lemma array_find_some {A} (p : A -> bool) xs x :
  array_find p xs = Some x -> x ∈ xs /\ p x = true.
Proof.
  induction xs as [|y xs IH]; simpl; [done|].
  destruct (p y) eqn:Hp; intros H; [injection H as <- | apply IH in H as [??]];
    split; set_solver.
Qed.

Lemma array_find_none {A} (p : A -> bool) xs :
  array_find p xs = None -> forall x, x ∈ xs -> p x = false.
Proof.
  induction xs as [|y xs IH]; simpl; [by intros _ x ?%not_elem_of_nil|].
  destruct (p y) eqn:Hp; [done|]. intros H x [->|Hx]%elem_of_cons; eauto.
Qed.

Lemma elem_of_setAdd {A} `{EqDecision A} (acc : list A) x y :
  y ∈ setAdd acc x <-> y = x \/ y ∈ acc.
Proof.
  unfold setAdd. destruct (includes x acc) eqn:Hi.
  - apply includes_true in Hi. naive_solver.
  - rewrite elem_of_app, list_elem_of_singleton. naive_solver.
Qed.

Lemma elem_of_foldl_setAdd {A} `{EqDecision A} (xs acc : list A) y : y ∈ foldl setAdd acc xs <-> y ∈ acc \/ y ∈ xs.
Proof.
  revert acc. induction xs as [|x xs IH]; intros acc; cbn; [set_solver|].
  rewrite IH, elem_of_setAdd, elem_of_cons. tauto.
Qed.

Lemma NoDup_setAdd {A} `{EqDecision A} (acc : list A) x : NoDup acc -> NoDup (setAdd acc x).
Proof.
  unfold setAdd. destruct (includes x acc) eqn:Hi; [done|].
  apply includes_false in Hi. intros Hn. apply NoDup_app.
  split; [done|]. split; [|apply NoDup_singleton]. set_solver.
Qed.

Lemma uniq_spec {A} `{EqDecision A} (xs : list A) :
  NoDup (uniq xs) /\ forall y, y ∈ uniq xs <-> y ∈ xs.
Proof.
  unfold uniq. cut (forall acc, NoDup acc -> NoDup (fold_left setAdd xs acc) /\
    forall y, y ∈ fold_left setAdd xs acc <-> y ∈ acc \/ y ∈ xs).
  { intros H0. destruct (H0 [] (NoDup_nil_2)) as [? H1]. split; [done|].
    intros y. rewrite H1. set_solver. }
  induction xs as [|x xs IH]; intros acc Ha; simpl.
  - split; [done|]. set_solver.
  - destruct (IH (setAdd acc x)) as [? H1]; [by apply NoDup_setAdd|].
    split; [done|]. intros y. rewrite H1, elem_of_setAdd, elem_of_cons. tauto.
Qed.

(** The index of the first occurrence. *)
Definition position {A} `{EqDecision A} (Q : list A) (x : A) : nat :=
  default 0 (fst <$> list_find (fun y => y = x) Q).

Lemma position_lookup {A} `{EqDecision A} (Q : list A) i x :
  NoDup Q -> Q !! i = Some x -> position Q x = i.
Proof.
  intros Hn Hi. unfold position.
  destruct (list_find (fun y => y = x) Q) as [[j y]|] eqn:E; simpl.
  - apply list_find_Some in E as (Hj & -> & _). by eapply NoDup_lookup.
  - apply list_find_None in E. apply list_elem_of_lookup_2 in Hi.
    rewrite Forall_forall in E. by destruct (E x Hi).
Qed.

(** [xs.filter(p)] keeps exactly the elements that satisfy [p]. *)
Lemma elem_of_List_filter {A} (p : A -> bool) l x : x ∈ List.filter p l <-> x ∈ l /\ p x = true.
Proof. rewrite !list_elem_of_In. apply filter_In. Qed.

Lemma existsb_elem {A} (p : A -> bool) l : existsb p l = true <-> exists x, x ∈ l /\ p x = true.
Proof. rewrite existsb_exists. by setoid_rewrite list_elem_of_In. Qed.

Lemma existsb_none {A} (p : A -> bool) l : existsb p l = false <-> forall x, x ∈ l -> p x = false.
Proof.
  rewrite <- not_true_iff_false, existsb_elem. split.
  - intros H x Hx. apply not_true_iff_false. naive_solver.
  - intros H (x & Hx & Hp). rewrite H in Hp; done.
Qed.

Lemma NoDup_map_filter {A B} (f : A -> B) (p : A -> bool) l : NoDup (map f l) -> NoDup (map f (List.filter p l)).
Proof.
  induction l as [|x l IH]; simpl; [done|]. intros [Hx Hn]%NoDup_cons.
  destruct (p x); simpl; [|by apply IH]. constructor; [|by apply IH].
  intros (y & Hy & Hin)%list_elem_of_fmap. apply Hx, list_elem_of_fmap.
  exists y. split; [done|]. by apply elem_of_List_filter in Hin as [? _].
Qed.

Section SortBy.
Context {A : Type} (leb : A -> A -> bool).

Lemma sort_by_cons x l : sort_by leb (x :: l) = insert_by leb x (sort_by leb l).
Proof. done. Qed.

Lemma insert_by_perm x l : insert_by leb x l ≡ₚ x :: l.
Proof.
  induction l as [|y l IH]; simpl; [done|]. destruct (leb x y); [done|].
  rewrite IH. apply Permutation_swap.
Qed.

Lemma sort_by_perm l : sort_by leb l ≡ₚ l.
Proof. induction l as [|x l IH]; simpl; [done|]. by rewrite insert_by_perm, IH. Qed.

Lemma elem_of_sort_by l x : x ∈ sort_by leb l <-> x ∈ l.
Proof. by rewrite sort_by_perm. Qed.

Context (Htot : forall x y, leb x y = true \/ leb y x = true).

Lemma insert_by_sorted x l :
  Sorted (fun a b => leb a b = true) l -> Sorted (fun a b => leb a b = true) (insert_by leb x l).
Proof using Htot.
  induction 1 as [|y l Hs IH Hh]; simpl; [by repeat constructor|].
  destruct (leb x y) eqn:Hxy; [by repeat constructor|].
  constructor; [done|].
  assert (leb y x = true) by (destruct (Htot x y); congruence).
  destruct l as [|z l]; simpl in *; [by constructor|].
  destruct (leb x z); constructor; [done|]. by inversion Hh.
Qed.

Lemma sort_by_sorted l : Sorted (fun a b => leb a b = true) (sort_by leb l).
Proof using Htot. induction l; simpl; [constructor | by apply insert_by_sorted]. Qed.
End SortBy.

(** ** [Map] and plain objects used as maps

    A JavaScript [Map] iterates in insertion order: [set] on a present key keeps its
    position, on an absent key appends, [delete] removes the entry.  The model is the
    association list of the entries in that order. *)

Module JsMap.
Section JsMap.
Context {K V : Type} `{EqDecision K}.

Fixpoint get (k : K) (m : list (K * V)) : option V :=
  match m with
  | [] => None
  | (k', v) :: r => if decide (k = k') then Some v else get k r
  end.

Fixpoint set (k : K) (v : V) (m : list (K * V)) : list (K * V) :=
  match m with
  | [] => [(k, v)]
  | (k', v') :: r => if decide (k = k') then (k', v) :: r else (k', v') :: set k v r
  end.

Fixpoint del (k : K) (m : list (K * V)) : list (K * V) :=
  match m with
  | [] => []
  | (k', v') :: r => if decide (k = k') then r else (k', v') :: del k r
  end.

Definition has (k : K) (m : list (K * V)) : bool :=
  match get k m with Some _ => true | None => false end.

Definition keys (m : list (K * V)) : list K := map fst m.
Definition values (m : list (K * V)) : list V := map snd m.

Lemma get_set k k' v m :
  get k (set k' v m) = if decide (k = k') then Some v else get k m.
Proof.
  induction m as [|[k0 v0] m IH]; simpl.
  - by repeat case_decide.
  - repeat case_decide; simplify_eq; simpl; repeat case_decide; simplify_eq; done.
Qed.

Lemma get_set_eq k v m : get k (set k v m) = Some v.
Proof. rewrite get_set. by case_decide. Qed.

Lemma get_set_ne k k' v m : k <> k' -> get k (set k' v m) = get k m.
Proof. intros. rewrite get_set. by case_decide. Qed.

Lemma get_some_elem k v m : get k m = Some v -> (k, v) ∈ m.
Proof.
  induction m as [|[k0 v0] m IH]; simpl; [done|]. case_decide; [|set_solver].
  intros [= ->]. subst. set_solver.
Qed.

Lemma get_none k m : get k m = None <-> k ∉ keys m.
Proof.
  induction m as [|[k0 v0] m IH]; simpl; [set_solver|]. case_decide; set_solver.
Qed.

Lemma get_is_some k m : is_Some (get k m) <-> k ∈ keys m.
Proof.
  rewrite <- not_eq_None_Some, get_none. destruct (decide (k ∈ keys m)); tauto.
Qed.

Lemma has_true k m : has k m = true <-> k ∈ keys m.
Proof. unfold has. rewrite <- get_is_some. destruct (get k m); naive_solver. Qed.

Lemma has_false k m : has k m = false <-> get k m = None.
Proof. unfold has. destruct (get k m); naive_solver. Qed.

Lemma elem_of_keys_set k k' v m : k ∈ keys (set k' v m) <-> k = k' \/ k ∈ keys m.
Proof. rewrite <- !get_is_some, get_set. case_decide; naive_solver. Qed.

Lemma keys_set_present k v m : k ∈ keys m -> keys (set k v m) = keys m.
Proof.
  induction m as [|[k0 v0] m IH]; simpl; [set_solver|].
  case_decide; [done|]. intros ?%elem_of_cons. simpl. f_equal. apply IH. naive_solver.
Qed.

Lemma keys_set_absent k v m : k ∉ keys m -> keys (set k v m) = keys m ++ [k].
Proof.
  induction m as [|[k0 v0] m IH]; simpl; [done|]. intros Hk.
  case_decide; [set_solver|]. simpl. f_equal. apply IH. set_solver.
Qed.

Lemma NoDup_keys_set k v m : NoDup (keys m) -> NoDup (keys (set k v m)).
Proof.
  intros Hn. destruct (decide (k ∈ keys m)) as [Hk|Hk].
  - by rewrite keys_set_present.
  - rewrite keys_set_absent by done. apply NoDup_app.
    split; [done|]. split; [set_solver | apply NoDup_singleton].
Qed.

Lemma get_del k k' m :
  NoDup (keys m) -> get k (del k' m) = if decide (k = k') then None else get k m.
Proof.
  induction m as [|[k0 v0] m IH]; simpl; [by case_decide|].
  intros [Hk0 Hn]%NoDup_cons. destruct (decide (k' = k0)); subst.
  - repeat case_decide; simplify_eq; try done. by apply get_none.
  - simpl. rewrite IH by done. repeat case_decide; simplify_eq; done.
Qed.

Lemma keys_del_subseteq k m : keys (del k m) ⊆ keys m.
Proof.
  induction m as [|[k0 v0] m IH]; simpl; [done|]. case_decide; set_solver.
Qed.

Lemma NoDup_keys_del k m : NoDup (keys m) -> NoDup (keys (del k m)).
Proof.
  induction m as [|[k0 v0] m IH]; simpl; [done|].
  intros [Hk0 Hn]%NoDup_cons. case_decide; [done|]. simpl. constructor; [|by apply IH].
  intros Hin. by apply keys_del_subseteq in Hin.
Qed.

Lemma elem_get k v m : NoDup (keys m) -> (k, v) ∈ m -> get k m = Some v.
Proof.
  induction m as [|[k0 v0] m IH]; simpl; [set_solver|].
  intros [Hk0 Hn]%NoDup_cons [[= -> ->]|Hin]%elem_of_cons; [by case_decide|].
  case_decide; subst; [|by apply IH].
  exfalso. apply Hk0. apply list_elem_of_In, in_map_iff. exists (k0, v).
  split; [done|]. by apply list_elem_of_In.
Qed.
End JsMap.
End JsMap.
Create HintDb jsmap.
#[export] Hint Resolve JsMap.NoDup_keys_set JsMap.NoDup_keys_del : jsmap.
