(* ===== verification/Ids.v ===== *)
(** Branded identifiers (packages/contracts/src/ids.ts): digests, prefixed UUIDv7 ids and
    the string-length schemas the run events use.

    Identifiers are ASCII; they are modelled as [string]. *)

From Stdlib Require Import Ascii String.
From S2P Require Import Prelude.
Open Scope string_scope.
Open Scope list_scope.

Definition SAFE_INTEGER_MAX : Z := 9007199254740991.
Definition ID_MAX_UTF8_BYTES : nat := 256.

Definition chars (s : string) : list ascii := String.list_ascii_of_string s.

Definition code (c : ascii) : N := Ascii.N_of_ascii c.
Definition is_digit (c : ascii) : bool := (48 <=? code c)%N && (code c <=? 57)%N.
Definition is_hex (c : ascii) : bool :=
  is_digit c || ((97 <=? code c)%N && (code c <=? 102)%N).
Definition is_char (d c : ascii) : bool := bool_decide (d = c).

(** [^c1c2...cn$] for a sequence of character classes. *)
Fixpoint matches (classes : list (ascii -> bool)) (cs : list ascii) : bool :=
  match classes, cs with
  | [], [] => true
  | p :: ps, c :: r => p c && matches ps r
  | _, _ => false
  end.

Definition literal (s : string) : list (ascii -> bool) := map is_char (chars s).

(** [SHA256_HEX_PATTERN] *)
Definition isDigest (value : string) : bool :=
  matches (literal "sha256:" ++ replicate 64 is_hex) (chars value).
Definition isObjectDigest (value : string) : bool := isDigest value.

Inductive BrandError : Set := mkBrandError (brand : string) (value : string).

Definition asObjectDigest (value : string) : result BrandError string :=
  if isObjectDigest value then Ok value else Err (mkBrandError "object digest" value).

(** *** UUIDv7 bodies *)

Definition one_of (s : string) (c : ascii) : bool := includes c (chars s).

Definition UUID_V7_BODY_CLASSES : list (ascii -> bool) :=
  replicate 8 is_hex ++ literal "-" ++ replicate 4 is_hex ++ literal "-7" ++
  replicate 3 is_hex ++ literal "-" ++ [one_of "89ab"] ++ replicate 3 is_hex ++
  literal "-" ++ replicate 12 is_hex.

(** [Number.parseInt(c, 16)] of one lowercase hex digit, and of a two-digit slice. *)
Definition hex_digit (c : ascii) : N := (if is_digit c then code c - 48 else code c - 87)%N.

Fixpoint hex_bytes (cs : list ascii) : list N :=
  match cs with
  | a :: b :: r => (16 * hex_digit a + hex_digit b)%N :: hex_bytes r
  | _ => []
  end.

Definition slice {A} (i j : nat) (l : list A) : list A := take (j - i) (drop i l).

Definition reconstruct (hex : list ascii) : list ascii :=
  slice 0 8 hex ++ chars "-" ++ slice 8 12 hex ++ chars "-" ++ slice 12 16 hex ++
  chars "-" ++ slice 16 20 hex ++ chars "-" ++ slice 20 32 hex.

Definition parseUuidV7Bytes (body : string) : option (list N) :=
  if negb (matches UUID_V7_BODY_CLASSES (chars body)) then None else
  let hex := List.filter (fun c => negb (is_char "-" c)) (chars body) in
  let bytes := hex_bytes hex in
  let version := N.shiftr (default 0%N (bytes !! 6%nat)) 4 in
  let variant := N.shiftr (default 0%N (bytes !! 8%nat)) 6 in
  if negb (version =? 7)%N || negb (variant =? 2)%N then None else
  if negb (bool_decide (reconstruct hex = chars body)) then None else Some bytes.

Definition starts_with (prefix s : string) : bool := String.prefix prefix s.

Definition isPrefixedUuidV7 (prefix value : string) : bool :=
  starts_with prefix value &&
  match parseUuidV7Bytes (String.substring (String.length prefix) (String.length value) value) with
  | Some _ => true
  | None => false
  end.

Definition isRunId (value : string) : bool := isPrefixedUuidV7 "run_" value.
Definition isOperationId (value : string) : bool := isPrefixedUuidV7 "op_" value.
Definition isSnapshotId (value : string) : bool := isPrefixedUuidV7 "snap_" value.
Definition isApprovalId (value : string) : bool := isPrefixedUuidV7 "approval_" value.

Definition asRunId (value : string) : result BrandError string :=
  if isRunId value then Ok value else Err (mkBrandError "run id" value).
Definition asOperationId (value : string) : result BrandError string :=
  if isOperationId value then Ok value else Err (mkBrandError "operation id" value).

(** [utf8BoundedString(ID_MAX_UTF8_BYTES)] *)
Definition GeneralIdSchema (value : string) : bool :=
  (1 <=? String.length value)%nat && (String.length value <=? ID_MAX_UTF8_BYTES)%nat.

Example digest_ok :
  isDigest "sha256:0123456789abcdef0123456789abcdef0123456789abcdef0123456789abcdef" = true.
Proof. vm_compute. reflexivity. Qed.

Example uuid_ok : isOperationId "op_0190a3b4-c5d6-7e8f-9a0b-1c2d3e4f5061" = true.
Proof. vm_compute. reflexivity. Qed.

Example uuid_wrong_version : isOperationId "op_0190a3b4-c5d6-4e8f-9a0b-1c2d3e4f5061" = false.
Proof. vm_compute. reflexivity. Qed.
