(* ===== verification/RunStates.v ===== *)
(** Run states, guards and the phase-transition table
    (packages/contracts/src/generated/run-states.ts, phase-transitions.ts).

    Constructors carry the literal names of the source.  Decidable equality goes
    through a numbering, so that tables over all states stay cheap to evaluate. *)

From S2P Require Import Prelude.
(** ** run-states.ts *)

Inductive RunState : Set :=
| CREATED
| SNAPSHOT_REQUESTED
| SNAPSHOT_UPLOADING
| SNAPSHOT_VALIDATING
| SNAPSHOT_READY
| INSTRUCTIONS_RESOLVING
| INDEXING
| BASELINE_PLANNING
| AWAITING_BASELINE_COMMAND_APPROVAL
| BASELINE_VERIFYING
| WAITING_BASELINE_ENVIRONMENT
| BASELINE_SEALED
| PREFLIGHT_RUNNING
| PREFLIGHT_COMPLETE
| PREFLIGHT_SATURATED_WITH_UNKNOWNS
| PREFLIGHT_RESOURCE_LIMITED
| AWAITING_REQUIREMENTS_INPUT
| WAITING_PREFLIGHT_RESOURCE
| CONTRACTED
| PROFILE_SELECTED
| PROFILE_RUNNING
| ACCEPTANCE_CHECK
| BLOCKED
| CONTEXT_COMPILING
| WAITING_INITIAL_CONTEXT_CAPACITY
| WAITING_DELTA_CONTEXT_CAPACITY
| WAITING_REPAIR_CONTEXT_CAPACITY
| WAITING_INITIAL_OUTPUT_CAPACITY
| WAITING_DELTA_OUTPUT_CAPACITY
| WAITING_REPAIR_OUTPUT_CAPACITY
| EGRESS_SCANNING
| WAITING_CLOUD_ELIGIBILITY
| AWAITING_EGRESS_APPROVAL
| CLOUD_PREPARED
| CLOUD_DISPATCHING
| CLOUD_IN_FLIGHT
| WAITING_PROVIDER
| CLOUD_OUTCOME_UNKNOWN
| AWAITING_DUPLICATE_CALL_APPROVAL
| CONTEXT_REQUESTED
| CONTEXT_DELTA_COMPILING
| SOLUTION_RECEIVED
| SOLUTION_VALIDATING
| SOLUTION_PROTOCOL_REJECTED
| AWAITING_NEW_CLOUD_CALL_APPROVAL
| AWAITING_CLOUD_INPUT
| NO_CHANGE_VERIFYING
| MATERIALIZING
| VERIFICATION_PLANNING
| AWAITING_CANDIDATE_COMMAND_APPROVAL
| WAITING_VERIFICATION_ENVIRONMENT
| VERIFYING
| VERIFIED_ACCEPTED
| VERIFIED_REJECTED
| VERIFIED_INCONCLUSIVE
| NO_CHANGE_FINALIZING
| REPAIR_PREPARING
| PAUSED_NO_PROGRESS
| AWAITING_VERIFICATION_INPUT
| AWAITING_APPLY_APPROVAL
| APPLY_PREPARING
| APPLYING
| APPLY_RECONCILING
| APPLY_MANUAL_RECOVERY_REQUIRED
| CANCELLATION_PENDING
| SUCCEEDED
| STALE
| CANCELLED
| FAILED.

Definition RUN_STATES : list RunState :=
  [CREATED; SNAPSHOT_REQUESTED; SNAPSHOT_UPLOADING; SNAPSHOT_VALIDATING; SNAPSHOT_READY;
   INSTRUCTIONS_RESOLVING; INDEXING; BASELINE_PLANNING; AWAITING_BASELINE_COMMAND_APPROVAL;
   BASELINE_VERIFYING; WAITING_BASELINE_ENVIRONMENT; BASELINE_SEALED; PREFLIGHT_RUNNING;
   PREFLIGHT_COMPLETE; PREFLIGHT_SATURATED_WITH_UNKNOWNS; PREFLIGHT_RESOURCE_LIMITED;
   AWAITING_REQUIREMENTS_INPUT; WAITING_PREFLIGHT_RESOURCE; CONTRACTED; PROFILE_SELECTED;
   PROFILE_RUNNING; ACCEPTANCE_CHECK; BLOCKED; CONTEXT_COMPILING;
   WAITING_INITIAL_CONTEXT_CAPACITY; WAITING_DELTA_CONTEXT_CAPACITY;
   WAITING_REPAIR_CONTEXT_CAPACITY; WAITING_INITIAL_OUTPUT_CAPACITY;
   WAITING_DELTA_OUTPUT_CAPACITY; WAITING_REPAIR_OUTPUT_CAPACITY; EGRESS_SCANNING;
   WAITING_CLOUD_ELIGIBILITY; AWAITING_EGRESS_APPROVAL; CLOUD_PREPARED; CLOUD_DISPATCHING;
   CLOUD_IN_FLIGHT; WAITING_PROVIDER; CLOUD_OUTCOME_UNKNOWN;
   AWAITING_DUPLICATE_CALL_APPROVAL; CONTEXT_REQUESTED; CONTEXT_DELTA_COMPILING;
   SOLUTION_RECEIVED; SOLUTION_VALIDATING; SOLUTION_PROTOCOL_REJECTED;
   AWAITING_NEW_CLOUD_CALL_APPROVAL; AWAITING_CLOUD_INPUT; NO_CHANGE_VERIFYING;
   MATERIALIZING; VERIFICATION_PLANNING; AWAITING_CANDIDATE_COMMAND_APPROVAL;
   WAITING_VERIFICATION_ENVIRONMENT; VERIFYING; VERIFIED_ACCEPTED; VERIFIED_REJECTED;
   VERIFIED_INCONCLUSIVE; NO_CHANGE_FINALIZING; REPAIR_PREPARING; PAUSED_NO_PROGRESS;
   AWAITING_VERIFICATION_INPUT; AWAITING_APPLY_APPROVAL; APPLY_PREPARING; APPLYING;
   APPLY_RECONCILING; APPLY_MANUAL_RECOVERY_REQUIRED; CANCELLATION_PENDING; SUCCEEDED;
   STALE; CANCELLED; FAILED].

Definition RunState_index (s : RunState) : N :=
  match s with
  | CREATED => 0
  | SNAPSHOT_REQUESTED => 1
  | SNAPSHOT_UPLOADING => 2
  | SNAPSHOT_VALIDATING => 3
  | SNAPSHOT_READY => 4
  | INSTRUCTIONS_RESOLVING => 5
  | INDEXING => 6
  | BASELINE_PLANNING => 7
  | AWAITING_BASELINE_COMMAND_APPROVAL => 8
  | BASELINE_VERIFYING => 9
  | WAITING_BASELINE_ENVIRONMENT => 10
  | BASELINE_SEALED => 11
  | PREFLIGHT_RUNNING => 12
  | PREFLIGHT_COMPLETE => 13
  | PREFLIGHT_SATURATED_WITH_UNKNOWNS => 14
  | PREFLIGHT_RESOURCE_LIMITED => 15
  | AWAITING_REQUIREMENTS_INPUT => 16
  | WAITING_PREFLIGHT_RESOURCE => 17
  | CONTRACTED => 18
  | PROFILE_SELECTED => 19
  | PROFILE_RUNNING => 20
  | ACCEPTANCE_CHECK => 21
  | BLOCKED => 22
  | CONTEXT_COMPILING => 23
  | WAITING_INITIAL_CONTEXT_CAPACITY => 24
  | WAITING_DELTA_CONTEXT_CAPACITY => 25
  | WAITING_REPAIR_CONTEXT_CAPACITY => 26
  | WAITING_INITIAL_OUTPUT_CAPACITY => 27
  | WAITING_DELTA_OUTPUT_CAPACITY => 28
  | WAITING_REPAIR_OUTPUT_CAPACITY => 29
  | EGRESS_SCANNING => 30
  | WAITING_CLOUD_ELIGIBILITY => 31
  | AWAITING_EGRESS_APPROVAL => 32
  | CLOUD_PREPARED => 33
  | CLOUD_DISPATCHING => 34
  | CLOUD_IN_FLIGHT => 35
  | WAITING_PROVIDER => 36
  | CLOUD_OUTCOME_UNKNOWN => 37
  | AWAITING_DUPLICATE_CALL_APPROVAL => 38
  | CONTEXT_REQUESTED => 39
  | CONTEXT_DELTA_COMPILING => 40
  | SOLUTION_RECEIVED => 41
  | SOLUTION_VALIDATING => 42
  | SOLUTION_PROTOCOL_REJECTED => 43
  | AWAITING_NEW_CLOUD_CALL_APPROVAL => 44
  | AWAITING_CLOUD_INPUT => 45
  | NO_CHANGE_VERIFYING => 46
  | MATERIALIZING => 47
  | VERIFICATION_PLANNING => 48
  | AWAITING_CANDIDATE_COMMAND_APPROVAL => 49
  | WAITING_VERIFICATION_ENVIRONMENT => 50
  | VERIFYING => 51
  | VERIFIED_ACCEPTED => 52
  | VERIFIED_REJECTED => 53
  | VERIFIED_INCONCLUSIVE => 54
  | NO_CHANGE_FINALIZING => 55
  | REPAIR_PREPARING => 56
  | PAUSED_NO_PROGRESS => 57
  | AWAITING_VERIFICATION_INPUT => 58
  | AWAITING_APPLY_APPROVAL => 59
  | APPLY_PREPARING => 60
  | APPLYING => 61
  | APPLY_RECONCILING => 62
  | APPLY_MANUAL_RECOVERY_REQUIRED => 63
  | CANCELLATION_PENDING => 64
  | SUCCEEDED => 65
  | STALE => 66
  | CANCELLED => 67
  | FAILED => 68
  end%N.

Definition TERMINAL_RUN_STATES : list RunState :=
  [SUCCEEDED; CANCELLED; FAILED; STALE; APPLY_MANUAL_RECOVERY_REQUIRED].

Definition ENTER_EXCLUDED_STATES : list RunState :=
  [CREATED; CANCELLATION_PENDING; CANCELLED; FAILED].

Inductive RunGuardId : Set :=
| SOURCE_STATE_VERSION_MATCHES
| REQUIRED_ARTIFACT_ROLES_PRESENT
| ARTIFACT_SIGNATURES_VALID
| APPROVAL_VALID_AND_CONSUMED
| SNAPSHOT_ROOT_CURRENT
| CLOUD_RECOVERY_DECISION_VALID
| VERDICT_ACCEPTED_CHANGESET
| VERDICT_ACCEPTED_NO_CHANGE
| REPAIR_ELIGIBLE
| NO_PROGRESS_POLICY_SATISFIED
| APPLY_JOURNAL_VALID
| APPLY_RECEIPT_COMMITTED
| NO_CHANGE_RECEIPT_VALID
| CAPACITY_FAILURE_VALID
| CAPACITY_CONSTRAINT_CLEARED
| CLOUD_ELIGIBILITY_SATISFIED
| NO_PROGRESS_CLEARED
| INPUT_REVISION_COMMITTED
| APPLY_RECEIPT_ROLLED_BACK
| APPLY_RECEIPT_STALE
| APPLY_RECEIPT_MANUAL_RECOVERY_REQUIRED
| CANCELLATION_INTERRUPTIBLE
| FAILURE_UNRECOVERABLE
| TASK_CONTRACT_VALID
| PROFILE_DAG_BOUND
| ACCEPTANCE_LEDGER_CLOSED
| WORKSPACE_LEASE_ISOLATED
| NO_SELF_APPROVAL
| ARTIFACT_TYPE_ALLOWED_FOR_ROLE.

Definition RUN_GUARD_IDS : list RunGuardId :=
  [SOURCE_STATE_VERSION_MATCHES; REQUIRED_ARTIFACT_ROLES_PRESENT;
   ARTIFACT_SIGNATURES_VALID; APPROVAL_VALID_AND_CONSUMED; SNAPSHOT_ROOT_CURRENT;
   CLOUD_RECOVERY_DECISION_VALID; VERDICT_ACCEPTED_CHANGESET; VERDICT_ACCEPTED_NO_CHANGE;
   REPAIR_ELIGIBLE; NO_PROGRESS_POLICY_SATISFIED; APPLY_JOURNAL_VALID;
   APPLY_RECEIPT_COMMITTED; NO_CHANGE_RECEIPT_VALID; CAPACITY_FAILURE_VALID;
   CAPACITY_CONSTRAINT_CLEARED; CLOUD_ELIGIBILITY_SATISFIED; NO_PROGRESS_CLEARED;
   INPUT_REVISION_COMMITTED; APPLY_RECEIPT_ROLLED_BACK; APPLY_RECEIPT_STALE;
   APPLY_RECEIPT_MANUAL_RECOVERY_REQUIRED; CANCELLATION_INTERRUPTIBLE;
   FAILURE_UNRECOVERABLE; TASK_CONTRACT_VALID; PROFILE_DAG_BOUND; ACCEPTANCE_LEDGER_CLOSED;
   WORKSPACE_LEASE_ISOLATED; NO_SELF_APPROVAL; ARTIFACT_TYPE_ALLOWED_FOR_ROLE].

Definition RunGuardId_index (g : RunGuardId) : N :=
  match g with
  | SOURCE_STATE_VERSION_MATCHES => 0
  | REQUIRED_ARTIFACT_ROLES_PRESENT => 1
  | ARTIFACT_SIGNATURES_VALID => 2
  | APPROVAL_VALID_AND_CONSUMED => 3
  | SNAPSHOT_ROOT_CURRENT => 4
  | CLOUD_RECOVERY_DECISION_VALID => 5
  | VERDICT_ACCEPTED_CHANGESET => 6
  | VERDICT_ACCEPTED_NO_CHANGE => 7
  | REPAIR_ELIGIBLE => 8
  | NO_PROGRESS_POLICY_SATISFIED => 9
  | APPLY_JOURNAL_VALID => 10
  | APPLY_RECEIPT_COMMITTED => 11
  | NO_CHANGE_RECEIPT_VALID => 12
  | CAPACITY_FAILURE_VALID => 13
  | CAPACITY_CONSTRAINT_CLEARED => 14
  | CLOUD_ELIGIBILITY_SATISFIED => 15
  | NO_PROGRESS_CLEARED => 16
  | INPUT_REVISION_COMMITTED => 17
  | APPLY_RECEIPT_ROLLED_BACK => 18
  | APPLY_RECEIPT_STALE => 19
  | APPLY_RECEIPT_MANUAL_RECOVERY_REQUIRED => 20
  | CANCELLATION_INTERRUPTIBLE => 21
  | FAILURE_UNRECOVERABLE => 22
  | TASK_CONTRACT_VALID => 23
  | PROFILE_DAG_BOUND => 24
  | ACCEPTANCE_LEDGER_CLOSED => 25
  | WORKSPACE_LEASE_ISOLATED => 26
  | NO_SELF_APPROVAL => 27
  | ARTIFACT_TYPE_ALLOWED_FOR_ROLE => 28
  end%N.

Definition BASE_EDGE_GUARDS : list RunGuardId :=
  [SOURCE_STATE_VERSION_MATCHES; REQUIRED_ARTIFACT_ROLES_PRESENT; ARTIFACT_SIGNATURES_VALID].

Lemma RunState_index_lookup s : RUN_STATES !! N.to_nat (RunState_index s) = Some s.
Proof. by destruct s. Qed.

Lemma RunGuardId_index_lookup g : RUN_GUARD_IDS !! N.to_nat (RunGuardId_index g) = Some g.
Proof. by destruct g. Qed.

#[export] Instance RunState_index_inj : Inj (=) (=) RunState_index.
Proof.
  intros s t H. apply (f_equal (fun n => RUN_STATES !! N.to_nat n)) in H.
  rewrite !RunState_index_lookup in H. by injection H.
Qed.

#[export] Instance RunGuardId_index_inj : Inj (=) (=) RunGuardId_index.
Proof.
  intros s t H. apply (f_equal (fun n => RUN_GUARD_IDS !! N.to_nat n)) in H.
  rewrite !RunGuardId_index_lookup in H. by injection H.
Qed.

#[export] Instance RunState_eq_dec : EqDecision RunState.
Proof.
  refine (fun s t => cast_if (decide (RunState_index s = RunState_index t)));
    abstract (by (apply (inj RunState_index) || intros ->)).
Defined.

#[export] Instance RunGuardId_eq_dec : EqDecision RunGuardId.
Proof.
  refine (fun s t => cast_if (decide (RunGuardId_index s = RunGuardId_index t)));
    abstract (by (apply (inj RunGuardId_index) || intros ->)).
Defined.

(** [RUN_STATES] enumerates the type, so a check over the list is a check over all states. *)
Lemma elem_of_RUN_STATES s : s ∈ RUN_STATES.
Proof. eapply list_elem_of_lookup_2, RunState_index_lookup. Qed.

Lemma forallb_RUN_STATES (p : RunState -> bool) :
  forallb p RUN_STATES = true -> forall s, p s = true.
Proof.
  intros H s. rewrite forallb_forall in H. apply H, list_elem_of_In, elem_of_RUN_STATES.
Qed.

Definition ENTER_TARGET_STATES : list RunState :=
  List.filter (fun s => negb (includes s ENTER_EXCLUDED_STATES)) RUN_STATES.

Definition NON_INTERRUPTIBLE_RUN_STATES : list RunState :=
  TERMINAL_RUN_STATES ++
  [APPLY_PREPARING; APPLYING; APPLY_RECONCILING; CANCELLATION_PENDING].

Definition INTERRUPTIBLE_NONTERMINAL_STATES : list RunState :=
  List.filter (fun s => negb (includes s NON_INTERRUPTIBLE_RUN_STATES)) RUN_STATES.

(** ** phase-transitions.ts *)

Definition phaseTransitions (s : RunState) : list RunState :=
  match s with
  | CREATED => [SNAPSHOT_REQUESTED]
  | SNAPSHOT_REQUESTED => [SNAPSHOT_UPLOADING]
  | SNAPSHOT_UPLOADING => [SNAPSHOT_VALIDATING]
  | SNAPSHOT_VALIDATING => [SNAPSHOT_READY; STALE]
  | SNAPSHOT_READY => [INSTRUCTIONS_RESOLVING]
  | INSTRUCTIONS_RESOLVING => [INDEXING; AWAITING_REQUIREMENTS_INPUT]
  | INDEXING => [BASELINE_PLANNING]
  | BASELINE_PLANNING =>
      [AWAITING_BASELINE_COMMAND_APPROVAL; BASELINE_VERIFYING; WAITING_BASELINE_ENVIRONMENT]
  | AWAITING_BASELINE_COMMAND_APPROVAL => [BASELINE_VERIFYING]
  | BASELINE_VERIFYING => [BASELINE_SEALED; WAITING_BASELINE_ENVIRONMENT]
  | WAITING_BASELINE_ENVIRONMENT => [BASELINE_PLANNING]
  | BASELINE_SEALED => [PREFLIGHT_RUNNING]
  | PREFLIGHT_RUNNING =>
      [PREFLIGHT_COMPLETE; PREFLIGHT_SATURATED_WITH_UNKNOWNS; PREFLIGHT_RESOURCE_LIMITED;
       AWAITING_REQUIREMENTS_INPUT]
  | PREFLIGHT_COMPLETE => [CONTEXT_COMPILING; CONTRACTED]
  | PREFLIGHT_SATURATED_WITH_UNKNOWNS =>
      [CONTEXT_COMPILING; AWAITING_REQUIREMENTS_INPUT; CONTRACTED]
  | CONTRACTED => [PROFILE_SELECTED]
  | PROFILE_SELECTED => [PROFILE_RUNNING]
  | PROFILE_RUNNING =>
      [ACCEPTANCE_CHECK; AWAITING_CLOUD_INPUT; AWAITING_REQUIREMENTS_INPUT; BLOCKED;
       PAUSED_NO_PROGRESS]
  | ACCEPTANCE_CHECK =>
      [VERIFIED_ACCEPTED; VERIFIED_REJECTED; VERIFIED_INCONCLUSIVE;
       AWAITING_VERIFICATION_INPUT]
  | BLOCKED => [PROFILE_RUNNING; AWAITING_REQUIREMENTS_INPUT]
  | PREFLIGHT_RESOURCE_LIMITED => [WAITING_PREFLIGHT_RESOURCE]
  | AWAITING_REQUIREMENTS_INPUT => [INSTRUCTIONS_RESOLVING; PROFILE_RUNNING]
  | WAITING_PREFLIGHT_RESOURCE => [PREFLIGHT_RUNNING]
  | CONTEXT_COMPILING =>
      [WAITING_INITIAL_CONTEXT_CAPACITY; WAITING_INITIAL_OUTPUT_CAPACITY; EGRESS_SCANNING;
       AWAITING_REQUIREMENTS_INPUT]
  | WAITING_INITIAL_CONTEXT_CAPACITY => [CONTEXT_COMPILING]
  | WAITING_DELTA_CONTEXT_CAPACITY => [CONTEXT_DELTA_COMPILING]
  | WAITING_REPAIR_CONTEXT_CAPACITY => [REPAIR_PREPARING]
  | WAITING_INITIAL_OUTPUT_CAPACITY => [CONTEXT_COMPILING]
  | WAITING_DELTA_OUTPUT_CAPACITY => [CONTEXT_DELTA_COMPILING]
  | WAITING_REPAIR_OUTPUT_CAPACITY => [REPAIR_PREPARING]
  | EGRESS_SCANNING =>
      [WAITING_INITIAL_CONTEXT_CAPACITY; WAITING_DELTA_CONTEXT_CAPACITY;
       WAITING_REPAIR_CONTEXT_CAPACITY; WAITING_INITIAL_OUTPUT_CAPACITY;
       WAITING_DELTA_OUTPUT_CAPACITY; WAITING_REPAIR_OUTPUT_CAPACITY;
       WAITING_CLOUD_ELIGIBILITY; AWAITING_EGRESS_APPROVAL; CLOUD_PREPARED]
  | WAITING_CLOUD_ELIGIBILITY => [EGRESS_SCANNING]
  | AWAITING_EGRESS_APPROVAL => [CLOUD_PREPARED]
  | CLOUD_PREPARED => [CLOUD_DISPATCHING]
  | CLOUD_DISPATCHING =>
      [CLOUD_IN_FLIGHT; SOLUTION_RECEIVED; CONTEXT_REQUESTED; CLOUD_OUTCOME_UNKNOWN;
       WAITING_PROVIDER]
  | CLOUD_IN_FLIGHT =>
      [SOLUTION_RECEIVED; CONTEXT_REQUESTED; CLOUD_OUTCOME_UNKNOWN; WAITING_PROVIDER]
  | WAITING_PROVIDER => [CLOUD_PREPARED; CLOUD_OUTCOME_UNKNOWN]
  | CLOUD_OUTCOME_UNKNOWN =>
      [SOLUTION_RECEIVED; CONTEXT_REQUESTED; AWAITING_DUPLICATE_CALL_APPROVAL]
  | AWAITING_DUPLICATE_CALL_APPROVAL => [EGRESS_SCANNING]
  | CONTEXT_REQUESTED => [CONTEXT_DELTA_COMPILING]
  | CONTEXT_DELTA_COMPILING =>
      [WAITING_DELTA_CONTEXT_CAPACITY; WAITING_DELTA_OUTPUT_CAPACITY; EGRESS_SCANNING;
       AWAITING_REQUIREMENTS_INPUT]
  | SOLUTION_RECEIVED => [SOLUTION_VALIDATING]
  | SOLUTION_VALIDATING =>
      [MATERIALIZING; NO_CHANGE_VERIFYING; AWAITING_CLOUD_INPUT; SOLUTION_PROTOCOL_REJECTED]
  | SOLUTION_PROTOCOL_REJECTED => [AWAITING_NEW_CLOUD_CALL_APPROVAL]
  | AWAITING_NEW_CLOUD_CALL_APPROVAL => [EGRESS_SCANNING]
  | AWAITING_CLOUD_INPUT => [INSTRUCTIONS_RESOLVING; PROFILE_RUNNING]
  | NO_CHANGE_VERIFYING => [VERIFIED_ACCEPTED; VERIFIED_REJECTED; VERIFIED_INCONCLUSIVE]
  | MATERIALIZING => [VERIFICATION_PLANNING; VERIFIED_REJECTED]
  | VERIFICATION_PLANNING =>
      [AWAITING_CANDIDATE_COMMAND_APPROVAL; WAITING_VERIFICATION_ENVIRONMENT; VERIFYING]
  | AWAITING_CANDIDATE_COMMAND_APPROVAL => [VERIFYING]
  | WAITING_VERIFICATION_ENVIRONMENT => [VERIFICATION_PLANNING]
  | VERIFYING => [VERIFIED_ACCEPTED; VERIFIED_REJECTED; VERIFIED_INCONCLUSIVE]
  | VERIFIED_ACCEPTED => [NO_CHANGE_FINALIZING; AWAITING_APPLY_APPROVAL]
  | NO_CHANGE_FINALIZING => [SUCCEEDED; STALE]
  | VERIFIED_REJECTED => [REPAIR_PREPARING; PAUSED_NO_PROGRESS; PROFILE_RUNNING]
  | VERIFIED_INCONCLUSIVE =>
      [REPAIR_PREPARING; AWAITING_VERIFICATION_INPUT; WAITING_VERIFICATION_ENVIRONMENT;
       PAUSED_NO_PROGRESS]
  | REPAIR_PREPARING =>
      [EGRESS_SCANNING; WAITING_REPAIR_CONTEXT_CAPACITY; WAITING_REPAIR_OUTPUT_CAPACITY;
       AWAITING_REQUIREMENTS_INPUT; PAUSED_NO_PROGRESS; PROFILE_RUNNING]
  | PAUSED_NO_PROGRESS => [REPAIR_PREPARING; AWAITING_REQUIREMENTS_INPUT; PROFILE_RUNNING]
  | AWAITING_VERIFICATION_INPUT =>
      [VERIFICATION_PLANNING; REPAIR_PREPARING; ACCEPTANCE_CHECK; PROFILE_RUNNING]
  | AWAITING_APPLY_APPROVAL => [APPLY_PREPARING; STALE]
  | APPLY_PREPARING => [APPLYING; STALE]
  | APPLYING => [APPLY_RECONCILING]
  | APPLY_RECONCILING =>
      [SUCCEEDED; AWAITING_APPLY_APPROVAL; STALE; APPLY_MANUAL_RECOVERY_REQUIRED]
  | APPLY_MANUAL_RECOVERY_REQUIRED => []
  | CANCELLATION_PENDING => []
  | SUCCEEDED => []
  | STALE => []
  | CANCELLED => []
  | FAILED => []
  end.
