(* ===== verification/StateInvariants.v ===== *)
(** Artifact roles and the per-state role invariants
    (packages/contracts/src/generated/artifact-roles.ts, state-invariants.ts). *)

From S2P Require Import Prelude RunStates.
Open Scope string_scope.
Open Scope list_scope.

(** ** artifact-roles.ts *)

Inductive ArtifactOwnerKind : Set := OwnRun | OwnSnapshot | OwnOperation | OwnCloudCall.
Inductive ArtifactCardinality : Set := EXACTLY_ONE | ZERO_OR_ONE | ONE_OR_MORE.

Record ArtifactRoleEntry : Set := mkRole {
  ownerKind : ArtifactOwnerKind;
  role : string;
  cardinality : ArtifactCardinality;
  artifactSchemaName : option string
}.

Definition ARTIFACT_ROLES_run1 : list ArtifactRoleEntry := [
  mkRole OwnRun "task-envelope" EXACTLY_ONE (Some "TaskEnvelope");
  mkRole OwnRun "snapshot-manifest" ZERO_OR_ONE (Some "SnapshotManifest");
  mkRole OwnRun "requirement-ledger" ZERO_OR_ONE (Some "RequirementLedger");
  mkRole OwnRun "instruction-manifest" ZERO_OR_ONE (Some "InstructionManifest");
  mkRole OwnRun "skill-manifest" ZERO_OR_ONE (Some "SkillManifest");
  mkRole OwnRun "environment-seal" ZERO_OR_ONE (Some "EnvironmentSeal");
  mkRole OwnRun "baseline-seal" ZERO_OR_ONE (Some "BaselineSeal");
  mkRole OwnRun "evidence-graph" ZERO_OR_ONE (Some "EvidenceGraph");
  mkRole OwnRun "closure-report" ZERO_OR_ONE (Some "ClosureReport");
  mkRole OwnRun "context-packet" ZERO_OR_ONE (Some "ContextPacket");
  mkRole OwnRun "compiled-conversation" ZERO_OR_ONE (Some "CompiledCloudConversation");
  mkRole OwnRun "egress-manifest" ZERO_OR_ONE (Some "EgressManifest");
  mkRole OwnRun "canonical-cloud-request" ZERO_OR_ONE (Some "CanonicalCloudRequest");
  mkRole OwnRun "provider-wire-request" ZERO_OR_ONE (Some "ProviderWireRequest");
  mkRole OwnRun "cloud-completion-receipt" ONE_OR_MORE (Some "CloudCompletionReceipt");
  mkRole OwnRun "cloud-result" ZERO_OR_ONE (Some "CloudResult");
  mkRole OwnRun "validated-changeset" ZERO_OR_ONE (Some "ChangeSet");
  mkRole OwnRun "candidate-manifest" ZERO_OR_ONE (Some "CandidateManifest");
  mkRole OwnRun "verification-plan" ZERO_OR_ONE (Some "VerificationPlan");
  mkRole OwnRun "verdict-report" ZERO_OR_ONE (Some "VerdictReport");
  mkRole OwnRun "verification-evidence-root" ZERO_OR_ONE None;
  mkRole OwnRun "no-change-receipt" ZERO_OR_ONE (Some "NoChangeReceipt");
  mkRole OwnRun "repair-packet" ZERO_OR_ONE (Some "RepairPacket");
  mkRole OwnRun "successful-run-result" ZERO_OR_ONE (Some "SuccessfulRunResult");
  mkRole OwnRun "apply-receipt" ZERO_OR_ONE (Some "ApplyReceipt")].

Definition ARTIFACT_ROLES_run2 : list ArtifactRoleEntry := [
  mkRole OwnRun "cancellation-receipt" ZERO_OR_ONE (Some "CancellationReceipt");
  mkRole OwnRun "cancellation-request" ZERO_OR_ONE None;
  mkRole OwnRun "suspended-state-binding" ZERO_OR_ONE None;
  mkRole OwnRun "transport-evidence" ZERO_OR_ONE None;
  mkRole OwnRun "user-input" ONE_OR_MORE (Some "UserInputArtifact");
  mkRole OwnRun "approval-grant" ONE_OR_MORE (Some "ApprovalGrant");
  mkRole OwnRun "approval-subject" ONE_OR_MORE (Some "ApprovalSubject");
  mkRole OwnRun "approval-challenge" ONE_OR_MORE (Some "ApprovalChallenge");
  mkRole OwnRun "approval-decision" ONE_OR_MORE (Some "ApprovalDecision");
  mkRole OwnRun "baseline-supplement" ONE_OR_MORE (Some "BaselineSupplement");
  mkRole OwnRun "task-contract" ZERO_OR_ONE (Some "TaskContract");
  mkRole OwnRun "investigation-report" ONE_OR_MORE (Some "InvestigationReport");
  mkRole OwnRun "implementation-plan" ZERO_OR_ONE (Some "ImplementationPlan");
  mkRole OwnRun "change-shards" ZERO_OR_ONE (Some "ChangeShards");
  mkRole OwnRun "change-manifest" ZERO_OR_ONE (Some "ChangeManifest");
  mkRole OwnRun "review-findings" ONE_OR_MORE (Some "ReviewFindings");
  mkRole OwnRun "command-evidence" ONE_OR_MORE (Some "CommandEvidence");
  mkRole OwnRun "acceptance-ledger" ZERO_OR_ONE (Some "AcceptanceLedger");
  mkRole OwnRun "workflow-profile" ZERO_OR_ONE (Some "WorkflowProfile");
  mkRole OwnRun "compiled-profile" ZERO_OR_ONE (Some "WorkflowProfile");
  mkRole OwnRun "run-composition" ZERO_OR_ONE (Some "RunComposition");
  mkRole OwnRun "related-run-plan" ONE_OR_MORE (Some "RelatedRunPlan");
  mkRole OwnRun "skill-lock" ZERO_OR_ONE (Some "SkillLock");
  mkRole OwnRun "project-lock" ZERO_OR_ONE (Some "ProjectAdapter");
  mkRole OwnRun "workspace-lease" ONE_OR_MORE (Some "WorkspaceLease")].

Definition ARTIFACT_ROLES_run3 : list ArtifactRoleEntry := [
  mkRole OwnRun "agent-session" ONE_OR_MORE (Some "AgentSessionRecord");
  mkRole OwnRun "capability-token" ONE_OR_MORE (Some "CapabilityToken");
  mkRole OwnRun "reproduction-unavailable" ZERO_OR_ONE (Some "ReproductionUnavailable");
  mkRole OwnRun "spec-update-not-required" ZERO_OR_ONE (Some "SpecUpdateNotRequired")].

Definition ARTIFACT_ROLES_snapshot : list ArtifactRoleEntry := [
  mkRole OwnSnapshot "snapshot-manifest" EXACTLY_ONE (Some "SnapshotManifest");
  mkRole OwnSnapshot "git-history-manifest" ZERO_OR_ONE (Some "GitHistoryManifest")].

Definition ARTIFACT_ROLES_operation : list ArtifactRoleEntry := [
  mkRole OwnOperation "sandbox-job" ZERO_OR_ONE (Some "SandboxJob");
  mkRole OwnOperation "sandbox-job-result" ZERO_OR_ONE (Some "SandboxJobResult");
  mkRole OwnOperation "resolved-command-spec" ZERO_OR_ONE (Some "ResolvedCommandSpec")].

Definition ARTIFACT_ROLES_cloud_call : list ArtifactRoleEntry := [
  mkRole OwnCloudCall "canonical-cloud-request" EXACTLY_ONE (Some "CanonicalCloudRequest");
  mkRole OwnCloudCall "provider-wire-request" EXACTLY_ONE (Some "ProviderWireRequest");
  mkRole OwnCloudCall "compiled-conversation" EXACTLY_ONE (Some "CompiledCloudConversation");
  mkRole OwnCloudCall "egress-manifest" EXACTLY_ONE (Some "EgressManifest");
  mkRole OwnCloudCall "context-packet" EXACTLY_ONE (Some "ContextPacket");
  mkRole OwnCloudCall "cloud-completion-receipt" ZERO_OR_ONE (Some "CloudCompletionReceipt");
  mkRole OwnCloudCall "transport-evidence" ZERO_OR_ONE None].

Definition ARTIFACT_ROLE_REGISTRY : list ArtifactRoleEntry :=
  ARTIFACT_ROLES_run1 ++ ARTIFACT_ROLES_run2 ++ ARTIFACT_ROLES_run3 ++ ARTIFACT_ROLES_snapshot ++ ARTIFACT_ROLES_operation ++ ARTIFACT_ROLES_cloud_call.

(** ** state-invariants.ts *)

(** JavaScript's [<] on strings is the order of their code units; role names, ids and
    digests are ASCII, so this is the byte order of [String.compare]. *)
Definition str_leb (a b : string) : bool :=
  match String.compare a b with Gt => false | _ => true end.

Definition roles (items : list string) : list string := sort_by str_leb (uniq items).

Definition R_TASK : string := "task-envelope".
Definition R_SNAPSHOT : string := "snapshot-manifest".
Definition R_LEDGER : string := "requirement-ledger".
Definition R_INSTRUCTIONS : string := "instruction-manifest".
Definition R_SKILLS : string := "skill-manifest".
Definition R_ENVIRONMENT : string := "environment-seal".
Definition R_BASELINE : string := "baseline-seal".
Definition R_EVIDENCE : string := "evidence-graph".
Definition R_CLOSURE : string := "closure-report".
Definition R_CONTEXT : string := "context-packet".
Definition R_CONVERSATION : string := "compiled-conversation".
Definition R_EGRESS : string := "egress-manifest".
Definition R_CLOUD_REQUEST : string := "canonical-cloud-request".
Definition R_WIRE : string := "provider-wire-request".
Definition R_COMPLETION : string := "cloud-completion-receipt".
Definition R_RESULT : string := "cloud-result".
Definition R_CHANGESET : string := "validated-changeset".
Definition R_CANDIDATE : string := "candidate-manifest".
Definition R_PLAN : string := "verification-plan".
Definition R_VERDICT : string := "verdict-report".
Definition R_EVIDENCE_ROOT : string := "verification-evidence-root".
Definition R_NO_CHANGE : string := "no-change-receipt".
Definition R_REPAIR : string := "repair-packet".
Definition R_GRANT : string := "approval-grant".
Definition R_APPLY : string := "apply-receipt".
Definition R_SUCCESS : string := "successful-run-result".
Definition R_CANCEL : string := "cancellation-receipt".
Definition R_CANCEL_REQUEST : string := "cancellation-request".
Definition R_SUSPENDED : string := "suspended-state-binding".
Definition R_TRANSPORT : string := "transport-evidence".
Definition R_SUBJECT : string := "approval-subject".
Definition R_TASK_CONTRACT : string := "task-contract".
Definition R_WORKFLOW : string := "workflow-profile".
Definition R_ACCEPTANCE : string := "acceptance-ledger".

Definition SEALED : list string := roles [R_TASK; R_SNAPSHOT; R_LEDGER; R_INSTRUCTIONS; R_SKILLS; R_ENVIRONMENT; R_BASELINE].
Definition PREFLIGHT : list string := roles (SEALED ++ [R_EVIDENCE]).
Definition CLOSED : list string := roles (PREFLIGHT ++ [R_CLOSURE]).
Definition EGRESSING : list string := roles (CLOSED ++ [R_CONTEXT; R_CONVERSATION]).
Definition PREPARED : list string := roles (EGRESSING ++ [R_EGRESS; R_CLOUD_REQUEST; R_WIRE]).
Definition MATERIALIZED : list string := roles (PREPARED ++ [R_COMPLETION; R_RESULT; R_CHANGESET]).
Definition PLANNED : list string := roles (MATERIALIZED ++ [R_CANDIDATE; R_PLAN]).
Definition VERIFIED : list string := roles (PLANNED ++ [R_VERDICT; R_EVIDENCE_ROOT]).
Definition MULTI_AGENT_CLOSED : list string := roles (CLOSED ++ [R_TASK_CONTRACT]).
Definition MULTI_AGENT_PROFILE : list string := roles (MULTI_AGENT_CLOSED ++ [R_WORKFLOW]).
Definition MULTI_AGENT_VERIFIED : list string := roles (MULTI_AGENT_PROFILE ++ [R_ACCEPTANCE; R_VERDICT]).

Definition REQUIRED_ROLES (s : RunState) : list string :=
  match s with
  | CREATED => roles [R_TASK]
  | SNAPSHOT_REQUESTED => roles [R_TASK]
  | SNAPSHOT_UPLOADING => roles [R_TASK]
  | SNAPSHOT_VALIDATING => roles [R_TASK]
  | SNAPSHOT_READY => roles [R_TASK; R_SNAPSHOT]
  | INSTRUCTIONS_RESOLVING => roles [R_TASK; R_SNAPSHOT]
  | INDEXING => roles [R_TASK; R_SNAPSHOT]
  | BASELINE_PLANNING => roles [R_TASK; R_SNAPSHOT]
  | AWAITING_BASELINE_COMMAND_APPROVAL => roles [R_TASK; R_SNAPSHOT]
  | BASELINE_VERIFYING => roles [R_TASK; R_SNAPSHOT]
  | WAITING_BASELINE_ENVIRONMENT => roles [R_TASK; R_SNAPSHOT]
  | BASELINE_SEALED => SEALED
  | PREFLIGHT_RUNNING => PREFLIGHT
  | PREFLIGHT_COMPLETE => CLOSED
  | PREFLIGHT_SATURATED_WITH_UNKNOWNS => CLOSED
  | PREFLIGHT_RESOURCE_LIMITED => CLOSED
  | AWAITING_REQUIREMENTS_INPUT => roles [R_TASK; R_SNAPSHOT]
  | WAITING_PREFLIGHT_RESOURCE => PREFLIGHT
  | CONTRACTED => MULTI_AGENT_CLOSED
  | PROFILE_SELECTED => MULTI_AGENT_PROFILE
  | PROFILE_RUNNING => MULTI_AGENT_PROFILE
  | ACCEPTANCE_CHECK => roles (MULTI_AGENT_PROFILE ++ [R_ACCEPTANCE])
  | BLOCKED => MULTI_AGENT_PROFILE
  | CONTEXT_COMPILING => CLOSED
  | WAITING_INITIAL_CONTEXT_CAPACITY => CLOSED
  | WAITING_DELTA_CONTEXT_CAPACITY => roles (CLOSED ++ [R_CONTEXT])
  | WAITING_REPAIR_CONTEXT_CAPACITY => roles (CLOSED ++ [R_REPAIR])
  | WAITING_INITIAL_OUTPUT_CAPACITY => CLOSED
  | WAITING_DELTA_OUTPUT_CAPACITY => roles (CLOSED ++ [R_CONTEXT])
  | WAITING_REPAIR_OUTPUT_CAPACITY => roles (CLOSED ++ [R_REPAIR])
  | EGRESS_SCANNING => EGRESSING
  | WAITING_CLOUD_ELIGIBILITY => EGRESSING
  | AWAITING_EGRESS_APPROVAL => EGRESSING
  | CLOUD_PREPARED => PREPARED
  | CLOUD_DISPATCHING => PREPARED
  | CLOUD_IN_FLIGHT => PREPARED
  | WAITING_PROVIDER => PREPARED
  | CLOUD_OUTCOME_UNKNOWN => PREPARED
  | AWAITING_DUPLICATE_CALL_APPROVAL => roles (PREPARED ++ [R_TRANSPORT; R_SUBJECT])
  | CONTEXT_REQUESTED => roles (PREPARED ++ [R_COMPLETION; R_RESULT])
  | CONTEXT_DELTA_COMPILING => roles (PREPARED ++ [R_COMPLETION; R_RESULT])
  | SOLUTION_RECEIVED => roles (PREPARED ++ [R_COMPLETION; R_RESULT])
  | SOLUTION_VALIDATING => roles (PREPARED ++ [R_COMPLETION; R_RESULT])
  | SOLUTION_PROTOCOL_REJECTED => roles (PREPARED ++ [R_COMPLETION; R_RESULT])
  | AWAITING_NEW_CLOUD_CALL_APPROVAL => roles (PREPARED ++ [R_COMPLETION; R_RESULT; R_SUBJECT])
  | AWAITING_CLOUD_INPUT => roles (PREPARED ++ [R_COMPLETION; R_RESULT])
  | NO_CHANGE_VERIFYING => roles (PREPARED ++ [R_COMPLETION; R_RESULT])
  | MATERIALIZING => MATERIALIZED
  | VERIFICATION_PLANNING => PLANNED
  | AWAITING_CANDIDATE_COMMAND_APPROVAL => PLANNED
  | WAITING_VERIFICATION_ENVIRONMENT => PLANNED
  | VERIFYING => PLANNED
  | VERIFIED_ACCEPTED => VERIFIED
  | VERIFIED_REJECTED => VERIFIED
  | VERIFIED_INCONCLUSIVE => VERIFIED
  | NO_CHANGE_FINALIZING => roles (PREPARED ++ [R_COMPLETION; R_RESULT; R_VERDICT; R_EVIDENCE_ROOT; R_NO_CHANGE])
  | REPAIR_PREPARING => roles (VERIFIED ++ [R_REPAIR])
  | PAUSED_NO_PROGRESS => roles (VERIFIED)
  | AWAITING_VERIFICATION_INPUT => PLANNED
  | AWAITING_APPLY_APPROVAL => roles (VERIFIED ++ [R_GRANT])
  | APPLY_PREPARING => roles (VERIFIED ++ [R_GRANT])
  | APPLYING => roles (VERIFIED ++ [R_GRANT])
  | APPLY_RECONCILING => roles (VERIFIED ++ [R_GRANT; R_APPLY])
  | APPLY_MANUAL_RECOVERY_REQUIRED => roles (VERIFIED ++ [R_GRANT; R_APPLY])
  | CANCELLATION_PENDING => roles [R_TASK; R_CANCEL_REQUEST; R_SUSPENDED]
  | SUCCEEDED => roles [R_TASK; R_SNAPSHOT; R_SUCCESS]
  | STALE => roles [R_TASK; R_SNAPSHOT]
  | CANCELLED => roles [R_TASK; R_CANCEL]
  | FAILED => roles [R_TASK]
  end.

Definition ALTERNATIVE_ROLE_SETS (s : RunState) : option (list (list string)) :=
  match s with
  | SUCCEEDED => Some [roles [R_TASK; R_SNAPSHOT; R_SUCCESS; R_APPLY];
      roles [R_TASK; R_SNAPSHOT; R_SUCCESS; R_NO_CHANGE]]
  | VERIFIED_ACCEPTED => Some [roles (VERIFIED);
      roles (PREPARED ++ [R_COMPLETION; R_RESULT; R_VERDICT; R_EVIDENCE_ROOT]);
      MULTI_AGENT_VERIFIED]
  | VERIFIED_REJECTED => Some [roles (VERIFIED);
      MULTI_AGENT_VERIFIED]
  | VERIFIED_INCONCLUSIVE => Some [roles (VERIFIED);
      MULTI_AGENT_VERIFIED]
  | AWAITING_APPLY_APPROVAL => Some [roles (VERIFIED ++ [R_GRANT]);
      roles (MULTI_AGENT_VERIFIED ++ [R_GRANT])]
  | APPLY_PREPARING => Some [roles (VERIFIED ++ [R_GRANT]);
      roles (MULTI_AGENT_VERIFIED ++ [R_GRANT])]
  | APPLYING => Some [roles (VERIFIED ++ [R_GRANT]);
      roles (MULTI_AGENT_VERIFIED ++ [R_GRANT])]
  | APPLY_RECONCILING => Some [roles (VERIFIED ++ [R_GRANT; R_APPLY]);
      roles (MULTI_AGENT_VERIFIED ++ [R_GRANT; R_APPLY])]
  | CLOUD_OUTCOME_UNKNOWN => Some [roles (PREPARED ++ [R_TRANSPORT]);
      roles (PREPARED ++ [R_CANCEL])]
  | AWAITING_CLOUD_INPUT => Some [roles (PREPARED ++ [R_COMPLETION; R_RESULT]);
      MULTI_AGENT_PROFILE]
  | AWAITING_VERIFICATION_INPUT => Some [PLANNED;
      roles (MULTI_AGENT_PROFILE ++ [R_ACCEPTANCE])]
  | PAUSED_NO_PROGRESS => Some [roles (VERIFIED);
      MULTI_AGENT_PROFILE]
  | _ => None
  end.

Record StateInvariant := mkStateInvariant {
  inv_state : RunState;
  requiredRoles : list string;
  alternativeRoleSets : option (list (list string))
}.

Definition STATE_INVARIANTS : list StateInvariant :=
  map (fun s => mkStateInvariant s (REQUIRED_ROLES s) (ALTERNATIVE_ROLE_SETS s)) RUN_STATES.
