(* ===== verification/RunRegistry.v ===== *)
(** The run-event registry (packages/contracts/src/generated/run-event-registry.ts):
    the guard table, the contracts of every legal (state, event) pair, the registry they
    are built into, and the abstract edge relation it implements. *)

From S2P Require Import Prelude RunStates.
Open Scope string_scope.
Open Scope list_scope.

(** ** Event types and contracts *)

(** The members of [RUN_EVENT_TYPES]; the literal [ENTER_s] is [ENTER s].  Only targets in
    [ENTER_TARGET_STATES] are event types ([isRunEventType], events.ts). *)
Inductive RunEventType : Set :=
| ENTER (target : RunState)
| USER_CANCELLATION_REQUESTED
| CANCELLATION_SETTLED
| CANCELLATION_OUTCOME_UNKNOWN
| UNRECOVERABLE_PLATFORM_FAILURE.

#[export] Instance RunEventType_eq_dec : EqDecision RunEventType.
Proof. solve_decision. Defined.

Definition RUN_EVENT_TYPES : list RunEventType :=
  map ENTER ENTER_TARGET_STATES ++
  [USER_CANCELLATION_REQUESTED; CANCELLATION_SETTLED; CANCELLATION_OUTCOME_UNKNOWN;
   UNRECOVERABLE_PLATFORM_FAILURE].

Inductive RunActorType : Set := user | broker | control | verifier.

#[export] Instance RunActorType_eq_dec : EqDecision RunActorType.
Proof. solve_decision. Defined.

Record RunEventContract := mkContract {
  sourceState : RunState;
  eventType : RunEventType;
  targetState : RunState;
  payloadSchemaName_ : string;
  allowedActorTypes : list RunActorType;
  guardIds : list RunGuardId
}.

(** ** Guards *)

Definition guard_leb (l r : RunGuardId) : bool := (RunGuardId_index l <=? RunGuardId_index r)%N.

Definition sortGuards (guards : list RunGuardId) : list RunGuardId :=
  sort_by guard_leb (uniq guards).

Definition COMMAND_EXECUTION_TARGETS : list RunState := [BASELINE_VERIFYING; VERIFYING].

Definition CAPACITY_WAIT_STATES : list RunState :=
  [WAITING_INITIAL_CONTEXT_CAPACITY; WAITING_DELTA_CONTEXT_CAPACITY;
   WAITING_REPAIR_CONTEXT_CAPACITY; WAITING_INITIAL_OUTPUT_CAPACITY;
   WAITING_DELTA_OUTPUT_CAPACITY; WAITING_REPAIR_OUTPUT_CAPACITY].

Definition CAPACITY_RESUME (s : RunState) : option RunState :=
  match s with
  | WAITING_INITIAL_CONTEXT_CAPACITY => Some CONTEXT_COMPILING
  | WAITING_DELTA_CONTEXT_CAPACITY => Some CONTEXT_DELTA_COMPILING
  | WAITING_REPAIR_CONTEXT_CAPACITY => Some REPAIR_PREPARING
  | WAITING_INITIAL_OUTPUT_CAPACITY => Some CONTEXT_COMPILING
  | WAITING_DELTA_OUTPUT_CAPACITY => Some CONTEXT_DELTA_COMPILING
  | WAITING_REPAIR_OUTPUT_CAPACITY => Some REPAIR_PREPARING
  | WAITING_PREFLIGHT_RESOURCE => Some PREFLIGHT_RUNNING
  | _ => None
  end.

Definition USER_INPUT_WAIT_STATES : list RunState :=
  [AWAITING_REQUIREMENTS_INPUT; AWAITING_CLOUD_INPUT; AWAITING_VERIFICATION_INPUT].

Definition COMPILER_EGRESS_STATES : list RunState :=
  [CONTEXT_COMPILING; CONTEXT_DELTA_COMPILING; REPAIR_PREPARING; EGRESS_SCANNING].

Definition is_state (s t : RunState) : bool := bool_decide (s = t).

(** [if (cond) extra.push(...guards)] *)
Definition push_if (cond : bool) (guards : list RunGuardId) : list RunGuardId :=
  if cond then guards else [].

Definition additionalGuards (source target : RunState) : list RunGuardId :=
  push_if (includes target COMMAND_EXECUTION_TARGETS) [APPROVAL_VALID_AND_CONSUMED] ++
  push_if (is_state target CLOUD_PREPARED) [APPROVAL_VALID_AND_CONSUMED] ++
  push_if ((is_state source WAITING_PROVIDER && is_state target CLOUD_PREPARED) ||
           is_state source CLOUD_OUTCOME_UNKNOWN ||
           ((is_state source CLOUD_DISPATCHING || is_state source CLOUD_IN_FLIGHT) &&
            is_state target CLOUD_OUTCOME_UNKNOWN))
          [CLOUD_RECOVERY_DECISION_VALID] ++
  push_if (includes source COMPILER_EGRESS_STATES && includes target CAPACITY_WAIT_STATES)
          [CAPACITY_FAILURE_VALID] ++
  push_if (bool_decide (CAPACITY_RESUME source = Some target)) [CAPACITY_CONSTRAINT_CLEARED] ++
  push_if (is_state source WAITING_CLOUD_ELIGIBILITY && is_state target EGRESS_SCANNING)
          [CLOUD_ELIGIBILITY_SATISFIED] ++
  push_if (includes source USER_INPUT_WAIT_STATES) [INPUT_REVISION_COMMITTED] ++
  push_if (is_state source PAUSED_NO_PROGRESS) [NO_PROGRESS_CLEARED] ++
  push_if (is_state source VERIFYING && is_state target VERIFIED_ACCEPTED)
          [VERDICT_ACCEPTED_CHANGESET] ++
  push_if (is_state source NO_CHANGE_VERIFYING && is_state target VERIFIED_ACCEPTED)
          [VERDICT_ACCEPTED_NO_CHANGE] ++
  push_if (is_state source VERIFIED_ACCEPTED && is_state target AWAITING_APPLY_APPROVAL)
          [VERDICT_ACCEPTED_CHANGESET] ++
  push_if (is_state source VERIFIED_ACCEPTED && is_state target NO_CHANGE_FINALIZING)
          [VERDICT_ACCEPTED_NO_CHANGE] ++
  push_if ((is_state source VERIFIED_REJECTED || is_state source VERIFIED_INCONCLUSIVE) &&
           is_state target REPAIR_PREPARING)
          [REPAIR_ELIGIBLE] ++
  push_if (is_state target PAUSED_NO_PROGRESS) [NO_PROGRESS_POLICY_SATISFIED] ++
  push_if (is_state target APPLY_PREPARING) [SNAPSHOT_ROOT_CURRENT; APPROVAL_VALID_AND_CONSUMED] ++
  push_if ((is_state source APPLY_PREPARING && is_state target APPLYING) ||
           (is_state source APPLYING && is_state target APPLY_RECONCILING))
          [APPLY_JOURNAL_VALID] ++
  push_if (is_state source APPLY_RECONCILING && is_state target SUCCEEDED)
          [APPLY_RECEIPT_COMMITTED] ++
  push_if (is_state source APPLY_RECONCILING && is_state target AWAITING_APPLY_APPROVAL)
          [APPLY_RECEIPT_ROLLED_BACK] ++
  push_if (is_state source APPLY_RECONCILING && is_state target STALE)
          [APPLY_RECEIPT_STALE] ++
  push_if (is_state source APPLY_RECONCILING && is_state target APPLY_MANUAL_RECOVERY_REQUIRED)
          [APPLY_RECEIPT_MANUAL_RECOVERY_REQUIRED] ++
  push_if (is_state source NO_CHANGE_FINALIZING && is_state target SUCCEEDED)
          [NO_CHANGE_RECEIPT_VALID; SNAPSHOT_ROOT_CURRENT] ++
  push_if (is_state target CONTRACTED) [TASK_CONTRACT_VALID] ++
  push_if (is_state source CONTRACTED && is_state target PROFILE_SELECTED)
          [TASK_CONTRACT_VALID] ++
  push_if (is_state source PROFILE_SELECTED && is_state target PROFILE_RUNNING)
          [PROFILE_DAG_BOUND] ++
  push_if (is_state source ACCEPTANCE_CHECK && is_state target VERIFIED_ACCEPTED)
          [ACCEPTANCE_LEDGER_CLOSED].

(** ** Building the registry *)

Definition isEnterEvent (e : RunEventType) : bool :=
  match e with ENTER _ => true | _ => false end.

Definition payloadSchemaName (e : RunEventType) : string :=
  match e with
  | ENTER _ => "EnterStatePayload"
  | USER_CANCELLATION_REQUESTED => "UserCancellationRequestedPayload"
  | CANCELLATION_SETTLED => "CancellationSettledPayload"
  | CANCELLATION_OUTCOME_UNKNOWN => "CancellationOutcomeUnknownPayload"
  | UNRECOVERABLE_PLATFORM_FAILURE => "UnrecoverablePlatformFailurePayload"
  end.

Inductive RegistryError :=
| PhaseEdgeNotEnterTarget (source target : RunState)
| DuplicateRegistryKey (source : RunState) (e : RunEventType)
| EnterTargetMismatch (e : RunEventType) (target : RunState).

(** The keys of [phaseTransitions] in declaration order ([Object.entries]). *)
Definition PHASE_SOURCES : list RunState :=
  [CREATED; SNAPSHOT_REQUESTED; SNAPSHOT_UPLOADING;
   SNAPSHOT_VALIDATING; SNAPSHOT_READY; INSTRUCTIONS_RESOLVING; INDEXING; 
BASELINE_PLANNING; AWAITING_BASELINE_COMMAND_APPROVAL; BASELINE_VERIFYING; 
WAITING_BASELINE_ENVIRONMENT; BASELINE_SEALED; PREFLIGHT_RUNNING; PREFLIGHT_COMPLETE; 
PREFLIGHT_SATURATED_WITH_UNKNOWNS; CONTRACTED; PROFILE_SELECTED; PROFILE_RUNNING; 
ACCEPTANCE_CHECK; BLOCKED; PREFLIGHT_RESOURCE_LIMITED; AWAITING_REQUIREMENTS_INPUT; 
WAITING_PREFLIGHT_RESOURCE; CONTEXT_COMPILING; WAITING_INITIAL_CONTEXT_CAPACITY; 
WAITING_DELTA_CONTEXT_CAPACITY; WAITING_REPAIR_CONTEXT_CAPACITY; 
WAITING_INITIAL_OUTPUT_CAPACITY; WAITING_DELTA_OUTPUT_CAPACITY; 
WAITING_REPAIR_OUTPUT_CAPACITY; EGRESS_SCANNING; WAITING_CLOUD_ELIGIBILITY; 
AWAITING_EGRESS_APPROVAL; CLOUD_PREPARED; CLOUD_DISPATCHING; CLOUD_IN_FLIGHT; 
WAITING_PROVIDER; CLOUD_OUTCOME_UNKNOWN; AWAITING_DUPLICATE_CALL_APPROVAL; 
CONTEXT_REQUESTED; CONTEXT_DELTA_COMPILING; SOLUTION_RECEIVED; SOLUTION_VALIDATING; 
SOLUTION_PROTOCOL_REJECTED; AWAITING_NEW_CLOUD_CALL_APPROVAL; AWAITING_CLOUD_INPUT; 
NO_CHANGE_VERIFYING; MATERIALIZING; VERIFICATION_PLANNING; 
AWAITING_CANDIDATE_COMMAND_APPROVAL; WAITING_VERIFICATION_ENVIRONMENT; VERIFYING; 
VERIFIED_ACCEPTED; NO_CHANGE_FINALIZING; VERIFIED_REJECTED; VERIFIED_INCONCLUSIVE; 
REPAIR_PREPARING; PAUSED_NO_PROGRESS; AWAITING_VERIFICATION_INPUT; 
AWAITING_APPLY_APPROVAL; APPLY_PREPARING; APPLYING; APPLY_RECONCILING; 
APPLY_MANUAL_RECOVERY_REQUIRED; CANCELLATION_PENDING; SUCCEEDED; STALE; CANCELLED; 
FAILED].

Definition phaseContract (source target : RunState) : RunEventContract := {|
  sourceState := source;
  eventType := ENTER target;
  targetState := target;
  payloadSchemaName_ := payloadSchemaName (ENTER target);
  allowedActorTypes := [control];
  guardIds := sortGuards (BASE_EDGE_GUARDS ++ additionalGuards source target)
|}.

Definition buildPhaseContracts : result RegistryError (list RunEventContract) :=
  rmap (fun '(source, target) =>
          throw_if negb (includes target ENTER_TARGET_STATES)
            with PhaseEdgeNotEnterTarget source target;
          Ok (phaseContract source target))
       (flat_map (fun source => map (pair source) (phaseTransitions source)) PHASE_SOURCES).

Definition cancellationContract (source : RunState) : RunEventContract := {|
  sourceState := source;
  eventType := USER_CANCELLATION_REQUESTED;
  targetState := CANCELLATION_PENDING;
  payloadSchemaName_ := "UserCancellationRequestedPayload";
  allowedActorTypes := [user];
  guardIds := sortGuards (BASE_EDGE_GUARDS ++ [CANCELLATION_INTERRUPTIBLE])
|}.

Definition failureContract (source : RunState) : RunEventContract := {|
  sourceState := source;
  eventType := UNRECOVERABLE_PLATFORM_FAILURE;
  targetState := FAILED;
  payloadSchemaName_ := "UnrecoverablePlatformFailurePayload";
  allowedActorTypes := [control; broker];
  guardIds := sortGuards (BASE_EDGE_GUARDS ++ [FAILURE_UNRECOVERABLE])
|}.

Definition settledContract : RunEventContract := {|
  sourceState := CANCELLATION_PENDING;
  eventType := CANCELLATION_SETTLED;
  targetState := CANCELLED;
  payloadSchemaName_ := "CancellationSettledPayload";
  allowedActorTypes := [control; broker];
  guardIds := sortGuards BASE_EDGE_GUARDS
|}.

Definition outcomeUnknownContract : RunEventContract := {|
  sourceState := CANCELLATION_PENDING;
  eventType := CANCELLATION_OUTCOME_UNKNOWN;
  targetState := CLOUD_OUTCOME_UNKNOWN;
  payloadSchemaName_ := "CancellationOutcomeUnknownPayload";
  allowedActorTypes := [control; broker];
  guardIds := sortGuards (BASE_EDGE_GUARDS ++ [CLOUD_RECOVERY_DECISION_VALID])
|}.

Definition buildGlobalContracts : list RunEventContract :=
  flat_map (fun source => [cancellationContract source; failureContract source])
           INTERRUPTIBLE_NONTERMINAL_STATES ++
  [settledContract; outcomeUnknownContract].

(** The key [`${state}\0${eventType}`]. *)
Definition registryKey (s : RunState) (e : RunEventType) : RunState * RunEventType := (s, e).

Definition Registry := list ((RunState * RunEventType) * RunEventContract).

Definition addContract (registry : Registry) (c : RunEventContract) : result RegistryError Registry :=
  let key := registryKey (sourceState c) (eventType c) in
  throw_if JsMap.has key registry with DuplicateRegistryKey (sourceState c) (eventType c);
  throw_if (match eventType c with
            | ENTER suffix => negb (is_state suffix (targetState c))
            | _ => false
            end) with EnterTargetMismatch (eventType c) (targetState c);
  Ok (JsMap.set key c registry).

Definition buildRunEventRegistry : result RegistryError Registry :=
  let? phase := buildPhaseContracts in
  rfold addContract [] (phase ++ buildGlobalContracts).

Definition RUN_EVENT_CONTRACTS : Registry :=
  match buildRunEventRegistry with Ok r => r | Err _ => [] end.

(** events.ts *)
Definition getRunEventContract (s : RunState) (e : RunEventType) : option RunEventContract :=
  JsMap.get (registryKey s e) RUN_EVENT_CONTRACTS.

(** ** The abstract transition relation *)

Definition interruptible (s : RunState) : bool := includes s INTERRUPTIBLE_NONTERMINAL_STATES.
Definition terminal (s : RunState) : bool := includes s TERMINAL_RUN_STATES.

(** The legal moves of a run, by the rules the registry is meant to encode: the phase table,
    cancellation and platform failure out of interruptible states, and the two settlements of
    a pending cancellation; with the actors that may cause each and the guards it needs beyond
    the three of [BASE_EDGE_GUARDS]. *)
Inductive legal_edge :
  RunState -> RunEventType -> RunState -> list RunActorType -> list RunGuardId -> Prop :=
| edge_phase s t :
    t ∈ phaseTransitions s ->
    legal_edge s (ENTER t) t [control] (additionalGuards s t)
| edge_cancel s :
    interruptible s = true ->
    legal_edge s USER_CANCELLATION_REQUESTED CANCELLATION_PENDING [user]
      [CANCELLATION_INTERRUPTIBLE]
| edge_fail s :
    interruptible s = true ->
    legal_edge s UNRECOVERABLE_PLATFORM_FAILURE FAILED [control; broker] [FAILURE_UNRECOVERABLE]
| edge_settled :
    legal_edge CANCELLATION_PENDING CANCELLATION_SETTLED CANCELLED [control; broker] []
| edge_unknown :
    legal_edge CANCELLATION_PENDING CANCELLATION_OUTCOME_UNKNOWN CLOUD_OUTCOME_UNKNOWN
      [control; broker] [CLOUD_RECOVERY_DECISION_VALID].
Create HintDb run.
#[export] Hint Constructors legal_edge : run.

(** The contract the rules give to a pair, as a function. *)
Definition expected_contract (s : RunState) (e : RunEventType) : option RunEventContract :=
  match e with
  | ENTER t => if includes t (phaseTransitions s) then Some (phaseContract s t) else None
  | USER_CANCELLATION_REQUESTED =>
      if interruptible s then Some (cancellationContract s) else None
  | UNRECOVERABLE_PLATFORM_FAILURE => if interruptible s then Some (failureContract s) else None
  | CANCELLATION_SETTLED => if is_state s CANCELLATION_PENDING then Some settledContract else None
  | CANCELLATION_OUTCOME_UNKNOWN =>
      if is_state s CANCELLATION_PENDING then Some outcomeUnknownContract else None
  end.

#[export] Instance RunEventContract_eq_dec : EqDecision RunEventContract.
Proof. solve_decision. Defined.

(** All events, legal event types or not. *)
Definition ALL_EVENTS : list RunEventType :=
  map ENTER RUN_STATES ++
  [USER_CANCELLATION_REQUESTED; CANCELLATION_SETTLED; CANCELLATION_OUTCOME_UNKNOWN;
   UNRECOVERABLE_PLATFORM_FAILURE].

Lemma elem_of_ALL_EVENTS e : e ∈ ALL_EVENTS.
Proof.
  unfold ALL_EVENTS. rewrite elem_of_app. destruct e; [left|right; set_solver..].
  apply list_elem_of_In, in_map, list_elem_of_In, elem_of_RUN_STATES.
Qed.

Lemma forallb_states_events (p : RunState -> RunEventType -> bool) :
  forallb (fun s => forallb (p s) ALL_EVENTS) RUN_STATES = true -> forall s e, p s e = true.
Proof.
  intros H s e. pose proof (forallb_RUN_STATES _ H s) as Hs. cbv beta in Hs.
  rewrite forallb_forall in Hs. apply Hs, list_elem_of_In, elem_of_ALL_EVENTS.
Qed.

Lemma getRunEventContract_expected s e : getRunEventContract s e = expected_contract s e.
Proof.
  apply (bool_decide_eq_true_1 (getRunEventContract s e = expected_contract s e)).
  revert s e. apply forallb_states_events. vm_compute. reflexivity.
Qed.

Lemma elem_of_sortGuards g gs : g ∈ sortGuards gs <-> g ∈ gs.
Proof. unfold sortGuards. rewrite elem_of_sort_by. apply uniq_spec. Qed.

(** Contract [c] carries out the abstract edge with target [t], actors and extra guards. *)
Definition implements (c : RunEventContract) s e t actors (extra : list RunGuardId) : Prop :=
  sourceState c = s /\ eventType c = e /\ targetState c = t /\ allowedActorTypes c = actors /\
  forall g, g ∈ guardIds c <-> g ∈ BASE_EDGE_GUARDS \/ g ∈ extra.

Ltac finish_edge :=
  eexists _, _, _; split; [by eauto with run |];
  split_and!; [done.. |]; intros g; cbn [guardIds phaseContract cancellationContract
    failureContract settledContract outcomeUnknownContract];
  rewrite elem_of_sortGuards, ?elem_of_app; set_solver.

Lemma expected_contract_sound s e c :
  expected_contract s e = Some c ->
  exists t actors extra, legal_edge s e t actors extra /\ implements c s e t actors extra.
Proof.
  destruct e as [t| | | |]; simpl; intros H; case_match eqn:Hc; simplify_eq.
  - apply includes_true in Hc. finish_edge.
  - finish_edge.
  - apply bool_decide_eq_true in Hc as ->. finish_edge.
  - apply bool_decide_eq_true in Hc as ->. finish_edge.
  - finish_edge.
Qed.

Lemma expected_contract_complete s e t actors extra :
  legal_edge s e t actors extra -> is_Some (expected_contract s e).
Proof.
  destruct 1 as [s t Ht| s Hs | s Hs | |]; simpl.
  - apply includes_true in Ht. by rewrite Ht.
  - by rewrite Hs.
  - by rewrite Hs.
  - done.
  - done.
Qed.

Lemma legal_edge_functional s e t1 a1 x1 t2 a2 x2 :
  legal_edge s e t1 a1 x1 -> legal_edge s e t2 a2 x2 -> t1 = t2 /\ a1 = a2 /\ x1 = x2.
Proof. destruct 1; inversion 1; by subst. Qed.

(** The registry builder never throws: no phase edge has an illegal target, no key is
    produced twice, and every ENTER contract targets the state of its name.  The result holds
    every contract under its own (state, event) key, once. *)
Theorem registry_builds :
  exists r, buildRunEventRegistry = Ok r /\ NoDup (JsMap.keys r) /\
    Forall (fun '(k, c) => k = (sourceState c, eventType c)) r.
Proof.
  exists RUN_EVENT_CONTRACTS. split_and!.
  - vm_compute. reflexivity.
  - apply (bool_decide_eq_true_1 (NoDup (JsMap.keys RUN_EVENT_CONTRACTS))).
    vm_compute. reflexivity.
  - apply Forall_forall. intros [k c] Hkc%list_elem_of_In.
    assert (forallb (fun kc => bool_decide (kc.1 = (sourceState kc.2, eventType kc.2)))
              RUN_EVENT_CONTRACTS = true) as H by (vm_compute; reflexivity).
    rewrite forallb_forall in H. by apply H, bool_decide_eq_true in Hkc.
Qed.

(** Looking a pair up in the built registry gives a contract exactly when the abstract
    relation has an edge for the pair, and then the contract's target, actors and guard set
    are those of that edge. *)
Theorem registry_refines_edges s e :
  match getRunEventContract s e with
  | Some c => exists t actors extra,
      legal_edge s e t actors extra /\ implements c s e t actors extra
  | None => forall t actors extra, ~ legal_edge s e t actors extra
  end.
Proof.
  rewrite getRunEventContract_expected. destruct (expected_contract s e) as [c|] eqn:Hc.
  - by apply expected_contract_sound.
  - intros t a x H. apply expected_contract_complete in H as [? ?]. congruence.
Qed.
