(* ===== verification/RunReducer.v ===== *)
(** The run reducer (packages/domain/src/reducer.ts, guards.ts, run-state.ts, events.ts):
    one event against a run projection, with the guards of its contract. *)

From S2P Require Import Prelude Ids RunStates StateInvariants RunRegistry.
Open Scope string_scope.
Open Scope list_scope.

(** ** Data *)

Record EnterStatePayload := mkEnterStatePayload {
  pl_target : RunState;
  pl_reasonCode : string;
  pl_inputArtifactObjectDigests : list string;
  pl_outputArtifactObjectDigests : list string;
  pl_operationId : option string;
  pl_approvalId : option string
}.

Inductive ProviderOutcome : Set := NOT_DISPATCHED | OUT_CANCELLED | COMPLETED_DISCARDED | OUT_UNKNOWN.

Definition ProviderOutcome_string (o : ProviderOutcome) : string :=
  match o with
  | NOT_DISPATCHED => "NOT_DISPATCHED"
  | OUT_CANCELLED => "CANCELLED"
  | COMPLETED_DISCARDED => "COMPLETED_DISCARDED"
  | OUT_UNKNOWN => "UNKNOWN"
  end.

(** The payload shapes of [RunDomainEventSchema] (run.ts).  The reducer takes the event type
    and the payload as two fields and checks that they agree, so the model keeps them apart. *)
Inductive EventPayload :=
| PEnterState (p : EnterStatePayload)
| PUserCancellation (reason : string) (outstandingOperationId : option string)
| PCancellation (cancellationReceiptObjectDigest : string) (providerOutcome : ProviderOutcome)
| PPlatformFailure (failureArtifactObjectDigest : string)
                   (recoveryAttemptObjectDigests : list string).

Record RunDomainEvent := mkRunDomainEvent {
  ev_eventId : string;
  ev_projectId : string;
  ev_runId : string;
  ev_expectedStateVersion : Z;
  ev_actorType : RunActorType;
  ev_actorId : string;
  ev_causationId : option string;
  ev_correlationId : option string;
  ev_occurredAt : string;
  ev_eventType : RunEventType;
  ev_payload : EventPayload
}.

Record ProjectionRole := mkProjectionRole {
  pr_role : string;
  pr_cardinality : ArtifactCardinality;
  pr_objectDigests : list string
}.

Record RunProjection := mkRunProjection {
  p_projectId : string;
  p_runId : string;
  p_workspaceId : string;
  p_state : RunState;
  p_stateVersion : Z;
  p_snapshotId : option string;
  p_artifactRoles : list ProjectionRole;
  p_activeOperationId : option string;
  p_terminalResultObjectDigest : option string;
  p_updatedAt : string
}.

Record RunTransitionEvent := mkRunTransitionEvent {
  t_eventId : string;
  t_eventType : RunEventType;
  t_projectId : string;
  t_runId : string;
  t_sequence : Z;
  t_previousState : RunState;
  t_nextState : RunState;
  t_actorType : RunActorType;
  t_actorId : string;
  t_inputArtifactObjectDigests : list string;
  t_outputArtifactObjectDigests : list string;
  t_reasonCode : string;
  t_occurredAt : string;
  t_causationId : option string;
  t_correlationId : option string
}.

Record VerifiedArtifactBinding := mkBinding { b_role : string; b_objectDigest : string }.

Record VerifiedArtifactSet := mkArtifacts {
  bindings : list VerifiedArtifactBinding;
  signaturesValid : bool;
  satisfiedGuards : list RunGuardId
}.

Inductive ReduceError :=
| IllegalTransitionError (s : RunState) (e : RunEventType)
| GuardFailureError (g : RunGuardId)
| UnhandledUnion (e : RunEventType)
| InvalidEnterStatePayload
| PayloadTypeError
| InvalidBrand (e : BrandError)
| MissingStateInvariant (s : RunState)
| UnknownArtifactRole (r : string).

Definition brand {A} (c : result BrandError A) : result ReduceError A :=
  match c with Ok a => Ok a | Err e => Err (InvalidBrand e) end.

(** ** events.ts *)

Definition isRunEventType (e : RunEventType) : bool := includes e RUN_EVENT_TYPES.

Definition asRunEventType (e : RunEventType) : result ReduceError RunEventType :=
  if isRunEventType e then Ok e else Err (UnhandledUnion e).

Definition EnterStatePayloadSchema_Check (p : EnterStatePayload) : bool :=
  GeneralIdSchema (pl_reasonCode p) &&
  forallb isObjectDigest (pl_inputArtifactObjectDigests p) &&
  forallb isObjectDigest (pl_outputArtifactObjectDigests p) &&
  match pl_operationId p with Some o => isOperationId o | None => true end &&
  match pl_approvalId p with Some a => isApprovalId a | None => true end.

Definition parseEnterStatePayload (payload : EventPayload) : result ReduceError EnterStatePayload :=
  match payload with
  | PEnterState p =>
      if EnterStatePayloadSchema_Check p then Ok p else Err InvalidEnterStatePayload
  | _ => Err InvalidEnterStatePayload
  end.

(** ** run-state.ts *)

Definition legalRoleSets (s : RunState) : result ReduceError (list (list string)) :=
  match array_find (fun entry => is_state (inv_state entry) s) STATE_INVARIANTS with
  | None => Err (MissingStateInvariant s)
  | Some inv => Ok (match alternativeRoleSets inv with
                    | Some sets => sets
                    | None => [requiredRoles inv]
                    end)
  end.

Definition artifactRolesSatisfyState (presentRoles : list string) (s : RunState)
  : result ReduceError bool :=
  let? sets := legalRoleSets s in
  Ok (existsb (fun set => forallb (fun r => includes r presentRoles) set) sets).

Definition presentRolesOf (artifacts : VerifiedArtifactSet) : list string :=
  uniq (map b_role (bindings artifacts)).

Definition groupBinding (grouped : list (string * list string)) (b : VerifiedArtifactBinding)
  : list (string * list string) :=
  let digests := default [] (JsMap.get (b_role b) grouped) in
  JsMap.set (b_role b) (digests ++ [b_objectDigest b]) grouped.

Definition projectionArtifactRoles (artifacts : VerifiedArtifactSet)
  : result ReduceError (list ProjectionRole) :=
  let grouped := fold_left groupBinding (bindings artifacts) [] in
  rmap (fun '(r, objectDigests) =>
          match array_find (fun entry => bool_decide (role entry = r)) ARTIFACT_ROLE_REGISTRY with
          | None => Err (UnknownArtifactRole r)
          | Some registered => Ok (mkProjectionRole r (cardinality registered) objectDigests)
          end)
       (sort_by (fun l r => str_leb l.1 r.1) grouped).

Definition createRunProjection (projectId runId workspaceId occurredAt taskEnvelopeDigest : string)
  : RunProjection := {|
  p_projectId := projectId;
  p_runId := runId;
  p_workspaceId := workspaceId;
  p_state := CREATED;
  p_stateVersion := 0;
  p_snapshotId := None;
  p_artifactRoles := [mkProjectionRole "task-envelope" EXACTLY_ONE [taskEnvelopeDigest]];
  p_activeOperationId := None;
  p_terminalResultObjectDigest := None;
  p_updatedAt := occurredAt
|}.

(** ** guards.ts *)

Definition targetStateOf (ev : RunDomainEvent) : result ReduceError RunState :=
  let? et := asRunEventType (ev_eventType ev) in
  match et with
  | USER_CANCELLATION_REQUESTED => Ok CANCELLATION_PENDING
  | CANCELLATION_SETTLED => Ok CANCELLED
  | CANCELLATION_OUTCOME_UNKNOWN => Ok CLOUD_OUTCOME_UNKNOWN
  | UNRECOVERABLE_PLATFORM_FAILURE => Ok FAILED
  | ENTER _ => let? p := parseEnterStatePayload (ev_payload ev) in Ok (pl_target p)
  end.

Definition requireFact (g : RunGuardId) (artifacts : VerifiedArtifactSet)
  : result ReduceError unit :=
  throw_if negb (includes g (satisfiedGuards artifacts)) with GuardFailureError g; Ok tt.

Definition evaluateGuard (g : RunGuardId) (p : RunProjection) (ev : RunDomainEvent)
  (artifacts : VerifiedArtifactSet) : result ReduceError unit :=
  match g with
  | SOURCE_STATE_VERSION_MATCHES =>
      throw_if negb (ev_expectedStateVersion ev =? p_stateVersion p)%Z with GuardFailureError g;
      Ok tt
  | REQUIRED_ARTIFACT_ROLES_PRESENT =>
      let? target := targetStateOf ev in
      let? ok := artifactRolesSatisfyState (presentRolesOf artifacts) target in
      throw_if negb ok with GuardFailureError g; Ok tt
  | ARTIFACT_SIGNATURES_VALID =>
      throw_if negb (signaturesValid artifacts) with GuardFailureError g; Ok tt
  | CANCELLATION_INTERRUPTIBLE =>
      throw_if negb (includes (p_state p) INTERRUPTIBLE_NONTERMINAL_STATES)
        with GuardFailureError g; Ok tt
  | FAILURE_UNRECOVERABLE =>
      let? et := asRunEventType (ev_eventType ev) in
      throw_if negb (bool_decide (et = UNRECOVERABLE_PLATFORM_FAILURE)) with GuardFailureError g;
      Ok tt
  | _ => requireFact g artifacts
  end.

(** ** reducer.ts *)

Definition SUCCESSFUL_RUN_RESULT_ROLE : string := "successful-run-result".

Definition asObjectDigests (values : list string) : result ReduceError (list string) :=
  rmap (fun v => brand (asObjectDigest v)) values.

Definition successfulRunResultDigest (artifacts : VerifiedArtifactSet) : option string :=
  b_objectDigest <$>
    array_find (fun b => bool_decide (b_role b = SUCCESSFUL_RUN_RESULT_ROLE)) (bindings artifacts).

Record TransitionFields := mkFields {
  f_inputArtifactObjectDigests : list string;
  f_outputArtifactObjectDigests : list string;
  f_reasonCode : string;
  f_activeOperationId : option string
}.

Definition commitTransition (p : RunProjection) (ev : RunDomainEvent) (c : RunEventContract)
  (artifacts : VerifiedArtifactSet) (fields : TransitionFields)
  : result ReduceError (RunProjection * RunTransitionEvent) :=
  let sequence := (p_stateVersion p + 1)%Z in
  throw_if (SAFE_INTEGER_MAX <? sequence)%Z
    with IllegalTransitionError (p_state p) (ev_eventType ev);
  let? et := asRunEventType (ev_eventType ev) in
  let transition := {|
    t_eventId := ev_eventId ev;
    t_eventType := et;
    t_projectId := ev_projectId ev;
    t_runId := ev_runId ev;
    t_sequence := sequence;
    t_previousState := p_state p;
    t_nextState := targetState c;
    t_actorType := ev_actorType ev;
    t_actorId := ev_actorId ev;
    t_inputArtifactObjectDigests := f_inputArtifactObjectDigests fields;
    t_outputArtifactObjectDigests := f_outputArtifactObjectDigests fields;
    t_reasonCode := f_reasonCode fields;
    t_occurredAt := ev_occurredAt ev;
    t_causationId := ev_causationId ev;
    t_correlationId := ev_correlationId ev
  |} in
  let? artifactRoles := projectionArtifactRoles artifacts in
  let next := {|
    p_projectId := p_projectId p;
    p_runId := p_runId p;
    p_workspaceId := p_workspaceId p;
    p_state := targetState c;
    p_stateVersion := sequence;
    p_snapshotId := p_snapshotId p;
    p_artifactRoles := artifactRoles;
    p_activeOperationId := f_activeOperationId fields;
    p_terminalResultObjectDigest :=
      if is_state (targetState c) SUCCEEDED then successfulRunResultDigest artifacts else None;
    p_updatedAt := ev_occurredAt ev
  |} in
  Ok (next, transition).

Definition applyEnterState (p : RunProjection) (ev : RunDomainEvent) (c : RunEventContract)
  (artifacts : VerifiedArtifactSet) : result ReduceError (RunProjection * RunTransitionEvent) :=
  let? payload := parseEnterStatePayload (ev_payload ev) in
  throw_if negb (is_state (pl_target payload) (targetState c))
    with IllegalTransitionError (p_state p) (ev_eventType ev);
  let? inputs := asObjectDigests (pl_inputArtifactObjectDigests payload) in
  let? outputs := asObjectDigests (pl_outputArtifactObjectDigests payload) in
  let? op := match pl_operationId payload with
             | None => Ok None
             | Some o => let? o' := brand (asOperationId o) in Ok (Some o')
             end in
  commitTransition p ev c artifacts (mkFields inputs outputs (pl_reasonCode payload) op).

Definition applyCancellationRequested (p : RunProjection) (ev : RunDomainEvent)
  (c : RunEventContract) (artifacts : VerifiedArtifactSet)
  : result ReduceError (RunProjection * RunTransitionEvent) :=
  commitTransition p ev c artifacts (mkFields [] [] "USER_CANCELLATION_REQUESTED" None).

(** Reading a missing property of another payload gives [undefined], which is not a digest. *)
Definition undefined_digest : BrandError := mkBrandError "object digest" "undefined".

Definition applyCancellationSettled (p : RunProjection) (ev : RunDomainEvent)
  (c : RunEventContract) (artifacts : VerifiedArtifactSet)
  : result ReduceError (RunProjection * RunTransitionEvent) :=
  match ev_payload ev with
  | PCancellation receipt outcome =>
      let? d := brand (asObjectDigest receipt) in
      commitTransition p ev c artifacts (mkFields [] [d] (ProviderOutcome_string outcome) None)
  | _ => Err (InvalidBrand undefined_digest)
  end.

Definition applyCancellationUnknown (p : RunProjection) (ev : RunDomainEvent)
  (c : RunEventContract) (artifacts : VerifiedArtifactSet)
  : result ReduceError (RunProjection * RunTransitionEvent) :=
  match ev_payload ev with
  | PCancellation receipt outcome =>
      let? d := brand (asObjectDigest receipt) in
      commitTransition p ev c artifacts (mkFields [] [d] (ProviderOutcome_string outcome) None)
  | _ => Err (InvalidBrand undefined_digest)
  end.

Definition applyPlatformFailure (p : RunProjection) (ev : RunDomainEvent)
  (c : RunEventContract) (artifacts : VerifiedArtifactSet)
  : result ReduceError (RunProjection * RunTransitionEvent) :=
  match ev_payload ev with
  | PPlatformFailure failure attempts =>
      let? inputs := asObjectDigests attempts in
      let? d := brand (asObjectDigest failure) in
      commitTransition p ev c artifacts
        (mkFields inputs [d] "UNRECOVERABLE_PLATFORM_FAILURE" None)
  | _ => Err PayloadTypeError
  end.

Definition reduceRun (p : RunProjection) (ev : RunDomainEvent) (artifacts : VerifiedArtifactSet)
  : result ReduceError (RunProjection * RunTransitionEvent) :=
  let? et := asRunEventType (ev_eventType ev) in
  match getRunEventContract (p_state p) et with
  | None => Err (IllegalTransitionError (p_state p) et)
  | Some c =>
      throw_if negb (includes (ev_actorType ev) (allowedActorTypes c))
        with IllegalTransitionError (p_state p) et;
      let? _ := rfold (fun _ g => evaluateGuard g p ev artifacts) tt (guardIds c) in
      match et with
      | USER_CANCELLATION_REQUESTED => applyCancellationRequested p ev c artifacts
      | CANCELLATION_SETTLED => applyCancellationSettled p ev c artifacts
      | CANCELLATION_OUTCOME_UNKNOWN => applyCancellationUnknown p ev c artifacts
      | UNRECOVERABLE_PLATFORM_FAILURE => applyPlatformFailure p ev c artifacts
      | ENTER _ => applyEnterState p ev c artifacts
      end
  end.
