(* ===== verification/RunTheorems.v ===== *)
(** Correctness of the run reducer: what one successful reduction guarantees, the invariant of
    every reachable projection, and the trace properties of the run state machine. *)

From S2P Require Import Prelude Ids RunStates StateInvariants RunRegistry RunReducer.
Open Scope string_scope.
Open Scope list_scope.

(** The tables are only ever evaluated on purpose. *)
#[local] Opaque getRunEventContract RUN_EVENT_CONTRACTS RUN_EVENT_TYPES STATE_INVARIANTS
  ARTIFACT_ROLE_REGISTRY.

#[local] Strategy 1000 [includes].
#[local] Strategy 500 [interruptible terminal is_state isRunEventType].

(** ** One reduction *)

(** The state an event asks for, once its type and payload agree. *)
Definition role_invariant (s : RunState) (present : list string) : Prop :=
  exists sets set, legalRoleSets s = Ok sets /\ set ∈ sets /\ forall r, r ∈ set -> r ∈ present.

Lemma artifactRolesSatisfyState_true present s :
  artifactRolesSatisfyState present s = Ok true -> role_invariant s present.
Proof.
  unfold artifactRolesSatisfyState. intros H. inv_ok.
  match goal with H : existsb _ ?x = true |- _ =>
    apply existsb_exists in H as (set & Hin & Hall) end.
  rewrite forallb_forall in Hall. eexists _, set. split; [done|].
  split; [by apply list_elem_of_In|].
  intros r Hr. by apply includes_true, Hall, list_elem_of_In.
Qed.

(** What passing a guard means. *)
Definition guard_holds (g : RunGuardId) (p : RunProjection) (ev : RunDomainEvent)
  (artifacts : VerifiedArtifactSet) : Prop :=
  match g with
  | SOURCE_STATE_VERSION_MATCHES => ev_expectedStateVersion ev = p_stateVersion p
  | REQUIRED_ARTIFACT_ROLES_PRESENT =>
      exists s, targetStateOf ev = Ok s /\ role_invariant s (presentRolesOf artifacts)
  | ARTIFACT_SIGNATURES_VALID => signaturesValid artifacts = true
  | CANCELLATION_INTERRUPTIBLE => interruptible (p_state p) = true
  | FAILURE_UNRECOVERABLE => ev_eventType ev = UNRECOVERABLE_PLATFORM_FAILURE
  | _ => g ∈ satisfiedGuards artifacts
  end.

Lemma asRunEventType_ok e e' : asRunEventType e = Ok e' <-> e' = e /\ isRunEventType e = true.
Proof. unfold asRunEventType. case_match; naive_solver. Qed.

Lemma evaluateGuard_ok g p ev arts u :
  evaluateGuard g p ev arts = Ok u -> guard_holds g p ev arts.
Proof.
  destruct g; unfold evaluateGuard, requireFact; intros H; inv_ok; simpl;
    repeat match goal with
    | H : negb _ = false |- _ => apply negb_false_iff in H
    | H : includes _ _ = true |- _ => apply includes_true in H
    | H : Z.eqb _ _ = true |- _ => apply Z.eqb_eq in H
    | H : asRunEventType _ = Ok _ |- _ => apply asRunEventType_ok in H as [-> ?]
    | H : bool_decide _ = true |- _ => apply bool_decide_eq_true in H
    end; subst; try done.
  - eexists. split; [done|]. by apply artifactRolesSatisfyState_true.
  - by apply includes_true.
Qed.

Lemma rfold_guards_ok p ev arts gs u :
  rfold (fun _ g => evaluateGuard g p ev arts) tt gs = Ok u ->
  forall g, g ∈ gs -> guard_holds g p ev arts.
Proof.
  induction gs as [|g gs IH]; simpl; intros H g' Hg'; [by apply not_elem_of_nil in Hg'|].
  inv_ok. match goal with x : unit |- _ => destruct x end.
  apply elem_of_cons in Hg' as [->|?]; [by eapply evaluateGuard_ok | by apply IH].
Qed.

Lemma commitTransition_ok p ev c arts f p' t :
  commitTransition p ev c arts f = Ok (p', t) ->
  p_state p' = targetState c /\ p_stateVersion p' = (p_stateVersion p + 1)%Z /\
  (p_stateVersion p' <= SAFE_INTEGER_MAX)%Z /\
  projectionArtifactRoles arts = Ok (p_artifactRoles p') /\
  p_terminalResultObjectDigest p' =
    (if is_state (targetState c) SUCCEEDED then successfulRunResultDigest arts else None) /\
  p_runId p' = p_runId p /\ p_projectId p' = p_projectId p /\ p_workspaceId p' = p_workspaceId p /\
  p_snapshotId p' = p_snapshotId p /\
  t_previousState t = p_state p /\ t_nextState t = targetState c /\
  t_sequence t = p_stateVersion p' /\ t_eventType t = ev_eventType ev /\
  t_eventId t = ev_eventId ev.
Proof.
  unfold commitTransition. intros H. inv_ok. simpl.
  match goal with H : asRunEventType _ = Ok _ |- _ => apply asRunEventType_ok in H as [-> ?] end.
  split_and!; try done. apply Z.ltb_ge in Hb. lia.
Qed.

(** Every branch of the reducer ends in [commitTransition] under the looked-up contract. *)
Lemma reduceRun_inv p ev arts r :
  reduceRun p ev arts = Ok r ->
  exists c f,
    isRunEventType (ev_eventType ev) = true /\
    expected_contract (p_state p) (ev_eventType ev) = Some c /\
    ev_actorType ev ∈ allowedActorTypes c /\
    (forall g, g ∈ guardIds c -> guard_holds g p ev arts) /\
    (forall s, ev_eventType ev = ENTER s ->
       exists pl, parseEnterStatePayload (ev_payload ev) = Ok pl /\ pl_target pl = targetState c) /\
    commitTransition p ev c arts f = Ok r.
Proof.
  unfold reduceRun. intros (et & [-> Het]%asRunEventType_ok & H)%rbind_ok.
  rewrite getRunEventContract_expected in H.
  destruct (expected_contract _ _) as [c|] eqn:Hc; [|discriminate]. inv_ok.
  apply negb_false_iff, includes_true in Hb.
  match goal with H : rfold _ _ _ = Ok _ |- _ =>
    pose proof (rfold_guards_ok _ _ _ _ _ H) as Hg end.
  exists c.
  destruct (ev_eventType ev) eqn:Hev; unfold applyEnterState, applyCancellationRequested,
    applyCancellationSettled, applyCancellationUnknown, applyPlatformFailure in *;
    repeat (inv_ok; try (case_match; [..]; try discriminate)); inv_ok;
    eexists; split_and!; try done; try (intros ? [=]).
  all: try (eexists; split; [eassumption|]).
  all: repeat match goal with
    | H : negb _ = false |- _ => apply negb_false_iff in H
    | H : is_state _ _ = true |- _ => apply bool_decide_eq_true in H
    end; eauto.
Qed.

(** An ENTER contract targets the state of its name, a global contract its fixed target. *)
Lemma expected_target ev p c :
  expected_contract (p_state p) (ev_eventType ev) = Some c ->
  (forall s, ev_eventType ev = ENTER s ->
     exists pl, parseEnterStatePayload (ev_payload ev) = Ok pl /\ pl_target pl = targetState c) ->
  isRunEventType (ev_eventType ev) = true ->
  targetStateOf ev = Ok (targetState c).
Proof.
  intros Hc Hpl Het. unfold targetStateOf. apply rbind_ok. exists (ev_eventType ev).
  split; [by apply asRunEventType_ok|].
  destruct (ev_eventType ev) as [s| | | |] eqn:He; cbn [expected_contract] in Hc.
  - destruct (Hpl s eq_refl) as (pl & -> & Ht). cbn [rbind]. by rewrite Ht.
  - destruct (interruptible _); [by injection Hc as <- | discriminate].
  - destruct (is_state _ _); [by injection Hc as <- | discriminate].
  - destruct (is_state _ _); [by injection Hc as <- | discriminate].
  - destruct (interruptible _); [by injection Hc as <- | discriminate].
Qed.

(** The edge a successful reduction follows. *)
Lemma reduceRun_legal p ev arts p' t :
  reduceRun p ev arts = Ok (p', t) ->
  exists actors extra,
    legal_edge (p_state p) (ev_eventType ev) (p_state p') actors extra /\
    ev_actorType ev ∈ actors /\
    (forall g, g ∈ BASE_EDGE_GUARDS \/ g ∈ extra -> guard_holds g p ev arts).
Proof.
  intros (c & f & Het & Hc & Hact & Hg & Hpl & Hcommit)%reduceRun_inv.
  pose proof (expected_contract_sound _ _ _ Hc)
    as (target & actors & extra & Hedge & _ & _ & Ht & Ha & Hgs).
  apply commitTransition_ok in Hcommit as (Hst & _).
  exists actors, extra. rewrite Hst, Ht. split_and!; [done | by subst |].
  intros g Hge. by apply Hg, Hgs.
Qed.

(** The artifacts it was made with satisfy the role invariant of the state it enters. *)
Lemma reduceRun_roles p ev arts p' t :
  reduceRun p ev arts = Ok (p', t) -> role_invariant (p_state p') (presentRolesOf arts).
Proof.
  intros H. pose proof (reduceRun_legal _ _ _ _ _ H) as (a & x & _ & _ & Hg).
  apply reduceRun_inv in H as (c & f & Het & Hc & _ & _ & Hpl & Hcommit).
  apply commitTransition_ok in Hcommit as (Hst & _).
  destruct (Hg REQUIRED_ARTIFACT_ROLES_PRESENT) as (s & Hs & Hr); [left; set_solver|].
  rewrite (expected_target _ _ _ Hc Hpl Het) in Hs. injection Hs as <-. by rewrite Hst.
Qed.

(** C3: a successful reduction follows an edge of the abstract relation, by an actor that edge
    allows, with every guard of the edge satisfied; it was made against the current version,
    with valid signatures and with the artifact roles the target state needs, and the returned
    projection and transition record exactly that edge with the version advanced by one. *)
Theorem reduceRun_sound p ev arts p' t :
  reduceRun p ev arts = Ok (p', t) ->
  exists target actors extra,
    legal_edge (p_state p) (ev_eventType ev) target actors extra /\
    ev_actorType ev ∈ actors /\
    (forall g, g ∈ extra -> guard_holds g p ev arts) /\
    ev_expectedStateVersion ev = p_stateVersion p /\
    signaturesValid arts = true /\
    role_invariant target (presentRolesOf arts) /\
    p_state p' = target /\ p_stateVersion p' = (p_stateVersion p + 1)%Z /\
    t_previousState t = p_state p /\ t_nextState t = target /\
    t_sequence t = p_stateVersion p' /\ t_eventType t = ev_eventType ev.
Proof.
  intros H. pose proof (reduceRun_legal _ _ _ _ _ H) as (actors & extra & Hedge & Hact & Hg).
  pose proof (reduceRun_roles _ _ _ _ _ H) as Hr.
  apply reduceRun_inv in H as (c & f & _ & _ & _ & _ & _ & Hcommit).
  apply commitTransition_ok in Hcommit as (Hst & ? & _ & _ & _ & _ & _ & _ & _ & ? & ? & ? & ? & _).
  exists (p_state p'), actors, extra. split_and!; try done.
  - intros g Hge. apply Hg. by right.
  - apply (Hg SOURCE_STATE_VERSION_MATCHES). left. set_solver.
  - apply (Hg ARTIFACT_SIGNATURES_VALID). left. set_solver.
  - by rewrite Hst.
Qed.

(** ** Runs *)

(** One accepted event with the artifacts it was evaluated against. *)
Definition run_step (p : RunProjection) (ea : RunDomainEvent * VerifiedArtifactSet)
  (t : RunTransitionEvent) (p' : RunProjection) : Prop :=
  reduceRun p ea.1 ea.2 = Ok (p', t).

(** [run p0 tr p]: [p] is reached from [p0] by the accepted events of [tr], oldest first. *)
Inductive run (p0 : RunProjection) :
  list (RunDomainEvent * VerifiedArtifactSet * RunTransitionEvent) -> RunProjection -> Prop :=
| run_nil : run p0 [] p0
| run_snoc tr p ea t p' :
    run p0 tr p -> run_step p ea t p' -> run p0 (tr ++ [(ea, t)]) p'.

(** A freshly created run, [createRunProjection] with any ids. *)
Definition initial (p : RunProjection) : Prop :=
  exists projectId runId workspaceId occurredAt digest,
    p = createRunProjection projectId runId workspaceId occurredAt digest.

(** The roles a projection records. *)
Definition recorded_roles (p : RunProjection) : list string := map pr_role (p_artifactRoles p).

Lemma keys_groupBinding g b r :
  r ∈ JsMap.keys (groupBinding g b) <-> r = b_role b \/ r ∈ JsMap.keys g.
Proof. unfold groupBinding. apply JsMap.elem_of_keys_set. Qed.

Lemma keys_grouped bs g r :
  r ∈ JsMap.keys (fold_left groupBinding bs g) <-> r ∈ JsMap.keys g \/ r ∈ map b_role bs.
Proof.
  revert g. induction bs as [|b bs IH]; intros g; simpl; [set_solver|].
  rewrite IH, keys_groupBinding, elem_of_cons. tauto.
Qed.

Lemma recorded_roles_spec arts roles r :
  projectionArtifactRoles arts = Ok roles ->
  r ∈ map pr_role roles <-> r ∈ presentRolesOf arts.
Proof.
  unfold projectionArtifactRoles. intros Hf%rmap_ok.
  transitivity (r ∈ JsMap.keys (fold_left groupBinding (bindings arts) [])).
  - unfold JsMap.keys. set (l := sort_by _ _) in Hf.
    assert (map pr_role roles = map fst l) as ->.
    { clearbody l. induction Hf as [|[k ds] y l' ys Hy _ IH]; simpl; [done|].
      case_match; simplify_eq; simpl; by f_equal. }
    subst l. rewrite !list_elem_of_In, !in_map_iff.
    setoid_rewrite <- list_elem_of_In. by setoid_rewrite elem_of_sort_by.
  - rewrite keys_grouped. unfold presentRolesOf.
    rewrite (proj2 (uniq_spec _)). simpl. set_solver.
Qed.

Lemma role_invariant_mono s l1 l2 :
  (forall r, r ∈ l1 -> r ∈ l2) -> role_invariant s l1 -> role_invariant s l2.
Proof. intros Hsub (sets & set & ? & ? & ?). exists sets, set. naive_solver. Qed.

Lemma role_invariant_created present : R_TASK ∈ present -> role_invariant CREATED present.
Proof.
  intros H. eexists _, [R_TASK]. split; [vm_compute; reflexivity|].
  split; [by left|]. intros r ->%list_elem_of_singleton. done.
Qed.

Lemma run_step_state p ea t p' :
  run_step p ea t p' ->
  p_stateVersion p' = (p_stateVersion p + 1)%Z /\ (p_stateVersion p' <= SAFE_INTEGER_MAX)%Z /\
  role_invariant (p_state p') (recorded_roles p') /\
  p_runId p' = p_runId p /\ p_projectId p' = p_projectId p /\ p_workspaceId p' = p_workspaceId p /\
  t_previousState t = p_state p /\ t_nextState t = p_state p' /\
  t_sequence t = p_stateVersion p'.
Proof.
  unfold run_step. intros H. pose proof (reduceRun_roles _ _ _ _ _ H) as Hr.
  apply reduceRun_inv in H as (c & f & _ & _ & _ & _ & _ & Hcommit).
  apply commitTransition_ok in Hcommit as (Hs & ? & ? & Hpr & _ & ? & ? & ? & _ & ? & ? & ? & _).
  split_and!; try done; [|by rewrite Hs].
  eapply role_invariant_mono; [|exact Hr].
  intros r. by apply (recorded_roles_spec _ _ r Hpr).
Qed.

(** C4: along every run from a fresh projection, the stored version counts the accepted events
    and stays a safe integer, the transitions are numbered 1, 2, 3, ..., the recorded artifact
    roles satisfy one of the legal role sets of the current state, and the run keeps its
    identity. *)
Theorem run_invariant p0 tr p :
  initial p0 -> run p0 tr p ->
  p_stateVersion p = Z.of_nat (length tr) /\ (p_stateVersion p <= SAFE_INTEGER_MAX)%Z /\
  map (fun x => t_sequence x.2) tr = map Z.of_nat (seq 1 (length tr)) /\
  role_invariant (p_state p) (recorded_roles p) /\
  p_runId p = p_runId p0 /\ p_projectId p = p_projectId p0 /\ p_workspaceId p = p_workspaceId p0.
Proof.
  intros (a & b & c & d & e & ->) Hrun.
  induction Hrun as [|tr p ea t p' _ (Hv & Hb & Hseq & _ & ? & ? & ?) Hstep].
  - split_and!; try done. by apply role_invariant_created; left.
  - apply run_step_state in Hstep as (Hv' & ? & ? & Hr & Hp & Hw & _ & _ & Hs).
    rewrite length_app. cbn [length]. split_and!; try done; try congruence; try lia.
    rewrite map_app, Hseq, Nat.add_1_r, seq_S, map_app. cbn [map]. do 2 f_equal.
    cbn [snd]. lia.
Qed.

(** ** Acceptance: exactly when the reducer succeeds *)

(** The payload carries what the event type needs. *)
Definition payload_ok (ev : RunDomainEvent) : Prop :=
  match ev_eventType ev, ev_payload ev with
  | ENTER t, PEnterState pl => EnterStatePayloadSchema_Check pl = true /\ pl_target pl = t
  | USER_CANCELLATION_REQUESTED, _ => True
  | CANCELLATION_SETTLED, PCancellation d _ | CANCELLATION_OUTCOME_UNKNOWN, PCancellation d _ =>
      isObjectDigest d = true
  | UNRECOVERABLE_PLATFORM_FAILURE, PPlatformFailure d ds =>
      isObjectDigest d = true /\ forallb isObjectDigest ds = true
  | _, _ => False
  end.

Definition roles_known (arts : VerifiedArtifactSet) : Prop :=
  is_ok (projectionArtifactRoles arts) = true.

Lemma artifactRolesSatisfyState_complete present s :
  role_invariant s present -> artifactRolesSatisfyState present s = Ok true.
Proof.
  intros (sets & set & Hs & Hin & Hall). unfold artifactRolesSatisfyState.
  rewrite Hs. cbn [rbind]. f_equal. apply existsb_exists. exists set.
  split; [by apply list_elem_of_In|]. apply forallb_forall.
  intros r Hr%list_elem_of_In. by apply includes_true, Hall.
Qed.

Lemma evaluateGuard_complete g p ev arts :
  isRunEventType (ev_eventType ev) = true ->
  guard_holds g p ev arts -> evaluateGuard g p ev arts = Ok tt.
Proof.
  intros Het. destruct g; unfold evaluateGuard, requireFact, guard_holds; intros H;
    try (by rewrite (proj2 (includes_true _ _) H)).
  - by rewrite H, Z.eqb_refl.
  - destruct H as (s & -> & Hr). cbn [rbind].
    by rewrite (artifactRolesSatisfyState_complete _ _ Hr).
  - by rewrite H.
  - unfold interruptible in H. by rewrite H.
  - rewrite (proj2 (asRunEventType_ok _ _) (conj eq_refl Het)). cbn [rbind].
    by rewrite H, bool_decide_true.
Qed.

Lemma rfold_guards_complete p ev arts gs :
  isRunEventType (ev_eventType ev) = true ->
  (forall g, g ∈ gs -> guard_holds g p ev arts) ->
  rfold (fun _ g => evaluateGuard g p ev arts) tt gs = Ok tt.
Proof.
  intros Het. induction gs as [|g gs IH]; intros Hg; [done|]. cbn [rfold].
  rewrite evaluateGuard_complete by (try done; apply Hg; by left). cbn [rbind].
  apply IH. intros g' Hg'. apply Hg. by right.
Qed.

Lemma asObjectDigests_ok ds : forallb isObjectDigest ds = true -> asObjectDigests ds = Ok ds.
Proof.
  intros H. apply rmap_ok. induction ds as [|d ds IH]; [constructor|].
  apply andb_true_iff in H as [Hd Hds]. constructor; [|by apply IH].
  unfold asObjectDigest. by rewrite Hd.
Qed.

Lemma commitTransition_complete p ev c arts f :
  isRunEventType (ev_eventType ev) = true -> roles_known arts ->
  (p_stateVersion p + 1 <= SAFE_INTEGER_MAX)%Z ->
  is_ok (commitTransition p ev c arts f) = true.
Proof.
  intros Het Hr Hv. unfold commitTransition, roles_known in *.
  rewrite (proj2 (Z.ltb_ge _ _)) by lia.
  rewrite (proj2 (asRunEventType_ok _ _) (conj eq_refl Het)). cbn [rbind].
  destruct (projectionArtifactRoles arts); [done|]. by cbn in Hr.
Qed.

Lemma schema_check_fields pl :
  EnterStatePayloadSchema_Check pl = true ->
  forallb isObjectDigest (pl_inputArtifactObjectDigests pl) = true /\
  forallb isObjectDigest (pl_outputArtifactObjectDigests pl) = true /\
  match pl_operationId pl with Some o => isOperationId o = true | None => True end.
Proof.
  unfold EnterStatePayloadSchema_Check. rewrite !andb_true_iff.
  intros [[[[_ ?] ?] ?] _]. split_and!; try done. by destruct (pl_operationId pl).
Qed.

(** The tail of the reducer, after the guards. *)
Lemma apply_complete p ev c arts :
  isRunEventType (ev_eventType ev) = true -> payload_ok ev -> roles_known arts ->
  (p_stateVersion p + 1 <= SAFE_INTEGER_MAX)%Z ->
  expected_contract (p_state p) (ev_eventType ev) = Some c ->
  is_ok match ev_eventType ev with
        | USER_CANCELLATION_REQUESTED => applyCancellationRequested p ev c arts
        | CANCELLATION_SETTLED => applyCancellationSettled p ev c arts
        | CANCELLATION_OUTCOME_UNKNOWN => applyCancellationUnknown p ev c arts
        | UNRECOVERABLE_PLATFORM_FAILURE => applyPlatformFailure p ev c arts
        | ENTER _ => applyEnterState p ev c arts
        end = true.
Proof.
  intros Het Hpl Hr Hv Hc. unfold payload_ok in Hpl.
  destruct (ev_eventType ev) as [t| | | |] eqn:He;
    [| by apply commitTransition_complete; [rewrite He|..] | ..];
    destruct (ev_payload ev) as [pl| | d o | d ds] eqn:Hp; try done.
  - destruct Hpl as [Hpl Ht]. unfold applyEnterState. rewrite Hp. cbn [parseEnterStatePayload].
    rewrite Hpl. cbn [rbind].
    assert (is_state (pl_target pl) (targetState c) = true) as ->.
    { apply bool_decide_eq_true. cbn [expected_contract] in Hc.
      destruct (includes _ _); [by injection Hc as <- | discriminate]. }
    apply schema_check_fields in Hpl as (Hi & Ho & Hop). cbn [negb].
    rewrite (asObjectDigests_ok _ Hi), (asObjectDigests_ok _ Ho). cbn [rbind].
    destruct (pl_operationId pl) as [o|]; [unfold asOperationId; rewrite Hop|]; cbn [brand rbind];
      by apply commitTransition_complete; [rewrite He|..].
  - unfold applyCancellationSettled, asObjectDigest. rewrite Hp, Hpl. cbn [brand rbind].
    by apply commitTransition_complete; [rewrite He|..].
  - unfold applyCancellationUnknown, asObjectDigest. rewrite Hp, Hpl. cbn [brand rbind].
    by apply commitTransition_complete; [rewrite He|..].
  - destruct Hpl as [Hd Hds]. unfold applyPlatformFailure, asObjectDigest.
    rewrite Hp, (asObjectDigests_ok _ Hds). cbn [rbind]. rewrite Hd. cbn [brand rbind].
    by apply commitTransition_complete; [rewrite He|..].
Qed.

Lemma reduceRun_accepts p ev arts t actors extra :
  isRunEventType (ev_eventType ev) = true ->
  legal_edge (p_state p) (ev_eventType ev) t actors extra ->
  ev_actorType ev ∈ actors ->
  (forall g, g ∈ BASE_EDGE_GUARDS \/ g ∈ extra -> guard_holds g p ev arts) ->
  payload_ok ev -> roles_known arts -> (p_stateVersion p + 1 <= SAFE_INTEGER_MAX)%Z ->
  is_ok (reduceRun p ev arts) = true.
Proof.
  intros Het Hedge Hact Hg Hpl Hr Hv. unfold reduceRun.
  rewrite (proj2 (asRunEventType_ok _ _) (conj eq_refl Het)). cbn [rbind].
  rewrite getRunEventContract_expected.
  destruct (expected_contract_complete _ _ _ _ _ Hedge) as [c Hc]. rewrite Hc.
  pose proof (expected_contract_sound _ _ _ Hc) as (t' & a' & x' & Hedge' & _ & _ & _ & Ha & Hgs).
  destruct (legal_edge_functional _ _ _ _ _ _ _ _ Hedge Hedge') as (_ & <- & <-).
  rewrite Ha, (proj2 (includes_true _ _) Hact). cbn [negb].
  rewrite rfold_guards_complete; [|done|]; [|by intros g Hgc; apply Hg, Hgs]. cbn [rbind].
  by apply apply_complete.
Qed.

(** The conditions are also necessary: what a success tells about the payload and the roles. *)
Lemma reduceRun_payload p ev arts r :
  reduceRun p ev arts = Ok r -> payload_ok ev /\ roles_known arts.
Proof.
  intros H. split.
  - unfold reduceRun in H. apply rbind_ok in H as (et & [-> Het]%asRunEventType_ok & H).
    rewrite getRunEventContract_expected in H.
    destruct (expected_contract _ _) as [c|] eqn:Hc; [|discriminate].
    destruct (negb _); [discriminate|]. apply rbind_ok in H as (_ & _ & H).
    unfold payload_ok. unfold applyEnterState, applyCancellationSettled,
      applyCancellationUnknown, applyPlatformFailure, asObjectDigest in H.
    destruct (ev_eventType ev) as [t| | | |] eqn:He; destruct (ev_payload ev) as [pl| | d o | d ds];
      cbn [parseEnterStatePayload rbind] in H; try discriminate; try exact I.
    + destruct (EnterStatePayloadSchema_Check pl); [|discriminate]. cbn [rbind] in H.
      split; [done|]. destruct (is_state _ _) eqn:Hs; [|discriminate].
      apply bool_decide_eq_true in Hs. cbn [expected_contract] in Hc.
      destruct (includes _ _); [by injection Hc as <- | discriminate].
    + by destruct (isObjectDigest d).
    + by destruct (isObjectDigest d).
    + apply rbind_ok in H as (inputs & His%rmap_ok & H).
      destruct (isObjectDigest d); [|discriminate]. split; [done|].
      clear -His. induction His as [|x y ds ys Hx _ IH]; [done|].
      cbn [forallb]. rewrite IH, andb_true_r. unfold asObjectDigest in Hx.
      by destruct (isObjectDigest x).
  - destruct r as [p' t].
    apply reduceRun_inv in H as (c & f & _ & _ & _ & _ & _ & Hcommit).
    apply commitTransition_ok in Hcommit as (_ & _ & _ & Hr & _).
    unfold roles_known. by rewrite Hr.
Qed.

(** The reducer accepts an event exactly when its type is a registered one, the abstract
    relation has an edge for it that allows its actor, every base and extra guard of the edge
    holds, the payload fits the type, the artifact roles are registered, and the version can
    still be advanced. *)
Theorem reduceRun_accepts_iff p ev arts :
  is_ok (reduceRun p ev arts) = true <->
  isRunEventType (ev_eventType ev) = true /\
  (exists t actors extra,
     legal_edge (p_state p) (ev_eventType ev) t actors extra /\
     ev_actorType ev ∈ actors /\
     (forall g, g ∈ BASE_EDGE_GUARDS \/ g ∈ extra -> guard_holds g p ev arts)) /\
  payload_ok ev /\ roles_known arts /\ (p_stateVersion p + 1 <= SAFE_INTEGER_MAX)%Z.
Proof.
  split.
  - destruct (reduceRun p ev arts) as [[p' t]|] eqn:H; [|by intros]. intros _.
    pose proof (reduceRun_legal _ _ _ _ _ H) as (a & x & ? & ? & ?).
    pose proof (reduceRun_payload _ _ _ _ H) as [? ?].
    apply reduceRun_inv in H as (c & f & ? & _ & _ & _ & _ & Hcommit).
    apply commitTransition_ok in Hcommit as (_ & ? & ? & _).
    split_and!; try done; [by eexists _, _, _ | lia].
  - intros (? & (t & a & x & ? & ? & ?) & ? & ? & ?). by eapply reduceRun_accepts.
Qed.

(** ** The state graph *)

Definition successors (s : RunState) : list RunState :=
  phaseTransitions s ++
  (if interruptible s then [CANCELLATION_PENDING; FAILED] else []) ++
  (if is_state s CANCELLATION_PENDING then [CANCELLED; CLOUD_OUTCOME_UNKNOWN] else []).

Lemma legal_edge_successor s e t a x : legal_edge s e t a x -> t ∈ successors s.
Proof.
  unfold successors. rewrite !elem_of_app.
  destruct 1 as [s t Ht|s Hs|s Hs| |]; [by left | rewrite Hs; set_solver.. | |];
    right; right; set_solver.
Qed.

(** States reachable from CREATED without entering [d]. *)
Definition expand (d : RunState) (seen : list RunState) : list RunState :=
  uniq (seen ++ List.filter (fun t => negb (is_state t d)) (flat_map successors seen)).

Fixpoint reach_avoiding (d : RunState) (fuel : nat) (seen : list RunState) : list RunState :=
  match fuel with
  | O => seen
  | S n => reach_avoiding d n (expand d seen)
  end.

Definition avoiding (d : RunState) : list RunState := reach_avoiding d 40 [CREATED].

(** [seen] contains CREATED, is closed under the edges that do not enter [d], and misses [t]. *)
Definition state_dominates (d t : RunState) : bool :=
  let seen := avoiding d in
  includes CREATED seen &&
  forallb (fun s => forallb (fun s' => is_state s' d || includes s' seen) (successors s)) seen &&
  negb (includes t seen).

Lemma state_dominates_spec d t p0 tr p :
  state_dominates d t = true -> initial p0 -> run p0 tr p -> p_state p = t ->
  exists x, x ∈ tr /\ t_nextState x.2 = d.
Proof.
  unfold state_dominates. rewrite !andb_true_iff, negb_true_iff, includes_true, includes_false.
  set (seen := avoiding d). clearbody seen. intros [[H0 Hcl] Ht] (a & b & c & e & f & ->) Hrun Hp.
  enough ((exists x, x ∈ tr /\ t_nextState x.2 = d) \/ p_state p ∈ seen) as [?|Hin];
    [done | by subst t |].
  clear Hp Ht. induction Hrun as [|tr p [ev arts] t' p' _ IH Hstep]; [by right|].
  pose proof (run_step_state _ _ _ _ Hstep) as (_ & _ & _ & _ & _ & _ & _ & Hn & _).
  apply reduceRun_legal in Hstep as (ac & x & Hedge%legal_edge_successor & _).
  destruct IH as [(y & Hy & Hd)|Hin]; [left; exists y; set_solver|].
  rewrite forallb_forall in Hcl. specialize (Hcl _ (proj1 (list_elem_of_In _ _) Hin)).
  rewrite forallb_forall in Hcl. specialize (Hcl _ (proj1 (list_elem_of_In _ _) Hedge)).
  apply orb_true_iff in Hcl as [Heq|Hs]; [left | by right; apply includes_true].
  apply bool_decide_eq_true in Heq. exists (ev, arts, t'). split; [set_solver|].
  cbn [snd]. congruence.
Qed.

(** C5: a run can only be in SUCCEEDED after it has entered VERIFIED_ACCEPTED, and a cloud
    dispatch only happens after an egress scan. *)
Theorem success_needs_verification p0 tr p :
  initial p0 -> run p0 tr p ->
  (p_state p = SUCCEEDED -> exists x, x ∈ tr /\ t_nextState x.2 = VERIFIED_ACCEPTED) /\
  (p_state p = CLOUD_DISPATCHING -> exists x, x ∈ tr /\ t_nextState x.2 = EGRESS_SCANNING).
Proof.
  intros H0 Hrun. split; intros Hp; (eapply state_dominates_spec; [|exact H0|exact Hrun|exact Hp]);
    vm_compute; reflexivity.
Qed.

(** *** Approval before side effects *)

(** Every edge into [s] needs guard [g]. *)
Definition entry_needs (s : RunState) (g : RunGuardId) : bool :=
  forallb (fun src => negb (includes s (phaseTransitions src)) ||
                      includes g (additionalGuards src s)) RUN_STATES &&
  negb (includes s [CANCELLATION_PENDING; FAILED; CANCELLED; CLOUD_OUTCOME_UNKNOWN]).

Lemma entry_needs_spec s g src e a x :
  entry_needs s g = true -> legal_edge src e s a x -> g ∈ x.
Proof.
  unfold entry_needs. rewrite andb_true_iff, negb_true_iff, includes_false.
  intros [Hall Hns] Hedge. destruct Hedge as [s t Ht| | | |]; try (exfalso; apply Hns; clear; set_solver).
  pose proof (forallb_RUN_STATES _ Hall s) as Hs. cbv beta in Hs.
  apply includes_true in Ht. rewrite Ht in Hs. by apply includes_true.
Qed.

Lemma run_entered p0 tr p s g :
  entry_needs s g = true -> run p0 tr p ->
  forall x, x ∈ tr -> t_nextState x.2 = s ->
  exists q, guard_holds g q x.1.1 x.1.2.
Proof.
  intros Hn Hrun. induction Hrun as [|tr p [ev arts] t p' _ IH Hstep]; intros x Hx Hs.
  - by apply not_elem_of_nil in Hx.
  - apply elem_of_app in Hx as [Hx| ->%list_elem_of_singleton]; [by apply IH|].
    pose proof (run_step_state _ _ _ _ Hstep) as (_ & _ & _ & _ & _ & _ & _ & Hnx & _).
    apply reduceRun_legal in Hstep as (ac & ex & Hedge & _ & Hg). cbn [fst snd] in *.
    exists p. apply Hg. right. eapply entry_needs_spec; [exact Hn|].
    rewrite <- Hs, Hnx. exact Hedge.
Qed.

(** The states in which the system acts on the outside world, with the gate each lies behind. *)
Definition approval_gate (s : RunState) : option RunState :=
  match s with
  | CLOUD_DISPATCHING | CLOUD_IN_FLIGHT => Some CLOUD_PREPARED
  | BASELINE_VERIFYING => Some BASELINE_VERIFYING
  | VERIFYING => Some VERIFYING
  | APPLYING | APPLY_RECONCILING => Some APPLY_PREPARING
  | _ => None
  end.

(** A run that dispatches to the cloud, executes repository commands or writes to the
    workspace has passed the approval gate of that effect, and among the guards that the caller
    asserted for the event that passed it is the one for a consumed approval.  The reducer takes
    the guards as given: what they assert is for its callers to establish. *)
Theorem effects_need_approval p0 tr p gate :
  initial p0 -> run p0 tr p -> approval_gate (p_state p) = Some gate ->
  exists ev arts t, ((ev, arts), t) ∈ tr /\ t_nextState t = gate /\
    APPROVAL_VALID_AND_CONSUMED ∈ satisfiedGuards arts.
Proof.
  intros H0 Hrun Hgate.
  assert (state_dominates gate (p_state p) = true /\
          entry_needs gate APPROVAL_VALID_AND_CONSUMED = true) as [Hd Hn].
  { destruct (p_state p); try discriminate Hgate; injection Hgate as <-;
      split; vm_compute; reflexivity. }
  destruct (state_dominates_spec _ _ _ _ _ Hd H0 Hrun eq_refl) as ([[ev arts] t] & Hx & Ht).
  destruct (run_entered _ _ _ _ _ Hn Hrun _ Hx Ht) as [q Hq]. by exists ev, arts, t.
Qed.

(** *** Terminal states, replays, results *)

Lemma terminal_no_contract s e : terminal s = true -> expected_contract s e = None.
Proof.
  intros Hs. assert (implb (terminal s) (bool_decide (expected_contract s e = None)) = true) as H.
  { revert s e Hs. refine (fun s e _ => forallb_states_events (fun s e =>
      implb (terminal s) (bool_decide (expected_contract s e = None))) _ s e).
    vm_compute. reflexivity. }
  rewrite Hs in H. by apply bool_decide_eq_true in H.
Qed.

(** In a terminal state every registered event is refused as an illegal transition, whoever
    sends it and whatever artifacts come with it. *)
Theorem terminal_absorbing p ev arts :
  terminal (p_state p) = true -> isRunEventType (ev_eventType ev) = true ->
  reduceRun p ev arts = Err (IllegalTransitionError (p_state p) (ev_eventType ev)).
Proof.
  intros Ht Het. unfold reduceRun.
  rewrite (proj2 (asRunEventType_ok _ _) (conj eq_refl Het)). cbn [rbind].
  by rewrite getRunEventContract_expected, terminal_no_contract.
Qed.

(** An accepted event is never accepted again, now or after any further events: its expected
    version is in the past. *)
Theorem no_replay p ev arts p1 t tr p2 arts' :
  reduceRun p ev arts = Ok (p1, t) -> run p1 tr p2 ->
  is_ok (reduceRun p2 ev arts') = false.
Proof.
  intros H Hrun. pose proof (reduceRun_legal _ _ _ _ _ H) as (a1 & x1 & _ & _ & Hg).
  pose proof (Hg SOURCE_STATE_VERSION_MATCHES ltac:(left; set_solver)) as Hv. cbn in Hv.
  apply (run_step_state p (ev, arts)) in H as (H1 & _).
  assert (p_stateVersion p1 <= p_stateVersion p2)%Z as Hle.
  { clear -Hrun. induction Hrun as [|tr q ea t' q' _ IH Hstep]; [lia|].
    apply run_step_state in Hstep as (? & _). lia. }
  destruct (reduceRun p2 ev arts') as [[p3 t3]|] eqn:H3; [exfalso|done].
  apply reduceRun_legal in H3 as (a3 & x3 & _ & _ & Hg3).
  pose proof (Hg3 SOURCE_STATE_VERSION_MATCHES ltac:(left; set_solver)) as Hv3. cbn in Hv3. lia.
Qed.

Lemma succeeded_roles present : role_invariant SUCCEEDED present -> R_SUCCESS ∈ present.
Proof.
  intros (sets & set & Hs & Hin & Hsub). apply Hsub.
  assert (legalRoleSets SUCCEEDED = Ok
    [roles [R_TASK; R_SNAPSHOT; R_SUCCESS; R_APPLY];
     roles [R_TASK; R_SNAPSHOT; R_SUCCESS; R_NO_CHANGE]]) as E by (vm_compute; reflexivity).
  rewrite E in Hs. injection Hs as <-.
  apply elem_of_cons in Hin as [->| ->%list_elem_of_singleton]; apply includes_true;
    vm_compute; reflexivity.
Qed.

(** A projection records a terminal result exactly when the reduction succeeded the run,
    and then it is the digest of a successful-run-result artifact among the verified ones. *)
Theorem terminal_result_recorded p ev arts p' t :
  reduceRun p ev arts = Ok (p', t) ->
  (p_state p' = SUCCEEDED <-> is_Some (p_terminalResultObjectDigest p')) /\
  forall d, p_terminalResultObjectDigest p' = Some d ->
    mkBinding SUCCESSFUL_RUN_RESULT_ROLE d ∈ bindings arts.
Proof.
  intros H. pose proof (reduceRun_roles _ _ _ _ _ H) as Hr.
  apply reduceRun_inv in H as (c & f & _ & _ & _ & _ & _ & Hcommit).
  apply commitTransition_ok in Hcommit as (Hst & _ & _ & _ & Hres & _). rewrite Hres.
  unfold successfulRunResultDigest. split.
  - split.
    + intros Hs. rewrite <- Hst, Hs. rewrite Hs in Hr. apply succeeded_roles in Hr.
      unfold presentRolesOf in Hr. rewrite (proj2 (uniq_spec _)) in Hr.
      change (is_state SUCCEEDED SUCCEEDED) with true.
      destruct (array_find _ _) eqn:Hf; [by eexists|]. exfalso.
      apply list_elem_of_In, in_map_iff in Hr as (b & Hb & Hin%list_elem_of_In).
      pose proof (array_find_none _ _ Hf _ Hin) as Hn. apply bool_decide_eq_false in Hn. by rewrite Hb in Hn.
    + intros [d Hd]. destruct (is_state _ _) eqn:Hs; [|discriminate].
      apply bool_decide_eq_true in Hs. congruence.
  - intros d Hd. destruct (is_state _ _); [|discriminate].
    destruct (array_find _ _) as [[r d']|] eqn:Hf; [|discriminate]. injection Hd as <-.
    apply array_find_some in Hf as [Hin Hb]. apply bool_decide_eq_true in Hb. cbn in Hb. by subst r.
Qed.

(** *** Every edge can be taken, and every run can end *)

Definition sample_digest : string :=
  "sha256:0123456789abcdef0123456789abcdef0123456789abcdef0123456789abcdef".

(** All registered roles bound, every fact established. *)
Definition full_artifacts : VerifiedArtifactSet :=
  mkArtifacts (map (fun e => mkBinding (role e) sample_digest) ARTIFACT_ROLE_REGISTRY) true
    RUN_GUARD_IDS.

Definition sample_payload (e : RunEventType) : EventPayload :=
  match e with
  | ENTER t => PEnterState (mkEnterStatePayload t "reason" [sample_digest] [] None None)
  | USER_CANCELLATION_REQUESTED => PUserCancellation "reason" None
  | CANCELLATION_SETTLED => PCancellation sample_digest NOT_DISPATCHED
  | CANCELLATION_OUTCOME_UNKNOWN => PCancellation sample_digest OUT_UNKNOWN
  | UNRECOVERABLE_PLATFORM_FAILURE => PPlatformFailure sample_digest []
  end.

Definition sample_actor (e : RunEventType) : RunActorType :=
  match e with USER_CANCELLATION_REQUESTED => user | _ => control end.

Definition sample_event (p : RunProjection) (e : RunEventType) : RunDomainEvent := {|
  ev_eventId := "event"; ev_projectId := p_projectId p; ev_runId := p_runId p;
  ev_expectedStateVersion := p_stateVersion p; ev_actorType := sample_actor e;
  ev_actorId := "actor"; ev_causationId := None; ev_correlationId := None;
  ev_occurredAt := "2026-01-01T00:00:00.000Z"; ev_eventType := e; ev_payload := sample_payload e
|}.

Lemma full_artifacts_roles s : role_invariant s (presentRolesOf full_artifacts).
Proof.
  apply artifactRolesSatisfyState_true.
  assert (match artifactRolesSatisfyState (presentRolesOf full_artifacts) s with
          | Ok b => b | Err _ => false end = true) as H.
  { revert s. apply forallb_RUN_STATES. vm_compute. reflexivity. }
  destruct (artifactRolesSatisfyState _ _) as [[]|]; done.
Qed.

Lemma phase_guards_facts s t g :
  g ∈ additionalGuards s t ->
  g <> CANCELLATION_INTERRUPTIBLE /\ g <> FAILURE_UNRECOVERABLE /\ g ∉ BASE_EDGE_GUARDS.
Proof.
  intros Hg. unfold additionalGuards, push_if in Hg. rewrite !elem_of_app in Hg.
  repeat match type of Hg with _ \/ _ => destruct Hg as [Hg|Hg] end;
    match type of Hg with _ ∈ (if ?b then _ else _) => destruct b end;
    repeat match goal with
    | H : _ ∈ [] |- _ => by apply not_elem_of_nil in H
    | H : _ ∈ _ :: _ |- _ => apply elem_of_cons in H as [->|H]
    end; (split_and!; [done..|]); by apply includes_false.
Qed.

Lemma full_artifacts_fact g p ev :
  g <> CANCELLATION_INTERRUPTIBLE -> g <> FAILURE_UNRECOVERABLE -> g ∉ BASE_EDGE_GUARDS ->
  guard_holds g p ev full_artifacts.
Proof.
  intros ? ? Hb. destruct g; try done; try (exfalso; apply Hb; clear; set_solver);
    apply includes_true; vm_compute; reflexivity.
Qed.

Lemma phase_target_registered s t : t ∈ phaseTransitions s -> isRunEventType (ENTER t) = true.
Proof.
  intros Ht. assert (forallb (fun u => isRunEventType (ENTER u)) (phaseTransitions s) = true) as H.
  { revert s Ht. refine (fun s _ => forallb_RUN_STATES (fun s =>
      forallb (fun u => isRunEventType (ENTER u)) (phaseTransitions s)) _ s).
    vm_compute. reflexivity. }
  rewrite forallb_forall in H. apply H. by apply list_elem_of_In.
Qed.

Lemma legal_event_registered s e t a x : legal_edge s e t a x -> isRunEventType e = true.
Proof.
  destruct 1 as [s t Ht| | | |]; [by eapply phase_target_registered|..];
    vm_compute; reflexivity.
Qed.

Lemma sample_accepted p e t a x :
  legal_edge (p_state p) e t a x -> (p_stateVersion p + 1 <= SAFE_INTEGER_MAX)%Z ->
  exists p' tr, run_step p (sample_event p e, full_artifacts) tr p' /\ p_state p' = t /\
    p_stateVersion p' = (p_stateVersion p + 1)%Z.
Proof.
  intros Hedge Hv.
  assert (is_ok (reduceRun p (sample_event p e) full_artifacts) = true) as Hok.
  { eapply (reduceRun_accepts _ _ _ t a x); try done.
    - by eapply legal_event_registered.
    - destruct Hedge; cbn [sample_event sample_actor ev_actorType]; set_solver.
    - intros g [Hg|Hg].
      + repeat match goal with
        | H : _ ∈ [] |- _ => by apply not_elem_of_nil in H
        | H : _ ∈ BASE_EDGE_GUARDS |- _ => unfold BASE_EDGE_GUARDS in H
        | H : _ ∈ _ :: _ |- _ => apply elem_of_cons in H as [->|H]
        end; [done| |done].
        exists t. split; [|apply full_artifacts_roles]. unfold targetStateOf.
        cbn [sample_event ev_eventType ev_payload].
        rewrite (proj2 (asRunEventType_ok e e) (conj eq_refl (legal_event_registered _ _ _ _ _ Hedge))).
        cbn [rbind]. by destruct Hedge.
      + remember (p_state p) as s0 eqn:Es0. destruct Hedge as [s t Ht|s Hs|s Hs| |].
        * apply phase_guards_facts in Hg as (? & ? & ?). by apply full_artifacts_fact.
        * apply list_elem_of_singleton in Hg as ->. by cbn; rewrite <- Es0.
        * apply list_elem_of_singleton in Hg as ->. done.
        * by apply not_elem_of_nil in Hg.
        * apply list_elem_of_singleton in Hg as ->. by apply full_artifacts_fact; [..|apply includes_false].
    - by destruct e. }
  destruct (reduceRun p _ _) as [[p' tr]|] eqn:H; [|done]. exists p', tr. split; [done|].
  pose proof (reduceRun_legal _ _ _ _ _ H) as (a' & x' & Hedge' & _).
  destruct (legal_edge_functional _ _ _ _ _ _ _ _ Hedge Hedge') as (<- & _).
  split; [done|]. by apply (run_step_state p (sample_event p e, full_artifacts)) in H as (? & _).
Qed.

Lemma run_app p0 tr1 p1 tr2 p2 : run p0 tr1 p1 -> run p1 tr2 p2 -> run p0 (tr1 ++ tr2) p2.
Proof.
  intros H1 H2. induction H2 as [|tr p ea t p' _ IH Hs]; [by rewrite app_nil_r|].
  rewrite app_assoc. by econstructor.
Qed.

(** The state a sequence of event types leads to, following the contracts. *)
Fixpoint follow (s : RunState) (es : list RunEventType) : option RunState :=
  match es with
  | [] => Some s
  | e :: r => match expected_contract s e with
              | Some c => follow (targetState c) r
              | None => None
              end
  end.

Lemma follow_run es p s :
  follow (p_state p) es = Some s ->
  (p_stateVersion p + Z.of_nat (length es) <= SAFE_INTEGER_MAX)%Z ->
  exists tr p', run p tr p' /\ p_state p' = s /\ map (fun x => ev_eventType x.1.1) tr = es.
Proof.
  revert p. induction es as [|e es IH]; intros p; cbn [follow length].
  - intros [= <-] _. exists [], p. split_and!; [constructor | done..].
  - destruct (expected_contract _ e) as [c|] eqn:Hc; [|done]. intros Hf Hv.
    apply expected_contract_sound in Hc as (t & a & x & Hedge & _ & _ & Ht & _).
    destruct (sample_accepted _ _ _ _ _ Hedge) as (p1 & t1 & Hstep & Hs1 & Hv1); [lia|].
    destruct (IH p1) as (tr & p' & Hrun & Hp' & Hes); [congruence | lia |].
    exists ([(sample_event p e, full_artifacts, t1)] ++ tr), p'. split_and!; [|done|].
    + eapply run_app; [|exact Hrun]. apply (run_snoc p [] p); [constructor | done].
    + cbn. by f_equal.
Qed.

(** A way out of every state. *)
Definition exit_path (s : RunState) : list RunEventType :=
  if terminal s then [] else
  match s with
  | CANCELLATION_PENDING => [CANCELLATION_SETTLED]
  | APPLY_PREPARING | APPLY_RECONCILING => [ENTER STALE]
  | APPLYING => [ENTER APPLY_RECONCILING; ENTER STALE]
  | _ => [UNRECOVERABLE_PLATFORM_FAILURE]
  end.

Lemma exit_path_ok s : exists t, follow s (exit_path s) = Some t /\ terminal t = true /\
  length (exit_path s) <= 2.
Proof.
  assert (match follow s (exit_path s) with
          | Some t => terminal t && (length (exit_path s) <=? 2)%nat
          | None => false end = true) as H.
  { revert s. apply forallb_RUN_STATES. vm_compute. reflexivity. }
  destruct (follow s (exit_path s)) as [t|]; [|done].
  apply andb_true_iff in H as [? ?%Nat.leb_le]. by exists t.
Qed.

(** No run is stuck: from any projection, in whatever state, at most two accepted events
    lead to a terminal state (while the version counter has room for them). *)
Theorem run_can_terminate p :
  (p_stateVersion p + 2 <= SAFE_INTEGER_MAX)%Z ->
  exists tr p', run p tr p' /\ terminal (p_state p') = true /\ length tr <= 2.
Proof.
  intros Hv. destruct (exit_path_ok (p_state p)) as (t & Hf & Ht & Hl).
  destruct (follow_run _ _ _ Hf) as (tr & p' & Hrun & Hp & Hes); [lia|].
  exists tr, p'. split_and!; [done | by rewrite Hp |].
  apply (f_equal length) in Hes. rewrite length_map in Hes. lia.
Qed.

Lemma run_can_terminate_witness :
  exists tr p', run (createRunProjection "p" "r" "w" "2026-01-01T00:00:00.000Z" sample_digest) tr p'
    /\ terminal (p_state p') = true /\ length tr <= 2.
Proof. apply run_can_terminate. cbn. vm_compute. discriminate. Defined.

(** The two ways to success: a change set applied to the workspace, and a verified no-change. *)
Definition PREFIX_TO_CLOUD_RESULT : list RunEventType :=
  map ENTER [SNAPSHOT_REQUESTED; SNAPSHOT_UPLOADING; SNAPSHOT_VALIDATING; SNAPSHOT_READY;
    INSTRUCTIONS_RESOLVING; INDEXING; BASELINE_PLANNING; BASELINE_VERIFYING; BASELINE_SEALED;
    PREFLIGHT_RUNNING; PREFLIGHT_COMPLETE; CONTEXT_COMPILING; EGRESS_SCANNING; CLOUD_PREPARED;
    CLOUD_DISPATCHING; CLOUD_IN_FLIGHT; SOLUTION_RECEIVED; SOLUTION_VALIDATING].
Definition CHANGESET_TAIL : list RunEventType :=
  map ENTER [MATERIALIZING; VERIFICATION_PLANNING; VERIFYING; VERIFIED_ACCEPTED;
    AWAITING_APPLY_APPROVAL; APPLY_PREPARING; APPLYING; APPLY_RECONCILING; SUCCEEDED].
Definition NO_CHANGE_TAIL : list RunEventType :=
  map ENTER [NO_CHANGE_VERIFYING; VERIFIED_ACCEPTED; NO_CHANGE_FINALIZING; SUCCEEDED].

(** From a fresh projection there are accepted runs to SUCCEEDED, both through applying a
    change set and through the no-change branch. *)
Theorem success_reachable p0 tail :
  initial p0 -> tail ∈ [CHANGESET_TAIL; NO_CHANGE_TAIL] ->
  exists tr p, run p0 tr p /\ p_state p = SUCCEEDED /\
    map (fun x => ev_eventType x.1.1) tr = PREFIX_TO_CLOUD_RESULT ++ tail.
Proof.
  intros (a & b & c & d & e & ->) Ht. apply follow_run.
  - cbn [createRunProjection p_state].
    apply elem_of_cons in Ht as [->| ->%list_elem_of_singleton]; vm_compute; reflexivity.
  - apply elem_of_cons in Ht as [->| ->%list_elem_of_singleton]; vm_compute; discriminate.
Qed.

(** *** The multi-agent apply path *)

(** The role set that lets a multi-agent run reach APPLY_RECONCILING. *)
Definition multi_agent_apply_roles : list string :=
  roles (MULTI_AGENT_VERIFIED ++ [R_GRANT; R_APPLY]).

Definition artifacts_of_roles (rs : list string) (facts : list RunGuardId) : VerifiedArtifactSet :=
  mkArtifacts (map (fun r => mkBinding r sample_digest) rs) true facts.

(** A run that reached APPLY_RECONCILING with the multi-agent role set is refused the
    transition to APPLY_MANUAL_RECOVERY_REQUIRED, even with a receipt that demands it: that
    state has no multi-agent alternative among its role sets. *)
Theorem multi_agent_manual_recovery_refused p facts :
  p_state p = APPLY_RECONCILING ->
  role_invariant APPLY_RECONCILING multi_agent_apply_roles /\
  reduceRun p (sample_event p (ENTER APPLY_MANUAL_RECOVERY_REQUIRED))
    (artifacts_of_roles multi_agent_apply_roles facts) =
  Err (GuardFailureError REQUIRED_ARTIFACT_ROLES_PRESENT).
Proof.
  intros Hp. split.
  - apply artifactRolesSatisfyState_true. vm_compute. reflexivity.
  - unfold reduceRun.
    assert (asRunEventType (ev_eventType (sample_event p (ENTER APPLY_MANUAL_RECOVERY_REQUIRED)))
            = Ok (ENTER APPLY_MANUAL_RECOVERY_REQUIRED)) as -> by (vm_compute; reflexivity).
    cbn [rbind]. rewrite getRunEventContract_expected, Hp.
    assert (expected_contract APPLY_RECONCILING (ENTER APPLY_MANUAL_RECOVERY_REQUIRED) =
      Some (phaseContract APPLY_RECONCILING APPLY_MANUAL_RECOVERY_REQUIRED)) as ->
      by (vm_compute; reflexivity).
    assert (guardIds (phaseContract APPLY_RECONCILING APPLY_MANUAL_RECOVERY_REQUIRED) =
      BASE_EDGE_GUARDS ++ [APPLY_RECEIPT_MANUAL_RECOVERY_REQUIRED]) as ->
      by (vm_compute; reflexivity).
    change (includes _ (allowedActorTypes _)) with true. cbn [negb BASE_EDGE_GUARDS app rfold].
    unfold evaluateGuard at 1. cbn [sample_event ev_expectedStateVersion].
    rewrite Z.eqb_refl. cbn [negb rbind].
    assert (forall facts', evaluateGuard REQUIRED_ARTIFACT_ROLES_PRESENT p
      (sample_event p (ENTER APPLY_MANUAL_RECOVERY_REQUIRED))
      (artifacts_of_roles multi_agent_apply_roles facts') =
      Err (GuardFailureError REQUIRED_ARTIFACT_ROLES_PRESENT)) as ->
      by (intros; vm_compute; reflexivity).
    done.
Qed.

(** The code refuses what the architecture text lists as an outcome of the apply phase: no edge
    leads from the non-interruptible apply states to FAILED. *)
Lemma apply_states_never_fail s e a x :
  s ∈ [APPLY_PREPARING; APPLYING; APPLY_RECONCILING] -> ~ legal_edge s e FAILED a x.
Proof.
  intros Hs Hedge%legal_edge_successor. revert Hs Hedge. rewrite !elem_of_cons.
  intros [->|[->|[->|H]]]; [..|by apply not_elem_of_nil in H]; vm_compute; intros H;
    repeat (apply elem_of_cons in H as [H|H]; [discriminate|]); by apply not_elem_of_nil in H.
Qed.

(** ** Witnesses: the theorems at concrete runs *)

Definition fresh : RunProjection :=
  createRunProjection "project" "run_0190a3b4-c5d6-7e8f-9a0b-1c2d3e4f5061" "workspace"
    "2026-01-01T00:00:00.000Z" sample_digest.

Lemma fresh_initial : initial fresh.
Proof. by eexists _, _, _, _, _. Qed.

Definition fresh_step : RunDomainEvent := sample_event fresh (ENTER SNAPSHOT_REQUESTED).

Lemma fresh_step_ok : exists p' t, reduceRun fresh fresh_step full_artifacts = Ok (p', t).
Proof.
  destruct (reduceRun fresh fresh_step full_artifacts) as [[p' t]|] eqn:E; [by exists p', t|].
  vm_compute in E. discriminate.
Qed.

Lemma fresh_run es s :
  follow CREATED es = Some s -> length es <= 40 ->
  exists tr p, run fresh tr p /\ p_state p = s.
Proof.
  intros Hf Hl. destruct (follow_run es fresh s Hf) as (tr & p & ? & ? & _); [|by exists tr, p].
  cbn [fresh createRunProjection p_stateVersion]. unfold SAFE_INTEGER_MAX. lia.
Qed.

Lemma reduceRun_sound_witness :
  exists p' t target actors extra,
    legal_edge CREATED (ENTER SNAPSHOT_REQUESTED) target actors extra /\
    p_state p' = target /\ t_nextState t = target.
Proof.
  destruct fresh_step_ok as (p' & t & E).
  destruct (reduceRun_sound fresh fresh_step full_artifacts p' t E)
    as (target & a & x & He & _ & _ & _ & _ & _ & Hs & _ & _ & Hn & _).
  exists p', t, target, a, x. split; [exact He|]. split; [exact Hs | exact Hn].
Defined.

Lemma run_invariant_witness :
  exists tr p, run fresh tr p /\ p_state p = SNAPSHOT_UPLOADING /\
    p_stateVersion p = Z.of_nat (length tr) /\ role_invariant (p_state p) (recorded_roles p).
Proof.
  destruct (fresh_run [ENTER SNAPSHOT_REQUESTED; ENTER SNAPSHOT_UPLOADING] SNAPSHOT_UPLOADING)
    as (tr & p & Hrun & Hp); [vm_compute; reflexivity | cbn; lia |].
  destruct (run_invariant fresh tr p fresh_initial Hrun) as (Hv & _ & _ & Hr & _).
  by exists tr, p.
Defined.

Lemma success_needs_verification_witness :
  exists tr p, run fresh tr p /\ p_state p = SUCCEEDED /\
    exists x, x ∈ tr /\ t_nextState x.2 = VERIFIED_ACCEPTED.
Proof.
  destruct (fresh_run (PREFIX_TO_CLOUD_RESULT ++ CHANGESET_TAIL) SUCCEEDED)
    as (tr & p & Hrun & Hp); [vm_compute; reflexivity | cbn; lia |].
  exists tr, p. split; [exact Hrun|]. split; [exact Hp|].
  exact (proj1 (success_needs_verification fresh tr p fresh_initial Hrun) Hp).
Defined.

Lemma effects_need_approval_witness :
  exists tr p, run fresh tr p /\ p_state p = APPLYING /\
    exists ev arts t, ((ev, arts), t) ∈ tr /\ t_nextState t = APPLY_PREPARING /\
      APPROVAL_VALID_AND_CONSUMED ∈ satisfiedGuards arts.
Proof.
  destruct (fresh_run (PREFIX_TO_CLOUD_RESULT ++ take 7 CHANGESET_TAIL) APPLYING)
    as (tr & p & Hrun & Hp); [vm_compute; reflexivity | cbn; lia |].
  exists tr, p. split; [exact Hrun|]. split; [exact Hp|].
  apply (effects_need_approval fresh tr p APPLY_PREPARING fresh_initial Hrun).
  rewrite Hp. reflexivity.
Defined.

Definition cancelled : RunProjection := {|
  p_projectId := "project"; p_runId := "run"; p_workspaceId := "workspace"; p_state := CANCELLED;
  p_stateVersion := 2; p_snapshotId := None; p_artifactRoles := []; p_activeOperationId := None;
  p_terminalResultObjectDigest := None; p_updatedAt := "2026-01-01T00:00:00.000Z"
|}.

Lemma terminal_absorbing_witness :
  reduceRun cancelled (sample_event cancelled (ENTER SNAPSHOT_REQUESTED)) full_artifacts =
  Err (IllegalTransitionError CANCELLED (ENTER SNAPSHOT_REQUESTED)).
Proof.
  apply (terminal_absorbing cancelled (sample_event cancelled (ENTER SNAPSHOT_REQUESTED))
           full_artifacts); vm_compute; reflexivity.
Defined.

Lemma no_replay_witness :
  exists p1 t, reduceRun fresh fresh_step full_artifacts = Ok (p1, t) /\
    is_ok (reduceRun p1 fresh_step full_artifacts) = false.
Proof.
  destruct fresh_step_ok as (p1 & t & E). exists p1, t. split; [exact E|].
  exact (no_replay fresh fresh_step full_artifacts p1 t [] p1 full_artifacts E (run_nil p1)).
Defined.

Lemma terminal_result_recorded_witness :
  exists p' t, reduceRun fresh fresh_step full_artifacts = Ok (p', t) /\
    (p_state p' = SUCCEEDED <-> is_Some (p_terminalResultObjectDigest p')).
Proof.
  destruct fresh_step_ok as (p' & t & E). exists p', t. split; [exact E|].
  exact (proj1 (terminal_result_recorded fresh fresh_step full_artifacts p' t E)).
Defined.

Lemma success_reachable_witness :
  exists tr p, run fresh tr p /\ p_state p = SUCCEEDED /\
    map (fun x => ev_eventType x.1.1) tr = PREFIX_TO_CLOUD_RESULT ++ NO_CHANGE_TAIL.
Proof.
  apply (success_reachable fresh NO_CHANGE_TAIL fresh_initial). right. left.
Defined.

Definition reconciling : RunProjection := {|
  p_projectId := "project"; p_runId := "run"; p_workspaceId := "workspace";
  p_state := APPLY_RECONCILING; p_stateVersion := 30; p_snapshotId := None;
  p_artifactRoles := []; p_activeOperationId := None;
  p_terminalResultObjectDigest := None; p_updatedAt := "2026-01-01T00:00:00.000Z"
|}.

Lemma multi_agent_manual_recovery_refused_witness :
  reduceRun reconciling (sample_event reconciling (ENTER APPLY_MANUAL_RECOVERY_REQUIRED))
    (artifacts_of_roles multi_agent_apply_roles RUN_GUARD_IDS) =
  Err (GuardFailureError REQUIRED_ARTIFACT_ROLES_PRESENT).
Proof.
  exact (proj2 (multi_agent_manual_recovery_refused reconciling RUN_GUARD_IDS eq_refl)).
Defined.
