(* ===== verification/JsText.v ===== *)
(** JavaScript text: strings as UTF-16 code units, the string methods the change-set code uses,
    and the UTF-8 codec behind [Buffer.from(s, "utf8")] and [new TextDecoder("utf-8")].

    A string is the list of its code units (numbers below 2^16), a byte array the list of its
    bytes (numbers below 2^8). *)

From Stdlib Require Import Ascii String.
From S2P Require Import Prelude.
Open Scope list_scope.

Abbreviation ustr := (list N).
Abbreviation bytes := (list N).

(** ASCII literals. *)
Definition u (s : string) : ustr := map N_of_ascii (list_ascii_of_string s).

Definition NUL : N := 0.
Definition TAB : N := 9.
Definition LF : N := 10.
Definition CR : N := 13.
Definition SPACE : N := 32.
Definition DOT : N := 46.
Definition SLASH : N := 47.
Definition COLON : N := 58.
Definition BACKSLASH : N := 92.

(** ** String methods *)

(** [s.startsWith(p)], [s.endsWith(p)] *)
Fixpoint startsWith (p s : ustr) : bool :=
  match p, s with
  | [], _ => true
  | a :: p', b :: s' => (a =? b)%N && startsWith p' s'
  | _ :: _, [] => false
  end.
Definition endsWith (p s : ustr) : bool := startsWith (rev p) (rev s).

Lemma startsWith_app p s : startsWith p s = true <-> exists t, s = p ++ t.
Proof.
  revert s. induction p as [|a p IH]; intros s; cbn [startsWith app]; [split; [by exists s | done]|]. destruct s as [|b s].
  - split; [done | by intros [r Hr]].
  - rewrite andb_true_iff, N.eqb_eq, IH. split; [intros [-> [r ->]]; by exists r | intros [r [= -> ->]]; split; [done | by exists r]].
Qed.

(** [s.indexOf(p)] for a nonempty [p]. *)
Fixpoint indexOf (p s : ustr) : option nat :=
  match s with
  | [] => None
  | _ :: r => if startsWith p s then Some 0 else S <$> indexOf p r
  end.

(** [s.includes(c)] for one code unit. *)
Definition has_unit (c : N) (s : ustr) : bool := existsb (N.eqb c) s.

(** [s.includes(p)] for a nonempty [p]. *)
Definition includes_text (p s : ustr) : bool :=
  match indexOf p s with Some _ => true | None => false end.

(** [s.toLowerCase()] as far as ASCII letters can appear in the result: A to Z, the Kelvin sign and
    the capital I with a dot above; every other character is kept, since its lower case form
    contains no ASCII unit. *)
Definition lower_unit (c : N) : ustr :=
  if (65 <=? c)%N && (c <=? 90)%N then [(c + 32)%N]
  else if (c =? 8490)%N then [107%N]
  else if (c =? 304)%N then [105%N; 775%N]
  else [c].
Definition toLowerCase (s : ustr) : ustr := concat (map lower_unit s).

(** [s.replaceAll(p, r)] for a nonempty [p]; [fuel] bounds the number of units left. *)
Fixpoint replace_from (fuel : nat) (p r s : ustr) : ustr :=
  match fuel, s with
  | S n, c :: t => if startsWith p s then r ++ replace_from n p r (drop (length p) s)
                   else c :: replace_from n p r t
  | _, _ => s
  end.
Definition replaceAll (p r s : ustr) : ustr := replace_from (length s) p r s.

(** [s.split(c)] for a one-unit separator. *)
Fixpoint split_unit (c : N) (s : ustr) : list ustr :=
  match s with
  | [] => [[]]
  | a :: r => if (a =? c)%N then [] :: split_unit c r
              else match split_unit c r with
                   | [] => [[a]]
                   | seg :: segs => (a :: seg) :: segs
                   end
  end.

(** [parts.join(c)] *)
Fixpoint join_unit (c : N) (parts : list ustr) : ustr :=
  match parts with
  | [] => []
  | [p] => p
  | p :: rest => p ++ c :: join_unit c rest
  end.

(** [s.trimStart()]: ECMAScript white space and line terminators. *)
Definition is_space (c : N) : bool :=
  existsb (N.eqb c) [9; 10; 11; 12; 13; 32; 160; 5760; 8232; 8233; 8239; 8287; 12288; 65279]%N
  || ((8192 <=? c)%N && (c <=? 8202)%N).
Fixpoint trimStart (s : ustr) : ustr :=
  match s with
  | c :: r => if is_space c then trimStart r else s
  | [] => []
  end.

(** [s.trim()] *)
Definition trim (s : ustr) : ustr := rev (trimStart (rev (trimStart s))).

(** ** UTF-8 *)

Open Scope N_scope.

Definition is_high (c : N) : bool := (55296 <=? c) && (c <=? 56319).
Definition is_low (c : N) : bool := (56320 <=? c) && (c <=? 57343).

Definition enc_bmp (c : N) : bytes :=
  if c <? 128 then [c]
  else if c <? 2048 then [192 + c / 64; 128 + c mod 64]
  else [224 + c / 4096; 128 + (c / 64) mod 64; 128 + c mod 64].

Definition enc_pair (hi lo : N) : bytes :=
  let cp := 65536 + (hi - 55296) * 1024 + (lo - 56320) in
  [240 + cp / 262144; 128 + (cp / 4096) mod 64; 128 + (cp / 64) mod 64; 128 + cp mod 64].

(** [Buffer.from(s, "utf8")]: a lone surrogate becomes U+FFFD. *)
Fixpoint utf8_encode (s : ustr) : bytes :=
  match s with
  | [] => []
  | c :: r =>
      if is_high c then
        match r with
        | d :: r' => if is_low d then enc_pair c d ++ utf8_encode r'
                     else [239; 191; 189] ++ utf8_encode r
        | [] => [239; 191; 189]
        end
      else if is_low c then [239; 191; 189] ++ utf8_encode r
      else enc_bmp c ++ utf8_encode r
  end.

Definition utf8ByteLength (s : ustr) : nat := length (utf8_encode s).

Definition in_range (lo hi b : N) : bool := (lo <=? b) && (b <=? hi).
Definition is_cont (b : N) : bool := in_range 128 191 b.

(** Bounds of the second byte of a three- or four-byte sequence. *)
Definition second3 (b1 b2 : N) : bool :=
  in_range (if b1 =? 224 then 160 else 128) (if b1 =? 237 then 159 else 191) b2.
Definition second4 (b1 b2 : N) : bool :=
  in_range (if b1 =? 240 then 144 else 128) (if b1 =? 244 then 143 else 191) b2.

(** The UTF-8 decoder in fatal mode: [None] is the thrown TypeError. *)
Fixpoint utf8_decode (bs : bytes) : option ustr :=
  match bs with
  | [] => Some []
  | b1 :: r1 =>
      if b1 <? 128 then cons b1 <$> utf8_decode r1
      else if in_range 194 223 b1 then
        match r1 with
        | b2 :: r2 =>
            if is_cont b2 then cons ((b1 - 192) * 64 + (b2 - 128)) <$> utf8_decode r2 else None
        | _ => None
        end
      else if in_range 224 239 b1 then
        match r1 with
        | b2 :: b3 :: r3 =>
            if second3 b1 b2 && is_cont b3
            then cons ((b1 - 224) * 4096 + (b2 - 128) * 64 + (b3 - 128)) <$> utf8_decode r3
            else None
        | _ => None
        end
      else if in_range 240 244 b1 then
        match r1 with
        | b2 :: b3 :: b4 :: r4 =>
            if second4 b1 b2 && is_cont b3 && is_cont b4
            then let cp := (b1 - 240) * 262144 + (b2 - 128) * 4096 + (b3 - 128) * 64 + (b4 - 128) in
                 let v := cp - 65536 in
                 (fun s => 55296 + v / 1024 :: 56320 + v mod 1024 :: s) <$> utf8_decode r4
            else None
        | _ => None
        end
      else None
  end.

Close Scope N_scope.

Definition BOM : bytes := [239; 187; 191]%N.

(** [new TextDecoder("utf-8", { fatal: true }).decode(bs)]: without [ignoreBOM] the decoder
    drops one leading byte order mark. *)
Definition TextDecoder_decode (bs : bytes) : option ustr :=
  utf8_decode (if startsWith BOM bs then drop 3 bs else bs).

(** ** Codec round trip *)

Ltac Zify.zify_post_hook ::= Z.to_euclidean_division_equations.

Ltac unfold_ranges :=
  unfold second3, second4, is_cont, in_range, is_high, is_low in *;
  repeat match goal with
  | H : context [if ?b then _ else _] |- _ => destruct b eqn:?
  end;
  repeat match goal with
  | H : (_ && _)%bool = true |- _ => apply andb_true_iff in H as [? ?]
  | H : (_ <=? _)%N = true |- _ => apply N.leb_le in H
  | H : (_ <? _)%N = true |- _ => apply N.ltb_lt in H
  | H : (_ <? _)%N = false |- _ => apply N.ltb_ge in H
  | H : (_ =? _)%N = true |- _ => apply N.eqb_eq in H
  | H : (_ =? _)%N = false |- _ => apply N.eqb_neq in H
  end.

Lemma is_high_false_range c : (c < 55296 \/ 56319 < c)%N -> is_high c = false.
Proof. unfold is_high. intros H. apply andb_false_iff. rewrite !N.leb_gt. lia. Qed.

Lemma is_low_false_range c : (c < 56320 \/ 57343 < c)%N -> is_low c = false.
Proof. unfold is_low. intros H. apply andb_false_iff. rewrite !N.leb_gt. lia. Qed.

(** A code unit outside the surrogate range is encoded on its own. *)
Lemma utf8_encode_bmp c s :
  (c < 55296 \/ 57343 < c)%N -> utf8_encode (c :: s) = enc_bmp c ++ utf8_encode s.
Proof.
  intros H. cbn [utf8_encode].
  rewrite is_high_false_range, is_low_false_range by lia. done.
Qed.

Lemma utf8_encode_pair hi lo s :
  (55296 <= hi <= 56319)%N -> (56320 <= lo <= 57343)%N ->
  utf8_encode (hi :: lo :: s) = enc_pair hi lo ++ utf8_encode s.
Proof.
  intros H1 H2. cbn [utf8_encode].
  replace (is_high hi) with true by (symmetry; apply andb_true_iff; rewrite !N.leb_le; lia).
  replace (is_low lo) with true by (symmetry; apply andb_true_iff; rewrite !N.leb_le; lia).
  done.
Qed.

Lemma enc_bmp_1 b : (b < 128)%N -> enc_bmp b = [b].
Proof. intros H. unfold enc_bmp. by rewrite (proj2 (N.ltb_lt _ _) H). Qed.

Lemma enc_bmp_2 b1 b2 :
  in_range 194 223 b1 = true -> is_cont b2 = true ->
  let c := ((b1 - 192) * 64 + (b2 - 128))%N in
  (128 <= c < 2048)%N /\ enc_bmp c = [b1; b2].
Proof.
  intros H1 H2 c. assert (128 <= c < 2048)%N by (subst c; unfold_ranges; lia). split; [done|].
  assert (194 <= b1 <= 223 /\ 128 <= b2 <= 191)%N by (clear c H; unfold_ranges; lia).
  clear H1 H2.
  unfold enc_bmp. rewrite (proj2 (N.ltb_ge c 128)), (proj2 (N.ltb_lt c 2048)) by lia.
  repeat f_equal; subst c; lia.
Qed.

Lemma enc_bmp_3 b1 b2 b3 :
  in_range 224 239 b1 = true -> second3 b1 b2 = true -> is_cont b3 = true ->
  let c := ((b1 - 224) * 4096 + (b2 - 128) * 64 + (b3 - 128))%N in
  (2048 <= c < 55296 \/ 57343 < c < 65536)%N /\ enc_bmp c = [b1; b2; b3].
Proof.
  intros H1 H2 H3 c.
  assert (2048 <= c < 55296 \/ 57343 < c < 65536)%N as Hc.
  { subst c. unfold_ranges; lia. }
  split; [done|]. unfold enc_bmp.
  rewrite (proj2 (N.ltb_ge c 128)), (proj2 (N.ltb_ge c 2048)) by lia.
  assert (224 <= b1 <= 239 /\ 128 <= b2 <= 191 /\ 128 <= b3 <= 191)%N by (unfold_ranges; lia).
  repeat f_equal; subst c; clear H1 H2 H3 Hc; lia.
Qed.

Lemma enc_pair_4 b1 b2 b3 b4 :
  in_range 240 244 b1 = true -> second4 b1 b2 = true -> is_cont b3 = true -> is_cont b4 = true ->
  let v := ((b1 - 240) * 262144 + (b2 - 128) * 4096 + (b3 - 128) * 64 + (b4 - 128) - 65536)%N in
  (55296 <= 55296 + v / 1024 <= 56319)%N /\ (56320 <= 56320 + v mod 1024 <= 57343)%N /\
  enc_pair (55296 + v / 1024) (56320 + v mod 1024) = [b1; b2; b3; b4].
Proof.
  intros H1 H2 H3 H4 v.
  assert (65536 <= v + 65536 < 1114112 /\
    v + 65536 = (b1 - 240) * 262144 + (b2 - 128) * 4096 + (b3 - 128) * 64 + (b4 - 128))%N
    as [Hv Hv'].
  { subst v. unfold_ranges; lia. }
  assert (240 <= b1 <= 244 /\ 128 <= b2 <= 191 /\ 128 <= b3 <= 191 /\ 128 <= b4 <= 191)%N
    by (unfold_ranges; lia).
  clearbody v. clear H1 H2 H3 H4. split_and!; try lia.
  unfold enc_pair. cbv zeta.
  replace (65536 + (55296 + v / 1024 - 55296) * 1024 + (56320 + v mod 1024 - 56320))%N
    with (v + 65536)%N by lia.
  rewrite Hv'. clear Hv Hv'. repeat f_equal; lia.
Qed.

Lemma utf8_decode_encode_n n bs s :
  length bs <= n -> utf8_decode bs = Some s -> utf8_encode s = bs.
Proof.
  revert bs s. induction n as [|n IH]; intros [|b1 r1] s Hl; cbn [length] in Hl;
    try lia; cbn [utf8_decode]; try (by intros [= <-]).
  destruct (b1 <? 128)%N eqn:E1; [|destruct (in_range 194 223 b1) eqn:E2;
    [|destruct (in_range 224 239 b1) eqn:E3; [|destruct (in_range 240 244 b1) eqn:E4; [|done]]]].
  - intros (t & Ht & ->)%fmap_Some. apply N.ltb_lt in E1.
    rewrite utf8_encode_bmp, enc_bmp_1 by lia. cbn. f_equal. apply IH; [lia | done].
  - destruct r1 as [|b2 r2]; [done|]. destruct (is_cont b2) eqn:C2; [|done].
    intros (t & Ht & ->)%fmap_Some. destruct (enc_bmp_2 b1 b2 E2 C2) as [Hc He].
    rewrite utf8_encode_bmp, He by lia. cbn in *. do 2 f_equal. apply IH; [lia | done].
  - destruct r1 as [|b2 [|b3 r3]]; [done..|].
    destruct (second3 b1 b2 && is_cont b3) eqn:C2; [|done].
    apply andb_true_iff in C2 as [C2 C3].
    intros (t & Ht & ->)%fmap_Some. destruct (enc_bmp_3 b1 b2 b3 E3 C2 C3) as [Hc He].
    rewrite utf8_encode_bmp, He by lia. cbn in *. do 3 f_equal. apply IH; [lia | done].
  - destruct r1 as [|b2 [|b3 [|b4 r4]]]; [done..|].
    destruct (second4 b1 b2 && is_cont b3 && is_cont b4) eqn:C2; [|done].
    apply andb_true_iff in C2 as [[C2 C3]%andb_true_iff C4].
    intros (t & Ht & ->)%fmap_Some.
    destruct (enc_pair_4 b1 b2 b3 b4 E4 C2 C3 C4) as (Hh & Hlo & He).
    rewrite utf8_encode_pair, He by done. cbn in *. do 4 f_equal. apply IH; [lia | done].
Qed.

(** Decoding loses nothing: what the fatal decoder accepts re-encodes to the same bytes. *)
Lemma utf8_decode_encode bs s : utf8_decode bs = Some s -> utf8_encode s = bs.
Proof. by apply utf8_decode_encode_n with (n := length bs). Qed.

(** Encoding distributes over a cut that does not split a surrogate pair. *)
Lemma utf8_encode_app s c t :
  is_low c = false -> utf8_encode (s ++ c :: t) = utf8_encode s ++ utf8_encode (c :: t).
Proof.
  intros Hc. remember (length s) as n eqn:Hn. assert (length s <= n) as Hle by lia. clear Hn.
  revert s Hle. induction n as [|n IH]; intros [|a s] Hle; cbn [length] in Hle; try done; try lia.
  destruct s as [|b s].
  - cbn [app]. cbn [utf8_encode]. destruct (is_high a); [by rewrite Hc|].
    destruct (is_low a); [done|]. by rewrite app_nil_r.
  - cbn [length] in Hle. cbn [app].
    assert (utf8_encode (b :: s ++ c :: t) = utf8_encode (b :: s) ++ utf8_encode (c :: t)) as IHb.
    { apply (IH (b :: s)). cbn [length]. lia. }
    change (a :: b :: s ++ c :: t) with (a :: (b :: s ++ c :: t)).
    cbn [utf8_encode] in *. destruct (is_high a).
    + destruct (is_low b).
      * rewrite <- app_assoc. f_equal. apply IH. lia.
      * by rewrite IHb, <- app_assoc.
    + destruct (is_low a); rewrite IHb; by rewrite <- app_assoc.
Qed.

(** ** Dates *)

Fixpoint padded (width : nat) (n : Z) : ustr :=
  match width with
  | O => []
  | S width => padded width (n / 10) ++ [Z.to_N (48 + n mod 10)]
  end.

(** Year, month and day of a count of days since 1970-01-01 in the proleptic Gregorian calendar; years begin in March. *)
Definition civil_of_days (days : Z) : Z * Z * Z :=
  let shifted := (days + 719468)%Z in
  let era := (shifted / 146097)%Z in
  let day_of_era := (shifted mod 146097)%Z in
  let year_of_era := ((day_of_era - day_of_era / 1460 + day_of_era / 36524 - day_of_era / 146096) / 365)%Z in
  let day_of_year := (day_of_era - (365 * year_of_era + year_of_era / 4 - year_of_era / 100))%Z in
  let month := ((5 * day_of_year + 2) / 153)%Z in
  let year := (year_of_era + era * 400)%Z in
  (if (month <? 10)%Z then year else (year + 1)%Z, if (month <? 10)%Z then (month + 3)%Z else (month - 9)%Z,
   (day_of_year - (153 * month + 2) / 5 + 1)%Z).

(** [new Date(ms).toISOString()]; [None] is the RangeError of a time outside the range of dates. *)
Definition Date_toISOString (ms : Z) : option ustr :=
  if (8640000000000000 <? Z.abs ms)%Z then None else
  let '(year, month, day) := civil_of_days (ms / 86400000) in
  let rest := (ms mod 86400000)%Z in
  let years := if ((0 <=? year) && (year <=? 9999))%Z then padded 4 year
               else u (if (year <? 0)%Z then "-"%string else "+"%string) ++ padded 6 (Z.abs year) in
  Some (years ++ u "-"%string ++ padded 2 month ++ u "-"%string ++ padded 2 day ++ u "T"%string ++ padded 2 (rest / 3600000) ++ u ":"%string ++
        padded 2 (rest / 60000 mod 60) ++ u ":"%string ++ padded 2 (rest / 1000 mod 60) ++ u "."%string ++ padded 3 (rest mod 1000) ++ u "Z"%string).

(** [new Date(Date.parse(now) + delay).toISOString()]; a text that is no date has no time. *)
Definition date_plus (Date_parse : ustr -> option Z) (now : ustr) (delay : Z) : option ustr :=
  ms ← Date_parse now; Date_toISOString (ms + delay).

Example iso_epoch : Date_toISOString 0 = Some (u "1970-01-01T00:00:00.000Z"%string).
Proof. vm_compute. reflexivity. Qed.
Example iso_leap_day : Date_toISOString 951868799999 = Some (u "2000-02-29T23:59:59.999Z"%string).
Proof. vm_compute. reflexivity. Qed.
Example iso_before_epoch : Date_toISOString (-1) = Some (u "1969-12-31T23:59:59.999Z"%string).
Proof. vm_compute. reflexivity. Qed.
Example iso_last : Date_toISOString 8640000000000000 = Some (u "+275760-09-13T00:00:00.000Z"%string).
Proof. vm_compute. reflexivity. Qed.
