(* ===== verification/TextPatch.v ===== *)
(** Unified-diff text patches (packages/verification/src/changeset/text-patch.ts): parsing a
    diff, parsing a text file into logical lines, and applying the hunks. *)

From Stdlib Require Import String.
From S2P Require Import Prelude JsText.
Open Scope string_scope.
Open Scope list_scope.

(** The [code] of a thrown [ChangeSetError] (errors.ts); [DIGEST_THROWN] stands for the error of
    another class that [taggedHash] throws, [OUT_OF_FUEL] for a loop cut off. *)
Inductive ChangeSetCode : Set :=
| TEXT_PATCH_HEADER | TEXT_PATCH_HUNK | TEXT_PATCH_ENCODING | SCHEMA_INVALID
| PATH_MUST_BE_ABSENT | PATH_MUST_EXIST | PARENT_MISSING | SYMLINK_ALIAS | ALIAS_AMBIGUOUS
| BASELINE_DIGEST | HARDLINK | CASE_COLLISION | UNHANDLED_OPERATION
| DIGEST_BEFORE_MISMATCH | DIGEST_AFTER_MISMATCH | DIRECTORY_NOT_EMPTY | DIRECTORY_TREE_MISMATCH
| MOVE_DIRECTORY_FORBIDDEN | MOVE_OVERWRITE | MODE_INVALID | SYMLINK_ESCAPE | CHAIN_AMBIGUOUS
| PATH_TRAVERSAL | PATH_ABSOLUTE | PATH_DEVICE | PATH_ADS | PATH_RESERVED | PATH_PROTECTED
| PATH_LENGTH | UNICODE_COLLISION
| EMPTY_OPERATIONS | RESOURCE_LIMIT | BASE_SNAPSHOT_MISMATCH | UNDECLARED_MUTATION
| DIGEST_THROWN | OUT_OF_FUEL.

#[export] Instance ChangeSetCode_eq_dec : EqDecision ChangeSetCode.
Proof. solve_decision. Defined.

Abbreviation res := (result ChangeSetCode).

(** ** Data *)

Record LogicalLine := mkLine { text : ustr; ending : ustr }.

Inductive LineEnding : Set := EOL_LF | EOL_CRLF.
Inductive FinalNewline : Set := NL_PRESENT | NL_ABSENT.

Record TextPatchOptions := mkTextPatchOptions {
  unifiedDiff : ustr;
  opt_path : ustr;
  insertedLineEnding : LineEnding;
  finalNewline : FinalNewline
}.

Inductive HunkKind : Set := Context_ | Delete | Add.

Record HunkLine := mkHunkLine { kind : HunkKind; htext : ustr }.

Record Hunk := mkHunk {
  oldStart : Z;
  oldCount : Z;
  newStart : Z;
  newCount : Z;
  body : list HunkLine
}.

(** ** Headers *)

Definition normalizeDiff (diff : ustr) : ustr :=
  replaceAll [CR] [LF] (replaceAll [CR; LF] [LF] diff).

Definition QUOTE : N := 34.
Definition APOSTROPHE : N := 39.

(** [rest.slice(1, -1)] *)
Definition strip_ends (s : ustr) : ustr := removelast (drop 1 s).

Definition headerPath (line kind : ustr) : res ustr :=
  throw_if negb (startsWith kind line) with TEXT_PATCH_HEADER;
  let rest := trimStart (drop (length kind) line) in
  let rest := match indexOf [TAB] rest with Some tab => take tab rest | None => rest end in
  let rest := if (startsWith [QUOTE] rest && endsWith [QUOTE] rest)
                 || (startsWith [APOSTROPHE] rest && endsWith [APOSTROPHE] rest)
              then strip_ends rest else rest in
  if bool_decide (rest = u "/dev/null") then Ok (u "/dev/null") else
  Ok (if startsWith (u "a/") rest || startsWith (u "b/") rest then drop 2 rest else rest).

(** The regular expression's [.]: anything but a line terminator. *)
Definition is_line_terminator (c : N) : bool := existsb (N.eqb c) [10; 13; 8232; 8233]%N.
Definition dots (s : ustr) : bool := forallb (fun c => negb (is_line_terminator c)) s.

(** The last split [(.+) b/(.+)] of the greedy groups: the first group takes as much as it can. *)
Fixpoint prelude_split (s : ustr) : option (ustr * ustr) :=
  match s with
  | [] => None
  | c :: r =>
      match prelude_split r with
      | Some (f, t) => Some (c :: f, t)
      | None => if startsWith (u " b/") r && negb (bool_decide (drop 3 r = []))
                then Some ([c], drop 3 r) else None
      end
  end.

Definition preludePaths (line : ustr) : option (ustr * ustr) :=
  if startsWith (u "diff --git a/") line && dots line
  then prelude_split (drop 13 line) else None.

Definition isIgnorableGitHeader (line : ustr) : bool :=
  existsb (fun p => startsWith (u p) line)
    ["index "; "old mode "; "new mode "; "new file mode "; "deleted file mode ";
     "similarity index "; "rename from "; "rename to "; "copy from "; "copy to ";
     "dissimilarity index "].

(** ** Hunks *)

Definition parseHunkBodyLine (bodyLine : ustr) : res HunkLine :=
  match bodyLine with
  | [] => Err TEXT_PATCH_HUNK
  | marker :: rest =>
      if (marker =? 32)%N then Ok (mkHunkLine Context_ rest)
      else if (marker =? 45)%N then Ok (mkHunkLine Delete rest)
      else if (marker =? 43)%N then Ok (mkHunkLine Add rest)
      else Err TEXT_PATCH_HUNK
  end.

Definition is_digit (c : N) : bool := (48 <=? c)%N && (c <=? 57)%N.

(** [(\d+)] and its [Number.parseInt]: the digits' value and what follows them. *)
Fixpoint digits (acc : Z) (s : ustr) : Z * ustr :=
  match s with
  | c :: r => if is_digit c then digits (acc * 10 + Z.of_N (c - 48)) r else (acc, s)
  | [] => (acc, [])
  end.
Definition parse_digits (s : ustr) : option (Z * ustr) :=
  match s with
  | c :: _ => if is_digit c then Some (digits 0 s) else None
  | [] => None
  end.

Definition expect (p s : ustr) : option ustr :=
  if startsWith p s then Some (drop (length p) s) else None.

(** [(?:,(\d+))?] with the code's default of 1. *)
Definition parse_count (s : ustr) : Z * ustr :=
  match s with
  | 44%N :: r => match parse_digits r with Some (n, r') => (n, r') | None => (1%Z, s) end
  | _ => (1%Z, s)
  end.

(** [HUNK_HEADER] *)
Definition parse_hunk_header (line : ustr) : option (Z * Z * Z * Z) :=
  s ← expect (u "@@ -") line;
  '(os, s) ← parse_digits s;
  let '(oc, s) := parse_count s in
  s ← expect (u " +") s;
  '(ns, s) ← parse_digits s;
  let '(nc, s) := parse_count s in
  s ← expect (u " @@") s;
  match s with
  | [] => Some (os, oc, ns, nc)
  | c :: r => if (c =? SPACE)%N && dots r then Some (os, oc, ns, nc) else None
  end.

(** The body loop: [oldSeen < oldCount || newSeen < newCount]. *)
Fixpoint parseHunkBody (oldLeft newLeft : Z) (lines : list ustr)
  : res (list HunkLine * list ustr) :=
  if negb ((0 <? oldLeft)%Z || (0 <? newLeft)%Z) then Ok ([], lines) else
  match lines with
  | [] => Err TEXT_PATCH_HUNK
  | bodyLine :: rest =>
      let? parsed := parseHunkBodyLine bodyLine in
      let? '(o, n) :=
        match kind parsed with
        | Context_ =>
            throw_if (oldLeft =? 0)%Z || (newLeft =? 0)%Z with TEXT_PATCH_HUNK;
            Ok (oldLeft - 1, newLeft - 1)%Z
        | Delete => throw_if (oldLeft =? 0)%Z with TEXT_PATCH_HUNK; Ok (oldLeft - 1, newLeft)%Z
        | Add => throw_if (newLeft =? 0)%Z with TEXT_PATCH_HUNK; Ok (oldLeft, newLeft - 1)%Z
        end in
      let? '(b, r) := parseHunkBody o n rest in
      Ok (parsed :: b, r)
  end.

Fixpoint parse_hunks (fuel : nat) (lines : list ustr) : res (list Hunk) :=
  match fuel with
  | O => Err OUT_OF_FUEL
  | S fuel' =>
      match lines with
      | [] => Ok []
      | line :: rest =>
          if bool_decide (line = []) then parse_hunks fuel' rest else
          match parse_hunk_header line with
          | None => Err TEXT_PATCH_HEADER
          | Some (os, oc, ns, nc) =>
              let? '(b, rest') := parseHunkBody oc nc rest in
              let? hunks := parse_hunks fuel' rest' in
              Ok (mkHunk os oc ns nc b :: hunks)
          end
      end
  end.

Definition parseHunks (lines : list ustr) : res (list Hunk) :=
  let? hunks := parse_hunks (S (length lines)) lines in
  match hunks with [] => Err TEXT_PATCH_HUNK | _ => Ok hunks end.

(** ** Text files *)

(** One turn of the line loop on [text.slice(cursor)]: where the next line ends and with what.
    The three [indexOf] calls and their comparisons are the code's; positions are relative to
    the cursor. *)
Definition next_break (rest : ustr) : nat * ustr :=
  let crlf := indexOf [CR; LF] rest in
  let lf := indexOf [LF] rest in
  let cr := indexOf [CR] rest in
  let before (a b : option nat) := match a, b with
    | Some i, Some j => (i <=? j)%nat | Some _, None => true | None, _ => false end in
  let strictly (a b : option nat) := match a, b with
    | Some i, Some j => (i <? j)%nat | Some _, None => true | None, _ => false end in
  if before crlf lf && before crlf cr then (default 0 crlf, [CR; LF])
  else if strictly lf cr then (default 0 lf, [LF])
  else match cr with Some j => (j, [CR]) | None => (length rest, []) end.

(** [while (cursor < text.length)] *)
Fixpoint split_lines (fuel : nat) (rest : ustr) : list LogicalLine :=
  match fuel, rest with
  | S fuel', _ :: _ =>
      let '(next, e) := next_break rest in
      mkLine (take next rest) e :: split_lines fuel' (drop (next + length e) rest)
  | _, _ => []
  end.

Definition last_ending (lines : list LogicalLine) : ustr :=
  match last lines with Some l => ending l | None => [] end.

Definition parseTextFile (bs : bytes) : res (bool * list LogicalLine) :=
  throw_if has_unit 0 bs with TEXT_PATCH_ENCODING;
  let bom := startsWith BOM bs in
  match TextDecoder_decode (if bom then drop 3 bs else bs) with
  | None => Err TEXT_PATCH_ENCODING
  | Some txt =>
      let lines := split_lines (length txt) txt in
      if bool_decide (txt = []) then Ok (bom, []) else
      if negb (endsWith [LF] txt) && negb (endsWith [CR] txt)
         && (bool_decide (lines = []) || negb (bool_decide (last_ending lines = [])))
      then Ok (bom, lines ++ [mkLine [] []])
      else Ok (bom, lines)
  end.

(** ** Applying hunks *)

Definition oldStartIndex (h : Hunk) : Z :=
  if (oldCount h =? 0)%Z then oldStart h else (oldStart h - 1)%Z.

(** The state of the loop: [lastStart], [lastOccupiedEnd]. *)
Definition assertHunk (oldLineCount : Z) (st : Z * Z) (h : Hunk) : res (Z * Z) :=
  let '(lastStart, lastOccupiedEnd) := st in
  throw_if (0 <=? lastStart)%Z && (oldStart h <=? lastStart)%Z with TEXT_PATCH_HUNK;
  if (oldCount h =? 0)%Z then
    throw_if (if (oldStart h =? 0)%Z then negb (oldLineCount =? 0)%Z
              else (oldLineCount <? oldStart h)%Z) with TEXT_PATCH_HUNK;
    throw_if (oldStart h <? lastOccupiedEnd)%Z with TEXT_PATCH_HUNK;
    Ok (oldStart h, Z.max lastOccupiedEnd (oldStart h))
  else
    throw_if (oldStart h <? 1)%Z || (oldLineCount <? oldStart h + oldCount h - 1)%Z
      with TEXT_PATCH_HUNK;
    throw_if (oldStart h <? lastOccupiedEnd)%Z with TEXT_PATCH_HUNK;
    Ok (oldStart h, oldStart h + oldCount h)%Z.

Definition assertHunksOnOriginal (hunks : list Hunk) (oldLineCount : Z) : res unit :=
  let? _ := rfold (assertHunk oldLineCount) (-1, 0)%Z hunks in Ok tt.

(** One body entry: state is [oldPtr] and the output so far. *)
Definition applyEntry (lines : list LogicalLine) (insertedEnding : ustr)
  (st : nat * list LogicalLine) (entry : HunkLine) : res (nat * list LogicalLine) :=
  let '(oldPtr, output) := st in
  match kind entry with
  | Add => Ok (oldPtr, output ++ [mkLine (htext entry) insertedEnding])
  | Context_ | Delete =>
      match lines !! oldPtr with
      | None => Err TEXT_PATCH_HUNK
      | Some current =>
          throw_if negb (bool_decide (text current = htext entry)) with TEXT_PATCH_HUNK;
          Ok (S oldPtr, match kind entry with Context_ => output ++ [current] | _ => output end)
      end
  end.

(** One hunk: state is [cursor] and the output so far. *)
Definition applyHunk (lines : list LogicalLine) (insertedEnding : ustr)
  (st : nat * list LogicalLine) (h : Hunk) : res (nat * list LogicalLine) :=
  let '(cursor, output) := st in
  let startIndex := oldStartIndex h in
  throw_if (startIndex <? Z.of_nat cursor)%Z
           || (Z.of_nat (length lines) <? startIndex + oldCount h)%Z with TEXT_PATCH_HUNK;
  let start := Z.to_nat startIndex in
  let output := output ++ take (start - cursor) (drop cursor lines) in
  let? '(oldPtr, output) := rfold (applyEntry lines insertedEnding) (start, output) (body h) in
  throw_if negb (Z.of_nat oldPtr =? startIndex + oldCount h)%Z with TEXT_PATCH_HUNK;
  Ok (oldPtr, output).

Definition applyHunksOnOriginal (lines : list LogicalLine) (hunks : list Hunk)
  (insertedEnding : ustr) : res (list LogicalLine) :=
  let? _ := assertHunksOnOriginal hunks (Z.of_nat (length lines)) in
  let? '(cursor, output) := rfold (applyHunk lines insertedEnding) (0, []) hunks in
  Ok (output ++ drop cursor lines).

(** ** The whole patch *)

Fixpoint drop_while {A} (p : A -> bool) (l : list A) : list A :=
  match l with
  | x :: r => if p x then drop_while p r else l
  | [] => []
  end.

Definition diff_lines (diff : ustr) : list ustr :=
  let rawLines := split_unit LF (normalizeDiff diff) in
  match last rawLines with
  | Some [] => removelast rawLines
  | _ => rawLines
  end.

(** The header part: blank lines, [diff --git], ignorable git headers, [---] and [+++]. *)
Definition parse_headers (path : ustr) (rawLines : list ustr) : res (list ustr) :=
  let ls := drop_while (fun l => bool_decide (l = [])) rawLines in
  let? ls := match ls with
    | first :: rest =>
        match preludePaths first with
        | Some (from, to) =>
            throw_if negb (bool_decide (from = path)) || negb (bool_decide (to = path))
              with TEXT_PATCH_HEADER;
            Ok rest
        | None => Ok ls
        end
    | [] => Ok ls
    end in
  match drop_while isIgnorableGitHeader ls with
  | minus :: plus :: rest =>
      let? fromPath := headerPath minus (u "---") in
      let? toPath := headerPath plus (u "+++") in
      throw_if bool_decide (fromPath = u "/dev/null") || bool_decide (toPath = u "/dev/null")
        with TEXT_PATCH_HEADER;
      throw_if negb (bool_decide (fromPath = path)) || negb (bool_decide (toPath = path))
        with TEXT_PATCH_HEADER;
      Ok rest
  | _ => Err TEXT_PATCH_HEADER
  end.

Definition ending_of (e : LineEnding) : ustr :=
  match e with EOL_CRLF => [CR; LF] | EOL_LF => [LF] end.

(** The last line after the [finalNewline] adjustment. *)
Definition adjust_last (fn : FinalNewline) (insertedEnding : ustr) (l : LogicalLine) : LogicalLine :=
  match fn with
  | NL_PRESENT => if bool_decide (ending l = []) then mkLine (text l) insertedEnding else l
  | NL_ABSENT => mkLine (text l) []
  end.

Fixpoint map_last {A} (f : A -> A) (l : list A) : list A :=
  match l with
  | [] => []
  | [x] => [f x]
  | x :: r => x :: map_last f r
  end.

Definition render_line (l : LogicalLine) : bytes := utf8_encode (text l) ++ utf8_encode (ending l).
Definition render (bom : bool) (lines : list LogicalLine) : bytes :=
  (if bom then BOM else []) ++ concat (map render_line lines).

Definition applyUnifiedDiff (bs : bytes) (options : TextPatchOptions) : res bytes :=
  let rawLines := diff_lines (unifiedDiff options) in
  let? rest := parse_headers (opt_path options) rawLines in
  let? hunks := parseHunks rest in
  let? '(bom, lines) := parseTextFile bs in
  let insertedEnding := ending_of (insertedLineEnding options) in
  let? current := applyHunksOnOriginal lines hunks insertedEnding in
  match current with
  | [] =>
      let empty := match finalNewline options with NL_PRESENT => insertedEnding | NL_ABSENT => [] end in
      Ok ((if bom then BOM else []) ++ utf8_encode empty)
  | _ => Ok (render bom (map_last (adjust_last (finalNewline options) insertedEnding) current))
  end.

(** ** A patch by example *)

Definition sample_lf (ls : list string) : ustr := concat (map (fun l => u l ++ [LF]) ls).

Definition sample_patch : TextPatchOptions :=
  mkTextPatchOptions
    (sample_lf ["diff --git a/src/a.ts b/src/a.ts"; "index 1..2 100644"; "--- a/src/a.ts";
                "+++ b/src/a.ts"; "@@ -1,3 +1,3 @@ fn"; " one"; "-two"; "+deux"; " three"])
    (u "src/a.ts") EOL_LF NL_PRESENT.

Example sample_patch_applies :
  applyUnifiedDiff (sample_lf ["one"; "two"; "three"; "four"]) sample_patch =
  Ok (sample_lf ["one"; "deux"; "three"; "four"]).
Proof. vm_compute. reflexivity. Qed.
