(* ===== verification/TextPatchTheorems.v ===== *)
(** Correctness of the text-patch code: line splitting, the file round trip, the shape of parsed
    hunks, and what applying hunks does to a file. *)

From Stdlib Require Import String.
From S2P Require Import Prelude JsText TextPatch.
Open Scope string_scope.
Open Scope list_scope.

(** ** Line splitting *)

(** The first line break of a text, by structural recursion. *)
Fixpoint first_break (s : ustr) : nat * ustr :=
  match s with
  | [] => (0, [])
  | c :: r =>
      if (c =? LF)%N then (0, [LF])
      else if (c =? CR)%N then
        (0, match r with d :: _ => if (d =? LF)%N then [CR; LF] else [CR] | [] => [CR] end)
      else let '(i, e) := first_break r in (S i, e)
  end.

(** Reference splitter: walk the text once, keeping the current line. *)
Fixpoint ref_lines (acc s : ustr) : list LogicalLine :=
  match s with
  | [] => match acc with [] => [] | _ => [mkLine acc []] end
  | c :: r =>
      if (c =? LF)%N then mkLine acc [LF] :: ref_lines [] r
      else if (c =? CR)%N then
        match r with
        | d :: r' => if (d =? LF)%N then mkLine acc [CR; LF] :: ref_lines [] r'
                     else mkLine acc [CR] :: ref_lines [] r
        | [] => [mkLine acc [CR]]
        end
      else ref_lines (acc ++ [c]) r
  end.

Lemma indexOf_cons p c s :
  indexOf p (c :: s) = if startsWith p (c :: s) then Some 0 else S <$> indexOf p s.
Proof. done. Qed.

Lemma next_break_first s : next_break s = first_break s.
Proof.
  induction s as [|c r IH]; [done|]. cbn [first_break]. unfold next_break in *.
  rewrite !indexOf_cons. cbn [startsWith].
  rewrite (N.eqb_sym LF c), (N.eqb_sym CR c).
  destruct (c =? LF)%N eqn:E1.
  { apply N.eqb_eq in E1 as ->. cbn.
    by destruct (indexOf [CR; LF] r), (indexOf [CR] r). }
  destruct (c =? CR)%N eqn:E2; cbn [andb].
  { destruct r as [|d r]; [done|]. cbn [startsWith]. rewrite (N.eqb_sym LF d).
    destruct (d =? LF)%N eqn:E3; cbn [andb].
    - apply N.eqb_eq in E3 as ->. by cbn.
    - cbn [fmap option_fmap option_map].
      destruct (indexOf [CR; LF] (d :: r)), (indexOf [LF] (d :: r)); cbn;
        by rewrite ?andb_false_r. }
  rewrite <- IH. cbn [fmap option_fmap option_map length].
  destruct (indexOf [CR; LF] r), (indexOf [LF] r), (indexOf [CR] r); cbn;
    repeat case_match; simplify_eq; done.
Qed.

(** What the first break is: a line without break characters, then one of the three endings,
    or the end of the text. *)
Lemma first_break_spec s i e :
  first_break s = (i, e) ->
  s = take i s ++ e ++ drop (i + length e) s /\
  Forall (fun c => c <> LF /\ c <> CR) (take i s) /\
  (e = [LF] \/ e = [CR; LF] \/ e = [CR] \/ (e = [] /\ i = length s)) /\
  (e = [CR] -> head (drop (S i) s) <> Some LF).
Proof.
  revert i e. induction s as [|c r IH]; intros i e; cbn [first_break].
  - intros [= <- <-]. split_and!; [done | constructor | auto | done].
  - destruct (c =? LF)%N eqn:E1.
    { intros [= <- <-]. apply N.eqb_eq in E1 as ->. split_and!; [done | constructor | auto | done]. }
    destruct (c =? CR)%N eqn:E2.
    { apply N.eqb_eq in E2 as ->. intros [= <- <-].
      destruct r as [|d r]; [split_and!; [done | constructor | auto | done]|].
      destruct (d =? LF)%N eqn:E3.
      - apply N.eqb_eq in E3 as ->. split_and!; [done | constructor | auto | done].
      - apply N.eqb_neq in E3. split_and!; [done | constructor | auto |].
        intros _. cbn. congruence. }
    destruct (first_break r) as [j e'] eqn:Hr. intros [= <- <-].
    destruct (IH _ _ eq_refl) as (Hs & Hf & He & Hc). apply N.eqb_neq in E1, E2.
    cbn [take drop length Nat.add app]. split_and!.
    + by f_equal.
    + by constructor.
    + destruct He as [?|[?|[?|[? ?]]]]; auto 6.
    + done.
Qed.

Lemma ref_lines_break acc s :
  ref_lines acc s =
  let '(i, e) := first_break s in
  match acc ++ take i s, e with
  | [], [] => []
  | l, [] => [mkLine l []]
  | l, _ => mkLine l e :: ref_lines [] (drop (i + length e) s)
  end.
Proof.
  revert acc. induction s as [|c r IH]; intros acc; cbn [ref_lines first_break].
  - rewrite take_nil, app_nil_r. by destruct acc.
  - destruct (c =? LF)%N; [cbn; rewrite app_nil_r; by destruct acc|].
    destruct (c =? CR)%N.
    { destruct r as [|d r]; [cbn; rewrite app_nil_r; by destruct acc|].
      destruct (d =? LF)%N; cbn [length Nat.add drop take]; rewrite app_nil_r; by destruct acc. }
    rewrite IH. destruct (first_break r) as [i e]. cbn [take drop Nat.add].
    by rewrite <- app_assoc.
Qed.

Lemma split_lines_ref n s : length s <= n -> split_lines n s = ref_lines [] s.
Proof.
  revert s. induction n as [|n IH]; intros [|c r] Hl; cbn [length] in Hl; try lia; try done.
  rewrite ref_lines_break. unfold split_lines; fold split_lines. rewrite next_break_first.
  destruct (first_break (c :: r)) as [i e] eqn:Hb.
  destruct (first_break_spec _ _ _ Hb) as (Hs & _ & He & _).
  assert (drop (i + length e) (c :: r) = drop (i + length e - 1) r \/
          (i = 0 /\ e = [])) as Hd.
  { destruct (i + length e) as [|k] eqn:Hk; [right; destruct e; cbn in Hk; [split; [lia|done]|lia]|].
    left. cbn. by rewrite Nat.sub_0_r. }
  cbn [app]. destruct e as [|e0 e].
  - destruct He as [?|[?|[?|[_ Hi]]]]; [done..|]. subst i.
    rewrite firstn_all, Nat.add_0_r, drop_all. by destruct n.
  - destruct Hd as [Hd|[_ ?]]; [|done]. rewrite Hd, IH.
    + by destruct (take i (c :: r)).
    + rewrite length_drop. lia.
Qed.

Lemma split_lines_encode n s :
  length s <= n -> concat (map render_line (split_lines n s)) = utf8_encode s.
Proof.
  revert s. induction n as [|n IH]; intros [|c r] Hl; cbn [length] in Hl; try lia; try done.
  unfold split_lines; fold split_lines. rewrite next_break_first.
  destruct (first_break (c :: r)) as [i e] eqn:Hb.
  destruct (first_break_spec _ _ _ Hb) as (Hs & _ & He & _). cbn [map concat].
  set (rest := drop (i + length e) (c :: r)) in *.
  assert (e <> [] -> length rest <= n) as Hrest.
  { intros Hne. subst rest. rewrite length_drop. cbn [length]. destruct e; [done|]. cbn. lia. }
  unfold render_line at 1. cbn [text ending].
  transitivity (utf8_encode (take i (c :: r) ++ e ++ rest)); [|by rewrite <- Hs].
  destruct He as [->|[->|[->|[-> Hi]]]].
  1-3: rewrite (IH _ (Hrest ltac:(discriminate)));
       cbn [app]; rewrite (utf8_encode_app (take i (c :: r))) by done;
       by rewrite <- app_assoc.
  assert (rest = []) as -> by (subst rest i; apply drop_ge; cbn; lia). subst i.
  rewrite firstn_all. cbn [app].
  destruct n; cbn [split_lines map concat]; by rewrite !app_nil_r.
Qed.

Lemma ref_lines_last acc s c :
  last s = Some c -> c <> LF -> c <> CR ->
  ref_lines acc s <> [] /\ last_ending (ref_lines acc s) = [].
Proof.
  revert acc. remember (length s) as n eqn:Hn. assert (length s <= n) as Hle by lia. clear Hn.
  revert s Hle. induction n as [|n IH]; intros [|a s] Hle acc; cbn [length] in Hle; try done; try lia.
  intros Hl H1 H2. cbn [ref_lines].
  assert (forall l e r, r <> [] -> last r = Some c -> length r <= n ->
    mkLine l e :: ref_lines [] r <> [] /\ last_ending (mkLine l e :: ref_lines [] r) = []) as Hcons.
  { intros l e r Hr Hlr Hlen. split; [done|]. destruct (IH r Hlen [] Hlr H1 H2) as [Hne He].
    unfold last_ending in *. destruct (ref_lines [] r) eqn:E; [done|]. done. }
  destruct s as [|b s].
  - cbn in Hl. injection Hl as ->.
    rewrite (proj2 (N.eqb_neq c LF) H1), (proj2 (N.eqb_neq c CR) H2). cbn.
    by destruct acc.
  - change (last (a :: b :: s)) with (last (b :: s)) in Hl. cbn [length] in Hle.
    destruct (a =? LF)%N; [apply Hcons; [done | done | cbn; lia]|].
    destruct (a =? CR)%N; [|apply IH; [cbn; lia | done..]].
    destruct (b =? LF)%N eqn:E; [|apply Hcons; [done | done | cbn; lia]].
    apply N.eqb_eq in E as ->. destruct s as [|d s]; [cbn in Hl; congruence|].
    apply Hcons; [done | done | cbn in *; lia].
Qed.

Lemma endsWith_unit c s : endsWith [c] s = true <-> last s = Some c.
Proof.
  unfold endsWith. cbn [rev app]. destruct s as [|a s _] using rev_ind.
  - cbn. split; [done|]. intros H. discriminate.
  - rewrite rev_app_distr, last_snoc. cbn. rewrite andb_true_r, N.eqb_eq. naive_solver.
Qed.

(** The guard that would add an empty last line never holds. *)
Lemma parseTextFile_eq bs bom lines :
  parseTextFile bs = Ok (bom, lines) <->
  has_unit 0 bs = false /\ bom = startsWith BOM bs /\
  exists txt, TextDecoder_decode (if bom then drop 3 bs else bs) = Some txt /\
    lines = ref_lines [] txt.
Proof.
  unfold parseTextFile. destruct (has_unit 0 bs); [naive_solver|].
  destruct (TextDecoder_decode _) as [txt|] eqn:Hd;
    [|split; [done | intros (_ & -> & t & Ht & _); congruence]].
  enough ((if bool_decide (txt = []) then Ok (startsWith BOM bs, []) else
           if negb (endsWith [LF] txt) && negb (endsWith [CR] txt)
              && (bool_decide (split_lines (length txt) txt = [])
                  || negb (bool_decide (last_ending (split_lines (length txt) txt) = [])))
           then Ok (startsWith BOM bs, split_lines (length txt) txt ++ [mkLine [] []])
           else Ok (startsWith BOM bs, split_lines (length txt) txt))
          = @Ok ChangeSetCode _ (startsWith BOM bs, ref_lines [] txt)) as ->.
  { split; [intros [= <- <-]; naive_solver|].
    intros (_ & -> & t & Ht & ->). congruence. }
  rewrite split_lines_ref by done. case_bool_decide as Ht; [by subst|].
  destruct (endsWith [LF] txt) eqn:E1; [done|]. destruct (endsWith [CR] txt) eqn:E2; [done|].
  destruct (last txt) as [c|] eqn:Hl; [|by apply last_None in Hl].
  destruct (ref_lines_last [] txt c Hl) as [Hne He].
  - intros ->. apply endsWith_unit in Hl. congruence.
  - intros ->. apply endsWith_unit in Hl. congruence.
  - by rewrite (bool_decide_false _ Hne), (bool_decide_true _ He).
Qed.

Lemma parse_render bs (bom : bool) lines txt :
  TextDecoder_decode (if bom then drop 3 bs else bs) = Some txt -> lines = ref_lines [] txt ->
  concat (map render_line lines) =
    (let bs' := if bom then drop 3 bs else bs in if startsWith BOM bs' then drop 3 bs' else bs').
Proof.
  intros Hd ->. rewrite <- (split_lines_ref (length txt) txt), split_lines_encode by done.
  by apply utf8_decode_encode.
Qed.

(** Splitting a file into logical lines and rendering them again gives back the same bytes,
    byte order mark included, whenever the file does not start with two byte order marks; the
    code's three-way search yields the lines of the one-pass reference splitter. *)
Theorem parseTextFile_roundtrip bs bom lines :
  parseTextFile bs = Ok (bom, lines) -> startsWith (BOM ++ BOM) bs = false ->
  render bom lines = bs /\
  exists txt, utf8_decode (if bom then drop 3 bs else bs) = Some txt /\ lines = ref_lines [] txt.
Proof.
  intros (_ & Hbom & txt & Hd & Hl)%parseTextFile_eq H2.
  assert (startsWith BOM (if bom then drop 3 bs else bs) = false) as Hno.
  { destruct bom; [|done]. symmetry in Hbom. apply startsWith_app in Hbom as [t ->].
    apply not_true_iff_false. intros H. apply startsWith_app in H as [t' Ht'].
    change (drop 3 (BOM ++ t)) with t in Ht'. subst t.
    apply not_true_iff_false in H2. apply H2, startsWith_app. exists t'. by rewrite <- app_assoc. }
  split.
  - unfold render. rewrite (parse_render _ _ _ _ Hd Hl). cbv zeta. rewrite Hno.
    destruct bom; [|done]. symmetry in Hbom. by apply startsWith_app in Hbom as [t ->].
  - exists txt. split; [|done]. unfold TextDecoder_decode in Hd. by rewrite Hno in Hd.
Qed.

(** A file that starts with two byte order marks loses one of them: the decoder drops the
    second after the code has already removed the first. *)
Theorem double_bom_lost rest bom lines :
  parseTextFile (BOM ++ BOM ++ rest) = Ok (bom, lines) ->
  render bom lines = BOM ++ rest.
Proof.
  intros (_ & Hbom & txt & Hd & Hl)%parseTextFile_eq.
  assert (bom = true) as -> by (rewrite Hbom; apply startsWith_app; eauto).
  unfold render. rewrite (parse_render _ true _ _ Hd Hl). done.
Qed.

Lemma parseTextFile_roundtrip_witness :
  exists lines, parseTextFile (u "a" ++ [13; 10] ++ u "b")%N = Ok (false, lines) /\
    render false lines = (u "a" ++ [13; 10] ++ u "b")%N.
Proof.
  exists [mkLine (u "a") [CR; LF]; mkLine (u "b") []]. split; [vm_compute; reflexivity|].
  apply (parseTextFile_roundtrip (u "a" ++ [13; 10]%N ++ u "b")); vm_compute; reflexivity.
Defined.

Lemma double_bom_lost_witness :
  exists lines, parseTextFile (BOM ++ BOM ++ u "a") = Ok (true, lines) /\
    render true lines = BOM ++ u "a".
Proof.
  exists [mkLine (u "a") []]. split; [vm_compute; reflexivity|].
  apply (double_bom_lost (u "a")). vm_compute. reflexivity.
Defined.

(** ** Parsed hunks *)

Definition kind_is (k : HunkKind) (l : HunkLine) : bool :=
  match k, kind l with
  | Context_, Context_ | Delete, Delete | Add, Add => true
  | _, _ => false
  end.

(** Lines of the old and of the new file that a hunk body speaks of. *)
Definition old_side (b : list HunkLine) : list ustr :=
  map htext (List.filter (fun l => negb (kind_is Add l)) b).
Definition new_side (b : list HunkLine) : list ustr :=
  map htext (List.filter (fun l => negb (kind_is Delete l)) b).

Lemma old_side_cons l b :
  old_side (l :: b) = match kind l with Add => old_side b | _ => htext l :: old_side b end.
Proof. by destruct l as [[] t]. Qed.

Lemma new_side_cons l b :
  new_side (l :: b) = match kind l with Delete => new_side b | _ => htext l :: new_side b end.
Proof. by destruct l as [[] t]. Qed.

Definition hunk_wf (h : Hunk) : Prop :=
  (0 <= oldStart h)%Z /\ (0 <= newStart h)%Z /\
  oldCount h = Z.of_nat (length (old_side (body h))) /\
  newCount h = Z.of_nat (length (new_side (body h))).

Lemma parseHunkBody_counts oc nc ls b r :
  (0 <= oc)%Z -> (0 <= nc)%Z -> parseHunkBody oc nc ls = Ok (b, r) ->
  oc = Z.of_nat (length (old_side b)) /\ nc = Z.of_nat (length (new_side b)) /\
  exists used, ls = used ++ r /\ rmap parseHunkBodyLine used = Ok b.
Proof.
  revert oc nc b. induction ls as [|l ls IH]; intros oc nc b Ho Hn; cbn [parseHunkBody];
    destruct (negb _) eqn:Hstop.
  1,3: intros [= <- <-]; apply negb_true_iff, orb_false_iff in Hstop as [?%Z.ltb_ge ?%Z.ltb_ge];
       cbn; split_and!; [lia | lia | by exists []].
  { done. }
  intros H. apply rbind_ok in H as (p & Hp & H). apply rbind_ok in H as ([o n] & Hk & H).
  apply rbind_ok in H as ([b' r'] & Hb & H). injection H as <- <-.
  destruct p as [[] t]; cbn [kind] in Hk; inv_ok;
    repeat match goal with
    | H : (_ || _) = false |- _ => apply orb_false_iff in H as [? ?]
    | H : (_ =? _)%Z = false |- _ => apply Z.eqb_neq in H
    end;
    (apply IH in Hb as (H1 & H2 & used & -> & Hu); [|lia..];
     rewrite old_side_cons, new_side_cons; cbn [kind length];
     split_and!; [lia | lia |]; exists (l :: used);
     split; [done|]; cbn [rmap]; by rewrite Hp, Hu).
Qed.

Lemma digits_nonneg s acc n r : (0 <= acc)%Z -> digits acc s = (n, r) -> (0 <= n)%Z.
Proof.
  revert acc. induction s as [|c s IH]; intros acc Ha; cbn [digits]; [by intros [= <- _]|].
  destruct (is_digit c); [apply IH; lia | by intros [= <- _]].
Qed.

Lemma parse_digits_nonneg s n r : parse_digits s = Some (n, r) -> (0 <= n)%Z.
Proof.
  destruct s as [|c s]; [done|]. unfold parse_digits. destruct (is_digit c); [|done].
  intros H%(inj Some). by apply digits_nonneg in H.
Qed.

Lemma parse_count_nonneg s n r : parse_count s = (n, r) -> (0 <= n)%Z.
Proof.
  unfold parse_count. intros H.
  repeat (case_match; simplify_eq; try lia).
  by eapply parse_digits_nonneg.
Qed.

Lemma parse_hunk_header_nonneg l os oc ns nc :
  parse_hunk_header l = Some (os, oc, ns, nc) ->
  (0 <= os /\ 0 <= oc /\ 0 <= ns /\ 0 <= nc)%Z.
Proof.
  unfold parse_hunk_header. intros H.
  apply bind_Some in H as (s1 & _ & H). apply bind_Some in H as ([a s2] & Ha & H).
  destruct (parse_count s2) as [b s3] eqn:Hb.
  apply bind_Some in H as (s4 & _ & H). apply bind_Some in H as ([c s5] & Hc & H).
  destruct (parse_count s5) as [d s6] eqn:Hd. apply bind_Some in H as (s7 & _ & H).
  assert ((a, b, c, d) = (os, oc, ns, nc)) as [= <- <- <- <-] by (repeat case_match; congruence).
  split_and!; eauto using parse_digits_nonneg, parse_count_nonneg.
Qed.

Lemma parse_hunks_wf fuel ls hunks : parse_hunks fuel ls = Ok hunks -> Forall hunk_wf hunks.
Proof.
  revert ls hunks. induction fuel as [|fuel IH]; intros ls hunks; cbn [parse_hunks]; [done|].
  destruct ls as [|l ls]; [intros [= <-]; constructor|]. case_bool_decide; [by apply IH|].
  destruct (parse_hunk_header l) as [[[[os oc] ns] nc]|] eqn:Hh; [|done].
  intros H'. apply rbind_ok in H' as ([b r] & Hb & H'). apply rbind_ok in H' as (hs & Hhs & H').
  injection H' as <-. apply parse_hunk_header_nonneg in Hh as (?&?&?&?).
  apply parseHunkBody_counts in Hb as (?&?&_); [|done..].
  constructor; [by repeat split | by eapply IH].
Qed.

Lemma parseHunkBody_error oc nc ls e : parseHunkBody oc nc ls = Err e -> e = TEXT_PATCH_HUNK.
Proof.
  revert oc nc. induction ls as [|l ls IH]; intros oc nc; cbn [parseHunkBody];
    destruct (negb _); try done; [by intros [= <-]|].
  unfold parseHunkBodyLine. destruct l as [|m l]; cbn [rbind]; [by intros [= <-]|].
  destruct (m =? 32)%N; [|destruct (m =? 45)%N; [|destruct (m =? 43)%N; [|by intros [= <-]]]];
    cbn [rbind kind]; destruct (_ =? 0)%Z; cbn [orb rbind]; try (by intros [= <-]);
    try (destruct (_ =? 0)%Z; cbn [rbind]; try (by intros [= <-]));
    destruct (parseHunkBody _ _ ls) as [[b r]|e'] eqn:Hb; cbn [rbind]; try done;
    intros [= <-]; by eapply IH.
Qed.

(** The fuel of [parseHunks] is never used up: each turn of its loop takes at least one line. *)
Lemma parse_hunks_fuel fuel ls e :
  length ls < fuel -> parse_hunks fuel ls = Err e -> e <> OUT_OF_FUEL.
Proof.
  revert ls. induction fuel as [|fuel IH]; intros ls Hl; [lia|]. cbn [parse_hunks].
  destruct ls as [|l ls]; [done|]. cbn [length] in Hl.
  case_bool_decide; [apply IH; lia|].
  destruct (parse_hunk_header l) as [[[[os oc] ns] nc]|] eqn:Hh; [|congruence].
  apply parse_hunk_header_nonneg in Hh as (?&?&?&?).
  destruct (parseHunkBody oc nc ls) as [[b r]|e'] eqn:Hb; cbn [rbind].
  - apply parseHunkBody_counts in Hb as (_&_&used&->&_); [|done..].
    rewrite length_app in Hl.
    destruct (parse_hunks fuel r) eqn:Hr; cbn [rbind]; [done|]. intros [= <-].
    apply (IH r); [lia | done].
  - apply parseHunkBody_error in Hb as ->. congruence.
Qed.

(** ** Applying hunks *)

(** The meaning of a hunk body: it rewrites the lines [old] into the lines [new]. *)
Inductive edits (ins : ustr) : list HunkLine -> list LogicalLine -> list LogicalLine -> Prop :=
| edits_nil : edits ins [] [] []
| edits_context l b old new :
    edits ins b old new -> edits ins (mkHunkLine Context_ (text l) :: b) (l :: old) (l :: new)
| edits_delete l b old new :
    edits ins b old new -> edits ins (mkHunkLine Delete (text l) :: b) (l :: old) new
| edits_add t b old new :
    edits ins b old new -> edits ins (mkHunkLine Add t :: b) old (mkLine t ins :: new).

(** The meaning of a list of hunks on the lines from [cursor] on: each hunk rewrites the lines at
    its position, everything between the hunks is kept. *)
Inductive patched (ins : ustr) : nat -> list Hunk -> list LogicalLine -> list LogicalLine -> Prop :=
| patched_nil cursor rest : patched ins cursor [] rest rest
| patched_hunk cursor h hs gap old new rest out :
    oldStartIndex h = Z.of_nat (cursor + length gap) ->
    oldCount h = Z.of_nat (length old) ->
    edits ins (body h) old new ->
    patched ins (cursor + length gap + length old) hs rest out ->
    patched ins cursor (h :: hs) (gap ++ old ++ rest) (gap ++ new ++ out).

Lemma applyEntries_ok lines ins b p out p' out' :
  rfold (applyEntry lines ins) (p, out) b = Ok (p', out') <->
  exists old new, edits ins b old new /\ p' = p + length old /\ out' = out ++ new /\
    old = take (length old) (drop p lines).
Proof.
  revert p out. induction b as [|[k t] b IH]; intros p out; cbn [rfold].
  - split.
    + intros [= -> ->]. exists [], []. rewrite app_nil_r. split_and!; [constructor | cbn; lia | done | done].
    + intros (old & new & He & -> & -> & _). inversion He; subst. cbn.
      by rewrite app_nil_r, Nat.add_0_r.
  - cbn [applyEntry kind htext]. destruct k.
    3: { cbn [rbind]. rewrite IH. split.
      - intros (old & new & He & -> & -> & Ho). exists old, (mkLine t ins :: new).
        split_and!; [by constructor | done | by rewrite <- app_assoc | done].
      - intros (old & new & He & -> & -> & Ho). inversion He; subst.
        eexists old, _. split_and!; [done | done | by rewrite <- app_assoc | done]. }
    all: destruct (lines !! p) as [cur|] eqn:Hp; cbn [rbind];
      [|split; [done|]; intros (old & new & He & _ & _ & Ho); inversion He; subst;
        cbn [length] in Ho; apply lookup_ge_None in Hp; rewrite (drop_ge lines) in Ho by lia; done].
    all: case_bool_decide as Ht; cbn [negb rbind];
      [|split; [done|]; intros (old & new & He & _ & _ & Ho); inversion He; subst;
        rewrite (drop_S _ _ _ Hp) in Ho; cbn in Ho; congruence].
    all: rewrite IH; split.
    + intros (old & new & He & -> & -> & Ho). exists (cur :: old), (cur :: new). subst t.
      rewrite (drop_S _ _ _ Hp). cbn [length take]. rewrite <- Ho.
      split_and!; [by constructor | lia | by rewrite <- app_assoc | done].
    + intros (old & new & He & -> & -> & Ho). inversion He; subst.
      rewrite (drop_S _ _ _ Hp) in Ho. cbn [length take] in Ho. injection Ho as -> Ho.
      eexists _, _. split_and!; [done | cbn; lia | by rewrite <- app_assoc | done].
    + intros (old & new & He & -> & -> & Ho). exists (cur :: old), new. subst t.
      rewrite (drop_S _ _ _ Hp). cbn [length take]. rewrite <- Ho.
      split_and!; [by constructor | lia | done | done].
    + intros (old & new & He & -> & -> & Ho). inversion He; subst.
      rewrite (drop_S _ _ _ Hp) in Ho. cbn [length take] in Ho. injection Ho as -> Ho.
      eexists _, _. split_and!; [done | cbn; lia | done | done].
Qed.

Lemma take_drop_take {A} (l : list A) a b : take a l ++ take b (drop a l) ++ drop (a + b) l = l.
Proof. by rewrite <- drop_drop, !take_drop. Qed.

Lemma applyHunk_ok lines ins c out h c' out' :
  applyHunk lines ins (c, out) h = Ok (c', out') <->
  exists gap old new rest, drop c lines = gap ++ old ++ rest /\
    oldStartIndex h = Z.of_nat (c + length gap) /\ oldCount h = Z.of_nat (length old) /\
    edits ins (body h) old new /\ c' = c + length gap + length old /\ c + length gap <= length lines /\
    out' = out ++ gap ++ new.
Proof.
  cbn [applyHunk]. split.
  - intros H.
    destruct ((_ <? _)%Z || _) eqn:Hr in H; [done|].
    apply orb_false_iff in Hr as [H1%Z.ltb_ge H2%Z.ltb_ge].
    apply rbind_ok in H as ([p o] & He & H). apply applyEntries_ok in He as (old & new & He & -> & -> & Ho).
    destruct (negb _) eqn:Hc in H; [done|]. apply negb_false_iff, Z.eqb_eq in Hc.
    injection H as <- <-. set (s := Z.to_nat (oldStartIndex h)) in *.
    assert (s <= length lines \/ length lines < s) as [Hs|Hs] by lia.
    + exists (take (s - c) (drop c lines)), old, new, (drop (s + length old) lines).
      assert (length (take (s - c) (drop c lines)) = s - c) as ->.
      { rewrite length_take, length_drop. lia. }
      split_and!; [| lia | lia | done | lia | lia | by rewrite <- app_assoc].
      rewrite Ho at 1.
      rewrite <- (take_drop_take (drop c lines) (s - c) (length old)) at 1.
      rewrite !drop_drop. replace (c + (s - c)) with s by lia.
      by replace (c + (s - c + length old)) with (s + length old) by lia.
    + rewrite (drop_ge lines) in Ho by lia. rewrite take_nil in Ho. subst old.
      cbn [length] in Hc. lia.
  - intros (gap & old & new & rest & Hd & Hs & Hc & He & -> & Hle & ->).
    assert (length (drop c lines) = length gap + length old + length rest) as Hlen.
    { rewrite Hd, !length_app. lia. }
    rewrite length_drop in Hlen.
    assert ((oldStartIndex h <? Z.of_nat c)%Z = false) as -> by (apply Z.ltb_ge; lia).
    assert ((Z.of_nat (length lines) <? oldStartIndex h + oldCount h)%Z = false) as ->.
    { apply Z.ltb_ge. lia. }
    cbn [orb]. rewrite Hs, Nat2Z.id.
    assert (rfold (applyEntry lines ins)
      (c + length gap, out ++ take (c + length gap - c) (drop c lines)) (body h)
      = Ok (c + length gap + length old, (out ++ gap) ++ new)) as ->.
    { apply applyEntries_ok. exists old, new. replace (c + length gap - c) with (length gap) by lia.
      rewrite <- drop_drop, Hd, take_app_length, drop_app_length, take_app_length. done. }
    cbn [rbind]. rewrite (proj2 (Z.eqb_eq _ _)) by lia. cbn [negb].
    by rewrite <- app_assoc.
Qed.

Lemma applyHunks_ok lines ins hs c out final :
  c <= length lines ->
  (exists c' out', rfold (applyHunk lines ins) (c, out) hs = Ok (c', out') /\
     final = out' ++ drop c' lines) <->
  (exists new, patched ins c hs (drop c lines) new /\ final = out ++ new).
Proof.
  revert c out. induction hs as [|h hs IH]; intros c out Hc0; cbn [rfold].
  - split.
    + intros (c' & out' & [= <- <-] & ->). eexists. split; [constructor | done].
    + intros (new & Hp & ->). inversion Hp; subst. by eexists _, _.
  - assert (forall gap old rest : list LogicalLine, drop c lines = gap ++ old ++ rest ->
      c + length gap + length old <= length lines /\
      drop (c + length gap + length old) lines = rest) as Hcut.
    { intros gap old rest Hd. split.
      - apply (f_equal length) in Hd. rewrite length_drop, !length_app in Hd. lia.
      - by rewrite <- (drop_drop lines), <- (drop_drop lines), Hd, !drop_app_length. }
    split.
    + intros (c2 & out2 & H & ->). apply rbind_ok in H as ([c1 out1] & H1 & H2).
      apply applyHunk_ok in H1 as (gap & old & new & rest & Hd & Hs & Hc & He & -> & Hle & ->).
      destruct (Hcut _ _ _ Hd) as [Hle' Hr].
      destruct (proj1 (IH (c + length gap + length old) (out ++ gap ++ new) Hle'))
        as (new' & Hp & Hf); [by eexists _, _|].
      exists (gap ++ new ++ new'). rewrite Hf, <- !app_assoc. split; [|done].
      rewrite Hd. apply patched_hunk; try done. by rewrite <- Hr.
    + intros (new' & Hp & ->).
      inversion Hp as [|c0 h0 hs0 gap old new rest out' Hs Hc He Hp' E1 E2 Hd E3]; subst.
      symmetry in Hd. destruct (Hcut _ _ _ Hd) as [Hle' Hr].
      assert (applyHunk lines ins (c, out) h = Ok (c + length gap + length old, out ++ gap ++ new)) as ->.
      { apply applyHunk_ok. exists gap, old, new, rest. split_and!; try done. lia. }
      cbn [rbind]. apply IH; [done|]. eexists. split; [|by rewrite <- !app_assoc].
      by rewrite Hr.
Qed.

(** Where a hunk may lie in a file of [n] lines, and how two consecutive hunks must lie. *)
Definition hunk_fits (n : Z) (h : Hunk) : Prop :=
  if decide (oldCount h = 0%Z)
  then (oldStart h = 0 /\ n = 0)%Z \/ (1 <= oldStart h <= n)%Z
  else (1 <= oldStart h /\ oldStart h + oldCount h - 1 <= n)%Z.
Definition hunk_before (h h' : Hunk) : Prop :=
  (oldStart h < oldStart h')%Z /\ (oldStart h + oldCount h <= oldStart h')%Z.

Lemma assertHunk_ok n ls le h st :
  (0 <= oldStart h)%Z -> (0 <= oldCount h)%Z -> (ls < oldStart h)%Z \/ (ls = -1)%Z ->
  assertHunk n (ls, le) h = Ok st <->
  hunk_fits n h /\ (le <= oldStart h)%Z /\ st = (oldStart h, oldStart h + oldCount h)%Z.
Proof.
  intros H1 H2 H3. unfold assertHunk, hunk_fits.
  destruct ((0 <=? ls)%Z && (oldStart h <=? ls)%Z) eqn:E.
  { apply andb_true_iff in E as [?%Z.leb_le ?%Z.leb_le]. lia. }
  destruct (decide (oldCount h = 0%Z)) as [Hz|Hz].
  - rewrite (proj2 (Z.eqb_eq _ _) Hz). destruct (oldStart h =? 0)%Z eqn:E0.
    + apply Z.eqb_eq in E0. rewrite !E0. destruct (n =? 0)%Z eqn:En; cbn [negb].
      * apply Z.eqb_eq in En. destruct (0 <? le)%Z eqn:El.
        { apply Z.ltb_lt in El. split; [done|]. lia. }
        apply Z.ltb_ge in El. rewrite Z.max_r by lia. rewrite Hz. naive_solver lia.
      * apply Z.eqb_neq in En. split; [done|]. lia.
    + apply Z.eqb_neq in E0. destruct (n <? oldStart h)%Z eqn:En.
      { apply Z.ltb_lt in En. split; [done|]. lia. }
      apply Z.ltb_ge in En. destruct (oldStart h <? le)%Z eqn:El.
      { apply Z.ltb_lt in El. split; [done|]. lia. }
      apply Z.ltb_ge in El. rewrite Z.max_r, Hz, Z.add_0_r by lia.
      split; [intros [= <-]; split_and!; [right; lia | lia | done] | intros (_ & _ & ->); done].
  - rewrite (proj2 (Z.eqb_neq _ _) Hz).
    destruct ((oldStart h <? 1)%Z || _) eqn:En.
    { apply orb_true_iff in En. rewrite !Z.ltb_lt in En. split; [done|]. lia. }
    apply orb_false_iff in En as [?%Z.ltb_ge ?%Z.ltb_ge].
    destruct (oldStart h <? le)%Z eqn:El.
    { apply Z.ltb_lt in El. split; [done|]. lia. }
    apply Z.ltb_ge in El.
    split; [intros [= <-]; split_and!; [lia | lia | lia | done] | intros (_ & _ & ->); done].
Qed.

Lemma assertHunk_start n ls le h st :
  (0 <= ls)%Z -> assertHunk n (ls, le) h = Ok st -> (ls < oldStart h)%Z.
Proof.
  intros Hls. unfold assertHunk. rewrite (proj2 (Z.leb_le _ _) Hls). cbn [andb].
  destruct (oldStart h <=? ls)%Z eqn:E; [done|]. apply Z.leb_gt in E. done.
Qed.

Definition nonneg_hunk (h : Hunk) : Prop := (0 <= oldStart h /\ 0 <= oldCount h)%Z.

Lemma hunk_wf_nonneg h : hunk_wf h -> nonneg_hunk h.
Proof. intros (? & _ & ? & _). split; lia. Qed.

Lemma assertHunks_from n h hs :
  Forall nonneg_hunk (h :: hs) ->
  is_ok (rfold (assertHunk n) (oldStart h, oldStart h + oldCount h)%Z hs) = true <->
  Forall (hunk_fits n) hs /\ Sorted hunk_before (h :: hs).
Proof.
  revert h. induction hs as [|h' hs IH]; intros h Hw; cbn [rfold].
  - split; [by repeat constructor | done].
  - inversion_clear Hw as [|? ? [Hw1 Hw2] Hr]. assert (nonneg_hunk h') as [Hw1' Hw2'] by (by inversion Hr).
    specialize (IH h' Hr). split.
    + intros H. destruct (assertHunk n _ h') as [st|] eqn:E; [|done]. cbn [rbind] in H.
      assert (oldStart h < oldStart h')%Z as Hlt by (by eapply assertHunk_start, E).
      apply assertHunk_ok in E as (Hf & Hle & ->); [|lia..].
      apply IH in H as [Hfs Hs]. split; [by constructor|].
      constructor; [done|]. constructor. done.
    + intros [Hf Hs]. inversion_clear Hf as [|? ? Hf1 Hf2]. inversion_clear Hs as [|? ? Hs' Hh].
      inversion_clear Hh as [|? ? [Hlt Hle]].
      rewrite (proj2 (assertHunk_ok n _ _ h' (oldStart h', oldStart h' + oldCount h')%Z Hw1' Hw2'
                 (or_introl Hlt))) by done.
      cbn [rbind]. by apply IH.
Qed.

Lemma assertHunksOnOriginal_ok n hs :
  Forall nonneg_hunk hs ->
  assertHunksOnOriginal hs n = Ok tt <-> Forall (hunk_fits n) hs /\ Sorted hunk_before hs.
Proof.
  intros Hw. unfold assertHunksOnOriginal. destruct hs as [|h hs]; cbn [rfold].
  { split; [by repeat constructor | done]. }
  assert (nonneg_hunk h) as [H1 H2] by (by inversion Hw).
  assert (forall c : res (Z * Z), rbind c (fun _ => Ok tt) = @Ok ChangeSetCode _ tt <-> is_ok c = true)
    as -> by (by intros []).
  split.
  - intros H. destruct (assertHunk n _ h) as [st|] eqn:E; [|done]. cbn [rbind] in H.
    apply assertHunk_ok in E as (Hf & _ & ->); [|lia..].
    apply assertHunks_from in H as [Hfs Hs]; [|done]. split; [by constructor | done].
  - intros [Hf Hs]. inversion_clear Hf as [|? ? Hf1 Hf2].
    rewrite (proj2 (assertHunk_ok n _ _ h (oldStart h, oldStart h + oldCount h)%Z H1 H2
               (or_intror eq_refl))) by done.
    cbn [rbind]. by apply assertHunks_from.
Qed.

Lemma applyHunksOnOriginal_ok_patched lines hs ins out :
  Forall hunk_wf hs ->
  applyHunksOnOriginal lines hs ins = Ok out <->
  Forall (hunk_fits (Z.of_nat (length lines))) hs /\ Sorted hunk_before hs /\
  patched ins 0 hs lines out.
Proof.
  intros Hw. assert (Forall nonneg_hunk hs) as Hn by (eapply Forall_impl; [exact Hw | apply hunk_wf_nonneg]).
  pose proof (assertHunksOnOriginal_ok (Z.of_nat (length lines)) hs Hn) as Ha.
  unfold applyHunksOnOriginal.
  destruct (assertHunksOnOriginal hs _) as [[]|e]; cbn [rbind]; [|naive_solver].
  destruct (proj1 Ha eq_refl) as [Hfits Hsorted].
  pose proof (applyHunks_ok lines ins hs 0 [] out ltac:(lia)) as Hok. rewrite drop_0 in Hok.
  rewrite rbind_ok. split.
  - intros ([c o] & Hr & Ho). injection Ho as <-. split_and!; [done | done |].
    destruct (proj1 Hok) as (new & Hp & ->); [by eexists _, _ | done].
  - intros (_ & _ & Hp). destruct (proj2 Hok) as (c & o & Hr & ->); [by exists out|].
    by exists (c, o).
Qed.

(** C22: for parsed hunks, applying them to the lines of a file succeeds exactly when every hunk
    lies inside the file, the hunks are strictly increasing and disjoint, and every context and
    deleted line equals the file's line at its position; the result then is the file with each
    hunk's old lines replaced by its new lines and everything else kept. *)
Theorem applyHunksOnOriginal_refines lines hs ins out :
  Forall hunk_wf hs ->
  applyHunksOnOriginal lines hs ins = Ok out <->
  Forall (hunk_fits (Z.of_nat (length lines))) hs /\ Sorted hunk_before hs /\
  patched ins 0 hs lines out.
Proof. apply applyHunksOnOriginal_ok_patched. Qed.

Lemma map_last_snoc {A} (f : A -> A) l x : map_last f (l ++ [x]) = l ++ [f x].
Proof.
  induction l as [|a l IH]; [done|]. cbn [app map_last]. rewrite IH.
  by destruct l.
Qed.

(** The texts on both sides of an edit are those of the hunk body. *)
Lemma edits_length ins b old new :
  edits ins b old new -> map text old = old_side b /\ map text new = new_side b.
Proof.
  induction 1 as [|l b old new _ [IH1 IH2]|l b old new _ [IH1 IH2]|t b old new _ [IH1 IH2]];
    rewrite ?old_side_cons, ?new_side_cons; cbn; rewrite ?IH1, ?IH2; done.
Qed.

Lemma patched_length ins c hs lines out :
  patched ins c hs lines out -> Forall hunk_wf hs ->
  (Z.of_nat (length out) =
   Z.of_nat (length lines) + foldr Z.add 0 (map (fun h => newCount h - oldCount h) hs))%Z.
Proof.
  induction 1 as [|c h hs gap old new rest out Hs Hc He Hp IH]; intros Hw; cbn [map foldr]; [lia|].
  inversion_clear Hw as [|? ? (_ & _ & Ho & Hn) Hr]. apply edits_length in He as [E1 E2].
  apply (f_equal length) in E1, E2. rewrite length_map in E1, E2.
  rewrite !length_app, !Nat2Z.inj_add. specialize (IH Hr). lia.
Qed.

Lemma parse_headers_path path ls rest :
  parse_headers path ls = Ok rest ->
  path <> u "/dev/null" /\
  exists pre minus plus, ls = pre ++ minus :: plus :: rest /\
    headerPath minus (u "---") = Ok path /\ headerPath plus (u "+++") = Ok path.
Proof.
  assert (forall (q : ustr -> bool) l, exists pre, l = pre ++ drop_while q l) as Hdw.
  { intros q l. induction l as [|a l [pre IH]]; [by exists []|]. cbn [drop_while].
    destruct (q a); [exists (a :: pre); cbn; by f_equal | by exists []]. }
  unfold parse_headers. intros H. apply rbind_ok in H as (ls' & Hp & H).
  destruct (Hdw (fun l => bool_decide (l = [])) ls) as [p1 E1].
  destruct (Hdw isIgnorableGitHeader ls') as [p2 E2].
  assert (exists p3, drop_while (fun l => bool_decide (l = [])) ls = p3 ++ ls') as [p3 E3].
  { destruct (drop_while (fun l => bool_decide (l = [])) ls) as [|first r].
    { injection Hp as <-. by exists []. }
    destruct (preludePaths first) as [[f t]|]; [|injection Hp as <-; by exists []].
    inv_ok. by exists [first]. }
  destruct (drop_while isIgnorableGitHeader ls') as [|minus [|plus r]]; [done..|].
  apply rbind_ok in H as (f & Hf & H). apply rbind_ok in H as (g & Hg & H).
  destruct (bool_decide (f = _) || _) eqn:Hd in H; [done|].
  destruct (negb _ || _) eqn:Hm in H; [done|]. injection H as <-.
  apply orb_false_iff in Hd as [Hd%bool_decide_eq_false _].
  apply orb_false_iff in Hm as [H1%negb_false_iff%bool_decide_eq_true H2%negb_false_iff%bool_decide_eq_true].
  subst f g. split; [done|]. exists (p1 ++ p3 ++ p2), minus, plus.
  split_and!; [|done|done]. rewrite E1, E3, E2. by rewrite <- !app_assoc.
Qed.

(** A patch that applies has well-formed hunks for exactly the declared path, its hunks
    rewrite the lines of the file as [patched] says, the line count changes by the declared
    counts, the byte order mark is kept, and the last line gets the declared final newline. *)
Theorem applyUnifiedDiff_sound bs o out :
  applyUnifiedDiff bs o = Ok out ->
  exists hunks bom lines current,
    (exists pre minus plus rest, diff_lines (unifiedDiff o) = pre ++ minus :: plus :: rest /\
       headerPath minus (u "---") = Ok (opt_path o) /\ headerPath plus (u "+++") = Ok (opt_path o) /\
       parseHunks rest = Ok hunks) /\
    hunks <> [] /\ Forall hunk_wf hunks /\ Sorted hunk_before hunks /\
    parseTextFile bs = Ok (bom, lines) /\
    patched (ending_of (insertedLineEnding o)) 0 hunks lines current /\
    (Z.of_nat (length current) =
     Z.of_nat (length lines) + foldr Z.add 0 (map (fun h => newCount h - oldCount h) hunks))%Z /\
    (current <> [] ->
     exists before l, current = before ++ [l] /\
       out = render bom (before ++ [adjust_last (finalNewline o) (ending_of (insertedLineEnding o)) l])) /\
    (current = [] -> out = (if bom then BOM else []) ++
       match finalNewline o with NL_PRESENT => ending_of (insertedLineEnding o) | NL_ABSENT => [] end).
Proof.
  unfold applyUnifiedDiff. intros H.
  apply rbind_ok in H as (rest & Hr & H). apply rbind_ok in H as (hunks & Hh & H).
  apply parse_headers_path in Hr as (_ & pre & minus & plus & Hr & Hmi & Hpl). pose proof Hh as Hh0.
  apply rbind_ok in H as ([bom lines] & Hl & H). apply rbind_ok in H as (cur & Hc & H).
  unfold parseHunks in Hh. apply rbind_ok in Hh as (hs & Hp & Hh).
  assert (hs = hunks /\ hunks <> []) as [-> Hne] by (destruct hs; [done|]; by injection Hh as <-).
  apply parse_hunks_wf in Hp as Hw. pose proof Hc as Hc'.
  apply (applyHunksOnOriginal_ok_patched _ _ _ _ Hw) in Hc' as (Hf & Hs & Hpa).
  exists hunks, bom, lines, cur. split_and!; try done.
  - by exists pre, minus, plus, rest.
  - by eapply patched_length.
  - intros Hcur. destruct cur as [|l before _] using rev_ind; [done|]. exists before, l. split; [done|].
    rewrite map_last_snoc in H. destruct (before ++ [l]) eqn:E; [by destruct before|]. congruence.
  - intros ->. injection H as <-. f_equal. by destruct (finalNewline o), (insertedLineEnding o).
Qed.

Definition sample_hunk : Hunk :=
  mkHunk 1 2 1 2 [mkHunkLine Context_ (u "a"); mkHunkLine Delete (u "b"); mkHunkLine Add (u "c")].

Lemma applyHunksOnOriginal_refines_witness :
  patched [LF] 0 [sample_hunk] [mkLine (u "a") [LF]; mkLine (u "b") [LF]]
    [mkLine (u "a") [LF]; mkLine (u "c") [LF]].
Proof.
  apply (applyHunksOnOriginal_refines _ [sample_hunk] [LF] _);
    [repeat constructor; done | vm_compute; reflexivity].
Defined.

Lemma applyUnifiedDiff_sound_witness :
  exists hunks bom lines current,
    hunks <> [] /\ Forall hunk_wf hunks /\
    parseTextFile (sample_lf ["one"; "two"; "three"; "four"]) = Ok (bom, lines) /\
    patched [LF] 0 hunks lines current.
Proof.
  destruct (applyUnifiedDiff_sound (sample_lf ["one"; "two"; "three"; "four"]) sample_patch
              (sample_lf ["one"; "deux"; "three"; "four"]))
    as (hunks & bom & lines & cur & _ & H1 & H2 & _ & H3 & H4 & _);
    [vm_compute; reflexivity | by exists hunks, bom, lines, cur].
Defined.

(** ** Line boundaries at the end of the file *)

Definition append_patch (fn : FinalNewline) (b : list string) : TextPatchOptions :=
  mkTextPatchOptions (sample_lf (["--- a/f"; "+++ b/f"] ++ b)) (u "f") EOL_LF fn.

(** The last line of a file without final newline, used as context before an added line, is
    joined with that line: the kept line keeps its empty ending. *)
Lemma unterminated_context_line_merges :
  applyUnifiedDiff (u "a" ++ [LF] ++ u "b")
    (append_patch NL_PRESENT ["@@ -1,2 +1,3 @@"; " a"; " b"; "+c"]) =
  Ok (u "a" ++ [LF] ++ u "bc" ++ [LF]).
Proof. vm_compute. reflexivity. Qed.

(** A blank last line: dropping its ending leaves the previous line's newline at the end. *)
Lemma absent_final_newline_blank_line :
  applyUnifiedDiff (u "a" ++ [LF; LF])
    (append_patch NL_ABSENT ["@@ -1,1 +1,1 @@"; "-a"; "+b"]) =
  Ok (u "b" ++ [LF]).
Proof. vm_compute. reflexivity. Qed.
