(* ===== verification/CanonicalJson.v ===== *)
(** Canonical JSON (packages/contracts/src/canonical.ts): the RFC 8785 printer behind every digest
    and the strict parser of canonical text.

    A JavaScript value is a tree: shared or cyclic object graphs are outside the model, so the
    "cyclic structure" error does not occur.  The IEEE-754 doubles that are not safe integers are
    an interface ([Doubles]): how the engine prints and reads them is documented by ECMAScript's
    Number::toString and StringToNumber, and the laws the code relies on are [DoublesLaws]. *)

From Stdlib Require Import String Decimal DecimalN DecimalFacts.
From S2P Require Import Prelude JsText.
Open Scope string_scope.
Open Scope list_scope.

(** ** Numbers *)

Inductive number (D : Type) : Type :=
| NonFinite
| NegZero
| SafeInt (z : Z)
| Double (d : D).
Arguments NonFinite {D}.
Arguments NegZero {D}.
Arguments SafeInt {D} z.
Arguments Double {D} d.

(** The doubles other than safe integers: whether one is integral, [JSON.stringify] on it, and
    [Number(text)] on a text that is not a safe integer literal. *)
Class Doubles := {
  double : Type;
  double_isInteger : double -> bool;
  double_toString : double -> ustr;
  double_parse : ustr -> number double
}.

Definition MAX_SAFE_INTEGER : Z := 9007199254740991.
Definition isSafe (z : Z) : bool := (Z.abs z <=? MAX_SAFE_INTEGER)%Z.

Definition is_digit (c : N) : bool := (48 <=? c)%N && (c <=? 57)%N.

Fixpoint uint_units (d : Decimal.uint) : ustr :=
  match d with
  | Nil => []
  | D0 r => 48 :: uint_units r | D1 r => 49 :: uint_units r
  | D2 r => 50 :: uint_units r | D3 r => 51 :: uint_units r
  | D4 r => 52 :: uint_units r | D5 r => 53 :: uint_units r
  | D6 r => 54 :: uint_units r | D7 r => 55 :: uint_units r
  | D8 r => 56 :: uint_units r | D9 r => 57 :: uint_units r
  end%N.

(** [JSON.stringify] on a safe integer: decimal digits. *)
Definition int_toString (z : Z) : ustr :=
  let ds := uint_units (N.to_uint (Z.abs_N z)) in
  if (z <? 0)%Z then 45%N :: ds else ds.

Definition cons_digit (c : N) (d : Decimal.uint) : option Decimal.uint :=
  match c with
  | 48 => Some (D0 d) | 49 => Some (D1 d) | 50 => Some (D2 d) | 51 => Some (D3 d)
  | 52 => Some (D4 d) | 53 => Some (D5 d) | 54 => Some (D6 d) | 55 => Some (D7 d)
  | 56 => Some (D8 d) | 57 => Some (D9 d) | _ => None
  end%N.
Fixpoint units_uint (s : ustr) : option Decimal.uint :=
  match s with
  | [] => Some Nil
  | c :: r => d ← units_uint r; cons_digit c d
  end.

(** A text that is the literal of a safe integer. *)
Definition safe_literal (s : ustr) : option Z :=
  match s with
  | [] => None
  | c :: r =>
      let neg := (c =? 45)%N in
      let body := if neg then r else s in
      match body with
      | [] => None
      | _ => d ← units_uint body;
             let z := Z.of_N (N.of_uint d) in
             if isSafe z then Some (if neg then Z.opp z else z) else None
      end
  end.

Fixpoint span_digits (s : ustr) : ustr * ustr :=
  match s with
  | c :: r => if is_digit c then let '(a, b) := span_digits r in (c :: a, b) else ([], s)
  | [] => ([], [])
  end.

(** [(?:\.[0-9]+)?] and [(?:[eE][+-]?[0-9]+)?] *)
Definition match_fraction (s : ustr) : ustr * ustr :=
  match s with
  | c :: r => if (c =? DOT)%N
              then match span_digits r with
                   | ([], _) => ([], s)
                   | (ds, rest) => (DOT :: ds, rest)
                   end
              else ([], s)
  | [] => ([], [])
  end.
Definition match_exponent (s : ustr) : ustr * ustr :=
  match s with
  | c :: r =>
      if (c =? 101)%N || (c =? 69)%N then
        let '(sign, r') := match r with
          | x :: t => if (x =? 43)%N || (x =? 45)%N then ([x], t) else ([], r)
          | [] => ([], r) end in
        match span_digits r' with
        | ([], _) => ([], s)
        | (ds, rest) => (c :: sign ++ ds, rest)
        end
      else ([], s)
  | [] => ([], [])
  end.

(** The number expression of [parseJsonValue]: the text it matches and what follows. *)
Definition match_number (s : ustr) : option (ustr * ustr) :=
  let '(sign, s1) := match s with
    | c :: r => if (c =? 45)%N then ([45%N], r) else ([], s)
    | [] => ([], s) end in
  let int := match s1 with
    | c :: r => if (c =? 48)%N then Some ([48%N], r)
                else if is_digit c then Some (span_digits s1) else None
    | [] => None end in
  match int with
  | None => None
  | Some (ip, s2) =>
      let '(fp, s3) := match_fraction s2 in
      let '(ep, s4) := match_exponent s3 in
      Some (sign ++ ip ++ fp ++ ep, s4)
  end.

(** ** Values *)

Section Values.
Context `{Doubles}.

Inductive jsvalue : Type :=
| VUndefined
| VUnsupported
| VHole
| VNull
| VBool (b : bool)
| VNum (n : number double)
| VStr (s : ustr)
| VArr (items : list jsvalue)
| VObj (fields : list (ustr * jsvalue)).

Fixpoint jsvalue_ind' (P : jsvalue -> Prop)
  (HU : P VUndefined) (HX : P VUnsupported) (HH : P VHole) (HN : P VNull)
  (HB : forall b, P (VBool b)) (HNum : forall n, P (VNum n)) (HS : forall s, P (VStr s))
  (HA : forall items, Forall P items -> P (VArr items))
  (HO : forall fields, Forall (fun kv => P (snd kv)) fields -> P (VObj fields)) v : P v :=
  let IH := jsvalue_ind' P HU HX HH HN HB HNum HS HA HO in
  match v with
  | VUndefined => HU | VUnsupported => HX | VHole => HH | VNull => HN
  | VBool b => HB b | VNum n => HNum n | VStr s => HS s
  | VArr items => HA items ((fix go l : Forall P l :=
      match l with [] => Forall_nil_2 _ | x :: r => Forall_cons_2 _ _ _ (IH x) (go r) end) items)
  | VObj fields => HO fields ((fix go l : Forall (fun kv => P (snd kv)) l :=
      match l with [] => Forall_nil_2 _ | x :: r => Forall_cons_2 _ _ _ (IH (snd x)) (go r) end) fields)
  end.

Inductive CanonError : Set :=
| UNPAIRED_SURROGATE_ERR | NON_FINITE | UNSAFE_INTEGER | UNDEFINED_VALUE | UNSUPPORTED_TYPE
| SPARSE_ARRAY | EXPECTED_STRING | UNTERMINATED_ESCAPE | UNTERMINATED_STRING | JSON_PARSE_SYNTAX
| UNEXPECTED_END | DUPLICATE_KEY | EXPECTED_COLON | EXPECTED_COMMA_BRACE | UNTERMINATED_OBJECT
| EXPECTED_COMMA_BRACKET | UNTERMINATED_ARRAY | NON_FINITE_NUMBER | INVALID_TOKEN
| EMPTY_JSON | BOM_FORBIDDEN | TRAILING_BYTES | PARSER_FUEL.

(** ** Strings *)

Fixpoint hasUnpairedSurrogate (s : ustr) : bool :=
  match s with
  | [] => false
  | c :: r =>
      if is_high c then
        match r with
        | d :: r' => if is_low d then hasUnpairedSurrogate r' else true
        | [] => true
        end
      else if is_low c then true else hasUnpairedSurrogate r
  end.

Definition rejectUnpairedSurrogates (s : ustr) : result CanonError unit :=
  throw_if hasUnpairedSurrogate s with UNPAIRED_SURROGATE_ERR; Ok tt.

Fixpoint utf16_leb (left right : ustr) : bool :=
  match left, right with
  | [], _ => true
  | _ :: _, [] => false
  | a :: l, b :: r => if (a =? b)%N then utf16_leb l r else (a <? b)%N
  end.

Definition hex_digit (n : N) : N := if (n <? 10)%N then (48 + n)%N else (87 + n)%N.

(** [JSON.stringify] on one unit of a string without unpaired surrogates. *)
Definition quote_unit (c : N) : ustr :=
  if (c =? 34)%N then [92; 34]%N
  else if (c =? 92)%N then [92; 92]%N
  else if (c =? 8)%N then [92; 98]%N
  else if (c =? 9)%N then [92; 116]%N
  else if (c =? 10)%N then [92; 110]%N
  else if (c =? 12)%N then [92; 102]%N
  else if (c =? 13)%N then [92; 114]%N
  else if (c <? 32)%N then [92; 117; 48; 48; hex_digit (c / 16); hex_digit (c mod 16)]%N
  else [c].
Definition quote_body (s : ustr) : ustr := concat (map quote_unit s).
Definition JSON_stringify_string (s : ustr) : ustr := 34%N :: quote_body s ++ [34%N].

(** ** The printer *)

Definition serializeNumber (n : number double) (allowUnsafeIntegers : bool)
  : result CanonError ustr :=
  match n with
  | NonFinite => Err NON_FINITE
  | NegZero => Ok [48%N]
  | SafeInt z => Ok (int_toString z)
  | Double d => throw_if negb allowUnsafeIntegers && double_isInteger d with UNSAFE_INTEGER;
                Ok (double_toString d)
  end.

Definition COMMA : N := 44.

Definition print_member (printed : list (ustr * result CanonError ustr)) (key : ustr)
  : result CanonError ustr :=
  let? _ := rejectUnpairedSurrogates key in
  let? v := default (Err UNDEFINED_VALUE) (JsMap.get key printed) in
  Ok (JSON_stringify_string key ++ COLON :: v).

(** [walk]; the members' texts are computed first and thrown or used in key order. *)
Fixpoint walk (allowUnsafe : bool) (value : jsvalue) : result CanonError ustr :=
  match value with
  | VUndefined => Err UNDEFINED_VALUE
  | VUnsupported => Err UNSUPPORTED_TYPE
  | VHole => Err SPARSE_ARRAY
  | VNull => Ok (u "null")
  | VBool b => Ok (if b then u "true" else u "false")
  | VNum n => serializeNumber n allowUnsafe
  | VStr s => let? _ := rejectUnpairedSurrogates s in Ok (JSON_stringify_string s)
  | VArr items =>
      let? parts := rmap (fun r => r) (map (walk allowUnsafe) items) in
      Ok (91%N :: join_unit COMMA parts ++ [93%N])
  | VObj fields =>
      let printed := map (fun kv => (fst kv, walk allowUnsafe (snd kv))) fields in
      let keys := sort_by utf16_leb (map fst fields) in
      let? parts := rmap (print_member printed) keys in
      Ok (123%N :: join_unit COMMA parts ++ [125%N])
  end.

Definition canonicalizeRfc8785 (value : jsvalue) := walk true value.
Definition canonicalize (value : jsvalue) := walk false value.

(** ** The parser *)

Definition is_json_space (c : N) : bool := existsb (N.eqb c) [32; 10; 13; 9]%N.
Fixpoint skipWhitespace (s : ustr) : ustr :=
  match s with
  | c :: r => if is_json_space c then skipWhitespace r else s
  | [] => []
  end.

(** The raw text between the quotes, and what follows the closing quote. *)
Fixpoint scan_string (s : ustr) : result CanonError (ustr * ustr) :=
  match s with
  | [] => Err UNTERMINATED_STRING
  | c :: r =>
      if (c =? 92)%N then
        match r with
        | [] => Err UNTERMINATED_ESCAPE
        | n :: r' => let? '(raw, rest) := scan_string r' in Ok (c :: n :: raw, rest)
        end
      else if (c =? 34)%N then Ok ([], r)
      else let? '(raw, rest) := scan_string r in Ok (c :: raw, rest)
  end.

Definition hex_value (c : N) : option N :=
  if is_digit c then Some (c - 48)%N
  else if (97 <=? c)%N && (c <=? 102)%N then Some (c - 87)%N
  else if (65 <=? c)%N && (c <=? 70)%N then Some (c - 55)%N
  else None.
Definition hex4 (a b c d : N) : option N :=
  a' ← hex_value a; b' ← hex_value b; c' ← hex_value c; d' ← hex_value d;
  Some (((a' * 16 + b') * 16 + c') * 16 + d')%N.

Definition escape_value (e : N) : option N :=
  match e with
  | 34 => Some 34 | 92 => Some 92 | 47 => Some 47 | 98 => Some 8 | 102 => Some 12
  | 110 => Some 10 | 114 => Some 13 | 116 => Some 9 | _ => None
  end%N.

(** [JSON.parse] on a quoted raw string. *)
Fixpoint json_unescape (s : ustr) : option ustr :=
  match s with
  | [] => Some []
  | c :: r =>
      if (c =? 92)%N then
        match r with
        | e :: r1 =>
            if (e =? 117)%N then
              match r1 with
              | x1 :: x2 :: x3 :: x4 :: r5 => x ← hex4 x1 x2 x3 x4; cons x <$> json_unescape r5
              | _ => None
              end
            else x ← escape_value e; cons x <$> json_unescape r1
        | [] => None
        end
      else if (c <? 32)%N then None else cons c <$> json_unescape r
  end.

Definition parseJsonString (text : ustr) : result CanonError (ustr * ustr) :=
  match text with
  | c :: r =>
      throw_if negb (c =? 34)%N with EXPECTED_STRING;
      let? '(raw, next) := scan_string r in
      match json_unescape raw with
      | None => Err JSON_PARSE_SYNTAX
      | Some value => let? _ := rejectUnpairedSurrogates value in Ok (value, next)
      end
  | [] => Err EXPECTED_STRING
  end.

Definition Number_ (s : ustr) : number double :=
  match safe_literal s with
  | Some 0%Z => if bool_decide (head s = Some 45%N) then NegZero else SafeInt 0
  | Some z => SafeInt z
  | None => double_parse s
  end.

(** [object[key] = value] on an object created by [{}]: the name [__proto__] reaches the
    accessor inherited from [Object.prototype], so no own property is created. *)
Definition PROTO : ustr := u "__proto__".
Definition obj_assign (key : ustr) (v : jsvalue) (object : list (ustr * jsvalue)) :=
  if bool_decide (key = PROTO) then object else JsMap.set key v object.

Definition parse_number (text : ustr) : result CanonError (jsvalue * ustr) :=
  match match_number text with
  | Some (m, rest) =>
      match Number_ m with
      | NonFinite => Err NON_FINITE_NUMBER
      | n => Ok (VNum n, rest)
      end
  | None => Err INVALID_TOKEN
  end.

Definition parse_scalar (text : ustr) : result CanonError (jsvalue * ustr) :=
  if startsWith [34%N] text then let? '(s, rest) := parseJsonString text in Ok (VStr s, rest)
  else if startsWith (u "true") text then Ok (VBool true, drop 4 text)
  else if startsWith (u "false") text then Ok (VBool false, drop 5 text)
  else if startsWith (u "null") text then Ok (VNull, drop 4 text)
  else parse_number text.

Definition head_is (c : N) (s : ustr) : bool := startsWith [c] s.

(** [parseJsonValue] with its object and array loops; [fuel] bounds the units left to read.
    [assign] is the effect of [object[key] = value]. *)
Section Parser.
Variable assign : ustr -> jsvalue -> list (ustr * jsvalue) -> list (ustr * jsvalue).

Fixpoint parse_value (fuel : nat) (text : ustr) : result CanonError (jsvalue * ustr) :=
  match fuel with
  | O => Err PARSER_FUEL
  | S fuel' =>
      match skipWhitespace text with
      | [] => Err UNEXPECTED_END
      | (c :: r) as t =>
          if (c =? 123)%N then
            let cursor := skipWhitespace r in
            if head_is 125 cursor then Ok (VObj [], drop 1 cursor)
            else parse_members fuel' [] [] cursor
          else if (c =? 91)%N then
            let cursor := skipWhitespace r in
            if head_is 93 cursor then Ok (VArr [], drop 1 cursor)
            else parse_items fuel' [] cursor
          else parse_scalar t
      end
  end
with parse_members (fuel : nat) (seen : list ustr) (object : list (ustr * jsvalue)) (cursor : ustr)
  : result CanonError (jsvalue * ustr) :=
  match fuel with
  | O => Err PARSER_FUEL
  | S fuel' =>
      match cursor with
      | [] => Err UNTERMINATED_OBJECT
      | _ =>
          let? '(key, next) := parseJsonString (skipWhitespace cursor) in
          throw_if includes key seen with DUPLICATE_KEY;
          let cursor := skipWhitespace next in
          throw_if negb (head_is COLON cursor) with EXPECTED_COLON;
          let? '(v, next) := parse_value fuel' (drop 1 cursor) in
          let object := assign key v object in
          let cursor := skipWhitespace next in
          if head_is COMMA cursor then parse_members fuel' (key :: seen) object (drop 1 cursor)
          else if head_is 125 cursor then Ok (VObj object, drop 1 cursor)
          else Err EXPECTED_COMMA_BRACE
      end
  end
with parse_items (fuel : nat) (items : list jsvalue) (cursor : ustr)
  : result CanonError (jsvalue * ustr) :=
  match fuel with
  | O => Err PARSER_FUEL
  | S fuel' =>
      match cursor with
      | [] => Err UNTERMINATED_ARRAY
      | _ =>
          let? '(v, next) := parse_value fuel' cursor in
          let items := items ++ [v] in
          let cursor := skipWhitespace next in
          if head_is COMMA cursor then parse_items fuel' items (drop 1 cursor)
          else if head_is 93 cursor then Ok (VArr items, drop 1 cursor)
          else Err EXPECTED_COMMA_BRACKET
      end
  end.
End Parser.

Definition parseJsonValue := parse_value obj_assign.

Definition parseCanonicalJsonText (text : ustr) : result CanonError jsvalue :=
  match text with
  | [] => Err EMPTY_JSON
  | c :: _ =>
      throw_if (c =? 65279)%N with BOM_FORBIDDEN;
      let? '(value, next) := parseJsonValue (2 * length text + 1) text in
      throw_if negb (bool_decide (skipWhitespace next = [])) with TRAILING_BYTES;
      Ok value
  end.

Definition canonicalizeJsonText (text : ustr) (allowUnsafe : bool) : result CanonError ustr :=
  let? v := parseCanonicalJsonText text in walk allowUnsafe v.
End Values.

(** ** An instance of the interface, with one double: 0.5 *)

Definition half_doubles : Doubles := {|
  double := unit;
  double_isInteger := fun _ => false;
  double_toString := fun _ => u "0.5";
  double_parse := fun s => if bool_decide (s = u "0.5") then Double tt else NonFinite
|}.
#[local] Existing Instance half_doubles.

Definition sample_value : jsvalue :=
  VObj [(u "b", VArr [VNum (SafeInt (-12)); VNum (Double tt); VBool true]);
        (u "a", VStr (34 :: 10 :: u "x")%N); (u "", VObj [])].

Example sample_canonical :
  canonicalize sample_value =
  Ok (123 :: 34 :: 34 :: 58 :: 123 :: 125 :: 44 :: 34 :: 97 :: 34 :: 58 :: 34 :: 92 :: 34 :: 92 ::
      110 :: 120 :: 34 :: 44 :: 34 :: 98 :: 34 :: 58 :: u "[-12,0.5,true]" ++ [125])%N.
Proof. vm_compute. reflexivity. Qed.

Example sample_parsed :
  (let? t := canonicalize sample_value in let? v := parseCanonicalJsonText t in canonicalize v) =
  canonicalize sample_value.
Proof. vm_compute. reflexivity. Qed.
