(* ===== verification/CanonicalJsonTheorems.v ===== *)
(** Canonical JSON: the printer accepts exactly the contract values, prints values that differ
    only in key order the same way and different values differently, and the parser reads back
    what the printer writes. *)

From Stdlib Require Import String Decimal DecimalN DecimalFacts.
From S2P Require Import Prelude JsText CanonicalJson.
Open Scope string_scope.
Open Scope list_scope.

(** ** Key order *)

Lemma utf16_leb_refl s : utf16_leb s s = true.
Proof. induction s as [|c s IH]; [done|]. cbn. by rewrite N.eqb_refl. Qed.

Lemma utf16_leb_total s t : utf16_leb s t = true \/ utf16_leb t s = true.
Proof.
  revert t. induction s as [|a s IH]; intros [|b t]; cbn; auto.
  rewrite (N.eqb_sym b a). destruct (a =? b)%N eqn:E; [apply IH|].
  apply N.eqb_neq in E. rewrite !N.ltb_lt. lia.
Qed.

Lemma utf16_leb_antisym s t : utf16_leb s t = true -> utf16_leb t s = true -> s = t.
Proof.
  revert t. induction s as [|a s IH]; intros [|b t]; cbn; try done.
  rewrite (N.eqb_sym b a). destruct (a =? b)%N eqn:E.
  - apply N.eqb_eq in E as ->. intros. f_equal. by apply IH.
  - rewrite !N.ltb_lt. lia.
Qed.

Lemma utf16_leb_trans s t w : utf16_leb s t = true -> utf16_leb t w = true -> utf16_leb s w = true.
Proof.
  revert t w. induction s as [|a s IH]; intros [|b t] [|c w]; cbn; try done.
  destruct (a =? b)%N eqn:E1, (b =? c)%N eqn:E2;
    rewrite ?N.eqb_eq, ?N.eqb_neq, ?N.ltb_lt in *; subst.
  - rewrite N.eqb_refl. apply IH.
  - intros _ H. by rewrite (proj2 (N.eqb_neq _ _) E2), (proj2 (N.ltb_lt _ _) H).
  - intros H _. by rewrite (proj2 (N.eqb_neq _ _) E1), (proj2 (N.ltb_lt _ _) H).
  - intros H1 H2. assert (a <> c /\ a < c)%N as [H3 H4] by lia.
    by rewrite (proj2 (N.eqb_neq _ _) H3), (proj2 (N.ltb_lt _ _) H4).
Qed.

(** Sorting by a key that tells the entries apart forgets their order. *)
Section SortByKey.
Context {A : Type} (key : A -> ustr).
Let by_key (a b : A) : bool := utf16_leb (key a) (key b).
Let sorted_by_key := StronglySorted (fun a b => by_key a b = true).

Lemma sort_by_key_sorted l : sorted_by_key (sort_by by_key l).
Proof.
  apply Sorted_StronglySorted; [intros a b c; apply utf16_leb_trans|].
  apply sort_by_sorted. intros a b. apply utf16_leb_total.
Qed.

Lemma sorted_perm_unique l m :
  (forall x y, x ∈ l -> y ∈ l -> key x = key y -> x = y) ->
  sorted_by_key l -> sorted_by_key m -> l ≡ₚ m -> l = m.
Proof.
  revert m. induction l as [|x l IH]; intros m Hk Hl Hm Hp; [by apply Permutation_nil_l in Hp|].
  destruct m as [|y m]; [by apply Permutation_nil_r in Hp|].
  inversion_clear Hl as [|? ? Hl' Hx]. inversion_clear Hm as [|? ? Hm' Hy].
  assert (x = y) as <-.
  { assert (x ∈ y :: m) as Hxm by (rewrite <- Hp; left).
    assert (y ∈ x :: l) as Hyl by (rewrite Hp; left).
    apply elem_of_cons in Hxm as [?|Hxm]; [done|]. apply Hk; [left | done|].
    apply elem_of_cons in Hyl as [->|Hyl]; [done|]. rewrite Forall_forall in Hx, Hy.
    apply utf16_leb_antisym; [by apply Hx | by apply Hy]. }
  f_equal. apply IH; [|done|done|by apply Permutation_cons_inv in Hp].
  intros a b Ha Hb. apply Hk; by right.
Qed.

Lemma sort_by_key_perm l m :
  (forall x y, x ∈ l -> y ∈ l -> key x = key y -> x = y) -> l ≡ₚ m -> sort_by by_key l = sort_by by_key m.
Proof.
  intros Hk Hp. apply sorted_perm_unique; [|apply sort_by_key_sorted..|by rewrite !sort_by_perm].
  intros x y Hx Hy. rewrite elem_of_sort_by in Hx, Hy. by apply Hk.
Qed.
End SortByKey.

Lemma NoDup_key_inj {A B} (key : A -> B) l x y :
  NoDup (map key l) -> x ∈ l -> y ∈ l -> key x = key y -> x = y.
Proof.
  intros Hn Hx Hy Hk. apply list_elem_of_lookup in Hx as [i Hi]. apply list_elem_of_lookup in Hy as [j Hj].
  assert (i = j) as ->; [|congruence].
  apply (NoDup_lookup _ i j (key x) Hn); rewrite list_lookup_fmap; [by rewrite Hi | by rewrite Hj, Hk].
Qed.

Section SortPairs.
Context {V : Type}.
Definition key_leb (a b : ustr * V) : bool := utf16_leb (fst a) (fst b).

Lemma sort_keys (l : list (ustr * V)) : sort_by utf16_leb (map fst l) = map fst (sort_by key_leb l).
Proof.
  induction l as [|x l IH]; [done|]. cbn [map]. rewrite !sort_by_cons, IH.
  generalize (sort_by key_leb l) as m.
  intros m. induction m as [|y m IHm]; [done|]. cbn. unfold key_leb at 1.
  destruct (utf16_leb (fst x) (fst y)); [done|]. cbn. by rewrite IHm.
Qed.

(** Sorting forgets the order of the entries. *)
Lemma sort_perm_eq (l m : list (ustr * V)) :
  NoDup (map fst l) -> l ≡ₚ m -> sort_by key_leb l = sort_by key_leb m.
Proof. intros Hn. apply sort_by_key_perm. intros x y. by apply NoDup_key_inj. Qed.
End SortPairs.

(** ** The laws of the number interface *)

Class DoublesLaws `{Doubles} := {
  double_literal d : match_number (double_toString d) = Some (double_toString d, []);
  double_not_safe d : safe_literal (double_toString d) = None;
  double_parse_print d : double_parse (double_toString d) = Double d
}.

Lemma half_laws : @DoublesLaws half_doubles.
Proof. split; intros []; vm_compute; reflexivity. Qed.

Lemma set_absent {V} (k : ustr) (v : V) m : k ∉ map fst m -> JsMap.set k v m = m ++ [(k, v)].
Proof.
  induction m as [|[k' v'] m IH]; cbn; [done|]. intros Hk. case_decide; [set_solver|].
  by rewrite IH by set_solver.
Qed.

(** ** Strings: printing and scanning *)

Lemma hex_digit_range n : (n < 16)%N ->
  hex_value (hex_digit n) = Some n /\ hex_digit n <> 92%N /\ hex_digit n <> 34%N.
Proof.
  intros Hn. unfold hex_digit, hex_value, is_digit. destruct (n <? 10)%N eqn:E.
  - apply N.ltb_lt in E. rewrite (proj2 (N.leb_le 48 _)), (proj2 (N.leb_le _ 57)) by lia.
    cbn [andb]. split_and!; [f_equal; lia | lia | lia].
  - apply N.ltb_ge in E. rewrite (proj2 (N.leb_gt _ 57)) by lia. rewrite andb_false_r.
    rewrite (proj2 (N.leb_le 97 _)), (proj2 (N.leb_le _ 102)) by lia.
    cbn [andb]. split_and!; [f_equal; lia | lia | lia].
Qed.

(** The five shapes of a quoted unit. *)
Lemma quote_unit_cases c :
  (exists e, quote_unit c = [92; e]%N /\ e <> 117%N /\ escape_value e = Some c) \/
  ((c < 32)%N /\ quote_unit c = [92; 117; 48; 48; hex_digit (c / 16); hex_digit (c mod 16)]%N) \/
  (quote_unit c = [c] /\ c <> 92%N /\ c <> 34%N /\ (32 <= c)%N).
Proof.
  unfold quote_unit.
  repeat match goal with
  | |- context [if (c =? ?k)%N then _ else _] =>
      let E := fresh "E" in destruct (c =? k)%N eqn:E;
      [apply N.eqb_eq in E as ->; left; eexists; repeat split; done | apply N.eqb_neq in E]
  end.
  destruct (c <? 32)%N eqn:E'; [apply N.ltb_lt in E'; tauto | apply N.ltb_ge in E'; tauto].
Qed.

Lemma scan_quote_unit c t :
  scan_string (quote_unit c ++ t) =
  rbind (scan_string t) (fun p => let '(raw, rest) := p in Ok (quote_unit c ++ raw, rest)).
Proof.
  destruct (quote_unit_cases c) as [(e & -> & _ & _)|[[Hc ->]|(-> & H1 & H2 & _)]].
  - done.
  - cbn [app]. cbn [scan_string N.eqb Pos.eqb].
    destruct (hex_digit_range (c / 16)) as (_ & A1 & A2); [apply N.Div0.div_lt_upper_bound; lia|].
    destruct (hex_digit_range (c mod 16)) as (_ & B1 & B2); [apply N.mod_lt; lia|].
    rewrite (proj2 (N.eqb_neq _ _) A1), (proj2 (N.eqb_neq _ _) A2).
    rewrite (proj2 (N.eqb_neq _ _) B1), (proj2 (N.eqb_neq _ _) B2).
    by destruct (scan_string t) as [[raw rest]|e].
  - cbn [app scan_string].
    by rewrite (proj2 (N.eqb_neq _ _) H1), (proj2 (N.eqb_neq _ _) H2).
Qed.

Lemma scan_quote_body s r : scan_string (quote_body s ++ 34%N :: r) = Ok (quote_body s, r).
Proof.
  unfold quote_body. induction s as [|c s IH]; [done|]. cbn [map concat].
  by rewrite <- app_assoc, scan_quote_unit, IH.
Qed.

Lemma unescape_quote_unit c t : json_unescape (quote_unit c ++ t) = cons c <$> json_unescape t.
Proof.
  destruct (quote_unit_cases c) as [(e & -> & He & Hv)|[[Hc ->]|(-> & H1 & H2 & H3)]].
  - cbn [app json_unescape N.eqb Pos.eqb]. by rewrite (proj2 (N.eqb_neq _ _) He), Hv.
  - cbn [app json_unescape N.eqb Pos.eqb].
    destruct (hex_digit_range (c / 16)) as (A & _); [apply N.Div0.div_lt_upper_bound; lia|].
    destruct (hex_digit_range (c mod 16)) as (B & _); [apply N.mod_lt; lia|].
    unfold hex4. rewrite A, B. change (hex_value 48) with (Some 0%N). cbn [mbind option_bind].
    replace (((0 * 16 + 0) * 16 + c / 16) * 16 + c mod 16)%N with c; [done|].
    pose proof (N.div_mod c 16 ltac:(lia)). lia.
  - cbn [app json_unescape]. rewrite (proj2 (N.eqb_neq _ _) H1).
    by rewrite (proj2 (N.ltb_ge _ _) H3).
Qed.

Lemma unescape_quote_body s : json_unescape (quote_body s) = Some s.
Proof.
  unfold quote_body. induction s as [|c s IH]; [done|]. cbn [map concat].
  by rewrite unescape_quote_unit, IH.
Qed.

Lemma parseJsonString_stringify s r :
  hasUnpairedSurrogate s = false ->
  parseJsonString (JSON_stringify_string s ++ r) = Ok (s, r).
Proof.
  intros Hs. unfold JSON_stringify_string. cbn [app parseJsonString N.eqb Pos.eqb negb].
  rewrite <- app_assoc. cbn [app]. rewrite scan_quote_body. cbn [rbind].
  rewrite unescape_quote_body. unfold rejectUnpairedSurrogates. by rewrite Hs.
Qed.

(** ** Number literals *)

(** What may follow a value in canonical text. *)
Definition delim (r : ustr) : Prop :=
  match r with [] => True | c :: _ => c = 44%N \/ c = 93%N \/ c = 125%N end.

Lemma delim_head r c t :
  delim r -> r = c :: t -> is_digit c = false /\ (c =? DOT)%N = false /\
  ((c =? 101)%N || (c =? 69)%N) = false /\ ((c =? 43)%N || (c =? 45)%N) = false.
Proof. intros Hr ->. destruct Hr as [->|[->| ->]]; done. Qed.

Lemma span_digits_app s r a b :
  delim r -> span_digits s = (a, b) -> span_digits (s ++ r) = (a, b ++ r).
Proof.
  intros Hr. revert a b. induction s as [|c s IH]; intros a b; cbn [app span_digits].
  - intros [= <- <-]. destruct r as [|c r]; [done|].
    destruct (delim_head _ _ _ Hr eq_refl) as (Hd & _). cbn. by rewrite Hd.
  - destruct (is_digit c); [|by intros [= <- <-]].
    destruct (span_digits s) as [a' b']. intros [= <- <-]. by rewrite (IH a' b').
Qed.

Lemma match_fraction_app s r a b :
  delim r -> match_fraction s = (a, b) -> match_fraction (s ++ r) = (a, b ++ r).
Proof.
  intros Hr. destruct s as [|c s]; cbn [app match_fraction].
  - intros [= <- <-]. destruct r as [|c r]; [done|].
    destruct (delim_head _ _ _ Hr eq_refl) as (_ & Hd & _). cbn. by rewrite Hd.
  - destruct (c =? DOT)%N; [|by intros [= <- <-]].
    destruct (span_digits s) as [a' b'] eqn:E. rewrite (span_digits_app _ _ _ _ Hr E).
    destruct a'; by intros [= <- <-].
Qed.

Lemma match_exponent_app s r a b :
  delim r -> match_exponent s = (a, b) -> match_exponent (s ++ r) = (a, b ++ r).
Proof.
  intros Hr. destruct s as [|c s]; cbn [app match_exponent].
  - intros [= <- <-]. destruct r as [|c r]; [done|].
    destruct (delim_head _ _ _ Hr eq_refl) as (_ & _ & Hd & _). cbn [match_exponent]. by rewrite Hd.
  - destruct ((c =? 101)%N || (c =? 69)%N); [|by intros [= <- <-]].
    destruct s as [|x s]; cbn [app].
    + cbn [span_digits]. intros [= <- <-]. destruct r as [|y r]; [done|].
      destruct (delim_head _ _ _ Hr eq_refl) as (Hd & _ & _ & Hs). rewrite Hs.
      cbn [span_digits]. by rewrite Hd.
    + destruct ((x =? 43)%N || (x =? 45)%N);
        [destruct (span_digits s) as [a' b'] eqn:E | destruct (span_digits (x :: s)) as [a' b'] eqn:E];
        apply (span_digits_app _ _ _ _ Hr) in E; cbn [app] in E; rewrite E;
        destruct a'; by intros [= <- <-].
Qed.

Lemma match_number_app s r m b :
  delim r -> match_number s = Some (m, b) -> match_number (s ++ r) = Some (m, b ++ r).
Proof.
  intros Hr. unfold match_number.
  assert (forall sign s1 int,
    int = match s1 with
      | c :: t => if (c =? 48)%N then Some ([48%N], t)
                  else if is_digit c then Some (span_digits s1) else None
      | [] => None end ->
    match int with
    | None => None
    | Some (ip, s2) => let '(fp, s3) := match_fraction s2 in let '(ep, s4) := match_exponent s3 in
                       Some (sign ++ ip ++ fp ++ ep, s4)
    end = Some (m, b) ->
    match match s1 ++ r with
      | c :: t => if (c =? 48)%N then Some ([48%N], t)
                  else if is_digit c then Some (span_digits (s1 ++ r)) else None
      | [] => None end with
    | None => None
    | Some (ip, s2) => let '(fp, s3) := match_fraction s2 in let '(ep, s4) := match_exponent s3 in
                       Some (sign ++ ip ++ fp ++ ep, s4)
    end = Some (m, b ++ r)) as Hint.
  { intros sign s1 int -> Hm. destruct s1 as [|c t]; [done|]. cbn [app].
    assert (exists ip s2,
      (if (c =? 48)%N then Some ([48%N], t)
       else if is_digit c then Some (span_digits (c :: t)) else None) = Some (ip, s2) /\
      (if (c =? 48)%N then Some ([48%N], t ++ r)
       else if is_digit c then Some (span_digits (c :: t ++ r)) else None) = Some (ip, s2 ++ r))
      as (ip & s2 & E1 & E2).
    { destruct (c =? 48)%N; [by eexists _, _|]. destruct (is_digit c); [|done].
      destruct (span_digits (c :: t)) as [ip s2] eqn:E. exists ip, s2. split; [done|].
      by rewrite <- (span_digits_app (c :: t) r _ _ Hr E). }
    rewrite E1 in Hm. rewrite E2.
    destruct (match_fraction s2) as [fp s3] eqn:E3. rewrite (match_fraction_app _ _ _ _ Hr E3).
    destruct (match_exponent s3) as [ep s4] eqn:E4. rewrite (match_exponent_app _ _ _ _ Hr E4).
    by injection Hm as <- <-. }
  destruct s as [|c s]; [done|]. cbn [app].
  destruct (c =? 45)%N; apply (Hint _ _ _ eq_refl) || apply (Hint _ (c :: s) _ eq_refl).
Qed.

Lemma units_uint_units d : units_uint (uint_units d) = Some d.
Proof. induction d; cbn; rewrite ?IHd; done. Qed.

Lemma uint_units_digits d : Forall (fun c => is_digit c = true) (uint_units d).
Proof. induction d; cbn; by constructor. Qed.

Lemma span_digits_all s : Forall (fun c => is_digit c = true) s -> span_digits s = (s, []).
Proof. induction 1 as [|c s Hc _ IH]; cbn; [done|]. by rewrite Hc, IH. Qed.

(** The decimal digits of a natural number: "0", or no leading zero. *)
Lemma to_uint_shape n :
  uint_units (N.to_uint n) = [48%N] \/
  exists c r, uint_units (N.to_uint n) = c :: r /\ is_digit c = true /\ c <> 48%N.
Proof.
  assert (N.to_uint n = unorm (N.to_uint n)) as E.
  { by rewrite <- DecimalN.Unsigned.to_of, DecimalN.Unsigned.of_to. }
  rewrite E. unfold unorm. destruct (nzhead (N.to_uint n)) eqn:Hz; [by left| |right; cbn; eauto..].
  by apply nzhead_nonzero in Hz.
Qed.

Lemma match_number_int z : match_number (int_toString z) = Some (int_toString z, []).
Proof.
  unfold int_toString. set (ds := uint_units _).
  assert (forall sign, match match ds with
      | c :: t => if (c =? 48)%N then Some ([48%N], t)
                  else if is_digit c then Some (span_digits ds) else None
      | [] => None end with
    | None => None
    | Some (ip, s2) => let '(fp, s3) := match_fraction s2 in let '(ep, s4) := match_exponent s3 in
                       Some (sign ++ ip ++ fp ++ ep, s4)
    end = Some (sign ++ ds, [])) as Hd.
  { intros sign. pose proof (span_digits_all _ (uint_units_digits (N.to_uint (Z.abs_N z)))) as Hs.
    fold ds in Hs. destruct (to_uint_shape (Z.abs_N z)) as [E|(c & r & E & Hc & Hz)]; fold ds in E.
    - rewrite E. done.
    - rewrite Hs, E, (proj2 (N.eqb_neq _ _) Hz), Hc. cbn. by rewrite !app_nil_r. }
  unfold match_number. destruct (z <? 0)%Z.
  - cbn [N.eqb Pos.eqb]. apply (Hd [45%N]).
  - assert (exists c r, ds = c :: r /\ (c =? 45)%N = false) as (c & r & E & Hc).
    { destruct (to_uint_shape (Z.abs_N z)) as [E|(c & r & E & Hc & Hz)]; fold ds in E.
      - by exists 48%N, [].
      - exists c, r. split; [done|]. apply N.eqb_neq. by intros ->. }
    pose proof (Hd []) as Hd'. rewrite E in *. by rewrite Hc.
Qed.

Lemma safe_literal_int z : isSafe z = true -> safe_literal (int_toString z) = Some z.
Proof.
  intros Hz. unfold int_toString. set (n := Z.abs_N z).
  assert (Z.of_N n = Z.abs z) as Hn by (subst n; lia).
  assert (isSafe (Z.of_N n) = true) as Hs by (unfold isSafe in *; by rewrite Hn, Z.abs_idemp).
  assert (exists c r, uint_units (N.to_uint n) = c :: r /\ (c =? 45)%N = false) as (c & r & E & Hc).
  { destruct (to_uint_shape n) as [E|(c & r & E & Hc & Hz')].
    - by exists 48%N, [].
    - exists c, r. split; [done|]. apply N.eqb_neq. by intros ->. }
  pose proof (units_uint_units (N.to_uint n)) as Hu. rewrite E in *.
  unfold safe_literal. destruct (z <? 0)%Z eqn:Hneg.
  - cbn [N.eqb Pos.eqb]. rewrite Hu. cbn [mbind option_bind].
    rewrite DecimalN.Unsigned.of_to, Hs. apply Z.ltb_lt in Hneg. f_equal. lia.
  - rewrite Hc, Hu. cbn [mbind option_bind].
    rewrite DecimalN.Unsigned.of_to, Hs. apply Z.ltb_ge in Hneg. f_equal. lia.
Qed.

Section Canonical.
Context `{Doubles}.

(** ** Values the printer accepts, and the text it gives them *)

Definition number_printable (allowUnsafe : bool) (n : number double) : bool :=
  match n with
  | NonFinite => false
  | NegZero | SafeInt _ => true
  | Double d => allowUnsafe || negb (double_isInteger d)
  end.

Fixpoint printable (allowUnsafe : bool) (v : jsvalue) : bool :=
  match v with
  | VUndefined | VUnsupported | VHole => false
  | VNull | VBool _ => true
  | VNum n => number_printable allowUnsafe n
  | VStr s => negb (hasUnpairedSurrogate s)
  | VArr items => forallb (printable allowUnsafe) items
  | VObj fields =>
      forallb (fun kv => negb (hasUnpairedSurrogate (fst kv)) && printable allowUnsafe (snd kv)) fields
  end.

(** Facts of the representation: own property names are distinct, [SafeInt] is safe. *)
Fixpoint js_wf (v : jsvalue) : Prop :=
  match v with
  | VNum (SafeInt z) => isSafe z = true
  | VArr items => foldr (fun x P => js_wf x /\ P) True items
  | VObj fields => NoDup (map fst fields) /\ foldr (fun kv P => js_wf (snd kv) /\ P) True fields
  | _ => True
  end.

(** The value a canonical text stands for: keys sorted, no negative zero. *)
Fixpoint norm (v : jsvalue) : jsvalue :=
  match v with
  | VNum NegZero => VNum (SafeInt 0)
  | VArr items => VArr (map norm items)
  | VObj fields => VObj (sort_by key_leb (map (fun kv => (fst kv, norm (snd kv))) fields))
  | _ => v
  end.

Fixpoint show (v : jsvalue) : ustr :=
  match v with
  | VUndefined | VUnsupported | VHole => []
  | VNull => u "null"
  | VBool b => if b then u "true" else u "false"
  | VNum n => match n with
              | NonFinite => []
              | NegZero => [48%N]
              | SafeInt z => int_toString z
              | Double d => double_toString d
              end
  | VStr s => JSON_stringify_string s
  | VArr items => 91%N :: join_unit COMMA (map show items) ++ [93%N]
  | VObj fields =>
      123%N :: join_unit COMMA
        (map (fun kv => JSON_stringify_string (fst kv) ++ COLON :: show (snd kv)) fields) ++ [125%N]
  end.

Lemma foldr_and_Forall {A} (P : A -> Prop) l : foldr (fun x Q => P x /\ Q) True l <-> Forall P l.
Proof.
  induction l as [|x l IH]; cbn; [by split; constructor|]. rewrite IH, Forall_cons. done.
Qed.

Lemma map_sort_by {A} (f : ustr * A -> ustr * A) (l : list (ustr * A)) :
  (forall x, fst (f x) = fst x) -> map f (sort_by key_leb l) = sort_by key_leb (map f l).
Proof.
  intros Hf. induction l as [|x l IH]; [done|]. cbn [map]. rewrite !sort_by_cons, <- IH.
  generalize (sort_by key_leb l) as m. intros m. induction m as [|y m IHm]; [done|]. cbn.
  unfold key_leb at 1 3. rewrite !Hf. destruct (utf16_leb _ _); [done|]. cbn. by rewrite IHm.
Qed.

Lemma rmap_id_ok {E A B} (f : A -> result E B) (g : A -> B) l :
  Forall (fun x => f x = Ok (g x)) l -> rmap f l = Ok (map g l).
Proof. induction 1 as [|x l Hx _ IH]; [done|]. cbn. by rewrite Hx, IH. Qed.

Lemma get_map_snd {K A B} `{EqDecision K} (g : A -> B) (l : list (K * A)) k v :
  NoDup (map fst l) -> (k, v) ∈ l ->
  JsMap.get k (map (fun kv => (fst kv, g (snd kv))) l) = Some (g v).
Proof.
  intros Hn Hin. apply JsMap.elem_get.
  - unfold JsMap.keys. rewrite map_map. done.
  - apply list_elem_of_fmap. by exists (k, v).
Qed.

Lemma walk_printable_ok a v :
  js_wf v -> printable a v = true -> walk a v = Ok (show (norm v)).
Proof.
  induction v as [| | | |b|n|s|items IH|fields IH] using jsvalue_ind'; intros Hu Hp; try done.
  - destruct n as [| | |d]; [done..|]. cbn in *. by destruct a, (double_isInteger d).
  - cbn in *. unfold rejectUnpairedSurrogates. by destruct (hasUnpairedSurrogate s).
  - cbn [js_wf] in Hu. apply foldr_and_Forall in Hu. cbn [printable] in Hp.
    rewrite forallb_forall in Hp.
    cbn [walk norm show].
    assert (rmap (fun r => r) (map (walk a) items) = Ok (map show (map norm items))) as ->; [|done].
    clear -IH Hu Hp. induction items as [|x items IHl]; [done|]. cbn.
    inversion_clear IH as [|? ? IHx IHr]. inversion_clear Hu as [|? ? Hux Hur].
    rewrite IHx, IHl; [done | done | done | | done |]; try (intros; apply Hp; by right).
    apply Hp. by left.
  - cbn [js_wf] in Hu. destruct Hu as [Hn Hu]. rewrite foldr_and_Forall in Hu.
    cbn [printable] in Hp. rewrite forallb_forall in Hp.
    cbn [walk norm show]. rewrite sort_keys.
    set (printed := map _ fields).
    set (nf := fun kv : ustr * jsvalue => (fst kv, norm (snd kv))).
    rewrite <- (map_sort_by nf) by done. rewrite map_map.
    assert (forall sub, (forall kv, kv ∈ sub -> kv ∈ fields) ->
      rmap (print_member printed) (map fst sub) =
      Ok (map (fun kv => JSON_stringify_string (fst (nf kv)) ++ COLON :: show (snd (nf kv))) sub)) as Hm.
    { intros sub. induction sub as [|[k x] sub IHs]; intros Hs; [done|]. cbn [map rmap fst].
      assert ((k, x) ∈ fields) as Hin by (apply Hs; left).
      assert (print_member printed k = Ok (JSON_stringify_string k ++ COLON :: show (norm x))) as ->.
      { apply list_elem_of_In in Hin as Hin'. specialize (Hp _ Hin'). cbn in Hp.
        apply andb_true_iff in Hp as [Hk%negb_true_iff Hx].
        unfold print_member, rejectUnpairedSurrogates. rewrite Hk. cbn [rbind].
        subst printed. rewrite (get_map_snd (walk a) fields k x Hn Hin). cbn [default rbind].
        rewrite Forall_forall in IH, Hu. pose proof (IH _ Hin (Hu _ Hin) Hx) as E.
        cbn [snd] in E. by rewrite E. }
      cbn [rbind]. rewrite IHs; [done|]. intros kv ?. apply Hs. by right. }
    rewrite Hm; [done|]. intros kv. by rewrite elem_of_sort_by.
Qed.

Lemma walk_ok_printable a v t : js_wf v -> walk a v = Ok t -> printable a v = true.
Proof.
  revert t. induction v as [| | | |b|n|s|items IH|fields IH] using jsvalue_ind'; intros t Hu Hw; try done.
  - destruct n as [| | |d]; [done..|]. cbn in *. by destruct a, (double_isInteger d).
  - cbn in *. unfold rejectUnpairedSurrogates in Hw. by destruct (hasUnpairedSurrogate s).
  - cbn [js_wf] in Hu. apply foldr_and_Forall in Hu. cbn [walk printable] in *.
    apply rbind_ok in Hw as (parts & Hw & _). clear t. apply forallb_forall. intros x Hx.
    revert parts Hw. induction items as [|y items IHl]; [done|]. intros parts Hw. cbn in Hw.
    apply rbind_ok in Hw as (p & Hp & Hw). apply rbind_ok in Hw as (ps & Hps & _).
    inversion_clear IH as [|? ? IHx IHr]. inversion_clear Hu as [|? ? Hux Hur].
    destruct Hx as [->|Hx]; [by eapply IHx | by eapply IHl].
  - cbn [js_wf] in Hu. destruct Hu as [Hn Hu]. rewrite foldr_and_Forall in Hu.
    cbn [walk printable] in *. apply rbind_ok in Hw as (parts & Hw & _).
    apply rmap_ok in Hw. apply forallb_forall. intros [k x] Hx%list_elem_of_In. cbn [fst snd].
    assert (k ∈ sort_by utf16_leb (map fst fields)) as Hk.
    { rewrite elem_of_sort_by. by apply (list_elem_of_fmap_2 fst _ (k, x)). }
    apply list_elem_of_lookup in Hk as [i Hi].
    destruct (Forall2_lookup_l _ _ _ _ _ Hw Hi) as (p & _ & Hp).
    unfold print_member in Hp. apply rbind_ok in Hp as (? & Hr & Hp).
    apply rbind_ok in Hp as (tx & Hv & _).
    rewrite (get_map_snd (walk a) fields k x Hn Hx) in Hv. cbn in Hv.
    unfold rejectUnpairedSurrogates in Hr. destruct (hasUnpairedSurrogate k); [done|]. cbn.
    rewrite Forall_forall in IH, Hu. by apply (IH _ Hx tx (Hu _ Hx)).
Qed.

(** ** Reading back *)

Context {L : DoublesLaws}.

(** The assignment is one that appends a fresh property under every allowed name. *)
Section Reading.
Context (assign : ustr -> jsvalue -> list (ustr * jsvalue) -> list (ustr * jsvalue)).
Context (ok_key : ustr -> Prop).
Context (assign_fresh : forall k v m, ok_key k -> k ∉ map fst m -> assign k v m = m ++ [(k, v)]).

(** Values that a canonical text with allowed names can stand for. *)
Definition number_readable (n : number double) : bool :=
  match n with NonFinite | NegZero => false | SafeInt z => isSafe z | Double _ => true end.

Fixpoint readable (v : jsvalue) : Prop :=
  match v with
  | VUndefined | VUnsupported | VHole => False
  | VNull | VBool _ => True
  | VNum n => number_readable n = true
  | VStr s => hasUnpairedSurrogate s = false
  | VArr items => foldr (fun x P => readable x /\ P) True items
  | VObj fields =>
      NoDup (map fst fields) /\
      foldr (fun kv P =>
        (ok_key (fst kv) /\ hasUnpairedSurrogate (fst kv) = false /\ readable (snd kv)) /\ P) True fields
  end.

Lemma Number_int z : isSafe z = true -> Number_ (int_toString z) = SafeInt z.
Proof.
  intros Hz. unfold Number_. rewrite safe_literal_int by done. destruct z; [|done..].
  by vm_compute.
Qed.

Lemma match_number_head s m r : match_number s = Some (m, r) ->
  exists c t, s = c :: t /\ ((c =? 45)%N = true \/ is_digit c = true).
Proof.
  unfold match_number. destruct s as [|c t]; [done|]. intros Hm. exists c, t. split; [done|].
  destruct (c =? 45)%N; [by left|]. right.
  destruct (c =? 48)%N eqn:E; [by apply N.eqb_eq in E as ->|]. by destruct (is_digit c).
Qed.

(** First units of a number do not start any other token. *)
Lemma number_head c : (c =? 45)%N = true \/ is_digit c = true ->
  is_json_space c = false /\ (c =? 123)%N = false /\ (c =? 91)%N = false /\ (c =? 34)%N = false /\
  (c =? 116)%N = false /\ (c =? 102)%N = false /\ (c =? 110)%N = false /\
  c <> 93%N /\ c <> 125%N /\ c <> 65279%N.
Proof.
  unfold is_json_space, is_digit. cbn [existsb].
  intros [E%N.eqb_eq|[E1%N.leb_le E2%N.leb_le]%andb_true_iff];
    rewrite !(proj2 (N.eqb_neq _ _)) by lia; repeat split; lia.
Qed.

Definition good_start (c : N) : Prop :=
  is_json_space c = false /\ c <> 93%N /\ c <> 125%N /\ c <> 65279%N.

Lemma show_number_head n : number_readable n = true ->
  exists c t, show (VNum n) = c :: t /\ ((c =? 45)%N = true \/ is_digit c = true).
Proof.
  destruct n as [| |z|d]; try done; intros _; cbn [show].
  - eapply match_number_head, match_number_int.
  - eapply match_number_head, double_literal.
Qed.

Lemma show_head v : readable v -> exists c t, show v = c :: t /\ good_start c.
Proof.
  destruct v as [| | | |b|n|s|items|fields]; try done; intros Hr.
  - by eexists _, _.
  - destruct b; by eexists _, _.
  - destruct (show_number_head n Hr) as (c & t & -> & Hc). exists c, t. split; [done|].
    apply number_head in Hc. unfold good_start. tauto.
  - by eexists _, _.
  - by eexists _, _.
  - by eexists _, _.
Qed.

Lemma skip_show v r : readable v -> skipWhitespace (show v ++ r) = show v ++ r.
Proof.
  intros (c & t & -> & Hc & _)%show_head. cbn [app skipWhitespace]. by rewrite Hc.
Qed.

Lemma parse_number_show n r :
  number_readable n = true -> delim r -> parse_number (show (VNum n) ++ r) = Ok (VNum n, r).
Proof.
  intros Hn Hr. unfold parse_number. destruct n as [| |z|d]; try done; cbn [show].
  - rewrite (match_number_app _ r _ _ Hr (match_number_int z)). cbn in Hn. by rewrite Number_int.
  - rewrite (match_number_app _ r _ _ Hr (double_literal d)). cbn [app].
    unfold Number_. by rewrite double_not_safe, double_parse_print.
Qed.

Lemma parse_scalar_number n r :
  number_readable n = true -> delim r -> parse_scalar (show (VNum n) ++ r) = Ok (VNum n, r).
Proof.
  intros Hn Hr. rewrite <- (parse_number_show n r) by done.
  destruct (show_number_head n Hn) as (c & t & -> & Hc).
  apply number_head in Hc as (_ & _ & _ & H1 & H2 & H3 & H4 & _).
  unfold parse_scalar. change (u "true") with [116; 114; 117; 101]%N.
  change (u "false") with [102; 97; 108; 115; 101]%N. change (u "null") with [110; 117; 108; 108]%N.
  cbn [app startsWith]. rewrite (N.eqb_sym 34 c), H1. cbn [andb].
  by rewrite (N.eqb_sym 116 c), H2, (N.eqb_sym 102 c), H3, (N.eqb_sym 110 c), H4.
Qed.

Lemma skip_nonspace c t : is_json_space c = false -> skipWhitespace (c :: t) = c :: t.
Proof. intros Hc. cbn [skipWhitespace]. by rewrite Hc. Qed.

Lemma head_is_same c t : head_is c (c :: t) = true.
Proof. unfold head_is. cbn. by rewrite N.eqb_refl. Qed.

Lemma join_unit_cons c p ps : ps <> [] -> join_unit c (p :: ps) = p ++ c :: join_unit c ps.
Proof. by destruct ps. Qed.

(** Reading one value back, the property proved of every subvalue. *)
Definition reads (v : jsvalue) : Prop :=
  forall fuel r, length (show v) <= fuel -> delim r ->
    parse_value assign fuel (show v ++ r) = Ok (v, r).

Lemma parse_items_show items done fuel r :
  items <> [] -> Forall readable items -> Forall reads items ->
  length (join_unit COMMA (map show items)) + 1 <= fuel ->
  parse_items assign fuel done (join_unit COMMA (map show items) ++ 93%N :: r) =
  Ok (VArr (done ++ items), r).
Proof.
  revert done fuel. induction items as [|x items IH]; [done|]. intros done fuel _ Hg Hr Hf.
  inversion_clear Hg as [|? ? Hgx Hg']. inversion_clear Hr as [|? ? Hrx Hr'].
  destruct (show_head x Hgx) as (c & t & Hx & Hc).
  destruct items as [|y items].
  - cbn [map join_unit] in *. destruct fuel as [|fuel]; [lia|]. rewrite Hx at 1.
    cbn [app parse_items]. change (c :: t ++ 93%N :: r) with ((c :: t) ++ 93%N :: r).
    rewrite <- Hx, Hrx by (cbn; auto; lia). done.
  - cbn [map] in *. rewrite join_unit_cons in * by done. rewrite length_app in Hf. cbn [length] in Hf.
    destruct fuel as [|fuel]; [lia|]. rewrite <- app_assoc. rewrite Hx at 1. cbn [app parse_items].
    match goal with |- context [c :: t ++ ?z] => change (c :: t ++ z) with ((c :: t) ++ z) end.
    rewrite <- Hx, Hrx by (cbn; auto; lia). cbn [rbind].
    rewrite skip_nonspace by done. rewrite head_is_same. cbn [drop]. rewrite ?drop_0.
    rewrite (IH (done ++ [x]) fuel) by (done || lia). by rewrite <- app_assoc.
Qed.

Definition show_member (kv : ustr * jsvalue) : ustr :=
  JSON_stringify_string (fst kv) ++ COLON :: show (snd kv).

Lemma parse_members_show fields seen object fuel r :
  fields <> [] ->
  Forall (fun kv => ok_key (fst kv) /\ hasUnpairedSurrogate (fst kv) = false /\ readable (snd kv)) fields ->
  Forall (fun kv => reads (snd kv)) fields ->
  NoDup (map fst (object ++ fields)) -> (forall k, k ∈ seen -> k ∈ map fst object) ->
  length (join_unit COMMA (map show_member fields)) + 1 <= fuel ->
  parse_members assign fuel seen object (join_unit COMMA (map show_member fields) ++ 125%N :: r) =
  Ok (VObj (object ++ fields), r).
Proof.
  revert seen object fuel. induction fields as [|[k x] fields IH]; [done|].
  intros seen object fuel _ Hg Hr Hn Hs Hf.
  inversion_clear Hg as [|? ? (Hp & Hk & Hgx) Hg']. inversion_clear Hr as [|? ? Hrx Hr'].
  cbn [fst snd] in *.
  assert (k ∉ map fst object) as Hko.
  { rewrite map_app in Hn. cbn in Hn. apply NoDup_app in Hn as (_ & Hd & _).
    intros Hin. apply (Hd k Hin). left. }
  assert (includes k seen = false) as Hseen by (apply includes_false; intros ?; by apply Hko, Hs).
  assert (forall z fuel', length (show x) <= fuel' -> delim z ->
    parse_members assign (S fuel') seen object (show_member (k, x) ++ z) =
    (let object := object ++ [(k, x)] in
     let cursor := skipWhitespace z in
     if head_is COMMA cursor then parse_members assign fuel' (k :: seen) object (drop 1 cursor)
     else if head_is 125 cursor then Ok (VObj object, drop 1 cursor)
     else Err EXPECTED_COMMA_BRACE)) as Hstep.
  { intros z fuel' Hlen Hz. unfold show_member. cbn [fst snd]. rewrite <- app_assoc.
    assert (exists t, JSON_stringify_string k = 34%N :: t) as [t Ht] by (by eexists).
    rewrite Ht at 1. cbn [app parse_members].
    match goal with |- context [34%N :: t ++ ?w] => change (34%N :: t ++ w) with ((34%N :: t) ++ w) end.
    rewrite <- Ht. rewrite Ht at 1. cbn [app]. rewrite skip_nonspace by done.
    match goal with |- context [34%N :: t ++ ?w] => change (34%N :: t ++ w) with ((34%N :: t) ++ w) end.
    rewrite <- Ht, parseJsonString_stringify by done. cbn [rbind]. rewrite Hseen.
    rewrite skip_nonspace by done. rewrite head_is_same. cbn [negb drop]. rewrite ?drop_0.
    rewrite Hrx by done. cbn [rbind]. by rewrite assign_fresh. }
  destruct fuel as [|fuel]; [lia|]. destruct fields as [|y fields].
  - cbn [map join_unit] in *. unfold show_member in Hf. cbn [fst snd] in Hf.
    rewrite length_app in Hf. cbn [length] in Hf. rewrite Hstep by (cbn; auto; lia). cbv zeta.
    rewrite skip_nonspace by done. done.
  - cbn [map] in *. rewrite join_unit_cons in * by done. rewrite length_app in Hf.
    unfold show_member at 1 in Hf. cbn [fst snd] in Hf. rewrite length_app in Hf. cbn [length] in Hf.
    rewrite <- app_assoc. cbn [app]. rewrite Hstep by (cbn; auto; lia). cbv zeta.
    rewrite skip_nonspace by done. rewrite head_is_same. cbn [drop]. rewrite ?drop_0.
    rewrite (IH (k :: seen) (object ++ [(k, x)]) fuel); try done.
    + by rewrite <- app_assoc.
    + by rewrite <- app_assoc.
    + intros k' [->|Hk']%elem_of_cons; rewrite map_app; set_solver.
    + lia.
Qed.

Lemma parse_show v : readable v -> reads v.
Proof.
  induction v as [| | | |b|n|s|items IH|fields IH] using jsvalue_ind'; try done; intros Hg fuel r Hf Hr;
    pose proof (skip_show _ r Hg) as Hskip; (destruct fuel as [|fuel]; [destruct (show_head _ Hg) as (c0 & t0 & E0 & _); rewrite E0 in Hf; cbn in Hf; lia|]);
    cbn [parse_value]; rewrite Hskip.
  - done.
  - by destruct b.
  - destruct (show_number_head n Hg) as (c & t & E & Hc). pose proof (parse_scalar_number n r Hg Hr) as Hn.
    rewrite E in *. apply number_head in Hc as (_ & H1 & H2 & _). cbn [app] in *. by rewrite H1, H2.
  - cbn [show app JSON_stringify_string]. cbn [N.eqb Pos.eqb]. unfold parse_scalar.
    cbn [startsWith N.eqb Pos.eqb andb].
    change (34%N :: (quote_body s ++ [34%N]) ++ r) with (JSON_stringify_string s ++ r).
    by rewrite parseJsonString_stringify.
  - cbn [readable] in Hg. apply foldr_and_Forall in Hg. cbn [show app N.eqb Pos.eqb] in *.
    destruct items as [|x items]; [done|]. rewrite <- app_assoc. cbn [app].
    inversion_clear Hg as [|? ? Hgx Hg'].
    destruct (show_head x Hgx) as (c & t & Hx & Hc & Hc' & _).
    assert (exists t', join_unit COMMA (map show (x :: items)) = c :: t') as [t' Ht'].
    { cbn [map]. destruct items; cbn [map]; [|rewrite join_unit_cons by done]; rewrite Hx; by eexists. }
    assert (skipWhitespace (join_unit COMMA (map show (x :: items)) ++ 93%N :: r) =
            join_unit COMMA (map show (x :: items)) ++ 93%N :: r) as ->.
    { rewrite Ht'. cbn [app]. by apply skip_nonspace. }
    assert (head_is 93 (join_unit COMMA (map show (x :: items)) ++ 93%N :: r) = false) as ->.
    { rewrite Ht'. unfold head_is. cbn [app startsWith]. rewrite (proj2 (N.eqb_neq 93 c)) by congruence. done. }
    apply parse_items_show; [done | by constructor | | ].
    + apply Forall_forall. intros y Hy. rewrite Forall_forall in IH. apply IH; [done|].
      revert y Hy. apply Forall_forall. by constructor.
    + cbn [length] in Hf. rewrite length_app in Hf. cbn [length] in Hf. lia.
  - cbn [readable] in Hg. destruct Hg as (Hn & Hg). apply foldr_and_Forall in Hg.
    cbn [show app N.eqb Pos.eqb] in *. fold show_member in *. destruct fields as [|[k x] fields]; [done|].
    rewrite <- app_assoc. cbn [app].
    assert (exists t', join_unit COMMA (map show_member ((k, x) :: fields)) = 34%N :: t') as [t' Ht'].
    { cbn [map]. destruct fields; cbn [map]; [|rewrite join_unit_cons by done]; by eexists. }
    change (map (fun kv => JSON_stringify_string (fst kv) ++ COLON :: show (snd kv)))
      with (map show_member) in *.
    rewrite Ht'. cbn [app]. rewrite skip_nonspace by done.
    change (head_is 125 (34%N :: t' ++ 125%N :: r)) with false. cbv iota.
    change (34%N :: t' ++ 125%N :: r) with ((34%N :: t') ++ 125%N :: r). rewrite <- Ht'.
    rewrite (parse_members_show _ [] [] fuel); try done.
    + apply Forall_forall. intros kv Hkv. rewrite Forall_forall in IH, Hg. apply IH; [done|].
      by apply Hg.
    + cbn [length] in Hf. rewrite length_app in Hf. cbn [length] in Hf. lia.
Qed.

End Reading.

(** ** Normal forms *)

(** No own property with a name [P] anywhere. *)
Fixpoint keys_ok (P : ustr -> Prop) (v : jsvalue) : Prop :=
  match v with
  | VArr items => foldr (fun x Q => keys_ok P x /\ Q) True items
  | VObj fields => foldr (fun kv Q => (P (fst kv) /\ keys_ok P (snd kv)) /\ Q) True fields
  | _ => True
  end.

Lemma keys_ok_true v : keys_ok (fun _ => True) v.
Proof.
  induction v as [| | | | | | |items IH|fields IH] using jsvalue_ind'; try done; cbn [keys_ok];
    rewrite foldr_and_Forall; [done|]. eapply Forall_impl; [exact IH|]. done.
Qed.

Lemma norm_readable P a v :
  js_wf v -> printable a v = true -> keys_ok P v -> readable P (norm v).
Proof.
  induction v as [| | | |b|n|s|items IH|fields IH] using jsvalue_ind'; intros Hw Hp Hk; try done.
  - destruct n; try done.
  - cbn in *. by apply negb_true_iff in Hp.
  - cbn [js_wf printable keys_ok norm readable] in *. rewrite foldr_and_Forall in *.
    rewrite forallb_forall in Hp. rewrite Forall_forall in *. intros y Hy.
    apply list_elem_of_fmap in Hy as (x & -> & Hx). apply IH; auto.
    apply Hp. by apply list_elem_of_In.
  - cbn [js_wf printable keys_ok norm readable] in *. destruct Hw as [Hn Hw].
    rewrite foldr_and_Forall in *. rewrite forallb_forall in Hp. split.
    + rewrite sort_by_perm, map_map. done.
    + rewrite Forall_forall in *. intros y. rewrite elem_of_sort_by.
      intros ([k x] & -> & Hx)%list_elem_of_fmap. cbn [fst snd].
      pose proof (Hp _ (proj1 (list_elem_of_In _ _) Hx)) as Hp'. cbn [fst snd] in Hp'.
      apply andb_true_iff in Hp' as [H1%negb_true_iff H2].
      destruct (Hk _ Hx) as [Hk1 Hk2]. split_and!; [done | done |].
      apply (IH _ Hx); [by apply Hw in Hx | done | done].
Qed.

Lemma sort_by_idem {V} (l : list (ustr * V)) :
  NoDup (map fst l) -> sort_by key_leb (sort_by key_leb l) = sort_by key_leb l.
Proof. intros Hn. apply sort_perm_eq; [by rewrite sort_by_perm | apply sort_by_perm]. Qed.

Lemma norm_idem v : js_wf v -> norm (norm v) = norm v.
Proof.
  induction v as [| | | |b|n|s|items IH|fields IH] using jsvalue_ind'; intros Hw; try done.
  - by destruct n.
  - cbn [js_wf norm] in *. rewrite foldr_and_Forall in Hw. f_equal. rewrite map_map.
    apply map_ext_in. intros x Hx%list_elem_of_In. rewrite Forall_forall in *. by apply IH, Hw.
  - cbn [js_wf norm] in *. destruct Hw as [Hn Hw]. rewrite foldr_and_Forall in Hw. f_equal.
    set (nf := fun kv : ustr * jsvalue => (fst kv, norm (snd kv))).
    rewrite <- (map_sort_by nf (map nf fields)) || rewrite (map_sort_by nf (map nf fields)) by done.
    rewrite map_map. erewrite (map_ext_in _ nf).
    2: { intros [k x] Hx%list_elem_of_In. unfold nf. cbn [fst snd]. f_equal.
         rewrite Forall_forall in *. apply (IH _ Hx (Hw _ Hx)). }
    apply sort_by_idem. subst nf. by rewrite map_map.
Qed.

Lemma norm_wf v : js_wf v -> js_wf (norm v).
Proof.
  induction v as [| | | |b|n|s|items IH|fields IH] using jsvalue_ind'; intros Hw; try done.
  - by destruct n.
  - cbn [js_wf norm] in *. rewrite foldr_and_Forall in *. rewrite Forall_forall in *.
    intros y (x & -> & Hx)%list_elem_of_fmap. by apply IH, Hw.
  - cbn [js_wf norm] in *. destruct Hw as [Hn Hw]. rewrite foldr_and_Forall in *. split.
    + by rewrite sort_by_perm, map_map.
    + rewrite Forall_forall in *. intros y. rewrite elem_of_sort_by.
      intros ([k x] & -> & Hx)%list_elem_of_fmap. by apply (IH _ Hx (Hw _ Hx)).
Qed.

Lemma norm_printable a v : printable a v = true -> printable a (norm v) = true.
Proof.
  induction v as [| | | |b|n|s|items IH|fields IH] using jsvalue_ind'; intros Hp; try done.
  - by destruct n.
  - cbn [printable norm] in *. rewrite forallb_forall in *. rewrite Forall_forall in IH.
    intros y (x & <- & Hx)%in_map_iff. apply IH; [by apply list_elem_of_In | by apply Hp].
  - cbn [printable norm] in *. rewrite forallb_forall in *. rewrite Forall_forall in IH.
    intros y. rewrite <- list_elem_of_In, elem_of_sort_by.
    intros ([k x] & -> & Hx)%list_elem_of_fmap. cbn [fst snd].
    pose proof (Hp _ (proj1 (list_elem_of_In _ _) Hx)) as Hp'. cbn [fst snd] in Hp'.
    apply andb_true_iff in Hp' as [-> H2]. by apply (IH _ Hx).
Qed.

Lemma show_norm_inj v w :
  js_wf v -> js_wf w -> printable true v = true -> printable true w = true ->
  show (norm v) = show (norm w) -> norm v = norm w.
Proof.
  intros Hv Hw Pv Pw E.
  assert (forall k (x : jsvalue) m, True -> k ∉ map fst m -> JsMap.set k x m = m ++ [(k, x)]) as Hset
    by (intros; by apply set_absent).
  assert (forall x, js_wf x -> printable true x = true -> reads JsMap.set (norm x)) as Hread.
  { intros x Hx Px. apply (parse_show _ (fun _ => True) Hset), (norm_readable _ true); try done.
    apply keys_ok_true. }
  pose proof (Hread v Hv Pv (length (show (norm v))) [] ltac:(lia) I) as Rv.
  pose proof (Hread w Hw Pw (length (show (norm w))) [] ltac:(lia) I) as Rw.
  rewrite E in Rv. congruence.
Qed.

Lemma printable_mono v : printable false v = true -> printable true v = true.
Proof.
  induction v as [| | | |b|n|s|items IH|fields IH] using jsvalue_ind'; intros Hp; try done.
  - by destruct n.
  - cbn [printable] in *. rewrite forallb_forall in *. rewrite Forall_forall in IH.
    intros x Hx. apply IH; [by apply list_elem_of_In | by apply Hp].
  - cbn [printable] in *. rewrite forallb_forall in *. rewrite Forall_forall in IH.
    intros [k x] Hx. pose proof (Hp _ Hx) as Hp'. cbn [fst snd] in *.
    apply andb_true_iff in Hp' as [-> H2]. apply (IH (k, x)); [by apply list_elem_of_In | done].
Qed.

Lemma obj_assign_fresh k v m : k <> PROTO -> k ∉ map fst m -> obj_assign k v m = m ++ [(k, v)].
Proof. intros Hp Hk. unfold obj_assign. rewrite bool_decide_false by done. by apply set_absent. Qed.

Lemma parseCanonical_show v :
  readable (fun k => k <> PROTO) v -> parseCanonicalJsonText (show v) = Ok v.
Proof.
  intros Hr. pose proof (parse_show _ _ obj_assign_fresh v Hr (2 * length (show v) + 1) [] ltac:(lia) I) as R.
  rewrite app_nil_r in R. unfold parseCanonicalJsonText, parseJsonValue.
  destruct (show_head _ v Hr) as (c & t & E & _ & _ & _ & Hb). rewrite E in *.
  rewrite (proj2 (N.eqb_neq _ _) Hb), R. done.
Qed.

(** C23: canonical text determines the value: two values with the same canonical text are equal up
    to the order of object keys and the sign of zero, so a digest of canonical text collides only
    when the hash does. *)
Theorem canonicalize_injective v w t :
  js_wf v -> js_wf w -> canonicalize v = Ok t -> canonicalize w = Ok t -> norm v = norm w.
Proof.
  intros Hv Hw Ev Ew.
  pose proof (walk_ok_printable _ _ _ Hv Ev) as Pv. pose proof (walk_ok_printable _ _ _ Hw Ew) as Pw.
  unfold canonicalize in *. rewrite (walk_printable_ok false v Hv Pv) in Ev.
  rewrite (walk_printable_ok false w Hw Pw) in Ew.
  apply show_norm_inj; auto using printable_mono. congruence.
Qed.

(** C24: canonical text reads back as the value in normal form, and is already canonical, for
    values in which no object has a property named [__proto__]; a member with that name is lost when
    the text is read. *)
Theorem canonicalize_roundtrip v t :
  js_wf v -> keys_ok (fun k => k <> PROTO) v -> canonicalize v = Ok t ->
  parseCanonicalJsonText t = Ok (norm v) /\ canonicalizeJsonText t false = Ok t.
Proof.
  intros Hv Hk Ev. pose proof (walk_ok_printable _ _ _ Hv Ev) as Pv.
  unfold canonicalize in *. rewrite (walk_printable_ok false v Hv Pv) in Ev. injection Ev as <-.
  pose proof (parseCanonical_show _ (norm_readable _ _ _ Hv Pv Hk)) as R. split; [done|].
  unfold canonicalizeJsonText. rewrite R. cbn [rbind].
  rewrite walk_printable_ok by (auto using norm_wf, norm_printable). by rewrite norm_idem.
Qed.

(** The printer accepts a value exactly when it is JSON with paired surrogates only, finite
    numbers, and no integer outside the safe range; numbers outside it are accepted only by the
    plain RFC 8785 variant. *)
Theorem canonicalize_accepts a v : js_wf v -> is_ok (walk a v) = printable a v.
Proof.
  intros Hv. destruct (printable a v) eqn:Hp.
  - by rewrite walk_printable_ok.
  - destruct (walk a v) as [t|] eqn:E; [|done]. apply walk_ok_printable in E; [congruence | done].
Qed.

Lemma get_perm {K V} `{EqDecision K} (l m : list (K * V)) k :
  NoDup (map fst l) -> l ≡ₚ m -> JsMap.get k l = JsMap.get k m.
Proof.
  intros Hn Hp. assert (NoDup (JsMap.keys m)) as Hm by (unfold JsMap.keys; by rewrite <- Hp).
  destruct (JsMap.get k l) as [v|] eqn:E.
  - apply JsMap.get_some_elem in E. rewrite Hp in E. symmetry. by apply JsMap.elem_get.
  - apply JsMap.get_none in E. unfold JsMap.keys in E. rewrite Hp in E. symmetry. by apply JsMap.get_none.
Qed.

(** The order in which an object's properties were created never matters, neither for the
    text nor for the error that is thrown. *)
Theorem canonicalize_key_order a fs gs :
  NoDup (map fst fs) -> fs ≡ₚ gs -> walk a (VObj fs) = walk a (VObj gs).
Proof.
  intros Hn Hp. cbn [walk]. rewrite !sort_keys.
  rewrite (sort_perm_eq fs gs) by done. f_equal.
  generalize (map fst (sort_by key_leb gs)) as ks. intros ks. induction ks as [|k ks IH]; [done|].
  cbn [rmap]. rewrite IH. f_equal. unfold print_member.
  erewrite (get_perm (map _ fs)); [reflexivity | by rewrite map_map | by rewrite Hp].
Qed.
End Canonical.

(** ** The parser's fuel *)

Section Fuel.
Context `{Doubles}.
Context (assign : ustr -> jsvalue -> list (ustr * jsvalue) -> list (ustr * jsvalue)).

Lemma skip_len s : length (skipWhitespace s) <= length s.
Proof. induction s as [|c s IH]; [done|]. cbn [skipWhitespace]. destruct (is_json_space c); cbn; lia. Qed.

Lemma scan_string_len s raw r : scan_string s = Ok (raw, r) -> length r < length s.
Proof.
  remember (length s) as n eqn:Hn. assert (length s <= n) as Hle by lia. rewrite Hn. clear Hn.
  revert s raw Hle. induction n as [|n IH]; intros [|c s] raw Hle; cbn [length] in Hle; try lia; try done.
  cbn [scan_string]. destruct (c =? 92)%N.
  - destruct s as [|d s]; [done|]. intros Hs. apply rbind_ok in Hs as ([raw' r'] & Hs & [= _ <-]).
    cbn [length] in *. apply IH in Hs; lia.
  - destruct (c =? 34)%N; [intros [= _ <-]; cbn; lia|].
    intros Hs. apply rbind_ok in Hs as ([raw' r'] & Hs & [= _ <-]). apply IH in Hs; cbn; lia.
Qed.

Lemma parseJsonString_len t s r : parseJsonString t = Ok (s, r) -> length r < length t.
Proof.
  destruct t as [|c t]; [done|]. cbn [parseJsonString]. destruct (c =? 34)%N; [|done]. cbn [negb].
  intros Hs. apply rbind_ok in Hs as ([raw r'] & Hs & Hr).
  destruct (json_unescape raw); [|done]. apply rbind_ok in Hr as (_ & _ & [= _ <-]).
  apply scan_string_len in Hs. cbn. lia.
Qed.

Lemma span_digits_len s a b : span_digits s = (a, b) -> length b <= length s.
Proof.
  revert a b. induction s as [|c s IH]; intros a b; cbn [span_digits]; [by intros [= _ <-]|].
  destruct (is_digit c); [|by intros [= _ <-]].
  destruct (span_digits s) as [a' b'] eqn:E. intros [= _ <-]. specialize (IH _ _ eq_refl). cbn. lia.
Qed.

Lemma match_number_len s m r : match_number s = Some (m, r) -> length r < length s.
Proof.
  assert (forall s a b, match_fraction s = (a, b) -> length b <= length s) as Hf.
  { intros [|c t] a b; cbn [match_fraction]; [by intros [= _ <-]|].
    destruct (c =? DOT)%N; [|by intros [= _ <-]].
    destruct (span_digits t) as [x y] eqn:E. apply span_digits_len in E.
    destruct x; intros [= _ <-]; cbn; lia. }
  assert (forall s a b, match_exponent s = (a, b) -> length b <= length s) as He.
  { intros [|c t] a b; cbn [match_exponent]; [by intros [= _ <-]|].
    destruct (_ || _); [|by intros [= _ <-]].
    assert (exists sg t', match t with
      | x :: w => if (x =? 43)%N || (x =? 45)%N then ([x], w) else ([], t)
      | [] => ([], t) end = (sg, t') /\ length t' <= length t) as (sg & t' & -> & Ht).
    { destruct t as [|x w]; [by eexists _, _|]. destruct (_ || _); eexists _, _; split; [done|cbn; lia|done|done]. }
    destruct (span_digits t') as [x y] eqn:E. apply span_digits_len in E.
    destruct x; intros [= _ <-]; cbn; lia. }
  unfold match_number. intros Hm.
  assert (exists sg s1, match s with
      | c :: w => if (c =? 45)%N then ([45%N], w) else ([], s) | [] => ([], s) end = (sg, s1) /\
    length s1 <= length s) as (sg & s1 & E1 & L1).
  { destruct s as [|x w]; [by exists [], []|]. destruct (x =? 45)%N; eexists _, _; split; [done|cbn; lia|done|done]. }
  rewrite E1 in Hm. clear E1. destruct s1 as [|c s1]; [done|].
  assert (exists ip s2, (if (c =? 48)%N then Some ([48%N], s1)
      else if is_digit c then Some (span_digits (c :: s1)) else None) = Some (ip, s2) /\
    length s2 < length (c :: s1)) as (ip & s2 & E2 & L2).
  { destruct (c =? 48)%N; [eexists _, _; split; [done | cbn; lia]|].
    destruct (is_digit c) eqn:Hd; [|done]. cbn [span_digits]. rewrite Hd.
    destruct (span_digits s1) as [x y] eqn:E. apply span_digits_len in E.
    eexists _, _; split; [done | cbn; lia]. }
  rewrite E2 in Hm. destruct (match_fraction s2) as [fp s3] eqn:E3. apply Hf in E3.
  destruct (match_exponent s3) as [ep s4] eqn:E4. apply He in E4. injection Hm as _ <-. lia.
Qed.

Lemma startsWith_length p s : startsWith p s = true -> length p <= length s.
Proof.
  revert s. induction p as [|a p IH]; intros [|b s]; cbn; try lia; try done.
  intros [_ Hs]%andb_true_iff. apply IH in Hs. lia.
Qed.

Lemma parse_scalar_len t v r : parse_scalar t = Ok (v, r) -> length r < length t.
Proof.
  unfold parse_scalar. destruct (startsWith [34%N] t).
  { intros Hs. apply rbind_ok in Hs as ([s r'] & Hs & [= _ <-]). by eapply parseJsonString_len. }
  destruct (startsWith (u "true") t) eqn:E1.
  { apply startsWith_length in E1. cbn in E1. intros [= _ <-]. rewrite length_drop. lia. }
  destruct (startsWith (u "false") t) eqn:E2.
  { apply startsWith_length in E2. cbn in E2. intros [= _ <-]. rewrite length_drop. lia. }
  destruct (startsWith (u "null") t) eqn:E3.
  { apply startsWith_length in E3. cbn in E3. intros [= _ <-]. rewrite length_drop. lia. }
  unfold parse_number. destruct (match_number t) as [[m r']|] eqn:Hm; [|done].
  apply match_number_len in Hm. destruct (Number_ m); [done|..]; by intros [= _ <-].
Qed.

Lemma drop1_len c s : head_is c s = true -> length (drop 1 s) < length s.
Proof. destruct s; [done|]. rewrite length_drop. cbn. lia. Qed.

Lemma parse_len fuel :
  (forall t v r, parse_value assign fuel t = Ok (v, r) -> length r < length t) /\
  (forall seen o c v r, parse_members assign fuel seen o c = Ok (v, r) -> length r < length c) /\
  (forall xs c v r, parse_items assign fuel xs c = Ok (v, r) -> length r < length c).
Proof.
  induction fuel as [|fuel (IHv & IHm & IHi)]; [done|].
  split_and!.
  - intros t v r. cbn [parse_value]. pose proof (skip_len t) as Hs.
    destruct (skipWhitespace t) as [|c t']; [done|]. cbn [length] in Hs. pose proof (skip_len t') as Hs'.
    destruct (c =? 123)%N; [|destruct (c =? 91)%N; [|intros Hp; apply parse_scalar_len in Hp; cbn in Hp; lia]];
      (destruct (head_is _ (skipWhitespace t')) eqn:E;
       [intros [= _ <-]; apply drop1_len in E; lia | intros Hp; (apply IHm in Hp || apply IHi in Hp); lia]).
  - intros seen o c v r. cbn [parse_members]. destruct c as [|c0 c']; [done|]. set (c := c0 :: c').
    intros Hp. apply rbind_ok in Hp as ([k n] & Hk & Hp). apply parseJsonString_len in Hk.
    pose proof (skip_len c). pose proof (skip_len n).
    destruct (includes k seen); [done|]. destruct (negb _) eqn:Hc in Hp; [done|].
    apply negb_false_iff, drop1_len in Hc.
    apply rbind_ok in Hp as ([w n'] & Hv & Hp). apply IHv in Hv.
    pose proof (skip_len n').
    destruct (head_is COMMA (skipWhitespace n')) eqn:E1; [|destruct (head_is 125 _) eqn:E2; [|done]].
    + apply IHm in Hp. apply drop1_len in E1. lia.
    + injection Hp as _ <-. apply drop1_len in E2. lia.
  - intros xs c v r. cbn [parse_items]. destruct c as [|c0 c']; [done|]. set (c := c0 :: c').
    intros Hp. apply rbind_ok in Hp as ([w n'] & Hv & Hp). apply IHv in Hv. pose proof (skip_len n').
    destruct (head_is COMMA (skipWhitespace n')) eqn:E1; [|destruct (head_is 93 _) eqn:E2; [|done]].
    + apply IHi in Hp. apply drop1_len in E1. lia.
    + injection Hp as _ <-. apply drop1_len in E2. lia.
Qed.

Lemma scan_no_fuel s e : scan_string s = Err e -> e <> PARSER_FUEL.
Proof.
  remember (length s) as n eqn:Hn. assert (length s <= n) as Hle by lia. clear Hn.
  revert s Hle. induction n as [|n IH]; intros [|c s] Hle; cbn [length] in Hle;
    cbn [scan_string]; try lia; try (by intros [= <-]).
  destruct (c =? 92)%N; [destruct s as [|d s]; [by intros [= <-]|]|destruct (c =? 34)%N; [done|]];
    destruct (scan_string s) as [[raw r]|e''] eqn:E; cbn [rbind]; try done; intros [= <-];
    (eapply IH; [|exact E]); cbn in *; lia.
Qed.

Lemma string_no_fuel s e : parseJsonString s = Err e -> e <> PARSER_FUEL.
Proof.
  destruct s as [|c s]; cbn [parseJsonString]; [by intros [= <-]|].
  destruct (c =? 34)%N; cbn [negb]; [|by intros [= <-]].
  destruct (scan_string s) as [[raw r]|e''] eqn:E; cbn [rbind]; [|intros [= <-]; by eapply scan_no_fuel].
  destruct (json_unescape raw); [|by intros [= <-]]. unfold rejectUnpairedSurrogates.
  destruct (hasUnpairedSurrogate _); cbn; [by intros [= <-] | done].
Qed.

Lemma scalar_no_fuel t e : parse_scalar t = Err e -> e <> PARSER_FUEL.
Proof.
  unfold parse_scalar. destruct (startsWith [34%N] t).
  { destruct (parseJsonString t) as [[s r]|e'] eqn:E; cbn [rbind]; [done|]. intros [= <-]. by eapply string_no_fuel. }
  destruct (startsWith _ t); [done|]. destruct (startsWith _ t); [done|]. destruct (startsWith _ t); [done|].
  unfold parse_number. destruct (match_number t) as [[m r]|]; [|by intros [= <-]].
  destruct (Number_ m); [by intros [= <-]|done..].
Qed.

Lemma parse_members_S fuel seen o c0 c' :
  parse_members assign (S fuel) seen o (c0 :: c') =
  (let? '(key, next) := parseJsonString (skipWhitespace (c0 :: c')) in
   throw_if includes key seen with DUPLICATE_KEY;
   let cursor := skipWhitespace next in
   throw_if negb (head_is COLON cursor) with EXPECTED_COLON;
   let? '(v, next) := parse_value assign fuel (drop 1 cursor) in
   let object := assign key v o in
   let cursor := skipWhitespace next in
   if head_is COMMA cursor then parse_members assign fuel (key :: seen) object (drop 1 cursor)
   else if head_is 125 cursor then Ok (VObj object, drop 1 cursor)
   else Err EXPECTED_COMMA_BRACE).
Proof. done. Qed.

Lemma parse_items_S fuel xs c0 c' :
  parse_items assign (S fuel) xs (c0 :: c') =
  (let? '(v, next) := parse_value assign fuel (c0 :: c') in
   let cursor := skipWhitespace next in
   if head_is COMMA cursor then parse_items assign fuel (xs ++ [v]) (drop 1 cursor)
   else if head_is 93 cursor then Ok (VArr (xs ++ [v]), drop 1 cursor)
   else Err EXPECTED_COMMA_BRACKET).
Proof. done. Qed.

Lemma parse_fuel fuel :
  (forall t, 2 * length t + 1 <= fuel -> parse_value assign fuel t <> Err PARSER_FUEL) /\
  (forall seen o c, 2 * length c + 2 <= fuel -> parse_members assign fuel seen o c <> Err PARSER_FUEL) /\
  (forall xs c, 2 * length c + 2 <= fuel -> parse_items assign fuel xs c <> Err PARSER_FUEL).
Proof.
  induction fuel as [|fuel (IHv & IHm & IHi)]; [split_and!; intros; lia|].
  destruct (parse_len fuel) as (Lv & _ & _). split_and!.
  - intros t Hf. cbn [parse_value]. pose proof (skip_len t) as Hs.
    destruct (skipWhitespace t) as [|c t']; [done|]. cbn [length] in Hs. pose proof (skip_len t') as Hs'.
    destruct (c =? 123)%N; [destruct (head_is _ _); [done | apply IHm; lia]|].
    destruct (c =? 91)%N; [destruct (head_is _ _); [done | apply IHi; lia]|].
    intros He. by apply scalar_no_fuel in He.
  - intros seen o c Hf. destruct c as [|c0 c']; [done|]. rewrite parse_members_S. set (c := c0 :: c') in *.
    destruct (parseJsonString _) as [[k n]|e] eqn:Hk; cbn [rbind];
      [|intros [= ->]; by apply string_no_fuel in Hk].
    apply parseJsonString_len in Hk. pose proof (skip_len c). pose proof (skip_len n).
    cbv zeta. destruct (includes k seen); [done|]. destruct (negb _) eqn:Hc; [done|].
    apply negb_false_iff, drop1_len in Hc.
    destruct (parse_value assign fuel _) as [[w n']|e] eqn:Hv; cbn [rbind];
      [|intros [= ->]; revert Hv; apply IHv; lia].
    apply Lv in Hv. pose proof (skip_len n').
    destruct (head_is COMMA _) eqn:E1; [apply drop1_len in E1; apply IHm; lia|].
    by destruct (head_is 125 _).
  - intros xs c Hf. destruct c as [|c0 c']; [done|]. rewrite parse_items_S. set (c := c0 :: c') in *.
    destruct (parse_value assign fuel _) as [[w n']|e] eqn:Hv; cbn [rbind];
      [|intros [= ->]; revert Hv; apply IHv; lia].
    apply Lv in Hv. pose proof (skip_len n').
    destruct (head_is COMMA _) eqn:E1; [apply drop1_len in E1; apply IHi; lia|].
    by destruct (head_is 93 _).
Qed.
End Fuel.

(** The parser terminates on every text: its recursion never exhausts the fuel given to it. *)
Theorem parseCanonicalJsonText_terminates `{Doubles} t :
  parseCanonicalJsonText t <> Err PARSER_FUEL.
Proof.
  unfold parseCanonicalJsonText. destruct t as [|c t']; [done|]. set (t := c :: t').
  destruct (c =? 65279)%N; [done|]. unfold parseJsonValue.
  destruct (parse_value _ _ t) as [[v r]|e] eqn:E; cbn [rbind].
  - by case_bool_decide.
  - intros [= ->]. revert E. apply parse_fuel. lia.
Qed.

Lemma parse_proto_object `{DoublesLaws} v :
  readable (fun k => k <> PROTO) v ->
  parseCanonicalJsonText (show (VObj [(PROTO, v)])) = Ok (VObj []).
Proof.
  intros Hv. cbn [show map join_unit fst snd]. unfold parseCanonicalJsonText.
  change (123 =? 65279)%N with false. cbv iota. rewrite <- app_assoc.
  set (txt := 123%N :: _).
  assert (exists f, 2 * length txt + 1 = S (S f) /\ length (show v) <= f) as (f & Hf & Hlen).
  { exists (2 * length txt - 1). subst txt. cbn [length]. rewrite length_app. cbn [length app].
    rewrite length_app. lia. }
  rewrite Hf. subst txt. unfold parseJsonValue.
  assert (forall k r, parse_value obj_assign (S (S f)) (123%N :: JSON_stringify_string k ++ r) =
    parse_members obj_assign (S f) [] [] (JSON_stringify_string k ++ r)) as -> by done.
  assert (exists t, JSON_stringify_string PROTO = 34%N :: t) as [q Hq] by (by eexists).
  rewrite Hq. cbn [app]. rewrite parse_members_S.
  cbn [app]. change (34%N :: q ++ COLON :: show v ++ [125%N])
    with ((34%N :: q) ++ COLON :: show v ++ [125%N]).
  rewrite <- Hq.
  assert (skipWhitespace (JSON_stringify_string PROTO ++ COLON :: show v ++ [125%N]) =
          JSON_stringify_string PROTO ++ COLON :: show v ++ [125%N]) as -> by done.
  rewrite parseJsonString_stringify by (by vm_compute). cbn [rbind]. cbv zeta.
  change (includes PROTO []) with false. cbv iota.
  rewrite skip_nonspace, head_is_same by done. cbn [negb drop]. rewrite ?drop_0.
  rewrite (parse_show _ _ obj_assign_fresh v Hv f [125%N]) by (cbn; auto). done.
Qed.

(** The parser loses a property named [__proto__]: the canonical text of an object whose only
    member has that name is read back and printed as the text of the empty object. *)
Theorem proto_member_lost `{DoublesLaws} v t :
  js_wf v -> keys_ok (fun k => k <> PROTO) v -> canonicalize (VObj [(PROTO, v)]) = Ok t ->
  t <> u "{}" /\ canonicalizeJsonText t false = Ok (u "{}").
Proof.
  intros Hw Hk Hc.
  assert (js_wf (VObj [(PROTO, v)])) as Hw' by (cbn; split_and!; try done; apply NoDup_singleton).
  pose proof (walk_ok_printable _ _ _ Hw' Hc) as Hp.
  unfold canonicalize in Hc. rewrite (walk_printable_ok false _ Hw' Hp) in Hc.
  assert (t = show (VObj [(PROTO, norm v)])) as ->
    by (by apply (f_equal (fun r => match r with Ok x => x | Err _ => t end)) in Hc).
  cbn [printable forallb fst snd] in Hp. rewrite andb_true_r in Hp. apply andb_true_iff in Hp as [_ Hp].
  split; [done|].
  unfold canonicalizeJsonText. by rewrite (parse_proto_object (norm v)) by (eapply norm_readable; eauto).
Qed.

#[local] Existing Instance half_doubles.
#[local] Existing Instance half_laws.

Definition other_value : jsvalue :=
  VObj [(u "", VObj []); (u "a", VStr (34 :: 10 :: u "x")%N);
        (u "b", VArr [VNum (SafeInt (-12)); VNum (Double tt); VBool true])].

Lemma sample_wf : js_wf sample_value.
Proof. cbn. repeat split; repeat constructor; set_solver. Qed.

Lemma other_wf : js_wf other_value.
Proof. cbn. repeat split; repeat constructor; set_solver. Qed.

Lemma canonicalize_injective_witness : norm sample_value = norm other_value.
Proof.
  apply (canonicalize_injective sample_value other_value
    (match canonicalize sample_value with Ok t => t | Err _ => [] end));
    [apply sample_wf | apply other_wf | vm_compute; reflexivity..].
Defined.

Lemma canonicalize_roundtrip_witness :
  exists t, canonicalize sample_value = Ok t /\ parseCanonicalJsonText t = Ok (norm sample_value).
Proof.
  exists (match canonicalize sample_value with Ok t => t | Err _ => [] end).
  split; [vm_compute; reflexivity|].
  apply (canonicalize_roundtrip sample_value); [apply sample_wf | | vm_compute; reflexivity].
  cbn. repeat split; discriminate.
Defined.

Lemma canonicalize_accepts_witness : is_ok (walk false sample_value) = true.
Proof. rewrite (canonicalize_accepts false sample_value sample_wf). vm_compute. reflexivity. Defined.

Lemma canonicalize_key_order_witness :
  walk false (VObj [(u "a", VNull); (u "b", VHole)]) = walk false (VObj [(u "b", VHole); (u "a", VNull)]).
Proof.
  apply (canonicalize_key_order false); [repeat constructor; set_solver | apply Permutation_swap].
Defined.

Lemma proto_member_lost_witness :
  canonicalizeJsonText (123 :: JSON_stringify_string PROTO ++ u ":1}")%N false = Ok (u "{}").
Proof.
  apply (proto_member_lost (VNum (SafeInt 1))); [reflexivity | exact I | vm_compute; reflexivity].
Defined.
