(* ===== verification/JsJson.v ===== *)
(** Lemmas on JavaScript text shared by the security components: splitting and joining on one unit,
    replacement of one or two units, trimming, and decimal integers. *)

From Stdlib Require Import String ZifyBool SpecFloat.
From S2P Require Import Prelude JsText CanonicalJson CanonicalJsonTheorems.
Open Scope list_scope.

(** ** Splitting and joining *)

Lemma split_unit_nil_sep c a : c ∉ a -> split_unit c a = [a].
Proof.
  induction a as [|x a IH]; intros Hc; cbn; [done|]. destruct (N.eqb_spec x c) as [->|Hx]; [set_solver|].
  rewrite IH by set_solver. done.
Qed.

Lemma split_unit_app c a b : c ∉ a -> split_unit c (a ++ c :: b) = a :: split_unit c b.
Proof.
  induction a as [|x a IH]; intros Hc; cbn; [by rewrite N.eqb_refl|].
  destruct (N.eqb_spec x c) as [->|Hx]; [set_solver|]. rewrite IH by set_solver. done.
Qed.

Lemma split_join c ps : ps <> [] -> Forall (fun p => c ∉ p) ps -> split_unit c (join_unit c ps) = ps.
Proof.
  induction ps as [|p ps IH]; intros Hne Hc; [done|]. apply Forall_cons in Hc as [Hp Hps].
  destruct ps as [|q ps]; [by apply split_unit_nil_sep|].
  rewrite join_unit_cons by done. rewrite split_unit_app by done. f_equal. by apply IH.
Qed.

Lemma join_unit_inj c ps qs :
  ps <> [] -> qs <> [] -> Forall (fun p => c ∉ p) ps -> Forall (fun p => c ∉ p) qs ->
  join_unit c ps = join_unit c qs -> ps = qs.
Proof. intros Hp Hq H1 H2 Heq. rewrite <- (split_join c ps), <- (split_join c qs) by done. by rewrite Heq. Qed.

(** A prefix up to the first occurrence of a unit is determined. *)
Lemma app_unit_inj (c : N) a b a' b' : c ∉ a -> c ∉ a' -> a ++ c :: b = a' ++ c :: b' -> a = a' /\ b = b'.
Proof.
  revert a'. induction a as [|x a IH]; intros [|x' a'] Ha Ha' Heq; cbn in Heq; simplify_eq.
  - done.
  - set_solver.
  - set_solver.
  - destruct (IH a') as [-> ->]; [set_solver | set_solver | done|]. done.
Qed.

Lemma indexOf_unit c a b : c ∉ a -> indexOf [c] (a ++ c :: b) = Some (length a).
Proof.
  induction a as [|x a IH]; intros Hc; cbn; [by rewrite N.eqb_refl|].
  destruct (N.eqb_spec c x) as [->|Hx]; [set_solver|]. cbn. rewrite IH by set_solver. done.
Qed.

(** ** Replacement *)

Lemma replaceAll_unit c r s : replaceAll [c] r s = concat (map (fun x => if (c =? x)%N then r else [x]) s).
Proof.
  unfold replaceAll. cut (forall n s, length s <= n ->
    replace_from n [c] r s = concat (map (fun x => if (c =? x)%N then r else [x]) s)).
  { intros H. by apply H. }
  intros n. induction n as [|n IH]; intros t Hn; destruct t as [|x t]; cbn in *; try done; try lia.
  rewrite andb_true_r. destruct (c =? x)%N; cbn; [rewrite drop_0|]; rewrite IH by lia; done.
Qed.

Lemma replace_from_fuel p r s n m :
  p <> [] -> length s <= n -> length s <= m -> replace_from n p r s = replace_from m p r s.
Proof.
  intros Hp. revert s m. induction n as [|n IH]; intros s m Hn Hm.
  - destruct s; [|cbn in Hn; lia]. by destruct m.
  - destruct s as [|x s]; [by destruct m|]. destruct m as [|m]; [cbn in Hm; lia|]. cbn [replace_from] in *.
    destruct (startsWith p (x :: s)).
    + f_equal. apply IH; rewrite length_drop; destruct p; cbn in *; try done; lia.
    + f_equal. apply IH; cbn in *; lia.
Qed.

Lemma replaceAll_miss p r x s :
  p <> [] -> startsWith p (x :: s) = false -> replaceAll p r (x :: s) = x :: replaceAll p r s.
Proof. intros Hp Hs. unfold replaceAll. cbn [length replace_from]. by rewrite Hs. Qed.

Lemma replaceAll_hit p r t :
  p <> [] -> startsWith p (p ++ t) = true -> replaceAll p r (p ++ t) = r ++ replaceAll p r t.
Proof.
  intros Hp Hs. unfold replaceAll. destruct p as [|x p]; [done|]. cbn [app length replace_from].
  cbn [app] in Hs. rewrite Hs. f_equal. cbn [drop]. rewrite drop_app_length.
  apply replace_from_fuel; [done | rewrite length_app; lia | done].
Qed.

(** ** Trimming *)

Lemma trimStart_head c s : is_space c = false -> trimStart (c :: s) = c :: s.
Proof. cbn. by intros ->. Qed.

Lemma trim_ends c s d : is_space c = false -> is_space d = false -> trim (c :: s ++ [d]) = c :: s ++ [d].
Proof.
  intros Hc Hd. unfold trim. rewrite trimStart_head by done.
  change (c :: s ++ [d]) with ((c :: s) ++ [d]). rewrite rev_unit, trimStart_head by done.
  rewrite <- rev_unit, rev_involutive. done.
Qed.

(** [JSON.stringify] and [JSON.parse] of the language, on the values of CanonicalJson.  A parsed text
    with printable content reads back as the value it was printed from. *)

Open Scope string_scope.
Open Scope list_scope.

Section Json.
Context `{D : Doubles}.

(** ** Printing *)

Definition escape_unit (c : N) : ustr :=
  [92; 117; hex_digit (c / 4096); hex_digit (c / 256 mod 16); hex_digit (c / 16 mod 16); hex_digit (c mod 16)]%N.

(** Surrogate pairs are printed as they are, a lone surrogate as an escape. *)
Fixpoint stringify_body (s : ustr) : ustr :=
  match s with
  | [] => []
  | c :: r =>
      if is_high c then
        match r with
        | lo :: r' => if is_low lo then c :: lo :: stringify_body r' else escape_unit c ++ stringify_body r
        | [] => escape_unit c
        end
      else if is_low c then escape_unit c ++ stringify_body r
      else quote_unit c ++ stringify_body r
  end.

Definition JSON_string (s : ustr) : ustr := 34%N :: stringify_body s ++ [34%N].

(** A member whose value is undefined or a function is left out. *)
Definition is_skipped (v : jsvalue) : bool := match v with VUndefined | VUnsupported => true | _ => false end.

(** [JSON.stringify] of a value that is not undefined, in the order of the properties. *)
Fixpoint JSON_stringify (v : jsvalue) : ustr :=
  match v with
  | VUndefined | VUnsupported | VHole | VNull => u "null"
  | VBool b => if b then u "true" else u "false"
  | VNum n => match n with
              | NonFinite => u "null" | NegZero => [48%N] | SafeInt z => int_toString z | Double d => double_toString d
              end
  | VStr s => JSON_string s
  | VArr items => 91%N :: join_unit COMMA (map JSON_stringify items) ++ [93%N]
  | VObj fs =>
      123%N :: join_unit COMMA (concat (map (fun kv =>
        if is_skipped (snd kv) then [] else [JSON_string (fst kv) ++ COLON :: JSON_stringify (snd kv)]) fs)) ++ [125%N]
  end.

(** ** Property order *)

(** An array index as a property name: a decimal without leading zeros below 2^32 - 1. *)
Definition array_index (k : ustr) : option Z :=
  match safe_literal k with
  | Some z => if (0 <=? z)%Z && (z <? 4294967295)%Z && bool_decide (int_toString z = k) then Some z else None
  | None => None
  end.

(** A new index goes before the other names, among the indices in ascending order. *)
Fixpoint insert_index {V} (i : Z) (k : ustr) (v : V) (object : list (ustr * V)) : list (ustr * V) :=
  match object with
  | [] => [(k, v)]
  | (k', v') :: rest =>
      match array_index k' with
      | Some j => if (j <? i)%Z then (k', v') :: insert_index i k v rest else (k, v) :: object
      | None => (k, v) :: object
      end
  end.

(** CreateDataProperty: a name that exists keeps its place and takes the new value. *)
Definition define_member (k : ustr) (v : jsvalue) (object : list (ustr * jsvalue)) : list (ustr * jsvalue) :=
  if JsMap.has k object then JsMap.set k v object
  else match array_index k with
       | Some i => insert_index i k v object
       | None => object ++ [(k, v)]
       end.

(** ** Parsing *)

Definition json_string (text : ustr) : option (ustr * ustr) :=
  match text with
  | c :: r => if (c =? 34)%N then
                match scan_string r with
                | Ok (raw, next) => match json_unescape raw with Some s => Some (s, next) | None => None end
                | Err _ => None
                end
              else None
  | [] => None
  end.

Definition json_scalar (text : ustr) : option (jsvalue * ustr) :=
  if startsWith [34%N] text then match json_string text with Some (s, r) => Some (VStr s, r) | None => None end
  else if startsWith (u "true") text then Some (VBool true, drop 4 text)
  else if startsWith (u "false") text then Some (VBool false, drop 5 text)
  else if startsWith (u "null") text then Some (VNull, drop 4 text)
  else match match_number text with Some (m, r) => Some (VNum (Number_ m), r) | None => None end.

(** [None] is a syntax error; the fuel bounds the units left to read. *)
Fixpoint json_value (fuel : nat) (text : ustr) : option (jsvalue * ustr) :=
  match fuel with
  | O => None
  | S fuel' =>
      match skipWhitespace text with
      | [] => None
      | (c :: r) as t =>
          if (c =? 123)%N then
            let cursor := skipWhitespace r in
            if head_is 125 cursor then Some (VObj [], drop 1 cursor) else json_members fuel' [] cursor
          else if (c =? 91)%N then
            let cursor := skipWhitespace r in
            if head_is 93 cursor then Some (VArr [], drop 1 cursor) else json_items fuel' [] cursor
          else json_scalar t
      end
  end
with json_members (fuel : nat) (object : list (ustr * jsvalue)) (cursor : ustr) : option (jsvalue * ustr) :=
  match fuel with
  | O => None
  | S fuel' =>
      '(key, next) ← json_string (skipWhitespace cursor);
      let cursor := skipWhitespace next in
      if negb (head_is COLON cursor) then None else
      '(v, next) ← json_value fuel' (drop 1 cursor);
      let object := define_member key v object in
      let cursor := skipWhitespace next in
      if head_is COMMA cursor then json_members fuel' object (drop 1 cursor)
      else if head_is 125 cursor then Some (VObj object, drop 1 cursor)
      else None
  end
with json_items (fuel : nat) (items : list jsvalue) (cursor : ustr) : option (jsvalue * ustr) :=
  match fuel with
  | O => None
  | S fuel' =>
      '(v, next) ← json_value fuel' cursor;
      let items := items ++ [v] in
      let cursor := skipWhitespace next in
      if head_is COMMA cursor then json_items fuel' items (drop 1 cursor)
      else if head_is 93 cursor then Some (VArr items, drop 1 cursor)
      else None
  end.

Definition JSON_parse (text : ustr) : option jsvalue :=
  match json_value (2 * length text + 1) text with
  | Some (v, rest) => if bool_decide (skipWhitespace rest = []) then Some v else None
  | None => None
  end.

(** ** Reading back *)

Lemma json_string_ok t s r : parseJsonString t = Ok (s, r) -> json_string t = Some (s, r).
Proof.
  unfold parseJsonString, json_string. destruct t as [|c t]; [done|]. destruct (c =? 34)%N; [|done]. cbn [negb].
  destruct (scan_string t) as [[raw next]|]; [|done]. cbn [rbind]. destruct (json_unescape raw) as [x|]; [|done].
  unfold rejectUnpairedSurrogates. destruct (hasUnpairedSurrogate x); [done|]. cbn [rbind]. by intros [= -> ->].
Qed.

Lemma json_scalar_ok t v r : parse_scalar t = Ok (v, r) -> json_scalar t = Some (v, r).
Proof.
  unfold parse_scalar, json_scalar. destruct (startsWith [34%N] t).
  - destruct (parseJsonString t) as [[s next]|] eqn:E; [|done]. cbn [rbind]. intros [= <- ->].
    by rewrite (json_string_ok _ _ _ E).
  - destruct (startsWith (u "true") t); [by intros [= -> ->]|]. destruct (startsWith (u "false") t); [by intros [= -> ->]|].
    destruct (startsWith (u "null") t); [by intros [= -> ->]|]. unfold parse_number.
    destruct (match_number t) as [[m rest]|]; [|done]. destruct (Number_ m); [done|..]; by intros [= <- ->].
Qed.

(** [JSON.parse] accepts what the stricter parser of canonical texts accepts, with the same value. *)
Lemma json_value_ok fuel :
  (forall t v r, parse_value define_member fuel t = Ok (v, r) -> json_value fuel t = Some (v, r)) /\
  (forall seen o t v r, parse_members define_member fuel seen o t = Ok (v, r) -> json_members fuel o t = Some (v, r)) /\
  (forall xs t v r, parse_items define_member fuel xs t = Ok (v, r) -> json_items fuel xs t = Some (v, r)).
Proof.
  induction fuel as [|fuel (IHv & IHm & IHi)]; [done|]. split_and!.
  - intros t v r. cbn [parse_value json_value]. destruct (skipWhitespace t) as [|c s]; [done|].
    destruct (c =? 123)%N; [destruct (head_is 125 _); [by intros [= <- <-] | apply IHm]|].
    destruct (c =? 91)%N; [destruct (head_is 93 _); [by intros [= <- <-] | apply IHi]|]. apply json_scalar_ok.
  - intros seen o t v r. destruct t as [|c t]; [done|]. rewrite parse_members_S. cbn [json_members].
    destruct (parseJsonString _) as [[k next]|] eqn:Ek; [|done]. cbn [rbind]. rewrite (json_string_ok _ _ _ Ek).
    cbn [mbind option_bind]. destruct (includes k seen); [done|]. destruct (negb (head_is COLON _)); [done|].
    destruct (parse_value define_member _ _) as [[x next']|] eqn:Ev; [|done]. cbn [rbind]. rewrite (IHv _ _ _ Ev). cbn [mbind option_bind].
    destruct (head_is COMMA _); [apply IHm|]. destruct (head_is 125 _); [by intros [= <- <-] | done].
  - intros xs t v r. destruct t as [|c t]; [done|]. rewrite parse_items_S. cbn [json_items].
    destruct (parse_value define_member _ _) as [[x next']|] eqn:Ev; [|done]. cbn [rbind]. rewrite (IHv _ _ _ Ev). cbn [mbind option_bind].
    destruct (head_is COMMA _); [apply IHi|]. destruct (head_is 93 _); [by intros [= <- <-] | done].
Qed.

Lemma quote_unit_surrogate c : is_high c || is_low c = true -> quote_unit c = [c].
Proof.
  unfold is_high, is_low. intros Hc. assert (55296 <= c)%N by lia. unfold quote_unit.
  repeat (rewrite (proj2 (N.eqb_neq c _)) by lia). by rewrite (proj2 (N.ltb_ge c 32)) by lia.
Qed.

Lemma stringify_body_paired s : hasUnpairedSurrogate s = false -> stringify_body s = quote_body s.
Proof.
  remember (length s) as n eqn:Hn. assert (length s <= n) as Hle by lia. clear Hn. revert s Hle.
  induction n as [|n IH]; intros [|c s] Hle Hs; cbn [length] in Hle; [done|lia|done|].
  cbn [hasUnpairedSurrogate stringify_body] in *. change (quote_body (c :: s)) with (quote_unit c ++ quote_body s).
  destruct (is_high c) eqn:Eh.
  - destruct s as [|lo s]; [done|]. destruct (is_low lo) eqn:El; [|done].
    change (quote_body (lo :: s)) with (quote_unit lo ++ quote_body s). cbn [length] in Hle.
    rewrite IH by (lia || done). rewrite !quote_unit_surrogate by (by rewrite ?Eh, ?El, ?orb_true_r). done.
  - destruct (is_low c); [done|]. rewrite IH by (lia || done). done.
Qed.

Lemma JSON_string_paired s : hasUnpairedSurrogate s = false -> JSON_string s = JSON_stringify_string s.
Proof. intros Hs. unfold JSON_string. by rewrite stringify_body_paired. Qed.

Lemma stringify_show P v : readable P v -> JSON_stringify v = show v.
Proof.
  induction v as [| | | |b|n|s|items IH|fields IH] using jsvalue_ind'; intros Hv; try done.
  - by destruct n.
  - by apply JSON_string_paired.
  - cbn [readable] in Hv. apply foldr_and_Forall in Hv. cbn [JSON_stringify show]. f_equal. f_equal. f_equal.
    apply map_ext_Forall. rewrite Forall_forall in *. intros x Hx. by apply IH, Hv.
  - cbn [readable] in Hv. destruct Hv as [_ Hv]. apply foldr_and_Forall in Hv. cbn [JSON_stringify show]. f_equal. f_equal. f_equal.
    induction fields as [|[k v] fields IHf]; [done|]. inversion_clear IH as [|? ? Hx IH'].
    inversion_clear Hv as [|? ? (_ & Hk & Hr) Hv']. cbn [map concat fst snd] in *. rewrite IHf by done.
    rewrite (Hx Hr), JSON_string_paired by done. by destruct v.
Qed.

Lemma define_fresh k v m : array_index k = None -> k ∉ map fst m -> define_member k v m = m ++ [(k, v)].
Proof.
  intros Hi Hk. unfold define_member. rewrite (proj2 (JsMap.has_false _ _) (proj2 (JsMap.get_none _ _) Hk)). by rewrite Hi.
Qed.

(** A printable value whose names are not array indices reads back as itself. *)
Lemma JSON_roundtrip `{L : !DoublesLaws} v :
  readable (fun k => array_index k = None) v -> JSON_parse (JSON_stringify v) = Some v.
Proof.
  intros Hv. rewrite (stringify_show _ _ Hv). unfold JSON_parse.
  assert (json_value (2 * length (show v) + 1) (show v) = Some (v, [])) as ->; [|done].
  apply json_value_ok. rewrite <- (app_nil_r (show v)) at 2.
  apply (parse_show define_member _ define_fresh v Hv); [lia | done].
Qed.
End Json.

(** JavaScript arithmetic on numbers that need not be integers: IEEE 754 double precision, by the
    executable specification of the Standard Library (53 bits of precision, exponents below 1024,
    rounding to nearest even). *)

Open Scope list_scope.

Declare Scope f64_scope.
Delimit Scope f64_scope with f64.

Definition f64 : Type := spec_float.
Definition f64_of_Z (z : Z) : f64 := binary_normalize 53 1024 z 0 false.
Definition f64_add : f64 -> f64 -> f64 := SFadd 53 1024.
Definition f64_sub : f64 -> f64 -> f64 := SFsub 53 1024.
Definition f64_mul : f64 -> f64 -> f64 := SFmul 53 1024.
Definition f64_div : f64 -> f64 -> f64 := SFdiv 53 1024.
Definition f64_lt : f64 -> f64 -> bool := SFltb.
Definition f64_le : f64 -> f64 -> bool := SFleb.
Definition f64_eq : f64 -> f64 -> bool := SFeqb.

Infix "+" := f64_add : f64_scope.
Infix "-" := f64_sub : f64_scope.
Infix "*" := f64_mul : f64_scope.
Infix "/" := f64_div : f64_scope.

(** The literal [n / d] in decimal notation: the double nearest to the quotient. *)
Definition f64_literal (n d : Z) : f64 := (f64_of_Z n / f64_of_Z d)%f64.

(** [Math.ceil] of a finite number, as an integer. *)
Definition f64_ceil (x : f64) : option Z :=
  match x with
  | S754_zero _ => Some 0%Z
  | S754_finite s m e =>
      let n := cond_Zopp s (Zpos m) in
      Some (if (0 <=? e)%Z then n * 2 ^ e else - ((- n) / 2 ^ (- e)))%Z
  | _ => None
  end.

(** The numbers of a JSON value as doubles. *)
Class FloatValues `{Doubles} := { double_value : double -> f64 }.

Section Values.
Context `{FloatValues}.

Definition f64_of_number (n : number double) : f64 :=
  match n with
  | NonFinite => S754_nan
  | NegZero => S754_zero true
  | SafeInt z => f64_of_Z z
  | Double d => double_value d
  end.

Definition f64_value (v : jsvalue) : f64 := match v with VNum n => f64_of_number n | _ => S754_nan end.
End Values.

Definition half_values : @FloatValues half_doubles := {| double_value := fun _ => f64_literal 1 2 |}.

Example tenths_round : f64_eq (f64_literal 1 10 + f64_literal 2 10)%f64 (f64_literal 3 10) = false.
Proof. vm_compute. reflexivity. Qed.

Example ceil_rounds_up : f64_ceil (f64_of_Z 10 * f64_literal 35 100)%f64 = Some 4%Z /\ f64_ceil (f64_literal (-7) 2) = Some (-3)%Z.
Proof. vm_compute. auto. Qed.
