(* ===== verification/Digest.v ===== *)
(** Tagged digests (packages/contracts/src/digest.ts, generated/digest-projections.ts): the
    registry of digest domains, the projection of a payload onto the registered fields, and the
    SHA-256 of its canonical text.

    SHA-256 itself ([node:crypto]) is an interface: no property of it is assumed, and the binding
    theorem concludes either equality of the payloads or an explicit collision. *)

From Stdlib Require Import String ZifyBool Ascii.
From S2P Require Import Prelude Ids JsText CanonicalJson CanonicalJsonTheorems.
Open Scope string_scope.
Open Scope list_scope.

Class Hashing := { sha256_hex : bytes -> ustr }.

Definition Digest : Type := ustr.

Record DigestProjectionEntry := mkProjection {
  domain : string;
  version : Z;
  projectIdMandatory : bool;
  includedFields : list string;
  sorting : string;
  nestedIncludedFields : option (list (string * list string))
}.


Definition DIGEST_PROJECTIONS_1 : list DigestProjectionEntry :=
  [
   mkProjection "artifact-payload" 1 false ["schemaName"; "schemaVersion"; "payload"] "none"
     None;
   mkProjection "artifact-signature-input" 1 false ["schemaName"; "schemaVersion";
     "payloadDigest"; "keyId"; "algorithm"; "signedAt"; "signerCertificateObjectDigest"] "none"
     None;
   mkProjection "task-request" 1 false ["originalRequest"] "none" None;
   mkProjection "snapshot-root" 1 false ["repositoryId"; "workspaceId"; "gitHead";
     "gitIndexDigest"; "gitHistoryRootDigest"; "dirty"; "filesystem"; "entries";
     "ignoredPathDigests"; "excludedPaths"]
     "sortByUtf8Path(entries); sortLex(ignoredPathDigests); sortByCanonicalPathRef(excludedPaths)" (Some [("filesystem",
     ["rootChildNameComparison"; "unicodeNormalization"; "unicodeSimpleFoldTableObjectDigest";
     "pathGlobDialect"; "volumeIdentity"])]);
   mkProjection "git-history-root" 1 false ["repositoryId"; "refs"; "commits";
     "shallowBoundaryObjectIds"; "replaceRefsIgnored"] "none" None;
   mkProjection "directory-tree" 1 false ["path"; "entries"] "sortByUtf8Path(entries)" None;
   mkProjection "quote" 1 false ["bytesBase64url"] "none" None;
   mkProjection "evidence-node" 1 false ["snapshotId"; "kind"; "identityKey";
     "contentObjectDigest"; "provenanceIdentities"] "sortProvenanceIdentities(provenance)" None;
   mkProjection "evidence-edge" 1 false ["from"; "to"; "relation"; "polarity";
     "provenanceIdentities"] "sortProvenanceIdentities(provenance)" None;
   mkProjection "evidence-bundle" 1 false ["purpose"; "nodeIds"; "edgeIds"; "exactSourceRefs"]
     "sortLex(nodeIds); sortLex(edgeIds); sortSourceRefs(exactSourceRefs)" None;
   mkProjection "requirement-id" 1 false ["kind"; "sourceRanges"; "verbatimQuote"]
     "sortSourceRefs(sourceRanges)" None;
   mkProjection "obligation-id" 1 false ["requirementIds"; "claim"; "kind"]
     "sortLex(requirementIds)" None;
   mkProjection "check-id" 1 false ["obligationIds"; "subject"; "recipe"]
     "sortLex(obligationIds)" None
  ].

Definition DIGEST_PROJECTIONS_2 : list DigestProjectionEntry :=
  [
   mkProjection "changeset-normalized" 1 false ["baseSnapshotId"; "baseSnapshotRootDigest";
     "operations"] "none" None;
   mkProjection "candidate-tree" 1 false ["entries"] "sortByUtf8Path(entries)" None;
   mkProjection "sandbox-output-tree" 1 false ["entries"] "sortByUtf8Path(entries)" None;
   mkProjection "failure-signature" 1 false ["obligationIds"; "attribution";
     "normalizedMessage"] "sortLex(obligationIds)" None;
   mkProjection "observation-signature" 1 false ["attempt"; "state"; "exitCode"; "stdoutDigest";
     "stderrDigest"] "none" None;
   mkProjection "verification-evidence-root" 1 false ["evidenceRecordObjectDigests"]
     "sortLex(evidenceRecordObjectDigests)" None;
   mkProjection "omission-root" 1 false ["pairs"] "sortByEvidenceId(pairs)" None;
   mkProjection "state-fingerprint" 1 true ["projectId"; "runId"; "state"; "stateVersion";
     "artifactRoleDigests"] "sortByRole(artifactRoleDigests)" None;
   mkProjection "approval-subject" 1 false ["kind"; "bindings"] "none" None;
   mkProjection "cloud-request-binding" 1 false ["requestBinding"] "none" None;
   mkProjection "provider-wire-request" 1 false ["providerWireRequest"]
     "sortByNameValue(nonSecretHeaders)" None;
   mkProjection "storage-record" 1 true ["schemaVersion"; "projectId"; "objectDigest";
     "schemaName"; "mediaType"; "plaintextByteSize"; "classification"; "encryptionAlgorithm";
     "encryptionKeyId"; "encryptionNonceBase64"; "createdAt"] "none" None;
   mkProjection "storage-record-signature-input" 1 false ["storageRecordDigest"; "keyId";
     "algorithm"; "signedAt"; "signerCertificateObjectDigest"] "none" None
  ].

Definition DIGEST_PROJECTION_REGISTRY : list DigestProjectionEntry :=
  DIGEST_PROJECTIONS_1 ++ DIGEST_PROJECTIONS_2.

Definition isDigestDomain (value : string) : bool :=
  includes value (map domain DIGEST_PROJECTION_REGISTRY).

Inductive DigestErr : Set :=
| UNKNOWN_DOMAIN | UNKNOWN_PROJECTION | PAYLOAD_NOT_OBJECT | UNEXPECTED_FIELD | PROJECT_ID_REQUIRED
| DUPLICATE_SIGNATURE
| CANONICALIZATION (e : CanonError).

Definition of_canon {A} (c : result CanonError A) : result DigestErr A :=
  match c with Ok a => Ok a | Err e => Err (CANONICALIZATION e) end.

Section Digests.
Context `{Doubles} `{Hashing}.

Definition sha256Hex (bs : bytes) : Digest := u "sha256:" ++ sha256_hex bs.
Definition sha256Utf8 (text : ustr) : Digest := sha256Hex (utf8_encode text).

Abbreviation fields := (list (ustr * jsvalue)).

Definition isUndefined (v : jsvalue) : bool := match v with VUndefined => true | _ => false end.

(** [Object.hasOwn(value, field)] and a defined value. *)
Definition own_field (value : fields) (field : ustr) : option jsvalue :=
  v ← JsMap.get field value; if isUndefined v then None else Some v.

(** [projectObject(value, included, undefined)] *)
Definition projectFlat (value : jsvalue) (included : list string) : result DigestErr fields :=
  match value with
  | VObj fs =>
      throw_if negb (forallb (fun kv => includes (fst kv) (map u included)) fs) with UNEXPECTED_FIELD;
      Ok (fold_left (fun projected f =>
            match own_field fs (u f) with Some v => JsMap.set (u f) v projected | None => projected end)
          included [])
  | _ => Err PAYLOAD_NOT_OBJECT
  end.

Definition projectField (fs : fields) (nested : option (list (string * list string)))
  (projected : fields) (field : string) : result DigestErr fields :=
  match own_field fs (u field) with
  | None => Ok projected
  | Some v =>
      match (m ← nested; JsMap.get field m) with
      | Some inner => let? o := projectFlat v inner in Ok (JsMap.set (u field) (VObj o) projected)
      | None => Ok (JsMap.set (u field) v projected)
      end
  end.

Definition projectObject (value : jsvalue) (included : list string)
  (nested : option (list (string * list string))) : result DigestErr fields :=
  match value with
  | VObj fs =>
      throw_if negb (forallb (fun kv => includes (fst kv) (map u included)) fs) with UNEXPECTED_FIELD;
      rfold (projectField fs nested) [] included
  | _ => Err PAYLOAD_NOT_OBJECT
  end.

(** [compareUtf8]: JavaScript's [<] on strings compares code units. *)
Definition compareUtf8_leb : ustr -> ustr -> bool := utf16_leb.

(** [isJsonObject(v) && typeof v.k === "string" ? v.k : ""] *)
Definition string_field (k : string) (v : jsvalue) : ustr :=
  match v with
  | VObj fs => match JsMap.get (u k) fs with Some (VStr s) => s | _ => [] end
  | _ => []
  end.
Definition object_field (k : string) (v : jsvalue) : jsvalue :=
  match v with
  | VObj fs => default VUndefined (JsMap.get (u k) fs)
  | _ => VUndefined
  end.

Definition sort_array (key : jsvalue -> ustr) (items : list jsvalue) : list jsvalue :=
  sort_by (fun a b => compareUtf8_leb (key a) (key b)) items.

Definition update_array (field : string) (f : list jsvalue -> list jsvalue) (payload : fields) : fields :=
  match JsMap.get (u field) payload with
  | Some (VArr items) => JsMap.set (u field) (VArr (f items)) payload
  | _ => payload
  end.

Definition sortSnapshotRootPayload (payload : fields) : fields :=
  let sorted := update_array "entries" (sort_array (string_field "path")) payload in
  let sorted := update_array "ignoredPathDigests"
    (fun items => sort_array (fun v => match v with VStr s => s | _ => [] end)
       (map (fun v => match v with VStr s => VStr s | _ => VStr [] end) items)) sorted in
  update_array "excludedPaths"
    (sort_array (fun v => string_field "value" (object_field "path" v))) sorted.

Definition projectDigestPayload (entry : DigestProjectionEntry) (payload : jsvalue)
  : result DigestErr fields :=
  let? projected := projectObject payload (includedFields entry) (nestedIncludedFields entry) in
  throw_if projectIdMandatory entry &&
           negb match JsMap.get (u "projectId") projected with Some (VStr _) => true | _ => false end
    with PROJECT_ID_REQUIRED;
  if bool_decide (domain entry = "snapshot-root") then Ok (sortSnapshotRootPayload projected)
  else Ok projected.

(** The object whose canonical text is hashed. *)
Definition envelope (dom : string) (ver : Z) (projected : fields) : jsvalue :=
  VObj [(u "domain", VStr (u dom)); (u "version", VNum (SafeInt ver)); (u "payload", VObj projected)].

(** The canonical text [taggedHash] hashes. *)
Definition tagged_text (dom : string) (ver : Z) (payload : jsvalue) : result DigestErr ustr :=
  throw_if negb (isDigestDomain dom) with UNKNOWN_DOMAIN;
  match array_find (fun e => bool_decide (domain e = dom)) DIGEST_PROJECTION_REGISTRY with
  | None => Err UNKNOWN_PROJECTION
  | Some entry =>
      throw_if negb (version entry =? ver)%Z with UNKNOWN_PROJECTION;
      let? projected := projectDigestPayload entry payload in
      of_canon (canonicalize (envelope dom ver projected))
  end.

Definition taggedHash (dom : string) (ver : Z) (payload : jsvalue) : result DigestErr Digest :=
  let? text := tagged_text dom ver payload in Ok (sha256Utf8 text).

Definition payloadDigest (schemaName : ustr) (schemaVersion : Z) (payload : jsvalue) :=
  taggedHash "artifact-payload" 1
    (VObj [(u "schemaName", VStr schemaName); (u "schemaVersion", VNum (SafeInt schemaVersion));
           (u "payload", payload)]).

Definition rfc8785Digest (value : jsvalue) : result DigestErr Digest :=
  let? text := of_canon (canonicalizeRfc8785 value) in Ok (sha256Utf8 text).
End Digests.

(** Identifiers derived from digests: [sha256HexToCrockford32] (packages/contracts/src/digest.ts) and the
    base-32 identifier brands of packages/contracts/src/ids.ts.  The rendering of a SHA-256 digest is
    always a well-formed identifier body, and different digests get different bodies. *)

Open Scope string_scope.
Open Scope list_scope.

Definition CROCKFORD32 : ustr := u "abcdefghijklmnopqrstuvwxyz234567".

(** [Buffer.from(hex, "hex")]: pairs of digits, up to the first pair that is not hexadecimal. *)
Fixpoint hex_decode (s : ustr) : bytes :=
  match s with
  | a :: b :: r => match hex_value a, hex_value b with
                   | Some x, Some y => (x * 16 + y)%N :: hex_decode r
                   | _, _ => []
                   end
  | _ => []
  end.

(** [value.toString(2).padStart(8, "0")] of a byte, most significant bit first. *)
Definition byte_bits (b : N) : list bool := map (N.testbit b) [7; 6; 5; 4; 3; 2; 1; 0]%N.

(** [Number.parseInt(slice, 2)] *)
Definition bits_value (l : list bool) : N := foldl (fun acc (b : bool) => 2 * acc + (if b then 1 else 0))%N 0%N l.

(** [bits.padEnd(n, "0")] *)
Definition padEnd (n : nat) (l : list bool) : list bool := l ++ replicate (n - length l) false.

(** [None] is the error for a digest that is not 32 bytes long. *)
Definition sha256HexToCrockford32 (hex : ustr) : option ustr :=
  let bytes := hex_decode hex in
  if negb (bool_decide (length bytes = 32)) then None else
  let bits := padEnd 260 (concat (map byte_bits bytes)) in
  Some (map (fun index => default 97%N (CROCKFORD32 !! N.to_nat (bits_value (take 5 (drop (index * 5) bits))))) (seq 0 52)).

Definition is_crockford (c : N) : bool := ((97 <=? c) && (c <=? 122) || (50 <=? c) && (c <=? 55))%N.

Definition isPrefixedCrockford32 (prefix value : ustr) : bool :=
  startsWith prefix value &&
  let body := drop (length prefix) value in bool_decide (length body = 52) && forallb is_crockford body.

Definition isEvidenceId (value : ustr) : bool := isPrefixedCrockford32 (u "evidence_") value.
Definition isRequirementId (value : ustr) : bool := isPrefixedCrockford32 (u "req_") value.
Definition isObligationId (value : ustr) : bool := isPrefixedCrockford32 (u "obl_") value.
Definition isCheckId (value : ustr) : bool := isPrefixedCrockford32 (u "check_") value.

(** ** Bits *)

Definition bools : list bool := [false; true].
Definition all5 : list (list bool) :=
  concat (map (fun a => concat (map (fun b => concat (map (fun c => concat (map (fun d => map (fun e =>
    [a; b; c; d; e]) bools) bools)) bools)) bools)) bools).

Lemma all5_complete l : length l = 5 -> l ∈ all5.
Proof.
  intros Hl. destruct l as [|a [|b [|c [|d [|e [|]]]]]]; try discriminate Hl.
  apply includes_true. by destruct a, b, c, d, e.
Qed.

Definition digit_of (l : list bool) : N := default 97%N (CROCKFORD32 !! N.to_nat (bits_value l)).

Lemma digit_inj l l' : length l = 5 -> length l' = 5 -> digit_of l = digit_of l' -> l = l'.
Proof.
  intros H H' He. apply all5_complete in H, H'.
  assert (forallb (fun x => forallb (fun y => negb (digit_of x =? digit_of y)%N || bool_decide (x = y)) all5) all5 = true)
    as Hall by (vm_compute; reflexivity).
  rewrite forallb_forall in Hall. specialize (Hall l (proj1 (list_elem_of_In _ _) H)).
  rewrite forallb_forall in Hall. specialize (Hall l' (proj1 (list_elem_of_In _ _) H')).
  rewrite He, N.eqb_refl in Hall. by apply bool_decide_eq_true in Hall.
Qed.

Lemma digit_crockford l : length l = 5 -> is_crockford (digit_of l) = true.
Proof.
  intros H%all5_complete. assert (forallb (fun x => is_crockford (digit_of x)) all5 = true) as Hall by (vm_compute; reflexivity).
  rewrite forallb_forall in Hall. by apply Hall, list_elem_of_In.
Qed.

Lemma bits_bytes_inj bs bs' :
  Forall (fun b => (b < 256)%N) bs -> Forall (fun b => (b < 256)%N) bs' ->
  concat (map byte_bits bs) = concat (map byte_bits bs') -> bs = bs'.
Proof.
  revert bs'. induction bs as [|b bs IH]; intros [|b' bs'] Hb Hb' He; try discriminate He; [done|].
  apply Forall_cons in Hb as [Hb Hbs]. apply Forall_cons in Hb' as [Hb' Hbs']. cbn [map concat] in He.
  apply app_inj_1 in He as [E1 E2]; [|done]. f_equal; [|by apply IH].
  unfold byte_bits in E1. cbn [map] in E1. injection E1 as E7 E6 E5 E4 E3 E2' E1 E0.
  apply N.bits_inj. intros n. destruct (decide (n < 8)%N) as [Hn|Hn].
  - assert (n = 0 \/ n = 1 \/ n = 2 \/ n = 3 \/ n = 4 \/ n = 5 \/ n = 6 \/ n = 7)%N as Hc by lia.
    by repeat destruct Hc as [->|Hc]; subst.
  - rewrite !N.bits_above_log2; [done|..].
    + destruct (decide (b' = 0%N)) as [->|]; [cbn; lia|]. apply N.log2_lt_pow2; [lia|]. apply (N.lt_le_trans _ (2 ^ 8)); [done|]. apply N.pow_le_mono_r; lia.
    + destruct (decide (b = 0%N)) as [->|]; [cbn; lia|]. apply N.log2_lt_pow2; [lia|]. apply (N.lt_le_trans _ (2 ^ 8)); [done|]. apply N.pow_le_mono_r; lia.
Qed.

(** Lists of [5 * n] entries are determined by their groups of five. *)
Lemma groups_inj {A} n : forall l l' : list A, length l = 5 * n -> length l' = 5 * n ->
  (forall i, i < n -> take 5 (drop (i * 5) l) = take 5 (drop (i * 5) l')) -> l = l'.
Proof.
  induction n as [|n IH]; intros l l' Hl Hl' Hg.
  - destruct l; [|done]. by destruct l'.
  - rewrite <- (take_drop 5 l), <- (take_drop 5 l'). f_equal.
    + apply (Hg 0). lia.
    + apply IH; [rewrite length_drop; lia..|]. intros i Hi. rewrite !drop_drop. apply (Hg (S i)). lia.
Qed.

Definition is_hex (c : N) : bool := ((48 <=? c) && (c <=? 57) || (97 <=? c) && (c <=? 102))%N.

Lemma hex_value_inj a b : is_hex a = true -> is_hex b = true -> hex_value a = hex_value b -> a = b.
Proof. unfold is_hex, hex_value, is_digit. intros Ha Hb. repeat case_match; intros He; try discriminate He; try (injection He as He); lia. Qed.

Lemma hex_value_some a : is_hex a = true -> exists x, hex_value a = Some x /\ (x < 16)%N.
Proof. unfold is_hex, hex_value, is_digit. intros Ha. repeat case_match; first [lia | eexists; split; [reflexivity | lia]]. Qed.

Lemma hex_decode_spec n : forall s, length s = 2 * n -> forallb is_hex s = true ->
  length (hex_decode s) = n /\ Forall (fun b => (b < 256)%N) (hex_decode s).
Proof.
  induction n as [|n IH]; intros s Hl Hh.
  - by destruct s.
  - destruct s as [|a [|b s]]; cbn in Hl; try lia. cbn in Hh. rewrite !andb_true_iff in Hh. destruct Hh as (Ha & Hb & Hs).
    destruct (hex_value_some a Ha) as (x & Ex & Hx), (hex_value_some b Hb) as (y & Ey & Hy). cbn. rewrite Ex, Ey.
    destruct (IH s ltac:(lia) Hs) as [H1 H2]. split; [cbn; by rewrite H1|]. constructor; [lia | done].
Qed.

Lemma hex_decode_inj n : forall s s', length s = 2 * n -> length s' = 2 * n ->
  forallb is_hex s = true -> forallb is_hex s' = true -> hex_decode s = hex_decode s' -> s = s'.
Proof.
  induction n as [|n IH]; intros s s' Hl Hl' Hh Hh' He.
  - destruct s; [|done]. by destruct s'.
  - destruct s as [|a [|b s]]; cbn in Hl; try lia. destruct s' as [|a' [|b' s']]; cbn in Hl'; try lia.
    cbn in Hh, Hh'. rewrite !andb_true_iff in Hh, Hh'. destruct Hh as (Ha & Hb & Hs), Hh' as (Ha' & Hb' & Hs').
    destruct (hex_value_some a Ha) as (x & Ex & Hx), (hex_value_some b Hb) as (y & Ey & Hy).
    destruct (hex_value_some a' Ha') as (x' & Ex' & Hx'), (hex_value_some b' Hb') as (y' & Ey' & Hy').
    cbn in He. rewrite Ex, Ey, Ex', Ey' in He. injection He as E1 E2.
    f_equal; [apply hex_value_inj; try done; rewrite Ex, Ex'; f_equal; lia|].
    f_equal; [apply hex_value_inj; try done; rewrite Ey, Ey'; f_equal; lia|]. apply IH; [lia | lia | done..].
Qed.

(** ** The rendering *)

Lemma digest_bits bs : length bs = 32 ->
  padEnd 260 (concat (map byte_bits bs)) = concat (map byte_bits bs) ++ replicate 4 false /\
  length (padEnd 260 (concat (map byte_bits bs))) = 260.
Proof.
  intros Hl. assert (length (concat (map byte_bits bs)) = 256) as Hc.
  { assert (forall l, length (concat (map byte_bits l)) = 8 * length l) as H; [|rewrite H; lia].
    induction l as [|b l IH]; [done|]. cbn [map concat]. rewrite length_app, IH. cbn. lia. }
  unfold padEnd. rewrite Hc. split; [done|]. by rewrite length_app, Hc, length_replicate.
Qed.

Lemma group_length (bits : list bool) i : length bits = 260 -> i < 52 -> length (take 5 (drop (i * 5) bits)) = 5.
Proof. intros Hl Hi. rewrite length_take, length_drop. lia. Qed.

Definition wellformed_hex (h : ustr) : Prop := length h = 64 /\ forallb is_hex h = true.

Lemma crockford_some h : wellformed_hex h ->
  exists out, sha256HexToCrockford32 h = Some out /\ length out = 52 /\ forallb is_crockford out = true.
Proof.
  intros [Hl Hh]. destruct (hex_decode_spec 32 h Hl Hh) as [H32 _]. unfold sha256HexToCrockford32.
  rewrite bool_decide_true by done. cbn [negb]. eexists. split; [done|]. split; [by rewrite length_map, length_seq|].
  apply forallb_forall. intros c Hc. apply in_map_iff in Hc as (i & <- & Hi). apply in_seq in Hi.
  apply digit_crockford. apply group_length; [by apply digest_bits | lia].
Qed.

Lemma crockford_inj h h' out : wellformed_hex h -> wellformed_hex h' ->
  sha256HexToCrockford32 h = Some out -> sha256HexToCrockford32 h' = Some out -> h = h'.
Proof.
  intros [Hl Hh] [Hl' Hh'] H H'.
  destruct (hex_decode_spec 32 h Hl Hh) as [L B]. destruct (hex_decode_spec 32 h' Hl' Hh') as [L' B'].
  unfold sha256HexToCrockford32 in H, H'. rewrite bool_decide_true in H, H' by done. cbn [negb] in H, H'.
  rewrite <- H' in H. apply (inj Some) in H. clear H'.
  destruct (digest_bits _ L) as [P G]. destruct (digest_bits _ L') as [P' G'].
  apply (hex_decode_inj 32); try done. apply bits_bytes_inj; try done.
  apply (app_inv_tail (replicate 4 false)). rewrite <- P, <- P'. apply (groups_inj 52); [done..|]. intros i Hi.
  apply digit_inj; [by apply group_length..|].
  assert (forall f : nat -> N, map f (seq 0 52) !! i = Some (f i)) as Hlk.
  { intros f. etransitivity; [apply list_lookup_fmap|]. by rewrite lookup_seq_lt. }
  apply (f_equal (fun l => l !! i)) in H. cbv beta in H. rewrite !Hlk in H. by injection H.
Qed.

(** Signed artifact envelopes (packages/contracts/src/ids.ts and digest.ts): the digest a signature
    covers, the canonical order of signatures, and the object digest of an envelope. *)

Open Scope string_scope.
Open Scope list_scope.

Record EnvelopeSignature := mkSignature {
  keyId : ustr;
  algorithm : ustr;
  signedAt : ustr;
  signerCertificateObjectDigest : ustr;
  signature : ustr
}.
#[export] Instance EnvelopeSignature_eq_dec : EqDecision EnvelopeSignature.
Proof. solve_decision. Defined.

Record ArtifactEnvelope (T : Type) := mkEnvelope {
  schemaName : ustr;
  schemaVersion : Z;
  payload : T;
  env_payloadDigest : ustr;
  signatures : list EnvelopeSignature
}.
Arguments mkEnvelope {T}.
Arguments schemaName {T}.
Arguments schemaVersion {T}.
Arguments payload {T}.
Arguments env_payloadDigest {T}.
Arguments signatures {T}.

(** ASCII code units as a [string], to reuse the digest pattern. *)
Definition ascii_text (s : ustr) : option string :=
  if forallb (fun c => (c <? 128)%N) s then Some (string_of_list_ascii (map ascii_of_N s)) else None.

Definition isObjectDigest_units (value : ustr) : bool :=
  match ascii_text value with Some text => isObjectDigest text | None => false end.

Section Envelopes.
Context {DD : Doubles} {HH : Hashing}.

Definition opt_member {A} (k : string) (f : A -> jsvalue) (v : option A) : list (ustr * jsvalue) :=
  match v with Some x => [(u k, f x)] | None => [] end.
Definition VInt (z : Z) : jsvalue := VNum (SafeInt z).

Definition signatureInputDigest (schemaName : ustr) (schemaVersion : Z) (digest : ustr)
    (s : EnvelopeSignature) (certificate : ustr) : result DigestErr Digest :=
  taggedHash "artifact-signature-input" 1
    (VObj [(u "schemaName", VStr schemaName); (u "schemaVersion", VInt schemaVersion);
           (u "payloadDigest", VStr digest); (u "keyId", VStr (keyId s));
           (u "algorithm", VStr (algorithm s)); (u "signedAt", VStr (signedAt s));
           (u "signerCertificateObjectDigest", VStr certificate)]).

Definition objectDigestFromBytes (bs : bytes) : Digest := sha256Hex bs.

(** [left !== right ? (left < right ? -1 : 1) : next] *)
Definition compare_text (left right : ustr) (next : comparison) : comparison :=
  if bool_decide (left <> right) then (if utf16_leb left right then Lt else Gt) else next.

Definition compareSignatures (left right : EnvelopeSignature) : comparison :=
  compare_text (keyId left) (keyId right)
    (compare_text (algorithm left) (algorithm right) (compare_text (signedAt left) (signedAt right) Eq)).

Definition signature_leb (left right : EnvelopeSignature) : bool :=
  match compareSignatures left right with Gt => false | _ => true end.

Fixpoint adjacent_duplicate (previous : EnvelopeSignature) (rest : list EnvelopeSignature) : bool :=
  match rest with
  | [] => false
  | current :: r => bool_decide (compareSignatures previous current = Eq) || adjacent_duplicate current r
  end.

Definition sortSignatures (sigs : list EnvelopeSignature) : result DigestErr (list EnvelopeSignature) :=
  let sorted := sort_by signature_leb sigs in
  throw_if match sorted with [] => false | s :: r => adjacent_duplicate s r end with DUPLICATE_SIGNATURE;
  Ok sorted.

Definition signature_json (s : EnvelopeSignature) : jsvalue :=
  VObj [(u "keyId", VStr (keyId s)); (u "algorithm", VStr (algorithm s)); (u "signedAt", VStr (signedAt s));
        (u "signerCertificateObjectDigest", VStr (signerCertificateObjectDigest s));
        (u "signature", VStr (signature s))].

Definition canonicalizeEnvelope (envelope : ArtifactEnvelope jsvalue) : result DigestErr ustr :=
  let? sorted := sortSignatures (signatures envelope) in
  of_canon (canonicalize
    (VObj [(u "schemaName", VStr (schemaName envelope)); (u "schemaVersion", VInt (schemaVersion envelope));
           (u "payload", payload envelope); (u "payloadDigest", VStr (env_payloadDigest envelope));
           (u "signatures", VArr (map signature_json sorted))])).

Definition envelopeObjectDigest (envelope : ArtifactEnvelope jsvalue) : result DigestErr Digest :=
  let? text := canonicalizeEnvelope envelope in Ok (objectDigestFromBytes (utf8_encode text)).
End Envelopes.
