(* ===== verification/DigestTheorems.v ===== *)
(** What a tagged digest binds: its domain, its version and every registered field of the
    payload, up to a SHA-256 collision. *)

From Stdlib Require Import Ascii String.
From S2P Require Import Prelude JsText CanonicalJson CanonicalJsonTheorems Digest.
Open Scope string_scope.
Open Scope list_scope.

(** ** UTF-8 of well-formed text *)

Definition units16 (s : ustr) : Prop := Forall (fun c => (c < 65536)%N) s.

Lemma decode_bmp c bs :
  (c < 65536)%N -> is_high c = false -> is_low c = false ->
  utf8_decode (enc_bmp c ++ bs) = cons c <$> utf8_decode bs.
Proof.
  intros Hc Hh Hl.
  assert (c < 55296 \/ 57343 < c)%N as Hs.
  { unfold is_high, is_low in *. apply andb_false_iff in Hh, Hl. rewrite !N.leb_gt in Hh, Hl. lia. }
  clear Hh Hl. unfold enc_bmp. destruct (c <? 128)%N eqn:E1; [|destruct (c <? 2048)%N eqn:E2].
  - apply N.ltb_lt in E1. cbn [app utf8_decode]. by rewrite (proj2 (N.ltb_lt _ _) E1).
  - apply N.ltb_ge in E1. apply N.ltb_lt in E2. cbn [app utf8_decode].
    set (h := (c / 64)%N). set (l := (c mod 64)%N).
    assert (c = h * 64 + l /\ l < 64 /\ 2 <= h < 32)%N as (Hd & Hl & Hh) by (subst h l; lia).
    clearbody h l. subst c. unfold is_cont, in_range.
    rewrite (proj2 (N.ltb_ge (192 + h) 128)), (proj2 (N.leb_le 194 (192 + h))),
      (proj2 (N.leb_le (192 + h) 223)), (proj2 (N.leb_le 128 (128 + l))),
      (proj2 (N.leb_le (128 + l) 191)) by lia. cbn [andb].
    by replace ((192 + h - 192) * 64 + (128 + l - 128))%N with (h * 64 + l)%N by lia.
  - apply N.ltb_ge in E1, E2. cbn [app utf8_decode].
    set (a := (c / 4096)%N). set (b := ((c / 64) mod 64)%N). set (l := (c mod 64)%N).
    assert (c = a * 4096 + b * 64 + l /\ l < 64 /\ b < 64 /\ a < 16)%N as (Hd & Hl & Hb & Ha)
      by (subst a b l; lia).
    clearbody a b l. unfold second3, is_cont, in_range.
    rewrite (proj2 (N.ltb_ge (224 + a) 128)), (proj2 (N.leb_gt (224 + a) 223) ltac:(lia)) by lia.
    rewrite andb_false_r.
    rewrite (proj2 (N.leb_le 224 (224 + a))), (proj2 (N.leb_le (224 + a) 239)),
      (proj2 (N.leb_le 128 (128 + l))), (proj2 (N.leb_le (128 + l) 191)) by lia. cbn [andb].
    assert (((if (224 + a =? 224)%N then 160 else 128) <=? 128 + b)%N = true) as ->.
    { apply N.leb_le. destruct (224 + a =? 224)%N eqn:E; [apply N.eqb_eq in E; lia | lia]. }
    assert ((128 + b <=? (if (224 + a =? 237)%N then 159 else 191))%N = true) as ->.
    { apply N.leb_le. destruct (224 + a =? 237)%N eqn:E; [apply N.eqb_eq in E; lia | lia]. }
    cbn [andb].
    by replace ((224 + a - 224) * 4096 + (128 + b - 128) * 64 + (128 + l - 128))%N with c by lia.
Qed.

Lemma decode_pair hi lo bs :
  is_high hi = true -> is_low lo = true ->
  utf8_decode (enc_pair hi lo ++ bs) = (fun s => hi :: lo :: s) <$> utf8_decode bs.
Proof.
  unfold is_high, is_low.
  intros [Hh1%N.leb_le Hh2%N.leb_le]%andb_true_iff [Hl1%N.leb_le Hl2%N.leb_le]%andb_true_iff.
  unfold enc_pair. cbv zeta. set (v := ((hi - 55296) * 1024 + (lo - 56320))%N).
  assert (v < 1048576 /\ hi = 55296 + v / 1024 /\ lo = 56320 + v mod 1024)%N as (Hv & Eh & El)
    by (subst v; lia).
  replace (65536 + (hi - 55296) * 1024 + (lo - 56320))%N with (65536 + v)%N by (subst v; lia).
  rewrite Eh, El. clearbody v. clear Hh1 Hh2 Hl1 Hl2 Eh El hi lo.
  set (cp := (65536 + v)%N). cbn [app utf8_decode].
  set (a := (cp / 262144)%N). set (b := ((cp / 4096) mod 64)%N).
  set (c := ((cp / 64) mod 64)%N). set (d := (cp mod 64)%N).
  assert (cp = a * 262144 + b * 4096 + c * 64 + d /\ b < 64 /\ c < 64 /\ d < 64 /\ a < 5)%N
    as (Hcp & Hb & Hc & Hd & Ha) by (subst a b c d cp; lia).
  assert (cp = 65536 + v)%N as Hcv by done. clearbody a b c d cp. unfold second4, is_cont, in_range.
  rewrite (proj2 (N.ltb_ge (240 + a) 128)), (proj2 (N.leb_gt (240 + a) 223) ltac:(lia)),
    (proj2 (N.leb_gt (240 + a) 239) ltac:(lia)) by lia.
  rewrite !andb_false_r.
  rewrite (proj2 (N.leb_le 240 (240 + a))), (proj2 (N.leb_le (240 + a) 244)),
    (proj2 (N.leb_le 128 (128 + c))), (proj2 (N.leb_le (128 + c) 191)),
    (proj2 (N.leb_le 128 (128 + d))), (proj2 (N.leb_le (128 + d) 191)) by lia. cbn [andb].
  assert (((if (240 + a =? 240)%N then 144 else 128) <=? 128 + b)%N = true) as ->.
  { apply N.leb_le. destruct (240 + a =? 240)%N eqn:E; [apply N.eqb_eq in E; lia | lia]. }
  assert ((128 + b <=? (if (240 + a =? 244)%N then 143 else 191))%N = true) as ->.
  { apply N.leb_le. destruct (240 + a =? 244)%N eqn:E; [apply N.eqb_eq in E; lia | lia]. }
  cbn [andb].
  by replace ((240 + a - 240) * 262144 + (128 + b - 128) * 4096 + (128 + c - 128) * 64 +
     (128 + d - 128) - 65536)%N with v by lia.
Qed.

Lemma utf8_encode_decode s :
  units16 s -> hasUnpairedSurrogate s = false -> utf8_decode (utf8_encode s) = Some s.
Proof.
  remember (length s) as n eqn:Hn. assert (length s <= n) as Hle by lia. clear Hn.
  revert s Hle. induction n as [|n IH]; intros [|c s] Hle Hu; cbn [length] in Hle; try done; try lia.
  inversion_clear Hu as [|? ? Hc Hu']. cbn [hasUnpairedSurrogate utf8_encode].
  destruct (is_high c) eqn:Hh.
  - destruct s as [|d s]; [done|]. destruct (is_low d) eqn:Hd; [|done]. intros Hs.
    inversion_clear Hu' as [|? ? Hd' Hu]. rewrite decode_pair by done.
    rewrite IH; [done | cbn in Hle; lia | done | done].
  - destruct (is_low c) eqn:Hl; [done|]. intros Hs. rewrite decode_bmp by done.
    rewrite IH; [done | lia | done | done].
Qed.

Lemma utf8_encode_inj s t :
  units16 s -> units16 t -> hasUnpairedSurrogate s = false -> hasUnpairedSurrogate t = false ->
  utf8_encode s = utf8_encode t -> s = t.
Proof.
  intros Us Ut Ps Pt E. apply utf8_encode_decode in Ps, Pt; [|done..]. rewrite E in Ps. congruence.
Qed.

(** ** Canonical text is well-formed UTF-16 *)

Definition clean (s : ustr) : Prop := units16 s /\ hasUnpairedSurrogate s = false.

Lemma hasUnpaired_app s t :
  hasUnpairedSurrogate s = false -> hasUnpairedSurrogate (s ++ t) = hasUnpairedSurrogate t.
Proof.
  remember (length s) as n eqn:Hn. assert (length s <= n) as Hle by lia. clear Hn.
  revert s Hle. induction n as [|n IH]; intros [|c s] Hle; cbn [length] in Hle; try done; try lia.
  cbn [app hasUnpairedSurrogate]. destruct (is_high c).
  - destruct s as [|d s]; [done|]. cbn [app]. destruct (is_low d); [|done]. apply IH. cbn in Hle. lia.
  - destruct (is_low c); [done|]. apply IH. lia.
Qed.

Lemma clean_app s t : clean s -> clean t -> clean (s ++ t).
Proof.
  intros [Us Ps] [Ut Pt]. split; [by apply Forall_app|]. by rewrite hasUnpaired_app.
Qed.

Lemma clean_ascii s : Forall (fun c => (c < 128)%N) s -> clean s.
Proof.
  induction 1 as [|c s Hc _ [Us Ps]]; [by repeat constructor|].
  split; [constructor; [lia | done]|]. cbn [hasUnpairedSurrogate].
  rewrite is_high_false_range, is_low_false_range by lia. done.
Qed.

Lemma clean_nil : clean [].
Proof. by repeat constructor. Qed.

Lemma clean_cons_ascii c s : (c < 128)%N -> clean s -> clean (c :: s).
Proof. intros Hc Hs. apply (clean_app [c]); [apply clean_ascii; by constructor | done]. Qed.

Lemma clean_join l : Forall clean l -> clean (join_unit COMMA l).
Proof.
  induction 1 as [|x l Hx Hl IH]; [apply clean_nil|].
  destruct l as [|y l]; [done|]. rewrite join_unit_cons by done.
  apply clean_app; [done|]. by apply clean_cons_ascii.
Qed.

Lemma quote_unit_ascii c : (c < 128)%N -> Forall (fun c => (c < 128)%N) (quote_unit c).
Proof.
  intros Hc. unfold quote_unit.
  repeat (destruct (_ =? _)%N; [by repeat constructor|]).
  destruct (c <? 32)%N; [|by repeat constructor].
  assert (forall n, (n < 16)%N -> (hex_digit n < 128)%N) as Hhex.
  { intros n Hn. unfold hex_digit. destruct (n <? 10)%N; lia. }
  repeat constructor; try lia; apply Hhex; lia.
Qed.

Lemma quote_unit_high c : (128 <= c)%N -> quote_unit c = [c].
Proof.
  intros Hc. unfold quote_unit.
  repeat (rewrite (proj2 (N.eqb_neq c _)) by lia). by rewrite (proj2 (N.ltb_ge c 32)) by lia.
Qed.

Lemma clean_quote_body s : clean s -> clean (quote_body s).
Proof.
  remember (length s) as n eqn:Hn. assert (length s <= n) as Hle by lia. clear Hn.
  revert s Hle. induction n as [|n IH]; intros [|c s] Hle [Hu Hp]; cbn [length] in Hle;
    try lia; try apply clean_nil.
  inversion_clear Hu as [|? ? Hc Hu']. unfold quote_body. cbn [map concat]. fold (quote_body s).
  cbn [hasUnpairedSurrogate] in Hp. destruct (is_high c) eqn:Hh.
  - destruct s as [|d s]; [done|]. destruct (is_low d) eqn:Hd; [|done].
    inversion_clear Hu' as [|? ? Hd' Hu].
    assert (128 <= c /\ 128 <= d)%N as [Hc1 Hd1].
    { unfold is_high, is_low in *. rewrite andb_true_iff, !N.leb_le in Hh, Hd. lia. }
    unfold quote_body. cbn [map concat]. fold (quote_body s).
    rewrite !quote_unit_high by done. rewrite app_assoc. apply clean_app.
    + split; [by repeat constructor|]. cbn. by rewrite Hh, Hd.
    + apply IH; [cbn in Hle; lia | done].
  - destruct (is_low c) eqn:Hl; [done|]. apply clean_app; [|by apply IH; [lia|]].
    destruct (decide (c < 128)%N) as [H1|H1].
    + by apply clean_ascii, quote_unit_ascii.
    + rewrite quote_unit_high by lia. split; [by repeat constructor|]. cbn. by rewrite Hh, Hl.
Qed.

Lemma clean_stringify s : clean s -> clean (JSON_stringify_string s).
Proof.
  intros Hs. unfold JSON_stringify_string. apply clean_cons_ascii; [lia|].
  apply clean_app; [by apply clean_quote_body | apply clean_ascii; by repeat constructor].
Qed.

Lemma uint_units_ascii d : Forall (fun c => (c < 128)%N) (uint_units d).
Proof. induction d; cbn; constructor; done || lia. Qed.

Lemma int_toString_ascii z : Forall (fun c => (c < 128)%N) (int_toString z).
Proof. unfold int_toString. destruct (z <? 0)%Z; [constructor; [lia|]|]; apply uint_units_ascii. Qed.

Abbreviation ascii_units := (Forall (fun c => (c < 128)%N)).

Lemma span_digits_ascii s : ascii_units (fst (span_digits s)).
Proof.
  induction s as [|c s IH]; cbn [span_digits]; [constructor|]. destruct (is_digit c) eqn:E; [|constructor].
  destruct (span_digits s) as [a b]. cbn in *. constructor; [|done].
  unfold is_digit in E. apply andb_true_iff in E as [_ E%N.leb_le]. lia.
Qed.

Lemma match_number_ascii s m r : match_number s = Some (m, r) -> ascii_units m.
Proof.
  assert (forall s, ascii_units (fst (match_fraction s))) as Hf.
  { intros [|c t]; cbn [match_fraction]; [constructor|]. destruct (c =? DOT)%N; [|constructor].
    pose proof (span_digits_ascii t) as Ht. destruct (span_digits t) as [a b].
    destruct a; [constructor|]. cbn in *. constructor; [done | done]. }
  assert (forall s, ascii_units (fst (match_exponent s))) as He.
  { intros [|c t]; cbn [match_exponent]; [constructor|]. destruct (_ || _) eqn:Ec; [|constructor].
    assert (c < 128)%N as Hc by (rewrite orb_true_iff, !N.eqb_eq in Ec; lia).
    destruct t as [|x t]; [constructor|]. destruct ((x =? 43)%N || _) eqn:Ex.
    - assert (x < 128)%N as Hx by (rewrite orb_true_iff, !N.eqb_eq in Ex; lia).
      pose proof (span_digits_ascii t) as Ht. destruct (span_digits t) as [[|a0 a] b]; [constructor|].
      cbn in *. constructor; [done|]. by constructor.
    - pose proof (span_digits_ascii (x :: t)) as Ht. destruct (span_digits (x :: t)) as [[|a0 a] b];
        [constructor|]. cbn in *. by constructor. }
  unfold match_number. destruct s as [|c s]; [done|].
  assert (forall sg s1, ascii_units sg ->
    match match s1 with
      | c :: r => if (c =? 48)%N then Some ([48%N], r)
                  else if is_digit c then Some (span_digits s1) else None
      | [] => None end with
    | None => None
    | Some (ip, s2) => let '(fp, s3) := match_fraction s2 in let '(ep, s4) := match_exponent s3 in
                       Some (sg ++ ip ++ fp ++ ep, s4)
    end = Some (m, r) -> ascii_units m) as Hint.
  { intros sg [|d t] Hsg; [done|].
    assert (forall ip s2, ascii_units ip ->
      (let '(fp, s3) := match_fraction s2 in let '(ep, s4) := match_exponent s3 in
       Some (sg ++ ip ++ fp ++ ep, s4)) = Some (m, r) -> ascii_units m) as Hk.
    { intros ip s2 Hip. pose proof (Hf s2) as H2. destruct (match_fraction s2) as [fp s3].
      pose proof (He s3) as H3. destruct (match_exponent s3) as [ep s4]. intros [= <- _].
      by repeat (apply Forall_app; split). }
    destruct (d =? 48)%N; [apply Hk; by repeat constructor|].
    destruct (is_digit d); [|done]. pose proof (span_digits_ascii (d :: t)) as Hd.
    destruct (span_digits (d :: t)) as [ip s2]. by apply Hk. }
  destruct (c =? 45)%N.
  - apply Hint. by repeat constructor.
  - apply (Hint [] (c :: s)). constructor.
Qed.

Section Binding.
Context `{D : Doubles} {L : DoublesLaws} `{Hashing}.

(** Strings and names of a value are lists of 16-bit units. *)
Fixpoint units_ok (v : jsvalue) : Prop :=
  match v with
  | VStr s => units16 s
  | VArr items => foldr (fun x P => units_ok x /\ P) True items
  | VObj fs => foldr (fun kv P => (units16 (fst kv) /\ units_ok (snd kv)) /\ P) True fs
  | _ => True
  end.

Lemma clean_show v : printable true v = true -> units_ok v -> clean (show v).
Proof.
  induction v as [| | | |b|n|s|items IH|fs IH] using jsvalue_ind'; intros Hp Hu; try done;
    try (apply clean_ascii; by repeat constructor).
  - destruct b; apply clean_ascii; by repeat constructor.
  - apply clean_ascii. destruct n as [| |z|d]; try done; cbn [show].
    + by repeat constructor.
    + apply int_toString_ascii.
    + eapply match_number_ascii, double_literal.
  - cbn [show printable units_ok] in *. apply negb_true_iff in Hp. by apply clean_stringify.
  - cbn [show printable units_ok] in *. rewrite forallb_forall in Hp. rewrite foldr_and_Forall in Hu.
    apply clean_cons_ascii; [lia|]. apply clean_app; [|apply clean_ascii; by repeat constructor].
    apply clean_join, Forall_forall. intros y (x & -> & Hx)%list_elem_of_fmap.
    rewrite Forall_forall in *. apply IH; [done | by apply Hp, list_elem_of_In | by apply Hu].
  - cbn [show printable units_ok] in *. rewrite forallb_forall in Hp. rewrite foldr_and_Forall in Hu.
    apply clean_cons_ascii; [lia|]. apply clean_app; [|apply clean_ascii; by repeat constructor].
    apply clean_join, Forall_forall. intros y ([k x] & -> & Hx)%list_elem_of_fmap.
    rewrite Forall_forall in *. destruct (Hu _ Hx) as [Hk Hux]. cbn [fst snd] in *.
    pose proof (Hp _ (proj1 (list_elem_of_In _ _) Hx)) as Hp'. cbn [fst snd] in Hp'.
    apply andb_true_iff in Hp' as [H1%negb_true_iff H2].
    apply clean_app; [by apply clean_stringify|]. apply clean_cons_ascii; [done|]. by apply (IH _ Hx).
Qed.

Lemma units_norm v : units_ok v -> units_ok (norm v).
Proof.
  induction v as [| | | |b|n|s|items IH|fs IH] using jsvalue_ind'; intros Hu; try done.
  - by destruct n.
  - cbn [norm units_ok] in *. rewrite foldr_and_Forall in *. rewrite Forall_forall in *.
    intros y (x & -> & Hx)%list_elem_of_fmap. by apply IH, Hu.
  - cbn [norm units_ok] in *. rewrite foldr_and_Forall in *. rewrite Forall_forall in *.
    intros y. rewrite elem_of_sort_by. intros ([k x] & -> & Hx)%list_elem_of_fmap.
    destruct (Hu _ Hx) as [? Hx']. split; [done|]. by apply (IH _ Hx).
Qed.

(** SHA-256 collides on these two texts. *)
Definition collides (t1 t2 : ustr) : Prop :=
  utf8_encode t1 <> utf8_encode t2 /\ sha256_hex (utf8_encode t1) = sha256_hex (utf8_encode t2).

(** The texts hashed for two tagged digests collide. *)
Definition tagged_collision (d1 : string) (v1 : Z) (p1 : jsvalue) (d2 : string) (v2 : Z) (p2 : jsvalue) : Prop :=
  exists t1 t2, tagged_text d1 v1 p1 = Ok t1 /\ tagged_text d2 v2 p2 = Ok t2 /\ collides t1 t2.

(** Equal digests of canonical text: the same value, or a collision of the two texts. *)
Lemma hash_injective v w t1 t2 :
  js_wf v -> js_wf w -> units_ok v -> units_ok w ->
  canonicalize v = Ok t1 -> canonicalize w = Ok t2 -> sha256Utf8 t1 = sha256Utf8 t2 ->
  collides t1 t2 \/ norm v = norm w.
Proof.
  intros Wv Ww Uv Uw Cv Cw E. unfold sha256Utf8, sha256Hex in E. apply app_inv_head in E.
  pose proof (walk_ok_printable _ _ _ Wv Cv) as Pv. pose proof (walk_ok_printable _ _ _ Ww Cw) as Pw.
  unfold canonicalize in *. rewrite (walk_printable_ok false v Wv Pv) in Cv.
  rewrite (walk_printable_ok false w Ww Pw) in Cw. injection Cv as <-. injection Cw as <-.
  destruct (decide (utf8_encode (show (norm v)) = utf8_encode (show (norm w)))) as [E'|Hne];
    [right | left; by split].
  apply printable_mono in Pv, Pw.
  destruct (clean_show (norm v)) as [A1 A2]; [by apply norm_printable | by apply units_norm|].
  destruct (clean_show (norm w)) as [B1 B2]; [by apply norm_printable | by apply units_norm|].
  apply show_norm_inj; try done. by apply utf8_encode_inj.
Qed.

Lemma envelope_norm d v o :
  norm (envelope d v o) =
  VObj [(u "domain", VStr (u d)); (u "payload", norm (VObj o)); (u "version", VNum (SafeInt v))].
Proof. done. Qed.

Lemma u_inj s t : u s = u t -> s = t.
Proof.
  unfold u. revert t. induction s as [|a s IH]; intros [|b t]; cbn; try done.
  intros [= E1 E2]. f_equal; [|by apply IH].
  by rewrite <- (ascii_N_embedding a), E1, ascii_N_embedding.
Qed.

(** ** The registry *)

Lemma registry_domains : NoDup (map domain DIGEST_PROJECTION_REGISTRY).
Proof. apply (bool_decide_unpack _). by vm_compute. Qed.

Lemma registry_entries :
  Forall (fun e => isSafe (version e) = true /\
                   (domain e <> "snapshot-root" -> nestedIncludedFields e = None))
    DIGEST_PROJECTION_REGISTRY.
Proof.
  repeat (constructor; [split; [done|]; first [intros _; reflexivity | intros Hn; by destruct Hn]|]).
  constructor.
Qed.

(** ** Projections *)

Lemma projectField_get fs l acc o :
  rfold (projectField fs None) acc l = Ok o -> forall k,
  JsMap.get k o =
    match (if includes k (map u l) then own_field fs k else None) with
    | Some v => Some v | None => JsMap.get k acc end.
Proof.
  revert acc. induction l as [|f l IH]; intros acc; cbn [rfold].
  { by intros [= <-] k. }
  intros Hr k. apply rbind_ok in Hr as (acc' & Hf & Hr). rewrite (IH _ Hr k). clear IH Hr.
  assert (includes k (map u (f :: l)) = bool_decide (k = u f) || includes k (map u l)) as ->.
  { cbn [map]. unfold includes. rewrite <- bool_decide_or. apply bool_decide_ext, elem_of_cons. }
  unfold projectField in Hf. destruct (own_field fs (u f)) as [v|] eqn:Ho; cbn in Hf; injection Hf as <-.
  - rewrite JsMap.get_set. destruct (decide (k = u f)) as [->|Hne].
    + rewrite bool_decide_true by done. cbn [orb]. rewrite Ho. by destruct (includes _ _).
    + rewrite bool_decide_false by done. done.
  - destruct (decide (k = u f)) as [->|Hne].
    + rewrite bool_decide_true by done. cbn [orb]. rewrite Ho. by destruct (includes _ _).
    + rewrite bool_decide_false by done. done.
Qed.

Lemma projectObject_get fs inc o :
  projectObject (VObj fs) inc None = Ok o -> forall k, JsMap.get k o = own_field fs k.
Proof.
  unfold projectObject. destruct (forallb _ fs) eqn:Ha; [|done]. cbn [negb]. intros Hr k.
  rewrite (projectField_get _ _ _ _ Hr k). cbn [JsMap.get].
  destruct (includes k (map u inc)) eqn:Hi; [by destruct (own_field fs k)|].
  unfold own_field. destruct (JsMap.get k fs) as [v|] eqn:Hg; [|done].
  apply JsMap.get_some_elem in Hg. rewrite forallb_forall in Ha.
  specialize (Ha _ (proj1 (list_elem_of_In _ _) Hg)). cbn in Ha. congruence.
Qed.

(** Projected objects are values again. *)
Definition good (v : jsvalue) : Prop := js_wf v /\ units_ok v.

Lemma good_obj fs : good (VObj fs) <->
  NoDup (map fst fs) /\ Forall (fun kv => units16 (fst kv) /\ good (snd kv)) fs.
Proof.
  unfold good. cbn [js_wf units_ok]. rewrite !foldr_and_Forall, !Forall_forall. naive_solver.
Qed.

Lemma u_units s : units16 (u s).
Proof.
  unfold u, units16. apply Forall_forall. intros x (c & -> & _)%list_elem_of_fmap.
  pose proof (N_ascii_bounded c). lia.
Qed.

Lemma good_set fs f v : good (VObj fs) -> good v -> good (VObj (JsMap.set (u f) v fs)).
Proof.
  rewrite !good_obj. intros [Hn Hf] Hv. split; [by apply JsMap.NoDup_keys_set|].
  apply Forall_forall. intros [k x] Hx.
  apply JsMap.elem_get in Hx; [|by apply JsMap.NoDup_keys_set]. rewrite JsMap.get_set in Hx.
  destruct (decide (k = u f)) as [->|]; [injection Hx as <-; split; [apply u_units | done]|].
  apply JsMap.get_some_elem in Hx. rewrite Forall_forall in Hf. by apply Hf.
Qed.

Lemma good_own fs k v : good (VObj fs) -> own_field fs k = Some v -> good v.
Proof.
  rewrite good_obj. intros [_ Hf] Ho. unfold own_field in Ho.
  apply bind_Some in Ho as (w & Hw & Ho). destruct (isUndefined w); [done|]. injection Ho as <-.
  apply JsMap.get_some_elem in Hw. rewrite Forall_forall in Hf. by apply (Hf (k, w)).
Qed.

Lemma good_arr items : good (VArr items) <-> Forall good items.
Proof. unfold good. cbn [js_wf units_ok]. rewrite !foldr_and_Forall, !Forall_forall. naive_solver. Qed.

Lemma good_nil_obj : good (VObj []).
Proof. apply good_obj. split; constructor. Qed.

Lemma good_flat v inc o : good v -> projectFlat v inc = Ok o -> good (VObj o).
Proof.
  intros Hg Hp. destruct v as [| | | | | | | |fs]; try done. unfold projectFlat in Hp.
  destruct (negb _); [done|]. injection Hp as <-.
  assert (forall l acc, good (VObj acc) -> good (VObj (fold_left (fun projected f =>
    match own_field fs (u f) with Some v => JsMap.set (u f) v projected | None => projected end)
    l acc))) as Hl; [|apply Hl, good_nil_obj].
  induction l as [|f l IH]; intros acc Ha; [done|]. cbn [fold_left]. apply IH.
  destruct (own_field fs (u f)) as [v|] eqn:Ho; [|done].
  apply good_set; [done|]. by apply (good_own fs (u f)).
Qed.

Lemma good_project p inc nested o :
  good p -> projectObject p inc nested = Ok o -> good (VObj o).
Proof.
  intros Hg Hp. destruct p as [| | | | | | | |fs]; try done. unfold projectObject in Hp.
  destruct (negb _); [done|].
  refine (rfold_ind (fun o => good (VObj o)) _ _ _ _ _ good_nil_obj Hp).
  intros acc f acc' _ Ha Hf. unfold projectField in Hf.
  destruct (own_field fs (u f)) as [v|] eqn:Ho; [|by injection Hf as <-].
  apply (good_own fs (u f)) in Ho; [|done].
  destruct (m ← nested; JsMap.get f m) as [inner|].
  - apply rbind_ok in Hf as (o' & Ho' & [= <-]). apply good_set; [done|]. by eapply good_flat.
  - injection Hf as <-. by apply good_set.
Qed.

Lemma good_sort_array key items : Forall good items -> Forall good (sort_array key items).
Proof. unfold sort_array. by rewrite sort_by_perm. Qed.

Lemma good_update f g fs :
  (forall items, Forall good items -> Forall good (g items)) ->
  good (VObj fs) -> good (VObj (update_array f g fs)).
Proof.
  intros Hgood Hfs. unfold update_array.
  destruct (JsMap.get (u f) fs) as [[| | | | | | |items|]|] eqn:Hg; try done.
  apply good_set; [done|]. apply good_arr, Hgood, good_arr.
  apply JsMap.get_some_elem in Hg. apply good_obj in Hfs as [_ Hfs].
  rewrite Forall_forall in Hfs. by apply (Hfs (u f, VArr items)).
Qed.

Lemma good_projectDigestPayload e p o :
  good p -> projectDigestPayload e p = Ok o -> good (VObj o).
Proof.
  intros Hg Hp. unfold projectDigestPayload in Hp. apply rbind_ok in Hp as (o' & Ho & Hp).
  apply good_project in Ho; [|done]. destruct (_ && _); [done|].
  case_bool_decide; injection Hp as <-; [|done]. unfold sortSnapshotRootPayload.
  repeat (apply good_update; [intros items Hi; try by apply good_sort_array|]); [|done].
  apply good_sort_array. apply Forall_forall. intros y (x & -> & Hx)%list_elem_of_fmap.
  rewrite Forall_forall in Hi. apply Hi in Hx. destruct x; try done; by repeat split; constructor.
Qed.

Lemma good_envelope d v o : isSafe v = true -> good (VObj o) -> good (envelope d v o).
Proof.
  intros Hv Ho. apply good_obj. split; [apply (bool_decide_unpack _); by vm_compute|].
  repeat (constructor; [split; [apply u_units|]|]); [| |done|constructor].
  - split; [done | apply u_units].
  - by split.
Qed.

Lemma norm_get fs gs k :
  NoDup (map fst fs) -> NoDup (map fst gs) -> norm (VObj fs) = norm (VObj gs) ->
  norm <$> JsMap.get k fs = norm <$> JsMap.get k gs.
Proof.
  intros Hf Hg E. cbn [norm] in E. injection E as E.
  set (nf := fun kv : ustr * jsvalue => (fst kv, norm (snd kv))) in *.
  assert (forall l : list (ustr * jsvalue), NoDup (map fst l) ->
    JsMap.get k (sort_by key_leb (map nf l)) = norm <$> JsMap.get k l) as Hs.
  { intros l Hl. rewrite <- (get_perm (map nf l)); [|by rewrite map_map | symmetry; apply sort_by_perm].
    clear. induction l as [|[k' v] l IH]; [done|]. cbn. case_decide; done. }
  by rewrite <- !Hs, E.
Qed.

Lemma tagged_text_inv d v p t :
  good p -> tagged_text d v p = Ok t ->
  exists e o, e ∈ DIGEST_PROJECTION_REGISTRY /\ domain e = d /\ version e = v /\
    projectDigestPayload e p = Ok o /\ good (envelope d v o) /\
    canonicalize (envelope d v o) = Ok t.
Proof.
  intros Hg Ht. unfold tagged_text in Ht. destruct (negb _); [done|].
  destruct (array_find _ _) as [e|] eqn:He; [|done]. apply array_find_some in He as [He Hd].
  apply bool_decide_eq_true in Hd. destruct (negb _) eqn:Hv in Ht; [done|].
  apply negb_false_iff, Z.eqb_eq in Hv. apply rbind_ok in Ht as (o & Ho & Ht).
  exists e, o. split_and!; try done.
  - apply good_envelope; [|by eapply good_projectDigestPayload].
    pose proof registry_entries as Hr. rewrite Forall_forall in Hr. destruct (Hr _ He). by subst v.
  - unfold of_canon in Ht. destruct (canonicalize _); congruence.
Qed.

Lemma registry_inj e1 e2 :
  e1 ∈ DIGEST_PROJECTION_REGISTRY -> e2 ∈ DIGEST_PROJECTION_REGISTRY -> domain e1 = domain e2 -> e1 = e2.
Proof.
  intros H1 H2 E. pose proof registry_domains as Hn.
  apply list_elem_of_lookup in H1 as [i Hi]. apply list_elem_of_lookup in H2 as [j Hj].
  assert (i = j) as ->; [|congruence].
  apply (NoDup_lookup _ i j (domain e1) Hn); rewrite list_lookup_fmap; [by rewrite Hi | by rewrite Hj, E].
Qed.

Lemma taggedHash_binding d1 v1 p1 d2 v2 p2 h :
  good p1 -> good p2 -> taggedHash d1 v1 p1 = Ok h -> taggedHash d2 v2 p2 = Ok h ->
  tagged_collision d1 v1 p1 d2 v2 p2 \/
  (d1 = d2 /\ v1 = v2 /\
   (exists e o1 o2, domain e = d1 /\ projectDigestPayload e p1 = Ok o1 /\
      projectDigestPayload e p2 = Ok o2 /\ norm (VObj o1) = norm (VObj o2)) /\
   (d1 <> "snapshot-root" -> exists fs1 fs2, p1 = VObj fs1 /\ p2 = VObj fs2 /\
      forall k, norm <$> own_field fs1 k = norm <$> own_field fs2 k)).
Proof.
  intros G1 G2 H1 H2. apply rbind_ok in H1 as (t1 & T1 & [= E1]). apply rbind_ok in H2 as (t2 & T2 & [= E2]).
  assert (Hcol : collides t1 t2 -> tagged_collision d1 v1 p1 d2 v2 p2) by (intros ?; by exists t1, t2).
  apply tagged_text_inv in T1 as (e1 & o1 & M1 & D1 & V1 & P1 & [W1 U1] & C1); [|done].
  apply tagged_text_inv in T2 as (e2 & o2 & M2 & D2 & V2 & P2 & [W2 U2] & C2); [|done].
  destruct (hash_injective _ _ _ _ W1 W2 U1 U2 C1 C2 ltac:(congruence)) as [Hc|E]; [left; by apply Hcol | right].
  rewrite !envelope_norm in E. injection E as Ed Eo Ev. apply u_inj in Ed.
  assert (norm (VObj o1) = norm (VObj o2)) as En by (cbn [norm]; by rewrite Eo). clear Eo.
  assert (e1 = e2) as <- by (apply registry_inj; congruence).
  split_and!; [done | done | by exists e1, o1, o2 |]. intros Hs.
  pose proof registry_entries as Hr. rewrite Forall_forall in Hr.
  destruct (Hr _ M1) as [_ Hn]. rewrite D1 in Hn.
  pose proof (good_projectDigestPayload _ _ _ G1 P1) as [N1 _]%good_obj.
  pose proof (good_projectDigestPayload _ _ _ G2 P2) as [N2 _]%good_obj.
  unfold projectDigestPayload in P1, P2. rewrite (Hn Hs) in P1, P2.
  apply rbind_ok in P1 as (x1 & X1 & P1). apply rbind_ok in P2 as (x2 & X2 & P2).
  destruct (_ && _) in P1; [done|]. destruct (_ && _) in P2; [done|].
  rewrite bool_decide_false in P1, P2 by congruence. injection P1 as ->. injection P2 as ->.
  destruct p1 as [| | | | | | | |fs1]; try done. destruct p2 as [| | | | | | | |fs2]; try done.
  exists fs1, fs2. split_and!; [done | done |]. intros k.
  rewrite <- (projectObject_get _ _ _ X1 k), <- (projectObject_get _ _ _ X2 k).
  by apply norm_get.
Qed.

(** C25: a tagged digest binds its domain, its version and every defined field of the payload: if
    two computations give the same digest then SHA-256 collides on the two texts hashed, or domain and version are equal
    and the hashed projections are equal up to key order; outside the order-insensitive
    snapshot-root domain the payloads themselves then have the same fields. *)
Theorem taggedHash_binds d1 v1 p1 d2 v2 p2 h :
  good p1 -> good p2 -> taggedHash d1 v1 p1 = Ok h -> taggedHash d2 v2 p2 = Ok h ->
  tagged_collision d1 v1 p1 d2 v2 p2 \/
  (d1 = d2 /\ v1 = v2 /\
   (exists e o1 o2, domain e = d1 /\ projectDigestPayload e p1 = Ok o1 /\
      projectDigestPayload e p2 = Ok o2 /\ norm (VObj o1) = norm (VObj o2)) /\
   (d1 <> "snapshot-root" -> exists fs1 fs2, p1 = VObj fs1 /\ p2 = VObj fs2 /\
      forall k, norm <$> own_field fs1 k = norm <$> own_field fs2 k)).
Proof. apply taggedHash_binding. Qed.

(** A payload field that is not registered for the domain is refused, so nothing is left out
    of a digest silently. *)
Theorem taggedHash_no_extra_field d v fs k h :
  taggedHash d v (VObj fs) = Ok h -> k ∈ map fst fs ->
  exists e, e ∈ DIGEST_PROJECTION_REGISTRY /\ domain e = d /\ version e = v /\
    exists f, k = u f /\ f ∈ includedFields e.
Proof.
  intros Ht Hk. apply rbind_ok in Ht as (t & Ht & _). unfold tagged_text in Ht.
  destruct (negb _); [done|]. destruct (array_find _ _) as [e|] eqn:He; [|done].
  apply array_find_some in He as [He Hd]. apply bool_decide_eq_true in Hd.
  destruct (negb _) eqn:Hv in Ht; [done|]. apply negb_false_iff, Z.eqb_eq in Hv.
  apply rbind_ok in Ht as (o & Ho & _). unfold projectDigestPayload, projectObject in Ho.
  destruct (forallb _ fs) eqn:Hf; [|done]. rewrite forallb_forall in Hf.
  apply list_elem_of_fmap in Hk as (kv & -> & Hkv).
  specialize (Hf _ (proj1 (list_elem_of_In _ _) Hkv)). apply includes_true in Hf.
  apply list_elem_of_fmap in Hf as (f & Ef & Hf).
  exists e. split_and!; [done..|]. by exists f.
Qed.
End Binding.

(** ** Order of paths

    The registry asks for entries sorted by UTF-8 path; the comparison orders code units. *)

Definition bytes_leb : bytes -> bytes -> bool := utf16_leb.

(** U+FF21 and U+1F600: code-unit order and UTF-8 byte order disagree. *)
Lemma compareUtf8_not_utf8_order :
  let a := [65313]%N in let b := [55357; 56832]%N in
  compareUtf8_leb b a = true /\ compareUtf8_leb a b = false /\
  bytes_leb (utf8_encode a) (utf8_encode b) = true /\ bytes_leb (utf8_encode b) (utf8_encode a) = false.
Proof. vm_compute. done. Qed.

(** ** Witnesses *)

#[local] Existing Instance half_doubles.
#[local] Existing Instance half_laws.

Definition text_hash : Hashing := {| sha256_hex := fun bs => bs |}.
#[local] Existing Instance text_hash.

Definition quote_payload (s : string) : jsvalue := VObj [(u "bytesBase64url", VStr (u s))].

Lemma quote_good s : good (quote_payload s).
Proof.
  apply good_obj. split; [apply NoDup_singleton|].
  repeat constructor; cbn [fst snd]; try apply u_units; done.
Qed.

Lemma taggedHash_binds_witness :
  exists h, taggedHash "quote" 1 (quote_payload "abc") = Ok h /\
  (tagged_collision "quote" 1 (quote_payload "abc") "quote" 1 (quote_payload "abc") \/
   ("quote" = "quote" /\ 1%Z = 1%Z)).
Proof.
  exists (match taggedHash "quote" 1 (quote_payload "abc") with Ok h => h | Err _ => [] end).
  split; [vm_compute; reflexivity|].
  destruct (taggedHash_binds "quote" 1 (quote_payload "abc") "quote" 1 (quote_payload "abc")
    (match taggedHash "quote" 1 (quote_payload "abc") with Ok h => h | Err _ => [] end)
    (quote_good _) (quote_good _)) as [?|(? & ? & _)];
    [vm_compute; reflexivity | vm_compute; reflexivity | by left | by right].
Defined.

Lemma taggedHash_no_extra_field_witness :
  exists e, e ∈ DIGEST_PROJECTION_REGISTRY /\ domain e = "quote".
Proof.
  destruct (taggedHash_no_extra_field "quote" 1 [(u "bytesBase64url", VStr (u "abc"))] (u "bytesBase64url")
    (match taggedHash "quote" 1 (quote_payload "abc") with Ok h => h | Err _ => [] end))
    as (e & ? & ? & _); [vm_compute; reflexivity | left | by exists e].
Defined.
