(* ===== verification/RelativePath.v ===== *)
(** Relative paths: packages/repository/src/relative-path.ts and
    packages/verification/src/changeset/paths.ts.

    The Unicode tables behind [String.prototype.normalize("NFC")] and [toUpperCase] are an
    interface; what the theorems use of them is stated as the laws [UnicodeLaws]. *)

From Stdlib Require Import Ascii String.
From S2P Require Import Prelude JsText TextPatch.
Open Scope string_scope.
Open Scope list_scope.

Class Unicode := {
  nfc : ustr -> ustr;
  toUpperCase : ustr -> ustr
}.

Definition ascii_upper (c : N) : N := if (97 <=? c)%N && (c <=? 122)%N then (c - 32)%N else c.
Definition all_ascii (s : ustr) : Prop := Forall (fun c => (c < 128)%N) s.

Class UnicodeLaws `{Unicode} := {
  nfc_ascii s : all_ascii s -> nfc s = s;
  nfc_idem s : nfc (nfc s) = nfc s;
  upper_ascii s : all_ascii s -> toUpperCase s = map ascii_upper s
}.

Definition PATH_MAX_UTF8_BYTES : nat := 32767.
Definition PATH_SEGMENT_MAX_UTF8_BYTES : nat := 1024.

Definition RESERVED_BASE : list ustr :=
  map u ["CON"; "PRN"; "AUX"; "NUL";
         "COM0"; "COM1"; "COM2"; "COM3"; "COM4"; "COM5"; "COM6"; "COM7"; "COM8"; "COM9";
         "LPT0"; "LPT1"; "LPT2"; "LPT3"; "LPT4"; "LPT5"; "LPT6"; "LPT7"; "LPT8"; "LPT9";
         "CONIN$"; "CONOUT$"].

Section Paths.
Context `{Unicode}.

(** ** relative-path.ts *)

Definition caseFoldKey (text : ustr) (caseSensitive : bool) : ustr :=
  let n := nfc text in if caseSensitive then n else toUpperCase n.

Definition isReservedComponent (name : ustr) : bool :=
  let stem := default name (head (split_unit DOT name)) in
  includes (toUpperCase stem) RESERVED_BASE.

Definition TILDE : N := 126.

Definition isEightDotThree (name : ustr) : bool :=
  let upper := toUpperCase name in
  let split := split_unit DOT upper in
  let stem := default upper (head split) in
  let ext := if (1 <? length split)%nat then Some (join_unit DOT (drop 1 split)) else None in
  match indexOf [TILDE] stem with
  | None => false
  | Some tilde =>
      let left := take tilde stem in
      let right := drop (tilde + 1) stem in
      if bool_decide (left = []) || (6 <? length left)%nat then false
      else if bool_decide (right = []) || negb (forallb is_digit right) then false
      else match ext with
           | Some e => if (3 <? length e)%nat then false else true
           | None => true
           end
  end.

Definition is_letter (c : N) : bool :=
  ((65 <=? c)%N && (c <=? 90)%N) || ((97 <=? c)%N && (c <=? 122)%N).

Definition isDriveRelative (path : ustr) : bool :=
  match path with
  | first :: second :: rest =>
      if negb (is_letter first) || negb (second =? COLON)%N then false
      else match rest with
           | [] => true
           | third :: _ => negb (third =? SLASH)%N && negb (third =? BACKSLASH)%N
           end
  | _ => false
  end.

Definition isDeviceNamespace (path : ustr) : bool :=
  let upper := toUpperCase (replaceAll [SLASH] [BACKSLASH] path) in
  startsWith [92; 92; 46; 92]%N upper || startsWith [92; 92; 63; 92]%N upper ||
  startsWith [92; 63; 63; 92]%N upper || startsWith [47; 47; 46; 47]%N upper ||
  startsWith [47; 47; 63; 47]%N upper.

Definition isProtectedGitSegment (segment : ustr) : bool :=
  bool_decide (caseFoldKey segment false = u ".GIT").

(** One segment of the loop: [None] goes on to the next. *)
Definition classifySegment (allowGit : bool) (segment : ustr) : option ChangeSetCode :=
  if bool_decide (segment = []) || bool_decide (segment = [DOT]) || bool_decide (segment = [DOT; DOT])
     || (PATH_SEGMENT_MAX_UTF8_BYTES <? utf8ByteLength segment)%nat then Some PATH_TRAVERSAL
  else if endsWith [SPACE] segment || endsWith [DOT] segment then Some PATH_RESERVED
  else if isReservedComponent segment then Some PATH_RESERVED
  else if isEightDotThree segment then Some PATH_RESERVED
  else if negb allowGit && isProtectedGitSegment segment then Some PATH_PROTECTED
  else None.

Fixpoint classifySegments (allowGit : bool) (segments : list ustr) : option ChangeSetCode :=
  match segments with
  | [] => None
  | s :: rest => match classifySegment allowGit s with
                 | Some code => Some code
                 | None => classifySegments allowGit rest
                 end
  end.

Definition classifyRelativePath (path : ustr) (allowProtectedGit : bool) : option ChangeSetCode :=
  if has_unit NUL path then Some PATH_TRAVERSAL
  else if has_unit BACKSLASH path || startsWith [SLASH] path || startsWith [SLASH; SLASH] path
  then Some PATH_ABSOLUTE
  else if isDeviceNamespace path || isDriveRelative path then Some PATH_DEVICE
  else if has_unit COLON path then Some PATH_ADS
  else if negb (bool_decide (nfc path = path)) then Some UNICODE_COLLISION
  else if (PATH_MAX_UTF8_BYTES <? utf8ByteLength path)%nat then Some PATH_LENGTH
  else let segments := split_unit SLASH path in
       if bool_decide (segments = []) then Some PATH_TRAVERSAL
       else classifySegments allowProtectedGit segments.

(** ** paths.ts *)

(** The text before and after the last separator. *)
Fixpoint split_last (path : ustr) : option (ustr * ustr) :=
  match path with
  | [] => None
  | c :: r =>
      match split_last r with
      | Some (p, b) => Some (c :: p, b)
      | None => if (c =? SLASH)%N then Some ([], r) else None
      end
  end.

Definition parentPath (path : ustr) : option ustr := fst <$> split_last path.
Definition basename (path : ustr) : ustr :=
  match split_last path with Some (_, b) => b | None => path end.

Definition isPrefixPath (prefix other : ustr) : bool :=
  bool_decide (other = prefix) || startsWith (prefix ++ [SLASH]) other.

Definition simpleFold (text : ustr) : ustr := caseFoldKey text false.

Definition namesCollide (left right : ustr) (caseSensitive : bool) : bool :=
  if bool_decide (left = right) then false
  else if bool_decide (nfc left = nfc right) then true
  else negb caseSensitive && bool_decide (simpleFold left = simpleFold right).

Definition caseOnlyRename (from to : ustr) (caseSensitive : bool) : bool :=
  if bool_decide (from = to) then false
  else if negb (bool_decide (parentPath from = parentPath to)) then false
  else if caseSensitive then false
  else bool_decide (simpleFold (basename from) = simpleFold (basename to)).

Definition assertSafePath (path : ustr) (allowProtectedGit : bool) : res unit :=
  match classifyRelativePath path allowProtectedGit with
  | None => Ok tt
  | Some code => Err code
  end.

(** The loop over the target's segments: [parts] is the stack of directories. *)
Fixpoint resolveTarget (parts : list ustr) (segments : list ustr) : res (list ustr) :=
  match segments with
  | [] => Ok parts
  | s :: rest =>
      if bool_decide (s = []) || bool_decide (s = [DOT]) then resolveTarget parts rest
      else if bool_decide (s = [DOT; DOT]) then
        match parts with
        | [] => Err SYMLINK_ESCAPE
        | _ => resolveTarget (removelast parts) rest
        end
      else resolveTarget (parts ++ [s]) rest
  end.

Definition assertSymlinkTargetContained (fromPath target : ustr) : res ustr :=
  throw_if has_unit NUL target with SYMLINK_ESCAPE;
  let normalized := replaceAll [BACKSLASH] [SLASH] (nfc target) in
  throw_if negb (bool_decide (normalized = nfc (replaceAll [BACKSLASH] [SLASH] target)))
    with SYMLINK_ESCAPE;
  throw_if startsWith [SLASH] normalized || startsWith [SLASH; SLASH] normalized
           || has_unit COLON normalized with SYMLINK_ESCAPE;
  let classified := classifyRelativePath (replaceAll [BACKSLASH] [SLASH] normalized) false in
  throw_if bool_decide (classified = Some PATH_DEVICE) with SYMLINK_ESCAPE;
  let parts := match parentPath fromPath with None => [] | Some p => split_unit SLASH p end in
  let? _ := resolveTarget parts (split_unit SLASH normalized) in
  Ok normalized.
End Paths.
