(* ===== verification/ChangeApply.v ===== *)
(** The ephemeral candidate tree (packages/verification/src/changeset/tree.ts). *)

From Stdlib Require Import String.
From S2P Require Import Prelude JsText TextPatch CanonicalJson Digest RelativePath.
Open Scope string_scope.
Open Scope list_scope.

(** ** Data *)

Inductive PlatformMetadata : Type :=
| Windows (fileId : ustr) (alternateStreams : list ustr)
| Posix (device inode : ustr).

Inductive GitMode : Set := M100644 | M100755.
#[export] Instance GitMode_eq_dec : EqDecision GitMode.
Proof. solve_decision. Defined.

Inductive EntryType : Set := T_file | T_directory | T_symlink | T_submodule.
#[export] Instance EntryType_eq_dec : EqDecision EntryType.
Proof. solve_decision. Defined.

Definition entryType_text (t : EntryType) : ustr :=
  match t with
  | T_file => u "file" | T_directory => u "directory"
  | T_symlink => u "symlink" | T_submodule => u "submodule"
  end.

(** The part of a node that depends on its [entryType]. *)
Inductive Content : Type :=
| FileContent (gitMode : GitMode) (bs : bytes) (contentDigest : Digest)
| DirectoryContent
| SymlinkContent (symlinkTarget : ustr) (contentDigest : Digest)
| SubmoduleContent (gitObjectId : ustr).

Record TreeNode := mkNode {
  path : ustr;
  content : Content;
  platformMetadata : option PlatformMetadata
}.

Definition entryType (n : TreeNode) : EntryType :=
  match content n with
  | FileContent _ _ _ => T_file
  | DirectoryContent => T_directory
  | SymlinkContent _ _ => T_symlink
  | SubmoduleContent _ => T_submodule
  end.

Inductive NameComparison : Set := case_sensitive | case_insensitive.

Record EphemeralTree := mkTree {
  caseSensitive : bool;
  nodes : list (ustr * TreeNode)
}.

(** The data of a fingerprint: [JSON.stringify(snapshotFingerprint(node))] is a text of exactly
    these fields in this order. *)
Inductive Fingerprint : Type :=
| FP_file (p : ustr) (gitMode : GitMode) (contentDigest : Digest)
| FP_directory (p : ustr)
| FP_symlink (p symlinkTarget : ustr) (contentDigest : Digest)
| FP_submodule (p gitObjectId : ustr).
#[export] Instance Fingerprint_eq_dec : EqDecision Fingerprint.
Proof. solve_decision. Defined.

Definition snapshotFingerprint (n : TreeNode) : Fingerprint :=
  match content n with
  | FileContent m _ d => FP_file (path n) m d
  | DirectoryContent => FP_directory (path n)
  | SymlinkContent t d => FP_symlink (path n) t d
  | SubmoduleContent o => FP_submodule (path n) o
  end.

Section Tree.
Context `{Doubles} `{Hashing} `{Unicode}.

Definition fileDigest (bs : bytes) : Digest := sha256Hex bs.
Definition symlinkDigest (target : ustr) : Digest := sha256Utf8 target.

Definition identityKey (metadata : option PlatformMetadata) : option ustr :=
  match metadata with
  | None => None
  | Some (Windows fileId _) => Some (u "windows:" ++ fileId)
  | Some (Posix device inode) => Some (u "posix:" ++ device ++ [COLON] ++ inode)
  end.

(** A baseline entry has the fields of a node; its digest is checked. *)
Definition fromBaseline (entry : TreeNode) : res TreeNode :=
  match content entry with
  | FileContent m bs d =>
      throw_if negb (bool_decide (fileDigest bs = d)) with BASELINE_DIGEST; Ok entry
  | SymlinkContent t d =>
      throw_if negb (bool_decide (symlinkDigest t = d)) with BASELINE_DIGEST; Ok entry
  | DirectoryContent | SubmoduleContent _ => Ok entry
  end.

(** ** Queries *)

Definition get (tree : EphemeralTree) (p : ustr) : option TreeNode := JsMap.get p (nodes tree).
Definition has (tree : EphemeralTree) (p : ustr) : bool := JsMap.has p (nodes tree).

Definition is_type (t : EntryType) (n : option TreeNode) : bool :=
  match n with Some n => bool_decide (entryType n = t) | None => false end.

Definition requireParentDirectory (tree : EphemeralTree) (p : ustr) : res unit :=
  match parentPath p with
  | None => Ok tt
  | Some parent => throw_if negb (is_type T_directory (get tree parent)) with PARENT_MISSING; Ok tt
  end.

(** The strict prefixes of a path, shortest first. *)
Fixpoint strict_prefixes (prefix : ustr) (segments : list ustr) : list ustr :=
  match segments with
  | [] | [_] => []
  | s :: rest =>
      let p := if bool_decide (prefix = []) then s else prefix ++ [SLASH] ++ s in
      p :: strict_prefixes p rest
  end.

Definition rejectSymlinkAlias (tree : EphemeralTree) (p : ustr) : res unit :=
  throw_if existsb (fun prefix => is_type T_symlink (get tree prefix))
             (strict_prefixes [] (split_unit SLASH p)) with SYMLINK_ALIAS;
  Ok tt.

Definition rejectAlias (tree : EphemeralTree) (p : ustr) : res unit :=
  let? _ := rejectSymlinkAlias tree p in
  throw_if existsb (fun existing =>
             negb (bool_decide (existing = p)) && bool_decide (parentPath existing = parentPath p)
             && namesCollide (basename p) (basename existing) (caseSensitive tree))
             (JsMap.keys (nodes tree)) with ALIAS_AMBIGUOUS;
  Ok tt.

Definition requireAbsent (tree : EphemeralTree) (p : ustr) : res unit :=
  throw_if has tree p with PATH_MUST_BE_ABSENT;
  rejectAlias tree p.

(** ** Updates *)

Definition set (tree : EphemeralTree) (node : TreeNode) : EphemeralTree :=
  mkTree (caseSensitive tree) (JsMap.set (path node) node (nodes tree)).

Definition delete (tree : EphemeralTree) (p : ustr) : res EphemeralTree :=
  throw_if negb (has tree p) with PATH_MUST_EXIST;
  Ok (mkTree (caseSensitive tree) (JsMap.del p (nodes tree))).

Definition list_ (tree : EphemeralTree) : list TreeNode := JsMap.values (nodes tree).

Definition children (tree : EphemeralTree) (dirPath : ustr) : list TreeNode :=
  List.filter (fun n => startsWith (dirPath ++ [SLASH]) (path n)
                        && bool_decide (parentPath (path n) = Some dirPath)) (list_ tree).

Definition of_digest {A} (c : result DigestErr A) : res A :=
  match c with Ok a => Ok a | Err _ => Err DIGEST_THROWN end.

Definition path_leb (a b : ustr) : bool := utf16_leb a b.

(** [contentDigestOf] and [directoryTreeDigest]; [fuel] bounds the nesting of directories. *)
Fixpoint directoryTreeDigest (fuel : nat) (tree : EphemeralTree) (dirPath : ustr) : res Digest :=
  match fuel with
  | O => Err OUT_OF_FUEL
  | S fuel' =>
      let? entries := rmap (fun child =>
        let? digest := match content child with
          | FileContent _ _ d | SymlinkContent _ d => Ok d
          | DirectoryContent => directoryTreeDigest fuel' tree (path child)
          | SubmoduleContent o => Ok (sha256Utf8 o)
          end in
        Ok (path child, entryType_text (entryType child), digest)) (children tree dirPath) in
      let sorted := sort_by (fun a b => path_leb (fst (fst a)) (fst (fst b))) entries in
      of_digest (taggedHash "directory-tree" 1
        (VObj [(u "path", VStr dirPath);
               (u "entries", VArr (map (fun e => VObj [(u "path", VStr (fst (fst e)));
                  (u "entryType", VStr (snd (fst e))); (u "digest", VStr (snd e))]) sorted))]))
  end.

(** ** Invariants *)

(** The state of the loop: hardlink identities and folded names, each with the path seen. *)
Definition assertNode (tree : EphemeralTree) (st : list (ustr * ustr) * list (ustr * ustr))
  (n : TreeNode) : res (list (ustr * ustr) * list (ustr * ustr)) :=
  let '(identities, foldKeys) := st in
  let? _ := assertSafePath (path n) true in
  let? _ := rejectSymlinkAlias tree (path n) in
  let parent := parentPath (path n) in
  let? _ := match parent with
    | Some p => throw_if negb (is_type T_directory (get tree p)) with PARENT_MISSING; Ok tt
    | None => Ok tt
    end in
  let? _ := match content n with
    | SymlinkContent t _ => let? _ := assertSymlinkTargetContained (path n) t in Ok tt
    | _ => Ok tt
    end in
  let? identities := match identityKey (platformMetadata n) with
    | None => Ok identities
    | Some key =>
        throw_if match JsMap.get key identities with
                 | Some previous => negb (bool_decide (previous = path n))
                 | None => false
                 end with HARDLINK;
        Ok (JsMap.set key (path n) identities)
    end in
  let fold := default [] parent ++ [NUL] ++
              (if caseSensitive tree then basename (path n) else simpleFold (basename (path n))) in
  throw_if match JsMap.get fold foldKeys with
           | Some existing => negb (bool_decide (existing = path n))
           | None => false
           end with CASE_COLLISION;
  let foldKeys := JsMap.set fold (path n) foldKeys in
  throw_if match platformMetadata n with
           | Some (Windows _ streams) =>
               negb (bool_decide (streams = []))
               && negb (bool_decide (entryType n = T_file))
               && negb (bool_decide (entryType n = T_directory))
           | _ => false
           end with PATH_ADS;
  Ok (identities, foldKeys).

Definition assertInvariants (tree : EphemeralTree) : res unit :=
  let? _ := rfold (assertNode tree) ([], []) (list_ tree) in Ok tt.

(** [new EphemeralTree(filesystem, entries)] *)
Definition addBaseline (tree : EphemeralTree) (entry : TreeNode) : res EphemeralTree :=
  let? _ := assertSafePath (path entry) true in
  throw_if has tree (path entry) with ALIAS_AMBIGUOUS;
  let? n := fromBaseline entry in
  Ok (set tree n).

Definition new_EphemeralTree (rootChildNameComparison : NameComparison) (entries : list TreeNode)
  : res EphemeralTree :=
  let cs := match rootChildNameComparison with case_sensitive => true | case_insensitive => false end in
  let? tree := rfold addBaseline (mkTree cs []) entries in
  let? _ := assertInvariants tree in
  Ok tree.

(** ** Candidate entries *)

Definition toCandidate (n : TreeNode) : TreeNode := mkNode (path n) (content n) None.

Definition toCandidateEntries (tree : EphemeralTree) : list TreeNode :=
  sort_by (fun a b => path_leb (path a) (path b)) (map toCandidate (list_ tree)).
End Tree.

(** Change sets: packages/verification/src/changeset/{apply,chains,validate}.ts, and the normalised
    digest of packages/domain/src/no-progress.ts. *)

Open Scope string_scope.
Open Scope list_scope.

(** ** Base64 *)

Definition b64_char (n : N) : N :=
  if (n <? 26)%N then (65 + n)%N
  else if (n <? 52)%N then (71 + n)%N
  else if (n <? 62)%N then (n - 4)%N
  else if (n =? 62)%N then 43%N else 47%N.

Definition b64_value (c : N) : option N :=
  if (65 <=? c)%N && (c <=? 90)%N then Some (c - 65)%N
  else if (97 <=? c)%N && (c <=? 122)%N then Some (c - 71)%N
  else if (48 <=? c)%N && (c <=? 57)%N then Some (c + 4)%N
  else if (c =? 43)%N then Some 62%N
  else if (c =? 47)%N then Some 63%N
  else None.

Definition PAD : N := 61.

(** [bytes.toString("base64")] *)
Fixpoint b64_encode (bs : bytes) : ustr :=
  match bs with
  | [] => []
  | [a] => [b64_char (a / 4); b64_char ((a mod 4) * 16); PAD; PAD]
  | [a; b] => [b64_char (a / 4); b64_char ((a mod 4) * 16 + b / 16); b64_char ((b mod 16) * 4); PAD]
  | a :: b :: c :: r =>
      b64_char (a / 4) :: b64_char ((a mod 4) * 16 + b / 16) ::
      b64_char ((b mod 16) * 4 + c / 64) :: b64_char (c mod 64) :: b64_encode r
  end%N.

(** [Buffer.from(s, "base64")] on texts of whole padded groups. *)
Fixpoint b64_decode (s : ustr) : option bytes :=
  match s with
  | [] => Some []
  | w :: x :: y :: z :: r =>
      a ← b64_value w; b ← b64_value x;
      if (z =? PAD)%N then
        match r with
        | [] => if (y =? PAD)%N then Some [a * 4 + b / 16]%N
                else c ← b64_value y; Some [a * 4 + b / 16; (b mod 16) * 16 + c / 4]%N
        | _ => None
        end
      else c ← b64_value y; d ← b64_value z;
           (fun t => a * 4 + b / 16 :: (b mod 16) * 16 + c / 4 :: (c mod 4) * 64 + d :: t)%N
             <$> b64_decode r
  | _ => None
  end.

(** A text that is not made of whole padded groups never equals the re-encoded bytes. *)
Definition decodeBase64 (content : ustr) : res bytes :=
  match b64_decode content with
  | Some bs => throw_if negb (bool_decide (b64_encode bs = content)) with SCHEMA_INVALID; Ok bs
  | None => Err SCHEMA_INVALID
  end.

(** ** Operations *)

Inductive ChangeOperation : Type :=
| text_patch (p : ustr) (expectedBeforeDigest expectedAfterDigest : Digest) (unifiedDiff : ustr)
    (insertedLineEnding : LineEnding) (finalNewline : FinalNewline)
| create_text (p content : ustr) (expectedAfterDigest : Digest) (gitMode : GitMode)
| create_directory (p : ustr)
| write_binary (p : ustr) (expectedBeforeDigest : option Digest) (mediaType base64Content : ustr)
    (expectedAfterDigest : Digest) (gitMode : GitMode)
| op_delete (p : ustr) (expectedBeforeDigest : Digest)
| delete_directory (p : ustr) (expectedTreeDigest : Digest)
| move (from to : ustr) (expectedBeforeDigest : Digest) (expectedDestinationDigest : option Digest)
| set_git_mode (p : ustr) (expectedBeforeDigest : Digest) (expectedCurrentMode newMode : GitMode)
| symlink (p target : ustr) (expectedBeforeDigest : option Digest) (expectedAfterDigest : Digest).

Inductive OpKind : Set :=
| K_text_patch | K_create_text | K_create_directory | K_write_binary | K_delete
| K_delete_directory | K_move | K_set_git_mode | K_symlink.
#[export] Instance OpKind_eq_dec : EqDecision OpKind.
Proof. solve_decision. Defined.

Definition op_kind (op : ChangeOperation) : OpKind :=
  match op with
  | text_patch _ _ _ _ _ _ => K_text_patch
  | create_text _ _ _ _ => K_create_text
  | create_directory _ => K_create_directory
  | write_binary _ _ _ _ _ _ => K_write_binary
  | op_delete _ _ => K_delete
  | delete_directory _ _ => K_delete_directory
  | move _ _ _ _ => K_move
  | set_git_mode _ _ _ _ => K_set_git_mode
  | symlink _ _ _ _ => K_symlink
  end.

Section Apply.
Context `{Doubles} `{Hashing} `{Unicode}.

(** ** apply.ts *)

Definition requireExisting (tree : EphemeralTree) (p : ustr) : res TreeNode :=
  match get tree p with None => Err PATH_MUST_EXIST | Some n => Ok n end.

Definition requireDigest (n : TreeNode) (expected : Digest) (code : ChangeSetCode) : res unit :=
  match content n with
  | FileContent _ _ d | SymlinkContent _ d =>
      throw_if negb (bool_decide (d = expected)) with code; Ok tt
  | _ => Err code
  end.

Definition is_file_or_symlink (n : TreeNode) : bool :=
  bool_decide (entryType n = T_file) || bool_decide (entryType n = T_symlink).

Definition CASE_TEMP_PREFIX : ustr := u ".pi-hec-case-tmp-".

Definition temp_candidate (from : ustr) (n : nat) : ustr :=
  CASE_TEMP_PREFIX ++ int_toString (Z.of_nat n) ++ u "-" ++ replaceAll [SLASH] (u "_") from.

Definition uniqueTempPath (tree : EphemeralTree) (from : ustr) : res ustr :=
  match array_find (fun c => negb (has tree c)) (map (temp_candidate from) (seq 0 64)) with
  | Some c => Ok c
  | None => Err ALIAS_AMBIGUOUS
  end.

Definition putFile (tree : EphemeralTree) (p : ustr) (gitMode : GitMode) (bs : bytes)
  (expectedAfter : Digest) (metadata : option PlatformMetadata) : res EphemeralTree :=
  let contentDigest := fileDigest bs in
  throw_if negb (bool_decide (contentDigest = expectedAfter)) with DIGEST_AFTER_MISMATCH;
  Ok (set tree (mkNode p (FileContent gitMode bs contentDigest) metadata)).

Definition apply_text_patch (tree : EphemeralTree) (p : ustr) (before after : Digest) (diff : ustr)
  (ile : LineEnding) (fn : FinalNewline) : res EphemeralTree :=
  let? _ := assertSafePath p false in
  let? _ := rejectSymlinkAlias tree p in
  let? n := requireExisting tree p in
  match content n with
  | FileContent mode bs d =>
      let? _ := requireDigest n before DIGEST_BEFORE_MISMATCH in
      let? next := applyUnifiedDiff bs (mkTextPatchOptions diff p ile fn) in
      putFile tree p mode next after (platformMetadata n)
  | _ => Err TEXT_PATCH_ENCODING
  end.

Definition apply_create_text (tree : EphemeralTree) (p text : ustr) (after : Digest) (mode : GitMode)
  : res EphemeralTree :=
  let? _ := assertSafePath p false in
  let? _ := requireAbsent tree p in
  let? _ := requireParentDirectory tree p in
  let? _ := rejectSymlinkAlias tree p in
  let bs := utf8_encode text in
  throw_if has_unit 0 bs with TEXT_PATCH_ENCODING;
  putFile tree p mode bs after None.

Definition apply_create_directory (tree : EphemeralTree) (p : ustr) : res EphemeralTree :=
  let? _ := assertSafePath p false in
  let? _ := requireAbsent tree p in
  let? _ := requireParentDirectory tree p in
  let? _ := rejectSymlinkAlias tree p in
  Ok (set tree (mkNode p DirectoryContent None)).

Definition apply_write_binary (tree : EphemeralTree) (p : ustr) (before : option Digest)
  (base64Content : ustr) (after : Digest) (mode : GitMode) : res EphemeralTree :=
  let? _ := assertSafePath p false in
  let? _ := requireParentDirectory tree p in
  let? _ := rejectSymlinkAlias tree p in
  let? bs := decodeBase64 base64Content in
  match before with
  | None =>
      let? _ := requireAbsent tree p in
      putFile tree p mode bs after None
  | Some expected =>
      let? existing := requireExisting tree p in
      throw_if negb (is_file_or_symlink existing) with DIGEST_BEFORE_MISMATCH;
      let? _ := requireDigest existing expected DIGEST_BEFORE_MISMATCH in
      putFile tree p mode bs after (platformMetadata existing)
  end.

Definition apply_delete (tree : EphemeralTree) (p : ustr) (before : Digest) : res EphemeralTree :=
  let? _ := assertSafePath p false in
  let? _ := rejectSymlinkAlias tree p in
  let? n := requireExisting tree p in
  throw_if negb (is_file_or_symlink n) with PATH_MUST_EXIST;
  let? _ := requireDigest n before DIGEST_BEFORE_MISMATCH in
  delete tree p.

Definition apply_delete_directory (tree : EphemeralTree) (p : ustr) (expected : Digest)
  : res EphemeralTree :=
  let? _ := assertSafePath p false in
  let? _ := rejectSymlinkAlias tree p in
  let? n := requireExisting tree p in
  throw_if negb (bool_decide (entryType n = T_directory)) with DIRECTORY_NOT_EMPTY;
  throw_if (0 <? length (children tree p))%nat with DIRECTORY_NOT_EMPTY;
  let? digest := directoryTreeDigest (S (length (nodes tree))) tree p in
  throw_if negb (bool_decide (digest = expected)) with DIRECTORY_TREE_MISMATCH;
  delete tree p.

Definition with_path (n : TreeNode) (p : ustr) : TreeNode := mkNode p (content n) (platformMetadata n).

Definition apply_move (tree : EphemeralTree) (from to : ustr) (before : Digest)
  (destDigest : option Digest) : res EphemeralTree :=
  let? _ := assertSafePath from false in
  let? _ := assertSafePath to false in
  let? _ := rejectSymlinkAlias tree from in
  let? _ := rejectSymlinkAlias tree to in
  let? source := requireExisting tree from in
  throw_if negb (is_file_or_symlink source) with MOVE_DIRECTORY_FORBIDDEN;
  let? _ := requireDigest source before DIGEST_BEFORE_MISMATCH in
  let? _ := requireParentDirectory tree to in
  let caseRename := caseOnlyRename from to (caseSensitive tree) in
  let destination := get tree to in
  let? _ := match destDigest, destination with
    | None, Some _ => throw_if negb caseRename with MOVE_OVERWRITE; Ok tt
    | None, None => Ok tt
    | Some _, None => Err PATH_MUST_EXIST
    | Some expected, Some dest =>
        throw_if negb (is_file_or_symlink dest) with MOVE_OVERWRITE;
        requireDigest dest expected DIGEST_BEFORE_MISMATCH
    end in
  if caseRename then
    let? temp := uniqueTempPath tree from in
    let? tree := delete tree from in
    let tree := set tree (with_path source temp) in
    let? tree := delete tree temp in
    Ok (set tree (with_path source to))
  else
    let? tree := match destination with Some _ => delete tree to | None => Ok tree end in
    let? tree := delete tree from in
    Ok (set tree (with_path source to)).

Definition apply_set_git_mode (tree : EphemeralTree) (p : ustr) (before : Digest)
  (current new : GitMode) : res EphemeralTree :=
  let? _ := assertSafePath p false in
  let? _ := rejectSymlinkAlias tree p in
  let? n := requireExisting tree p in
  match content n with
  | FileContent mode bs d =>
      let? _ := requireDigest n before DIGEST_BEFORE_MISMATCH in
      throw_if negb (bool_decide (mode = current)) with MODE_INVALID;
      throw_if bool_decide (current = new) with MODE_INVALID;
      Ok (set tree (mkNode (path n) (FileContent new bs d) (platformMetadata n)))
  | _ => Err MODE_INVALID
  end.

Definition apply_symlink (tree : EphemeralTree) (p target : ustr) (before : option Digest)
  (expectedAfter : Digest) : res EphemeralTree :=
  let? _ := assertSafePath p false in
  let? _ := requireParentDirectory tree p in
  let? _ := rejectSymlinkAlias tree p in
  let? normalized := assertSymlinkTargetContained p target in
  let after := symlinkDigest normalized in
  throw_if negb (bool_decide (after = expectedAfter)) with DIGEST_AFTER_MISMATCH;
  let existing := get tree p in
  let keptMeta := existing ≫= platformMetadata in
  let? tree := match before with
    | None => let? _ := requireAbsent tree p in Ok tree
    | Some expected =>
        let? e := requireExisting tree p in
        throw_if negb (is_file_or_symlink e) with DIGEST_BEFORE_MISMATCH;
        let? _ := requireDigest e expected DIGEST_BEFORE_MISMATCH in
        delete tree p
    end in
  Ok (set tree (mkNode p (SymlinkContent normalized after) keptMeta)).

Definition applyOperation (tree : EphemeralTree) (op : ChangeOperation) : res EphemeralTree :=
  match op with
  | text_patch p before after diff ile fn => apply_text_patch tree p before after diff ile fn
  | create_text p text after mode => apply_create_text tree p text after mode
  | create_directory p => apply_create_directory tree p
  | write_binary p before _ b64 after mode => apply_write_binary tree p before b64 after mode
  | op_delete p before => apply_delete tree p before
  | delete_directory p expected => apply_delete_directory tree p expected
  | move from to before dest => apply_move tree from to before dest
  | set_git_mode p before current new => apply_set_git_mode tree p before current new
  | symlink p target before after => apply_symlink tree p target before after
  end.

(** ** chains.ts *)

Definition operationPaths (op : ChangeOperation) : list ustr :=
  match op with
  | text_patch p _ _ _ _ _ | create_text p _ _ _ | create_directory p
  | write_binary p _ _ _ _ _ | op_delete p _ | delete_directory p _
  | set_git_mode p _ _ _ | symlink p _ _ _ => [p]
  | move from to _ _ => [from; to]
  end.

Definition kindsEqual (actual expected : list OpKind) : bool := bool_decide (actual = expected).

Definition isCanonicalKindChain (kinds : list OpKind) : bool :=
  (length kinds <=? 1)%nat
  || kindsEqual kinds [K_move; K_text_patch; K_set_git_mode]
  || kindsEqual kinds [K_move; K_text_patch]
  || kindsEqual kinds [K_text_patch; K_set_git_mode].

Definition namesAlias (left right : ustr) (cs : bool) : bool :=
  if bool_decide (left = right) then true
  else if cs then bool_decide (nfc left = nfc right) && negb (bool_decide (left = right))
  else bool_decide (caseFoldKey left false = caseFoldKey right false).

Definition assertMove (cs : bool) (op : ChangeOperation) : res unit :=
  match op with
  | move from to _ _ =>
      throw_if bool_decide (from = to) with CHAIN_AMBIGUOUS;
      throw_if isPrefixPath from to || isPrefixPath to from with CHAIN_AMBIGUOUS;
      throw_if negb (caseOnlyRename from to cs) && namesAlias from to cs with ALIAS_AMBIGUOUS;
      Ok tt
  | _ => Ok tt
  end.

Definition pushKind (k : OpKind) (m : list (ustr * list OpKind)) (p : ustr) :=
  JsMap.set p (default [] (JsMap.get p m) ++ [k]) m.

Definition chainStep (cs : bool) (m : list (ustr * list OpKind)) (op : ChangeOperation)
  : res (list (ustr * list OpKind)) :=
  let? _ := assertMove cs op in
  Ok (fold_left (pushKind (op_kind op)) (operationPaths op) m).

Definition assertCanonicalChains (operations : list ChangeOperation) (cs : bool) : res unit :=
  let? kindsByPath := rfold (chainStep cs) [] operations in
  throw_if negb (forallb (fun pk => isCanonicalKindChain (snd pk)) kindsByPath) with CHAIN_AMBIGUOUS;
  Ok tt.

Definition declaredPaths (operations : list ChangeOperation) : list ustr :=
  uniq (concat (map operationPaths operations)).

(** ** validate.ts *)

Definition MAX_OPERATIONS : Z := 8192.
Definition MAX_DECODED_BYTES : Z := 64 * 1024 * 1024.

Record ChangeSet := mkChangeSet {
  baseSnapshotId : ustr;
  baseSnapshotRootDigest : Digest;
  operations : list ChangeOperation
}.

Record ChangeSetBaseline := mkBaseline {
  snapshotId : ustr;
  rootDigest : Digest;
  filesystem : NameComparison;
  entries : list TreeNode
}.

Definition decodedBytes_of (op : ChangeOperation) : nat :=
  match op with
  | text_patch _ _ _ diff _ _ => length (utf8_encode diff)
  | create_text _ text _ _ => length (utf8_encode text)
  | write_binary _ _ _ b64 _ _ => length (default [] (b64_decode b64))
  | _ => 0
  end.
Definition decodedBytes (cs : ChangeSet) : Z :=
  Z.of_nat (fold_left (fun total op => total + decodedBytes_of op) (operations cs) 0).

(** [for (const node of tree.list()) m.set(node.path, ...)] *)
Definition fingerprints (tree : EphemeralTree) : list (ustr * Fingerprint) :=
  fold_left (fun m n => JsMap.set (path n) (snapshotFingerprint n) m) (list_ tree) [].

Definition mutationStep (before after : list (ustr * Fingerprint)) (declared : list ustr)
  (changed : list ustr) (p : ustr) : res (list ustr) :=
  if bool_decide (JsMap.get p before = JsMap.get p after) then Ok changed
  else throw_if negb (includes p declared) with UNDECLARED_MUTATION; Ok (changed ++ [p]).

Definition assertDeclaredMutations (before after : list (ustr * Fingerprint)) (declared : list ustr)
  : res (list ustr) :=
  let paths := uniq (JsMap.keys before ++ JsMap.keys after) in
  let? changed := rfold (mutationStep before after declared) [] paths in
  Ok (sort_by path_leb changed).

Definition gitMode_text (m : GitMode) : ustr :=
  match m with M100644 => u "100644" | M100755 => u "100755" end.

(** [projectEntry] of packages/repository/src/candidate-materializer.ts *)
Definition projectEntry (n : TreeNode) : jsvalue :=
  match content n with
  | FileContent m bs d =>
      VObj [(u "path", VStr (path n)); (u "entryType", VStr (u "file"));
            (u "contentDigest", VStr d); (u "size", VNum (SafeInt (Z.of_nat (length bs))));
            (u "gitMode", VStr (gitMode_text m))]
  | DirectoryContent => VObj [(u "path", VStr (path n)); (u "entryType", VStr (u "directory"))]
  | SymlinkContent t d =>
      VObj [(u "path", VStr (path n)); (u "entryType", VStr (u "symlink"));
            (u "symlinkTarget", VStr t); (u "contentDigest", VStr d); (u "gitMode", VStr (u "120000"))]
  | SubmoduleContent o =>
      VObj [(u "path", VStr (path n)); (u "entryType", VStr (u "submodule"));
            (u "gitObjectId", VStr o); (u "gitMode", VStr (u "160000"))]
  end.

Definition candidateTreeDigest (es : list TreeNode) : result DigestErr Digest :=
  let projected := sort_by (fun a b => compareUtf8_leb (string_field "path" a) (string_field "path" b))
                     (map projectEntry es) in
  taggedHash "candidate-tree" 1 (VObj [(u "entries", VArr projected)]).

(** [normalizeChangeOperation] of no-progress.ts *)
Definition normalizeChangeOperation (op : ChangeOperation) : ChangeOperation :=
  match op with
  | text_patch p b a diff ile fn => text_patch (nfc p) b a (normalizeDiff diff) ile fn
  | create_text p c a m => create_text (nfc p) c a m
  | create_directory p => create_directory (nfc p)
  | write_binary p b mt c a m => write_binary (nfc p) b mt c a m
  | op_delete p b => op_delete (nfc p) b
  | delete_directory p d => delete_directory (nfc p) d
  | move from to b d => move (nfc from) (nfc to) b d
  | set_git_mode p b c n => set_git_mode (nfc p) b c n
  | symlink p t b a => symlink (nfc p) t b a
  end.

Definition json_nullable (d : option Digest) : jsvalue :=
  match d with Some d => VStr d | None => VNull end.
Definition str (k : string) (s : ustr) : ustr * jsvalue := (u k, VStr s).

(** An operation as the JSON object of [ChangeOperationSchema]. *)
Definition op_json (op : ChangeOperation) : jsvalue :=
  VObj match op with
  | text_patch p b a diff ile fn =>
      [str "kind" (u "text_patch"); str "path" p; str "expectedBeforeDigest" b;
       str "expectedAfterDigest" a; str "unifiedDiff" diff;
       str "insertedLineEnding" (u match ile with EOL_LF => "LF" | EOL_CRLF => "CRLF" end);
       str "finalNewline" (u match fn with NL_PRESENT => "PRESENT" | NL_ABSENT => "ABSENT" end)]
  | create_text p c a m =>
      [str "kind" (u "create_text"); str "path" p; str "content" c; str "expectedAfterDigest" a;
       str "gitMode" (gitMode_text m); (u "expectedAbsent", VBool true)]
  | create_directory p =>
      [str "kind" (u "create_directory"); str "path" p; (u "expectedAbsent", VBool true)]
  | write_binary p b mt c a m =>
      [str "kind" (u "write_binary"); str "path" p; (u "expectedBeforeDigest", json_nullable b);
       str "mediaType" mt; str "base64Content" c; str "expectedAfterDigest" a;
       str "gitMode" (gitMode_text m)]
  | op_delete p b => [str "kind" (u "delete"); str "path" p; str "expectedBeforeDigest" b]
  | delete_directory p d =>
      [str "kind" (u "delete_directory"); str "path" p; str "expectedTreeDigest" d;
       (u "expectedEmptyAtOperation", VBool true)]
  | move from to b d =>
      [str "kind" (u "move"); str "from" from; str "to" to; str "expectedBeforeDigest" b;
       (u "expectedDestinationDigest", json_nullable d)]
  | set_git_mode p b c n =>
      [str "kind" (u "set_git_mode"); str "path" p; str "expectedBeforeDigest" b;
       str "expectedCurrentMode" (gitMode_text c); str "newMode" (gitMode_text n)]
  | symlink p t b a =>
      [str "kind" (u "symlink"); str "path" p; str "target" t;
       (u "expectedBeforeDigest", json_nullable b); str "expectedAfterDigest" a]
  end.

Definition computeNormalizedChangeSetDigest (cs : ChangeSet) : result DigestErr Digest :=
  taggedHash "changeset-normalized" 1
    (VObj [str "baseSnapshotId" (baseSnapshotId cs);
           str "baseSnapshotRootDigest" (baseSnapshotRootDigest cs);
           (u "operations", VArr (map op_json (map normalizeChangeOperation (operations cs))))]).

Record AppliedCandidateTree := mkApplied {
  normalizedChangeSetDigest : Digest;
  materializedTreeDigest : Digest;
  changedPaths : list ustr;
  candidateEntries : list TreeNode
}.

(** Everything up to the digests: the tree before, the tree after and the changed paths. *)
Definition applyChangeSet (cs : ChangeSet) (baseline : ChangeSetBaseline)
  : res (EphemeralTree * EphemeralTree * list ustr) :=
  throw_if bool_decide (operations cs = []) with EMPTY_OPERATIONS;
  throw_if (MAX_OPERATIONS <? Z.of_nat (length (operations cs)))%Z
           || (MAX_DECODED_BYTES <? decodedBytes cs)%Z with RESOURCE_LIMIT;
  throw_if negb (bool_decide (baseSnapshotId cs = snapshotId baseline)) with BASE_SNAPSHOT_MISMATCH;
  throw_if negb (bool_decide (baseSnapshotRootDigest cs = rootDigest baseline))
    with BASE_SNAPSHOT_MISMATCH;
  let? tree := new_EphemeralTree (filesystem baseline) (entries baseline) in
  let before := fingerprints tree in
  let? _ := assertCanonicalChains (operations cs) (caseSensitive tree) in
  let? final := rfold applyOperation tree (operations cs) in
  let? _ := assertInvariants final in
  let after := fingerprints final in
  let? changed := assertDeclaredMutations before after (declaredPaths (operations cs)) in
  Ok (tree, final, changed).

(** [None] is an input that does not satisfy [ChangeSetSchema]. *)
Definition validateAndApplyChangeSet (changeSet : option ChangeSet) (baseline : ChangeSetBaseline)
  : res AppliedCandidateTree :=
  match changeSet with
  | None => Err SCHEMA_INVALID
  | Some cs =>
      let? '(_, final, changed) := applyChangeSet cs baseline in
      let es := toCandidateEntries final in
      let? treeDigest := of_digest (candidateTreeDigest es) in
      let? csDigest := of_digest (computeNormalizedChangeSetDigest cs) in
      Ok (mkApplied csDigest treeDigest changed es)
  end.
End Apply.
