(* ===== verification/ChangeTheorems.v ===== *)
(** What applying a change set does to the candidate tree: the tree invariant, the frame of every
    operation, the digests it leaves, and the guarantees of a whole validated change set. *)

From Stdlib Require Import String.
From S2P Require Import Prelude JsText TextPatch CanonicalJson CanonicalJsonTheorems Digest RelativePath ChangeApply.
Open Scope string_scope.
Open Scope list_scope.

Section Trees.
Context `{DD : Doubles} `{HH : Hashing} `{UU : Unicode}.

(** ** The tree invariant *)

(** The recorded digest is the digest of the contents. *)
Definition digest_ok (n : TreeNode) : Prop :=
  match content n with
  | FileContent _ bs d => d = fileDigest bs
  | SymlinkContent t d => d = symlinkDigest t
  | DirectoryContent | SubmoduleContent _ => True
  end.

(** Keys are the nodes' own paths, once each, and digests are right. *)
Definition tree_ok (tree : EphemeralTree) : Prop :=
  NoDup (JsMap.keys (nodes tree)) /\
  forall p n, get tree p = Some n -> path n = p /\ digest_ok n.

Lemma get_set_tree tree n p :
  get (set tree n) p = if decide (p = path n) then Some n else get tree p.
Proof. apply JsMap.get_set. Qed.

Lemma set_ok tree n : tree_ok tree -> digest_ok n -> tree_ok (set tree n).
Proof.
  intros [Hn Hg] Hd. split; [by apply JsMap.NoDup_keys_set|].
  intros p m. rewrite get_set_tree. case_decide; [intros [= <-]; by split | apply Hg].
Qed.

Lemma delete_spec tree p tree' :
  tree_ok tree -> delete tree p = Ok tree' ->
  tree_ok tree' /\ is_Some (get tree p) /\ caseSensitive tree' = caseSensitive tree /\
  forall q, get tree' q = if decide (q = p) then None else get tree q.
Proof.
  intros [Hn Hg] Hd. unfold delete in Hd. inv_ok.
  assert (forall q, get (mkTree (caseSensitive tree) (JsMap.del p (nodes tree))) q =
    if decide (q = p) then None else get tree q) as Hget by (intros q; by apply JsMap.get_del).
  split_and!; [|by apply JsMap.get_is_some, JsMap.has_true, negb_false_iff|done|done].
  split; [by apply JsMap.NoDup_keys_del|].
  intros q m. rewrite Hget. case_decide; [done | apply Hg].
Qed.

Lemma putFile_spec tree p m bs after meta tree' :
  putFile tree p m bs after meta = Ok tree' ->
  fileDigest bs = after /\ tree' = set tree (mkNode p (FileContent m bs after) meta).
Proof.
  unfold putFile. intros Hp. inv_ok.
  match goal with E : negb _ = false |- _ => apply negb_false_iff, bool_decide_eq_true in E as -> end.
  done.
Qed.

Lemma requireExisting_ok tree p n : requireExisting tree p = Ok n <-> get tree p = Some n.
Proof. unfold requireExisting. destruct (get tree p); naive_solver. Qed.

Lemma fromBaseline_ok e n : fromBaseline e = Ok n -> n = e /\ digest_ok e.
Proof.
  unfold fromBaseline, digest_ok. destruct (content e); intros Hf; inv_ok;
    repeat match goal with E : negb _ = false |- _ =>
      apply negb_false_iff, bool_decide_eq_true in E end; by split.
Qed.

Lemma new_tree_ok cmp es tree : new_EphemeralTree cmp es = Ok tree -> tree_ok tree.
Proof.
  unfold new_EphemeralTree. intros Hn. apply rbind_ok in Hn as (t & Hf & Hn).
  apply rbind_ok in Hn as (_ & _ & [= <-]).
  refine (rfold_ind tree_ok _ _ _ _ _ _ Hf).
  - intros t0 e t1 _ Ht Ha. unfold addBaseline in Ha. inv_ok.
    match goal with E : fromBaseline _ = Ok _ |- _ => apply fromBaseline_ok in E as [-> ?] end.
    by apply set_ok.
  - split; [constructor|]. intros p n. done.
Qed.

(** ** One operation

    [frame tree tree' ps]: the trees agree outside the paths [ps]. *)
Definition frame (tree tree' : EphemeralTree) (ps : list ustr) : Prop :=
  caseSensitive tree' = caseSensitive tree /\ forall q, q ∉ ps -> get tree' q = get tree q.

Definition step_ok (tree tree' : EphemeralTree) (ps : list ustr) : Prop :=
  tree_ok tree' /\ frame tree tree' ps.

Lemma step_set tree n ps :
  tree_ok tree -> digest_ok n -> path n ∈ ps -> step_ok tree (set tree n) ps.
Proof.
  intros Ht Hd Hp. split; [by apply set_ok|]. split; [done|]. intros q Hq.
  rewrite get_set_tree. case_decide; [by subst | done].
Qed.

Lemma step_delete tree p tree' ps :
  tree_ok tree -> p ∈ ps -> delete tree p = Ok tree' -> step_ok tree tree' ps.
Proof.
  intros Ht Hp Hd. destruct (delete_spec _ _ _ Ht Hd) as (Ht' & _ & Hc & Hg).
  split; [done|]. split; [done|]. intros q Hq. rewrite Hg. case_decide; [by subst | done].
Qed.

Lemma step_trans t1 t2 t3 ps : step_ok t1 t2 ps -> step_ok t2 t3 ps -> step_ok t1 t3 ps.
Proof.
  intros [_ [C1 F1]] [H2 [C2 F2]]. split; [done|]. split; [congruence|].
  intros q Hq. by rewrite F2, F1.
Qed.

Lemma step_put tree p m bs after meta tree' :
  tree_ok tree -> putFile tree p m bs after meta = Ok tree' -> step_ok tree tree' [p].
Proof.
  intros Ht [<- ->]%putFile_spec. apply step_set; [done | done | left].
Qed.

Lemma node_digest tree p n : tree_ok tree -> get tree p = Some n -> path n = p /\ digest_ok n.
Proof. intros [_ Hg]. apply Hg. Qed.

Lemma digest_with_path n p : digest_ok n -> digest_ok (with_path n p).
Proof. done. Qed.

Lemma uniqueTempPath_absent tree from temp : uniqueTempPath tree from = Ok temp -> get tree temp = None.
Proof.
  unfold uniqueTempPath. destruct (array_find _ _) as [c|] eqn:E; [|done]. intros [= <-].
  apply array_find_some in E as [_ E]. by apply negb_true_iff, JsMap.has_false in E.
Qed.

Lemma case_rename_step tree from to source temp t1 t2 :
  tree_ok tree -> get tree from = Some source -> get tree temp = None ->
  delete tree from = Ok t1 -> delete (set t1 (with_path source temp)) temp = Ok t2 ->
  step_ok tree (set t2 (with_path source to)) [from; to].
Proof.
  intros Ht Hs Htemp H1 H2. pose proof (node_digest _ _ _ Ht Hs) as [_ Hd].
  destruct (delete_spec _ _ _ Ht H1) as (Ht1 & _ & C1 & G1).
  assert (tree_ok (set t1 (with_path source temp))) as Ht1' by (by apply set_ok).
  destruct (delete_spec _ _ _ Ht1' H2) as (Ht2 & _ & C2 & G2).
  split; [by apply set_ok|]. split; [cbn in *; congruence|].
  intros q Hq. rewrite get_set_tree. cbn [path with_path]. case_decide; [set_solver|].
  rewrite G2, get_set_tree. cbn [path with_path]. case_decide; [by subst|]. rewrite G1.
  case_decide; [set_solver | done].
Qed.

(** Successful parts of an operation that only read. *)
Ltac reads :=
  repeat match goal with
  | E : rbind _ _ = Ok _ |- _ => apply rbind_ok in E as (? & ? & E)
  | E : (if ?b then Err _ else _) = Ok _ |- _ => destruct b eqn:?; [discriminate E|]
  | E : requireExisting _ _ = Ok _ |- _ => apply requireExisting_ok in E
  | x : unit |- _ => destruct x
  end.

Lemma applyOperation_step tree op tree' :
  tree_ok tree -> applyOperation tree op = Ok tree' -> step_ok tree tree' (operationPaths op).
Proof.
  intros Ht Ha. destruct op; cbn [applyOperation operationPaths] in *.
  - unfold apply_text_patch in Ha. reads. destruct (content _); try done. reads. by eapply step_put.
  - unfold apply_create_text in Ha. reads. by eapply step_put.
  - unfold apply_create_directory in Ha. reads. injection Ha as <-. apply step_set; [done | done | left].
  - unfold apply_write_binary in Ha. reads. destruct expectedBeforeDigest; reads; by eapply step_put.
  - unfold apply_delete in Ha. reads. eapply step_delete; [done | left | done].
  - unfold apply_delete_directory in Ha. reads. eapply step_delete; [done | left | done].
  - unfold apply_move in Ha. reads.
    match goal with E : get tree from = Some ?s |- _ =>
      pose proof (node_digest _ _ _ Ht E) as [_ Hd] end.
    destruct (caseOnlyRename _ _ _).
    + reads. injection Ha as <-. eapply case_rename_step; [done | done | | done | done].
      by eapply uniqueTempPath_absent.
    + apply rbind_ok in Ha as (t1 & D1 & Ha). apply rbind_ok in Ha as (t2 & D2 & [= <-]).
      assert (step_ok tree t1 [from; to]) as S1.
      { destruct (get tree to); [apply (step_delete _ to); [done | set_solver | done]|].
        injection D1 as <-. split; [done|]. by split. }
      eapply step_trans; [exact S1|]. destruct S1 as [Ht1 _].
      assert (step_ok t1 t2 [from; to]) as S2 by (apply (step_delete _ from); [done | set_solver | done]).
      eapply step_trans; [exact S2|]. destruct S2 as [Ht2 _].
      apply step_set; [done | by apply digest_with_path | cbn; set_solver].
  - unfold apply_set_git_mode in Ha. reads. destruct (content x1) eqn:Ec; try done. reads.
    injection Ha as <-.
    match goal with E : get tree p = Some ?s |- _ =>
      pose proof (node_digest _ _ _ Ht E) as [Hp Hd] end.
    apply step_set; [done | | cbn; rewrite Hp; left].
    unfold digest_ok in *. by rewrite Ec in Hd.
  - unfold apply_symlink in Ha. reads. injection Ha as <-.
    match goal with |- step_ok _ (set ?t _) _ => rename t into t1 end.
    assert (step_ok tree t1 [p]) as S1.
    { destruct expectedBeforeDigest; reads.
      - eapply step_delete; [done | left | done].
      - match goal with E : Ok _ = Ok _ |- _ => injection E as <- end. split; [done|]. by split. }
    eapply step_trans; [exact S1|]. apply step_set; [apply S1 | done | left].
Qed.

(** ** A sequence of operations *)

Lemma applyAll_step ops tree tree' :
  tree_ok tree -> rfold applyOperation tree ops = Ok tree' ->
  step_ok tree tree' (declaredPaths ops).
Proof.
  intros Ht Hr.
  assert (step_ok tree tree' (concat (map operationPaths ops))) as [H1 [H2 H3]].
  { revert tree Ht Hr. induction ops as [|op ops IH]; intros tree Ht Hr; cbn [rfold map concat] in *.
    - injection Hr as <-. split; [done|]. by split.
    - apply rbind_ok in Hr as (t1 & Ha & Hr). apply applyOperation_step in Ha as [Ht1 [C1 F1]]; [|done].
      destruct (IH _ Ht1 Hr) as [Ht2 [C2 F2]]. split; [done|]. split; [congruence|].
      intros q Hq. rewrite F2, F1; [done | set_solver | set_solver]. }
  split; [done|]. split; [done|]. intros q Hq. apply H3. unfold declaredPaths in Hq.
  by rewrite (proj2 (uniq_spec _)) in Hq.
Qed.

Lemma assertSafePath_ok p g : assertSafePath p g = Ok tt <-> classifyRelativePath p g = None.
Proof. unfold assertSafePath. destruct (classifyRelativePath p g); naive_solver. Qed.

Lemma op_paths_safe tree op tree' :
  applyOperation tree op = Ok tree' ->
  Forall (fun p => classifyRelativePath p false = None) (operationPaths op).
Proof.
  destruct op; cbn [applyOperation operationPaths];
    unfold apply_text_patch, apply_create_text, apply_create_directory, apply_write_binary,
      apply_delete, apply_delete_directory, apply_move, apply_set_git_mode, apply_symlink;
    intros Ha; apply rbind_ok in Ha as ([] & Hp & Ha); apply assertSafePath_ok in Hp.
  all: try (by repeat constructor).
  apply rbind_ok in Ha as ([] & Hq & _). apply assertSafePath_ok in Hq. by repeat constructor.
Qed.

Lemma declared_safe ops tree tree' p :
  rfold applyOperation tree ops = Ok tree' -> p ∈ declaredPaths ops ->
  classifyRelativePath p false = None.
Proof.
  intros Hr Hp. unfold declaredPaths in Hp. rewrite (proj2 (uniq_spec _)) in Hp.
  revert tree Hr Hp. induction ops as [|op ops IH]; intros tree Hr Hp; cbn in *; [by apply not_elem_of_nil in Hp|].
  apply rbind_ok in Hr as (t1 & Ha & Hr). apply elem_of_app in Hp as [Hp|Hp]; [|by eapply IH].
  apply op_paths_safe in Ha. rewrite Forall_forall in Ha. by apply Ha.
Qed.

(** ** Fingerprints and declared mutations *)

Lemma fingerprints_get tree p :
  tree_ok tree -> JsMap.get p (fingerprints tree) = snapshotFingerprint <$> get tree p.
Proof.
  intros [Hn Hg]. unfold fingerprints, list_, get, JsMap.values, JsMap.keys in *.
  assert (forall q n, (q, n) ∈ nodes tree -> path n = q) as Hpath.
  { intros q n Hin. apply Hg. by apply JsMap.elem_get. }
  clear Hg. revert Hn Hpath. generalize (nodes tree) as l. intros l Hn Hpath.
  assert (forall acc, JsMap.get p (fold_left (fun m n => JsMap.set (path n) (snapshotFingerprint n) m)
      (map snd l) acc) =
    match JsMap.get p l with Some n => Some (snapshotFingerprint n) | None => JsMap.get p acc end) as Hl.
  { induction l as [|[q n] l IH]; intros acc; [done|]. cbn [map fst snd fold_left JsMap.get] in *.
    apply NoDup_cons in Hn as [Hq Hn]. rewrite IH; [|done | intros; apply Hpath; by right].
    rewrite JsMap.get_set, (Hpath q n) by left.
    destruct (decide (p = q)) as [->|]; [|done].
    apply JsMap.get_none in Hq. unfold JsMap.keys in *. by rewrite Hq. }
  rewrite Hl. by destruct (JsMap.get p l).
Qed.

Lemma mutations_spec before after declared l acc :
  rfold (mutationStep before after declared) acc l =
    (if forallb (fun p => bool_decide (JsMap.get p before = JsMap.get p after) || includes p declared) l
     then Ok (acc ++ List.filter (fun p => negb (bool_decide (JsMap.get p before = JsMap.get p after))) l)
     else Err UNDECLARED_MUTATION).
Proof.
  revert acc. induction l as [|p l IH]; intros acc; cbn [rfold forallb List.filter].
  { by rewrite app_nil_r. }
  unfold mutationStep at 1. case_bool_decide; cbn [negb orb rbind]; [by rewrite IH|].
  destruct (includes p declared); cbn [negb rbind andb]; [|done].
  rewrite IH, <- app_assoc. done.
Qed.

Lemma assertDeclaredMutations_ok before after declared changed :
  assertDeclaredMutations before after declared = Ok changed ->
  Sorted (fun a b => path_leb a b = true) changed /\ NoDup changed /\
  (forall p, p ∈ changed <-> JsMap.get p before <> JsMap.get p after) /\ changed ⊆ declared.
Proof.
  unfold assertDeclaredMutations. intros Ha. apply rbind_ok in Ha as (l & Hl & [= <-]).
  rewrite mutations_spec in Hl. destruct (forallb _ _) eqn:Hf; [|done]. injection Hl as <-. cbn [app].
  set (q := fun p => negb _).
  destruct (uniq_spec (JsMap.keys before ++ JsMap.keys after)) as [Hn Hu].
  assert (forall p, p ∈ List.filter q (uniq (JsMap.keys before ++ JsMap.keys after)) <->
    JsMap.get p before <> JsMap.get p after) as Hiff.
  { intros p. rewrite list_elem_of_In, filter_In, <- list_elem_of_In, Hu. subst q. cbn beta.
    rewrite negb_true_iff, bool_decide_eq_false. split; [tauto|]. intros Hne. split; [|done].
    rewrite elem_of_app. destruct (JsMap.get p before) eqn:E1.
    - left. apply JsMap.get_is_some. by rewrite E1.
    - destruct (JsMap.get p after) eqn:E2; [|done]. right. apply JsMap.get_is_some. by rewrite E2. }
  split_and!.
  - apply sort_by_sorted. intros a b. apply utf16_leb_total.
  - rewrite sort_by_perm. by apply NoDup_ListNoDup, List.NoDup_filter, NoDup_ListNoDup.
  - intros p. by rewrite elem_of_sort_by.
  - intros p. rewrite elem_of_sort_by. intros Hp. rewrite forallb_forall in Hf.
    rewrite list_elem_of_In, filter_In in Hp. destruct Hp as [Hp Hne].
    specialize (Hf _ Hp). subst q. cbn beta in Hne. apply negb_true_iff in Hne. rewrite Hne in Hf.
    by apply includes_true.
Qed.

(** ** Well-formed trees *)

Definition folded_name (tree : EphemeralTree) (p : ustr) : ustr :=
  if caseSensitive tree then basename p else simpleFold (basename p).

Record tree_wf (tree : EphemeralTree) : Prop := {
  wf_safe p n : get tree p = Some n -> classifyRelativePath p true = None;
  wf_parent p n d : get tree p = Some n -> parentPath p = Some d ->
    exists m, get tree d = Some m /\ entryType m = T_directory;
  wf_no_link_above p n q m : get tree p = Some n -> q ∈ strict_prefixes [] (split_unit SLASH p) ->
    get tree q = Some m -> entryType m <> T_symlink;
  wf_link p n target d : get tree p = Some n -> content n = SymlinkContent target d ->
    is_ok (assertSymlinkTargetContained p target) = true;
  wf_names p n q m : get tree p = Some n -> get tree q = Some m ->
    parentPath p = parentPath q -> folded_name tree p = folded_name tree q -> p = q;
  wf_identity p n q m k : get tree p = Some n -> get tree q = Some m ->
    identityKey (platformMetadata n) = Some k -> identityKey (platformMetadata m) = Some k -> p = q
}.

Definition fold_key (tree : EphemeralTree) (n : TreeNode) : ustr :=
  default [] (parentPath (path n)) ++ [NUL] ++ folded_name tree (path n).

(** What the loop has established of the nodes it has seen. *)
Definition seen_ok (tree : EphemeralTree) (st : list (ustr * ustr) * list (ustr * ustr))
  (seen : list TreeNode) : Prop :=
  forall n, n ∈ seen ->
    JsMap.get (fold_key tree n) (snd st) = Some (path n) /\
    (forall k, identityKey (platformMetadata n) = Some k -> JsMap.get k (fst st) = Some (path n)).

Definition node_ok (tree : EphemeralTree) (n : TreeNode) : Prop :=
  classifyRelativePath (path n) true = None /\ rejectSymlinkAlias tree (path n) = Ok tt /\
  (forall d, parentPath (path n) = Some d -> is_type T_directory (get tree d) = true) /\
  (forall target d, content n = SymlinkContent target d ->
     is_ok (assertSymlinkTargetContained (path n) target) = true).

Lemma assertNode_ok tree st n st' seen :
  assertNode tree st n = Ok st' -> seen_ok tree st seen ->
  node_ok tree n /\ seen_ok tree st' (n :: seen).
Proof.
  destruct st as [ids folds]. unfold assertNode. intros Ha Hs.
  apply rbind_ok in Ha as ([] & H1 & Ha). apply rbind_ok in Ha as ([] & H2 & Ha).
  apply rbind_ok in Ha as ([] & H3 & Ha). apply rbind_ok in Ha as ([] & H4 & Ha).
  apply rbind_ok in Ha as (ids' & H5 & Ha). split.
  - split_and!; [by apply assertSafePath_ok | done | |].
    + intros d Hd. rewrite Hd in H3. by destruct (is_type T_directory (get tree d)).
    + intros target d Hc. rewrite Hc in H4. by destruct (assertSymlinkTargetContained (path n) target).
  - fold (folded_name tree (path n)) in Ha. fold (fold_key tree n) in Ha.
    destruct (match JsMap.get (fold_key tree n) folds with Some e => _ | None => false end) eqn:E6; [done|].
    destruct (match platformMetadata n with Some _ => _ | None => false end); [done|].
    injection Ha as <-. intros m [->|Hm]%elem_of_cons; cbn [fst snd]; split.
    + apply JsMap.get_set_eq.
    + intros k Hk. rewrite Hk in H5. destruct (match JsMap.get k ids with Some _ => _ | None => _ end); [done|].
      injection H5 as <-. apply JsMap.get_set_eq.
    + destruct (Hs m Hm) as [Hf _]. cbn [snd] in Hf. rewrite JsMap.get_set. case_decide as Ek; [|done].
      rewrite <- Ek, Hf in E6. apply negb_false_iff, bool_decide_eq_true in E6. by rewrite E6.
    + intros k Hk. destruct (Hs m Hm) as [_ Hi]. specialize (Hi k Hk). cbn [fst] in Hi.
      destruct (identityKey (platformMetadata n)) as [k'|] eqn:Ek; [|by injection H5 as <-].
      destruct (match JsMap.get k' ids with Some _ => _ | None => _ end) eqn:Ep; [done|].
      injection H5 as <-. rewrite JsMap.get_set. case_decide as Ek'; [|done]. subst k'.
      rewrite Hi in Ep. apply negb_false_iff, bool_decide_eq_true in Ep. by rewrite Ep.
Qed.

Lemma assertNodes_ok tree l st st' seen :
  rfold (assertNode tree) st l = Ok st' -> seen_ok tree st seen ->
  Forall (node_ok tree) l /\ seen_ok tree st' (l ++ seen).
Proof.
  revert st seen. induction l as [|n l IH]; intros st seen Hr Hs; cbn [rfold] in Hr.
  - injection Hr as <-. by split.
  - apply rbind_ok in Hr as (st1 & Hn & Hr). destruct (assertNode_ok _ _ _ _ _ Hn Hs) as [H1 H2].
    destruct (IH _ _ Hr H2) as [H3 H4]. split; [by constructor|].
    intros m Hm. apply H4. set_solver.
Qed.

Lemma get_list_ tree p n : get tree p = Some n -> n ∈ list_ tree.
Proof.
  intros Hg%JsMap.get_some_elem. unfold list_, JsMap.values.
  by apply (list_elem_of_fmap_2 snd _ (p, n)).
Qed.

Lemma is_type_true t o : is_type t o = true <-> exists m, o = Some m /\ entryType m = t.
Proof.
  destruct o as [m|]; cbn; [rewrite bool_decide_eq_true|]; naive_solver.
Qed.

Lemma assertInvariants_wf tree : tree_ok tree -> assertInvariants tree = Ok tt -> tree_wf tree.
Proof.
  intros Ht Ha. unfold assertInvariants in Ha. apply rbind_ok in Ha as (st & Hr & _).
  destruct (assertNodes_ok tree (list_ tree) ([], []) st [] Hr) as [Hf Hs].
  { intros n Hn. by apply not_elem_of_nil in Hn. }
  rewrite app_nil_r in Hs. rewrite Forall_forall in Hf.
  assert (forall p n, get tree p = Some n -> path n = p /\ node_ok tree n /\ n ∈ list_ tree) as Hget.
  { intros p n Hg. pose proof (get_list_ _ _ _ Hg) as Hl. destruct (node_digest _ _ _ Ht Hg).
    split_and!; auto. }
  split.
  - intros p n (<- & (? & _) & _)%Hget. done.
  - intros p n d (<- & (_ & _ & Hp & _) & _)%Hget Hd. by apply is_type_true, Hp.
  - intros p n q m (<- & (_ & Hr' & _) & _)%Hget Hq Hm Ht'. unfold rejectSymlinkAlias in Hr'.
    destruct (existsb _ _) eqn:E; [done|]. apply not_true_iff_false in E. apply E, existsb_exists.
    exists q. split; [by apply list_elem_of_In|]. apply is_type_true. by exists m.
  - intros p n target d (<- & (_ & _ & _ & Hl) & _)%Hget. apply Hl.
  - intros p n q m (<- & _ & Hn)%Hget (<- & _ & Hm)%Hget Hpar Hname.
    destruct (Hs n Hn) as [E1 _]. destruct (Hs m Hm) as [E2 _].
    unfold fold_key in *. rewrite Hpar, Hname in E1. congruence.
  - intros p n q m k (<- & _ & Hn)%Hget (<- & _ & Hm)%Hget K1 K2.
    destruct (Hs n Hn) as [_ E1]. destruct (Hs m Hm) as [_ E2].
    specialize (E1 _ K1). specialize (E2 _ K2). congruence.
Qed.

(** ** A validated change set *)

Definition fingerprint_at (tree : EphemeralTree) (p : ustr) : option Fingerprint :=
  snapshotFingerprint <$> get tree p.

Lemma applyChangeSet_inv cs b t t' changed :
  applyChangeSet cs b = Ok (t, t', changed) ->
  tree_ok t /\ tree_wf t /\ step_ok t t' (declaredPaths (operations cs)) /\ tree_wf t' /\
  rfold applyOperation t (operations cs) = Ok t' /\
  assertDeclaredMutations (fingerprints t) (fingerprints t') (declaredPaths (operations cs)) = Ok changed.
Proof.
  unfold applyChangeSet. intros Ha. reads.
  match goal with E : new_EphemeralTree _ _ = Ok _ |- _ =>
    pose proof (new_tree_ok _ _ _ E) as Ht; unfold new_EphemeralTree in E; reads end.
  repeat match goal with E : Ok _ = Ok _ |- _ => injection E as ?; subst end.
  match goal with E : rfold applyOperation _ _ = Ok _ |- _ =>
    pose proof (applyAll_step _ _ _ Ht E) as Hs end.
  split_and!; try done; apply assertInvariants_wf; try done. apply Hs.
Qed.

(** C20: a change set that validates turns one well-formed tree into another; the two agree, node
    for node, at every path no operation declares, and the reported changed paths are exactly the
    paths whose fingerprint differs, sorted, without duplicates and all declared. *)
Theorem applyChangeSet_frame cs b t t' changed :
  applyChangeSet cs b = Ok (t, t', changed) ->
  tree_ok t /\ tree_wf t /\ tree_ok t' /\ tree_wf t' /\
  (forall p, p ∉ declaredPaths (operations cs) -> get t' p = get t p) /\
  (forall p, p ∈ changed <-> fingerprint_at t p <> fingerprint_at t' p) /\
  changed ⊆ declaredPaths (operations cs) /\
  Sorted (fun a b => path_leb a b = true) changed /\ NoDup changed.
Proof.
  intros (Ht & Hw & [Ht' [_ Hf]] & Hw' & Hr & Hm)%applyChangeSet_inv.
  apply assertDeclaredMutations_ok in Hm as (Hs & Hn & Hc & Hd).
  split_and!; try done. intros p. rewrite Hc, !fingerprints_get by done. done.
Qed.

(** The check for undeclared mutations never fires: whatever operations succeed, every path
    whose fingerprint changed is declared by one of them. *)
Theorem undeclared_mutation_unreachable cmp es ops t t' :
  new_EphemeralTree cmp es = Ok t -> rfold applyOperation t ops = Ok t' ->
  is_ok (assertDeclaredMutations (fingerprints t) (fingerprints t') (declaredPaths ops)) = true.
Proof.
  intros Ht%new_tree_ok Hr. destruct (applyAll_step _ _ _ Ht Hr) as [Ht' [_ Hf]].
  unfold assertDeclaredMutations. rewrite mutations_spec.
  destruct (forallb _ _) eqn:E; [done|]. apply not_true_iff_false in E. exfalso. apply E, forallb_forall.
  intros p _. apply orb_true_iff. destruct (decide (p ∈ declaredPaths ops)) as [Hp|Hp].
  - right. by apply includes_true.
  - left. apply bool_decide_eq_true. rewrite !fingerprints_get by done. by rewrite Hf.
Qed.

Lemma classifySegments_none g segs s :
  classifySegments g segs = None -> s ∈ segs -> classifySegment g s = None.
Proof.
  induction segs as [|x segs IH]; [set_solver|]. cbn. destruct (classifySegment g x) eqn:E; [done|].
  intros Hr [->|Hs]%elem_of_cons; [done | by apply IH].
Qed.

Lemma classify_segments p g :
  classifyRelativePath p g = None -> classifySegments g (split_unit SLASH p) = None.
Proof.
  unfold classifyRelativePath. repeat (case_match; [done|]). done.
Qed.

(** No change set, however it is built, alters anything below a [.git] component, in any
    spelling that normalizes and upper-cases to [.GIT]. *)
Theorem git_directory_untouched cs b t t' changed p s :
  applyChangeSet cs b = Ok (t, t', changed) ->
  s ∈ split_unit SLASH p -> toUpperCase (nfc s) = u ".GIT" -> get t' p = get t p /\ p ∉ changed.
Proof.
  intros (Ht & _ & [Ht' [_ Hf]] & _ & Hr & Hm)%applyChangeSet_inv Hs Hg'.
  assert (Hg : isProtectedGitSegment s = true) by (by apply bool_decide_eq_true_2).
  assert (p ∉ declaredPaths (operations cs)) as Hp.
  { intros Hp. pose proof (declared_safe _ _ _ _ Hr Hp) as Hc. apply classify_segments in Hc.
    apply (classifySegments_none _ _ s) in Hc; [|done]. unfold classifySegment in Hc.
    rewrite Hg in Hc. by repeat case_match. }
  split; [by apply Hf|]. apply assertDeclaredMutations_ok in Hm as (_ & _ & _ & Hd). set_solver.
Qed.

(** ** The effect of each operation *)

Definition contentDigest_of (n : TreeNode) : option Digest :=
  match content n with
  | FileContent _ _ d | SymlinkContent _ d => Some d
  | _ => None
  end.

Definition op_post (t : EphemeralTree) (op : ChangeOperation) (t' : EphemeralTree) : Prop :=
  match op with
  | text_patch p before after diff ile fn =>
      exists n mode bs next, get t p = Some n /\ content n = FileContent mode bs before /\
        applyUnifiedDiff bs (mkTextPatchOptions diff p ile fn) = Ok next /\ fileDigest next = after /\
        get t' p = Some (mkNode p (FileContent mode next after) (platformMetadata n))
  | create_text p text after mode =>
      get t p = None /\ fileDigest (utf8_encode text) = after /\
      get t' p = Some (mkNode p (FileContent mode (utf8_encode text) after) None)
  | create_directory p => get t p = None /\ get t' p = Some (mkNode p DirectoryContent None)
  | write_binary p before _ b64 after mode =>
      exists bs, b64_decode b64 = Some bs /\ fileDigest bs = after /\
        (get t p ≫= contentDigest_of) = before /\ (before = None -> get t p = None) /\
        get t' p = Some (mkNode p (FileContent mode bs after) (get t p ≫= platformMetadata))
  | op_delete p before => (get t p ≫= contentDigest_of) = Some before /\ get t' p = None
  | delete_directory p _ =>
      (exists n, get t p = Some n /\ entryType n = T_directory) /\ children t p = [] /\ get t' p = None
  | move from to before dest =>
      exists n, get t from = Some n /\ contentDigest_of n = Some before /\
        get t' to = Some (with_path n to) /\ (from <> to -> get t' from = None) /\
        (caseOnlyRename from to (caseSensitive t) = false -> (get t to ≫= contentDigest_of) = dest)
  | set_git_mode p before current new =>
      exists n bs, get t p = Some n /\ content n = FileContent current bs before /\ current <> new /\
        get t' p = Some (mkNode p (FileContent new bs before) (platformMetadata n))
  | symlink p target before after =>
      exists normalized, assertSymlinkTargetContained p target = Ok normalized /\
        symlinkDigest normalized = after /\ (get t p ≫= contentDigest_of) = before /\
        (before = None -> get t p = None) /\
        get t' p = Some (mkNode p (SymlinkContent normalized after) (get t p ≫= platformMetadata))
  end.

Lemma requireDigest_ok n d code : requireDigest n d code = Ok tt <-> contentDigest_of n = Some d.
Proof.
  unfold requireDigest, contentDigest_of.
  destruct (content n); try naive_solver; case_bool_decide; cbn [negb]; naive_solver.
Qed.

Lemma requireAbsent_none t p : requireAbsent t p = Ok tt -> get t p = None.
Proof.
  unfold requireAbsent. destruct (has t p) eqn:E; [done|]. intros _. by apply JsMap.has_false in E.
Qed.

Lemma decodeBase64_ok c bs : decodeBase64 c = Ok bs -> b64_decode c = Some bs.
Proof.
  unfold decodeBase64. destruct (b64_decode c) as [x|]; [|done]. case_bool_decide; [|done].
  cbn. by intros [= <-].
Qed.

Lemma get_put t p m bs after meta t' :
  putFile t p m bs after meta = Ok t' ->
  fileDigest bs = after /\ get t' p = Some (mkNode p (FileContent m bs after) meta).
Proof.
  intros [He ->]%putFile_spec. split; [done|]. rewrite get_set_tree. by case_decide.
Qed.

Ltac facts :=
  reads;
  repeat match goal with
  | E : requireDigest _ _ _ = Ok _ |- _ => apply requireDigest_ok in E
  | E : requireAbsent _ _ = Ok _ |- _ => apply requireAbsent_none in E
  | E : decodeBase64 _ = Ok _ |- _ => apply decodeBase64_ok in E
  | E : negb (bool_decide _) = false |- _ => apply negb_false_iff, bool_decide_eq_true in E
  | E : bool_decide _ = false |- _ => apply bool_decide_eq_false in E
  | E : putFile _ _ _ _ _ _ = Ok _ |- _ => apply get_put in E as [? ?]
  end.

Lemma move_effect t from to before dest t' :
  tree_ok t -> apply_move t from to before dest = Ok t' -> op_post t (move from to before dest) t'.
Proof.
  intros Ht Ha. cbn [op_post]. unfold apply_move in Ha. facts.
  match goal with E : get t from = Some ?s |- _ => exists s; split; [done|]; rename s into n end.
  split; [done|].
  assert (caseOnlyRename from to (caseSensitive t) = false -> (get t to ≫= contentDigest_of) = dest) as Hdest.
  { intros Hc. rewrite Hc in *. destruct dest as [d|], (get t to) as [m|]; try done. facts. done. }
  destruct (caseOnlyRename _ _ _) eqn:Hc.
  - facts. injection Ha as <-. rewrite get_set_tree. cbn [path with_path].
    rewrite decide_True by done. split_and!; [done | | done]. intros Hne.
    rewrite get_set_tree. cbn [path with_path]. rewrite decide_False by done.
    match goal with U : uniqueTempPath _ _ = Ok ?x, D1 : delete t from = Ok ?t1, D2 : delete _ ?x = Ok _ |- _ =>
      apply uniqueTempPath_absent in U; destruct (delete_spec _ _ _ Ht D1) as (Ht1 & _ & _ & G1);
      apply delete_spec in D2 as (_ & _ & _ & G2); [|apply set_ok; [done|]] end.
    + rewrite G2, get_set_tree. cbn [path with_path]. case_decide; [done|].
      rewrite G1. by rewrite decide_True by done.
    + match goal with E : get t from = Some n |- _ => by apply (node_digest _ _ _ Ht E) end.
  - apply rbind_ok in Ha as (t1 & D1 & Ha). apply rbind_ok in Ha as (t2 & D2 & [= <-]).
    rewrite !get_set_tree. cbn [path with_path]. rewrite (decide_True (P := to = to)) by done.
    split_and!; [done | | by apply Hdest]. intros Hne. rewrite decide_False by done.
    assert (tree_ok t1) as Ht1.
    { destruct (get t to); [by apply delete_spec in D1 as [? _] | by injection D1 as <-]. }
    destruct (delete_spec _ _ _ Ht1 D2) as (_ & _ & _ & G2). rewrite G2. by rewrite decide_True by done.
Qed.

Lemma symlink_effect t p target before after t' :
  tree_ok t -> apply_symlink t p target before after = Ok t' ->
  op_post t (symlink p target before after) t'.
Proof.
  intros Ht Ha. cbn [op_post]. unfold apply_symlink in Ha. facts. injection Ha as <-.
  match goal with E : assertSymlinkTargetContained p target = Ok ?x |- _ => exists x; split; [done|] end.
  split; [done|]. rewrite get_set_tree. cbn [path]. rewrite decide_True by done.
  match goal with E : symlinkDigest _ = after |- _ => rewrite E end.
  destruct before as [d|]; facts.
  - match goal with E : get t p = Some _ |- _ => rewrite E end. done.
  - match goal with E : get t p = None |- _ => rewrite E end. done.
Qed.

(** C21: what each of the nine operations leaves at the paths it names: the old node had the
    expected digest, the new contents have the declared digest, and metadata is carried over from
    the node that is replaced. *)
Theorem applyOperation_effect t op t' :
  tree_ok t -> applyOperation t op = Ok t' -> op_post t op t'.
Proof.
  intros Ht Ha. destruct op; cbn [applyOperation] in Ha.
  - cbn [op_post]. unfold apply_text_patch in Ha. facts. destruct (content _) eqn:Ec; try done. facts.
    match goal with E : contentDigest_of _ = Some _ |- _ => unfold contentDigest_of in E; rewrite Ec in E; injection E as -> end.
    by eexists _, _, _, _.
  - cbn [op_post]. unfold apply_create_text in Ha. facts. done.
  - cbn [op_post]. unfold apply_create_directory in Ha. facts. injection Ha as <-.
    rewrite get_set_tree. cbn [path]. by rewrite decide_True by done.
  - cbn [op_post]. unfold apply_write_binary in Ha. facts. eexists. split; [done|].
    destruct expectedBeforeDigest; facts; (split; [done|]).
    + match goal with E : get t p = Some _ |- _ => rewrite E end. by split_and!.
    + match goal with E : get t p = None |- _ => rewrite E end. by split_and!.
  - cbn [op_post]. unfold apply_delete in Ha. facts.
    match goal with E : get t p = Some _ |- _ => rewrite E end. split; [done|].
    apply delete_spec in Ha as (_ & _ & _ & G); [|done]. rewrite G. by rewrite decide_True by done.
  - cbn [op_post]. unfold apply_delete_directory in Ha. facts.
    match goal with E : (0 <? _)%nat = false |- _ => apply Nat.ltb_ge in E; rename E into Hc end.
    apply delete_spec in Ha as (_ & _ & _ & G); [|done].
    split_and!; [by eexists | by destruct (children t p); [|cbn in Hc; lia] | rewrite G; by rewrite decide_True by done].
  - by apply move_effect.
  - cbn [op_post]. unfold apply_set_git_mode in Ha. facts. destruct (content _) eqn:Ec; try done. facts.
    match goal with E : contentDigest_of _ = Some _ |- _ => unfold contentDigest_of in E; rewrite Ec in E; injection E as -> end.
    match goal with E : get t p = Some ?n |- _ => pose proof (node_digest _ _ _ Ht E) as [Hp _] end.
    injection Ha as <-. subst. eexists _, _. split_and!; try done.
    rewrite get_set_tree. cbn [path]. by rewrite decide_True by done.
  - by apply symlink_effect.
Qed.
End Trees.
