(* ===== verification/PathTheorems.v ===== *)
(** Paths, symlink targets and base64: containment of accepted paths and targets, canonical
    base64, and the limits of lexical containment. *)

From Stdlib Require Import String.
From S2P Require Import Prelude JsText TextPatch CanonicalJson CanonicalJsonTheorems Digest RelativePath ChangeApply ChangeTheorems.
Open Scope string_scope.
Open Scope list_scope.

(** ** Lexical resolution *)

(** How one segment changes the depth below the root. *)
Definition segment_depth (s : ustr) : Z :=
  if bool_decide (s = []) || bool_decide (s = [DOT]) then 0
  else if bool_decide (s = [DOT; DOT]) then -1 else 1.

Fixpoint depth (segments : list ustr) : Z :=
  match segments with [] => 0 | s :: r => segment_depth s + depth r end.

Lemma resolveTarget_depth parts segs :
  is_ok (resolveTarget parts segs) = true <->
  forall k, (0 <= Z.of_nat (length parts) + depth (take k segs))%Z.
Proof.
  revert parts. induction segs as [|s segs IH]; intros parts; cbn [resolveTarget].
  - split; [|done]. intros _ k. rewrite take_nil. cbn. lia.
  - assert (forall parts', (Z.of_nat (length parts') = Z.of_nat (length parts) + segment_depth s)%Z ->
      is_ok (resolveTarget parts' segs) = true <->
      forall k, (0 <= Z.of_nat (length parts) + depth (take k (s :: segs)))%Z) as Hgo.
    { intros parts' Hp. rewrite IH. split.
      - intros Hk [|k]; cbn [take depth]; [lia|]. specialize (Hk k). lia.
      - intros Hk k. specialize (Hk (S k)). cbn [take depth] in Hk. lia. }
    unfold segment_depth in Hgo.
    destruct (bool_decide (s = []) || bool_decide (s = [DOT])) eqn:E1; [apply Hgo; lia|].
    destruct (bool_decide (s = [DOT; DOT])) eqn:E2; [|apply Hgo; rewrite length_app; cbn; lia].
    destruct parts as [|p parts].
    + split; [done|]. intros Hk. specialize (Hk 1). cbn [take depth] in Hk. unfold segment_depth in Hk.
      rewrite E1, E2 in Hk. destruct segs; cbn in Hk; lia.
    + apply Hgo. rewrite removelast_firstn_len, length_take. cbn. lia.
Qed.

Section Paths.
Context `{UU : Unicode}.

Definition directory_depth (p : ustr) : Z :=
  match parentPath p with None => 0 | Some d => Z.of_nat (length (split_unit SLASH d)) end.

(** A symlink target is accepted only if it is relative, has no drive, device or stream part,
    and no prefix of it climbs above the root of the tree: from the link's directory, the segments
    read so far never go up more often than down. *)
Theorem symlink_target_contained from target t :
  assertSymlinkTargetContained from target = Ok t ->
  has_unit NUL target = false /\ t = replaceAll [BACKSLASH] [SLASH] (nfc target) /\
  startsWith [SLASH] t = false /\ has_unit COLON t = false /\
  forall k, (0 <= directory_depth from + depth (take k (split_unit SLASH t)))%Z.
Proof.
  unfold assertSymlinkTargetContained. intros Ha. inv_ok.
  match goal with E : resolveTarget ?ps _ = Ok _ |- _ =>
    assert (is_ok (resolveTarget ps (split_unit SLASH (replaceAll [BACKSLASH] [SLASH] (nfc target)))) = true)
      as Hok by (by rewrite E) end.
  rewrite resolveTarget_depth in Hok.
  repeat match goal with E : _ || _ = false |- _ => apply orb_false_iff in E as [? ?] end.
  split_and!; try done. intros k. specialize (Hok k). unfold directory_depth.
  by destruct (parentPath from).
Qed.

Lemma safe_segment_resolves s g parts rest :
  classifySegment g s = None -> resolveTarget parts (s :: rest) = resolveTarget (parts ++ [s]) rest.
Proof.
  unfold classifySegment. cbn [resolveTarget].
  destruct (bool_decide (s = [])); [done|]. destruct (bool_decide (s = [DOT])); [done|].
  by destruct (bool_decide (s = [DOT; DOT])).
Qed.

Lemma join_split c s : join_unit c (split_unit c s) = s.
Proof.
  induction s as [|a s IH]; [done|]. cbn [split_unit].
  assert (exists x xs, split_unit c s = x :: xs) as (x & xs & E).
  { clear. induction s as [|b s (x & xs & IH)]; [by eexists _, _|]. cbn.
    destruct (b =? c)%N; [by eexists _, _|]. rewrite IH. by eexists _, _. }
  rewrite E in *. destruct (a =? c)%N eqn:Ea.
  - apply N.eqb_eq in Ea as ->. rewrite join_unit_cons by done. by rewrite IH.
  - destruct xs as [|y ys]; [by rewrite <- IH|].
    rewrite join_unit_cons by done. rewrite join_unit_cons in IH by done. by rewrite <- IH.
Qed.

(** An accepted path names an entry below the root and is spelled canonically: it has no NUL,
    backslash or colon, is normalised, its segments are nonempty and none is a dot segment, and
    resolving it below any directory appends exactly its segments. *)
Theorem safe_path_resolves p g base :
  classifyRelativePath p g = None ->
  has_unit NUL p = false /\ has_unit BACKSLASH p = false /\ has_unit COLON p = false /\
  startsWith [SLASH] p = false /\ nfc p = p /\
  Forall (fun s => s <> [] /\ s <> [DOT] /\ s <> [DOT; DOT]) (split_unit SLASH p) /\
  resolveTarget base (split_unit SLASH p) = Ok (base ++ split_unit SLASH p) /\
  join_unit SLASH (split_unit SLASH p) = p.
Proof.
  intros Hc. pose proof (classify_segments _ _ Hc) as Hs. unfold classifyRelativePath in Hc.
  destruct (has_unit NUL p); [done|]. destruct (has_unit BACKSLASH p); [done|]. cbn [orb] in Hc.
  destruct (startsWith [SLASH] p); [done|]. destruct (startsWith [SLASH; SLASH] p); [done|].
  cbn [orb] in Hc. destruct (isDeviceNamespace p || isDriveRelative p); [done|].
  destruct (has_unit COLON p); [done|]. case_bool_decide as Hn; [|done].
  split_and!; try done.
  - apply Forall_forall. intros s Hin. apply (classifySegments_none _ _ s) in Hs; [|done].
    unfold classifySegment in Hs. repeat case_bool_decide; done.
  - clear Hc Hn. generalize dependent base. induction (split_unit SLASH p) as [|s segs IH]; intros base.
    + by rewrite app_nil_r.
    + cbn [classifySegments] in Hs. destruct (classifySegment g s) eqn:E; [done|].
      rewrite (safe_segment_resolves s g) by done. rewrite IH by done. by rewrite <- app_assoc.
  - apply join_split.
Qed.
End Paths.

(** ** Base64 *)

Lemma b64_value_char n : (n < 64)%N -> b64_value (b64_char n) = Some n /\ b64_char n <> PAD.
Proof.
  intros Hn. unfold b64_char. destruct (n <? 26)%N eqn:E1; [|destruct (n <? 52)%N eqn:E2;
    [|destruct (n <? 62)%N eqn:E3; [|destruct (n =? 62)%N eqn:E4]]];
    rewrite ?N.ltb_lt, ?N.ltb_ge, ?N.eqb_eq, ?N.eqb_neq in *; unfold b64_value, PAD.
  - rewrite (proj2 (N.leb_le 65 _)), (proj2 (N.leb_le _ 90)) by lia. cbn [andb]. split; [f_equal; lia | lia].
  - rewrite (proj2 (N.leb_gt (71 + n) 90)), andb_false_r by lia.
    rewrite (proj2 (N.leb_le 97 _)), (proj2 (N.leb_le _ 122)) by lia. cbn [andb]. split; [f_equal; lia | lia].
  - rewrite (proj2 (N.leb_gt 65 (n - 4))), (proj2 (N.leb_gt 97 (n - 4))) by lia. cbn [andb].
    rewrite (proj2 (N.leb_le 48 _)), (proj2 (N.leb_le _ 57)) by lia. cbn [andb]. split; [f_equal; lia | lia].
  - subst n. done.
  - assert (n = 63)%N as -> by lia. done.
Qed.

Lemma b64_roundtrip bs : Forall (fun b => (b < 256)%N) bs -> b64_decode (b64_encode bs) = Some bs.
Proof.
  remember (length bs) as n eqn:Hn. assert (length bs <= n) as Hle by lia. clear Hn.
  revert bs Hle. induction n as [|n IH]; intros [|a [|b [|c r]]] Hle Hb; cbn [length] in Hle;
    try done; try lia;
    repeat match goal with F : Forall _ (_ :: _) |- _ => apply Forall_cons in F as [? ?] end.
  - cbn [b64_encode b64_decode].
    destruct (b64_value_char (a / 4)) as [-> _]; [lia|].
    destruct (b64_value_char ((a mod 4) * 16)) as [-> _]; [lia|].
    cbn [mbind option_bind N.eqb Pos.eqb PAD]. do 2 f_equal. lia.
  - cbn [b64_encode b64_decode].
    destruct (b64_value_char (a / 4)) as [-> _]; [lia|].
    destruct (b64_value_char ((a mod 4) * 16 + b / 16)) as [-> _]; [lia|].
    destruct (b64_value_char ((b mod 16) * 4)) as [E Hp]; [lia|]. apply N.eqb_neq in Hp.
    cbn [mbind option_bind]. rewrite N.eqb_refl, Hp, E. cbn [mbind option_bind].
    do 2 f_equal; [lia | f_equal; lia].
  - cbn [b64_encode b64_decode].
    destruct (b64_value_char (a / 4)) as [-> _]; [lia|].
    destruct (b64_value_char ((a mod 4) * 16 + b / 16)) as [-> _]; [lia|].
    destruct (b64_value_char ((b mod 16) * 4 + c / 64)) as [-> _]; [lia|].
    destruct (b64_value_char (c mod 64)) as [-> Hp]; [lia|]. apply N.eqb_neq in Hp.
    cbn [mbind option_bind]. rewrite Hp, IH by (done || (cbn in Hle; lia)).
    cbn [fmap option_fmap option_map]. do 2 f_equal; [lia|]. do 2 f_equal; [lia|]. f_equal. lia.
Qed.

(** Binary contents are carried exactly: a text decodes to given bytes precisely when it is
    their canonical base64 encoding, so no two texts stand for one content. *)
Theorem decodeBase64_canonical content bs :
  Forall (fun b => (b < 256)%N) bs -> decodeBase64 content = Ok bs <-> content = b64_encode bs.
Proof.
  intros Hb. unfold decodeBase64. split.
  - destruct (b64_decode content) as [x|]; [|done]. case_bool_decide as E; [|done]. cbn.
    by intros [= <-].
  - intros ->. rewrite b64_roundtrip by done. by rewrite bool_decide_true.
Qed.

(** ** A concrete instance of the interfaces *)

Definition ascii_unicode : Unicode := {| nfc := fun s => s; toUpperCase := map ascii_upper |}.

Lemma ascii_unicode_laws : @UnicodeLaws ascii_unicode.
Proof. split; done. Qed.

(** A short stand-in for SHA-256: the length and the sum of the bytes. *)
Definition sum_hash : Hashing :=
  {| sha256_hex := fun bs => [N.of_nat (length bs); fold_left N.add bs 0%N] |}.

#[local] Existing Instance half_doubles.
#[local] Existing Instance half_laws.
#[local] Existing Instance ascii_unicode.
#[local] Existing Instance sum_hash.

Definition dir_node (p : string) : TreeNode := mkNode (u p) DirectoryContent None.
Definition file_node (p : string) (text : ustr) : TreeNode :=
  mkNode (u p) (FileContent M100644 text (fileDigest text)) (Some (Posix (u "1") (u p))).
Definition link_node (p target : string) : TreeNode :=
  mkNode (u p) (SymlinkContent (u target) (symlinkDigest (u target))) None.

(** ** The limits of lexical containment *)

Inductive lookup_result : Set := Inside (at_ : list ustr) | Escaped | Stuck.

(** How a file system follows a path from a directory of the tree, links included. *)
Fixpoint follow (fuel : nat) (tree : EphemeralTree) (at_ : list ustr) (segs : list ustr) : lookup_result :=
  match fuel, segs with
  | O, _ => Stuck
  | _, [] => Inside at_
  | S fuel', s :: rest =>
      if bool_decide (s = []) || bool_decide (s = [DOT]) then follow fuel' tree at_ rest
      else if bool_decide (s = [DOT; DOT]) then
        match at_ with [] => Escaped | _ => follow fuel' tree (removelast at_) rest end
      else match get tree (join_unit SLASH (at_ ++ [s])) with
           | Some n =>
               match content n with
               | SymlinkContent t _ => follow fuel' tree at_ (split_unit SLASH t ++ rest)
               | _ => follow fuel' tree (at_ ++ [s]) rest
               end
           | None => Stuck
           end
  end.

Definition escape_entries : list TreeNode :=
  [dir_node "a"; dir_node "a/b"; dir_node "a/b/c"; link_node "a/b/c/up" "../..";
   link_node "x" "a/b/c/up/../../o"].

(** Two links, each accepted on its own, compose to a path that leaves the tree: the check resolves
    [..] against the spelling of the target, the file system against the directory the first link
    leads to. *)
Lemma composed_links_escape :
  exists tree, new_EphemeralTree case_sensitive escape_entries = Ok tree /\
    follow 20 tree [] [u "x"] = Escaped.
Proof. eexists. split; [vm_compute; reflexivity|]. vm_compute. reflexivity. Qed.

(** ** Witnesses *)

Lemma symlink_target_contained_witness :
  (0 <= directory_depth (u "a/b/l") + depth (take 2 (split_unit SLASH (u "../x"))))%Z.
Proof.
  destruct (symlink_target_contained (u "a/b/l") (u "../x") (u "../x")) as (_ & _ & _ & _ & Hk);
    [vm_compute; reflexivity | apply Hk].
Defined.

Lemma safe_path_resolves_witness :
  resolveTarget [u "root"] (split_unit SLASH (u "src/a.ts")) = Ok [u "root"; u "src"; u "a.ts"].
Proof.
  destruct (safe_path_resolves (u "src/a.ts") false [u "root"]) as (_ & _ & _ & _ & _ & _ & Hr & _);
    [vm_compute; reflexivity | exact Hr].
Defined.

Lemma decodeBase64_canonical_witness : decodeBase64 (u "aGk=") = Ok [104; 105]%N.
Proof.
  apply (decodeBase64_canonical (u "aGk=") [104; 105]%N); [|vm_compute; reflexivity].
  repeat constructor.
Defined.

Definition sample_baseline : ChangeSetBaseline :=
  mkBaseline (u "snap") (u "root") case_insensitive
    [dir_node "src"; file_node "src/a.ts" (sample_lf ["one"; "two"; "three"; "four"]);
     dir_node ".git"; file_node ".git/config" (u "x")].

Definition sample_after : ustr := sample_lf ["one"; "deux"; "three"; "four"].

Definition sample_ops : list ChangeOperation :=
  [text_patch (u "src/a.ts") (fileDigest (sample_lf ["one"; "two"; "three"; "four"]))
     (fileDigest sample_after) (unifiedDiff sample_patch) EOL_LF NL_PRESENT;
   set_git_mode (u "src/a.ts") (fileDigest sample_after) M100644 M100755;
   create_text (u "src/b.ts") (u "b") (fileDigest (u "b")) M100644].

Definition sample_changeset : ChangeSet := mkChangeSet (u "snap") (u "root") sample_ops.

Definition sample_result : EphemeralTree * EphemeralTree * list ustr :=
  match applyChangeSet sample_changeset sample_baseline with
  | Ok r => r
  | Err _ => (mkTree true [], mkTree true [], [])
  end.

Example sample_changed : snd sample_result = [u "src/a.ts"; u "src/b.ts"].
Proof. vm_compute. reflexivity. Qed.

Lemma sample_applies :
  applyChangeSet sample_changeset sample_baseline =
  Ok (fst (fst sample_result), snd (fst sample_result), snd sample_result).
Proof. vm_compute. reflexivity. Qed.

Lemma applyChangeSet_frame_witness :
  u "src/a.ts" ∈ snd sample_result /\
  get (snd (fst sample_result)) (u ".git/config") = get (fst (fst sample_result)) (u ".git/config").
Proof.
  destruct (applyChangeSet_frame sample_changeset sample_baseline _ _ _ sample_applies)
    as (_ & _ & _ & _ & Hf & _ & _ & _ & _).
  split; [rewrite sample_changed; left | apply Hf].
  apply (bool_decide_unpack _). vm_compute. reflexivity.
Defined.

Lemma git_directory_untouched_witness :
  get (snd (fst sample_result)) (u ".git/config") = get (fst (fst sample_result)) (u ".git/config").
Proof.
  apply (git_directory_untouched sample_changeset sample_baseline _ _ _ (u ".git/config") (u ".git")
           sample_applies); [left | vm_compute; reflexivity].
Defined.

Definition sample_tree : EphemeralTree := fst (fst sample_result).

Lemma sample_tree_new :
  new_EphemeralTree case_insensitive (entries sample_baseline) = Ok sample_tree.
Proof. vm_compute. reflexivity. Qed.

Lemma undeclared_mutation_unreachable_witness :
  is_ok (assertDeclaredMutations (fingerprints sample_tree) (fingerprints (snd (fst sample_result)))
           (declaredPaths sample_ops)) = true.
Proof.
  apply (undeclared_mutation_unreachable case_insensitive (entries sample_baseline) sample_ops
           sample_tree (snd (fst sample_result)) sample_tree_new). vm_compute. reflexivity.
Defined.

Lemma applyOperation_effect_witness :
  exists t', applyOperation sample_tree (create_directory (u "lib")) = Ok t' /\
    get t' (u "lib") = Some (mkNode (u "lib") DirectoryContent None).
Proof.
  exists (set sample_tree (mkNode (u "lib") DirectoryContent None)).
  assert (applyOperation sample_tree (create_directory (u "lib")) =
          Ok (set sample_tree (mkNode (u "lib") DirectoryContent None))) as Ha
    by (vm_compute; reflexivity).
  split; [exact Ha|].
  apply (applyOperation_effect sample_tree (create_directory (u "lib")) _
           (new_tree_ok _ _ _ sample_tree_new) Ha).
Defined.
