(* ===== verification/DagEngine.v ===== *)
(** Workflow DAGs: packages/domain/src/dag-engine.ts and node-reducer.ts, [nodeEnabled] of
    adaptive-router.ts, and the wave loop of packages/agent-runtime/src/orchestrator.ts.

    The agent runtime (spawning a worker, waiting for its result) and the validation of a worker's
    envelope are parameters of the wave loop. *)

From Stdlib Require Import String.
From S2P Require Import Prelude.
Open Scope string_scope.
Open Scope list_scope.

Inductive NodeStatus : Set :=
| PENDING | SPAWNED | WAITING_ARTIFACT | VALIDATING | ACCEPTED | RETRYING | FAILED.
#[export] Instance NodeStatus_eq_dec : EqDecision NodeStatus.
Proof. solve_decision. Defined.

Inductive AgentNodeEventType : Set :=
| NODE_SPAWNED | ARTIFACT_ACCEPTED | NODE_FAILED | NODE_COMPLETED | NODE_RETRYING
| NODE_BLOCKED | NODE_STEERED.
#[export] Instance AgentNodeEventType_eq_dec : EqDecision AgentNodeEventType.
Proof. solve_decision. Defined.

Inductive AgentRole : Set :=
| analyst | investigator | planner | implementer | reviewer | spec_reviewer | security_reviewer
| architecture_reviewer | test_reviewer | performance_reviewer | conflict_resolver
| final_synthesizer.
#[export] Instance AgentRole_eq_dec : EqDecision AgentRole.
Proof. solve_decision. Defined.

Inductive ConcurrencyGroup : Set := G_read | G_write | G_review.
#[export] Instance ConcurrencyGroup_eq_dec : EqDecision ConcurrencyGroup.
Proof. solve_decision. Defined.

Inductive ControllerOperation : Set :=
| DETERMINISTIC_INTEGRATION | VERIFICATION | REGRESSION_VERIFICATION | BASELINE_CHARACTERIZATION
| BEHAVIORAL_EQUIVALENCE | SPEC_CONSISTENCY | EVIDENCE_COMPLETENESS | CONSISTENCY_GATE | ACCEPTANCE
| MIGRATION_DRY_RUN | ROLLBACK_EVIDENCE.
#[export] Instance ControllerOperation_eq_dec : EqDecision ControllerOperation.
Proof. solve_decision. Defined.

Inductive RetryReason : Set := on_validation | on_runtime | on_lost_session | on_blocker.

Record RetryPolicy := mkRetry { maxAttempts : nat; retryOn : list RetryReason }.

Record WorkflowNode := mkWorkflowNode {
  id : string;
  role : option AgentRole;
  operation : option ControllerOperation;
  dependsOn : list string;
  when : option string;
  retryPolicy : RetryPolicy;
  invalidates : list string;
  concurrencyGroup : option ConcurrencyGroup
}.

Inductive TaskKind : Set := k_feature | k_bugfix | k_research | k_spec | k_refactor.
#[export] Instance TaskKind_eq_dec : EqDecision TaskKind.
Proof. solve_decision. Defined.

Inductive WorkflowProfileId : Set :=
| FAST | STANDARD | HIGH_RISK | RESEARCH | SPEC_ONLY | FEATURE | BUGFIX | REFACTOR.
#[export] Instance WorkflowProfileId_eq_dec : EqDecision WorkflowProfileId.
Proof. solve_decision. Defined.

Inductive ArtifactType : Set :=
| task_contract | investigation_report | implementation_plan | change_shards | change_manifest
| changeset | review_findings | command_evidence | verdict_report | acceptance_ledger
| reproduction_unavailable | spec_update_not_required.
#[export] Instance ArtifactType_eq_dec : EqDecision ArtifactType.
Proof. solve_decision. Defined.

Record AcceptancePolicy := mkAcceptance {
  requireReviewer : bool;
  requireCommandEvidence : bool;
  requireFreshReviewAfterRepair : bool;
  allowResearchWithoutWrite : bool
}.

Record WorkflowProfile := mkProfile {
  profile_id : WorkflowProfileId;
  appliesTo : list TaskKind;
  profile_nodes : list WorkflowNode;
  requiredArtifacts : list ArtifactType;
  acceptancePolicy : AcceptancePolicy
}.

Record NodeRecord := mkRecord {
  nodeId : string;
  status : NodeStatus;
  attempt : nat;
  agentId : option string
}.

Record DagCursor := mkCursor {
  profile : WorkflowProfile;
  nodes : list NodeRecord;
  predicates : list string
}.

Inductive DagErr : Set :=
| UNKNOWN_NODE | UNKNOWN_WORKFLOW_NODE | WRITER_CONCURRENCY | ILLEGAL_NODE_TRANSITION
| NO_ARTIFACT_TYPE.

(** ** dag-engine.ts *)

Definition nodeEnabled (nodeWhen : option string) (preds : list string) : bool :=
  match nodeWhen with
  | None => true
  | Some w => if bool_decide (w = "HAS_BLOCKING_FINDINGS") then includes "HAS_BLOCKING_FINDINGS" preds
              else includes w preds
  end.

Definition initialNodeRecords (p : WorkflowProfile) : list NodeRecord :=
  map (fun n => mkRecord (id n) PENDING 0 None) (profile_nodes p).

Definition recordOf (cursor : DagCursor) (nid : string) : result DagErr NodeRecord :=
  match array_find (fun n => bool_decide (nodeId n = nid)) (nodes cursor) with
  | Some n => Ok n
  | None => Err UNKNOWN_NODE
  end.

Definition workflowNodeOf (p : WorkflowProfile) (nid : string) : result DagErr WorkflowNode :=
  match array_find (fun n => bool_decide (id n = nid)) (profile_nodes p) with
  | Some n => Ok n
  | None => Err UNKNOWN_WORKFLOW_NODE
  end.

Definition accepted (cursor : DagCursor) (nid : string) : result DagErr bool :=
  let? r := recordOf cursor nid in Ok (bool_decide (status r = ACCEPTED)).

Definition isWriter (spec : WorkflowNode) : bool :=
  bool_decide (concurrencyGroup spec = Some G_write) || bool_decide (role spec = Some implementer).

Definition occupiesWriterSlot (cursor : DagCursor) (n : NodeRecord) : result DagErr bool :=
  match status n with
  | PENDING | RETRYING | FAILED | ACCEPTED => Ok false
  | SPAWNED | WAITING_ARTIFACT | VALIDATING =>
      let? spec := workflowNodeOf (profile cursor) (nodeId n) in Ok (isWriter spec)
  end.

(** [xs.filter(p)], [xs.every(p)] and [xs.some(p)] for a throwing [p]. *)
Fixpoint rfilter {E A} (p : A -> result E bool) (l : list A) : result E (list A) :=
  match l with
  | [] => Ok []
  | x :: r => let? b := p x in let? r' := rfilter p r in Ok (if b then x :: r' else r')
  end.
Fixpoint revery {E A} (p : A -> result E bool) (l : list A) : result E bool :=
  match l with
  | [] => Ok true
  | x :: r => let? b := p x in if b then revery p r else Ok false
  end.
Fixpoint rsome {E A} (p : A -> result E bool) (l : list A) : result E bool :=
  match l with
  | [] => Ok false
  | x :: r => let? b := p x in if b then Ok true else rsome p r
  end.

Definition isReady (cursor : DagCursor) (writers : nat) (spec : WorkflowNode) : result DagErr bool :=
  let? current := recordOf cursor (id spec) in
  if negb (bool_decide (status current = PENDING)) && negb (bool_decide (status current = RETRYING))
  then Ok false
  else if negb (nodeEnabled (when spec) (predicates cursor)) then Ok false
  else
    let? deps := revery (accepted cursor) (dependsOn spec) in
    Ok (deps && negb (isWriter spec && (0 <? writers)%nat)).

Definition readyNodes (cursor : DagCursor) : result DagErr (list WorkflowNode) :=
  let? writers := rfilter (occupiesWriterSlot cursor) (nodes cursor) in
  rfilter (isReady cursor (length writers)) (profile_nodes (profile cursor)).

Definition skippedDisabledNodes (cursor : DagCursor) : result DagErr (list string) :=
  let? specs := rfilter (fun spec =>
    let? current := recordOf cursor (id spec) in
    Ok (bool_decide (status current = PENDING) && negb (nodeEnabled (when spec) (predicates cursor))))
    (profile_nodes (profile cursor)) in
  Ok (map id specs).

Definition invalidateNodes (cursor : DagCursor) (fromNodeId : string) : result DagErr (list NodeRecord) :=
  let? spec := workflowNodeOf (profile cursor) fromNodeId in
  Ok (map (fun n => if includes (nodeId n) (invalidates spec)
                    then mkRecord (nodeId n) PENDING (attempt n) None else n) (nodes cursor)).

Definition dagComplete (cursor : DagCursor) : result DagErr bool :=
  revery (fun spec => if negb (nodeEnabled (when spec) (predicates cursor)) then Ok true
                      else accepted cursor (id spec)) (profile_nodes (profile cursor)).

Definition nodeStillWorking (s : NodeStatus) : bool :=
  match s with
  | SPAWNED | WAITING_ARTIFACT | VALIDATING | RETRYING => true
  | PENDING | ACCEPTED | FAILED => false
  end.

Definition dagUnrecoverable (cursor : DagCursor) : result DagErr bool :=
  let enabled := List.filter (fun spec => nodeEnabled (when spec) (predicates cursor))
                   (profile_nodes (profile cursor)) in
  let? failed := rsome (fun spec => let? r := recordOf cursor (id spec) in
                                    Ok (bool_decide (status r = FAILED))) enabled in
  if negb failed then Ok false else
  let? working := rsome (fun spec => let? r := recordOf cursor (id spec) in
                                     Ok (nodeStillWorking (status r))) enabled in
  if working then Ok false else
  let? ready := readyNodes cursor in
  Ok (bool_decide (ready = [])).

Definition activeWriterCount (cursor : DagCursor) : result DagErr nat :=
  let? ws := rfilter (occupiesWriterSlot cursor) (nodes cursor) in Ok (length ws).

Definition assertSingleWriter (cursor : DagCursor) : result DagErr unit :=
  let? n := activeWriterCount cursor in
  throw_if (1 <? n)%nat with WRITER_CONCURRENCY; Ok tt.

Definition replaceNode (cursor : DagCursor) (next : NodeRecord) : list NodeRecord :=
  map (fun n => if bool_decide (nodeId n = nodeId next) then next else n) (nodes cursor).

(** ** node-reducer.ts *)

Definition TRANSITIONS (s : NodeStatus) : list AgentNodeEventType :=
  match s with
  | PENDING => [NODE_SPAWNED]
  | SPAWNED => [NODE_STEERED; NODE_BLOCKED; NODE_FAILED; ARTIFACT_ACCEPTED; NODE_RETRYING]
  | WAITING_ARTIFACT => [ARTIFACT_ACCEPTED; NODE_FAILED; NODE_STEERED; NODE_BLOCKED; NODE_RETRYING]
  | VALIDATING => [ARTIFACT_ACCEPTED; NODE_FAILED; NODE_RETRYING]
  | ACCEPTED => [NODE_COMPLETED]
  | RETRYING => [NODE_SPAWNED; NODE_FAILED]
  | FAILED => [NODE_SPAWNED]
  end.

Definition NEXT (e : AgentNodeEventType) : NodeStatus :=
  match e with
  | NODE_SPAWNED => SPAWNED
  | ARTIFACT_ACCEPTED => ACCEPTED
  | NODE_FAILED => FAILED
  | NODE_COMPLETED => ACCEPTED
  | NODE_RETRYING => RETRYING
  | NODE_BLOCKED => WAITING_ARTIFACT
  | NODE_STEERED => WAITING_ARTIFACT
  end.

Definition reduceNode (current : NodeRecord) (eventType : AgentNodeEventType) (agent : option string)
  : result DagErr NodeRecord :=
  throw_if negb (includes eventType (TRANSITIONS (status current))) with ILLEGAL_NODE_TRANSITION;
  let att := match eventType with
    | NODE_RETRYING => attempt current + 1
    | NODE_SPAWNED => attempt current + (if (attempt current =? 0)%nat then 1 else 0)
    | _ => attempt current
    end in
  Ok (mkRecord (nodeId current) (NEXT eventType) att
        match agent with Some a => Some a | None => agentId current end).

Definition canRetry (current : NodeRecord) (limit : nat) : bool :=
  bool_decide (status current = FAILED) && (attempt current <? limit)%nat.

(** ** orchestrator.ts *)

Definition ROLE_ARTIFACT_TYPES (r : AgentRole) : list ArtifactType :=
  match r with
  | analyst => [task_contract]
  | investigator => [investigation_report; reproduction_unavailable]
  | planner => [implementation_plan; change_shards]
  | implementer => [change_manifest; changeset]
  | reviewer | spec_reviewer | security_reviewer | architecture_reviewer | test_reviewer
  | performance_reviewer => [review_findings]
  | conflict_resolver | final_synthesizer => [investigation_report]
  end.

Definition outputTypeFor (r : AgentRole) : result DagErr ArtifactType :=
  match ROLE_ARTIFACT_TYPES r with
  | first :: _ => Ok first
  | [] => Err NO_ARTIFACT_TYPE
  end.

Inductive ToolProfile : Set := tool_read | tool_write | tool_review.

Record SpawnRequest := mkSpawn {
  spawn_node : string;
  spawn_role : AgentRole;
  toolProfile : ToolProfile;
  outputSchema : ArtifactType;
  idempotencyKey : string * nat
}.

(** What the worker produced, and the id of the agent that ran. *)
Inductive Outcome : Type :=
| Artifact (agent : string) (envelope : string)
| Blocker (agent : string)
| Failure (agent : string).

(** What the wave did to the outside world. *)
Inductive Effect : Type :=
| Spawn (r : SpawnRequest)
| PersistArtifact (nid : string) (artifactType : ArtifactType) (envelope : string).

Section Orchestrator.
Variable runtime : SpawnRequest -> Outcome.
Variable validEnvelope : SpawnRequest -> string -> bool.

Definition with_nodes (cursor : DagCursor) (ns : list NodeRecord) : DagCursor :=
  mkCursor (profile cursor) ns (predicates cursor).

(** The loop that accepts disabled nodes. *)
Definition acceptSkipped (cursor : DagCursor) (ns : list NodeRecord) (skipped : string)
  : result DagErr (list NodeRecord) :=
  let? current := recordOf (with_nodes cursor ns) skipped in
  Ok (replaceNode (with_nodes cursor ns) (mkRecord (nodeId current) ACCEPTED (attempt current) (agentId current))).

(** One ready node.  [cursor] is the cursor after the skipping, [state] the loop's [nodes] and the
    effects so far. *)
Definition advanceNode (cursor : DagCursor) (state : list NodeRecord * list Effect) (spec : WorkflowNode)
  : result DagErr (list NodeRecord * list Effect) :=
  let '(ns, log) := state in
  match role spec with
  | None =>
      let? current := recordOf cursor (id spec) in
      Ok (replaceNode cursor (mkRecord (nodeId current) ACCEPTED (attempt current + 1) (agentId current)), log)
  | Some r =>
      let? current := recordOf (with_nodes cursor ns) (id spec) in
      let? spawned := reduceNode current NODE_SPAWNED None in
      let ns := replaceNode (with_nodes cursor ns) spawned in
      let? output := outputTypeFor r in
      let request := mkSpawn (id spec) r
        (if bool_decide (r = implementer) then tool_write
         else if bool_decide (concurrencyGroup spec = Some G_review) then tool_review else tool_read)
        output (id spec, attempt spawned) in
      let log := log ++ [Spawn request] in
      let withAgent a := mkRecord (nodeId spawned) (status spawned) (attempt spawned) (Some a) in
      match runtime request with
      | Artifact a envelope =>
          if negb (validEnvelope request envelope) then
            let? n := reduceNode (withAgent a) NODE_RETRYING None in
            Ok (replaceNode (with_nodes cursor ns) n, log)
          else
            let log := log ++ [PersistArtifact (id spec) output envelope] in
            let? n := reduceNode (mkRecord (nodeId spawned) VALIDATING (attempt spawned) (Some a))
                        ARTIFACT_ACCEPTED None in
            Ok (replaceNode (with_nodes cursor ns) n, log)
      | Blocker a =>
          let? n := reduceNode (withAgent a) NODE_BLOCKED None in
          Ok (replaceNode (with_nodes cursor ns) n, log)
      | Failure a =>
          let? n := reduceNode (withAgent a) NODE_FAILED None in
          Ok (replaceNode (with_nodes cursor ns) n, log)
      end
  end.

Definition advanceDag (cursor : DagCursor) : result DagErr (DagCursor * list Effect) :=
  let? skipped := skippedDisabledNodes cursor in
  let? ns := rfold (acceptSkipped cursor) (nodes cursor) skipped in
  let cursor := with_nodes cursor ns in
  let? ready := readyNodes cursor in
  let? '(ns, log) := rfold (advanceNode cursor) (nodes cursor, []) ready in
  Ok (with_nodes cursor ns, log).
End Orchestrator.

Definition contains (needle hay : string) : bool :=
  match String.index 0 needle hay with Some _ => true | None => false end.

Definition profileReadyForAcceptance (p : WorkflowProfile) (cursor : DagCursor) : result DagErr bool :=
  let? complete := dagComplete cursor in
  if complete && requireReviewer (acceptancePolicy p)
  then Ok (existsb (fun n => contains "reviewer" (nodeId n) && bool_decide (status n = ACCEPTED)) (nodes cursor))
  else Ok complete.
