(* ===== verification/DagTheorems.v ===== *)
(** Workflow DAGs: progress of the scheduler, what a wave spawns, the life of a node, and what the
    wave loop loses. *)

From Stdlib Require Import String.
From S2P Require Import Prelude DagEngine.
Open Scope string_scope.
Open Scope list_scope.

(** ** Throwing list functions *)

Section Throwing.
Context {E A : Type} (p : A -> result E bool).

Lemma rfilter_total l q : Forall (fun x => p x = Ok (q x)) l -> rfilter p l = Ok (List.filter q l).
Proof.
  induction 1 as [|x l Hx _ IH]; [done|]. cbn [rfilter List.filter]. rewrite Hx, IH. cbn. by destruct (q x).
Qed.

Lemma rfilter_elem l l' x : rfilter p l = Ok l' -> x ∈ l' -> x ∈ l /\ p x = Ok true.
Proof.
  revert l'. induction l as [|y l IH]; intros l'; cbn [rfilter].
  - intros [= <-] Hx. by apply not_elem_of_nil in Hx.
  - intros Hr. apply rbind_ok in Hr as (b & Hb & Hr). apply rbind_ok in Hr as (r & Hr & [= <-]).
    destruct b; [|set_solver]. intros [->|Hx]%elem_of_cons; [split; [left | done]|].
    destruct (IH _ Hr Hx). split; [by right | done].
Qed.

Lemma revery_total l q : Forall (fun x => p x = Ok (q x)) l -> revery p l = Ok (forallb q l).
Proof.
  induction 1 as [|x l Hx _ IH]; [done|]. cbn [revery forallb]. rewrite Hx. cbn. by destruct (q x).
Qed.

Lemma revery_true l : revery p l = Ok true -> Forall (fun x => p x = Ok true) l.
Proof.
  induction l as [|x l IH]; cbn [revery]; [constructor|]. intros Hr.
  apply rbind_ok in Hr as (b & Hb & Hr). destruct b; [|done]. constructor; [done | by apply IH].
Qed.
End Throwing.

(** ** Progress *)

(** The cursor has one record per workflow node, and dependencies decrease a rank. *)
Record dag_ok (rank : string -> nat) (cursor : DagCursor) : Prop := {
  ok_ids : NoDup (map id (profile_nodes (profile cursor)));
  ok_records : map nodeId (nodes cursor) = map id (profile_nodes (profile cursor));
  ok_deps spec d : spec ∈ profile_nodes (profile cursor) -> d ∈ dependsOn spec ->
    d ∈ map id (profile_nodes (profile cursor)) /\ rank d < rank (id spec)
}.

Lemma find_by_id {A} (f : A -> string) (l : list A) k :
  NoDup (map f l) -> k ∈ map f l ->
  exists x, array_find (fun n => bool_decide (f n = k)) l = Some x /\ x ∈ l /\ f x = k.
Proof.
  intros Hn Hk. destruct (array_find _ l) as [x|] eqn:E.
  - exists x. apply array_find_some in E as [Hx Hf]. apply bool_decide_eq_true in Hf. done.
  - apply list_elem_of_fmap in Hk as (x & -> & Hx).
    pose proof (array_find_none _ _ E x Hx) as Hf. apply bool_decide_eq_false in Hf. done.
Qed.

Section Progress.
Context (rank : string -> nat) (cursor : DagCursor) (Hok : dag_ok rank cursor).

Definition statusOf (nid : string) : option NodeStatus :=
  match recordOf cursor nid with Ok r => Some (status r) | Err _ => None end.

Lemma recordOf_ok nid :
  nid ∈ map id (profile_nodes (profile cursor)) ->
  exists r, recordOf cursor nid = Ok r /\ r ∈ nodes cursor /\ nodeId r = nid.
Proof using Hok.
  intros Hn. destruct (find_by_id nodeId (nodes cursor) nid) as (r & E & Hr & Hid).
  - rewrite (ok_records _ _ Hok). apply (ok_ids _ _ Hok).
  - by rewrite (ok_records _ _ Hok).
  - exists r. unfold recordOf. by rewrite E.
Qed.

(** Nothing is running or failed, and the disabled nodes have been accepted. *)
Definition settled : Prop :=
  (forall r, r ∈ nodes cursor -> status r = PENDING \/ status r = RETRYING \/ status r = ACCEPTED) /\
  (forall spec r, spec ∈ profile_nodes (profile cursor) -> nodeEnabled (when spec) (predicates cursor) = false ->
     recordOf cursor (id spec) = Ok r -> status r = ACCEPTED).

Definition is_accepted (nid : string) : bool := bool_decide (statusOf nid = Some ACCEPTED).

Lemma accepted_total nid :
  nid ∈ map id (profile_nodes (profile cursor)) -> accepted cursor nid = Ok (is_accepted nid).
Proof using Hok.
  intros (r & Hr & _)%recordOf_ok. unfold accepted, is_accepted, statusOf. rewrite Hr. cbn.
  f_equal. apply bool_decide_ext. split; congruence.
Qed.

Lemma no_writers : settled -> rfilter (occupiesWriterSlot cursor) (nodes cursor) = Ok [].
Proof.
  intros [Hs _]. rewrite (rfilter_total _ _ (fun _ => false)).
  - f_equal. clear. generalize (nodes cursor) as l. induction l as [|x l IH]; [done | exact IH].
  - apply Forall_forall. intros r Hr. unfold occupiesWriterSlot.
    destruct (Hs r Hr) as [->|[->| ->]]; done.
Qed.

Definition ready_spec (spec : WorkflowNode) : bool :=
  negb (is_accepted (id spec)) && nodeEnabled (when spec) (predicates cursor)
  && forallb is_accepted (dependsOn spec).

Lemma readyNodes_settled :
  settled -> readyNodes cursor = Ok (List.filter ready_spec (profile_nodes (profile cursor))).
Proof using Hok.
  intros Hs. unfold readyNodes. rewrite (no_writers Hs). cbn [rbind length].
  apply rfilter_total, Forall_forall. intros spec Hspec.
  assert (id spec ∈ map id (profile_nodes (profile cursor))) as Hid by (by apply list_elem_of_fmap_2).
  destruct (recordOf_ok _ Hid) as (r & Hr & Hrn & _). unfold isReady, ready_spec, is_accepted, statusOf.
  rewrite Hr. cbn [rbind].
  assert (revery (accepted cursor) (dependsOn spec) = Ok (forallb is_accepted (dependsOn spec))) as Hd.
  { apply revery_total, Forall_forall. intros d Hd. apply accepted_total.
    by apply (ok_deps _ _ Hok spec d). }
  destruct Hs as [Hst _]. destruct (Hst r Hrn) as [->|[->| ->]]; cbn [bool_decide].
  all: repeat rewrite bool_decide_false by congruence; repeat rewrite bool_decide_true by congruence.
  all: cbn [negb andb]; try done; destruct (nodeEnabled _ _); cbn [negb]; try done.
  all: rewrite Hd; cbn [rbind]; by rewrite andb_false_r, andb_true_r.
Qed.

Lemma dagComplete_total :
  dagComplete cursor =
  Ok (forallb (fun spec => negb (nodeEnabled (when spec) (predicates cursor)) || is_accepted (id spec))
        (profile_nodes (profile cursor))).
Proof using Hok.
  apply revery_total, Forall_forall. intros spec Hspec.
  destruct (nodeEnabled _ _); [|done]. cbn. apply accepted_total. by apply list_elem_of_fmap_2.
Qed.

Lemma some_ready :
  settled -> forallb (fun spec => negb (nodeEnabled (when spec) (predicates cursor)) || is_accepted (id spec))
    (profile_nodes (profile cursor)) = false ->
  exists spec, spec ∈ profile_nodes (profile cursor) /\ ready_spec spec = true.
Proof using Hok.
  intros Hs Hf.
  assert (forall n spec, rank (id spec) < n -> spec ∈ profile_nodes (profile cursor) ->
    nodeEnabled (when spec) (predicates cursor) = true -> is_accepted (id spec) = false ->
    exists spec, spec ∈ profile_nodes (profile cursor) /\ ready_spec spec = true) as Hmin.
  { induction n as [|n IH]; intros spec Hr Hspec He Ha; [lia|].
    destruct (forallb is_accepted (dependsOn spec)) eqn:Hd.
    - exists spec. split; [done|]. unfold ready_spec. by rewrite Ha, He, Hd.
    - apply not_true_iff_false in Hd. rewrite forallb_forall in Hd.
      destruct (decide (Forall (fun d => is_accepted d = true) (dependsOn spec))) as [Hall|Hnot].
      { exfalso. apply Hd. intros d Hin. rewrite Forall_forall in Hall. by apply Hall, list_elem_of_In. }
      apply not_Forall_Exists, Exists_exists in Hnot as (d & Hdin & Hdn); [|solve_decision].
      apply not_true_iff_false in Hdn.
      destruct (ok_deps _ _ Hok spec d Hspec Hdin) as [Hdid Hrank].
      apply list_elem_of_fmap in Hdid as (dspec & -> & Hdspec).
      apply (IH dspec); [lia | done | | done].
      destruct (nodeEnabled (when dspec) (predicates cursor)) eqn:Hen; [done|]. exfalso.
      destruct (recordOf_ok (id dspec)) as (r & Hrec & _); [by apply list_elem_of_fmap_2|].
      destruct Hs as [_ Hdis]. pose proof (Hdis dspec r Hdspec Hen Hrec) as Hacc.
      unfold is_accepted, statusOf in Hdn. rewrite Hrec, Hacc in Hdn.
      by rewrite bool_decide_true in Hdn by done. }
  apply not_true_iff_false in Hf. rewrite forallb_forall in Hf.
  destruct (decide (Forall (fun spec => (negb (nodeEnabled (when spec) (predicates cursor))
    || is_accepted (id spec)) = true) (profile_nodes (profile cursor)))) as [Hall|Hnot].
  { exfalso. apply Hf. intros x Hx. rewrite Forall_forall in Hall. by apply Hall, list_elem_of_In. }
  apply not_Forall_Exists, Exists_exists in Hnot as (spec & Hin & Hn); [|solve_decision].
  apply not_true_iff_false, orb_false_iff in Hn as [Hen%negb_false_iff Ha].
  apply (Hmin (S (rank (id spec))) spec); [lia | done..].
Qed.
End Progress.

Lemma scheduler_progress rank cursor :
  dag_ok rank cursor -> settled cursor ->
  exists ready complete, readyNodes cursor = Ok ready /\ dagComplete cursor = Ok complete /\
    (complete = false -> ready <> []) /\ (ready <> [] -> complete = false).
Proof.
  intros Hok Hs. eexists _, _. split; [by apply (readyNodes_settled rank)|].
  split; [by apply (dagComplete_total rank)|]. split.
  - intros Hc. destruct (some_ready rank cursor Hok Hs Hc) as (spec & Hin & Hr) . intros Hnil.
    assert (spec ∈ List.filter (ready_spec cursor) (profile_nodes (profile cursor))) as Hx.
    { apply list_elem_of_In, filter_In. split; [by apply list_elem_of_In | done]. }
    rewrite Hnil in Hx. by apply not_elem_of_nil in Hx.
  - intros Hne. destruct (List.filter _ _) as [|spec l] eqn:E; [done|].
    assert (spec ∈ List.filter (ready_spec cursor) (profile_nodes (profile cursor))) as Hx
      by (rewrite E; left).
    apply list_elem_of_In, filter_In in Hx as [Hin Hr]. unfold ready_spec in Hr.
    apply not_true_iff_false. rewrite forallb_forall. intros Hall. specialize (Hall _ Hin).
    destruct (is_accepted cursor (id spec)); [done|].
    destruct (nodeEnabled (when spec) (predicates cursor)); done.
Qed.

(** The scheduler never stalls: in a workflow without dependency cycles, when nothing is
    running or failed and disabled nodes have been accepted, either the workflow is complete or
    some node is ready to run. *)
Theorem dag_progress rank cursor :
  dag_ok rank cursor -> settled cursor ->
  exists ready complete, readyNodes cursor = Ok ready /\ dagComplete cursor = Ok complete /\
    (complete = false -> ready <> []) /\ (ready <> [] -> complete = false).
Proof. apply scheduler_progress. Qed.

(** ** The life of a node *)

Definition isRetry (e : AgentNodeEventType) : bool :=
  match e with NODE_RETRYING => true | _ => false end.

Definition runNode (r : NodeRecord) (evs : list AgentNodeEventType) : result DagErr NodeRecord :=
  rfold (fun r e => reduceNode r e None) r evs.

Lemma reduceNode_ok r e a r' :
  reduceNode r e a = Ok r' ->
  includes e (TRANSITIONS (status r)) = true /\ status r' = NEXT e /\ nodeId r' = nodeId r /\
  attempt r' = match e with
    | NODE_RETRYING => attempt r + 1
    | NODE_SPAWNED => attempt r + (if (attempt r =? 0)%nat then 1 else 0)
    | _ => attempt r end.
Proof.
  unfold reduceNode. destruct (includes e _) eqn:Hi; [|done]. cbn [negb]. by intros [= <-].
Qed.

Lemma runNode_started r evs r' :
  1 <= attempt r -> runNode r evs = Ok r' ->
  attempt r' = attempt r + length (List.filter isRetry evs) /\
  (status r = ACCEPTED -> status r' = ACCEPTED) /\ nodeId r' = nodeId r.
Proof.
  revert r. induction evs as [|e evs IH]; intros r Ha Hr; cbn in Hr.
  - injection Hr as <-. cbn. split_and!; [lia | done | done].
  - apply rbind_ok in Hr as (r1 & H1 & Hr). apply reduceNode_ok in H1 as (Hi & Hs & Hid & Hat).
    assert (attempt r1 = attempt r + (if isRetry e then 1 else 0)) as Hat'.
    { rewrite Hat. destruct (attempt r =? 0)%nat eqn:E; [apply Nat.eqb_eq in E; lia|].
      destruct e; cbn; lia. }
    destruct (IH r1) as (H2 & H3 & H4); [lia | done|]. split_and!.
    + rewrite H2, Hat'. cbn [List.filter]. destruct (isRetry e); cbn; lia.
    + intros Hacc. apply H3. rewrite Hs. rewrite Hacc in Hi. by destruct e.
    + congruence.
Qed.

(** The life of a workflow node: it starts by being spawned, its attempt number is one plus
    the number of retries it has gone through, and once accepted it stays accepted. *)
Theorem node_lifecycle nid e evs r :
  runNode (mkRecord nid PENDING 0 None) (e :: evs) = Ok r ->
  e = NODE_SPAWNED /\ attempt r = 1 + length (List.filter isRetry evs) /\ nodeId r = nid /\
  forall pre mid suf, evs = pre ++ suf -> runNode (mkRecord nid PENDING 0 None) (e :: pre) = Ok mid ->
    status mid = ACCEPTED -> status r = ACCEPTED.
Proof.
  intros Hr. unfold runNode in Hr. cbn [rfold] in Hr. apply rbind_ok in Hr as (r1 & H1 & Hr).
  pose proof H1 as H1'. apply reduceNode_ok in H1 as (Hi & Hs & Hid & Hat). cbn in Hi, Hat, Hid.
  assert (e = NODE_SPAWNED) as -> by (by destruct e). cbn in Hat.
  destruct (runNode_started r1 evs r) as (H2 & _ & H4); [lia | done|].
  split_and!; [done | lia | congruence|]. intros pre mid suf -> Hm Hacc.
  unfold runNode in Hm. cbn [rfold] in Hm. rewrite H1' in Hm. cbn [rbind] in Hm.
  rewrite rfold_app in Hr. rewrite Hm in Hr. cbn [rbind] in Hr.
  destruct (runNode_started r1 pre mid) as (Hp & _ & _); [lia | done|].
  apply (runNode_started mid suf r); [lia | done | done].
Qed.

(** ** A wave *)

Section Wave.
Context (runtime : SpawnRequest -> Outcome) (validEnvelope : SpawnRequest -> string -> bool).

Lemma advanceNode_log cursor ns log spec ns' log' :
  advanceNode runtime validEnvelope cursor (ns, log) spec = Ok (ns', log') ->
  exists new, log' = log ++ new /\
    forall q, Spawn q ∈ new -> spawn_node q = id spec /\ role spec = Some (spawn_role q) /\
      (toolProfile q = tool_write <-> spawn_role q = implementer).
Proof.
  unfold advanceNode. destruct (role spec) as [r|].
  - intros Ha. apply rbind_ok in Ha as (cur & _ & Ha). apply rbind_ok in Ha as (sp & _ & Ha).
    apply rbind_ok in Ha as (out & _ & Ha). set (q := mkSpawn _ _ _ _ _) in *.
    assert (spawn_node q = id spec /\ Some r = Some (spawn_role q) /\
      (toolProfile q = tool_write <-> spawn_role q = implementer)) as Hq.
    { subst q. cbn. split_and!; [done..|]. case_bool_decide; [done|]. case_bool_decide; done. }
    assert (forall extra q', (forall x, extra = [x] -> x <> Spawn q') -> Spawn q' ∈ [Spawn q] ++ extra ->
      length extra <= 1 -> q' = q) as Hone.
    { intros extra q' Hne Hin Hlen. apply elem_of_app in Hin as [Hin|Hin].
      - apply list_elem_of_singleton in Hin. congruence.
      - destruct extra as [|x [|y extra]]; [by apply not_elem_of_nil in Hin| |cbn in Hlen; lia].
        apply list_elem_of_singleton in Hin. by destruct (Hne x eq_refl). }
    assert (forall n l, Ok (replaceNode n l, log ++ [Spawn q]) = @Ok DagErr _ (ns', log') ->
      exists new, log' = log ++ new /\ forall q', Spawn q' ∈ new -> q' = q) as Hplain.
    { intros n l [= _ <-]. exists [Spawn q]. split; [done|]. intros q' Hin.
      apply (Hone []); [done | by rewrite app_nil_r | cbn; lia]. }
    cut (exists new, log' = log ++ new /\ forall q', Spawn q' ∈ new -> q' = q).
    { intros (new & -> & Hnew). exists new. split; [done|]. intros q' Hin. by rewrite (Hnew q' Hin). }
    destruct (runtime q) as [a env|a|a].
    + destruct (validEnvelope q env); cbn [negb] in Ha.
      * apply rbind_ok in Ha as (n & _ & [= _ <-]).
        exists ([Spawn q] ++ [PersistArtifact (id spec) out env]). split; [by rewrite <- app_assoc|].
        intros q' Hin. apply (Hone [PersistArtifact (id spec) out env]); [|done | cbn; lia].
        intros x [= <-]. done.
      * apply rbind_ok in Ha as (n & _ & Ha). by eapply Hplain.
    + apply rbind_ok in Ha as (n & _ & Ha). by eapply Hplain.
    + apply rbind_ok in Ha as (n & _ & Ha). by eapply Hplain.
  - intros Ha. apply rbind_ok in Ha as (cur & _ & [= _ <-]). exists []. split; [by rewrite app_nil_r|].
    intros q Hq. by apply not_elem_of_nil in Hq.
Qed.

Lemma advance_log cursor specs ns log ns' log' q :
  rfold (advanceNode runtime validEnvelope cursor) (ns, log) specs = Ok (ns', log') ->
  Spawn q ∈ log' -> Spawn q ∈ log \/ exists spec, spec ∈ specs /\ spawn_node q = id spec /\
    role spec = Some (spawn_role q) /\ (toolProfile q = tool_write <-> spawn_role q = implementer).
Proof.
  revert ns log. induction specs as [|spec specs IH]; intros ns log Hr Hq; cbn [rfold] in Hr.
  - injection Hr as _ <-. by left.
  - apply rbind_ok in Hr as ([ns1 log1] & H1 & Hr).
    destruct (IH _ _ Hr Hq) as [Hin|(s & Hs & Hrest)]; [|right; exists s; set_solver].
    apply advanceNode_log in H1 as (new & -> & Hnew). apply elem_of_app in Hin as [Hin|Hin]; [by left|].
    right. exists spec. split; [left | by apply Hnew].
Qed.

Lemma recordOf_replace cursor ns next d c :
  recordOf (with_nodes cursor (replaceNode (with_nodes cursor ns) next)) d = Ok c ->
  recordOf (with_nodes cursor ns) d = Ok c \/ (nodeId next = d /\ c = next).
Proof.
  unfold recordOf, replaceNode, with_nodes. cbn [nodes]. induction ns as [|n ns IH]; cbn [map array_find]; [done|].
  destruct (bool_decide_reflect (nodeId n = nodeId next)) as [Hn|Hn].
  - rewrite Hn. case_bool_decide; [|exact IH]. intros [= <-]. by right.
  - case_bool_decide; [by left|exact IH].
Qed.

(** Skipping only turns disabled nodes into accepted ones. *)
Lemma recordOf_skipped cursor skipped ns ns' d c :
  rfold (acceptSkipped cursor) ns skipped = Ok ns' -> recordOf (with_nodes cursor ns') d = Ok c ->
  recordOf (with_nodes cursor ns) d = Ok c \/ (d ∈ skipped /\ status c = ACCEPTED).
Proof.
  revert ns. induction skipped as [|s skipped IH]; intros ns Hr Hd; cbn [rfold] in Hr.
  - injection Hr as <-. by left.
  - apply rbind_ok in Hr as (ns1 & H1 & Hr). destruct (IH ns1 Hr Hd) as [H2|[H2 H3]]; [|right; set_solver].
    unfold acceptSkipped in H1. apply rbind_ok in H1 as (cur & Hc & [= <-]).
    apply recordOf_replace in H2 as [H2|[<- ->]]; [by left|right]. split; [|done].
    unfold recordOf in Hc. destruct (array_find _ _) as [x|] eqn:E; [|done]. injection Hc as ->.
    apply array_find_some in E as [_ E%bool_decide_eq_true]. cbn [nodeId]. rewrite E. by left.
Qed.

Lemma spawned_were_ready cursor cursor' log q :
  advanceDag runtime validEnvelope cursor = Ok (cursor', log) -> Spawn q ∈ log ->
  exists spec cur skipped, spec ∈ profile_nodes (profile cursor) /\ spawn_node q = id spec /\
    role spec = Some (spawn_role q) /\ nodeEnabled (when spec) (predicates cursor) = true /\
    recordOf cursor (id spec) = Ok cur /\ (status cur = PENDING \/ status cur = RETRYING) /\
    skippedDisabledNodes cursor = Ok skipped /\
    Forall (fun d => accepted cursor d = Ok true \/ d ∈ skipped) (dependsOn spec) /\
    (toolProfile q = tool_write <-> spawn_role q = implementer).
Proof.
  unfold advanceDag. intros Ha Hq. apply rbind_ok in Ha as (sk & Hsk & Ha).
  apply rbind_ok in Ha as (ns & Hns & Ha). apply rbind_ok in Ha as (ready & Hready & Ha).
  apply rbind_ok in Ha as ([ns' log'] & Hr & [= _ <-]).
  destruct (advance_log _ _ _ _ _ _ _ Hr Hq) as [Hin|(spec & Hspec & Hnode & Hrole & Htool)].
  { by apply not_elem_of_nil in Hin. }
  unfold readyNodes in Hready. apply rbind_ok in Hready as (ws & _ & Hready).
  destruct (rfilter_elem _ _ _ _ Hready Hspec) as [Hin Hp]. unfold isReady in Hp.
  apply rbind_ok in Hp as (cur & Hcur & Hp). destruct (negb _ && negb _) eqn:E1 in Hp; [done|].
  destruct (nodeEnabled (when spec) _) eqn:Hen; [|done]. cbn [negb] in Hp.
  apply rbind_ok in Hp as (deps & Hd & Hp). destruct deps; [|done]. apply revery_true in Hd.
  assert (Hst : status cur = PENDING \/ status cur = RETRYING) by (by destruct (status cur); auto).
  pose proof (recordOf_skipped cursor sk (nodes cursor) ns) as Hkeep.
  assert (Hself : with_nodes cursor (nodes cursor) = cursor) by (by destruct cursor).
  rewrite Hself in Hkeep. exists spec, cur, sk. split_and!; try done.
  - destruct (Hkeep _ _ Hns Hcur) as [?|[_ Hacc]]; [done|]. rewrite Hacc in Hst. naive_solver.
  - eapply Forall_impl; [exact Hd|]. intros d Hacc. unfold accepted in Hacc.
    apply rbind_ok in Hacc as (rd & Hrd & Hacc). destruct (Hkeep _ _ Hns Hrd) as [H1|[? _]]; [left|by right].
    unfold accepted. by rewrite H1.
Qed.

(** Whatever the workers do, a wave only spawns workers for nodes that were ready when it
    started: enabled, waiting for a first or another attempt, with every dependency accepted or
    just skipped as disabled; and only implementers get the write tool profile. *)
Theorem advanceDag_spawns_ready cursor cursor' log q :
  advanceDag runtime validEnvelope cursor = Ok (cursor', log) -> Spawn q ∈ log ->
  exists spec cur skipped, spec ∈ profile_nodes (profile cursor) /\ spawn_node q = id spec /\
    role spec = Some (spawn_role q) /\ nodeEnabled (when spec) (predicates cursor) = true /\
    recordOf cursor (id spec) = Ok cur /\ (status cur = PENDING \/ status cur = RETRYING) /\
    skippedDisabledNodes cursor = Ok skipped /\
    Forall (fun d => accepted cursor d = Ok true \/ d ∈ skipped) (dependsOn spec) /\
    (toolProfile q = tool_write <-> spawn_role q = implementer).
Proof. apply spawned_were_ready. Qed.

(** A controller node handled after other nodes in the same wave discards what the wave did
    for them: every other record is as it was before the wave, although their workers have run and
    their artifacts have been stored. *)
Theorem controller_discards_wave cursor ns log pre spec ns' log' n :
  rfold (advanceNode runtime validEnvelope cursor) (ns, log) (pre ++ [spec]) = Ok (ns', log') ->
  role spec = None -> n ∈ ns' -> nodeId n <> id spec -> n ∈ nodes cursor.
Proof.
  intros Hr Hrole Hn Hid. rewrite rfold_app in Hr. apply rbind_ok in Hr as ([ns1 log1] & _ & Hr).
  cbn [rfold] in Hr. apply rbind_ok in Hr as ([ns2 log2] & Ha & [= <- <-]).
  unfold advanceNode in Ha. rewrite Hrole in Ha. apply rbind_ok in Ha as (cur & Hc & [= <- <-]).
  unfold recordOf in Hc. destruct (array_find _ _) as [x|] eqn:E; [|done]. injection Hc as ->.
  apply array_find_some in E as [_ E]. apply bool_decide_eq_true in E.
  unfold replaceNode in Hn. apply list_elem_of_fmap in Hn as (m & -> & Hm). cbn [nodeId] in *.
  destruct (bool_decide (nodeId m = nodeId cur)); [cbn in Hid; congruence | done].
Qed.
End Wave.

(** ** Concrete workflows *)

Definition work_node (i : string) (r : AgentRole) (deps : list string) : WorkflowNode :=
  mkWorkflowNode i (Some r) None deps None (mkRetry 3 [on_validation]) [] None.
Definition controller_node (i : string) (deps : list string) : WorkflowNode :=
  mkWorkflowNode i None (Some VERIFICATION) deps None (mkRetry 3 [on_validation]) [] None.

Definition profile_of (specs : list WorkflowNode) : WorkflowProfile :=
  mkProfile FEATURE [k_feature] specs [task_contract] (mkAcceptance false false false true).
Definition small_profile : WorkflowProfile :=
  profile_of [work_node "analyst" analyst []; work_node "planner" planner ["analyst"]].
Definition small_cursor : DagCursor :=
  mkCursor small_profile (initialNodeRecords small_profile) [].
Definition small_rank (i : string) : nat := if bool_decide (i = "analyst") then 0 else 1.

Lemma small_ok : dag_ok small_rank small_cursor.
Proof.
  split.
  - apply (bool_decide_unpack _). by vm_compute.
  - done.
  - intros spec d Hs Hd. apply elem_of_cons in Hs as [->|Hs]; [by apply not_elem_of_nil in Hd|].
    apply list_elem_of_singleton in Hs as ->. apply list_elem_of_singleton in Hd as ->.
    split; [left | vm_compute; lia].
Qed.

Lemma small_settled : settled small_cursor.
Proof.
  split.
  - intros r [->|[->|Hr%not_elem_of_nil]%elem_of_cons]%elem_of_cons; by left.
  - intros spec r [->|[->|Hs%not_elem_of_nil]%elem_of_cons]%elem_of_cons Hen; by vm_compute in Hen.
Qed.

Lemma dag_progress_witness :
  exists ready complete, readyNodes small_cursor = Ok ready /\ dagComplete small_cursor = Ok complete /\
    (complete = false -> ready <> []).
Proof.
  destruct (dag_progress small_rank small_cursor small_ok small_settled) as (r & c & H1 & H2 & H3 & _).
  exists r, c. split; [exact H1 | split; [exact H2 | exact H3]].
Defined.

Lemma node_lifecycle_witness :
  exists r, runNode (mkRecord "n" PENDING 0 None)
    [NODE_SPAWNED; NODE_RETRYING; NODE_SPAWNED; ARTIFACT_ACCEPTED] = Ok r /\ attempt r = 2.
Proof.
  exists (mkRecord "n" ACCEPTED 2 None). split; [vm_compute; reflexivity|].
  destruct (node_lifecycle "n" NODE_SPAWNED [NODE_RETRYING; NODE_SPAWNED; ARTIFACT_ACCEPTED]
    (mkRecord "n" ACCEPTED 2 None)) as (_ & Ha & _); [vm_compute; reflexivity | exact Ha].
Defined.

Definition accepting (r : SpawnRequest) : Outcome := Artifact "agent" "envelope".
Definition blocking (r : SpawnRequest) : Outcome := Blocker "agent".
Definition all_valid (r : SpawnRequest) (e : string) : bool := true.

Definition analyst_request : SpawnRequest :=
  mkSpawn "analyst" analyst tool_read task_contract ("analyst", 1).

Definition small_wave : DagCursor * list Effect :=
  match advanceDag accepting all_valid small_cursor with Ok p => p | Err _ => (small_cursor, []) end.

Lemma advanceDag_spawns_ready_witness :
  exists spec, spec ∈ profile_nodes small_profile /\ spawn_node analyst_request = id spec.
Proof.
  destruct (advanceDag_spawns_ready accepting all_valid small_cursor (fst small_wave) (snd small_wave)
    analyst_request) as (spec & cur & sk & Hs & Hid & _);
    [vm_compute; reflexivity | left | exists spec; split; [exact Hs | exact Hid]].
Defined.

(** A worker node and a controller node that are ready together. *)
Definition mixed_profile : WorkflowProfile :=
  profile_of [work_node "analyst" analyst []; controller_node "gate" []].
Definition mixed_cursor : DagCursor :=
  mkCursor mixed_profile (initialNodeRecords mixed_profile) [].

(** The analyst ran, its artifact was stored, and its record is back to PENDING. *)
Lemma accepted_artifact_forgotten :
  exists cursor', advanceDag accepting all_valid mixed_cursor =
    Ok (cursor', [Spawn analyst_request; PersistArtifact "analyst" task_contract "envelope"]) /\
    nodes cursor' = [mkRecord "analyst" PENDING 0 None; mkRecord "gate" ACCEPTED 1 None].
Proof. eexists. split; vm_compute; reflexivity. Qed.

Lemma controller_discards_wave_witness :
  exists ns' log', rfold (advanceNode accepting all_valid mixed_cursor) (nodes mixed_cursor, [])
      ([work_node "analyst" analyst []] ++ [controller_node "gate" []]) = Ok (ns', log') /\
    mkRecord "analyst" PENDING 0 None ∈ nodes mixed_cursor.
Proof.
  eexists _, _. split; [vm_compute; reflexivity|].
  eapply (controller_discards_wave accepting all_valid mixed_cursor (nodes mixed_cursor) []
    [work_node "analyst" analyst []] (controller_node "gate" []));
    [vm_compute; reflexivity | reflexivity | left | vm_compute; discriminate].
Defined.

(** Two writers that become ready together are both started in one wave; if both block, two
    writers hold the slot that [assertSingleWriter] allows once. *)
Definition writers_profile : WorkflowProfile :=
  profile_of [work_node "w1" implementer []; work_node "w2" implementer []].
Definition writers_cursor : DagCursor :=
  mkCursor writers_profile (initialNodeRecords writers_profile) [].

Lemma two_writers_in_one_wave :
  exists cursor' log, advanceDag blocking all_valid writers_cursor = Ok (cursor', log) /\
    activeWriterCount cursor' = Ok 2 /\ assertSingleWriter cursor' = Err WRITER_CONCURRENCY.
Proof. eexists _, _. split; [vm_compute; reflexivity|]. split; vm_compute; reflexivity. Qed.
