(* ===== verification/ProfileCompose.v ===== *)
(** The catalogue of workflow profiles: packages/domain/src/profile-catalog.ts. *)

From Stdlib Require Import String.
From S2P Require Import Prelude DagEngine JsText.
Open Scope string_scope.
Open Scope list_scope.

(** ** Nodes *)

Definition RETRY : RetryPolicy := mkRetry 3 [on_validation; on_runtime; on_lost_session].

(** The second argument of [workflowNode]: a missing [dependsOn] or [invalidates] means the empty
    list. *)
Record NodeFields := mkFields {
  f_role : option AgentRole;
  f_operation : option ControllerOperation;
  f_dependsOn : list string;
  f_when : option string;
  f_invalidates : list string;
  f_concurrencyGroup : option ConcurrencyGroup
}.

(** The three shapes of field literals in the sources. *)
Definition agent (r : AgentRole) (deps : list string) (g : ConcurrencyGroup) : NodeFields :=
  mkFields (Some r) None deps None [] (Some g).
Definition agent_when (r : AgentRole) (deps : list string) (w : string) (g : ConcurrencyGroup)
    (inv : list string) : NodeFields :=
  mkFields (Some r) None deps (Some w) inv (Some g).
Definition gate (op : ControllerOperation) (deps : list string) : NodeFields :=
  mkFields None (Some op) deps None [] None.

Definition workflowNode (i : string) (f : NodeFields) : WorkflowNode :=
  mkWorkflowNode i (f_role f) (f_operation f) (f_dependsOn f) (f_when f) RETRY (f_invalidates f)
    (f_concurrencyGroup f).

(** ** Profiles *)

Definition FEATURE_STANDARD_ACCEPT : AcceptancePolicy := mkAcceptance true true true false.

Definition FEATURE_PROFILE : WorkflowProfile := mkProfile FEATURE [k_feature]
  [workflowNode "analyst" (agent analyst [] G_read);
    workflowNode "code-investigator" (agent investigator ["analyst"] G_read);
    workflowNode "spec-investigator" (agent investigator ["analyst"] G_read);
    workflowNode "planner" (agent planner ["code-investigator"; "spec-investigator"] G_read);
    workflowNode "plan-critic" (agent_when architecture_reviewer ["planner"] "HIGH_RISK" G_review []);
    workflowNode "implementer" (agent implementer ["planner"] G_write);
    workflowNode "integration" (gate DETERMINISTIC_INTEGRATION ["implementer"]);
    workflowNode "verification" (gate VERIFICATION ["integration"]);
    workflowNode "reviewer" (agent reviewer ["verification"] G_review);
    workflowNode "repair-implementer" (agent_when implementer ["reviewer"]
       "HAS_BLOCKING_FINDINGS" G_write ["verification"; "reviewer"]);
    workflowNode "fresh-reviewer" (agent_when reviewer ["repair-implementer"]
       "HAS_BLOCKING_FINDINGS" G_review []);
    workflowNode "spec-consistency" (gate SPEC_CONSISTENCY ["reviewer"]);
    workflowNode "acceptance" (gate ACCEPTANCE ["spec-consistency"])]
  [task_contract; implementation_plan; change_manifest; review_findings; acceptance_ledger]
  FEATURE_STANDARD_ACCEPT.

Definition BUGFIX_PROFILE : WorkflowProfile := mkProfile BUGFIX [k_bugfix]
  [workflowNode "analyst" (agent analyst [] G_read);
    workflowNode "reproduction-investigator" (agent investigator ["analyst"] G_read);
    workflowNode "root-cause-investigator" (agent investigator ["reproduction-investigator"] G_read);
    workflowNode "second-hypothesis" (agent_when investigator ["reproduction-investigator"] "UNSTABLE_BUG" G_read []);
    workflowNode "planner" (agent planner ["root-cause-investigator"] G_read);
    workflowNode "implementer" (agent implementer ["planner"] G_write);
    workflowNode "regression-verification" (gate REGRESSION_VERIFICATION ["implementer"]);
    workflowNode "reviewer" (agent reviewer ["regression-verification"] G_review);
    workflowNode "repair-implementer" (agent_when implementer ["reviewer"]
       "HAS_BLOCKING_FINDINGS" G_write ["regression-verification"; "reviewer"]);
    workflowNode "fresh-reviewer" (agent_when reviewer ["repair-implementer"]
       "HAS_BLOCKING_FINDINGS" G_review []);
    workflowNode "acceptance" (gate ACCEPTANCE ["reviewer"])]
  [task_contract; investigation_report; implementation_plan; change_manifest; review_findings; acceptance_ledger]
  FEATURE_STANDARD_ACCEPT.

Definition FAST_PROFILE : WorkflowProfile := mkProfile FAST [k_feature; k_bugfix]
  [workflowNode "analyst" (agent analyst [] G_read);
    workflowNode "investigator" (agent investigator ["analyst"] G_read);
    workflowNode "implementer" (agent implementer ["investigator"] G_write);
    workflowNode "verification" (gate VERIFICATION ["implementer"]);
    workflowNode "reviewer" (agent reviewer ["verification"] G_review);
    workflowNode "repair-implementer" (agent_when implementer ["reviewer"]
       "HAS_BLOCKING_FINDINGS" G_write ["verification"; "reviewer"]);
    workflowNode "fresh-reviewer" (agent_when reviewer ["repair-implementer"]
       "HAS_BLOCKING_FINDINGS" G_review []);
    workflowNode "acceptance" (gate ACCEPTANCE ["reviewer"])]
  [task_contract; change_manifest; review_findings; acceptance_ledger]
  FEATURE_STANDARD_ACCEPT.

Definition HIGH_RISK_PROFILE : WorkflowProfile := mkProfile HIGH_RISK [k_feature; k_bugfix; k_refactor]
  (List.filter (fun item => negb (bool_decide (id item = "acceptance"))) (profile_nodes FEATURE_PROFILE) ++
   [workflowNode "security-reviewer" (agent security_reviewer ["reviewer"] G_review);
    workflowNode "architecture-reviewer" (agent architecture_reviewer ["reviewer"] G_review);
    workflowNode "test-reviewer" (agent test_reviewer ["reviewer"] G_review);
    workflowNode "acceptance" (gate ACCEPTANCE
      ["security-reviewer"; "architecture-reviewer"; "test-reviewer"; "spec-consistency"])])
  [task_contract; implementation_plan; change_manifest; review_findings; acceptance_ledger]
  FEATURE_STANDARD_ACCEPT.

Definition RESEARCH_PROFILE : WorkflowProfile := mkProfile RESEARCH [k_research]
  [workflowNode "analyst" (agent analyst [] G_read);
    workflowNode "code-investigator" (agent investigator ["analyst"] G_read);
    workflowNode "spec-investigator" (agent investigator ["analyst"] G_read);
    workflowNode "history-investigator" (agent investigator ["analyst"] G_read);
    workflowNode "external-investigator" (agent_when investigator ["analyst"] "EXTERNAL_RESEARCH" G_read []);
    workflowNode "contradiction-finder" (agent conflict_resolver
      ["code-investigator"; "spec-investigator"; "history-investigator"] G_review);
    workflowNode "synthesizer" (agent final_synthesizer ["contradiction-finder"] G_review);
    workflowNode "evidence-completeness" (gate EVIDENCE_COMPLETENESS ["synthesizer"]);
    workflowNode "acceptance" (gate ACCEPTANCE ["evidence-completeness"])]
  [task_contract; investigation_report; acceptance_ledger]
  (mkAcceptance false false false true).

Definition SPEC_ONLY_PROFILE : WorkflowProfile := mkProfile SPEC_ONLY [k_spec]
  [workflowNode "analyst" (agent analyst [] G_read);
    workflowNode "behavior-investigator" (agent investigator ["analyst"] G_read);
    workflowNode "constraint-investigator" (agent investigator ["analyst"] G_read);
    workflowNode "spec-author" (agent implementer ["behavior-investigator"; "constraint-investigator"] G_write);
    workflowNode "spec-reviewer" (agent spec_reviewer ["spec-author"] G_review);
    workflowNode "consistency-gate" (gate CONSISTENCY_GATE ["spec-reviewer"]);
    workflowNode "acceptance" (gate ACCEPTANCE ["consistency-gate"])]
  [task_contract; change_manifest; review_findings; acceptance_ledger]
  FEATURE_STANDARD_ACCEPT.

Definition REFACTOR_PROFILE : WorkflowProfile := mkProfile REFACTOR [k_refactor]
  [workflowNode "analyst" (agent analyst [] G_read);
    workflowNode "dependency-investigator" (agent investigator ["analyst"] G_read);
    workflowNode "characterization" (gate BASELINE_CHARACTERIZATION ["dependency-investigator"]);
    workflowNode "planner" (agent planner ["characterization"] G_read);
    workflowNode "implementer" (agent implementer ["planner"] G_write);
    workflowNode "equivalence" (gate BEHAVIORAL_EQUIVALENCE ["implementer"]);
    workflowNode "architecture-reviewer" (agent architecture_reviewer ["equivalence"] G_review);
    workflowNode "acceptance" (gate ACCEPTANCE ["architecture-reviewer"])]
  [task_contract; implementation_plan; change_manifest; review_findings; acceptance_ledger]
  FEATURE_STANDARD_ACCEPT.

Definition WORKFLOW_PROFILES : list WorkflowProfile :=
  [FAST_PROFILE; FEATURE_PROFILE; BUGFIX_PROFILE; HIGH_RISK_PROFILE; RESEARCH_PROFILE;
   SPEC_ONLY_PROFILE; REFACTOR_PROFILE].

(** [None]: the error "unknown workflow profile". *)
Definition workflowProfileById (i : WorkflowProfileId) : option WorkflowProfile :=
  array_find (fun item => bool_decide (profile_id item = i)) WORKFLOW_PROFILES.

(** Project adapters: packages/domain/src/project-adapter.ts (the default adapter, the merge that
    may only tighten it, the search for the adapter document in a snapshot) and the adapter types
    of packages/contracts/src/schemas/agents.ts.

    The commands of an adapter are opaque here: [CommandSpec] is a parameter. *)

Open Scope string_scope.
Open Scope list_scope.

Inductive Access : Set := allow | deny.
#[export] Instance Access_eq_dec : EqDecision Access.
Proof. solve_decision. Defined.

Inductive PackPhase : Set := phase_baseline | phase_targeted | phase_final.

Record VerificationPack (CommandSpec : Type) := mkPack {
  obligationKinds : list ustr;
  pack_commands : list CommandSpec;
  pack_phase : PackPhase
}.
Arguments mkPack {CommandSpec}.

(** [packs] is an optional record; a JavaScript object with string keys. *)
Record ProjectAdapter (CommandSpec : Type) := mkAdapter {
  project : ustr * ustr;
  roots : list ustr;
  behaviorChangeRequiresUpdate : bool;
  baseline : list CommandSpec;
  targeted : list CommandSpec;
  final : list CommandSpec;
  packs : option (list (ustr * VerificationPack CommandSpec));
  protectedPaths : list ustr;
  network_default : Access;
  externalResearch : Access
}.
Arguments mkAdapter {CommandSpec}.
Arguments project {CommandSpec}.
Arguments roots {CommandSpec}.
Arguments behaviorChangeRequiresUpdate {CommandSpec}.
Arguments baseline {CommandSpec}.
Arguments targeted {CommandSpec}.
Arguments final {CommandSpec}.
Arguments packs {CommandSpec}.
Arguments protectedPaths {CommandSpec}.
Arguments network_default {CommandSpec}.
Arguments externalResearch {CommandSpec}.

Definition PROJECT_ADAPTER_SNAPSHOT_PATHS : list ustr :=
  [u ".pi/hec-adapter.yaml"; u ".pi/hec-adapter.yml"; u ".pi/hec-adapter.json"].

Definition isProjectAdapterSnapshotPath (path : ustr) : bool :=
  includes path PROJECT_ADAPTER_SNAPSHOT_PATHS.

Section Adapter.
Context {CommandSpec : Type}.
Abbreviation ProjectAdapter := (ProjectAdapter CommandSpec).

Definition DEFAULT_PROJECT_ADAPTER : ProjectAdapter :=
  mkAdapter (u "auto", u "auto") [u "specs"] true [] [] [] (Some []) [u ".env*"; u ".git/**"] deny deny.

(** [{ ...base, ...overlay }] on objects. *)
Definition spread {V} (base overlay : list (ustr * V)) : list (ustr * V) :=
  foldl (fun m kv => JsMap.set kv.1 kv.2 m) (foldl (fun m kv => JsMap.set kv.1 kv.2 m) [] base) overlay.

Definition mergeTightening (base overlay : ProjectAdapter) : ProjectAdapter :=
  mkAdapter (project overlay)
    (uniq (roots base ++ roots overlay))
    (behaviorChangeRequiresUpdate base || behaviorChangeRequiresUpdate overlay)
    (baseline base ++ baseline overlay)
    (targeted base ++ targeted overlay)
    (final base ++ final overlay)
    (Some (spread (default [] (packs base)) (default [] (packs overlay))))
    (uniq (protectedPaths base ++ protectedPaths overlay))
    deny
    (if bool_decide (externalResearch base = deny) || bool_decide (externalResearch overlay = deny)
     then deny else allow).

Record ProjectLock := mkLock { lock_adapter : ProjectAdapter; tightened : bool }.

(** The candidate document after the schema check and the check that its network default denies:
    [validated] is [None] when no document was given. *)
Definition lockProjectAdapter (validated : option ProjectAdapter) : ProjectLock :=
  match validated with
  | None => mkLock DEFAULT_PROJECT_ADAPTER false
  | Some overlay => mkLock (mergeTightening DEFAULT_PROJECT_ADAPTER overlay) true
  end.
End Adapter.

(** A snapshot entry: its type and its path. *)
Inductive EntryType : Set := entry_file | entry_directory | entry_symlink | entry_submodule.
#[export] Instance EntryType_eq_dec : EqDecision EntryType.
Proof. solve_decision. Defined.

Definition findProjectAdapterSnapshotEntry (entries : list (EntryType * ustr)) : option (EntryType * ustr) :=
  foldl (fun found path => match found with
           | Some e => Some e
           | None => array_find (fun e => bool_decide (e.1 = entry_file) && bool_decide (e.2 = path)) entries
           end) None PROJECT_ADAPTER_SNAPSHOT_PATHS.

(** ** The merge only tightens *)

Section Tightening.
Context {CommandSpec : Type}.
Implicit Types a b : ProjectAdapter CommandSpec.

Lemma spread_get {V} (b o : list (ustr * V)) k :
  JsMap.get k o = None -> NoDup (map fst b) -> JsMap.get k (spread b o) = JsMap.get k b.
Proof.
  assert (forall l m : list (ustr * V), k ∉ map fst l ->
    JsMap.get k (foldl (fun m kv => JsMap.set kv.1 kv.2 m) m l) = JsMap.get k m) as Hskip.
  { induction l as [|[k' v] l IH]; intros m Hk; cbn in *; [done|].
    rewrite IH by set_solver. apply JsMap.get_set_ne. set_solver. }
  assert (forall l m : list (ustr * V), NoDup (map fst l) -> k ∈ map fst l ->
    JsMap.get k (foldl (fun m kv => JsMap.set kv.1 kv.2 m) m l) = JsMap.get k l) as Htake.
  { induction l as [|[k' v] l IH]; intros m Hn Hk; cbn in *; [by apply not_elem_of_nil in Hk|].
    apply NoDup_cons in Hn as [Hk' Hn]. case_decide as Hd.
    - subst k'. rewrite Hskip by done. apply JsMap.get_set_eq.
    - apply IH; [done | set_solver]. }
  intros Ho Hn. unfold spread. rewrite Hskip by (by apply JsMap.get_none).
  destruct (decide (k ∈ map fst b)) as [Hk|Hk]; [by apply Htake|].
  rewrite Hskip by done. symmetry. by apply JsMap.get_none.
Qed.

(** [a] is at least as strict as [b]. *)
Record tighter a b : Prop := {
  t_roots : roots b ⊆ roots a;
  t_spec : behaviorChangeRequiresUpdate b = true -> behaviorChangeRequiresUpdate a = true;
  t_baseline : baseline b `sublist_of` baseline a;
  t_targeted : targeted b `sublist_of` targeted a;
  t_final : final b `sublist_of` final a;
  t_protected : protectedPaths b ⊆ protectedPaths a;
  t_network : network_default a = deny;
  t_research : externalResearch b = deny -> externalResearch a = deny
}.

Lemma mergeTightening_upper a b : tighter (mergeTightening a b) a /\ tighter (mergeTightening a b) b.
Proof.
  split; constructor; cbn.
  all: try (intros x Hx; apply uniq_spec; set_solver).
  all: try (by intros ->); try (intros ->; by rewrite orb_true_r).
  all: try (by apply sublist_inserts_r); try (by apply sublist_inserts_l); try done.
Qed.
End Tightening.

(** Task contracts and run compositions: the first part of
    packages/domain/src/profile-compiler.ts (from a contract or router signals to a
    [RunComposition]) and the contract types of packages/contracts/src/schemas/agents.ts. *)

Open Scope string_scope.
Open Scope list_scope.

(** ** Enumerations *)

Inductive RiskFlag : Set :=
| flag_public_api | flag_auth | flag_secrets | flag_crypto | flag_payment | flag_migration
| flag_concurrency | flag_behavior_change | flag_no_tests | flag_unstable_bug
| flag_multi_subsystem | flag_destructive | flag_generated_code | flag_emergency
| flag_production_impact | flag_ui_visible | flag_data_mutation | flag_external_contract.
#[export] Instance RiskFlag_eq_dec : EqDecision RiskFlag.
Proof. solve_decision. Defined.

Inductive PrimaryIntent : Set :=
| research | diagnosis | requirements | specification | architecture_design | feature | bugfix
| refactor | optimization | dependency_upgrade | migration | security_remediation
| test_engineering | documentation | build_tooling | incident_response | deprecation_retirement.
#[export] Instance PrimaryIntent_eq_dec : EqDecision PrimaryIntent.
Proof. solve_decision. Defined.

Inductive RiskOverlay : Set :=
| o_security_sensitive | o_authentication | o_public_api | o_data_mutation | o_migration
| o_concurrency | o_cross_cutting | o_ui_visible | o_production_impact | o_destructive
| o_external_contract | o_no_tests | o_emergency | o_generated_code.
#[export] Instance RiskOverlay_eq_dec : EqDecision RiskOverlay.
Proof. solve_decision. Defined.

Inductive VerificationPackId : Set :=
| p_frontend | p_web_ui | p_backend_api | p_database | p_library | p_cli | p_build_system
| p_security | p_documentation | p_performance.
#[export] Instance VerificationPackId_eq_dec : EqDecision VerificationPackId.
Proof. solve_decision. Defined.

Definition packName (p : VerificationPackId) : ustr :=
  u match p with
    | p_frontend => "frontend" | p_web_ui => "web-ui" | p_backend_api => "backend-api"
    | p_database => "database" | p_library => "library" | p_cli => "cli"
    | p_build_system => "build-system" | p_security => "security"
    | p_documentation => "documentation" | p_performance => "performance"
    end.

Inductive DeliveryMode : Set :=
| analysis_only | spec_artifact | integration_branch | patch | pull_request_ready
| mitigation_patch | migration_series | runbook | apply_to_worktree.
#[export] Instance DeliveryMode_eq_dec : EqDecision DeliveryMode.
Proof. solve_decision. Defined.

Inductive ExecutionBudget : Set := fast | standard | thorough.
#[export] Instance ExecutionBudget_eq_dec : EqDecision ExecutionBudget.
Proof. solve_decision. Defined.

Inductive ChangeClass : Set := c_none | corrective | adaptive | perfective | preventive | additive.

Inductive UrgencyLevel : Set := normal | urgent | incident.
#[export] Instance UrgencyLevel_eq_dec : EqDecision UrgencyLevel.
Proof. solve_decision. Defined.

Inductive RelatedRunRelation : Set :=
| permanent_fix | implementation | architecture_follow_on | migration_phase | research_follow_on.

Inductive VerificationMethod : Set := v_test | v_inspection | v_runtime | v_review | v_reproduction.
#[export] Instance VerificationMethod_eq_dec : EqDecision VerificationMethod.
Proof. solve_decision. Defined.

(** ** Contracts and compositions *)

Inductive RequiredEvidence : Set := e_command | e_diff | e_review | e_inspection | e_reproduction.
#[export] Instance RequiredEvidence_eq_dec : EqDecision RequiredEvidence.
Proof. solve_decision. Defined.

(** The fields of assumptions the compiler reads, and criteria. *)
Record ContractAssumption := mkAssumption { text : ustr; reversible : bool }.
Record AcceptanceCriterion := mkCriterion {
  criterion_id : ustr;
  statement : ustr;
  verification : list VerificationMethod;
  requiredEvidence : list RequiredEvidence
}.

(** What version 2 of a contract adds. *)
Record ContractV2 := mkV2 {
  v2_primaryIntent : PrimaryIntent;
  v2_secondaryIntents : list PrimaryIntent;
  v2_urgency : option UrgencyLevel
}.

Record TaskContract := mkContract {
  version2 : option ContractV2;
  kind : TaskKind;
  objective : ustr;
  inScope : list ustr;
  outOfScope : list ustr;
  constraints : list ustr;
  assumptions : list ContractAssumption;
  acceptanceCriteria : list AcceptanceCriterion;
  riskFlags : list RiskFlag;
  behaviorChanges : bool;
  updateRequired : bool;
  blockingQuestions : list ustr
}.

Record RelatedRunPlan := mkRelated {
  relation : RelatedRunRelation;
  related_primaryIntent : PrimaryIntent;
  related_overlays : list RiskOverlay;
  related_deliveryMode : DeliveryMode;
  related_objective : ustr;
  deferred : bool;
  blocksParent : bool
}.

Inductive BlockedReason : Set :=
| NEEDS_MEASURABLE_ACCEPTANCE | NEEDS_CONSUMER_EVIDENCE | NEEDS_ROLLBACK_EVIDENCE
| NEEDS_DESTRUCTIVE_AUTHORIZATION.
#[export] Instance BlockedReason_eq_dec : EqDecision BlockedReason.
Proof. solve_decision. Defined.

Record RunComposition := mkComposition {
  primaryIntent : PrimaryIntent;
  secondaryIntents : list PrimaryIntent;
  overlays : list RiskOverlay;
  verificationPacks : list VerificationPackId;
  deliveryMode : DeliveryMode;
  urgency : UrgencyLevel;
  executionBudget : ExecutionBudget;
  changeClass : ChangeClass;
  splitIntoRelatedRuns : list RelatedRunPlan;
  blockedReason : option BlockedReason
}.

(** ** Tables *)

Definition HIGH_OVERLAYS : list RiskOverlay :=
  [o_security_sensitive; o_authentication; o_public_api; o_data_mutation; o_migration;
   o_concurrency; o_cross_cutting; o_production_impact; o_destructive; o_emergency;
   o_external_contract; o_generated_code].

Definition FLAG_OVERLAYS (f : RiskFlag) : option (list RiskOverlay) :=
  match f with
  | flag_auth => Some [o_security_sensitive; o_authentication]
  | flag_secrets | flag_crypto | flag_payment => Some [o_security_sensitive]
  | flag_public_api => Some [o_public_api]
  | flag_migration => Some [o_migration]
  | flag_concurrency | flag_unstable_bug => Some [o_concurrency]
  | flag_multi_subsystem => Some [o_cross_cutting]
  | flag_no_tests => Some [o_no_tests]
  | flag_destructive => Some [o_destructive]
  | flag_generated_code => Some [o_generated_code]
  | flag_emergency => Some [o_emergency]
  | flag_production_impact => Some [o_production_impact]
  | flag_ui_visible => Some [o_ui_visible]
  | flag_data_mutation => Some [o_data_mutation]
  | flag_external_contract => Some [o_external_contract]
  | flag_behavior_change => None
  end.

Definition WRITE_INTENTS : list PrimaryIntent :=
  [feature; bugfix; refactor; optimization; dependency_upgrade; migration; security_remediation;
   test_engineering; documentation; build_tooling; incident_response; deprecation_retirement;
   requirements; specification; architecture_design].

Definition intentFromKind (k : TaskKind) : PrimaryIntent :=
  match k with
  | k_feature => feature | k_bugfix => bugfix | k_research => research | k_spec => specification
  | k_refactor => refactor
  end.

Definition kindFromIntent (i : PrimaryIntent) : TaskKind :=
  match i with
  | research | diagnosis => k_research
  | requirements | specification | architecture_design | documentation => k_spec
  | feature | optimization | test_engineering | build_tooling | dependency_upgrade | migration => k_feature
  | bugfix | security_remediation | incident_response => k_bugfix
  | refactor | deprecation_retirement => k_refactor
  end.

Definition changeClassFor (i : PrimaryIntent) : ChangeClass :=
  match i with
  | research | diagnosis | requirements | specification | architecture_design => c_none
  | feature => additive
  | bugfix | incident_response => corrective
  | security_remediation => corrective
  | refactor | optimization | documentation | deprecation_retirement => perfective
  | test_engineering => preventive
  | dependency_upgrade | migration | build_tooling => adaptive
  end.

Definition defaultDeliveryFor (i : PrimaryIntent) (urg : UrgencyLevel) : DeliveryMode :=
  if bool_decide (urg = incident) then mitigation_patch else
  match i with
  | research | diagnosis => analysis_only
  | requirements | specification | architecture_design | documentation => spec_artifact
  | migration => integration_branch
  | incident_response => mitigation_patch
  | deprecation_retirement => integration_branch
  | feature | bugfix | refactor | optimization | dependency_upgrade | security_remediation
  | test_engineering | build_tooling => integration_branch
  end.

Definition overlaysFromFlags (flags : list RiskFlag) : list RiskOverlay :=
  foldl (fun selected flag => match FLAG_OVERLAYS flag with
           | None => selected
           | Some mapped => foldl setAdd selected mapped
           end) [] flags.

(** ** Reading a contract *)

Definition contractPrimaryIntent (c : TaskContract) : PrimaryIntent :=
  match version2 c with Some v => v2_primaryIntent v | None => intentFromKind (kind c) end.

Definition contractSecondaryIntents (c : TaskContract) : list PrimaryIntent :=
  match version2 c with Some v => v2_secondaryIntents v | None => [] end.

Definition measurableAcceptance (c : TaskContract) : bool :=
  existsb (fun criterion =>
    let t := toLowerCase (statement criterion) in
    includes v_runtime (verification criterion) || includes v_test (verification criterion)
    || includes_text (u "ms") t || includes_text (u "baseline") t || includes_text (u "p95") t
    || includes_text (u "throughput") t || includes_text (u "latency") t) (acceptanceCriteria c).

Definition consumerEvidence (c : TaskContract) : bool :=
  existsb (fun item => includes_text (u "consumer") (toLowerCase (text item))) (assumptions c)
  || existsb (fun item => includes_text (u "consumer") (toLowerCase (statement item))) (acceptanceCriteria c).

Definition rollbackEvidence (c : TaskContract) : bool :=
  existsb (fun item => includes_text (u "rollback") (toLowerCase (text item))) (assumptions c)
  || existsb (fun item => includes_text (u "rollback") (toLowerCase item)) (constraints c).

Definition destructiveAuthorized (c : TaskContract) : bool :=
  bool_decide (blockingQuestions c = []) &&
  (existsb (fun item => includes_text (u "authorized") (toLowerCase (text item))) (assumptions c)
   || existsb (fun item => includes_text (u "authorized") (toLowerCase item)) (constraints c)).

Definition executionBudgetFor (primary : PrimaryIntent) (ovs : list RiskOverlay)
    (localScope isReversible behaviorChange : bool) : ExecutionBudget :=
  if localScope && isReversible && negb behaviorChange && bool_decide (ovs = [])
     && (bool_decide (primary = feature) || bool_decide (primary = bugfix)) then fast
  else if existsb (fun o => includes o HIGH_OVERLAYS) ovs then thorough
  else standard.

Section Packs.
Context {CommandSpec : Type} (adapter : ProjectAdapter CommandSpec).

Definition packsForContract (c : TaskContract) (ovs : list RiskOverlay) : list VerificationPackId :=
  let available := JsMap.keys (default [] (packs adapter)) in
  let haystack := toLowerCase (join_unit SPACE (inScope c ++ [objective c])) in
  let has w := includes_text (u w) haystack in
  let add (b : bool) (ids : list VerificationPackId) wanted := if b then foldl setAdd wanted ids else wanted in
  let wanted := add (has "ui" || has ".tsx" || has "css") [p_frontend; p_web_ui] [] in
  let wanted := add (has "api" || has "server" || has "route") [p_backend_api] wanted in
  let wanted := add (has "sql" || has "schema" || has "migration") [p_database] wanted in
  let wanted := add (has "cli") [p_cli] wanted in
  let wanted := add (has "docs" || has "documentation") [p_documentation] wanted in
  let wanted := add (includes o_security_sensitive ovs || includes o_authentication ovs) [p_security] wanted in
  let wanted := add (includes o_ui_visible ovs) [p_web_ui; p_frontend] wanted in
  let wanted := add (bool_decide (contractPrimaryIntent c = optimization)) [p_performance] wanted in
  let wanted := add (has "lib" || has "package") [p_library] wanted in
  let wanted := add (has "ci" || has "build") [p_build_system] wanted in
  List.filter (fun i => includes (packName i) available || bool_decide (available = [])) wanted.
End Packs.

(** ** Composition *)

Record ComposeSignals := mkSignals {
  s_kind : TaskKind;
  s_riskFlags : list RiskFlag;
  s_behaviorChange : bool;
  s_localScope : bool;
  s_reversible : bool;
  s_noTests : bool;
  s_unstableBug : bool;
  s_multiSubsystem : bool;
  s_externalResearch : bool
}.

Definition composeFromSignals (s : ComposeSignals) : RunComposition :=
  let primary := intentFromKind (s_kind s) in
  let ovs := overlaysFromFlags (s_riskFlags s) in
  let ovs := if s_multiSubsystem s && negb (includes o_cross_cutting ovs) then ovs ++ [o_cross_cutting] else ovs in
  let urg := if includes o_emergency ovs then incident else normal in
  mkComposition primary [] ovs [] (defaultDeliveryFor primary urg) urg
    (executionBudgetFor primary ovs (s_localScope s) (s_reversible s) (s_behaviorChange s))
    (changeClassFor primary) [] None.

Record CompositionDecision := mkDecision { composition : RunComposition; rewritten : bool }.

(** The local variables of [composeFromContract] that its rewriting steps change. *)
Record Draft := mkDraft {
  d_primary : PrimaryIntent;
  d_secondary : list PrimaryIntent;
  d_related : list RelatedRunPlan;
  d_rewritten : bool
}.

Definition without (i : PrimaryIntent) (l : list PrimaryIntent) : list PrimaryIntent :=
  List.filter (fun item => negb (bool_decide (item = i))) l.

Section Compose.
Context (c : TaskContract) (ovs : list RiskOverlay).

Definition rewriteRefactor (d : Draft) : Draft :=
  if bool_decide (d_primary d = refactor) && behaviorChanges c
  then mkDraft feature (uniq (refactor :: without refactor (d_secondary d))) (d_related d) true
  else d.

Definition rewriteEmergencyBugfix (d : Draft) : Draft :=
  if bool_decide (d_primary d = bugfix) && (includes o_emergency ovs || includes flag_emergency (riskFlags c))
  then mkDraft incident_response (d_secondary d)
         (d_related d ++ [mkRelated permanent_fix bugfix
            (List.filter (fun item => negb (bool_decide (item = o_emergency))) ovs)
            integration_branch (objective c) false true]) true
  else d.

Definition splitResearch (d : Draft) : Draft :=
  if bool_decide (d_primary d = research) && behaviorChanges c
  then mkDraft (d_primary d) (d_secondary d)
         (d_related d ++ [mkRelated implementation feature ovs integration_branch (objective c) false false]) true
  else d.

Definition rewriteDocumentation (d : Draft) : Draft :=
  if bool_decide (d_primary d = documentation) && behaviorChanges c
  then mkDraft (intentFromKind (if bool_decide (kind c = k_spec) then k_feature else kind c))
         (uniq (documentation :: without documentation (d_secondary d))) (d_related d) true
  else d.

Definition splitDestructiveMigration (d : Draft) : Draft :=
  if bool_decide (d_primary d = feature) && includes o_destructive ovs && includes o_migration ovs
  then mkDraft (d_primary d) (d_secondary d)
         (d_related d ++ [mkRelated migration_phase migration ovs migration_series (objective c) false true]) true
  else d.

(** The four guards assign one variable in turn: the last one that fires decides. *)
Definition blockedReasonFor (primary : PrimaryIntent) : option BlockedReason :=
  let b : option BlockedReason := None in
  let b := if bool_decide (primary = optimization) && negb (measurableAcceptance c)
           then Some NEEDS_MEASURABLE_ACCEPTANCE else b in
  let b := if bool_decide (primary = deprecation_retirement) && negb (consumerEvidence c)
           then Some NEEDS_CONSUMER_EVIDENCE else b in
  let b := if includes o_emergency ovs && negb (rollbackEvidence c)
           then Some NEEDS_ROLLBACK_EVIDENCE else b in
  if includes o_destructive ovs && negb (destructiveAuthorized c)
  then Some NEEDS_DESTRUCTIVE_AUTHORIZATION else b.
End Compose.

Definition contractOverlays (c : TaskContract) : list RiskOverlay :=
  let ovs := overlaysFromFlags (riskFlags c) in
  match version2 c with
  | Some v => if bool_decide (v2_urgency v = Some incident) && negb (includes o_emergency ovs)
              then ovs ++ [o_emergency] else ovs
  | None => ovs
  end.

Definition contractUrgency (c : TaskContract) (ovs : list RiskOverlay) : UrgencyLevel :=
  match version2 c with
  | Some (mkV2 _ _ (Some urg)) => urg
  | _ => if includes o_emergency ovs then incident else normal
  end.

Definition draftOf (c : TaskContract) (ovs : list RiskOverlay) : Draft :=
  splitDestructiveMigration c ovs (rewriteDocumentation c (splitResearch c ovs
    (rewriteEmergencyBugfix c ovs (rewriteRefactor c
      (mkDraft (contractPrimaryIntent c) (contractSecondaryIntents c) [] false))))).

Definition composeFromContract {CommandSpec} (c : TaskContract) (adapter : ProjectAdapter CommandSpec)
  : CompositionDecision :=
  let ovs := contractOverlays c in
  let localScope := (length (inScope c) <=? 3)%nat && negb (behaviorChanges c) in
  let isReversible := forallb reversible (assumptions c) in
  let d := draftOf c ovs in
  let primary := d_primary d in
  let urg := contractUrgency c ovs in
  mkDecision
    (mkComposition primary (without primary (d_secondary d)) (uniq ovs) (packsForContract adapter c ovs)
      (defaultDeliveryFor primary urg) urg
      (executionBudgetFor primary ovs localScope isReversible (behaviorChanges c))
      (changeClassFor primary) (d_related d) (blockedReasonFor c ovs primary))
    (d_rewritten d).
