(* ===== verification/ProfileCompiler.v ===== *)
(** The profile compiler: the second part of packages/domain/src/profile-compiler.ts (from a
    [RunComposition] to a compiled workflow graph) and packages/domain/src/adaptive-router.ts.

    The graph under construction is a value that the operations pass on.  The sources mutate node
    objects in place; a node object is reached again only through [graph.nodes] by its id, or
    through a variable bound just before, so an in-place assignment is the update of the first node
    with that id. *)

From Stdlib Require Import String.
From S2P Require Import Prelude JsText DagEngine ProfileCompose.
Open Scope string_scope.
Open Scope list_scope.

Definition MAX_NODES : nat := 96.

(** [NodeProvenance]: its source together with the id it carries. *)
Inductive NodeProvenance : Set :=
| from_intent (i : PrimaryIntent)
| from_secondary (i : PrimaryIntent)
| from_overlay (o : RiskOverlay)
| from_pack (p : VerificationPackId)
| from_delivery (m : DeliveryMode)
| from_budget (b : ExecutionBudget).

Inductive ForbiddenAction : Set :=
| apply_without_authorization | write_lease | apply_action | implementer_action | apply_to_user_tree.
#[export] Instance ForbiddenAction_eq_dec : EqDecision ForbiddenAction.
Proof. solve_decision. Defined.

Record GraphState := mkGraph {
  g_nodes : list WorkflowNode;
  provenance : list (string * NodeProvenance);
  deferredGates : list ControllerOperation;
  forbiddenActions : list ForbiddenAction
}.

(** ** Graph operations *)

Definition with_dependsOn (n : WorkflowNode) (deps : list string) : WorkflowNode :=
  mkWorkflowNode (id n) (role n) (operation n) deps (when n) (retryPolicy n) (invalidates n) (concurrencyGroup n).

Definition emptyGraph : GraphState := mkGraph [] [] [] [].

Definition nodeById (graph : GraphState) (i : string) : option WorkflowNode :=
  array_find (fun n => bool_decide (id n = i)) (g_nodes graph).

(** Assignment to a property of the object [graph.nodes.find((n) => n.id === i)]. *)
Fixpoint update_first (i : string) (f : WorkflowNode -> WorkflowNode) (ns : list WorkflowNode) : list WorkflowNode :=
  match ns with
  | [] => []
  | n :: r => if bool_decide (id n = i) then f n :: r else n :: update_first i f r
  end.

Definition set_nodes (graph : GraphState) (ns : list WorkflowNode) : GraphState :=
  mkGraph ns (provenance graph) (deferredGates graph) (forbiddenActions graph).

Definition update_node (i : string) (f : WorkflowNode -> WorkflowNode) (graph : GraphState) : GraphState :=
  set_nodes graph (update_first i f (g_nodes graph)).

Definition merge_node (n existing : WorkflowNode) : WorkflowNode :=
  mkWorkflowNode (id existing) (role existing) (operation existing)
    (uniq (dependsOn existing ++ dependsOn n))
    match when existing with None => when n | Some w => Some w end
    (retryPolicy existing) (uniq (invalidates existing ++ invalidates n)) (concurrencyGroup existing).

Definition addNode (graph : GraphState) (n : WorkflowNode) (p : NodeProvenance) : GraphState :=
  match nodeById graph (id n) with
  | Some _ => update_node (id n) (merge_node n) graph
  | None => mkGraph (g_nodes graph ++ [n]) (JsMap.set (id n) p (provenance graph))
              (deferredGates graph) (forbiddenActions graph)
  end.

Definition drop_id (i : string) (l : list string) : list string :=
  List.filter (fun dep => negb (bool_decide (dep = i))) l.

Definition removeNode (graph : GraphState) (i : string) : GraphState :=
  mkGraph
    (map (fun n => mkWorkflowNode (id n) (role n) (operation n) (drop_id i (dependsOn n)) (when n)
                     (retryPolicy n) (drop_id i (invalidates n)) (concurrencyGroup n))
       (List.filter (fun n => negb (bool_decide (id n = i))) (g_nodes graph)))
    (JsMap.del i (provenance graph)) (deferredGates graph) (forbiddenActions graph).

Definition attachBeforeAcceptance (graph : GraphState) (n : WorkflowNode) (p : NodeProvenance) : GraphState :=
  match nodeById graph "acceptance" with
  | None => addNode graph n p
  | Some acceptance =>
      let deps := if (0 <? length (dependsOn acceptance))%nat
                  then drop_id (id n) (dependsOn acceptance) else dependsOn n in
      let graph := addNode graph (with_dependsOn n deps) p in
      update_node "acceptance" (fun acceptance =>
        if includes (id n) (dependsOn acceptance) then acceptance
        else with_dependsOn acceptance (uniq (dependsOn acceptance ++ [id n]))) graph
  end.

(** ** Fragments *)

Definition writeRepairTail (verificationId reviewId : string) : list WorkflowNode :=
  [workflowNode "repair-implementer" (agent_when implementer [reviewId] "HAS_BLOCKING_FINDINGS" G_write
     [verificationId; reviewId]);
   workflowNode "fresh-reviewer" (agent_when reviewer ["repair-implementer"] "HAS_BLOCKING_FINDINGS"
     G_review [])].

Definition diagnosis_fragment : list WorkflowNode :=
  [workflowNode "analyst" (agent analyst [] G_read);
   workflowNode "reproduction-investigator" (agent investigator ["analyst"] G_read);
   workflowNode "root-cause-investigator" (agent investigator ["reproduction-investigator"] G_read);
   workflowNode "blast-radius-investigator" (agent investigator ["root-cause-investigator"] G_read);
   workflowNode "synthesizer" (agent final_synthesizer ["blast-radius-investigator"] G_review);
   workflowNode "evidence-completeness" (gate EVIDENCE_COMPLETENESS ["synthesizer"]);
   workflowNode "acceptance" (gate ACCEPTANCE ["evidence-completeness"])].

Definition optimization_fragment : list WorkflowNode :=
  [workflowNode "analyst" (agent analyst [] G_read);
   workflowNode "code-investigator" (agent investigator ["analyst"] G_read);
   workflowNode "characterization" (gate BASELINE_CHARACTERIZATION ["code-investigator"]);
   workflowNode "planner" (agent planner ["characterization"] G_read);
   workflowNode "implementer" (agent implementer ["planner"] G_write);
   workflowNode "verification" (gate VERIFICATION ["implementer"]);
   workflowNode "performance-reviewer" (agent performance_reviewer ["verification"] G_review);
   workflowNode "acceptance" (gate ACCEPTANCE ["performance-reviewer"])].

Definition dependency_upgrade_fragment : list WorkflowNode :=
  [workflowNode "analyst" (agent analyst [] G_read);
   workflowNode "inventory-investigator" (agent investigator ["analyst"] G_read);
   workflowNode "planner" (agent planner ["inventory-investigator"] G_read);
   workflowNode "implementer" (agent implementer ["planner"] G_write);
   workflowNode "verification" (gate VERIFICATION ["implementer"]);
   workflowNode "reviewer" (agent reviewer ["verification"] G_review)] ++
  writeRepairTail "verification" "reviewer" ++
  [workflowNode "acceptance" (gate ACCEPTANCE ["reviewer"])].

Definition migration_fragment : list WorkflowNode :=
  [workflowNode "analyst" (agent analyst [] G_read);
   workflowNode "phase-investigator" (agent investigator ["analyst"] G_read);
   workflowNode "planner" (agent planner ["phase-investigator"] G_read);
   workflowNode "implementer" (agent implementer ["planner"] G_write);
   workflowNode "migration-dry-run" (gate MIGRATION_DRY_RUN ["implementer"]);
   workflowNode "verification" (gate VERIFICATION ["migration-dry-run"]);
   workflowNode "reviewer" (agent reviewer ["verification"] G_review)] ++
  writeRepairTail "verification" "reviewer" ++
  [workflowNode "acceptance" (gate ACCEPTANCE ["reviewer"])].

Definition security_remediation_fragment : list WorkflowNode :=
  [workflowNode "analyst" (agent analyst [] G_read);
   workflowNode "confirmation-investigator" (agent investigator ["analyst"] G_read);
   workflowNode "similar-pattern-investigator" (agent investigator ["confirmation-investigator"] G_read);
   workflowNode "planner" (agent planner ["similar-pattern-investigator"] G_read);
   workflowNode "implementer" (agent implementer ["planner"] G_write);
   workflowNode "verification" (gate VERIFICATION ["implementer"]);
   workflowNode "security-reviewer" (agent security_reviewer ["verification"] G_review)] ++
  writeRepairTail "verification" "security-reviewer" ++
  [workflowNode "acceptance" (gate ACCEPTANCE ["security-reviewer"])].

Definition incident_response_fragment : list WorkflowNode :=
  [workflowNode "analyst" (agent analyst [] G_read);
   workflowNode "impact-investigator" (agent investigator ["analyst"] G_read);
   workflowNode "implementer" (agent implementer ["impact-investigator"] G_write);
   workflowNode "recovery-verification" (gate REGRESSION_VERIFICATION ["implementer"]);
   workflowNode "postmortem-synthesizer" (agent final_synthesizer ["recovery-verification"] G_review);
   workflowNode "acceptance" (gate ACCEPTANCE ["postmortem-synthesizer"])].

Definition deprecation_retirement_fragment : list WorkflowNode :=
  [workflowNode "analyst" (agent analyst [] G_read);
   workflowNode "consumer-investigator" (agent investigator ["analyst"] G_read);
   workflowNode "planner" (agent planner ["consumer-investigator"] G_read);
   workflowNode "implementer" (agent implementer ["planner"] G_write);
   workflowNode "verification" (gate VERIFICATION ["implementer"]);
   workflowNode "architecture-reviewer" (agent architecture_reviewer ["verification"] G_review);
   workflowNode "acceptance" (gate ACCEPTANCE ["architecture-reviewer"])].

Definition test_engineering_fragment : list WorkflowNode :=
  [workflowNode "analyst" (agent analyst [] G_read);
   workflowNode "characterization" (gate BASELINE_CHARACTERIZATION ["analyst"]);
   workflowNode "implementer" (agent implementer ["characterization"] G_write);
   workflowNode "verification" (gate VERIFICATION ["implementer"]);
   workflowNode "test-reviewer" (agent test_reviewer ["verification"] G_review)] ++
  writeRepairTail "verification" "test-reviewer" ++
  [workflowNode "acceptance" (gate ACCEPTANCE ["test-reviewer"])].

Definition documentation_fragment : list WorkflowNode :=
  [workflowNode "analyst" (agent analyst [] G_read);
   workflowNode "docs-investigator" (agent investigator ["analyst"] G_read);
   workflowNode "spec-author" (agent implementer ["docs-investigator"] G_write);
   workflowNode "spec-reviewer" (agent spec_reviewer ["spec-author"] G_review);
   workflowNode "acceptance" (gate ACCEPTANCE ["spec-reviewer"])].

Definition build_tooling_fragment : list WorkflowNode :=
  [workflowNode "analyst" (agent analyst [] G_read);
   workflowNode "tooling-investigator" (agent investigator ["analyst"] G_read);
   workflowNode "implementer" (agent implementer ["tooling-investigator"] G_write);
   workflowNode "verification" (gate VERIFICATION ["implementer"]);
   workflowNode "reviewer" (agent reviewer ["verification"] G_review)] ++
  writeRepairTail "verification" "reviewer" ++
  [workflowNode "acceptance" (gate ACCEPTANCE ["reviewer"])].

Definition architecture_design_fragment : list WorkflowNode :=
  [workflowNode "analyst" (agent analyst [] G_read);
   workflowNode "architecture-investigator" (agent investigator ["analyst"] G_read);
   workflowNode "spec-author" (agent implementer ["architecture-investigator"] G_write);
   workflowNode "architecture-reviewer" (agent architecture_reviewer ["spec-author"] G_review);
   workflowNode "acceptance" (gate ACCEPTANCE ["architecture-reviewer"])].

Definition loadFragment (intent : PrimaryIntent) : list WorkflowNode :=
  match intent with
  | feature => List.filter (fun n => negb (bool_decide (id n = "plan-critic"))) (profile_nodes FEATURE_PROFILE)
  | bugfix => List.filter (fun n => negb (bool_decide (id n = "second-hypothesis"))) (profile_nodes BUGFIX_PROFILE)
  | research => profile_nodes RESEARCH_PROFILE
  | specification | requirements => profile_nodes SPEC_ONLY_PROFILE
  | refactor => profile_nodes REFACTOR_PROFILE
  | diagnosis => diagnosis_fragment
  | optimization => optimization_fragment
  | dependency_upgrade => dependency_upgrade_fragment
  | migration => migration_fragment
  | security_remediation => security_remediation_fragment
  | incident_response => incident_response_fragment
  | deprecation_retirement => deprecation_retirement_fragment
  | test_engineering => test_engineering_fragment
  | documentation => documentation_fragment
  | build_tooling => build_tooling_fragment
  | architecture_design => architecture_design_fragment
  end.

Definition secondaryNodes (intent : PrimaryIntent) : list WorkflowNode :=
  match intent with
  | specification | requirements => [workflowNode "spec-investigator" (agent investigator ["analyst"] G_read)]
  | documentation => [workflowNode "docs-investigator" (agent investigator ["analyst"] G_read)]
  | test_engineering => [workflowNode "characterization" (gate BASELINE_CHARACTERIZATION ["analyst"])]
  | refactor => [workflowNode "characterization" (gate BASELINE_CHARACTERIZATION ["analyst"])]
  | security_remediation =>
      [workflowNode "similar-pattern-investigator" (agent investigator ["analyst"] G_read)]
  | research | diagnosis | architecture_design | feature | bugfix | optimization | dependency_upgrade
  | migration | build_tooling | incident_response | deprecation_retirement => []
  end.

(** ** Overlays, packs, delivery, budget *)

Definition forbid (graph : GraphState) (actions : list ForbiddenAction) : GraphState :=
  mkGraph (g_nodes graph) (provenance graph) (deferredGates graph) (uniq (forbiddenActions graph ++ actions)).

Definition defer_gate (graph : GraphState) (op : ControllerOperation) : GraphState :=
  mkGraph (g_nodes graph) (provenance graph) (deferredGates graph ++ [op]) (forbiddenActions graph).

Definition deferSpecConsistency (graph : GraphState) : GraphState :=
  if includes SPEC_CONSISTENCY (deferredGates graph) then graph else defer_gate graph SPEC_CONSISTENCY.

Definition skipOperation (graph : GraphState) (op : ControllerOperation) : GraphState :=
  match array_find (fun n => bool_decide (operation n = Some op)) (g_nodes graph) with
  | Some found => defer_gate (removeNode graph (id found)) op
  | None => graph
  end.

Definition applyOverlay (graph : GraphState) (overlay : RiskOverlay) : GraphState :=
  match overlay with
  | o_security_sensitive =>
      attachBeforeAcceptance graph
        (workflowNode "security-reviewer" (agent security_reviewer ["reviewer"] G_review)) (from_overlay overlay)
  | o_authentication => graph
  | o_public_api =>
      attachBeforeAcceptance
        (addNode graph (workflowNode "consumer-investigator" (agent investigator ["analyst"] G_read))
           (from_overlay overlay))
        (workflowNode "architecture-reviewer" (agent architecture_reviewer ["reviewer"] G_review))
        (from_overlay overlay)
  | o_data_mutation | o_migration =>
      attachBeforeAcceptance graph
        (workflowNode "migration-dry-run" (gate MIGRATION_DRY_RUN ["implementer"])) (from_overlay overlay)
  | o_concurrency =>
      addNode graph
        (workflowNode "second-hypothesis" (agent investigator
           match nodeById graph "reproduction-investigator" with
           | Some _ => ["reproduction-investigator"] | None => ["analyst"] end G_read))
        (from_overlay overlay)
  | o_cross_cutting =>
      attachBeforeAcceptance graph
        (workflowNode "architecture-reviewer" (agent architecture_reviewer ["reviewer"] G_review))
        (from_overlay overlay)
  | o_ui_visible | o_external_contract => graph
  | o_production_impact =>
      attachBeforeAcceptance graph
        (workflowNode "rollback-evidence" (gate ROLLBACK_EVIDENCE ["verification"])) (from_overlay overlay)
  | o_destructive => forbid graph [apply_without_authorization]
  | o_no_tests =>
      addNode graph (workflowNode "characterization" (gate BASELINE_CHARACTERIZATION ["analyst"]))
        (from_overlay overlay)
  | o_emergency =>
      deferSpecConsistency (foldl skipOperation graph [SPEC_CONSISTENCY; BEHAVIORAL_EQUIVALENCE])
  | o_generated_code =>
      addNode graph (workflowNode "generator-investigator" (agent investigator ["analyst"] G_read))
        (from_overlay overlay)
  end.

Definition is_present (graph : GraphState) (i : string) : bool :=
  match nodeById graph i with Some _ => true | None => false end.

(** [for (const node of [...graph.nodes]) if (p(node)) removeNode(graph, node.id)]; [p] reads only
    properties that a removal does not change. *)
Definition remove_where (p : WorkflowNode -> bool) (graph : GraphState) : GraphState :=
  foldl removeNode graph (map id (List.filter p (g_nodes graph))).

Definition applyDelivery (graph : GraphState) (mode : DeliveryMode) : GraphState :=
  match mode with
  | analysis_only =>
      forbid (remove_where (fun n => bool_decide (role n = Some implementer)
                                     || bool_decide (concurrencyGroup n = Some G_write)) graph)
        [write_lease; apply_action; implementer_action]
  | spec_artifact => forbid graph [apply_to_user_tree]
  | integration_branch | patch | pull_request_ready => graph
  | mitigation_patch =>
      let graph := deferSpecConsistency (forbid graph [apply_to_user_tree]) in
      attachBeforeAcceptance graph
        (workflowNode "rollback-evidence"
           (gate ROLLBACK_EVIDENCE (List.filter (is_present graph) ["recovery-verification"; "verification"])))
        (from_delivery mode)
  | migration_series => graph
  | runbook =>
      forbid (remove_where (fun n => bool_decide (role n = Some implementer)) graph) [apply_action; write_lease]
  | apply_to_worktree => graph
  end.

Definition removeIfPresent (graph : GraphState) (i : string) : GraphState :=
  if is_present graph i then removeNode graph i else graph.

Definition rename_investigator (source : WorkflowNode) : WorkflowNode :=
  mkWorkflowNode "investigator" (role source) (operation source) ["analyst"] (when source)
    (retryPolicy source) (invalidates source) (concurrencyGroup source).

(** The three parts of the fast budget: nodes dropped, one investigator kept, the implementer
    attached to it. *)
Definition fastDropped : list string :=
  ["planner"; "plan-critic"; "spec-investigator"; "spec-consistency"; "root-cause-investigator";
   "reproduction-investigator"].

Definition keepOneInvestigator (graph : GraphState) : GraphState :=
  let source := match nodeById graph "code-investigator" with
    | Some n => Some n
    | None => match nodeById graph "investigator" with
      | Some n => Some n
      | None => array_find (fun n => bool_decide (role n = Some investigator)) (g_nodes graph)
      end
    end in
  match source with
  | Some s =>
      if negb (bool_decide (id s = "investigator"))
      then addNode (removeNode graph (id s)) (rename_investigator s) (from_budget fast)
      else graph
  | None =>
      if negb (is_present graph "investigator") && is_present graph "analyst"
      then addNode graph (workflowNode "investigator" (agent investigator ["analyst"] G_read)) (from_budget fast)
      else graph
  end.

Definition applyBudget (graph : GraphState) (budget : ExecutionBudget) : GraphState :=
  match budget with
  | fast =>
      let graph := keepOneInvestigator (foldl removeIfPresent graph fastDropped) in
      let graph := remove_where (fun n => bool_decide (role n = Some investigator)
                                          && negb (bool_decide (id n = "investigator"))) graph in
      update_node "implementer" (fun n => with_dependsOn n ["investigator"]) graph
  | standard => graph
  | thorough =>
      if is_present graph "planner" && negb (is_present graph "plan-critic")
      then addNode graph (workflowNode "plan-critic" (agent architecture_reviewer ["planner"] G_review))
             (from_budget thorough)
      else graph
  end.

(** [adapter.verification.packs?.[id]] *)
Definition packOf {CommandSpec} (adapter : ProjectAdapter CommandSpec) (i : VerificationPackId)
  : option (VerificationPack CommandSpec) :=
  match packs adapter with Some m => JsMap.get (packName i) m | None => None end.

Definition attachPackNodes {CommandSpec} (graph : GraphState) (ids : list VerificationPackId)
    (adapter : ProjectAdapter CommandSpec) : GraphState :=
  match List.filter (fun i => match packOf adapter i with Some _ => true | None => false end) ids with
  | [] => graph
  | first :: _ =>
      if negb (is_present graph "verification") && is_present graph "implementer"
      then addNode graph (workflowNode "verification" (gate VERIFICATION ["implementer"])) (from_pack first)
      else graph
  end.

(** ** The cycle check *)

(** The closure's [visiting] and [visited]. *)
Record Marks := mkMarks { visiting : list string; visited : list string }.

(** [for (const dep of deps) if (visit(dep)) return true]: the early return leaves the marks. *)
Fixpoint visit_all (visit : string -> Marks -> option (bool * Marks)) (deps : list string) (m : Marks)
  : option (bool * Marks) :=
  match deps with
  | [] => Some (false, m)
  | dep :: rest =>
      match visit dep m with
      | Some (false, m') => visit_all visit rest m'
      | other => other
      end
  end.

(** [None]: out of fuel. *)
Fixpoint visit (fuel : nat) (byId : list (string * WorkflowNode)) (i : string) (m : Marks)
  : option (bool * Marks) :=
  match fuel with
  | O => None
  | S fuel =>
      if includes i (visited m) then Some (false, m)
      else if includes i (visiting m) then Some (true, m)
      else
        let m := mkMarks (setAdd (visiting m) i) (visited m) in
        let deps := match JsMap.get i byId with Some n => dependsOn n | None => [] end in
        match visit_all (visit fuel byId) deps m with
        | Some (false, m) => Some (false, mkMarks (drop_id i (visiting m)) (setAdd (visited m) i))
        | other => other
        end
  end.

(** [new Map(nodes.map((node) => [node.id, node]))] *)
Definition index_nodes (ns : list WorkflowNode) : list (string * WorkflowNode) :=
  foldl (fun m n => JsMap.set (id n) n m) [] ns.

(** A path of nested visits has distinct nodes, and at its end at most one id without a node. *)
Definition hasCycle (ns : list WorkflowNode) : option bool :=
  fst <$> visit_all (visit (S (length ns)) (index_nodes ns)) (map id ns) (mkMarks [] []).

(** ** The compiled profile *)

Definition nodeIdsOf (ns : list WorkflowNode) : string := String.concat "," (map id ns).

Definition legacyLabel (graph : GraphState) (c : RunComposition) : WorkflowProfileId :=
  let ids := nodeIdsOf (g_nodes graph) in
  let same p := bool_decide (ids = nodeIdsOf (profile_nodes p)) in
  if same FAST_PROFILE then FAST
  else if same FEATURE_PROFILE then FEATURE
  else if same BUGFIX_PROFILE then BUGFIX
  else if same RESEARCH_PROFILE then RESEARCH
  else if same SPEC_ONLY_PROFILE then SPEC_ONLY
  else if same REFACTOR_PROFILE then REFACTOR
  else if same HIGH_RISK_PROFILE then HIGH_RISK
  else if bool_decide (executionBudget c = fast) then FAST
  else match kindFromIntent (primaryIntent c) with
    | k_bugfix => BUGFIX
    | k_research => RESEARCH
    | k_spec => SPEC_ONLY
    | k_refactor => REFACTOR
    | k_feature => FEATURE
    end.

Definition requiredArtifactsFor (graph : GraphState) (c : RunComposition) : list ArtifactType :=
  let some_role p := existsb (fun n => match role n with Some r => p r | None => false end) (g_nodes graph) in
  let add (b : bool) a artifacts := if b then setAdd artifacts a else artifacts in
  let artifacts := [task_contract; acceptance_ledger] in
  let artifacts := add (some_role (fun r => bool_decide (r = investigator))) investigation_report artifacts in
  let artifacts := add (some_role (fun r => bool_decide (r = planner))) implementation_plan artifacts in
  let artifacts := add (some_role (fun r => bool_decide (r = implementer)) && includes (primaryIntent c) WRITE_INTENTS)
                     change_manifest artifacts in
  add (some_role (fun r => bool_decide (r = reviewer) || bool_decide (r = security_reviewer)))
    review_findings artifacts.

Definition acceptancePolicyFor (c : RunComposition) : AcceptancePolicy :=
  let analysis := bool_decide (deliveryMode c = analysis_only) in
  mkAcceptance (negb analysis) (negb analysis) (negb analysis) analysis.

Record CompiledProfile := mkCompiled {
  compiled_profile : WorkflowProfile;
  compiled_composition : RunComposition;
  nodeProvenance : list (string * NodeProvenance);
  compiled_deferredGates : list ControllerOperation;
  compiled_forbiddenActions : list ForbiddenAction
}.

Record CompiledProfileResult := mkResult {
  compiled : CompiledProfile;
  result_predicates : list string;
  blocked : bool
}.

Inductive CompileErr : Set := PROFILE_CYCLE | NODE_BUDGET | OUT_OF_FUEL.

(** The [signals] of [CompileProfileInput]; an absent object has all flags false. *)
Record CompileSignals := mkCompileSignals { unstableBug : bool; externalResearchSignal : bool }.

Section Compile.
Context {CommandSpec : Type}.

(** The graph before the checks. *)
Definition assemble (c : RunComposition) (adapter : ProjectAdapter CommandSpec) : GraphState :=
  let graph := foldl (fun g n => addNode g n (from_intent (primaryIntent c))) emptyGraph
                 (loadFragment (primaryIntent c)) in
  let graph := foldl (fun g secondary =>
                 foldl (fun g n => addNode g n (from_secondary secondary)) g (secondaryNodes secondary))
                 graph (secondaryIntents c) in
  let graph := foldl applyOverlay graph (overlays c) in
  let graph := attachPackNodes graph (verificationPacks c) adapter in
  let graph := applyDelivery graph (deliveryMode c) in
  applyBudget graph (executionBudget c).

Definition dropMissingDeps (graph : GraphState) : GraphState :=
  set_nodes graph (map (fun n => with_dependsOn n (List.filter (is_present graph) (dependsOn n))) (g_nodes graph)).

Definition predicatesFor (c : RunComposition) (s : CompileSignals) : list string :=
  (if unstableBug s || includes o_concurrency (overlays c) then ["UNSTABLE_BUG"] else []) ++
  (if externalResearchSignal s then ["EXTERNAL_RESEARCH"] else []) ++
  (if bool_decide (executionBudget c = thorough) then ["HIGH_RISK"] else []) ++
  (match blockedReason c with Some _ => ["COMPOSITION_BLOCKED"] | None => [] end) ++
  (if bool_decide (blockedReason c = Some NEEDS_DESTRUCTIVE_AUTHORIZATION)
   then ["NEED_DESTRUCTIVE_AUTH"] else []).

Definition compileRunComposition (c : RunComposition) (adapter : ProjectAdapter CommandSpec)
    (s : CompileSignals) : result CompileErr CompiledProfileResult :=
  let graph := assemble c adapter in
  match hasCycle (g_nodes graph) with
  | None => Err OUT_OF_FUEL
  | Some cyclic =>
      throw_if cyclic with PROFILE_CYCLE;
      throw_if (MAX_NODES <? length (g_nodes graph))%nat with NODE_BUDGET;
      let graph := dropMissingDeps graph in
      Ok (mkResult
        (mkCompiled
          (mkProfile (legacyLabel graph c) [kindFromIntent (primaryIntent c)] (g_nodes graph)
             (requiredArtifactsFor graph c) (acceptancePolicyFor c))
          c (provenance graph) (uniq (deferredGates graph)) (uniq (forbiddenActions graph)))
        (predicatesFor c s)
        match blockedReason c with Some _ => true | None => false end)
  end.

Definition compileProfileFromContract (contract : TaskContract) (adapter : ProjectAdapter CommandSpec)
  : result CompileErr CompiledProfileResult :=
  compileRunComposition (composition (composeFromContract contract adapter)) adapter
    (mkCompileSignals (includes flag_unstable_bug (riskFlags contract)) false).

Definition resolvedVerificationPacks (c : RunComposition) (adapter : ProjectAdapter CommandSpec)
  : list (VerificationPackId * VerificationPack CommandSpec) :=
  let m := default [] (packs adapter) in
  foldl (fun resolved i => match JsMap.get (packName i) m with
           | None => resolved
           | Some pack => resolved ++ [(i, pack)]
           end) [] (verificationPacks c).

(** ** adaptive-router.ts *)

Inductive Escalation : Set :=
| second_independent_investigator | escalate_security_reviewer | migration_plan_dry_run_rollback
| escalate_architecture_reviewer | characterization_or_inconclusive.

Record ProfileSelection := mkSelection {
  sel_profileId : WorkflowProfileId;
  sel_predicates : list string;
  escalation : list Escalation;
  sel_compiled : CompiledProfile;
  sel_blocked : bool
}.

Definition signalsFromContract (c : TaskContract) : ComposeSignals :=
  mkSignals (kind c) (riskFlags c) (behaviorChanges c)
    ((length (inScope c) <=? 3)%nat && negb (behaviorChanges c))
    (forallb reversible (assumptions c))
    (includes flag_no_tests (riskFlags c)) (includes flag_unstable_bug (riskFlags c))
    (includes flag_multi_subsystem (riskFlags c)) false.

Definition selectWorkflowProfile (s : ComposeSignals) : result CompileErr ProfileSelection :=
  let? r := compileRunComposition (composeFromSignals s)
              (lock_adapter (lockProjectAdapter (None : option (ProjectAdapter CommandSpec))))
              (mkCompileSignals (s_unstableBug s) (s_externalResearch s)) in
  let flag f := includes f (s_riskFlags s) in
  let esc :=
    (if s_unstableBug s then [second_independent_investigator] else []) ++
    (if flag flag_auth || flag flag_secrets then [escalate_security_reviewer] else []) ++
    (if flag flag_migration then [migration_plan_dry_run_rollback] else []) ++
    (if flag flag_public_api || s_multiSubsystem s then [escalate_architecture_reviewer] else []) ++
    (if s_noTests s then [characterization_or_inconclusive] else []) in
  Ok (mkSelection (profile_id (compiled_profile (compiled r))) (result_predicates r) esc (compiled r) (blocked r)).
End Compile.
