(* ===== verification/ProfileGraph.v ===== *)
(** The cycle check of the profile compiler: the depth-first search of [hasCycle] terminates within
    its fuel and is exact; when it finds no cycle, the order in which it finished the nodes ranks
    them so that every dependency has a smaller rank. *)

From stdpp Require Import relations.
From Stdlib Require Import String.
From S2P Require Import Prelude DagEngine ProfileCompiler ProfileCompose.
Open Scope string_scope.
Open Scope list_scope.

Definition depEdge (ns : list WorkflowNode) (a b : string) : Prop :=
  exists n, n ∈ ns /\ id n = a /\ b ∈ dependsOn n.

(** Some node depends on itself through one or more dependencies. *)
Definition cyclic (ns : list WorkflowNode) : Prop := exists a, tc (depEdge ns) a a.

(** A number for every id that decreases along dependencies. *)
Definition ranked (rank : string -> nat) (ns : list WorkflowNode) : Prop :=
  forall n d, n ∈ ns -> d ∈ dependsOn n -> rank d < rank (id n).

Lemma ranked_acyclic rank ns : ranked rank ns -> ~ cyclic ns.
Proof.
  intros Hr [a Ha]. assert (forall x y, tc (depEdge ns) x y -> rank y < rank x) as Hd.
  { intros x y Hxy. induction Hxy as [x y (n & Hn & <- & Hd)|x y z (n & Hn & <- & Hd) _ IH].
    - by apply Hr.
    - specialize (Hr n y Hn Hd). lia. }
  specialize (Hd a a Ha). lia.
Qed.

(** ** Nodes by id *)

Lemma index_nodes_get ns k n :
  NoDup (map id ns) -> JsMap.get k (index_nodes ns) = Some n <-> n ∈ ns /\ id n = k.
Proof.
  intros Hn. unfold index_nodes.
  cut (forall m, JsMap.get k (foldl (fun m n => JsMap.set (id n) n m) m ns) = Some n <->
    (n ∈ ns /\ id n = k) \/ (k ∉ map id ns /\ JsMap.get k m = Some n)).
  { intros H. rewrite H. cbn [JsMap.get]. naive_solver. }
  induction ns as [|n0 ns IH]; intros m; cbn [foldl map].
  - split; [intros H; right; split; [apply not_elem_of_nil | done] |].
    intros [[H%not_elem_of_nil _]|[_ H]]; done.
  - cbn in Hn. apply NoDup_cons in Hn as [Hn0 Hn]. rewrite IH by done. rewrite JsMap.get_set, !elem_of_cons.
    case_decide as Hk; [subst k|]; naive_solver.
Qed.

Lemma index_nodes_keys ns : length (JsMap.keys (index_nodes ns)) <= length ns.
Proof.
  unfold index_nodes. cut (forall m : list (string * WorkflowNode),
    length (JsMap.keys (foldl (fun m n => JsMap.set (id n) n m) m ns)) <= length (JsMap.keys m) + length ns).
  { intros H. apply (H []). }
  induction ns as [|n ns IH]; intros m; cbn [foldl length]; [lia|].
  etransitivity; [apply IH|]. destruct (decide (id n ∈ JsMap.keys m)) as [Hk|Hk].
  - rewrite JsMap.keys_set_present by done. lia.
  - rewrite JsMap.keys_set_absent by done. rewrite length_app. cbn. lia.
Qed.

(** ** The search *)

Section Search.
Context (byId : list (string * WorkflowNode)).

Definition depsOf (i : string) : list string :=
  match JsMap.get i byId with Some n => dependsOn n | None => [] end.

Definition edge (a b : string) : Prop := b ∈ depsOf a.

(** Finished nodes were finished after their dependencies, and are not on the current path. *)
Record marks_ok (m : Marks) : Prop := {
  m_nodup : NoDup (visited m);
  m_order k x : visited m !! k = Some x -> depsOf x ⊆ take k (visited m);
  m_disjoint x : x ∈ visiting m -> x ∉ visited m
}.

(** What a search from [targets] on a path [path] returns. *)
Definition finds (path targets : list string) (m : Marks) (r : option (bool * Marks)) : Prop :=
  exists b m', r = Some (b, m') /\
    if b then exists a, tc edge a a
    else marks_ok m' /\ visiting m' = path /\ targets ⊆ visited m' /\ visited m ⊆ visited m'.

Lemma visit_all_finds vis path ds m :
  (forall d m, d ∈ ds -> marks_ok m -> visiting m = path -> finds path [d] m (vis d m)) ->
  marks_ok m -> visiting m = path -> finds path ds m (visit_all vis ds m).
Proof.
  revert m. induction ds as [|d ds IH]; intros m Hv Hm Hp; cbn [visit_all].
  - exists false, m. split; [done|]. split_and!; [done | done | set_solver | done].
  - destruct (Hv d m) as (b & m1 & -> & Hb); [set_solver | done | done |].
    destruct b; [by exists true, m1|]. destruct Hb as (Hm1 & Hp1 & Hd & Hsub).
    destruct (IH m1) as (b & m2 & -> & Hb); [set_solver | done | done |].
    exists b, m2. split; [done|]. destruct b; [done|]. destruct Hb as (? & ? & ? & ?).
    split_and!; [done | done | set_solver | set_solver].
Qed.

(** Ids with a node that are not on the path. *)
Definition room (path : list string) : nat :=
  length (List.filter (fun k => negb (includes k path)) (JsMap.keys byId)).

Lemma room_smaller path i : i ∈ JsMap.keys byId -> i ∉ path -> room (path ++ [i]) < room path.
Proof.
  unfold room. generalize (JsMap.keys byId) as l. intros l Hi Hp.
  assert (forall l, length (List.filter (fun k => negb (includes k (path ++ [i]))) l) <=
                    length (List.filter (fun k => negb (includes k path)) l)) as Hle.
  { intros l'. induction l' as [|k l' IH]; cbn; [done|].
    destruct (includes k path) eqn:E1, (includes k (path ++ [i])) eqn:E2; cbn; try lia.
    apply includes_true in E1. apply includes_false in E2. set_solver. }
  induction l as [|k l IH]; [by apply not_elem_of_nil in Hi|]. cbn [List.filter].
  destruct (decide (k = i)) as [->|Hk].
  - assert (includes i (path ++ [i]) = true) as -> by (apply includes_true; set_solver).
    assert (includes i path = false) as -> by (by apply includes_false). cbn. specialize (Hle l). lia.
  - apply elem_of_cons in Hi as [->|Hi]; [done|]. specialize (IH Hi).
    destruct (includes k path) eqn:E1, (includes k (path ++ [i])) eqn:E2; cbn; try lia.
    apply includes_true in E1. apply includes_false in E2. set_solver.
Qed.

Lemma drop_id_last i path : i ∉ path -> drop_id i (path ++ [i]) = path.
Proof.
  intros Hi. unfold drop_id. rewrite List.filter_app. cbn. rewrite bool_decide_true by done. cbn.
  rewrite app_nil_r. induction path as [|x path IH]; [done|]. cbn.
  rewrite bool_decide_false by set_solver. cbn. f_equal. apply IH. set_solver.
Qed.

(** Finishing a node whose dependencies are finished. *)
Lemma finish_ok path i m :
  marks_ok m -> visiting m = path ++ [i] -> i ∉ path -> depsOf i ⊆ visited m ->
  marks_ok (mkMarks (drop_id i (visiting m)) (setAdd (visited m) i)).
Proof.
  intros [Hn Ho Hdis] Hp Hi Hd. rewrite Hp, drop_id_last by done.
  assert (i ∉ visited m) as Hiv by (apply Hdis; rewrite Hp; set_solver).
  unfold setAdd. rewrite (proj2 (includes_false _ _) Hiv). split; cbn.
  - apply NoDup_app. split; [done|]. split; [set_solver | apply NoDup_singleton].
  - intros k x Hk. apply lookup_app_Some in Hk as [Hk|[Hlen Hk]].
    + rewrite take_app_le by (apply lookup_lt_Some in Hk; lia). by apply Ho.
    + apply list_lookup_singleton_Some in Hk as [Hk <-].
      rewrite take_app_ge, Hk by lia. set_solver.
  - intros x Hx. rewrite elem_of_app, list_elem_of_singleton. intros [Hv| ->]; [|done].
    apply (Hdis x); [rewrite Hp; set_solver | done].
Qed.

Lemma visit_finds fuel i m :
  marks_ok m -> (forall v, v ∈ visiting m -> tc edge v i) -> room (visiting m) < fuel ->
  finds (visiting m) [i] m (visit fuel byId i m).
Proof.
  revert i m. induction fuel as [|fuel IH]; intros i m Hm Hpath Hfuel; [lia|]. cbn [visit].
  destruct (includes i (visited m)) eqn:Hv.
  { apply includes_true in Hv. exists false, m. split; [done|]. split_and!; [done | done | set_solver | done]. }
  apply includes_false in Hv. destruct (includes i (visiting m)) eqn:Hp.
  { apply includes_true in Hp. exists true, m. split; [done|]. exists i. by apply Hpath. }
  apply includes_false in Hp. unfold setAdd at 1. rewrite (proj2 (includes_false _ _) Hp).
  fold (depsOf i). set (m1 := mkMarks (visiting m ++ [i]) (visited m)).
  assert (marks_ok m1) as Hm1.
  { destruct Hm as [? ? Hdis]. split; cbn; [done | done |]. set_solver. }
  destruct (visit_all_finds (visit fuel byId) (visiting m ++ [i]) (depsOf i) m1) as (b & m2 & -> & Hb);
    [|done | done |].
  - intros d m' Hd Hm' Hpm'. rewrite <- Hpm'. apply IH; [done | |].
    + rewrite Hpm'. intros v Hin. apply elem_of_app in Hin as [Hin| ->%list_elem_of_singleton].
      * eapply tc_r; [by apply Hpath | done].
      * by apply tc_once.
    + rewrite Hpm'. assert (i ∈ JsMap.keys byId) as Hk.
      { apply JsMap.get_is_some. unfold depsOf in Hd. destruct (JsMap.get i byId); [by eexists|].
        by apply not_elem_of_nil in Hd. }
      pose proof (room_smaller _ _ Hk Hp). lia.
  - destruct b; [by exists true, m2|]. destruct Hb as (Hm2 & Hp2 & Hd & Hsub).
    eexists false, _. split; [done|]. split_and!.
    + by eapply finish_ok.
    + cbn. rewrite Hp2. by apply drop_id_last.
    + cbn. intros x ->%list_elem_of_singleton. apply elem_of_setAdd. by left.
    + cbn. intros x Hx. apply elem_of_setAdd. right. by apply Hsub.
Qed.
End Search.

(** ** Exactness *)

Lemma edge_depEdge ns a b : NoDup (map id ns) -> edge (index_nodes ns) a b <-> depEdge ns a b.
Proof.
  intros Hn. unfold edge, depsOf, depEdge. destruct (JsMap.get a (index_nodes ns)) as [n|] eqn:E.
  - pose proof E as [Hin Hid]%(index_nodes_get ns); [|done]. split.
    + intros Hb. by exists n.
    + intros (n' & Hin' & Hid' & Hb). assert (JsMap.get a (index_nodes ns) = Some n') as E'.
      { by apply index_nodes_get. } congruence.
  - split; [by intros ?%not_elem_of_nil|]. intros (n & Hin & Hid & _).
    assert (JsMap.get a (index_nodes ns) = Some n) by (by apply index_nodes_get). congruence.
Qed.

Lemma hasCycle_cases ns :
  NoDup (map id ns) ->
  (hasCycle ns = Some true /\ cyclic ns) \/ (hasCycle ns = Some false /\ exists rank, ranked rank ns).
Proof.
  intros Hn. unfold hasCycle. set (byId := index_nodes ns).
  destruct (visit_all_finds byId (visit (S (length ns)) byId) [] (map id ns) (mkMarks [] []))
    as (b & m & -> & Hb).
  - intros d m Hd Hm Hp. cut (finds byId (visiting m) [d] m (visit (S (length ns)) byId d m)); [by rewrite Hp|].
    apply visit_finds; [done | |].
    + rewrite Hp. intros v Hv. by apply not_elem_of_nil in Hv.
    + unfold room. pose proof (List.filter_length_le (fun k => negb (includes k (visiting m))) (JsMap.keys byId)).
      pose proof (index_nodes_keys ns). fold byId in H0. lia.
  - split; cbn; [constructor | done | set_solver].
  - done.
  - destruct b; cbn; [left|right]; (split; [done|]).
    + destruct Hb as [a Ha]. exists a.
      assert (forall x y, tc (edge byId) x y -> tc (depEdge ns) x y) as Hsub; [|by apply Hsub].
      intros x y Hxy. induction Hxy as [x y He|x y z He _ IH].
      * apply tc_once. by apply edge_depEdge.
      * eapply tc_l; [by apply edge_depEdge | done].
    + destruct Hb as (Hm & _ & Hall & _).
      exists (position (visited m)). intros n d Hin Hd.
      assert (id n ∈ visited m) as [k Hk]%list_elem_of_lookup_1 by (apply Hall; by apply list_elem_of_fmap_2).
      assert (d ∈ take k (visited m)) as Ht.
      { apply (m_order _ _ Hm k (id n) Hk). fold (edge byId (id n) d). apply edge_depEdge; [done|].
        by exists n. }
      apply list_elem_of_lookup_1 in Ht as [j Hj]. apply lookup_take_Some in Hj as [Hj Hlt].
      rewrite (position_lookup _ k (id n)), (position_lookup _ j d); [done | apply Hm | done | apply Hm | done].
Qed.

(** C30: the cycle check of the profile compiler always ends, and it is exact: for nodes with
    distinct ids it answers true when some node depends on itself through one or more dependencies,
    and false when the nodes can be ranked so that every dependency has a smaller rank. *)
Theorem hasCycle_exact ns :
  NoDup (map id ns) ->
  (hasCycle ns = Some true <-> cyclic ns) /\ (hasCycle ns = Some false <-> exists rank, ranked rank ns).
Proof.
  intros Hn. destruct (hasCycle_cases ns Hn) as [[-> Hc]|[-> [rank Hr]]].
  - split; split; try done. intros [rank Hr]. by apply ranked_acyclic in Hr.
  - pose proof (ranked_acyclic _ _ Hr). split; split; try done. by exists rank.
Qed.

Lemma hasCycle_exact_witness : exists ns, cyclic ns /\ hasCycle ns = Some true.
Proof.
  pose (node i deps := mkWorkflowNode i None None deps None (mkRetry 3 []) [] None).
  exists [node "a" ["b"]; node "b" ["a"]].
  assert (hasCycle [node "a" ["b"]; node "b" ["a"]] = Some true) as H by (vm_compute; reflexivity).
  split; [|exact H]. apply (hasCycle_exact [node "a" ["b"]; node "b" ["a"]]); [|exact H].
  apply (bool_decide_unpack _). vm_compute. reflexivity.
Defined.

(** Graph edits of the profile compiler: every phase is a sequence of four primitive edits of the
    graph under construction, and what such sequences preserve. *)

Open Scope string_scope.
Open Scope list_scope.

(** ** Shapes *)

(** What no edit of a node changes. *)
Definition same_shape (n n' : WorkflowNode) : Prop :=
  id n' = id n /\ role n' = role n /\ operation n' = operation n /\ concurrencyGroup n' = concurrencyGroup n.

Class ShapeInv (P : WorkflowNode -> Prop) : Prop :=
  shape_inv n n' : same_shape n n' -> P n -> P n'.

Lemma same_shape_refl n : same_shape n n.
Proof. done. Qed.

Definition has_dep (g : GraphState) (a b : string) : Prop := depEdge (g_nodes g) a b.

(** ** Node lists of the operations *)

Lemma update_first_elem i f ns n' :
  n' ∈ update_first i f ns -> n' ∈ ns \/ exists n, n ∈ ns /\ id n = i /\ n' = f n.
Proof.
  induction ns as [|n ns IH]; cbn; [by left|]. case_bool_decide as Hi.
  - intros [->|H]%elem_of_cons; [right; exists n; split_and!; [left | done | done]|left; by right].
  - intros [->|H]%elem_of_cons; [left; left|]. destruct (IH H) as [?|(x & ? & ? & ?)].
    + left. by right.
    + right. exists x. split_and!; [by right | done | done].
Qed.

Lemma update_first_ids i f ns : (forall n, id (f n) = id n) -> map id (update_first i f ns) = map id ns.
Proof.
  intros Hf. induction ns as [|n ns IH]; cbn; [done|]. case_bool_decide; cbn; [by rewrite Hf | by rewrite IH].
Qed.

Lemma update_first_get i f ns n :
  NoDup (map id ns) -> n ∈ ns -> (if bool_decide (id n = i) then f n else n) ∈ update_first i f ns.
Proof.
  induction ns as [|m ns IH]; cbn; [by intros _ ?%not_elem_of_nil|].
  intros [Hm Hn]%NoDup_cons [->|Hin]%elem_of_cons.
  - destruct (bool_decide (id m = i)); left.
  - destruct (bool_decide_reflect (id m = i)) as [Hi|Hi]; [|right; by apply IH].
    rewrite bool_decide_false; [by right|]. intros Hid. apply Hm. rewrite Hi, <- Hid.
    by apply list_elem_of_fmap_2.
Qed.

Lemma nodeById_some g i n : nodeById g i = Some n -> n ∈ g_nodes g /\ id n = i.
Proof. intros [H1 H2%bool_decide_eq_true]%array_find_some. done. Qed.

Lemma nodeById_none g i : nodeById g i = None <-> i ∉ map id (g_nodes g).
Proof.
  split.
  - intros H (n & -> & Hn)%list_elem_of_fmap. pose proof (array_find_none _ _ H n Hn) as Hf.
    apply bool_decide_eq_false in Hf. done.
  - intros Hi. unfold nodeById. destruct (array_find _ _) as [n|] eqn:E; [|done].
    apply array_find_some in E as [Hn <-%bool_decide_eq_true]. destruct Hi. by apply list_elem_of_fmap_2.
Qed.

Lemma is_present_true g i : is_present g i = true <-> i ∈ map id (g_nodes g).
Proof.
  unfold is_present. destruct (nodeById g i) as [n|] eqn:E.
  - apply nodeById_some in E as [Hn <-]. split; [|done]. intros _. by apply list_elem_of_fmap_2.
  - apply nodeById_none in E. done.
Qed.

Lemma nodeById_in g n : NoDup (map id (g_nodes g)) -> n ∈ g_nodes g -> nodeById g (id n) = Some n.
Proof.
  intros Hn Hin. unfold nodeById. induction (g_nodes g) as [|m ns IH]; [by apply not_elem_of_nil in Hin|].
  cbn in *. apply NoDup_cons in Hn as [Hm Hn]. apply elem_of_cons in Hin as [->|Hin].
  - by rewrite bool_decide_true.
  - rewrite bool_decide_false; [by apply IH|]. intros Hid. apply Hm. rewrite Hid. by apply list_elem_of_fmap_2.
Qed.

Lemma merge_node_shape n m : same_shape m (merge_node n m).
Proof. done. Qed.

Definition drop_deps (i : string) (n : WorkflowNode) : WorkflowNode :=
  mkWorkflowNode (id n) (role n) (operation n) (drop_id i (dependsOn n)) (when n)
    (retryPolicy n) (drop_id i (invalidates n)) (concurrencyGroup n).

Lemma elem_of_drop_id i l x : x ∈ drop_id i l <-> x ∈ l /\ x <> i.
Proof. unfold drop_id. rewrite elem_of_List_filter, negb_true_iff, bool_decide_eq_false. done. Qed.

Lemma removeNode_elem g i n' :
  n' ∈ g_nodes (removeNode g i) <-> exists n, n ∈ g_nodes g /\ id n <> i /\ n' = drop_deps i n.
Proof.
  cbn. rewrite list_elem_of_fmap. setoid_rewrite elem_of_List_filter.
  setoid_rewrite negb_true_iff. setoid_rewrite bool_decide_eq_false. split.
  - intros (n & -> & Hn & Hi). by exists n.
  - intros (n & Hn & Hi & ->). by exists n.
Qed.

Lemma addNode_elem g n p n' :
  n' ∈ g_nodes (addNode g n p) ->
  n' ∈ g_nodes g \/ n' = n \/ exists m, m ∈ g_nodes g /\ id m = id n /\ n' = merge_node n m.
Proof.
  unfold addNode. destruct (nodeById g (id n)) as [m|] eqn:E; cbn.
  - intros [?|(m' & ? & ? & ->)]%update_first_elem; [by left|]. right. right. by exists m'.
  - rewrite elem_of_app, list_elem_of_singleton. tauto.
Qed.

(** ** Well-formed graphs: distinct ids, and a provenance entry for each node, in node order *)

Definition graph_wf (g : GraphState) : Prop :=
  NoDup (map id (g_nodes g)) /\ JsMap.keys (provenance g) = map id (g_nodes g).

Lemma keys_del_filter (i : string) (l : list string) (m : list (string * NodeProvenance)) :
  NoDup l -> JsMap.keys m = l -> JsMap.keys (JsMap.del i m) = drop_id i l.
Proof.
  intros Hn <-. induction m as [|[k v] m IH]; cbn in *; [done|]. apply NoDup_cons in Hn as [Hk Hn].
  destruct (decide (i = k)) as [<-|Hi].
  - rewrite bool_decide_true by done. cbn. symmetry. fold (drop_id i (map fst m)).
    clear -Hk. induction (map fst m) as [|x l IH]; [done|]. cbn. rewrite bool_decide_false by set_solver.
    cbn. f_equal. apply IH. set_solver.
  - rewrite bool_decide_false by done. cbn. f_equal. by apply IH.
Qed.

Lemma map_filter_ids i ns :
  map id (map (drop_deps i) (List.filter (fun n => negb (bool_decide (id n = i))) ns)) = drop_id i (map id ns).
Proof.
  induction ns as [|n ns IH]; [done|]. cbn. case_bool_decide; cbn; [done | by f_equal].
Qed.

Lemma NoDup_List_filter {A} (p : A -> bool) l : NoDup l -> NoDup (List.filter p l).
Proof.
  induction 1 as [|x l Hx Hn IH]; cbn; [constructor|]. destruct (p x); [|done]. constructor; [|done].
  rewrite elem_of_List_filter. tauto.
Qed.

(** ** Dependencies that stay *)

Lemma addNode_keeps g n p a b : NoDup (map id (g_nodes g)) -> has_dep g a b -> has_dep (addNode g n p) a b.
Proof.
  intros Hn (m & Hm & Ha & Hb). unfold addNode. destruct (nodeById g (id n)) as [m'|] eqn:E.
  - pose proof (update_first_get (id n) (merge_node n) _ m Hn Hm) as Hget. eexists. split; [exact Hget|].
    case_bool_decide; cbn; [|done]. split; [done|]. apply uniq_spec. set_solver.
  - exists m. cbn. split; [set_solver | done].
Qed.

Lemma removeNode_keeps g i a b : a <> i -> b <> i -> has_dep g a b -> has_dep (removeNode g i) a b.
Proof.
  intros Ha Hb (m & Hm & <- & Hd). exists (drop_deps i m). split; [apply removeNode_elem; by exists m|].
  split; [done|]. cbn. by apply elem_of_drop_id.
Qed.

Lemma update_keeps g i f a b :
  NoDup (map id (g_nodes g)) ->
  (forall n, n ∈ g_nodes g -> id n = a -> a = i -> id (f n) = a /\ (b ∈ dependsOn n -> b ∈ dependsOn (f n))) ->
  has_dep g a b -> has_dep (update_node i f g) a b.
Proof.
  intros Hn Hf (m & Hm & Ha & Hb). pose proof (update_first_get i f _ m Hn Hm) as Hget.
  eexists. split; [exact Hget|]. case_bool_decide as Hi; [|done].
  destruct (Hf m Hm Ha) as [? Hd]; [congruence|]. split; [done | by apply Hd].
Qed.

(** ** Primitive edits *)

Section Edits.
(** Nodes that may be added, ids that may be removed, nodes whose dependencies may be replaced. *)
Context (P : WorkflowNode -> Prop) (R U : string -> Prop).

Inductive edit : GraphState -> GraphState -> Prop :=
| e_add g n p : P n -> edit g (addNode g n p)
| e_remove g i : R i -> edit g (removeNode g i)
| e_grow g i f : (forall n, same_shape n (f n) /\ dependsOn n ⊆ dependsOn (f n)) -> edit g (update_node i f g)
| e_set g i deps : U i -> edit g (update_node i (fun n => with_dependsOn n deps) g)
| e_marks g g' : g_nodes g' = g_nodes g -> provenance g' = provenance g -> edit g g'.

Definition edits : GraphState -> GraphState -> Prop := rtc edit.

Lemma edits_foldl {A} (f : GraphState -> A -> GraphState) (Inv : GraphState -> Prop) xs g :
  (forall g x, x ∈ xs -> Inv g -> edits g (f g x)) ->
  (forall g g', edits g g' -> Inv g -> Inv g') ->
  Inv g -> edits g (foldl f g xs).
Proof.
  revert g. induction xs as [|x xs IH]; intros g Hf Hinv Hg; cbn; [apply rtc_refl|].
  assert (edits g (f g x)) as H1 by (apply Hf; [left | done]).
  etransitivity; [exact H1|]. apply IH; [|done | by eapply Hinv].
  intros g' y Hy. apply Hf. by right.
Qed.

Lemma edit_wf g g' : edit g g' -> graph_wf g -> graph_wf g'.
Proof.
  intros He [Hn Hk]. destruct He as [g n p _|g i _|g i f Hf|g i deps _|g g' H1 H2].
  - unfold addNode. destruct (nodeById g (id n)) as [m|] eqn:E.
    + split; cbn; rewrite update_first_ids; done.
    + apply nodeById_none in E. split; cbn [g_nodes provenance]; rewrite map_app; cbn [map].
      * apply NoDup_app. split; [done|]. split; [set_solver | apply NoDup_singleton].
      * rewrite JsMap.keys_set_absent; rewrite Hk; done.
  - pose proof (map_filter_ids i (g_nodes g)) as Hids. unfold drop_deps in Hids.
    split; cbn; rewrite Hids; [by apply NoDup_List_filter | by apply keys_del_filter].
  - split; cbn; rewrite update_first_ids; try done; intros m; by destruct (Hf m) as [[? _] _].
  - split; cbn; rewrite update_first_ids; done.
  - unfold graph_wf. by rewrite H1, H2.
Qed.

Lemma edits_wf g g' : edits g g' -> graph_wf g -> graph_wf g'.
Proof. induction 1; eauto using edit_wf. Qed.

(** *** Predicates on shapes *)

Lemma edit_Forall Q `{!ShapeInv Q} g g' :
  (forall n, P n -> Q n) -> edit g g' -> Forall Q (g_nodes g) -> Forall Q (g_nodes g').
Proof.
  intros HPQ He HF. rewrite Forall_forall in HF. apply Forall_forall. intros n' Hn'.
  destruct He as [g n p Hp|g i _|g i f Hf|g i deps _|g g' H1 H2].
  - apply addNode_elem in Hn' as [?|[->|(m & Hm & _ & ->)]]; [by apply HF | by apply HPQ|].
    eapply shape_inv; [apply merge_node_shape | by apply HF].
  - apply removeNode_elem in Hn' as (n & Hn & _ & ->). eapply shape_inv; [|by apply (HF n)]. done.
  - cbn in Hn'. apply update_first_elem in Hn' as [?|(n & Hn & _ & ->)]; [by apply HF|].
    eapply shape_inv; [apply Hf | by apply HF].
  - cbn in Hn'. apply update_first_elem in Hn' as [?|(n & Hn & _ & ->)]; [by apply HF|].
    eapply shape_inv; [|by apply (HF n)]. done.
  - apply HF. by rewrite <- H1.
Qed.

Lemma edits_Forall Q `{!ShapeInv Q} g g' :
  (forall n, P n -> Q n) -> edits g g' -> Forall Q (g_nodes g) -> Forall Q (g_nodes g').
Proof. intros HPQ He. induction He; eauto using edit_Forall. Qed.

(** *** Dependencies that stay *)

Lemma edit_keeps g g' a b :
  (forall i, R i -> a <> i /\ b <> i) -> (forall i, U i -> a <> i) ->
  edit g g' -> graph_wf g -> has_dep g a b -> has_dep g' a b.
Proof.
  intros HR HU He [Hn _]. destruct He as [g n p Hp|g i Hi|g i f Hf|g i deps Hi|g g' H1 H2].
  - by apply addNode_keeps.
  - destruct (HR i Hi). by apply removeNode_keeps.
  - apply update_keeps; [done|]. intros n Hn' <- _. destruct (Hf n) as [[? _] Hd]. split; [done | apply Hd].
  - apply update_keeps; [done|]. intros n Hn' Hid ->. by destruct (HU i Hi).
  - intros (m & Hm & Hrest). exists m. by rewrite H1.
Qed.

Lemma edits_keeps g g' a b :
  (forall i, R i -> a <> i /\ b <> i) -> (forall i, U i -> a <> i) ->
  edits g g' -> graph_wf g -> has_dep g a b -> has_dep g' a b.
Proof. intros HR HU He. induction He; eauto using edit_keeps, edit_wf. Qed.

(** ** The phases are edits *)

Context `{!ShapeInv P}.

Lemma edits_P g g' : edits g g' -> Forall P (g_nodes g) -> Forall P (g_nodes g').
Proof. apply edits_Forall; [done | done]. Qed.

Lemma add_edits g n p : P n -> edits g (addNode g n p).
Proof. intros. by apply rtc_once, e_add. Qed.

Lemma marks_edits g g' : g_nodes g' = g_nodes g -> provenance g' = provenance g -> edits g g'.
Proof. intros. by apply rtc_once, e_marks. Qed.

Lemma addAll_edits ns p g : Forall P ns -> edits g (foldl (fun g n => addNode g n p) g ns).
Proof.
  intros Hns. rewrite Forall_forall in Hns. apply (edits_foldl _ (fun _ => True)); [|done..].
  intros g' n Hn _. by apply add_edits, Hns.
Qed.

Lemma attach_edits g n p : P n -> edits g (attachBeforeAcceptance g n p).
Proof.
  intros Hp. unfold attachBeforeAcceptance. destruct (nodeById g "acceptance") as [acc|]; [|by apply add_edits].
  set (n' := with_dependsOn n _). transitivity (addNode g n' p).
  - apply add_edits. eapply shape_inv; [|exact Hp]. done.
  - apply rtc_once, e_grow. intros m. destruct (includes _ _); split; try done.
    cbn. intros x Hx. apply uniq_spec. set_solver.
Qed.

(** The nodes an overlay may add, whatever their dependencies. *)
Definition overlayNodes (o : RiskOverlay) : list WorkflowNode :=
  match o with
  | o_security_sensitive => [workflowNode "security-reviewer" (agent security_reviewer ["reviewer"] G_review)]
  | o_public_api =>
      [workflowNode "consumer-investigator" (agent investigator ["analyst"] G_read);
       workflowNode "architecture-reviewer" (agent architecture_reviewer ["reviewer"] G_review)]
  | o_data_mutation | o_migration => [workflowNode "migration-dry-run" (gate MIGRATION_DRY_RUN ["implementer"])]
  | o_concurrency => [workflowNode "second-hypothesis" (agent investigator ["analyst"] G_read)]
  | o_cross_cutting => [workflowNode "architecture-reviewer" (agent architecture_reviewer ["reviewer"] G_review)]
  | o_production_impact => [workflowNode "rollback-evidence" (gate ROLLBACK_EVIDENCE ["verification"])]
  | o_no_tests => [workflowNode "characterization" (gate BASELINE_CHARACTERIZATION ["analyst"])]
  | o_generated_code => [workflowNode "generator-investigator" (agent investigator ["analyst"] G_read)]
  | o_authentication | o_ui_visible | o_external_contract | o_destructive | o_emergency => []
  end.

Definition skippable (n : WorkflowNode) : bool :=
  bool_decide (operation n = Some SPEC_CONSISTENCY) || bool_decide (operation n = Some BEHAVIORAL_EQUIVALENCE).

Context (HRskip : forall n, P n -> skippable n = true -> R (id n)).

Lemma skip_edits g op :
  op ∈ [SPEC_CONSISTENCY; BEHAVIORAL_EQUIVALENCE] -> Forall P (g_nodes g) -> edits g (skipOperation g op).
Proof using HRskip.
  intros Hop HP. unfold skipOperation. destruct (array_find _ _) as [n|] eqn:E; [|apply rtc_refl].
  apply array_find_some in E as [Hn Ho%bool_decide_eq_true]. rewrite Forall_forall in HP.
  transitivity (removeNode g (id n)); [|by apply marks_edits]. apply rtc_once, e_remove, HRskip; [by apply HP|].
  unfold skippable. rewrite Ho. apply elem_of_cons in Hop as [->| ->%list_elem_of_singleton].
  - by rewrite bool_decide_true.
  - apply orb_true_iff. right. by rewrite bool_decide_true.
Qed.

Lemma overlay_edits g o :
  Forall P (overlayNodes o) -> Forall P (g_nodes g) -> edits g (applyOverlay g o).
Proof using HRskip ShapeInv0.
  intros Ho HP. rewrite Forall_forall in Ho.
  destruct o; cbn [applyOverlay overlayNodes] in *; try apply rtc_refl;
    try (apply attach_edits, Ho; left); try (apply add_edits, Ho; left); try (by apply marks_edits).
  - etransitivity; [apply add_edits, Ho; left|]. apply attach_edits, Ho. right. left.
  - apply add_edits. eapply shape_inv; [|apply Ho; left]. done.
  - match goal with |- edits _ (deferSpecConsistency ?h) => transitivity h end.
    + apply (edits_foldl skipOperation (fun g => Forall P (g_nodes g))); [|apply edits_P | exact HP].
      intros g' op Hop HP'. by apply skip_edits.
    + unfold deferSpecConsistency. destruct (includes _ _); [apply rtc_refl | by apply marks_edits].
Qed.

Lemma overlays_edits g os :
  Forall (fun o => Forall P (overlayNodes o)) os -> Forall P (g_nodes g) -> edits g (foldl applyOverlay g os).
Proof using HRskip ShapeInv0.
  intros Hos. rewrite Forall_forall in Hos. apply (edits_foldl _ (fun g => Forall P (g_nodes g))); [|apply edits_P].
  intros g' o Ho HP. apply overlay_edits; [by apply Hos | done].
Qed.

Lemma removeAll_edits g ids : Forall R ids -> edits g (foldl removeNode g ids).
Proof.
  intros HR. rewrite Forall_forall in HR. apply (edits_foldl _ (fun _ => True)); [|done..].
  intros g' i Hi _. apply rtc_once, e_remove. by apply HR.
Qed.

Lemma remove_where_edits p g :
  (forall n, P n -> p n = true -> R (id n)) -> Forall P (g_nodes g) -> edits g (remove_where p g).
Proof.
  intros Hp HP. rewrite Forall_forall in HP. apply removeAll_edits, Forall_forall.
  intros i (n & -> & [Hn Hpn]%elem_of_List_filter)%list_elem_of_fmap. apply Hp; [by apply HP | done].
Qed.

Lemma packs_edits {C} g ids (adapter : ProjectAdapter C) :
  P (workflowNode "verification" (gate VERIFICATION ["implementer"])) -> edits g (attachPackNodes g ids adapter).
Proof.
  intros Hp. unfold attachPackNodes. destruct (List.filter _ ids); [apply rtc_refl|].
  destruct (_ && _); [by apply add_edits | apply rtc_refl].
Qed.

(** What delivery and budget may remove. *)
Definition droppable (n : WorkflowNode) : bool :=
  bool_decide (role n = Some implementer) || bool_decide (concurrencyGroup n = Some G_write)
  || bool_decide (role n = Some investigator).

Context (HRdrop : forall n, P n -> droppable n = true -> R (id n)).

Lemma delivery_edits g mode :
  (mode = mitigation_patch -> P (workflowNode "rollback-evidence" (gate ROLLBACK_EVIDENCE []))) ->
  Forall P (g_nodes g) -> edits g (applyDelivery g mode).
Proof using HRdrop ShapeInv0.
  intros Hroll HP. destruct mode; cbn [applyDelivery]; try apply rtc_refl; try (by apply marks_edits).
  - unfold remove_where. match goal with |- edits _ (forbid ?h _) => transitivity h end; [|by apply marks_edits].
    apply remove_where_edits; [|done]. intros n Hn Hb. apply HRdrop; [done|]. unfold droppable. by rewrite Hb.
  - set (g1 := deferSpecConsistency _). transitivity g1; [|apply attach_edits; eapply shape_inv; [|by apply Hroll]; done].
    transitivity (forbid g [apply_to_user_tree]); [by apply marks_edits|]. subst g1.
    unfold deferSpecConsistency. destruct (includes _ _); [apply rtc_refl | by apply marks_edits].
  - unfold remove_where. match goal with |- edits _ (forbid ?h _) => transitivity h end; [|by apply marks_edits].
    apply remove_where_edits; [|done]. intros n Hn Hb. apply HRdrop; [done|]. unfold droppable. by rewrite Hb.
Qed.

Context (HRfast : Forall R fastDropped) (HRcode : R "code-investigator") (HU : U "implementer").
Context (Hrename : forall n, P n -> P (rename_investigator n)).
Context (Hinv : P (workflowNode "investigator" (agent investigator ["analyst"] G_read))).
Context (Hcritic : P (workflowNode "plan-critic" (agent architecture_reviewer ["planner"] G_review))).

Lemma keepOne_edits g : Forall P (g_nodes g) -> edits g (keepOneInvestigator g).
Proof using HRdrop HRcode Hrename Hinv.
  intros HP. pose proof HP as HP'. rewrite Forall_forall in HP'. unfold keepOneInvestigator.
  assert (forall s, s ∈ g_nodes g -> R (id s) -> edits g
    (if negb (bool_decide (id s = "investigator"))
     then addNode (removeNode g (id s)) (rename_investigator s) (from_budget fast) else g)) as Hsome.
  { intros s Hs HRs. destruct (negb _); [|apply rtc_refl].
    transitivity (removeNode g (id s)); [by apply rtc_once, e_remove|]. by apply add_edits, Hrename, HP'. }
  destruct (nodeById g "code-investigator") as [s|] eqn:E1.
  { apply nodeById_some in E1 as [Hs Hid]. apply Hsome; [done|]. by rewrite Hid. }
  destruct (nodeById g "investigator") as [s|] eqn:E2.
  { apply nodeById_some in E2 as [Hs Hid]. rewrite Hid. apply rtc_refl. }
  destruct (array_find _ _) as [s|] eqn:E3.
  - apply array_find_some in E3 as [Hs Hr%bool_decide_eq_true]. apply Hsome; [done|].
    apply HRdrop; [by apply HP'|]. unfold droppable. apply orb_true_iff. right. by rewrite bool_decide_true.
  - destruct (_ && _); [by apply add_edits | apply rtc_refl].
Qed.

Lemma budget_edits g budget : Forall P (g_nodes g) -> edits g (applyBudget g budget).
Proof using All.
  intros HP. destruct budget; cbn [applyBudget].
  - assert (edits g (foldl removeIfPresent g fastDropped)) as H1.
    { apply (edits_foldl _ (fun _ => True)); [|done..]. intros g' i Hi _. unfold removeIfPresent.
      destruct (is_present g' i); [|apply rtc_refl]. apply rtc_once, e_remove.
      rewrite Forall_forall in HRfast. by apply HRfast. }
    set (g1 := foldl removeIfPresent g fastDropped) in *.
    assert (Forall P (g_nodes g1)) as HP1 by (by eapply edits_P).
    pose proof (keepOne_edits g1 HP1) as H2.
    assert (Forall P (g_nodes (keepOneInvestigator g1))) as HP2 by (by eapply edits_P).
    etransitivity; [exact H1|]. etransitivity; [exact H2|].
    match goal with |- edits _ (update_node _ _ ?h) => transitivity h end; [|by apply rtc_once, e_set].
    apply remove_where_edits; [|done]. intros n Hn Hb. apply HRdrop; [done|]. unfold droppable.
    apply andb_true_iff in Hb as [-> _]. by rewrite orb_true_r.
  - apply rtc_refl.
  - destruct (_ && _); [by apply add_edits | apply rtc_refl].
Qed.
End Edits.
