(* ===== verification/ProfileTheorems.v ===== *)
(** The profile compiler: every compiled profile is a well-formed workflow the scheduler can run to
    the end, when compilation succeeds, what a delivery mode guarantees, and where composition and
    compilation do not do what they mean to. *)

From stdpp Require Import relations.
From Stdlib Require Import String.
From S2P Require Import Prelude JsText DagEngine DagTheorems ProfileCompose ProfileCompiler ProfileGraph.
Open Scope string_scope.
Open Scope list_scope.

(** ** Assembly as edits *)

Definition fragmentGraph (c : RunComposition) : GraphState :=
  foldl (fun g n => addNode g n (from_intent (primaryIntent c))) emptyGraph (loadFragment (primaryIntent c)).

Record permits (c : RunComposition) (P : WorkflowNode -> Prop) (R U : string -> Prop) : Prop := {
  pm_shape : ShapeInv P;
  pm_fragment : Forall P (loadFragment (primaryIntent c));
  pm_secondary : Forall (fun s => Forall P (secondaryNodes s)) (secondaryIntents c);
  pm_overlays : Forall (fun o => Forall P (overlayNodes o)) (overlays c);
  pm_verification : P (workflowNode "verification" (gate VERIFICATION ["implementer"]));
  pm_rollback : deliveryMode c = mitigation_patch -> P (workflowNode "rollback-evidence" (gate ROLLBACK_EVIDENCE []));
  pm_skip n : P n -> skippable n = true -> R (id n);
  pm_drop n : P n -> droppable n = true -> R (id n);
  pm_fast : Forall R fastDropped;
  pm_code : R "code-investigator";
  pm_implementer : U "implementer";
  pm_rename n : P n -> P (rename_investigator n);
  pm_investigator : P (workflowNode "investigator" (agent investigator ["analyst"] G_read));
  pm_critic : P (workflowNode "plan-critic" (agent architecture_reviewer ["planner"] G_review))
}.

Section Assembly.
Context {CommandSpec : Type} (adapter : ProjectAdapter CommandSpec).
Context (c : RunComposition) (P : WorkflowNode -> Prop) (R U : string -> Prop) (H : permits c P R U).

Lemma fragment_edits : edits P R U emptyGraph (fragmentGraph c).
Proof using H. apply addAll_edits, (pm_fragment _ _ _ _ H). Qed.

Lemma fragment_P : Forall P (g_nodes (fragmentGraph c)).
Proof using H.
  pose proof (pm_shape _ _ _ _ H) as Hshape. eapply (edits_P P R U); [apply fragment_edits | constructor].
Qed.

Lemma secondary_edits g : edits P R U g (foldl (fun g secondary =>
  foldl (fun g n => addNode g n (from_secondary secondary)) g (secondaryNodes secondary)) g (secondaryIntents c)).
Proof using H.
  apply (edits_foldl _ _ _ _ (fun _ => True)); [|done..]. intros g' s Hs _. apply addAll_edits.
  by apply (proj1 (Forall_forall _ _) (pm_secondary _ _ _ _ H)).
Qed.

(** The phases after the overlays. *)
Definition afterOverlays (g : GraphState) : GraphState :=
  applyBudget (applyDelivery (attachPackNodes g (verificationPacks c) adapter) (deliveryMode c)) (executionBudget c).

Lemma afterOverlays_edits g : Forall P (g_nodes g) -> edits P R U g (afterOverlays g).
Proof using H.
  intros HP. pose proof (pm_shape _ _ _ _ H) as Hshape. unfold afterOverlays.
  set (g1 := attachPackNodes g _ _). set (g2 := applyDelivery g1 _).
  assert (edits P R U g g1) as E1 by (apply packs_edits, H).
  assert (Forall P (g_nodes g1)) as HP1 by (by eapply (edits_P P R U)).
  assert (edits P R U g1 g2) as E2.
  { apply delivery_edits; [done | apply (pm_drop _ _ _ _ H) | apply (pm_rollback _ _ _ _ H) | done]. }
  assert (Forall P (g_nodes g2)) as HP2 by (by eapply (edits_P P R U)).
  etransitivity; [exact E1|]. etransitivity; [exact E2|].
  apply budget_edits; [done | apply H .. | done].
Qed.

(** The graph after the first overlays. *)
Definition overlayGraph (os : list RiskOverlay) : GraphState :=
  foldl applyOverlay (foldl (fun g secondary =>
     foldl (fun g n => addNode g n (from_secondary secondary)) g (secondaryNodes secondary))
     (fragmentGraph c) (secondaryIntents c)) os.

Lemma assemble_phases : assemble c adapter = afterOverlays (overlayGraph (overlays c)).
Proof. reflexivity. Qed.

Lemma overlayGraph_edits l1 l2 : overlays c = l1 ++ l2 -> edits P R U (fragmentGraph c) (overlayGraph l1).
Proof using H.
  intros Hl. unfold overlayGraph. pose proof (pm_shape _ _ _ _ H) as Hshape. etransitivity; [apply secondary_edits|].
  apply overlays_edits; [done | apply (pm_skip _ _ _ _ H) | |].
  - pose proof (pm_overlays _ _ _ _ H) as Ho. rewrite Hl in Ho. by apply Forall_app in Ho as [? _].
  - eapply (edits_P P R U); [apply secondary_edits | apply fragment_P].
Qed.

Lemma assemble_edits : edits P R U (fragmentGraph c) (assemble c adapter).
Proof using H.
  pose proof (pm_shape _ _ _ _ H) as Hshape. rewrite assemble_phases.
  assert (edits P R U (fragmentGraph c) (overlayGraph (overlays c))) as E.
  { apply (overlayGraph_edits _ []). by rewrite app_nil_r. }
  etransitivity; [exact E|]. apply afterOverlays_edits. eapply (edits_P P R U); [exact E | apply fragment_P].
Qed.

Lemma assemble_P : Forall P (g_nodes (assemble c adapter)).
Proof using H.
  pose proof (pm_shape _ _ _ _ H) as Hshape. eapply (edits_P P R U); [apply assemble_edits | apply fragment_P].
Qed.

Lemma fragment_wf : graph_wf (fragmentGraph c).
Proof using H. eapply edits_wf; [apply fragment_edits | split; constructor]. Qed.

Lemma assemble_wf : graph_wf (assemble c adapter).
Proof using H. eapply edits_wf; [apply assemble_edits | apply fragment_wf]. Qed.
End Assembly.

Lemma Forall_always {A} (Q : A -> Prop) l : (forall x, Q x) -> Forall Q l.
Proof. intros HQ. by apply Forall_forall. Qed.

(** Every composition permits everything. *)
Lemma permits_all c : permits c (fun _ => True) (fun _ => True) (fun _ => True).
Proof. split; try done; by repeat (intros; apply Forall_always). Qed.

(** ** Checks on the way out *)

Lemma compile_cases {C} c (adapter : ProjectAdapter C) s :
  (compileRunComposition c adapter s = Err PROFILE_CYCLE /\ cyclic (g_nodes (assemble c adapter))) \/
  ((exists rank, ranked rank (g_nodes (assemble c adapter))) /\
   if (MAX_NODES <? length (g_nodes (assemble c adapter)))%nat
   then compileRunComposition c adapter s = Err NODE_BUDGET
   else exists r, compileRunComposition c adapter s = Ok r /\
     profile_nodes (compiled_profile (compiled r)) = g_nodes (dropMissingDeps (assemble c adapter)) /\
     nodeProvenance (compiled r) = provenance (assemble c adapter)).
Proof.
  destruct (assemble_wf adapter c _ _ _ (permits_all c)) as [Hn _]. unfold compileRunComposition.
  destruct (hasCycle_cases _ Hn) as [[-> Hc]|[-> Hr]]; [by left|right]. split; [done|].
  destruct (MAX_NODES <? _)%nat; [done|]. eexists. split; [done|]. split; done.
Qed.

(** The ids of all nodes the compiler knows. *)
Definition all_intents : list PrimaryIntent :=
  [research; diagnosis; requirements; specification; architecture_design; feature; bugfix; refactor;
   optimization; dependency_upgrade; migration; security_remediation; test_engineering; documentation;
   build_tooling; incident_response; deprecation_retirement].
Definition all_overlays : list RiskOverlay :=
  [o_security_sensitive; o_authentication; o_public_api; o_data_mutation; o_migration; o_concurrency;
   o_cross_cutting; o_ui_visible; o_production_impact; o_destructive; o_external_contract; o_no_tests;
   o_emergency; o_generated_code].

Lemma all_intents_complete i : i ∈ all_intents.
Proof. destruct i; apply (bool_decide_unpack _); by vm_compute. Qed.
Lemma all_overlays_complete o : o ∈ all_overlays.
Proof. destruct o; apply (bool_decide_unpack _); by vm_compute. Qed.

Definition known_ids : list string :=
  uniq (concat (map (fun i => map id (loadFragment i ++ secondaryNodes i)) all_intents) ++
        concat (map (fun o => map id (overlayNodes o)) all_overlays) ++
        ["verification"; "rollback-evidence"; "investigator"; "plan-critic"]).

(** Membership in a concrete list. *)
Ltac known_elem := apply includes_true; vm_compute; reflexivity.

Lemma known_ids_size : length known_ids = 50.
Proof. vm_compute. reflexivity. Qed.

Lemma elem_of_concat_map {A B} (f : A -> list B) l y : y ∈ concat (map f l) <-> exists x, x ∈ l /\ y ∈ f x.
Proof.
  rewrite list_elem_of_In, in_concat. split.
  - intros (ys & Hys & Hy). apply in_map_iff in Hys as (x & <- & Hx). exists x. by rewrite !list_elem_of_In.
  - intros (x & Hx & Hy). exists (f x). rewrite in_map_iff. rewrite !list_elem_of_In in *. eauto.
Qed.

Lemma permits_known c : permits c (fun n => id n ∈ known_ids) (fun _ => True) (fun _ => True).
Proof.
  assert (forall i n, n ∈ loadFragment i \/ n ∈ secondaryNodes i -> id n ∈ known_ids) as Hint.
  { intros i n Hn. apply uniq_spec, elem_of_app. left. apply elem_of_concat_map. exists i.
    split; [apply all_intents_complete|]. rewrite map_app. apply elem_of_app.
    destruct Hn; [left | right]; by apply list_elem_of_fmap_2. }
  split.
  - intros n n' (-> & _) Hn. exact Hn.
  - apply Forall_forall. intros n Hn. apply (Hint (primaryIntent c)). by left.
  - apply Forall_always. intros s. apply Forall_forall. intros n Hn. apply (Hint s). by right.
  - apply Forall_always. intros o. apply Forall_forall. intros n Hn. apply uniq_spec, elem_of_app. right.
    apply elem_of_app. left. apply elem_of_concat_map. exists o. split; [apply all_overlays_complete|].
    by apply list_elem_of_fmap_2.
  - known_elem.
  - intros _. known_elem.
  - intros n _ _. exact I.
  - intros n _ _. exact I.
  - by apply Forall_always.
  - exact I.
  - exact I.
  - intros n _. known_elem.
  - known_elem.
  - known_elem.
Qed.

Lemma assemble_size {C} c (adapter : ProjectAdapter C) : length (g_nodes (assemble c adapter)) <= 50.
Proof.
  rewrite <- known_ids_size, <- (length_map id). destruct (assemble_wf adapter c _ _ _ (permits_known c)) as [Hn _].
  apply submseteq_length, NoDup_submseteq; [done|].
  intros i (n & -> & Hin)%list_elem_of_fmap. pose proof (assemble_P adapter c _ _ _ (permits_known c)) as HF.
  rewrite Forall_forall in HF. by apply HF.
Qed.

Lemma compile_ok {C} c (adapter : ProjectAdapter C) s :
  (exists rank, ranked rank (g_nodes (assemble c adapter))) ->
  exists r, compileRunComposition c adapter s = Ok r.
Proof.
  intros [rank Hr]. destruct (compile_cases c adapter s) as [[_ Hc]|[_ Hrest]].
  - by apply ranked_acyclic in Hr.
  - pose proof (assemble_size c adapter). destruct (MAX_NODES <? _)%nat eqn:E.
    + apply Nat.ltb_lt in E. unfold MAX_NODES in E. lia.
    + destruct Hrest as (r & -> & _). by exists r.
Qed.

(** What a successful compilation returns. *)
Lemma compile_inv {C} c (adapter : ProjectAdapter C) s r :
  compileRunComposition c adapter s = Ok r ->
  (exists rank, ranked rank (g_nodes (assemble c adapter))) /\
  profile_nodes (compiled_profile (compiled r)) = g_nodes (dropMissingDeps (assemble c adapter)) /\
  nodeProvenance (compiled r) = provenance (assemble c adapter).
Proof.
  intros Hr. destruct (compile_cases c adapter s) as [[He _]|[Hrank Hrest]]; [congruence|].
  destruct (MAX_NODES <? _)%nat; [congruence|]. destruct Hrest as (r' & He & H1 & H2).
  assert (r' = r) as -> by congruence. done.
Qed.

Lemma dropMissing_elem g n' :
  n' ∈ g_nodes (dropMissingDeps g) ->
  exists n, n ∈ g_nodes g /\ same_shape n n' /\ when n' = when n /\ invalidates n' = invalidates n /\
    forall d, d ∈ dependsOn n' <-> d ∈ dependsOn n /\ d ∈ map id (g_nodes g).
Proof.
  cbn. intros (n & -> & Hn)%list_elem_of_fmap. exists n. split_and!; [done | done | done | done|].
  intros d. cbn. by rewrite elem_of_List_filter, is_present_true.
Qed.

Lemma dropMissing_ids g : map id (g_nodes (dropMissingDeps g)) = map id (g_nodes g).
Proof. cbn. by rewrite map_map. Qed.

(** ** Presence of the acceptance gate *)

Lemma edits_present P R U g g' i :
  (forall j, R j -> j <> i) -> edits P R U g g' -> i ∈ map id (g_nodes g) -> i ∈ map id (g_nodes g').
Proof.
  intros HR He. induction He as [g|g g1 g' He _ IH]; [done|]. intros Hi. apply IH. clear IH g'.
  apply list_elem_of_fmap in Hi as (n & -> & Hn).
  destruct He as [g m p _|g j Hj|g j f Hf|g j deps _|g g' H1 H2].
  - unfold addNode. destruct (nodeById g (id m)); cbn.
    + rewrite update_first_ids by done. by apply list_elem_of_fmap_2.
    + rewrite map_app. apply elem_of_app. left. by apply list_elem_of_fmap_2.
  - specialize (HR j Hj). apply list_elem_of_fmap. exists (drop_deps j n). split; [done|].
    apply removeNode_elem. by exists n.
  - cbn. rewrite update_first_ids by (intros x; by destruct (Hf x) as [[? _] _]). by apply list_elem_of_fmap_2.
  - cbn. rewrite update_first_ids by done. by apply list_elem_of_fmap_2.
  - rewrite H1. by apply list_elem_of_fmap_2.
Qed.

(** Nodes with one of the ids in [keep] are of a kind no phase removes. *)
Definition fixed (keep : list string) (n : WorkflowNode) : bool :=
  negb (includes (id n) keep && (skippable n || droppable n)).

Lemma permits_fixed c keep :
  forallb (fun i => negb (includes i keep)) ("code-investigator" :: "investigator" :: "implementer" :: fastDropped) = true ->
  forallb (fun i => forallb (fixed keep) (loadFragment i ++ secondaryNodes i)) all_intents = true ->
  forallb (fun o => forallb (fixed keep) (overlayNodes o)) all_overlays = true ->
  permits c (fun n => fixed keep n = true) (fun i => i ∉ keep) (fun i => i ∉ keep).
Proof.
  intros Hids Hint Hov. rewrite forallb_forall in Hids, Hint, Hov.
  assert (forall i, i ∈ "code-investigator" :: "investigator" :: "implementer" :: fastDropped -> i ∉ keep) as Hfree.
  { intros i Hi%list_elem_of_In. specialize (Hids i Hi). by apply negb_true_iff, includes_false in Hids. }
  assert (forall n, fixed keep n = true -> skippable n || droppable n = true -> id n ∉ keep) as Hkeep.
  { intros n Hn Hb. unfold fixed in Hn. rewrite Hb, andb_true_r in Hn. by apply negb_true_iff, includes_false in Hn. }
  assert (forall i n, n ∈ loadFragment i \/ n ∈ secondaryNodes i -> fixed keep n = true) as Hnodes.
  { intros i n Hn. specialize (Hint i). rewrite forallb_forall in Hint. apply Hint.
    - apply list_elem_of_In, all_intents_complete.
    - apply in_or_app. rewrite <- !list_elem_of_In. done. }
  assert (forall i n, i ∈ "code-investigator" :: "investigator" :: "implementer" :: fastDropped ->
    id n = i -> fixed keep n = true) as Hother.
  { intros i n Hi Hid. unfold fixed. by rewrite Hid, (proj2 (includes_false _ _) (Hfree i Hi)). }
  split.
  - intros n n' (Hi & Hr & Ho & Hg). unfold fixed, skippable, droppable. by rewrite Hi, Hr, Ho, Hg.
  - apply Forall_forall. intros n Hn. apply (Hnodes (primaryIntent c)). by left.
  - apply Forall_always. intros s. apply Forall_forall. intros n Hn. apply (Hnodes s). by right.
  - apply Forall_always. intros o. apply Forall_forall. intros n Hn. specialize (Hov o).
    rewrite forallb_forall in Hov. apply Hov; [apply list_elem_of_In, all_overlays_complete | by apply list_elem_of_In].
  - unfold fixed. cbn. by rewrite andb_false_r.
  - intros _. unfold fixed. cbn. by rewrite andb_false_r.
  - intros n Hn Hs. apply Hkeep; [done | by rewrite Hs].
  - intros n Hn Hs. apply Hkeep; [done | by rewrite Hs, orb_true_r].
  - apply Forall_forall. intros i Hi. apply Hfree. do 3 right. exact Hi.
  - apply Hfree. known_elem.
  - apply Hfree. known_elem.
  - intros n _. apply (Hother "investigator"); [known_elem | reflexivity].
  - apply (Hother "investigator"); [known_elem | reflexivity].
  - apply (Hother "plan-critic"); [known_elem | reflexivity].
Qed.

Lemma permits_acceptance c :
  permits c (fun n => fixed ["acceptance"] n = true) (fun i => i ∉ ["acceptance"]) (fun i => i ∉ ["acceptance"]).
Proof. apply permits_fixed; vm_compute; reflexivity. Qed.

Lemma fragment_ids c : map id (g_nodes (fragmentGraph c)) = map id (loadFragment (primaryIntent c)).
Proof. unfold fragmentGraph. destruct (primaryIntent c); vm_compute; reflexivity. Qed.

Lemma assemble_acceptance {C} c (adapter : ProjectAdapter C) : "acceptance" ∈ map id (g_nodes (assemble c adapter)).
Proof.
  eapply edits_present; [|apply assemble_edits, permits_acceptance|].
  - intros j Hj ->. apply Hj. left.
  - rewrite fragment_ids. destruct (primaryIntent c); known_elem.
Qed.

(** ** What a compiled profile is *)

Section Compiled.
Context {CommandSpec : Type} (adapter : ProjectAdapter CommandSpec).
Context (c : RunComposition) (s : CompileSignals) (r : CompiledProfileResult).
Context (Hr : compileRunComposition c adapter s = Ok r).

Definition workflow (r : CompiledProfileResult) : list WorkflowNode := profile_nodes (compiled_profile (compiled r)).

Lemma workflow_ids : map id (workflow r) = map id (g_nodes (assemble c adapter)).
Proof using Hr. destruct (compile_inv _ _ _ _ Hr) as (_ & H & _). unfold workflow. by rewrite H, dropMissing_ids. Qed.

Lemma workflow_node n' :
  n' ∈ workflow r -> exists n, n ∈ g_nodes (assemble c adapter) /\ same_shape n n' /\ dependsOn n' ⊆ dependsOn n.
Proof using Hr.
  destruct (compile_inv _ _ _ _ Hr) as (_ & H & _). unfold workflow. rewrite H.
  intros (n & Hn & Hs & _ & _ & Hd)%dropMissing_elem. exists n. split_and!; [done | done|].
  intros d Hin. by apply Hd.
Qed.

Lemma workflow_wf :
  NoDup (map id (workflow r)) /\
  (forall n d, n ∈ workflow r -> d ∈ dependsOn n -> d ∈ map id (workflow r)) /\
  exists rank, ranked rank (workflow r).
Proof using Hr.
  rewrite workflow_ids. split; [apply (assemble_wf adapter c _ _ _ (permits_all c))|]. split.
  - destruct (compile_inv _ _ _ _ Hr) as (_ & H & _). unfold workflow. rewrite H.
    intros n d (m & _ & _ & _ & _ & Hd)%dropMissing_elem Hin. by apply Hd.
  - destruct (compile_inv _ _ _ _ Hr) as ([rank Hrank] & _). exists rank. intros n d Hn Hd.
    destruct (workflow_node n Hn) as (m & Hm & [Hid _] & Hsub). rewrite Hid. apply Hrank; [done | by apply Hsub].
Qed.

Lemma workflow_dag_ok cursor :
  profile cursor = compiled_profile (compiled r) -> map nodeId (nodes cursor) = map id (workflow r) ->
  exists rank, dag_ok rank cursor.
Proof using Hr.
  intros Hp Hn. destruct workflow_wf as (Hnd & Hcl & rank & Hrank). exists rank.
  split; rewrite Hp; [done | done|]. intros spec d Hs Hd. split; [by eapply Hcl | by apply Hrank].
Qed.
End Compiled.

(** C29: every profile the compiler returns is a well-formed workflow: node ids are distinct, every
    dependency names a node of the profile, dependencies have no cycle (they decrease a rank), the
    acceptance gate is present, and the provenance record has exactly one entry per node, in node
    order. *)
Theorem compiled_profile_wellformed {C} (adapter : ProjectAdapter C) c s r :
  compileRunComposition c adapter s = Ok r ->
  let ns := profile_nodes (compiled_profile (compiled r)) in
  NoDup (map id ns) /\ (forall n d, n ∈ ns -> d ∈ dependsOn n -> d ∈ map id ns) /\
  (exists rank : string -> nat, forall n d, n ∈ ns -> d ∈ dependsOn n -> rank d < rank (id n)) /\
  "acceptance" ∈ map id ns /\ JsMap.keys (nodeProvenance (compiled r)) = map id ns.
Proof.
  intros Hr ns. destruct (workflow_wf adapter c s r Hr) as (H1 & H2 & H3).
  split_and!; [exact H1 | exact H2 | exact H3 | |].
  - unfold ns. fold (workflow r). rewrite (workflow_ids adapter c s r Hr). apply assemble_acceptance.
  - destruct (compile_inv _ _ _ _ Hr) as (_ & _ & ->). unfold ns. fold (workflow r).
    rewrite (workflow_ids adapter c s r Hr). apply (assemble_wf adapter c _ _ _ (permits_all c)).
Qed.

(** The scheduler can run every compiled profile to its end: on a cursor over the profile with
    one record per node, when nothing is running or failed and disabled nodes have been accepted,
    either the workflow is complete or some node is ready. *)
Theorem compiled_profile_progress {C} (adapter : ProjectAdapter C) c s r cursor :
  compileRunComposition c adapter s = Ok r ->
  profile cursor = compiled_profile (compiled r) ->
  map nodeId (nodes cursor) = map id (profile_nodes (compiled_profile (compiled r))) ->
  settled cursor ->
  exists ready complete, readyNodes cursor = Ok ready /\ dagComplete cursor = Ok complete /\
    (complete = false -> ready <> []) /\ (ready <> [] -> complete = false).
Proof.
  intros Hr Hp Hn Hs. destruct (workflow_dag_ok adapter c s r Hr cursor Hp Hn) as [rank Hok].
  by apply (scheduler_progress rank).
Qed.

(** The node budget of 96 is never reached: whatever the composition, the compiler does not
    fail for having too many nodes, and the profiles it returns have at most 50 of them. *)
Theorem compiled_node_bound {C} (adapter : ProjectAdapter C) c s :
  compileRunComposition c adapter s <> Err NODE_BUDGET /\
  forall r, compileRunComposition c adapter s = Ok r ->
    length (profile_nodes (compiled_profile (compiled r))) <= 50.
Proof.
  pose proof (assemble_size c adapter) as Hsize. split.
  - destruct (compile_cases c adapter s) as [[-> _]|[_ H]]; [done|].
    destruct (MAX_NODES <? _)%nat eqn:E; [apply Nat.ltb_lt in E; unfold MAX_NODES in E; lia|].
    by destruct H as (r & -> & _).
  - intros r Hr. fold (workflow r). rewrite <- (length_map id), (workflow_ids adapter c s r Hr), length_map. done.
Qed.

(** ** Analysis-only runs *)

Lemma foldl_removeNode_elem ids g n' :
  n' ∈ g_nodes (foldl removeNode g ids) -> exists n, n ∈ g_nodes g /\ same_shape n n' /\ id n ∉ ids.
Proof.
  revert g. induction ids as [|i ids IH]; intros g; cbn [foldl].
  - intros Hn. exists n'. split_and!; [done | done | apply not_elem_of_nil].
  - intros (n & Hn & (H1 & H2 & H3 & H4) & Hids)%IH. apply removeNode_elem in Hn as (m & Hm & Hi & ->).
    exists m. split; [done|]. split; [done|]. cbn in Hids. set_solver.
Qed.

Lemma remove_where_elem p `{!ShapeInv (fun n => p n = false)} g :
  Forall (fun n => p n = false) (g_nodes (remove_where p g)).
Proof.
  apply Forall_forall. intros n' (n & Hn & Hs & Hids)%foldl_removeNode_elem.
  eapply (shape_inv (P := fun n => p n = false)); [exact Hs|]. apply not_true_iff_false. intros Hp. apply Hids, list_elem_of_fmap_2.
  by apply elem_of_List_filter.
Qed.

Definition reads_only (n : WorkflowNode) : Prop := isWriter n = false.

#[local] Instance reads_only_shape : ShapeInv reads_only.
Proof. intros n n' (_ & Hr & _ & Hg). unfold reads_only, isWriter. by rewrite Hr, Hg. Qed.

Lemma budget_reads_only g b : Forall reads_only (g_nodes g) -> Forall reads_only (g_nodes (applyBudget g b)).
Proof.
  intros Hg. eapply (edits_P reads_only (fun _ => True) (fun _ => True)); [|exact Hg].
  apply budget_edits; first [exact _ | by apply Forall_always | done].
Qed.

Lemma analysis_reads_only {C} (adapter : ProjectAdapter C) c :
  deliveryMode c = analysis_only -> Forall reads_only (g_nodes (assemble c adapter)).
Proof.
  intros Hm. unfold assemble. rewrite Hm. apply budget_reads_only. cbn [applyDelivery forbid g_nodes].
  set (p := fun n : WorkflowNode => _ || _). assert (ShapeInv (fun n => p n = false)) as Hp.
  { intros n n' (_ & Hr & _ & Hg). unfold p. by rewrite Hr, Hg. }
  eapply Forall_impl; [by apply remove_where_elem|]. intros n Hn. unfold reads_only, isWriter.
  by rewrite orb_comm.
Qed.

Lemma addNode_forbidden g n p : forbiddenActions (addNode g n p) = forbiddenActions g.
Proof. unfold addNode. by destruct (nodeById g (id n)). Qed.

Lemma foldl_forbidden {A} (f : GraphState -> A -> GraphState) xs g :
  (forall g x, forbiddenActions (f g x) = forbiddenActions g) ->
  forbiddenActions (foldl f g xs) = forbiddenActions g.
Proof. intros Hf. revert g. induction xs as [|x xs IH]; intros g; cbn; [done|]. by rewrite IH. Qed.

Lemma budget_forbidden g b : forbiddenActions (applyBudget g b) = forbiddenActions g.
Proof.
  destruct b; cbn [applyBudget]; [| done | destruct (_ && _); [apply addNode_forbidden | done]].
  unfold update_node, set_nodes, remove_where, keepOneInvestigator. cbn [forbiddenActions].
  rewrite foldl_forbidden by done. rewrite <- (foldl_forbidden removeIfPresent fastDropped g).
  2: { intros g' i. unfold removeIfPresent. by destruct (is_present g' i). }
  destruct (match nodeById _ "code-investigator" with Some n => _ | None => _ end) as [n|];
    destruct (negb _); cbn [andb]; try done; [by rewrite addNode_forbidden|].
  destruct (is_present _ "analyst"); [by rewrite addNode_forbidden | done].
Qed.

Lemma analysis_forbids {C} (adapter : ProjectAdapter C) c :
  deliveryMode c = analysis_only -> exists before,
  forbiddenActions (assemble c adapter) = uniq (before ++ [write_lease; apply_action; implementer_action]).
Proof. intros Hm. unfold assemble. rewrite Hm, budget_forbidden. by eexists. Qed.

Lemma compile_fields {C} c (adapter : ProjectAdapter C) s r :
  compileRunComposition c adapter s = Ok r ->
  compiled_forbiddenActions (compiled r) = uniq (forbiddenActions (assemble c adapter)) /\
  acceptancePolicy (compiled_profile (compiled r)) = acceptancePolicyFor c /\
  result_predicates r = predicatesFor c s /\
  blocked r = match blockedReason c with Some _ => true | None => false end.
Proof.
  unfold compileRunComposition. destruct (hasCycle _) as [[]|]; [done| |done].
  destruct (MAX_NODES <? _)%nat; [done|]. by intros [= <-].
Qed.

(** An analysis-only run cannot write: its profile has no writer node (no implementer and no
    node of the write group), so that no wave over it spawns a worker with write tools, and its
    acceptance policy asks for no reviewer and no command evidence and allows research without a
    write. *)
Theorem analysis_only_never_writes {C} (adapter : ProjectAdapter C) c s r :
  deliveryMode c = analysis_only -> compileRunComposition c adapter s = Ok r ->
  (forall n, n ∈ profile_nodes (compiled_profile (compiled r)) -> isWriter n = false) /\
  (forall runtime validEnvelope cursor cursor' log q,
     profile cursor = compiled_profile (compiled r) ->
     advanceDag runtime validEnvelope cursor = Ok (cursor', log) -> Spawn q ∈ log -> toolProfile q <> tool_write) /\
  write_lease ∈ compiled_forbiddenActions (compiled r) /\ apply_action ∈ compiled_forbiddenActions (compiled r) /\
  acceptancePolicy (compiled_profile (compiled r)) = mkAcceptance false false false true.
Proof.
  intros Hm Hr.
  assert (forall n, n ∈ profile_nodes (compiled_profile (compiled r)) -> isWriter n = false) as Hro.
  { intros n Hn. destruct (workflow_node adapter c s r Hr n Hn) as (m & Hin & Hs & _).
    eapply (shape_inv (P := reads_only)); [exact Hs|]. pose proof (analysis_reads_only adapter c Hm) as HF.
    rewrite Forall_forall in HF. by apply HF. }
  split; [exact Hro|]. split.
  { intros runtime valid cursor cursor' log q Hp Ha Hq Htool.
    destruct (spawned_were_ready _ _ _ _ _ _ Ha Hq) as (spec & _ & _ & Hspec & _ & Hrole & _ & _ & _ & _ & _ & Hiff).
    rewrite Hp in Hspec. specialize (Hro spec Hspec). unfold isWriter in Hro.
    apply Hiff in Htool. rewrite Hrole, Htool, (bool_decide_true (Some implementer = _)) in Hro by done.
    by rewrite orb_true_r in Hro. }
  destruct (analysis_forbids adapter c Hm) as [before Hf]. apply compile_fields in Hr as (Hfa & Hpol & _).
  rewrite Hfa, Hpol. unfold acceptancePolicyFor. rewrite Hm, bool_decide_true by done.
  split_and!; [| |done]; apply uniq_spec; rewrite Hf; apply uniq_spec, elem_of_app; right; known_elem.
Qed.

(** ** Attaching a node that is already there *)

Lemma has_dep_check g a b :
  existsb (fun n => bool_decide (id n = a) && includes b (dependsOn n)) (g_nodes g) = true -> has_dep g a b.
Proof.
  intros (n & Hn & [Ha%bool_decide_eq_true Hb%includes_true]%andb_true_iff)%existsb_exists.
  exists n. by rewrite list_elem_of_In.
Qed.

Lemma addNode_dep g n p d :
  NoDup (map id (g_nodes g)) -> d ∈ dependsOn n -> has_dep (addNode g n p) (id n) d.
Proof.
  intros Hn Hd. unfold addNode. destruct (nodeById g (id n)) as [m|] eqn:E.
  - apply nodeById_some in E as [Hm Hid]. pose proof (update_first_get (id n) (merge_node n) _ m Hn Hm) as Hget.
    rewrite bool_decide_true in Hget by done. eexists. split; [exact Hget|]. split; [done|]. cbn.
    apply uniq_spec. set_solver.
  - exists n. cbn. split; [set_solver | done].
Qed.

(** Attaching a node before acceptance makes it depend on whatever acceptance depends on. *)
Lemma attach_dep g n p d :
  graph_wf g -> has_dep g "acceptance" d -> d <> id n -> has_dep (attachBeforeAcceptance g n p) (id n) d.
Proof.
  intros Hwf (acc & Hacc & Hid & Hd) Hne. unfold attachBeforeAcceptance.
  rewrite <- Hid, (nodeById_in g acc) by (apply Hwf || done).
  assert ((0 <? length (dependsOn acc))%nat = true) as ->.
  { apply Nat.ltb_lt. destruct (dependsOn acc); [by apply not_elem_of_nil in Hd | cbn; lia]. }
  set (n' := with_dependsOn n _).
  assert (graph_wf (addNode g n' p)) as [Hn' _].
  { eapply (edit_wf (fun _ => True) (fun _ => True) (fun _ => True)); [by apply e_add | done]. }
  apply update_keeps; [done | | apply (addNode_dep g n'); [apply Hwf | cbn; by apply elem_of_drop_id]].
  intros m Hm Hmid _. destruct (includes _ _); cbn; [done|]. split; [done|]. intros ?. apply uniq_spec. set_solver.
Qed.

Definition migration_cycle : list string := ["reviewer"; "verification"; "migration-dry-run"; "acceptance"].

Lemma permits_migration c : permits c (fun n => fixed migration_cycle n = true)
  (fun i => i ∉ migration_cycle) (fun i => i ∉ migration_cycle).
Proof. apply permits_fixed; vm_compute; reflexivity. Qed.

Lemma migration_edges {C} (adapter : ProjectAdapter C) c :
  primaryIntent c = migration -> (o_migration ∈ overlays c \/ o_data_mutation ∈ overlays c) ->
  cyclic (g_nodes (assemble c adapter)).
Proof.
  intros Hp Ho. assert (exists o l1 l2, overlays c = l1 ++ o :: l2 /\ (o = o_migration \/ o = o_data_mutation))
    as (o & l1 & l2 & Hos & Hom).
  { destruct Ho as [Ho|Ho]; apply list_elem_of_split in Ho as (l1 & l2 & ->); eauto 6. }
  pose proof (permits_migration c) as HP. pose proof (pm_shape _ _ _ _ HP) as Hshape.
  set (P := fun n => fixed migration_cycle n = true) in *. set (R := fun i => i ∉ migration_cycle) in *.
  assert (forall g g' a b, a ∈ migration_cycle -> b ∈ migration_cycle -> edits P R R g g' -> graph_wf g ->
    has_dep g a b -> has_dep g' a b) as Hkeep.
  { intros g g' a b Ha Hb. apply edits_keeps; intros i Hi; [split; intros ->; by apply Hi | intros ->; by apply Hi]. }
  assert (forall a b, existsb (fun n => bool_decide (id n = a) && includes b (dependsOn n))
    (g_nodes (foldl (fun g n => addNode g n (from_intent migration)) emptyGraph (loadFragment migration))) = true ->
    has_dep (fragmentGraph c) a b) as Hfrag.
  { intros a b Hab. unfold fragmentGraph. rewrite Hp. by apply has_dep_check. }
  pose proof (fragment_wf c _ _ _ HP) as W0. set (g1 := overlayGraph c l1).
  assert (edits P R R (fragmentGraph c) g1) as E1 by (by apply (overlayGraph_edits c _ _ _ HP l1 (o :: l2))).
  pose proof (edits_wf _ _ _ _ _ E1 W0) as W1.
  pose proof (edits_P P R R _ _ E1 (fragment_P c _ _ _ HP)) as P1.
  set (g2 := applyOverlay g1 o).
  pose proof (pm_overlays _ _ _ _ HP) as Hov. rewrite Hos in Hov. apply Forall_app in Hov as [_ Hov].
  apply Forall_cons in Hov as [Hovo Hov2].
  assert (edits P R R g1 g2) as E2 by (apply overlay_edits; [done | apply (pm_skip _ _ _ _ HP) | done | done]).
  pose proof (edits_wf _ _ _ _ _ E2 W1) as W2. pose proof (edits_P P R R _ _ E2 P1) as P2.
  assert (edits P R R g2 (assemble c adapter)) as E3.
  { rewrite assemble_phases, Hos. unfold overlayGraph. rewrite foldl_app. cbn [foldl]. fold (overlayGraph c l1) g1 g2.
    assert (edits P R R g2 (foldl applyOverlay g2 l2)) as E by
      (apply overlays_edits; [done | apply (pm_skip _ _ _ _ HP) | done | done]).
    etransitivity; [exact E|]. apply (afterOverlays_edits adapter c _ _ _ HP). by eapply (edits_P P R R). }
  exists "migration-dry-run". eapply tc_l; [|eapply tc_l; [|apply tc_once]].
  - apply (Hkeep g2 _ "migration-dry-run" "reviewer"); [known_elem | known_elem | done | done|].
    assert (has_dep g1 "acceptance" "reviewer") as Hacc.
    { apply (Hkeep (fragmentGraph c)); [known_elem | known_elem | done | done|]. apply Hfrag. vm_compute. reflexivity. }
    destruct Hom as [-> | ->]; subst g2; cbn [applyOverlay];
      apply (attach_dep g1 (workflowNode "migration-dry-run" _)); done.
  - apply (Hkeep (fragmentGraph c) _ "reviewer" "verification"); [known_elem | known_elem | | done|].
    + etransitivity; [exact E1|]. etransitivity; [exact E2 | exact E3].
    + apply Hfrag. vm_compute. reflexivity.
  - apply (Hkeep (fragmentGraph c) _ "verification" "migration-dry-run"); [known_elem | known_elem | | done|].
    + etransitivity; [exact E1|]. etransitivity; [exact E2 | exact E3].
    + apply Hfrag. vm_compute. reflexivity.
Qed.

Lemma migration_refused {C} (adapter : ProjectAdapter C) c s :
  primaryIntent c = migration -> (o_migration ∈ overlays c \/ o_data_mutation ∈ overlays c) ->
  compileRunComposition c adapter s = Err PROFILE_CYCLE.
Proof.
  intros Hp Ho. pose proof (migration_edges adapter c Hp Ho) as Hc.
  destruct (compile_cases c adapter s) as [[-> _]|[[rank Hr] _]]; [done|]. by apply ranked_acyclic in Hr.
Qed.

Lemma elem_of_overlaysFromFlags flags o :
  o ∈ overlaysFromFlags flags <-> exists f, f ∈ flags /\ o ∈ default [] (FLAG_OVERLAYS f).
Proof.
  unfold overlaysFromFlags. cut (forall acc, o ∈ foldl (fun selected flag => match FLAG_OVERLAYS flag with
    | None => selected | Some mapped => foldl setAdd selected mapped end) acc flags <->
    o ∈ acc \/ exists f, f ∈ flags /\ o ∈ default [] (FLAG_OVERLAYS f)).
  { intros H. rewrite H. set_solver. }
  induction flags as [|f flags IH]; intros acc; cbn [foldl]; [set_solver|]. rewrite IH.
  destruct (FLAG_OVERLAYS f) as [mapped|] eqn:E.
  - rewrite elem_of_foldl_setAdd. split.
    + intros [[?|?]|(f' & ? & ?)]; [by left | right; exists f; rewrite E; set_solver | right; exists f'; set_solver].
    + intros [?|(f' & [->|Hf]%elem_of_cons & Ho)]; [by left; left | left; right; by rewrite E in Ho | right; eauto].
  - split; [intros [?|(f' & ? & ?)]; [by left | right; exists f'; set_solver]|].
    intros [?|(f' & [->|Hf]%elem_of_cons & Ho)]; [by left | rewrite E in Ho; by apply not_elem_of_nil in Ho | right; eauto].
Qed.

Lemma elem_of_contractOverlays c o : o ∈ overlaysFromFlags (riskFlags c) -> o ∈ contractOverlays c.
Proof.
  intros Ho. unfold contractOverlays. destruct (version2 c); [|done].
  destruct (_ && _); [set_solver | done].
Qed.

(** An intent none of the rewriting steps replaces. *)
Lemma draftOf_primary c ovs :
  contractPrimaryIntent c ∉ [refactor; bugfix; documentation] -> d_primary (draftOf c ovs) = contractPrimaryIntent c.
Proof.
  intros Hp. set (i := contractPrimaryIntent c) in *.
  assert (forall d, d_primary d = i -> d_primary (rewriteRefactor c d) = i) as H1.
  { intros d Hd. unfold rewriteRefactor. rewrite bool_decide_false by (rewrite Hd; intros Hi; apply Hp; rewrite Hi; known_elem). done. }
  assert (forall d, d_primary d = i -> d_primary (rewriteEmergencyBugfix c ovs d) = i) as H2.
  { intros d Hd. unfold rewriteEmergencyBugfix. rewrite bool_decide_false by (rewrite Hd; intros Hi; apply Hp; rewrite Hi; known_elem). done. }
  assert (forall d, d_primary d = i -> d_primary (rewriteDocumentation c d) = i) as H3.
  { intros d Hd. unfold rewriteDocumentation. rewrite bool_decide_false by (rewrite Hd; intros Hi; apply Hp; rewrite Hi; known_elem). done. }
  assert (forall d, d_primary d = i -> d_primary (splitResearch c ovs d) = i) as H4.
  { intros d Hd. unfold splitResearch. by destruct (_ && _). }
  assert (forall d, d_primary d = i -> d_primary (splitDestructiveMigration c ovs d) = i) as H5.
  { intros d Hd. unfold splitDestructiveMigration. by destruct (_ && _). }
  by apply H5, H3, H4, H2, H1.
Qed.

(** A contract whose primary intent is migration and that says so in its risk flags never
    compiles: the migration (or data-mutation) overlay makes the dry run wait for the reviewer,
    who already waits for the dry run, and compilation fails with a cycle, whatever else the
    contract and the adapter say. *)
Theorem flagged_migration_refused {C} (adapter : ProjectAdapter C) contract v :
  version2 contract = Some v -> v2_primaryIntent v = migration ->
  flag_migration ∈ riskFlags contract \/ flag_data_mutation ∈ riskFlags contract ->
  compileProfileFromContract contract adapter = Err PROFILE_CYCLE.
Proof.
  intros Hv Hp Hf. assert (contractPrimaryIntent contract = migration) as Hi.
  { unfold contractPrimaryIntent. by rewrite Hv. }
  apply migration_refused; cbn [composition composeFromContract primaryIntent overlays].
  - rewrite draftOf_primary by (rewrite Hi; apply includes_false; vm_compute; reflexivity). done.
  - rewrite !(proj2 (uniq_spec _)).
    destruct Hf as [Hf|Hf]; [left | right]; apply elem_of_contractOverlays, elem_of_overlaysFromFlags;
      (eexists; split; [exact Hf | left]).
Qed.
