(* ===== verification/ProfileLiveness.v ===== *)
(** The profile compiler, continued: a sufficient condition for compilation to succeed, and two
    profiles that compile but do not work. *)

From stdpp Require Import relations.
From Stdlib Require Import String.
From S2P Require Import Prelude JsText DagEngine DagTheorems ProfileCompose ProfileCompiler ProfileGraph ProfileTheorems.
Open Scope string_scope.
Open Scope list_scope.

(** ** When compilation succeeds *)

(** The node an overlay attaches before acceptance. *)
Definition attachTarget (o : RiskOverlay) : option string :=
  match o with
  | o_security_sensitive => Some "security-reviewer"
  | o_public_api | o_cross_cutting => Some "architecture-reviewer"
  | o_data_mutation | o_migration => Some "migration-dry-run"
  | o_production_impact => Some "rollback-evidence"
  | _ => None
  end.

Definition attachTargets (c : RunComposition) : list string :=
  omap attachTarget (overlays c) ++
  (if bool_decide (deliveryMode c = mitigation_patch) then ["rollback-evidence"] else []).

(** An order of all other nodes in which every fragment goes forward. *)
Definition static_order : list string :=
  ["analyst"; "code-investigator"; "spec-investigator"; "history-investigator"; "external-investigator";
   "reproduction-investigator"; "root-cause-investigator"; "blast-radius-investigator"; "second-hypothesis";
   "inventory-investigator"; "phase-investigator"; "confirmation-investigator"; "similar-pattern-investigator";
   "impact-investigator"; "consumer-investigator"; "docs-investigator"; "tooling-investigator";
   "architecture-investigator"; "behavior-investigator"; "constraint-investigator"; "dependency-investigator";
   "generator-investigator"; "investigator"; "contradiction-finder"; "synthesizer"; "evidence-completeness";
   "characterization"; "planner"; "plan-critic"; "implementer"; "spec-author"; "integration";
   "migration-dry-run"; "verification"; "regression-verification"; "recovery-verification"; "equivalence";
   "reviewer"; "security-reviewer"; "architecture-reviewer"; "test-reviewer"; "performance-reviewer";
   "spec-reviewer"; "postmortem-synthesizer"; "consistency-gate"; "repair-implementer"; "fresh-reviewer";
   "spec-consistency"].

Definition static_rank (i : string) : nat := if bool_decide (i = "acceptance") then 200 else position static_order i.

Lemma fragment_nodes c : g_nodes (fragmentGraph c) = loadFragment (primaryIntent c).
Proof. unfold fragmentGraph. destruct (primaryIntent c); vm_compute; reflexivity. Qed.

Section Total.
Context {CommandSpec : Type} (adapter : ProjectAdapter CommandSpec) (c : RunComposition).

Let targets := attachTargets c.

Definition rank_of (i : string) : nat :=
  if includes i targets then 100 + position targets i else static_rank i.

(** [k] targets have been attached. *)
Record attached (k : nat) (g : GraphState) : Prop := {
  at_wf : graph_wf g;
  at_ranked : ranked rank_of (g_nodes g);
  at_acceptance n d : n ∈ g_nodes g -> id n = "acceptance" -> d ∈ dependsOn n -> rank_of d < 100 + k;
  at_fresh j t : k <= j -> targets !! j = Some t -> t ∉ map id (g_nodes g)
}.

Context (Hdistinct : NoDup targets).
Context (Hfree : forall t, t ∈ targets -> t ∉ map id (loadFragment (primaryIntent c))).

Lemma targets_known : targets ⊆ ["security-reviewer"; "architecture-reviewer"; "migration-dry-run"; "rollback-evidence"].
Proof.
  intros t Ht. unfold targets, attachTargets in Ht. apply elem_of_app in Ht as [Ht|Ht].
  - apply list_elem_of_omap in Ht as (o & _ & Ho). destruct o; injection Ho as <- || discriminate Ho; known_elem.
  - case_bool_decide; [|by apply not_elem_of_nil in Ht]. apply list_elem_of_singleton in Ht as ->. known_elem.
Qed.

Lemma rank_static i :
  i ∉ ["security-reviewer"; "architecture-reviewer"; "migration-dry-run"; "rollback-evidence"] ->
  rank_of i = static_rank i.
Proof.
  intros Hi. unfold rank_of. rewrite (proj2 (includes_false _ _)); [done|]. intros Ht. by apply Hi, targets_known.
Qed.

Lemma rank_target k t : targets !! k = Some t -> rank_of t = 100 + k.
Proof using Hdistinct.
  intros Hk. unfold rank_of. rewrite (proj2 (includes_true _ _)) by (by eapply list_elem_of_lookup_2).
  by rewrite (position_lookup _ k).
Qed.

Lemma targets_short : length targets <= 4.
Proof using Hdistinct.
  etransitivity; [apply submseteq_length, NoDup_submseteq; [done | exact targets_known]|]. done.
Qed.

Definition rank_ok (n : WorkflowNode) : Prop := forall d, d ∈ dependsOn n -> rank_of d < rank_of (id n).

Lemma add_attached k g n p :
  attached k g -> rank_ok n -> id n <> "acceptance" -> id n ∉ targets -> attached k (addNode g n p).
Proof.
  intros [Hwf Hr Ha Hf] Hn Hid Ht. split.
  - eapply (edit_wf (fun _ => True) (fun _ => True) (fun _ => True)); [by apply e_add | done].
  - intros n' d Hn' Hd. apply addNode_elem in Hn' as [?|[->|(m & Hm & Hmid & ->)]]; [by apply Hr | by apply Hn|].
    cbn in Hd. apply uniq_spec, elem_of_app in Hd as [Hd|Hd]; cbn; [by apply Hr|]. rewrite Hmid. by apply Hn.
  - intros n' d Hn' Hacc Hd. apply addNode_elem in Hn' as [?|[->|(m & Hm & Hmid & ->)]]; [by eapply Ha | done|].
    cbn in Hacc. congruence.
  - intros j t Hj Hjt. pose proof (Hf j t Hj Hjt) as Hnew. intros (n' & -> & Hn')%list_elem_of_fmap.
    apply addNode_elem in Hn' as [Hn'|[->|(m & Hm & Hmid & ->)]].
    + apply Hnew. by apply list_elem_of_fmap_2.
    + apply Ht. by eapply list_elem_of_lookup_2.
    + apply Hnew. by apply (list_elem_of_fmap_2 id _ m).
Qed.

Lemma remove_attached k g i : attached k g -> attached k (removeNode g i).
Proof.
  intros [Hwf Hr Ha Hf]. split.
  - eapply (edit_wf (fun _ => True) (fun _ => True) (fun _ => True)); [by apply e_remove | done].
  - intros n' d (n & Hn & _ & ->)%removeNode_elem [Hd _]%elem_of_drop_id. by apply (Hr n).
  - intros n' d (n & Hn & _ & ->)%removeNode_elem Hacc [Hd _]%elem_of_drop_id. by eapply (Ha n).
  - intros j t Hj Hjt. pose proof (Hf j t Hj Hjt) as Hnew. intros (n' & -> & Hn')%list_elem_of_fmap.
    apply removeNode_elem in Hn' as (n & Hn & _ & ->). apply Hnew. by apply (list_elem_of_fmap_2 id _ n).
Qed.

Lemma marks_attached k g g' : g_nodes g' = g_nodes g -> provenance g' = provenance g -> attached k g -> attached k g'.
Proof.
  intros H1 H2 [Hwf Hr Ha Hf]. split; unfold graph_wf in *; rewrite ?H1, ?H2; done.
Qed.

Lemma target_not_acceptance k t : targets !! k = Some t -> t <> "acceptance".
Proof.
  intros Hk%list_elem_of_lookup_2%targets_known ->. revert Hk. apply includes_false. vm_compute. reflexivity.
Qed.

Lemma add_target k g n p :
  attached k g -> targets !! k = Some (id n) -> (forall d, d ∈ dependsOn n -> rank_of d < 100 + k) ->
  attached (S k) (addNode g n p).
Proof using Hdistinct.
  intros [Hwf Hr Ha Hf] Hk Hdeps. pose proof (Hf k _ (le_n k) Hk) as Hnew. split.
  - eapply (edit_wf (fun _ => True) (fun _ => True) (fun _ => True)); [by apply e_add | done].
  - unfold addNode. rewrite (proj2 (nodeById_none g (id n)) Hnew). cbn [g_nodes].
    intros m d [Hm| ->%list_elem_of_singleton]%elem_of_app Hd; [by apply Hr|].
    rewrite (rank_target k _ Hk). by apply Hdeps.
  - unfold addNode. rewrite (proj2 (nodeById_none g (id n)) Hnew). cbn [g_nodes].
    intros m d [Hm| ->%list_elem_of_singleton]%elem_of_app Hid Hd; [specialize (Ha m d Hm Hid Hd); lia|].
    by apply target_not_acceptance in Hk.
  - intros j t Hj Hjt. unfold addNode. rewrite (proj2 (nodeById_none g (id n)) Hnew). cbn [g_nodes].
    rewrite map_app. intros [Ht|Ht%list_elem_of_singleton]%elem_of_app.
    + apply (Hf j t); [lia | done | done].
    + subst t. pose proof (NoDup_lookup _ _ _ _ Hdistinct Hk Hjt). lia.
Qed.

Lemma link_acceptance k g t :
  attached (S k) g -> targets !! k = Some t ->
  attached (S k) (update_node "acceptance" (fun acceptance =>
    if includes t (dependsOn acceptance) then acceptance
    else with_dependsOn acceptance (uniq (dependsOn acceptance ++ [t]))) g).
Proof using Hdistinct.
  intros [Hwf Hr Ha Hf] Hk. pose proof (rank_target k _ Hk) as Hrank.
  set (f := fun acceptance : WorkflowNode => _).
  assert (forall m d, d ∈ dependsOn (f m) -> d ∈ dependsOn m \/ d = t) as Hf_deps.
  { intros m d. unfold f. destruct (includes _ _); [by left|]. cbn.
    intros [Hd|Hd%list_elem_of_singleton]%uniq_spec%elem_of_app; [by left | by right]. }
  assert (forall m, id (f m) = id m) as Hf_id by (intros m; unfold f; by destruct (includes _ _)).
  assert (100 + k < 200) as Hk4 by (apply lookup_lt_Some in Hk; pose proof targets_short; lia).
  assert (rank_of "acceptance" = 200) as Hr200.
  { rewrite rank_static; [done | apply includes_false; vm_compute; reflexivity]. }
  split.
  - eapply (edit_wf (fun _ => True) (fun _ => True) (fun _ => True)); [|exact Hwf]. apply e_grow.
    intros m. unfold f. destruct (includes _ _); split; try done. cbn. intros x Hx. apply uniq_spec, elem_of_app. by left.
  - intros m d [Hm|(m0 & Hm & Hid & ->)]%update_first_elem Hd; [by apply Hr|].
    rewrite Hf_id, Hid, Hr200. apply Hf_deps in Hd as [Hd| ->]; [|lia]. specialize (Ha m0 d Hm Hid Hd).
    apply lookup_lt_Some in Hk. pose proof targets_short. lia.
  - intros m d [Hm|(m0 & Hm & Hid & ->)]%update_first_elem Hacc Hd; [by eapply Ha|].
    apply Hf_deps in Hd as [Hd| ->]; [by eapply (Ha m0)|lia].
  - intros j t' Hj Hjt. cbn [g_nodes update_node set_nodes]. rewrite update_first_ids by done. by apply (Hf j).
Qed.

Lemma attach_attached k g n p :
  attached k g -> targets !! k = Some (id n) -> (forall d, d ∈ dependsOn n -> rank_of d < 100) ->
  attached (S k) (attachBeforeAcceptance g n p).
Proof using Hdistinct.
  intros Hg Hk Hdeps. unfold attachBeforeAcceptance. destruct (nodeById g "acceptance") as [acc|] eqn:E.
  - apply nodeById_some in E as [Hacc Hid].
    apply link_acceptance; [|done]. apply add_target; [done | done|]. cbn [dependsOn with_dependsOn].
    intros d Hd. destruct (0 <? length _)%nat.
    + apply elem_of_drop_id in Hd as [Hd _]. by apply (at_acceptance _ _ Hg acc).
    + specialize (Hdeps d Hd). lia.
  - apply add_target; [done | done|]. intros d Hd. specialize (Hdeps d Hd). lia.
Qed.

(** *** The phases *)

Definition four : list string := ["security-reviewer"; "architecture-reviewer"; "migration-dry-run"; "rollback-evidence"].

(** Nodes that are never attached before acceptance and go forward in the static order. *)
Definition plain (n : WorkflowNode) : bool :=
  negb (includes (id n) ("acceptance" :: four)) &&
  forallb (fun d => negb (includes d four) && (static_rank d <? static_rank (id n))%nat) (dependsOn n).

Lemma add_plain k g n p : attached k g -> plain n = true -> attached k (addNode g n p).
Proof.
  intros Hg [Hid%negb_true_iff%includes_false Hdeps]%andb_true_iff. rewrite forallb_forall in Hdeps.
  apply add_attached; [done | | intros Hacc; apply Hid; rewrite Hacc; left |].
  - intros d Hd%list_elem_of_In. specialize (Hdeps d Hd).
    apply andb_true_iff in Hdeps as [H1%negb_true_iff%includes_false H2%Nat.ltb_lt].
    rewrite !rank_static; [done | | done]. intros Hin. apply Hid. by right.
  - intros Ht%targets_known. apply Hid. by right.
Qed.

Lemma foldl_attached {A} (f : GraphState -> A -> GraphState) k xs g :
  (forall g x, x ∈ xs -> attached k g -> attached k (f g x)) -> attached k g -> attached k (foldl f g xs).
Proof.
  revert g. induction xs as [|x xs IH]; intros g Hf Hg; cbn; [done|]. apply IH; [|apply Hf; [left | done]].
  intros g' y Hy. apply Hf. by right.
Qed.

Lemma fragments_forward i n d : n ∈ loadFragment i -> d ∈ dependsOn n ->
  d ∈ map id (loadFragment i) /\ static_rank d < 100 /\ static_rank d < static_rank (id n).
Proof.
  assert (forallb (fun i => forallb (fun n => forallb (fun d => includes d (map id (loadFragment i)) &&
    (static_rank d <? 100)%nat && (static_rank d <? static_rank (id n))%nat) (dependsOn n)) (loadFragment i)) all_intents = true)
    as H by (vm_compute; reflexivity).
  intros Hn Hd. rewrite forallb_forall in H. specialize (H i (proj1 (list_elem_of_In _ _) (all_intents_complete i))).
  rewrite forallb_forall in H. specialize (H n (proj1 (list_elem_of_In _ _) Hn)).
  rewrite forallb_forall in H. specialize (H d (proj1 (list_elem_of_In _ _) Hd)).
  apply andb_true_iff in H as [[H1%includes_true H2%Nat.ltb_lt]%andb_true_iff H3%Nat.ltb_lt]. done.
Qed.

Lemma rank_fragment i : i ∈ map id (loadFragment (primaryIntent c)) -> rank_of i = static_rank i.
Proof using Hfree.
  intros Hi. unfold rank_of. rewrite (proj2 (includes_false _ _)); [done|]. intros Ht. by apply (Hfree i).
Qed.

Lemma fragment_attached : attached 0 (fragmentGraph c).
Proof using Hfree.
  split.
  - apply (fragment_wf c _ _ _ (permits_all c)).
  - rewrite fragment_nodes. intros n d Hn Hd. destruct (fragments_forward _ n d Hn Hd) as (H1 & _ & H3).
    rewrite !rank_fragment; [done | by apply list_elem_of_fmap_2 | done].
  - rewrite fragment_nodes. intros n d Hn _ Hd. destruct (fragments_forward _ n d Hn Hd) as (H1 & H2 & _).
    rewrite rank_fragment by done. lia.
  - rewrite fragment_nodes. intros j t _ Ht. apply Hfree. by eapply list_elem_of_lookup_2.
Qed.

Lemma secondary_attached k g : attached k g -> attached k (foldl (fun g secondary =>
  foldl (fun g n => addNode g n (from_secondary secondary)) g (secondaryNodes secondary)) g (secondaryIntents c)).
Proof.
  apply foldl_attached. intros g' s _ Hg. apply foldl_attached; [|done]. intros g2 n Hn Hg2.
  apply add_plain; [done|]. assert (forallb plain (secondaryNodes s) = true) as H by (destruct s; vm_compute; reflexivity).
  rewrite forallb_forall in H. by apply H, list_elem_of_In.
Qed.

Lemma skip_attached k g op : attached k g -> attached k (skipOperation g op).
Proof.
  intros Hg. unfold skipOperation. destruct (array_find _ _) as [n|]; [|done].
  apply (marks_attached k (removeNode g (id n))); [done | done | by apply remove_attached].
Qed.

Lemma own_deps_low n : n ∈ ["reviewer"; "implementer"; "verification"; "recovery-verification"] -> rank_of n < 100.
Proof.
  intros Hn. rewrite rank_static.
  - assert (forallb (fun n => static_rank n <? 100)%nat
      ["reviewer"; "implementer"; "verification"; "recovery-verification"] = true) as H by (vm_compute; reflexivity).
    rewrite forallb_forall in H. by apply Nat.ltb_lt, H, list_elem_of_In.
  - assert (forallb (fun n => negb (includes n four))
      ["reviewer"; "implementer"; "verification"; "recovery-verification"] = true) as H by (vm_compute; reflexivity).
    rewrite forallb_forall in H. by apply includes_false, negb_true_iff, H, list_elem_of_In.
Qed.

Lemma overlay_attached k g o :
  attached k g -> (forall t, attachTarget o = Some t -> targets !! k = Some t) ->
  attached (match attachTarget o with Some _ => S k | None => k end) (applyOverlay g o).
Proof using Hdistinct.
  intros Hg Ht. destruct o; cbn [attachTarget applyOverlay] in *; try done.
  all: try (apply attach_attached; [done | by apply Ht | intros d ->%list_elem_of_singleton; apply own_deps_low; known_elem]).
  all: lazymatch goal with
       | |- attached _ (addNode _ _ _) =>
           apply add_plain; [done | try destruct (nodeById g _); vm_compute; reflexivity]
       | _ => idtac end.
  - apply attach_attached; [|by apply Ht | intros d ->%list_elem_of_singleton; apply own_deps_low; known_elem].
    apply add_plain; [done | vm_compute; reflexivity].
  - by apply (marks_attached k g).
  - unfold deferSpecConsistency. assert (attached k (foldl skipOperation g [SPEC_CONSISTENCY; BEHAVIORAL_EQUIVALENCE])) as H.
    { apply foldl_attached; [|done]. intros. by apply skip_attached. }
    destruct (includes _ _); [done|]. eapply marks_attached; [| |exact H]; reflexivity.
Qed.

Lemma overlays_attached os k g :
  attached k g -> (forall j t, omap attachTarget os !! j = Some t -> targets !! (k + j) = Some t) ->
  attached (k + length (omap attachTarget os)) (foldl applyOverlay g os).
Proof using Hdistinct.
  revert k g. induction os as [|o os IH]; intros k g Hg Ht; [by rewrite Nat.add_0_r|]. cbn [foldl].
  pose proof (overlay_attached k g o Hg) as H1. cbn [omap list_omap] in *. destruct (attachTarget o) as [t|] eqn:E.
  - cbn [length]. rewrite <- Nat.add_succ_comm. apply IH.
    + apply H1. intros t' [= <-]. specialize (Ht 0 t eq_refl). by rewrite Nat.add_0_r in Ht.
    + intros j t' Hj. rewrite Nat.add_succ_comm. by apply (Ht (S j)).
  - apply IH; [by apply H1 | done].
Qed.

Lemma remove_where_attached k p g : attached k g -> attached k (remove_where p g).
Proof. intros Hg. apply foldl_attached; [|done]. intros. by apply remove_attached. Qed.

Lemma budget_attached k g b : attached k g -> attached k (applyBudget g b).
Proof.
  intros Hg. destruct b; cbn [applyBudget]; [|done|].
  - assert (attached k (foldl removeIfPresent g fastDropped)) as H1.
    { apply foldl_attached; [|done]. intros g' i _ Hg'. unfold removeIfPresent.
      destruct (is_present g' i); [by apply remove_attached | done]. }
    assert (attached k (keepOneInvestigator (foldl removeIfPresent g fastDropped))) as H2.
    { unfold keepOneInvestigator.
      destruct (match nodeById _ "code-investigator" with Some n => _ | None => _ end) as [n|];
        [destruct (negb _)|destruct (_ && _)]; try done.
      - apply add_plain; [by apply remove_attached | vm_compute; reflexivity].
      - apply add_plain; [done | vm_compute; reflexivity]. }
    apply (remove_where_attached _ (fun n => bool_decide (role n = Some investigator)
      && negb (bool_decide (id n = "investigator")))) in H2.
    destruct H2 as [Hwf Hr Ha Hf]. split.
    + eapply (edit_wf (fun _ => True) (fun _ => True) (fun _ => True)); [|exact Hwf]. by apply e_set.
    + intros m d [Hm|(m0 & Hm & Hid & ->)]%update_first_elem Hd; [by apply Hr|]. cbn in Hd.
      apply list_elem_of_singleton in Hd as ->. cbn [id with_dependsOn]. rewrite Hid, !rank_static;
        [apply Nat.ltb_lt; vm_compute; reflexivity | apply includes_false; vm_compute; reflexivity..].
    + intros m d [Hm|(m0 & Hm & Hid & ->)]%update_first_elem Hacc Hd; [by eapply Ha|]. cbn in Hacc. congruence.
    + cbn [g_nodes update_node set_nodes]. rewrite update_first_ids by done. done.
  - destruct (_ && _); [|done]. apply add_plain; [done | vm_compute; reflexivity].
Qed.

Lemma assemble_ranked : exists rank, ranked rank (g_nodes (assemble c adapter)).
Proof using Hdistinct Hfree.
  exists rank_of. rewrite assemble_phases. unfold afterOverlays.
  set (j := length (omap attachTarget (overlays c))).
  assert (attached j (overlayGraph c (overlays c))) as H1.
  { apply (overlays_attached _ 0); [apply secondary_attached, fragment_attached|].
    intros i t Hi. cbn. unfold targets, attachTargets. by apply lookup_app_l_Some. }
  assert (attached j (attachPackNodes (overlayGraph c (overlays c)) (verificationPacks c) adapter)) as H2.
  { unfold attachPackNodes. destruct (List.filter _ _); [done|]. destruct (_ && _); [|done].
    apply add_plain; [done | vm_compute; reflexivity]. }
  set (g2 := attachPackNodes _ _ _) in *.
  assert (exists k, attached k (applyDelivery g2 (deliveryMode c))) as [k H3].
  { destruct (deliveryMode c) eqn:Hm; cbn [applyDelivery]; try (by exists j).
    - exists j. match goal with |- attached _ (forbid ?h _) => apply (marks_attached j h) end;
        [done | done | by apply remove_where_attached].
    - exists j. by apply (marks_attached j g2).
    - exists (S j). apply attach_attached.
      + apply (marks_attached j g2); [..| done]; unfold deferSpecConsistency; by destruct (includes _ _).
      + unfold targets, attachTargets. rewrite Hm, bool_decide_true by done.
        by rewrite lookup_app_r, Nat.sub_diag by (unfold j; done).
      + cbn [dependsOn workflowNode gate f_dependsOn]. intros d [Hd _]%elem_of_List_filter.
        apply elem_of_cons in Hd as [->| ->%list_elem_of_singleton]; apply own_deps_low; known_elem.
    - exists j. match goal with |- attached _ (forbid ?h _) => apply (marks_attached j h) end;
        [done | done | by apply remove_where_attached]. }
  apply (at_ranked k), budget_attached, H3.
Qed.
End Total.

(** Compilation succeeds whenever the overlays and the delivery mode attach each gate before
    acceptance at most once, and none that the intent's own fragment already has: no cycle and no
    other error, whatever the secondary intents, packs and budget. *)
Theorem compile_succeeds {C} (adapter : ProjectAdapter C) c s :
  NoDup (attachTargets c) ->
  (forall t, t ∈ attachTargets c -> t ∉ map id (loadFragment (primaryIntent c))) ->
  exists r, compileRunComposition c adapter s = Ok r.
Proof. intros Hd Hf. apply compile_ok. by apply assemble_ranked. Qed.

(** ** The first wave *)

Definition initialCursor (p : WorkflowProfile) (preds : list string) : DagCursor :=
  mkCursor p (initialNodeRecords p) preds.

Lemma initial_records p : map nodeId (initialNodeRecords p) = map id (profile_nodes p).
Proof. unfold initialNodeRecords. by rewrite map_map. Qed.

(** In the first wave every enabled node without dependencies is ready. *)
Lemma initial_ready rank p preds :
  dag_ok rank (initialCursor p preds) ->
  exists ready, readyNodes (initialCursor p preds) = Ok ready /\
    forall n, n ∈ profile_nodes p -> nodeEnabled (when n) preds = true -> dependsOn n = [] -> n ∈ ready.
Proof.
  intros Hok. set (cursor := initialCursor p preds) in *.
  assert (forall r, r ∈ nodes cursor -> status r = PENDING) as Hpend.
  { intros r Hr. cbn in Hr. unfold initialNodeRecords in Hr. by apply list_elem_of_fmap in Hr as (n & -> & _). }
  assert (forall i, i ∈ map id (profile_nodes p) -> exists r, recordOf cursor i = Ok r /\ status r = PENDING) as Hrec.
  { intros i (r & Hr & Hin & _)%(recordOf_ok rank cursor Hok). exists r. split; [done | by apply Hpend]. }
  assert (rfilter (occupiesWriterSlot cursor) (nodes cursor) = Ok []) as Hw.
  { rewrite (rfilter_total _ _ (fun _ => false)).
    - f_equal. clear. generalize (nodes cursor) as l. induction l as [|x l IH]; [done | exact IH].
    - apply Forall_forall. intros r Hr. unfold occupiesWriterSlot. by rewrite (Hpend r Hr). }
  unfold readyNodes. rewrite Hw. cbn [rbind length profile].
  set (q := fun spec => nodeEnabled (when spec) preds && forallb (is_accepted cursor) (dependsOn spec)).
  exists (List.filter q (profile_nodes p)). split.
  - apply rfilter_total, Forall_forall. intros spec Hspec. unfold isReady, q.
    destruct (Hrec (id spec)) as (r & -> & Hst); [by apply list_elem_of_fmap_2|]. cbn [rbind].
    rewrite (bool_decide_true (status r = PENDING)) by done. cbn [negb andb predicates cursor initialCursor].
    destruct (nodeEnabled (when spec) preds); [|done]. cbn [negb andb].
    rewrite (revery_total _ _ (is_accepted cursor)); [cbn [rbind]; by rewrite andb_false_r, andb_true_r|].
    apply Forall_forall. intros d Hd. apply (accepted_total rank cursor Hok). by apply (ok_deps _ _ Hok spec).
  - intros n Hn He Hd. apply elem_of_List_filter. split; [done|]. unfold q. by rewrite He, Hd.
Qed.

(** ** Fast features *)

(** The acceptance gate depends on the specification gate at most. *)
Definition acceptance_shape (n : WorkflowNode) : Prop :=
  id n = "acceptance" ->
  operation n = Some ACCEPTANCE /\ when n = None /\ dependsOn n ⊆ ["spec-consistency"].

Definition acceptance_ok (g : GraphState) : Prop := Forall acceptance_shape (g_nodes g).

Lemma add_acceptance g n p : acceptance_ok g -> id n <> "acceptance" -> acceptance_ok (addNode g n p).
Proof.
  unfold acceptance_ok. rewrite !Forall_forall. intros Hg Hn n' Hn' Hid.
  apply addNode_elem in Hn' as [?|[->|(m & Hm & Hmid & ->)]]; [by apply Hg | done|]. cbn in Hid. congruence.
Qed.

Lemma remove_acceptance g i : acceptance_ok g -> acceptance_ok (removeNode g i).
Proof.
  unfold acceptance_ok. rewrite !Forall_forall. intros Hg n' (n & Hn & _ & ->)%removeNode_elem Hid. cbn in *.
  destruct (Hg n Hn Hid) as (H1 & H2 & H3). split_and!; [done | done|].
  intros d [Hd _]%elem_of_drop_id. by apply H3.
Qed.

Lemma foldl_acceptance {A} (f : GraphState -> A -> GraphState) xs g :
  (forall g x, x ∈ xs -> acceptance_ok g -> acceptance_ok (f g x)) -> acceptance_ok g -> acceptance_ok (foldl f g xs).
Proof.
  revert g. induction xs as [|x xs IH]; intros g Hf Hg; cbn; [done|]. apply IH; [|apply Hf; [left | done]].
  intros g' y Hy. apply Hf. by right.
Qed.

Lemma fast_acceptance g : acceptance_ok g -> acceptance_ok (applyBudget g fast).
Proof.
  intros Hg. cbn [applyBudget]. set (g1 := foldl removeIfPresent g fastDropped).
  assert (acceptance_ok g1) as H1.
  { apply foldl_acceptance; [|done]. intros g' i _ Hg'. unfold removeIfPresent.
    destruct (is_present g' i); [by apply remove_acceptance | done]. }
  assert (acceptance_ok (keepOneInvestigator g1)) as H2.
  { unfold keepOneInvestigator.
    destruct (match nodeById _ "code-investigator" with Some n => _ | None => _ end) as [n|];
      [destruct (negb _)|destruct (_ && _)]; try done.
    - by apply add_acceptance; [apply remove_acceptance|].
    - by apply add_acceptance. }
  assert (acceptance_ok (remove_where (fun n => bool_decide (role n = Some investigator)
      && negb (bool_decide (id n = "investigator"))) (keepOneInvestigator g1))) as H3.
  { apply foldl_acceptance; [|done]. intros. by apply remove_acceptance. }
  unfold acceptance_ok in *. rewrite Forall_forall in *.
  intros n' [Hn|(n & Hn & Hid & ->)]%update_first_elem; [by apply H3|]. intros Hacc. cbn in Hacc. congruence.
Qed.

(** The fast budget leaves no specification gate. *)
Lemma foldl_removeIfPresent_gone ids g i : i ∈ ids -> i ∉ map id (g_nodes (foldl removeIfPresent g ids)).
Proof.
  assert (forall ids g, i ∉ map id (g_nodes g) -> i ∉ map id (g_nodes (foldl removeIfPresent g ids))) as Hstay.
  { clear. induction ids as [|j ids IH]; intros g Hi; cbn; [done|]. apply IH. unfold removeIfPresent.
    destruct (is_present g j); [|done]. intros (n' & -> & (n & Hn & _ & ->)%removeNode_elem)%list_elem_of_fmap.
    apply Hi. by apply (list_elem_of_fmap_2 id _ n). }
  revert g. induction ids as [|j ids IH]; intros g Hi; [by apply not_elem_of_nil in Hi|].
  apply elem_of_cons in Hi as [->|Hi]; cbn [foldl]; [|by apply IH]. apply Hstay. unfold removeIfPresent.
  destruct (is_present g j) eqn:E.
  - intros (n' & Hid & (n & _ & Hne & Hn')%removeNode_elem)%list_elem_of_fmap. rewrite Hn' in Hid. by apply Hne.
  - intros Hin%is_present_true. congruence.
Qed.

Lemma fast_no_spec_gate g : "spec-consistency" ∉ map id (g_nodes (applyBudget g fast)).
Proof.
  cbn [applyBudget update_node set_nodes g_nodes]. rewrite update_first_ids by done.
  intros (n' & Hid & (n & Hn & [Hsh _] & _)%foldl_removeNode_elem)%list_elem_of_fmap.
  set (g1 := foldl removeIfPresent g fastDropped) in *. rewrite Hsh in Hid.
  assert ("spec-consistency" ∉ map id (g_nodes g1)) as Hgone by (apply foldl_removeIfPresent_gone; known_elem).
  assert (forall g2 m p, "spec-consistency" ∉ map id (g_nodes g2) -> id m = "investigator" ->
    n ∈ g_nodes (addNode g2 m p) -> False) as Hadd.
  { intros g2 m p Hg2 Hm Hin. apply addNode_elem in Hin as [Hin|[->|(m' & Hm' & _ & ->)]].
    - apply Hg2. rewrite Hid. by apply list_elem_of_fmap_2.
    - congruence.
    - apply Hg2. rewrite Hid. by apply (list_elem_of_fmap_2 id _ m'). }
  unfold keepOneInvestigator in Hn. revert Hn.
  destruct (match nodeById _ "code-investigator" with Some n => _ | None => _ end) as [s|];
    [destruct (negb _)|destruct (_ && _)]; intros Hn.
  - eapply Hadd; [| |exact Hn]; [|done].
    intros (m' & Hm' & (m & Hm & _ & ->)%removeNode_elem)%list_elem_of_fmap. apply Hgone. rewrite Hm'.
    by apply (list_elem_of_fmap_2 id _ m).
  - apply Hgone. rewrite Hid. by apply list_elem_of_fmap_2.
  - eapply Hadd; [exact Hgone | | exact Hn]. reflexivity.
  - apply Hgone. rewrite Hid. by apply list_elem_of_fmap_2.
Qed.

(** The fast budget is only chosen without overlays. *)
Lemma fast_composition {C} (adapter : ProjectAdapter C) contract :
  let comp := composition (composeFromContract contract adapter) in
  primaryIntent comp = feature -> executionBudget comp = fast ->
  overlays comp = [] /\ deliveryMode comp = integration_branch.
Proof.
  cbn [composition composeFromContract primaryIntent executionBudget overlays deliveryMode].
  intros Hp Hb. assert (contractOverlays contract = []) as Ho.
  { unfold executionBudgetFor in Hb. destruct (_ && _ && _ && _ && _) eqn:E in Hb.
    - apply andb_true_iff in E as [E _]. apply andb_true_iff in E as [_ E]. by apply bool_decide_eq_true in E.
    - by destruct (existsb _ _) in Hb. }
  rewrite Hp, Ho. split; [done|]. unfold defaultDeliveryFor. rewrite bool_decide_false; [done|].
  unfold contractUrgency. unfold contractOverlays in Ho. destruct (version2 contract) as [[pi si [[]|]]|]; try done.
  cbn [v2_urgency] in Ho. rewrite bool_decide_true in Ho by done. cbn [andb] in Ho.
  destruct (includes _ _) eqn:E; cbn in Ho.
  - apply includes_true in E. rewrite Ho in E. by apply not_elem_of_nil in E.
  - by destruct (overlaysFromFlags _).
Qed.

Lemma secondary_acceptance g ss : acceptance_ok g -> acceptance_ok (foldl (fun g secondary =>
  foldl (fun g n => addNode g n (from_secondary secondary)) g (secondaryNodes secondary)) g ss).
Proof.
  apply foldl_acceptance. intros g' s _ Hg. apply foldl_acceptance; [|done]. intros g2 n Hn Hg2.
  apply add_acceptance; [done|]. intros Hid.
  assert (forallb (fun n => negb (bool_decide (id n = "acceptance"))) (secondaryNodes s) = true) as H
    by (destruct s; vm_compute; reflexivity).
  rewrite forallb_forall in H. specialize (H n (proj1 (list_elem_of_In _ _) Hn)).
  by rewrite Hid, bool_decide_true in H by done.
Qed.

Lemma fast_feature_assembled {C} (adapter : ProjectAdapter C) c :
  primaryIntent c = feature -> executionBudget c = fast -> overlays c = [] -> deliveryMode c = integration_branch ->
  acceptance_ok (assemble c adapter) /\ "spec-consistency" ∉ map id (g_nodes (assemble c adapter)).
Proof.
  intros Hp Hb Ho Hd. rewrite assemble_phases. unfold afterOverlays. rewrite Hb, Hd, Ho. cbn [applyDelivery].
  split; [|apply fast_no_spec_gate]. apply fast_acceptance.
  assert (acceptance_ok (overlayGraph c [])) as H.
  { apply secondary_acceptance. unfold acceptance_ok. rewrite fragment_nodes, Hp.
    apply Forall_forall. intros n Hn Hid.
    assert (forallb (fun n => negb (bool_decide (id n = "acceptance")) ||
      bool_decide (operation n = Some ACCEPTANCE) && bool_decide (when n = None) &&
      bool_decide (dependsOn n = ["spec-consistency"])) (loadFragment feature) = true) as Hb' by (vm_compute; reflexivity).
    rewrite forallb_forall in Hb'. specialize (Hb' n (proj1 (list_elem_of_In _ _) Hn)).
    rewrite (bool_decide_true (id n = _)) in Hb' by done. cbn [negb orb] in Hb'.
    apply andb_true_iff in Hb' as [[H1 H2]%andb_true_iff H3]. apply bool_decide_eq_true in H1, H2, H3.
    by rewrite H3. }
  unfold attachPackNodes. destruct (List.filter _ _); [done|]. destruct (_ && _); [|done]. by apply add_acceptance.
Qed.

(** When a contract is composed as a feature with the fast budget, the acceptance gate of the
    compiled profile has lost its only dependency (the specification gate that the budget removes):
    it is ready in the first wave, before anything was implemented, verified or reviewed. *)
Theorem fast_feature_accepts_first {C} (adapter : ProjectAdapter C) contract r :
  primaryIntent (composition (composeFromContract contract adapter)) = feature ->
  executionBudget (composition (composeFromContract contract adapter)) = fast ->
  compileProfileFromContract contract adapter = Ok r ->
  let p := compiled_profile (compiled r) in
  exists gate ready, readyNodes (mkCursor p (initialNodeRecords p) (result_predicates r)) = Ok ready /\
    gate ∈ ready /\ operation gate = Some ACCEPTANCE.
Proof.
  intros Hp Hb Hr p. destruct (fast_composition adapter contract Hp Hb) as [Ho Hd].
  unfold compileProfileFromContract in Hr. set (c := composition (composeFromContract contract adapter)) in *.
  destruct (fast_feature_assembled adapter c Hp Hb Ho Hd) as [Hacc Hspec].
  destruct (workflow_dag_ok adapter c _ r Hr (initialCursor p (result_predicates r)) eq_refl (initial_records p))
    as [rank Hok].
  destruct (initial_ready rank p (result_predicates r) Hok) as (ready & Hready & Hin).
  pose proof (assemble_acceptance c adapter) as Hpres. rewrite <- (workflow_ids adapter c _ r Hr) in Hpres.
  apply list_elem_of_fmap in Hpres as (n & Hid & Hn). exists n, ready. split; [exact Hready|].
  destruct (compile_inv _ _ _ _ Hr) as (_ & Hnodes & _). unfold workflow in Hn. rewrite Hnodes in Hn.
  pose proof Hn as (m & Hm & (Hmid & _ & Hmop & _) & Hmw & _ & Hmd)%dropMissing_elem.
  unfold acceptance_ok in Hacc. rewrite Forall_forall in Hacc. destruct (Hacc m Hm) as (H1 & H2 & H3); [congruence|].
  split; [|congruence]. apply Hin; [unfold p; by rewrite Hnodes | by rewrite Hmw, H2|].
  destruct (dependsOn n) as [|d ds] eqn:E; [done|]. destruct (proj1 (Hmd d)) as [Hdm Hdp]; [left|].
  apply H3, list_elem_of_singleton in Hdm as ->. done.
Qed.

(** ** Destructive changes *)

Lemma attach_forbidden g n p : forbiddenActions (attachBeforeAcceptance g n p) = forbiddenActions g.
Proof.
  unfold attachBeforeAcceptance. destruct (nodeById g "acceptance"); [|apply addNode_forbidden].
  cbn [update_node set_nodes forbiddenActions]. apply addNode_forbidden.
Qed.

Lemma deferSpec_forbidden g : forbiddenActions (deferSpecConsistency g) = forbiddenActions g.
Proof. unfold deferSpecConsistency. by destruct (includes _ _). Qed.

Lemma forbid_grows g acts : forbiddenActions g ⊆ forbiddenActions (forbid g acts).
Proof. cbn. intros a Ha. apply uniq_spec, elem_of_app. by left. Qed.

Lemma overlay_forbidden g o : forbiddenActions g ⊆ forbiddenActions (applyOverlay g o).
Proof.
  destruct o; cbn [applyOverlay]; rewrite ?attach_forbidden, ?addNode_forbidden; try done; [apply forbid_grows|].
  rewrite deferSpec_forbidden, foldl_forbidden; [done|]. intros g' op. unfold skipOperation.
  by destruct (array_find _ _).
Qed.

Lemma overlays_forbidden os g : forbiddenActions g ⊆ forbiddenActions (foldl applyOverlay g os).
Proof.
  revert g. induction os as [|o os IH]; intros g; cbn; [done|].
  etransitivity; [apply overlay_forbidden | apply IH].
Qed.

Lemma afterOverlays_forbidden {C} (adapter : ProjectAdapter C) c g :
  forbiddenActions g ⊆ forbiddenActions (afterOverlays adapter c g).
Proof.
  unfold afterOverlays. rewrite budget_forbidden. set (g1 := attachPackNodes _ _ _).
  assert (forbiddenActions g1 = forbiddenActions g) as <-.
  { unfold g1, attachPackNodes. destruct (List.filter _ _); [done|]. destruct (_ && _); [apply addNode_forbidden | done]. }
  destruct (deliveryMode c); cbn [applyDelivery]; try done; try apply forbid_grows.
  - etransitivity; [|apply forbid_grows]. unfold remove_where. by rewrite foldl_forbidden.
  - rewrite attach_forbidden, deferSpec_forbidden. apply forbid_grows.
  - etransitivity; [|apply forbid_grows]. unfold remove_where. by rewrite foldl_forbidden.
Qed.

Lemma destructive_forbids {C} (adapter : ProjectAdapter C) c :
  o_destructive ∈ overlays c -> apply_without_authorization ∈ forbiddenActions (assemble c adapter).
Proof.
  intros Ho. rewrite assemble_phases. apply afterOverlays_forbidden.
  apply list_elem_of_split in Ho as (l1 & l2 & Ho). unfold overlayGraph. rewrite Ho, foldl_app. cbn [foldl].
  apply overlays_forbidden. cbn. apply uniq_spec, elem_of_app. right. left.
Qed.

(** A contract flagged destructive that has open blocking questions, or whose assumptions and
    constraints never mention "authorized", is blocked: whatever else it says, its compiled profile
    is marked blocked, asks for the authorization, and forbids applying the change without it. *)
Theorem destructive_is_blocked {C} (adapter : ProjectAdapter C) contract r :
  flag_destructive ∈ riskFlags contract ->
  blockingQuestions contract <> [] \/
    (forall a, a ∈ assumptions contract -> includes_text (u "authorized") (toLowerCase (text a)) = false) /\
    (forall t, t ∈ constraints contract -> includes_text (u "authorized") (toLowerCase t) = false) ->
  compileProfileFromContract contract adapter = Ok r ->
  blocked r = true /\ "NEED_DESTRUCTIVE_AUTH" ∈ result_predicates r /\
  apply_without_authorization ∈ compiled_forbiddenActions (compiled r).
Proof.
  intros Hf Hno Hr.
  assert (destructiveAuthorized contract = false) as Ha.
  { unfold destructiveAuthorized. destruct Hno as [Hq|[H1 H2]]; [by rewrite bool_decide_false|].
    apply andb_false_iff. right. apply orb_false_iff.
    split; apply not_true_iff_false; rewrite existsb_exists; intros (x & Hx%list_elem_of_In & Hi).
    - by rewrite H1 in Hi.
    - by rewrite H2 in Hi. }
  assert (o_destructive ∈ contractOverlays contract) as Ho.
  { apply elem_of_contractOverlays, elem_of_overlaysFromFlags. exists flag_destructive. split; [done | left]. }
  set (c := composition (composeFromContract contract adapter)).
  assert (blockedReason c = Some NEEDS_DESTRUCTIVE_AUTHORIZATION) as Hb.
  { change (blockedReasonFor contract (contractOverlays contract) (d_primary (draftOf contract (contractOverlays contract)))
      = Some NEEDS_DESTRUCTIVE_AUTHORIZATION). unfold blockedReasonFor.
    by rewrite Ha, (proj2 (includes_true _ _) Ho). }
  assert (o_destructive ∈ overlays c) as Hoc by (apply uniq_spec; exact Ho).
  pose proof (destructive_forbids adapter c Hoc) as Hforb. unfold compileProfileFromContract in Hr. fold c in Hr.
  apply compile_fields in Hr as (-> & _ & -> & ->). unfold predicatesFor. rewrite Hb. split; [reflexivity|].
  rewrite (bool_decide_true (Some NEEDS_DESTRUCTIVE_AUTHORIZATION = _)) by reflexivity.
  split; [|apply uniq_spec; exact Hforb]. do 4 (apply elem_of_app; right). left.
Qed.

(** ** Profiles no reviewer can accept *)

Definition no_reviewer (n : WorkflowNode) : Prop := contains "reviewer" (id n) = false.

Lemma incident_no_reviewer {C} (adapter : ProjectAdapter C) c :
  primaryIntent c = incident_response ->
  o_security_sensitive ∉ overlays c -> o_public_api ∉ overlays c -> o_cross_cutting ∉ overlays c ->
  Forall no_reviewer (g_nodes (assemble c adapter)).
Proof.
  intros Hp H1 H2 H3. apply (assemble_P adapter c no_reviewer (fun _ => True) (fun _ => True)). split.
  - intros n n' (Hid & _). unfold no_reviewer. by rewrite Hid.
  - rewrite Hp. repeat constructor.
  - apply Forall_always. intros s. destruct s; repeat constructor.
  - apply Forall_forall. intros o Ho. destruct o; try done; repeat constructor.
  - done.
  - done.
  - done.
  - done.
  - by apply Forall_always.
  - done.
  - done.
  - done.
  - done.
  - done.
Qed.

(** An incident response without security, public-interface or cross-cutting overlays compiles to a
    profile that requires a reviewer and has none: whatever its nodes do, the profile is never ready
    for acceptance. *)
Lemma incident_never_ready {C} (adapter : ProjectAdapter C) c s r cursor :
  primaryIntent c = incident_response -> deliveryMode c <> analysis_only ->
  o_security_sensitive ∉ overlays c -> o_public_api ∉ overlays c -> o_cross_cutting ∉ overlays c ->
  compileRunComposition c adapter s = Ok r ->
  map nodeId (nodes cursor) = map id (profile_nodes (compiled_profile (compiled r))) ->
  profileReadyForAcceptance (compiled_profile (compiled r)) cursor <> Ok true.
Proof.
  intros Hp Hd H1 H2 H3 Hr Hn. pose proof (incident_no_reviewer adapter c Hp H1 H2 H3) as HF.
  unfold profileReadyForAcceptance. destruct (dagComplete cursor) as [b|e]; [|done]. cbn [rbind].
  pose proof Hr as (_ & -> & _)%compile_fields. unfold acceptancePolicyFor. rewrite bool_decide_false by done.
  cbn [requireReviewer negb]. rewrite andb_true_r. destruct b; [|done]. intros [= He].
  apply existsb_exists in He as (x & Hx%list_elem_of_In & [Hc _]%andb_true_iff).
  assert (nodeId x ∈ map id (g_nodes (assemble c adapter))) as Hid.
  { rewrite <- (workflow_ids adapter c s r Hr). unfold workflow. rewrite <- Hn. by apply list_elem_of_fmap_2. }
  apply list_elem_of_fmap in Hid as (n & Hid & Hin). rewrite Forall_forall in HF. specialize (HF n Hin).
  unfold no_reviewer in HF. congruence.
Qed.

(** ** Concrete contracts and compositions *)

Definition plain_adapter : ProjectAdapter unit := DEFAULT_PROJECT_ADAPTER.
Definition quiet : CompileSignals := mkCompileSignals false false.

Definition sample_composition (i : PrimaryIntent) (os : list RiskOverlay) (b : ExecutionBudget) : RunComposition :=
  mkComposition i [] os [] (defaultDeliveryFor i normal) normal b (changeClassFor i) [] None.

Definition sample_contract (v : option ContractV2) (k : TaskKind) (flags : list RiskFlag) (cs : list ustr) : TaskContract :=
  mkContract v k (u "Rename the helper") [u "src/helper.ts"] [] cs
    [mkAssumption (u "local change") true] [mkCriterion (u "AC-1") (u "the suite passes") [v_test] [e_command]] flags
    false false [].

(** The value of a successful run. *)
Definition value_of {E A} (c : result E A) (fallback : A) : A := match c with Ok a => a | Err _ => fallback end.

Definition no_result : CompiledProfileResult :=
  mkResult (mkCompiled (mkProfile FAST [] [] [] (mkAcceptance false false false false))
    (sample_composition feature [] fast) [] [] []) [] false.

Definition diagnosis_result : CompiledProfileResult :=
  value_of (compileRunComposition (sample_composition diagnosis [] standard) plain_adapter quiet) no_result.

Lemma diagnosis_compiles :
  compileRunComposition (sample_composition diagnosis [] standard) plain_adapter quiet = Ok diagnosis_result.
Proof. vm_compute. reflexivity. Qed.

Lemma compiled_profile_wellformed_witness :
  NoDup (map id (profile_nodes (compiled_profile (compiled diagnosis_result)))).
Proof.
  destruct (compiled_profile_wellformed plain_adapter (sample_composition diagnosis [] standard) quiet diagnosis_result)
    as [H _]; [vm_compute; reflexivity | exact H].
Defined.

Definition diagnosis_cursor : DagCursor := initialCursor (compiled_profile (compiled diagnosis_result)) [].

Lemma diagnosis_settled : settled diagnosis_cursor.
Proof.
  split.
  - intros r Hr. cbn in Hr. left.
    assert (forallb (fun r => bool_decide (status r = PENDING)) (nodes diagnosis_cursor) = true) as H
      by (vm_compute; reflexivity).
    rewrite forallb_forall in H. specialize (H r (proj1 (list_elem_of_In _ _) Hr)). by apply bool_decide_eq_true in H.
  - intros spec r Hs Hen. exfalso.
    assert (forallb (fun n => nodeEnabled (when n) (predicates diagnosis_cursor))
      (profile_nodes (profile diagnosis_cursor)) = true) as H by (vm_compute; reflexivity).
    rewrite forallb_forall in H. specialize (H spec (proj1 (list_elem_of_In _ _) Hs)). congruence.
Qed.

Lemma compiled_profile_progress_witness :
  exists ready complete, readyNodes diagnosis_cursor = Ok ready /\ dagComplete diagnosis_cursor = Ok complete.
Proof.
  destruct (compiled_profile_progress plain_adapter (sample_composition diagnosis [] standard) quiet diagnosis_result
    diagnosis_cursor) as (ready & complete & H1 & H2 & _);
    [vm_compute; reflexivity | reflexivity | vm_compute; reflexivity | exact diagnosis_settled|].
  exists ready, complete. split; [exact H1 | exact H2].
Defined.

Lemma analysis_only_never_writes_witness :
  Forall (fun n => isWriter n = false) (profile_nodes (compiled_profile (compiled diagnosis_result))).
Proof.
  apply Forall_forall.
  destruct (analysis_only_never_writes plain_adapter (sample_composition diagnosis [] standard) quiet diagnosis_result)
    as [H _]; [reflexivity | vm_compute; reflexivity | exact H].
Defined.

Definition migration_contract : TaskContract :=
  sample_contract (Some (mkV2 migration [] None)) k_feature [flag_migration] [].

Lemma flagged_migration_refused_witness :
  compileProfileFromContract migration_contract plain_adapter = Err PROFILE_CYCLE.
Proof.
  apply (flagged_migration_refused plain_adapter migration_contract (mkV2 migration [] None));
    [reflexivity | reflexivity | left; left].
Defined.

Lemma compile_succeeds_witness :
  exists r, compileRunComposition (sample_composition feature [o_security_sensitive; o_public_api] thorough)
    plain_adapter quiet = Ok r.
Proof.
  apply (compile_succeeds plain_adapter (sample_composition feature [o_security_sensitive; o_public_api] thorough) quiet).
  - apply (bool_decide_unpack _). vm_compute. reflexivity.
  - intros t Ht. apply includes_false. revert t Ht. apply Forall_forall. repeat constructor.
Defined.

Definition local_feature : TaskContract := sample_contract None k_feature [] [].

Definition local_feature_result : CompiledProfileResult :=
  value_of (compileProfileFromContract local_feature plain_adapter) no_result.

Lemma fast_feature_accepts_first_witness :
  exists gate ready, readyNodes (initialCursor (compiled_profile (compiled local_feature_result))
      (result_predicates local_feature_result)) = Ok ready /\ gate ∈ ready /\ operation gate = Some ACCEPTANCE.
Proof.
  apply (fast_feature_accepts_first plain_adapter local_feature local_feature_result);
    [vm_compute; reflexivity | vm_compute; reflexivity | vm_compute; reflexivity].
Defined.

Definition drop_table : TaskContract := sample_contract None k_feature [flag_destructive] [u "keep a backup"].

Definition drop_table_result : CompiledProfileResult :=
  value_of (compileProfileFromContract drop_table plain_adapter) no_result.

Lemma destructive_is_blocked_witness : blocked drop_table_result = true.
Proof.
  destruct (destructive_is_blocked plain_adapter drop_table drop_table_result) as [H _];
    [left | right | vm_compute; reflexivity | exact H].
  split; apply Forall_forall; repeat constructor.
Defined.

(** Any text with the letters of the keyword counts: a constraint that forbids "unauthorized" access
    authorizes a destructive change, and "forms" makes an optimization measurable. *)
Lemma unauthorized_authorizes :
  destructiveAuthorized (sample_contract None k_feature [flag_destructive] [u "No unauthorized deletions"]) = true.
Proof. vm_compute. reflexivity. Qed.

Lemma forms_are_measurable :
  measurableAcceptance (mkContract None k_feature (u "speed up") [] [] [] []
    [mkCriterion (u "AC-1") (u "all forms load") [v_review] [e_review]] [] false false []) = true.
Proof. vm_compute. reflexivity. Qed.

(** Flags that attach the same reviewer twice with another gate in between never compile. *)
Lemma public_auth_crosscutting_refused :
  selectWorkflowProfile (CommandSpec := unit)
    (mkSignals k_feature [flag_public_api; flag_auth; flag_multi_subsystem] true false false false false true false)
  = Err PROFILE_CYCLE.
Proof. vm_compute. reflexivity. Qed.

Lemma urgent_security_fix_refused :
  compileProfileFromContract
    (sample_contract None k_bugfix [flag_production_impact; flag_auth; flag_emergency] [u "rollback is tested"])
    plain_adapter = Err PROFILE_CYCLE.
Proof. vm_compute. reflexivity. Qed.
