(* ===== verification/Requirements.v ===== *)
(** LedgerRequirement identifiers and the projection of a task contract to a requirement ledger
    (packages/domain/src/requirement-projection.ts). *)

From Stdlib Require Import String.
From S2P Require Import Prelude JsText CanonicalJson CanonicalJsonTheorems Digest DigestTheorems ChangeApply DagEngine ProfileCompose JsJson.
Open Scope string_scope.
Open Scope list_scope.

Inductive ReqErr : Set := REQ_DIGEST (e : DigestErr) | REQ_LENGTH | REQ_BRAND.

Definition of_digest {A} (c : result DigestErr A) : result ReqErr A :=
  match c with Ok a => Ok a | Err e => Err (REQ_DIGEST e) end.

Inductive RequirementPriority : Set := MUST | SHOULD.

Section Projection.
Context `{D : Doubles} `{Hashing} {SourceRef : Type}.

Definition requirement_payload (k statement : ustr) : jsvalue :=
  VObj [str "kind" k; (u "sourceRanges", VArr []); str "verbatimQuote" statement].

Definition requirementIdFromStatement (k statement : ustr) : result ReqErr ustr :=
  let? digest := of_digest (taggedHash "requirement-id" 1 (requirement_payload k statement)) in
  match sha256HexToCrockford32 (drop (length (u "sha256:")) digest) with
  | None => Err REQ_LENGTH
  | Some body =>
      let value := u "req_" ++ body in
      throw_if negb (isRequirementId value) with REQ_BRAND; Ok value
  end.

(** A requirement of the ledger; state [CLEAR], kind [authoritative], source [USER_EXPLICIT] and
    [normative] are the same constants for all of them. *)
Record LedgerRequirement := mkRequirement {
  requirementId : ustr;
  requirement_text : ustr;
  requirement_sourceRefs : list SourceRef;
  priority : RequirementPriority
}.

Record OpenQuestion := mkQuestion { question_id : ustr; question : ustr; question_sourceRefs : list SourceRef }.

Record RequirementLedger := mkRequirementLedger {
  rl_runId : ustr;
  originalRequest : ustr;
  originalRequestDigest : Digest;
  requirements : list LedgerRequirement;
  nonGoals : list LedgerRequirement;
  openQuestions : list OpenQuestion
}.

(** The statement a criterion's identifier is derived from. *)
Definition criterion_key (c : AcceptanceCriterion) : ustr := criterion_id c ++ [COLON] ++ statement c.

Definition projectContractToLedger (runId request : ustr) (contract : TaskContract) (refs : list SourceRef)
    : result ReqErr RequirementLedger :=
  let? reqs := rmap (fun c => let? i := requirementIdFromStatement (u "authoritative") (criterion_key c) in
    Ok (mkRequirement i (statement c) refs MUST)) (acceptanceCriteria contract) in
  let? goals := rmap (fun text => let? i := requirementIdFromStatement (u "non-goal") text in
    Ok (mkRequirement i text refs SHOULD)) (outOfScope contract) in
  Ok (mkRequirementLedger runId request (sha256Utf8 request) reqs goals
    (imap (fun index q => mkQuestion (u "q-" ++ int_toString (Z.of_nat index + 1)) q refs) (blockingQuestions contract))).
End Projection.
Arguments LedgerRequirement : clear implicits.
Arguments OpenQuestion : clear implicits.
Arguments RequirementLedger : clear implicits.

Section Identifiers.
Context `{D : Doubles} {L : DoublesLaws} {HH : Hashing}.

(** [hash.digest("hex")] of SHA-256: 64 lower-case hexadecimal digits. *)
Hypothesis sha256_wellformed : forall bs, wellformed_hex (sha256_hex bs).

Lemma requirement_payload_good k s : units16 k -> units16 s -> good (requirement_payload k s).
Proof.
  intros Hk Hs. apply good_obj. split; [apply (bool_decide_unpack _); vm_compute; exact I|].
  repeat constructor; cbn [fst snd]; try apply u_units; done.
Qed.

Lemma taggedHash_tail dom v p h : taggedHash dom v p = Ok h -> exists bs, drop (length (u "sha256:")) h = sha256_hex bs.
Proof. unfold taggedHash. intros H. repeat inv_ok_step. subst h. eexists. reflexivity. Qed.

Lemma prefix_inj (h h' : Digest) dom v p dom' v' p' :
  taggedHash dom v p = Ok h -> taggedHash dom' v' p' = Ok h' ->
  drop (length (u "sha256:")) h = drop (length (u "sha256:")) h' -> h = h'.
Proof.
  unfold taggedHash. intros H H' Hd. repeat inv_ok_step. subst h h'. unfold sha256Utf8, sha256Hex in *. f_equal. exact Hd.
Qed.

Lemma requirementId_shape k s i : requirementIdFromStatement k s = Ok i ->
  exists h body, taggedHash "requirement-id" 1 (requirement_payload k s) = Ok h /\
    sha256HexToCrockford32 (drop (length (u "sha256:")) h) = Some body /\ i = u "req_" ++ body /\ isRequirementId i = true.
Proof.
  unfold requirementIdFromStatement. intros H. apply rbind_ok in H as (h & Hh & H).
  destruct (sha256HexToCrockford32 _) as [body|] eqn:E; [|done].
  destruct (isRequirementId _) eqn:Ei; [|done]. injection H as <-.
  exists h, body. split_and!; [|done..]. destruct (taggedHash _ _ _); [by injection Hh as ->|done].
Qed.

(** SHA-256 collides on the texts hashed for two identifiers. *)
Definition id_collision (k s k' s' : ustr) : Prop :=
  tagged_collision "requirement-id" 1 (requirement_payload k s) "requirement-id" 1 (requirement_payload k' s').

(** Two requirements with one identifier have the same kind and statement, or the hash collided. *)
Lemma requirementId_binding k s k' s' i :
  units16 k -> units16 s -> units16 k' -> units16 s' ->
  requirementIdFromStatement k s = Ok i -> requirementIdFromStatement k' s' = Ok i ->
  id_collision k s k' s' \/ (k = k' /\ s = s').
Proof using All.
  intros Hk Hs Hk' Hs' H H'. apply requirementId_shape in H as (h & b & Hh & Hb & -> & _).
  apply requirementId_shape in H' as (h' & b' & Hh' & Hb' & E & _).
  apply app_inv_head in E as <-.
  destruct (taggedHash_tail _ _ _ _ Hh) as [bs Ebs]. destruct (taggedHash_tail _ _ _ _ Hh') as [bs' Ebs'].
  assert (h = h') as <-.
  { eapply prefix_inj; [exact Hh | exact Hh'|]. rewrite Ebs, Ebs' in *. by eapply crockford_inj. }
  destruct (taggedHash_binding _ _ _ _ _ _ _ (requirement_payload_good k s Hk Hs)
    (requirement_payload_good k' s' Hk' Hs') Hh Hh') as [?|(_ & _ & _ & Hf)]; [by left|right].
  destruct Hf as (fs & fs' & E1 & E2 & Hf); [done|]. injection E1 as <-. injection E2 as <-.
  pose proof (Hf (u "kind")) as H1. pose proof (Hf (u "verbatimQuote")) as H2.
  split; [by injection H1 | by injection H2].
Qed.

(** A statement of well-formed Unicode gets an identifier, and it is a valid one. *)
Lemma requirementId_total k s :
  hasUnpairedSurrogate k = false -> hasUnpairedSurrogate s = false -> units16 k -> units16 s ->
  exists i, requirementIdFromStatement k s = Ok i /\ isRequirementId i = true.
Proof using All.
  intros Hk Hs Uk Us. unfold requirementIdFromStatement.
  assert (exists h, taggedHash "requirement-id" 1 (requirement_payload k s) = Ok h) as [h Hh].
  { set (fs := [str "kind" k; (u "sourceRanges", VArr []); str "verbatimQuote" s]).
    assert (tagged_text "requirement-id" 1 (requirement_payload k s) =
      of_canon (canonicalize (Digest.envelope "requirement-id" 1 fs))) as Ht by reflexivity.
    assert (is_ok (canonicalize (Digest.envelope "requirement-id" 1 fs)) = true) as Hok.
    { unfold canonicalize. rewrite canonicalize_accepts.
      - cbn [printable Digest.envelope forallb fs str snd]. rewrite Hk, Hs. reflexivity.
      - split; [apply (bool_decide_unpack _); vm_compute; exact I|]. repeat split.
        apply (bool_decide_unpack _); vm_compute; exact I. }
    unfold taggedHash. rewrite Ht. destruct (canonicalize _) as [t|]; [by eexists | done]. }
  rewrite Hh. destruct (taggedHash_tail _ _ _ _ Hh) as [bs Ebs].
  destruct (crockford_some _ (sha256_wellformed bs)) as (body & Hb & Hl & Hc). cbn [of_digest rbind].
  rewrite Ebs, Hb. assert (isRequirementId (u "req_" ++ body) = true) as Hr;
    [|rewrite Hr; by exists (u "req_" ++ body)].
  unfold isRequirementId, isPrefixedCrockford32. change (drop (length (u "req_")) (u "req_" ++ body)) with body.
  rewrite Hc. rewrite bool_decide_true by done. done.
Qed.

Lemma projected {A SourceRef} (k : ustr) (key text : A -> ustr) (refs : list SourceRef) p xs reqs :
  rmap (fun x => let? i := requirementIdFromStatement k (key x) in Ok (mkRequirement i (text x) refs p)) xs = Ok reqs ->
  map requirement_text reqs = map text xs /\
  Forall2 (fun x r => requirementIdFromStatement k (key x) = Ok (requirementId r)) xs reqs.
Proof.
  rewrite rmap_ok. induction 1 as [|x r xs reqs Hx _ [IH1 IH2]]; [done|].
  apply rbind_ok in Hx as (i & Hi & Hx). injection Hx as <-. split; [cbn; by rewrite IH1 | by constructor].
Qed.

Lemma projected_valid {A SourceRef} (k : ustr) (key : A -> ustr) (xs : list A) (reqs : list (LedgerRequirement SourceRef)) :
  Forall2 (fun x r => requirementIdFromStatement k (key x) = Ok (requirementId r)) xs reqs ->
  Forall (fun r => isRequirementId (requirementId r) = true) reqs.
Proof.
  induction 1 as [|x r xs reqs Hx _ IH]; constructor; [|done].
  by apply requirementId_shape in Hx as (h & body & _ & _ & _ & Hv).
Qed.

Lemma question_texts {SourceRef} (refs : list SourceRef) qs : forall f : nat -> ustr,
  map question (imap (fun i q => mkQuestion (f i) q refs) qs) = qs.
Proof. induction qs as [|q qs IH]; intros f; [done|]. rewrite imap_cons. cbn [map question]. f_equal. apply (IH (f ∘ S)). Qed.

(** The requirement ledger lists the acceptance criteria, the exclusions and the questions of the
    contract in order, each requirement under a valid identifier.  Identifiers identify: unless
    SHA-256 collides on the two texts hashed, no requirement shares its identifier with a non-goal, and two criteria with one
    identifier have the same id and statement joined by a colon. *)
Theorem requirement_ledger_faithful {SourceRef} run request (c : TaskContract) (refs : list SourceRef) ledger :
  Forall (fun a => units16 (criterion_key a)) (acceptanceCriteria c) -> Forall units16 (outOfScope c) ->
  projectContractToLedger run request c refs = Ok ledger ->
  map requirement_text (requirements ledger) = map statement (acceptanceCriteria c) /\
  map requirement_text (nonGoals ledger) = outOfScope c /\
  map question (openQuestions ledger) = blockingQuestions c /\
  Forall (fun r => isRequirementId (requirementId r) = true) (requirements ledger ++ nonGoals ledger) /\
  (forall i j a t r g, acceptanceCriteria c !! i = Some a -> outOfScope c !! j = Some t ->
     requirements ledger !! i = Some r -> nonGoals ledger !! j = Some g -> requirementId r = requirementId g ->
     id_collision (u "authoritative") (criterion_key a) (u "non-goal") t) /\
  (forall i j a b r t, acceptanceCriteria c !! i = Some a -> acceptanceCriteria c !! j = Some b ->
     requirements ledger !! i = Some r -> requirements ledger !! j = Some t -> requirementId r = requirementId t ->
     id_collision (u "authoritative") (criterion_key a) (u "authoritative") (criterion_key b) \/ criterion_key a = criterion_key b).
Proof using All.
  intros Hu Hg H. unfold projectContractToLedger in H.
  apply rbind_ok in H as (reqs & Hr & H). apply rbind_ok in H as (goals & Hn & H). apply (inj Ok) in H as <-.
  cbn [requirements nonGoals openQuestions].
  apply (projected (u "authoritative") criterion_key statement) in Hr as [Tr Fr].
  apply (projected (u "non-goal") (fun t => t) (fun t => t)) in Hn as [Tn Fn]. rewrite map_id in Tn.
  rewrite Forall_forall in Hu. pose proof (proj1 (Forall_forall _ _) Hg) as Hg'. split_and!; [done | done | | | |].
  - apply question_texts.
  - apply Forall_app. split; [exact (projected_valid _ _ _ _ Fr) | exact (projected_valid _ _ _ _ Fn)].
  - intros i j a t r g Ha Ht Hi Hj He.
    pose proof (Forall2_lookup_lr _ _ _ _ _ _ Fr Ha Hi) as Ra. pose proof (Forall2_lookup_lr _ _ _ _ _ _ Fn Ht Hj) as Rt.
    cbv beta in Ra, Rt. rewrite He in Ra. destruct (requirementId_binding _ _ _ _ _ (u_units _) (Hu a (list_elem_of_lookup_2 _ _ _ Ha)) (u_units _)
      (Hg' t (list_elem_of_lookup_2 _ _ _ Ht)) Ra Rt) as [?|[Hk _]]; [done|]. vm_compute in Hk. discriminate Hk.
  - intros i j a b r t Ha Hb Hri Htj He.
    pose proof (Forall2_lookup_lr _ _ _ _ _ _ Fr Ha Hri) as Ra. pose proof (Forall2_lookup_lr _ _ _ _ _ _ Fr Hb Htj) as Rb.
    cbv beta in Ra, Rb. rewrite He in Ra.
    pose proof (Hu a (list_elem_of_lookup_2 _ _ _ Ha)) as Ua. pose proof (Hu b (list_elem_of_lookup_2 _ _ _ Hb)) as Ub.
    destruct (requirementId_binding (u "authoritative") (criterion_key a) (u "authoritative") (criterion_key b) _
      (u_units _) Ua (u_units _) Ub Ra Rb) as [Hc|[_ Hk]]; [left; exact Hc | right; exact Hk].
Qed.
End Identifiers.

(** Criterion ids may contain a colon, and then two criteria with different ids and statements share
    one requirement identifier. *)
Lemma colon_merges_criteria `{Doubles} `{Hashing} v e :
  let a := mkCriterion (u "a") (u "b:c") v e in let b := mkCriterion (u "a:b") (u "c") v e in
  criterion_id a <> criterion_id b /\
  requirementIdFromStatement (u "authoritative") (criterion_key a) =
  requirementIdFromStatement (u "authoritative") (criterion_key b).
Proof. split; [vm_compute; discriminate | reflexivity]. Qed.

(** ** A concrete instance *)

#[local] Existing Instance half_doubles.
#[local] Existing Instance half_laws.

Definition length_hash : Hashing :=
  {| sha256_hex := fun bs => let n := N.of_nat (length bs) in
       [hex_digit (n mod 16); hex_digit ((n / 16) mod 16)]%N ++ replicate 62 48%N |}.
#[local] Existing Instance length_hash.

Lemma length_hash_wellformed bs : wellformed_hex (sha256_hex bs).
Proof.
  split; [reflexivity|]. cbn [sha256_hex length_hash].
  assert (forall n, (n < 16)%N -> is_hex (hex_digit n) = true) as Hd.
  { intros n Hn. unfold is_hex, hex_digit. destruct (n <? 10)%N eqn:E; [apply N.ltb_lt in E | apply N.ltb_ge in E].
    - rewrite (proj2 (N.leb_le 48 _)), (proj2 (N.leb_le _ 57)) by lia. done.
    - rewrite (proj2 (N.leb_le 97 _)), (proj2 (N.leb_le _ 102)) by lia. cbn. by rewrite orb_true_r. }
  cbn [forallb app]. rewrite !Hd by (apply N.mod_lt; lia). reflexivity.
Qed.

Definition two_criteria : TaskContract :=
  mkContract None k_feature (u "o") [] [u "no UI"] [] []
    [mkCriterion (u "A1") (u "it works") [v_test] [e_command]; mkCriterion (u "A2") (u "it is fast enough") [v_test] [e_diff]]
    [] false false [u "which port?"].

Definition two_ledger : RequirementLedger nat :=
  match projectContractToLedger (u "run") (u "do it") two_criteria [7] with
  | Ok l => l
  | Err _ => mkRequirementLedger [] [] [] [] [] []
  end.

Lemma requirement_ledger_faithful_witness :
  map requirement_text (requirements two_ledger) = [u "it works"; u "it is fast enough"] /\
  Forall (fun r => isRequirementId (requirementId r) = true) (requirements two_ledger ++ nonGoals two_ledger).
Proof.
  destruct (requirement_ledger_faithful length_hash_wellformed (u "run") (u "do it") two_criteria [7] two_ledger)
    as (H1 & _ & _ & H4 & _).
  - repeat constructor.
  - repeat constructor.
  - vm_compute. reflexivity.
  - split; [exact H1 | exact H4].
Defined.
