(* ===== verification/Delivery.v ===== *)
(** Delivery decisions of packages/domain/src: the acceptance ledger and the definition of done
    (acceptance.ts), integration of change shards (integration.ts), progress fingerprints and the
    no-progress detector (no-progress.ts), repair convergence (repair-convergence.ts), failure codes
    (failures.ts), mandatory skills (skill-rules.ts) and worker artifact validation
    (artifact-validation.ts). *)

From Stdlib Require Import String.
From S2P Require Import Prelude JsText CanonicalJson Digest RelativePath ChangeApply DagEngine ProfileCompose.
Open Scope string_scope.
Open Scope list_scope.

(** ** acceptance.ts *)

Record CommandEvidence := mkCommandEvidence { evidenceId : ustr; exitCode : Z; stdoutDigest : Digest }.
Record ReviewFindings := mkReview { blocking : bool }.

Record CriterionEvidenceInput := mkEvidenceInput {
  contract : TaskContract;
  contractRevision : Z;
  integrationCommit : ustr;
  commandEvidence : list CommandEvidence;
  reviewFindings : list ReviewFindings;
  diffPaths : list ustr;
  specUpdateSatisfied : bool;
  blockingFindings : bool;
  preExistingFailures : list ustr
}.

Inductive CriterionStatus : Set := proven | unproven_status.
#[export] Instance CriterionStatus_eq_dec : EqDecision CriterionStatus.
Proof. solve_decision. Defined.

Record LedgerCriterion := mkLedgerCriterion { lc_id : ustr; lc_status : CriterionStatus; lc_evidence : list ustr }.

Record AcceptanceLedger := mkLedger {
  ledger_contractRevision : Z;
  ledger_integrationCommit : ustr;
  criteria : list LedgerCriterion;
  unproven : list ustr;
  ledger_preExistingFailures : list ustr;
  closed : bool
}.

(** The evidence strings collected for one criterion, in the order they are pushed. *)
Definition criterionEvidence (input : CriterionEvidenceInput) (c : AcceptanceCriterion) : list ustr :=
  let command := if includes e_command (requiredEvidence c) then
      match array_find (fun item => (exitCode item =? 0)%Z) (commandEvidence input) with
      | Some m => [u "cmd:" ++ evidenceId m ++ u ":" ++ stdoutDigest m]
      | None => []
      end else [] in
  let diff := if includes e_diff (requiredEvidence c) && negb (bool_decide (diffPaths input = [])) then
      [u "diff:" ++ integrationCommit input ++ u ":" ++ default [] (head (diffPaths input))] else [] in
  let review := if includes e_review (requiredEvidence c) then
      if forallb (fun report => negb (blocking report)) (reviewFindings input)
      then [u "review:correctness:resolved"] else [] else [] in
  command ++ diff ++ review.

Definition criterionLedger (input : CriterionEvidenceInput) (c : AcceptanceCriterion) : LedgerCriterion :=
  let evidence := criterionEvidence input c in
  let has_prefix p := existsb (startsWith p) evidence in
  let is_proven :=
    (negb (includes e_command (requiredEvidence c)) || has_prefix (u "cmd:")) &&
    (negb (includes e_diff (requiredEvidence c)) || has_prefix (u "diff:")) &&
    (negb (includes e_review (requiredEvidence c)) || has_prefix (u "review:")) &&
    negb (blockingFindings input) in
  mkLedgerCriterion (criterion_id c) (if is_proven then proven else unproven_status) evidence.

Definition compileAcceptanceLedger (input : CriterionEvidenceInput) : AcceptanceLedger :=
  let criteria := map (criterionLedger input) (acceptanceCriteria (contract input)) in
  let unproven := map lc_id (List.filter (fun item => negb (bool_decide (lc_status item = proven))) criteria) in
  let closed := bool_decide (unproven = []) && negb (blockingFindings input) && specUpdateSatisfied input &&
    negb (bool_decide (integrationCommit input = [])) in
  mkLedger (contractRevision input) (integrationCommit input) criteria unproven (preExistingFailures input) closed.

Record DoneInput := mkDone {
  contractValid : bool;
  ledger : AcceptanceLedger;
  done_integrationCommit : ustr;
  baselineCommit : ustr;
  outOfScopeChanges : bool;
  gatesPassed : bool;
  done_blockingFindings : bool;
  freshReviewAfterRepair : bool;
  specSatisfied : bool;
  userTreeUntouched : bool
}.

Definition definitionOfDoneSatisfied (i : DoneInput) : bool :=
  contractValid i && closed (ledger i) && bool_decide (unproven (ledger i) = []) &&
  negb (bool_decide (done_integrationCommit i = [])) && negb (bool_decide (baselineCommit i = [])) &&
  negb (outOfScopeChanges i) && gatesPassed i && negb (done_blockingFindings i) &&
  freshReviewAfterRepair i && specSatisfied i && userTreeUntouched i.

(** ** integration.ts *)

Record ChangeShard := mkShard {
  shard_id : ustr;
  files : list ustr;
  generatedOutputs : list ustr;
  sharedResources : list ustr;
  shard_dependsOn : list ustr
}.

Record ChangeManifest := mkManifest { manifest_changedPaths : list ustr; allowedPaths : list ustr }.

Record IntegrationCheck := mkIntegrationCheck {
  ic_ok : bool;
  ic_outOfScope : list ustr;
  conflictMarkers : list ustr;
  sharedResourceCollision : bool
}.

Definition pathsOutsideScope (changed allowed : list ustr) : list ustr :=
  if bool_decide (allowed = []) then [] else
  List.filter (fun p => negb (existsb (fun a => bool_decide (p = a) || startsWith (a ++ [SLASH]) p) allowed)) changed.

(** [contents] lists the entries of the record in the order of [Object.entries]. *)
Definition detectConflictMarkers (contents : list (ustr * ustr)) : list ustr :=
  map fst (List.filter (fun e => includes_text (u "<<<<<<<") e.2 || includes_text (u ">>>>>>>") e.2) contents).

Definition shard_resources (s : ChangeShard) : list ustr := files s ++ sharedResources s ++ generatedOutputs s.

(** The inner loop over the resources of one shard: [None] is the early [return true]. *)
Fixpoint see_resources (seen : list ustr) (rs : list ustr) : option (list ustr) :=
  match rs with
  | [] => Some seen
  | r :: rest => if includes r seen then None else see_resources (setAdd seen r) rest
  end.

Fixpoint see_shards (seen : list ustr) (shards : list ChangeShard) : bool :=
  match shards with
  | [] => false
  | s :: rest => match see_resources seen (shard_resources s) with
                 | None => true
                 | Some seen' => see_shards seen' rest
                 end
  end.

Definition shardsShareResources (shards : list ChangeShard) : bool := see_shards [] shards.

Definition checkIntegration (manifest : ChangeManifest) (fileContents : list (ustr * ustr))
    (shards : option (list ChangeShard)) : IntegrationCheck :=
  let outOfScope := pathsOutsideScope (manifest_changedPaths manifest) (allowedPaths manifest) in
  let markers := detectConflictMarkers fileContents in
  let collision := match shards with None => false | Some ss => shardsShareResources ss end in
  mkIntegrationCheck (bool_decide (outOfScope = []) && bool_decide (markers = []) && negb collision)
    outOfScope markers collision.

Inductive ShardErr : Set := SHARD_CYCLE | SHARD_FUEL.

Definition Remaining : Type := list (ustr * ChangeShard).

(** [new Map(shards.map((shard) => [shard.id, shard]))] *)
Definition index_shards (shards : list ChangeShard) : Remaining :=
  foldl (fun m s => JsMap.set (shard_id s) s m) [] shards.

Definition ready_shards (remaining : Remaining) : list ChangeShard :=
  List.filter (fun s => forallb (fun dep => negb (JsMap.has dep remaining)) (shard_dependsOn s))
    (JsMap.values remaining).

Fixpoint order_loop (fuel : nat) (remaining : Remaining) (ordered : list ustr) : result ShardErr (list ustr) :=
  match remaining with
  | [] => Ok ordered
  | _ =>
      match fuel with
      | O => Err SHARD_FUEL
      | S n =>
          let ready := ready_shards remaining in
          throw_if bool_decide (length ready = 0) with SHARD_CYCLE;
          let sorted := sort_by (fun l r => utf16_leb (shard_id l) (shard_id r)) ready in
          order_loop n (foldl (fun m s => JsMap.del (shard_id s) m) remaining sorted) (ordered ++ map shard_id sorted)
      end
  end.

Definition shardOrder (shards : list ChangeShard) : result ShardErr (list ustr) :=
  order_loop (length shards) (index_shards shards) [].

(** ** no-progress.ts *)

Inductive VectorStatus : Set := OB_PASS | OB_FAIL | OB_UNKNOWN.
Record ObligationStatusEntry := mkObligationStatus { obligationId : ustr; ob_status : VectorStatus }.

Record ProgressFingerprintInput := mkProgress {
  pf_baseSnapshotId : ustr;
  pf_baseSnapshotRootDigest : Digest;
  pf_operations : list ChangeOperation;
  pf_materializedTreeDigest : Digest;
  obligationStatusVector : list ObligationStatusEntry;
  failureSignatures : list ustr;
  evidenceRootDigest : Digest
}.

Inductive NoProgressReason : Set :=
| FINGERPRINT_REPEATED | FINGERPRINT_CYCLE | CHANGESET_WITHOUT_DELTA | CANDIDATE_MISSES_CAUSAL_SLICE
| PRESERVED_OBLIGATION_REGRESSION | CLOUD_RESULT_REPEATED.
#[export] Instance NoProgressReason_eq_dec : EqDecision NoProgressReason.
Proof. solve_decision. Defined.

Section Fingerprints.
Context `{Doubles} `{Hashing} `{Unicode}.

Definition normalizeChangeOperations (ops : list ChangeOperation) : list ChangeOperation :=
  map normalizeChangeOperation ops.

Definition obligation_json (e : ObligationStatusEntry) : jsvalue :=
  VObj [str "obligationId" (obligationId e);
        str "status" (u match ob_status e with OB_PASS => "PASS" | OB_FAIL => "FAIL" | OB_UNKNOWN => "UNKNOWN" end)].

Definition fingerprint_payload (input : ProgressFingerprintInput) (normalized : Digest) : jsvalue :=
  VObj [str "baseSnapshotRootDigest" (pf_baseSnapshotRootDigest input);
        str "normalizedChangeSetDigest" normalized;
        str "materializedTreeDigest" (pf_materializedTreeDigest input);
        (u "obligationStatusVector", VArr (map obligation_json
           (sort_by (fun l r => utf16_leb (obligationId l) (obligationId r)) (obligationStatusVector input))));
        (u "failureSignatures", VArr (map VStr (sort_by utf16_leb (failureSignatures input))));
        str "evidenceRootDigest" (evidenceRootDigest input)].

Definition computeStateFingerprint (input : ProgressFingerprintInput) : result DigestErr Digest :=
  let? normalized := computeNormalizedChangeSetDigest
    (mkChangeSet (pf_baseSnapshotId input) (pf_baseSnapshotRootDigest input) (pf_operations input)) in
  rfc8785Digest (fingerprint_payload input normalized).

Definition changesetHasNormalizedDelta (ops : list ChangeOperation) : bool :=
  (0 <? length (normalizeChangeOperations ops))%nat.
End Fingerprints.

Record ProgressObservation := mkObservation {
  fingerprint : Digest;
  hasNormalizedDelta : bool;
  touchesCausalSliceOrAddsEvidence : bool;
  regressesPreservedPassingObligations : bool;
  cloudResultRepeated : bool
}.

Definition detectNoProgress (o : ProgressObservation) (previous : list Digest) : option NoProgressReason :=
  if negb (hasNormalizedDelta o) then Some CHANGESET_WITHOUT_DELTA else
  if bool_decide (last previous = Some (fingerprint o)) then Some FINGERPRINT_REPEATED else
  if includes (fingerprint o) previous then Some FINGERPRINT_CYCLE else
  if negb (touchesCausalSliceOrAddsEvidence o) then Some CANDIDATE_MISSES_CAUSAL_SLICE else
  if regressesPreservedPassingObligations o then Some PRESERVED_OBLIGATION_REGRESSION else
  if cloudResultRepeated o then Some CLOUD_RESULT_REPEATED else
  None.

Definition isTemporaryCloudWait (k : ustr) : bool :=
  bool_decide (k = u "not-dispatched") || bool_decide (k = u "waiting-provider") || bool_decide (k = u "outcome-unknown").

(** ** repair-convergence.ts *)

Record FailureFingerprint := mkFailure { ff_digest : Digest; cycle : Z }.

Definition COMMA : N := 44.
Definition BAR : N := 124.

(** The text that is hashed. *)
Definition failure_text (nodeId : ustr) (findingIds : list ustr) (exitCodes : list Z) : ustr :=
  nodeId ++ [BAR] ++ join_unit COMMA (sort_by utf16_leb findingIds) ++ [BAR] ++ join_unit COMMA (map int_toString exitCodes).

Definition failureFingerprint `{Hashing} (nodeId : ustr) (findingIds : list ustr) (exitCodes : list Z) : Digest :=
  sha256Utf8 (failure_text nodeId findingIds exitCodes).

(** [history.slice(-2)] *)
Definition lastTwo {A} (l : list A) : list A := drop (length l - 2) l.

Definition shouldChangeStrategy (history : list FailureFingerprint) (nextDigest : Digest) : bool :=
  bool_decide (length (lastTwo history) = 2) &&
  forallb (fun item => bool_decide (ff_digest item = nextDigest)) (lastTwo history).

(** ** failures.ts *)

Definition FAILURE_CODES : list string :=
  ["REQ_AMBIGUOUS"; "REQ_CONFLICT"; "REQ_UNPROVABLE"; "REQ_MISSING_EXPECTATION";
   "REQ_ALREADY_SATISFIED"; "BASE_STALE"; "BASE_INCOMPLETE"; "BASE_PREEXISTING_FAIL";
   "BASE_NON_REPRODUCIBLE"; "BASE_SECRET_UNAVAILABLE"; "ENV_SETUP"; "ENV_TOOLCHAIN"; "ENV_DEPENDENCY";
   "ENV_NETWORK"; "ENV_SERVICE"; "ENV_SECRET"; "ENV_PERMISSION"; "ENV_RESOURCE"; "ENV_DEVICE";
   "ENV_CLOCK"; "PATCH_MALFORMED"; "PATCH_APPLY"; "PATCH_SCOPE"; "PATCH_SYNTAX"; "PATCH_BUILD";
   "PATCH_STATIC"; "PATCH_FUNCTIONAL"; "PATCH_REGRESSION"; "PATCH_CRASH"; "PATCH_TIMEOUT";
   "PATCH_CONCURRENCY"; "PATCH_PERFORMANCE"; "PATCH_SECURITY"; "TEST_INVALID_ORACLE"; "TEST_NOT_RED";
   "TEST_WRONG_RED_REASON"; "TEST_NO_ASSERTION"; "TEST_NOT_COLLECTED"; "TEST_SKIP_ADDED";
   "TEST_WEAKENED"; "TEST_RUNNER_TAMPER"; "TEST_HARDCODE"; "TEST_ORDER_POLLUTION"; "TEST_FLAKY";
   "TEST_SNAPSHOT_SELF_APPROVED"; "TEST_RELEVANT_MUTANT_SURVIVED"; "COMPAT_SOURCE"; "COMPAT_SEMANTIC";
   "COMPAT_WIRE"; "COMPAT_ABI"; "COMPAT_SCHEMA"; "COMPAT_DATA"; "MIGRATION_FORWARD";
   "MIGRATION_MIXED_VERSION"; "MIGRATION_ROLLBACK"; "VISUAL_DIFF"; "VISUAL_NO_ORACLE";
   "VISUAL_NONDETERMINISTIC"; "BROWSER_INTERACTION"; "ACCESSIBILITY"; "MOBILE_LIFECYCLE";
   "PLATFORM_DIVERGENCE"; "GAMING_PROTECTED_PATH"; "GAMING_TEST_FILTER"; "GAMING_ENV_SNIFF";
   "GAMING_OUTPUT_FORGERY"; "EVIDENCE_TAMPER"; "MODEL_PROTOCOL_ERROR"; "MODEL_CONTEXT_MISSING";
   "MODEL_NO_DELTA"; "VERIFIER_INTERNAL"].

(** The cases of the switch that return the code. *)
Definition FAILURE_CASES : list string :=
  ["REQ_AMBIGUOUS"; "REQ_CONFLICT"; "REQ_UNPROVABLE"; "REQ_MISSING_EXPECTATION";
   "REQ_ALREADY_SATISFIED"; "BASE_STALE"; "BASE_INCOMPLETE"; "BASE_PREEXISTING_FAIL";
   "BASE_NON_REPRODUCIBLE"; "BASE_SECRET_UNAVAILABLE"; "ENV_SETUP"; "ENV_TOOLCHAIN"; "ENV_DEPENDENCY";
   "ENV_NETWORK"; "ENV_SERVICE"; "ENV_SECRET"; "ENV_PERMISSION"; "ENV_RESOURCE"; "ENV_DEVICE";
   "ENV_CLOCK"; "PATCH_MALFORMED"; "PATCH_APPLY"; "PATCH_SCOPE"; "PATCH_SYNTAX"; "PATCH_BUILD";
   "PATCH_STATIC"; "PATCH_FUNCTIONAL"; "PATCH_REGRESSION"; "PATCH_CRASH"; "PATCH_TIMEOUT";
   "PATCH_CONCURRENCY"; "PATCH_PERFORMANCE"; "PATCH_SECURITY"; "TEST_INVALID_ORACLE"; "TEST_NOT_RED";
   "TEST_WRONG_RED_REASON"; "TEST_NO_ASSERTION"; "TEST_NOT_COLLECTED"; "TEST_SKIP_ADDED";
   "TEST_WEAKENED"; "TEST_RUNNER_TAMPER"; "TEST_HARDCODE"; "TEST_ORDER_POLLUTION"; "TEST_FLAKY";
   "TEST_SNAPSHOT_SELF_APPROVED"; "TEST_RELEVANT_MUTANT_SURVIVED"; "COMPAT_SOURCE"; "COMPAT_SEMANTIC";
   "COMPAT_WIRE"; "COMPAT_ABI"; "COMPAT_SCHEMA"; "COMPAT_DATA"; "MIGRATION_FORWARD";
   "MIGRATION_MIXED_VERSION"; "MIGRATION_ROLLBACK"; "VISUAL_DIFF"; "VISUAL_NO_ORACLE";
   "VISUAL_NONDETERMINISTIC"; "BROWSER_INTERACTION"; "ACCESSIBILITY"; "MOBILE_LIFECYCLE";
   "PLATFORM_DIVERGENCE"; "GAMING_PROTECTED_PATH"; "GAMING_TEST_FILTER"; "GAMING_ENV_SNIFF";
   "GAMING_OUTPUT_FORGERY"; "EVIDENCE_TAMPER"; "MODEL_PROTOCOL_ERROR"; "MODEL_CONTEXT_MISSING";
   "MODEL_NO_DELTA"; "VERIFIER_INTERNAL"].

(** [None] is the error thrown for a value outside the union. *)
Definition assertKnownFailureCode (code : string) : option string :=
  if includes code FAILURE_CASES then Some code else None.

(** ** skill-rules.ts *)

Record SkillRule := mkSkillRule {
  rule_kinds : option (list TaskKind);
  rule_intents : option (list PrimaryIntent);
  rule_riskFlags : option (list RiskFlag);
  rule_overlays : option (list RiskOverlay);
  rule_behaviorChange : bool;
  skillIds : list ustr
}.

Definition when_kinds ks (s : list ustr) : SkillRule := mkSkillRule (Some ks) None None None false s.
Definition when_intents is_ (s : list ustr) : SkillRule := mkSkillRule None (Some is_) None None false s.
Definition when_flags fs (s : list ustr) : SkillRule := mkSkillRule None None (Some fs) None false s.
Definition when_overlays os (s : list ustr) : SkillRule := mkSkillRule None None None (Some os) false s.
Definition when_behaviorChange (s : list ustr) : SkillRule := mkSkillRule None None None None true s.

Definition HARD_SKILL_RULES : list SkillRule :=
  [when_kinds [k_bugfix] [u "debugging"; u "project-testing"];
   when_intents [bugfix; incident_response; diagnosis] [u "debugging"; u "project-testing"];
   when_kinds [k_refactor] [u "behavior-preservation"; u "project-architecture"];
   when_intents [refactor] [u "behavior-preservation"; u "project-architecture"];
   when_kinds [k_spec] [u "spec-read"; u "spec-write"];
   when_intents [specification; requirements; architecture_design] [u "spec-read"; u "spec-write"];
   when_behaviorChange [u "spec-read"; u "spec-write"];
   when_flags [flag_public_api] [u "api-compatibility"];
   when_overlays [o_public_api] [u "api-compatibility"];
   when_flags [flag_migration] [u "migration-safety"];
   when_overlays [o_migration; o_data_mutation] [u "migration-safety"];
   when_overlays [o_security_sensitive; o_authentication] [u "security-review"];
   when_intents [security_remediation] [u "security-review"; u "debugging"];
   when_intents [optimization] [u "performance-budget"]].

Record SkillInput := mkSkillInput {
  si_kind : TaskKind;
  si_riskFlags : list RiskFlag;
  si_behaviorChange : bool;
  si_primaryIntent : option PrimaryIntent;
  si_overlays : option (list RiskOverlay)
}.

(** The four [continue] guards and the last one, negated. *)
Definition ruleApplies (i : SkillInput) (r : SkillRule) : bool :=
  match rule_kinds r with Some ks => includes (si_kind i) ks | None => true end &&
  match rule_intents r with
  | Some is_ => match si_primaryIntent i with Some p => includes p is_ | None => false end
  | None => true
  end &&
  match rule_riskFlags r with Some fs => existsb (fun f => includes f (si_riskFlags i)) fs | None => true end &&
  match rule_overlays r with
  | Some os => match si_overlays i with Some given => existsb (fun o => includes o given) os | None => false end
  | None => true
  end &&
  negb (rule_behaviorChange r && negb (si_behaviorChange i)).

Definition mandatorySkillIdsFor (i : SkillInput) : list ustr :=
  sort_by utf16_leb
    (foldl (fun selected r => if ruleApplies i r then foldl setAdd selected (skillIds r) else selected) [] HARD_SKILL_RULES).

(** ** artifact-validation.ts *)

Record ArtifactValidationIssue := mkIssue { issue_path : ustr; message : ustr }.

(** [None] is [{ ok: true }]. *)
Definition ArtifactValidationResult : Type := option (list ArtifactValidationIssue).

Definition schemaFor (t : ArtifactType) : bool :=
  match t with
  | task_contract | investigation_report | implementation_plan | change_shards | change_manifest
  | review_findings | acceptance_ledger | reproduction_unavailable | spec_update_not_required => true
  | changeset | command_evidence | verdict_report => false
  end.

(** The loop over the criteria, with the ids seen so far. *)
Fixpoint duplicateCriteria (ids : list ustr) (cs : list AcceptanceCriterion) : list ArtifactValidationIssue :=
  match cs with
  | [] => []
  | c :: rest =>
      (if includes (criterion_id c) ids
       then [mkIssue (u "acceptanceCriteria") (u "duplicate criterion " ++ criterion_id c)] else []) ++
      duplicateCriteria (setAdd ids (criterion_id c)) rest
  end.

Definition measurable (cs : list AcceptanceCriterion) : bool :=
  existsb (fun c => let text := toLowerCase (statement c) in
    includes v_runtime (verification c) || includes v_test (verification c) ||
    includes_text (u "baseline") text || includes_text (u "latency") text || includes_text (u "throughput") text) cs.

Definition issue_if (b : bool) (p m : string) : list ArtifactValidationIssue := if b then [mkIssue (u p) (u m)] else [].

Definition logicalConflicts (c : TaskContract) : list ArtifactValidationIssue :=
  let intent := v2_primaryIntent <$> version2 c in
  duplicateCriteria [] (acceptanceCriteria c) ++
  issue_if (existsb (fun item => includes item (outOfScope c)) (inScope c)) "inScope" "inScope overlaps outOfScope" ++
  issue_if ((bool_decide (kind c = k_research) || bool_decide (intent = Some research)) && updateRequired c)
    "specPolicy" "research contract cannot require spec update" ++
  issue_if ((bool_decide (kind c = k_spec) || bool_decide (intent = Some specification)) && negb (updateRequired c))
    "specPolicy" "spec contract must require spec update" ++
  issue_if (bool_decide (intent = Some diagnosis) && behaviorChanges c)
    "specPolicy" "diagnosis contract cannot require a behavior change" ++
  issue_if (bool_decide (intent = Some optimization) && negb (measurable (acceptanceCriteria c)))
    "acceptanceCriteria" "optimization contract requires measurable acceptance criteria".

Definition roleMayProduce (r : AgentRole) (t : ArtifactType) : bool := includes t (ROLE_ARTIFACT_TYPES r).

Definition implementerMayNotAccept (r : AgentRole) (t : ArtifactType) : bool :=
  bool_decide (r = implementer) && bool_decide (t = review_findings).

Section Validation.
(** The compiled schemas of the TypeBox library: whether a payload satisfies the schema of an
    artifact type, the errors they list, and the contract a checked payload is. *)
Context {Payload : Type}.
Variable Check_ : ArtifactType -> Payload -> bool.
Variable Errors : ArtifactType -> Payload -> list (ustr * ustr).
Variable as_TaskContract : Payload -> TaskContract.

Record WorkerArtifactEnvelope := mkWorkerEnvelope {
  we_artifactType : ArtifactType;
  we_runId : ustr;
  we_nodeId : ustr;
  we_agentId : ustr;
  we_payload : Payload
}.

Record ExpectedWorker := mkExpected {
  ex_runId : ustr;
  ex_nodeId : ustr;
  ex_agentId : ustr;
  ex_artifactType : ArtifactType
}.

Definition payloadIssues (e : WorkerArtifactEnvelope) : list ArtifactValidationIssue :=
  if negb (Check_ (we_artifactType e) (we_payload e)) then
    let details := take 8 (Errors (we_artifactType e) (we_payload e)) in
    if bool_decide (details = []) then [mkIssue (u "payload") (u "payload failed JSON Schema")]
    else map (fun d => mkIssue (u "payload" ++ d.1) d.2) details
  else if bool_decide (we_artifactType e = task_contract) then logicalConflicts (as_TaskContract (we_payload e))
  else [].

Definition verdict_of (issues : list ArtifactValidationIssue) : ArtifactValidationResult :=
  match issues with [] => None | _ => Some issues end.

Definition validateWorkerEnvelope (e : WorkerArtifactEnvelope) (x : ExpectedWorker) : ArtifactValidationResult :=
  let issues :=
    issue_if (negb (bool_decide (we_runId e = ex_runId x))) "runId" "runId mismatch" ++
    issue_if (negb (bool_decide (we_nodeId e = ex_nodeId x))) "nodeId" "nodeId mismatch" ++
    issue_if (negb (bool_decide (we_agentId e = ex_agentId x))) "agentId" "agentId mismatch" ++
    issue_if (negb (bool_decide (we_artifactType e = ex_artifactType x))) "artifactType" "artifactType mismatch" in
  if negb (schemaFor (we_artifactType e)) then
    if bool_decide (we_artifactType e = changeset) || bool_decide (we_artifactType e = verdict_report)
    then verdict_of issues
    else Some (issues ++ [mkIssue (u "artifactType") (u "unsupported artifact type")])
  else verdict_of (issues ++ payloadIssues e).
End Validation.
