(* ===== verification/DeliveryTheorems.v ===== *)
(** Delivery decisions: the acceptance ledger closes exactly when every criterion has the evidence it
    asks for, integration accepts exactly disjoint, in-scope, marker-free changes, the shard order
    respects dependencies and always terminates, progress fingerprints never repeat, and a worker's
    artifact is accepted exactly when it matches its assignment. *)

From Stdlib Require Import String.
From S2P Require Import Prelude JsText CanonicalJson CanonicalJsonTheorems JsJson Digest RelativePath ChangeApply DagEngine ProfileCompose Delivery.
Open Scope string_scope.
Open Scope list_scope.

(** ** Acceptance *)

(** What the ledger looks for: one successful command, one changed path, no blocking review. *)
Record evidence_for (i : CriterionEvidenceInput) (c : AcceptanceCriterion) : Prop := {
  ef_command : e_command ∈ requiredEvidence c -> exists m, m ∈ commandEvidence i /\ exitCode m = 0%Z;
  ef_diff : e_diff ∈ requiredEvidence c -> diffPaths i <> [];
  ef_review : e_review ∈ requiredEvidence c -> Forall (fun r => blocking r = false) (reviewFindings i)
}.

Lemma find_success i :
  is_Some (array_find (fun item => (exitCode item =? 0)%Z) (commandEvidence i)) <->
  exists m, m ∈ commandEvidence i /\ exitCode m = 0%Z.
Proof.
  destruct (array_find _ _) as [m|] eqn:E.
  - apply array_find_some in E as [Hin Hp]. split; [|by eexists]. intros _. exists m. split; [done | by apply Z.eqb_eq].
  - pose proof (array_find_none _ _ E) as Hn. split; [intros []; done|]. intros (m & Hin & H0).
    specialize (Hn m Hin). cbn in Hn. by rewrite H0 in Hn.
Qed.

Lemma criterion_proven i c :
  lc_status (criterionLedger i c) = proven <-> evidence_for i c /\ blockingFindings i = false.
Proof.
  transitivity (
    (includes e_command (requiredEvidence c) = true -> is_Some (array_find (fun item => (exitCode item =? 0)%Z) (commandEvidence i))) /\
    (includes e_diff (requiredEvidence c) = true -> diffPaths i <> []) /\
    (includes e_review (requiredEvidence c) = true ->
       forallb (fun r => negb (blocking r)) (reviewFindings i) = true) /\
    blockingFindings i = false).
  - unfold criterionLedger, criterionEvidence. cbn [lc_status].
    destruct (includes e_command _), (includes e_diff _), (includes e_review _), (blockingFindings i),
      (array_find _ _), (diffPaths i), (forallb _ _); cbn; rewrite ?is_Some_None; unfold is_Some; naive_solver.
  - rewrite !includes_true, find_success, forallb_forall. split.
    + intros (H1 & H2 & H3 & H4). split; [|done]. constructor; [done | done|]. intros Hr. apply Forall_forall. intros r Hin.
      apply negb_true_iff. apply (H3 Hr). by apply list_elem_of_In.
    + intros [[H1 H2 H3] H4]. split_and!; [done | done | | done]. intros Hr r Hin. apply negb_true_iff.
      specialize (H3 Hr). rewrite Forall_forall in H3. by apply H3, list_elem_of_In.
Qed.

Lemma unproven_exact i cid :
  cid ∈ unproven (compileAcceptanceLedger i) <->
  exists c, c ∈ acceptanceCriteria (contract i) /\ criterion_id c = cid /\
    ~ (evidence_for i c /\ blockingFindings i = false).
Proof.
  cbn [unproven compileAcceptanceLedger]. rewrite list_elem_of_fmap. split.
  - intros (lc & -> & Hin). apply elem_of_List_filter in Hin as [Hin Hp].
    apply list_elem_of_fmap in Hin as (c & -> & Hc). exists c. split_and!; [done | done|].
    rewrite <- criterion_proven. by apply negb_true_iff, bool_decide_eq_false in Hp.
  - intros (c & Hc & <- & Hn). exists (criterionLedger i c). split; [done|]. apply elem_of_List_filter. split.
    + apply list_elem_of_fmap. by exists c.
    + apply negb_true_iff, bool_decide_eq_false. by rewrite criterion_proven.
Qed.

(** The acceptance ledger is closed exactly when no finding blocks, the specification is up to date,
    there is an integration commit and every criterion has the evidence it asks for; its list of
    unproven criteria is exactly the list of the others.  A run that satisfies the definition of done
    with that ledger therefore has evidence for every criterion. *)
Theorem acceptance_ledger_exact i :
  (closed (compileAcceptanceLedger i) = true <->
     blockingFindings i = false /\ specUpdateSatisfied i = true /\ integrationCommit i <> [] /\
     forall c, c ∈ acceptanceCriteria (contract i) -> evidence_for i c) /\
  (forall cid, cid ∈ unproven (compileAcceptanceLedger i) <->
     exists c, c ∈ acceptanceCriteria (contract i) /\ criterion_id c = cid /\
       ~ (evidence_for i c /\ blockingFindings i = false)) /\
  map lc_id (criteria (compileAcceptanceLedger i)) = map criterion_id (acceptanceCriteria (contract i)) /\
  (forall d, ledger d = compileAcceptanceLedger i -> definitionOfDoneSatisfied d = true ->
     forall c, c ∈ acceptanceCriteria (contract i) -> evidence_for i c).
Proof.
  assert (closed (compileAcceptanceLedger i) = true <->
     blockingFindings i = false /\ specUpdateSatisfied i = true /\ integrationCommit i <> [] /\
     forall c, c ∈ acceptanceCriteria (contract i) -> evidence_for i c) as Hc.
  { pose proof (unproven_exact i) as Hu. cbn [closed compileAcceptanceLedger unproven] in *.
    rewrite !andb_true_iff, !negb_true_iff, bool_decide_eq_true, bool_decide_eq_false. split.
    - intros [[[Hn Hb] Hs] Hi]. split_and!; [done..|]. intros c Hc. rewrite Hn in Hu.
      destruct (decide (lc_status (criterionLedger i c) = proven)) as [Hp|Hp]; [by apply criterion_proven in Hp as [? _]|].
      rewrite criterion_proven in Hp. exfalso. apply (not_elem_of_nil (criterion_id c)). apply Hu. by exists c.
    - intros (Hb & Hs & Hi & Hall). split_and!; [|done..]. apply elem_of_nil_inv. intros cid Hin.
      apply Hu in Hin as (c & Hc & _ & Hn). apply Hn. split; [by apply Hall | done]. }
  split_and!; [exact Hc | apply unproven_exact | cbn; by rewrite map_map |].
  intros d Hd Hdone c Hin. unfold definitionOfDoneSatisfied in Hdone. rewrite !andb_true_iff, Hd in Hdone.
  apply Hc; [|done]. tauto.
Qed.

(** Review evidence needs no review, and a criterion that asks only for inspection or reproduction
    needs nothing. *)
Lemma review_without_reviewers i c :
  requiredEvidence c = [e_review] -> reviewFindings i = [] -> blockingFindings i = false ->
  criterionLedger i c = mkLedgerCriterion (criterion_id c) proven [u "review:correctness:resolved"].
Proof. intros Hr Hf Hb. unfold criterionLedger, criterionEvidence. by rewrite Hr, Hf, Hb. Qed.

Lemma inspection_without_evidence i c :
  requiredEvidence c = [e_inspection; e_reproduction] -> blockingFindings i = false ->
  criterionLedger i c = mkLedgerCriterion (criterion_id c) proven [].
Proof. intros Hr Hb. unfold criterionLedger, criterionEvidence. by rewrite Hr, Hb. Qed.

(** ** Integration *)

Lemma see_resources_spec seen rs :
  NoDup seen ->
  match see_resources seen rs with
  | Some seen' => seen' = seen ++ rs /\ NoDup (seen ++ rs)
  | None => ~ NoDup (seen ++ rs)
  end.
Proof.
  revert seen. induction rs as [|r rs IH]; intros seen Hn; cbn; [by rewrite app_nil_r|].
  unfold setAdd. destruct (includes r seen) eqn:E.
  - apply includes_true in E. intros H. apply NoDup_app in H as (_ & H & _). apply (H r E). left.
  - replace (seen ++ r :: rs) with ((seen ++ [r]) ++ rs) by (by rewrite <- app_assoc).
    apply IH. apply NoDup_app. split_and!; [done| |apply NoDup_singleton].
    intros x Hx Hr. apply list_elem_of_singleton in Hr as ->. by apply includes_false in E.
Qed.

Lemma see_shards_spec seen shards :
  NoDup seen -> see_shards seen shards = false <-> NoDup (seen ++ concat (map shard_resources shards)).
Proof.
  revert seen. induction shards as [|s shards IH]; intros seen Hn; cbn; [by rewrite app_nil_r|].
  pose proof (see_resources_spec seen (shard_resources s) Hn) as H. rewrite app_assoc.
  destruct (see_resources seen (shard_resources s)) as [seen'|].
  - destruct H as [-> H]. by apply IH.
  - split; [done|]. intros H'. exfalso. apply H. by apply NoDup_app in H' as [? _].
Qed.

(** [p] lies in the scope [a]: it is [a] or below it. *)
Definition within (a p : ustr) : Prop := p = a \/ exists rest, p = a ++ SLASH :: rest.

Lemma pathsOutsideScope_nil changed allowed :
  pathsOutsideScope changed allowed = [] <->
  allowed = [] \/ forall p, p ∈ changed -> exists a, a ∈ allowed /\ within a p.
Proof.
  unfold pathsOutsideScope. case_bool_decide as Ha; [split; [by left | done]|].
  assert (forall p, existsb (fun a => bool_decide (p = a) || startsWith (a ++ [SLASH]) p) allowed = true <->
    exists a, a ∈ allowed /\ within a p) as Hw.
  { intros p. rewrite existsb_exists. unfold within. setoid_rewrite <- list_elem_of_In.
    setoid_rewrite orb_true_iff. setoid_rewrite bool_decide_eq_true. setoid_rewrite startsWith_app.
    by setoid_rewrite <- (assoc_L (++)). }
  split.
  - intros Hf. right. intros p Hp. apply Hw. destruct (existsb _ allowed) eqn:E; [done|]. exfalso.
    apply (not_elem_of_nil p). rewrite <- Hf. apply elem_of_List_filter. by rewrite E.
  - intros [?|Hall]; [done|]. apply elem_of_nil_inv. intros p Hp. apply elem_of_List_filter in Hp as [Hp Hn].
    by rewrite (proj2 (Hw p) (Hall p Hp)) in Hn.
Qed.

(** Integration accepts exactly the changes inside the allowed paths whose files hold no conflict
    markers and whose shards name no resource twice. *)
Lemma checkIntegration_exact manifest contents shards :
  ic_ok (checkIntegration manifest contents shards) = true <->
  (allowedPaths manifest = [] \/
     forall p, p ∈ manifest_changedPaths manifest -> exists a, a ∈ allowedPaths manifest /\ within a p) /\
  (forall p body, (p, body) ∈ contents -> includes_text (u "<<<<<<<") body = false /\ includes_text (u ">>>>>>>") body = false) /\
  (forall ss, shards = Some ss -> NoDup (concat (map shard_resources ss))).
Proof.
  cbn [ic_ok checkIntegration]. rewrite !andb_true_iff, !bool_decide_eq_true, negb_true_iff, pathsOutsideScope_nil, Logic.and_assoc.
  apply and_iff_compat_l. split.
  - intros [Hm Hs]. split.
    + intros p body Hin. apply orb_false_iff. destruct (_ || _) eqn:E; [exfalso|done].
      apply (not_elem_of_nil p). rewrite <- Hm. apply list_elem_of_fmap. exists (p, body). split; [done|].
      by apply elem_of_List_filter.
    + intros ss ->. by apply (see_shards_spec [] ss (NoDup_nil_2)).
  - intros [Hm Hs]. split.
    + apply elem_of_nil_inv. intros p Hp. apply list_elem_of_fmap in Hp as ([q body] & -> & Hin).
      apply elem_of_List_filter in Hin as [Hin E]. cbn [snd] in E. by rewrite (proj2 (orb_false_iff _ _) (Hm q body Hin)) in E.
    + destruct shards as [ss|]; [|done]. by apply (see_shards_spec [] ss NoDup_nil_2), Hs.
Qed.

(** One shard that lists a generated output among its files collides with itself. *)
Lemma shard_collides_with_itself :
  shardsShareResources [mkShard (u "s") [u "gen/api.ts"] [u "gen/api.ts"] [] []] = true.
Proof. vm_compute. reflexivity. Qed.

(** ** The order of the shards *)

Definition indexed (m : Remaining) : Prop :=
  NoDup (JsMap.keys m) /\ forall k s, (k, s) ∈ m -> shard_id s = k.

(** Every dependency that is itself a shard comes earlier. *)
Definition respects (m : Remaining) (l : list ustr) : Prop :=
  forall pre k post s d, l = pre ++ k :: post -> JsMap.get k m = Some s -> d ∈ shard_dependsOn s ->
    d ∈ JsMap.keys m -> d ∈ pre.

(** A set of shards that wait for each other. *)
Definition deadlocked (m : Remaining) (S : list ustr) : Prop :=
  S <> [] /\ forall k, k ∈ S -> exists s d, JsMap.get k m = Some s /\ d ∈ shard_dependsOn s /\ d ∈ S.

Lemma index_snoc shards s : index_shards (shards ++ [s]) = JsMap.set (shard_id s) s (index_shards shards).
Proof. unfold index_shards. by rewrite foldl_app. Qed.

Lemma keys_index shards k : k ∈ JsMap.keys (index_shards shards) <-> k ∈ map shard_id shards.
Proof.
  induction shards as [|s shards IH] using rev_ind; [done|].
  rewrite index_snoc, JsMap.elem_of_keys_set, IH, map_app, elem_of_app. cbn [map]. rewrite list_elem_of_singleton. tauto.
Qed.

Lemma index_indexed shards : indexed (index_shards shards).
Proof.
  induction shards as [|s shards [IH1 IH2]] using rev_ind; [split; [constructor | by intros ?? ?%not_elem_of_nil]|].
  rewrite index_snoc. split; [by apply JsMap.NoDup_keys_set|]. intros k t Hin.
  apply JsMap.elem_get in Hin; [|by apply JsMap.NoDup_keys_set]. rewrite JsMap.get_set in Hin.
  destruct (decide _) as [->|_]; [by injection Hin as <-|]. by apply IH2, JsMap.get_some_elem.
Qed.

Lemma length_index shards : length (index_shards shards) <= length shards.
Proof.
  rewrite <- (length_map fst), <- (length_map shard_id shards). apply NoDup_incl_length.
  - apply NoDup_ListNoDup, index_indexed.
  - intros k. rewrite <- !list_elem_of_In. apply keys_index.
Qed.

Definition del_shards (m : Remaining) (l : list ChangeShard) : Remaining :=
  foldl (fun m s => JsMap.del (shard_id s) m) m l.

Lemma del_shards_spec l : forall m, NoDup (JsMap.keys m) ->
  NoDup (JsMap.keys (del_shards m l)) /\
  forall k, JsMap.get k (del_shards m l) = (if decide (k ∈ map shard_id l) then None else JsMap.get k m).
Proof.
  induction l as [|s l IH]; intros m Hn; [split; [done|]; intros k; by rewrite decide_False by apply not_elem_of_nil|].
  destruct (IH (JsMap.del (shard_id s) m) (JsMap.NoDup_keys_del _ _ Hn)) as [Hn' Hg]. split; [done|].
  intros k. change (del_shards m (s :: l)) with (del_shards (JsMap.del (shard_id s) m) l).
  rewrite Hg, JsMap.get_del by done. cbn [map]. pose proof (elem_of_cons (map shard_id l) k (shard_id s)) as Hc.
  repeat case_decide; naive_solver.
Qed.

Lemma ready_spec m s : indexed m ->
  s ∈ ready_shards m <->
  JsMap.get (shard_id s) m = Some s /\ forall d, d ∈ shard_dependsOn s -> d ∉ JsMap.keys m.
Proof.
  intros [Hn Hid]. unfold ready_shards. rewrite elem_of_List_filter, forallb_forall.
  assert (s ∈ JsMap.values m <-> JsMap.get (shard_id s) m = Some s) as ->.
  { unfold JsMap.values. rewrite list_elem_of_fmap. split.
    - intros ([k t] & -> & Hin). cbn. pose proof (Hid k t Hin) as ->. by apply JsMap.elem_get.
    - intros H. exists (shard_id s, s). split; [done | by apply JsMap.get_some_elem]. }
  apply and_iff_compat_l. setoid_rewrite <- list_elem_of_In. setoid_rewrite negb_true_iff. setoid_rewrite JsMap.has_false.
  by setoid_rewrite JsMap.get_none.
Qed.

Lemma not_ready_waits m : indexed m -> ready_shards m = [] ->
  forall k, k ∈ JsMap.keys m -> exists s d, JsMap.get k m = Some s /\ d ∈ shard_dependsOn s /\ d ∈ JsMap.keys m.
Proof.
  intros Hi Hr k [s Hs]%JsMap.get_is_some.
  destruct (existsb (fun d => JsMap.has d m) (shard_dependsOn s)) eqn:E.
  - apply existsb_exists in E as (d & Hd & Hm). exists s, d. split_and!; [done | by apply list_elem_of_In | by apply JsMap.has_true].
  - exfalso. apply (not_elem_of_nil s). rewrite <- Hr. apply ready_spec; [done|].
    pose proof (proj2 Hi k s (JsMap.get_some_elem _ _ _ Hs)) as ->. split; [done|]. intros d Hd Hk.
    rewrite <- not_true_iff_false, existsb_exists in E. apply E. exists d. split; [by apply list_elem_of_In | by apply JsMap.has_true].
Qed.

Lemma ready_distinct m : indexed m -> NoDup (map shard_id (ready_shards m)).
Proof.
  intros [Hn Hid]. unfold ready_shards. apply NoDup_map_filter.
  assert (map shard_id (JsMap.values m) = JsMap.keys m) as ->; [|done].
  unfold JsMap.values, JsMap.keys. rewrite map_map. apply map_ext_in. intros [k s] Hin%list_elem_of_In. by apply Hid.
Qed.

(** The waves so far and what remains make up the index. *)
Record partial (m rem : Remaining) (ordered : list ustr) : Prop := {
  pt_indexed : indexed rem;
  pt_nodup : NoDup (ordered ++ JsMap.keys rem);
  pt_keys k : k ∈ ordered ++ JsMap.keys rem <-> k ∈ JsMap.keys m;
  pt_sub k s : JsMap.get k rem = Some s -> JsMap.get k m = Some s;
  pt_respects : respects m ordered
}.

Lemma respects_app m l new :
  respects m l ->
  (forall k s d, k ∈ new -> JsMap.get k m = Some s -> d ∈ shard_dependsOn s -> d ∈ JsMap.keys m -> d ∈ l) ->
  respects m (l ++ new).
Proof.
  intros Hl Hnew pre k post s d He Hk Hd Hm.
  apply app_eq_inv in He as [(mid & -> & Hp)|(mid & -> & Hn)].
  - destruct mid as [|x mid].
    + rewrite <- (app_nil_r pre). apply (Hnew k s d); [|done..]. cbn in Hp. rewrite <- Hp. left.
    + injection Hp as -> Hp. by eapply Hl.
  - apply elem_of_app. left. apply (Hnew k s d); [|done..]. rewrite Hn. apply elem_of_app. right. left.
Qed.

Lemma partial_step m rem ordered :
  partial m rem ordered ->
  let sorted := sort_by (fun l r => utf16_leb (shard_id l) (shard_id r)) (ready_shards rem) in
  partial m (del_shards rem sorted) (ordered ++ map shard_id sorted).
Proof.
  intros [Hi Hnd Hk Hsub Hres] sorted.
  assert (forall s, s ∈ sorted <-> s ∈ ready_shards rem) as Hin by (intros s; apply elem_of_sort_by).
  destruct (del_shards_spec sorted rem (proj1 Hi)) as [Hn' Hg].
  assert (forall k, k ∈ map shard_id sorted -> exists s, JsMap.get k rem = Some s /\ s ∈ ready_shards rem) as Hready.
  { intros k Hkin. apply list_elem_of_fmap in Hkin as (s & -> & Hs). apply Hin in Hs. exists s.
    split; [|done]. by apply ready_spec in Hs as [? _]. }
  assert (forall k, k ∈ JsMap.keys (del_shards rem sorted) <-> k ∈ JsMap.keys rem /\ k ∉ map shard_id sorted) as Hkeys.
  { intros k. rewrite <- !JsMap.get_is_some, Hg. case_decide; [|tauto].
    split; [intros [? [=]] | intros [_ H']; by exfalso; apply H']. }
  assert (forall k, k ∈ map shard_id sorted -> k ∈ JsMap.keys rem) as Hsk.
  { intros k (s & Hs & _)%Hready. apply JsMap.get_is_some. by exists s. }
  apply NoDup_app in Hnd as (Hno & Hdis & Hnr). constructor.
  - split; [done|]. intros k s Hks. apply (proj2 Hi). apply JsMap.get_some_elem.
    apply JsMap.elem_get in Hks; [|done]. rewrite Hg in Hks. by case_decide.
  - rewrite <- app_assoc. apply NoDup_app. split_and!; [done| |].
    + intros k Ho Hk'. apply (Hdis k Ho). apply elem_of_app in Hk' as [Hk'|Hk']; [by apply Hsk | by apply Hkeys].
    + apply NoDup_app. split_and!; [|intros k H1 H2; by apply Hkeys in H2 as [_ ?] | done].
      unfold sorted. rewrite sort_by_perm. by apply ready_distinct.
  - intros k. rewrite <- Hk, <- app_assoc, !elem_of_app, Hkeys.
    destruct (decide (k ∈ map shard_id sorted)) as [H'|H']; [pose proof (Hsk k H')|]; tauto.
  - intros k s Hs. apply Hsub. rewrite Hg in Hs. by case_decide.
  - apply respects_app; [done|]. intros k s d (t & Ht & Hr)%Hready Hs Hd Hm.
    apply Hsub in Ht as Ht'. rewrite Ht' in Hs. injection Hs as ->. apply ready_spec in Hr as [_ Hr]; [|done].
    apply Hk, elem_of_app in Hm as [?|Hm]; [done|]. by apply Hr in Hd.
Qed.

Lemma wave_shrinks m rem ordered :
  partial m rem ordered -> ready_shards rem <> [] ->
  length (del_shards rem (sort_by (fun l r => utf16_leb (shard_id l) (shard_id r)) (ready_shards rem))) < length rem.
Proof.
  intros Hp Hr. set (sorted := sort_by _ _). destruct (pt_indexed _ _ _ Hp) as [Hn Hid].
  destruct (del_shards_spec sorted rem Hn) as [Hn' Hg].
  destruct (ready_shards rem) as [|s l] eqn:E; [done|].
  assert (s ∈ ready_shards rem) as Hs by (rewrite E; left).
  apply ready_spec in Hs as [Hs _]; [|done].
  assert (shard_id s ∈ map shard_id sorted) as Hin.
  { apply list_elem_of_fmap_2. unfold sorted. apply elem_of_sort_by. left. }
  rewrite <- (length_map fst rem), <- (length_map fst (del_shards _ _)).
  apply (NoDup_incl_length (l := shard_id s :: JsMap.keys (del_shards rem sorted))).
  - apply NoDup_ListNoDup, NoDup_cons. split; [|done]. rewrite <- JsMap.get_is_some, Hg, decide_True by done. by intros [? [=]].
  - intros k. rewrite <- !list_elem_of_In. intros [->|Hk]%elem_of_cons; apply JsMap.get_is_some; [by exists s|].
    apply JsMap.get_is_some in Hk. rewrite Hg in Hk. case_decide; [by destruct Hk | done].
Qed.

Lemma partial_done m ordered :
  partial m [] ordered -> NoDup ordered /\ (forall k, k ∈ ordered <-> k ∈ JsMap.keys m) /\ respects m ordered.
Proof.
  intros [_ Hn Hk _ Hr]. change (JsMap.keys ([] : Remaining)) with ([] : list ustr) in *. rewrite app_nil_r in Hn.
  split_and!; [done | | done]. intros k. by rewrite <- Hk, app_nil_r.
Qed.

Lemma order_loop_spec m fuel : forall rem ordered, length rem <= fuel -> partial m rem ordered ->
  (exists out, order_loop fuel rem ordered = Ok out /\ NoDup out /\ (forall k, k ∈ out <-> k ∈ JsMap.keys m) /\ respects m out) \/
  (order_loop fuel rem ordered = Err SHARD_CYCLE /\ exists S, deadlocked m S).
Proof.
  induction fuel as [|fuel IH]; intros rem ordered Hlen Hp.
  - destruct rem; [|cbn in Hlen; lia]. left. exists ordered. split; [done | by apply partial_done].
  - cbn [order_loop]. destruct rem as [|e rem0] eqn:Erem.
    { left. exists ordered. split; [done | by apply partial_done]. }
    rewrite <- Erem in *. case_bool_decide as Hz.
    + right. split; [done|]. exists (JsMap.keys rem). apply nil_length_inv in Hz. split; [by rewrite Erem|].
      intros k Hk. destruct (not_ready_waits rem (pt_indexed _ _ _ Hp) Hz k Hk) as (s & d & Hs & Hd & Hm).
      exists s, d. split_and!; [by eapply pt_sub | done | done].
    + apply IH; [|by apply partial_step].
      pose proof (wave_shrinks m rem ordered Hp) as Hw. unfold del_shards in Hw.
      assert (ready_shards rem <> []) as Hne by (intros E; by rewrite E in Hz). specialize (Hw Hne). lia.
Qed.

Lemma respects_no_deadlock m out S :
  (forall k, k ∈ JsMap.keys m -> k ∈ out) -> respects m out -> deadlocked m S -> False.
Proof.
  intros Hall Hr [Hne HS].
  assert (forall k, k ∈ S -> k ∈ JsMap.keys m) as Hsub.
  { intros k (s & _ & Hk & _)%HS. apply JsMap.get_is_some. by exists s. }
  assert (forall n pre k post, length pre < n -> out = pre ++ k :: post -> k ∉ S) as Hno.
  { induction n as [|n IH]; intros pre k post Hlen He Hk; [lia|].
    destruct (HS k Hk) as (s & d & Hs & Hd & HdS).
    pose proof (Hr pre k post s d He Hs Hd (Hsub d HdS)) as Hpre.
    apply list_elem_of_split in Hpre as (p1 & p2 & ->). apply (IH p1 d (p2 ++ k :: post)); [|by rewrite He, <- app_assoc|done].
    rewrite length_app in Hlen. cbn in Hlen. lia. }
  destruct S as [|k S]; [done|]. assert (k ∈ k :: S) as Hk by left.
  pose proof (Hall k (Hsub k Hk)) as Hout. apply list_elem_of_split in Hout as (p1 & p2 & He).
  exact (Hno _ p1 k p2 (Nat.lt_succ_diag_r _) He Hk).
Qed.

(** Ordering change shards always terminates.  It yields every shard id once, each after the shards
    it depends on, unless some shards wait for each other; then, and only then, it fails. *)
Theorem shardOrder_exact shards :
  let m := index_shards shards in
  match shardOrder shards with
  | Ok out => NoDup out /\ (forall k, k ∈ out <-> k ∈ map shard_id shards) /\ respects m out /\ ~ exists S, deadlocked m S
  | Err e => e = SHARD_CYCLE /\ exists S, deadlocked m S
  end.
Proof.
  intros m. unfold shardOrder. fold m.
  destruct (order_loop_spec m (length shards) m [] (length_index shards)) as [(out & -> & Hn & Hk & Hr)|[-> HS]].
  - constructor; [apply index_indexed | apply index_indexed | done | done|]. intros pre k post s d He. by destruct pre.
  - split_and!; [done | | done|].
    + intros k. by rewrite Hk, <- keys_index.
    + intros [S HS]. apply (respects_no_deadlock m out S); [|done|done]. intros k. by rewrite Hk.
  - done.
Qed.

(** ** The order does not depend on how the plan lists the shards *)

Lemma index_distinct shards : NoDup (map shard_id shards) -> index_shards shards = map (fun s => (shard_id s, s)) shards.
Proof.
  induction shards as [|s shards IH] using rev_ind; [done|]. rewrite index_snoc, !map_app. cbn [map].
  intros (Hn & Hd & _)%NoDup_app. rewrite IH by done. apply set_absent. rewrite map_map. cbn [fst].
  intros Hin. apply (Hd _ Hin). left.
Qed.

Lemma has_perm (m m' : Remaining) k : m ≡ₚ m' -> JsMap.has k m = JsMap.has k m'.
Proof.
  intros Hp. apply eq_iff_eq_true. rewrite !JsMap.has_true. unfold JsMap.keys. by rewrite Hp.
Qed.

Lemma List_filter_perm {A} (p q : A -> bool) (l l' : list A) :
  (forall x, p x = q x) -> l ≡ₚ l' -> List.filter p l ≡ₚ List.filter q l'.
Proof.
  intros Hpq. induction 1 as [|x l l' _ IH|x y l|l l1 l2 _ IH1 _ IH2]; cbn.
  - done.
  - rewrite Hpq. destruct (q x); by rewrite IH.
  - rewrite !Hpq, (List.filter_ext p q Hpq l). destruct (q x), (q y); try done. apply Permutation_swap.
  - rewrite IH1, <- IH2. by rewrite (List.filter_ext p q Hpq l1).
Qed.

Lemma ready_perm (m m' : Remaining) : m ≡ₚ m' -> ready_shards m ≡ₚ ready_shards m'.
Proof.
  intros Hp. apply List_filter_perm; [|unfold JsMap.values; by rewrite Hp].
  intros s. induction (shard_dependsOn s) as [|d ds IH]; cbn; [done|]. by rewrite IH, (has_perm m m' d Hp).
Qed.

Lemma del_perm k (m m' : Remaining) : NoDup (JsMap.keys m) -> m ≡ₚ m' -> JsMap.del k m ≡ₚ JsMap.del k m'.
Proof.
  assert (forall m : Remaining, NoDup (JsMap.keys m) -> JsMap.del k m = List.filter (fun e => negb (bool_decide (k = e.1))) m) as Hf.
  { induction m0 as [|[k0 s] m0 IH]; cbn; [done|]. intros [Hk Hn]%NoDup_cons.
    destruct (decide (k = k0)) as [->|Hne]; cbn.
    - rewrite bool_decide_true by done. cbn. symmetry. apply forallb_filter_id, forallb_forall. intros [k1 s1] Hin. cbn.
      apply negb_true_iff, bool_decide_eq_false. intros ->. apply Hk.
      apply list_elem_of_fmap. exists (k1, s1). split; [done | by apply list_elem_of_In].
    - rewrite bool_decide_false by done. cbn. by rewrite IH. }
  intros Hn Hp. rewrite !Hf; [by apply List_filter_perm | | done]. unfold JsMap.keys in *. by rewrite <- Hp.
Qed.

Lemma del_shards_perm l : forall m m' : Remaining, NoDup (JsMap.keys m) -> m ≡ₚ m' -> del_shards m l ≡ₚ del_shards m' l.
Proof.
  induction l as [|s l IH]; intros m m' Hn Hp; [done|]. apply IH; [by apply JsMap.NoDup_keys_del | by apply del_perm].
Qed.

Lemma order_loop_perm fuel : forall m m' ordered, indexed m -> m ≡ₚ m' ->
  order_loop fuel m ordered = order_loop fuel m' ordered.
Proof.
  induction fuel as [|fuel IH]; intros m m' ordered Hi Hp.
  - destruct m; [by apply Permutation_nil_l in Hp as <-|]. destruct m'; [by apply Permutation_nil_r in Hp | done].
  - destruct m as [|e m0] eqn:E; [by apply Permutation_nil_l in Hp as <-|].
    destruct m' as [|e' m0'] eqn:E'; [by apply Permutation_nil_r in Hp|]. rewrite <- E, <- E' in *. cbn [order_loop].
    rewrite E at 1. rewrite E' at 1.
    rewrite (Permutation_length (ready_perm m m' Hp)). case_bool_decide; [done|].
    assert (sort_by (fun l r => utf16_leb (shard_id l) (shard_id r)) (ready_shards m) =
      sort_by (fun l r => utf16_leb (shard_id l) (shard_id r)) (ready_shards m')) as <-.
    { apply (sort_by_key_perm shard_id); [|by apply ready_perm]. intros x y Hx Hy.
      by apply (NoDup_key_inj shard_id (ready_shards m)); [apply ready_distinct|..]. }
    apply IH; [|by apply del_shards_perm; [apply Hi|]].
    destruct (del_shards_spec (sort_by (fun l r => utf16_leb (shard_id l) (shard_id r)) (ready_shards m)) m (proj1 Hi)) as [Hn Hg].
    split; [done|]. intros k s Hin. apply (proj2 Hi), JsMap.get_some_elem. apply JsMap.elem_get in Hin; [|done].
    unfold del_shards in Hg. rewrite Hg in Hin. by case_decide.
Qed.

Lemma shardOrder_perm shards shards' :
  NoDup (map shard_id shards) -> shards ≡ₚ shards' -> shardOrder shards = shardOrder shards'.
Proof.
  intros Hn Hp. unfold shardOrder. rewrite (Permutation_length Hp).
  apply order_loop_perm; [apply index_indexed|]. rewrite !index_distinct; [by rewrite Hp | by rewrite <- Hp | done].
Qed.

(** ** Progress *)

Lemma detectNoProgress_none o previous :
  detectNoProgress o previous = None <->
  hasNormalizedDelta o = true /\ fingerprint o ∉ previous /\ touchesCausalSliceOrAddsEvidence o = true /\
  regressesPreservedPassingObligations o = false /\ cloudResultRepeated o = false.
Proof.
  unfold detectNoProgress. rewrite <- includes_false.
  assert (last previous = Some (fingerprint o) -> includes (fingerprint o) previous = true) as Hl.
  { intros H. apply includes_true, list_elem_of_lookup. exists (pred (length previous)). by rewrite <- last_lookup. }
  case_bool_decide as E; [rewrite (Hl E)|destruct (includes (fingerprint o) previous)];
    destruct (hasNormalizedDelta o), (touchesCausalSliceOrAddsEvidence o), (regressesPreservedPassingObligations o),
      (cloudResultRepeated o); cbn; naive_solver.
Qed.

(** A sequence of repair rounds, each admitted against the fingerprints before it. *)
Inductive rounds : list Digest -> list ProgressObservation -> Prop :=
| rounds_nil : rounds [] []
| rounds_snoc previous os o :
    rounds previous os -> detectNoProgress o previous = None -> rounds (previous ++ [fingerprint o]) (os ++ [o]).

Lemma rounds_distinct previous os : rounds previous os -> NoDup previous /\ previous = map fingerprint os.
Proof.
  induction 1 as [|previous os o _ [IH ->] Hd]; [split; [constructor | done]|]. rewrite map_app. split; [|done].
  apply detectNoProgress_none in Hd as (_ & Hf & _). apply NoDup_app. split_and!; [done| |apply NoDup_singleton].
  intros x Hx Hs. apply list_elem_of_singleton in Hs as ->. done.
Qed.

(** Repair rounds that keep being admitted never revisit a state: their fingerprints are distinct,
    so a run whose states come from a finite set of fingerprints is stopped after at most as many
    rounds as there are fingerprints. *)
Theorem repair_rounds_bounded previous os (states : list Digest) :
  rounds previous os -> (forall o, o ∈ os -> fingerprint o ∈ states) ->
  NoDup (map fingerprint os) /\ length os <= length states /\
  (length os = length states -> forall o, fingerprint o ∈ states -> is_Some (detectNoProgress o previous)).
Proof.
  intros Hr Hs. destruct (rounds_distinct previous os Hr) as [Hn ->].
  assert (map fingerprint os ⊆ states) as Hsub.
  { intros d Hd. apply list_elem_of_fmap in Hd as (o & -> & Ho). by apply Hs. }
  assert (incl (map fingerprint os) states) as Hincl by (intros d; rewrite <- !list_elem_of_In; apply Hsub).
  apply NoDup_ListNoDup in Hn as Hn'. split_and!; [done| |].
  - rewrite <- (length_map fingerprint os). by apply NoDup_incl_length.
  - intros Hlen o Ho. apply not_eq_None_Some. intros Hd. apply detectNoProgress_none in Hd as (_ & Hd & _). apply Hd.
    apply list_elem_of_In. apply (NoDup_length_incl Hn' (l' := states)); [rewrite length_map; lia | done|]. by apply list_elem_of_In.
Qed.

(** The fingerprint of a round does not depend on the order in which obligations and failures were
    reported. *)
Section FingerprintOrder.
Context `{Doubles} `{Hashing} `{Unicode}.
Lemma fingerprint_order_irrelevant i obs sigs :
  NoDup (map obligationId (obligationStatusVector i)) ->
  obligationStatusVector i ≡ₚ obs -> failureSignatures i ≡ₚ sigs ->
  computeStateFingerprint i = computeStateFingerprint (mkProgress (pf_baseSnapshotId i) (pf_baseSnapshotRootDigest i)
    (pf_operations i) (pf_materializedTreeDigest i) obs sigs (evidenceRootDigest i)).
Proof.
  intros Hn Ho Hs. unfold computeStateFingerprint, fingerprint_payload.
  cbn [pf_baseSnapshotId pf_baseSnapshotRootDigest pf_operations pf_materializedTreeDigest obligationStatusVector
    failureSignatures evidenceRootDigest].
  rewrite (sort_by_key_perm obligationId _ obs); [|intros x y; by apply NoDup_key_inj | done].
  by rewrite (sort_by_key_perm (fun s => s) _ sigs).
Qed.
End FingerprintOrder.

(** Three equal failures in a row change the strategy; nothing else does. *)
Lemma shouldChangeStrategy_exact history d :
  shouldChangeStrategy history d = true <->
  exists pre a b, history = pre ++ [a; b] /\ ff_digest a = d /\ ff_digest b = d.
Proof.
  unfold shouldChangeStrategy, lastTwo. rewrite andb_true_iff, bool_decide_eq_true, forallb_forall. split.
  - intros [Hlen Hall]. destruct (drop _ history) as [|a [|b [|]]] eqn:E; try done.
    exists (take (length history - 2) history), a, b. split; [by rewrite <- E, take_drop|].
    split; apply (bool_decide_eq_true_1 _); apply Hall; cbn; tauto.
  - intros (pre & a & b & -> & Ha & Hb). rewrite length_app. cbn [length].
    replace (length pre + 2 - 2) with (length pre) by lia. rewrite drop_app_length. split; [done|].
    intros x [<-|[<-|[]]]; by apply bool_decide_eq_true_2.
Qed.

(** The hashed text does not separate the lists: a finding id with a comma is two findings. *)
Lemma failure_text_ambiguous :
  failure_text (u "n") [u "a,b"] [] = failure_text (u "n") [u "a"; u "b"] [] /\
  failure_text (u "n|a") [] [] = failure_text (u "n") [u "a|"] [].
Proof. vm_compute. split; reflexivity. Qed.

(** ** Mandatory skills *)

Lemma foldl_setAdd_elem {A} `{EqDecision A} xs : forall acc (x : A),
  x ∈ foldl setAdd acc xs <-> x ∈ acc \/ x ∈ xs.
Proof.
  induction xs as [|y xs IH]; intros acc x; cbn [foldl]; [split; [by left | intros [?|?%not_elem_of_nil]; done]|].
  rewrite IH, elem_of_setAdd, elem_of_cons. tauto.
Qed.

Lemma foldl_setAdd_NoDup {A} `{EqDecision A} xs : forall acc : list A, NoDup acc -> NoDup (foldl setAdd acc xs).
Proof. induction xs as [|y xs IH]; intros acc Hn; [done|]. by apply IH, NoDup_setAdd. Qed.

(** The mandatory skills are, each once and in code-unit order, exactly those of the rules that apply. *)
Lemma mandatorySkillIds_exact i :
  NoDup (mandatorySkillIdsFor i) /\
  StronglySorted (fun a b => utf16_leb a b = true) (mandatorySkillIdsFor i) /\
  forall s, s ∈ mandatorySkillIdsFor i <-> exists r, r ∈ HARD_SKILL_RULES /\ ruleApplies i r = true /\ s ∈ skillIds r.
Proof.
  unfold mandatorySkillIdsFor. set (f := fun selected r => _). generalize HARD_SKILL_RULES as rules. intros rules.
  assert (NoDup (foldl f [] rules) /\ forall s, s ∈ foldl f [] rules <-> exists r, r ∈ rules /\ ruleApplies i r = true /\ s ∈ skillIds r)
    as [Hn Hin].
  { induction rules as [|r rules [IHn IH]] using rev_ind.
    { split; [constructor|]. intros s. split; [by intros ?%not_elem_of_nil | by intros (r & ?%not_elem_of_nil & _)]. }
    rewrite foldl_app. cbn [foldl]. unfold f at 1 3. destruct (ruleApplies i r) eqn:E.
    - split; [by apply foldl_setAdd_NoDup|]. intros s. rewrite foldl_setAdd_elem, IH. setoid_rewrite elem_of_app.
      setoid_rewrite list_elem_of_singleton. naive_solver.
    - split; [done|]. intros s. rewrite IH. setoid_rewrite elem_of_app. setoid_rewrite list_elem_of_singleton.
      split; [intros (q & ? & ?); exists q; tauto|]. intros (q & [?| ->] & Ha & ?); [by exists q | congruence]. }
  split_and!; [by rewrite sort_by_perm | apply (sort_by_key_sorted (fun s => s)) | intros s; by rewrite elem_of_sort_by].
Qed.

(** ** Worker artifacts *)

Definition consistent_contract (c : TaskContract) : Prop :=
  let intent := v2_primaryIntent <$> version2 c in
  NoDup (map criterion_id (acceptanceCriteria c)) /\
  (forall x, x ∈ inScope c -> x ∉ outOfScope c) /\
  (kind c = k_research \/ intent = Some research -> updateRequired c = false) /\
  (kind c = k_spec \/ intent = Some specification -> updateRequired c = true) /\
  (intent = Some diagnosis -> behaviorChanges c = false) /\
  (intent = Some optimization -> measurable (acceptanceCriteria c) = true).

Lemma duplicateCriteria_nil ids cs :
  NoDup ids -> duplicateCriteria ids cs = [] <-> NoDup (ids ++ map criterion_id cs).
Proof.
  revert ids. induction cs as [|c cs IH]; intros ids Hn; cbn [duplicateCriteria map]; [by rewrite app_nil_r|].
  unfold setAdd. destruct (includes (criterion_id c) ids) eqn:E.
  - split; [done|]. intros (_ & Hd & _)%NoDup_app. apply includes_true in E. exfalso. apply (Hd _ E). left.
  - apply includes_false in E. cbn [app]. rewrite IH.
    + by rewrite <- app_assoc.
    + apply NoDup_app. split_and!; [done| |apply NoDup_singleton].
      intros x Hx Hs. by apply list_elem_of_singleton in Hs as ->.
Qed.

Lemma issue_if_nil b p m : issue_if b p m = [] <-> b = false.
Proof. by destruct b. Qed.

Lemma logicalConflicts_nil c : logicalConflicts c = [] <-> consistent_contract c.
Proof.
  unfold logicalConflicts, consistent_contract. rewrite !app_nil, !issue_if_nil, (duplicateCriteria_nil [] _ NoDup_nil_2).
  cbn [app]. apply and_iff_compat_l.
  rewrite !andb_false_iff, !orb_false_iff, !bool_decide_eq_false, !negb_false_iff.
  rewrite <- not_true_iff_false, existsb_exists. setoid_rewrite includes_true. setoid_rewrite <- list_elem_of_In.
  assert (forall P, Decision P -> forall b v : bool, (P -> b = v) <-> (~ P \/ b = v)) as Himp.
  { intros P ? b v. destruct (decide P); [|tauto]. destruct (decide (b = v)); tauto. }
  repeat match goal with |- context [?P -> ?b = ?v] => rewrite (Himp P _ b v) end.
  naive_solver.
Qed.

Section ValidationTheorems.
Context {Payload : Type}.
Variable check : ArtifactType -> Payload -> bool.
Variable errors : ArtifactType -> Payload -> list (ustr * ustr).
Variable as_contract : Payload -> TaskContract.

(** A worker's artifact is accepted exactly when it names the run, node, agent and artifact type it
    was assigned, its type has a schema (or is a change set or a verdict report), its payload
    satisfies the schema, and a task contract is free of contradictions. *)
Theorem validateWorkerEnvelope_exact e x :
  validateWorkerEnvelope check errors as_contract e x = None <->
  we_runId e = ex_runId x /\ we_nodeId e = ex_nodeId x /\ we_agentId e = ex_agentId x /\
  we_artifactType e = ex_artifactType x /\ we_artifactType e <> command_evidence /\
  (schemaFor (we_artifactType e) = true -> check (we_artifactType e) (we_payload e) = true) /\
  (we_artifactType e = task_contract -> consistent_contract (as_contract (we_payload e))).
Proof.
  unfold validateWorkerEnvelope. set (issues := issue_if _ _ _ ++ _).
  assert (issues = [] <-> we_runId e = ex_runId x /\ we_nodeId e = ex_nodeId x /\ we_agentId e = ex_agentId x /\
    we_artifactType e = ex_artifactType x) as Hi.
  { unfold issues. rewrite !app_nil, !issue_if_nil, !negb_false_iff, !bool_decide_eq_true. done. }
  assert (forall l, verdict_of l = None <-> l = []) as Hv by (by intros []).
  assert (payloadIssues check errors as_contract e = [] <-> check (we_artifactType e) (we_payload e) = true /\
    (we_artifactType e = task_contract -> consistent_contract (as_contract (we_payload e)))) as Hp.
  { unfold payloadIssues. destruct (check _ _); cbn [negb].
    - case_bool_decide as Et; [rewrite logicalConflicts_nil|]; naive_solver.
    - case_bool_decide as Ed; [naive_solver|]. destruct (take 8 _); [done|]. cbn. naive_solver. }
  clearbody issues. destruct (schemaFor (we_artifactType e)) eqn:Es; cbn [negb].
  - rewrite Hv, app_nil, Hi, Hp. assert (we_artifactType e <> command_evidence) by (intros E; by rewrite E in Es). tauto.
  - assert (we_artifactType e <> task_contract) by (intros E; by rewrite E in Es).
    destruct (we_artifactType e) eqn:Et; try discriminate Es; cbn; rewrite ?Hv, ?Hi; [naive_solver| |naive_solver].
    split; [done|]. intros (_ & _ & _ & _ & Hc & _). by destruct Hc.
Qed.
End ValidationTheorems.

(** The list of failure codes and the cases of the switch agree, and no code is listed twice. *)
Lemma failure_codes_known c : assertKnownFailureCode c = Some c <-> c ∈ FAILURE_CODES.
Proof.
  assert (FAILURE_CODES = FAILURE_CASES) as -> by (vm_compute; reflexivity).
  unfold assertKnownFailureCode. destruct (includes c FAILURE_CASES) eqn:E.
  - by apply includes_true in E.
  - apply includes_false in E. by split.
Qed.

Definition round (d : string) : ProgressObservation := mkObservation (u d) true true false false.

Lemma repair_rounds_bounded_witness :
  NoDup (map fingerprint [round "a"; round "b"]) /\ is_Some (detectNoProgress (round "a") [u "a"; u "b"]).
Proof.
  destruct (repair_rounds_bounded [u "a"; u "b"] [round "a"; round "b"] [u "a"; u "b"]) as (H1 & _ & H3).
  - apply (rounds_snoc [u "a"] [round "a"] (round "b")); [|vm_compute; reflexivity].
    apply (rounds_snoc [] [] (round "a")); [constructor | vm_compute; reflexivity].
  - intros o [->|[->|[]%not_elem_of_nil]%elem_of_cons]%elem_of_cons; [left | right; left].
  - split; [exact H1 | apply H3; [reflexivity | left]].
Defined.
