(* ===== verification/Replay.v ===== *)
(** Signed mutations: packages/security/src/replay.ts (the nonce cache, the structured-field
    serializer and parser of signature parameters, the signature base, signing and verification)
    and the signer of faex1/apps/control-plane/src/host-runtime.ts.

    Signing, verification, SHA-256 and [Date.parse] are parameters.  Times in seconds are integers;
    a number too large for a double is kept exact, since no accepted message has one. *)

From Stdlib Require Import String.
From S2P Require Import Prelude JsText CanonicalJson ChangeApply.
Open Scope string_scope.
Open Scope list_scope.

(** ** Nonce cache *)

Module NonceCache.

Record Entry := mkEntry { entry_operationId : ustr; expiresAtMs : Z }.

Definition Entries : Type := list (ustr * Entry).

Record Reservation := mkReservation {
  principalId : ustr;
  keyId : ustr;
  nonce : ustr;
  operationId : ustr;
  reservation_expiresAtMs : Z
}.

Inductive ReserveOutcome : Set := reserved | same_operation | conflict.
#[global] Instance ReserveOutcome_eq_dec : EqDecision ReserveOutcome.
Proof. solve_decision. Defined.

(** [for (const [key, entry] of this.#entries) if (...) this.#entries.delete(key)] *)
Definition sweep (now : Z) (entries : Entries) : Entries :=
  List.filter (fun kv => negb (expiresAtMs kv.2 <=? now)%Z) entries.

Definition key_of (r : Reservation) : ustr := principalId r ++ NUL :: keyId r ++ NUL :: nonce r.

Definition reserve (now : Z) (entries : Entries) (r : Reservation) : Entries * ReserveOutcome :=
  let entries := sweep now entries in
  match JsMap.get (key_of r) entries with
  | None => (JsMap.set (key_of r) (mkEntry (operationId r) (reservation_expiresAtMs r)) entries, reserved)
  | Some existing =>
      if bool_decide (entry_operationId existing = operationId r) then (entries, same_operation)
      else (entries, conflict)
  end.
End NonceCache.

(** ** Structured fields *)

Definition QUOTE : N := 34.
Definition SEMICOLON : N := 59.

Definition sfString (value : ustr) : ustr :=
  QUOTE :: replaceAll [QUOTE] [BACKSLASH; QUOTE] (replaceAll [BACKSLASH] [BACKSLASH; BACKSLASH] value) ++ [QUOTE].

Definition sfByteSequence (bs : bytes) : ustr := COLON :: b64_encode bs ++ [COLON].

Definition parseSfString (raw : ustr) : option ustr :=
  let trimmed := trim raw in
  if negb (startsWith [QUOTE] trimmed) || negb (endsWith [QUOTE] trimmed) || (length trimmed <? 2)%nat then None
  else Some (replaceAll [BACKSLASH; BACKSLASH] [BACKSLASH]
               (replaceAll [BACKSLASH; QUOTE] [QUOTE] (take (length trimmed - 2) (drop 1 trimmed)))).

(** The text between the colons; decoding it is left to [cryptoVerify]. *)
Definition parseSfByteSequence (raw : ustr) : option ustr :=
  let trimmed := trim raw in
  if negb (startsWith [COLON] trimmed) || negb (endsWith [COLON] trimmed) || (length trimmed <? 2)%nat then None
  else Some (take (length trimmed - 2) (drop 1 trimmed)).

(** [Number.parseInt(value, 10)]; [None] is NaN or, beyond the range of doubles, infinite. *)
Definition MAX_DOUBLE : Z := 2 ^ 1024 - 2 ^ 970.
Definition parseInt10 (value : ustr) : option Z :=
  let s := trimStart value in
  let '(neg, body) := match s with
    | c :: r => if (c =? 45)%N then (true, r) else if (c =? 43)%N then (false, r) else (false, s)
    | [] => (false, s)
    end in
  match span_digits body with
  | ([], _) => None
  | (ds, _) =>
      d ← units_uint ds;
      let z := Z.of_N (N.of_uint d) in
      if (z <? MAX_DOUBLE)%Z then Some (if neg then Z.opp z else z) else None
  end.

(** ** Messages *)

Definition MUTATION_PROFILE_TAG : ustr := u "pi-hec-mutation-v1".
Definition MAX_CREATED_SKEW_SECONDS : Z := 30.
Definition MAX_LIFETIME_SECONDS : Z := 120.
Definition SIGNATURE_LABEL : ustr := u "sig1".

Definition MUTATION_SIGNATURE_COMPONENTS : list ustr :=
  [u "@method"; u "@authority"; u "@target-uri"; u "content-digest"; u "content-type";
   u "content-length"; u "operation-id"; u "x-hec-issued-at"; u "x-hec-expires-at"; u "x-hec-nonce"].

(** [headers] in the order of [Object.entries]. *)
Record MutationMessage := mkMessage {
  method : ustr;
  authority : ustr;
  targetUri : ustr;
  headers : list (ustr * ustr);
  body : bytes
}.

Inductive SignatureAlg : Set := ed25519 | ecdsa_p256_sha256.
#[export] Instance SignatureAlg_eq_dec : EqDecision SignatureAlg.
Proof. solve_decision. Defined.

Definition algName (a : SignatureAlg) : ustr :=
  match a with ed25519 => u "ed25519" | ecdsa_p256_sha256 => u "ecdsa-p256-sha256" end.

(** The tag is always [MUTATION_PROFILE_TAG]. *)
Record SignatureParams := mkParams {
  created : Z;
  expires : Z;
  nonce : ustr;
  keyid : ustr;
  alg : SignatureAlg;
  covered : list ustr
}.

Definition headerLookup (hs : list (ustr * ustr)) (name : ustr) : option ustr :=
  let want := toLowerCase name in
  snd <$> array_find (fun kv => bool_decide (toLowerCase kv.1 = want)) hs.

(** [s.toUpperCase()] on an HTTP method, a token of ASCII characters. *)
Definition toUpperCase (s : ustr) : ustr :=
  map (fun c => if (97 <=? c)%N && (c <=? 122)%N then (c - 32)%N else c) s.

Definition HEADER_COMPONENTS : list ustr :=
  [u "content-digest"; u "content-type"; u "content-length"; u "operation-id"; u "x-hec-issued-at";
   u "x-hec-expires-at"; u "x-hec-nonce"; u "if-match"; u "content-range"].

(** [None]: the thrown error. *)
Definition componentValue (message : MutationMessage) (component : ustr) : option ustr :=
  if bool_decide (component = u "@method") then Some (toUpperCase (method message))
  else if bool_decide (component = u "@authority") then Some (toLowerCase (authority message))
  else if bool_decide (component = u "@target-uri") then Some (targetUri message)
  else if includes component HEADER_COMPONENTS then headerLookup (headers message) component
  else None.

Definition innerList (cs : list ustr) : ustr := 40%N :: join_unit SPACE (map sfString cs) ++ [41%N].

Definition signatureParamsInner (p : SignatureParams) : ustr :=
  innerList (covered p) ++ u ";created=" ++ int_toString (created p) ++ u ";expires=" ++ int_toString (expires p)
  ++ u ";nonce=" ++ sfString (nonce p) ++ u ";keyid=" ++ sfString (keyid p)
  ++ u ";alg=" ++ sfString (algName (alg p)) ++ u ";tag=" ++ sfString MUTATION_PROFILE_TAG.

Definition component_line (message : MutationMessage) (component : ustr) : option ustr :=
  v ← componentValue message component; Some (sfString component ++ u ": " ++ v).

Definition buildSignatureBase (message : MutationMessage) (p : SignatureParams) : option ustr :=
  lines ← mapM (component_line message) (covered p);
  Some (join_unit LF (lines ++ [QUOTE :: u "@signature-params" ++ QUOTE :: u ": " ++ signatureParamsInner p])).

Definition serializeSignatureInput (p : SignatureParams) : ustr :=
  SIGNATURE_LABEL ++ 61%N :: signatureParamsInner p.

Definition serializeSignature (signatureBytes : bytes) : ustr :=
  SIGNATURE_LABEL ++ 61%N :: sfByteSequence signatureBytes.

Definition coveredFor (message : MutationMessage) : list ustr :=
  MUTATION_SIGNATURE_COMPONENTS ++
  (match headerLookup (headers message) (u "if-match") with Some _ => [u "if-match"] | None => [] end) ++
  (match headerLookup (headers message) (u "content-range") with Some _ => [u "content-range"] | None => [] end).

(** ** Parsing *)

Definition splitParams (inner : ustr) : option (ustr * ustr) :=
  if negb (startsWith [40%N] inner) then None
  else e ← indexOf [41%N] inner; Some (take (e - 1) (drop 1 inner), drop (S e) inner).

(** The local variables of the parser's loop; [None] is [undefined], or NaN for the numbers. *)
Record Parsed := mkParsed {
  p_created : option Z;
  p_expires : option Z;
  p_nonce : option ustr;
  p_keyid : option ustr;
  p_alg : option SignatureAlg;
  p_tag : option ustr
}.

(** One [piece] of the loop; [None] is [return undefined]. *)
Definition parse_piece (st : Parsed) (piece : ustr) : option Parsed :=
  match piece with
  | [] => Some st
  | _ =>
      eq ← indexOf [61%N] piece;
      let name := take eq piece in
      let value := drop (S eq) piece in
      let '(mkParsed cr ex no ke al ta) := st in
      if bool_decide (name = u "created") then Some (mkParsed (parseInt10 value) ex no ke al ta)
      else if bool_decide (name = u "expires") then Some (mkParsed cr (parseInt10 value) no ke al ta)
      else if bool_decide (name = u "nonce") then Some (mkParsed cr ex (parseSfString value) ke al ta)
      else if bool_decide (name = u "keyid") then Some (mkParsed cr ex no (parseSfString value) al ta)
      else if bool_decide (name = u "alg") then
        Some (mkParsed cr ex no ke
          (if bool_decide (parseSfString value = Some (u "ed25519")) then Some ed25519
           else if bool_decide (parseSfString value = Some (u "ecdsa-p256-sha256")) then Some ecdsa_p256_sha256
           else al) ta)
      else if bool_decide (name = u "tag") then Some (mkParsed cr ex no ke al (parseSfString value))
      else None
  end.

Fixpoint parse_pieces (st : Parsed) (pieces : list ustr) : option Parsed :=
  match pieces with
  | [] => Some st
  | piece :: rest => st ← parse_piece st piece; parse_pieces st rest
  end.

Definition parseSignatureInput (header : ustr) : option SignatureParams :=
  let prefix := SIGNATURE_LABEL ++ [61%N] in
  if negb (startsWith prefix header) then None else
  '(lst, rest) ← splitParams (drop (length prefix) header);
  cov ← mapM parseSfString (List.filter (fun part => negb (bool_decide (part = []))) (split_unit SPACE lst));
  st ← parse_pieces (mkParsed None None None None None None) (split_unit SEMICOLON rest);
  match st with
  | mkParsed (Some cr) (Some ex) (Some no) (Some ke) (Some al) (Some ta) =>
      if bool_decide (ta = MUTATION_PROFILE_TAG) then Some (mkParams cr ex no ke al cov) else None
  | _ => None
  end.

Definition parseSignature (header : ustr) : option ustr :=
  let prefix := SIGNATURE_LABEL ++ [61%N] in
  if negb (startsWith prefix header) then None else parseSfByteSequence (drop (length prefix) header).

(** ** Signing and verifying *)

Inductive Refusal : Set :=
| r_headers | r_digest | r_signature | r_alg | r_skew | r_lifetime | r_nonce | r_components.

(** [/^[A-Za-z0-9_-]{43}$/] *)
Definition is_base64url (c : N) : bool :=
  in_range 65 90 c || in_range 97 122 c || is_digit c || (c =? 95)%N || (c =? 45)%N.
Definition nonce_ok (s : ustr) : bool := (length s =? 43)%nat && forallb is_base64url s.

Section Crypto.
Context {KeyObject : Type}.
Variable sha256 : bytes -> bytes.
(** [Date.parse]: milliseconds, [None] when not finite. *)
Variable Date_parse : ustr -> option Z.
(** [cryptoVerify(alg, base, publicKey, Buffer.from(signature, "base64"))] *)
Variable cryptoVerify : SignatureAlg -> bytes -> KeyObject -> ustr -> bool.
Variable cryptoSign : SignatureAlg -> bytes -> KeyObject -> bytes.

Definition contentDigestSha256 (bs : bytes) : ustr := u "sha-256=:" ++ b64_encode (sha256 bs) ++ u ":".

Definition unixSeconds (iso : ustr) : option Z := ms ← Date_parse iso; Some (ms / 1000)%Z.

Record SignedMutation := mkSigned { signatureInput : ustr; signature : ustr; signed_params : SignatureParams }.

(** [None]: a covered header is missing. *)
Definition signMutation (message : MutationMessage) (privateKey : KeyObject) (kid : ustr) (a : SignatureAlg)
    (cr ex : Z) (n : ustr) : option SignedMutation :=
  let params := mkParams cr ex n kid a (coveredFor message) in
  base ← buildSignatureBase message params;
  Some (mkSigned (serializeSignatureInput params)
          (serializeSignature (cryptoSign a (utf8_encode base) privateKey)) params).

Definition verifyMutation (message : MutationMessage) (publicKey : KeyObject) (nowSeconds : Z)
    (expectedKeyId : ustr) : result Refusal SignatureParams :=
  let header name := headerLookup (headers message) (u name) in
  match header "signature-input", header "signature" with
  | Some inputHeader, Some signatureHeader =>
      match parseSignatureInput inputHeader, parseSignature signatureHeader with
      | Some params, Some sig =>
          throw_if bool_decide (keyid params <> expectedKeyId) with r_signature;
          throw_if bool_decide (covered params <> coveredFor message) with r_components;
          throw_if bool_decide (header "content-digest" <> Some (contentDigestSha256 (body message))) with r_digest;
          throw_if bool_decide (header "x-hec-nonce" <> Some (nonce params)) with r_nonce;
          throw_if negb (nonce_ok (nonce params)) with r_nonce;
          match header "x-hec-issued-at", header "x-hec-expires-at" with
          | Some issuedAt, Some expiresAt =>
              match unixSeconds issuedAt, unixSeconds expiresAt with
              | Some issuedSeconds, Some expiresSeconds =>
                  throw_if (MAX_CREATED_SKEW_SECONDS <? Z.abs (created params - nowSeconds))%Z with r_skew;
                  throw_if (MAX_LIFETIME_SECONDS <? expires params - created params)%Z
                           || (expires params <=? created params)%Z with r_lifetime;
                  throw_if negb (created params =? issuedSeconds)%Z
                           || negb (expires params =? expiresSeconds)%Z with r_lifetime;
                  match buildSignatureBase message params with
                  | None => Err r_components
                  | Some base =>
                      throw_if negb (cryptoVerify (alg params) (utf8_encode base) publicKey sig) with r_signature;
                      Ok params
                  end
              | _, _ => Err r_headers
              end
          | _, _ => Err r_headers
          end
      | _, _ => Err r_headers
      end
  | _, _ => Err r_headers
  end.

Definition mutationHeaders (contentType : ustr) (bs : bytes) (opId issuedAt expiresAt n : ustr)
    (ifMatch : option ustr) : list (ustr * ustr) :=
  [(u "content-type", contentType); (u "content-length", int_toString (Z.of_nat (length bs)));
   (u "content-digest", contentDigestSha256 bs); (u "operation-id", opId);
   (u "x-hec-issued-at", issuedAt); (u "x-hec-expires-at", expiresAt); (u "x-hec-nonce", n)] ++
  match ifMatch with Some v => [(u "if-match", v)] | None => [] end.

(** The signer of faex1/apps/control-plane/src/host-runtime.ts, at the second [cr] with a fresh
    nonce and operation id.  [hs] is a JS object: a spread overwrites in place. *)
Definition spread_headers (a b : list (ustr * ustr)) : list (ustr * ustr) :=
  fold_left (fun acc kv => JsMap.set kv.1 kv.2 acc) b a.

Definition createMutationSigner (privateKey : KeyObject) (kid : ustr) (cr : Z) (freshNonce freshOperation : ustr)
    (mth host uri : ustr) (hs : list (ustr * ustr)) (bs : bytes) : option (list (ustr * ustr)) :=
  issuedAt ← Date_toISOString (cr * 1000)%Z;
  expiresAt ← Date_toISOString ((cr + 60) * 1000)%Z;
  let opId := default freshOperation (JsMap.get (u "operation-id") hs) in
  let contentType := default (u "application/json") (JsMap.get (u "content-type") hs) in
  let merged := spread_headers hs
    (mutationHeaders contentType bs opId issuedAt expiresAt freshNonce (JsMap.get (u "if-match") hs)) in
  signed ← signMutation (mkMessage mth host uri merged bs) privateKey kid ed25519 cr (cr + 60)%Z freshNonce;
  Some (spread_headers merged [(u "signature-input", signatureInput signed); (u "signature", signature signed)]).

End Crypto.
