(* ===== verification/MutationTheorems.v ===== *)
(** Signed mutations: a nonce serves one operation until it expires, what a verified message
    guarantees, a signed message verifies, the signature covers what it says, and what verification
    does not check. *)

From Stdlib Require Import String.
From S2P Require Import Prelude JsText CanonicalJson CanonicalJsonTheorems JsJson ChangeApply Replay.
Open Scope string_scope.
Open Scope list_scope.

(** ** The nonce cache *)

Section Nonces.
Import NonceCache.

(** A sequence of reservations, each with the clock it sees. *)
Fixpoint reserve_all (es : Entries) (calls : list (Z * Reservation)) : Entries :=
  match calls with
  | [] => es
  | (now, r) :: rest => reserve_all (fst (reserve now es r)) rest
  end.

Lemma sweep_get now es k e :
  JsMap.get k es = Some e -> (now < expiresAtMs e)%Z -> JsMap.get k (sweep now es) = Some e.
Proof.
  induction es as [|[k' e'] es IH]; cbn; [done|]. case_decide as Hk.
  - subst k'. intros [= ->] Hlt. assert ((expiresAtMs e <=? now)%Z = false) as -> by lia. cbn. by case_decide.
  - intros Hget Hlt. specialize (IH Hget Hlt). destruct (negb _); cbn; [|done]. by case_decide.
Qed.

Lemma sweep_get_none now es k :
  (forall e, JsMap.get k es = Some e -> (expiresAtMs e <= now)%Z) -> NoDup (JsMap.keys es) ->
  JsMap.get k (sweep now es) = None.
Proof.
  intros He Hn. apply JsMap.get_none. unfold JsMap.keys, sweep.
  intros (kv & -> & [Hin Hx]%elem_of_List_filter)%list_elem_of_fmap.
  specialize (He kv.2 (JsMap.elem_get kv.1 kv.2 es Hn ltac:(by destruct kv))).
  apply negb_true_iff, Z.leb_gt in Hx. lia.
Qed.

Lemma reserve_keeps now es r k e :
  JsMap.get k es = Some e -> (now < expiresAtMs e)%Z -> JsMap.get k (fst (reserve now es r)) = Some e.
Proof.
  intros Hget Hlt. pose proof (sweep_get _ _ _ _ Hget Hlt) as Hs. unfold reserve.
  destruct (JsMap.get (key_of r) (sweep now es)) as [e'|] eqn:E; cbn; [by destruct (bool_decide _)|].
  destruct (decide (k = key_of r)) as [->|Hk]; [congruence|]. by rewrite JsMap.get_set_ne.
Qed.

Lemma reserve_all_keeps calls es k e :
  JsMap.get k es = Some e -> Forall (fun c => (c.1 < expiresAtMs e)%Z) calls ->
  JsMap.get k (reserve_all es calls) = Some e.
Proof.
  revert es. induction calls as [|[now r] calls IH]; intros es Hget Hall; cbn; [done|].
  apply Forall_cons in Hall as [Hnow Hall]. apply IH; [|done]. by apply reserve_keeps.
Qed.

Lemma reserve_existing now es r e :
  JsMap.get (key_of r) es = Some e -> (now < expiresAtMs e)%Z ->
  snd (reserve now es r) = if bool_decide (entry_operationId e = operationId r) then same_operation else conflict.
Proof.
  intros Hget Hlt. unfold reserve. rewrite (sweep_get _ _ _ _ Hget Hlt). by destruct (bool_decide _).
Qed.

(** A reserved nonce belongs to one operation until it expires: whatever is reserved in between,
    a later reservation of the same nonce by the same principal and key answers "same operation"
    for the operation that holds it and "conflict" for every other. *)
Theorem nonce_single_operation now0 es0 r0 es1 calls now r :
  reserve now0 es0 r0 = (es1, reserved) ->
  principalId r = principalId r0 -> keyId r = keyId r0 -> NonceCache.nonce r = NonceCache.nonce r0 ->
  Forall (fun c => (c.1 < reservation_expiresAtMs r0)%Z) calls -> (now < reservation_expiresAtMs r0)%Z ->
  snd (reserve now (reserve_all es1 calls) r) =
    if bool_decide (operationId r = operationId r0) then same_operation else conflict.
Proof.
  intros H0 Hp Hk Hn Hcalls Hnow. assert (key_of r = key_of r0) as Hkey by (unfold key_of; congruence).
  assert (JsMap.get (key_of r0) es1 = Some (mkEntry (operationId r0) (reservation_expiresAtMs r0))) as Hget.
  { unfold reserve in H0. destruct (JsMap.get (key_of r0) _) as [e|]; [by destruct (bool_decide _)|].
    injection H0 as <-. apply JsMap.get_set_eq. }
  pose proof (reserve_all_keeps calls es1 _ _ Hget Hcalls) as Hget'. rewrite <- Hkey in Hget'.
  rewrite (reserve_existing now _ r _ Hget' Hnow). cbn [entry_operationId].
  by rewrite (bool_decide_ext (operationId r0 = operationId r) (operationId r = operationId r0)).
Qed.

Lemma nonce_single_operation_witness :
  let r0 := mkReservation (u "p") (u "k") (u "n") (u "op1") 100 in
  let r := mkReservation (u "p") (u "k") (u "n") (u "op2") 100 in
  snd (reserve 50 (reserve_all (fst (reserve 0 [] r0)) [(10%Z, r)]) r) = conflict.
Proof.
  intros r0 r. rewrite (nonce_single_operation 0 [] r0 (fst (reserve 0 [] r0)) [(10%Z, r)] 50 r);
    [reflexivity | reflexivity | reflexivity | reflexivity | reflexivity | repeat constructor; lia | cbn; lia].
Defined.
End Nonces.

(** ** Structured-field strings *)

Definition esc (x : N) : ustr :=
  if (BACKSLASH =? x)%N then [BACKSLASH; BACKSLASH] else if (QUOTE =? x)%N then [BACKSLASH; QUOTE] else [x].

Lemma sfString_escaped s : sfString s = QUOTE :: concat (map esc s) ++ [QUOTE].
Proof.
  unfold sfString. f_equal. f_equal. rewrite !replaceAll_unit. induction s as [|x s IH]; [done|].
  cbn [map concat]. rewrite map_app, concat_app, IH. f_equal. unfold esc.
  destruct (N.eqb_spec BACKSLASH x) as [<-|H1]; [reflexivity|]. cbn [map concat app]. rewrite app_nil_r. reflexivity.
Qed.

Definition unquoted (x : N) : ustr := if (BACKSLASH =? x)%N then [BACKSLASH; BACKSLASH] else [x].

Lemma escaped_head s t : concat (map esc s) = QUOTE :: t -> False.
Proof.
  destruct s as [|x s]; cbn [map concat]; [done|]. unfold esc at 1.
  destruct (N.eqb_spec BACKSLASH x) as [<-|H1]; cbn [app]; [done|].
  destruct (N.eqb_spec QUOTE x) as [<-|H2]; cbn [app]; [done|].
  intros Heq. injection Heq as Hx _. by symmetry in Hx.
Qed.

Lemma unescape_quotes s :
  replaceAll [BACKSLASH; QUOTE] [QUOTE] (concat (map esc s)) = concat (map unquoted s).
Proof.
  induction s as [|x s IH]; [done|]. cbn [map concat]. unfold esc at 1, unquoted at 1.
  destruct (N.eqb_spec BACKSLASH x) as [<-|H1]; cbn [app].
  - rewrite replaceAll_miss by done. f_equal.
    destruct (startsWith [BACKSLASH; QUOTE] (BACKSLASH :: concat (map esc s))) eqn:E.
    + exfalso. destruct (concat (map esc s)) as [|y t] eqn:Et; [done|]. cbn [startsWith] in E.
      apply andb_true_iff in E as [_ E]. apply andb_true_iff in E as [E _]. apply N.eqb_eq in E. subst y. by apply escaped_head in Et.
    + by rewrite replaceAll_miss, IH.
  - destruct (N.eqb_spec QUOTE x) as [<-|H2]; cbn [app].
    + etransitivity; [apply (replaceAll_hit [BACKSLASH; QUOTE]); done|]. by rewrite IH.
    + rewrite replaceAll_miss; [by rewrite IH | done|]. cbn [startsWith]. by rewrite (proj2 (N.eqb_neq _ _) H1).
Qed.

Lemma unescape_backslashes s :
  replaceAll [BACKSLASH; BACKSLASH] [BACKSLASH] (concat (map unquoted s)) = s.
Proof.
  induction s as [|x s IH]; [done|]. cbn [map concat]. unfold unquoted at 1.
  destruct (N.eqb_spec BACKSLASH x) as [<-|H1]; cbn [app].
  - etransitivity; [apply (replaceAll_hit [BACKSLASH; BACKSLASH]); done|]. by rewrite IH.
  - rewrite replaceAll_miss; [by rewrite IH | done|]. cbn [startsWith]. by rewrite (proj2 (N.eqb_neq _ _) H1).
Qed.

(** Escaping and the parser's two replacements are inverse on every string. *)
Lemma parse_sfString s : parseSfString (sfString s) = Some s.
Proof.
  unfold parseSfString. rewrite sfString_escaped, trim_ends by done.
  assert (endsWith [QUOTE] (QUOTE :: concat (map esc s) ++ [QUOTE]) = true) as ->.
  { unfold endsWith. change (QUOTE :: concat (map esc s) ++ [QUOTE]) with ((QUOTE :: concat (map esc s)) ++ [QUOTE]).
    by rewrite rev_unit. }
  cbn [startsWith negb orb]. rewrite N.eqb_refl. cbn [andb negb orb length]. rewrite length_app. cbn [length].
  assert ((S (length (concat (map esc s)) + 1) <? 2)%nat = false) as -> by (apply Nat.ltb_ge; lia).
  cbn [drop]. rewrite drop_0. replace (S (length (concat (map esc s)) + 1) - 2) with (length (concat (map esc s))) by lia.
  by rewrite take_app_length, unescape_quotes, unescape_backslashes.
Qed.

Lemma sfString_inj s t : sfString s = sfString t -> s = t.
Proof. intros H. apply (f_equal parseSfString) in H. rewrite !parse_sfString in H. by injection H. Qed.

Lemma sfString_avoids c s : c ∉ s -> c <> QUOTE -> c <> BACKSLASH -> c ∉ sfString s.
Proof.
  intros Hs Hq Hb. rewrite sfString_escaped. intros [?|[Hin|?%list_elem_of_singleton]%elem_of_app]%elem_of_cons; [done| |done].
  apply list_elem_of_In, in_concat in Hin as (l & (x & <- & Hx)%in_map_iff & Hl).
  apply list_elem_of_In in Hx, Hl. unfold esc in Hl. repeat case_match; set_solver.
Qed.

(** ** Decimal integers *)

Lemma is_digit_not_space c : is_digit c = true -> is_space c = false /\ (c =? 45)%N = false /\ (c =? 43)%N = false.
Proof.
  unfold is_digit. intros [H1%N.leb_le H2%N.leb_le]%andb_true_iff.
  assert (c ∈ [48; 49; 50; 51; 52; 53; 54; 55; 56; 57]%N) as Hc by (rewrite !elem_of_cons; lia).
  revert Hc. rewrite !elem_of_cons, elem_of_nil.
  intros Hc. repeat destruct Hc as [->|Hc]; try done.
Qed.

Lemma parseInt_toString z : (Z.abs z < MAX_DOUBLE)%Z -> parseInt10 (int_toString z) = Some z.
Proof.
  intros Hz. unfold int_toString. set (n := Z.abs_N z). pose proof (uint_units_digits (N.to_uint n)) as Hd.
  pose proof (units_uint_units (N.to_uint n)) as Hu. pose proof (span_digits_all _ Hd) as Hsp.
  assert (uint_units (N.to_uint n) <> []) as Hne.
  { destruct (to_uint_shape n) as [->|(c & r & -> & _)]; done. }
  assert (forall neg : bool, (match span_digits (uint_units (N.to_uint n)) with
    | ([], _) => None
    | (ds, _) => d ← units_uint ds; let z0 := Z.of_N (N.of_uint d) in
        if (z0 <? MAX_DOUBLE)%Z then Some (if neg then Z.opp z0 else z0) else None end)
    = Some (if neg then Z.opp (Z.of_N n) else Z.of_N n)) as Hcore.
  { intros neg. rewrite Hsp. destruct (uint_units (N.to_uint n)) as [|c r] eqn:E; [done|]. rewrite Hu. cbn [mbind option_bind].
    rewrite DecimalN.Unsigned.of_to. assert ((Z.of_N n <? MAX_DOUBLE)%Z = true) as ->; [|done].
    apply Z.ltb_lt. unfold n. by rewrite N2Z.inj_abs_N. }
  unfold parseInt10. destruct (z <? 0)%Z eqn:Hneg.
  - rewrite trimStart_head by done. etransitivity; [exact (Hcore true)|]. f_equal. unfold n. lia.
  - destruct (uint_units (N.to_uint n)) as [|c r] eqn:E; [done|]. apply Forall_cons in Hd as [Hc _].
    destruct (is_digit_not_space c Hc) as (Hs & H1 & H2). rewrite trimStart_head by done.
    rewrite H1, H2. etransitivity; [exact (Hcore false)|]. f_equal. unfold n. lia.
Qed.

(** ** Signature parameters *)

Lemma parse_piece_named st name value :
  61%N ∉ name -> name <> [] ->
  parse_piece st (name ++ 61%N :: value) =
  let '(mkParsed cr ex no ke al ta) := st in
  if bool_decide (name = u "created") then Some (mkParsed (parseInt10 value) ex no ke al ta)
  else if bool_decide (name = u "expires") then Some (mkParsed cr (parseInt10 value) no ke al ta)
  else if bool_decide (name = u "nonce") then Some (mkParsed cr ex (parseSfString value) ke al ta)
  else if bool_decide (name = u "keyid") then Some (mkParsed cr ex no (parseSfString value) al ta)
  else if bool_decide (name = u "alg") then
    Some (mkParsed cr ex no ke
      (if bool_decide (parseSfString value = Some (u "ed25519")) then Some ed25519
       else if bool_decide (parseSfString value = Some (u "ecdsa-p256-sha256")) then Some ecdsa_p256_sha256
       else al) ta)
  else if bool_decide (name = u "tag") then Some (mkParsed cr ex no ke al (parseSfString value))
  else None.
Proof.
  intros Hn Hne. unfold parse_piece. destruct (name ++ 61%N :: value) as [|x t] eqn:E; [by destruct name|].
  rewrite <- E, indexOf_unit by done. cbn [mbind option_bind]. rewrite take_app_length.
  replace (S (length name)) with (length (name ++ [61%N])) by (rewrite length_app; cbn; lia).
  replace (name ++ 61%N :: value) with ((name ++ [61%N]) ++ value) by (by rewrite <- app_assoc).
  by rewrite drop_app_length.
Qed.

Ltac piece name :=
  rewrite (parse_piece_named _ (u name)) by (first [apply includes_false; vm_compute; reflexivity | discriminate]);
  repeat first [rewrite (bool_decide_true (u name = u name)) by reflexivity
               | rewrite (bool_decide_false (u name = _)) by (vm_compute; discriminate)];
  cbn [mbind option_bind].

(** What the parser can read back: known component names, no semicolon in the key id. *)
Record params_ok (p : SignatureParams) : Prop := {
  po_covered : Forall (fun c => c ∈ u "@method" :: u "@authority" :: u "@target-uri" :: HEADER_COMPONENTS) (covered p);
  po_nonce : SEMICOLON ∉ nonce p;
  po_keyid : SEMICOLON ∉ keyid p;
  po_created : (Z.abs (created p) < MAX_DOUBLE)%Z;
  po_expires : (Z.abs (expires p) < MAX_DOUBLE)%Z
}.

Lemma component_clean c :
  c ∈ u "@method" :: u "@authority" :: u "@target-uri" :: HEADER_COMPONENTS ->
  SPACE ∉ c /\ 41%N ∉ c /\ QUOTE ∉ c /\ LF ∉ c /\ BACKSLASH ∉ c /\ SEMICOLON ∉ c.
Proof.
  intros Hc. assert (forallb (fun c => forallb (fun x => negb (includes x c)) [SPACE; 41%N; QUOTE; LF; BACKSLASH; SEMICOLON])
    (u "@method" :: u "@authority" :: u "@target-uri" :: HEADER_COMPONENTS) = true) as H by (vm_compute; reflexivity).
  rewrite forallb_forall in H. specialize (H c (proj1 (list_elem_of_In _ _) Hc)). rewrite forallb_forall in H.
  split_and!; apply includes_false, negb_true_iff, H; apply list_elem_of_In; apply includes_true; vm_compute; reflexivity.
Qed.

Lemma digits_avoid c z : is_digit c = false -> c <> 45%N -> c ∉ int_toString z.
Proof.
  intros Hc Hm Hin. unfold int_toString in Hin. pose proof (uint_units_digits (N.to_uint (Z.abs_N z))) as Hd.
  rewrite Forall_forall in Hd. destruct (z <? 0)%Z; [apply elem_of_cons in Hin as [?|Hin]; [done|]|];
    specialize (Hd c Hin); congruence.
Qed.

Lemma join_avoids c d ps : c <> d -> Forall (fun p => c ∉ p) ps -> c ∉ join_unit d ps.
Proof.
  intros Hne. induction ps as [|p ps IH]; intros Hps; [apply not_elem_of_nil|].
  apply Forall_cons in Hps as [Hp Hps]. destruct ps as [|q ps]; [done|].
  rewrite join_unit_cons by done. specialize (IH Hps). set_solver.
Qed.

Lemma covered_parsed cs :
  Forall (fun c => c ∈ u "@method" :: u "@authority" :: u "@target-uri" :: HEADER_COMPONENTS) cs ->
  mapM parseSfString (List.filter (fun part => negb (bool_decide (part = [])))
    (split_unit SPACE (join_unit SPACE (map sfString cs)))) = Some cs.
Proof.
  intros Hcs. destruct (decide (cs = [])) as [->|Hne]; [done|]. rewrite split_join.
  - clear Hne. induction cs as [|c cs IH]; [done|]. apply Forall_cons in Hcs as [_ Hcs]. cbn [map List.filter].
    rewrite bool_decide_false by done. cbn [negb mapM]. rewrite parse_sfString. cbn [mbind option_bind].
    by rewrite (IH Hcs).
  - by destruct cs.
  - apply Forall_forall. intros x (c & -> & Hc)%list_elem_of_fmap. rewrite Forall_forall in Hcs.
    apply sfString_avoids; [by apply component_clean, Hcs | done | done].
Qed.

(** Parsing gives back what was serialized. *)
Lemma parse_serialize p : params_ok p -> parseSignatureInput (serializeSignatureInput p) = Some p.
Proof.
  intros [Hcov Hno Hke Hcr Hex]. unfold parseSignatureInput, serializeSignatureInput.
  set (inner := signatureParamsInner p). set (cl := join_unit SPACE (map sfString (covered p))).
  set (pieces := [[]; u "created" ++ 61%N :: int_toString (created p); u "expires" ++ 61%N :: int_toString (expires p);
    u "nonce" ++ 61%N :: sfString (nonce p); u "keyid" ++ 61%N :: sfString (keyid p);
    u "alg" ++ 61%N :: sfString (algName (alg p)); u "tag" ++ 61%N :: sfString MUTATION_PROFILE_TAG]).
  assert (inner = (40%N :: cl) ++ 41%N :: join_unit SEMICOLON pieces) as Hinner.
  { unfold inner, signatureParamsInner, innerList, pieces, join_unit. fold cl. cbn [app]. f_equal.
    rewrite <- !app_assoc. cbn [app]. reflexivity. }
  assert (startsWith (SIGNATURE_LABEL ++ [61%N]) (SIGNATURE_LABEL ++ 61%N :: inner) = true) as -> by reflexivity.
  cbn [negb]. change (drop (length (SIGNATURE_LABEL ++ [61%N])) (SIGNATURE_LABEL ++ 61%N :: inner)) with (drop 0 inner).
  rewrite drop_0. unfold splitParams.
  assert (startsWith [40%N] inner = true) as -> by (by rewrite Hinner). cbn [negb].
  assert (41%N ∉ 40%N :: cl) as H41.
  { apply not_elem_of_cons. split; [done|]. apply join_avoids; [done|]. apply Forall_forall.
    intros x (c & -> & Hc)%list_elem_of_fmap. rewrite Forall_forall in Hcov.
    apply sfString_avoids; [by apply component_clean, Hcov | done | done]. }
  rewrite Hinner at 1. rewrite indexOf_unit by done. cbn [mbind option_bind length].
  replace (take (S (length cl) - 1) (drop 1 inner)) with cl.
  2: { rewrite Hinner. cbn [app drop]. rewrite drop_0. replace (S (length cl) - 1) with (length cl) by lia. by rewrite take_app_length. }
  replace (drop (S (S (length cl))) inner) with (join_unit SEMICOLON pieces).
  2: { rewrite Hinner. cbn [app drop].
       replace (cl ++ 41%N :: join_unit SEMICOLON pieces) with ((cl ++ [41%N]) ++ join_unit SEMICOLON pieces) by (by rewrite <- app_assoc).
       replace (S (length cl)) with (length (cl ++ [41%N])) by (rewrite length_app; cbn; lia). by rewrite drop_app_length. }
  pose proof (covered_parsed (covered p) Hcov) as Hparsed. fold cl in Hparsed. rewrite Hparsed. cbn [mbind option_bind].
  assert (forall s, SEMICOLON ∉ s -> SEMICOLON ∉ sfString s) as Hsf by (intros s Hs; by apply sfString_avoids).
  rewrite split_join; [|done|].
  - unfold pieces. cbn [parse_pieces]. change (parse_piece ?st []) with (Some st). cbn [mbind option_bind].
    piece "created". piece "expires". piece "nonce". piece "keyid". piece "alg". piece "tag".
    rewrite !parse_sfString, !parseInt_toString by done. cbn [mbind option_bind].
    rewrite (bool_decide_true (MUTATION_PROFILE_TAG = _)) by done.
    destruct p as [cr ex no ke al cov]. cbn. destruct al.
    + by rewrite bool_decide_true.
    + by rewrite bool_decide_false, bool_decide_true.
  - assert (forall name v, includes SEMICOLON name = false -> SEMICOLON ∉ v -> SEMICOLON ∉ name ++ 61%N :: v) as Hpiece.
    { intros name v Hn%includes_false Hv. rewrite elem_of_app, elem_of_cons. intros [?|[?|?]]; done. }
    assert (forall z, SEMICOLON ∉ int_toString z) as Hint by (intros z; by apply digits_avoid).
    unfold pieces. repeat apply Forall_cons_2; try apply Forall_nil_2; try (by apply not_elem_of_nil);
      apply Hpiece; try (vm_compute; reflexivity); try done; try (by apply Hint); apply Hsf; try done.
    + destruct (alg p); apply includes_false; vm_compute; reflexivity.
    + apply includes_false; vm_compute; reflexivity.
Qed.

(** ** The signature base *)

Lemma sfString_plain s : QUOTE ∉ s -> BACKSLASH ∉ s -> sfString s = QUOTE :: s ++ [QUOTE].
Proof.
  intros Hq Hb. rewrite sfString_escaped. f_equal. f_equal. induction s as [|x s IH]; [done|].
  cbn [map concat]. rewrite IH by set_solver. unfold esc.
  rewrite (proj2 (N.eqb_neq BACKSLASH x)), (proj2 (N.eqb_neq QUOTE x)) by set_solver. done.
Qed.

Definition known_component (c : ustr) : Prop :=
  c ∈ u "@method" :: u "@authority" :: u "@target-uri" :: HEADER_COMPONENTS.

Lemma component_line_inj m m' c c' l :
  known_component c -> known_component c' -> component_line m c = Some l -> component_line m' c' = Some l ->
  c = c' /\ componentValue m c = componentValue m' c.
Proof.
  intros Hc Hc'. destruct (component_clean c Hc) as (_ & _ & Hq & _ & Hb & _).
  destruct (component_clean c' Hc') as (_ & _ & Hq' & _ & Hb' & _). unfold component_line.
  destruct (componentValue m c) as [v|] eqn:Ev; [|done]. destruct (componentValue m' c') as [v'|] eqn:Ev'; [|done].
  cbn [mbind option_bind]. intros H%(inj Some) H'%(inj Some). rewrite <- H' in H.
  rewrite !sfString_plain in H by done. injection H as H. rewrite <- !app_assoc in H. cbn [app] in H.
  apply app_unit_inj in H as [-> H]; [|done|done]. injection H as ->. split; [done | congruence].
Qed.

Lemma component_lines_inj m m' cs cs' lines :
  Forall known_component cs -> Forall known_component cs' ->
  mapM (component_line m) cs = Some lines -> mapM (component_line m') cs' = Some lines ->
  cs = cs' /\ forall c, c ∈ cs -> componentValue m c = componentValue m' c.
Proof.
  rewrite !mapM_Some. intros Hk Hk' H H'. revert cs' Hk' H'.
  induction H as [|c l cs lines Hc H IH]; intros cs' Hk' H'; inversion H' as [|c' l' cs2 lines' Hc' H2]; subst.
  - split; [done|]. intros c Hc. by apply not_elem_of_nil in Hc.
  - apply Forall_cons in Hk as [Hkc Hk]. apply Forall_cons in Hk' as [Hkc' Hk'].
    destruct (component_line_inj m m' c c' l) as [<- Hv]; try done.
    destruct (IH Hk cs2 Hk' H2) as [<- Hvs]. split; [done|].
    intros x [->|Hx]%elem_of_cons; [done | by apply Hvs].
Qed.

Lemma lines_clean m cs lines :
  Forall known_component cs -> (forall c v, c ∈ cs -> componentValue m c = Some v -> LF ∉ v) ->
  mapM (component_line m) cs = Some lines -> Forall (fun l => LF ∉ l) lines.
Proof.
  rewrite mapM_Some. intros Hk Hv H. induction H as [|c l cs lines Hc H IH]; [constructor|].
  apply Forall_cons in Hk as [Hkc Hk]. constructor.
  - unfold component_line in Hc. destruct (componentValue m c) as [v|] eqn:Ev; [|done].
    cbn [mbind option_bind] in Hc. apply (inj Some) in Hc as <-. specialize (Hv c v (list_elem_of_here _ _) Ev).
    destruct (component_clean c Hkc) as (_ & _ & _ & Hlf & _). rewrite !elem_of_app.
    intros [Hin|[Hin|Hin]]; [|apply includes_true in Hin; discriminate Hin | done].
    revert Hin. by apply sfString_avoids.
  - apply IH; [done|]. intros c' v Hc'. apply Hv. by right.
Qed.

(** The signature base binds the request: two messages with the same base, whose covered values
    and parameters contain no line feed, have the same covered components with the same values.
    A signature over one request cannot be used for a request with another method, authority,
    target, body digest, operation or nonce. *)
Lemma base_binds m m' p p' base :
  Forall known_component (covered p) -> Forall known_component (covered p') ->
  (forall c v, c ∈ covered p -> componentValue m c = Some v -> LF ∉ v) ->
  (forall c v, c ∈ covered p' -> componentValue m' c = Some v -> LF ∉ v) ->
  LF ∉ signatureParamsInner p -> LF ∉ signatureParamsInner p' ->
  buildSignatureBase m p = Some base -> buildSignatureBase m' p' = Some base ->
  covered p = covered p' /\ signatureParamsInner p = signatureParamsInner p' /\
  forall c, c ∈ covered p -> componentValue m c = componentValue m' c.
Proof.
  intros Hk Hk' Hv Hv' Hp Hp' H H'. unfold buildSignatureBase in H, H'.
  destruct (mapM (component_line m) (covered p)) as [lines|] eqn:E; [|done].
  destruct (mapM (component_line m') (covered p')) as [lines'|] eqn:E'; [|done].
  cbn [mbind option_bind] in H, H'. apply (inj Some) in H, H'. rewrite <- H' in H.
  pose proof (lines_clean _ _ _ Hk Hv E) as Hl. pose proof (lines_clean _ _ _ Hk' Hv' E') as Hl'.
  assert (forall q, LF ∉ q -> LF ∉ QUOTE :: u "@signature-params" ++ QUOTE :: u ": " ++ q) as Hlast.
  { intros q Hq. rewrite !elem_of_cons, elem_of_app, elem_of_cons, elem_of_app.
    intros [Hin|[Hin|[Hin|[Hin|Hin]]]]; try done; apply includes_true in Hin; discriminate Hin. }
  apply join_unit_inj in H.
  - apply app_inj_tail in H as [-> Hlast'].
    apply (app_inv_head (QUOTE :: u "@signature-params" ++ QUOTE :: u ": ") (signatureParamsInner p)) in Hlast'.
    destruct (component_lines_inj m m' (covered p) (covered p') lines') as [Hcov Hvals]; [exact Hk|exact Hk'|exact E|exact E'|].
    by split_and!.
  - by destruct lines.
  - by destruct lines'.
  - apply Forall_app. split; [done|]. constructor; [by apply Hlast | constructor].
  - apply Forall_app. split; [done|]. constructor; [by apply Hlast | constructor].
Qed.

Lemma base_binds_sample :
  let m := mkMessage (u "post") (u "Host") (u "/v1/runs") [(u "x-hec-nonce", u "n")] [] in
  let m' := mkMessage (u "POST") (u "host") (u "/v1/runs") [(u "X-HEC-Nonce", u "n")] [] in
  let p := mkParams 10 20 (u "n") (u "k") ed25519 [u "@method"; u "@authority"; u "x-hec-nonce"] in
  componentValue m (u "@method") = componentValue m' (u "@method").
Proof.
  intros m m' p.
  destruct (buildSignatureBase m p) as [base|] eqn:E; [|vm_compute in E; discriminate E].
  refine (proj2 (proj2 (base_binds m m' p p base _ _ _ _ _ _ E _)) (u "@method") _).
  1-2: repeat constructor.
  1-2: intros c v [->|[->|[->|[]%not_elem_of_nil]%elem_of_cons]%elem_of_cons]%elem_of_cons Hv;
       vm_compute in Hv; apply (inj Some) in Hv; subst v; apply includes_false; vm_compute; reflexivity.
  1-2: apply includes_false; vm_compute; reflexivity.
  - rewrite <- E. vm_compute. reflexivity.
  - left.
Defined.

(** Verification of signed mutations: what an accepted message satisfies, that the requests of the
    control plane's own signer are accepted, and that an expired signature is accepted too. *)

Open Scope string_scope.
Open Scope list_scope.

(** ** Header objects *)

Definition lower_keys (hs : list (ustr * ustr)) : Prop := Forall (fun k => toLowerCase k = k) (JsMap.keys hs).

Lemma headerLookup_get hs name :
  lower_keys hs -> toLowerCase name = name -> headerLookup hs name = JsMap.get name hs.
Proof.
  intros Hk Hn. unfold headerLookup. rewrite Hn. induction hs as [|[k v] hs IH]; [done|].
  apply Forall_cons in Hk as [Hk0 Hk]. cbn [array_find fst JsMap.get]. cbn [JsMap.keys map fst] in Hk0.
  rewrite Hk0. case_decide as Hd.
  - by rewrite bool_decide_true.
  - rewrite bool_decide_false by congruence. by apply IH.
Qed.

Lemma get_spread_headers k a b :
  NoDup (JsMap.keys b) ->
  JsMap.get k (spread_headers a b) = match JsMap.get k b with Some v => Some v | None => JsMap.get k a end.
Proof.
  unfold spread_headers. revert a. induction b as [|[k0 v0] b IH]; intros a Hn; [done|].
  apply NoDup_cons in Hn as [Hn0 Hn]. cbn [fold_left fst snd JsMap.get]. rewrite IH by done.
  rewrite JsMap.get_set. case_decide as Hk; [|done]. subst k0.
  by rewrite (proj2 (JsMap.get_none k b)).
Qed.

Lemma spread_lower a b : lower_keys a -> lower_keys b -> lower_keys (spread_headers a b).
Proof.
  unfold spread_headers. revert a. induction b as [|[k v] b IH]; intros a Ha Hb; [done|].
  apply Forall_cons in Hb as [Hk Hb]. apply IH; [|done]. apply Forall_forall.
  intros x [->|Hx]%JsMap.elem_of_keys_set; [done|]. by eapply Forall_forall in Ha.
Qed.

(** Adding headers that no component covers leaves the base unchanged. *)
Lemma coveredFor_ext mth host uri hs hs' bs :
  (forall c, c ∈ HEADER_COMPONENTS -> headerLookup hs c = headerLookup hs' c) ->
  coveredFor (mkMessage mth host uri hs bs) = coveredFor (mkMessage mth host uri hs' bs).
Proof.
  intros H. unfold coveredFor. cbn [headers].
  by rewrite (H (u "if-match")), (H (u "content-range")) by (apply includes_true; vm_compute; reflexivity).
Qed.

Lemma componentValue_ext mth host uri hs hs' bs c :
  (forall c, c ∈ HEADER_COMPONENTS -> headerLookup hs c = headerLookup hs' c) ->
  componentValue (mkMessage mth host uri hs bs) c = componentValue (mkMessage mth host uri hs' bs) c.
Proof.
  intros H. unfold componentValue. repeat (destruct (bool_decide _); [done|]).
  destruct (includes c HEADER_COMPONENTS) eqn:E; [|done]. by apply H, includes_true.
Qed.

Lemma base_ext mth host uri hs hs' bs p :
  (forall c, c ∈ HEADER_COMPONENTS -> headerLookup hs c = headerLookup hs' c) ->
  buildSignatureBase (mkMessage mth host uri hs bs) p = buildSignatureBase (mkMessage mth host uri hs' bs) p.
Proof.
  intros H. unfold buildSignatureBase. f_equal. apply mapM_ext. intros c.
  unfold component_line. by rewrite (componentValue_ext mth host uri hs hs').
Qed.

Lemma coveredFor_known m : Forall known_component (coveredFor m).
Proof.
  unfold coveredFor. repeat apply Forall_app_2; [| by case_match; repeat constructor | by case_match; repeat constructor].
  apply Forall_forall. intros c Hc. apply includes_true.
  assert (forallb (fun c => includes c (u "@method" :: u "@authority" :: u "@target-uri" :: HEADER_COMPONENTS))
    MUTATION_SIGNATURE_COMPONENTS = true) as H by (vm_compute; reflexivity).
  rewrite forallb_forall in H. by apply H, list_elem_of_In.
Qed.

Lemma base64url_avoids s c : nonce_ok s = true -> is_base64url c = false -> c ∉ s.
Proof.
  unfold nonce_ok. intros [_ H]%andb_true_iff Hc Hin. rewrite forallb_forall in H.
  apply list_elem_of_In in Hin. specialize (H c Hin). congruence.
Qed.

Section Verification.
Context {KeyObject : Type}.
Variable sha256 : bytes -> bytes.
Variable Date_parse : ustr -> option Z.
Variable cryptoVerify : SignatureAlg -> bytes -> KeyObject -> ustr -> bool.

(** ** What verification accepts *)

(** The reading of an accepted message, component by component. *)
Record accepted (m : MutationMessage) (pk : KeyObject) (now : Z) (kid : ustr) (p : SignatureParams) : Prop := {
  ac_input : headerLookup (headers m) (u "signature-input") ≫= parseSignatureInput = Some p;
  ac_keyid : keyid p = kid;
  ac_covered : covered p = coveredFor m;
  ac_digest : headerLookup (headers m) (u "content-digest") = Some (contentDigestSha256 sha256 (body m));
  ac_nonce : headerLookup (headers m) (u "x-hec-nonce") = Some (nonce p);
  ac_nonce_shape : nonce_ok (nonce p) = true;
  ac_issued : headerLookup (headers m) (u "x-hec-issued-at") ≫= unixSeconds Date_parse = Some (created p);
  ac_expires : headerLookup (headers m) (u "x-hec-expires-at") ≫= unixSeconds Date_parse = Some (expires p);
  ac_skew : (Z.abs (created p - now) <= 30)%Z;
  ac_lifetime : (created p < expires p <= created p + 120)%Z;
  ac_signature : exists sig base,
    headerLookup (headers m) (u "signature") ≫= parseSignature = Some sig /\
    buildSignatureBase m p = Some base /\ cryptoVerify (alg p) (utf8_encode base) pk sig = true
}.

Lemma verifyMutation_sound m pk now kid p :
  verifyMutation sha256 Date_parse cryptoVerify m pk now kid = Ok p -> accepted m pk now kid p.
Proof.
  unfold verifyMutation.
  destruct (headerLookup _ (u "signature-input")) as [ih|] eqn:E1; [|done].
  destruct (headerLookup _ (u "signature")) as [sh|] eqn:E2; [|done].
  destruct (parseSignatureInput ih) as [q|] eqn:E3; [|done]. destruct (parseSignature sh) as [sig|] eqn:E4; [|done].
  case_bool_decide as H1; [done|]. case_bool_decide as H2; [done|]. case_bool_decide as H3; [done|].
  case_bool_decide as H4; [done|]. destruct (nonce_ok (nonce q)) eqn:H5; [|done]. cbn [negb].
  destruct (headerLookup _ (u "x-hec-issued-at")) as [ia|] eqn:E5; [|done].
  destruct (headerLookup _ (u "x-hec-expires-at")) as [ea|] eqn:E6; [|done].
  destruct (unixSeconds Date_parse ia) as [iss|] eqn:E7; [|done].
  destruct (unixSeconds Date_parse ea) as [exs|] eqn:E8; [|done].
  destruct (_ <? Z.abs _)%Z eqn:H6; [done|]. destruct ((_ <? _)%Z || _) eqn:H7; [done|].
  destruct (negb (created q =? iss)%Z || _) eqn:H8; [done|].
  destruct (buildSignatureBase m q) as [base|] eqn:E9; [|done].
  destruct (cryptoVerify _ _ _ _) eqn:H9; [|done]. cbn [negb]. intros [= <-].
  unfold MAX_CREATED_SKEW_SECONDS, MAX_LIFETIME_SECONDS in *.
  apply orb_false_iff in H7 as [H7 H7'], H8 as [H8 H8']. apply negb_false_iff, Z.eqb_eq in H8, H8'. subst iss exs.
  constructor; rewrite ?E1, ?E2, ?E5, ?E6; cbn; try done; try lia. by exists sig, base.
Qed.

Lemma verifyMutation_complete m pk now kid p :
  accepted m pk now kid p -> verifyMutation sha256 Date_parse cryptoVerify m pk now kid = Ok p.
Proof.
  unfold verifyMutation.
  intros [Hi Hk Hc Hd Hn Hs Hia Hea Hsk Hl (sig & base & Hsig & Hb & Hv)].
  destruct (headerLookup _ (u "signature-input")) as [ih|] eqn:E1; [|done].
  destruct (headerLookup _ (u "signature")) as [sh|] eqn:E2; [|done].
  cbn [mbind option_bind] in Hi, Hsig. rewrite Hi, Hsig, Hn, Hs, Hd, Hb, Hv.
  destruct (headerLookup _ (u "x-hec-issued-at")) as [ia|] eqn:E5; [|done].
  destruct (headerLookup _ (u "x-hec-expires-at")) as [ea|] eqn:E6; [|done].
  cbn [mbind option_bind] in Hia, Hea. rewrite Hia, Hea, !bool_decide_false by tauto.
  unfold MAX_CREATED_SKEW_SECONDS, MAX_LIFETIME_SECONDS. cbn [negb].
  rewrite (proj2 (Z.ltb_ge _ _)) by lia. rewrite (proj2 (Z.ltb_ge _ _)) by lia.
  rewrite (proj2 (Z.leb_gt _ _)) by lia. by rewrite !Z.eqb_refl.
Qed.

(** Verification accepts a message exactly when every check of its reading holds. *)
Lemma verifyMutation_exact m pk now kid p :
  verifyMutation sha256 Date_parse cryptoVerify m pk now kid = Ok p <-> accepted m pk now kid p.
Proof. split; [apply verifyMutation_sound | apply verifyMutation_complete]. Qed.

(** *** What an accepted signature covers *)

(** The components of the profile, in order, and the digest of the body among them. *)
Record covers_message (m : MutationMessage) (p : SignatureParams) : Prop := {
  cv_components : covered p =
    map u ["@method"; "@authority"; "@target-uri"; "content-digest"; "content-type"; "content-length"; "operation-id"; "x-hec-issued-at";
           "x-hec-expires-at"; "x-hec-nonce"] ++
    (if headerLookup (headers m) (u "if-match") then [u "if-match"] else []) ++
    (if headerLookup (headers m) (u "content-range") then [u "content-range"] else []);
  cv_body : headerLookup (headers m) (u "content-digest") = Some (contentDigestSha256 sha256 (body m))
}.

Lemma accepted_covers m pk now kid p : accepted m pk now kid p -> covers_message m p.
Proof. intros H. split; [|apply H]. rewrite (ac_covered _ _ _ _ _ H). unfold coveredFor. by repeat destruct (headerLookup _ _). Qed.

(** A request read from HTTP: no value has a line feed in it. *)
Definition single_line (m : MutationMessage) : Prop := forall c v, componentValue m c = Some v -> LF ∉ v.

Lemma params_clean m pk now kid p : accepted m pk now kid p -> LF ∉ kid -> LF ∉ signatureParamsInner p.
Proof.
  intros H Hkid. pose proof (coveredFor_known m) as Hk. rewrite <- (ac_covered _ _ _ _ _ H) in Hk.
  assert (Hlit : forall s, includes LF (u s) = false -> LF ∉ u s) by (intros s; apply includes_false).
  assert (Hlist : LF ∉ innerList (covered p)).
  { unfold innerList. rewrite elem_of_cons, elem_of_app, list_elem_of_singleton. intros [?|[Hin|?]]; [done| |done]. revert Hin. apply join_avoids; [done|].
    apply Forall_forall. intros x (c & -> & Hc)%list_elem_of_fmap. rewrite Forall_forall in Hk.
    destruct (component_clean c (Hk c Hc)) as (_ & _ & _ & Hlf & _). by apply sfString_avoids. }
  unfold signatureParamsInner. rewrite !elem_of_app. rewrite (ac_keyid _ _ _ _ _ H).
  intros Hin. repeat match type of Hin with _ \/ _ => destruct Hin as [Hin|Hin] end; revert Hin;
    first [exact Hlist | by apply digits_avoid | by apply Hlit | apply sfString_avoids; try done].
  - eapply base64url_avoids; [apply H | done].
  - destruct (alg p); apply includes_false; vm_compute; reflexivity.
  - apply includes_false. vm_compute. reflexivity.
Qed.

(** What two messages share that one signature is accepted for. *)
Record same_request (m m' : MutationMessage) : Prop := {
  sq_method : toUpperCase (method m) = toUpperCase (method m');
  sq_authority : toLowerCase (authority m) = toLowerCase (authority m');
  sq_target : targetUri m = targetUri m';
  sq_headers : forall name, name ∈ map u ["content-digest"; "content-type"; "content-length"; "operation-id"; "x-hec-issued-at"; "x-hec-expires-at";
      "x-hec-nonce"; "if-match"; "content-range"] -> headerLookup (headers m) name = headerLookup (headers m') name;
  sq_body : body m = body m' \/ body m <> body m' /\ contentDigestSha256 sha256 (body m) = contentDigestSha256 sha256 (body m')
}.

(** The conditional components are present in both messages or in neither. *)
Lemma conditional_same m m' p p' : covers_message m p -> covers_message m' p' -> covered p = covered p' ->
  (forall c, c ∈ covered p -> componentValue m c = componentValue m' c) ->
  forall c, c ∈ [u "if-match"; u "content-range"] -> headerLookup (headers m) c = headerLookup (headers m') c.
Proof.
  intros [Hc _] [Hc' _] Hsame Hv c Hin. assert (Hcv : forall x, componentValue x c = headerLookup (headers x) c).
  { intros x. repeat (apply elem_of_cons in Hin as [->|Hin]; [reflexivity|]). by apply not_elem_of_nil in Hin. }
  rewrite Hc, Hc' in Hsame. destruct (headerLookup (headers m) c) as [v|] eqn:E, (headerLookup (headers m') c) as [v'|] eqn:E'; [| | |done].
  - rewrite <- E, <- E', <- !Hcv. apply Hv. rewrite Hc.
    repeat (apply elem_of_cons in Hin as [->|Hin]; [rewrite E; apply includes_true; by destruct (headerLookup _ _)|]). by apply not_elem_of_nil in Hin.
  - repeat (apply elem_of_cons in Hin as [->|Hin]; [rewrite E, E' in Hsame; repeat destruct (headerLookup _ _); vm_compute in Hsame; discriminate Hsame|]).
    by apply not_elem_of_nil in Hin.
  - repeat (apply elem_of_cons in Hin as [->|Hin]; [rewrite E, E' in Hsame; repeat destruct (headerLookup _ _); vm_compute in Hsame; discriminate Hsame|]).
    by apply not_elem_of_nil in Hin.
Qed.

Lemma accepted_same_request m m' p p' : covers_message m p -> covers_message m' p' -> covered p = covered p' ->
  (forall c, c ∈ covered p -> componentValue m c = componentValue m' c) -> same_request m m'.
Proof.
  intros Hc Hc' Hcov Hv. pose proof (conditional_same _ _ _ _ Hc Hc' Hcov Hv) as Hcond.
  assert (Hin : forall c, c ∈ MUTATION_SIGNATURE_COMPONENTS -> componentValue m c = componentValue m' c).
  { intros c Hin. apply Hv. rewrite (cv_components _ _ Hc). apply elem_of_app. by left. }
  assert (Hmember : forall c, includes c MUTATION_SIGNATURE_COMPONENTS = true -> componentValue m c = componentValue m' c).
  { intros c Hin'. apply Hin. by apply includes_true. }
  assert (Hh : forall name, name ∈ map u ["content-digest"; "content-type"; "content-length"; "operation-id"; "x-hec-issued-at"; "x-hec-expires-at";
      "x-hec-nonce"; "if-match"; "content-range"] -> headerLookup (headers m) name = headerLookup (headers m') name).
  { intros name Hn. do 7 (apply elem_of_cons in Hn as [->|Hn];
      [match goal with |- headerLookup _ ?c = _ => exact (Hmember c ltac:(vm_compute; reflexivity)) end|]). by apply Hcond. }
  split.
  - pose proof (Hmember (u "@method") ltac:(vm_compute; reflexivity)) as H. by apply (inj Some) in H.
  - pose proof (Hmember (u "@authority") ltac:(vm_compute; reflexivity)) as H. by apply (inj Some) in H.
  - pose proof (Hmember (u "@target-uri") ltac:(vm_compute; reflexivity)) as H. by apply (inj Some) in H.
  - exact Hh.
  - destruct (decide (body m = body m')); [by left|]. right. split; [done|].
    pose proof (Hh (u "content-digest") ltac:(by left)) as H. rewrite (cv_body _ _ Hc), (cv_body _ _ Hc') in H. by apply (inj Some) in H.
Qed.

(** C31: an accepted signature fixes the request.  The key verifies it over the signed text, under the expected key id, with Ed25519
    or ECDSA P-256; it covers the components of the profile, in order, with the digest of the body and a nonce of 43 base64url
    characters; its lifetime is positive and at most 120 s, and its creation is within 30 s of the clock.  When the signed text of two accepted
    requests of a principal is the same, they have the same method, authority and target, the same values of the covered headers,
    the operation id, the nonce, the precondition and the range among them, the same body unless SHA-256 collides, the same times, and they
    were accepted within 60 s of each other. *)
Theorem accepted_signature_binds m m' pk pk' now now' kid p p' base :
  verifyMutation sha256 Date_parse cryptoVerify m pk now kid = Ok p -> verifyMutation sha256 Date_parse cryptoVerify m' pk' now' kid = Ok p' ->
  single_line m -> single_line m' -> LF ∉ kid ->
  buildSignatureBase m p = Some base -> buildSignatureBase m' p' = Some base ->
  (exists sig, headerLookup (headers m) (u "signature") ≫= parseSignature = Some sig /\ cryptoVerify (alg p) (utf8_encode base) pk sig = true) /\
  keyid p = kid /\ covers_message m p /\ (length (nonce p) = 43 /\ Forall (fun c => is_base64url c = true) (nonce p)) /\
  (created p < expires p <= created p + 120)%Z /\ (Z.abs (created p - now) <= 30)%Z /\
  same_request m m' /\ nonce p = nonce p' /\ created p = created p' /\ expires p = expires p' /\ (Z.abs (now - now') <= 60)%Z.
Proof.
  intros H%verifyMutation_sound H'%verifyMutation_sound Hl Hl' Hk Hb Hb'. pose proof (accepted_covers _ _ _ _ _ H) as Hc.
  pose proof (accepted_covers _ _ _ _ _ H') as Hc'. pose proof (coveredFor_known m) as Hkn. pose proof (coveredFor_known m') as Hkn'.
  rewrite <- (ac_covered _ _ _ _ _ H) in Hkn. rewrite <- (ac_covered _ _ _ _ _ H') in Hkn'.
  destruct (base_binds m m' p p' base Hkn Hkn') as (Hcov & _ & Hv); try done;
    [by intros c v _; apply Hl | by intros c v _; apply Hl' | by eapply params_clean | by eapply params_clean|].
  pose proof (accepted_same_request _ _ _ _ Hc Hc' Hcov Hv) as Hs. destruct H, H'.
  assert (Hmem : forall c, includes c HEADER_COMPONENTS = true -> headerLookup (headers m) c = headerLookup (headers m') c).
  { intros c Hin. apply Hs. by apply includes_true. }
  rewrite (Hmem (u "x-hec-nonce")) in ac_nonce0 by (vm_compute; reflexivity). rewrite (Hmem (u "x-hec-issued-at")) in ac_issued0 by (vm_compute; reflexivity).
  rewrite (Hmem (u "x-hec-expires-at")) in ac_expires0 by (vm_compute; reflexivity).
  apply andb_true_iff in ac_nonce_shape0 as [Hlen Hshape]. apply Nat.eqb_eq in Hlen.
  assert (created p = created p') by congruence. split_and!; try done; try congruence; try lia.
  - destruct ac_signature0 as (sig & base' & Hsig & Hbase & Hver). rewrite Hb in Hbase. injection Hbase as <-. by exists sig.
  - apply Forall_forall. intros c Hc0. rewrite forallb_forall in Hshape. by apply Hshape, list_elem_of_In.
Qed.

End Verification.

(** ** A signed request is accepted *)

Section Signing.
Context {KeyObject : Type}.
Variable sha256 : bytes -> bytes.
Variable Date_parse : ustr -> option Z.
Variable cryptoVerify : SignatureAlg -> bytes -> KeyObject -> ustr -> bool.
Variable cryptoSign : SignatureAlg -> bytes -> KeyObject -> bytes.

Lemma parse_signature bs : parseSignature (serializeSignature bs) = Some (b64_encode bs).
Proof.
  unfold parseSignature, serializeSignature.
  assert (startsWith (SIGNATURE_LABEL ++ [61%N]) (SIGNATURE_LABEL ++ 61%N :: sfByteSequence bs) = true) as -> by done.
  cbn [negb]. change (drop (length (SIGNATURE_LABEL ++ [61%N])) (SIGNATURE_LABEL ++ 61%N :: sfByteSequence bs))
    with (drop 0 (sfByteSequence bs)). rewrite drop_0.
  unfold parseSfByteSequence, sfByteSequence. rewrite trim_ends by done.
  assert (endsWith [COLON] (COLON :: b64_encode bs ++ [COLON]) = true) as ->.
  { unfold endsWith. change (COLON :: b64_encode bs ++ [COLON]) with ((COLON :: b64_encode bs) ++ [COLON]).
    by rewrite rev_unit. }
  cbn [startsWith negb orb]. rewrite N.eqb_refl. cbn [andb negb orb length]. rewrite length_app. cbn [length].
  rewrite (proj2 (Nat.ltb_ge _ _)) by lia. cbn [drop]. rewrite drop_0.
  replace (S (length (b64_encode bs) + 1) - 2) with (length (b64_encode bs)) by lia.
  by rewrite take_app_length.
Qed.

Lemma signed_base_defined m p :
  covered p = coveredFor m ->
  (forall c, c ∈ MUTATION_SIGNATURE_COMPONENTS -> c ∈ HEADER_COMPONENTS -> is_Some (headerLookup (headers m) c)) ->
  is_Some (buildSignatureBase m p).
Proof.
  intros Hcov Hh. unfold buildSignatureBase.
  assert (is_Some (mapM (component_line m) (covered p))) as [l ->]; [|by eexists].
  apply mapM_is_Some. rewrite Hcov. apply Forall_forall. intros c Hc.
  assert (is_Some (componentValue m c)) as [v Hv]; [|by exists (sfString c ++ u ": " ++ v); cbn; unfold component_line; rewrite Hv].
  pose proof (coveredFor_known m) as Hk. rewrite Forall_forall in Hk. specialize (Hk c Hc).
  unfold componentValue. repeat (case_bool_decide; [by eexists|]).
  destruct (includes c HEADER_COMPONENTS) eqn:E.
  - apply includes_true in E. unfold coveredFor in Hc. apply elem_of_app in Hc as [Hc|Hc]; [by apply Hh|].
    apply elem_of_app in Hc as [Hc|Hc];
      (destruct (headerLookup (headers m) _) as [v|] eqn:Ev in Hc; [|by apply not_elem_of_nil in Hc]);
      apply list_elem_of_singleton in Hc as ->; by exists v.
  - apply includes_false in E. exfalso. unfold known_component in Hk.
    apply elem_of_cons in Hk as [?|Hk]; [done|]. apply elem_of_cons in Hk as [?|Hk]; [done|].
    by apply elem_of_cons in Hk as [?|Hk].
Qed.

Lemma mutationHeaders_keys ct bs op ia ea n im :
  NoDup (JsMap.keys (mutationHeaders sha256 ct bs op ia ea n im)) /\
  lower_keys (mutationHeaders sha256 ct bs op ia ea n im).
Proof.
  unfold lower_keys. destruct im as [v|].
  all: match goal with |- NoDup ?l /\ _ => let l' := eval cbv [JsMap.keys mutationHeaders map fst app] in l in change l with l' end.
  all: split; [apply (bool_decide_unpack _); vm_compute; exact I | repeat constructor].
Qed.

(** The header components a signature must cover are the ones [mutationHeaders] writes. *)
Lemma mandatory_headers_written c hs mut :
  lower_keys hs -> lower_keys mut -> NoDup (JsMap.keys mut) ->
  Forall (fun h => is_Some (JsMap.get h mut)) [u "content-type"; u "content-length"; u "content-digest";
    u "operation-id"; u "x-hec-issued-at"; u "x-hec-expires-at"; u "x-hec-nonce"] ->
  c ∈ MUTATION_SIGNATURE_COMPONENTS -> c ∈ HEADER_COMPONENTS ->
  is_Some (headerLookup (spread_headers hs mut) c).
Proof.
  intros Hh Hm Hnd Hall Hc Hhc.
  assert (forallb (fun c => negb (includes c HEADER_COMPONENTS) || (includes c [u "content-type"; u "content-length";
      u "content-digest"; u "operation-id"; u "x-hec-issued-at"; u "x-hec-expires-at"; u "x-hec-nonce"] &&
      bool_decide (toLowerCase c = c))) MUTATION_SIGNATURE_COMPONENTS = true) as Hw by (vm_compute; reflexivity).
  rewrite forallb_forall in Hw. specialize (Hw c (proj1 (list_elem_of_In _ _) Hc)).
  rewrite (proj2 (includes_true _ _) Hhc) in Hw. cbn [negb orb] in Hw. apply andb_true_iff in Hw as [Hw Hlc].
  apply includes_true in Hw. apply bool_decide_eq_true in Hlc.
  rewrite Forall_forall in Hall. destruct (Hall c Hw) as [v Hv]. exists v.
  rewrite headerLookup_get by (try done; by apply spread_lower). by rewrite get_spread_headers, Hv.
Qed.

(** Attaching the two signature headers leaves every other lower-case header as it was. *)
Lemma attached_lookup merged si sg c :
  lower_keys merged -> toLowerCase c = c ->
  headerLookup (spread_headers merged [(u "signature-input", si); (u "signature", sg)]) c =
    match JsMap.get c [(u "signature-input", si); (u "signature", sg)] with
    | Some v => Some v | None => headerLookup merged c end.
Proof.
  intros Hm Hc. pose proof (spread_lower merged [(u "signature-input", si); (u "signature", sg)] Hm) as Hl.
  rewrite !headerLookup_get; [|done|done| |done]; [|apply Hl; repeat constructor].
  rewrite get_spread_headers; [done|]. apply (bool_decide_unpack _); vm_compute; exact I.
Qed.

Lemma attached_components merged si sg c :
  lower_keys merged -> c ∈ HEADER_COMPONENTS ->
  headerLookup (spread_headers merged [(u "signature-input", si); (u "signature", sg)]) c = headerLookup merged c.
Proof.
  intros Hm Hc. repeat (apply elem_of_cons in Hc as [->|Hc]; [by rewrite attached_lookup|]). by apply not_elem_of_nil in Hc.
Qed.

(** A request signed by the control plane's signer is accepted while its clock and the
    verifier's differ by at most 30 s, whatever other headers it carries: the parameters it was
    signed with are read back and every check passes. *)
Theorem signed_request_accepted sk pk kid cr n op mth host uri hs bs now :
  (forall b, cryptoVerify ed25519 b pk (b64_encode (cryptoSign ed25519 b sk)) = true) ->
  (forall s, s = cr \/ s = (cr + 60)%Z -> exists text, Date_toISOString (s * 1000) = Some text /\ Date_parse text = Some (s * 1000)%Z) ->
  lower_keys hs -> nonce_ok n = true -> SEMICOLON ∉ kid ->
  (Z.abs cr + 60 < MAX_DOUBLE)%Z -> (Z.abs (cr - now) <= 30)%Z ->
  exists hs', createMutationSigner sha256 cryptoSign sk kid cr n op mth host uri hs bs = Some hs' /\
    verifyMutation sha256 Date_parse cryptoVerify (mkMessage mth host uri hs' bs) pk now kid =
      Ok (mkParams cr (cr + 60) n kid ed25519 (coveredFor (mkMessage mth host uri hs' bs))).
Proof.
  intros Hcrypto Hdate Hlow Hnonce Hkid Hcr Hnow. unfold createMutationSigner.
  destruct (Hdate cr) as (issued & Hi & Hpi); [tauto|]. destruct (Hdate (cr + 60)%Z) as (ends & He & Hpe); [tauto|]. rewrite Hi, He. cbn [mbind option_bind].
  set (mut := mutationHeaders _ _ _ _ _ _ _ _). set (merged := spread_headers hs mut).
  destruct (mutationHeaders_keys (default (u "application/json") (JsMap.get (u "content-type") hs)) bs
    (default op (JsMap.get (u "operation-id") hs)) issued ends
    n (JsMap.get (u "if-match") hs)) as [Hnd Hml]. fold mut in Hnd, Hml.
  pose proof (spread_lower hs mut Hlow Hml) as Hmerged. fold merged in Hmerged.
  assert (forall c v, toLowerCase c = c -> JsMap.get c mut = Some v -> headerLookup merged c = Some v) as Hmut.
  { intros c v Hc Hg. rewrite headerLookup_get by done. unfold merged. by rewrite get_spread_headers, Hg. }
  set (msg := mkMessage mth host uri merged bs).
  set (p := mkParams cr (cr + 60) n kid ed25519 (coveredFor msg)).
  unfold signMutation. fold p.
  destruct (signed_base_defined msg p eq_refl) as [base Hbase].
  { intros c. apply mandatory_headers_written; [done | done | done | repeat constructor; eexists; reflexivity]. }
  rewrite Hbase. cbn [mbind option_bind signatureInput signature]. eexists. split; [reflexivity|].
  set (hs' := spread_headers merged _).
  assert (forall c, c ∈ HEADER_COMPONENTS -> headerLookup hs' c = headerLookup merged c) as Hext
    by (intros c; by apply attached_components).
  rewrite (coveredFor_ext mth host uri hs' merged bs Hext). fold msg p.
  assert (params_ok p) as Hok.
  { constructor; cbn [covered nonce keyid created expires p]; [apply coveredFor_known | by eapply base64url_avoids | done | lia | lia]. }
  apply verifyMutation_complete. constructor; cbn [headers body].
  - unfold hs'. rewrite attached_lookup by done. change (parseSignatureInput (serializeSignatureInput p) = Some p). by apply parse_serialize.
  - done.
  - symmetry. exact (coveredFor_ext mth host uri hs' merged bs Hext).
  - rewrite Hext by (apply includes_true; vm_compute; reflexivity). by apply Hmut.
  - rewrite Hext by (apply includes_true; vm_compute; reflexivity). by apply Hmut.
  - done.
  - rewrite Hext by (apply includes_true; vm_compute; reflexivity).
    erewrite Hmut by reflexivity. cbn [mbind option_bind]. unfold unixSeconds. rewrite Hpi.
    cbn [mbind option_bind created p]. by rewrite Z.div_mul.
  - rewrite Hext by (apply includes_true; vm_compute; reflexivity).
    erewrite Hmut by reflexivity. cbn [mbind option_bind]. unfold unixSeconds. rewrite Hpe.
    cbn [mbind option_bind expires p]. by rewrite Z.div_mul.
  - done.
  - cbn. lia.
  - exists (b64_encode (cryptoSign ed25519 (utf8_encode base) sk)), base. split_and!.
    + unfold hs'. rewrite attached_lookup by done. exact (parse_signature _).
    + rewrite (base_ext mth host uri hs' merged bs p Hext). exact Hbase.
    + apply Hcrypto.
Qed.
End Signing.

(** ** Concrete parameters *)

Definition toy_sha256 (bs : bytes) : bytes := bs.
Definition toy_sign (a : SignatureAlg) (bs : bytes) (k : N) : bytes := k :: take 4 bs.
Definition toy_verify (a : SignatureAlg) (bs : bytes) (k : N) (sig : ustr) : bool :=
  bool_decide (sig = b64_encode (toy_sign a bs k)).
Definition toy_nonce : ustr := repeat 65%N 43.

Definition toy_parse (text : ustr) : option Z :=
  if bool_decide (text = u "1970-01-01T00:16:40.000Z") then Some 1000000%Z
  else if bool_decide (text = u "1970-01-01T00:17:10.000Z") then Some 1030000%Z
  else if bool_decide (text = u "1970-01-01T00:17:40.000Z") then Some 1060000%Z else None.

Lemma signed_request_accepted_witness :
  exists hs', createMutationSigner toy_sha256 toy_sign 7%N (u "host") 1000 toy_nonce (u "op_1")
      (u "POST") (u "h") (u "https://h/v1") [(u "if-match", u "3"); (u "content-range", u "r")] [1%N] = Some hs' /\
    verifyMutation toy_sha256 toy_parse toy_verify (mkMessage (u "POST") (u "h") (u "https://h/v1") hs' [1%N])
      7%N 1030 (u "host") =
      Ok (mkParams 1000 1060 toy_nonce (u "host") ed25519
            (coveredFor (mkMessage (u "POST") (u "h") (u "https://h/v1") hs' [1%N]))).
Proof.
  apply (signed_request_accepted toy_sha256 toy_parse toy_verify toy_sign 7%N 7%N (u "host") 1000
    toy_nonce (u "op_1") (u "POST") (u "h") (u "https://h/v1") [(u "if-match", u "3"); (u "content-range", u "r")] [1%N] 1030).
  - intros b. unfold toy_verify. by apply bool_decide_eq_true.
  - intros s [->| ->]; eexists; (split; [vm_compute; reflexivity | vm_compute; reflexivity]).
  - repeat constructor.
  - vm_compute. reflexivity.
  - apply includes_false. vm_compute. reflexivity.
  - vm_compute. reflexivity.
  - vm_compute. discriminate.
Defined.

Lemma single_line_of m :
  forallb (fun c => match componentValue m c with Some v => negb (includes LF v) | None => true end)
    (map u ["@method"; "@authority"; "@target-uri"] ++ HEADER_COMPONENTS) = true -> single_line m.
Proof.
  intros H c v Hv. rewrite forallb_forall in H. assert (Hin : c ∈ map u ["@method"; "@authority"; "@target-uri"] ++ HEADER_COMPONENTS).
  { unfold componentValue in Hv. apply elem_of_app. case_bool_decide; [left; subst; by left|]. case_bool_decide; [left; subst; by right; left|].
    case_bool_decide; [left; subst; by right; right; left|]. right. destruct (includes c HEADER_COMPONENTS) eqn:E; [by apply includes_true|done]. }
  apply list_elem_of_In, H in Hin. rewrite Hv in Hin. by apply negb_true_iff, includes_false in Hin.
Qed.

(** The same signature on the request as it was sent and as a server reads it: in other letter case, with another header, later. *)
Definition toy_signed : list (ustr * ustr) := Eval vm_compute in
  default [] (createMutationSigner toy_sha256 toy_sign 7%N (u "host") 1000 toy_nonce (u "op_1") (u "POST") (u "h") (u "https://h/v1")
    [(u "if-match", u "3")] [1%N]).
Definition toy_sent : MutationMessage := mkMessage (u "POST") (u "h") (u "https://h/v1") toy_signed [1%N].
Definition toy_read : MutationMessage := mkMessage (u "post") (u "H") (u "https://h/v1") ((u "accept", u "json") :: toy_signed) [1%N].
Definition toy_params : SignatureParams := mkParams 1000 1060 toy_nonce (u "host") ed25519 (coveredFor toy_sent).

Lemma accepted_signature_binds_witness : same_request toy_sha256 toy_sent toy_read /\ covers_message toy_sha256 toy_sent toy_params.
Proof.
  destruct (buildSignatureBase toy_sent toy_params) as [base|] eqn:Hb; [|vm_compute in Hb; discriminate Hb].
  destruct (accepted_signature_binds toy_sha256 toy_parse toy_verify toy_sent toy_read 7%N 7%N 1030 990 (u "host") toy_params toy_params base)
    as (_ & _ & Hc & _ & _ & _ & Hs & _).
  - vm_compute. reflexivity.
  - vm_compute. reflexivity.
  - apply single_line_of. vm_compute. reflexivity.
  - apply single_line_of. vm_compute. reflexivity.
  - apply includes_false. vm_compute. reflexivity.
  - exact Hb.
  - rewrite <- Hb. vm_compute. reflexivity.
  - split; [exact Hs | exact Hc].
Defined.

(** The expiry is compared with the creation time and with its header, never with the clock: a
    signature that expired 29 seconds ago is accepted. *)
Lemma expired_signature_accepted :
  let hs := mutationHeaders toy_sha256 (u "application/json") [] (u "op_1") (int_toString 1000000)
              (int_toString 1001000) toy_nonce None in
  let m := mkMessage (u "POST") (u "h") (u "https://h/v1") hs [] in
  exists signed, signMutation toy_sign m 7%N (u "k") ed25519 1000 1001 toy_nonce = Some signed /\
    let m' := mkMessage (u "POST") (u "h") (u "https://h/v1")
      (spread_headers hs [(u "signature-input", signatureInput signed); (u "signature", signature signed)]) [] in
    verifyMutation toy_sha256 parseInt10 toy_verify m' 7%N 1030 (u "k") = Ok (signed_params signed) /\
    (expires (signed_params signed) < 1030)%Z.
Proof.
  intros hs m. destruct (signMutation toy_sign m 7%N (u "k") ed25519 1000 1001 toy_nonce) as [signed|] eqn:E;
    [|vm_compute in E; discriminate E].
  exists signed. split; [done|]. vm_compute in E. apply (inj Some) in E as <-. split; [vm_compute; reflexivity | vm_compute; reflexivity].
Qed.
