(* ===== verification/Classification.v ===== *)
(** JavaScript regular expressions, as far as the scanners use them: the backtracking matcher of
    the language (greedy and lazy repetition, negative lookahead, word boundaries, anchors), and
    the loop over all matches of a global pattern.

    The matcher is structural in the pattern; a repetition is bounded by a counter that
    [rep_fuel] shows is never exhausted, so [matcher_rep] is the language's recursive equation. *)

From Stdlib Require Import String Ascii.
From S2P Require Import Prelude JsText CanonicalJson.
Open Scope string_scope.
Open Scope list_scope.

Inductive regex : Type :=
| Eps
| Cls (p : N -> bool)
| Cat (a b : regex)
| Alt (a b : regex)
| Rep (r : regex) (least : nat) (most : option nat) (greedy : bool)
| NotAhead (r : regex)
| WordB
| AtStart
| AtEnd.

(** The unit before the position, and the units after it. *)
Definition pos : Type := option N * ustr.
Definition cont : Type := pos -> option pos.

Definition is_word (c : N) : bool := in_range 65 90 c || in_range 97 122 c || is_digit c || (c =? 95)%N.
Definition word_at (c : option N) : bool := match c with Some c => is_word c | None => false end.

(** The language's RepeatMatcher: an optional iteration that consumes nothing fails. *)
Fixpoint rep (once : pos -> cont -> option pos) (greedy : bool) (fuel least : nat) (most : option nat)
    (x : pos) (k : cont) : option pos :=
  match fuel with
  | 0 => None
  | S fuel =>
      if bool_decide (most = Some 0) then k x else
      let iterate (_ : unit) := once x (fun y =>
        if (least =? 0)%nat && (length y.2 =? length x.2)%nat then None
        else rep once greedy fuel (pred least) (pred <$> most) y k) in
      if (0 <? least)%nat then iterate tt
      else if greedy then match iterate tt with Some y => Some y | None => k x end
      else match k x with Some y => Some y | None => iterate tt end
  end.

Fixpoint matcher (r : regex) (x : pos) (k : cont) : option pos :=
  match r with
  | Eps => k x
  | Cls p => match x.2 with c :: t => if p c then k (Some c, t) else None | [] => None end
  | Cat a b => matcher a x (fun y => matcher b y k)
  | Alt a b => match matcher a x k with Some y => Some y | None => matcher b x k end
  | Rep r least most greedy =>
      rep (fun x k => matcher r x k) greedy (S (least + length x.2)) least most x k
  | NotAhead r => match matcher r x Some with Some _ => None | None => k x end
  | WordB => if xorb (word_at x.1) (word_at (head x.2)) then k x else None
  | AtStart => match x.1 with None => k x | Some _ => None end
  | AtEnd => match x.2 with [] => k x | _ => None end
  end.

(** The length of the match at [x], if any. *)
Definition match_length (r : regex) (x : pos) : option nat :=
  (fun y => length x.2 - length y.2) <$> matcher r x Some.

(** ** All matches of a global pattern, with their positions; [skip] units belong to the last match *)
Fixpoint exec_all (r : regex) (index : nat) (prev : option N) (skip : nat) (s : ustr) : list (nat * ustr) :=
  match s with
  | [] => match skip, match_length r (prev, []) with 0, Some _ => [(index, [])] | _, _ => [] end
  | c :: t =>
      match skip with
      | S n => exec_all r (S index) (Some c) n t
      | 0 =>
          match match_length r (prev, s) with
          | None => exec_all r (S index) (Some c) 0 t
          | Some len => (index, take len s) :: exec_all r (S index) (Some c) (pred len) t
          end
      end
  end.

Definition matches (r : regex) (text : ustr) : list (nat * ustr) := exec_all r 0 None 0 text.

(** [pattern.test(text)] of a pattern that is not global *)
Fixpoint test_from (r : regex) (prev : option N) (s : ustr) : bool :=
  match match_length r (prev, s), s with
  | Some _, _ => true
  | None, [] => false
  | None, c :: t => test_from r (Some c) t
  end.
Definition test (r : regex) (text : ustr) : bool := test_from r None text.

(** ** Notation for patterns *)

Definition chr (c : N) : regex := Cls (N.eqb c).
Definition lit (s : string) : regex := fold_right (fun c r => Cat (chr c) r) Eps (u s).
Definition alts (l : list regex) : regex :=
  match rev l with [] => NotAhead Eps | a :: r => fold_left (fun acc x => Alt x acc) r a end.
Definition cats (l : list regex) : regex := fold_right Cat Eps l.
Definition star (r : regex) : regex := Rep r 0 None true.
Definition lazy_star (r : regex) : regex := Rep r 0 None false.
Definition plus (r : regex) : regex := Rep r 1 None true.
Definition opt (r : regex) : regex := Rep r 0 (Some 1) true.
Definition times (r : regex) (n : nat) : regex := Rep r n (Some n) true.
Definition at_least (r : regex) (n : nat) : regex := Rep r n None true.

Definition one_of (s : string) (c : N) : bool := includes c (u s).
Definition is_upper (c : N) : bool := in_range 65 90 c.
Definition is_lower (c : N) : bool := in_range 97 122 c.
Definition is_alpha (c : N) : bool := is_upper c || is_lower c.
Definition is_alnum (c : N) : bool := is_alpha c || is_digit c.
(** [.]: any unit but a line terminator *)
Definition dot : regex := Cls (fun c => negb (existsb (N.eqb c) [10; 13; 8232; 8233]%N)).

(** Equality under the [i] flag, for a lower case ASCII letter of the pattern; with the [u] flag the
    long s and the Kelvin sign fold to ASCII letters too. *)
Definition same_i (unicode : bool) (p c : N) : bool :=
  (p =? c)%N || (is_lower p && (c + 32 =? p)%N) ||
  (unicode && (((p =? 115)%N && (c =? 383)%N) || ((p =? 107)%N && (c =? 8490)%N))).
Definition lit_i (unicode : bool) (s : string) : regex :=
  fold_right (fun c r => Cat (Cls (same_i unicode c)) r) Eps (u s).

(** ** The counter of a repetition is never exhausted *)

Definition shorter (x y : pos) : Prop := length y.2 <= length x.2.

(** A matcher calls its continuation only on what is left of the input. *)
Definition local (once : pos -> cont -> option pos) : Prop :=
  forall x k k', (forall y, shorter x y -> k y = k' y) -> once x k = once x k'.

Lemma rep_ext once greedy fuel least most x k k' :
  local once -> (forall y, shorter x y -> k y = k' y) ->
  rep once greedy fuel least most x k = rep once greedy fuel least most x k'.
Proof.
  intros Hl. revert least most x. induction fuel as [|fuel IH]; intros least most x Hk; [done|]. cbn [rep].
  assert (k x = k' x) as Hx by (apply Hk; unfold shorter; lia). rewrite Hx.
  assert (forall b, once x (fun y => if b && (length y.2 =? length x.2)%nat then None
      else rep once greedy fuel (pred least) (pred <$> most) y k) =
    once x (fun y => if b && (length y.2 =? length x.2)%nat then None
      else rep once greedy fuel (pred least) (pred <$> most) y k')) as Hi.
  { intros b. apply Hl. intros y Hy. destruct (b && _); [done|]. apply IH. intros z Hz. apply Hk. unfold shorter in *. lia. }
  by rewrite Hi.
Qed.

Lemma rep_fuel once greedy fuel fuel' least most x k :
  local once -> least + length x.2 < fuel -> least + length x.2 < fuel' ->
  rep once greedy fuel least most x k = rep once greedy fuel' least most x k.
Proof.
  intros Hl. revert fuel' least most x. induction fuel as [|fuel IH]; intros fuel' least most x Hf Hf'; [lia|].
  destruct fuel' as [|fuel']; [lia|]. cbn [rep].
  assert (once x (fun y => if (least =? 0)%nat && (length y.2 =? length x.2)%nat then None
      else rep once greedy fuel (pred least) (pred <$> most) y k) =
    once x (fun y => if (least =? 0)%nat && (length y.2 =? length x.2)%nat then None
      else rep once greedy fuel' (pred least) (pred <$> most) y k)) as Hi; [|by rewrite Hi].
  apply Hl. intros y Hy. unfold shorter in Hy. destruct (_ && _) eqn:E; [done|].
  apply IH; apply andb_false_iff in E as [E%Nat.eqb_neq|E%Nat.eqb_neq]; lia.
Qed.

Lemma matcher_local r : local (matcher r).
Proof.
  induction r as [|p|a IHa b IHb|a IHa b IHb|r IH least most greedy|r IH| | |]; intros x k k' Hk; cbn [matcher].
  - apply Hk. unfold shorter. lia.
  - destruct x as [prev [|c t]]; cbn [snd]; [done|]. destruct (p c); [|done]. apply Hk. unfold shorter. cbn. lia.
  - apply IHa. intros y Hy. apply IHb. intros z Hz. apply Hk. unfold shorter in *. lia.
  - by rewrite (IHa x k k' Hk), (IHb x k k' Hk).
  - by apply rep_ext.
  - rewrite (Hk x) by (unfold shorter; lia). done.
  - rewrite (Hk x) by (unfold shorter; lia). done.
  - rewrite (Hk x) by (unfold shorter; lia). done.
  - rewrite (Hk x) by (unfold shorter; lia). done.
Qed.

(** The language's equation for a repetition: stop at the upper bound, iterate below the lower one,
    and otherwise iterate first or continue first, where an iteration must consume something. *)
Lemma matcher_rep r least most greedy x k :
  matcher (Rep r least most greedy) x k =
  if bool_decide (most = Some 0) then k x else
  let iterate := matcher r x (fun y =>
    if (least =? 0)%nat && (length y.2 =? length x.2)%nat then None
    else matcher (Rep r (pred least) (pred <$> most) greedy) y k) in
  if (0 <? least)%nat then iterate
  else if greedy then match iterate with Some y => Some y | None => k x end
  else match k x with Some y => Some y | None => iterate end.
Proof.
  cbn [matcher]. cbn [rep]. destruct (bool_decide _); [done|].
  assert (matcher r x (fun y => if (least =? 0)%nat && (length y.2 =? length x.2)%nat then None
      else rep (fun x k => matcher r x k) greedy (least + length x.2) (pred least) (pred <$> most) y k) =
    matcher r x (fun y => if (least =? 0)%nat && (length y.2 =? length x.2)%nat then None
      else rep (fun x k => matcher r x k) greedy (S (pred least + length y.2)) (pred least) (pred <$> most) y k)) as Hi;
    [|by rewrite Hi].
  apply matcher_local. intros y Hy. unfold shorter in Hy. destruct (_ && _) eqn:E; [done|].
  apply rep_fuel; [apply matcher_local | | lia].
  apply andb_false_iff in E as [E%Nat.eqb_neq|E%Nat.eqb_neq]; lia.
Qed.

(** Every match is a part of the text at the position it reports. *)
Lemma exec_all_slice r index prev skip s i m :
  (i, m) ∈ exec_all r index prev skip s -> index <= i /\ m = take (length m) (drop (i - index) s) /\
    i - index + length m <= length s.
Proof.
  revert index prev skip. induction s as [|c t IH]; intros index prev skip; cbn [exec_all].
  - destruct skip; [|intros H; by apply not_elem_of_nil in H].
    destruct (match_length _ _); [|intros H; by apply not_elem_of_nil in H].
    intros H. apply list_elem_of_singleton in H. injection H as -> ->. rewrite drop_nil. split_and!; [lia | done | cbn; lia].
  - assert (forall prev skip, (i, m) ∈ exec_all r (S index) prev skip t ->
      index <= i /\ m = take (length m) (drop (i - index) (c :: t)) /\ i - index + length m <= length (c :: t)) as Hnext.
    { intros p sk H. apply IH in H as (Hi & Hm & Hl). replace (i - index) with (S (i - S index)) by lia.
      split_and!; [lia | exact Hm | cbn [length]; lia]. }
    destruct skip as [|n]; [|apply Hnext]. destruct (match_length r (prev, c :: t)) as [len|]; [|apply Hnext].
    intros [H|H]%elem_of_cons; [|by eapply Hnext]. injection H as -> ->.
    replace (index - index) with 0 by lia. rewrite drop_0. split_and!; [lia | |rewrite length_take; lia].
    rewrite length_take. destruct (decide (len <= length (c :: t))); [by rewrite Nat.min_l|].
    by rewrite Nat.min_r, !take_ge by lia.
Qed.

(** Sensitive content (packages/security/src/classification.ts): classifications, the scanners'
    patterns, the Luhn check, and the collapse of overlapping findings.

    The Shannon entropy of a token is a sum of logarithms in doubles; comparing it with a
    threshold, given in tenths of a bit, is a parameter. *)

Open Scope string_scope.
Open Scope list_scope.

Inductive DataClassification : Set := public | internal | confidential | restricted.
#[export] Instance DataClassification_eq_dec : EqDecision DataClassification.
Proof. solve_decision. Defined.

Inductive FindingType : Set :=
| private_key | signing_key | aws_access_key | live_credential | production_dump
| regulated_pii_ssn | regulated_pii_pan | email | phone | high_entropy.
#[export] Instance FindingType_eq_dec : EqDecision FindingType.
Proof. solve_decision. Defined.

Definition finding_text (f : FindingType) : ustr :=
  u match f with
    | private_key => "private-key" | signing_key => "signing-key" | aws_access_key => "aws-access-key"
    | live_credential => "live-credential" | production_dump => "production-dump"
    | regulated_pii_ssn => "regulated-pii-ssn" | regulated_pii_pan => "regulated-pii-pan"
    | email => "email" | phone => "phone" | high_entropy => "high-entropy"
    end.

Definition RESTRICTED_FINDING_TYPES : list FindingType :=
  [private_key; signing_key; aws_access_key; live_credential; production_dump; regulated_pii_ssn; regulated_pii_pan].

Definition isRestrictedFindingType (f : FindingType) : bool := includes f RESTRICTED_FINDING_TYPES.

Record SensitiveSpan := mkSpan {
  findingType : FindingType;
  classification : DataClassification;
  start : nat;
  end_ : nat
}.

(** ** Ranks *)

Definition RANK (c : DataClassification) : nat :=
  match c with public => 0 | internal => 1 | confidential => 2 | restricted => 3 end.
Definition classificationRank (c : DataClassification) : nat := RANK c.

Definition maxClassification (values : list DataClassification) : DataClassification :=
  fold_left (fun highest value => if (RANK highest <? RANK value)%nat then value else highest) values public.

(** ** Luhn *)

(** The loop from the last digit: [Number(char)] of a digit. *)
Fixpoint luhn_sum (doubleIt : bool) (reversed : ustr) : N :=
  match reversed with
  | [] => 0
  | c :: r =>
      let n := (c - 48)%N in
      let n := if doubleIt then (if 9 <? 2 * n then 2 * n - 9 else 2 * n)%N else n in
      (n + luhn_sum (negb doubleIt) r)%N
  end.

Definition luhnValid (digits : ustr) : bool :=
  negb ((length digits <? 13) || (19 <? length digits))%nat && (luhn_sum false (rev digits) mod 10 =? 0)%N.

(** ** Patterns *)

Definition digit : regex := Cls is_digit.
Definition space : regex := Cls is_space.
Definition key_kind : regex := opt (alts [lit "RSA "; lit "DSA "; lit "EC "; lit "OPENSSH "; lit "ENCRYPTED "]).

Definition PRIVATE_KEY : regex :=
  cats [lit "-----BEGIN "; key_kind; lit "PRIVATE KEY-----"; lazy_star (Cls (fun _ => true));
        lit "-----END "; key_kind; lit "PRIVATE KEY-----"].

Definition AWS_KEY : regex :=
  cats [WordB; lit "AKIA"; times (Cls (fun c => is_upper c || is_digit c)) 16; WordB].

Definition LIVE_CREDENTIAL : regex :=
  cats [WordB;
        alts [Cat (lit "sk-") (at_least (Cls is_alnum) 20); Cat (lit "ghp_") (times (Cls is_alnum) 36);
              Cat (lit "github_pat_") (at_least (Cls is_word) 20);
              cats [lit "xox"; Cls (one_of "baprs"); lit "-"; at_least (Cls (fun c => is_alnum c || (c =? 45)%N)) 10];
              Cat (lit "xai-") (at_least (Cls is_alnum) 20)];
        WordB].

Definition PRODUCTION_DUMP : regex :=
  Cat (Alt AtStart (chr LF))
      (alts [cats [lit "--"; star space; lit "PostgreSQL database dump"]; lit "mysqldump:"; lit "-- Dumping data for table"]).

Definition SSN : regex :=
  cats [WordB; NotAhead (alts [lit "000"; lit "666"; Cat (lit "9") (times digit 2)]); times digit 3; lit "-";
        NotAhead (lit "00"); times digit 2; lit "-"; NotAhead (lit "0000"); times digit 4; WordB].

Definition CARD_CANDIDATE : regex :=
  cats [WordB; Rep (Cat digit (lazy_star (Cls (one_of " -")))) 13 (Some 19) true; WordB].

Definition EMAIL : regex :=
  cats [WordB; plus (Cls (fun c => is_alnum c || one_of "._%+-" c)); lit "@";
        plus (Cls (fun c => is_alnum c || one_of ".-" c)); lit "."; at_least (Cls is_alpha) 2; WordB].

Definition phone_sep : regex := opt (Cls (fun c => one_of "-." c || is_space c)).
Definition PHONE : regex :=
  cats [WordB; opt (cats [opt (lit "+"); lit "1"; phone_sep]);
        cats [opt (lit "("); times digit 3; opt (lit ")"); phone_sep];
        times digit 3; phone_sep; times digit 4; WordB].

Definition HIGH_ENTROPY_TOKEN : regex :=
  cats [WordB; at_least (Cls (fun c => is_alnum c || one_of "+/=_-" c)) 32; WordB].

Definition SECRET_CONTEXT : regex :=
  let i := lit_i false in
  alts [i "password"; i "secret"; cats [i "api"; opt (Cls (one_of "_-")); i "key"]; i "token"; i "credential";
        cats [i "private"; opt (Cls (one_of "_-")); i "key"]].

Definition at_segment : regex := Alt AtStart (lit "/").

Definition RESTRICTED_PATH : regex :=
  let i := lit_i false in
  cats [at_segment;
        alts [i "id_rsa"; i "id_ed25519"; i "id_ecdsa"; Cat (star dot) (i ".pem"); i "credentials.json";
              Cat (i ".env") (opt (Cat (lit ".") (plus dot))); Cat (star dot) (i "-key.pem")];
        AtEnd].

Definition SECRETS_DIRECTORY : regex := cats [at_segment; lit_i true "secrets/"].
Definition SECRET_NAME : regex :=
  cats [at_segment; alts [lit_i true ".env"; lit_i true "credentials"; lit_i true "passwd"; lit_i true "shadow"]].

(** ** Scanning *)

(** The span of an accepted match; empty matches are skipped. *)
Definition span_of (f : FindingType) (c : DataClassification) (accept : ustr -> nat -> bool) (hit : nat * ustr)
    : option SensitiveSpan :=
  let '(at_, matched) := hit in
  if (0 <? length matched)%nat && accept matched at_ then Some (mkSpan f c at_ (at_ + length matched)) else None.

Definition pushMatches (text : ustr) (pattern : regex) (f : FindingType) (c : DataClassification)
    (accept : ustr -> nat -> bool) (into : list SensitiveSpan) : list SensitiveSpan :=
  into ++ omap (span_of f c accept) (matches pattern text).

Definition charsetClasses (value : ustr) : nat :=
  length (List.filter (fun p : N -> bool => existsb p value)
    [is_lower; is_upper; is_digit; fun c => negb (is_alnum c)]).

(** ** Collapsing overlaps *)

Definition overlaps (left right : SensitiveSpan) : bool :=
  (start left <? end_ right)%nat && (start right <? end_ left)%nat.

Definition is_restricted (s : SensitiveSpan) : bool := bool_decide (classification s = restricted).

Definition prefer (left right : SensitiveSpan) : SensitiveSpan :=
  if bool_decide (is_restricted left <> is_restricted right) then (if is_restricted left then left else right)
  else
    let leftLen := end_ left - start left in
    let rightLen := end_ right - start right in
    if negb (leftLen =? rightLen)%nat then (if (rightLen <=? leftLen)%nat then left else right)
    else if (start left <=? start right)%nat then left else right.

Definition span_leb (left right : SensitiveSpan) : bool :=
  if negb (start left =? start right)%nat then (start left <? start right)%nat else (end_ right <=? end_ left)%nat.

(** [kept[index] = prefer(kept[index], span)] at the first overlap, or [kept.push(span)] *)
Fixpoint keep (span : SensitiveSpan) (kept : list SensitiveSpan) : list SensitiveSpan :=
  match kept with
  | [] => [span]
  | item :: rest => if overlaps item span then prefer item span :: rest else item :: keep span rest
  end.

Definition collapseSpans (spans : list SensitiveSpan) : list SensitiveSpan :=
  let kept := fold_left (fun kept span => keep span kept) (sort_by span_leb spans) [] in
  sort_by (fun left right => (start left <=? start right)%nat) kept.

Section Scanner.
(** [shannonEntropy(value) < tenths / 10] *)
Variable entropy_below : ustr -> Z -> bool.

Definition always (matched : ustr) (at_ : nat) : bool := true.
Definition accept_card (matched : ustr) (at_ : nat) : bool := luhnValid (List.filter is_digit matched).
Definition accept_secret (text matched : ustr) (at_ : nat) : bool :=
  if entropy_below matched 42 || (charsetClasses matched <? 3)%nat then false
  else test SECRET_CONTEXT (take (at_ - (at_ - 48)) (drop (at_ - 48) text)).
Definition is_hex_unit (c : N) : bool := in_range 65 70 c || in_range 97 102 c || is_digit c.
Definition accept_entropy (matched : ustr) (at_ : nat) : bool :=
  if entropy_below matched 45 || (charsetClasses matched <? 3)%nat then false
  else negb (forallb is_hex_unit matched && (length matched <? 40)%nat).

(** The scan before overlaps are collapsed. *)
Definition raw_spans (text : ustr) : list SensitiveSpan :=
  let push pattern f c accept into := pushMatches text pattern f c accept into in
  push HIGH_ENTROPY_TOKEN high_entropy confidential accept_entropy
  (push HIGH_ENTROPY_TOKEN live_credential restricted (accept_secret text)
  (push PHONE phone confidential always
  (push EMAIL email confidential always
  (push CARD_CANDIDATE regulated_pii_pan restricted accept_card
  (push SSN regulated_pii_ssn restricted always
  (push PRODUCTION_DUMP production_dump restricted always
  (push LIVE_CREDENTIAL live_credential restricted always
  (push AWS_KEY aws_access_key restricted always
  (push PRIVATE_KEY signing_key restricted always
  (push PRIVATE_KEY private_key restricted always [])))))))))).

Definition scanSensitiveSpans (text : ustr) : list SensitiveSpan := collapseSpans (raw_spans text).

Definition classifyPathName (path : ustr) : DataClassification :=
  if test RESTRICTED_PATH path || test SECRETS_DIRECTORY path then restricted
  else if test SECRET_NAME path then restricted
  else maxClassification (public :: map classification (scanSensitiveSpans path)).

Definition classifyText (text : ustr) : DataClassification * list SensitiveSpan :=
  let spans := scanSensitiveSpans text in
  (maxClassification (public :: map classification spans), spans).

Definition classifyContent (path : option ustr) (text : ustr) (project : option DataClassification)
    : DataClassification * list SensitiveSpan :=
  let '(textClass, spans) := classifyText text in
  let pathClass := match path with None => public | Some p => classifyPathName p end in
  (maxClassification [textClass; pathClass; default public project], spans).
End Scanner.
