(* ===== verification/Egress.v ===== *)
(** Data-loss prevention (packages/security/src/dlp.ts): findings with stable markers, the
    replacement of permitted findings, and the scan of text, encoded content and path names. *)

From Stdlib Require Import String Ascii.
From S2P Require Import Prelude JsText CanonicalJson ChangeApply Digest Classification.
Open Scope string_scope.
Open Scope list_scope.

Record DlpFinding := mkFinding {
  f_findingType : FindingType;
  f_classification : DataClassification;
  f_start : nat;
  f_end : nat;
  marker : ustr;
  redactionPermitted : bool;
  f_path : option ustr
}.

Record DlpScanResult := mkScan {
  scan_classification : DataClassification;
  findings : list DlpFinding;
  redactedText : ustr;
  inspectable : bool
}.

Inductive EncodedContent : Type := utf8_content (text : ustr) | base64_content (base64 : ustr).

(** ** Text of bytes *)

(** [Buffer.toString("utf8")]: the decoder with replacement; the state is the code point so far, the
    number of bytes still needed and the bounds of the next one. *)
Record DecoderState := mkDecoder { codePoint : N; needed : nat; lower : N; upper : N }.
Definition idle : DecoderState := mkDecoder 0 0 128 191.

Definition code_units (cp : N) : ustr :=
  if (cp <? 65536)%N then [cp] else [55296 + (cp - 65536) / 1024; 56320 + (cp - 65536) mod 1024]%N.

Definition decode_first (b : N) : ustr * DecoderState :=
  if (b <? 128)%N then ([b], idle)
  else if in_range 194 223 b then ([], mkDecoder (b - 192) 1 128 191)
  else if in_range 224 239 b then
    ([], mkDecoder (b - 224) 2 (if b =? 224 then 160 else 128) (if b =? 237 then 159 else 191))%N
  else if in_range 240 244 b then
    ([], mkDecoder (b - 240) 3 (if b =? 240 then 144 else 128) (if b =? 244 then 143 else 191))%N
  else ([65533%N], idle).

Definition decode_next (st : DecoderState) (b : N) : ustr * DecoderState :=
  match needed st with
  | 0 => decode_first b
  | S n =>
      if in_range (lower st) (upper st) b then
        let cp := (codePoint st * 64 + (b - 128))%N in
        match n with 0 => (code_units cp, idle) | _ => ([], mkDecoder cp n 128 191) end
      else let '(out, st) := decode_first b in (65533%N :: out, st)
  end.

Fixpoint decode_from (st : DecoderState) (bs : bytes) : ustr :=
  match bs with
  | [] => match needed st with 0 => [] | _ => [65533%N] end
  | b :: r => let '(out, st) := decode_next st b in out ++ decode_from st r
  end.
Definition toString_utf8 (bs : bytes) : ustr := decode_from idle bs.
Definition toString_latin1 (bs : bytes) : ustr := bs.

(** [s.replace(/=+$/u, "")] *)
Fixpoint skip_padding (s : ustr) : ustr :=
  match s with c :: r => if (c =? PAD)%N then skip_padding r else s | [] => [] end.
Definition strip_padding (s : ustr) : ustr := rev (skip_padding (rev s)).

(** [/^[A-Za-z0-9+/]+={0,2}$/] *)
Definition base64_shape (s : ustr) : bool :=
  let body := strip_padding s in
  negb (bool_decide (body = [])) && forallb (fun c => match b64_value c with Some _ => true | None => false end) body
  && (length s - length body <=? 2)%nat.

Definition decodeBase64Strict (value : ustr) : option bytes :=
  let compact := List.filter (fun c => negb (is_space c)) value in
  if (length compact =? 0)%nat || negb (length compact mod 4 =? 0)%nat then None
  else if negb (base64_shape compact) then None
  else
    decoded ← b64_decode compact;
    if bool_decide (strip_padding (b64_encode decoded) = strip_padding compact) then Some decoded else None.

(** ** Findings *)

Section Dlp.
Context {HH : Hashing}.
Variable entropy_below : ustr -> Z -> bool.

Definition utf8Hex (value : ustr) : ustr := sha256_hex (utf8_encode value).

Definition stableRedactionMarker (type_ literal : ustr) : ustr :=
  171%N :: u "REDACTED:" ++ type_ ++ u ":" ++ take 16 (utf8Hex literal) ++ [187%N].

Definition text_slice (from to : nat) (s : ustr) : ustr := take (to - from) (drop from s).

Definition toFinding (text : ustr) (path : option ustr) (span : SensitiveSpan) : DlpFinding :=
  mkFinding (findingType span) (classification span) (start span) (end_ span)
    (stableRedactionMarker (finding_text (findingType span)) (text_slice (start span) (end_ span) text))
    (negb (isRestrictedFindingType (findingType span))) path.

Definition redact_one (redacted : ustr) (f : DlpFinding) : ustr :=
  take (f_start f) redacted ++ marker f ++ drop (f_end f) redacted.

Definition applyPermittedRedactions (text : ustr) (fs : list DlpFinding) : ustr :=
  fold_left redact_one
    (sort_by (fun left right => (f_start right <=? f_start left)%nat) (List.filter redactionPermitted fs)) text.

Definition scanText (text : ustr) (path : option ustr) (project : option DataClassification) : DlpScanResult :=
  let '(class, spans) := classifyContent entropy_below path text project in
  let fs := map (toFinding text path) spans in
  mkScan class fs (applyPermittedRedactions text fs) true.

(** The loop over the results; [restricted] breaks it. *)
Fixpoint merge_classification (acc : DataClassification) (results : list DlpScanResult) : DataClassification :=
  match results with
  | [] => acc
  | r :: rest =>
      match scan_classification r with
      | restricted => restricted
      | confidential => merge_classification confidential rest
      | internal => merge_classification (if bool_decide (acc = public) then internal else acc) rest
      | public => merge_classification acc rest
      end
  end.

Definition mergeDlpResults (results : list DlpScanResult) : DlpScanResult :=
  mkScan (merge_classification public results) (flat_map findings results) [] (forallb inspectable results).

Definition scanSourceContent (content : EncodedContent) (path : option ustr) (project : option DataClassification)
    : DlpScanResult :=
  match content with
  | utf8_content text => scanText text path project
  | base64_content base64 =>
      match decodeBase64Strict base64 with
      | None => mkScan restricted [] [] false
      | Some decoded =>
          let utf8 := toString_utf8 decoded in
          let latin1 := toString_latin1 decoded in
          let utf8Scan := scanText utf8 path project in
          if bool_decide (utf8 = latin1) then utf8Scan
          else
            let merged := mergeDlpResults [utf8Scan; scanText latin1 path project] in
            mkScan (scan_classification merged) (findings merged) (redactedText utf8Scan) (inspectable merged)
      end
  end.

Definition scanPathName (path : ustr) : DlpScanResult :=
  let textScan := scanText path (Some path) None in
  mkScan (if bool_decide (classifyPathName entropy_below path = restricted) then restricted
          else scan_classification textScan)
    (findings textScan) (redactedText textScan) (inspectable textScan).

Definition intendedPatchDependsOnRedacted (fs : list DlpFinding) (intendedPatchPaths : list ustr) : bool :=
  if (length intendedPatchPaths =? 0)%nat then false
  else existsb (fun f => redactionPermitted f &&
         match f_path f with Some p => includes p intendedPatchPaths | None => false end) fs.
End Dlp.

(** Cloud egress (packages/security/src/egress.ts): the scan of everything an executor would see,
    and the manifest that allows it out.  [pathTexts] is an object used as a map; a path that names
    a member of [Object.prototype] is not a normalized repository path the map is given. *)

Open Scope string_scope.
Open Scope list_scope.

(** Source kinds, digests and ranges are copied only: [Detail] stands for those fields. *)
Inductive SourceRef (Detail : Type) : Type :=
| repository_ref (path : ustr) (detail : Detail)
| artifact_ref (detail : Detail)
| external_ref (url : ustr) (detail : Detail).
Arguments repository_ref {Detail}.
Arguments artifact_ref {Detail}.
Arguments external_ref {Detail}.

Record EgressProviderChain := mkProvider {
  deploymentId : ustr;
  adapterVersionObjectDigest : ustr;
  endpointIdentity : ustr;
  providerChain : list ustr;
  modelRevision : ustr;
  region : option ustr;
  retentionPolicyObjectDigest : ustr
}.

(** [permittedEgressClassifications] never contains [restricted] (by its type). *)
Record EgressPolicy := mkPolicy {
  projectClassification : DataClassification;
  permittedEgressClassifications : list DataClassification;
  explicitApproval : bool;
  contractualRetention : bool;
  noEgressCloudRoleAvailable : bool
}.

Section Egress.
Context {HH : Hashing} {Detail : Type}.
Variable entropy_below : ustr -> Z -> bool.

Record EgressScanInput := mkInput {
  runId : ustr;
  snapshotId : ustr;
  contextPacketObjectDigest : ustr;
  compiledConversationObjectDigest : ustr;
  conversationBytes : bytes;
  sourceRefs : list (SourceRef Detail);
  pathTexts : option (list (ustr * ustr));
  provider : EgressProviderChain;
  policy : EgressPolicy;
  expiresAt : ustr;
  intendedPatchPaths : option (list ustr);
  dlpFindings : option (list DlpFinding)
}.

Record Redaction := mkRedaction { red_marker : ustr; red_findingType : FindingType; red_sourceRef : SourceRef Detail }.

Record EgressManifest := mkManifest {
  m_runId : ustr;
  m_snapshotId : ustr;
  m_contextPacketObjectDigest : ustr;
  m_provider : EgressProviderChain;
  m_classification : DataClassification;
  m_sourceRefs : list (SourceRef Detail);
  m_redactions : list Redaction;
  m_scannerVersions : list ustr;
  m_compiledConversationObjectDigest : ustr;
  m_expiresAt : ustr
}.

Inductive Waiting : Set := restricted_bytes | not_permitted.

Inductive EgressOutcome : Type :=
| manifest (m : EgressManifest) (fs : list DlpFinding)
| waiting (reason : Waiting) (fs : list DlpFinding)
| rejected (fs : list DlpFinding).

Definition sourcePath (ref : SourceRef Detail) : option ustr :=
  match ref with repository_ref p _ => Some p | external_ref url _ => Some url | artifact_ref _ => None end.

Definition conversationText (bs : bytes) : ustr := toString_utf8 bs.

Definition dispatchableClassification (c : DataClassification) : option DataClassification :=
  if bool_decide (c = restricted) then None else Some c.

Definition policyAllows (c : DataClassification) (p : EgressPolicy) : bool :=
  if negb (includes c (permittedEgressClassifications p)) then false
  else if bool_decide (c = confidential) then explicitApproval p && contractualRetention p
  else true.

Definition scan_ref (texts : option (list (ustr * ustr))) (project : DataClassification) (ref : SourceRef Detail)
    : list DlpScanResult :=
  match sourcePath ref with
  | None => []
  | Some path =>
      scanPathName entropy_below path ::
      match texts ≫= JsMap.get path with
      | Some body => [scanText entropy_below body (Some path) (Some project)]
      | None => []
      end
  end.

Definition scanExecutorContext (bs : bytes) (refs : list (SourceRef Detail)) (texts : option (list (ustr * ustr)))
    (project : DataClassification) : DlpScanResult :=
  let scans := scanText entropy_below (conversationText bs) None (Some project) :: flat_map (scan_ref texts project) refs in
  mkScan (maxClassification (project :: map scan_classification scans)) (flat_map findings scans)
    (conversationText bs) (forallb inspectable scans).

Definition PUBLIC_CLOUD_MARKERS : list ustr :=
  map u ["openai.com"; "api.openai"; "anthropic.com"; "googleapis.com"; "google.com"; "azure.com"; "openai.azure";
         "amazonaws.com"; "aws.amazon"; "together.xyz"; "fireworks.ai"; "groq.com"; "x.ai"; "openrouter.ai";
         "mistral.ai"; "cohere.com"].

Definition isPublicCloudExecutor (p : EgressProviderChain) : bool :=
  let haystack := toLowerCase (endpointIdentity p ++ LF :: join_unit LF (providerChain p)) in
  existsb (fun marker => includes_text marker haystack) PUBLIC_CLOUD_MARKERS.

Definition dispatchableFallback (p : EgressPolicy) : DataClassification :=
  if bool_decide (projectClassification p <> restricted) then projectClassification p
  else if includes confidential (permittedEgressClassifications p) then confidential
  else default internal (head (permittedEgressClassifications p)).

Definition redaction_of (refs : list (SourceRef Detail)) (f : DlpFinding) : option Redaction :=
  let ref := array_find (fun item => bool_decide (sourcePath item = f_path f)) refs in
  sourceRef ← match ref with Some r => Some r | None => head refs end;
  Some (mkRedaction (marker f) (f_findingType f) sourceRef).

Definition SCANNER_VERSIONS : list ustr :=
  [u "pi-hec-classification/1.0.0"; u "pi-hec-dlp/1.0.0"; u "pi-hec-egress/1.0.0"].

Definition buildEgressManifest (input : EgressScanInput) : EgressOutcome :=
  let scanned := scanExecutorContext (conversationBytes input) (sourceRefs input) (pathTexts input)
                   (projectClassification (policy input)) in
  let fs := findings scanned in
  if intendedPatchDependsOnRedacted (fs ++ default [] (dlpFindings input)) (default [] (intendedPatchPaths input))
  then rejected fs
  else if bool_decide (scan_classification scanned = restricted) &&
          (negb (noEgressCloudRoleAvailable (policy input)) || isPublicCloudExecutor (provider input))
  then waiting restricted_bytes fs
  else
    match (if bool_decide (scan_classification scanned = restricted) then Some (dispatchableFallback (policy input))
           else dispatchableClassification (scan_classification scanned)) with
    | None => waiting restricted_bytes fs
    | Some class =>
        if negb (policyAllows class (policy input)) then waiting not_permitted fs
        else
          let redactions := omap (redaction_of (sourceRefs input))
            (List.filter redactionPermitted (default fs (dlpFindings input))) in
          manifest (mkManifest (runId input) (snapshotId input) (contextPacketObjectDigest input) (provider input)
                      class (sourceRefs input) redactions SCANNER_VERSIONS
                      (compiledConversationObjectDigest input) (expiresAt input)) fs
    end.
End Egress.
