(* ===== verification/Identity.v ===== *)
(** Identity, authorization and capabilities (packages/security/src: identity.ts, authorization.ts,
    capability.ts).  X.509 parsing, HMAC and base64 decoding are parameters; the identity store is
    a record of its operations, with the two implementations of the source. *)

From Stdlib Require Import String.
From S2P Require Import Prelude JsText CanonicalJson ChangeApply.
Open Scope string_scope.
Open Scope list_scope.

(** ** Data *)

Inductive IdentityKind : Set := k_admin | k_broker | k_runner | k_worker | k_service.
#[export] Instance IdentityKind_eq_dec : EqDecision IdentityKind.
Proof. solve_decision. Defined.

Record CertificatePrincipalRecord := mkRecord {
  principalId : ustr;
  identityKind : IdentityKind;
  certificateSerial : ustr;
  spkiSha256 : ustr;
  revokedAt : option ustr;
  notAfter : ustr;
  audiences : list ustr
}.

Record ProjectGrantRecord := mkGrantRecord {
  g_projectId : ustr;
  roles : list ustr;
  grantObjectDigest : ustr;
  g_revokedAt : option ustr
}.

Record ProjectGrant := mkProjectGrant { pg_projectId : ustr; pg_roles : list ustr; pg_grantObjectDigest : ustr }.

Record PrincipalScope := mkScope {
  sc_principalId : ustr;
  sc_identityKind : IdentityKind;
  sc_certificateSerial : ustr;
  sc_audiences : list ustr;
  projectGrants : list ProjectGrant;
  authenticatedAt : ustr
}.

(** ** Identity stores *)

Record IdentityStorePort := mkStore {
  lookupBySerialAndSpki : ustr -> ustr -> option CertificatePrincipalRecord;
  listGrants : ustr -> list ProjectGrantRecord;
  listAllProjects : list (ustr * ustr)
}.

Definition StaticIdentityStore (records : list CertificatePrincipalRecord)
    (grants : list (ustr * list ProjectGrantRecord)) (projects : option (list (ustr * ustr))) : IdentityStorePort :=
  mkStore
    (fun serial spki => array_find (fun r => bool_decide (certificateSerial r = serial) &&
                                             bool_decide (spkiSha256 r = spki)) records)
    (fun principal => default [] (JsMap.get principal grants))
    (default [] projects).

(** [replaceProjects] *)
Definition replaceProjects (s : IdentityStorePort) (projects : list (ustr * ustr)) : IdentityStorePort :=
  mkStore (lookupBySerialAndSpki s) (listGrants s) projects.

Definition CompositeIdentityStore (primary fallback : IdentityStorePort) : IdentityStorePort :=
  mkStore
    (fun serial spki =>
       match lookupBySerialAndSpki primary serial spki with
       | Some r => Some r
       | None => lookupBySerialAndSpki fallback serial spki
       end)
    (fun principal => match listGrants primary principal with [] => listGrants fallback principal | l => l end)
    (match listAllProjects primary with [] => listAllProjects fallback | l => l end).

(** ** Certificates *)

Definition normalizeSerial (serial : ustr) : ustr := toLowerCase (replaceAll [COLON] [] serial).

Definition constructPrincipalScope (record : CertificatePrincipalRecord) (grants : list ProjectGrantRecord)
    (now : ustr) (extraProject : option ProjectGrant) : PrincipalScope :=
  let grants := map (fun g => mkProjectGrant (g_projectId g) (roles g) (grantObjectDigest g))
    (List.filter (fun g => match g_revokedAt g with None => true | Some _ => false end) grants) in
  let grants := match extraProject with
    | None => grants
    | Some extra =>
        if existsb (fun g => bool_decide (pg_projectId g = pg_projectId extra)) grants then grants else grants ++ [extra]
    end in
  mkScope (principalId record) (identityKind record) (certificateSerial record) (audiences record) grants now.

Inductive Unauthenticated : Set := u_revoked | u_expired | u_unknown.

Section Certificates.
(** [new X509Certificate(der)]: the serial number and the SHA-256 of the public key, or the thrown error. *)
Variable parse_certificate : bytes -> option (ustr * ustr).

Definition parsePeerCertificate (der : bytes) : option (ustr * ustr) :=
  '(serial, spki) ← parse_certificate der; Some (normalizeSerial serial, spki).

(** The grants of an administrator are all projects. *)
Definition grants_of (store : IdentityStorePort) (record : CertificatePrincipalRecord) : list ProjectGrantRecord :=
  if bool_decide (identityKind record = k_admin)
  then map (fun p => mkGrantRecord p.1 [u "admin"] p.2 None) (listAllProjects store)
  else listGrants store (principalId record).

(** [None] is the error thrown by the certificate parser. *)
Definition mapCertificateToScope (store : IdentityStorePort) (der : bytes) (now : ustr) (extraProject : option ProjectGrant)
    : option (result Unauthenticated PrincipalScope) :=
  '(serial, spki) ← parsePeerCertificate der;
  Some match lookupBySerialAndSpki store serial spki with
       | None => Err u_unknown
       | Some record =>
           match revokedAt record with
           | Some _ => Err u_revoked
           | None =>
               if negb (utf16_leb now (notAfter record)) then Err u_expired
               else Ok (constructPrincipalScope record (grants_of store record) now extraProject)
           end
       end.
End Certificates.

(** ** Authorization *)

Inductive ApiAudience : Set := aud_admin | aud_broker | aud_runner | aud_worker | aud_owning_runner | aud_bootstrap.
#[export] Instance ApiAudience_eq_dec : EqDecision ApiAudience.
Proof. solve_decision. Defined.

Inductive AuthorizationDecision : Type := allow (projectId : option ustr) | unauthenticated | not_found.

Definition pathProjectId (params : list (ustr * ustr)) : option ustr :=
  p ← JsMap.get (u "projectId") params; if (length p =? 0)%nat then None else Some p.

(** The kind and the audience name one required audience asks for. *)
Definition required_identity (a : ApiAudience) : option (IdentityKind * ustr) :=
  match a with
  | aud_admin => Some (k_admin, u "admin")
  | aud_broker => Some (k_broker, u "broker")
  | aud_runner | aud_owning_runner => Some (k_runner, u "runner")
  | aud_worker => Some (k_worker, u "worker")
  | aud_bootstrap => None
  end.

Definition audienceAllowed (scope : PrincipalScope) (required : list ApiAudience) : bool :=
  existsb (fun a => match required_identity a with
    | Some (kind, name) => bool_decide (sc_identityKind scope = kind) && includes name (sc_audiences scope)
    | None => false
    end) required.

Definition hasProjectAccess (scope : PrincipalScope) (projectId : ustr) : bool :=
  existsb (fun g => bool_decide (pg_projectId g = projectId)) (projectGrants scope).

Definition authorizeOperation (scope : option PrincipalScope) (required : list ApiAudience) (params : list (ustr * ustr))
    : AuthorizationDecision :=
  let projectId := pathProjectId params in
  if includes aud_bootstrap required then
    match scope with Some _ => not_found | None => allow projectId end
  else
    match scope with
    | None => unauthenticated
    | Some scope =>
        if negb (audienceAllowed scope required) then not_found
        else match projectId with
             | Some p => if negb (hasProjectAccess scope p) then not_found else allow projectId
             | None => allow projectId
             end
    end.

Definition isOwningRunnerAudience (required : list ApiAudience) : bool := includes aud_owning_runner required.

(** ** Capabilities *)

Inductive CapabilityPurpose : Set :=
| p_cloud_egress | p_command | p_workspace_promotion | p_project_trust | p_project_policy
| p_workspace_registration | p_blob_write | p_lease_claim.
#[export] Instance CapabilityPurpose_eq_dec : EqDecision CapabilityPurpose.
Proof. solve_decision. Defined.

Definition purpose_text (p : CapabilityPurpose) : ustr :=
  u match p with
    | p_cloud_egress => "cloud-egress" | p_command => "command" | p_workspace_promotion => "workspace-promotion"
    | p_project_trust => "project-trust" | p_project_policy => "project-policy"
    | p_workspace_registration => "workspace-registration" | p_blob_write => "blob-write" | p_lease_claim => "lease-claim"
    end.

Record CapabilityToken := mkToken {
  tokenId : ustr;
  purpose : CapabilityPurpose;
  t_projectId : ustr;
  t_principalId : ustr;
  issuedAt : ustr;
  t_expiresAt : ustr;
  nonce : ustr
}.

Record SignedCapability := mkCapability { token : CapabilityToken; mac : ustr }.

Inductive CapabilityRefusal : Set := c_mac | c_expired | c_purpose | c_project | c_principal | c_canonical.

Section Capabilities.
Context {DD : Doubles}.
Variable hmac : bytes -> bytes -> bytes.
(** [Buffer.from(mac, "base64")] *)
Variable fromBase64 : ustr -> bytes.

Definition token_json (t : CapabilityToken) : jsvalue :=
  VObj [(u "schemaVersion", VNum (SafeInt 1)); (u "tokenId", VStr (tokenId t)); (u "purpose", VStr (purpose_text (purpose t)));
        (u "projectId", VStr (t_projectId t)); (u "principalId", VStr (t_principalId t)); (u "issuedAt", VStr (issuedAt t));
        (u "expiresAt", VStr (t_expiresAt t)); (u "nonce", VStr (nonce t))].

(** [None]: the token cannot be canonicalized. *)
Definition macBytes (hostKey : bytes) (t : CapabilityToken) : option bytes :=
  match canonicalizeRfc8785 (token_json t) with Ok text => Some (hmac hostKey (utf8_encode text)) | Err _ => None end.

(** The token id and the nonce are fresh random texts. *)
Definition mintCapability (hostKey : bytes) (p : CapabilityPurpose) (projectId principal issued expires freshId freshNonce : ustr)
    : option SignedCapability :=
  if utf16_leb expires issued then None
  else
    let t := mkToken freshId p projectId principal issued expires freshNonce in
    m ← macBytes hostKey t; Some (mkCapability t (b64_encode m)).

Definition verifyCapability (hostKey : bytes) (signed : SignedCapability) (now : ustr) (p : CapabilityPurpose)
    (projectId principal : ustr) : result CapabilityRefusal CapabilityToken :=
  match macBytes hostKey (token signed) with
  | None => Err c_canonical
  | Some expected =>
      throw_if bool_decide (expected <> fromBase64 (mac signed)) with c_mac;
      throw_if negb (utf16_leb now (t_expiresAt (token signed))) with c_expired;
      throw_if bool_decide (purpose (token signed) <> p) with c_purpose;
      throw_if bool_decide (t_projectId (token signed) <> projectId) with c_project;
      throw_if bool_decide (t_principalId (token signed) <> principal) with c_principal;
      Ok (token signed)
  end.
End Capabilities.

(** The registry of HTTP operations (packages/contracts/src/schemas/http.ts and http-operations.ts):
    who may call what, and whether the call changes state. *)

Open Scope string_scope.
Open Scope list_scope.

Inductive HttpMethod : Set := GET | PUT | POST.

Inductive ApiOperationClass : Set := mut_sync | mut_run | content | lease | read.
#[export] Instance ApiOperationClass_eq_dec : EqDecision ApiOperationClass.
Proof. solve_decision. Defined.

Record HttpOperationSpec := mkOperation {
  op_id : string;
  op_method : HttpMethod;
  op_path : string;
  op_audiences : list ApiAudience;
  requestSchemaName : option string;
  success : list (Z * option string);
  op_class : ApiOperationClass;
  errorProfile : string;
  responseHeaders : list string
}.

Definition method_text (m : HttpMethod) : ustr := u match m with GET => "GET" | PUT => "PUT" | POST => "POST" end.

Definition HTTP_OPERATIONS_1 : list HttpOperationSpec :=
  [mkOperation "createProject" POST "/v1/projects"
     [aud_admin] (Some "CreateProjectRequest")
     [(201, Some "CreateProjectResponse")]%Z mut_sync "R+J+I"
     ["Location"; "ETag"; "Operation-Id"];
   mkOperation "getProject" GET "/v1/projects/{projectId}"
     [aud_admin; aud_broker] None
     [(200, Some "ProjectProjection"); (304, None)]%Z read "R"
     ["ETag"; "Cache-Control"];
   mkOperation "updateProjectPolicy" PUT "/v1/projects/{projectId}/policy"
     [aud_admin; aud_broker] (Some "UpdateProjectPolicyRequest")
     [(200, Some "ProjectProjection")]%Z mut_sync "R+J+I+P"
     ["ETag"; "Operation-Id"];
   mkOperation "setProjectTrust" POST "/v1/projects/{projectId}:set-trust"
     [aud_admin; aud_broker] (Some "SetProjectTrustRequest")
     [(200, Some "ProjectProjection")]%Z mut_sync "R+J+I+P"
     ["ETag"; "Operation-Id"];
   mkOperation "createProjectApprovalChallenge" POST "/v1/projects/{projectId}/approval-challenges"
     [aud_broker] (Some "ApprovalChallengeRequest")
     [(201, Some "ArtifactEnvelopeApprovalChallenge")]%Z mut_sync "R+J+I"
     ["Location"; "Operation-Id"];
   mkOperation "commitProjectApproval" PUT "/v1/projects/{projectId}/approvals/{approvalId}"
     [aud_broker] (Some "CommitApprovalRequest")
     [(201, Some "CommitApprovalResponse"); (200, Some "CommitApprovalResponse")]%Z mut_sync "R+J+I"
     ["Location"; "Operation-Id"];
   mkOperation "enrollProject" POST "/v1/projects:enroll"
     [aud_broker] (Some "CreateProjectRequest")
     [(201, Some "CreateProjectResponse")]%Z mut_sync "R+J+I"
     ["Location"; "ETag"; "Operation-Id"];
   mkOperation "createWorkspace" POST "/v1/projects/{projectId}/workspaces"
     [aud_broker] (Some "CreateWorkspaceRequest")
     [(201, Some "WorkspaceProjection")]%Z mut_sync "R+J+I+P"
     ["Location"; "ETag"; "Operation-Id"];
   mkOperation "grantRunnerProject" POST "/v1/projects/{projectId}/runner-grants"
     [aud_admin; aud_broker] (Some "GrantRunnerProjectRequest")
     [(201, Some "GrantRunnerProjectResponse"); (200, Some "GrantRunnerProjectResponse")]%Z mut_sync "R+J+I+P"
     ["Location"; "ETag"; "Operation-Id"];
   mkOperation "createRun" PUT "/v1/projects/{projectId}/runs/{runId}"
     [aud_broker] (Some "CreateRunRequest")
     [(201, Some "RunProjection")]%Z mut_sync "R+J+I"
     ["Location"; "ETag"; "Operation-Id"]].

Definition HTTP_OPERATIONS_2 : list HttpOperationSpec :=
  [mkOperation "getRun" GET "/v1/projects/{projectId}/runs/{runId}"
     [aud_broker] None
     [(200, Some "RunProjection"); (304, None)]%Z read "R"
     ["ETag"; "Cache-Control"];
   mkOperation "listRunEvents" GET "/v1/projects/{projectId}/runs/{runId}/events"
     [aud_broker] (Some "HttpEventsQuery")
     [(200, Some "RunEventPage")]%Z read "R+400"
     ["Cache-Control"];
   mkOperation "listRunAgents" GET "/v1/projects/{projectId}/runs/{runId}/agents"
     [aud_broker] None
     [(200, Some "RunAgentsPage")]%Z read "R"
     ["ETag"; "Cache-Control"];
   mkOperation "listRunArtifacts" GET "/v1/projects/{projectId}/runs/{runId}/artifacts"
     [aud_broker] (Some "HttpArtifactsQuery")
     [(200, Some "RunArtifactPage")]%Z read "R+400"
     ["Cache-Control"];
   mkOperation "provideRunInput" POST "/v1/projects/{projectId}/runs/{runId}:provide-input"
     [aud_broker] (Some "ProvideInputRequest")
     [(202, Some "OperationProjection")]%Z mut_run "R+J+I+P+L"
     ["Location"; "ETag"; "Operation-Id"];
   mkOperation "requestRunRepair" POST "/v1/projects/{projectId}/runs/{runId}:request-repair"
     [aud_broker] (Some "RequestRepairRequest")
     [(202, Some "OperationProjection")]%Z mut_run "R+J+I+P+L"
     ["Location"; "ETag"; "Operation-Id"];
   mkOperation "cancelRun" POST "/v1/projects/{projectId}/runs/{runId}:cancel"
     [aud_broker] (Some "CancelRunRequest")
     [(202, Some "OperationProjection")]%Z mut_run "R+J+I+P"
     ["Location"; "ETag"; "Operation-Id"];
   mkOperation "createRunApprovalChallenge" POST "/v1/projects/{projectId}/runs/{runId}/approval-challenges"
     [aud_broker] (Some "ApprovalChallengeRequest")
     [(201, Some "ArtifactEnvelopeApprovalChallenge")]%Z mut_sync "R+J+I+P"
     ["Location"; "Operation-Id"];
   mkOperation "commitRunApproval" PUT "/v1/projects/{projectId}/runs/{runId}/approvals/{approvalId}"
     [aud_broker] (Some "CommitApprovalRequest")
     [(201, Some "CommitApprovalResponse"); (200, Some "CommitApprovalResponse")]%Z mut_sync "R+J+I+P"
     ["Location"; "Operation-Id"];
   mkOperation "missingBlobs" POST "/v1/projects/{projectId}/blobs:missing"
     [aud_broker; aud_runner; aud_worker] (Some "MissingBlobsRequest")
     [(200, Some "MissingBlobsResponse")]%Z read "R+J"
     ["Cache-Control"]].

Definition HTTP_OPERATIONS_3 : list HttpOperationSpec :=
  [mkOperation "putBlob" PUT "/v1/projects/{projectId}/blobs/sha256/{objectDigest}"
     [aud_broker; aud_runner; aud_worker] None
     [(201, None); (204, None)]%Z content "R+409+413+415+422"
     ["Location"; "ETag"; "Repr-Digest"];
   mkOperation "getBlob" GET "/v1/projects/{projectId}/blobs/sha256/{objectDigest}"
     [aud_broker; aud_runner; aud_worker] None
     [(200, None); (206, None); (304, None)]%Z read "R+416"
     ["ETag"; "Accept-Ranges"; "Content-Digest"; "Repr-Digest"; "Cache-Control"];
   mkOperation "commitSnapshot" PUT "/v1/projects/{projectId}/snapshots/{snapshotId}"
     [aud_broker] (Some "SnapshotCommitRequest")
     [(201, Some "SnapshotProjection"); (200, Some "SnapshotProjection")]%Z mut_sync "R+J+I+L"
     ["Location"; "ETag"; "Operation-Id"];
   mkOperation "createRunnerEnrollmentChallenge" POST "/v1/admin/runner-enrollment-challenges"
     [aud_admin] (Some "CreateRunnerEnrollmentChallengeRequest")
     [(201, Some "RunnerEnrollmentChallenge")]%Z mut_sync "R+J+I"
     ["Location"; "Operation-Id"; "Cache-Control"];
   mkOperation "revokeRunner" POST "/v1/admin/runners/{runnerId}:revoke"
     [aud_admin] (Some "RevokeRunnerRequest")
     [(204, None)]%Z mut_sync "R+J+I"
     ["Operation-Id"];
   mkOperation "enrollRunner" PUT "/v1/runners/{runnerId}:enroll"
     [aud_bootstrap] (Some "EnrollRunnerRequest")
     [(201, Some "RunnerIdentityResponse")]%Z mut_sync "400,404,409,413,415,422,500,503"
     ["Location"; "Operation-Id"; "Cache-Control"];
   mkOperation "rotateRunnerCertificate" POST "/v1/runners/{runnerId}:rotate-certificate"
     [aud_runner] (Some "RotateRunnerCertificateRequest")
     [(201, Some "RunnerIdentityResponse")]%Z mut_sync "R+J+I"
     ["Location"; "Operation-Id"; "Cache-Control"];
   mkOperation "leaseRunnerJob" POST "/v1/runner/jobs:lease"
     [aud_runner; aud_worker] (Some "RunnerLeaseRequest")
     [(200, Some "RunnerLeaseResponse")]%Z lease "R+J+409+423"
     ["Cache-Control"];
   mkOperation "heartbeatOperation" POST "/v1/projects/{projectId}/operations/{operationId}:heartbeat"
     [aud_owning_runner; aud_worker] (Some "OperationHeartbeatRequest")
     [(200, Some "OperationHeartbeatResponse")]%Z lease "R+J+409+410+423"
     ["Cache-Control"];
   mkOperation "completeOperation" PUT "/v1/projects/{projectId}/operations/{operationId}/result"
     [aud_owning_runner; aud_worker] (Some "OperationResultRequest")
     [(200, Some "OperationProjection")]%Z lease "R+J+409+410+422+423"
     ["ETag"; "Cache-Control"];
   mkOperation "getOperation" GET "/v1/projects/{projectId}/operations/{operationId}"
     [aud_broker; aud_owning_runner; aud_worker] None
     [(200, Some "OperationProjection"); (304, None)]%Z read "R"
     ["ETag"; "Cache-Control"]].

Definition HTTP_OPERATIONS : list HttpOperationSpec := HTTP_OPERATIONS_1 ++ HTTP_OPERATIONS_2 ++ HTTP_OPERATIONS_3.

(** [None] is the thrown error. *)
Definition findOperation (id : string) : option HttpOperationSpec :=
  array_find (fun spec => bool_decide (op_id spec = id)) HTTP_OPERATIONS.
