(* ===== verification/HttpGate.v ===== *)
(** The gate of the control plane: what happens to a request before its handler runs
    (faex1/apps/control-plane/src: the onRequest and preHandler hooks of app.ts, and
    enforceMutationGuards and verifyMutationOrThrow of orchestration/handlers.ts). *)

From Stdlib Require Import String.
From S2P Require Import Prelude JsText CanonicalJson Identity Replay.
Open Scope string_scope.
Open Scope list_scope.

(** A header is a string, or an array of strings. *)
Inductive HeaderValue : Type := one (value : ustr) | many (values : list ustr).

Record Request := mkRequest {
  route_operation : option string;
  (** the certificate of an authorized TLS peer *)
  peer : option bytes;
  url : ustr;
  request_headers : list (ustr * HeaderValue);
  rawBody : option bytes;
  params : list (ustr * ustr)
}.

Inductive Signal : Set :=
| NOT_FOUND | AUTHENTICATION_FAILED | MEDIA_TYPE_UNSUPPORTED | CONTENT_TOO_LARGE | INTERNAL.

Definition string_header (request : Request) (name : string) : option ustr :=
  match JsMap.get (u name) (request_headers request) with Some (one v) => Some v | _ => None end.

Definition mediaTypeOf (header : option ustr) : option ustr :=
  header ← header;
  let raw := match indexOf [SEMICOLON] header with None => header | Some semi => take semi header end in
  Some (toLowerCase (trim raw)).

Definition enforceMutationGuards (spec : HttpOperationSpec) (request : Request) (jsonLimit : nat) : result Signal unit :=
  match op_class spec with
  | read => Ok tt
  | content =>
      throw_if bool_decide (mediaTypeOf (string_header request "content-type") <> Some (u "application/octet-stream"))
        with MEDIA_TYPE_UNSUPPORTED;
      Ok tt
  | _ =>
      throw_if bool_decide (mediaTypeOf (string_header request "content-type") <> Some (u "application/json"))
        with MEDIA_TYPE_UNSUPPORTED;
      throw_if match rawBody request with Some raw => (jsonLimit <? length raw)%nat | None => false end
        with CONTENT_TOO_LARGE;
      Ok tt
  end.

(** [headers[name.toLowerCase()] = value] for the string headers, in order. *)
Definition message_headers (request : Request) : list (ustr * ustr) :=
  fold_left (fun acc kv => match kv.2 with one v => JsMap.set (toLowerCase kv.1) v acc | many _ => acc end)
    (request_headers request) [].

Section Gate.
Context {KeyObject : Type}.
Variable sha256 : bytes -> bytes.
Variable Date_parse : ustr -> option Z.
Variable cryptoVerify : SignatureAlg -> bytes -> KeyObject -> ustr -> bool.
Variable parse_certificate : bytes -> option (ustr * ustr).
(** [new X509Certificate(der).publicKey]; [None] is the thrown error *)
Variable certificate_key : bytes -> option KeyObject.

Record AppContext := mkContext {
  identity : IdentityStorePort;
  signingKeys : list (ustr * KeyObject);
  jsonLimit : nat;
  clock : ustr;
  (** the clock of the nonce cache, in milliseconds *)
  nonce_clock : Z
}.

(** The scope [onRequest] leaves in the request: none when mapping throws or refuses. *)
Definition principal_of (ctx : AppContext) (request : Request) : option PrincipalScope :=
  der ← peer request;
  match mapCertificateToScope parse_certificate (identity ctx) der (clock ctx) None with
  | Some (Ok scope) => Some scope
  | _ => None
  end.

Definition onRequest (ctx : AppContext) (request : Request) : result Signal (HttpOperationSpec * option PrincipalScope) :=
  match route_operation request ≫= findOperation with
  | None => Err NOT_FOUND
  | Some spec => Ok (spec, principal_of ctx request)
  end.

(** [Math.floor(Date.parse(ctx.clock()) / 1000)]; an unreadable clock is NaN, which passes the skew
    comparison: it is not modelled, the clock is the server's own. *)
Definition clock_seconds (ctx : AppContext) : option Z := unixSeconds Date_parse (clock ctx).

Definition signed_message (spec : HttpOperationSpec) (request : Request) : MutationMessage :=
  let host := default (u "localhost") (string_header request "host") in
  mkMessage (method_text (op_method spec)) host (u "https://" ++ host ++ url request) (message_headers request)
    (default [] (rawBody request)).

(** The nonce entries are returned also when the request is refused. *)
Definition verifyMutationOrThrow (ctx : AppContext) (entries : NonceCache.Entries) (request : Request)
    (spec : HttpOperationSpec) (scope : option PrincipalScope) : NonceCache.Entries * result Signal unit :=
  if bool_decide (op_class spec = read) then (entries, Ok tt)
  else match scope with
  | None => (entries, if includes aud_bootstrap (op_audiences spec) then Ok tt else Err AUTHENTICATION_FAILED)
  | Some scope =>
      match (match JsMap.get (sc_principalId scope) (signingKeys ctx) with
             | Some key => Some (Some key)
             | None => match peer request with None => Some None | Some der => Some <$> certificate_key der end
             end) with
      | None => (entries, Err INTERNAL)
      | Some None => (entries, Err AUTHENTICATION_FAILED)
      | Some (Some key) =>
          match clock_seconds ctx with
          | None => (entries, Err INTERNAL)
          | Some now =>
              match verifyMutation sha256 Date_parse cryptoVerify (signed_message spec request) key now (sc_principalId scope) with
              | Err _ => (entries, Err AUTHENTICATION_FAILED)
              | Ok params =>
                  let '(entries, outcome) := NonceCache.reserve (nonce_clock ctx) entries
                    (NonceCache.mkReservation (sc_principalId scope) (keyid params) (nonce params)
                       (default [] (string_header request "operation-id")) (expires params * 1000)) in
                  (entries, if bool_decide (outcome = NonceCache.conflict) then Err AUTHENTICATION_FAILED else Ok tt)
              end
          end
      end
  end.

(** Both hooks: the handler of the returned operation runs with the returned scope. *)
Definition request_gate (ctx : AppContext) (entries : NonceCache.Entries) (request : Request)
    : NonceCache.Entries * result Signal (HttpOperationSpec * option PrincipalScope) :=
  match onRequest ctx request with
  | Err e => (entries, Err e)
  | Ok (spec, scope) =>
      match authorizeOperation scope (op_audiences spec) (params request) with
      | unauthenticated => (entries, Err AUTHENTICATION_FAILED)
      | not_found => (entries, Err NOT_FOUND)
      | allow _ =>
          match enforceMutationGuards spec request (jsonLimit ctx) with
          | Err e => (entries, Err e)
          | Ok _ =>
              let '(entries, verified) := verifyMutationOrThrow ctx entries request spec scope in
              (entries, match verified with Ok _ => Ok (spec, scope) | Err e => Err e end)
          end
      end
  end.
End Gate.
