(* ===== verification/HttpGateTheorems.v ===== *)
(** The gate: a handler that changes state runs only for an authenticated, authorized principal whose
    signature covers the request, and capabilities verify exactly as minted. *)

From Stdlib Require Import String.
From S2P Require Import Prelude JsText CanonicalJson CanonicalJsonTheorems JsJson ChangeApply Identity Replay MutationTheorems HttpGate.
Open Scope string_scope.
Open Scope list_scope.

(** ** The operation registry *)

(** Only enrolment is open to a peer without a certificate, and GET only reads. *)
Definition operation_ok (spec : HttpOperationSpec) : bool :=
  (bool_decide (op_id spec = "enrollRunner") || negb (includes aud_bootstrap (op_audiences spec))) &&
  (bool_decide (op_class spec = read) || match op_method spec with GET => false | _ => true end).

Lemma operations_ok : forallb operation_ok HTTP_OPERATIONS = true.
Proof. vm_compute. reflexivity. Qed.

Lemma not_open spec : spec ∈ HTTP_OPERATIONS -> op_id spec <> "enrollRunner" -> aud_bootstrap ∉ op_audiences spec.
Proof.
  intros Hin Hid. pose proof operations_ok as H. rewrite forallb_forall in H.
  specialize (H spec (proj1 (list_elem_of_In _ _) Hin)). unfold operation_ok in H.
  rewrite (bool_decide_false (op_id spec = _)) in H by done. apply andb_true_iff in H as [H%negb_true_iff _].
  by apply includes_false.
Qed.

(** ** Who may pass *)

(** An unrevoked certificate record, within its validity, found by the peer's serial and key. *)
Record certified (parse : bytes -> option (ustr * ustr)) (store : IdentityStorePort) (now : ustr) (der : bytes)
    (record : CertificatePrincipalRecord) : Prop := {
  ce_found : exists serial spki, parsePeerCertificate parse der = Some (serial, spki) /\
    lookupBySerialAndSpki store serial spki = Some record;
  ce_unrevoked : revokedAt record = None;
  ce_valid : utf16_leb now (notAfter record) = true
}.

Lemma map_certified parse store der now extra scope :
  mapCertificateToScope parse store der now extra = Some (Ok scope) ->
  exists record, certified parse store now der record /\
    scope = constructPrincipalScope record (grants_of store record) now extra.
Proof.
  unfold mapCertificateToScope. destruct (parsePeerCertificate parse der) as [[serial spki]|] eqn:Ep; [|done].
  cbn [mbind option_bind]. intros H%(inj Some). destruct (lookupBySerialAndSpki store serial spki) as [record|] eqn:El; [|done].
  destruct (revokedAt record) eqn:Er; [done|]. destruct (negb _) eqn:En; [done|]. injection H as <-.
  exists record. split; [|done]. constructor; [by exists serial, spki | done | by apply negb_false_iff].
Qed.

(** The grant behind a project of the scope. *)
Lemma scope_grant record grants now p :
  hasProjectAccess (constructPrincipalScope record grants now None) p = true ->
  exists g, g ∈ grants /\ g_projectId g = p /\ g_revokedAt g = None.
Proof.
  unfold hasProjectAccess. cbn [constructPrincipalScope projectGrants].
  intros (pg & Hin & Hp)%existsb_exists. apply bool_decide_eq_true in Hp.
  apply in_map_iff in Hin as (g & <- & (Hg & Hr)%filter_In). exists g. split_and!; [by apply list_elem_of_In | done|].
  by destruct (g_revokedAt g).
Qed.

Section Gate.
Context {KeyObject : Type}.
Variable sha256 : bytes -> bytes.
Variable Date_parse : ustr -> option Z.
Variable cryptoVerify : SignatureAlg -> bytes -> KeyObject -> ustr -> bool.
Variable parse_certificate : bytes -> option (ustr * ustr).
Variable certificate_key : bytes -> option KeyObject.

Local Notation gate := (request_gate sha256 Date_parse cryptoVerify parse_certificate certificate_key).
Local Notation verify_throw := (verifyMutationOrThrow sha256 Date_parse cryptoVerify certificate_key).

(** The signature was made by a key of the principal, over this request, now. *)
Record signed_request (ctx : AppContext (KeyObject := KeyObject)) (request : Request) (spec : HttpOperationSpec) (principal : ustr)
    (entries' : NonceCache.Entries) : Prop := {
  sr_accepted : exists key now p,
    (JsMap.get principal (signingKeys ctx) = Some key \/
     JsMap.get principal (signingKeys ctx) = None /\ peer request ≫= certificate_key = Some key) /\
    clock_seconds Date_parse ctx = Some now /\
    accepted sha256 Date_parse cryptoVerify (signed_message spec request) key now principal p /\
    covers_message sha256 (signed_message spec request) p /\
    exists e, JsMap.get (principal ++ NUL :: keyid p ++ NUL :: nonce p) entries' = Some e /\
      NonceCache.entry_operationId e = default [] (string_header request "operation-id")
}.

Lemma reserve_holds now es r es' o :
  NonceCache.reserve now es r = (es', o) -> o <> NonceCache.conflict ->
  exists e, JsMap.get (NonceCache.key_of r) es' = Some e /\ NonceCache.entry_operationId e = NonceCache.operationId r.
Proof.
  unfold NonceCache.reserve. destruct (JsMap.get (NonceCache.key_of r) _) as [e|] eqn:E.
  - case_bool_decide as Hop; intros H Ho; injection H as <- <-; [|done]. by exists e.
  - intros H _. injection H as <- <-. rewrite JsMap.get_set_eq. eexists. split; [done|]. done.
Qed.

Lemma verify_signed_request ctx entries request spec scope entries' :
  op_class spec <> read -> verify_throw ctx entries request spec (Some scope) = (entries', Ok tt) ->
  signed_request ctx request spec (sc_principalId scope) entries'.
Proof.
  intros Hc. unfold verifyMutationOrThrow. rewrite bool_decide_false by done.
  destruct (match JsMap.get _ _ with Some key => _ | None => _ end) as [[key|]|] eqn:Ek; [|done..].
  destruct (clock_seconds _ ctx) as [now|] eqn:Ec; [|done].
  destruct (verifyMutation _ _ _ _ _ _ _) as [p|] eqn:Ev; [|done].
  destruct (NonceCache.reserve _ _ _) as [es o] eqn:Er. case_bool_decide as Ho; [done|]. intros H. injection H as <-.
  apply verifyMutation_sound in Ev. constructor. exists key, now, p.
  pose proof (accepted_covers _ _ _ _ _ _ _ _ Ev) as Hcov. split_and!; [|done|done|exact Hcov|].
  - destruct (JsMap.get _ (signingKeys ctx)) as [k|]; [left; congruence|]. right. split; [done|].
    destruct (peer request) as [der|]; [|done]. cbn. destruct (certificate_key der); cbn in Ek; congruence.
  - apply reserve_holds in Er as (e & He & Hop); [|done]. exists e. split; [|done].
    rewrite <- He. unfold NonceCache.key_of. cbn. reflexivity.
Qed.

(** C14: a handler of any operation but reads and the enrolment of a runner, which bootstraps without a certificate, runs
    only after the whole gate: the peer's certificate is known, unrevoked and unexpired, its kind and audience are among the
    operation's, a project in the path is covered by an unrevoked grant (or the peer is an administrator and the
    project exists), and the request is signed by the principal's key over the ten components of the profile in order:
    method, authority, target, the digest of the body as received, content type and length, operation id, both times and
    the nonce, whose reservation names this operation. *)
Theorem gate_only_signed ctx entries request entries' spec scope :
  gate ctx entries request = (entries', Ok (spec, scope)) ->
  op_class spec <> read -> op_id spec <> "enrollRunner" ->
  exists der record, peer request = Some der /\
    certified parse_certificate (identity ctx) (clock ctx) der record /\
    scope = Some (constructPrincipalScope record (grants_of (identity ctx) record) (clock ctx) None) /\
    (exists a name, a ∈ op_audiences spec /\ required_identity a = Some (identityKind record, name) /\ name ∈ audiences record) /\
    (forall p, pathProjectId (params request) = Some p ->
       exists g, g ∈ grants_of (identity ctx) record /\ g_projectId g = p /\ g_revokedAt g = None) /\
    signed_request ctx request spec (principalId record) entries'.
Proof.
  unfold HttpGate.request_gate, onRequest. destruct (route_operation request ≫= findOperation) as [s|] eqn:Es; [|done].
  destruct (authorizeOperation _ _ _) as [proj| |] eqn:Ea; [|done..].
  destruct (enforceMutationGuards _ _ _) as [[]|]; [|done].
  destruct (verify_throw ctx entries request s _) as [es v] eqn:Ev. destruct v as [[]|]; [|done].
  intros H Hclass Hid. injection H as <- <- <-.
  assert (s ∈ HTTP_OPERATIONS) as Hs.
  { destruct (route_operation request) as [id|]; [|done]. by apply array_find_some in Es as [? _]. }
  pose proof (not_open s Hs Hid) as Hboot.
  unfold authorizeOperation in Ea. rewrite (proj2 (includes_false _ _) Hboot) in Ea.
  destruct (principal_of _ ctx request) as [sc|] eqn:Ep; [|done].
  destruct (audienceAllowed sc (op_audiences s)) eqn:Eaud; [|done]. cbn [negb] in Ea.
  unfold principal_of in Ep. destruct (peer request) as [der|] eqn:Eder; [|done]. cbn [mbind option_bind] in Ep.
  destruct (mapCertificateToScope _ _ _ _ _) as [[sc'|]|] eqn:Emap; [|done..]. apply (inj Some) in Ep. subst sc'.
  apply map_certified in Emap as (record & Hcert & ->). exists der, record. split_and!; [done..| | |].
  - apply existsb_exists in Eaud as (a & Ha & Hreq). destruct (required_identity a) as [[kind name]|] eqn:Er; [|done].
    apply andb_true_iff in Hreq as [Hk%bool_decide_eq_true Hn%includes_true]. cbn in Hk, Hn. subst kind.
    exists a, name. split_and!; [by apply list_elem_of_In | done | done].
  - intros p Hp. rewrite Hp in Ea. destruct (hasProjectAccess _ p) eqn:Eacc; [|done]. by apply scope_grant in Eacc.
  - by apply verify_signed_request in Ev.
Qed.
End Gate.

Definition toy_record : CertificatePrincipalRecord :=
  mkRecord (u "root") k_admin (u "aabb") (u "spki") None (u "9") [u "admin"].
Definition toy_context : AppContext (KeyObject := N) :=
  mkContext (StaticIdentityStore [toy_record] [] None) [(u "root", 7%N)] 1024 (u "1970-01-01T00:17:10.000Z") 1030000.
Definition toy_certificate (der : bytes) : option (ustr * ustr) := Some (u "AA:BB", u "spki").
Definition toy_request : Request :=
  mkRequest (Some "createProject") (Some []) (u "/v1/projects")
    (map (fun kv => (kv.1, one kv.2)) ((u "host", u "h") ::
       default [] (createMutationSigner toy_sha256 toy_sign 7%N (u "root") 1000 toy_nonce (u "op_1")
         (u "POST") (u "h") (u "https://h/v1/projects") [] [123; 125]%N)))
    (Some [123; 125]%N) [].

Lemma gate_only_signed_witness :
  exists record, certified toy_certificate (identity toy_context) (clock toy_context) [] record /\
    identityKind record = k_admin.
Proof.
  destruct (request_gate toy_sha256 toy_parse toy_verify toy_certificate (fun _ => None) toy_context [] toy_request)
    as [entries r] eqn:E.
  destruct r as [[spec scope]|]; [|vm_compute in E; discriminate E].
  destruct (gate_only_signed toy_sha256 toy_parse toy_verify toy_certificate (fun _ => None) toy_context [] toy_request
    entries spec scope E) as (der & record & Hpeer & Hcert & Hscope & _).
  - vm_compute in E. injection E as _ <- _. discriminate.
  - vm_compute in E. injection E as _ <- _. discriminate.
  - exists record. split; [by apply (inj Some) in Hpeer as <-|].
    assert (sc_identityKind <$> scope = Some k_admin) as Hk by (vm_compute in E; injection E as _ _ <-; reflexivity).
    rewrite Hscope in Hk. by apply (inj Some) in Hk.
Defined.

(** ** Capabilities *)

Section Capabilities.
Context {DD : Doubles}.
Variable hmac : bytes -> bytes -> bytes.
Variable fromBase64 : ustr -> bytes.
Hypothesis fromBase64_encode : forall bs, fromBase64 (b64_encode bs) = bs.

(** A minted capability is accepted until it expires, for its purpose, project and principal, and
    refused for any other, each with its own reason. *)
Lemma capability_exact key p project principal issued expires id n cap now p' project' principal' :
  mintCapability hmac key p project principal issued expires id n = Some cap ->
  verifyCapability hmac fromBase64 key cap now p' project' principal' =
    if negb (utf16_leb now expires) then Err c_expired
    else if bool_decide (p <> p') then Err c_purpose
    else if bool_decide (project <> project') then Err c_project
    else if bool_decide (principal <> principal') then Err c_principal
    else Ok (token cap).
Proof.
  unfold mintCapability, verifyCapability. destruct (utf16_leb expires issued); [done|].
  destruct (macBytes _ _ _) as [m|] eqn:Em; [|done]. cbn [mbind option_bind]. intros H%(inj Some). subst cap.
  cbn [token mac]. rewrite Em, fromBase64_encode, bool_decide_false by tauto. done.
Qed.
End Capabilities.
