(* ===== verification/Approval.v ===== *)
(** Approvals (packages/security/src/approval.ts and fa-grant.ts, data of
    packages/contracts/src/schemas/secrets.ts): a user's signed decision on a challenge becomes a
    grant signed by the broker, and a grant is consumed once.

    The two registries are mutable sets in the source; here each function takes the set and returns
    it, also when it throws: a decision's nonce is spent before the decision is looked at.  Ed25519
    and the length of [Buffer.from(nonce, "base64url")] are parameters. *)

From Stdlib Require Import String.
From S2P Require Import Prelude Ids JsText CanonicalJson ChangeApply Digest CanonicalJsonTheorems DigestTheorems.
Open Scope string_scope.
Open Scope list_scope.

(** ** Data *)

Inductive ApprovalAction : Set :=
| A_cloud_egress | A_command | A_workspace_promotion | A_project_trust | A_project_policy | A_workspace_registration.
#[export] Instance ApprovalAction_eq_dec : EqDecision ApprovalAction.
Proof. solve_decision. Defined.

Definition action_text (a : ApprovalAction) : ustr :=
  u match a with
    | A_cloud_egress => "cloud-egress" | A_command => "command" | A_workspace_promotion => "workspace-promotion"
    | A_project_trust => "project-trust" | A_project_policy => "project-policy"
    | A_workspace_registration => "workspace-registration"
    end.

Inductive PromotionMode : Set := ENTRY_JOURNALED | ROOT_SWAP.
#[export] Instance PromotionMode_eq_dec : EqDecision PromotionMode.
Proof. solve_decision. Defined.

(** The enumerations without a role here (phase, classification, trust, platform) stay texts. *)
Inductive ApprovalSubject : Type :=
| S_cloud_egress (runId cloudCallId baseSnapshotRootDigest contextPacketObjectDigest
    compiledConversationObjectDigest egressManifestObjectDigest canonicalCloudRequestObjectDigest
    providerWireRequestObjectDigest deploymentId adapterVersionObjectDigest endpointIdentity modelRevision
    retentionPolicyObjectDigest : ustr)
| S_command (runId phase resolvedCommandSpecObjectDigest environmentSealObjectDigest
    sandboxPolicyObjectDigest inputTreeRootDigest : ustr)
| S_workspace_promotion (runId candidateManifestObjectDigest verdictReportObjectDigest
    baseSnapshotRootDigest currentWorkspaceRootDigest runnerId : ustr) (promotionMode : PromotionMode)
| S_project_trust (projectId proposedPolicyObjectDigest classification enrollingPrincipalId requestedTrust : ustr)
| S_workspace_registration (projectId workspaceId runnerId rootFingerprint platform
    brokerAttestationObjectDigest : ustr)
| S_project_policy (projectId priorPolicyObjectDigest proposedPolicyObjectDigest : ustr).

Inductive Scope : Type := project_scope | run_scope (runId : ustr).

Module Challenge.
Record ApprovalChallenge := mk {
  approvalId : ustr;
  projectId : ustr;
  scope : Scope;
  action : ApprovalAction;
  subjectObjectDigest : ustr;
  policyObjectDigest : ustr;
  nonce : ustr;
  expiresAt : ustr;
  displayArtifactObjectDigest : ustr
}.
End Challenge.

Module Decision.
Record ApprovalDecision := mk {
  approvalId : ustr;
  projectId : ustr;
  principalId : ustr;
  challengeObjectDigest : ustr;
  subjectObjectDigest : ustr;
  policyObjectDigest : ustr;
  displayArtifactObjectDigest : ustr;
  nonce : ustr;
  approve : bool;
  decidedAt : ustr;
  expiresAt : ustr
}.
End Decision.

(** [GrantBinding]: the scope of a grant and its action. *)
Inductive GrantBinding : Type :=
| run_binding (action : ApprovalAction) (runId : ustr)
| project_binding (action : ApprovalAction).

Definition binding_action (b : GrantBinding) : ApprovalAction :=
  match b with run_binding a _ | project_binding a => a end.

Module Grant.
Record ApprovalGrant := mk {
  approvalId : ustr;
  projectId : ustr;
  principalId : ustr;
  challengeObjectDigest : ustr;
  approvalDecisionObjectDigest : ustr;
  subjectObjectDigest : ustr;
  policyObjectDigest : ustr;
  issuedAt : ustr;
  expiresAt : ustr;
  binding : GrantBinding
}.
End Grant.

(** ** JSON values of the signed objects *)

Section Json.
Context {DD : Doubles}.

Definition str_fields (fs : list (string * ustr)) : list (ustr * jsvalue) := map (fun kv => (u kv.1, VStr kv.2)) fs.
Definition versioned (fs : list (ustr * jsvalue)) : jsvalue := VObj ((u "schemaVersion", VNum (SafeInt 1)) :: fs).

Definition approval_subject_json (s : ApprovalSubject) : jsvalue :=
  versioned (str_fields match s with
  | S_cloud_egress runId call base packet conversation manifest request wire deployment adapter endpoint model retention =>
      [("kind", u "cloud-egress"); ("runId", runId); ("cloudCallId", call); ("baseSnapshotRootDigest", base);
       ("contextPacketObjectDigest", packet); ("compiledConversationObjectDigest", conversation);
       ("egressManifestObjectDigest", manifest); ("canonicalCloudRequestObjectDigest", request);
       ("providerWireRequestObjectDigest", wire); ("deploymentId", deployment);
       ("adapterVersionObjectDigest", adapter); ("endpointIdentity", endpoint); ("modelRevision", model);
       ("retentionPolicyObjectDigest", retention)]
  | S_command runId phase spec seal policy tree =>
      [("kind", u "command"); ("runId", runId); ("phase", phase); ("resolvedCommandSpecObjectDigest", spec);
       ("environmentSealObjectDigest", seal); ("sandboxPolicyObjectDigest", policy); ("inputTreeRootDigest", tree)]
  | S_workspace_promotion runId manifest report base current runner mode =>
      [("kind", u "workspace-promotion"); ("runId", runId); ("candidateManifestObjectDigest", manifest);
       ("verdictReportObjectDigest", report); ("baseSnapshotRootDigest", base);
       ("currentWorkspaceRootDigest", current); ("runnerId", runner);
       ("promotionMode", u match mode with ENTRY_JOURNALED => "ENTRY_JOURNALED" | ROOT_SWAP => "ROOT_SWAP" end)]
  | S_project_trust project policy classification principal trust =>
      [("kind", u "project-trust"); ("projectId", project); ("proposedPolicyObjectDigest", policy);
       ("classification", classification); ("enrollingPrincipalId", principal); ("requestedTrust", trust)]
  | S_workspace_registration project workspace runner fingerprint platform attestation =>
      [("kind", u "workspace-registration"); ("projectId", project); ("workspaceId", workspace);
       ("runnerId", runner); ("rootFingerprint", fingerprint); ("platform", platform);
       ("brokerAttestationObjectDigest", attestation)]
  | S_project_policy project prior proposed =>
      [("kind", u "project-policy"); ("projectId", project); ("priorPolicyObjectDigest", prior);
       ("proposedPolicyObjectDigest", proposed)]
  end).

Definition scope_json (s : Scope) : jsvalue :=
  VObj (str_fields match s with
    | project_scope => [("kind", u "project")]
    | run_scope runId => [("kind", u "run"); ("runId", runId)]
    end).

Definition challenge_json (c : Challenge.ApprovalChallenge) : jsvalue :=
  versioned (str_fields [("approvalId", Challenge.approvalId c); ("projectId", Challenge.projectId c)] ++
    (u "scope", scope_json (Challenge.scope c)) ::
    str_fields [("action", action_text (Challenge.action c));
      ("subjectObjectDigest", Challenge.subjectObjectDigest c); ("policyObjectDigest", Challenge.policyObjectDigest c);
      ("nonce", Challenge.nonce c); ("expiresAt", Challenge.expiresAt c);
      ("displayArtifactObjectDigest", Challenge.displayArtifactObjectDigest c)]).

Definition decision_json (d : Decision.ApprovalDecision) : jsvalue :=
  versioned (str_fields
    [("approvalId", Decision.approvalId d); ("projectId", Decision.projectId d); ("principalId", Decision.principalId d);
     ("challengeObjectDigest", Decision.challengeObjectDigest d); ("subjectObjectDigest", Decision.subjectObjectDigest d);
     ("policyObjectDigest", Decision.policyObjectDigest d);
     ("displayArtifactObjectDigest", Decision.displayArtifactObjectDigest d); ("nonce", Decision.nonce d);
     ("decision", u (if Decision.approve d then "APPROVE" else "DENY")); ("decidedAt", Decision.decidedAt d);
     ("expiresAt", Decision.expiresAt d)]).

Definition grant_json (g : Grant.ApprovalGrant) : jsvalue :=
  versioned (str_fields
    ([("approvalId", Grant.approvalId g); ("projectId", Grant.projectId g); ("principalId", Grant.principalId g);
      ("challengeObjectDigest", Grant.challengeObjectDigest g);
      ("approvalDecisionObjectDigest", Grant.approvalDecisionObjectDigest g);
      ("subjectObjectDigest", Grant.subjectObjectDigest g); ("policyObjectDigest", Grant.policyObjectDigest g);
      ("issuedAt", Grant.issuedAt g); ("expiresAt", Grant.expiresAt g)] ++
     match Grant.binding g with
     | run_binding a runId => [("scope", u "run"); ("runId", runId); ("action", action_text a)]
     | project_binding a => [("scope", u "project"); ("action", action_text a)]
     end)).

End Json.

(** ** Errors *)

Inductive ApprovalError : Set :=
| nonce_replay | grant_consumed | nonce_invalid | signature_missing | ui_key | signature_malformed
| payload_digest | subject_mismatch | challenge_mismatch | policy_mismatch | display_mismatch
| presence_mismatch | revoked | principal | expired | denied | mode_mismatch
| digest_error (e : DigestErr)
| brand_error.

Definition lift_digest {A} (c : result DigestErr A) : result ApprovalError A :=
  match c with Ok a => Ok a | Err e => Err (digest_error e) end.

(** ** Registries *)

Definition UsedRegistry : Type := list ustr.

(** [consume] of both registries: [e] is the error of the class. *)
Definition consume (e : ApprovalError) (x : ustr) (used : UsedRegistry) : result ApprovalError UsedRegistry :=
  throw_if includes x used with e; Ok (used ++ [x]).

(** ** Bindings *)

Definition grantBindingForSubject (s : ApprovalSubject) : GrantBinding :=
  match s with
  | S_cloud_egress runId _ _ _ _ _ _ _ _ _ _ _ _ => run_binding A_cloud_egress runId
  | S_command runId _ _ _ _ _ => run_binding A_command runId
  | S_workspace_promotion runId _ _ _ _ _ _ => run_binding A_workspace_promotion runId
  | S_project_trust _ _ _ _ _ => project_binding A_project_trust
  | S_project_policy _ _ _ => project_binding A_project_policy
  | S_workspace_registration _ _ _ _ _ _ => project_binding A_workspace_registration
  end.

Definition is_run_scope (b : GrantBinding) : bool := match b with run_binding _ _ => true | _ => false end.

Definition assertBindingMatches (s : ApprovalSubject) (g : Grant.ApprovalGrant) : result ApprovalError unit :=
  let expected := grantBindingForSubject s in
  throw_if bool_decide (is_run_scope (Grant.binding g) <> is_run_scope expected) ||
           bool_decide (binding_action (Grant.binding g) <> binding_action expected) with subject_mismatch;
  throw_if match Grant.binding g, expected with
           | run_binding _ r, run_binding _ r' => bool_decide (r <> r')
           | _, _ => false
           end with subject_mismatch;
  Ok tt.

Definition grantFromDecision (p : Decision.ApprovalDecision) (b : GrantBinding) (now decisionDigest : ustr) : Grant.ApprovalGrant :=
  Grant.mk (Decision.approvalId p) (Decision.projectId p) (Decision.principalId p) (Decision.challengeObjectDigest p)
    decisionDigest (Decision.subjectObjectDigest p) (Decision.policyObjectDigest p) now (Decision.expiresAt p) b.

Section Approvals.
Context {DD : Doubles} {HH : Hashing} {KeyObject : Type}.
(** [cryptoVerify(null, input, publicKey, Buffer.from(signature, "base64"))] *)
Variable cryptoVerify : bytes -> KeyObject -> ustr -> bool.
Variable cryptoSign : bytes -> KeyObject -> bytes.
(** [Buffer.from(nonce, "base64url").byteLength] *)
Variable base64urlLength : ustr -> Z.

(** [asObjectDigest(payloadDigest(...))] *)
Definition approvalObjectDigest (schemaName : string) (value : jsvalue) : result ApprovalError Digest :=
  let? d := lift_digest (payloadDigest (u schemaName) 1 value) in
  throw_if negb (isObjectDigest_units d) with brand_error; Ok d.

Definition assertNonce256 (nonce : ustr) : result ApprovalError unit :=
  throw_if negb (base64urlLength nonce =? 32)%Z with nonce_invalid; Ok tt.

(** ** Envelopes; [json] is [jsonValue] on the payload's type *)

Definition signEnvelope {T} (json : T -> jsvalue) (name : ustr) (p : T) (privateKey : KeyObject)
    (kid certificate now : ustr) : result ApprovalError (ArtifactEnvelope T) :=
  let? pd := lift_digest (payloadDigest name 1 (json p)) in
  let unsigned := mkSignature kid (u "Ed25519") now certificate [] in
  let? input := lift_digest (signatureInputDigest name 1 pd unsigned certificate) in
  Ok (mkEnvelope name 1 p pd
        [mkSignature kid (u "Ed25519") now certificate (b64_encode (cryptoSign (utf8_encode input) privateKey))]).

Definition verifyEnvelopeSignature {T} (json : T -> jsvalue) (e : ArtifactEnvelope T) (publicKey : KeyObject)
    (expectedKeyId : ustr) : result ApprovalError unit :=
  match signatures e with
  | [first] =>
      throw_if bool_decide (keyId first <> expectedKeyId) || bool_decide (algorithm first <> u "Ed25519") with ui_key;
      throw_if negb (isObjectDigest_units (signerCertificateObjectDigest first)) with signature_malformed;
      let? expectedPayload := lift_digest (payloadDigest (schemaName e) (schemaVersion e) (json (payload e))) in
      throw_if bool_decide (expectedPayload <> env_payloadDigest e) with payload_digest;
      let? input := lift_digest (signatureInputDigest (schemaName e) (schemaVersion e) (env_payloadDigest e) first
                                   (signerCertificateObjectDigest first)) in
      throw_if negb (cryptoVerify (utf8_encode input) publicKey (signature first)) with ui_key;
      Ok tt
  | _ => Err signature_missing
  end.

Definition envelopeDigest {T} (json : T -> jsvalue) (e : ArtifactEnvelope T) : result ApprovalError Digest :=
  lift_digest (envelopeObjectDigest
    (mkEnvelope (schemaName e) (schemaVersion e) (json (payload e)) (env_payloadDigest e) (signatures e))).

(** ** Signing a decision *)

(** [userPresence.prove]: the digest the authenticator covered, or the error it threw. *)
Definition UserPresence : Type := ustr -> result ApprovalError ustr.

(** [decision] carries the chosen nonce, fresh when the caller gave none. *)
Definition signApprovalDecision (decision : Decision.ApprovalDecision) (uiPrivateKey : KeyObject) (uiKeyId certificate : ustr)
    (prove : UserPresence) (challenge : Challenge.ApprovalChallenge) (subject : ApprovalSubject) (now : ustr)
    : result ApprovalError (ArtifactEnvelope Decision.ApprovalDecision) :=
  let? _ := assertNonce256 (Decision.nonce decision) in
  let? subjectDigest := approvalObjectDigest "ApprovalSubject" (approval_subject_json subject) in
  let? challengeDigest := approvalObjectDigest "ApprovalChallenge" (challenge_json challenge) in
  throw_if bool_decide (subjectDigest <> Decision.subjectObjectDigest decision) ||
           bool_decide (subjectDigest <> Challenge.subjectObjectDigest challenge) with subject_mismatch;
  throw_if bool_decide (challengeDigest <> Decision.challengeObjectDigest decision) with challenge_mismatch;
  throw_if bool_decide (Challenge.policyObjectDigest challenge <> Decision.policyObjectDigest decision) with policy_mismatch;
  throw_if bool_decide (Challenge.displayArtifactObjectDigest challenge <> Decision.displayArtifactObjectDigest decision)
    with display_mismatch;
  throw_if bool_decide (Challenge.approvalId challenge <> Decision.approvalId decision) ||
           bool_decide (Challenge.projectId challenge <> Decision.projectId decision) with challenge_mismatch;
  let? proof := prove challengeDigest in
  throw_if bool_decide (proof <> challengeDigest) with presence_mismatch;
  signEnvelope decision_json (u "ApprovalDecision") decision uiPrivateKey uiKeyId certificate now.

(** ** Issuing a grant *)

Record IssueInput := mkIssue {
  decision : ArtifactEnvelope Decision.ApprovalDecision;
  challenge : Challenge.ApprovalChallenge;
  subject : ApprovalSubject;
  uiPublicKey : KeyObject;
  uiKeyId : ustr;
  brokerPrivateKey : KeyObject;
  brokerKeyId : ustr;
  brokerCertificateObjectDigest : ustr;
  authenticatedPrincipalId : ustr;
  issue_now : ustr;
  (** [store?.getRunner]: the runner's [revokedAt], when there is such a runner *)
  getRunner : option (ustr -> option (option ustr));
  faRunnerId : option ustr
}.

(** The runner check: [true] when it throws. *)
Definition runner_refused (i : IssueInput) : bool :=
  match faRunnerId i with
  | None => false
  | Some r => match getRunner i ≫= (fun get => get r) with Some None => false | _ => true end
  end.

(** The checks before the nonce is spent. *)
Definition decision_precheck (i : IssueInput) : result ApprovalError unit :=
  throw_if runner_refused i with revoked;
  let? _ := verifyEnvelopeSignature decision_json (decision i) (uiPublicKey i) (uiKeyId i) in
  throw_if bool_decide (Decision.principalId (payload (decision i)) <> authenticatedPrincipalId i) with principal;
  assertNonce256 (Decision.nonce (payload (decision i))).

(** The checks after it, and the grant. *)
Definition issue_checked (i : IssueInput) : result ApprovalError (ArtifactEnvelope Grant.ApprovalGrant) :=
  let p := payload (decision i) in
  let c := challenge i in
  throw_if utf16_leb (Decision.expiresAt p) (issue_now i) || utf16_leb (Challenge.expiresAt c) (issue_now i) with expired;
  throw_if negb (Decision.approve p) with denied;
  let? subjectDigest := approvalObjectDigest "ApprovalSubject" (approval_subject_json (subject i)) in
  let? challengeDigest := approvalObjectDigest "ApprovalChallenge" (challenge_json c) in
  throw_if bool_decide (Decision.subjectObjectDigest p <> subjectDigest) ||
           bool_decide (Challenge.subjectObjectDigest c <> subjectDigest) with subject_mismatch;
  throw_if bool_decide (Decision.challengeObjectDigest p <> challengeDigest) with challenge_mismatch;
  throw_if bool_decide (Decision.policyObjectDigest p <> Challenge.policyObjectDigest c) with policy_mismatch;
  throw_if bool_decide (Decision.displayArtifactObjectDigest p <> Challenge.displayArtifactObjectDigest c) with display_mismatch;
  throw_if bool_decide (Decision.approvalId p <> Challenge.approvalId c) ||
           bool_decide (Decision.projectId p <> Challenge.projectId c) with challenge_mismatch;
  let expected := grantBindingForSubject (subject i) in
  throw_if bool_decide (Challenge.action c <> binding_action expected) with subject_mismatch;
  let? decisionDigest := envelopeDigest decision_json (decision i) in
  signEnvelope grant_json (u "ApprovalGrant") (grantFromDecision p expected (issue_now i) decisionDigest)
    (brokerPrivateKey i) (brokerKeyId i) (brokerCertificateObjectDigest i) (issue_now i).

Definition verifyDecisionAndIssueGrant (nonces : UsedRegistry) (i : IssueInput)
    : UsedRegistry * result ApprovalError (ArtifactEnvelope Grant.ApprovalGrant) :=
  match decision_precheck i with
  | Err e => (nonces, Err e)
  | Ok _ =>
      match consume nonce_replay (Decision.nonce (payload (decision i))) nonces with
      | Err e => (nonces, Err e)
      | Ok nonces => (nonces, issue_checked i)
      end
  end.

(** [input.store] and [input.faRunnerId] are mandatory. *)
Definition issueGrantIfFaActive (nonces : UsedRegistry) (i : IssueInput) (getRunner : ustr -> option (option ustr))
    (faRunnerId : ustr) : UsedRegistry * result ApprovalError (ArtifactEnvelope Grant.ApprovalGrant) :=
  let '(mkIssue d c s k kid bk bkid cert who now _ _) := i in
  verifyDecisionAndIssueGrant nonces (mkIssue d c s k kid bk bkid cert who now (Some getRunner) (Some faRunnerId)).

(** ** Consuming a grant *)

Record ConsumeInput := mkConsume {
  grant : ArtifactEnvelope Grant.ApprovalGrant;
  brokerPublicKey : KeyObject;
  consume_brokerKeyId : ustr;
  consume_subject : ApprovalSubject;
  consume_now : ustr;
  expectedAction : option ApprovalAction;
  expectedPromotionMode : option PromotionMode
}.

Definition mode_refused (s : ApprovalSubject) (expected : option PromotionMode) : bool :=
  match expected, s with
  | None, _ => false
  | Some mode, S_workspace_promotion _ _ _ _ _ _ actual => bool_decide (actual <> mode)
  | Some _, _ => true
  end.

(** Everything [consumeGrant] does before [registry.consume]. *)
Definition check_grant (i : ConsumeInput) : result ApprovalError Digest :=
  let? _ := verifyEnvelopeSignature grant_json (grant i) (brokerPublicKey i) (consume_brokerKeyId i) in
  let g := payload (grant i) in
  throw_if utf16_leb (Grant.expiresAt g) (consume_now i) with expired;
  let? _ := assertBindingMatches (consume_subject i) g in
  let? subjectDigest := approvalObjectDigest "ApprovalSubject" (approval_subject_json (consume_subject i)) in
  throw_if bool_decide (Grant.subjectObjectDigest g <> subjectDigest) with subject_mismatch;
  throw_if match expectedAction i with
           | Some a => bool_decide (binding_action (Grant.binding g) <> a)
           | None => false
           end with subject_mismatch;
  throw_if mode_refused (consume_subject i) (expectedPromotionMode i) with mode_mismatch;
  envelopeDigest grant_json (grant i).

Definition consumeGrant (used : UsedRegistry) (i : ConsumeInput) : UsedRegistry * result ApprovalError Digest :=
  match check_grant i with
  | Err e => (used, Err e)
  | Ok digest =>
      match consume grant_consumed digest used with
      | Err e => (used, Err e)
      | Ok used => (used, Ok digest)
      end
  end.
End Approvals.

(** Approvals: a grant exists only for a signed, unexpired approval of exactly its subject, a
    decision yields at most one grant, a grant is used at most once, and an issued grant works. *)

Open Scope string_scope.
Open Scope list_scope.

Lemma consume_ok e x used used' : consume e x used = Ok used' -> x ∉ used /\ used' = used ++ [x].
Proof. unfold consume. intros H. repeat inv_ok_step. split; [by apply includes_false | done]. Qed.

Lemma consume_fresh e x used : x ∉ used -> consume e x used = Ok (used ++ [x]).
Proof. intros H. unfold consume. by rewrite (proj2 (includes_false _ _) H). Qed.

Lemma consume_used e x used : x ∈ used -> consume e x used = Err e.
Proof. intros H. unfold consume. by rewrite (proj2 (includes_true _ _) H). Qed.

Ltac clean_guards :=
  repeat match goal with
  | H : _ || _ = false |- _ => apply orb_false_iff in H as [? ?]
  | H : negb _ = false |- _ => apply negb_false_iff in H
  | H : bool_decide _ = false |- _ => apply bool_decide_eq_false in H; apply dec_stable in H
  end.

Section Approvals.
Context {DD : Doubles} {HH : Hashing} {KeyObject : Type}.
Variable cryptoVerify : bytes -> KeyObject -> ustr -> bool.
Variable cryptoSign : bytes -> KeyObject -> bytes.
Variable base64urlLength : ustr -> Z.

Local Notation issue := (verifyDecisionAndIssueGrant cryptoVerify cryptoSign base64urlLength).
Local Notation consume_grant := (consumeGrant cryptoVerify).

(** ** Envelopes *)

(** One Ed25519 signature of the expected key covers the payload. *)
Definition signed_by {T} (json : T -> jsvalue) (e : ArtifactEnvelope T) (pk : KeyObject) (kid : ustr) : Prop :=
  exists s input, signatures e = [s] /\ keyId s = kid /\ algorithm s = u "Ed25519" /\
    payloadDigest (schemaName e) (schemaVersion e) (json (payload e)) = Ok (env_payloadDigest e) /\
    signatureInputDigest (schemaName e) (schemaVersion e) (env_payloadDigest e) s (signerCertificateObjectDigest s) = Ok input /\
    cryptoVerify (utf8_encode input) pk (signature s) = true.

Lemma lift_digest_ok {A} (c : result DigestErr A) (a : A) : lift_digest c = Ok a -> c = Ok a.
Proof. destruct c; cbn; [congruence | done]. Qed.

Lemma verify_signed {T} (json : T -> jsvalue) (e : ArtifactEnvelope T) pk kid :
  verifyEnvelopeSignature cryptoVerify json e pk kid = Ok tt -> signed_by json e pk kid.
Proof.
  unfold verifyEnvelopeSignature, signed_by. destruct (signatures e) as [|s [|]]; [done| |done]. intros H. repeat inv_ok_step.
  clean_guards. repeat match goal with H : lift_digest _ = Ok _ |- _ => apply lift_digest_ok in H end. subst.
  exists s. eexists. split_and!; try done; congruence.
Qed.

Lemma sign_verifies {T} (json : T -> jsvalue) name (p : T) sk pk kid cert now e :
  (forall b, cryptoVerify b pk (b64_encode (cryptoSign b sk)) = true) -> isObjectDigest_units cert = true ->
  signEnvelope cryptoSign json name p sk kid cert now = Ok e ->
  verifyEnvelopeSignature cryptoVerify json e pk kid = Ok tt /\ payload e = p /\ schemaName e = name.
Proof.
  intros Hc Hcert H. unfold signEnvelope in H. repeat inv_ok_step.
  match goal with H1 : lift_digest (payloadDigest _ _ _) = Ok _, H2 : lift_digest (signatureInputDigest _ _ _ _ _) = Ok _ |- _ =>
    rename H1 into Hp; rename H2 into Hi end.
  subst e. split; [|done]. unfold verifyEnvelopeSignature.
  cbn [signatures keyId algorithm signerCertificateObjectDigest schemaName schemaVersion payload env_payloadDigest signature].
  rewrite !bool_decide_false by tauto. cbn [orb]. rewrite Hcert. cbn [negb]. rewrite Hp. cbn [rbind].
  rewrite bool_decide_false by tauto.
  unfold signatureInputDigest in Hi |- *. cbn [keyId algorithm signedAt] in Hi |- *. rewrite Hi. cbn [rbind]. by rewrite Hc.
Qed.

(** ** The digest of a signed envelope exists *)

(** Each member of an object that was hashed is printable. *)
Lemma projected_printable dom ver ps payload d :
  js_wf (VObj ps) -> isSafe ver = true ->
  tagged_text dom ver payload = of_canon (canonicalize (Digest.envelope dom ver ps)) ->
  taggedHash dom ver payload = Ok d -> forall k v, (k, v) ∈ ps -> printable false v = true.
Proof.
  intros Hwf Hver Ht (t & Htext & _)%rbind_ok k v Hin. rewrite Ht in Htext.
  unfold of_canon in Htext. destruct (canonicalize _) as [t'|] eqn:E; [|done].
  apply walk_ok_printable in E.
  - cbn [printable Digest.envelope forallb] in E. rewrite !andb_true_iff in E. destruct E as (_ & _ & (_ & E) & _).
    cbn [snd printable] in E. rewrite forallb_forall in E. apply list_elem_of_In in Hin.
    specialize (E _ Hin). by apply andb_true_iff in E as [_ E].
  - split; [apply (bool_decide_unpack _); vm_compute; exact I | repeat split; [done | apply Hwf | apply Hwf]].
Qed.

Lemma wf_fields (ks : list (ustr * jsvalue)) :
  NoDup (map fst ks) -> Forall (fun kv => js_wf kv.2) ks -> js_wf (VObj ks).
Proof. intros Hn Hf. split; [done|]. by apply foldr_and_Forall. Qed.

Lemma payloadDigest_printable name v x d :
  js_wf x -> isUndefined x = false -> isSafe v = true -> payloadDigest name v x = Ok d ->
  hasUnpairedSurrogate name = false /\ printable false x = true.
Proof.
  intros Hx Hu Hv H. unfold payloadDigest in H.
  pose (ps := [(u "schemaName", VStr name); (u "schemaVersion", VNum (SafeInt v)); (u "payload", x)]).
  assert (js_wf (VObj ps)) as Hwf.
  { apply wf_fields; [apply (bool_decide_unpack _); vm_compute; exact I | by repeat constructor]. }
  assert (forall k y, (k, y) ∈ ps -> printable false y = true) as Hp.
  { eapply (projected_printable "artifact-payload" 1); [exact Hwf | done | | exact H].
    unfold tagged_text. destruct x; try discriminate Hu; reflexivity. }
  split; [|apply (Hp (u "payload")); unfold ps; by repeat constructor].
  apply negb_true_iff, (Hp (u "schemaName") (VStr name)). unfold ps. by repeat constructor.
Qed.

Lemma signatureInput_clean name v pd s cert d :
  isSafe v = true -> signatureInputDigest name v pd s cert = Ok d ->
  Forall (fun x => hasUnpairedSurrogate x = false) [name; pd; keyId s; algorithm s; signedAt s; cert].
Proof.
  intros Hv H. unfold signatureInputDigest in H. match type of H with taggedHash _ _ (VObj ?l) = _ => pose (ps := l) end.
  assert (js_wf (VObj ps)) as Hwf.
  { apply wf_fields; [apply (bool_decide_unpack _); vm_compute; exact I | by repeat constructor]. }
  assert (forall k y, (k, VStr y) ∈ ps -> hasUnpairedSurrogate y = false) as Hp.
  { intros k y Hin. apply negb_true_iff. change (printable false (VStr y) = true).
    eapply (projected_printable "artifact-signature-input" 1 ps); [exact Hwf | done | | exact H | exact Hin]. reflexivity. }
  repeat constructor; eapply Hp; unfold ps; by repeat constructor.
Qed.

Lemma b64_clean bs : hasUnpairedSurrogate (b64_encode bs) = false.
Proof.
  apply clean_ascii. assert (forall n, (b64_char n < 128)%N) as Hc.
  { intros n. unfold b64_char. repeat case_match; try done;
    repeat match goal with H : (_ <? _)%N = true |- _ => apply N.ltb_lt in H end; lia. }
  remember (length bs) as n eqn:Hn. assert (length bs <= n) as Hle by lia. clear Hn.
  revert bs Hle. induction n as [|n IH]; intros bs Hle.
  - destruct bs; [constructor | cbn in Hle; lia].
  - destruct bs as [|a [|b [|c bs]]]; cbn [b64_encode]; repeat (constructor; [try done; apply Hc|]); [constructor..|].
    apply IH. cbn in Hle. lia.
Qed.

Lemma envelopeDigest_signed {T} (json : T -> jsvalue) name (p : T) sk kid cert now e :
  js_wf (json p) -> isUndefined (json p) = false ->
  signEnvelope cryptoSign json name p sk kid cert now = Ok e -> is_ok (envelopeDigest json e) = true.
Proof.
  intros Hwf Hu H. unfold signEnvelope in H. repeat inv_ok_step. subst e.
  repeat match goal with H : lift_digest _ = Ok _ |- _ => apply lift_digest_ok in H end.
  match goal with H1 : payloadDigest _ _ _ = Ok _, H2 : signatureInputDigest _ _ _ _ _ = Ok _ |- _ =>
    apply payloadDigest_printable in H1 as [Hname Hp]; [|done..];
    apply signatureInput_clean in H2; [|done] end.
  repeat match goal with H : Forall _ (_ :: _) |- _ => apply Forall_cons in H as [? ?] end. cbn [keyId signedAt] in *.
  unfold envelopeDigest, envelopeObjectDigest, canonicalizeEnvelope, sortSignatures.
  cbn [schemaName schemaVersion payload env_payloadDigest signatures sort_by foldr insert_by adjacent_duplicate rbind map].
  unfold canonicalize. rewrite walk_printable_ok; [done| |].
  - apply wf_fields; [apply (bool_decide_unpack _); vm_compute; exact I|].
    do 4 (constructor; [first [exact I | exact Hwf | reflexivity]|]). constructor; [|constructor].
    cbn [snd js_wf foldr]. split; [|done]. apply wf_fields; [apply (bool_decide_unpack _); vm_compute; exact I|].
    by repeat constructor.
  - unfold signature_json, VInt.
    cbn [printable forallb fst snd keyId algorithm signedAt signerCertificateObjectDigest signature].
    rewrite !andb_true_iff. rewrite b64_clean. split_and!; try done; by apply negb_true_iff.
Qed.

(** ** Issuing *)

(** What a grant certifies about the decision it came from. *)
Record grant_justified (nonces : UsedRegistry) (i : IssueInput (KeyObject := KeyObject)) (g : Grant.ApprovalGrant) : Prop := {
  gj_runner : forall r, faRunnerId i = Some r -> getRunner i ≫= (fun get => get r) = Some None;
  gj_signed : signed_by decision_json (decision i) (uiPublicKey i) (uiKeyId i);
  gj_principal : Decision.principalId (payload (decision i)) = authenticatedPrincipalId i;
  gj_nonce : Decision.nonce (payload (decision i)) ∉ nonces;
  gj_approved : Decision.approve (payload (decision i)) = true;
  gj_unexpired : utf16_leb (Decision.expiresAt (payload (decision i))) (issue_now i) = false /\
                 utf16_leb (Challenge.expiresAt (challenge i)) (issue_now i) = false;
  gj_subject : approvalObjectDigest "ApprovalSubject" (approval_subject_json (subject i)) = Ok (Grant.subjectObjectDigest g) /\
               Challenge.subjectObjectDigest (challenge i) = Grant.subjectObjectDigest g;
  gj_challenge : approvalObjectDigest "ApprovalChallenge" (challenge_json (challenge i)) = Ok (Grant.challengeObjectDigest g);
  gj_policy : Challenge.policyObjectDigest (challenge i) = Grant.policyObjectDigest g;
  gj_display : Decision.displayArtifactObjectDigest (payload (decision i)) = Challenge.displayArtifactObjectDigest (challenge i);
  gj_binding : Grant.binding g = grantBindingForSubject (subject i) /\
               Challenge.action (challenge i) = binding_action (Grant.binding g);
  gj_fields : Grant.approvalId g = Challenge.approvalId (challenge i) /\
              Grant.projectId g = Challenge.projectId (challenge i) /\
              Grant.principalId g = authenticatedPrincipalId i /\
              Grant.expiresAt g = Decision.expiresAt (payload (decision i)) /\ Grant.issuedAt g = issue_now i
}.

Lemma issue_inv nonces i nonces' e :
  issue nonces i = (nonces', Ok e) ->
  decision_precheck cryptoVerify base64urlLength i = Ok tt /\ issue_checked cryptoSign i = Ok e /\
  Decision.nonce (payload (decision i)) ∉ nonces /\ nonces' = nonces ++ [Decision.nonce (payload (decision i))].
Proof.
  unfold verifyDecisionAndIssueGrant. destruct (decision_precheck _ _ i) as [[]|] eqn:E; [|done].
  destruct (consume _ _ nonces) as [used|] eqn:Ec; [|done]. apply consume_ok in Ec as [Hn ->]. intros [= <- ->]. done.
Qed.

(** C26: a grant is justified: it is issued only for a decision that the user interface's key signed,
    by the authenticated principal, with an unused nonce, approving, unexpired, on exactly the
    challenge, subject, policy and display shown, and it carries the binding of that subject. *)
Theorem issued_grant_justified nonces i nonces' e :
  issue nonces i = (nonces', Ok e) -> grant_justified nonces i (payload e).
Proof.
  intros (Hpre & Hch & Hn & _)%issue_inv. unfold decision_precheck, issue_checked, signEnvelope in *. repeat inv_ok_step. subst e.
  repeat match goal with u : () |- _ => destruct u end. clean_guards.
  constructor; cbn [payload grantFromDecision Grant.subjectObjectDigest Grant.challengeObjectDigest Grant.policyObjectDigest
    Grant.binding Grant.approvalId Grant.projectId Grant.principalId Grant.expiresAt Grant.issuedAt];
    try assumption; try (split_and!; first [assumption | reflexivity]).
  - intros r Hr. unfold runner_refused in *. rewrite Hr in *. by destruct (getRunner i ≫= _) as [[|]|].
  - by apply verify_signed.
  - subst. by split.
  - subst. assumption.
  - symmetry. assumption.
Qed.

(** ** Single use *)

(** A machine that spends entries of a registry. *)
Fixpoint spent_by {I} (step : UsedRegistry -> I -> UsedRegistry * option ustr) (used : UsedRegistry) (is_ : list I) : list ustr :=
  match is_ with
  | [] => []
  | i :: rest => let '(used', x) := step used i in option_list x ++ spent_by step used' rest
  end.

Lemma spent_once {I} (step : UsedRegistry -> I -> UsedRegistry * option ustr) used is_ :
  (forall used i used' x, step used i = (used', x) -> used ⊆ used' /\ forall d, x = Some d -> d ∉ used /\ d ∈ used') ->
  NoDup (spent_by step used is_) /\ forall d, d ∈ spent_by step used is_ -> d ∉ used.
Proof.
  intros Hstep. revert used. induction is_ as [|i rest IH]; intros used; cbn [spent_by].
  - split; [constructor|]. intros d Hd. by apply not_elem_of_nil in Hd.
  - destruct (step used i) as [used' x] eqn:E. destruct (Hstep _ _ _ _ E) as [Hsub Hx].
    destruct (IH used') as [IHn IHd]. destruct x as [d|]; cbn [option_list app].
    + destruct (Hx d eq_refl) as [Hd Hd']. split.
      * constructor; [|done]. intros Hin. by apply (IHd d).
      * intros e [->|He]%elem_of_cons; [done|]. intros Hin. by apply (IHd e He), Hsub.
    + split; [done|]. intros e He Hin. by apply (IHd e He), Hsub.
Qed.

(** The nonces of the decisions that a sequence of requests turned into grants. *)
Definition granted (nonces : UsedRegistry) (is_ : list IssueInput) : list ustr :=
  spent_by (fun used i => let '(used', r) := issue used i in
    (used', if is_ok r then Some (Decision.nonce (payload (decision i))) else None)) nonces is_.

(** In any sequence of requests to one broker, a decision becomes at most one grant: the nonces
    of the granted decisions are distinct, and none was used before. *)
Theorem one_grant_per_decision nonces is_ :
  NoDup (granted nonces is_) /\ forall n, n ∈ granted nonces is_ -> n ∉ nonces.
Proof.
  apply spent_once. intros used i used' x H. destruct (issue used i) as [u' r] eqn:E. injection H as <- <-. split.
  - unfold verifyDecisionAndIssueGrant in E. destruct (decision_precheck _ _ i); [|by injection E as <- <-].
    destruct (consume _ _ used) as [used'|] eqn:Ec; injection E as <- <-; [|done].
    apply consume_ok in Ec as [_ ->]. set_solver.
  - intros d Hd. destruct r as [e|]; [|done]. injection Hd as <-. apply issue_inv in E as (_ & _ & Hn & ->). set_solver.
Qed.

(** The grants that a sequence of requests consumed. *)
Definition consumed (used : UsedRegistry) (is_ : list ConsumeInput) : list ustr :=
  spent_by (fun used i => let '(used', r) := consume_grant used i in
    (used', match r with Ok d => Some d | Err _ => None end)) used is_.

(** In any sequence of requests a grant is consumed at most once: the object digests returned
    are distinct, and none was consumed before. *)
Theorem grant_single_use used is_ :
  NoDup (consumed used is_) /\ forall d, d ∈ consumed used is_ -> d ∉ used.
Proof.
  apply spent_once. intros used0 i used' x H. destruct (consume_grant used0 i) as [u' r] eqn:E. injection H as <- <-.
  unfold consumeGrant in E. destruct (check_grant _ i) as [d|]; [|injection E as <- <-; by split].
  destruct (consume _ d used0) as [used'|] eqn:Ec; injection E as <- <-; [|by split].
  apply consume_ok in Ec as [Hd ->]. split; [set_solver|]. intros d' [= <-]. split; [done | set_solver].
Qed.

(** ** An issued grant works, once *)

Lemma grant_json_wf g : js_wf (grant_json g) /\ isUndefined (grant_json g) = false.
Proof.
  split; [|done]. apply wf_fields; unfold grant_json, versioned, str_fields; destruct (Grant.binding g);
    [apply (bool_decide_unpack _); vm_compute; exact I.. | | ]; by repeat constructor.
Qed.

Lemma binding_matches s g :
  Grant.binding g = grantBindingForSubject s -> assertBindingMatches s g = Ok tt.
Proof.
  intros H. unfold assertBindingMatches. rewrite H. destruct (grantBindingForSubject s); cbn;
    rewrite ?bool_decide_false by tauto; done.
Qed.

(** C27: a grant the broker issued is accepted for the subject it was issued for until it expires,
    and only once: the first use succeeds and returns the grant's digest, and every use after it
    is refused as consumed. *)
Theorem issued_grant_usable_once nonces i nonces' e pk now act mode used :
  issue nonces i = (nonces', Ok e) ->
  (forall b, cryptoVerify b pk (b64_encode (cryptoSign b (brokerPrivateKey i))) = true) ->
  isObjectDigest_units (brokerCertificateObjectDigest i) = true ->
  utf16_leb (Decision.expiresAt (payload (decision i))) now = false ->
  (forall a, act = Some a -> a = binding_action (grantBindingForSubject (subject i))) ->
  mode_refused (subject i) mode = false ->
  let c := mkConsume e pk (brokerKeyId i) (subject i) now act mode in
  exists d, envelopeDigest grant_json e = Ok d /\
    (d ∉ used -> consume_grant used c = (used ++ [d], Ok d)) /\
    (d ∈ used -> consume_grant used c = (used, Err grant_consumed)).
Proof.
  intros Hi Hkey Hcert Hnow Hact Hmode c. apply issue_inv in Hi as (_ & Hch & _).
  unfold issue_checked in Hch. repeat inv_ok_step. clean_guards.
  match goal with H : signEnvelope _ _ _ ?g _ _ _ _ = Ok e |- _ => rename H into Hs; set (g0 := g) in Hs end.
  destruct (grant_json_wf g0) as [Hwf Hu]. pose proof (envelopeDigest_signed _ _ _ _ _ _ _ _ Hwf Hu Hs) as Hd.
  destruct (envelopeDigest grant_json e) as [d|] eqn:Ed; [|done]. exists d. split; [done|].
  apply (sign_verifies _ _ _ _ pk) in Hs as (Hver & Hpay & _); [|done..].
  assert (check_grant cryptoVerify c = Ok d) as Hcheck.
  { unfold check_grant, c. cbn [grant brokerPublicKey consume_brokerKeyId consume_now consume_subject expectedAction expectedPromotionMode].
    rewrite Hver. cbn [rbind]. rewrite Hpay. unfold g0 at 1. cbn [grantFromDecision Grant.expiresAt]. rewrite Hnow.
    rewrite binding_matches by done. cbn [rbind].
    match goal with H : approvalObjectDigest "ApprovalSubject" _ = Ok _ |- _ => rewrite H end. cbn [rbind].
    rewrite bool_decide_false by (intros Hne; apply Hne; assumption).
    assert (match act with Some a => bool_decide (binding_action (Grant.binding g0) <> a) | None => false end = false) as ->.
    { destruct act as [a|]; [|done]. rewrite (Hact a eq_refl). apply bool_decide_false. intros Hne. by apply Hne. }
    by rewrite Hmode. }
  unfold consumeGrant. rewrite Hcheck. split; intros Hd'; [by rewrite consume_fresh | by rewrite consume_used].
Qed.
End Approvals.

(** ** Concrete instances *)

(** Sixty-four hexadecimal digits that depend on the bytes. *)
Definition digit_hash : Hashing :=
  {| sha256_hex := fun bs => let s := fold_left N.add bs 0%N in
       [hex_digit (s mod 16); hex_digit ((s / 16) mod 16); hex_digit ((s / 256) mod 16)]%N ++ replicate 61 48%N |}.
#[local] Existing Instance half_doubles.
#[local] Existing Instance digit_hash.

Definition toy_sign (bs : bytes) (k : N) : bytes := [k; N.modulo (fold_left N.add bs 0%N) 256].
Definition toy_verify (bs : bytes) (k : N) (sig : ustr) : bool := bool_decide (sig = b64_encode (toy_sign bs k)).
Definition toy_length (s : ustr) : Z := Z.of_nat (length s) * 3 / 4.

Definition digest_or_empty {A} (r : result A ustr) : ustr := match r with Ok d => d | Err _ => [] end.
Definition a_digest : ustr := u "sha256:" ++ replicate 64 97%N.
Definition toy_subject : ApprovalSubject := S_project_policy (u "p") a_digest a_digest.
Definition toy_challenge : Challenge.ApprovalChallenge :=
  Challenge.mk (u "ap") (u "p") project_scope A_project_policy
    (digest_or_empty (approvalObjectDigest "ApprovalSubject" (approval_subject_json toy_subject))) a_digest (u "n")
    (u "2026-01-02") a_digest.
Definition toy_decision : Decision.ApprovalDecision :=
  Decision.mk (u "ap") (u "p") (u "me")
    (digest_or_empty (approvalObjectDigest "ApprovalChallenge" (challenge_json toy_challenge)))
    (Challenge.subjectObjectDigest toy_challenge) a_digest a_digest (replicate 43 65%N) true
    (u "2026-01-01") (u "2026-01-02").
Definition toy_signed : ArtifactEnvelope Decision.ApprovalDecision :=
  match signApprovalDecision toy_sign toy_length toy_decision 1%N (u "ui") a_digest (fun d => Ok d)
          toy_challenge toy_subject (u "2026-01-01") with
  | Ok e => e
  | Err _ => mkEnvelope [] 0 toy_decision [] []
  end.
Definition toy_issue : IssueInput :=
  mkIssue toy_signed toy_challenge toy_subject 1%N (u "ui") 2%N (u "broker") a_digest (u "me") (u "2026-01-01") None None.
Definition toy_grant : ArtifactEnvelope Grant.ApprovalGrant :=
  match snd (verifyDecisionAndIssueGrant toy_verify toy_sign toy_length [] toy_issue) with
  | Ok e => e
  | Err _ => mkEnvelope [] 0 (grantFromDecision toy_decision (project_binding A_project_policy) [] []) [] []
  end.

Lemma toy_issued :
  verifyDecisionAndIssueGrant toy_verify toy_sign toy_length [] toy_issue = ([replicate 43 65%N], Ok toy_grant).
Proof. vm_compute. reflexivity. Qed.

Lemma issued_grant_justified_witness :
  Grant.binding (payload toy_grant) = project_binding A_project_policy.
Proof.
  exact (proj1 (gj_binding _ _ _ _ (issued_grant_justified toy_verify toy_sign toy_length [] toy_issue _ _ toy_issued))).
Defined.

Lemma issued_grant_usable_once_witness :
  exists d, snd (consumeGrant toy_verify [] (mkConsume toy_grant 2%N (u "broker") toy_subject (u "2026-01-01") None None)) = Ok d.
Proof.
  destruct (issued_grant_usable_once toy_verify toy_sign toy_length [] toy_issue _ toy_grant 2%N (u "2026-01-01") None None []
    toy_issued) as (d & _ & Hd & _).
  - intros b. unfold toy_verify. by apply bool_decide_eq_true.
  - vm_compute. reflexivity.
  - vm_compute. reflexivity.
  - intros a Ha. discriminate Ha.
  - reflexivity.
  - exists d. exact (f_equal snd (Hd (not_elem_of_nil d))).
Defined.
