(* ===== verification/Plan.v ===== *)
(** Verification plans: packages/verification/src/plan/dag.ts (cycle check and topological orders)
    over obligations and checks.

    Identifiers are JavaScript strings.  The [while (ready.length > 0)] loops run on fuel
    [S (length ready + length incoming)]; PlanTheorems.v shows that it is never exhausted, whatever
    the graph. *)

From S2P Require Import Prelude JsText.
Open Scope list_scope.

(** ** Data (packages/contracts/src/schemas/verification.ts) *)

Inductive ClaimMode : Set := UNIVERSAL | EXISTENTIAL | INVARIANT | NON_REGRESSION.
#[export] Instance ClaimMode_eq_dec : EqDecision ClaimMode.
Proof. solve_decision. Defined.

Inductive ObligationKind : Set :=
| FUNCTIONAL | BUILD | STATIC_ANALYSIS | REPRODUCTION | SECURITY | PERFORMANCE
| SOURCE_COMPATIBILITY | WIRE_COMPATIBILITY | ABI_COMPATIBILITY | SCHEMA_COMPATIBILITY
| DATA_MIGRATION | VISUAL | ACCESSIBILITY | BROWSER_INTERACTION | MOBILE_LIFECYCLE
| PLATFORM_MATRIX | EVIDENCE_INTEGRITY.
#[export] Instance ObligationKind_eq_dec : EqDecision ObligationKind.
Proof. solve_decision. Defined.

(** [sourceRefs], which no modelled function reads, is left out. *)
Record ProofObligation := mkObligation {
  obl_id : ustr;
  requirementIds : list ustr;
  claim : ustr;
  claimMode : ClaimMode;
  obl_kind : ObligationKind;
  obl_mandatory : bool;
  prerequisites : list ustr
}.

Inductive CheckSubject : Set := SUBJECT_BASELINE | SUBJECT_CANDIDATE | SUBJECT_PAIRED.
#[export] Instance CheckSubject_eq_dec : EqDecision CheckSubject.
Proof. solve_decision. Defined.

Inductive CommandAuthority : Set :=
| USER_EXPLICIT | VERIFIER_INTRINSIC | PROJECT_CI | PROJECT_INSTRUCTION | PROJECT_MANIFEST
| CLOUD_PROPOSED.

(** Of a [CommandSpec] recipe only its authority is read. *)
Inductive Recipe : Type :=
| CommandSpec (authority : CommandAuthority)
| IntrinsicCheck (intrinsicCheckId configurationObjectDigest : ustr).

Inductive CheckApproval : Set := APPROVAL_AUTO | REQUIRE_USER | APPROVAL_DENY.

Record CheckNode := mkCheck {
  check_id : ustr;
  obligationIds : list ustr;
  check_subject : CheckSubject;
  recipe : Recipe;
  dependencies : list ustr;
  check_mandatory : bool;
  approval : CheckApproval
}.

Inductive PlanErrorCode : Set :=
| MISSING_ID | CYCLE | NON_MONOTONIC_REMOVE | REINTERPRET_REQUIREMENT | WEAKEN_MANDATORY
| REMOVE_DEPENDENCY | BASELINE_NOT_REPRODUCIBLE | WEAKEN_AUTHORITY
| PLAN_OUT_OF_FUEL.

(** ** The graph maps *)

Definition Incoming : Type := list (ustr * Z).
Definition Edges : Type := list (ustr * list ustr).

Definition count_of (k : ustr) (incoming : Incoming) : Z := default 0%Z (JsMap.get k incoming).
Definition edges_of (k : ustr) (edges : Edges) : list ustr := default [] (JsMap.get k edges).

(** One dependency of [id], in [topologicalChecks] and [topologicalObligations]. *)
Definition add_dep (id : ustr) (maps : Incoming * Edges) (dep : ustr) : Incoming * Edges :=
  let '(incoming, edges) := maps in
  (JsMap.set id (count_of id incoming + 1)%Z incoming,
   JsMap.set dep (edges_of dep edges ++ [id]) edges).

Definition add_node (maps : Incoming * Edges) (node : ustr * list ustr) : Incoming * Edges :=
  let '(incoming, edges) := maps in
  let '(id, deps) := node in
  foldl (add_dep id)
    (JsMap.set id (count_of id incoming) incoming, JsMap.set id (edges_of id edges) edges) deps.

Definition build_maps (nodes : list (ustr * list ustr)) : Incoming * Edges := foldl add_node ([], []) nodes.

(** One dependency of [id] in [assertNoCycle], which also registers the dependency. *)
Definition add_dep_registering (id : ustr) (maps : Incoming * Edges) (dep : ustr) : Incoming * Edges :=
  let '(incoming, edges) := maps in
  add_dep id (JsMap.set dep (count_of dep incoming) incoming, edges) dep.

Definition add_node_registering (maps : Incoming * Edges) (node : ustr * list ustr) : Incoming * Edges :=
  let '(incoming, edges) := maps in
  let '(id, deps) := node in
  foldl (add_dep_registering id)
    (JsMap.set id (count_of id incoming) incoming, JsMap.set id (edges_of id edges) edges) deps.

(** ** The work loop *)

(** [ready.shift()] and [ready.pop()]. *)
Definition shift {A} (l : list A) : option (A * list A) :=
  match l with [] => None | x :: r => Some (x, r) end.
Definition pop {A} (l : list A) : option (A * list A) :=
  match rev l with [] => None | x :: r => Some (x, rev r) end.

(** The body of [for (const next of edges.get(id) ?? [])]. *)
Definition relax (st : Incoming * list ustr) (next : ustr) : Incoming * list ustr :=
  let '(incoming, ready) := st in
  let nextCount := (count_of next incoming - 1)%Z in
  (JsMap.set next nextCount incoming, if (nextCount =? 0)%Z then ready ++ [next] else ready).

Section Loop.
Context {S : Type}.
Variable take : list ustr -> option (ustr * list ustr).
Variable visit : S -> ustr -> S.
Variable edges : Edges.

(** [while (ready.length > 0)]; [None] only when the fuel runs out. *)
Fixpoint drain (fuel : nat) (incoming : Incoming) (ready : list ustr) (acc : S) : option S :=
  match fuel with
  | O => None
  | Datatypes.S fuel =>
      match take ready with
      | None => Some acc
      | Some (id, rest) =>
          let '(incoming', ready') := foldl relax (incoming, rest) (edges_of id edges) in
          drain fuel incoming' ready' (visit acc id)
      end
  end.
End Loop.

Definition assertNoCycle (nodes : list (ustr * list ustr)) : result PlanErrorCode unit :=
  let '(incoming, edges) := foldl add_node_registering ([], []) nodes in
  let ready := map fst (List.filter (fun kv => (snd kv =? 0)%Z) incoming) in
  match drain pop (fun visited _ => Datatypes.S visited) edges
          (Datatypes.S (length ready + length incoming)) incoming ready 0 with
  | None => Err PLAN_OUT_OF_FUEL
  | Some visited => if bool_decide (visited <> length nodes) then Err CYCLE else Ok tt
  end.

Section Topological.
Context {A : Type}.
Variable id_of : A -> ustr.
Variable deps_of : A -> list ustr.

(** The common text of [topologicalChecks] and [topologicalObligations]. *)
Definition topological (items : list A) : option (list A) :=
  let byId := foldl (fun m item => JsMap.set (id_of item) item m) [] items in
  let '(incoming, edges) := build_maps (map (fun item => (id_of item, deps_of item)) items) in
  let ready := map id_of (List.filter (fun item => (count_of (id_of item) incoming =? 0)%Z) items) in
  drain shift
    (fun ordered id => match JsMap.get id byId with Some node => ordered ++ [node] | None => ordered end)
    edges (Datatypes.S (length ready + length incoming)) incoming ready [].
End Topological.

Definition topologicalChecks (checks : list CheckNode) : option (list CheckNode) :=
  topological check_id dependencies checks.

Definition topologicalObligations (obligations : list ProofObligation) : option (list ProofObligation) :=
  topological obl_id prerequisites obligations.

(** ** The plan check *)

Definition all_known (known : list ustr) (used : list ustr) : result PlanErrorCode unit :=
  rfold (fun _ x => throw_if negb (includes x known) with MISSING_ID ; Ok tt) tt used.

Definition assertAcyclicPlan (obligations : list ProofObligation) (checks : list CheckNode)
    : result PlanErrorCode unit :=
  let obligationIds_ := map obl_id obligations in
  let checkIds := map check_id checks in
  let? _ := rfold (fun _ obligation => all_known obligationIds_ (prerequisites obligation)) tt obligations in
  let? _ := rfold (fun _ check =>
      let? _ := all_known obligationIds_ (obligationIds check) in
      all_known checkIds (dependencies check)) tt checks in
  let? _ := assertNoCycle (map (fun item => (obl_id item, prerequisites item)) obligations) in
  assertNoCycle (map (fun item => (check_id item, dependencies item)) checks).
