(* ===== verification/PlanTheorems.v ===== *)
(** Verification plans: the work loops terminate on every graph, the cycle check accepts exactly
    the well-formed acyclic plans, and the topological orders of an accepted plan are complete and
    put prerequisites first. *)

From Stdlib Require Import List.
From S2P Require Import Prelude JsText Plan.
Open Scope list_scope.

(** ** Occurrences *)

Fixpoint occ (k : ustr) (l : list ustr) : nat :=
  match l with [] => 0 | x :: r => (if decide (x = k) then 1 else 0) + occ k r end.

Lemma occ_app k l l' : occ k (l ++ l') = occ k l + occ k l'.
Proof. induction l as [|x l IH]; simpl; [done|]. rewrite IH. lia. Qed.

(** How many entries of [ds] are not in [done]. *)
Fixpoint outstanding (seen ds : list ustr) : nat :=
  match ds with [] => 0 | d :: r => (if decide (d ∈ seen) then 0 else 1) + outstanding seen r end.

Lemma outstanding_step p seen ds :
  p ∉ seen -> outstanding seen ds = outstanding (p :: seen) ds + occ p ds.
Proof.
  intros Hp. induction ds as [|d ds IH]; simpl; [done|]. rewrite IH.
  repeat case_decide; set_solver by lia.
Qed.

Lemma outstanding_zero seen ds : outstanding seen ds = 0 <-> ds ⊆ seen.
Proof.
  induction ds as [|d ds IH]; simpl; [set_solver|].
  case_decide; split; try lia; set_solver.
Qed.

Lemma outstanding_nil ds : outstanding [] ds = length ds.
Proof. induction ds as [|d ds IH]; cbn [outstanding length]; [done|]. case_decide; [set_solver|]. lia. Qed.

(** ** The maps *)

(** Everything [n] depends on, over all the nodes with that id. *)
Fixpoint all_deps (nodes : list (ustr * list ustr)) (n : ustr) : list ustr :=
  match nodes with
  | [] => []
  | (id, ds) :: r => (if decide (id = n) then ds else []) ++ all_deps r n
  end.

Lemma count_of_set k k' v m : count_of k (JsMap.set k' v m) = if decide (k = k') then v else count_of k m.
Proof. unfold count_of. rewrite JsMap.get_set. by case_decide. Qed.

Lemma count_of_keep k k' m : count_of k (JsMap.set k' (count_of k' m) m) = count_of k m.
Proof. rewrite count_of_set. by case_decide; subst. Qed.

Lemma edges_of_set k k' v m : edges_of k (JsMap.set k' v m) = if decide (k = k') then v else edges_of k m.
Proof. unfold edges_of. rewrite JsMap.get_set. by case_decide. Qed.

Lemma edges_of_keep k k' m : edges_of k (JsMap.set k' (edges_of k' m) m) = edges_of k m.
Proof. rewrite edges_of_set. by case_decide; subst. Qed.

(** [step id] accounts for one dependency of [id]; both loops do. *)
Definition counts_dep (step : ustr -> Incoming * Edges -> ustr -> Incoming * Edges) : Prop :=
  forall id maps dep,
    (forall n, count_of n (fst (step id maps dep)) =
               (count_of n (fst maps) + if decide (id = n) then 1 else 0)%Z) /\
    (forall d n, occ n (edges_of d (snd (step id maps dep))) =
                 occ n (edges_of d (snd maps)) + if decide (id = n /\ dep = d) then 1 else 0).

Lemma add_dep_counts : counts_dep add_dep.
Proof.
  intros id [inc edges] dep. split; intros; simpl.
  - rewrite count_of_set. repeat case_decide; subst; try congruence; lia.
  - rewrite edges_of_set. case_decide; subst.
    + rewrite occ_app. simpl. repeat case_decide; naive_solver lia.
    + case_decide; [naive_solver|lia].
Qed.

Lemma add_dep_registering_counts : counts_dep add_dep_registering.
Proof.
  intros id [inc edges] dep. unfold add_dep_registering.
  destruct (add_dep_counts id (JsMap.set dep (count_of dep inc) inc, edges) dep) as [H1 H2].
  split; [|done]. intros n. rewrite H1. simpl. by rewrite count_of_keep.
Qed.

Definition add_nodes_with step (maps : Incoming * Edges) (node : ustr * list ustr) : Incoming * Edges :=
  foldl (step (fst node) : Incoming * Edges -> ustr -> Incoming * Edges)
    (JsMap.set (fst node) (count_of (fst node) (fst maps)) (fst maps),
     JsMap.set (fst node) (edges_of (fst node) (snd maps)) (snd maps)) (snd node).

Lemma add_deps_count step id ds maps :
  counts_dep step ->
  (forall n, count_of n (fst (foldl (step id) maps ds)) =
     (count_of n (fst maps) + if decide (id = n) then Z.of_nat (length ds) else 0)%Z) /\
  (forall d n, occ n (edges_of d (snd (foldl (step id) maps ds))) =
     occ n (edges_of d (snd maps)) + if decide (id = n) then occ d ds else 0).
Proof.
  intros Hs. revert maps. induction ds as [|x ds IH]; intros maps; cbn [foldl].
  - split; intros; simpl; case_decide; lia.
  - destruct (IH (step id maps x)) as [H1 H2], (Hs id maps x) as [H3 H4]. split; intros.
    + rewrite H1, H3. cbn [length]. case_decide; lia.
    + rewrite H2, H4. cbn [occ]. repeat case_decide; naive_solver lia.
Qed.

Lemma add_nodes_count step nodes maps :
  counts_dep step ->
  (forall n, count_of n (fst (foldl (add_nodes_with step) maps nodes)) =
     (count_of n (fst maps) + Z.of_nat (length (all_deps nodes n)))%Z) /\
  (forall d n, occ n (edges_of d (snd (foldl (add_nodes_with step) maps nodes))) =
     occ n (edges_of d (snd maps)) + occ d (all_deps nodes n)).
Proof.
  intros Hs. revert maps. induction nodes as [|[id ds] nodes IH]; intros maps; cbn [foldl].
  - split; intros; simpl; lia.
  - destruct (IH (add_nodes_with step maps (id, ds))) as [H1 H2].
    destruct (add_deps_count step id ds
      (JsMap.set id (count_of id (fst maps)) (fst maps),
       JsMap.set id (edges_of id (snd maps)) (snd maps)) Hs) as [H3 H4].
    unfold add_nodes_with in *. split; intros; cbn [fst snd] in *.
    + rewrite H1, H3, count_of_keep. cbn [all_deps]. rewrite length_app. case_decide; simpl; lia.
    + rewrite H2, H4, edges_of_keep. cbn [all_deps]. rewrite occ_app. case_decide; simpl; lia.
Qed.

Lemma build_maps_eq nodes : build_maps nodes = foldl (add_nodes_with add_dep) ([], []) nodes.
Proof.
  unfold build_maps. generalize (([], []) : Incoming * Edges).
  induction nodes as [|[id ds] nodes IH]; intros [inc edges]; simpl; [done|]. apply IH.
Qed.

Lemma registering_eq nodes :
  foldl add_node_registering ([], []) nodes = foldl (add_nodes_with add_dep_registering) ([], []) nodes.
Proof.
  generalize (([], []) : Incoming * Edges).
  induction nodes as [|[id ds] nodes IH]; intros [inc edges]; simpl; [done|]. apply IH.
Qed.

(** The keys registered by the cycle check: the nodes and their dependencies, once each. *)
Definition reg_keys (maps : Incoming * Edges) (K : list ustr) : Prop :=
  NoDup (JsMap.keys (fst maps)) /\ forall n, n ∈ JsMap.keys (fst maps) <-> n ∈ K.

Lemma reg_keys_set maps K k v e :
  reg_keys maps K -> reg_keys (JsMap.set k v (fst maps), e) (k :: K).
Proof.
  intros [Hn Hk]. split; [by apply JsMap.NoDup_keys_set|].
  intros n. simpl. rewrite JsMap.elem_of_keys_set, Hk. set_solver.
Qed.

Lemma reg_keys_equiv maps K K' : (forall n, n ∈ K <-> n ∈ K') -> reg_keys maps K -> reg_keys maps K'.
Proof. intros HK [Hn Hk]. split; [done|]. intros n. by rewrite Hk, HK. Qed.

Lemma registering_keys_deps id ds maps K :
  id ∈ K -> reg_keys maps K -> reg_keys (foldl (add_dep_registering id) maps ds) (ds ++ K).
Proof.
  revert maps K. induction ds as [|d ds IH]; intros [inc e] K Hid Hr; cbn [foldl app]; [done|].
  eapply reg_keys_equiv; [|apply (IH _ (id :: d :: K)); [set_solver|]]; [set_solver|].
  apply (reg_keys_set (JsMap.set d (count_of d inc) inc, e)), (reg_keys_set (inc, e)), Hr.
Qed.

Lemma registering_keys nodes maps K :
  reg_keys maps K ->
  reg_keys (foldl (add_nodes_with add_dep_registering) maps nodes)
    (concat (map (fun node => fst node :: snd node) nodes) ++ K).
Proof.
  revert maps K. induction nodes as [|[id ds] nodes IH]; intros maps K Hr; cbn [foldl map concat app]; [done|].
  eapply reg_keys_equiv; [|apply (IH _ (ds ++ id :: K))]; [set_solver|].
  apply registering_keys_deps; [set_solver|]. by apply (reg_keys_set maps).
Qed.

(** ** Termination *)

Fixpoint positives (m : Incoming) : nat :=
  match m with [] => 0 | (_, v) :: r => (if (0 <? v)%Z then 1 else 0) + positives r end.

Lemma positives_set k v m :
  positives (JsMap.set k v m) + (if (0 <? count_of k m)%Z then 1 else 0) =
  positives m + (if (0 <? v)%Z then 1 else 0).
Proof.
  unfold count_of. induction m as [|[k' v'] m IH]; simpl; [lia|].
  destruct (decide (k = k')); simpl; lia.
Qed.

Lemma positives_length m : positives m <= length m.
Proof. induction m as [|[k v] m IH]; simpl; [done|]. destruct (0 <? v)%Z; lia. Qed.

Definition work (st : Incoming * list ustr) : nat := length (snd st) + positives (fst st).

Lemma relax_work st es : work (foldl relax st es) <= work st.
Proof.
  revert st. induction es as [|n es IH]; intros [inc R]; cbn [foldl]; [done|].
  etrans; [apply IH|]. unfold work, relax; simpl.
  pose proof (positives_set n (count_of n inc - 1) inc) as Hp.
  destruct (Z.eqb_spec (count_of n inc - 1) 0) as [E|E];
    destruct (Z.ltb_spec 0 (count_of n inc)), (Z.ltb_spec 0 (count_of n inc - 1));
    try rewrite length_app; simpl; lia.
Qed.

(** What the loop needs of [shift] and [pop]. *)
Class Takes (take : list ustr -> option (ustr * list ustr)) : Prop := {
  take_none l : take l = None -> l = [];
  take_some l x r : take l = Some (x, r) -> l ≡ₚ x :: r
}.

#[export] Instance shift_takes : Takes shift.
Proof. split; intros [|y l]; simpl; intros; simplify_eq; done. Qed.

#[export] Instance pop_takes : Takes pop.
Proof.
  split; unfold pop; intros l.
  - destruct (rev l) eqn:E; [|done]. intros _. by rewrite <- (rev_involutive l), E.
  - destruct (rev l) as [|y r] eqn:E; [done|]. intros x r' [= -> <-].
    rewrite <- (rev_involutive l), E. simpl. rewrite Permutation_app_comm. done.
Qed.

Section Drain.
Context {S : Type} (take : list ustr -> option (ustr * list ustr)) `{!Takes take}.
Context (visit : S -> ustr -> S) (edges : Edges).

Lemma drain_total fuel inc R acc :
  work (inc, R) < fuel -> is_Some (drain take visit edges fuel inc R acc).
Proof using Type*.
  revert inc R acc. induction fuel as [|fuel IH]; intros inc R acc Hf; [lia|]. simpl.
  destruct (take R) as [[id rest]|] eqn:E; [|by eexists].
  destruct (foldl relax (inc, rest) (edges_of id edges)) as [inc' R'] eqn:E'.
  apply IH. rewrite <- E'. eapply Nat.le_lt_trans; [apply relax_work|].
  apply take_some in E. apply Permutation_length in E. unfold work in *. simpl in *. lia.
Qed.
End Drain.

Lemma drain_fuel {S} take `{!Takes take} (visit : S -> ustr -> S) edges inc R acc :
  is_Some (drain take visit edges (Datatypes.S (length R + length inc)) inc R acc).
Proof. apply drain_total; [done|]. unfold work. pose proof (positives_length inc). simpl. lia. Qed.

(** ** What the loop visits *)

(** Relaxing the edges [es] lowers each counter by its occurrences and enqueues, once, the nodes
    whose counter crosses zero. *)
Lemma relax_spec es inc R :
  exists new, snd (foldl relax (inc, R) es) = R ++ new /\ NoDup new /\
    (forall n, count_of n (fst (foldl relax (inc, R) es)) = (count_of n inc - Z.of_nat (occ n es))%Z) /\
    (forall n, n ∈ new <-> (0 < count_of n inc <= Z.of_nat (occ n es))%Z).
Proof.
  revert inc R. induction es as [|e es IH]; intros inc R; cbn [foldl].
  { exists []. rewrite app_nil_r. split_and!; [done|constructor|intros; simpl; lia|].
    intros n. simpl. set_solver by lia. }
  pose (inc1 := JsMap.set e (count_of e inc - 1)%Z inc : Incoming).
  change (relax (inc, R) e) with
    (inc1, if (count_of e inc - 1 =? 0)%Z then R ++ [e] else R).
  assert (Hc : forall n, count_of n inc1 = (count_of n inc - if decide (e = n) then 1 else 0)%Z).
  { intros n. unfold inc1. rewrite count_of_set. repeat case_decide; subst; try congruence; lia. }
  destruct (Z.eqb_spec (count_of e inc - 1) 0) as [E|E].
  - destruct (IH inc1 (R ++ [e])) as (new & H1 & H2 & H3 & H4).
    exists (e :: new). rewrite H1, <- app_assoc. split_and!; [done| | |].
    + constructor; [|done]. rewrite H4, Hc. case_decide; [lia|done].
    + intros n. rewrite H3, Hc. simpl. case_decide; lia.
    + intros n. rewrite elem_of_cons, H4, Hc. simpl. case_decide; [subst|]; split; try lia;
        [intros; by left|intros [->|?]; [done|lia]].
  - destruct (IH inc1 R) as (new & H1 & H2 & H3 & H4).
    exists new. split_and!; [done|done| |].
    + intros n. rewrite H3, Hc. simpl. case_decide; lia.
    + intros n. rewrite H4, Hc. simpl. case_decide; subst; lia.
Qed.

Section Kahn.
Context (nodes : list (ustr * list ustr)) (I : list ustr) (edges : Edges).
Context (Hedges : forall d n, occ n (edges_of d edges) = occ d (all_deps nodes n)).
Context (HI : forall n, all_deps nodes n <> [] -> n ∈ I).

(** [P]: visited, most recent first; [R]: ready. *)
Record kahn_inv (P : list ustr) (inc : Incoming) (R : list ustr) : Prop := {
  kahn_count n : count_of n inc = Z.of_nat (outstanding P (all_deps nodes n));
  kahn_nodup : NoDup (R ++ P);
  kahn_elem n : n ∈ R ++ P <-> n ∈ I /\ outstanding P (all_deps nodes n) = 0
}.

Lemma kahn_step P inc R p rest inc' R' :
  kahn_inv P inc R -> R ≡ₚ p :: rest ->
  foldl relax (inc, rest) (edges_of p edges) = (inc', R') -> kahn_inv (p :: P) inc' R'.
Proof using HI Hedges.
  intros [Hc Hn He] Hp Hr. rewrite Hp in Hn. simpl in Hn. apply NoDup_cons in Hn as [Hp1 Hn].
  assert (HpP : p ∉ P) by set_solver.
  assert (Ho : forall n, outstanding P (all_deps nodes n) =
    outstanding (p :: P) (all_deps nodes n) + occ p (all_deps nodes n)).
  { intros n. by apply outstanding_step. }
  destruct (relax_spec (edges_of p edges) inc rest) as (new & H1 & H2 & H3 & H4).
  rewrite Hr in H1, H3. simpl in H1, H3. subst R'.
  assert (Hnew : forall n, n ∈ new <-> 0 < outstanding P (all_deps nodes n) /\
    outstanding (p :: P) (all_deps nodes n) = 0).
  { intros n. rewrite H4, Hc, Hedges. specialize (Ho n). lia. }
  assert (He' : forall n, n ∈ (rest ++ new) ++ p :: P <-> n ∈ R ++ P \/ n ∈ new).
  { intros n. rewrite Hp. set_solver. }
  constructor.
  - intros n. rewrite H3, Hc, Hedges. specialize (Ho n). lia.
  - assert (Hq : (rest ++ new) ++ p :: P ≡ₚ new ++ p :: rest ++ P).
    { rewrite (Permutation_app_comm rest new), <- app_assoc. f_equiv.
      by rewrite Permutation_middle. }
    rewrite Hq. apply NoDup_app. split; [done|]. split; [|by constructor].
    intros n [Hn1 Hn2]%Hnew Hn3. assert (n ∈ R ++ P) as [_ ?]%He; [|lia].
    rewrite Hp. set_solver.
  - intros n. rewrite He', He, Hnew. specialize (Ho n). split; [|intros [? ?]].
    + intros [[??]|[??]]; [split; [done|lia]|]. split; [|done]. apply HI.
      intros E. rewrite E in *. simpl in *. lia.
    + destruct (decide (outstanding P (all_deps nodes n) = 0)); [by left|right; lia].
Qed.

(** [Q] visits nodes only after what they depend on. *)
Fixpoint visits (P Q : list ustr) : Prop :=
  match Q with [] => True | q :: r => all_deps nodes q ⊆ P /\ visits (q :: P) r end.

Lemma drain_visits {S} take `{!Takes take} (visit : S -> ustr -> S) fuel P inc R acc out :
  kahn_inv P inc R -> drain take visit edges fuel inc R acc = Some out ->
  exists Q inc', out = foldl visit acc Q /\ visits P Q /\ kahn_inv (rev Q ++ P) inc' [].
Proof using HI Hedges.
  revert P inc R acc. induction fuel as [|fuel IH]; intros P inc R acc Hk Hd; simpl in Hd; [done|].
  destruct (take R) as [[p rest]|] eqn:E.
  - apply take_some in E.
    destruct (foldl relax (inc, rest) (edges_of p edges)) as [inc1 R1] eqn:E1.
    pose proof (kahn_step _ _ _ _ _ _ _ Hk E E1) as Hk1.
    destruct (IH _ _ _ _ Hk1 Hd) as (Q & inc' & -> & Hv & Hk').
    exists (p :: Q), inc'. split; [done|]. split; [split; [|done]|].
    + apply outstanding_zero. apply (kahn_elem _ _ _ Hk). rewrite E. set_solver.
    + simpl. by rewrite <- app_assoc.
  - apply take_none in E. injection Hd as <-. subst R. exists [], inc. done.
Qed.

(** In an acyclic closed graph everything is visited. *)
Lemma kahn_complete P inc (rank : ustr -> nat) :
  kahn_inv P inc [] ->
  (forall n d, d ∈ all_deps nodes n -> d ∈ I /\ rank d < rank n) ->
  forall n, n ∈ I -> n ∈ P.
Proof using Type.
  intros [_ _ He] Hr n. remember (rank n) as k eqn:Hk. revert n Hk.
  induction (lt_wf k) as [k _ IH]; intros n -> Hn.
  apply He. split; [done|]. apply outstanding_zero. intros d Hd.
  destruct (Hr n d Hd). eapply IH; eauto.
Qed.
End Kahn.

(** ** The cycle check *)

Definition closed_graph (nodes : list (ustr * list ustr)) : Prop :=
  forall id ds, (id, ds) ∈ nodes -> ds ⊆ map fst nodes.

Definition acyclic (nodes : list (ustr * list ustr)) : Prop :=
  exists rank : ustr -> nat, forall id ds d, (id, ds) ∈ nodes -> d ∈ ds -> rank d < rank id.

Lemma elem_of_map {A B} (f : A -> B) l y : y ∈ map f l <-> exists x, y = f x /\ x ∈ l.
Proof. exact (list_elem_of_fmap f l y). Qed.

Lemma elem_of_all_deps nodes n d : d ∈ all_deps nodes n <-> exists ds, (n, ds) ∈ nodes /\ d ∈ ds.
Proof.
  induction nodes as [|[id ds] nodes IH]; cbn [all_deps]; [set_solver|].
  rewrite elem_of_app, IH. case_decide; set_solver.
Qed.

Lemma deps_have_node nodes n : all_deps nodes n <> [] -> n ∈ map fst nodes.
Proof.
  destruct (all_deps nodes n) as [|d ds] eqn:E; [done|]. intros _.
  assert (d ∈ all_deps nodes n) as (ds' & ? & ?)%elem_of_all_deps by (rewrite E; set_solver).
  apply elem_of_map. by exists (n, ds').
Qed.

Lemma index_rank nodes P Q :
  visits nodes P Q -> NoDup (rev Q ++ P) ->
  forall q d, q ∈ Q -> d ∈ all_deps nodes q ->
  exists i, (Q !! i = Some q) /\ (d ∈ P \/ exists j, j < i /\ Q !! j = Some d).
Proof.
  revert P. induction Q as [|x Q IH]; intros P Hv Hn q d Hq Hd; [set_solver|].
  destruct Hv as [Hx Hv]. simpl in Hn. rewrite <- app_assoc in Hn. simpl in Hn.
  apply elem_of_cons in Hq as [->|Hq].
  - exists 0. split; [done|]. left. by apply Hx.
  - destruct (IH _ Hv Hn q d Hq Hd) as (i & Hi & Hd').
    exists (S i). split; [done|]. destruct Hd' as [[->|?]%elem_of_cons|(j & ? & ?)].
    + right. exists 0. split; [lia|done].
    + by left.
    + right. exists (S j). split; [lia|done].
Qed.

Lemma visits_acyclic nodes Q :
  visits nodes [] Q -> NoDup Q -> map fst nodes ⊆ Q -> acyclic nodes.
Proof.
  intros Hv Hn Hc. exists (position Q). intros id ds d Hid Hd.
  assert (id ∈ Q) as Hq. { apply Hc, elem_of_map. by exists (id, ds). }
  destruct (index_rank nodes [] Q Hv) with id d as (i & Hi & Hd'); [|done| |].
  - rewrite app_nil_r. apply NoDup_ListNoDup, NoDup_rev. by apply NoDup_ListNoDup.
  - apply elem_of_all_deps. eauto.
  - destruct Hd' as [?%not_elem_of_nil|(j & Hj & Hjd)]; [done|].
    by rewrite (position_lookup Q i id), (position_lookup Q j d).
Qed.

Lemma acyclic_ranked nodes (I : list ustr) :
  closed_graph nodes -> acyclic nodes -> (forall n, n ∈ map fst nodes -> n ∈ I) ->
  exists rank : ustr -> nat, forall n d, d ∈ all_deps nodes n -> d ∈ I /\ rank d < rank n.
Proof.
  intros Hc [rank Hr] HI. exists rank. intros n d (ds & Hn & Hd)%elem_of_all_deps.
  split; [|by eapply Hr]. apply HI. by eapply Hc.
Qed.

Lemma NoDup_rev_app (Q : list ustr) : NoDup (rev Q ++ []) -> NoDup Q.
Proof.
  rewrite app_nil_r. intros Hn. rewrite <- (rev_involutive Q).
  apply NoDup_ListNoDup, NoDup_rev. by apply NoDup_ListNoDup.
Qed.

Lemma zero_keys inc n :
  NoDup (JsMap.keys inc) ->
  n ∈ map fst (List.filter (fun kv : ustr * Z => (snd kv =? 0)%Z) inc) <->
  n ∈ JsMap.keys inc /\ count_of n inc = 0%Z.
Proof.
  intros Hn. rewrite elem_of_map. unfold count_of. split.
  - intros ([k v] & -> & [Hin Hv]%list_elem_of_In%filter_In). simpl in *.
    apply list_elem_of_In in Hin. apply Z.eqb_eq in Hv as ->.
    rewrite (JsMap.elem_get _ _ _ Hn Hin). split; [|done]. apply JsMap.get_is_some.
    by rewrite (JsMap.elem_get _ _ _ Hn Hin).
  - intros [[v Hv]%JsMap.get_is_some H0]. rewrite Hv in H0. simpl in H0. subst v.
    exists (n, 0%Z). split; [done|]. apply list_elem_of_In, filter_In. split; [|done].
    by apply list_elem_of_In, JsMap.get_some_elem.
Qed.

Lemma assertNoCycle_visits nodes :
  closed_graph nodes ->
  exists Q inc, visits nodes [] Q /\ NoDup Q /\ Q ⊆ map fst nodes /\
    kahn_inv nodes (map fst nodes) (rev Q ++ []) inc [] /\
    assertNoCycle nodes = if bool_decide (length Q <> length nodes) then Err CYCLE else Ok tt.
Proof.
  intros Hclosed. unfold assertNoCycle. rewrite registering_eq.
  destruct (add_nodes_count add_dep_registering nodes ([], []) add_dep_registering_counts) as [Hc He].
  destruct (registering_keys nodes ([], []) []) as [Hn Hk].
  { split; [constructor|]. set_solver. }
  destruct (foldl (add_nodes_with add_dep_registering) ([], []) nodes) as [inc edges].
  cbn [fst snd] in *.
  assert (HI : forall n, n ∈ JsMap.keys inc <-> n ∈ map fst nodes).
  { intros n. rewrite Hk, app_nil_r, list_elem_of_In, in_concat. split.
    - intros (l & (x & <- & Hx)%in_map_iff & Hl). apply list_elem_of_In in Hx, Hl.
      apply elem_of_cons in Hl as [->|Hl]; [apply elem_of_map; eauto|].
      destruct x as [i ds]. by apply (Hclosed i ds).
    - intros (x & -> & Hx)%elem_of_map. eexists. split; [apply in_map, list_elem_of_In, Hx|by left]. }
  set (R := map fst (List.filter _ _)).
  assert (Hinv : kahn_inv nodes (map fst nodes) [] inc R).
  { constructor.
    - intros n. rewrite Hc, outstanding_nil. done.
    - rewrite app_nil_r. by apply NoDup_map_filter.
    - intros n. rewrite app_nil_r. unfold R. rewrite zero_keys, HI, Hc, outstanding_nil by done.
      unfold count_of. simpl. naive_solver lia. }
  destruct (drain_fuel pop (fun visited (_ : ustr) => Datatypes.S visited) edges inc R 0) as [out Hout].
  rewrite Hout.
  eapply (drain_visits nodes (map fst nodes)) in Hout as (Q & inc' & -> & Hv & Hk');
    [|by intros d n; rewrite He|by apply deps_have_node|apply _|done].
  pose proof (kahn_nodup _ _ _ _ _ Hk') as HnQ. apply NoDup_rev_app in HnQ.
  exists Q, inc'. split_and!; [done|done| |done|].
  - intros q Hq. apply (kahn_elem _ _ _ _ _ Hk'). rewrite app_nil_r.
    simpl. by rewrite list_elem_of_In, <- in_rev, <- list_elem_of_In.
  - assert (Hl : forall k, foldl (fun visited (_ : ustr) => Datatypes.S visited) k Q = k + length Q).
    { clear. induction Q as [|q Q IH]; intros k; simpl; [lia|]. rewrite IH. lia. }
    by rewrite Hl.
Qed.

Definition graph_ok (nodes : list (ustr * list ustr)) : Prop := NoDup (map fst nodes) /\ acyclic nodes.

Lemma assertNoCycle_exact nodes :
  closed_graph nodes ->
  (assertNoCycle nodes = Ok tt /\ graph_ok nodes) \/ (assertNoCycle nodes = Err CYCLE /\ ~ graph_ok nodes).
Proof.
  intros Hc. destruct (assertNoCycle_visits nodes Hc) as (Q & inc & Hv & HnQ & HQ & Hk & ->).
  destruct (decide (length Q = length nodes)) as [E|E].
  - left. rewrite bool_decide_eq_false_2 by tauto. split; [done|].
    assert (incl Q (map fst nodes)) as Hincl.
    { intros q Hq. apply list_elem_of_In, HQ. by apply list_elem_of_In. }
    assert (Hlen : length (map fst nodes) <= length Q) by (rewrite length_map; lia).
    split.
    + apply NoDup_ListNoDup. eapply NoDup_incl_NoDup; [apply NoDup_ListNoDup, HnQ| |]; done.
    + eapply visits_acyclic; [done|done|]. intros n Hn. apply list_elem_of_In.
      eapply NoDup_length_incl; [by apply NoDup_ListNoDup|done|done|]. by apply list_elem_of_In.
  - right. rewrite bool_decide_eq_true_2 by tauto. split; [done|]. intros [Hn Ha]. apply E.
    destruct (acyclic_ranked nodes (map fst nodes) Hc Ha) as [rank Hr]; [done|].
    rewrite <- (length_map fst nodes). apply Permutation_length, NoDup_Permutation; [done|done|].
    intros n. split; [apply HQ|]. intros Hin.
    eapply (kahn_complete nodes _ _ _ rank Hk Hr) in Hin. rewrite app_nil_r in Hin.
    by rewrite list_elem_of_In, <- in_rev, <- list_elem_of_In in Hin.
Qed.

(** Loops that only check their elements. *)
Lemma rfold_check {E A} (f : A -> result E unit) (P : A -> Prop) (e : E) l :
  (forall x, x ∈ l -> f x = Ok tt /\ P x \/ f x = Err e /\ ~ P x) ->
  (rfold (fun _ x => f x) tt l = Ok tt /\ Forall P l) \/
  (rfold (fun _ x => f x) tt l = Err e /\ ~ Forall P l).
Proof.
  induction l as [|x l IH]; intros H; simpl; [left; by split|].
  destruct (H x) as [[-> Hx]|[-> Hx]]; [set_solver| |]; simpl.
  - destruct IH as [[-> ?]|[-> ?]]; [set_solver|left|right]; split; try done; [by constructor|].
    by intros [_ ?]%Forall_cons.
  - right. split; [done|]. by intros [? _]%Forall_cons.
Qed.

Lemma all_known_exact known used :
  (all_known known used = Ok tt /\ used ⊆ known) \/ (all_known known used = Err MISSING_ID /\ ~ used ⊆ known).
Proof.
  destruct (rfold_check (fun x => if negb (includes x known) then Err MISSING_ID else Ok tt)
    (fun x => x ∈ known) MISSING_ID used) as [[H1 H2]|[H1 H2]].
  - intros x _. destruct (includes x known) eqn:E; [left|right]; split; try done.
    + by apply includes_true.
    + by apply includes_false.
  - left. split; [done|]. intros x. rewrite Forall_forall in H2. apply H2.
  - right. split; [done|]. intros H. apply H2, Forall_forall. done.
Qed.

Definition obligation_graph (obligations : list ProofObligation) : list (ustr * list ustr) :=
  map (fun item => (obl_id item, prerequisites item)) obligations.
Definition check_graph (checks : list CheckNode) : list (ustr * list ustr) :=
  map (fun item => (check_id item, dependencies item)) checks.

(** Every id a plan mentions is declared in it. *)
Definition ids_declared (obligations : list ProofObligation) (checks : list CheckNode) : Prop :=
  Forall (fun o => prerequisites o ⊆ map obl_id obligations) obligations /\
  Forall (fun c => obligationIds c ⊆ map obl_id obligations /\ dependencies c ⊆ map check_id checks) checks.

Lemma graph_ids {A} (f : A -> ustr) (g : A -> list ustr) l :
  map fst (map (fun x => (f x, g x)) l) = map f l.
Proof. rewrite map_map. done. Qed.

Lemma closed_graph_of {A} (f : A -> ustr) (g : A -> list ustr) l :
  Forall (fun x => g x ⊆ map f l) l -> closed_graph (map (fun x => (f x, g x)) l).
Proof.
  intros H id ds (x & [= -> ->] & Hx)%elem_of_map. rewrite graph_ids.
  rewrite Forall_forall in H. by apply H.
Qed.

Definition plan_ok (obligations : list ProofObligation) (checks : list CheckNode) : Prop :=
  graph_ok (obligation_graph obligations) /\ graph_ok (check_graph checks).

Lemma assertAcyclicPlan_cases obligations checks :
  (assertAcyclicPlan obligations checks = Ok tt /\ ids_declared obligations checks /\ plan_ok obligations checks) \/
  (assertAcyclicPlan obligations checks = Err MISSING_ID /\ ~ ids_declared obligations checks) \/
  (assertAcyclicPlan obligations checks = Err CYCLE /\ ids_declared obligations checks /\ ~ plan_ok obligations checks).
Proof.
  unfold assertAcyclicPlan.
  destruct (rfold_check (fun o => all_known (map obl_id obligations) (prerequisites o))
    (fun o => prerequisites o ⊆ map obl_id obligations) MISSING_ID obligations) as [[-> HO]|[-> HO]];
    [by intros; apply all_known_exact| |right; left; split; [done|by intros [? _]]]; simpl.
  destruct (rfold_check (fun c => let? _ := all_known (map obl_id obligations) (obligationIds c) in
      all_known (map check_id checks) (dependencies c))
    (fun c => obligationIds c ⊆ map obl_id obligations /\ dependencies c ⊆ map check_id checks)
    MISSING_ID checks) as [[-> HC]|[-> HC]]; [| |right; left; split; [done|by intros [_ ?]]]; simpl.
  { intros c _. destruct (all_known_exact (map obl_id obligations) (obligationIds c)) as [[-> ?]|[-> ?]],
      (all_known_exact (map check_id checks) (dependencies c)) as [[E ?]|[E ?]]; simpl; rewrite ?E; tauto. }
  pose proof (closed_graph_of obl_id prerequisites obligations HO) as HcO.
  assert (HcC : closed_graph (check_graph checks)).
  { apply (closed_graph_of check_id dependencies). eapply Forall_impl; [exact HC|naive_solver]. }
  unfold plan_ok. destruct (assertNoCycle_exact _ HcO) as [[-> ?]|[-> ?]]; simpl;
    [|right; right; split; [done|]; split; [done|naive_solver]].
  destruct (assertNoCycle_exact _ HcC) as [[E ?]|[E ?]]; unfold check_graph in E; rewrite E;
    [left|right; right]; (split; [done|]); split; [done|done|done|naive_solver].
Qed.

(** A plan is accepted exactly when every id it mentions is declared, ids are unique and
    neither the prerequisites of obligations nor the dependencies of checks form a cycle; otherwise
    the error is MISSING_ID for undeclared ids and CYCLE for the rest. *)
Theorem assertAcyclicPlan_exact obligations checks :
  match assertAcyclicPlan obligations checks with
  | Ok _ => ids_declared obligations checks /\ plan_ok obligations checks
  | Err MISSING_ID => ~ ids_declared obligations checks
  | Err CYCLE => ids_declared obligations checks /\ ~ plan_ok obligations checks
  | Err _ => False
  end.
Proof. destruct (assertAcyclicPlan_cases obligations checks) as [[-> ?]|[[-> ?]|[-> ?]]]; done. Qed.

(** ** Topological orders *)

Lemma lookup_map {A B} (f : A -> B) l i : map f l !! i = f <$> l !! i.
Proof. exact (list_lookup_fmap f l i). Qed.

Lemma map_take {A B} (f : A -> B) i l : map f (take i l) = take i (map f l).
Proof. exact (fmap_take f i l). Qed.

Lemma visits_lookup nodes P Q i q :
  visits nodes P Q -> Q !! i = Some q -> all_deps nodes q ⊆ rev (take i Q) ++ P.
Proof.
  revert P i. induction Q as [|x Q IH]; intros P i Hv Hi; [done|]. destruct Hv as [Hx Hv].
  destruct i as [|i]; simpl in *; [by injection Hi as <-|].
  specialize (IH _ _ Hv Hi). set_solver.
Qed.

Section Order.
Context {A : Type} (id_of : A -> ustr) (deps_of : A -> list ustr).
Implicit Types (items out : list A) (x : A).

Definition by_id (m : list (ustr * A)) items := foldl (fun m item => JsMap.set (id_of item) item m) m items.

Lemma by_id_other m items k : k ∉ map id_of items -> JsMap.get k (by_id m items) = JsMap.get k m.
Proof.
  revert m. induction items as [|x items IH]; intros m Hk; simpl in *; [done|].
  rewrite IH by set_solver. apply JsMap.get_set_ne. set_solver.
Qed.

Lemma by_id_get m items x :
  NoDup (map id_of items) -> x ∈ items -> JsMap.get (id_of x) (by_id m items) = Some x.
Proof.
  revert m. induction items as [|y items IH]; intros m; simpl; [set_solver|].
  intros [Hy Hn]%NoDup_cons [->|Hx]%elem_of_cons; [|by apply IH].
  rewrite by_id_other by done. apply JsMap.get_set_eq.
Qed.

Lemma visit_all (m : list (ustr * A)) Q acc xs :
  Forall2 (fun q x => JsMap.get q m = Some x) Q xs ->
  foldl (fun ordered id => match JsMap.get id m with Some node => ordered ++ [node] | None => ordered end)
    acc Q = acc ++ xs.
Proof.
  intros H. revert acc. induction H as [|q x Q xs Hq H IH]; intros acc; simpl; [by rewrite app_nil_r|].
  rewrite Hq, IH, <- app_assoc. done.
Qed.

Lemma pick_all items Q :
  NoDup (map id_of items) -> Q ⊆ map id_of items ->
  exists xs, Forall2 (fun q x => JsMap.get q (by_id [] items) = Some x) Q xs /\
    map id_of xs = Q /\ xs ⊆ items.
Proof.
  intros Hn. induction Q as [|q Q IH]; intros HQ; [exists []; split_and!; [done|done|set_solver]|].
  destruct IH as (xs & H1 & H2 & H3); [set_solver|].
  assert (q ∈ map id_of items) as (x & -> & Hx)%elem_of_map by set_solver.
  exists (x :: xs). split; [constructor; [by apply by_id_get|done]|].
  simpl. rewrite H2. set_solver.
Qed.

Let graph items : list (ustr * list ustr) := map (fun x => (id_of x, deps_of x)) items.

(** The loop always ends within its fuel, also on graphs with cycles and duplicate ids. *)
Lemma topological_total items : is_Some (topological id_of deps_of items).
Proof. unfold topological. destruct (build_maps _) as [inc edges]. apply drain_fuel, _. Qed.

Lemma topological_visits items :
  NoDup (map id_of items) ->
  exists Q inc, visits (graph items) [] Q /\ NoDup Q /\ Q ⊆ map id_of items /\
    kahn_inv (graph items) (map id_of items) (rev Q ++ []) inc [] /\
    topological id_of deps_of items = Some (foldl (fun ordered id =>
      match JsMap.get id (by_id [] items) with Some node => ordered ++ [node] | None => ordered end) [] Q).
Proof.
  intros Hn. destruct (topological_total items) as [out Hout]. unfold topological in *.
  rewrite build_maps_eq in *. fold (by_id [] items) in *.
  destruct (add_nodes_count add_dep (graph items) ([], []) add_dep_counts) as [Hc He].
  fold (graph items) in *. destruct (foldl (add_nodes_with add_dep) ([], []) (graph items)) as [inc edges].
  cbn [fst snd] in *. rewrite Hout. set (R := map id_of (List.filter _ _)) in *.
  assert (HR : kahn_inv (graph items) (map id_of items) [] inc R).
  { constructor.
    - intros n. rewrite Hc, outstanding_nil. done.
    - rewrite app_nil_r. by apply NoDup_map_filter.
    - intros n. unfold R. rewrite app_nil_r, outstanding_nil, !elem_of_map. split.
      + intros (x & -> & [Hx Hz]%list_elem_of_In%filter_In). apply list_elem_of_In in Hx.
        split; [by exists x|]. apply Z.eqb_eq in Hz. rewrite Hc in Hz. unfold count_of in Hz. simpl in Hz. lia.
      + intros [(x & -> & Hx) Hz]. exists x. split; [done|]. apply list_elem_of_In, filter_In.
        split; [by apply list_elem_of_In|]. apply Z.eqb_eq. rewrite Hc. unfold count_of. simpl. lia. }
  eapply (drain_visits (graph items) (map id_of items)) in Hout as (Q & inc' & -> & Hv & Hk');
    [|by intros d n; rewrite He| |apply _|done].
  2: { intros n Hd. apply deps_have_node in Hd. unfold graph in Hd. by rewrite graph_ids in Hd. }
  pose proof (kahn_nodup _ _ _ _ _ Hk') as HnQ. apply NoDup_rev_app in HnQ.
  exists Q, inc'. split_and!; [done|done| |done|done].
  intros q Hq. apply (kahn_elem _ _ _ _ _ Hk'). rewrite app_nil_r. simpl.
  by rewrite list_elem_of_In, <- in_rev, <- list_elem_of_In.
Qed.

(** Whatever the graph, the order contains declared items only, at most once each, and never
    before their dependencies. *)
Lemma topological_sound items out :
  NoDup (map id_of items) -> topological id_of deps_of items = Some out ->
  out ⊆ items /\ NoDup (map id_of out) /\
  forall i x, out !! i = Some x -> deps_of x ⊆ map id_of (take i out).
Proof.
  intros Hn Ht. destruct (topological_visits items Hn) as (Q & inc & Hv & HnQ & HQ & Hk & Ht').
  rewrite Ht in Ht'. injection Ht' as ->.
  destruct (pick_all items Q Hn HQ) as (xs & H1 & H2 & H3). rewrite (visit_all _ _ _ _ H1). simpl.
  rewrite H2. split_and!; [done|done|]. intros i x Hx d Hd.
  assert (Hq : Q !! i = Some (id_of x)).
  { rewrite <- H2. by rewrite lookup_map, Hx. }
  pose proof (visits_lookup _ _ _ _ _ Hv Hq d) as Hvl.
  rewrite map_take, H2. rewrite app_nil_r in Hvl. rewrite list_elem_of_In, in_rev, <- list_elem_of_In.
  apply Hvl, elem_of_all_deps. exists (deps_of x). split; [|done].
  apply elem_of_map. exists x. split; [done|]. apply H3. by eapply list_elem_of_lookup_2.
Qed.

(** In a closed acyclic graph nothing is left out. *)
Lemma topological_complete items :
  NoDup (map id_of items) -> closed_graph (graph items) -> acyclic (graph items) ->
  exists out, topological id_of deps_of items = Some out /\ out ≡ₚ items.
Proof.
  intros Hn Hc Ha. destruct (topological_visits items Hn) as (Q & inc & Hv & HnQ & HQ & Hk & ->).
  destruct (pick_all items Q Hn HQ) as (xs & H1 & H2 & H3). rewrite (visit_all _ _ _ _ H1). simpl.
  exists xs. split; [done|].
  destruct (acyclic_ranked (graph items) (map id_of items) Hc Ha) as [rank Hr].
  { intros n. unfold graph. by rewrite graph_ids. }
  apply NoDup_Permutation; [eapply NoDup_fmap_1; by rewrite <- H2 in HnQ|by eapply NoDup_fmap_1|].
  intros x. split; [apply H3|]. intros Hx.
  assert (id_of x ∈ Q) as Hq.
  { assert (id_of x ∈ map id_of items) as Hi by (apply elem_of_map; eauto).
    eapply (kahn_complete _ _ _ _ rank Hk Hr) in Hi. rewrite app_nil_r in Hi.
    by rewrite list_elem_of_In, <- in_rev, <- list_elem_of_In in Hi. }
  rewrite <- H2 in Hq. apply elem_of_map in Hq as (y & Hy & Hyx).
  assert (x = y) as ->; [|done].
  pose proof (by_id_get [] items y Hn (H3 y Hyx)) as G1.
  pose proof (by_id_get [] items x Hn Hx) as G2. congruence.
Qed.
End Order.

Lemma accepted_plan obligations checks :
  assertAcyclicPlan obligations checks = Ok tt -> ids_declared obligations checks /\ plan_ok obligations checks.
Proof. by destruct (assertAcyclicPlan_cases obligations checks) as [[-> ?]|[[-> ?]|[-> ?]]]. Qed.

(** The order of a closed acyclic graph. *)
Lemma topological_of {A} (id_of : A -> ustr) deps_of items :
  Forall (fun x => deps_of x ⊆ map id_of items) items ->
  graph_ok (map (fun x => (id_of x, deps_of x)) items) ->
  exists out, topological id_of deps_of items = Some out /\ out ≡ₚ items /\
    forall i x, out !! i = Some x -> deps_of x ⊆ map id_of (take i out).
Proof.
  intros Hd [Hn Ha]. rewrite graph_ids in Hn.
  destruct (topological_complete id_of deps_of items Hn) as (out & Ho & Hp);
    [by apply closed_graph_of|done|].
  exists out. split; [done|]. split; [done|]. by eapply topological_sound.
Qed.

(** For an accepted plan the evaluation order of obligations, and the execution order of
    checks, lists each of them exactly once and never before its prerequisites. *)
Theorem topological_orders obligations checks :
  assertAcyclicPlan obligations checks = Ok tt ->
  (exists out, topologicalObligations obligations = Some out /\ out ≡ₚ obligations /\
     forall i o, out !! i = Some o -> prerequisites o ⊆ map obl_id (take i out)) /\
  (exists out, topologicalChecks checks = Some out /\ out ≡ₚ checks /\
     forall i c, out !! i = Some c -> dependencies c ⊆ map check_id (take i out)).
Proof.
  intros [[HO HC] [GO GC]]%accepted_plan. split; apply topological_of; try done.
  eapply Forall_impl; [exact HC|naive_solver].
Qed.

(** ** Concrete plans *)

Definition sample_obligation (id : ustr) (pre : list ustr) : ProofObligation :=
  mkObligation id [] (u "claim") UNIVERSAL FUNCTIONAL true pre.
Definition sample_check (id : ustr) (obls deps : list ustr) : CheckNode :=
  mkCheck id obls SUBJECT_CANDIDATE (CommandSpec PROJECT_CI) deps true APPROVAL_AUTO.

Definition diamond : list ProofObligation :=
  [sample_obligation (u "d") [u "b"; u "c"]; sample_obligation (u "c") [u "a"];
   sample_obligation (u "b") [u "a"; u "a"]; sample_obligation (u "a") []].
Definition diamond_checks : list CheckNode :=
  [sample_check (u "k2") [u "d"] [u "k1"]; sample_check (u "k1") [u "a"; u "b"] []].

Lemma topological_orders_witness :
  assertAcyclicPlan diamond diamond_checks = Ok tt /\
  (exists out, topologicalObligations diamond = Some out /\ out ≡ₚ diamond /\
     forall i o, out !! i = Some o -> prerequisites o ⊆ map obl_id (take i out)).
Proof.
  split; [vm_compute; reflexivity|].
  apply (topological_orders diamond diamond_checks). vm_compute. reflexivity.
Defined.

(** Outside accepted plans the order silently leaves out the obligations on a cycle. *)
Lemma cyclic_obligation_dropped :
  topologicalObligations [sample_obligation (u "a") []; sample_obligation (u "b") [u "b"]] =
  Some [sample_obligation (u "a") []].
Proof. vm_compute. reflexivity. Qed.
