(* ===== verification/PlanRevise.v ===== *)
(** Plan revisions: packages/verification/src/plan/revise.ts, with the id minting it uses
    (plan/ids.ts) and the authority
    ranks of plan/command-authority.ts.

    Digests, seals and timestamps are ASCII, so [JSON.stringify] of a supplement never meets an
    unpaired surrogate. *)

From Stdlib Require Import String List.
From S2P Require Import Prelude JsText CanonicalJson Digest Plan PlanTheorems.
Open Scope string_scope.
Open Scope list_scope.

(** ** Ids *)

Definition crockfordFromDigest (digest : Digest) : option ustr :=
  sha256HexToCrockford32 (drop (length (u "sha256:")) digest).

(** ** Data *)

Inductive Priority : Set := MUST | SHOULD.
#[export] Instance Priority_eq_dec : EqDecision Priority.
Proof. solve_decision. Defined.
Inductive RequirementState : Set := CLEAR | AMBIGUOUS | CONFLICTING.
#[export] Instance RequirementState_eq_dec : EqDecision RequirementState.
Proof. solve_decision. Defined.
Inductive RequirementKind : Set := authoritative | deterministic_check.
#[export] Instance RequirementKind_eq_dec : EqDecision RequirementKind.
Proof. solve_decision. Defined.
Inductive RequirementSource : Set :=
| RS_USER_EXPLICIT | RS_PLATFORM_POLICY | RS_PROJECT_INSTRUCTION | RS_PUBLIC_CONTRACT
| RS_EXISTING_TEST | RS_INFERRED_CHECK.
#[export] Instance RequirementSource_eq_dec : EqDecision RequirementSource.
Proof. solve_decision. Defined.

Record Requirement := mkRequirement {
  req_id : ustr;
  text : ustr;
  priority : Priority;
  req_state : RequirementState;
  req_kind : RequirementKind;
  source : RequirementSource;
  normative : bool
}.

Record BaselineSupplement := mkSupplement {
  sup_baselineSeal : ustr;
  verificationPlanRevision : Z;
  sup_environmentSeal : ustr;
  createdAt : ustr
}.

Record VerificationPlan := mkPlan {
  planId : ustr;
  revision : Z;
  vp_baselineSeal : ustr;
  requirements : list Requirement;
  obligations : list ProofObligation;
  checks : list CheckNode;
  baselineSupplementObjectDigests : list Digest;
  previousPlanObjectDigest : option Digest
}.

Record PlanRevisionDelta := mkDelta {
  delta_requirements : option (list Requirement);
  delta_obligations : option (list ProofObligation);
  delta_checks : option (list CheckNode)
}.

Record RevisePlanInput := mkRevise {
  previous : VerificationPlan;
  in_previousPlanObjectDigest : Digest;
  delta : PlanRevisionDelta;
  baselineReproducible : bool;
  now : ustr;
  in_environmentSeal : ustr
}.

(** [PlanError] with its code, or the [DigestError] of minting the plan id. *)
Inductive ReviseErr : Set :=
| PlanError (code : PlanErrorCode)
| MINT_ERROR.

Definition of_plan {A} (c : result PlanErrorCode A) : result ReviseErr A :=
  match c with Ok a => Ok a | Err e => Err (PlanError e) end.

(** ** Merging *)

Definition authorityRank (a : CommandAuthority) : nat :=
  match a with
  | USER_EXPLICIT => 6 | VERIFIER_INTRINSIC => 5 | PROJECT_CI => 4 | PROJECT_INSTRUCTION => 3
  | PROJECT_MANIFEST => 2 | CLOUD_PROPOSED => 1
  end.

Definition authorityWeakened (old next : Recipe) : bool :=
  match old, next with
  | CommandSpec a, CommandSpec b => (authorityRank b <? authorityRank a)%nat
  | _, _ => false
  end.

Definition includesAll (haystack needles : list ustr) : bool :=
  forallb (fun item => includes item haystack) needles.

Definition unionIds (left right : list ustr) : list ustr := uniq (left ++ right).

Definition sameRequirement (left right : Requirement) : bool :=
  bool_decide (text left = text right) && bool_decide (req_kind left = req_kind right) &&
  bool_decide (source left = source right) && bool_decide (priority left = priority right) &&
  bool_decide (req_state left = req_state right) && bool_decide (normative left = normative right).

(** [new Map(items.map((item) => [item.id, item]))] *)
Definition map_of {A} (id_of : A -> ustr) (items : list A) : list (ustr * A) :=
  foldl (fun m item => JsMap.set (id_of item) item m) [] items.

Definition mergeRequirement (byId : list (ustr * Requirement)) (requirement : Requirement)
    : result PlanErrorCode (list (ustr * Requirement)) :=
  match JsMap.get (req_id requirement) byId with
  | None => Ok (JsMap.set (req_id requirement) requirement byId)
  | Some existing =>
      throw_if negb (sameRequirement existing requirement) with REINTERPRET_REQUIREMENT; Ok byId
  end.

Definition mergeRequirements (prev added : list Requirement) : result PlanErrorCode (list Requirement) :=
  let? byId := rfold mergeRequirement (map_of req_id prev) added in Ok (JsMap.values byId).

Definition mergeObligation (byId : list (ustr * ProofObligation)) (obligation : ProofObligation)
    : result PlanErrorCode (list (ustr * ProofObligation)) :=
  match JsMap.get (obl_id obligation) byId with
  | None => Ok (JsMap.set (obl_id obligation) obligation byId)
  | Some existing =>
      throw_if obl_mandatory existing && negb (obl_mandatory obligation) with WEAKEN_MANDATORY;
      throw_if negb (includesAll (prerequisites obligation) (prerequisites existing)) with REMOVE_DEPENDENCY;
      throw_if negb (bool_decide (claim existing = claim obligation)) ||
               negb (bool_decide (obl_kind existing = obl_kind obligation)) with REINTERPRET_REQUIREMENT;
      Ok (JsMap.set (obl_id obligation)
            (mkObligation (obl_id existing) (requirementIds existing) (claim existing) (claimMode existing)
               (obl_kind existing) (obl_mandatory existing || obl_mandatory obligation)
               (unionIds (prerequisites existing) (prerequisites obligation))) byId)
  end.

Definition mergeObligations (prev added : list ProofObligation) : result PlanErrorCode (list ProofObligation) :=
  let? byId := rfold mergeObligation (map_of obl_id prev) added in Ok (JsMap.values byId).

Definition needs_baseline (check : CheckNode) : bool :=
  bool_decide (check_subject check = SUBJECT_BASELINE) || bool_decide (check_subject check = SUBJECT_PAIRED).

Definition mergeCheck (reproducible : bool) (byId : list (ustr * CheckNode)) (check : CheckNode)
    : result PlanErrorCode (list (ustr * CheckNode)) :=
  match JsMap.get (check_id check) byId with
  | None =>
      throw_if needs_baseline check && negb reproducible with BASELINE_NOT_REPRODUCIBLE;
      Ok (JsMap.set (check_id check) check byId)
  | Some existing =>
      throw_if check_mandatory existing && negb (check_mandatory check) with WEAKEN_MANDATORY;
      throw_if negb (includesAll (dependencies check) (dependencies existing)) with REMOVE_DEPENDENCY;
      throw_if authorityWeakened (recipe existing) (recipe check) with WEAKEN_AUTHORITY;
      Ok (JsMap.set (check_id check)
            (mkCheck (check_id existing) (obligationIds existing) (check_subject existing) (recipe existing)
               (unionIds (dependencies existing) (dependencies check))
               (check_mandatory existing || check_mandatory check) (approval existing)) byId)
  end.

Definition mergeChecks (prev added : list CheckNode) (reproducible : bool) : result PlanErrorCode (list CheckNode) :=
  let? byId := rfold (mergeCheck reproducible) (map_of check_id prev) added in Ok (JsMap.values byId).

Definition supplementsForLateChecks (prev : VerificationPlan) (nextChecks : list CheckNode) (time : ustr)
    (environment : ustr) : list BaselineSupplement :=
  let previousIds := map check_id (checks prev) in
  omap (fun check =>
    if includes (check_id check) previousIds then None else
    if negb (needs_baseline check) then None else
    Some (mkSupplement (vp_baselineSeal prev) (revision prev + 1) environment time)) nextChecks.

Definition assertMonotonic (prevO nextO : list ProofObligation) (prevC nextC : list CheckNode)
    : result PlanErrorCode unit :=
  let? _ := rfold (fun _ obligation =>
    throw_if negb (existsb (fun item => bool_decide (obl_id item = obl_id obligation)) nextO)
      with NON_MONOTONIC_REMOVE; Ok tt) tt prevO in
  rfold (fun _ check =>
    throw_if negb (existsb (fun item => bool_decide (check_id item = check_id check)) nextC)
      with NON_MONOTONIC_REMOVE; Ok tt) tt prevC.

Section Revise.
Context {DD : Doubles} {HH : Hashing}.

Definition mintGeneralId (prefix material : ustr) : option ustr :=
  let digest := sha256Utf8 (prefix ++ u ":" ++ material) in
  code ← crockfordFromDigest digest; Some (prefix ++ u "-" ++ take 24 code).

(** [JSON.stringify(toJsonValue(supplement))]: the members in the order they were created. *)
Definition supplement_text (s : BaselineSupplement) : ustr :=
  let str := JSON_stringify_string in
  let member k v := str (u k) ++ u ":" ++ v in
  u "{" ++ join_unit COMMA
    [member "schemaVersion" (u "1"); member "baselineSealObjectDigest" (str (sup_baselineSeal s));
     member "verificationPlanRevision" (int_toString (verificationPlanRevision s));
     member "environmentSealObjectDigest" (str (sup_environmentSeal s));
     member "observationArtifactObjectDigests" (u "[]");
     member "reason" (str (u "CANDIDATE_DISCOVERED_PAIRED_CHECK"));
     member "createdAt" (str (createdAt s))] ++ u "}".

Definition revisePlan (input : RevisePlanInput) : result ReviseErr (VerificationPlan * list BaselineSupplement) :=
  let prev := previous input in
  let? reqs := of_plan (mergeRequirements (requirements prev) (default [] (delta_requirements (delta input)))) in
  let? obls := of_plan (mergeObligations (obligations prev) (default [] (delta_obligations (delta input)))) in
  let? chks := of_plan (mergeChecks (checks prev) (default [] (delta_checks (delta input)))
                          (baselineReproducible input)) in
  let supplements := supplementsForLateChecks prev chks (now input) (in_environmentSeal input) in
  match mintGeneralId (u "plan") (planId prev ++ u ":" ++ int_toString (revision prev + 1)) with
  | None => Err MINT_ERROR
  | Some id =>
      let plan := mkPlan id (revision prev + 1) (vp_baselineSeal prev) reqs obls chks
        (baselineSupplementObjectDigests prev ++ map (fun s => sha256Utf8 (supplement_text s)) supplements)
        (Some (in_previousPlanObjectDigest input)) in
      let? _ := of_plan (assertAcyclicPlan obls chks) in
      let? _ := of_plan (assertMonotonic (obligations prev) obls (checks prev) chks) in
      Ok (plan, supplements)
  end.
End Revise.

(** Plan revisions are monotone: nothing the previous plan demanded is dropped, weakened or
    reinterpreted, and the monotonicity check at the end never fires. *)

Open Scope list_scope.

(** ** Merging into a map *)

Section Merge.
Context {A : Type} (id_of : A -> ustr) (R : A -> A -> Prop).
Context (step : list (ustr * A) -> A -> result PlanErrorCode (list (ustr * A))).
Context `{!PreOrder R}.

(** The entries sit under their own ids. *)
Definition keyed (m : list (ustr * A)) : Prop :=
  NoDup (JsMap.keys m) /\ forall k v, JsMap.get k m = Some v -> id_of v = k.

(** What one step of a merge does: it updates one entry, upwards, or adds the item. *)
Context (Hstep : forall m x m', keyed m -> step m x = Ok m' ->
  m' = m \/
  exists v', m' = JsMap.set (id_of x) v' m /\ id_of v' = id_of x /\
    match JsMap.get (id_of x) m with Some v => R v v' | None => v' = x end).

Lemma map_of_keyed items : keyed (map_of id_of items).
Proof using Type.
  unfold map_of. cut (forall m, keyed m -> keyed (foldl (fun m item => JsMap.set (id_of item) item m) m items)).
  { intros H. apply H. split; [constructor|done]. }
  induction items as [|x items IH]; intros m [Hn Hk]; [done|]. apply IH. split; [by apply JsMap.NoDup_keys_set|].
  intros k v. rewrite JsMap.get_set. case_decide; [by intros [= <-]|apply Hk].
Qed.

Lemma merge_keyed added m m' : keyed m -> rfold step m added = Ok m' -> keyed m'.
Proof using Hstep.
  intros Hm. apply rfold_ind; [|done]. intros t x t' _ Ht Hs.
  apply Hstep in Hs as [->|(v' & -> & Hid & _)]; [done| |done]. destruct Ht as [Hn Hk]. split; [by apply JsMap.NoDup_keys_set|].
  intros k v. rewrite JsMap.get_set. case_decide; [by intros [= <-]; subst|apply Hk].
Qed.

Lemma merge_up added m m' k v :
  keyed m -> rfold step m added = Ok m' -> JsMap.get k m = Some v ->
  exists v', JsMap.get k m' = Some v' /\ R v v'.
Proof using Type*.
  revert m v. induction added as [|x added IH]; intros m v Hm Hr Hv; cbn [rfold] in Hr.
  { injection Hr as <-. by exists v. }
  apply rbind_ok in Hr as (m1 & H1 & Hr).
  assert (Hm1 : keyed m1) by (eapply (merge_keyed [x]); [exact Hm|]; cbn [rfold]; by rewrite H1).
  assert (exists v1, JsMap.get k m1 = Some v1 /\ R v v1) as (v1 & Hv1 & HR).
  { apply Hstep in H1 as [->|(v' & -> & Hid & Hold)]; [by exists v| |done]. rewrite JsMap.get_set.
    case_decide as E; [|by exists v]. subst k. rewrite Hv in Hold. by exists v'. }
  destruct (IH m1 v1 Hm1 Hr Hv1) as (v2 & Hv2 & HR2). exists v2. split; [done|]. by etrans.
Qed.

Lemma merge_origin added m m' k v' :
  keyed m -> rfold step m added = Ok m' -> JsMap.get k m' = Some v' ->
  (exists v, JsMap.get k m = Some v /\ R v v') \/ (exists x, x ∈ added /\ R x v' /\ JsMap.get k m = None).
Proof using Type*.
  revert m. induction added as [|x added IH]; intros m Hm Hr Hv; cbn [rfold] in Hr.
  { injection Hr as <-. left. by exists v'. }
  apply rbind_ok in Hr as (m1 & H1 & Hr).
  assert (Hm1 : keyed m1) by (eapply (merge_keyed [x]); [exact Hm|]; cbn [rfold]; by rewrite H1).
  apply Hstep in H1 as [->|(w & -> & Hid & Hold)]; [| |done].
  { destruct (IH m Hm Hr Hv) as [?|(y & Hy & ?)]; [by left|right; exists y; set_solver]. }
  destruct (IH _ Hm1 Hr Hv) as [(v & Hg & HR)|(y & Hy & HR & Hg)]; rewrite JsMap.get_set in Hg.
  - case_decide as E; [|left; by exists v]. injection Hg as <-. subst k.
    destruct (JsMap.get (id_of x) m) as [old|] eqn:Eo.
    + left. exists old. split; [done|]. by etrans.
    + subst w. right. exists x. set_solver.
  - case_decide; [done|]. right. exists y. set_solver.
Qed.
End Merge.

Lemma values_get {A} (m : list (ustr * A)) v :
  NoDup (JsMap.keys m) -> v ∈ JsMap.values m <-> exists k, JsMap.get k m = Some v.
Proof.
  intros Hn. unfold JsMap.values. rewrite elem_of_map. split.
  - intros ([k w] & -> & Hin). exists k. by apply JsMap.elem_get.
  - intros (k & Hk%JsMap.get_some_elem). by exists (k, v).
Qed.

(** A merged list: everything old is still there, grown; everything in it is old or added. *)
Lemma merge_list {A} (id_of : A -> ustr) (R : A -> A -> Prop) `{!PreOrder R}
    (step : list (ustr * A) -> A -> result PlanErrorCode (list (ustr * A))) prev added m' :
  (forall m x m', keyed id_of m -> step m x = Ok m' ->
    m' = m \/
    exists v', m' = JsMap.set (id_of x) v' m /\ id_of v' = id_of x /\
      match JsMap.get (id_of x) m with Some v => R v v' | None => v' = x end) ->
  NoDup (map id_of prev) ->
  rfold step (map_of id_of prev) added = Ok m' ->
  (forall v, v ∈ prev -> exists v', v' ∈ JsMap.values m' /\ R v v') /\
  (forall v', v' ∈ JsMap.values m' -> (exists v, v ∈ prev /\ R v v') \/
     (exists x, x ∈ added /\ R x v' /\ id_of v' ∉ map id_of prev)).
Proof.
  intros Hstep Hn Hr. pose proof (map_of_keyed id_of prev) as Hk.
  pose proof (merge_keyed id_of R step Hstep added _ _ Hk Hr) as Hk'.
  assert (Hget : forall v, v ∈ prev -> JsMap.get (id_of v) (map_of id_of prev) = Some v).
  { intros v Hv. by apply (by_id_get id_of (fun _ => [])). }
  assert (Hprev : forall k v, JsMap.get k (map_of id_of prev) = Some v -> v ∈ prev).
  { intros k v Hv. destruct (decide (k ∈ map id_of prev)) as [Hin|Hin].
    - apply elem_of_map in Hin as (w & -> & Hw). rewrite Hget in Hv by done. by injection Hv as <-.
    - apply (by_id_other id_of (fun _ => []) []) in Hin. 
      change (map_of id_of prev) with (by_id id_of [] prev) in Hv. by rewrite Hin in Hv. }
  split.
  - intros v Hv. destruct (merge_up id_of R step Hstep added _ _ _ _ Hk Hr (Hget v Hv)) as (v' & Hg & HR).
    exists v'. split; [|done]. apply values_get; [apply Hk'|]. eauto.
  - intros v' (k & Hg)%values_get; [|apply Hk'].
    destruct (merge_origin id_of R step Hstep added _ _ _ _ Hk Hr Hg) as [(v & Hv & HR)|(x & Hx & HR & Hnone)].
    + left. exists v. split; [by eapply Hprev|done].
    + right. exists x. split_and!; [done|done|]. apply Hk' in Hg as <-. intros (w & E & Hw)%elem_of_map.
      rewrite E, Hget in Hnone by done. done.
Qed.

(** ** Growing *)

Record obl_grows (o o' : ProofObligation) : Prop := {
  og_id : obl_id o' = obl_id o;
  og_requirements : requirementIds o' = requirementIds o;
  og_claim : claim o' = claim o;
  og_mode : claimMode o' = claimMode o;
  og_kind : obl_kind o' = obl_kind o;
  og_mandatory : obl_mandatory o = true -> obl_mandatory o' = true;
  og_prerequisites : prerequisites o ⊆ prerequisites o'
}.
#[export] Instance obl_grows_preorder : PreOrder obl_grows.
Proof.
  split; [by constructor|].
  intros a b c [] []. constructor; try congruence; [by auto|]. by etrans.
Qed.

Record check_grows (c c' : CheckNode) : Prop := {
  cg_id : check_id c' = check_id c;
  cg_obligations : obligationIds c' = obligationIds c;
  cg_subject : check_subject c' = check_subject c;
  cg_recipe : recipe c' = recipe c;
  cg_approval : approval c' = approval c;
  cg_mandatory : check_mandatory c = true -> check_mandatory c' = true;
  cg_dependencies : dependencies c ⊆ dependencies c'
}.
#[export] Instance check_grows_preorder : PreOrder check_grows.
Proof.
  split; [by constructor|].
  intros a b c [] []. constructor; try congruence; [by auto|]. by etrans.
Qed.

Lemma union_left l r : l ⊆ unionIds l r.
Proof. intros x Hx. unfold unionIds. apply uniq_spec. set_solver. Qed.

Lemma mergeRequirement_step m x m' :
  keyed req_id m -> mergeRequirement m x = Ok m' ->
  m' = m \/ exists v', m' = JsMap.set (req_id x) v' m /\ req_id v' = req_id x /\
    match JsMap.get (req_id x) m with Some v => v = v' | None => v' = x end.
Proof.
  intros _. unfold mergeRequirement. destruct (JsMap.get (req_id x) m); intros; inv_ok; [by left|].
  right. by exists x.
Qed.

Lemma mergeObligation_step m x m' :
  keyed obl_id m -> mergeObligation m x = Ok m' ->
  m' = m \/ exists v', m' = JsMap.set (obl_id x) v' m /\ obl_id v' = obl_id x /\
    match JsMap.get (obl_id x) m with Some v => obl_grows v v' | None => v' = x end.
Proof.
  intros [_ Hk]. unfold mergeObligation. destruct (JsMap.get (obl_id x) m) as [old|] eqn:E; intros H; inv_ok;
    right; eexists; (split; [done|]); [|done].
  apply Hk in E. split; [done|]. constructor; try done; cbn; [by intros ->|apply union_left].
Qed.

Lemma mergeCheck_step repro m x m' :
  keyed check_id m -> mergeCheck repro m x = Ok m' ->
  m' = m \/ exists v', m' = JsMap.set (check_id x) v' m /\ check_id v' = check_id x /\
    match JsMap.get (check_id x) m with Some v => check_grows v v' | None => v' = x end.
Proof.
  intros [_ Hk]. unfold mergeCheck. destruct (JsMap.get (check_id x) m) as [old|] eqn:E; intros H; inv_ok;
    right; eexists; (split; [done|]); [|done].
  apply Hk in E. split; [done|]. constructor; try done; cbn; [by intros ->|apply union_left].
Qed.

(** Checks that run on the baseline are only added when it can be reproduced. *)
Lemma late_baseline_checks m added m' k c :
  rfold (mergeCheck false) m added = Ok m' -> JsMap.get k m' = Some c -> needs_baseline c = true ->
  is_Some (JsMap.get k m).
Proof.
  intros Hr. revert k c. revert Hr. apply (rfold_ind (fun t => forall k c, JsMap.get k t = Some c ->
    needs_baseline c = true -> is_Some (JsMap.get k m))).
  - intros t x t' _ Ht Hs k c. unfold mergeCheck in Hs.
    destruct (JsMap.get (check_id x) t) as [old|] eqn:E; inv_ok; rewrite JsMap.get_set; case_decide; subst;
      try apply Ht; intros [= <-] Hn.
    + eapply Ht; [exact E|]. exact Hn.
    + rewrite Hn in *. done.
  - intros k c Hc _. by rewrite Hc.
Qed.

Lemma keys_grow_present {A} (id_of : A -> ustr) (next : list A) x :
  (exists y, y ∈ next /\ id_of y = id_of x) ->
  existsb (fun item => bool_decide (id_of item = id_of x)) next = true.
Proof.
  intros (y & Hy & E). apply existsb_exists. exists y. split; [by apply list_elem_of_In|].
  by apply bool_decide_eq_true.
Qed.

Lemma of_plan_ok {A} (c : result PlanErrorCode A) a : of_plan c = Ok a <-> c = Ok a.
Proof. destruct c; naive_solver. Qed.

Section Revise.
Context {DD : Doubles} {HH : Hashing}.

Lemma revisePlan_inv input plan supplements :
  revisePlan input = Ok (plan, supplements) ->
  mergeRequirements (requirements (previous input)) (default [] (delta_requirements (delta input))) = Ok (requirements plan) /\
  mergeObligations (obligations (previous input)) (default [] (delta_obligations (delta input))) = Ok (obligations plan) /\
  mergeChecks (checks (previous input)) (default [] (delta_checks (delta input))) (baselineReproducible input) = Ok (checks plan) /\
  assertAcyclicPlan (obligations plan) (checks plan) = Ok tt /\
  revision plan = (revision (previous input) + 1)%Z /\ vp_baselineSeal plan = vp_baselineSeal (previous input).
Proof.
  unfold revisePlan. intros H. apply rbind_ok in H as (reqs & H1%of_plan_ok & H).
  apply rbind_ok in H as (obls & H2%of_plan_ok & H). apply rbind_ok in H as (chks & H3%of_plan_ok & H).
  destruct (mintGeneralId _ _); [|done].
  apply rbind_ok in H as ([] & H4%of_plan_ok & H). apply rbind_ok in H as ([] & H5%of_plan_ok & H).
  injection H as <- _. by split_and!.
Qed.

(** C40: revising an accepted plan is monotone: the revised plan is accepted too, keeps the baseline
    seal and counts the revision; every requirement is kept unchanged; every obligation and check
    is still there with the same claim, kind, recipe and approval, at least as mandatory and with
    at least its prerequisites; nothing appears that is neither old nor in the delta; and a check
    on the baseline is only added when the baseline can be reproduced. *)
Theorem revisePlan_monotone input plan supplements :
  NoDup (map req_id (requirements (previous input))) ->
  assertAcyclicPlan (obligations (previous input)) (checks (previous input)) = Ok tt ->
  revisePlan input = Ok (plan, supplements) ->
  assertAcyclicPlan (obligations plan) (checks plan) = Ok tt /\
  revision plan = (revision (previous input) + 1)%Z /\ vp_baselineSeal plan = vp_baselineSeal (previous input) /\
  (forall r, r ∈ requirements (previous input) -> r ∈ requirements plan) /\
  (forall o, o ∈ obligations (previous input) -> exists o', o' ∈ obligations plan /\ obl_grows o o') /\
  (forall c, c ∈ checks (previous input) -> exists c', c' ∈ checks plan /\ check_grows c c') /\
  (forall o', o' ∈ obligations plan -> exists o,
     (o ∈ obligations (previous input) \/ o ∈ default [] (delta_obligations (delta input))) /\ obl_grows o o') /\
  (baselineReproducible input = false -> forall c, c ∈ checks plan -> needs_baseline c = true ->
     check_id c ∈ map check_id (checks (previous input))).
Proof.
  intros HnR Hacc (HR & HO & HC & Hok & Hrev & Hseal)%revisePlan_inv.
  apply accepted_plan in Hacc as [_ [[HnO _] [HnC _]]].
  unfold obligation_graph, check_graph in *. rewrite graph_ids in HnO. rewrite graph_ids in HnC.
  unfold mergeRequirements in HR. apply rbind_ok in HR as (mR & HR & [= HeR]).
  unfold mergeObligations in HO. apply rbind_ok in HO as (mO & HO & [= HeO]).
  unfold mergeChecks in HC. apply rbind_ok in HC as (mC & HC & [= HeC]).
  destruct (merge_list req_id eq _ _ _ _ mergeRequirement_step HnR HR) as [KR _].
  destruct (merge_list obl_id obl_grows _ _ _ _ mergeObligation_step HnO HO) as [KO OO].
  destruct (merge_list check_id check_grows _ _ _ _ (mergeCheck_step _) HnC HC) as [KC OC].
  rewrite HeR in KR. rewrite HeO in KO, OO. rewrite HeC in KC. split_and!; try done.
  - intros r Hr. by destruct (KR r Hr) as (r' & ? & <-).
  - intros o' Ho'. destruct (OO o' Ho') as [(o & ? & ?)|(o & ? & ? & _)]; eauto.
  - intros Hrep c Hc Hnb. rewrite Hrep in HC.
    pose proof (map_of_keyed check_id (checks (previous input))) as Hk.
    pose proof (merge_keyed check_id check_grows _ (mergeCheck_step false) _ _ _ Hk HC) as Hk'.
    rewrite <- HeC in Hc. apply values_get in Hc as (k & Hg); [|apply Hk'].
    destruct (late_baseline_checks _ _ _ _ _ HC Hg Hnb) as [v Hv]. apply Hk' in Hg as <-.
    destruct (decide (check_id c ∈ map check_id (checks (previous input)))) as [|Hnin]; [done|].
    apply (by_id_other check_id dependencies []) in Hnin. change (map_of check_id (checks (previous input)))
      with (by_id check_id [] (checks (previous input))) in Hv. by rewrite Hnin in Hv.
Qed.
End Revise.

(** ** The final check is redundant *)

Lemma map_of_has {A} (id_of : A -> ustr) items x :
  x ∈ items -> exists v, JsMap.get (id_of x) (map_of id_of items) = Some v.
Proof.
  unfold map_of. cut (forall m, (x ∈ items \/ exists v, JsMap.get (id_of x) m = Some v) ->
    exists v, JsMap.get (id_of x) (foldl (fun m item => JsMap.set (id_of item) item m) m items) = Some v).
  { intros H Hx. apply H. by left. }
  induction items as [|y items IH]; intros m H; simpl; [destruct H; set_solver|]. apply IH.
  rewrite JsMap.get_set. case_decide; [right; eauto|].
  destruct H as [[->|?]%elem_of_cons|?]; [done|by left|by right].
Qed.

Lemma merged_present {A} (id_of : A -> ustr) (R : A -> A -> Prop) `{!PreOrder R}
    (step : list (ustr * A) -> A -> result PlanErrorCode (list (ustr * A))) prev added m' x :
  (forall m x m', keyed id_of m -> step m x = Ok m' ->
    m' = m \/
    exists v', m' = JsMap.set (id_of x) v' m /\ id_of v' = id_of x /\
      match JsMap.get (id_of x) m with Some v => R v v' | None => v' = x end) ->
  rfold step (map_of id_of prev) added = Ok m' -> x ∈ prev ->
  existsb (fun item => bool_decide (id_of item = id_of x)) (JsMap.values m') = true.
Proof.
  intros Hstep Hr Hx. pose proof (map_of_keyed id_of prev) as Hk.
  pose proof (merge_keyed id_of R step Hstep added _ _ Hk Hr) as Hk'.
  destruct (map_of_has id_of prev x Hx) as [v Hv].
  destruct (merge_up id_of R step Hstep added _ _ _ _ Hk Hr Hv) as (v' & Hg & _).
  apply keys_grow_present. exists v'. split; [apply values_get; [apply Hk'|eauto]|]. by apply Hk' in Hg.
Qed.

Lemma rfold_all {E A} (b : A -> bool) (e : E) l :
  (forall x, x ∈ l -> b x = true) ->
  rfold (fun (_ : unit) x => throw_if negb (b x) with e ; Ok tt) tt l = Ok tt.
Proof.
  induction l as [|x l IH]; intros H; simpl; [done|]. rewrite (H x) by set_solver. simpl. apply IH. set_solver.
Qed.

(** After the merges the monotonicity check cannot fail. *)
Lemma assertMonotonic_redundant prevO addO nextO prevC addC nextC repro :
  mergeObligations prevO addO = Ok nextO -> mergeChecks prevC addC repro = Ok nextC ->
  assertMonotonic prevO nextO prevC nextC = Ok tt.
Proof.
  unfold mergeObligations, mergeChecks, assertMonotonic.
  intros (mO & HO & [= <-])%rbind_ok (mC & HC & [= <-])%rbind_ok. rewrite !rfold_all; [done| |].
  - intros c Hc. by eapply (merged_present check_id check_grows), Hc; [apply mergeCheck_step|].
  - intros o Ho. by eapply (merged_present obl_id obl_grows), Ho; [apply mergeObligation_step|].
Qed.

(** ** A concrete revision *)

Definition constant_hash : Hashing := {| sha256_hex := fun _ => replicate 64 97%N |}.
#[local] Existing Instance half_doubles.
#[local] Existing Instance constant_hash.

Definition sample_plan : VerificationPlan :=
  mkPlan (u "plan-0") 0 (u "seal")
    [mkRequirement (u "r1") (u "text") MUST CLEAR authoritative RS_USER_EXPLICIT true]
    diamond diamond_checks [] None.
Definition sample_revision : RevisePlanInput :=
  mkRevise sample_plan (u "sha256:0")
    (mkDelta None
       (Some [mkObligation (u "a") [] (u "claim") UNIVERSAL FUNCTIONAL true [u "e"];
              mkObligation (u "e") [] (u "claim") UNIVERSAL SECURITY false []])
       (Some [mkCheck (u "k3") [u "e"] SUBJECT_PAIRED (CommandSpec CLOUD_PROPOSED) [u "k1"] false REQUIRE_USER]))
    true (u "2026-01-01T00:00:00Z") (u "env").

Definition revised : VerificationPlan * list BaselineSupplement :=
  match revisePlan sample_revision with Ok r => r | Err _ => (sample_plan, []) end.

Lemma revisePlan_monotone_witness :
  revision (fst revised) = 1%Z /\ length (snd revised) = 1 /\
  exists o', o' ∈ obligations (fst revised) /\ obl_grows (sample_obligation (u "a") []) o'.
Proof.
  split; [vm_compute; reflexivity|]. split; [vm_compute; reflexivity|].
  apply (revisePlan_monotone sample_revision (fst revised) (snd revised));
    [by apply (bool_decide_unpack _); vm_compute|vm_compute; reflexivity|vm_compute; reflexivity|].
  by do 3 right; left.
Defined.
