(* ===== verification/Evidence.v ===== *)
(** Evidence: packages/verification/src/evidence/{policy,flake,assess}.ts, the observation
    signatures of producers/record.ts and the envelope check of plan/envelope.ts.

    The flake classifier accumulates a log-likelihood ratio in doubles.  The policy is a constant
    (its type is the type of the literal), so the model keeps the ratio itself, as an exact
    rational, and compares it with the arguments of the two logarithms: the ratio is a power of
    three and the bounds are 16 and 4/19, so rounding (one unit in the last place per addition)
    cannot move a comparison.

    Ed25519 ([node:crypto]) and the artifact store are parameters. *)

From Stdlib Require Import QArith String Ascii.
From S2P Require Import Prelude Ids JsText CanonicalJson Digest.
Open Scope string_scope.
Open Scope list_scope.

(** ** Data (packages/contracts/src/schemas/verification.ts) *)

Inductive ObservationState : Set := PASSED | OBS_FAILED | ERROR | SKIPPED.
#[export] Instance ObservationState_eq_dec : EqDecision ObservationState.
Proof. solve_decision. Defined.

Record RunObservation := mkObservation {
  obs_attempt : Z;
  seed : option ustr;
  state : ObservationState;
  obs_signature : option ustr;
  exitCode : option Z;
  durationMs : Z;
  stdoutArtifact : option ustr;
  stderrArtifact : option ustr
}.

Inductive Relation : Set := SUPPORTS | REFUTES | NEUTRAL.
#[export] Instance Relation_eq_dec : EqDecision Relation.
Proof. solve_decision. Defined.

Inductive Origin : Set :=
| O_VERIFIER | O_USER | SEALED_PROJECT | INDEPENDENT_TOOL | CANDIDATE_TEST | LOCAL_MODEL | CLOUD_CLAIM.
#[export] Instance Origin_eq_dec : EqDecision Origin.
Proof. solve_decision. Defined.

Inductive Oracle : Set :=
| EXPLICIT_EXPECTATION | RED_GREEN | REGRESSION | PROPERTY | METAMORPHIC | DIFFERENTIAL
| MUTATION | SCHEMA_DIFF | ABI_DIFF | VISUAL_REFERENCE | HUMAN_AUTHORIZED.
#[export] Instance Oracle_eq_dec : EqDecision Oracle.
Proof. solve_decision. Defined.

Inductive EvidenceSubject : Type :=
| BASELINE (snapshotId snapshotRootDigest : ustr)
| CANDIDATE (candidateManifestObjectDigest : ustr).

Definition is_candidate (s : EvidenceSubject) : bool := match s with CANDIDATE _ => true | _ => false end.
Definition is_baseline (s : EvidenceSubject) : bool := match s with BASELINE _ _ => true | _ => false end.

Record EvidenceRecord := mkEvidence {
  ev_id : ustr;
  ev_obligation : ustr;
  relation : Relation;
  origin : Origin;
  independenceGroup : ustr;
  oracle : Oracle;
  baselineSealObjectDigest : ustr;
  subject : EvidenceSubject;
  producerId : ustr;
  producerVersionObjectDigest : ustr;
  environmentSealObjectDigest : ustr;
  observations : list RunObservation;
  artifactObjectDigests : list ustr
}.

Inductive AssessmentState : Type :=
| ADMISSIBLE
| INADMISSIBLE (reasons : list ustr).

Record EvidenceAssessment := mkAssessment {
  evidenceId : ustr;
  assessment : AssessmentState;
  policyRevisionObjectDigest : ustr
}.

Definition is_admissible (a : EvidenceAssessment) : bool :=
  match assessment a with ADMISSIBLE => true | INADMISSIBLE _ => false end.

(** ** policy.ts *)

Definition forbiddenOrigins : list Origin := [LOCAL_MODEL; CLOUD_CLAIM].
Definition requireBaselineSealMatch : bool := true.
Definition requireProducerRegistry : bool := true.

Record FlakePolicy := mkFlakePolicy { alpha : Q; beta : Q; effect : Q; minObservations : nat }.
Definition FLAKE_STATISTICAL_POLICY : FlakePolicy := mkFlakePolicy (5 # 100) (2 # 10) (5 # 10) 3.

(** The text [policyRevisionDigest] hashes: [JSON.stringify] of the two policies. *)
Definition QUOTE : string := String (ascii_of_N 34) EmptyString.
Definition json_string (s : string) : string := QUOTE ++ s ++ QUOTE.
Definition json_member (k : string) (v : string) : string := json_string k ++ ":" ++ v.
Definition json_object (ms : list string) : string := "{" ++ String.concat "," ms ++ "}".

Definition policy_text : string :=
  json_object
    [json_member "admissibility" (json_object
       [json_member "schemaVersion" "1";
        json_member "policyId" (json_string "pi-hec-evidence-admissibility/v1");
        json_member "forbiddenOrigins" ("[" ++ json_string "LOCAL_MODEL" ++ "," ++ json_string "CLOUD_CLAIM" ++ "]");
        json_member "requireBaselineSealMatch" "true";
        json_member "requireProducerRegistry" "true"]);
     json_member "flake" (json_object
       [json_member "schemaVersion" "1";
        json_member "policyId" (json_string "pi-hec-flake-sprt/v1");
        json_member "alpha" "0.05"; json_member "beta" "0.2"; json_member "effect" "0.5";
        json_member "minObservations" "3"])].

(** ** flake.ts *)

Inductive FlakeClass : Set := stable_pass | stable_fail | unknown_instability.
#[export] Instance FlakeClass_eq_dec : EqDecision FlakeClass.
Proof. solve_decision. Defined.

(** The arguments of the logarithms. *)
Definition sprtBounds (policy : FlakePolicy) : Q * Q :=
  (((1 - beta policy) / alpha policy)%Q, (beta policy / (1 - alpha policy))%Q).

Definition Qlt_bool (a b : Q) : bool := negb (Qle_bool b a).

Definition clampUnit (value : Q) : Q :=
  if Qlt_bool value (1 # 100) then 1 # 100 else
  if Qlt_bool (99 # 100) value then 99 # 100 else value.

Definition isFail (item : RunObservation) : bool :=
  bool_decide (state item = OBS_FAILED) || bool_decide (state item = ERROR).
Definition isPass (item : RunObservation) : bool := bool_decide (state item = PASSED).

Definition classifyFlake_with (policy : FlakePolicy) (retained : list RunObservation) : FlakeClass :=
  if (length retained =? 0)%nat then unknown_instability else
  let failed := List.filter isFail retained in
  let passed := List.filter isPass retained in
  if (0 <? length failed)%nat && (0 <? length passed)%nat then unknown_instability else
  if (length retained <? minObservations policy)%nat then unknown_instability else
  let '(acceptH1, acceptH0) := sprtBounds policy in
  let p0 := clampUnit ((1 # 2) - effect policy / 2)%Q in
  let p1 := clampUnit ((1 # 2) + effect policy / 2)%Q in
  let systematicFail := (0 <? length failed)%nat && (length passed =? 0)%nat in
  let ratio := foldl (fun (ratio : Q) item =>
    if negb (isFail item) && negb (isPass item) then ratio else
    let success := if systematicFail then isFail item else isPass item in
    (ratio * (if success then p1 / p0 else (1 - p1) / (1 - p0)))%Q) (1 # 1) retained in
  if Qle_bool acceptH1 ratio then (if systematicFail then stable_fail else stable_pass) else
  if Qle_bool ratio acceptH0 then unknown_instability else unknown_instability.

Definition classifyFlake : list RunObservation -> FlakeClass := classifyFlake_with FLAKE_STATISTICAL_POLICY.

Definition pairedFlake (baseline candidate : list RunObservation) : FlakeClass :=
  let baselineClass := classifyFlake baseline in
  let candidateClass := classifyFlake candidate in
  if bool_decide (candidateClass = stable_fail) && bool_decide (baselineClass = stable_pass) then stable_fail else
  if bool_decide (baselineClass = unknown_instability) && bool_decide (candidateClass = unknown_instability)
  then unknown_instability else
  if bool_decide (candidateClass = stable_pass) && bool_decide (baselineClass = stable_pass) then stable_pass else
  if bool_decide (candidateClass = stable_fail) && bool_decide (baselineClass = stable_fail)
  then unknown_instability else unknown_instability.

(** ** Signatures and assessment *)

Definition state_text (s : ObservationState) : ustr :=
  match s with PASSED => u "PASSED" | OBS_FAILED => u "FAILED" | ERROR => u "ERROR" | SKIPPED => u "SKIPPED" end.
Definition origin_text (o : Origin) : ustr :=
  match o with
  | O_VERIFIER => u "VERIFIER" | O_USER => u "USER" | SEALED_PROJECT => u "SEALED_PROJECT"
  | INDEPENDENT_TOOL => u "INDEPENDENT_TOOL" | CANDIDATE_TEST => u "CANDIDATE_TEST"
  | LOCAL_MODEL => u "LOCAL_MODEL" | CLOUD_CLAIM => u "CLOUD_CLAIM"
  end.

(** What can be thrown while assessing: by the digests, or by [asObjectDigest]. *)
Inductive EvidenceErr : Set :=
| DIGEST_ERROR (e : DigestErr)
| NOT_AN_OBJECT_DIGEST.

Definition of_digest {A} (c : result DigestErr A) : result EvidenceErr A :=
  match c with Ok a => Ok a | Err e => Err (DIGEST_ERROR e) end.

Definition asObjectDigest_units (value : ustr) : result EvidenceErr ustr :=
  if isObjectDigest_units value then Ok value else Err NOT_AN_OBJECT_DIGEST.

Section Assess.
Context {DD : Doubles} {HH : Hashing}.

Definition policyRevisionDigest : Digest := sha256Utf8 (u policy_text).

(** [observationSignature(observation).observationSignature]; the other fields are copied. *)
Definition observationSignature (observation : RunObservation) : result DigestErr RunObservation :=
  let? signature := taggedHash "observation-signature" 1
    (VObj ([(u "attempt", VInt (obs_attempt observation)); (u "state", VStr (state_text (state observation)))] ++
           opt_member "exitCode" VInt (exitCode observation) ++
           opt_member "stdoutDigest" VStr (stdoutArtifact observation) ++
           opt_member "stderrDigest" VStr (stderrArtifact observation))) in
  Ok (mkObservation (obs_attempt observation) (seed observation) (state observation) (Some signature)
        (exitCode observation) (durationMs observation) (stdoutArtifact observation)
        (stderrArtifact observation)).

Section Crypto.
Context {KeyObject : Type}.
(** [cryptoVerify(null, input, publicKey, Buffer.from(signature, "base64"))] *)
Variable cryptoVerify : bytes -> KeyObject -> ustr -> bool.

Fixpoint verifySignatures (envelope : ArtifactEnvelope jsvalue) (publicKey : KeyObject)
    (sigs : list EnvelopeSignature) : result EvidenceErr bool :=
  match sigs with
  | [] => Ok true
  | s :: rest =>
      let? certificate := asObjectDigest_units (signerCertificateObjectDigest s) in
      let? input := of_digest (signatureInputDigest (schemaName envelope) (schemaVersion envelope)
                                 (env_payloadDigest envelope) s certificate) in
      if cryptoVerify (utf8_encode input) publicKey (signature s)
      then verifySignatures envelope publicKey rest else Ok false
  end.

Definition verifyArtifactEnvelope (envelope : ArtifactEnvelope jsvalue) (publicKey : KeyObject)
    : result EvidenceErr bool :=
  let? expected := of_digest (payloadDigest (schemaName envelope) (schemaVersion envelope) (payload envelope)) in
  if bool_decide (expected <> env_payloadDigest envelope) then Ok false else
  let? verified := verifySignatures envelope publicKey (signatures envelope) in
  if negb verified then Ok false else Ok (0 <? length (signatures envelope))%nat.

(** [getText] of the artifact store. *)
Definition ArtifactStore : Type := ustr -> option ustr.

Record AssessContext := mkContext {
  ctx_baselineSeal : ustr;
  ctx_candidateManifest : option ustr;
  ctx_environmentSeal : ustr;
  producerIds : list ustr;
  mutatedEvidenceIds : option (list ustr);
  artifacts : option ArtifactStore;
  evidenceEnvelopes : option (list (ustr * ArtifactEnvelope jsvalue));
  envelopePublicKey : option KeyObject
}.

Fixpoint observationsValid (items : list RunObservation) : result EvidenceErr bool :=
  match items with
  | [] => Ok true
  | item :: rest =>
      let? expected := of_digest (observationSignature item) in
      if bool_decide (obs_signature item <> obs_signature expected) then Ok false
      else observationsValid rest
  end.
Definition observationChainValid (record : EvidenceRecord) : result EvidenceErr bool :=
  observationsValid (observations record).

Definition envelopeChainValid (record : EvidenceRecord) (context : AssessContext) : result EvidenceErr bool :=
  match (envelopes ← evidenceEnvelopes context; JsMap.get (ev_id record) envelopes) with
  | None => Ok true
  | Some envelope =>
      match envelopePublicKey context with
      | None => Ok false
      | Some key => verifyArtifactEnvelope envelope key
      end
  end.

Definition artifactIntegrityValid (record : EvidenceRecord) (context : AssessContext) : bool :=
  match artifacts context with
  | None => true
  | Some store =>
      forallb (fun digest =>
        match store digest with
        | None => false
        | Some text => bool_decide (objectDigestFromBytes (utf8_encode text) = digest)
        end) (artifactObjectDigests record)
  end.

(** [if (b) reasons.push(text)] *)
Definition push_if (b : bool) (text : ustr) (reasons : list ustr) : list ustr :=
  if b then reasons ++ [text] else reasons.

Definition assessEvidence (record : EvidenceRecord) (context : AssessContext)
    : result EvidenceErr EvidenceAssessment :=
  let reasons := foldl (fun reasons o =>
    push_if (bool_decide (origin record = o)) (u "origin:" ++ origin_text o) reasons) [] forbiddenOrigins in
  let reasons := push_if (requireBaselineSealMatch &&
    bool_decide (baselineSealObjectDigest record <> ctx_baselineSeal context)) (u "baseline-seal-mismatch") reasons in
  let reasons := push_if (bool_decide (environmentSealObjectDigest record <> ctx_environmentSeal context))
    (u "environment-incompatible") reasons in
  let reasons := push_if (requireProducerRegistry && negb (includes (producerId record) (producerIds context)))
    (u "producer-not-registered") reasons in
  let reasons := match subject record with
    | CANDIDATE manifest => push_if match ctx_candidateManifest context with
                                    | Some expected => bool_decide (manifest <> expected)
                                    | None => false end
                              (u "candidate-binding-mismatch") reasons
    | BASELINE _ _ => reasons end in
  let? chain := observationChainValid record in
  let reasons := push_if (negb chain) (u "signature-chain") reasons in
  let? envelopes := envelopeChainValid record context in
  let reasons := push_if (negb envelopes) (u "signature-chain") reasons in
  let reasons := push_if (negb (artifactIntegrityValid record context)) (u "artifact-integrity") reasons in
  let reasons := push_if match mutatedEvidenceIds context with
                         | Some ids => includes (ev_id record) ids | None => false end
                   (u "artifact-integrity") reasons in
  Ok (mkAssessment (ev_id record)
        (if (0 <? length reasons)%nat then INADMISSIBLE reasons else ADMISSIBLE) policyRevisionDigest).

Definition assessAll (records : list EvidenceRecord) (context : AssessContext)
    : result EvidenceErr (list EvidenceAssessment) :=
  rmap (fun record => assessEvidence record context) records.
End Crypto.

Definition admissibleRecords (records : list EvidenceRecord) (assessments : list EvidenceAssessment)
    : list EvidenceRecord :=
  let allowed := map evidenceId (List.filter is_admissible assessments) in
  List.filter (fun record => includes (ev_id record) allowed) records.
End Assess.
