(* ===== verification/Verdict.v ===== *)
(** The verdict: packages/verification/src/verdict.ts.  Obligations are evaluated in topological
    order against the admissible evidence, and the verdict is decided from the mandatory ones. *)

From Stdlib Require Import String.
From S2P Require Import Prelude JsText CanonicalJson Digest Plan Evidence.
Open Scope string_scope.
Open Scope list_scope.

Inductive Verdict : Set := ACCEPTED | REJECTED | INCONCLUSIVE.
#[export] Instance Verdict_eq_dec : EqDecision Verdict.
Proof. solve_decision. Defined.

Inductive ObligationStatus : Set := PASS | FAIL | UNKNOWN.
#[export] Instance ObligationStatus_eq_dec : EqDecision ObligationStatus.
Proof. solve_decision. Defined.

Inductive Attribution : Set :=
| A_CANDIDATE | A_BASELINE | A_ENVIRONMENT | A_REQUIREMENT | A_VERIFIER | A_UNKNOWN.
#[export] Instance Attribution_eq_dec : EqDecision Attribution.
Proof. solve_decision. Defined.

Inductive Certainty : Set := CONFIRMED | PROBABLE | UNRESOLVED.
#[export] Instance Certainty_eq_dec : EqDecision Certainty.
Proof. solve_decision. Defined.

(** [failAttribution], [failCertainty] and [failCode], which are always set together. *)
Record Counter := mkCounter {
  attribution : Attribution;
  certainty : Certainty;
  code : ustr
}.

Record ObligationEvaluation := mkEvaluation {
  obligationId : ustr;
  mandatory : bool;
  status : ObligationStatus;
  evidenceIds : list ustr;
  reason : ustr;
  fail : option Counter
}.

Definition failCertainty (item : ObligationEvaluation) : option Certainty := certainty <$> fail item.
Definition failAttribution (item : ObligationEvaluation) : option Attribution := attribution <$> fail item.
Definition failCode (item : ObligationEvaluation) : option ustr := code <$> fail item.

(** ** Deciding *)

Record DecideVerdictInput := mkDecide {
  evaluations : list ObligationEvaluation;
  integrityViolation : bool;
  sealsValid : bool;
  unresolvedBlockers : bool
}.

Definition decideVerdict (input : DecideVerdictInput) : Verdict :=
  if integrityViolation input then REJECTED else
  let mandatory_ := List.filter mandatory (evaluations input) in
  let confirmedFail := existsb (fun item =>
    bool_decide (status item = FAIL) && bool_decide (failCertainty item = Some CONFIRMED) &&
    bool_decide (failAttribution item = Some A_CANDIDATE)) mandatory_ in
  if confirmedFail then REJECTED else
  if negb (sealsValid input) || unresolvedBlockers input then INCONCLUSIVE else
  if (length mandatory_ =? 0)%nat then INCONCLUSIVE else
  if existsb (fun item => bool_decide (status item = UNKNOWN)) mandatory_ then INCONCLUSIVE else
  if existsb (fun item => bool_decide (status item = FAIL)) mandatory_ then INCONCLUSIVE else
  if forallb (fun item => bool_decide (status item = PASS)) mandatory_ then ACCEPTED else INCONCLUSIVE.

(** ** Evaluating one obligation *)

Definition all_observations (records : list EvidenceRecord) : list RunObservation :=
  concat (map observations records).

(** One step of the loop over [candidateRefutes]. *)
Definition weak_refutation (record : EvidenceRecord) : bool :=
  (bool_decide (origin record = CANDIDATE_TEST) && negb (bool_decide (oracle record = RED_GREEN))) ||
  (bool_decide (origin record = O_USER) && negb (bool_decide (oracle record = HUMAN_AUTHORIZED))).

Definition classifyCounterevidence (records : list EvidenceRecord) : option Counter :=
  let refutes := List.filter (fun item => bool_decide (relation item = REFUTES)) records in
  if (length refutes =? 0)%nat then None else
  let candidateRefutes := List.filter (fun item => is_candidate (subject item)) refutes in
  let baselineRecords := List.filter (fun item =>
    is_baseline (subject item) && negb (bool_decide (oracle item = RED_GREEN))) records in
  if existsb weak_refutation candidateRefutes
  then Some (mkCounter A_CANDIDATE PROBABLE (u "PATCH_FUNCTIONAL")) else
  if (length candidateRefutes =? 0)%nat
  then Some (mkCounter A_BASELINE CONFIRMED (u "BASE_PREEXISTING_FAIL")) else
  let candidateObs := all_observations candidateRefutes in
  let baselineObs := all_observations baselineRecords in
  if (0 <? length baselineObs)%nat then
    match pairedFlake baselineObs candidateObs with
    | stable_fail => Some (mkCounter A_CANDIDATE CONFIRMED (u "PATCH_FUNCTIONAL"))
    | unknown_instability => Some (mkCounter A_CANDIDATE UNRESOLVED (u "TEST_FLAKY"))
    | stable_pass => Some (mkCounter A_UNKNOWN UNRESOLVED (u "PATCH_FUNCTIONAL"))
    end
  else
    let flake := classifyFlake candidateObs in
    if bool_decide (flake = unknown_instability)
    then Some (mkCounter A_CANDIDATE UNRESOLVED (u "TEST_FLAKY")) else
    if bool_decide (flake = stable_fail) || (length candidateObs =? 0)%nat
    then Some (mkCounter A_CANDIDATE CONFIRMED (u "PATCH_FUNCTIONAL"))
    else Some (mkCounter A_UNKNOWN UNRESOLVED (u "PATCH_FUNCTIONAL")).

Definition flakeStatus (records : list EvidenceRecord) : FlakeClass :=
  let scored := List.filter (fun item =>
    negb (bool_decide (oracle item = RED_GREEN)) && negb (bool_decide (relation item = NEUTRAL))) records in
  let baseline := all_observations (List.filter (fun item => is_baseline (subject item)) scored) in
  let candidate := all_observations (List.filter (fun item => is_candidate (subject item)) scored) in
  if (0 <? length baseline)%nat && (0 <? length candidate)%nat then pairedFlake baseline candidate else
  let classes := map (fun item => classifyFlake (observations item)) scored in
  if existsb (fun c => bool_decide (c = unknown_instability)) classes then unknown_instability else
  if existsb (fun c => bool_decide (c = stable_fail)) classes then stable_fail else
  if (0 <? length classes)%nat && forallb (fun c => bool_decide (c = stable_pass)) classes
  then stable_pass else stable_pass.

Definition isExistentialExample (record : EvidenceRecord) : bool :=
  bool_decide (producerId record = u "coverage").

Definition dischargingSupports (obligation : ProofObligation) (supports : list EvidenceRecord)
    : list EvidenceRecord :=
  if bool_decide (claimMode obligation = EXISTENTIAL) then supports
  else List.filter (fun item => negb (isExistentialExample item)) supports.

Definition Statuses : Type := list (ustr * ObligationStatus).

(** [counter !== undefined && counter.certainty === "CONFIRMED" && counter.attribution === "CANDIDATE"] *)
Definition confirmed_candidate (counter : option Counter) : bool :=
  match counter with
  | Some c => bool_decide (certainty c = CONFIRMED) && bool_decide (attribution c = A_CANDIDATE)
  | None => false
  end.

Definition evaluateObligation (obligation : ProofObligation) (statuses : Statuses)
    (admissible : list EvidenceRecord) : ObligationEvaluation :=
  let related := List.filter (fun item => bool_decide (ev_obligation item = obl_id obligation)) admissible in
  let evidenceIds_ := map ev_id related in
  let result (s : ObligationStatus) (why : ustr) (counter : option Counter) :=
    mkEvaluation (obl_id obligation) (obl_mandatory obligation) s evidenceIds_ why counter in
  let counter := classifyCounterevidence related in
  match array_find (fun pre => negb (bool_decide (JsMap.get pre statuses = Some PASS))) (prerequisites obligation) with
  | Some pre =>
      if confirmed_candidate counter
      then result FAIL (u "prerequisite missing with candidate-attributable counterevidence") counter
      else result UNKNOWN (u "prerequisite " ++ pre ++ u " is not PASS") None
  | None =>
      if confirmed_candidate counter
      then result FAIL (u "admissible stable candidate-attributable counterevidence") counter else
      if match counter with Some c => bool_decide (certainty c = PROBABLE) | None => false end
      then result UNKNOWN (u "probable attribution cannot reject") counter else
      let supports := dischargingSupports obligation
        (List.filter (fun item => bool_decide (relation item = SUPPORTS)) related) in
      if (length supports =? 0)%nat then result UNKNOWN (u "missing admissible supporting evidence") None else
      match counter with
      | Some _ => result UNKNOWN (u "counterevidence is not confirmed candidate-attributable") counter
      | None =>
          match flakeStatus related with
          | unknown_instability => result UNKNOWN (u "flake classifier did not reach a stable pass") None
          | stable_fail => result FAIL (u "stable candidate-only failure")
                             (Some (mkCounter A_CANDIDATE CONFIRMED (u "PATCH_FUNCTIONAL")))
          | stable_pass => result PASS (u "discharge policy met by admissible evidence") None
          end
      end
  end.

(** ** The report *)

Inductive RepairOwner : Set := R_CLOUD | R_USER | R_ENVIRONMENT | R_VERIFIER | R_NONE.

Definition repairOwner (a : Attribution) : RepairOwner :=
  match a with
  | A_CANDIDATE => R_CLOUD
  | A_BASELINE => R_USER
  | A_ENVIRONMENT => R_ENVIRONMENT
  | A_REQUIREMENT => R_USER
  | A_VERIFIER => R_VERIFIER
  | A_UNKNOWN => R_NONE
  end.

Inductive WorkflowState : Set :=
| TERMINAL | REPAIRABLE | WAITING_USER | WAITING_ENVIRONMENT | WAITING_PROVIDER | NO_PROGRESS.

Definition workflowState (v : Verdict) : WorkflowState :=
  match v with ACCEPTED => TERMINAL | REJECTED => REPAIRABLE | INCONCLUSIVE => REPAIRABLE end.

Definition attribution_text (a : Attribution) : ustr :=
  match a with
  | A_CANDIDATE => u "CANDIDATE" | A_BASELINE => u "BASELINE" | A_ENVIRONMENT => u "ENVIRONMENT"
  | A_REQUIREMENT => u "REQUIREMENT" | A_VERIFIER => u "VERIFIER" | A_UNKNOWN => u "UNKNOWN"
  end.

Inductive ReportSubject : Type :=
| CHANGESET (candidateManifest : ustr)
| BASELINE_NO_CHANGE (snapshotId snapshotRootDigest : ustr).

Record Failure := mkFailure {
  failure_code : ustr;
  failure_attribution : Attribution;
  failure_owner : RepairOwner;
  failure_certainty : Certainty;
  failure_obligationIds : list ustr;
  failure_evidenceIds : list ustr;
  failureSignature : Digest;
  summary : ustr
}.

Record ObligationResult := mkResult {
  res_obligationId : ustr;
  res_status : ObligationStatus;
  res_evidenceIds : list ustr;
  res_reason : ustr
}.

Record VerdictReport := mkReport {
  verdict : Verdict;
  report_baselineSeal : ustr;
  report_subject : ReportSubject;
  verificationPlanObjectDigest : ustr;
  obligationResults : list ObligationResult;
  failures : list Failure;
  evidenceRootDigest : Digest;
  evidenceAssessments : list EvidenceAssessment;
  workflow : WorkflowState
}.

Record CompileVerdictInput := mkCompile {
  plan_obligations : list ProofObligation;
  plan_baselineSeal : ustr;
  planObjectDigest : ustr;
  evidence : list EvidenceRecord;
  assessments : list EvidenceAssessment;
  in_subject : ReportSubject;
  in_integrityViolation : bool;
  in_sealsValid : bool;
  in_unresolvedBlockers : bool
}.

Definition relation_text (r : Relation) : ustr :=
  match r with SUPPORTS => u "SUPPORTS" | REFUTES => u "REFUTES" | NEUTRAL => u "NEUTRAL" end.
Definition oracle_text (o : Oracle) : ustr :=
  match o with
  | EXPLICIT_EXPECTATION => u "EXPLICIT_EXPECTATION" | RED_GREEN => u "RED_GREEN"
  | REGRESSION => u "REGRESSION" | PROPERTY => u "PROPERTY" | METAMORPHIC => u "METAMORPHIC"
  | DIFFERENTIAL => u "DIFFERENTIAL" | MUTATION => u "MUTATION" | SCHEMA_DIFF => u "SCHEMA_DIFF"
  | ABI_DIFF => u "ABI_DIFF" | VISUAL_REFERENCE => u "VISUAL_REFERENCE"
  | HUMAN_AUTHORIZED => u "HUMAN_AUTHORIZED"
  end.

Section Report.
Context {DD : Doubles} {HH : Hashing}.

Definition strings (l : list ustr) : jsvalue := VArr (map VStr l).

(** [toJsonValue(record)]: the record as plain JSON. *)
Definition observation_json (o : RunObservation) : jsvalue :=
  VObj ([(u "attempt", VInt (obs_attempt o))] ++ opt_member "seed" VStr (seed o) ++
        [(u "state", VStr (state_text (state o)))] ++
        opt_member "observationSignature" VStr (obs_signature o) ++
        opt_member "exitCode" VInt (exitCode o) ++ [(u "durationMs", VInt (durationMs o))] ++
        opt_member "stdoutArtifact" VStr (stdoutArtifact o) ++
        opt_member "stderrArtifact" VStr (stderrArtifact o)).
Definition subject_json (s : EvidenceSubject) : jsvalue :=
  match s with
  | BASELINE snap root => VObj [(u "kind", VStr (u "BASELINE")); (u "snapshotId", VStr snap);
                                (u "snapshotRootDigest", VStr root)]
  | CANDIDATE m => VObj [(u "kind", VStr (u "CANDIDATE")); (u "candidateManifestObjectDigest", VStr m)]
  end.
Definition evidence_json (e : EvidenceRecord) : jsvalue :=
  VObj [(u "schemaVersion", VInt 1); (u "id", VStr (ev_id e)); (u "obligationId", VStr (ev_obligation e));
        (u "relation", VStr (relation_text (relation e))); (u "origin", VStr (origin_text (origin e)));
        (u "independenceGroup", VStr (independenceGroup e)); (u "oracle", VStr (oracle_text (oracle e)));
        (u "baselineSealObjectDigest", VStr (baselineSealObjectDigest e));
        (u "subject", subject_json (subject e)); (u "producerId", VStr (producerId e));
        (u "producerVersionObjectDigest", VStr (producerVersionObjectDigest e));
        (u "environmentSealObjectDigest", VStr (environmentSealObjectDigest e));
        (u "observations", VArr (map observation_json (observations e)));
        (u "artifactObjectDigests", strings (artifactObjectDigests e))].

Definition recordDigest (e : EvidenceRecord) : result DigestErr Digest :=
  let? text := of_canon (canonicalize (evidence_json e)) in
  Ok (objectDigestFromBytes (utf8_encode text)).

Definition failure_signature (ids : list ustr) (a : Attribution) (message : ustr) : result DigestErr Digest :=
  taggedHash "failure-signature" 1
    (VObj [(u "obligationIds", strings ids); (u "attribution", VStr (attribution_text a));
           (u "normalizedMessage", VStr message)]).

Definition reported (item : ObligationEvaluation) : bool :=
  bool_decide (status item = FAIL) ||
  (bool_decide (failCertainty item = Some PROBABLE) && bool_decide (status item = UNKNOWN)).

Definition failure_of (item : ObligationEvaluation) : result DigestErr Failure :=
  let a := default A_UNKNOWN (failAttribution item) in
  let? signature := failure_signature [obligationId item] a (reason item) in
  Ok (mkFailure (default (u "PATCH_FUNCTIONAL") (failCode item)) a (repairOwner a)
        (default UNRESOLVED (failCertainty item)) [obligationId item] (evidenceIds item) signature
        (reason item)).

(** The loop over [topologicalObligations(plan.obligations)]. *)
Definition evaluate_step (admissible : list EvidenceRecord)
    (st : Statuses * list ObligationEvaluation) (obligation : ProofObligation)
    : Statuses * list ObligationEvaluation :=
  let '(statuses, evaluations) := st in
  let evaluation := evaluateObligation obligation statuses admissible in
  (JsMap.set (obl_id obligation) (status evaluation) statuses, evaluations ++ [evaluation]).

Definition evaluate_all (admissible : list EvidenceRecord) (ordered : list ProofObligation)
    : list ObligationEvaluation :=
  snd (foldl (evaluate_step admissible) ([], []) ordered).

(** [None]: the topological order ran out of fuel, which it never does. *)
Definition compileVerdictReport (input : CompileVerdictInput) : option (result DigestErr VerdictReport) :=
  let admissible := admissibleRecords (evidence input) (assessments input) in
  ordered ← topologicalObligations (plan_obligations input);
  let evaluations_ := evaluate_all admissible ordered in
  let v := decideVerdict (mkDecide evaluations_ (in_integrityViolation input) (in_sealsValid input)
                            (in_unresolvedBlockers input)) in
  Some (
    let? failures_ := rmap failure_of (List.filter reported evaluations_) in
    let? failures_ := if in_integrityViolation input then
        let? signature := failure_signature [] A_VERIFIER (u "integrity violation") in
        Ok (failures_ ++ [mkFailure (u "EVIDENCE_TAMPER") A_VERIFIER R_VERIFIER CONFIRMED [] []
                            signature (u "integrity violation")])
      else Ok failures_ in
    let? digests := rmap recordDigest (evidence input) in
    let? root := taggedHash "verification-evidence-root" 1
      (VObj [(u "evidenceRecordObjectDigests", strings (sort_by utf16_leb digests))]) in
    Ok (mkReport v (plan_baselineSeal input) (in_subject input) (planObjectDigest input)
          (map (fun item => mkResult (obligationId item) (status item) (evidenceIds item) (reason item)) evaluations_)
          failures_ root (assessments input) (workflowState v))).
End Report.
