(* ===== verification/UnionFind.v ===== *)
(** Clusters by union-find, as clusterFailures (packages/verification/src/repair-packet.ts) and
    unionFindMerge (packages/evidence/src/dedupe.ts) compute them on an array of parents: [find]
    compresses paths, [union] links the second root below the first without ranks.  Paths stay finite,
    so [find] terminates within the length of the array, the classes are the equivalence closure of the
    pairs that were united, and the clusters are the connected components of the relation. *)

From stdpp Require Import relations.
From S2P Require Import Prelude.
Open Scope list_scope.

(** ** The code *)

Fixpoint find (fuel : nat) (parent : list nat) (index : nat) : option (nat * list nat) :=
  match fuel with
  | O => None
  | S n =>
      match parent !! index with
      | None => Some (index, parent)
      | Some current =>
          if (current =? index)%nat then Some (index, parent) else
          match find n parent current with
          | None => None
          | Some (root, parent) => Some (root, <[index := root]> parent)
          end
      end
  end.

Definition union (fuel : nat) (parent : list nat) (left right : nat) : option (list nat) :=
  match find fuel parent left with
  | None => None
  | Some (a, parent) =>
      match find fuel parent right with
      | None => None
      | Some (b, parent) => Some (if negb (a =? b)%nat then <[b := a]> parent else parent)
      end
  end.

(** A loop whose body can run out of fuel. *)
Fixpoint ofold {A S} (step : S -> A -> option S) (s : S) (xs : list A) : option S :=
  match xs with
  | [] => Some s
  | x :: rest => match step s x with None => None | Some s' => ofold step s' rest end
  end.

Lemma ofold_app {A S} (f : S -> A -> option S) xs ys s :
  ofold f s (xs ++ ys) = match ofold f s xs with None => None | Some s' => ofold f s' ys end.
Proof. revert s. induction xs as [|x xs IH]; intros s; cbn; [done|]. destruct (f s x); [apply IH | done]. Qed.

Lemma ofold_concat {A B S} (f : S -> B -> option S) (g : A -> list B) xs s :
  ofold (fun s x => ofold f s (g x)) s xs = ofold f s (concat (map g xs)).
Proof.
  revert s. induction xs as [|x xs IH]; intros s; cbn; [done|]. rewrite ofold_app. destruct (ofold f s (g x)); [apply IH | done].
Qed.

(** ** Paths *)

Inductive reaches (p : list nat) : nat -> nat -> nat -> Prop :=
| reach_root i : p !! i = Some i -> reaches p 0 i i
| reach_step n i j r : p !! i = Some j -> j <> i -> reaches p n j r -> reaches p (S n) i r.

Definition root (p : list nat) (i r : nat) : Prop := exists n, reaches p n i r.
Definition forest (p : list nat) : Prop := forall i, i < length p -> exists r, root p i r.

Lemma reaches_det p n m i r s : reaches p n i r -> reaches p m i s -> n = m /\ r = s.
Proof.
  intros H. revert m s. induction H as [i Hi|n i j r Hi Hne _ IH]; intros m s H'.
  - inversion H'; by simplify_eq.
  - inversion H' as [|? ? j' ? Hj ? Hr]; simplify_eq. destruct (IH _ _ Hr) as [-> ->]. done.
Qed.

Lemma root_det p i r s : root p i r -> root p i s -> r = s.
Proof. intros [n H] [m H']. by destruct (reaches_det _ _ _ _ _ _ H H'). Qed.

Lemma reaches_root p n i r : reaches p n i r -> p !! r = Some r.
Proof. by induction 1. Qed.

Lemma reaches_lt p n i r : reaches p n i r -> i < length p.
Proof. destruct 1 as [i H|n i j r H _ _]; by eapply lookup_lt_Some. Qed.

(** The nodes on a path are distinct, so a path is shorter than the array. *)
Lemma reaches_bound p n i r : reaches p n i r -> n < length p.
Proof.
  intros H. assert (exists l, length l = S n /\ NoDup l /\ forall x, x ∈ l -> x < length p /\ exists m, m <= n /\ reaches p m x r)
    as (l & Hl & Hn & Hin).
  { induction H as [i Hi|n i j r Hi Hne Hr (l & Hl & Hn & Hin)].
    - exists [i]. split_and!; [done | apply NoDup_singleton|]. intros x Hx%list_elem_of_singleton. subst x.
      split; [by eapply lookup_lt_Some|]. exists 0. split; [lia | by constructor].
    - assert (reaches p (S n) i r) as Hi' by (by econstructor).
      exists (i :: l). split_and!; [cbn; by rewrite Hl| |].
      + apply NoDup_cons. split; [|done]. intros Hil. destruct (Hin i Hil) as (_ & m & Hm & Hm').
        destruct (reaches_det _ _ _ _ _ _ Hi' Hm'). lia.
      + intros x [->|Hx]%elem_of_cons.
        * split; [by eapply reaches_lt|]. exists (S n). split; [lia | done].
        * destruct (Hin x Hx) as (Hx' & m & Hm & Hm'). split; [done|]. exists m. split; [lia | done]. }
  assert (length l <= length (seq 0 (length p))) as Hle; [|rewrite length_seq in Hle; lia].
  apply NoDup_incl_length; [by apply NoDup_ListNoDup|]. intros x Hx%list_elem_of_In. apply in_seq. destruct (Hin x Hx). lia.
Qed.

(** ** Path compression keeps every root *)

Definition keeps_roots (p p' : list nat) : Prop := length p' = length p /\ forall x s, root p x s -> root p' x s.

Lemma compress p n i r : reaches p n i r -> r <> i -> keeps_roots p (<[i := r]> p).
Proof.
  intros Hi Hne. split; [apply length_insert|]. intros x s [m Hm].
  pose proof (reaches_lt _ _ _ _ Hi) as Hlt.
  assert (reaches (<[i := r]> p) 0 r r) as Hr.
  { constructor. rewrite list_lookup_insert_ne by done. by eapply reaches_root. }
  assert (reaches (<[i := r]> p) 1 i r) as Hir by (econstructor; [by apply list_lookup_insert_eq | done | done]).
  pose proof Hm as Hm0. induction Hm as [x Hx|m x y s Hx Hxy Hy IH].
  - exists 0. constructor. rewrite list_lookup_insert_ne; [done|]. intros ->.
    inversion Hi; simplify_eq; congruence.
  - destruct (decide (i = x)) as [<-|Hix].
    + exists 1. destruct (reaches_det _ _ _ _ _ _ Hi Hm0) as [_ ->]. done.
    + destruct (IH Hy) as [m' Hm']. exists (S m'). econstructor; [|exact Hxy | exact Hm'].
      by rewrite list_lookup_insert_ne.
Qed.

Lemma find_spec p n i r : reaches p n i r -> forall fuel, n < fuel ->
  exists p', find fuel p i = Some (r, p') /\ keeps_roots p p'.
Proof.
  induction 1 as [i Hi|n i j r Hi Hne Hr IH]; intros [|fuel] Hf; try lia; cbn [find]; rewrite Hi.
  - rewrite Nat.eqb_refl. exists p. done.
  - rewrite (proj2 (Nat.eqb_neq _ _) Hne). destruct (IH fuel ltac:(lia)) as (p1 & -> & [Hl1 Hk1]).
    exists (<[i := r]> p1). split; [done|].
    destruct (Hk1 i r ltac:(exists (S n); by econstructor)) as [m Hm].
    assert (r <> i) as Hri.
    { intros ->. pose proof (reaches_root _ _ _ _ Hr). congruence. }
    destruct (compress p1 m i r Hm Hri) as [Hl2 Hk2]. split; [congruence|]. intros x s Hx. by apply Hk2, Hk1.
Qed.

Lemma find_total n p i : length p = n -> forest p -> i < n ->
  exists r p', find (S n) p i = Some (r, p') /\ root p i r /\ keeps_roots p p'.
Proof.
  intros <- Hf Hi. destruct (Hf i Hi) as [r [m Hr]]. pose proof (reaches_bound _ _ _ _ Hr) as Hb.
  destruct (find_spec p m i r Hr (S (length p)) ltac:(lia)) as (p' & H & Hk). exists r, p'. split_and!; [done | by exists m | done].
Qed.

Lemma keeps_forest p p' : keeps_roots p p' -> forest p -> forest p'.
Proof. intros [Hl Hk] Hf i Hi. rewrite Hl in Hi. destruct (Hf i Hi) as [r Hr]. exists r. by apply Hk. Qed.

(** ** Linking two roots *)

Lemma link p a b x s : p !! a = Some a -> p !! b = Some b -> a <> b -> root p x s ->
  root (<[b := a]> p) x (if decide (s = b) then a else s).
Proof.
  intros Ha Hb Hab [n Hn]. assert (reaches (<[b := a]> p) 0 a a) as Ha'.
  { constructor. by rewrite list_lookup_insert_ne. }
  assert (reaches (<[b := a]> p) 1 b a) as Hb'.
  { econstructor; [apply list_lookup_insert_eq; by eapply lookup_lt_Some | done | done]. }
  induction Hn as [x Hx|n x y s Hx Hxy Hy [m Hm]].
  - case_decide as E; [subst; by exists 1|]. exists 0. constructor. by rewrite list_lookup_insert_ne.
  - exists (S m). econstructor; [|exact Hxy | exact Hm]. rewrite list_lookup_insert_ne; [done|]. intros <-. congruence.
Qed.

(** ** The classes *)

(** [L] labels the nodes below [n] with their roots, and equal labels are exactly the equivalence
    closure of [E]. *)
Record classes (n : nat) (p : list nat) (E : nat -> nat -> Prop) (L : nat -> nat) : Prop := {
  cl_length : length p = n;
  cl_root x : x < n -> root p x (L x);
  cl_exact x y : x < n -> y < n -> L x = L y <-> rtsc E x y
}.

Lemma classes_forest n p E L : classes n p E L -> forest p.
Proof. intros [Hl Hr _] i Hi. exists (L i). apply Hr. lia. Qed.

Lemma classes_keep n p p' E L : classes n p E L -> keeps_roots p p' -> classes n p' E L.
Proof. intros [Hl Hr He] [Hl' Hk]. constructor; [congruence | intros x Hx; by apply Hk, Hr | done]. Qed.

Lemma root_of_root p i r : root p i r -> p !! r = Some r.
Proof. intros [n H]. by eapply reaches_root. Qed.

Lemma rtsc_mono {A} (E F : A -> A -> Prop) x y : (forall a b, E a b -> F a b) -> rtsc E x y -> rtsc F x y.
Proof.
  intros H. induction 1 as [|x y z Hxy _ IH]; [apply rtc_refl|]. eapply rtc_l; [|exact IH].
  destruct Hxy as [?|?]; [left | right]; by apply H.
Qed.

(** A labelling that respects [E] respects its closure. *)
Lemma rtsc_label {A B} (E : A -> A -> Prop) (L : A -> B) x y :
  (forall a b, E a b -> L a = L b) -> rtsc E x y -> L x = L y.
Proof.
  intros H. induction 1 as [|x y z Hxy _ IH]; [done|]. rewrite <- IH. destruct Hxy as [?|?]; [|symmetry]; by apply H.
Qed.

Lemma union_spec n p E L i j : classes n p E L -> (forall a b, E a b -> a < n /\ b < n) -> i < n -> j < n ->
  exists p' L', union (S n) p i j = Some p' /\ classes n p' (fun a b => E a b \/ (a = i /\ b = j)) L'.
Proof.
  intros Hc HE Hi Hj. pose proof (cl_length _ _ _ _ Hc) as Hn. unfold union.
  destruct (find_total n p i Hn (classes_forest _ _ _ _ Hc) Hi) as (a & p1 & -> & Ha & Hk1).
  pose proof (classes_keep _ _ _ _ _ Hc Hk1) as Hc1.
  destruct (find_total n p1 j (cl_length _ _ _ _ Hc1) (classes_forest _ _ _ _ Hc1) Hj) as (b & p2 & -> & Hb & Hk2).
  pose proof (classes_keep _ _ _ _ _ Hc1 Hk2) as Hc2.
  assert (L i = a) as <- by (eapply root_det; [by apply (cl_root _ _ _ _ Hc) | done]).
  assert (L j = b) as <- by (eapply root_det; [by apply (cl_root _ _ _ _ Hc1) | done]).
  set (F := fun a b => E a b \/ (a = i /\ b = j)).
  assert (rtsc F i j) as Hij by (apply rtc_once; left; by right).
  assert (forall x y, x < n -> y < n -> L x = L y -> rtsc F x y) as Hsub.
  { intros x y Hx Hy Hxy. apply (rtsc_mono E); [by left|]. by apply (cl_exact _ _ _ _ Hc). }
  destruct (L i =? L j)%nat eqn:Eq; cbn [negb].
  - apply Nat.eqb_eq in Eq. exists p2, L. split; [done|]. constructor; [by apply Hc2 | by apply Hc2|].
    intros x y Hx Hy. split; [by apply Hsub|]. apply rtsc_label. intros x' y' [HE'|[-> ->]]; [|done].
    destruct (HE _ _ HE'). apply (cl_exact _ _ _ _ Hc); [done..|]. by apply rtc_once; left.
  - apply Nat.eqb_neq in Eq. pose (L' := fun x => if decide (L x = L j) then L i else L x). exists (<[L j := L i]> p2), L'.
    split; [done|]. constructor.
    + rewrite length_insert. apply Hc2.
    + intros x Hx. apply link; [eapply root_of_root, (cl_root _ _ _ _ Hc2); exact Hi
        | eapply root_of_root, (cl_root _ _ _ _ Hc2); exact Hj | done | by apply Hc2].
    + intros x y Hx Hy. split.
      * unfold L'. repeat case_decide; intros Hxy.
        -- apply Hsub; [done..|congruence].
        -- etransitivity; [apply (Hsub x j); [done..|congruence]|]. etransitivity; [symmetry; exact Hij|]. by apply Hsub.
        -- etransitivity; [apply (Hsub x i); [done..|congruence]|]. etransitivity; [exact Hij|]. apply Hsub; [done..|congruence].
        -- by apply Hsub.
      * apply (rtsc_label F L'). intros x' y' [HE'|[-> ->]]; unfold L'.
        -- destruct (HE _ _ HE'). assert (L x' = L y') as ->; [|done].
           apply (cl_exact _ _ _ _ Hc); [done..|]. by apply rtc_once; left.
        -- rewrite decide_False by done. by rewrite decide_True.
Qed.

(** Initially every node is its own root. *)
Lemma classes_init n : classes n (seq 0 n) (fun _ _ => False) (fun x => x).
Proof.
  constructor; [apply length_seq| |].
  - intros x Hx. exists 0. constructor. by rewrite lookup_seq_lt.
  - intros x y _ _. split; [intros ->; apply rtc_refl|]. intros H. by apply (rtsc_label _ (fun x => x)) in H.
Qed.

(** ** Uniting a list of pairs *)

Definition unite_all (n : nat) (p : list nat) (pairs : list (nat * nat)) : option (list nat) :=
  ofold (fun p e => union (S n) p e.1 e.2) p pairs.

Lemma unite_all_spec n pairs : (forall e, e ∈ pairs -> e.1 < n /\ e.2 < n) -> forall p E L,
  classes n p E L -> (forall a b, E a b -> a < n /\ b < n) ->
  exists p' L', unite_all n p pairs = Some p' /\ classes n p' (fun a b => E a b \/ (a, b) ∈ pairs) L'.
Proof.
  unfold unite_all. induction pairs as [|[i j] pairs IH]; intros Hp p E L Hc HE.
  - exists p, L. split; [done|]. destruct Hc as [H1 H2 H3]. constructor; [done..|]. intros x y Hx Hy. rewrite H3 by done.
    split; apply rtsc_mono; [by left | by intros a b [?|?%not_elem_of_nil]].
  - destruct (Hp (i, j)) as [Hi Hj]; [left|]. cbn [ofold fst snd] in *.
    destruct (union_spec n p E L i j Hc HE Hi Hj) as (p1 & L1 & -> & Hc1).
    destruct (IH (fun e He => Hp e (list_elem_of_further _ _ _ He)) p1 _ L1 Hc1) as (p' & L' & -> & Hc').
    { intros a b [?|[-> ->]]; [by apply HE | done]. }
    exists p', L'. split; [done|]. destruct Hc' as [H1 H2 H3]. constructor; [done..|]. intros x y Hx Hy. rewrite H3 by done.
    split; apply rtsc_mono; intros a b; rewrite elem_of_cons; naive_solver.
Qed.

(** ** Clusters of a list *)

(** [relates] of the elements at two places. *)
Definition linked_at {A} (relates : A -> A -> bool) (xs : list A) (i j : nat) : bool :=
  match xs !! i, xs !! j with Some l, Some r => relates l r | _, _ => false end.

(** The two nested loops: [union(i, j)] for every [i < j] that are related. *)
Definition unite_linked {A} (relates : A -> A -> bool) (xs : list A) (parent : list nat) : option (list nat) :=
  let n := length xs in
  ofold (fun parent i =>
    ofold (fun parent j => if linked_at relates xs i j then union (S n) parent i j else Some parent)
      parent (seq (S i) (n - S i))) parent (seq 0 n).

(** The last loop: [groups.get(find(i))] receives element [i]. *)
Definition group_by_root {A} (xs : list A) (parent : list nat) : option (list nat * list (nat * list A)) :=
  let n := length xs in
  ofold (fun (st : list nat * list (nat * list A)) (e : nat * A) =>
    match find (S n) st.1 e.1 with
    | None => None
    | Some (r, parent) => Some (parent, JsMap.set r (default [] (JsMap.get r st.2) ++ [e.2]) st.2)
    end) (parent, []) (imap (fun i f => (i, f)) xs).

Definition cluster_by {A} (relates : A -> A -> bool) (xs : list A) : option (list (list A)) :=
  match unite_linked relates xs (seq 0 (length xs)) with
  | None => None
  | Some parent => match group_by_root xs parent with
                   | None => None
                   | Some (_, groups) => Some (JsMap.values groups)
                   end
  end.

(** ** Grouping by a label *)

Section GroupBy.
Context {A : Type} (lab : A -> nat).

Definition group_step (m : list (nat * list A)) (x : A) : list (nat * list A) :=
  JsMap.set (lab x) (default [] (JsMap.get (lab x) m) ++ [x]) m.

Definition with_label (r : nat) (xs : list A) : list A := List.filter (fun x => (lab x =? r)%nat) xs.

Definition grouped (xs : list A) : list (nat * list A) :=
  map (fun r => (r, with_label r xs)) (uniq (map lab xs)).

Lemma uniq_snoc (l : list nat) x : uniq (l ++ [x]) = setAdd (uniq l) x.
Proof. unfold uniq. by rewrite fold_left_app. Qed.

Lemma get_labelled (f : nat -> list A) ks r :
  JsMap.get r (map (fun r => (r, f r)) ks) = if decide (r ∈ ks) then Some (f r) else None.
Proof.
  induction ks as [|k ks IH]; cbn; [by rewrite decide_False by apply not_elem_of_nil|].
  rewrite IH. pose proof (elem_of_cons ks r k). repeat case_decide; subst; naive_solver.
Qed.

Lemma set_labelled (f : nat -> list A) ks r v : NoDup ks ->
  JsMap.set r v (map (fun r => (r, f r)) ks) =
  map (fun k => (k, if decide (k = r) then v else f k)) (setAdd ks r).
Proof.
  intros Hn. unfold setAdd. destruct (includes r ks) eqn:E.
  - apply includes_true in E. induction ks as [|k ks IH]; [by apply not_elem_of_nil in E|].
    apply NoDup_cons in Hn as [Hk Hn]. cbn. destruct (decide (r = k)) as [<-|Hne].
    + rewrite decide_True by done. f_equal. apply map_ext_in. intros x Hx%list_elem_of_In.
      rewrite decide_False; [done | by intros ->].
    + rewrite decide_False by done. f_equal. apply IH; [done|]. by apply elem_of_cons in E as [?|?].
  - apply includes_false in E. induction ks as [|k ks IH]; cbn; [by rewrite decide_True by done|].
    apply not_elem_of_cons in E as [Hne E]. rewrite !decide_False by done. f_equal. apply IH; [|done]. by apply NoDup_cons in Hn as [_ ?].
Qed.

Lemma grouped_snoc xs x : group_step (grouped xs) x = grouped (xs ++ [x]).
Proof.
  unfold group_step, grouped. rewrite map_app. cbn [map]. rewrite uniq_snoc, get_labelled.
  destruct (uniq_spec (map lab xs)) as [Hn Hin]. rewrite set_labelled by done. apply map_ext_in. intros k _. f_equal.
  unfold with_label. rewrite List.filter_app. cbn. case_decide as E; subst.
  - rewrite Nat.eqb_refl. f_equal. case_decide as Hk; [done|]. rewrite Hin in Hk. cbn. symmetry.
    destruct (List.filter _ xs) as [|y l] eqn:Ey; [done|]. exfalso. apply Hk.
    assert (y ∈ List.filter (fun y => lab y =? lab x) xs)%nat as Hy by (rewrite Ey; left).
    apply elem_of_List_filter in Hy as [Hy He%Nat.eqb_eq]. rewrite <- He. by apply list_elem_of_fmap_2.
  - rewrite (proj2 (Nat.eqb_neq _ _)) by congruence. by rewrite app_nil_r.
Qed.

Lemma group_by_spec xs : foldl group_step [] xs = grouped xs.
Proof. induction xs as [|x xs IH] using rev_ind; [done|]. by rewrite foldl_app, IH, <- grouped_snoc. Qed.

(** The groups partition the list. *)
Lemma grouped_perm xs : concat (JsMap.values (grouped xs)) ≡ₚ xs.
Proof.
  unfold JsMap.values, grouped. rewrite map_map. cbn [snd].
  assert (forall ks, NoDup ks -> (forall x, x ∈ xs -> lab x ∈ ks) -> concat (map (fun r => with_label r xs) ks) ≡ₚ xs) as H.
  { induction xs as [|x xs IH]; intros ks Hn Hall.
    - clear. induction ks; cbn; [done | by rewrite IHks].
    - assert (lab x ∈ ks) as Hx by (apply Hall; left).
      apply list_elem_of_split in Hx as (k1 & k2 & ->). specialize (IH (k1 ++ lab x :: k2) Hn).
      transitivity (x :: concat (map (fun r => with_label r xs) (k1 ++ lab x :: k2)));
        [|constructor; apply IH; intros y Hy; apply Hall; by right].
      rewrite !map_app, !concat_app. cbn [map concat].
      assert (forall ks, lab x ∉ ks -> map (fun r => with_label r (x :: xs)) ks = map (fun r => with_label r xs) ks) as Hne.
      { intros ks Hk. apply map_ext_in. intros r Hr%list_elem_of_In. unfold with_label. cbn.
        rewrite (proj2 (Nat.eqb_neq _ _)); [done|]. by intros <-. }
      apply NoDup_app in Hn as (_ & Hd & Hn). apply NoDup_cons in Hn as [Hk2 _].
      assert (lab x ∉ k1) as Hk1 by (intros Hk; apply (Hd _ Hk); left).
      rewrite (Hne k1 Hk1), (Hne k2 Hk2). unfold with_label at 2. cbn. rewrite Nat.eqb_refl. cbn. symmetry. apply Permutation_middle. }
  destruct (uniq_spec (map lab xs)) as [Hn Hin]. apply H; [done|]. intros x Hx. apply Hin. by apply list_elem_of_fmap_2.
Qed.
End GroupBy.

(** ** Clusters *)

Lemma ofold_filter {A S} (f : S -> A -> option S) (c : A -> bool) xs : forall s,
  ofold (fun s x => if c x then f s x else Some s) s xs = ofold f s (List.filter c xs).
Proof.
  induction xs as [|x xs IH]; intros s; cbn; [done|]. destruct (c x); cbn; [|apply IH].
  destruct (f s x); [apply IH | done].
Qed.

Lemma ofold_map {A B S} (f : S -> B -> option S) (g : A -> B) xs : forall s,
  ofold f s (map g xs) = ofold (fun s x => f s (g x)) s xs.
Proof. induction xs as [|x xs IH]; intros s; cbn; [done|]. destruct (f s (g x)); [apply IH | done]. Qed.

Lemma ofold_ext {A S} (f g : S -> A -> option S) xs : (forall s x, f s x = g s x) -> forall s, ofold f s xs = ofold g s xs.
Proof. intros H. induction xs as [|x xs IH]; intros s; cbn; [done|]. rewrite H. destruct (g s x); [apply IH | done]. Qed.

Definition second {A B} (m : list (nat * list (A * B))) : list (nat * list B) := map (fun kv => (kv.1, map snd kv.2)) m.

Lemma second_step {A B} (L : A -> nat) m (e : A * B) :
  JsMap.set (L e.1) (default [] (JsMap.get (L e.1) (second m)) ++ [e.2]) (second m) = second (group_step (fun e => L e.1) m e).
Proof.
  unfold group_step, second. induction m as [|[k l] m IH]; [done|]. cbn [map fst snd JsMap.get JsMap.set].
  destruct (decide (L e.1 = k)) as [Heq|Hne]; cbn; [by rewrite map_app | by rewrite <- IH].
Qed.

(** ** The components *)

Section Clusters.
Context {A : Type} (relates : A -> A -> bool).
Hypothesis relates_sym : forall x y, relates x y = true -> relates y x = true.

(** The pairs the nested loops unite. *)
Definition linked_pairs (fs : list A) : list (nat * nat) :=
  concat (map (fun i => map (pair i) (List.filter (linked_at relates fs i) (seq (S i) (length fs - S i)))) (seq 0 (length fs))).

Lemma unite_linked_pairs fs p : unite_linked relates fs p = unite_all (length fs) p (linked_pairs fs).
Proof.
  unfold unite_linked, unite_all, linked_pairs. rewrite <- ofold_concat. apply ofold_ext. intros s i.
  rewrite ofold_map. apply ofold_filter.
Qed.

Lemma elem_of_linked_pairs fs i j :
  (i, j) ∈ linked_pairs fs <-> i < j /\ j < length fs /\ linked_at relates fs i j = true.
Proof.
  unfold linked_pairs. rewrite list_elem_of_In, in_concat. split.
  - intros (l & Hl & Hin). apply in_map_iff in Hl as (i' & <- & Hi). apply in_map_iff in Hin as (j' & [= -> ->] & Hj).
    apply filter_In in Hj as [Hj Hs]. apply in_seq in Hi, Hj. split_and!; [lia | lia | done].
  - intros (Hij & Hj & Hs). eexists. split; [apply in_map_iff; exists i; split; [reflexivity|]; apply in_seq; lia|].
    apply in_map. apply filter_In. split; [apply in_seq; lia | done].
Qed.

Lemma linked_at_sym fs i j : linked_at relates fs i j = true -> linked_at relates fs j i = true.
Proof. unfold linked_at. destruct (fs !! i) as [f|], (fs !! j) as [g|]; try done. apply relates_sym. Qed.

Lemma linked_at_lt fs i j : linked_at relates fs i j = true -> i < length fs /\ j < length fs.
Proof.
  unfold linked_at. destruct (fs !! i) eqn:Ei; [|done]. destruct (fs !! j) eqn:Ej; [|done].
  intros _. split; by eapply lookup_lt_Some.
Qed.

(** Uniting the pairs [i < j] is uniting all related pairs. *)
Lemma linked_closure fs x y :
  rtsc (fun a b => (a, b) ∈ linked_pairs fs) x y <-> rtsc (fun a b => linked_at relates fs a b = true) x y.
Proof.
  split.
  - apply rtsc_mono. intros a b Hab. by apply elem_of_linked_pairs in Hab as (_ & _ & ?).
  - induction 1 as [|x y z Hxy _ IH]; [apply rtc_refl|]. etransitivity; [|exact IH]. clear IH z.
    assert (linked_at relates fs x y = true) as Hs by (destruct Hxy as [?|?%linked_at_sym]; done). clear Hxy.
    destruct (linked_at_lt _ _ _ Hs) as [Hx Hy]. destruct (Nat.lt_trichotomy x y) as [Hlt|[->|Hlt]].
    + apply rtc_once. left. apply elem_of_linked_pairs. done.
    + apply rtc_refl.
    + apply rtc_once. right. apply elem_of_linked_pairs. split_and!; [done | done | by apply linked_at_sym].
Qed.

Definition indexed (fs : list A) : list (nat * A) := imap (fun i f => (i, f)) fs.

Lemma indexed_snd fs : map snd (indexed fs) = fs.
Proof.
  unfold indexed. apply list_eq. intros i. etransitivity; [apply list_lookup_fmap|]. rewrite list_lookup_imap.
  by destruct (fs !! i).
Qed.

Lemma indexed_lt fs e : e ∈ indexed fs -> e.1 < length fs.
Proof.
  intros (i & f & -> & Hf)%elem_of_lookup_imap_1. by eapply lookup_lt_Some.
Qed.

Lemma group_by_root_spec fs p E L : classes (length fs) p E L ->
  exists p', group_by_root fs p = Some (p', second (grouped (fun e => L e.1) (indexed fs))).
Proof.
  intros Hc. unfold group_by_root. fold (indexed fs).
  pose proof (indexed_lt fs) as Hlt. rewrite <- group_by_spec. generalize dependent (indexed fs). intros es Hlt.
  change (@nil (nat * list A)) with (second (@nil (nat * list (nat * A)))) at 1.
  generalize (@nil (nat * list (nat * A))) as m. revert p Hc.
  induction es as [|e es IH]; intros p Hc m; cbn [ofold foldl]; [by exists p|]. cbn [fst snd].
  destruct (find_total (length fs) p e.1 (cl_length _ _ _ _ Hc) (classes_forest _ _ _ _ Hc) (Hlt e ltac:(left)))
    as (r & p' & -> & Hr & Hk).
  assert (r = L e.1) as -> by (eapply root_det; [exact Hr | apply (cl_root _ _ _ _ Hc), Hlt; left]).
  rewrite second_step. apply IH; [intros e' He'; apply Hlt; by right | by eapply classes_keep].
Qed.

Lemma cluster_by_components fs :
  exists L groups,
    (forall i j, i < length fs -> j < length fs -> L i = L j <-> rtsc (fun a b => linked_at relates fs a b = true) i j) /\
    cluster_by relates fs = Some groups /\
    groups = map (fun r => map snd (with_label (fun e => L e.1) r (indexed fs)))
               (uniq (map (fun e => L e.1) (indexed fs))) /\
    concat groups ≡ₚ fs /\ Forall (fun g => g <> []) groups.
Proof.
  destruct (unite_all_spec (length fs) (linked_pairs fs)) with (p := seq 0 (length fs)) (E := fun _ _ : nat => False) (L := fun x : nat => x)
    as (p & L & Hp & Hc).
  { intros [i j] (Hij & Hj & _)%elem_of_linked_pairs. cbn. lia. }
  { apply classes_init. }
  { done. }
  exists L. eexists. split.
  - intros i j Hi Hj. rewrite (cl_exact _ _ _ _ Hc i j Hi Hj), <- linked_closure.
    split; apply rtsc_mono; [by intros a b [?|?] | by right].
  - unfold cluster_by. rewrite unite_linked_pairs, Hp.
    destruct (group_by_root_spec fs p _ L Hc) as [p' ->]. split; [done|].
    assert (JsMap.values (second (grouped (fun e => L e.1) (indexed fs))) =
      map (map snd) (JsMap.values (grouped (fun e => L e.1) (indexed fs)))) as Hv.
    { unfold JsMap.values, second. by rewrite !map_map. }
    split_and!.
    + unfold JsMap.values, second, grouped. by rewrite !map_map.
    + rewrite Hv, <- concat_map. rewrite grouped_perm. by rewrite indexed_snd.
    + rewrite Hv. apply Forall_forall. intros g Hg. apply list_elem_of_fmap in Hg as (g' & -> & Hg').
      apply list_elem_of_fmap in Hg' as ([r l] & -> & Hrl). apply list_elem_of_fmap in Hrl as (r' & [= -> ->] & Hr').
      cbn. rewrite (proj2 (uniq_spec _)) in Hr'. apply list_elem_of_fmap in Hr' as (e & -> & He).
      assert (e ∈ with_label (fun e => L e.1) (L e.1) (indexed fs)) as Hin.
      { apply elem_of_List_filter. split; [done | apply Nat.eqb_refl]. }
      destruct (with_label _ _ _); [by apply not_elem_of_nil in Hin | done].
Qed.
End Clusters.
