(* ===== verification/RepairPacket.v ===== *)
(** Repair packets: packages/verification/src/repair-packet.ts.  After a verdict that is not an
    acceptance, the failures are clustered, their artifacts are materialized and the packet a cloud
    model may see is built. *)

From Stdlib Require Import String.
From S2P Require Import Prelude JsText CanonicalJson JsJson Digest Plan PlanRevise UnionFind Evidence Verdict.
Open Scope string_scope.
Open Scope list_scope.

Inductive CheckOutcome : Set := CO_PASS | CO_FAIL | CO_UNKNOWN.
#[export] Instance CheckOutcome_eq_dec : EqDecision CheckOutcome.
Proof. solve_decision. Defined.

Definition CheckResults : Type := list (ustr * CheckOutcome).

Inductive InlineFailureContent : Type := utf8_content (text : ustr) | base64_content (base64 : ustr) | digest_only.

Inductive RepairErr : Set :=
| INCOMPLETE_INDEPENDENT_CHECKS | DIGEST_ONLY_FAILURE_ARTIFACT | PACKET_SCHEMA | LOCAL_SEMANTIC_TEXT
| EMPTY_CLUSTER | REF_SYNTAX | REPAIR_FUEL.

(** ** Checks *)

Definition dependentBlocked (check : CheckNode) (results : CheckResults) : bool :=
  existsb (fun i => match JsMap.get i results with None | Some CO_FAIL => true | _ => false end) (dependencies check).

(** [None] only when the topological sort runs out of fuel, which it never does. *)
Definition missingIndependentCheckIds (checks : list CheckNode) (results : CheckResults) : option (list ustr) :=
  match topologicalChecks checks with
  | None => None
  | Some ordered => Some (map check_id (List.filter (fun c => negb (dependentBlocked c results) &&
      negb (JsMap.has (check_id c) results)) ordered))
  end.

(** ** Clusters *)

(** [right.obligationIds.some((id) => leftIds.has(id))] *)
Definition share_obligation (left right : Failure) : bool :=
  existsb (fun i => includes i (failure_obligationIds left)) (failure_obligationIds right).

Definition clusterFailures (failures : list Failure) : option (list (list Failure)) := cluster_by share_obligation failures.

(** ** Eligibility *)

(** The map of the obligations' [mandatory] flags; a later entry with the same id wins. *)
Definition mandatory_map (obligations : list ProofObligation) : list (ustr * bool) :=
  foldl (fun m o => JsMap.set (obl_id o) (obl_mandatory o) m) [] obligations.

Definition hasBlockingUnknown (report : VerdictReport) (obligations : option (list ProofObligation)) : bool :=
  let m := mandatory_map (default [] obligations) in
  existsb (fun r => bool_decide (res_status r = UNKNOWN) &&
    negb (bool_decide (JsMap.get (res_obligationId r) m = Some false))) (obligationResults report).

Definition is_cloud_confirmed (f : Failure) : bool :=
  match failure_owner f with R_CLOUD => bool_decide (failure_certainty f = CONFIRMED) | _ => false end.

(** The records by id; a later record with the same id wins. *)
Definition record_map (records : list EvidenceRecord) : list (ustr * EvidenceRecord) :=
  foldl (fun m r => JsMap.set (ev_id r) r m) [] records.

Definition isRepairEligible (report : VerdictReport) (evidence : option (list EvidenceRecord))
    (obligations : option (list ProofObligation)) : bool :=
  if negb (bool_decide (verdict report = REJECTED)) && negb (bool_decide (verdict report = INCONCLUSIVE)) then false else
  if (length (evidenceAssessments report) =? 0)%nat then false else
  let cloudConfirmed := List.filter is_cloud_confirmed (failures report) in
  if (length cloudConfirmed =? 0)%nat then false else
  let admissibleIds := map evidenceId (List.filter is_admissible (evidenceAssessments report)) in
  let records := record_map (default [] evidence) in
  let independentlyReproduced := existsb (fun f => existsb (fun i =>
    includes i admissibleIds &&
    match JsMap.get i records with None => false | Some r => negb (includes (origin r) forbiddenOrigins) end)
      (failure_evidenceIds f)) cloudConfirmed in
  if negb independentlyReproduced then false else negb (hasBlockingUnknown report obligations).

(** ** The packet *)

Section Packet.
Context `{D : Doubles} `{Hashing}.

(** Source references are JSON objects; [sourceRefs_of] is the field of an obligation. *)
Variable sourceRefs_of : ProofObligation -> list jsvalue.
(** [Buffer.from(text, "base64")] and the compiled [RepairPacketSchema]. *)
Variable Buffer_from_base64 : ustr -> bytes.

Record FailureArtifactInput := mkFailureArtifact {
  fa_objectDigest : Digest;
  fa_mediaType : ustr;
  fa_sourceRefs : list jsvalue;
  fa_content : InlineFailureContent;
  fa_evidenceIds : list ustr;
  fa_obligationIds : list ustr
}.

Record InlineArtifact := mkInline {
  ia_objectDigest : Digest;
  ia_mediaType : ustr;
  ia_sourceRefs : list jsvalue;
  ia_content : InlineFailureContent
}.

Record FailureCluster := mkCluster {
  primaryFailureSignature : Digest;
  secondaryFailureSignatures : list Digest;
  baselineEvidenceIds : list ustr;
  relevantSourceRefs : list jsvalue
}.

Record RepairPacket := mkPacket {
  rp_runId : ustr;
  rp_baseSnapshotId : ustr;
  rp_baselineSeal : ustr;
  priorCandidateId : ustr;
  priorCandidateManifest : ustr;
  unresolvedObligationIds : list ustr;
  failureClusters : list FailureCluster;
  preservedPassingObligationIds : list ustr;
  prohibitedRegressionObligationIds : list ustr;
  inlineFailureArtifacts : list InlineArtifact;
  fullEvidenceRootDigest : Digest
}.

Variable PACKET_Check : RepairPacket -> bool.

Record BuildRepairPacketInput := mkBuild {
  br_runId : ustr;
  br_baseSnapshotId : ustr;
  br_priorCandidateId : ustr;
  br_priorCandidateManifest : ustr;
  br_plan : VerificationPlan;
  br_report : VerdictReport;
  br_checkResults : CheckResults;
  br_failureArtifacts : list FailureArtifactInput;
  br_localFindingStatements : list ustr;
  br_evidence : option (list EvidenceRecord)
}.

Definition uniqueSorted (values : list ustr) : list ustr := sort_by utf16_leb (uniq values).

Definition bytesOf (content : InlineFailureContent) : bytes :=
  match content with
  | utf8_content t => utf8_encode t
  | base64_content b => Buffer_from_base64 b
  | digest_only => []
  end.

Definition materializeArtifact (a : FailureArtifactInput) : option InlineArtifact :=
  match fa_content a with
  | digest_only | utf8_content [] | base64_content [] => None
  | c => Some (mkInline (objectDigestFromBytes (bytesOf c)) (fa_mediaType a) (fa_sourceRefs a) c)
  end.

Definition refsOverlap (left right : list jsvalue) : bool :=
  existsb (fun r => includes (JSON_stringify r) (map JSON_stringify left)) right.

Definition obligation_map (obligations : list ProofObligation) : list (ustr * ProofObligation) :=
  foldl (fun m o => JsMap.set (obl_id o) o m) [] obligations.

(** [obligations.get(id)?.sourceRefs ?? []] *)
Definition refs_at (obligations : list (ustr * ProofObligation)) (i : ustr) : list jsvalue :=
  match JsMap.get i obligations with Some o => sourceRefs_of o | None => [] end.

Definition artifactMatchesFailure (a : FailureArtifactInput) (f : Failure) (obligations : list (ustr * ProofObligation)) : bool :=
  refsOverlap (fa_sourceRefs a) (concat (map (refs_at obligations) (failure_obligationIds f))) ||
  existsb (fun i => includes i (failure_evidenceIds f)) (fa_evidenceIds a) ||
  existsb (fun i => includes i (failure_obligationIds f)) (fa_obligationIds a).

Definition is_digest_only (a : FailureArtifactInput) : bool :=
  match fa_content a with digest_only => true | _ => false end.

(** The body of the loop over the failures. *)
Definition inlineFailure (artifacts : list FailureArtifactInput) (obligations : list (ustr * ProofObligation))
    (inline : list InlineArtifact) (f : Failure) : result RepairErr (list InlineArtifact) :=
  let matches := List.filter (fun a => artifactMatchesFailure a f obligations) artifacts in
  let materialized := map materializeArtifact matches in
  throw_if existsb is_digest_only matches || existsb (fun m => match m with None => true | Some _ => false end) materialized
    with DIGEST_ONLY_FAILURE_ARTIFACT;
  let present := omap (fun m => m) materialized in
  throw_if (length present =? 0)%nat with DIGEST_ONLY_FAILURE_ARTIFACT;
  Ok (inline ++ present).

(** [JSON.parse(raw) as SourceRef] *)
Definition parse_ref (raw : ustr) : result RepairErr jsvalue :=
  match JSON_parse raw with Some r => Ok r | None => Err REF_SYNTAX end.

(** One cluster, or the error for an empty group. *)
Definition clusterOf (obligations : list (ustr * ProofObligation)) (group : list Failure) : result RepairErr FailureCluster :=
  let sorted := sort_by (fun l r => utf16_leb (failureSignature l) (failureSignature r)) group in
  match sorted with
  | [] => Err EMPTY_CLUSTER
  | primary :: rest =>
      let? refs := rmap parse_ref (uniqueSorted (map JSON_stringify
        (concat (map (fun f => concat (map (refs_at obligations) (failure_obligationIds f))) group)))) in
      Ok (mkCluster (failureSignature primary) (map failureSignature rest)
        (uniqueSorted (concat (map failure_evidenceIds group))) refs)
  end.

Definition dedupeArtifacts (artifacts : list InlineArtifact) : list InlineArtifact :=
  (foldl (fun '(seen, out) a => if includes (ia_objectDigest a) seen then (seen, out)
     else (seen ++ [ia_objectDigest a], out ++ [a])) ([], []) artifacts).2.

Definition s_list (l : list ustr) : jsvalue := VArr (map VStr l).
Definition member (k : string) (s : ustr) : ustr * jsvalue := (u k, VStr s).

Definition inline_json (a : InlineArtifact) : jsvalue :=
  VObj [member "objectDigest" (ia_objectDigest a); member "mediaType" (ia_mediaType a);
        (u "sourceRefs", VArr (ia_sourceRefs a));
        (u "content", match ia_content a with
           | utf8_content t => VObj [member "encoding" (u "utf-8"); member "text" t]
           | base64_content b => VObj [member "encoding" (u "base64"); member "base64" b]
           | digest_only => VObj [member "encoding" (u "digest-only")]
           end)].

Definition cluster_json (c : FailureCluster) : jsvalue :=
  VObj [member "primaryFailureSignature" (primaryFailureSignature c);
        (u "secondaryFailureSignatures", s_list (secondaryFailureSignatures c));
        (u "baselineEvidenceIds", s_list (baselineEvidenceIds c));
        (u "relevantSourceRefs", VArr (relevantSourceRefs c))].

Definition packet_json (p : RepairPacket) : jsvalue :=
  VObj [(u "schemaVersion", VNum (SafeInt 1)); member "runId" (rp_runId p);
        member "baseSnapshotId" (rp_baseSnapshotId p); member "baselineSealObjectDigest" (rp_baselineSeal p);
        member "priorCandidateId" (priorCandidateId p);
        member "priorCandidateManifestObjectDigest" (priorCandidateManifest p);
        (u "unresolvedObligationIds", s_list (unresolvedObligationIds p));
        (u "failureClusters", VArr (map cluster_json (failureClusters p)));
        (u "preservedPassingObligationIds", s_list (preservedPassingObligationIds p));
        (u "prohibitedRegressionObligationIds", s_list (prohibitedRegressionObligationIds p));
        (u "inlineFailureArtifacts", VArr (map inline_json (inlineFailureArtifacts p)));
        member "fullEvidenceRootDigest" (fullEvidenceRootDigest p);
        member "requiredResponse" (u "FULL_REPLACEMENT_CHANGESET")].

Definition containsNeedle (p : RepairPacket) (needle : ustr) : bool :=
  includes_text needle (JSON_stringify (packet_json p)).

Definition ids_with (keep : ObligationStatus -> bool) (report : VerdictReport) : list ustr :=
  uniqueSorted (map res_obligationId (List.filter (fun r => keep (res_status r)) (obligationResults report))).

Definition or_fuel {A} (o : option A) : result RepairErr A := match o with Some a => Ok a | None => Err REPAIR_FUEL end.

Definition buildRepairPacket (input : BuildRepairPacketInput) : result RepairErr RepairPacket :=
  let report := br_report input in
  let? missing := or_fuel (missingIndependentCheckIds (checks (br_plan input)) (br_checkResults input)) in
  throw_if (0 <? length missing)%nat with INCOMPLETE_INDEPENDENT_CHECKS;
  let obligations := obligation_map (obligations (br_plan input)) in
  let? inline := rfold (inlineFailure (br_failureArtifacts input) obligations) [] (failures report) in
  let passing := ids_with (fun s => bool_decide (s = PASS)) report in
  let unresolved := ids_with (fun s => bool_decide (s = FAIL) || bool_decide (s = UNKNOWN)) report in
  let? groups := or_fuel (clusterFailures (failures report)) in
  let? clusters := rmap (clusterOf obligations) groups in
  let packet := mkPacket (br_runId input) (br_baseSnapshotId input) (report_baselineSeal report)
    (br_priorCandidateId input) (br_priorCandidateManifest input) unresolved clusters passing passing
    (dedupeArtifacts inline) (evidenceRootDigest report) in
  throw_if negb (PACKET_Check packet) with PACKET_SCHEMA;
  throw_if existsb (fun s => negb (bool_decide (s = [])) && containsNeedle packet s) (br_localFindingStatements input)
    with LOCAL_SEMANTIC_TEXT;
  Ok packet.
End Packet.
