(* ===== verification/VerdictTheorems.v ===== *)
(** The verdict: what acceptance and rejection rest on, down to the admissibility of the evidence
    and the number of observations behind a stable outcome. *)

From Stdlib Require Import QArith List String.
From S2P Require Import Prelude JsText CanonicalJson Digest Plan PlanTheorems Evidence Verdict.
Open Scope list_scope.

(** ** Stable outcomes *)

Definition passes (obs : list RunObservation) : nat := length (List.filter isPass obs).
Definition fails (obs : list RunObservation) : nat := length (List.filter isFail obs).

(** No failure and at least three passes; no pass and at least three failures. *)
Definition stably_passing (obs : list RunObservation) : Prop := fails obs = 0 /\ 3 <= passes obs.
Definition stably_failing (obs : list RunObservation) : Prop := passes obs = 0 /\ 3 <= fails obs.

Definition count_scored (obs : list RunObservation) : nat := passes obs + fails obs.

Lemma pass_not_fail item : isPass item = true -> isFail item = false.
Proof. unfold isPass, isFail. by destruct (state item). Qed.

Section Ratio.
Context (win lose : Q) (systematic : bool).

Definition score (ratio : Q) (item : RunObservation) : Q :=
  if negb (isFail item) && negb (isPass item) then ratio else
  (ratio * (if (if systematic then isFail item else isPass item) then win else lose))%Q.

Lemma ratio_power obs ratio :
  (if systematic then passes obs = 0 else fails obs = 0) ->
  (win == 3 # 1 -> foldl score ratio obs == ratio * inject_Z (3 ^ Z.of_nat (count_scored obs)))%Q.
Proof using Type.
  intros H Hw. revert ratio H. unfold count_scored, passes, fails.
  induction obs as [|o obs IH]; intros ratio H; cbn [foldl List.filter]; [symmetry; apply Qmult_1_r|].
  assert (Hs : (if systematic then length (List.filter isPass obs) = 0
                else length (List.filter isFail obs) = 0)).
  { revert H. cbn [List.filter]. destruct systematic, (isPass o), (isFail o); simpl; lia. }
  rewrite IH by done. unfold score.
  assert (Hp : forall n, (inject_Z (3 ^ Z.of_nat (S n)) == (3 # 1) * inject_Z (3 ^ Z.of_nat n))%Q).
  { intros n. rewrite Nat2Z.inj_succ, Z.pow_succ_r, inject_Z_mult by lia. done. }
  revert H. cbn [List.filter].
  destruct systematic, (isPass o) eqn:Ep, (isFail o) eqn:Ef; simpl; intros H; try lia;
    try (apply pass_not_fail in Ep; congruence); rewrite ?Nat.add_succ_r, ?Hp, ?Hw; try ring.
  all: rewrite <- ?Nat.add_succ_r; cbn [Nat.add]; rewrite ?Hp; ring.
Qed.
End Ratio.

Lemma scored_length obs : count_scored obs <= length obs.
Proof.
  unfold count_scored, passes, fails. induction obs as [|o obs IH]; simpl; [done|].
  destruct (isPass o) eqn:Ep; [rewrite (pass_not_fail o Ep)|destruct (isFail o)]; simpl; lia.
Qed.

(** The acceptance bound of the test: nine is below sixteen, twenty-seven above. *)
Lemma power_accepts (k : nat) (bound : Q) :
  (bound == 16 # 1)%Q -> Qle_bool bound ((1 # 1) * inject_Z (3 ^ Z.of_nat k)) = (3 <=? k)%nat.
Proof.
  intros Hb. apply eq_true_iff_eq. rewrite Qle_bool_iff, Hb, Nat.leb_le, Qmult_1_l.
  change (16 # 1)%Q with (inject_Z 16). rewrite <- Zle_Qle. split.
  - intros H. destruct (decide (3 <= k)) as [|Hk]; [done|].
    assert (3 ^ Z.of_nat k <= 3 ^ 2)%Z by (apply Z.pow_le_mono_r; lia). lia.
  - intros Hk. assert (3 ^ 3 <= 3 ^ Z.of_nat k)%Z by (apply Z.pow_le_mono_r; lia). lia.
Qed.

Definition flake_spec (obs : list RunObservation) : FlakeClass :=
  if (fails obs =? 0)%nat && (3 <=? passes obs)%nat then stable_pass else
  if (passes obs =? 0)%nat && (3 <=? fails obs)%nat then stable_fail else unknown_instability.

#[local] Instance Qle_bool_proper : Proper (Qeq ==> Qeq ==> eq) Qle_bool.
Proof. intros a b H c d H'. apply eq_true_iff_eq. by rewrite !Qle_bool_iff, H, H'. Qed.

Lemma ratio_decides win lose systematic obs bound bound0 (outcome : FlakeClass) :
  (if systematic : bool then passes obs = 0 else fails obs = 0) ->
  (bound == 16 # 1)%Q -> (win == 3 # 1)%Q ->
  (if Qle_bool bound (foldl (score win lose systematic) (1 # 1) obs) then outcome else
   if Qle_bool (foldl (score win lose systematic) (1 # 1) obs) bound0 then unknown_instability
   else unknown_instability) =
  if (3 <=? count_scored obs)%nat then outcome else unknown_instability.
Proof.
  intros H Hb Hw. rewrite (ratio_power win lose systematic obs _ H Hw), power_accepts by done.
  destruct (3 <=? _)%nat; [done|]. by match goal with |- (if ?b then _ else _) = _ => destruct b end.
Qed.

Lemma classifyFlake_exact obs : classifyFlake obs = flake_spec obs.
Proof.
  unfold classifyFlake, classifyFlake_with, flake_spec. fold (passes obs) (fails obs).
  pose proof (scored_length obs) as Hl. unfold count_scored in Hl.
  destruct (Nat.eqb_spec (length obs) 0) as [E|E].
  { assert (passes obs = 0) as -> by lia. assert (fails obs = 0) as -> by lia. done. }
  destruct (Nat.ltb_spec 0 (fails obs)), (Nat.ltb_spec 0 (passes obs)); cbn [andb].
  { destruct (Nat.eqb_spec (fails obs) 0), (Nat.eqb_spec (passes obs) 0); try lia. done. }
  all: cbn [minObservations FLAKE_STATISTICAL_POLICY]; destruct (Nat.ltb_spec (length obs) 3) as [Hm|_];
    [destruct (Nat.leb_spec 3 (passes obs)), (Nat.leb_spec 3 (fails obs)); try lia;
       by rewrite !andb_false_r|].
  1: assert (Hp : passes obs = 0) by lia; rewrite Hp.
  2,3: assert (Hf : fails obs = 0) by lia; rewrite Hf.
  all: cbn [sprtBounds andb Nat.eqb].
  - etransitivity; [by apply (ratio_decides _ _ true)|]. unfold count_scored. rewrite Hp. cbn [Nat.add].
    by rewrite andb_false_r.
  - etransitivity; [by apply (ratio_decides _ _ false)|]. unfold count_scored.
    rewrite Hf, Nat.add_0_r. by rewrite andb_false_r.
  - etransitivity; [by apply (ratio_decides _ _ false)|]. unfold count_scored.
    rewrite Hf, Nat.add_0_r. by rewrite andb_false_r.
Qed.

Lemma classify_pass obs : classifyFlake obs = stable_pass <-> stably_passing obs.
Proof.
  rewrite classifyFlake_exact. unfold flake_spec, stably_passing.
  destruct (Nat.eqb_spec (fails obs) 0), (Nat.leb_spec 3 (passes obs)), (Nat.eqb_spec (passes obs) 0),
    (Nat.leb_spec 3 (fails obs)); simpl; split; try done; lia.
Qed.

Lemma classify_fail obs : classifyFlake obs = stable_fail <-> stably_failing obs.
Proof.
  rewrite classifyFlake_exact. unfold flake_spec, stably_failing.
  destruct (Nat.eqb_spec (fails obs) 0), (Nat.leb_spec 3 (passes obs)), (Nat.eqb_spec (passes obs) 0),
    (Nat.leb_spec 3 (fails obs)); simpl; split; try done; lia.
Qed.

Lemma paired_pass baseline obs :
  pairedFlake baseline obs = stable_pass <-> stably_passing baseline /\ stably_passing obs.
Proof.
  unfold pairedFlake. rewrite <- !classify_pass.
  by destruct (classifyFlake obs), (classifyFlake baseline); simpl; naive_solver.
Qed.

Lemma paired_fail baseline obs :
  pairedFlake baseline obs = stable_fail <-> stably_passing baseline /\ stably_failing obs.
Proof.
  unfold pairedFlake. rewrite <- classify_pass, <- classify_fail.
  by destruct (classifyFlake obs), (classifyFlake baseline); simpl; naive_solver.
Qed.

(** The sequential probability ratio test amounts to a count: an outcome is stable exactly when
    at least three observations agree on it and none contradicts it (skipped ones are ignored), and
    a pair is a stable failure exactly when the baseline stably passes and the candidate stably
    fails. *)
Theorem classifyFlake_spec obs baseline :
  (classifyFlake obs = stable_pass <-> stably_passing obs) /\
  (classifyFlake obs = stable_fail <-> stably_failing obs) /\
  (pairedFlake baseline obs = stable_pass <-> stably_passing baseline /\ stably_passing obs) /\
  (pairedFlake baseline obs = stable_fail <-> stably_passing baseline /\ stably_failing obs).
Proof. split_and!; [apply classify_pass|apply classify_fail|apply paired_pass|apply paired_fail]. Qed.

(** ** Boolean filters *)

Lemma forallb_elem {A} (p : A -> bool) l : forallb p l = true <-> forall x, x ∈ l -> p x = true.
Proof. rewrite forallb_forall. by setoid_rewrite list_elem_of_In. Qed.

Lemma length_zero {A} (l : list A) : (length l =? 0)%nat = true <-> l = [].
Proof. rewrite Nat.eqb_eq. by destruct l. Qed.

(** ** Deciding *)

Definition accepting (input : DecideVerdictInput) : Prop :=
  integrityViolation input = false /\ sealsValid input = true /\ unresolvedBlockers input = false /\
  (exists item, item ∈ evaluations input /\ mandatory item = true) /\
  (forall item, item ∈ evaluations input -> mandatory item = true -> status item = PASS).

Definition condemned (item : ObligationEvaluation) : Prop :=
  mandatory item = true /\ status item = FAIL /\
  failCertainty item = Some CONFIRMED /\ failAttribution item = Some A_CANDIDATE.

Lemma confirmed_exists input :
  existsb (fun item => bool_decide (status item = FAIL) && bool_decide (failCertainty item = Some CONFIRMED) &&
    bool_decide (failAttribution item = Some A_CANDIDATE)) (List.filter mandatory (evaluations input)) = true <->
  exists item, item ∈ evaluations input /\ condemned item.
Proof.
  rewrite existsb_elem. unfold condemned. setoid_rewrite elem_of_List_filter.
  setoid_rewrite andb_true_iff. setoid_rewrite andb_true_iff. setoid_rewrite bool_decide_eq_true.
  naive_solver.
Qed.

Lemma decide_rejected input :
  decideVerdict input = REJECTED <->
  integrityViolation input = true \/ exists item, item ∈ evaluations input /\ condemned item.
Proof.
  rewrite <- confirmed_exists. unfold decideVerdict.
  destruct (integrityViolation input); [naive_solver|].
  destruct (existsb (fun item => _ && _ && _) _); [naive_solver|].
  split; [|naive_solver]. repeat case_match; done.
Qed.

Lemma decide_accepted input : decideVerdict input = ACCEPTED <-> accepting input.
Proof.
  unfold accepting. split.
  - unfold decideVerdict.
    destruct (integrityViolation input); [done|]. destruct (existsb (fun item => _ && _ && _) _); [done|].
    destruct (sealsValid input), (unresolvedBlockers input); try done. cbn [negb orb].
    destruct (length _ =? 0)%nat eqn:E0; [done|].
    destruct (existsb (fun item => bool_decide (status item = UNKNOWN)) _); [done|].
    destruct (existsb _ _); [done|]. destruct (forallb _ _) eqn:Ef; [|done]. intros _.
    split_and!; [done..| |].
    + destruct (List.filter mandatory (evaluations input)) as [|item l] eqn:El; [done|].
      exists item. apply elem_of_List_filter. rewrite El. by left.
    + intros item Hi Hm. rewrite forallb_elem in Ef.
      apply (bool_decide_eq_true_1 _), Ef. by apply elem_of_List_filter.
  - intros (Hi & Hs & Hb & (item & Hin & Hm) & Hp). unfold decideVerdict. rewrite Hi, Hs, Hb.
    assert (HP : forall x, x ∈ List.filter mandatory (evaluations input) -> status x = PASS).
    { intros x [??]%elem_of_List_filter. by apply Hp. }
    rewrite (proj2 (existsb_none _ _)); [|intros x ->%HP; done]. cbn [negb orb].
    destruct (List.filter mandatory (evaluations input)) as [|y l] eqn:El.
    { assert (item ∈ List.filter mandatory (evaluations input)) as Hx by (by apply elem_of_List_filter).
      rewrite El in Hx. set_solver. }
    cbn [length Nat.eqb].
    rewrite (proj2 (existsb_none _ _)); [|intros x ->%HP; done].
    rewrite (proj2 (existsb_none _ _)); [|intros x ->%HP; done].
    by rewrite (proj2 (forallb_elem _ _)); [|intros x ->%HP].
Qed.

(** ** What discharges an obligation *)

Definition related (adm : list EvidenceRecord) (o : ProofObligation) : list EvidenceRecord :=
  List.filter (fun item => bool_decide (ev_obligation item = obl_id o)) adm.

(** Supporting evidence that counts: a coverage report only supports existential claims. *)
Definition supported (adm : list EvidenceRecord) (o : ProofObligation) : Prop :=
  exists e, e ∈ related adm o /\ relation e = SUPPORTS /\
    (claimMode o = EXISTENTIAL \/ producerId e <> u "coverage").

Definition unrefuted (adm : list EvidenceRecord) (o : ProofObligation) : Prop :=
  forall e, e ∈ related adm o -> relation e <> REFUTES.

Definition scored (records : list EvidenceRecord) : list EvidenceRecord :=
  List.filter (fun item => negb (bool_decide (oracle item = RED_GREEN)) &&
                           negb (bool_decide (relation item = NEUTRAL))) records.
Definition baseline_observations (records : list EvidenceRecord) : list RunObservation :=
  all_observations (List.filter (fun item => is_baseline (subject item)) (scored records)).
Definition candidate_observations (records : list EvidenceRecord) : list RunObservation :=
  all_observations (List.filter (fun item => is_candidate (subject item)) (scored records)).

(** Stability: pooled per side when both sides were observed, otherwise record by record. *)
Definition steady (records : list EvidenceRecord) : Prop :=
  if decide (baseline_observations records <> [] /\ candidate_observations records <> [])
  then stably_passing (baseline_observations records) /\ stably_passing (candidate_observations records)
  else forall e, e ∈ scored records -> stably_passing (observations e).

Inductive Discharged (obls : list ProofObligation) (adm : list EvidenceRecord) : ProofObligation -> Prop :=
| discharged o :
    (forall o', o' ∈ obls -> obl_id o' ∈ prerequisites o -> Discharged obls adm o') ->
    supported adm o -> unrefuted adm o -> steady (related adm o) -> Discharged obls adm o.

Lemma positive_length {A} (l : list A) : (0 <? length l)%nat = bool_decide (l <> []).
Proof. destruct l; symmetry; [apply bool_decide_eq_false_2; by intros []|by apply bool_decide_eq_true_2]. Qed.

Lemma flakeStatus_paired records :
  flakeStatus records =
  if decide (baseline_observations records <> [] /\ candidate_observations records <> [])
  then pairedFlake (baseline_observations records) (candidate_observations records)
  else
    let classes := map (fun item => classifyFlake (observations item)) (scored records) in
    if existsb (fun c => bool_decide (c = unknown_instability)) classes then unknown_instability else
    if existsb (fun c => bool_decide (c = stable_fail)) classes then stable_fail else stable_pass.
Proof.
  unfold flakeStatus. fold (scored records). fold (baseline_observations records) (candidate_observations records).
  rewrite !positive_length, <- bool_decide_and. case_decide as Hd.
  - by rewrite bool_decide_eq_true_2 by done.
  - rewrite bool_decide_eq_false_2 by done. cbn zeta. by destruct (bool_decide _ && _).
Qed.

Lemma flakeStatus_pass records : flakeStatus records = stable_pass <-> steady records.
Proof.
  rewrite flakeStatus_paired. unfold steady. case_decide; [apply paired_pass|]. cbn zeta.
  setoid_rewrite <- classify_pass.
  destruct (existsb _ _) eqn:E1; [|destruct (existsb _ _) eqn:E2 in |- *].
  - apply existsb_elem in E1 as (c & (e & -> & He)%elem_of_map & Hc%bool_decide_eq_true).
    split; [done|]. intros H0. rewrite H0 in Hc by done. done.
  - apply existsb_elem in E2 as (c & (e & -> & He)%elem_of_map & Hc%bool_decide_eq_true).
    split; [done|]. intros H0. rewrite H0 in Hc by done. done.
  - split; [|done]. intros _ e He. rewrite existsb_none in E1, E2.
    assert (Hm : classifyFlake (observations e) ∈ map (fun item => classifyFlake (observations item)) (scored records)).
    { apply elem_of_map. eauto. }
    specialize (E1 _ Hm). specialize (E2 _ Hm). by destruct (classifyFlake (observations e)).
Qed.

Lemma flakeStatus_fail records :
  flakeStatus records = stable_fail ->
  exists used, used <> [] /\ used ⊆ scored records /\ stably_failing (all_observations used).
Proof.
  rewrite flakeStatus_paired. case_decide as Hd.
  - intros [_ Hf]%paired_fail. exists (List.filter (fun item => is_candidate (subject item)) (scored records)).
    split_and!; [|by intros e [??]%elem_of_List_filter|done].
    intros E. destruct Hd as [_ Hd]. apply Hd. unfold candidate_observations. by rewrite E.
  - cbn zeta. destruct (existsb _ _); [done|]. destruct (existsb _ _) eqn:E2; [|done]. intros _.
    apply existsb_elem in E2 as (c & (e & -> & He)%elem_of_map & Hc%bool_decide_eq_true).
    exists [e]. split_and!; [done|set_solver|]. unfold all_observations. simpl. rewrite app_nil_r.
    by apply classify_fail.
Qed.

Lemma no_counter records :
  classifyCounterevidence records = None <-> forall e, e ∈ records -> relation e <> REFUTES.
Proof.
  unfold classifyCounterevidence.
  destruct (length (List.filter (fun item => bool_decide (relation item = REFUTES)) records) =? 0)%nat eqn:E.
  - apply length_zero in E. split; [|done]. intros _ e He Hr.
    assert (e ∈ List.filter (fun item => bool_decide (relation item = REFUTES)) records) as Hx.
    { apply elem_of_List_filter. by rewrite Hr. }
    rewrite E in Hx. set_solver.
  - split; [repeat case_match; done|]. intros H. exfalso. apply not_true_iff_false in E. apply E, length_zero.
    destruct (List.filter _ records) as [|e l] eqn:El; [done|].
    assert (e ∈ List.filter (fun item => bool_decide (relation item = REFUTES)) records) as Hx by (rewrite El; by left).
    apply elem_of_List_filter in Hx as [He Hr%bool_decide_eq_true]. by destruct (H e).
Qed.

(** Confirmed counterevidence against the candidate. *)
Definition refuters (records : list EvidenceRecord) : list EvidenceRecord :=
  List.filter (fun item => is_candidate (subject item))
    (List.filter (fun item => bool_decide (relation item = REFUTES)) records).

Lemma confirmed_counter records :
  confirmed_candidate (classifyCounterevidence records) = true ->
  refuters records <> [] /\ (forall e, e ∈ refuters records -> weak_refutation e = false) /\
  stably_failing (all_observations (refuters records)).
Proof.
  unfold classifyCounterevidence. fold (refuters records).
  destruct (length _ =? 0)%nat; [done|]. destruct (existsb weak_refutation _) eqn:Ew; [done|].
  rewrite existsb_none in Ew.
  destruct (length (refuters records) =? 0)%nat eqn:E0; [done|].
  intros H. split; [|split; [done|]].
  { intros E. rewrite E in E0. done. }
  revert H. destruct (0 <? length _)%nat.
  - destruct (pairedFlake _ _) eqn:Ep; try done. intros _. by apply paired_fail in Ep as [_ ?].
  - rewrite <- classify_fail. destruct (classifyFlake (all_observations (refuters records))) eqn:Ec; try done.
    destruct (length (all_observations (refuters records)) =? 0)%nat eqn:El; [|by intros H; vm_compute in H]. apply length_zero in El. rewrite El in Ec. by vm_compute in Ec.
Qed.

Lemma supports_nil adm o :
  dischargingSupports o (List.filter (fun item => bool_decide (relation item = SUPPORTS)) (related adm o)) <> [] <->
  supported adm o.
Proof.
  unfold dischargingSupports, supported, isExistentialExample. split.
  - intros H. case_bool_decide as Hm;
      match type of H with ?l <> [] => destruct l as [|e l'] eqn:El; [done|]; assert (e ∈ l) as He by (rewrite El; by left) end.
    + apply elem_of_List_filter in He as [He Hr%bool_decide_eq_true]. exists e. tauto.
    + apply elem_of_List_filter in He as [[He Hr%bool_decide_eq_true]%elem_of_List_filter Hp].
      exists e. split_and!; [done|done|]. right. apply negb_true_iff in Hp. by apply bool_decide_eq_false in Hp.
  - intros (e & He & Hr & Hm) E.
    assert (Hf : e ∈ List.filter (fun item => bool_decide (relation item = SUPPORTS)) (related adm o)).
    { apply elem_of_List_filter. by rewrite Hr. }
    destruct (decide (claimMode o = EXISTENTIAL)) as [Hc|Hc].
    + rewrite bool_decide_eq_true_2 in E by done. rewrite E in Hf. set_solver.
    + rewrite bool_decide_eq_false_2 in E by done.
      assert (Hx : e ∈ List.filter (fun item => negb (bool_decide (producerId item = u "coverage")))
         (List.filter (fun item => bool_decide (relation item = SUPPORTS)) (related adm o))).
      { apply elem_of_List_filter. split; [done|]. apply negb_true_iff, bool_decide_eq_false. tauto. }
      rewrite E in Hx. set_solver.
Qed.

Lemma prerequisites_met (statuses : Statuses) pres :
  array_find (fun pre => negb (bool_decide (JsMap.get pre statuses = Some PASS))) pres = None <->
  forall pre, pre ∈ pres -> JsMap.get pre statuses = Some PASS.
Proof.
  split.
  - intros H pre Hp. apply array_find_none with (x := pre) in H; [|done].
    apply negb_false_iff in H. by apply bool_decide_eq_true in H.
  - intros H. destruct (array_find _ _) as [x|] eqn:E; [|done]. apply array_find_some in E as [Hx Hp].
    rewrite (H x Hx) in Hp. by rewrite bool_decide_eq_true_2 in Hp.
Qed.

Lemma evaluate_pass o statuses adm :
  status (evaluateObligation o statuses adm) = PASS <->
  (forall pre, pre ∈ prerequisites o -> JsMap.get pre statuses = Some PASS) /\
  supported adm o /\ unrefuted adm o /\ steady (related adm o).
Proof.
  unfold evaluateObligation. fold (related adm o). rewrite <- prerequisites_met, <- supports_nil, <- flakeStatus_pass.
  unfold unrefuted. rewrite <- no_counter.
  destruct (array_find _ _) as [pre|]; [by destruct (confirmed_candidate _); naive_solver|].
  destruct (classifyCounterevidence (related adm o)) as [c|].
  - split; [|naive_solver]. simpl. repeat case_match; done.
  - simpl. destruct (length _ =? 0)%nat eqn:E.
    + apply length_zero in E. rewrite E. naive_solver.
    + destruct (flakeStatus (related adm o)); simpl; split; try naive_solver. intros _.
      split_and!; try done. intros E'. by rewrite E' in E.
Qed.

(** A failing evaluation rests on admissible evidence that fails stably. *)
Definition rejection_basis (adm : list EvidenceRecord) (o : ProofObligation) : Prop :=
  exists used, used <> [] /\ used ⊆ related adm o /\ stably_failing (all_observations used) /\
    ((forall e, e ∈ used -> relation e = REFUTES /\ is_candidate (subject e) = true /\ weak_refutation e = false) \/
     (forall e, e ∈ used -> relation e = SUPPORTS /\ oracle e <> RED_GREEN)).

Lemma refuters_basis adm o :
  confirmed_candidate (classifyCounterevidence (related adm o)) = true -> rejection_basis adm o.
Proof.
  intros (Hn & Hw & Hf)%confirmed_counter. exists (refuters (related adm o)). split_and!; [done| |done|].
  - intros e [[? _]%elem_of_List_filter _]%elem_of_List_filter. done.
  - left. intros e He. split_and!; [| |by apply Hw].
    + apply elem_of_List_filter in He as [[_ Hr]%elem_of_List_filter _]. by apply bool_decide_eq_true in Hr.
    + by apply elem_of_List_filter in He as [_ ?].
Qed.

Lemma evaluate_fail o statuses adm :
  status (evaluateObligation o statuses adm) = FAIL -> rejection_basis adm o.
Proof.
  unfold evaluateObligation. fold (related adm o).
  destruct (array_find _ _) as [pre|]; destruct (confirmed_candidate _) eqn:Ec;
    try (intros _; by apply refuters_basis); [done|].
  destruct (classifyCounterevidence (related adm o)) as [c|] eqn:En; simpl; [repeat case_match; done|].
  destruct (length _ =? 0)%nat; [done|]. destruct (flakeStatus (related adm o)) eqn:Ef; try done. intros _.
  apply flakeStatus_fail in Ef as (used & Hn & Hs & Hf). rewrite no_counter in En.
  exists used. split_and!; [done| |done|].
  - intros e He. apply Hs in He. by apply elem_of_List_filter in He as [? _].
  - right. intros e He. apply Hs in He.
    apply elem_of_List_filter in He as [He [Ho Hr]%andb_true_iff]. apply negb_true_iff, bool_decide_eq_false in Ho, Hr.
    split; [|done]. specialize (En e He). by destruct (relation e).
Qed.

(** ** The evaluation loop *)

Lemma evaluate_local o st st' adm :
  (forall pre, pre ∈ prerequisites o -> JsMap.get pre st = JsMap.get pre st') ->
  evaluateObligation o st adm = evaluateObligation o st' adm.
Proof.
  intros H. unfold evaluateObligation.
  assert (array_find (fun pre => negb (bool_decide (JsMap.get pre st = Some PASS))) (prerequisites o) =
    array_find (fun pre => negb (bool_decide (JsMap.get pre st' = Some PASS))) (prerequisites o)) as ->; [|done].
  induction (prerequisites o) as [|pre pres IH]; simpl; [done|].
  rewrite H by set_solver. rewrite IH by set_solver. done.
Qed.

Lemma evaluate_loop adm L :
  NoDup (map obl_id L) ->
  (forall i o, L !! i = Some o -> prerequisites o ⊆ map obl_id (take i L)) ->
  exists st, foldl (evaluate_step adm) ([], []) L = (st, map (fun o => evaluateObligation o st adm) L) /\
    (forall o, o ∈ L -> JsMap.get (obl_id o) st = Some (status (evaluateObligation o st adm))).
Proof.
  induction L as [|o L IH] using rev_ind; intros Hn Hpre; [exists []; set_solver|].
  rewrite map_app in Hn. apply NoDup_app in Hn as (Hn & Hd & _). simpl in Hd.
  assert (HpreL : forall i x, L !! i = Some x -> prerequisites x ⊆ map obl_id (take i L)).
  { intros i x Hx. pose proof (lookup_lt_Some _ _ _ Hx). specialize (Hpre i x).
    rewrite lookup_app_l, take_app_le in Hpre by lia. auto. }
  destruct (IH Hn HpreL) as (st & Hf & Hst).
  set (v := status (evaluateObligation o st adm)). exists (JsMap.set (obl_id o) v st).
  assert (Hkeep : forall x, prerequisites x ⊆ map obl_id L ->
    evaluateObligation x (JsMap.set (obl_id o) v st) adm = evaluateObligation x st adm).
  { intros x Hx. apply evaluate_local. intros pre Hp. apply JsMap.get_set_ne. intros ->.
    apply (Hd (obl_id o)); [by apply Hx|by left]. }
  assert (HinL : forall x, x ∈ L -> prerequisites x ⊆ map obl_id L).
  { intros x [i Hi]%list_elem_of_lookup d Hd'. apply (HpreL i x Hi) in Hd'.
    rewrite map_take in Hd'. by eapply subseteq_take. }
  assert (Ho : prerequisites o ⊆ map obl_id L).
  { specialize (Hpre (length L) o). rewrite take_app_length in Hpre. apply Hpre.
    rewrite lookup_app_r, Nat.sub_diag by lia. done. }
  rewrite foldl_app, Hf. simpl. split.
  - f_equal. rewrite map_app. simpl. rewrite Hkeep by done. f_equal.
    apply map_ext_in. intros x Hx%list_elem_of_In. symmetry. by apply Hkeep, HinL.
  - intros x [Hx|Hx%list_elem_of_singleton]%elem_of_app.
    + rewrite JsMap.get_set_ne, Hkeep; [by apply Hst|by apply HinL|].
      intros E. apply (Hd (obl_id x)); [apply elem_of_map; eauto|]. rewrite E. by left.
    + subst x. by rewrite JsMap.get_set_eq, Hkeep.
Qed.

Section Plan.
Context (obls : list ProofObligation) (checks : list CheckNode).
Context (Hplan : assertAcyclicPlan obls checks = Ok tt).

Lemma plan_ids : NoDup (map obl_id obls).
Proof using Hplan.
  apply accepted_plan in Hplan as [_ [[Hn _] _]]. unfold obligation_graph in Hn. by rewrite graph_ids in Hn.
Qed.

Lemma plan_ordered :
  exists out, topologicalObligations obls = Some out /\ out ≡ₚ obls /\
    forall i o, out !! i = Some o -> prerequisites o ⊆ map obl_id (take i out).
Proof using Hplan. apply accepted_plan in Hplan as [[HO _] [GO _]]. by apply topological_of. Qed.

Lemma same_obligation o o' : o ∈ obls -> o' ∈ obls -> obl_id o = obl_id o' -> o = o'.
Proof using Hplan.
  intros Ho Ho' E. pose proof (by_id_get obl_id prerequisites [] obls o plan_ids Ho) as H1.
  pose proof (by_id_get obl_id prerequisites [] obls o' plan_ids Ho') as H2. rewrite E in H1. congruence.
Qed.

(** The loop computes exactly the discharged obligations. *)
Lemma evaluations_exact adm out :
  topologicalObligations obls = Some out ->
  exists f : ProofObligation -> ObligationEvaluation,
    evaluate_all adm out = map f out /\ out ≡ₚ obls /\
    (forall o, mandatory (f o) = obl_mandatory o) /\
    (forall o, o ∈ obls -> status (f o) = PASS <-> Discharged obls adm o) /\
    (forall o, status (f o) = FAIL -> rejection_basis adm o).
Proof using Hplan.
  intros Ho. destruct plan_ordered as (out' & Ho' & Hp & Hord). rewrite Ho in Ho'. injection Ho' as <-.
  destruct (evaluate_loop adm out) as (st & Hf & Hst); [rewrite Hp; apply plan_ids|done|].
  exists (fun o => evaluateObligation o st adm). split_and!.
  - unfold evaluate_all. by rewrite Hf.
  - done.
  - intros o. unfold evaluateObligation. repeat case_match; done.
  - intros o Hin. split.
    + assert (o ∈ out) as [i Hi]%list_elem_of_lookup by (by rewrite Hp). clear Hin. revert o Hi.
      induction (lt_wf i) as [i _ IH]; intros o Hi (Hpre & Hsup & Hun & Hst')%evaluate_pass.
      constructor; [|done..]. intros o' Ho' Hpo.
      pose proof (Hord i o Hi _ Hpo) as (x & Hx & [j Hj]%list_elem_of_lookup)%elem_of_map.
      apply lookup_take_Some in Hj as [Hj Hlt].
      assert (o' = x) as <-.
      { apply same_obligation; [done| |done]. rewrite <- Hp. by eapply list_elem_of_lookup_2. }
      apply (IH j Hlt o' Hj). specialize (Hpre _ Hpo). rewrite Hst in Hpre; [congruence|].
      by eapply list_elem_of_lookup_2.
    + induction 1 as [o Hpre IH Hsup Hun Hstd]. apply evaluate_pass. split_and!; try done.
      intros pre Hpo. assert (pre ∈ map obl_id out) as (x & -> & Hx)%elem_of_map.
      { assert (o ∈ out) as [i Hi]%list_elem_of_lookup by (by rewrite Hp).
        apply (Hord i o Hi) in Hpo. rewrite map_take in Hpo. by eapply subseteq_take. }
      rewrite Hst by done. f_equal. apply IH; [by rewrite <- Hp|done|by rewrite <- Hp].
  - intros o. apply evaluate_fail.
Qed.
End Plan.

Section Verdict.
Context {DD : Doubles} {HH : Hashing}.

Lemma report_decided input report :
  compileVerdictReport input = Some (Ok report) ->
  exists out, topologicalObligations (plan_obligations input) = Some out /\
    verdict report = decideVerdict (mkDecide
      (evaluate_all (admissibleRecords (evidence input) (assessments input)) out)
      (in_integrityViolation input) (in_sealsValid input) (in_unresolvedBlockers input)) /\
    workflow report = workflowState (verdict report).
Proof.
  unfold compileVerdictReport. destruct (topologicalObligations _) as [out|]; [|done].
  cbn [mbind option_bind]. intros H%(inj Some). exists out. split; [done|]. inv_ok. done.
Qed.

Lemma accepted_iff input checks report :
  assertAcyclicPlan (plan_obligations input) checks = Ok tt ->
  compileVerdictReport input = Some (Ok report) ->
  verdict report = ACCEPTED <->
    in_integrityViolation input = false /\ in_sealsValid input = true /\ in_unresolvedBlockers input = false /\
    (exists o, o ∈ plan_obligations input /\ obl_mandatory o = true) /\
    (forall o, o ∈ plan_obligations input -> obl_mandatory o = true ->
       Discharged (plan_obligations input) (admissibleRecords (evidence input) (assessments input)) o).
Proof.
  intros Hplan (out & Ho & -> & _)%report_decided. rewrite decide_accepted. unfold accepting.
  cbn [integrityViolation sealsValid unresolvedBlockers evaluations].
  set (adm := admissibleRecords _ _).
  destruct (evaluations_exact _ _ Hplan adm out Ho) as (f & -> & Hp & Hm & Hs & _).
  assert (Hin' : forall o, o ∈ out <-> o ∈ plan_obligations input) by (intros o; by rewrite Hp).
  setoid_rewrite elem_of_map.
  split; intros (A & B & C & H1 & H2); refine (conj A (conj B (conj C (conj _ _)))).
  - destruct H1 as (item & (o & -> & Hin) & Hman). exists o. rewrite Hm in Hman.
    split; [|done]. by apply Hin'.
  - intros o Hin Hman. apply Hs; [done|]. apply H2; [|by rewrite Hm]. exists o. by rewrite Hin'.
  - destruct H1 as (o & Hin & Hman). exists (f o). rewrite Hm. split; [|done]. exists o. by rewrite Hin'.
  - intros item (o & -> & Hin) Hman. rewrite Hin' in Hin. apply Hs; [done|]. apply H2; [done|]. by rewrite <- Hm.
Qed.

Lemma accepted_discharged input checks report :
  assertAcyclicPlan (plan_obligations input) checks = Ok tt ->
  compileVerdictReport input = Some (Ok report) -> verdict report = ACCEPTED ->
  forall o, o ∈ plan_obligations input -> obl_mandatory o = true ->
    Discharged (plan_obligations input) (admissibleRecords (evidence input) (assessments input)) o.
Proof. intros Hp Hr Ha. by apply (accepted_iff input checks report Hp Hr) in Ha as (_ & _ & _ & _ & ?). Qed.

(** C1: a candidate is ACCEPTED exactly when there was no integrity violation, the seals are valid,
    no blocker is unresolved, the plan has a mandatory obligation, and every mandatory obligation
    is discharged: all its prerequisites are discharged, some admissible evidence supports it (a
    coverage report only counts for existential claims), no admissible evidence refutes it, and the
    observations behind the evidence are stable passes.  Exactly then the workflow is terminal. *)
Theorem verdict_accepted input checks report :
  assertAcyclicPlan (plan_obligations input) checks = Ok tt ->
  compileVerdictReport input = Some (Ok report) ->
  (verdict report = ACCEPTED <->
    in_integrityViolation input = false /\ in_sealsValid input = true /\ in_unresolvedBlockers input = false /\
    (exists o, o ∈ plan_obligations input /\ obl_mandatory o = true) /\
    (forall o, o ∈ plan_obligations input -> obl_mandatory o = true ->
       Discharged (plan_obligations input) (admissibleRecords (evidence input) (assessments input)) o)) /\
  (workflow report = TERMINAL <-> verdict report = ACCEPTED).
Proof.
  intros Hp Hr. split; [by apply (accepted_iff _ checks)|].
  apply report_decided in Hr as (out & _ & _ & ->). by destruct (verdict report).
Qed.

(** A candidate is REJECTED only for an integrity violation, or for a mandatory obligation
    against which admissible evidence holds at least three failing observations and no passing one;
    that evidence either refutes the obligation on the candidate without being the candidate's own
    test or an unauthorized user statement, or it is supporting evidence whose observations fail. *)
Theorem verdict_rejected input checks report :
  assertAcyclicPlan (plan_obligations input) checks = Ok tt ->
  compileVerdictReport input = Some (Ok report) -> verdict report = REJECTED ->
  in_integrityViolation input = true \/
  exists o, o ∈ plan_obligations input /\ obl_mandatory o = true /\
    rejection_basis (admissibleRecords (evidence input) (assessments input)) o.
Proof.
  intros Hplan (out & Ho & -> & _)%report_decided [?|(item & Hin & Hman & Hst & _)]%decide_rejected; [by left|right].
  cbn [evaluations] in Hin. set (adm := admissibleRecords _ _) in *.
  destruct (evaluations_exact _ _ Hplan adm out Ho) as (f & Hf & Hp & Hm & _ & Hfail).
  rewrite Hf in Hin. apply elem_of_map in Hin as (o & -> & Hin). rewrite Hp in Hin.
  exists o. split_and!; [done|by rewrite <- Hm|by apply Hfail].
Qed.
End Verdict.

(** ** Admissibility *)

Section Admissibility.
Context {DD : Doubles} {HH : Hashing} {KeyObject : Type}.
Context (cryptoVerify : bytes -> KeyObject -> ustr -> bool).
Implicit Types (ctx : @AssessContext DD KeyObject) (e : EvidenceRecord).

(** What the assessment promises of a record it calls admissible. *)
Record admissible_evidence ctx e : Prop := {
  adm_not_model : origin e <> LOCAL_MODEL;
  adm_not_cloud : origin e <> CLOUD_CLAIM;
  adm_baseline : baselineSealObjectDigest e = ctx_baselineSeal ctx;
  adm_environment : environmentSealObjectDigest e = ctx_environmentSeal ctx;
  adm_producer : producerId e ∈ producerIds ctx;
  adm_candidate manifest expected :
    subject e = CANDIDATE manifest -> ctx_candidateManifest ctx = Some expected -> manifest = expected;
  adm_observations o : o ∈ observations e ->
    exists signed, observationSignature o = Ok signed /\ obs_signature o = obs_signature signed;
  adm_envelope : envelopeChainValid cryptoVerify e ctx = Ok true;
  adm_artifacts : artifactIntegrityValid e ctx = true;
  adm_unmutated ids : mutatedEvidenceIds ctx = Some ids -> ev_id e ∉ ids
}.

Lemma push_if_nil b text reasons : push_if b text reasons = [] <-> b = false /\ reasons = [].
Proof. unfold push_if. destruct b; [|naive_solver]. split; [by destruct reasons|naive_solver]. Qed.

Lemma observations_valid items :
  observationsValid items = Ok true <->
  forall o, o ∈ items -> exists signed, observationSignature o = Ok signed /\ obs_signature o = obs_signature signed.
Proof.
  induction items as [|o items IH]; cbn [observationsValid]; [set_solver|].
  destruct (observationSignature o) as [signed|err] eqn:E; cbn [of_digest rbind].
  - case_bool_decide as Hs.
    + split; [done|]. intros H. destruct (H o) as (s & Hs' & Ho); [by left|]. congruence.
    + rewrite IH. split.
      * intros H x [->|Hx]%elem_of_cons; [|by apply H]. exists signed. split; [done|].
        destruct (decide (obs_signature o = obs_signature signed)); [done|tauto].
      * intros H x Hx. apply H. by right.
  - split; [done|]. intros H. destruct (H o) as (s & Hs & _); [by left|]. congruence.
Qed.

Lemma assess_exact ctx e a :
  assessEvidence cryptoVerify e ctx = Ok a ->
  evidenceId a = ev_id e /\ (is_admissible a = true <-> admissible_evidence ctx e).
Proof.
  unfold assessEvidence. intros H.
  apply rbind_ok in H as (chain & Hchain & H). apply rbind_ok in H as (envs & Henv & H).
  injection H as <-. split; [done|]. unfold is_admissible. cbn [assessment].
  match goal with |- context [(0 <? length ?l)%nat] => set (rs := l) end.
  assert (Hrs : match (if (0 <? length rs)%nat then INADMISSIBLE rs else ADMISSIBLE) with
                | ADMISSIBLE => true | INADMISSIBLE _ => false end = true <-> rs = []).
  { by destruct rs. }
  rewrite Hrs. unfold rs, forbiddenOrigins. cbn [foldl requireBaselineSealMatch requireProducerRegistry andb].
  clear Hrs rs. unfold observationChainValid in Hchain.
  rewrite !push_if_nil. rewrite !negb_false_iff. split.
  - intros (Hmut & Hart & -> & -> & Hrest).
    assert (Hsub : (forall manifest expected, subject e = CANDIDATE manifest ->
        ctx_candidateManifest ctx = Some expected -> manifest = expected) /\
      push_if (bool_decide (origin e = CLOUD_CLAIM)) (u "origin:" ++ origin_text CLOUD_CLAIM)
        (push_if (bool_decide (origin e = LOCAL_MODEL)) (u "origin:" ++ origin_text LOCAL_MODEL) []) = [] /\
      baselineSealObjectDigest e = ctx_baselineSeal ctx /\
      environmentSealObjectDigest e = ctx_environmentSeal ctx /\ producerId e ∈ producerIds ctx).
    { destruct (subject e) as [|manifest]; rewrite ?push_if_nil in Hrest; rewrite ?push_if_nil;
        rewrite ?bool_decide_eq_false, ?negb_false_iff, ?includes_true in Hrest; rewrite ?bool_decide_eq_false.
      - destruct Hrest as (? & ? & ? & ? & ? & _). split_and!; try done; by apply dec_stable.
      - destruct Hrest as (Hm & ? & ? & ? & ? & ? & _). split_and!; try done; try by apply dec_stable.
        intros m expected [= <-] Hc. rewrite Hc in Hm. apply bool_decide_eq_false in Hm. by apply dec_stable. }
    destruct Hsub as (Hc & Ho & Hb & He & Hp). rewrite !push_if_nil, !bool_decide_eq_false in Ho.
    destruct Ho as (? & ? & _).
    constructor; try done; [by apply observations_valid|].
    intros ids Hids. rewrite Hids in Hmut. by apply includes_false in Hmut.
  - intros [Hm Hc Hb He Hp Hs Ho Hv Ha Hu].
    apply observations_valid in Ho. assert (chain = true) as -> by congruence.
    assert (envs = true) as -> by congruence.
    split_and!; try done.
    + destruct (mutatedEvidenceIds ctx) as [ids|]; [|done]. apply includes_false. by apply Hu.
    + destruct (subject e) as [|manifest]; rewrite !push_if_nil, !bool_decide_eq_false, negb_false_iff, includes_true;
        split_and!; try done; try (intros ?; congruence).
      destruct (ctx_candidateManifest ctx) as [expected|]; [|done]. apply bool_decide_eq_false.
      intros Hne. apply Hne. by apply Hs.
Qed.

Lemma elem_of_admissible records assessments e :
  e ∈ admissibleRecords records assessments <->
  e ∈ records /\ exists a, a ∈ assessments /\ is_admissible a = true /\ evidenceId a = ev_id e.
Proof.
  unfold admissibleRecords. rewrite elem_of_List_filter, includes_true, elem_of_map.
  setoid_rewrite elem_of_List_filter. naive_solver.
Qed.

(** With distinct ids, the records that get through are the admissible ones. *)
Lemma admissible_exact ctx records assessments :
  NoDup (map ev_id records) -> assessAll cryptoVerify records ctx = Ok assessments ->
  forall e, e ∈ admissibleRecords records assessments <-> e ∈ records /\ admissible_evidence ctx e.
Proof.
  intros Hn Ha e. rewrite elem_of_admissible. apply rmap_ok in Ha. split.
  - intros (He & a & Hin & Had & Hid). split; [done|].
    apply list_elem_of_lookup in Hin as [i Hi].
    destruct (Forall2_lookup_r _ _ _ _ _ Ha Hi) as (e' & Hi' & He').
    destruct (assess_exact ctx e' a He') as [Hid' Hadm].
    assert (e = e') as ->; [|by apply Hadm].
    apply list_elem_of_lookup in He as [j Hj].
    assert (i = j) as ->; [|congruence].
    apply (NoDup_lookup _ i j (ev_id e) Hn); rewrite lookup_map; [rewrite Hi'|rewrite Hj]; simpl; congruence.
  - intros [He Had]. split; [done|]. apply list_elem_of_lookup in He as [i Hi].
    destruct (Forall2_lookup_l _ _ _ _ _ Ha Hi) as (a & Hi' & He').
    destruct (assess_exact ctx e a He') as [Hid Hadm].
    exists a. split; [by eapply list_elem_of_lookup_2|]. by rewrite Hadm.
Qed.

(** C2: end to end: when the evidence is assessed by the policy and its ids are distinct, an
    ACCEPTED verdict means that every mandatory obligation is supported by a record of a registered
    producer that is bound to the sealed baseline, environment and candidate, whose observations
    and artifacts are intact, and that is neither a model's nor the cloud's own claim; and that no
    such record refutes it. *)
Theorem accepted_on_admissible_evidence input checks report ctx :
  assertAcyclicPlan (plan_obligations input) checks = Ok tt ->
  compileVerdictReport input = Some (Ok report) ->
  NoDup (map ev_id (evidence input)) ->
  assessAll cryptoVerify (evidence input) ctx = Ok (assessments input) ->
  verdict report = ACCEPTED ->
  forall o, o ∈ plan_obligations input -> obl_mandatory o = true ->
    (exists e, e ∈ evidence input /\ ev_obligation e = obl_id o /\ relation e = SUPPORTS /\
               admissible_evidence ctx e) /\
    (forall e, e ∈ evidence input -> ev_obligation e = obl_id o -> admissible_evidence ctx e ->
               relation e <> REFUTES).
Proof.
  intros Hplan Hrep Hn Ha Hacc o Ho Hm.
  pose proof (admissible_exact ctx _ _ Hn Ha) as Hadm.
  destruct (accepted_discharged input checks report Hplan Hrep Hacc o Ho Hm) as [o _ Hsup Hun _].
  split.
  - destruct Hsup as (e & [He Hid%bool_decide_eq_true]%elem_of_List_filter & Hr & _).
    apply Hadm in He as [He Hae]. by exists e.
  - intros e He Hid Hae. apply Hun, elem_of_List_filter. split; [by apply Hadm|by apply bool_decide_eq_true].
Qed.
End Admissibility.

(** ** Concrete verdicts *)

Definition digest_hash : Hashing := {| sha256_hex := fun bs => bs |}.
#[local] Existing Instance half_doubles.
#[local] Existing Instance digest_hash.

Definition observed (s : ObservationState) (attempt : Z) : RunObservation :=
  let o := mkObservation attempt None s None (Some 0%Z) 5 None None in
  match observationSignature o with Ok signed => signed | Err _ => o end.

Definition sample_record (id obligation : ustr) (r : Relation) (o : Origin) (m : ustr)
    (states : list ObservationState) : EvidenceRecord :=
  mkEvidence id obligation r o (u "group") REGRESSION (u "baseline") (CANDIDATE m) (u "junit")
    (u "v1") (u "env") (imap (fun i s => observed s (Z.of_nat i)) states) [].

Definition three (s : ObservationState) : list ObservationState := [s; s; s].

Definition sample_context : AssessContext (KeyObject := unit) :=
  mkContext (u "baseline") (Some (u "c1")) (u "env") [u "junit"] None None None None.
Definition never (_ : bytes) (_ : unit) (_ : ustr) : bool := false.

Definition sample_obligations : list ProofObligation :=
  [sample_obligation (u "b") [u "a"]; sample_obligation (u "a") []].

Definition sample_input (ev : list EvidenceRecord) : CompileVerdictInput :=
  mkCompile sample_obligations (u "baseline") (u "plan") ev
    (match assessAll never ev sample_context with Ok l => l | Err _ => [] end)
    (CHANGESET (u "c1")) false true false.

Definition report_of (input : CompileVerdictInput) : VerdictReport :=
  match compileVerdictReport input with
  | Some (Ok r) => r
  | _ => mkReport INCONCLUSIVE [] (CHANGESET []) [] [] [] [] [] REPAIRABLE
  end.

Definition good_evidence : list EvidenceRecord :=
  [sample_record (u "e1") (u "a") SUPPORTS O_VERIFIER (u "c1") (three PASSED);
   sample_record (u "e2") (u "b") SUPPORTS INDEPENDENT_TOOL (u "c1") (three PASSED);
   sample_record (u "e3") (u "b") REFUTES CLOUD_CLAIM (u "c1") (three OBS_FAILED)].
Definition bad_evidence : list EvidenceRecord :=
  [sample_record (u "e1") (u "a") SUPPORTS O_VERIFIER (u "c1") (three PASSED);
   sample_record (u "e2") (u "b") REFUTES INDEPENDENT_TOOL (u "c1") (three OBS_FAILED)].

Lemma verdict_accepted_witness :
  verdict (report_of (sample_input good_evidence)) = ACCEPTED /\
  Discharged sample_obligations
    (admissibleRecords good_evidence (assessments (sample_input good_evidence)))
    (sample_obligation (u "b") [u "a"]).
Proof.
  split; [vm_compute; reflexivity|].
  apply (verdict_accepted (sample_input good_evidence) [] (report_of (sample_input good_evidence)));
    [vm_compute; reflexivity|vm_compute; reflexivity|vm_compute; reflexivity|by left|done].
Defined.

Lemma accepted_on_admissible_evidence_witness :
  exists e, e ∈ good_evidence /\ ev_obligation e = u "b" /\ relation e = SUPPORTS /\
    admissible_evidence never sample_context e.
Proof.
  apply (accepted_on_admissible_evidence never (sample_input good_evidence) []
    (report_of (sample_input good_evidence)) sample_context) with (o := sample_obligation (u "b") [u "a"]);
    [vm_compute; reflexivity|vm_compute; reflexivity|by apply (bool_decide_unpack _); vm_compute
    |vm_compute; reflexivity|vm_compute; reflexivity|by left|done].
Defined.

Lemma verdict_rejected_witness :
  verdict (report_of (sample_input bad_evidence)) = REJECTED /\
  exists o, o ∈ sample_obligations /\ obl_mandatory o = true /\
    rejection_basis (admissibleRecords bad_evidence (assessments (sample_input bad_evidence))) o.
Proof.
  split; [vm_compute; reflexivity|].
  destruct (verdict_rejected (sample_input bad_evidence) [] (report_of (sample_input bad_evidence)))
    as [H|H]; [vm_compute; reflexivity|vm_compute; reflexivity|vm_compute; reflexivity|discriminate H|exact H].
Defined.

(** Admission goes by id: a record that was assessed INADMISSIBLE (it is about another candidate)
    discharges the obligation because an unrelated admissible record has the same id. *)
Lemma shared_id_admits :
  let ev := [sample_record (u "e1") (u "a") SUPPORTS O_VERIFIER (u "c0") (three PASSED);
             sample_record (u "e1") (u "z") NEUTRAL O_VERIFIER (u "c1") [];
             sample_record (u "e2") (u "b") SUPPORTS O_VERIFIER (u "c1") (three PASSED)] in
  verdict (report_of (sample_input ev)) = ACCEPTED /\
  map is_admissible (assessments (sample_input ev)) = [false; true; true].
Proof. vm_compute. done. Qed.

(** Refuting evidence without observations is never confirmed: the test for an empty list of
    observations comes after the classifier, which calls the empty list unstable. *)
Lemma refutation_without_observations e :
  relation e = REFUTES -> is_candidate (subject e) = true -> weak_refutation e = false -> observations e = [] ->
  is_baseline (subject e) = false ->
  classifyCounterevidence [e] = Some (mkCounter A_CANDIDATE UNRESOLVED (u "TEST_FLAKY")).
Proof.
  intros Hr Hc Hw Ho Hb. unfold classifyCounterevidence, all_observations. cbn [List.filter].
  rewrite Hr. cbn [List.filter]. rewrite bool_decide_eq_true_2 by done. cbn [List.filter length Nat.eqb].
  rewrite Hc, Hb. cbn [andb existsb length Nat.eqb map concat]. rewrite Hw, Ho. vm_compute. done.
Qed.

(** Failing observations of baseline records alone are attributed to the candidate. *)
Lemma baseline_failure_blames_candidate :
  let e := mkEvidence (u "e") (u "a") SUPPORTS O_VERIFIER (u "g") REGRESSION (u "baseline")
             (BASELINE (u "s") (u "r")) (u "junit") (u "v1") (u "env")
             (imap (fun i s => observed s (Z.of_nat i)) (three OBS_FAILED)) [] in
  let evaluation := evaluateObligation (sample_obligation (u "a") []) [] [e] in
  status evaluation = FAIL /\ failAttribution evaluation = Some A_CANDIDATE /\
  failCertainty evaluation = Some CONFIRMED.
Proof. vm_compute. done. Qed.
