(* ===== verification/RepairTheorems.v ===== *)
(** Repair packets: the clusters of failures are the connected components of the graph of shared
    obligations, and a packet that is built accounts for every failure, separates passing from
    unresolved obligations and carries every artifact under the digest of its content. *)

From stdpp Require Import relations.
From Stdlib Require Import String.
From S2P Require Import Prelude JsText CanonicalJson CanonicalJsonTheorems JsJson Digest Plan PlanTheorems PlanRevise UnionFind RepairPacket Evidence Verdict.
Open Scope string_scope.
Open Scope list_scope.

(** ** Clusters *)

Lemma share_obligation_sym f g : share_obligation f g = true -> share_obligation g f = true.
Proof.
  unfold share_obligation. rewrite !existsb_exists. intros (x & Hx & Hin%includes_true). exists x. split; [by apply list_elem_of_In|].
  apply includes_true. by apply list_elem_of_In.
Qed.

(** C38: clustering always terminates, and its clusters are the connected components of "shares an
    obligation": there is a labelling of the failures whose classes are exactly the equivalence
    closure of sharing, and the clusters are, in order of first appearance, the failures with one
    label.  Every failure is in exactly one cluster and no cluster is empty. *)
Theorem clusterFailures_exact fs :
  exists L groups,
    (forall i j, i < length fs -> j < length fs -> L i = L j <-> rtsc (fun a b => linked_at share_obligation fs a b = true) i j) /\
    clusterFailures fs = Some groups /\
    groups = map (fun r => map snd (with_label (fun e => L e.1) r (indexed fs)))
               (uniq (map (fun e => L e.1) (indexed fs))) /\
    concat groups ≡ₚ fs /\ Forall (fun g => g <> []) groups.
Proof. apply cluster_by_components, share_obligation_sym. Qed.

(** ** Texts of a value *)

(** Every string of a JSON value that is not the name of a property. *)
Fixpoint texts `{Doubles} (v : jsvalue) : list ustr :=
  match v with
  | VStr s => [s]
  | VArr items => concat (map texts items)
  | VObj fields => concat (map (fun kv => texts (snd kv)) fields)
  | _ => []
  end.

(** Text that JSON prints as it is: no quote, backslash or control character, and no half of a surrogate pair. *)
Definition prints_plainly (s : ustr) : Prop := Forall (fun c => c <> 34 /\ c <> 92 /\ 32 <= c)%N s /\ hasUnpairedSurrogate s = false.

Lemma includes_text_infix p s : p <> [] -> includes_text p s = true <-> exists a b, s = a ++ p ++ b.
Proof.
  intros Hp. unfold includes_text. induction s as [|c s IH]; cbn [indexOf].
  - split; [done|]. intros (a & b & H). by destruct a, p.
  - destruct (startsWith p (c :: s)) eqn:E.
    + apply startsWith_app in E as [r E]. split; [intros _; by exists [], r | done].
    + assert (match S <$> indexOf p s with Some _ => true | None => false end = match indexOf p s with Some _ => true | None => false end) as -> by (by destruct (indexOf p s)).
      rewrite IH. split; intros (a & b & H); [exists (c :: a), b; by rewrite H|]. destruct a as [|a0 a].
      * exfalso. assert (startsWith p (c :: s) = true) by (apply startsWith_app; by exists b). congruence.
      * injection H as -> ->. by exists a, b.
Qed.

Definition low_headed (s : ustr) : bool := match s with c :: _ => is_low c | [] => false end.

Lemma high_not_low c : is_high c = true -> is_low c = false.
Proof. unfold is_high, is_low. lia. Qed.

Lemma stringify_before a r : low_headed r = false -> stringify_body (a ++ r) = stringify_body a ++ stringify_body r.
Proof.
  intros Hr. remember (length a) as n eqn:Hn. assert (length a <= n) as Hle by lia. clear Hn. revert a Hle.
  induction n as [|n IH]; intros [|c a] Hle; cbn [length] in Hle; [done | lia | done|]. cbn [app stringify_body]. destruct (is_high c) eqn:Eh.
  - destruct a as [|lo a]; cbn [app].
    + destruct r as [|d r]; [by rewrite app_nil_r|]. cbn [low_headed] in Hr. by rewrite Hr.
    + cbn [length] in Hle. destruct (is_low lo); [by rewrite IH by lia|]. rewrite <- app_assoc. f_equal. apply (IH (lo :: a)). cbn [length]. lia.
  - destruct (is_low c); rewrite IH, app_assoc by lia; done.
Qed.

Lemma stringify_after s b : hasUnpairedSurrogate s = false -> stringify_body (s ++ b) = stringify_body s ++ stringify_body b.
Proof.
  remember (length s) as n eqn:Hn. assert (length s <= n) as Hle by lia. clear Hn. revert s Hle.
  induction n as [|n IH]; intros [|c s] Hle Hs; cbn [length] in Hle; [done | lia | done|]. cbn [app hasUnpairedSurrogate stringify_body] in *. destruct (is_high c) eqn:Eh.
  - destruct s as [|lo s]; [done|]. cbn [app length] in *. destruct (is_low lo); [|done]. by rewrite IH by (lia || done).
  - destruct (is_low c); [done|]. by rewrite IH, app_assoc by (lia || done).
Qed.

Lemma paired_head s b : s <> [] -> hasUnpairedSurrogate s = false -> low_headed (s ++ b) = false.
Proof.
  destruct s as [|c s]; [done|]. cbn [hasUnpairedSurrogate low_headed app]. intros _ Hs. destruct (is_high c) eqn:E; [by apply high_not_low | by destruct (is_low c)].
Qed.

Lemma quote_plain s : Forall (fun c => c <> 34 /\ c <> 92 /\ 32 <= c)%N s -> quote_body s = s.
Proof.
  unfold quote_body. induction 1 as [|c s (H1 & H2 & H3) _ IH]; [done|]. cbn [map concat]. rewrite IH. unfold quote_unit.
  repeat (rewrite (proj2 (N.eqb_neq c _)) by lia). by rewrite (proj2 (N.ltb_ge c 32)) by lia.
Qed.

(** Plain text in a string is in what JSON prints for the string. *)
Lemma plain_printed s t : prints_plainly s -> s <> [] -> includes_text s t = true -> includes_text s (JSON_string t) = true.
Proof.
  intros [Hp Hu] Hne (a & b & ->)%includes_text_infix; [|done]. apply includes_text_infix; [done|]. unfold JSON_string.
  rewrite (stringify_before a (s ++ b)), (stringify_after s b), (stringify_body_paired s), (quote_plain s) by (done || by apply paired_head).
  exists (34%N :: stringify_body a), (stringify_body b ++ [34%N]). cbn [app]. by rewrite <- !app_assoc.
Qed.

Lemma joined_infix c x parts : x ∈ parts -> exists a b, join_unit c parts = a ++ x ++ b.
Proof.
  induction parts as [|y parts IH]; [by intros ?%not_elem_of_nil|]. destruct parts as [|z parts]; [intros ->%list_elem_of_singleton; exists [], []; by rewrite app_nil_r|].
  rewrite join_unit_cons by done. intros [->|Hx]%elem_of_cons; [by exists [], (c :: join_unit c (z :: parts))|].
  destruct (IH Hx) as (a & b & ->). exists (y ++ c :: a), b. by rewrite <- app_assoc.
Qed.

(** JSON text contains the printed form of every string of the value. *)
Lemma text_printed `{Doubles} v t : t ∈ texts v -> exists a b, JSON_stringify v = a ++ JSON_string t ++ b.
Proof.
  induction v as [| | | |b|n|s|items IH|fields IH] using jsvalue_ind'; cbn [texts]; try (by intros ?%not_elem_of_nil).
  - intros ->%list_elem_of_singleton. exists [], []. by rewrite app_nil_r.
  - intros (l & (x & <- & Hx)%in_map_iff & Hl)%list_elem_of_In%in_concat. apply list_elem_of_In in Hl. rewrite Forall_forall in IH.
    apply list_elem_of_In in Hx. destruct (IH x Hx Hl) as (a & b & E). destruct (joined_infix COMMA (JSON_stringify x) (map JSON_stringify items)) as (a' & b' & E').
    { by apply list_elem_of_fmap_2. }
    cbn [JSON_stringify]. rewrite E', E. exists (91%N :: a' ++ a), (b ++ b' ++ [93%N]). cbn [app]. by rewrite <- !app_assoc.
  - intros (l & ([k x] & <- & Hx)%in_map_iff & Hl)%list_elem_of_In%in_concat. apply list_elem_of_In in Hl, Hx. cbn [snd] in Hl. rewrite Forall_forall in IH.
    destruct (IH _ Hx Hl) as (a & b & E). cbn [snd] in E. set (part := JSON_string k ++ COLON :: JSON_stringify x).
    destruct (joined_infix COMMA part (concat (map (fun kv : ustr * jsvalue =>
      if is_skipped (snd kv) then [] else [JSON_string (fst kv) ++ COLON :: JSON_stringify (snd kv)]) fields))) as (a' & b' & E').
    { apply list_elem_of_In, in_concat. exists [part]. split; [|by left]. apply in_map_iff. exists (k, x). split; [|by apply list_elem_of_In]. cbn [fst snd].
      by destruct x; [apply not_elem_of_nil in Hl..|done|done|done]. }
    cbn [JSON_stringify]. rewrite E'. unfold part. rewrite E. exists (123%N :: a' ++ JSON_string k ++ COLON :: a), (b ++ b' ++ [125%N]).
    cbn [app]. rewrite <- !app_assoc. cbn [app]. by rewrite <- !app_assoc.
Qed.

Lemma plain_needle `{Doubles} p s : prints_plainly s -> s <> [] -> containsNeedle p s = false -> forall t, t ∈ texts (packet_json p) -> includes_text s t = false.
Proof.
  intros Hs Hne Hn t Ht. apply not_true_iff_false. intros Hin. apply (plain_printed s t Hs Hne) in Hin. apply includes_text_infix in Hin as (a & b & E); [|done].
  destruct (text_printed _ _ Ht) as (a' & b' & E'). assert (containsNeedle p s = true); [|congruence]. unfold containsNeedle. apply includes_text_infix; [done|].
  exists (a' ++ a), (b ++ b'). by rewrite E', E, <- !app_assoc.
Qed.

(** ** The packet *)

Section PacketTheorems.
Context `{D : Doubles} `{Hashing}.
Variable sourceRefs_of : ProofObligation -> list jsvalue.
Variable Buffer_from_base64 : ustr -> bytes.
Variable PACKET_Check : RepairPacket -> bool.
Local Notation build := (buildRepairPacket sourceRefs_of Buffer_from_base64 PACKET_Check).
Local Notation matches_failure := (artifactMatchesFailure sourceRefs_of).
Local Notation materialize := (materializeArtifact Buffer_from_base64).

Lemma elem_of_uniqueSorted l x : x ∈ uniqueSorted l <-> x ∈ l.
Proof. unfold uniqueSorted. rewrite elem_of_sort_by. apply uniq_spec. Qed.

Lemma elem_of_ids_with keep report x :
  x ∈ ids_with keep report <->
  exists r, r ∈ obligationResults report /\ keep (res_status r) = true /\ res_obligationId r = x.
Proof.
  unfold ids_with. rewrite elem_of_uniqueSorted, list_elem_of_fmap. setoid_rewrite elem_of_List_filter. naive_solver.
Qed.

(** The two components of the fold of [dedupeArtifacts]. *)
Lemma dedupe_spec (l : list InlineArtifact) :
  NoDup (map ia_objectDigest (dedupeArtifacts l)) /\
  (forall a, a ∈ dedupeArtifacts l -> a ∈ l) /\
  (forall a, a ∈ l -> exists b, b ∈ dedupeArtifacts l /\ ia_objectDigest b = ia_objectDigest a).
Proof.
  unfold dedupeArtifacts. set (f := fun '(seen, out) a => _).
  assert (let st := foldl f ([], []) l in st.1 = map ia_objectDigest st.2 /\ NoDup st.1 /\ (forall a, a ∈ st.2 -> a ∈ l) /\
    forall a, a ∈ l -> ia_objectDigest a ∈ st.1) as Hinv.
  { induction l as [|a l IH] using rev_ind; [split_and!; [done | constructor | done | by intros ? ?%not_elem_of_nil]|].
    rewrite foldl_app. cbn [foldl]. cbv zeta in *. destruct (foldl f ([], []) l) as [seen out]. cbn [fst snd] in *.
    destruct IH as (-> & Hn & Hsub & Hall). destruct (includes (ia_objectDigest a) (map ia_objectDigest out)) eqn:E.
    - assert (f (map ia_objectDigest out, out) a = (map ia_objectDigest out, out)) as -> by (unfold f; by rewrite E).
      cbn [fst snd]. apply includes_true in E. split_and!; [done | done | |].
      + intros b Hb. apply elem_of_app. left. by apply Hsub.
      + intros b [Hb| ->%list_elem_of_singleton]%elem_of_app; [by apply Hall | done].
    - assert (f (map ia_objectDigest out, out) a = (map ia_objectDigest out ++ [ia_objectDigest a], out ++ [a])) as ->
        by (unfold f; by rewrite E).
      cbn [fst snd]. apply includes_false in E. split_and!.
      + by rewrite map_app.
      + apply NoDup_app. split_and!; [done| |apply NoDup_singleton]. intros d Hd ->%list_elem_of_singleton. done.
      + intros b [Hb|Hb]%elem_of_app; apply elem_of_app; [left; by apply Hsub | by right].
      + intros b [Hb| ->%list_elem_of_singleton]%elem_of_app; apply elem_of_app; [left; by apply Hall | right; left]. }
  cbv zeta in Hinv. destruct (foldl f ([], []) l) as [seen out]. cbn [fst snd] in *. destruct Hinv as (-> & Hn & Hsub & Hall).
  split_and!; [done | done|]. intros a Ha. specialize (Hall a Ha). apply list_elem_of_fmap in Hall as (b & Hb & Hin). by exists b.
Qed.

(** What the loop over the failures collects. *)
Definition inlined (artifacts : list FailureArtifactInput) obligations (fs : list Failure) (inline : list InlineArtifact) : Prop :=
  (forall f, f ∈ fs -> exists a i, a ∈ artifacts /\ matches_failure a f obligations = true /\ materialize a = Some i /\ i ∈ inline) /\
  (forall i, i ∈ inline -> exists a f, a ∈ artifacts /\ f ∈ fs /\ matches_failure a f obligations = true /\ materialize a = Some i).

Lemma inlineFailure_ok artifacts obligations inline f inline' :
  inlineFailure sourceRefs_of Buffer_from_base64 artifacts obligations inline f = Ok inline' ->
  exists present, inline' = inline ++ present /\ present <> [] /\
    forall i, i ∈ present <-> exists a, a ∈ artifacts /\ matches_failure a f obligations = true /\ materialize a = Some i.
Proof.
  unfold inlineFailure. set (ms := List.filter _ artifacts). intros Hok. repeat inv_ok_step.
  eexists. split; [by symmetry|]. split.
  - intros E. by rewrite E in *.
  - intros i. rewrite list_elem_of_omap. setoid_rewrite list_elem_of_fmap. unfold ms. setoid_rewrite elem_of_List_filter. naive_solver.
Qed.

Lemma inline_all artifacts obligations fs inline :
  rfold (inlineFailure sourceRefs_of Buffer_from_base64 artifacts obligations) [] fs = Ok inline ->
  inlined artifacts obligations fs inline.
Proof.
  revert inline. induction fs as [|f fs IH] using rev_ind; intros inline Hok.
  - injection Hok as <-. split; [by intros ? ?%not_elem_of_nil | by intros ? ?%not_elem_of_nil].
  - rewrite rfold_app in Hok. apply rbind_ok in Hok as (inline0 & H0 & Hok). cbn in Hok.
    apply rbind_ok in Hok as (inline1 & H1 & Hok). injection Hok as <-.
    apply inlineFailure_ok in H1 as (present & -> & Hne & Hp). destruct (IH _ H0) as [I1 I2]. split.
    + intros g [Hg| ->%list_elem_of_singleton]%elem_of_app.
      * destruct (I1 g Hg) as (a & i & ? & ? & ? & ?). exists a, i. split_and!; [done..|]. apply elem_of_app. by left.
      * destruct present as [|i present]; [done|]. destruct (proj1 (Hp i) ltac:(left)) as (a & ? & ? & ?). exists a, i.
        split_and!; [done..|]. apply elem_of_app. right. left.
    + intros i [Hi|Hi]%elem_of_app.
      * destruct (I2 i Hi) as (a & g & ? & ? & ? & ?). exists a, g. split_and!; try done. apply elem_of_app. by left.
      * apply Hp in Hi as (a & ? & ? & ?). exists a, f. split_and!; try done. apply elem_of_app. right. left.
Qed.

Lemma materialize_digest a i : materialize a = Some i ->
  ia_content i = fa_content a /\ ia_objectDigest i = objectDigestFromBytes (bytesOf Buffer_from_base64 (fa_content a)).
Proof. unfold materializeArtifact. destruct (fa_content a) as [[|] |[|]|]; try done; by intros [= <-]. Qed.

Definition cluster_signatures (c : FailureCluster) : list Digest := primaryFailureSignature c :: secondaryFailureSignatures c.

Lemma cluster_signatures_perm obligations groups clusters :
  rmap (clusterOf sourceRefs_of obligations) groups = Ok clusters ->
  concat (map cluster_signatures clusters) ≡ₚ map failureSignature (concat groups).
Proof.
  rewrite rmap_ok. induction 1 as [|g c groups clusters Hg _ IH]; [done|].
  cbn [map concat]. rewrite map_app, IH. f_equiv. unfold clusterOf in Hg.
  rewrite <- (sort_by_perm (fun l r => utf16_leb (failureSignature l) (failureSignature r)) g).
  destruct (sort_by _ g) as [|p rest]; [done|]. apply rbind_ok in Hg as (refs & _ & Hg). apply (inj Ok) in Hg as <-. done.
Qed.

Lemma no_missing_checks plan results :
  assertAcyclicPlan (obligations plan) (checks plan) = Ok tt ->
  missingIndependentCheckIds (checks plan) results = Some [] ->
  forall c, c ∈ checks plan ->
    (forall d, d ∈ dependencies c -> exists o, JsMap.get d results = Some o /\ o <> CO_FAIL) ->
    check_id c ∈ JsMap.keys results.
Proof.
  intros [[_ HC] [_ GC]]%accepted_plan Hm c Hc Hd. unfold missingIndependentCheckIds in Hm.
  destruct (topological_of check_id dependencies (checks plan)) as (out & Ho & Hp & _);
    [eapply Forall_impl; [exact HC | naive_solver] | exact GC|].
  unfold topologicalChecks in Hm. rewrite Ho in Hm. apply (inj Some) in Hm.
  destruct (JsMap.has (check_id c) results) eqn:Eh; [by apply JsMap.has_true|exfalso].
  apply (not_elem_of_nil (check_id c)). rewrite <- Hm. apply list_elem_of_fmap_2, elem_of_List_filter.
  split; [by rewrite Hp|]. rewrite Eh. rewrite andb_true_r. apply negb_true_iff. unfold dependentBlocked.
  rewrite <- not_true_iff_false, existsb_exists. intros (d & Hin%list_elem_of_In & Hb).
  destruct (Hd d Hin) as (o & Hg & Hne). rewrite Hg in Hb. by destruct o.
Qed.

(** C39: for a plan that passes [assertAcyclicPlan], a repair packet is built only when every check that could
    run has a result, and then it accounts for the whole report: passing and unresolved obligations are
    separated by status, every failure signature is in exactly one cluster, every failure has a
    materialized artifact, every artifact is carried under the digest of its own content.  The JSON text of
    the packet does not contain a local finding as it is, so no string of the packet, artifacts in UTF-8
    included, contains a finding in which JSON escapes nothing; a finding with a quote, a backslash or a
    line break may be there. *)
Theorem buildRepairPacket_sound input packet :
  assertAcyclicPlan (obligations (br_plan input)) (checks (br_plan input)) = Ok tt ->
  build input = Ok packet ->
  (forall c, c ∈ checks (br_plan input) ->
     (forall d, d ∈ dependencies c -> exists o, JsMap.get d (br_checkResults input) = Some o /\ o <> CO_FAIL) ->
     check_id c ∈ JsMap.keys (br_checkResults input)) /\
  (forall x, x ∈ preservedPassingObligationIds packet <->
     exists r, r ∈ obligationResults (br_report input) /\ res_status r = PASS /\ res_obligationId r = x) /\
  (forall x, x ∈ unresolvedObligationIds packet <->
     exists r, r ∈ obligationResults (br_report input) /\ res_status r <> PASS /\ res_obligationId r = x) /\
  concat (map cluster_signatures (failureClusters packet)) ≡ₚ map failureSignature (failures (br_report input)) /\
  (forall f, f ∈ failures (br_report input) -> exists a i, a ∈ br_failureArtifacts input /\
     matches_failure a f (obligation_map (obligations (br_plan input))) = true /\ i ∈ inlineFailureArtifacts packet /\
     ia_objectDigest i = objectDigestFromBytes (bytesOf Buffer_from_base64 (fa_content a))) /\
  NoDup (map ia_objectDigest (inlineFailureArtifacts packet)) /\
  (forall i, i ∈ inlineFailureArtifacts packet ->
     ia_objectDigest i = objectDigestFromBytes (bytesOf Buffer_from_base64 (ia_content i))) /\
  (forall s, s ∈ br_localFindingStatements input -> s <> [] ->
     includes_text s (JSON_stringify (packet_json packet)) = false /\
     (prints_plainly s -> forall t, t ∈ texts (packet_json packet) -> includes_text s t = false)).
Proof.
  intros Hplan Hb. unfold buildRepairPacket in Hb.
  apply rbind_ok in Hb as (missing & Hm & Hb). destruct (0 <? length missing)%nat eqn:Em; [done|].
  apply rbind_ok in Hb as (inline & Hi & Hb). apply rbind_ok in Hb as (groups & Hg & Hb).
  apply rbind_ok in Hb as (clusters & Hc & Hb).
  destruct (negb (PACKET_Check _)) in Hb; [done|]. destruct (existsb _ _) eqn:En in Hb; [done|].
  apply (inj Ok) in Hb as <-. cbn [preservedPassingObligationIds unresolvedObligationIds failureClusters inlineFailureArtifacts].
  assert (missing = []) as -> by (destruct missing; [done | discriminate Em]).
  destruct (dedupe_spec inline) as (Dn & Ds & Da). destruct (inline_all _ _ _ _ Hi) as [I1 I2].
  split_and!.
  - destruct (missingIndependentCheckIds _ _) as [l|] eqn:El; [|done]. apply (inj Ok) in Hm as ->. by apply no_missing_checks.
  - intros x. rewrite elem_of_ids_with. setoid_rewrite bool_decide_eq_true. done.
  - intros x. rewrite elem_of_ids_with. setoid_rewrite orb_true_iff. setoid_rewrite bool_decide_eq_true.
    split; intros (r & Hr & Hs & Hx); exists r; split_and!; try done; [by destruct Hs as [->| ->]|].
    destruct (res_status r); [done | by left | by right].
  - rewrite (cluster_signatures_perm _ _ _ Hc).
    destruct (cluster_by_components share_obligation share_obligation_sym (failures (br_report input))) as (L & groups' & _ & Hg' & _ & Hperm & _).
    unfold clusterFailures in Hg. rewrite Hg' in Hg. apply (inj Ok) in Hg as <-. by rewrite Hperm.
  - intros f Hf. destruct (I1 f Hf) as (a & i & Ha & Hmf & Hma & Hin). destruct (Da i Hin) as (j & Hj & Hd).
    exists a, j. split_and!; [done..|]. rewrite Hd. by apply materialize_digest.
  - done.
  - intros i Hin. apply Ds, I2 in Hin as (a & f & _ & _ & _ & Hma). destruct (materialize_digest _ _ Hma) as [-> ->]. done.
  - intros s Hs Hne. match type of En with existsb (fun s => _ && containsNeedle ?p s) _ = _ => assert (containsNeedle p s = false) as E end.
    { rewrite existsb_none in En. specialize (En s Hs). cbn beta in En. by rewrite bool_decide_false in En. }
    split; [exact E|]. intros Hplain. by apply plain_needle.
Qed.
End PacketTheorems.

(** ** Eligibility *)

(** A repair is attempted only for a rejected or inconclusive report with a confirmed cloud failure
    that admissible evidence of a permitted origin reproduces, and never while a mandatory
    obligation is unknown. *)
Lemma isRepairEligible_sound report evidence obls :
  isRepairEligible report evidence obls = true ->
  verdict report <> ACCEPTED /\
  (exists f a r, f ∈ failures report /\ failure_owner f = R_CLOUD /\ failure_certainty f = CONFIRMED /\
     a ∈ evidenceAssessments report /\ is_admissible a = true /\ evidenceId a ∈ failure_evidenceIds f /\
     JsMap.get (evidenceId a) (record_map (default [] evidence)) = Some r /\ origin r ∉ forbiddenOrigins) /\
  (forall x, x ∈ obligationResults report -> res_status x = UNKNOWN ->
     JsMap.get (res_obligationId x) (mandatory_map (default [] obls)) = Some false).
Proof.
  unfold isRepairEligible. intros H.
  destruct (negb _ && negb _) eqn:Ev in H; [done|]. destruct (length (evidenceAssessments report) =? 0)%nat in H; [done|].
  destruct (length (List.filter _ _) =? 0)%nat in H; [done|]. destruct (negb (existsb _ _)) eqn:Er in H; [done|].
  apply negb_false_iff, existsb_exists in Er as (f & Hf%list_elem_of_In & Hex). apply elem_of_List_filter in Hf as [Hf Hcc].
  apply existsb_exists in Hex as (i & Hi%list_elem_of_In & Hx). apply andb_true_iff in Hx as [Ha Hr].
  apply includes_true, list_elem_of_fmap in Ha as (a & -> & Ha). apply elem_of_List_filter in Ha as [Ha Had].
  unfold is_cloud_confirmed in Hcc. destruct (failure_owner f) eqn:Eo; try done. apply bool_decide_eq_true in Hcc.
  destruct (JsMap.get _ _) as [r|] eqn:Eg in Hr; [|done]. apply negb_true_iff, includes_false in Hr. split_and!.
  - intros E. by rewrite E in Ev.
  - by exists f, a, r.
  - intros x Hx Hu. apply negb_true_iff in H. unfold hasBlockingUnknown in H.
    destruct (decide (JsMap.get (res_obligationId x) (mandatory_map (default [] obls)) = Some false)) as [?|Hn]; [done|exfalso].
    rewrite <- not_true_iff_false, existsb_exists in H. apply H. exists x. split; [by apply list_elem_of_In|].
    by rewrite bool_decide_true, bool_decide_false.
Qed.

(** ** A concrete packet *)

#[local] Existing Instance half_doubles.
Definition echo_hash : Hashing := {| sha256_hex := fun bs => bs |}.
#[local] Existing Instance echo_hash.

Definition sample_failure (sig : string) (obls : list ustr) : Failure :=
  mkFailure (u "F") A_CANDIDATE R_CLOUD CONFIRMED obls [u "e1"] (u sig) (u "broken").
Definition sample_report : VerdictReport :=
  mkReport REJECTED (u "seal") (CHANGESET (u "c")) (u "plan")
    [mkResult (u "a") PASS [] []; mkResult (u "b") FAIL [u "e1"] []; mkResult (u "d") FAIL [u "e1"] []]
    [sample_failure "s2" [u "b"]; sample_failure "s3" [u "d"]; sample_failure "s1" [u "d"; u "b"]]
    (u "root") [mkAssessment (u "e1") ADMISSIBLE (u "p")] REPAIRABLE.
Definition sample_input (text statement : ustr) : BuildRepairPacketInput :=
  mkBuild (u "run") (u "snap") (u "cand") (u "m")
    (mkPlan (u "plan") 1 (u "seal") [] diamond diamond_checks [] None) sample_report
    [(u "k1", CO_PASS); (u "k2", CO_FAIL)]
    [mkFailureArtifact (u "x") (u "text/plain") [] (utf8_content text) [u "e1"] []] [statement] None.

Definition sample_packet (text statement : ustr) : result RepairErr RepairPacket :=
  buildRepairPacket (fun _ => []) (fun b => b) (fun _ => true) (sample_input text statement).

Definition or_empty_packet (r : result RepairErr RepairPacket) : RepairPacket :=
  match r with Ok p => p | Err _ => mkPacket [] [] [] [] [] [] [] [] [] [] [] end.

Lemma buildRepairPacket_sound_witness :
  concat (map cluster_signatures (failureClusters (or_empty_packet (sample_packet (u "log") (u "guess"))))) ≡ₚ
  map failureSignature (failures sample_report).
Proof.
  destruct (buildRepairPacket_sound (fun _ => []) (fun b => b) (fun _ => true) (sample_input (u "log") (u "guess"))
    (or_empty_packet (sample_packet (u "log") (u "guess")))) as (_ & _ & _ & H & _);
    [vm_compute; reflexivity | vm_compute; reflexivity | exact H].
Defined.

(** The statement is searched in the JSON text, where quotes, backslashes and line breaks are escaped: a
    local finding with a quote in it passes into the packet unnoticed, without one it is refused. *)
Lemma quoted_finding_leaks :
  let finding := u "the flag " ++ 34%N :: u "x" ++ [34%N] in
  is_ok (sample_packet finding finding) = true /\
  sample_packet (u "the flag x") (u "the flag x") = Err LOCAL_SEMANTIC_TEXT.
Proof. split; vm_compute; reflexivity. Qed.
