(* ===== verification/Async.v ===== *)
(** Asynchronous code over a shared store.  A program is a tree of atomic store operations and requests
    to the outside; several programs run interleaved on one store, and any of them can stop at any
    point, as a process does when it crashes. *)

From stdpp Require Import relations.
From S2P Require Import Prelude.
Open Scope list_scope.

Section Programs.
Context {Store Request Response Err : Type}.

Inductive prog (A : Type) : Type :=
| Ret (a : A)
| Throw (e : Err)
| Atomic (R : Type) (work : Store -> Store * R) (k : R -> prog A)
| Post (request : Request) (k : Response -> prog A).

Fixpoint pbind {A B} (p : prog A) (f : A -> prog B) : prog B :=
  match p with
  | Ret _ a => f a
  | Throw _ e => Throw _ e
  | Atomic _ R work k => Atomic _ R work (fun r => pbind (k r) f)
  | Post _ request k => Post _ request (fun r => pbind (k r) f)
  end.

(** One program alone: from a store it makes these requests, is given these responses, and returns. *)
Fixpoint runs {A} (p : prog A) (s : Store) (posts : list (Request * Response)) (s' : Store) (a : A) : Prop :=
  match p with
  | Ret _ x => posts = [] /\ s' = s /\ a = x
  | Throw _ _ => False
  | Atomic _ R work k => runs (k (work s).2) (work s).1 posts s' a
  | Post _ request k => exists response rest, posts = (request, response) :: rest /\ runs (k response) s rest s' a
  end.

Lemma runs_bind {A B} (p : prog A) (f : A -> prog B) : forall s posts s' b, runs (pbind p f) s posts s' b ->
  exists posts1 s1 a posts2, runs p s posts1 s1 a /\ runs (f a) s1 posts2 s' b /\ posts = posts1 ++ posts2.
Proof.
  induction p as [a|e|R work k IH|r k IH]; intros s posts s' b; cbn [pbind runs]; intros H.
  - exists [], s, a, posts. done.
  - done.
  - by apply IH in H.
  - destruct H as (o & rest & -> & H). apply IH in H as (p1 & s1 & a & p2 & H1 & H2 & ->).
    exists ((r, o) :: p1), s1, a, p2. split; [|done]. by exists o, p1.
Qed.

(** Running a program with the answers it will be given. *)
Fixpoint execute {A} (p : prog A) (s : Store) (answers : list Response) : option (list (Request * Response) * Store * A) :=
  match p with
  | Ret _ x => Some ([], s, x)
  | Throw _ _ => None
  | Atomic _ R work k => execute (k (work s).2) (work s).1 answers
  | Post _ request k =>
      match answers with
      | [] => None
      | response :: answers =>
          '(rest, s', a) ← execute (k response) s answers; Some ((request, response) :: rest, s', a)
      end
  end.

Lemma execute_runs {A} (p : prog A) : forall s answers posts s' a, execute p s answers = Some (posts, s', a) -> runs p s posts s' a.
Proof.
  induction p as [x|e|R work k IH|r k IH]; intros s answers posts s' a; cbn [execute runs].
  - by intros [= <- <- <-].
  - done.
  - apply IH.
  - destruct answers as [|o answers]; [done|]. intros H. apply bind_Some in H as ([[rest s1] b] & H & [= <- <- <-]).
    exists o, rest. split; [done|]. by eapply IH.
Qed.

Lemma execute_some {A} (p : prog A) s answers n : (fun x => length x.1.1) <$> execute p s answers = Some n ->
  exists posts s' a, runs p s posts s' a /\ length posts = n.
Proof.
  destruct (execute p s answers) as [[[posts s'] a]|] eqn:E; [|done]. intros [= <-]. exists posts, s', a.
  split; [by eapply execute_runs | done].
Qed.

(** ** Interleaving *)

(** The store, the requests made so far with their responses, and the running programs. *)
Record system (A : Type) := mkSystem {
  sys_store : Store;
  sys_posts : list (nat * Request * Response);
  sys_threads : list (prog A)
}.

Inductive sys_step {A} : system A -> system A -> Prop :=
| step_atomic s posts ps i R work k :
    ps !! i = Some (Atomic _ R work k) ->
    sys_step (mkSystem _ s posts ps) (mkSystem _ (work s).1 posts (<[i := k (work s).2]> ps))
| step_post s posts ps i request response k :
    ps !! i = Some (Post _ request k) ->
    sys_step (mkSystem _ s posts ps) (mkSystem _ s (posts ++ [(i, request, response)]) (<[i := k response]> ps))
| step_crash s posts ps i p e :
    ps !! i = Some p ->
    sys_step (mkSystem _ s posts ps) (mkSystem _ s posts (<[i := Throw _ e]> ps)).

(** A schedule: which program moves, and what it is answered if it makes a request. *)
Definition run_step {A} (choice : nat * Response) (sys : system A) : system A :=
  match sys_threads _ sys !! choice.1 with
  | Some (Atomic _ R work k) =>
      mkSystem _ (work (sys_store _ sys)).1 (sys_posts _ sys) (<[choice.1 := k (work (sys_store _ sys)).2]> (sys_threads _ sys))
  | Some (Post _ request k) =>
      mkSystem _ (sys_store _ sys) (sys_posts _ sys ++ [(choice.1, request, choice.2)]) (<[choice.1 := k choice.2]> (sys_threads _ sys))
  | _ => sys
  end.

Definition run_schedule {A} (choices : list (nat * Response)) (sys : system A) : system A := foldl (fun s c => run_step c s) sys choices.

Lemma run_step_rtc {A} c (sys : system A) : rtc sys_step sys (run_step c sys).
Proof.
  destruct c as [i r], sys as [s posts ps]. unfold run_step. cbn [fst snd sys_threads sys_store sys_posts].
  destruct (ps !! i) as [[a|e|R work k|request k]|] eqn:E; [done|done| | |done]; apply rtc_once; by econstructor.
Qed.

Lemma run_schedule_rtc {A} choices (sys : system A) : rtc sys_step sys (run_schedule choices sys).
Proof.
  unfold run_schedule. revert sys. induction choices as [|c choices IH]; intros sys; cbn [foldl]; [done|].
  etransitivity; [apply run_step_rtc | apply IH].
Qed.
End Programs.
Arguments prog : clear implicits.
Arguments Ret {Store Request Response Err A}.
Arguments Throw {Store Request Response Err A}.
Arguments Atomic {Store Request Response Err A R}.
Arguments Post {Store Request Response Err A}.
Arguments system : clear implicits.
Arguments mkSystem {Store Request Response Err A}.
Arguments sys_store {Store Request Response Err A}.
Arguments sys_posts {Store Request Response Err A}.
Arguments sys_threads {Store Request Response Err A}.

Declare Scope prog_scope.
Delimit Scope prog_scope with prog.
Notation "'do' x <- c ; k" := (pbind c (fun x => k)) (at level 200, x name, c at level 100, k at level 200, right associativity) : prog_scope.
Notation "'do' ' p <- c ; k" := (pbind c (fun p => k)) (at level 200, p strict pattern, c at level 100, k at level 200, right associativity) : prog_scope.
