(* ===== verification/CloudWire.v ===== *)
(** The sealed request to a cloud provider (packages/cloud-gateway/src/request.ts and capabilities.ts,
    packages/models/src/cloud/adapter.ts and tokens.ts): the provider body of a conversation, the wire
    request built from it, the checks that a dispatch matches its envelopes, and the injection of the
    credential.  Payloads are JSON objects that passed their schema; [string_field] and its relatives
    read a property of them. *)

From Stdlib Require Import String.
From S2P Require Import Prelude JsText CanonicalJson JsJson Digest Classification Egress.
Open Scope string_scope.
Open Scope list_scope.

Inductive WireErr : Set := wire_digest (e : DigestErr) | wire_json_syntax | wire_brand.

Definition of_digest {A} (c : result DigestErr A) : result WireErr A :=
  match c with Ok a => Ok a | Err e => Err (wire_digest e) end.

Inductive RecoveryGrade : Set := grade_A | grade_B | grade_C.
#[export] Instance RecoveryGrade_eq_dec : EqDecision RecoveryGrade.
Proof. solve_decision. Defined.

Inductive LookupKeyKind : Set := request_object | provider_idempotency_key | provider_operation_id.
#[export] Instance LookupKeyKind_eq_dec : EqDecision LookupKeyKind.
Proof. solve_decision. Defined.

(** The fields of a deployment record that dispatching reads. *)
Record DeploymentCapabilities := mkCapabilities {
  cap_deploymentId : ustr;
  cap_adapterVersion : ustr;
  cap_providerApiVersion : ustr;
  cap_modelRevision : ustr;
  cap_nativeTokens : Z;
  cap_maxOutputTokens : option Z;
  cap_grade : RecoveryGrade;
  cap_lookupKeyKinds : list LookupKeyKind
}.

Record CloudRecoveryAdapter := mkRecovery { rec_grade : RecoveryGrade; rec_lookupKeys : list LookupKeyKind }.

Inductive RecoveryErr : Set := NO_LOOKUP_KINDS.

(** ** Deployments *)

Definition eligible_record (records : list DeploymentCapabilities) (native output : Z) (deployment : ustr)
    : option DeploymentCapabilities :=
  match array_find (fun r => bool_decide (cap_deploymentId r = deployment)) records with
  | None => None
  | Some record =>
      if (cap_nativeTokens record <? native)%Z then None else
      match cap_maxOutputTokens record with
      | Some maxOutput => if (maxOutput <? output)%Z then None else Some record
      | None => Some record
      end
  end.

Fixpoint select_in_order (records : list DeploymentCapabilities) (native output : Z) (order : list ustr)
    : option DeploymentCapabilities :=
  match order with
  | [] => None
  | deployment :: rest =>
      match eligible_record records native output deployment with
      | Some record => Some record
      | None => select_in_order records native output rest
      end
  end.

Definition selectDeploymentBeforeDispatch (userOrder : list ustr) (records : list DeploymentCapabilities)
    (requiredNativeTokens requiredMaxOutputTokens : Z) (dispatched : bool) : option DeploymentCapabilities :=
  if dispatched then None else select_in_order records requiredNativeTokens requiredMaxOutputTokens userOrder.

(** Without a lookup of its own the adapter answers every lookup with "unknown". *)
Definition recoveryAdapterFor (c : DeploymentCapabilities) (lookup : option CloudRecoveryAdapter)
    : result RecoveryErr CloudRecoveryAdapter :=
  match cap_grade c with
  | grade_C => Ok (mkRecovery grade_C [])
  | g =>
      match lookup with
      | Some l => if bool_decide (rec_grade l = g) then Ok l else
                  match g with
                  | grade_A => match cap_lookupKeyKinds c with [] => Err NO_LOOKUP_KINDS | ks => Ok (mkRecovery grade_A ks) end
                  | _ => Ok (mkRecovery grade_B [provider_operation_id])
                  end
      | None =>
          match g with
          | grade_A => match cap_lookupKeyKinds c with [] => Err NO_LOOKUP_KINDS | ks => Ok (mkRecovery grade_A ks) end
          | _ => Ok (mkRecovery grade_B [provider_operation_id])
          end
      end
  end.

(** The loop compares the two arrays index by index after their lengths. *)
Definition recoveryMatchesCapabilities (c : DeploymentCapabilities) (recovery : CloudRecoveryAdapter) : bool :=
  bool_decide (rec_grade recovery = cap_grade c) &&
  (length (rec_lookupKeys recovery) =? length (cap_lookupKeyKinds c))%nat &&
  forallb (fun '(i, kind) => bool_decide (rec_lookupKeys recovery !! i = Some kind)) (imap pair (cap_lookupKeyKinds c)).

(** ** Tokens *)

Definition isCjk (code : N) : bool :=
  ((13312 <=? code) && (code <=? 40959) || (63744 <=? code) && (code <=? 64255) || (12352 <=? code) && (code <=? 12543))%N.

(** A token for every CJK character and for every three bytes of the rest, rounded up, at least one.
    The CJK ranges lie below the surrogates, so counting units counts code points. *)
Definition piece_tokens (piece : ustr) : Z :=
  let bytes := Z.of_nat (utf8ByteLength piece) in
  let cjk := Z.of_nat (length (List.filter isCjk piece)) in
  let latinBytes := Z.max 0 (bytes - cjk * 3) in
  (cjk + Z.max 1 ((latinBytes + 2) / 3))%Z.

Definition PI_HEC_CLOUD_TOKENIZER_REVISION : ustr := u "pi-hec-conservative-v1".

Section Wire.
Context {DD : Doubles} {HH : Hashing}.
(** The entropy test of the scanner; the pieces the tokenizer's Unicode expression finds in a text
    after NFC normalization; and the collation of [localeCompare]. *)
Variable entropy_below : ustr -> Z -> bool.
Variable pretokens : ustr -> list ustr.
Variable localeCompare : ustr -> ustr -> comparison.

(** The expression has no empty match, so an empty text has no pieces and counts zero. *)
Definition countCloudTokens (text tokenizerRevision : ustr) : option Z :=
  if negb (bool_decide (tokenizerRevision = PI_HEC_CLOUD_TOKENIZER_REVISION)) then None else
  Some (foldl (fun tokens piece => (tokens + piece_tokens piece)%Z) 0%Z (pretokens text)).

(** ** Envelopes *)

(** [JSON.parse(canonicalizeRfc8785(JSON.parse(JSON.stringify(value))))] *)
Definition jsonValue (value : jsvalue) : result WireErr jsvalue :=
  match JSON_parse (JSON_stringify value) with
  | None => Err wire_json_syntax
  | Some stripped =>
      let? text := of_digest (of_canon (canonicalizeRfc8785 stripped)) in
      match JSON_parse text with None => Err wire_json_syntax | Some v => Ok v end
  end.

Definition unsignedEnvelope (schemaName : ustr) (payload : jsvalue) : result WireErr (ArtifactEnvelope jsvalue) :=
  let? json := jsonValue payload in
  let? digest := of_digest (payloadDigest schemaName 1 json) in
  Ok (mkEnvelope schemaName 1 payload digest []).

Definition envelopeDigest (e : ArtifactEnvelope jsvalue) : result WireErr Digest :=
  let? json := jsonValue (payload e) in
  throw_if negb (isObjectDigest_units (env_payloadDigest e)) with wire_brand;
  of_digest (envelopeObjectDigest (mkEnvelope (schemaName e) (schemaVersion e) json (env_payloadDigest e) (signatures e))).

Definition providerWireRequestDigestOf (wire : jsvalue) : result WireErr Digest :=
  let? json := jsonValue wire in
  of_digest (taggedHash "provider-wire-request" 1 (VObj [(u "providerWireRequest", json)])).

(** ** The provider body *)

Definition array_field (k : string) (v : jsvalue) : list jsvalue :=
  match object_field k v with VArr items => items | _ => [] end.
Definition Z_field (k : string) (v : jsvalue) : Z :=
  match object_field k v with VNum (SafeInt z) => z | _ => 0%Z end.
Definition obj (members : list (string * jsvalue)) : jsvalue := VObj (map (fun '(k, v) => (u k, v)) members).
Definition str (s : string) : jsvalue := VStr (u s).

Definition part_text (part : jsvalue) : ustr :=
  if bool_decide (string_field "kind" part = u "text") then string_field "text" part
  else string_field "canonicalUtf8" part.

Definition messageText (message : jsvalue) : ustr := join_unit LF (map part_text (array_field "content" message)).

Definition isOpenAiShaped (c : DeploymentCapabilities) : bool :=
  includes_text (u "chat/completions") (cap_providerApiVersion c).

Definition openai_message (message : jsvalue) : result WireErr jsvalue :=
  let role := string_field "role" message in
  let text := messageText message in
  if bool_decide (role = u "user") then Ok (obj [("role", str "user"); ("content", VStr text)])
  else if bool_decide (role = u "assistant") then
    match object_field "terminalCall" message with
    | VUndefined => Ok (obj [("role", str "assistant"); ("content", VStr text)])
    | terminal =>
        let? arguments := of_digest (of_canon (canonicalizeRfc8785 (object_field "canonicalArguments" terminal))) in
        Ok (obj [("role", str "assistant"); ("content", if bool_decide (text = []) then VNull else VStr text);
                 ("tool_calls", VArr [obj [("id", object_field "callId" terminal); ("type", str "function");
                    ("function", obj [("name", object_field "name" terminal); ("arguments", VStr arguments)])]])])
    end
  else Ok (obj [("role", str "tool"); ("tool_call_id", object_field "toolCallId" message); ("content", VStr text)]).

Definition anthropic_message (message : jsvalue) : jsvalue :=
  let role := string_field "role" message in
  let text := messageText message in
  let plain := obj [("role", object_field "role" message); ("content", VStr (if bool_decide (text = []) then [SPACE] else text))] in
  if bool_decide (role = u "tool") then
    obj [("role", str "user"); ("content", VArr [obj [("type", str "tool_result");
      ("tool_use_id", object_field "toolCallId" message); ("content", VStr text)]])]
  else if bool_decide (role = u "assistant") then
    match object_field "terminalCall" message with
    | VUndefined => plain
    | terminal =>
        obj [("role", str "assistant"); ("content", VArr [obj [("type", str "tool_use"); ("id", object_field "callId" terminal);
          ("name", object_field "name" terminal); ("input", object_field "canonicalArguments" terminal)]])]
    end
  else plain.

Definition openai_tool (tool : jsvalue) : jsvalue :=
  obj [("type", str "function"); ("function", obj [("name", object_field "name" tool);
    ("description", object_field "description" tool); ("parameters", object_field "inputSchema" tool)])].
Definition anthropic_tool (tool : jsvalue) : jsvalue :=
  obj [("name", object_field "name" tool); ("description", object_field "description" tool);
    ("input_schema", object_field "inputSchema" tool)].

Definition providerBodyObject (conversation request : jsvalue) (c : DeploymentCapabilities) : result WireErr jsvalue :=
  let model := object_field "modelRevision" (object_field "requestBinding" request) in
  if isOpenAiShaped c then
    let? messages := rmap openai_message (array_field "messages" conversation) in
    Ok (obj [("model", model);
      ("messages", VArr (obj [("role", str "system"); ("content", object_field "systemPrompt" conversation)] :: messages));
      ("tools", VArr (map openai_tool (array_field "tools" conversation))); ("tool_choice", str "required");
      ("parallel_tool_calls", VBool false); ("max_tokens", object_field "maxOutputTokens" request); ("stream", VBool true)])
  else
    Ok (obj [("model", model); ("system", object_field "systemPrompt" conversation);
      ("messages", VArr (map anthropic_message (array_field "messages" conversation)));
      ("tools", VArr (map anthropic_tool (array_field "tools" conversation)));
      ("tool_choice", obj [("type", str "any")]); ("disable_parallel_tool_use", VBool true);
      ("max_tokens", object_field "maxOutputTokens" request); ("stream", VBool true)]).

Definition providerBodyBytes (conversation request : jsvalue) (c : DeploymentCapabilities) : result WireErr bytes :=
  let? body := providerBodyObject conversation request c in Ok (utf8_encode (JSON_stringify body)).

(** ** The wire request *)

Inductive CapacityWaitingState : Set :=
| WAITING_INITIAL_CONTEXT_CAPACITY | WAITING_DELTA_CONTEXT_CAPACITY | WAITING_REPAIR_CONTEXT_CAPACITY
| WAITING_INITIAL_OUTPUT_CAPACITY | WAITING_DELTA_OUTPUT_CAPACITY | WAITING_REPAIR_OUTPUT_CAPACITY.

Record SealedTokenization := mkTokenization {
  tok_inputTokens : Z;
  tok_reservedOutputTokens : Z;
  tok_tokenizerRevision : ustr
}.

Inductive WireBuildResult : Type :=
| wire_built (envelope : ArtifactEnvelope jsvalue) (body : bytes) (providerWireRequestDigest : Digest)
| wire_waiting (state : CapacityWaitingState) (inputTokens reservedOutputTokens : Z)
| wire_rejected.

(** The purpose is one of the three by the schema of the request. *)
Definition capacityStates (purpose : ustr) : CapacityWaitingState * CapacityWaitingState :=
  if bool_decide (purpose = u "initial") then (WAITING_INITIAL_CONTEXT_CAPACITY, WAITING_INITIAL_OUTPUT_CAPACITY)
  else if bool_decide (purpose = u "context-followup") then (WAITING_DELTA_CONTEXT_CAPACITY, WAITING_DELTA_OUTPUT_CAPACITY)
  else (WAITING_REPAIR_CONTEXT_CAPACITY, WAITING_REPAIR_OUTPUT_CAPACITY).

Definition Header : Type := ustr * ustr.

Definition header_leb (left right : Header) : bool :=
  match localeCompare left.1 right.1 with
  | Lt => true
  | Gt => false
  | Eq => match localeCompare left.2 right.2 with Gt => false | _ => true end
  end.

Definition sortHeaders (headers : list Header) : list Header := sort_by header_leb headers.

Definition wire_headers (c : DeploymentCapabilities) : list Header :=
  sortHeaders (
    if isOpenAiShaped c
    then [(u "accept", u "text/event-stream"); (u "content-type", u "application/json")]
    else [(u "accept", u "text/event-stream"); (u "anthropic-version", cap_providerApiVersion c);
          (u "content-type", u "application/json")]).

Definition header_json (h : Header) : jsvalue := obj [("nameLowercase", VStr h.1); ("value", VStr h.2)].

Definition wire_payload (requestDigest : Digest) (request egress : jsvalue) (c : DeploymentCapabilities) (body : bytes) : jsvalue :=
  obj [("schemaVersion", VInt 1); ("requestEnvelopeObjectDigest", VStr requestDigest);
    ("deploymentId", object_field "deploymentId" request);
    ("adapterVersionObjectDigest", object_field "adapterVersionObjectDigest" request);
    ("endpointIdentity", object_field "endpointIdentity" egress); ("providerApiVersion", VStr (cap_providerApiVersion c));
    ("modelRevision", object_field "modelRevision" (object_field "requestBinding" request)); ("method", str "POST");
    ("nonSecretHeaders", VArr (map header_json (wire_headers c))); ("bodyMediaType", str "application/json");
    ("bodyObjectDigest", VStr (objectDigestFromBytes body)); ("bodyByteSize", VInt (Z.of_nat (length body)));
    ("providerIdempotencyKey", VStr requestDigest)].

Definition buildProviderWireRequest (request conversation egress : ArtifactEnvelope jsvalue) (c : DeploymentCapabilities)
    (tokenization : SealedTokenization) : result WireErr WireBuildResult :=
  let? body := providerBodyBytes (payload conversation) (payload request) c in
  let text := toString_utf8 body in
  if bool_decide (scan_classification (scanText entropy_below text None None) = restricted) then Ok wire_rejected else
  let '(context, output) := capacityStates (string_field "purpose" (payload request)) in
  let maxOutput := default (Z_field "maxOutputTokens" (payload request)) (cap_maxOutputTokens c) in
  let reserved := tok_reservedOutputTokens tokenization in
  match countCloudTokens text (tok_tokenizerRevision tokenization) with
  | None => Ok (wire_waiting context (tok_inputTokens tokenization) reserved)
  | Some tokens =>
      if (tok_inputTokens tokenization <? tokens)%Z then Ok (wire_waiting context tokens reserved)
      else if (maxOutput <? reserved)%Z then Ok (wire_waiting output tokens reserved)
      else if (cap_nativeTokens c <? tokens + reserved)%Z then Ok (wire_waiting context tokens reserved)
      else
        let? requestDigest := envelopeDigest request in
        let wire := wire_payload requestDigest (payload request) (payload egress) c body in
        let? envelope := unsignedEnvelope (u "ProviderWireRequest") wire in
        let? digest := providerWireRequestDigestOf wire in
        Ok (wire_built envelope body digest)
  end.

(** ** Dispatch *)

Record CloudDispatch := mkDispatch {
  d_request : ArtifactEnvelope jsvalue;
  d_egress : ArtifactEnvelope jsvalue;
  d_conversation : ArtifactEnvelope jsvalue;
  d_wireRequest : ArtifactEnvelope jsvalue
}.

(** What [postOnce] is called with, and the values kept for the caller. *)
Record Injected := mkInjected {
  inj_headers : list (ustr * ustr);
  inj_endpointIdentity : ustr;
  inj_modelRevision : ustr;
  inj_providerIdempotencyKey : ustr;
  inj_body : bytes;
  inj_bodyObjectDigest : ustr
}.

(** [headers[name] = value]; assigning a string to [__proto__] has no effect. *)
Definition set_header (headers : list (ustr * ustr)) (h : jsvalue) : list (ustr * ustr) :=
  let name := string_field "nameLowercase" h in
  if bool_decide (name = PROTO) then headers else JsMap.set name (string_field "value" h) headers.

(** [headers[name] = value] for every sealed header, then the credential; [None] is "not-approved". *)
Definition injectSealedAuthorization (wire : jsvalue) (body : bytes) (approved : bool)
    (approvedDigest wireEnvelopeDigest : Digest) (authorization : ustr) : result WireErr (option Injected) :=
  if negb approved || negb (bool_decide (approvedDigest = wireEnvelopeDigest)) then Ok None else
  let headers := foldl set_header [] (array_field "nonSecretHeaders" wire) in
  throw_if negb (isObjectDigest_units (string_field "bodyObjectDigest" wire)) with wire_brand;
  Ok (Some (mkInjected (JsMap.set (u "authorization") authorization headers)
    (string_field "endpointIdentity" wire) (string_field "modelRevision" wire)
    (string_field "providerIdempotencyKey" wire) body (string_field "bodyObjectDigest" wire))).

Definition wireDispatchBindingsMatch (d : CloudDispatch) (c : DeploymentCapabilities) (reconstructedBody : bytes)
    : result WireErr bool :=
  let request := payload (d_request d) in
  let wire := payload (d_wireRequest d) in
  let? conversation := jsonValue (payload (d_conversation d)) in
  let? conversationPayload := of_digest (payloadDigest (schemaName (d_conversation d)) (schemaVersion (d_conversation d)) conversation) in
  if negb (bool_decide (objectDigestFromBytes reconstructedBody = string_field "bodyObjectDigest" wire)) then Ok false else
  let? requestDigest := envelopeDigest (d_request d) in
  if negb (bool_decide (requestDigest = string_field "requestEnvelopeObjectDigest" wire)) then Ok false else
  let? sealed := envelopeDigest (d_wireRequest d) in
  let? unsigned := unsignedEnvelope (u "ProviderWireRequest") wire in
  let? resealed := envelopeDigest unsigned in
  Ok (bool_decide (sealed = resealed) &&
    bool_decide (string_field "providerIdempotencyKey" wire = string_field "requestEnvelopeObjectDigest" wire) &&
    bool_decide (string_field "endpointIdentity" wire = string_field "endpointIdentity" (payload (d_egress d))) &&
    bool_decide (string_field "modelRevision" wire = string_field "modelRevision" (object_field "requestBinding" request)) &&
    bool_decide (string_field "modelRevision" wire = cap_modelRevision c) &&
    bool_decide (string_field "adapterVersionObjectDigest" wire = string_field "adapterVersionObjectDigest" request) &&
    bool_decide (string_field "adapterVersionObjectDigest" wire = cap_adapterVersion c) &&
    bool_decide (string_field "deploymentId" wire = string_field "deploymentId" request) &&
    bool_decide (string_field "deploymentId" wire = cap_deploymentId c) &&
    bool_decide (env_payloadDigest (d_conversation d) = conversationPayload)).
End Wire.
