(* ===== verification/CloudGateway.v ===== *)
(** The one-shot adapter of the cloud gateway (packages/cloud-gateway/src/dispatcher.ts, receipt.ts and
    [postOnce] of packages/models/src/cloud/adapter.ts): reading a provider response of bounded size,
    the two response formats and their event streams, the decoding of the one terminal result, the
    classification of transport failures, and [completeOnce] as an asynchronous program with a single
    request. *)

From Stdlib Require Import String.
From S2P Require Import Prelude JsText CanonicalJson JsJson Digest Egress Async CloudWire.
Open Scope string_scope.
Open Scope list_scope.

(** ** Requests and responses *)

Record FetchRequest := mkFetch { fr_url : ustr; fr_headers : list (ustr * ustr); fr_body : bytes }.

(** A thrown value: objects by index, with their string [code], whether their name is "AbortError", and
    their [cause]. *)
Inductive ErrorRef : Set := err_nullish | err_primitive | err_object (index : nat).
Record ErrorNode := mkErrorNode { en_code : option ustr; en_abort : bool; en_cause : ErrorRef }.
Record ThrownError := mkThrown { te_heap : list ErrorNode; te_root : ErrorRef }.

(** What one turn of the reading loop meets: the signal is aborted, a chunk, a value that is not bytes,
    or a failing read; the end of the list is the read that reports the end of the stream. *)
Inductive ReadEvent : Type := rd_aborted | rd_chunk (chunk : bytes) | rd_other | rd_error.

(** A response without a stream holds its buffer, unless reading it fails. *)
Inductive ResponseBody : Type := null_body (buffer : option bytes) | stream_body (events : list ReadEvent).

Record HttpResponse := mkResponse { rs_status : Z; rs_contentType : option ustr; rs_body : ResponseBody }.

Inductive FetchOutcome : Type := fetch_throw (error : ThrownError) | fetch_response (response : HttpResponse).

Definition RESPONSE_MAX_BYTES : nat := Z.to_nat 1048576.

Fixpoint read_stream (collected : bytes) (events : list ReadEvent) : option (bytes * bool) :=
  match events with
  | [] => Some (collected, false)
  | rd_aborted :: _ => Some (collected, false)
  | rd_error :: _ => None
  | rd_other :: rest => read_stream collected rest
  | rd_chunk chunk :: rest =>
      if (RESPONSE_MAX_BYTES <? length collected + length chunk)%nat then Some (collected, true)
      else read_stream (collected ++ chunk) rest
  end.

(** [None] when reading throws. *)
Definition readLimited (body : ResponseBody) : option (bytes * bool) :=
  match body with
  | null_body None => None
  | null_body (Some buffer) => Some (take RESPONSE_MAX_BYTES buffer, (RESPONSE_MAX_BYTES <? length buffer)%nat)
  | stream_body events => read_stream [] events
  end.

(** ** Transport errors *)

Definition PROVEN_NOT_ACCEPTED_CODES : list ustr :=
  map u ["ENOTFOUND"; "EAI_AGAIN"; "EAI_NODATA"; "EAI_NONAME"; "ECONNREFUSED"; "UND_ERR_CONNECT_TIMEOUT"; "ERR_NAME_NOT_RESOLVED"].

(** [None] only when the fuel runs out. *)
Fixpoint collectErrorCodes (fuel : nat) (heap : list ErrorNode) (seen : list nat) (error : ErrorRef) : option (list ustr) :=
  match fuel with
  | O => None
  | S n =>
      match error with
      | err_nullish | err_primitive => Some []
      | err_object i =>
          if includes i seen then Some [] else
          match heap !! i with
          | None => Some []
          | Some node =>
              rest ← collectErrorCodes n heap (i :: seen) (en_cause node);
              Some (match en_code node with Some c => [c] | None => [] end ++
                    (if en_abort node then [u "AbortError"] else []) ++ rest)
          end
      end
  end.

Definition codes_of (e : ThrownError) : list ustr := default [] (collectErrorCodes (S (S (length (te_heap e)))) (te_heap e) [] (te_root e)).

(** [true] is "not-dispatched". *)
Definition classifyPostOnceThrow (e : ThrownError) : bool :=
  existsb (fun code => includes code PROVEN_NOT_ACCEPTED_CODES) (codes_of e).

(** ** Parsing *)

Record ToolCall := mkTool { tl_name : ustr; tl_argumentsText : ustr }.

Inductive Finish : Set := F_tool_calls | F_stop | F_length | F_cancelled | F_error.
#[export] Instance Finish_eq_dec : EqDecision Finish.
Proof. solve_decision. Defined.

(** The elements of the [tools] array; [None] is a hole. *)
Definition Tools : Type := list (option ToolCall).

Record ParsedOutput := mkParsedOutput {
  po_finish : option Finish;
  po_tools : Tools;
  po_text : ustr;
  po_overflow : bool;
  po_truncatedStream : bool
}.

Definition mapFinish (value : option ustr) : option Finish :=
  match value with
  | None => None
  | Some v =>
      let eq s := bool_decide (v = u s) in
      if eq "tool_calls" || eq "tool_use" then Some F_tool_calls
      else if eq "stop" || eq "end_turn" then Some F_stop
      else if eq "length" || eq "max_tokens" then Some F_length
      else if eq "cancelled" || eq "aborted" then Some F_cancelled
      else Some F_error
  end.

Section Gateway.
Context {DD : Doubles} {HH : Hashing}.

Definition asString (v : jsvalue) : option ustr := match v with VStr s => Some s | _ => None end.
Definition isRecord (v : jsvalue) : bool := match v with VObj _ => true | _ => false end.

(** [tools[index] = tool]: an element when the number is an array index, which extends the array with
    holes; any other number names a property that no one reads. *)
Definition set_tool (index : nat) (tool : ToolCall) (tools : Tools) : Tools :=
  if (index <? length tools)%nat then <[index := Some tool]> tools
  else tools ++ replicate (index - length tools) None ++ [Some tool].

Definition tool_index (item : jsvalue) (tools : Tools) : option nat :=
  match object_field "index" item with
  | VNum (SafeInt z) => if (0 <=? z)%Z && (z <? 4294967295)%Z then Some (Z.to_nat z) else None
  | VNum NegZero => Some 0
  | VNum _ => None
  | _ => Some (length tools)
  end.

Definition collect_tool (tools : Tools) (item : jsvalue) : Tools :=
  if negb (isRecord item) then tools else
  let fn := object_field "function" item in
  let name := asString (object_field "name" fn) in
  let arguments := default [] (asString (object_field "arguments" fn)) in
  match tool_index item tools with
  | None => tools
  | Some index =>
      let current := default (mkTool [] []) (default None (tools !! index)) in
      set_tool index (mkTool (default (tl_name current) name) (tl_argumentsText current ++ arguments)) tools
  end.

Definition collectOpenAiTools (message : jsvalue) (tools : Tools) : Tools * ustr :=
  (match object_field "tool_calls" message with VArr items => foldl collect_tool tools items | _ => tools end,
   default [] (asString (object_field "content" message))).

(** [last.argumentsText += text] when the last element is not a hole. *)
Definition append_last (text : ustr) (tools : Tools) : Tools :=
  match last tools with
  | Some (Some t) => <[length tools - 1 := Some (mkTool (tl_name t) (tl_argumentsText t ++ text))]> tools
  | _ => tools
  end.

Definition has_type (s : string) (v : jsvalue) : bool := bool_decide (asString (object_field "type" v) = Some (u s)).

Definition collect_block (st : Tools * ustr) (block : jsvalue) : Tools * ustr :=
  let '(tools, text) := st in
  if negb (isRecord block) then (tools, text)
  else if has_type "tool_use" block then
    let input := match object_field "input" block with VUndefined | VNull => VObj [] | v => v end in
    (tools ++ [Some (mkTool (default [] (asString (object_field "name" block))) (JSON_stringify input))], text)
  else if has_type "text" block then (tools, text ++ default [] (asString (object_field "text" block)))
  else if has_type "input_json_delta" block then (append_last (default [] (asString (object_field "partial_json" block))) tools, text)
  else (tools, text).

Definition collectAnthropic (content : jsvalue) (tools : Tools) : Tools * ustr :=
  match content with
  | VArr blocks => foldl collect_block (tools, []) blocks
  | VStr s => (tools, s)
  | _ => (tools, [])
  end.

(** [None] when [JSON.parse] throws; otherwise the tools, the finish reason and the body text. *)
Definition parseProviderPayload (text : ustr) (tools : Tools) : option (Tools * option Finish * ustr) :=
  match JSON_parse text with
  | None => None
  | Some (VObj _ as parsed) =>
      match object_field "choices" parsed with
      | VArr (VObj _ as choice :: _) =>
          let message := if isRecord (object_field "message" choice) then object_field "message" choice
            else if isRecord (object_field "delta" choice) then object_field "delta" choice else VObj [] in
          let '(tools, body) := collectOpenAiTools message tools in
          Some (tools, mapFinish (asString (object_field "finish_reason" choice)), body)
      | _ =>
          let '(tools, body) := collectAnthropic (object_field "content" parsed) tools in
          Some (tools, mapFinish (asString (object_field "stop_reason" parsed)), body)
      end
  | Some _ => Some (tools, None, [])
  end.

(** [raw.split(/\n\n/u)] *)
Fixpoint split_blocks (s : ustr) : list ustr :=
  match s with
  | [] => [[]]
  | a :: ((b :: r') as r) =>
      if (a =? LF)%N && (b =? LF)%N then [] :: split_blocks r'
      else match split_blocks r with [] => [[a]] | seg :: segs => (a :: seg) :: segs end
  | a :: [] => [[a]]
  end.

Definition block_data (block : ustr) : ustr :=
  concat (map (fun line => trim (drop 5 line)) (List.filter (startsWith (u "data:")) (split_unit LF block))).

(** The loop over the blocks, with the finish reason, the text and whether the stream looks truncated. *)
Definition sse_step (st : Tools * option Finish * ustr * bool) (block : ustr) : Tools * option Finish * ustr * bool :=
  let '(tools, finish, text, truncated) := st in
  let data := block_data block in
  if bool_decide (data = u "[DONE]") then (tools, finish, text, false)
  else if bool_decide (data = []) then st
  else match parseProviderPayload data tools with
       | None => (tools, finish, text, true)
       | Some (tools, Some f, body) => (tools, Some f, text ++ body, false)
       | Some (tools, None, body) => (tools, finish, text ++ body, truncated)
       end.

(** [tools.filter(...)] skips holes. *)
Definition named_tool (t : option ToolCall) : bool :=
  match t with Some t => negb (bool_decide (tl_name t = [])) || negb (bool_decide (tl_argumentsText t = [])) | None => false end.

Definition parseSse (raw : ustr) : ParsedOutput :=
  let '(tools, finish, text, truncated) := foldl sse_step ([], None, [], true) (split_blocks raw) in
  mkParsedOutput finish (List.filter named_tool tools) text false truncated.

Definition parseBody (raw : bytes) (contentType : ustr) (overflow : bool) : ParsedOutput :=
  let text := toString_utf8 raw in
  if overflow then mkParsedOutput (Some F_length) [] text true true
  else if includes_text (u "json") contentType && negb (includes_text (u "event-stream") contentType) &&
          startsWith (u "{") (trim text)
  then match parseProviderPayload text [] with
       | Some (tools, finish, body) => mkParsedOutput finish tools body false (bool_decide (finish = None))
       | None => mkParsedOutput None [] text false true
       end
  else parseSse text.

(** ** The terminal result *)

(** The compiled [CloudResultSchema]. *)
Variable RESULT_Check : jsvalue -> bool.

Definition bindingsMatch (result : jsvalue) (d : CloudDispatch) : bool :=
  let request := payload (d_request d) in
  let binding := object_field "requestBinding" request in
  let same k v := bool_decide (string_field k result = string_field k v) in
  same "runId" request && same "cloudCallId" request && same "requestBindingDigest" request &&
  same "contextPacketObjectDigest" request && same "baseSnapshotId" binding && same "baseSnapshotRootDigest" binding.

Inductive Decoded : Type := decoded_ok (result : jsvalue) (finish : Finish) | decoded_protocol (message : ustr).

Definition decode_text (text : ustr) (d : CloudDispatch) (finish : Finish) (syntax schema : string) : Decoded :=
  match JSON_parse text with
  | None => decoded_protocol (u syntax)
  | Some v => if negb (RESULT_Check v) || negb (bindingsMatch v d) then decoded_protocol (u schema) else decoded_ok v finish
  end.

Definition decodeResult (parsed : ParsedOutput) (d : CloudDispatch) : Decoded :=
  if (1 <? length (po_tools parsed))%nat then decoded_protocol (u "multiple tool calls") else
  match po_tools parsed with
  | Some tool :: _ =>
      if negb (bool_decide (tl_name tool = u "submit_solution")) && negb (bool_decide (tl_name tool = u "request_context"))
      then decoded_protocol (u "forbidden tool")
      else if (RESPONSE_MAX_BYTES <? length (tl_argumentsText tool))%nat then decoded_protocol (u "changeset exceeds safety storage")
      else decode_text (tl_argumentsText tool) d F_tool_calls "malformed tool arguments"
             "tool arguments failed CloudResult schema or bindings"
  | _ =>
      if bool_decide (string_field "resultMode" (payload (d_request d)) = u "strict-json-schema") && negb (bool_decide (po_text parsed = []))
      then decode_text (po_text parsed) d F_stop "malformed JSON" "JSON failed CloudResult schema or bindings"
      else decoded_protocol (u "exactly one terminal result is required")
  end.

(** ** Receipts *)

Record ReceiptBase := mkReceiptBase {
  rb_runId : ustr;
  rb_cloudCallId : ustr;
  rb_requestEnvelopeObjectDigest : Digest;
  rb_providerWireRequestObjectDigest : Digest;
  rb_providerWireRequestDigest : Digest;
  rb_deploymentId : ustr;
  rb_completedAt : ustr
}.

Inductive RetryClass : Set := SAFE_SAME_REQUEST | RECONCILE_FIRST | DO_NOT_RETRY.

(** The four shapes of a receipt; every one carries the empty usage. *)
Inductive CloudCompletionReceipt : Type :=
| VALID_RESULT (base : ReceiptBase) (acceptedAt : ustr) (finish : Finish) (rawResponse : Digest) (value : jsvalue) (resultDigest : Digest)
| INCOMPLETE (base : ReceiptBase) (acceptedAt : ustr) (finish : Finish) (incident : Digest) (code : ustr) (retry : RetryClass) (message : ustr)
| FAILED_ACCEPTED (base : ReceiptBase) (acceptedAt : ustr) (incident : Digest) (code message : ustr)
| FAILED_NOT_ACCEPTED (base : ReceiptBase) (transportEvidence : Digest) (code message : ustr).

Definition receipt_base (r : CloudCompletionReceipt) : ReceiptBase :=
  match r with VALID_RESULT b _ _ _ _ _ | INCOMPLETE b _ _ _ _ _ _ | FAILED_ACCEPTED b _ _ _ _ | FAILED_NOT_ACCEPTED b _ _ _ => b end.

Inductive LookupKey : Type := key_request_object (digest : Digest) | key_provider_operation (value : ustr).

Inductive CloudDispatchResult : Type :=
| dr_completed (receipt : CloudCompletionReceipt)
| dr_not_dispatched (reasonCode : ustr) (receipt : CloudCompletionReceipt)
| dr_outcome_unknown (availableLookupKeys : list LookupKey) (transportEvidence : Digest).

Definition finish_text (f : Finish) : ustr :=
  match f with F_tool_calls => u "tool_calls" | F_stop => u "stop" | F_length => u "length" | F_cancelled => u "cancelled" | F_error => u "error" end.
Definition retry_text (r : RetryClass) : ustr :=
  match r with SAFE_SAME_REQUEST => u "SAFE_SAME_REQUEST" | RECONCILE_FIRST => u "RECONCILE_FIRST" | DO_NOT_RETRY => u "DO_NOT_RETRY" end.

Definition EMPTY_USAGE : jsvalue :=
  obj [("inputTokens", VNull); ("outputTokens", VNull); ("reasoningTokens", VNull); ("cachedInputTokens", VNull);
       ("cacheWriteTokens", VNull); ("totalTokens", VNull); ("providerReported", VBool false); ("complete", VBool false);
       ("estimatedCost", VNull)].

Definition base_members (b : ReceiptBase) : list (string * jsvalue) :=
  [("schemaVersion", VInt 1); ("runId", VStr (rb_runId b)); ("cloudCallId", VStr (rb_cloudCallId b));
   ("requestEnvelopeObjectDigest", VStr (rb_requestEnvelopeObjectDigest b));
   ("providerWireRequestObjectDigest", VStr (rb_providerWireRequestObjectDigest b));
   ("providerWireRequestDigest", VStr (rb_providerWireRequestDigest b)); ("deploymentId", VStr (rb_deploymentId b));
   ("completedAt", VStr (rb_completedAt b)); ("usage", EMPTY_USAGE)].

Definition error_json (code : ustr) (retry : RetryClass) (message : ustr) : jsvalue :=
  obj [("code", VStr code); ("retryClass", VStr (retry_text retry)); ("message", VStr message)].

Definition receipt_json (r : CloudCompletionReceipt) : jsvalue :=
  match r with
  | VALID_RESULT b acceptedAt finish raw value digest =>
      obj (base_members b ++ [("outcome", str "VALID_RESULT"); ("acceptedAt", VStr acceptedAt); ("finishReason", VStr (finish_text finish));
        ("rawResponseArtifactObjectDigest", VStr raw); ("result", value); ("resultObjectDigest", VStr digest)])
  | INCOMPLETE b acceptedAt finish incident code retry message =>
      obj (base_members b ++ [("outcome", str "INCOMPLETE"); ("acceptedAt", VStr acceptedAt); ("finishReason", VStr (finish_text finish));
        ("incidentRecordObjectDigest", VStr incident); ("error", error_json code retry message)])
  | FAILED_ACCEPTED b acceptedAt incident code message =>
      obj (base_members b ++ [("outcome", str "FAILED"); ("acceptedness", str "ACCEPTED"); ("acceptedAt", VStr acceptedAt);
        ("finishReason", str "error"); ("incidentRecordObjectDigest", VStr incident); ("error", error_json code DO_NOT_RETRY message)])
  | FAILED_NOT_ACCEPTED b evidence code message =>
      obj (base_members b ++ [("outcome", str "FAILED"); ("acceptedness", str "PROVEN_NOT_ACCEPTED"); ("finishReason", str "error");
        ("transportEvidenceObjectDigest", VStr evidence); ("error", error_json code SAFE_SAME_REQUEST message)])
  end.

(** [canonicalizeRfc8785(JSON.parse(JSON.stringify(unsignedEnvelope(...))))] as bytes. *)
Definition receiptEnvelopeBytes (r : CloudCompletionReceipt) : result WireErr bytes :=
  let? e := unsignedEnvelope (u "CloudCompletionReceipt") (receipt_json r) in
  match JSON_parse (JSON_stringify (obj [("schemaName", VStr (schemaName e)); ("schemaVersion", VInt (schemaVersion e));
          ("payload", payload e); ("payloadDigest", VStr (env_payloadDigest e)); ("signatures", VArr [])])) with
  | None => Err wire_json_syntax
  | Some v => let? text := of_digest (of_canon (canonicalizeRfc8785 v)) in Ok (utf8_encode text)
  end.

(** ** The adapter *)

Inductive CloudErr : Set :=
| ce_wire (e : WireErr) | ce_store_constraint | ce_store_lookup | ce_context_packet_missing | ce_evidence_missing | ce_crashed.

Section Adapter.
Context {Store : Type}.
Local Abbreviation program := (prog Store FetchRequest FetchOutcome CloudErr).

Definition lift {A} (r : result WireErr A) : program A := match r with Ok a => Ret a | Err e => Throw (ce_wire e) end.

(** The readings of the clock for [completedAt] and [acceptedAt], and where response bytes are put. *)
Record OneShotAdapterOptions := mkOptions {
  op_capabilities : DeploymentCapabilities;
  op_approved : bool;
  op_approvedDigest : Digest;
  op_authorization : ustr;
  op_completedAt : ustr;
  op_acceptedAt : ustr;
  op_putBytes : bytes -> program Digest
}.

(** [options.putBytes ?? ((bytes) => objectDigestFromBytes(bytes))] *)
Definition hash_only (bs : bytes) : program Digest := Ret (objectDigestFromBytes bs).

Inductive AdapterErr : Set := recovery_error (e : RecoveryErr) | GRADE_MISMATCH.

Record OneShotAdapter := mkAdapter { ad_options : OneShotAdapterOptions; ad_recovery : CloudRecoveryAdapter }.

Definition createOneShotAdapter (o : OneShotAdapterOptions) : result AdapterErr OneShotAdapter :=
  match recoveryAdapterFor (op_capabilities o) None with
  | Err e => Err (recovery_error e)
  | Ok recovery =>
      throw_if negb (recoveryMatchesCapabilities (op_capabilities o) recovery) with GRADE_MISMATCH;
      Ok (mkAdapter o recovery)
  end.

Definition lookupKeysOf (recovery : CloudRecoveryAdapter) (requestDigest : Digest) (providerOperationId : option ustr) : list LookupKey :=
  match rec_grade recovery with
  | grade_C => []
  | grade_B => match providerOperationId with Some v => [key_provider_operation v] | None => [] end
  | grade_A => [key_request_object requestDigest]
  end.

Definition as_object_digest (value : ustr) : result WireErr Digest :=
  throw_if negb (isObjectDigest_units value) with wire_brand; Ok value.

Definition baseReceipt (o : OneShotAdapterOptions) (d : CloudDispatch) : result WireErr ReceiptBase :=
  let wire := payload (d_wireRequest d) in
  let request := payload (d_request d) in
  let? requestDigest := as_object_digest (string_field "requestEnvelopeObjectDigest" wire) in
  let? wireObjectDigest := envelopeDigest (d_wireRequest d) in
  let? wireDigest := providerWireRequestDigestOf wire in
  Ok (mkReceiptBase (string_field "runId" request) (string_field "cloudCallId" request) requestDigest wireObjectDigest wireDigest
        (string_field "deploymentId" wire) (op_completedAt o)).

Definition notDispatched (o : OneShotAdapterOptions) (d : CloudDispatch) (evidence : Digest) (code message : ustr)
    : result WireErr CloudDispatchResult :=
  let? b := baseReceipt o d in
  Ok (dr_not_dispatched code (FAILED_NOT_ACCEPTED b evidence code message)).

Definition incomplete (o : OneShotAdapterOptions) (d : CloudDispatch) (incident : Digest) (cancelled : bool)
    : result WireErr CloudDispatchResult :=
  let? b := baseReceipt o d in
  Ok (dr_completed (if cancelled
    then INCOMPLETE b (op_acceptedAt o) F_cancelled incident (u "CANCELLED") RECONCILE_FIRST (u "stream cancelled")
    else INCOMPLETE b (op_acceptedAt o) F_length incident (u "INCOMPLETE") DO_NOT_RETRY (u "finish_reason=length"))).

(** 429, 400, 401 and 403 prove that the provider did not accept the request. *)
Definition refused_status (status : Z) : bool := includes status [429; 400; 401; 403]%Z.
Definition success_status (status : Z) : bool := (200 <=? status)%Z && (status <? 300)%Z.

Local Open Scope prog_scope.

Definition unknown_outcome (a : OneShotAdapter) (d : CloudDispatch) (evidence : bytes) : program CloudDispatchResult :=
  do requestDigest <- lift (as_object_digest (string_field "requestEnvelopeObjectDigest" (payload (d_wireRequest d))));
  do digest <- op_putBytes (ad_options a) evidence;
  Ret (dr_outcome_unknown (lookupKeysOf (ad_recovery a) requestDigest None) digest).

Definition refuse (a : OneShotAdapter) (d : CloudDispatch) (evidence : bytes) (code message : ustr) : program CloudDispatchResult :=
  do digest <- op_putBytes (ad_options a) evidence;
  lift (notDispatched (ad_options a) d digest code message).

(** The branches after the body of a successful response has been read. *)
Definition settle_body (a : OneShotAdapter) (d : CloudDispatch) (contentType : ustr) (collected : bytes) (overflow : bool)
    : program CloudDispatchResult :=
  let o := ad_options a in
  let parsed := parseBody collected contentType overflow in
  if po_truncatedStream parsed && bool_decide (po_finish parsed = None) && bool_decide (rec_grade (ad_recovery a) = grade_C)
  then do digest <- op_putBytes o collected; Ret (dr_outcome_unknown [] digest)
  else if po_overflow parsed || bool_decide (po_finish parsed = Some F_length)
  then do digest <- op_putBytes o collected; lift (incomplete o d digest false)
  else if bool_decide (po_finish parsed = Some F_cancelled)
  then do digest <- op_putBytes o collected; lift (incomplete o d digest true)
  else match decodeResult parsed d with
       | decoded_protocol message =>
           do b <- lift (baseReceipt o d);
           do digest <- op_putBytes o collected;
           Ret (dr_completed (FAILED_ACCEPTED b (op_acceptedAt o) digest (u "MODEL_PROTOCOL_ERROR") message))
       | decoded_ok value finish =>
           do b <- lift (baseReceipt o d);
           do digest <- op_putBytes o collected;
           Ret (dr_completed (VALID_RESULT b (op_acceptedAt o) finish digest value
             (objectDigestFromBytes (utf8_encode (JSON_stringify value)))))
       end.

Definition status_text (status : Z) : ustr := u "status:" ++ int_toString status.

Definition settle_response (a : OneShotAdapter) (d : CloudDispatch) (r : HttpResponse) : program CloudDispatchResult :=
  if refused_status (rs_status r)
  then refuse a d (utf8_encode (status_text (rs_status r))) (u "PROVEN_NOT_ACCEPTED")
         (u "provider rejected with " ++ int_toString (rs_status r))
  else if negb (success_status (rs_status r)) then unknown_outcome a d (utf8_encode (status_text (rs_status r)))
  else match readLimited (rs_body r) with
       | None => unknown_outcome a d (utf8_encode (u "stream-drop"))
       | Some (collected, overflow) =>
           do _ <- lift (as_object_digest (string_field "requestEnvelopeObjectDigest" (payload (d_wireRequest d))));
           settle_body a d (default [] (rs_contentType r)) collected overflow
       end.

(** What happens once the request has been answered or has failed. *)
Definition settle_post (a : OneShotAdapter) (d : CloudDispatch) (outcome : FetchOutcome) : program CloudDispatchResult :=
  match outcome with
  | fetch_throw e =>
      if classifyPostOnceThrow e
      then refuse a d (utf8_encode (u "transport-error")) (u "NOT_DISPATCHED") (u "provider request was not accepted")
      else unknown_outcome a d (utf8_encode (u "transport-ambiguous"))
  | fetch_response r => settle_response a d r
  end.

Definition completeOnce (a : OneShotAdapter) (d : CloudDispatch) : program CloudDispatchResult :=
  let o := ad_options a in
  do reconstructed <- lift (providerBodyBytes (payload (d_conversation d)) (payload (d_request d)) (op_capabilities o));
  do matching <- lift (wireDispatchBindingsMatch d (op_capabilities o) reconstructed);
  if negb matching
  then refuse a d (utf8_encode (u "binding-mismatch")) (u "WIRE_BINDING_MISMATCH")
         (u "re-hashed conversation/wire bindings do not match the sealed envelopes")
  else
    do wireEnvelopeObjectDigest <- lift (envelopeDigest (d_wireRequest d));
    do injected <- lift (injectSealedAuthorization (payload (d_wireRequest d)) reconstructed (op_approved o) (op_approvedDigest o)
                           wireEnvelopeObjectDigest (op_authorization o));
    match injected with
    | None => refuse a d (utf8_encode (u "approval-missing")) (u "APPROVAL_MISSING") (u "provider-wire approval is missing")
    | Some i => Post (mkFetch (inj_endpointIdentity i) (inj_headers i) (inj_body i)) (settle_post a d)
    end.
End Adapter.
End Gateway.
