(* ===== verification/CloudStore.v ===== *)
(** The tables of one project that cloud calls use (packages/state-store/src/repositories/artifacts.ts
    and usage.ts, with the constraints of migrations/control/0001_initial.sql): artifacts, cloud calls,
    the artifacts bound to them, transport attempts and usage entries.  Every write is one immediate
    transaction: an operation that throws leaves the tables as they were. *)

From Stdlib Require Import String.
From S2P Require Import Prelude JsText CanonicalJson Digest RunStates StateInvariants CloudWire.
Open Scope string_scope.
Open Scope list_scope.

Inductive CloudCallState : Set :=
| cc_prepared | cc_dispatching | cc_in_flight | cc_completed | cc_failed | cc_outcome_unknown | cc_cancelled.
#[export] Instance CloudCallState_eq_dec : EqDecision CloudCallState.
Proof. solve_decision. Defined.

Inductive AttemptOutcome : Set :=
| at_not_dispatched | at_failed_before_acceptance | at_accepted | at_completed | at_accepted_outcome_unknown | at_reconciled.

Record CloudCallRecord := mkCall {
  cc_runId : ustr;
  cc_purpose : ustr;
  cc_deploymentId : ustr;
  cc_requestDigest : Digest;
  cc_contextPacketDigest : Digest;
  cc_recoveryGrade : RecoveryGrade;
  cc_state : CloudCallState;
  cc_responseDigest : option Digest;
  cc_createdAt : ustr;
  cc_updatedAt : ustr
}.

Record CloudCallBinding := mkCallBinding { cb_cloudCallId : ustr; cb_role : ustr; cb_artifactDigest : Digest }.
#[export] Instance CloudCallBinding_eq_dec : EqDecision CloudCallBinding.
Proof. solve_decision. Defined.

Record TransportAttempt := mkAttempt {
  ta_attemptId : ustr;
  ta_cloudCallId : ustr;
  ta_attemptNumber : Z;
  ta_requestStartedAt : ustr;
  ta_responseStartedAt : option ustr;
  ta_completedAt : option ustr;
  ta_outcome : AttemptOutcome;
  ta_providerRequestId : option ustr
}.

(** A row of [usage_entries]. *)
Record UsageInput := mkUsageInput {
  ui_usageEntryId : ustr;
  ui_cloudCallId : ustr;
  ui_createdAt : ustr;
  ui_correctionOf : option ustr;
  ui_inputTokens : option Z;
  ui_outputTokens : option Z;
  ui_reasoningTokens : option Z;
  ui_cachedInputTokens : option Z;
  ui_cacheWriteTokens : option Z;
  ui_normalizedTotalTokens : option Z;
  ui_providerReported : bool;
  ui_complete : bool;
  ui_currency : option ustr;
  ui_estimatedCostDecimal : option ustr;
  ui_pricingSnapshotDigest : option Digest
}.

(** Artifacts by digest with their schema name, runs with their workspace, calls by id. *)
Record CloudTables := mkTables {
  t_artifacts : list (Digest * option ustr);
  t_runs : list (ustr * ustr);
  t_calls : list (ustr * CloudCallRecord);
  t_bindings : list CloudCallBinding;
  t_attempts : list TransportAttempt;
  t_usage : list UsageInput
}.

Inductive StoreErr : Set := SQLITE_CONSTRAINT | STORE_LOOKUP.
#[export] Instance StoreErr_eq_dec : EqDecision StoreErr.
Proof. solve_decision. Defined.

Definition tx (R : Type) : Type := CloudTables -> result StoreErr (R * CloudTables).

(** [executeWrite]: commit on success, roll back when the work throws. *)
Definition run_tx {R} (work : tx R) (t : CloudTables) : CloudTables * result StoreErr R :=
  match work t with Ok (r, t') => (t', Ok r) | Err e => (t, Err e) end.

Definition with_artifacts (x : list (Digest * option ustr)) (t : CloudTables) : CloudTables :=
  mkTables x (t_runs t) (t_calls t) (t_bindings t) (t_attempts t) (t_usage t).
Definition with_calls (x : list (ustr * CloudCallRecord)) (t : CloudTables) : CloudTables :=
  mkTables (t_artifacts t) (t_runs t) x (t_bindings t) (t_attempts t) (t_usage t).
Definition with_bindings (x : list CloudCallBinding) (t : CloudTables) : CloudTables :=
  mkTables (t_artifacts t) (t_runs t) (t_calls t) x (t_attempts t) (t_usage t).
Definition with_attempts (x : list TransportAttempt) (t : CloudTables) : CloudTables :=
  mkTables (t_artifacts t) (t_runs t) (t_calls t) (t_bindings t) x (t_usage t).
Definition with_usage (x : list UsageInput) (t : CloudTables) : CloudTables :=
  mkTables (t_artifacts t) (t_runs t) (t_calls t) (t_bindings t) (t_attempts t) x.

(** ** Artifacts *)

Definition hasArtifact (digest : Digest) (t : CloudTables) : bool := JsMap.has digest (t_artifacts t).

(** The digest is the primary key. *)
Definition putArtifact (digest : Digest) (schemaName : option ustr) : tx unit := fun t =>
  throw_if hasArtifact digest t with SQLITE_CONSTRAINT;
  Ok (tt, with_artifacts (JsMap.set digest schemaName (t_artifacts t)) t).

(** ** Cloud calls *)

Definition getCloudCall (cloudCallId : ustr) (t : CloudTables) : option CloudCallRecord := JsMap.get cloudCallId (t_calls t).

(** [CHECK ((state = 'completed') = (response_digest IS NOT NULL))] *)
Definition response_check (state : CloudCallState) (response : option Digest) : bool :=
  bool_decide (state = cc_completed) && bool_decide (response <> None) ||
  bool_decide (state <> cc_completed) && bool_decide (response = None).

(** [UNIQUE(run_id, purpose, request_digest)] *)
Definition same_request (a b : CloudCallRecord) : bool :=
  bool_decide (cc_runId a = cc_runId b) && bool_decide (cc_purpose a = cc_purpose b) &&
  bool_decide (cc_requestDigest a = cc_requestDigest b).

Definition createCloudCall (cloudCallId : ustr) (record : CloudCallRecord) : tx unit := fun t =>
  throw_if JsMap.has cloudCallId (t_calls t) || existsb (same_request record) (JsMap.values (t_calls t)) with SQLITE_CONSTRAINT;
  throw_if negb (JsMap.has (cc_runId record) (t_runs t)) || negb (hasArtifact (cc_requestDigest record) t) ||
    negb (hasArtifact (cc_contextPacketDigest record) t) ||
    negb (match cc_responseDigest record with Some d => hasArtifact d t | None => true end) with SQLITE_CONSTRAINT;
  throw_if negb (response_check (cc_state record) (cc_responseDigest record)) with SQLITE_CONSTRAINT;
  Ok (tt, with_calls (t_calls t ++ [(cloudCallId, record)]) t).

(** The registry entry a binding must have, with the schema of the artifact. *)
Definition role_entry (role : ustr) : option ArtifactRoleEntry :=
  array_find (fun e => match ownerKind e with OwnCloudCall => true | _ => false end && bool_decide (u (StateInvariants.role e) = role))
    ARTIFACT_ROLE_REGISTRY.

Definition schema_matches (e : ArtifactRoleEntry) (schemaName : option ustr) : bool :=
  match artifactSchemaName e with None => true | Some s => bool_decide (schemaName = Some (u s)) end.

(** The insert with its primary key, foreign keys and the trigger [enforce_cloud_call_artifact_role]. *)
Definition bindCloudCallArtifact (cloudCallId role : ustr) (digest : Digest) : tx unit := fun t =>
  match role_entry role, JsMap.get digest (t_artifacts t) with
  | Some entry, Some schemaName =>
      throw_if negb (schema_matches entry schemaName) with SQLITE_CONSTRAINT;
      throw_if match cardinality entry with ONE_OR_MORE => false | _ => true end &&
        existsb (fun b => bool_decide (cb_cloudCallId b = cloudCallId) && bool_decide (cb_role b = role)) (t_bindings t)
        with SQLITE_CONSTRAINT;
      throw_if negb (JsMap.has cloudCallId (t_calls t)) with SQLITE_CONSTRAINT;
      let b := mkCallBinding cloudCallId role digest in
      throw_if includes b (t_bindings t) with SQLITE_CONSTRAINT;
      Ok (tt, with_bindings (t_bindings t ++ [b]) t)
  | _, _ => Err SQLITE_CONSTRAINT
  end.

Definition set_state (state : CloudCallState) (response : option Digest) (updatedAt : ustr) (r : CloudCallRecord) : CloudCallRecord :=
  mkCall (cc_runId r) (cc_purpose r) (cc_deploymentId r) (cc_requestDigest r) (cc_contextPacketDigest r)
    (cc_recoveryGrade r) state response (cc_createdAt r) updatedAt.

(** [true] when the one row was updated. *)
Definition transitionPreparedCloudCallToDispatching (cloudCallId : ustr) (requestDigest : Digest) (updatedAt : ustr) : tx bool := fun t =>
  match getCloudCall cloudCallId t with
  | Some r =>
      if bool_decide (cc_requestDigest r = requestDigest) && bool_decide (cc_state r = cc_prepared)
      then Ok (true, with_calls (JsMap.set cloudCallId (set_state cc_dispatching (cc_responseDigest r) updatedAt r) (t_calls t)) t)
      else Ok (false, t)
  | None => Ok (false, t)
  end.

(** [state IN ('dispatching', 'in-flight') AND response_digest IS NULL] *)
Definition in_transit (r : CloudCallRecord) : bool :=
  (bool_decide (cc_state r = cc_dispatching) || bool_decide (cc_state r = cc_in_flight)) &&
  bool_decide (cc_responseDigest r = None).

Definition completeCloudCall (cloudCallId : ustr) (responseDigest : Digest) (updatedAt : ustr) : tx unit := fun t =>
  match getCloudCall cloudCallId t with
  | Some r =>
      throw_if negb (in_transit r) with STORE_LOOKUP;
      throw_if negb (hasArtifact responseDigest t) with SQLITE_CONSTRAINT;
      Ok (tt, with_calls (JsMap.set cloudCallId (set_state cc_completed (Some responseDigest) updatedAt r) (t_calls t)) t)
  | None => Err STORE_LOOKUP
  end.

(** ** Transport attempts *)

Definition attempts_of (cloudCallId : ustr) (t : CloudTables) : list TransportAttempt :=
  List.filter (fun a => bool_decide (ta_cloudCallId a = cloudCallId)) (t_attempts t).

Definition nextAttemptNumber (cloudCallId : ustr) (t : CloudTables) : Z :=
  (foldl (fun m a => Z.max m (ta_attemptNumber a)) 0 (attempts_of cloudCallId t) + 1)%Z.

Definition insertTransportAttempt (cloudCallId requestStartedAt : ustr) (responseStartedAt completedAt : option ustr)
    (outcome : AttemptOutcome) (providerRequestId : option ustr) : tx unit := fun t =>
  let n := nextAttemptNumber cloudCallId t in
  let attemptId := u "att_" ++ cloudCallId ++ u "_" ++ int_toString n in
  throw_if includes attemptId (map ta_attemptId (t_attempts t)) with SQLITE_CONSTRAINT;
  throw_if negb (JsMap.has cloudCallId (t_calls t)) with SQLITE_CONSTRAINT;
  Ok (tt, with_attempts (t_attempts t ++ [mkAttempt attemptId cloudCallId n requestStartedAt responseStartedAt completedAt outcome providerRequestId]) t).

Definition recordCloudTransportAttempt (cloudCallId requestStartedAt : ustr) (completedAt : option ustr)
    (outcome : AttemptOutcome) : tx unit :=
  insertTransportAttempt cloudCallId requestStartedAt None completedAt outcome None.

(** [ORDER BY attempt_number ASC] *)
Definition listCloudTransportAttempts (cloudCallId : ustr) (t : CloudTables) : list TransportAttempt :=
  sort_by (fun a b => ta_attemptNumber a <=? ta_attemptNumber b)%Z (attempts_of cloudCallId t).

Definition settleCloudCallTransport (cloudCallId requestStartedAt updatedAt : ustr) (attemptOutcome : AttemptOutcome)
    (nextState : CloudCallState) : tx unit := fun t =>
  let? '(_, t) := insertTransportAttempt cloudCallId requestStartedAt None (Some updatedAt) attemptOutcome None t in
  match getCloudCall cloudCallId t with
  | Some r =>
      throw_if negb (in_transit r) with STORE_LOOKUP;
      Ok (tt, with_calls (JsMap.set cloudCallId (set_state nextState (cc_responseDigest r) updatedAt r) (t_calls t)) t)
  | None => Err STORE_LOOKUP
  end.

(** ** Usage *)

Definition nonneg (n : option Z) : bool := match n with Some z => (0 <=? z)%Z | None => true end.

(** The [CHECK] clauses of [usage_entries]. *)
Definition usage_checks (i : UsageInput) : bool :=
  forallb nonneg [ui_inputTokens i; ui_outputTokens i; ui_reasoningTokens i; ui_cachedInputTokens i; ui_cacheWriteTokens i;
                  ui_normalizedTotalTokens i] &&
  match ui_normalizedTotalTokens i with
  | None => negb (ui_complete i)
  | Some total => (total =? default 0 (ui_inputTokens i) + default 0 (ui_outputTokens i) + default 0 (ui_reasoningTokens i))%Z
  end &&
  match ui_cachedInputTokens i, ui_inputTokens i with Some c, Some n => (c <=? n)%Z | _, _ => true end &&
  match ui_currency i, ui_estimatedCostDecimal i, ui_pricingSnapshotDigest i with
  | None, None, None | Some _, Some _, Some _ => true
  | _, _, _ => false
  end &&
  negb (bool_decide (ui_correctionOf i = Some (ui_usageEntryId i))).

Definition appendUsage (i : UsageInput) : tx unit := fun t =>
  throw_if negb (JsMap.has (ui_cloudCallId i) (t_calls t)) with STORE_LOOKUP;
  throw_if negb (usage_checks i) with SQLITE_CONSTRAINT;
  throw_if includes (ui_usageEntryId i) (map ui_usageEntryId (t_usage t)) with SQLITE_CONSTRAINT;
  throw_if match ui_correctionOf i with
           | Some c => includes (Some c) (map ui_correctionOf (t_usage t)) ||
                       negb (existsb (fun e => bool_decide (ui_usageEntryId e = c) && bool_decide (ui_cloudCallId e = ui_cloudCallId i)) (t_usage t))
           | None => false
           end with SQLITE_CONSTRAINT;
  throw_if negb (match ui_pricingSnapshotDigest i with Some d => hasArtifact d t | None => true end) with SQLITE_CONSTRAINT;
  Ok (tt, with_usage (t_usage t ++ [i]) t).

(** The joined row: the run of the call and the workspace of the run. *)
Record UsageRecord := mkUsageRecord { ur_row : UsageInput; ur_runId : ustr; ur_workspaceId : ustr }.

Definition joined (t : CloudTables) (i : UsageInput) : option UsageRecord :=
  call ← getCloudCall (ui_cloudCallId i) t;
  workspace ← JsMap.get (cc_runId call) (t_runs t);
  Some (mkUsageRecord i (cc_runId call) workspace).

Definition getUsage (usageEntryId : ustr) (t : CloudTables) : result StoreErr UsageRecord :=
  match array_find (fun i => bool_decide (ui_usageEntryId i = usageEntryId)) (t_usage t) with
  | Some i => match joined t i with Some r => Ok r | None => Err STORE_LOOKUP end
  | None => Err STORE_LOOKUP
  end.

(** [ORDER BY created_at, usage_entry_id]; the columns are ASCII, so the byte order of SQLite is the
    order of the code units. *)
Definition row_leb (a b : ustr * ustr) : bool :=
  if bool_decide (a.1 = b.1) then utf16_leb a.2 b.2 else utf16_leb a.1 b.1.

Definition listUsageEntries (t : CloudTables) : list UsageRecord :=
  omap (joined t) (sort_by (fun a b => row_leb (ui_createdAt a, ui_usageEntryId a) (ui_createdAt b, ui_usageEntryId b)) (t_usage t)).

Record CloudCallOutcome := mkOutcome {
  co_cloudCallId : ustr;
  co_runId : ustr;
  co_workspaceId : ustr;
  co_state : CloudCallState;
  co_createdAt : ustr
}.

Definition listCloudCallOutcomes (t : CloudTables) : list CloudCallOutcome :=
  omap (fun '(i, c) => workspace ← JsMap.get (cc_runId c) (t_runs t); Some (mkOutcome i (cc_runId c) workspace (cc_state c) (cc_createdAt c)))
    (sort_by (fun a b => row_leb (cc_createdAt a.2, a.1) (cc_createdAt b.2, b.1)) (t_calls t)).
