(* ===== verification/Usage.v ===== *)
(** Usage accounting (packages/usage/src): pricing snapshots, normalization of what a provider reports,
    the rows written to the ledger, the projection of a ledger to totals, and the export manifest. *)

From Stdlib Require Import String QArith ZifyBool.
From S2P Require Import Prelude JsText CanonicalJson Digest Classification CloudStore CanonicalJsonTheorems JsJson.
Open Scope string_scope.
Open Scope list_scope.

(** ** pricing.ts *)

Record PricingSnapshot := mkPricing { pr_currency : ustr; pr_decimalAmount : ustr; pr_digest : Digest }.

(** A partial snapshot; [None] is a missing or ill-typed property. *)
Record PartialPricing := mkPartialPricing {
  pp_currency : option ustr;
  pp_decimalAmount : option ustr;
  pp_digest : option ustr
}.

(** The expression MONEY: zero or digits without a leading zero, then an optional point and 1 to 18
    digits. *)
Definition is_money (s : ustr) : bool :=
  let '(whole, rest) := span_digits s in
  match whole with
  | [] => false
  | c :: more => bool_decide (c = 48%N -> more = [])
  end &&
  match rest with
  | [] => true
  | c :: frac => (c =? DOT)%N && forallb is_digit frac && (1 <=? length frac)%nat && (length frac <=? 18)%nat
  end.

Definition is_letter (c : N) : bool := ((65 <=? c) && (c <=? 90) || (97 <=? c) && (c <=? 122))%N.

(** [/^[A-Za-z]{3,8}$/] *)
Definition is_currency (s : ustr) : bool := forallb is_letter s && (3 <=? length s)%nat && (length s <=? 8)%nat.

Definition snapshotPricing (partial : option PartialPricing) : option PricingSnapshot :=
  match partial with
  | Some (mkPartialPricing (Some currency) (Some amount) (Some digest)) =>
      if is_currency currency && is_money amount && isObjectDigest_units digest
      then Some (mkPricing currency amount digest) else None
  | _ => None
  end.

(** ** normalize.ts *)

Record NormalizedUsage := mkUsage {
  nu_inputTokens : option Z;
  nu_outputTokens : option Z;
  nu_reasoningTokens : option Z;
  nu_cachedInputTokens : option Z;
  nu_cacheWriteTokens : option Z;
  nu_totalTokens : option Z;
  nu_providerReported : bool;
  nu_complete : bool;
  nu_estimatedCost : option PricingSnapshot
}.

(** A reported number: null or missing, an integer, or anything else (a fraction, NaN, an infinity).
    Integers are exact; the sums below are those of JavaScript while they stay below 2^53. *)
Inductive DraftNumber : Set := dn_missing | dn_integer (z : Z) | dn_other.

Record ProviderUsageDraft := mkDraft {
  ud_inputTokens : DraftNumber;
  ud_outputTokens : DraftNumber;
  ud_reasoningTokens : DraftNumber;
  ud_cachedInputTokens : DraftNumber;
  ud_cacheWriteTokens : DraftNumber;
  ud_estimatedCost : option PartialPricing;
  ud_reasoningIncludedInOutput : bool
}.

Definition UNREPORTED_USAGE : NormalizedUsage := mkUsage None None None None None None false false None.

Definition presentNumber (v : DraftNumber) : bool := match v with dn_integer z => (0 <=? z)%Z | _ => false end.
Definition fieldOrNull (v : DraftNumber) : option Z :=
  match v with dn_integer z => if (0 <=? z)%Z then Some z else None | _ => None end.

Definition applyPricing (n : NormalizedUsage) (snapshot : option PricingSnapshot) : NormalizedUsage :=
  mkUsage (nu_inputTokens n) (nu_outputTokens n) (nu_reasoningTokens n) (nu_cachedInputTokens n) (nu_cacheWriteTokens n)
    (nu_totalTokens n) (nu_providerReported n) (nu_complete n) snapshot.

Definition is_some {A} (o : option A) : bool := match o with Some _ => true | None => false end.

Definition normalizeProviderUsage (draft : option ProviderUsageDraft) : NormalizedUsage :=
  match draft with
  | None => UNREPORTED_USAGE
  | Some d =>
      let inputTokens := fieldOrNull (ud_inputTokens d) in
      let reported := fieldOrNull (ud_outputTokens d) in
      let reasoningTokens := fieldOrNull (ud_reasoningTokens d) in
      let cached := fieldOrNull (ud_cachedInputTokens d) in
      let cacheWriteTokens := fieldOrNull (ud_cacheWriteTokens d) in
      let providerReported := presentNumber (ud_inputTokens d) || presentNumber (ud_outputTokens d) ||
        presentNumber (ud_reasoningTokens d) || presentNumber (ud_cachedInputTokens d) || presentNumber (ud_cacheWriteTokens d) in
      let overlappingReasoning := match reported, reasoningTokens with
        | Some o, Some r => ud_reasoningIncludedInOutput d && (o <? r)%Z | _, _ => false end in
      let outputTokens := match reported, reasoningTokens with
        | Some o, Some r => if ud_reasoningIncludedInOutput d && (r <=? o)%Z then Some (o - r)%Z else reported
        | _, _ => reported end in
      let cachedInputTokens := match cached, inputTokens with
        | Some c, Some i => if (i <? c)%Z then None else cached | _, _ => cached end in
      let unitPresent := is_some inputTokens || is_some outputTokens || is_some reasoningTokens in
      let totalTokens := if unitPresent && negb overlappingReasoning
        then Some (default 0 inputTokens + default 0 outputTokens + default 0 reasoningTokens)%Z else None in
      applyPricing (mkUsage inputTokens outputTokens reasoningTokens cachedInputTokens cacheWriteTokens totalTokens
        providerReported (unitPresent && is_some totalTokens && negb overlappingReasoning) None)
        (snapshotPricing (ud_estimatedCost d))
  end.

Definition toUsageInput (usageEntryId cloudCallId createdAt : ustr) (n : NormalizedUsage) (correctionOf : option ustr) : UsageInput :=
  mkUsageInput usageEntryId cloudCallId createdAt correctionOf (nu_inputTokens n) (nu_outputTokens n) (nu_reasoningTokens n)
    (nu_cachedInputTokens n) (nu_cacheWriteTokens n) (if nu_complete n then nu_totalTokens n else None)
    (nu_providerReported n) (nu_complete n) (pr_currency <$> nu_estimatedCost n) (pr_decimalAmount <$> nu_estimatedCost n)
    (pr_digest <$> nu_estimatedCost n).

(** ** projections.ts *)

Inductive UsageScopeKind : Set := scope_run | scope_session | scope_day | scope_project.

(** [UsageLedgerEntry]: a joined record with its project. *)
Record UsageLedgerEntry := mkLedgerEntry { le_record : UsageRecord; le_projectId : ustr }.
Definition le_row (e : UsageLedgerEntry) : UsageInput := ur_row (le_record e).
Definition le_id (e : UsageLedgerEntry) : ustr := ui_usageEntryId (le_row e).
Definition le_call (e : UsageLedgerEntry) : ustr := ui_cloudCallId (le_row e).
Definition le_createdAt (e : UsageLedgerEntry) : ustr := ui_createdAt (le_row e).

(** JavaScript's [<] on strings. *)
Definition str_lt (a b : ustr) : bool := utf16_leb a b && negb (bool_decide (a = b)).

Definition referenced_ids (entries : list UsageLedgerEntry) : list ustr := omap (fun e => ui_correctionOf (le_row e)) entries.

Definition newer (leaf current : UsageLedgerEntry) : bool :=
  str_lt (le_createdAt current) (le_createdAt leaf) ||
  bool_decide (le_createdAt leaf = le_createdAt current) && str_lt (le_id current) (le_id leaf).

(** The body of the loop over the leaves. *)
Definition keep_latest (latest : list (ustr * UsageLedgerEntry)) (leaf : UsageLedgerEntry) : list (ustr * UsageLedgerEntry) :=
  match JsMap.get (le_call leaf) latest with
  | None => JsMap.set (le_call leaf) leaf latest
  | Some current => if newer leaf current then JsMap.set (le_call leaf) leaf latest else latest
  end.

Definition entry_leb (a b : UsageLedgerEntry) : bool := row_leb (le_createdAt a, le_id a) (le_createdAt b, le_id b).

Definition uniqueLeaves (entries : list UsageLedgerEntry) : list UsageLedgerEntry :=
  let leaves := List.filter (fun e => negb (includes (le_id e) (referenced_ids entries))) entries in
  sort_by entry_leb (JsMap.values (foldl keep_latest [] leaves)).

Definition dayOf (timestamp : ustr) : ustr := take 10 timestamp.

Record UsageFilter := mkFilter {
  uf_scope : UsageScopeKind;
  uf_runId : option ustr;
  uf_workspaceId : option ustr;
  uf_day : option ustr;
  uf_projectId : option ustr
}.

(** [projectId] is [None] when the entry has no such property. *)
Definition inScope (runId workspaceId createdAt : ustr) (projectId : option ustr) (filter : UsageFilter) : bool :=
  match uf_scope filter with
  | scope_run => bool_decide (uf_runId filter = Some runId)
  | scope_session => bool_decide (uf_workspaceId filter = Some workspaceId)
  | scope_day => bool_decide (uf_day filter = Some (dayOf createdAt))
  | scope_project => match uf_projectId filter, projectId with
                     | Some wanted, Some p => bool_decide (p = wanted)
                     | _, _ => true
                     end
  end.

Definition sumOrNull (values : list (option Z)) : option Z :=
  if (length values =? 0)%nat || existsb (fun v => negb (is_some v)) values then None
  else Some (foldl (fun total v => (total + default 0 v)%Z) 0%Z values).

(** [value.split(".")]: the part before the first point and the part up to the second. *)
Definition whole_part (value : ustr) : ustr := match split_unit DOT value with w :: _ => w | [] => [] end.
Definition frac_part (value : ustr) : ustr := match split_unit DOT value with _ :: f :: _ => f | _ => [] end.

(** [BigInt(text)] of a text of decimal digits; [None] is a syntax error. *)
Definition BigInt (text : ustr) : option Z := Z.of_N ∘ N.of_uint <$> units_uint text.

Definition pad_end (n : nat) (s : ustr) : ustr := s ++ replicate (n - length s) 48%N.
Definition pad_start (n : nat) (s : ustr) : ustr := replicate (n - length s) 48%N ++ s.

Definition sum_scale (values : list ustr) : nat := foldl (fun scale v => Nat.max scale (length (frac_part v))) 0 values.

Definition sum_scaled (scale : nat) (values : list ustr) : option Z :=
  foldl (fun acc v => scaled ← acc; n ← BigInt (whole_part v ++ pad_end scale (frac_part v)); Some (scaled + n)%Z) (Some 0%Z) values.

Inductive UsageErr : Set := BIGINT_SYNTAX.

Definition sumDecimal (values : list (option ustr)) : result UsageErr (option ustr) :=
  if existsb (fun v => negb (is_some v)) values then Ok None else
  let values := omap id values in
  let scale := sum_scale values in
  match sum_scaled scale values with
  | None => Err BIGINT_SYNTAX
  | Some scaled =>
      let text := pad_start (scale + 1) (int_toString scaled) in
      if (scale =? 0)%nat then Ok (Some text) else
      let split := length text - scale in
      Ok (Some (take split text ++ [DOT] ++ drop split text))
  end.

Record UsageProjection := mkProjectionOf {
  up_scope : UsageScopeKind;
  up_leafCount : nat;
  up_incompleteCount : nat;
  up_inputTokens : option Z;
  up_outputTokens : option Z;
  up_reasoningTokens : option Z;
  up_cachedInputTokens : option Z;
  up_cacheWriteTokens : option Z;
  up_totalTokens : option Z;
  up_complete : bool;
  up_estimatedCostDecimal : option ustr;
  up_currency : option ustr;
  up_acceptedCompletionCount : nat
}.

Definition scoped_leaves (entries : list UsageLedgerEntry) (filter : UsageFilter) : list UsageLedgerEntry :=
  List.filter (fun e => inScope (ur_runId (le_record e)) (ur_workspaceId (le_record e)) (le_createdAt e) (Some (le_projectId e)) filter)
    (uniqueLeaves entries).

Definition leaf_currencies (leaves : list UsageLedgerEntry) : list (option ustr) := uniq (map (fun l => ui_currency (le_row l)) leaves).

(** A cost is reported when all leaves have one in the same currency. *)
Definition usage_cost (leaves : list UsageLedgerEntry) : result UsageErr (option ustr) :=
  let currencies := leaf_currencies leaves in
  let costs := map (fun l => ui_estimatedCostDecimal (le_row l)) leaves in
  let sameCurrency := (length currencies =? 1)%nat && negb (includes None currencies) in
  if sameCurrency && forallb is_some costs then sumDecimal costs else Ok None.

Definition projectUsage (entries : list UsageLedgerEntry) (calls : list CloudCallOutcome) (filter : UsageFilter)
    : result UsageErr UsageProjection :=
  let leaves := scoped_leaves entries filter in
  let calls := List.filter (fun c => inScope (co_runId c) (co_workspaceId c) (co_createdAt c) (uf_projectId filter) filter) calls in
  let accepted := length (List.filter (fun c => bool_decide (co_state c = cc_completed)) calls) in
  let incompleteCount := length (List.filter (fun l => negb (ui_complete (le_row l))) leaves) in
  let complete := (0 <? length leaves)%nat && (incompleteCount =? 0)%nat in
  let? cost := usage_cost leaves in
  let currency := match cost, leaf_currencies leaves with Some _, c :: _ => c | _, _ => None end in
  let sum f := sumOrNull (map (fun l => f (le_row l)) leaves) in
  Ok (mkProjectionOf (uf_scope filter) (length leaves) incompleteCount (sum ui_inputTokens) (sum ui_outputTokens)
    (sum ui_reasoningTokens) (sum ui_cachedInputTokens) (sum ui_cacheWriteTokens)
    (if complete then sum ui_normalizedTotalTokens else None) complete cost currency accepted).

Definition emptyUsageProjection (scope : UsageScopeKind) : UsageProjection :=
  mkProjectionOf scope 0 0 None None None None None None false None None 0.

Definition tokenLabel (value : option Z) (complete : bool) : ustr :=
  match value with Some z => if complete then int_toString z else u "incomplete" | None => u "incomplete" end.

Definition scope_text (scope : UsageScopeKind) : ustr :=
  match scope with scope_run => u "run" | scope_session => u "session" | scope_day => u "day" | scope_project => u "project" end.

Definition formatUsageLines (scope : UsageScopeKind) (runId state : ustr) (p : UsageProjection) : list ustr :=
  let label f := tokenLabel (f p) (up_complete p) in
  [u "HEC usage (" ++ scope_text scope ++ u ")"; u "run: " ++ runId; u "state: " ++ state;
   u "input: " ++ label up_inputTokens; u "output: " ++ label up_outputTokens; u "reasoning: " ++ label up_reasoningTokens;
   u "total: " ++ label up_totalTokens;
   u "accepted completions: " ++ int_toString (Z.of_nat (up_acceptedCompletionCount p));
   u "Totals are informational and do not affect routing."; u "Open broker EXPORT for redacted usage artifacts."].

Definition loadUsageLedger (projectId : ustr) (t : CloudTables) : list UsageLedgerEntry * list CloudCallOutcome :=
  (map (fun r => mkLedgerEntry r projectId) (listUsageEntries t), listCloudCallOutcomes t).

(** ** export.ts *)

Record ExportableArtifact := mkExportable { ex_role : ustr; ex_objectDigest : Digest; ex_classification : DataClassification }.

Definition classificationRank (c : DataClassification) : nat :=
  match c with public => 0 | internal => 1 | confidential => 2 | restricted => 3 end.

Definition isClassificationPermitted (artifact permitted : DataClassification) : bool :=
  (classificationRank artifact <=? classificationRank permitted)%nat.

Definition filterExportableArtifacts (artifacts : list ExportableArtifact) (permitted : DataClassification) : list ExportableArtifact :=
  List.filter (fun a => isClassificationPermitted (ex_classification a) permitted) artifacts.

Definition classification_text (c : DataClassification) : ustr :=
  match c with public => u "public" | internal => u "internal" | confidential => u "confidential" | restricted => u "restricted" end.

Record ExportManifest := mkExport {
  em_projectId : ustr;
  em_permittedClassification : DataClassification;
  em_artifactObjectDigests : list Digest;
  em_manifestObjectDigest : Digest
}.

Section ExportManifests.
Context {DD : Doubles} {HH : Hashing}.

Definition buildExportManifest (projectId : ustr) (permitted : DataClassification) (artifacts : list ExportableArtifact)
    : result DigestErr ExportManifest :=
  let digests := map ex_objectDigest (filterExportableArtifacts artifacts permitted) in
  let payload := VObj [(u "schemaVersion", VInt 1); (u "projectId", VStr projectId);
    (u "permittedClassification", VStr (classification_text permitted)); (u "artifactObjectDigests", VArr (map VStr digests))] in
  let? text := of_canon (canonicalizeRfc8785 payload) in
  Ok (mkExport projectId permitted digests (objectDigestFromBytes (utf8_encode text))).
End ExportManifests.

(** Usage accounting: a normalized report always satisfies the constraints of the ledger table; the
    projection counts every cloud call once, by its latest uncorrected entry; and the decimal cost it
    reports is the exact sum. *)

Open Scope string_scope.
Open Scope list_scope.
Open Scope nat_scope.

(** ** Normalization *)

Lemma fieldOrNull_nonneg v : nonneg (fieldOrNull v) = true.
Proof. destruct v as [|z|]; try done. cbn. destruct (0 <=? z)%Z eqn:E; [exact E | done]. Qed.

(** Whatever the provider reports, the normalized row satisfies every [CHECK] of [usage_entries], and
    a complete row states the sum of its parts. *)
Theorem normalized_usage_storable draft usageEntryId call at_ correctionOf :
  correctionOf <> Some usageEntryId ->
  let row := toUsageInput usageEntryId call at_ (normalizeProviderUsage draft) correctionOf in
  usage_checks row = true /\
  (ui_complete row = true -> ui_normalizedTotalTokens row =
     Some (default 0 (ui_inputTokens row) + default 0 (ui_outputTokens row) + default 0 (ui_reasoningTokens row)))%Z.
Proof.
  intros Hne row. subst row. destruct draft as [d|]; [|by unfold usage_checks; cbn; rewrite bool_decide_false].
  unfold normalizeProviderUsage, applyPricing, toUsageInput, usage_checks. cbn [forallb nu_inputTokens nu_outputTokens
    nu_reasoningTokens nu_cachedInputTokens nu_cacheWriteTokens nu_totalTokens nu_complete nu_estimatedCost ui_inputTokens
    ui_outputTokens ui_reasoningTokens ui_cachedInputTokens ui_cacheWriteTokens ui_normalizedTotalTokens ui_complete
    ui_currency ui_estimatedCostDecimal ui_pricingSnapshotDigest ui_correctionOf ui_usageEntryId].
  pose proof (fieldOrNull_nonneg (ud_inputTokens d)) as Hi. pose proof (fieldOrNull_nonneg (ud_outputTokens d)) as Ho.
  pose proof (fieldOrNull_nonneg (ud_reasoningTokens d)) as Hr. pose proof (fieldOrNull_nonneg (ud_cachedInputTokens d)) as Hc.
  pose proof (fieldOrNull_nonneg (ud_cacheWriteTokens d)) as Hw.
  destruct (fieldOrNull (ud_inputTokens d)) as [i|], (fieldOrNull (ud_outputTokens d)) as [o|],
    (fieldOrNull (ud_reasoningTokens d)) as [r|], (fieldOrNull (ud_cachedInputTokens d)) as [c|];
    cbn [nonneg is_some orb andb negb default] in *; rewrite Hw, (bool_decide_false _ Hne);
    destruct (snapshotPricing _), (ud_reasoningIncludedInOutput d); cbn [fmap option_fmap option_map andb negb];
    repeat match goal with
    | |- context [if ?b then _ else _] => destruct b eqn:?; cbn [andb negb is_some nonneg default]
    end; (split; [|try (by intros _); done]).
  all: rewrite ?andb_true_iff; repeat split; unfold id; try done; lia.
Qed.

(** ** Decimal digits *)

Definition digits (s : ustr) : Prop := Forall (fun c => is_digit c = true) s.

(** The number a sequence of digits denotes. *)
Definition dval (s : ustr) : N := foldl (fun acc c => (10 * acc + (c - 48))%N) 0%N s.

Lemma dval_acc s a : foldl (fun acc c => (10 * acc + (c - 48))%N) a s = (a * 10 ^ N.of_nat (length s) + dval s)%N.
Proof.
  unfold dval. revert a. induction s as [|c s IH]; intros a; cbn [foldl length]; [cbn; lia|].
  rewrite IH, (IH (10 * 0 + (c - 48))%N). rewrite Nat2N.inj_succ, N.pow_succ_r'. lia.
Qed.

Lemma dval_app s t : dval (s ++ t) = (dval s * 10 ^ N.of_nat (length t) + dval t)%N.
Proof. unfold dval at 1. rewrite foldl_app. apply dval_acc. Qed.

Lemma dval_zeros n : dval (replicate n 48%N) = 0%N.
Proof. induction n as [|n IH]; [done|]. exact IH. Qed.

Lemma of_uint_acc d a : N.pos (Pos.of_uint_acc d a) = foldl (fun acc c => (10 * acc + (c - 48))%N) (N.pos a) (uint_units d).
Proof. revert a. induction d as [|d IH|d IH|d IH|d IH|d IH|d IH|d IH|d IH|d IH|d IH]; intros a; cbn [Pos.of_uint_acc uint_units foldl]; [done|..]; rewrite IH; f_equal; lia. Qed.

Lemma of_uint_dval d : N.of_uint d = dval (uint_units d).
Proof.
  unfold dval. induction d as [|d IH|d IH|d IH|d IH|d IH|d IH|d IH|d IH|d IH|d IH]; [done|exact IH|..];
    exact (of_uint_acc d _).
Qed.

Lemma digits_uint s : digits s -> exists d, units_uint s = Some d /\ uint_units d = s.
Proof.
  induction 1 as [|c s Hc _ (d & Hd & Hs)]; [by exists Decimal.Nil|]. cbn [units_uint]. rewrite Hd. cbn [mbind option_bind].
  unfold is_digit in Hc. assert (c ∈ [48; 49; 50; 51; 52; 53; 54; 55; 56; 57]%N) as Hin by (rewrite !elem_of_cons; lia).
  repeat (apply elem_of_cons in Hin as [->|Hin]; [cbn; eexists; split; [done|]; cbn; by rewrite Hs|]).
  by apply not_elem_of_nil in Hin.
Qed.

Lemma BigInt_digits s : digits s -> BigInt s = Some (Z.of_N (dval s)).
Proof. intros (d & Hd & <-)%digits_uint. unfold BigInt. rewrite Hd. cbn. by rewrite of_uint_dval. Qed.

Lemma toString_digits n : digits (int_toString (Z.of_N n)) /\ dval (int_toString (Z.of_N n)) = n /\ int_toString (Z.of_N n) <> [].
Proof.
  unfold int_toString. rewrite (proj2 (Z.ltb_ge _ 0)) by lia. replace (Z.abs_N (Z.of_N n)) with n by lia. split_and!.
  - apply uint_units_digits.
  - rewrite <- of_uint_dval. apply DecimalN.Unsigned.of_to.
  - destruct (to_uint_shape n) as [->|(c & r & -> & _)]; done.
Qed.

Lemma digits_app s t : digits (s ++ t) <-> digits s /\ digits t.
Proof. apply Forall_app. Qed.

Lemma digits_zeros n : digits (replicate n 48%N).
Proof. by apply Forall_replicate. Qed.

Lemma digits_no_dot s : digits s -> DOT ∉ s.
Proof. unfold digits. rewrite Forall_forall. intros Hs Hd. by apply Hs in Hd. Qed.

(** ** Money *)

Definition scale_of (s : ustr) : nat := length (frac_part s).
Definition ten (n : nat) : Z := (10 ^ Z.of_nat n)%Z.

(** The amount a decimal text denotes. *)
Definition decimal_value (s : ustr) : Q := Z.of_N (dval (whole_part s ++ frac_part s)) # Z.to_pos (ten (scale_of s)).

Lemma ten_pos n : (0 < ten n)%Z.
Proof. unfold ten. apply Z.pow_pos_nonneg; lia. Qed.

Lemma ten_add n m : ten (n + m) = (ten n * ten m)%Z.
Proof. unfold ten. rewrite Nat2Z.inj_add. apply Z.pow_add_r; lia. Qed.

Lemma span_digits_spec s w r : span_digits s = (w, r) -> s = w ++ r /\ digits w.
Proof.
  revert w r. induction s as [|c s IH]; intros w r; cbn [span_digits]; [intros [= <- <-]; split; [done | constructor]|].
  destruct (is_digit c) eqn:Ec; [|intros [= <- <-]; split; [done | constructor]].
  destruct (span_digits s) as [a b]. intros [= <- <-]. destruct (IH a b eq_refl) as [-> Ha]. split; [done | by constructor].
Qed.

Lemma money_parts s : is_money s = true -> digits (whole_part s) /\ digits (frac_part s) /\ scale_of s <= 18.
Proof.
  unfold is_money, scale_of. destruct (span_digits s) as [w r] eqn:E. apply span_digits_spec in E as [-> Hw].
  intros [_ Hr]%andb_true_iff. unfold whole_part, frac_part. destruct r as [|c f].
  - rewrite app_nil_r, split_unit_nil_sep by (by apply digits_no_dot). split_and!; [done | constructor | cbn; lia].
  - rewrite !andb_true_iff in Hr. destruct Hr as (((Hc%N.eqb_eq & Hf) & _) & Hl). subst c.
    assert (digits f) as Df by (apply Forall_forall; intros x Hx; rewrite forallb_forall in Hf; by apply Hf, list_elem_of_In).
    rewrite split_unit_app by (by apply digits_no_dot). rewrite split_unit_nil_sep by (by apply digits_no_dot).
    split_and!; [done..|]. lia.
Qed.

Lemma BigInt_money scale s : is_money s = true -> scale_of s <= scale ->
  BigInt (whole_part s ++ pad_end scale (frac_part s)) = Some (Z.of_N (dval (whole_part s ++ frac_part s)) * ten (scale - scale_of s))%Z.
Proof.
  intros (Hw & Hf & _)%money_parts Hle. unfold pad_end. rewrite app_assoc.
  rewrite BigInt_digits by (rewrite !digits_app; auto using digits_zeros). f_equal.
  rewrite dval_app, dval_zeros, length_replicate. unfold ten, scale_of. lia.
Qed.

Definition scaled_sum (scale : nat) (values : list ustr) : Z :=
  foldr (fun v acc => Z.of_N (dval (whole_part v ++ frac_part v)) * ten (scale - scale_of v) + acc)%Z 0%Z values.

Lemma sum_scaled_spec scale values : Forall (fun v => is_money v = true /\ scale_of v <= scale) values ->
  sum_scaled scale values = Some (scaled_sum scale values).
Proof.
  intros H. unfold sum_scaled. change (Some (scaled_sum scale values)) with (Some (0 + scaled_sum scale values)%Z).
  generalize 0%Z. induction H as [|v values [Hm Hs] _ IH]; intros z; cbn [foldl scaled_sum foldr]; [f_equal; cbn; lia|].
  cbn [mbind option_bind]. rewrite BigInt_money by done. cbn [mbind option_bind]. rewrite IH. f_equal.
  unfold scaled_sum. lia.
Qed.

Lemma sum_scale_ge values : Forall (fun v => scale_of v <= sum_scale values) values.
Proof.
  unfold sum_scale. assert (forall n, n <= foldl (fun scale v => Nat.max scale (length (frac_part v))) n values /\
    Forall (fun v => scale_of v <= foldl (fun scale v => Nat.max scale (length (frac_part v))) n values) values) as H; [|apply H].
  induction values as [|v values IH]; intros n; cbn [foldl]; [by split|].
  destruct (IH (Nat.max n (length (frac_part v)))) as [H1 H2]. split; [lia|]. constructor; [|exact H2]. unfold scale_of. lia.
Qed.

Lemma sum_scale_bound values n : Forall (fun v => scale_of v <= n) values -> sum_scale values <= n.
Proof.
  unfold sum_scale. assert (forall k, k <= n -> Forall (fun v => scale_of v <= n) values ->
    foldl (fun scale v => Nat.max scale (length (frac_part v))) k values <= n) as H; [|intros; apply H; [lia|done]].
  induction values as [|v values IH]; intros k Hk Hv; cbn [foldl]; [done|]. inversion_clear Hv as [|? ? H1 H2].
  apply IH; [|done]. unfold scale_of in H1. lia.
Qed.

Lemma scaled_sum_value scale values : Forall (fun v => scale_of v <= scale) values ->
  (scaled_sum scale values # Z.to_pos (ten scale) == foldr (fun v acc => decimal_value v + acc) 0 values)%Q.
Proof.
  pose proof (ten_pos scale) as Hp. induction 1 as [|v values Hv _ IH]; cbn [scaled_sum foldr]; [done|].
  rewrite <- IH. unfold decimal_value. pose proof (ten_pos (scale_of v)) as Hq.
  assert (ten scale = ten (scale_of v) * ten (scale - scale_of v))%Z as Hs by (rewrite <- ten_add; f_equal; lia).
  unfold Qeq, Qplus. cbn [Qnum Qden]. rewrite !Pos2Z.inj_mul, !Z2Pos.id by done.
  fold (scaled_sum scale values). rewrite Hs. ring.
Qed.

Lemma span_digits_stop w r : digits w -> match r with c :: _ => is_digit c = false | [] => True end -> span_digits (w ++ r) = (w, r).
Proof.
  intros Hw Hr. induction Hw as [|c w Hc _ IH]; cbn [app].
  - destruct r as [|c r]; [done|]. cbn [span_digits]. by rewrite Hr.
  - cbn [span_digits]. by rewrite Hc, IH.
Qed.

Definition leading_ok (w : ustr) : Prop := match w with [] => False | c :: more => c = 48%N -> more = [] end.

Lemma money_whole w : digits w -> leading_ok w -> is_money w = true /\ whole_part w = w /\ frac_part w = [].
Proof.
  intros Hw Hl. split_and!.
  - unfold is_money. rewrite <- (app_nil_r w). rewrite (span_digits_stop w [] Hw I). destruct w; [done|].
    by rewrite bool_decide_true.
  - unfold whole_part. rewrite split_unit_nil_sep; [done | by apply digits_no_dot].
  - unfold frac_part. rewrite split_unit_nil_sep; [done | by apply digits_no_dot].
Qed.

Lemma money_fraction w f : digits w -> digits f -> leading_ok w -> 1 <= length f <= 18 ->
  is_money (w ++ [DOT] ++ f) = true /\ whole_part (w ++ [DOT] ++ f) = w /\ frac_part (w ++ [DOT] ++ f) = f.
Proof.
  intros Hw Hf Hl Hn. assert (split_unit DOT (w ++ DOT :: f) = [w; f]) as Hs.
  { rewrite split_unit_app by (by apply digits_no_dot). rewrite split_unit_nil_sep; [done | by apply digits_no_dot]. }
  unfold whole_part, frac_part. cbn [app]. rewrite Hs. split_and!; [|done..].
  unfold is_money. rewrite (span_digits_stop w (DOT :: f) Hw eq_refl). destruct w as [|c w]; [done|]. rewrite bool_decide_true by done.
  rewrite N.eqb_refl. assert (forallb is_digit f = true) as -> by (apply forallb_forall; intros x Hx%list_elem_of_In; unfold digits in Hf;
    rewrite Forall_forall in Hf; by apply Hf). cbn [andb]. lia.
Qed.

Lemma toString_leading n : leading_ok (int_toString (Z.of_N n)).
Proof.
  unfold int_toString. rewrite (proj2 (Z.ltb_ge _ 0)) by lia. replace (Z.abs_N (Z.of_N n)) with n by lia.
  destruct (to_uint_shape n) as [->|(c & r & -> & _ & Hc)]; [done|]. cbn. intros E. by destruct (Hc E).
Qed.

(** The text of [scaled / 10^scale]. *)
Lemma decimal_text scale n : scale <= 18 ->
  let text := pad_start (scale + 1) (int_toString (Z.of_N n)) in
  let split := length text - scale in
  exists w f, take split text = w /\ drop split text = f /\ text = w ++ f /\ length f = scale /\ digits w /\ digits f /\
    leading_ok w /\ dval (w ++ f) = n.
Proof.
  intros Hs text split. destruct (toString_digits n) as (Hd & Hv & Hne). pose proof (toString_leading n) as Hl.
  assert (digits text /\ dval text = n /\ scale + 1 <= length text) as (Td & Tv & Tl).
  { unfold text, pad_start. rewrite digits_app, dval_app, dval_zeros, length_app, length_replicate. split_and!; auto using digits_zeros; lia. }
  exists (take split text), (drop split text). rewrite take_drop. split_and!; [done..| |by apply Forall_take|by apply Forall_drop| |done].
  - rewrite length_drop. unfold split. lia.
  - unfold split, text, pad_start in *. destruct (decide (length (int_toString (Z.of_N n)) < scale + 1)) as [Hlt|Hge].
    + rewrite length_app, length_replicate.
      replace (scale + 1 - length (int_toString (Z.of_N n)) + length (int_toString (Z.of_N n)) - scale) with 1 by lia.
      destruct (scale + 1 - length (int_toString (Z.of_N n))) as [|k] eqn:Ek; [lia|]. done.
    + replace (scale + 1 - length (int_toString (Z.of_N n))) with 0 by lia. cbn [replicate app].
      destruct (int_toString (Z.of_N n)) as [|c s]; [done|]. cbn [length] in *.
      destruct (S (length s) - scale) as [|k] eqn:Ek; [lia|]. cbn [take]. intros ->. rewrite (Hl eq_refl). by destruct k.
Qed.

Lemma scaled_sum_nonneg scale values : (0 <= scaled_sum scale values)%Z.
Proof.
  induction values as [|v values IH]; cbn [scaled_sum foldr]; [done|]. fold (scaled_sum scale values).
  pose proof (ten_pos (scale - scale_of v)). apply Z.add_nonneg_nonneg; [apply Z.mul_nonneg_nonneg; lia | exact IH].
Qed.

(** The sum of amounts is computed exactly and is an amount again. *)
Lemma sumDecimal_exact values : Forall (fun v => is_money v = true) values ->
  exists text, sumDecimal (map Some values) = Ok (Some text) /\ is_money text = true /\
    (decimal_value text == foldr (fun v acc => decimal_value v + acc) 0 values)%Q.
Proof.
  intros Hm. unfold sumDecimal.
  assert (existsb (fun v : option ustr => negb (is_some v)) (map Some values) = false) as ->.
  { clear Hm. induction values; [done|]. done. }
  assert (omap id (map Some values) = values) as -> by (clear Hm; induction values; [done | cbn; by f_equal]).
  cbv zeta. set (scale := sum_scale values). pose proof (sum_scale_ge values) as Hge. fold scale in Hge.
  assert (scale <= 18) as H18.
  { apply sum_scale_bound. eapply Forall_impl; [exact Hm|]. intros v Hv. by apply money_parts. }
  rewrite sum_scaled_spec by (apply Forall_and; by split). pose proof (scaled_sum_value scale values Hge) as Hq.
  assert (exists n, scaled_sum scale values = Z.of_N n) as [n Hn].
  { exists (Z.to_N (scaled_sum scale values)). rewrite Z2N.id; [done | apply scaled_sum_nonneg]. }
  rewrite Hn in *. destruct (decimal_text scale n H18) as (w & f & Hw & Hf & Ht & Hl & Dw & Df & Lw & Hv).
  cbv zeta in *. rewrite Hw, Hf. destruct (scale =? 0)%nat eqn:E0.
  - assert (f = []) as -> by (apply Nat.eqb_eq in E0; rewrite E0 in Hl; by destruct f). rewrite app_nil_r in *. rewrite Ht.
    destruct (money_whole w Dw Lw) as (M1 & M2 & M3). exists w. split_and!; [done..|].
    unfold decimal_value, scale_of. rewrite M2, M3, app_nil_r, Hv. apply Nat.eqb_eq in E0. by rewrite E0 in Hq.
  - destruct (money_fraction w f Dw Df Lw) as (M1 & M2 & M3); [lia|]. exists (w ++ [DOT] ++ f). split_and!; [done..|].
    unfold decimal_value, scale_of. rewrite M2, M3, Hv, Hl. exact Hq.
Qed.

(** ** One leaf per call *)

Lemma str_lt_leb a b : str_lt a b = negb (utf16_leb b a).
Proof.
  unfold str_lt. destruct (decide (a = b)) as [->|Hne].
  - rewrite bool_decide_true by done. by rewrite utf16_leb_refl.
  - rewrite bool_decide_false by done. cbn [negb]. rewrite andb_true_r.
    destruct (utf16_leb a b) eqn:E1, (utf16_leb b a) eqn:E2; try done.
    + by destruct (Hne (utf16_leb_antisym _ _ E1 E2)).
    + destruct (utf16_leb_total a b); congruence.
Qed.

Lemma newer_leb leaf current : newer leaf current = negb (entry_leb leaf current).
Proof.
  unfold newer, entry_leb, row_leb. cbn [fst snd]. rewrite !str_lt_leb. case_bool_decide as E.
  - rewrite E, utf16_leb_refl. done.
  - by rewrite orb_false_r.
Qed.

Lemma entry_leb_refl e : entry_leb e e = true.
Proof. unfold entry_leb, row_leb. cbn [fst snd]. by rewrite bool_decide_true, utf16_leb_refl. Qed.

Lemma entry_leb_total a b : entry_leb a b = false -> entry_leb b a = true.
Proof.
  unfold entry_leb, row_leb. cbn [fst snd]. case_bool_decide as E.
  - rewrite E, bool_decide_true by done. intros H. destruct (utf16_leb_total (le_id a) (le_id b)); congruence.
  - rewrite bool_decide_false by congruence. intros H. destruct (utf16_leb_total (le_createdAt a) (le_createdAt b)); congruence.
Qed.

Lemma entry_leb_trans a b c : entry_leb a b = true -> entry_leb b c = true -> entry_leb a c = true.
Proof.
  unfold entry_leb, row_leb. cbn [fst snd].
  case_bool_decide as E1; case_bool_decide as E2; intros H1 H2.
  - rewrite bool_decide_true by congruence. eauto using utf16_leb_trans.
  - rewrite bool_decide_false by congruence. congruence.
  - rewrite bool_decide_false by congruence. congruence.
  - case_bool_decide as E3; [|eauto using utf16_leb_trans]. exfalso. rewrite E3 in H1. apply E1. rewrite E3.
    symmetry. eauto using utf16_leb_antisym.
Qed.

Lemma entry_leb_antisym a b : entry_leb a b = true -> entry_leb b a = true -> le_id a = le_id b.
Proof.
  unfold entry_leb, row_leb. cbn [fst snd]. case_bool_decide as E.
  - rewrite bool_decide_true by done. eauto using utf16_leb_antisym.
  - rewrite bool_decide_false by congruence. intros H1 H2. destruct (E (utf16_leb_antisym _ _ H1 H2)).
Qed.

(** [e] is the latest of the entries of its call. *)
Definition latest_in (leaves : list UsageLedgerEntry) (e : UsageLedgerEntry) : Prop :=
  e ∈ leaves /\ forall e', e' ∈ leaves -> le_call e' = le_call e -> entry_leb e' e = true.

Lemma latest_cases leaves c : (forall e, e ∈ leaves -> le_call e <> c) \/ exists e0, latest_in leaves e0 /\ le_call e0 = c.
Proof.
  induction leaves as [|x leaves [Hno|(y & [Hy Hm] & Hc)]].
  - left. by intros e H%not_elem_of_nil.
  - destruct (decide (le_call x = c)) as [Hx|Hx].
    + right. exists x. split; [|done]. split; [left|]. intros e' [->|H']%elem_of_cons Hc'; [apply entry_leb_refl|].
      exfalso. apply (Hno e' H'). congruence.
    + left. intros e [->|H]%elem_of_cons; eauto.
  - right. destruct (decide (le_call x = le_call y)) as [Ex|Ex].
    + destruct (entry_leb x y) eqn:El.
      * exists y. split; [|done]. split; [by right|]. intros e' [->|H']%elem_of_cons; eauto.
      * exists x. split; [|congruence]. split; [left|]. intros e' [->|H']%elem_of_cons Hc'; [apply entry_leb_refl|].
        eapply entry_leb_trans; [apply Hm; [done | congruence] | by apply entry_leb_total].
    + exists y. split; [|done]. split; [by right|]. intros e' [->|H']%elem_of_cons; [congruence | eauto].
Qed.

Lemma latest_exists leaves e : e ∈ leaves -> exists e0, latest_in leaves e0 /\ le_call e0 = le_call e.
Proof. intros He. destruct (latest_cases leaves (le_call e)) as [Hno|H]; [by destruct (Hno e He) | done]. Qed.

Lemma keep_latest_spec leaves : NoDup (map le_id leaves) ->
  NoDup (JsMap.keys (foldl keep_latest [] leaves)) /\
  forall c e, JsMap.get c (foldl keep_latest [] leaves) = Some e <-> latest_in leaves e /\ le_call e = c.
Proof.
  induction leaves as [|x leaves IH] using rev_ind.
  { intros _. split; [constructor|]. intros c e. split; [done|]. intros [[H _] _]. by apply not_elem_of_nil in H. }
  rewrite map_app. intros (Hn & Hx & _)%NoDup_app. destruct (IH Hn) as [HK HG]. rewrite foldl_app. cbn [foldl].
  set (m := foldl keep_latest [] leaves) in *.
  assert (forall e, latest_in (leaves ++ [x]) e <->
    (le_call x <> le_call e /\ latest_in leaves e) \/ (le_call x = le_call e /\ latest_in leaves e /\ entry_leb x e = true) \/
    (e = x /\ forall e', e' ∈ leaves -> le_call e' = le_call x -> entry_leb e' x = true)) as Hl.
  { intros e. unfold latest_in. setoid_rewrite elem_of_app. setoid_rewrite list_elem_of_singleton. split.
    - intros [[He| ->] Hmax].
      + destruct (decide (le_call x = le_call e)) as [Hc|Hc]; [right; left | left]; split_and!; eauto.
      + right. right. eauto.
    - intros [(Hc & He & Hmax)|[(Hc & (He & Hmax) & Hx')|(-> & Hmax)]].
      + split; [by left|]. intros e' [H| ->] Hc'; [eauto | congruence].
      + split; [by left|]. intros e' [H| ->] Hc'; [eauto | done].
      + split; [by right|]. intros e' [H| ->] Hc'; [eauto | apply entry_leb_refl]. }
  assert (forall e, latest_in leaves e -> le_id e <> le_id x) as Hne.
  { intros e [He _] E. apply (Hx (le_id e)); [by apply list_elem_of_fmap_2|]. rewrite E. left. }
  unfold keep_latest. destruct (JsMap.get (le_call x) m) as [cur|] eqn:Eg.
  - apply HG in Eg as [Hcur Hc]. rewrite newer_leb. destruct (entry_leb x cur) eqn:El; cbn [negb].
    + split; [done|]. intros c e. rewrite HG, Hl. split.
      * intros [He <-]. split; [|done]. destruct (decide (le_call x = le_call e)) as [E|E]; [right; left | by left].
        split_and!; [done..|]. eapply entry_leb_trans; [exact El|]. apply He; [apply Hcur | congruence].
      * intros [[[_ He]|[(_ & He & _)|(-> & Hmax)]] <-]; [done..|]. exfalso. apply (Hne cur Hcur).
        apply entry_leb_antisym; [apply Hmax; [apply Hcur | done] | done].
    + split; [by apply JsMap.NoDup_keys_set|]. intros c e. rewrite JsMap.get_set, Hl. case_decide as E.
      * subst c. split; [intros [= <-]; split; [|done]; right; right; split; [done|]|].
        { intros e' He' Hc'. eapply entry_leb_trans; [apply Hcur; [done | congruence] | by apply entry_leb_total]. }
        intros [[[E _]|[(_ & He & Hx')|(-> & _)]] Hc']; [congruence | | done]. exfalso. apply (Hne e He).
        apply entry_leb_antisym; [|done]. eapply entry_leb_trans; [|by apply entry_leb_total].
        apply Hcur; [apply He | congruence].
      * rewrite HG. split; [intros [He <-]; split; [left; split; congruence | done]|].
        intros [[[_ He]|[(E' & _)|(-> & _)]] Hc']; [done | congruence..].
  - assert (forall e, latest_in leaves e -> le_call e <> le_call x) as Hno.
    { intros e He E. assert (JsMap.get (le_call x) m = Some e) by (by apply HG). congruence. }
    split; [by apply JsMap.NoDup_keys_set|]. intros c e. rewrite JsMap.get_set, Hl. case_decide as E.
    + subst c. split; [intros [= <-]; split; [|done]; right; right; split; [done|]|].
      { intros e' He' Hc'. exfalso. destruct (latest_exists leaves e' He') as (e0 & H0 & Hc0). apply (Hno e0 H0). congruence. }
      intros [[[E _]|[(E & He & _)|(-> & _)]] Hc']; [congruence | | done]. exfalso. by apply (Hno e He).
    + rewrite HG. split; [intros [He <-]; split; [left; split; congruence | done]|].
      intros [[[_ He]|[(E' & _)|(-> & _)]] Hc']; [done | congruence..].
Qed.

(** The entry that counts for its call: not corrected by another and the latest such. *)
Definition counted (entries : list UsageLedgerEntry) (e : UsageLedgerEntry) : Prop :=
  e ∈ entries /\ le_id e ∉ referenced_ids entries /\
  forall e', e' ∈ entries -> le_id e' ∉ referenced_ids entries -> le_call e' = le_call e -> entry_leb e' e = true.

Lemma uniqueLeaves_exact entries : NoDup (map le_id entries) ->
  (forall e, e ∈ uniqueLeaves entries <-> counted entries e) /\ NoDup (map le_call (uniqueLeaves entries)).
Proof.
  intros Hn. unfold uniqueLeaves. set (leaves := List.filter _ entries).
  assert (forall e, e ∈ leaves <-> e ∈ entries /\ le_id e ∉ referenced_ids entries) as Hleaf.
  { intros e. unfold leaves. rewrite elem_of_List_filter, negb_true_iff, includes_false. done. }
  destruct (keep_latest_spec leaves) as [HK HG]; [by apply NoDup_map_filter|].
  assert (forall e, e ∈ JsMap.values (foldl keep_latest [] leaves) <-> counted entries e) as Hval.
  { intros e. unfold JsMap.values. rewrite list_elem_of_fmap. split.
    - intros ([c x] & -> & Hin). cbn [snd]. assert (JsMap.get c (foldl keep_latest [] leaves) = Some x) as Hg by (by apply JsMap.elem_get).
      apply HG in Hg as [[Hx Hm] _]. apply Hleaf in Hx as [H1 H2]. split_and!; [done..|]. intros e' ? ? ?. apply Hm; [by apply Hleaf | done].
    - intros (H1 & H2 & Hm). exists (le_call e, e). split; [done|]. apply JsMap.get_some_elem, HG. split; [|done].
      split; [by apply Hleaf|]. intros e' [? ?]%Hleaf ?. by apply Hm. }
  split; [intros e; by rewrite elem_of_sort_by|]. rewrite sort_by_perm.
  assert (map le_call (JsMap.values (foldl keep_latest [] leaves)) = JsMap.keys (foldl keep_latest [] leaves)) as ->; [|done].
  unfold JsMap.values, JsMap.keys. rewrite map_map. apply map_ext_in. intros [c x] Hin%list_elem_of_In. cbn [fst snd].
  assert (JsMap.get c (foldl keep_latest [] leaves) = Some x) as Hg by (by apply JsMap.elem_get). apply HG in Hg. apply Hg.
Qed.

Lemma all_some {A B} (f : A -> option B) l :
  existsb (fun v => negb (is_some v)) (map f l) = false <-> exists vs, map f l = map Some vs.
Proof.
  split.
  - induction l as [|x l IH]; [by exists []|]. cbn [map existsb]. intros [Hx H]%orb_false_iff. destruct (IH H) as [vs ->].
    destruct (f x) as [v|]; [by exists (v :: vs) | done].
  - intros [vs ->]. by induction vs.
Qed.

Lemma sumOrNull_some {A} (f : A -> option Z) l total :
  sumOrNull (map f l) = Some total <->
  l <> [] /\ exists vs, map f l = map Some vs /\ total = foldr Z.add 0%Z vs.
Proof.
  assert (forall vs a, foldl (fun total v => (total + default 0 v)%Z) a (map Some vs) = (a + foldr Z.add 0%Z vs)%Z) as Hs.
  { induction vs as [|v vs IH]; intros a; cbn; [lia|]. rewrite IH. unfold id. lia. }
  unfold sumOrNull. rewrite length_map. destruct l as [|x l]; [split; [done | by intros [? _]]|].
  cbn [length Nat.eqb orb]. destruct (existsb _ _) eqn:E.
  - split; [done|]. intros (_ & vs & Hv & _). assert (existsb (fun v => negb (is_some v)) (map f (x :: l)) = false) by (apply all_some; eauto). congruence.
  - apply all_some in E as [vs Hv]. rewrite Hv, Hs. split.
    + intros [= <-]. split; [done|]. by exists vs.
    + intros (_ & vs' & Hv' & ->). f_equal. cbn [Z.add]. f_equal. by apply (inj (map Some)) in Hv' as ->.
Qed.

Lemma singleton_set {A B} `{EqDecision B} (f : A -> B) (l : list A) c :
  uniq (map f l) = [c] -> Forall (fun x => f x = c) l.
Proof.
  intros H. apply Forall_forall. intros x Hx. apply list_elem_of_singleton. rewrite <- H.
  apply uniq_spec, list_elem_of_fmap_2. done.
Qed.

Lemma costs_money entries filter costs :
  NoDup (map le_id entries) ->
  (forall e c, e ∈ entries -> ui_estimatedCostDecimal (le_row e) = Some c -> is_money c = true) ->
  map (fun l => ui_estimatedCostDecimal (le_row l)) (scoped_leaves entries filter) = map Some costs ->
  Forall (fun c => is_money c = true) costs.
Proof.
  intros Hn Hm Hc. apply Forall_forall. intros c Hin. assert (Some c ∈ map Some costs) as Hs by (by apply list_elem_of_fmap_2).
  rewrite <- Hc in Hs. apply list_elem_of_fmap in Hs as (e & He & Hs). apply (Hm e); [|done].
  apply elem_of_List_filter in Hs as [Hs _]. by apply (proj1 (uniqueLeaves_exact _ Hn)) in Hs as [Hs _].
Qed.

Lemma complete_total (leaves : list UsageLedgerEntry) total :
  (if (0 <? length leaves)%nat && (length (List.filter (fun l => negb (ui_complete (le_row l))) leaves) =? 0)%nat
   then sumOrNull (map (fun l => ui_normalizedTotalTokens (le_row l)) leaves) else None) = Some total <->
  leaves <> [] /\ Forall (fun l => ui_complete (le_row l) = true) leaves /\
  exists totals, map (fun l => ui_normalizedTotalTokens (le_row l)) leaves = map Some totals /\ total = foldr Z.add 0%Z totals.
Proof.
  assert (length (List.filter (fun l => negb (ui_complete (le_row l))) leaves) = 0 <->
    Forall (fun l => ui_complete (le_row l) = true) leaves) as Hf.
  { induction leaves as [|l leaves IH]; cbn [List.filter]; [split; [constructor | done]|]. rewrite Forall_cons, <- IH.
    destruct (ui_complete (le_row l)); cbn [negb length]; naive_solver lia. }
  rewrite <- Hf. destruct (_ && _) eqn:E.
  - apply andb_true_iff in E as [E1%Nat.ltb_lt E2%Nat.eqb_eq]. rewrite sumOrNull_some. naive_solver.
  - split; [done|]. intros (Hne & H0 & _). apply andb_false_iff in E as [E|E]; [|by rewrite H0 in E].
    apply Nat.ltb_ge in E. destruct leaves; [done | cbn in E; lia].
Qed.

Lemma usage_cost_exact leaves :
  (forall costs, map (fun l => ui_estimatedCostDecimal (le_row l)) leaves = map Some costs -> Forall (fun c => is_money c = true) costs) ->
  usage_cost leaves = Ok None \/ exists costs currency text,
    map (fun l => ui_estimatedCostDecimal (le_row l)) leaves = map Some costs /\
    leaf_currencies leaves = [Some currency] /\ usage_cost leaves = Ok (Some text) /\ is_money text = true /\
    (decimal_value text == foldr (fun v acc => decimal_value v + acc) 0 costs)%Q.
Proof.
  intros Hmoney. unfold usage_cost. destruct (_ && _) eqn:E; [|by left]. right. rewrite !andb_true_iff in E. destruct E as [[E1 E2] E3].
  destruct (proj1 (all_some (fun l => ui_estimatedCostDecimal (le_row l)) leaves)) as [costs Hc].
  { rewrite <- not_true_iff_false, existsb_exists. intros (v & Hv & Hv'). rewrite forallb_forall in E3. specialize (E3 v Hv).
    by rewrite E3 in Hv'. }
  destruct (sumDecimal_exact costs (Hmoney costs Hc)) as (text & Ht & Hmt & Hv).
  destruct (leaf_currencies leaves) as [|[currency|] [|]] eqn:Ec; try done. exists costs, currency, text. rewrite Hc. split_and!; done.
Qed.

(** The usage totals of a scope count every cloud call once.  The projection is always computed;
    its entries are, one per call, the latest entry that no other entry corrects; a total is reported
    exactly when every such entry in scope is complete with its total, and is their sum; and a reported
    cost is the exact decimal sum of the costs of those entries, all in the currency reported. *)
Theorem usage_totals_exact entries calls filter :
  NoDup (map le_id entries) ->
  (forall e c, e ∈ entries -> ui_estimatedCostDecimal (le_row e) = Some c -> is_money c = true) ->
  exists p, projectUsage entries calls filter = Ok p /\
  let leaves := scoped_leaves entries filter in
  NoDup (map le_call leaves) /\ (forall e, e ∈ leaves -> counted entries e) /\ up_leafCount p = length leaves /\
  (forall total, up_totalTokens p = Some total <->
     leaves <> [] /\ Forall (fun l => ui_complete (le_row l) = true) leaves /\
     exists totals, map (fun l => ui_normalizedTotalTokens (le_row l)) leaves = map Some totals /\ total = foldr Z.add 0%Z totals) /\
  (forall text, up_estimatedCostDecimal p = Some text ->
     exists costs currency, map (fun l => ui_estimatedCostDecimal (le_row l)) leaves = map Some costs /\
       Forall (fun l => ui_currency (le_row l) = Some currency) leaves /\ up_currency p = Some currency /\
       is_money text = true /\ (decimal_value text == foldr (fun v acc => decimal_value v + acc) 0 costs)%Q).
Proof.
  intros Hn Hm. destruct (uniqueLeaves_exact entries Hn) as [HU HN].
  destruct (usage_cost_exact (scoped_leaves entries filter)) as [Hcost|(costs & currency & text & Hc & Hcur & Hcost & Hmt & Hv)];
    [intros costs; by apply costs_money| |]; unfold projectUsage; set (leaves := scoped_leaves entries filter) in *; rewrite Hcost;
    cbn [rbind]; (eexists; split; [reflexivity|]);
    cbn [up_leafCount up_totalTokens up_estimatedCostDecimal up_currency]; (split; [|split; [|split; [done|split]]]).
  all: try (unfold leaves, scoped_leaves; by apply NoDup_map_filter).
  all: try (intros e He; apply HU; apply elem_of_List_filter in He; apply He).
  all: try apply complete_total.
  - done.
  - intros text' [= <-]. exists costs, currency. rewrite Hcur. split_and!; [done| |done..]. by apply singleton_set.
Qed.

(** ** A ledger with a correction *)

Definition sample_row (id : string) (correction : option ustr) (at_ : string) (tokens : Z) (cost : string) : UsageLedgerEntry :=
  mkLedgerEntry (mkUsageRecord (mkUsageInput (u id) (u "call") (u at_) correction (Some tokens) None None None None (Some tokens)
    true true (Some (u "EUR")) (Some (u cost)) (Some (u "snapshot"))) (u "run") (u "workspace")) (u "project").

Definition sample_ledger : list UsageLedgerEntry :=
  [sample_row "a" None "2024-01-01" 10 "1.50"; sample_row "b" (Some (u "a")) "2024-01-02" 7 "0.25"].

Definition run_filter : UsageFilter := mkFilter scope_run (Some (u "run")) None None None.

Lemma usage_totals_exact_witness :
  exists p, projectUsage sample_ledger [] run_filter = Ok p /\ up_totalTokens p = Some 7%Z /\
    up_estimatedCostDecimal p = Some (u "0.25") /\ up_leafCount p = 1.
Proof.
  destruct (usage_totals_exact sample_ledger [] run_filter) as (p & Hp & _).
  - apply (bool_decide_unpack _). vm_compute. exact I.
  - intros e c [->|[->|[]%not_elem_of_nil]%elem_of_cons]%elem_of_cons [= <-]; vm_compute; reflexivity.
  - exists p. split; [exact Hp|]. vm_compute in Hp. injection Hp as <-. vm_compute. auto.
Defined.
