(* ===== verification/CloudCalls.v ===== *)
(** Dispatching a cloud call (faex1/apps/control-plane/src/services/cloud-dispatch.ts): the call is
    persisted as prepared, one dispatcher takes it by a compare-and-set on its state, sends the request
    once, and settles the call by what the adapter reports.  Object storage is represented by the digest
    it returns; a failing write is a dispatcher that stops. *)

From Stdlib Require Import String.
From S2P Require Import Prelude JsText CanonicalJson JsJson Digest Async CloudWire CloudGateway CloudStore Usage Egress.
Open Scope string_scope.
Open Scope list_scope.
Open Scope prog_scope.

Inductive CloudDispatchDecision : Type :=
| already_owned
| call_completed {DD : Doubles} (receipt : CloudCompletionReceipt)
| waiting_provider
| call_outcome_unknown
| call_not_dispatched {DD : Doubles} (receipt : CloudCompletionReceipt).

Definition store_error (e : StoreErr) : CloudErr :=
  match e with SQLITE_CONSTRAINT => ce_store_constraint | STORE_LOOKUP => ce_store_lookup end.

Section Dispatch.
Context {DD : Doubles} {HH : Hashing}.
Variable RESULT_Check : jsvalue -> bool.
Local Abbreviation program := (prog CloudTables FetchRequest FetchOutcome CloudErr).

(** One write transaction, and one read. *)
Definition store_tx {R} (work : tx R) : program R :=
  Atomic (run_tx work) (fun r => match r with Ok x => Ret x | Err e => Throw (store_error e) end).
Definition store_read {R} (f : CloudTables -> R) : program R := Atomic (fun t => (t, f t)) Ret.

Record DispatchInput := mkDispatchInput {
  di_dispatch : CloudDispatch;
  di_adapter : OneShotAdapter (Store := CloudTables);
  di_contextPacketDigest : Digest;
  di_projectId : ustr;
  di_now : ustr
}.

Definition request_payload_of (i : DispatchInput) : jsvalue := payload (d_request (di_dispatch i)).
Definition call_id (i : DispatchInput) : ustr := string_field "cloudCallId" (request_payload_of i).

Definition envelopeBytes (e : ArtifactEnvelope jsvalue) : result WireErr bytes :=
  let? json := jsonValue (payload e) in
  throw_if negb (isObjectDigest_units (env_payloadDigest e)) with wire_brand;
  let? text := of_digest (canonicalizeEnvelope (mkEnvelope (schemaName e) (schemaVersion e) json (env_payloadDigest e) (signatures e))) in
  Ok (utf8_encode text).

Definition putSqlArtifact (digest : Digest) (schema : option ustr) : program unit :=
  do present <- store_read (hasArtifact digest);
  if present then Ret tt else store_tx (putArtifact digest schema).

(** [persistDispatchBytes]: the sink a caller gives the adapter for response bytes. *)
Definition persistDispatchBytes (bs : bytes) (schema : option ustr) : program Digest :=
  let digest := objectDigestFromBytes bs in
  do _ <- putSqlArtifact digest schema; Ret digest.

Definition fsyncEnvelope (schema : string) (e : ArtifactEnvelope jsvalue) : program Digest :=
  do bs <- lift (envelopeBytes e);
  let digest := objectDigestFromBytes bs in
  do _ <- putSqlArtifact digest (Some (u schema)); Ret digest.

Definition prepared_record (i : DispatchInput) (requestDigest : Digest) : CloudCallRecord :=
  let request := request_payload_of i in
  mkCall (string_field "runId" request) (string_field "purpose" request) (string_field "deploymentId" request) requestDigest
    (di_contextPacketDigest i) (rec_grade (ad_recovery (di_adapter i))) cc_prepared None (di_now i) (di_now i).

Definition bind (i : DispatchInput) (role : string) (digest : Digest) : program unit :=
  store_tx (bindCloudCallArtifact (call_id i) (u role) digest).

(** The constraint error of a concurrent insert is caught, and the row of the winner is used. *)
Definition persistPreparedCall (i : DispatchInput) : program Digest :=
  let d := di_dispatch i in
  do requestDigest <- fsyncEnvelope "CanonicalCloudRequest" (d_request d);
  do egressDigest <- fsyncEnvelope "EgressManifest" (d_egress d);
  do conversationDigest <- fsyncEnvelope "CompiledCloudConversation" (d_conversation d);
  do wireDigest <- fsyncEnvelope "ProviderWireRequest" (d_wireRequest d);
  do present <- store_read (hasArtifact (di_contextPacketDigest i));
  if negb present then Throw ce_context_packet_missing else
  do existing <- store_read (getCloudCall (call_id i));
  match existing with
  | Some r => Ret (cc_requestDigest r)
  | None =>
      Atomic (run_tx (createCloudCall (call_id i) (prepared_record i requestDigest))) (fun created =>
        match created with
        | Err SQLITE_CONSTRAINT =>
            do raced <- store_read (getCloudCall (call_id i));
            match raced with Some r => Ret (cc_requestDigest r) | None => Throw ce_store_constraint end
        | Err e => Throw (store_error e)
        | Ok _ =>
            do _ <- bind i "canonical-cloud-request" requestDigest;
            do _ <- bind i "egress-manifest" egressDigest;
            do _ <- bind i "compiled-conversation" conversationDigest;
            do _ <- bind i "provider-wire-request" wireDigest;
            do _ <- bind i "context-packet" (di_contextPacketDigest i);
            Ret requestDigest
        end)
  end.

Definition casTransitionToDispatching (i : DispatchInput) (requestDigest : Digest) : program bool :=
  store_tx (transitionPreparedCloudCallToDispatching (call_id i) requestDigest (di_now i)).

(** The usage of a receipt is the empty usage: every count is null. *)
Definition EMPTY_DRAFT : ProviderUsageDraft := mkDraft dn_missing dn_missing dn_missing dn_missing dn_missing None false.

Definition persistReceiptUsage (i : DispatchInput) (receipt : CloudCompletionReceipt) (receiptDigest : Digest) : program unit :=
  let usageEntryId := u "usage_" ++ receiptDigest in
  let cloudCallId := rb_cloudCallId (receipt_base receipt) in
  do existing <- store_read (getUsage usageEntryId);
  match existing with
  | Ok _ => Ret tt
  | Err STORE_LOOKUP =>
      do ledger <- store_read (loadUsageLedger (di_projectId i));
      let prior := array_find (fun e => bool_decide (le_call e = cloudCallId)) (uniqueLeaves ledger.1) in
      store_tx (appendUsage (toUsageInput usageEntryId cloudCallId (di_now i) (normalizeProviderUsage (Some EMPTY_DRAFT)) (le_id <$> prior)))
  | Err e => Throw (store_error e)
  end.

(** [fsyncReceiptThenComplete] with the binding as its completion, then the usage entry. *)
Definition persistReceipt (i : DispatchInput) (receipt : CloudCompletionReceipt) (bindReceipt : bool) : program Digest :=
  do bs <- lift (receiptEnvelopeBytes receipt);
  let digest := objectDigestFromBytes bs in
  do _ <- putSqlArtifact digest (Some (u "CloudCompletionReceipt"));
  do _ <- (if bindReceipt then bind i "cloud-completion-receipt" digest else Ret tt);
  do _ <- persistReceiptUsage i receipt digest;
  Ret digest.

(** The three branches on the result of the adapter. *)
Definition settle_call (i : DispatchInput) (r : CloudDispatchResult) : program CloudDispatchDecision :=
  match r with
  | dr_completed receipt =>
      do responseDigest <- persistReceipt i receipt true;
      do _ <- store_tx (completeCloudCall (call_id i) responseDigest (di_now i));
      do _ <- store_tx (recordCloudTransportAttempt (call_id i) (di_now i) (Some (di_now i)) at_completed);
      Ret (call_completed receipt)
  | dr_not_dispatched _ receipt =>
      do _ <- persistReceipt i receipt false;
      do _ <- store_tx (settleCloudCallTransport (call_id i) (di_now i) (di_now i) at_failed_before_acceptance cc_prepared);
      Ret (call_not_dispatched receipt)
  | dr_outcome_unknown _ evidence =>
      do digest <- lift (as_object_digest evidence);
      do present <- store_read (hasArtifact digest);
      if negb present then Throw ce_evidence_missing else
      do _ <- bind i "transport-evidence" digest;
      do _ <- store_tx (settleCloudCallTransport (call_id i) (di_now i) (di_now i) at_accepted_outcome_unknown cc_outcome_unknown);
      Ret call_outcome_unknown
  end.

Definition dispatchCloudCall (i : DispatchInput) : program CloudDispatchDecision :=
  do requestDigest <- persistPreparedCall i;
  do owned <- casTransitionToDispatching i requestDigest;
  if negb owned then Ret already_owned else
  do r <- completeOnce RESULT_Check (di_adapter i) (di_dispatch i);
  settle_call i r.
End Dispatch.

(** A small cloud call to run the dispatch on: a stand-in for SHA-256, a request with its wire
    envelope, an adapter with an approval, and answers of a provider. *)

Open Scope string_scope.
Open Scope list_scope.

(** A polynomial in the bytes, as sixty-four hexadecimal digits. *)
Fixpoint hex_digits (n : nat) (h : N) : ustr :=
  match n with O => [] | S n => hex_digit (h mod 16)%N :: hex_digits n (h / 16)%N end.
Definition rolling_hash : Hashing :=
  {| sha256_hex := fun bs => hex_digits 64 (fold_left (fun h b => (h * 257 + b + 1) mod 2305843009213693951)%N bs 0%N) |}.

#[local] Existing Instance half_doubles.
#[local] Existing Instance rolling_hash.

Definition ok_or {E A} (d : A) (r : result E A) : A := match r with Ok a => a | Err _ => d end.

Definition sample_request (maxOutput : Z) : jsvalue :=
  obj [("runId", str "run"); ("cloudCallId", str "call"); ("purpose", str "initial"); ("deploymentId", str "dep");
    ("adapterVersionObjectDigest", str "adapter");
    ("requestBinding", obj [("modelRevision", str "m1"); ("baseSnapshotId", str "snap"); ("baseSnapshotRootDigest", str "root")]);
    ("requestBindingDigest", str "binding"); ("contextPacketObjectDigest", str "packet"); ("maxOutputTokens", VInt maxOutput);
    ("resultMode", str "strict-json-schema")].
Definition sample_conversation (prompt : string) : jsvalue :=
  obj [("systemPrompt", str prompt); ("messages", VArr []); ("tools", VArr [])].
Definition sample_egress : jsvalue := obj [("endpointIdentity", str "https://provider.example/v1/chat/completions")].
Definition sample_capabilities : DeploymentCapabilities :=
  mkCapabilities (u "dep") (u "adapter") (u "v1/chat/completions") (u "m1") 1000 None grade_C [].

Definition no_envelope (p : jsvalue) : ArtifactEnvelope jsvalue := mkEnvelope [] 1 p [] [].
Definition seal (schema : string) (p : jsvalue) : ArtifactEnvelope jsvalue := ok_or (no_envelope p) (unsignedEnvelope (u schema) p).

Definition ascii_compare (a b : ustr) : comparison := if bool_decide (a = b) then Eq else if utf16_leb a b then Lt else Gt.

Definition sample_dispatch (prompt : string) (maxOutput : Z) : CloudDispatch :=
  let request := seal "CanonicalCloudRequest" (sample_request maxOutput) in
  let conversation := seal "CompiledCloudConversation" (sample_conversation prompt) in
  let body := ok_or [] (providerBodyBytes (payload conversation) (payload request) sample_capabilities) in
  mkDispatch request (seal "EgressManifest" sample_egress) conversation
    (seal "ProviderWireRequest"
       (wire_payload ascii_compare (ok_or [] (envelopeDigest request)) (payload request) sample_egress sample_capabilities body)).

Definition evidence_sink (bs : bytes) : prog CloudTables FetchRequest FetchOutcome CloudErr Digest := persistDispatchBytes bs None.

Definition sample_adapter (d : CloudDispatch) (sink : bytes -> prog CloudTables FetchRequest FetchOutcome CloudErr Digest)
    : OneShotAdapter (Store := CloudTables) :=
  mkAdapter (mkOptions sample_capabilities true (ok_or [] (envelopeDigest (d_wireRequest d))) (u "Bearer key")
               (u "2024-01-01T00:00:02.000Z") (u "2024-01-01T00:00:01.000Z") sink)
    (mkRecovery grade_C []).

Definition packet_digest : Digest := Eval vm_compute in objectDigestFromBytes (u "packet").

(** Two dispatches under one call id, with different prompts and output limits. *)
Definition dispatch_a : CloudDispatch := Eval vm_compute in sample_dispatch "a" 100.
Definition dispatch_b : CloudDispatch := Eval vm_compute in sample_dispatch "b" 200.

Definition sample_input (d : CloudDispatch) (sink : bytes -> prog CloudTables FetchRequest FetchOutcome CloudErr Digest) : DispatchInput :=
  mkDispatchInput d (sample_adapter d sink) packet_digest (u "project") (u "2024-01-01T00:00:00.000Z").

Definition sample_tables : CloudTables := mkTables [(packet_digest, Some (u "ContextPacket"))] [(u "run", u "ws")] [] [] [] [].

(** Answers: the result bound to the call, a refusal, and a dropped connection. *)
Definition sample_result : jsvalue :=
  obj [("runId", str "run"); ("cloudCallId", str "call"); ("requestBindingDigest", str "binding");
    ("contextPacketObjectDigest", str "packet"); ("baseSnapshotId", str "snap"); ("baseSnapshotRootDigest", str "root")].
Definition answer_body : bytes :=
  utf8_encode (JSON_stringify (obj [("choices", VArr [obj [("message", obj [("content", VStr (JSON_stringify sample_result))]);
    ("finish_reason", str "stop")]])])).
Definition answered : FetchOutcome :=
  fetch_response (mkResponse 200 (Some (u "application/json")) (stream_body [rd_chunk answer_body])).
Definition throttled : FetchOutcome := fetch_response (mkResponse 429 None (null_body None)).
Definition dropped : FetchOutcome := fetch_throw (mkThrown [mkErrorNode (Some (u "ECONNRESET")) false err_nullish] (err_object 0)).

(** ** Executions *)

Definition accept_all (_ : jsvalue) : bool := true.

Definition start (inputs : list DispatchInput) := mkSystem sample_tables [] (map (dispatchCloudCall accept_all) inputs).

(** The dispatcher [i] takes [n] steps and is answered [o] if it asks. *)
Definition steps (i n : nat) (o : FetchOutcome) : list (nat * FetchOutcome) := replicate n (i, o).

Definition call_states {A} (s : system CloudTables FetchRequest FetchOutcome CloudErr A) : list CloudCallState := map (fun c => cc_state c.2) (t_calls (sys_store s)).
Definition bound_roles {A} (s : system CloudTables FetchRequest FetchOutcome CloudErr A) : list ustr := map cb_role (t_bindings (sys_store s)).

(** Where a dispatcher is: it returned that the call is not its own, it threw for missing evidence, or
    something else. *)
Inductive stage : Set := st_not_owned | st_evidence_missing | st_other.
Definition stage_of (p : prog CloudTables FetchRequest FetchOutcome CloudErr CloudDispatchDecision) : stage :=
  match p with Ret already_owned => st_not_owned | Throw ce_evidence_missing => st_evidence_missing | _ => st_other end.

Definition input_a : DispatchInput := sample_input dispatch_a evidence_sink.
Definition input_b : DispatchInput := sample_input dispatch_b evidence_sink.

(** A refused dispatch can be repeated: the second dispatcher completes the call. *)
Definition retried := run_schedule (steps 0 34 throttled ++ steps 1 34 answered) (start [input_a; input_a]).
Example retried_completes : call_states retried = [cc_completed] /\ map (fun p => p.2) (sys_posts retried) = [throttled; answered].
Proof. vm_compute. auto. Qed.

(** A dispatcher that starts while another is waiting for the answer does not post. *)
Definition contended := run_schedule (steps 0 18 answered ++ steps 1 34 answered ++ steps 0 20 answered) (start [input_a; input_a]).
Example contended_owned : call_states contended = [cc_completed] /\ length (sys_posts contended) = 1 /\
  map stage_of (sys_threads contended) = [st_other; st_not_owned].
Proof. vm_compute. auto. Qed.

(** The compare-and-set is given the digest of the row that exists, not of the request at hand: a
    dispatch of another request under the same call id is posted and recorded as that call. *)
Definition substituted := run_schedule (steps 0 16 answered ++ steps 1 34 answered) (start [input_a; input_b]).
Lemma existing_call_posts_other_request :
  call_states substituted = [cc_completed] /\
  map (fun p => fr_body p.1.2) (sys_posts substituted) =
    [ok_or [] (providerBodyBytes (payload (d_conversation dispatch_b)) (payload (d_request dispatch_b)) sample_capabilities)] /\
  map (fun c => cc_requestDigest c.2) (t_calls (sys_store substituted)) = [ok_or [] (envelopeDigest (d_request dispatch_a))] /\
  bool_decide (ok_or [] (envelopeDigest (d_request dispatch_b)) = ok_or [] (envelopeDigest (d_request dispatch_a))) = false.
Proof. vm_compute. auto. Qed.

(** A dispatcher that stops between creating the row and binding the artifacts leaves a prepared call
    that is later dispatched and completed without them. *)
Definition unbound := run_schedule (steps 0 11 answered ++ steps 1 34 answered) (start [input_a; input_a]).
Lemma interrupted_call_lacks_artifacts : call_states unbound = [cc_completed] /\ bound_roles unbound = [u "cloud-completion-receipt"].
Proof. vm_compute. auto. Qed.

(** An adapter without a sink only hashes the evidence of an ambiguous failure: the dispatch throws and
    the call stays [dispatching], where no later dispatch takes it. *)
Definition stuck := run_schedule (steps 0 34 dropped ++ steps 1 34 answered) (start [sample_input dispatch_a hash_only; input_a]).
Lemma hashed_evidence_blocks_call : call_states stuck = [cc_dispatching] /\
  map stage_of (sys_threads stuck) = [st_evidence_missing; st_not_owned].
Proof. vm_compute. auto. Qed.

(** The idempotency key of the wire request is not among the headers sent. *)
Lemma idempotency_key_not_sent : map (fun p => map fst (fr_headers p.1.2)) (sys_posts contended) =
  [[u "accept"; u "content-type"; u "authorization"]].
Proof. vm_compute. auto. Qed.

(** Events separated by CR LF are not told apart: the stream is read as truncated. *)
Definition sse_event (eol : ustr) : ustr :=
  u "data: " ++ JSON_stringify (obj [("choices", VArr [obj [("delta", obj [("content", str "x")]); ("finish_reason", str "stop")]])]) ++ eol ++ eol.
Definition sse_stream (eol : ustr) : ustr := sse_event eol ++ sse_event eol ++ u "data: [DONE]" ++ eol ++ eol.
Lemma crlf_events_truncated :
  po_finish (parseSse (sse_stream [10%N])) = Some F_stop /\ po_truncatedStream (parseSse (sse_stream [10%N])) = false /\
  po_finish (parseSse (sse_stream [13%N; 10%N])) = None /\ po_truncatedStream (parseSse (sse_stream [13%N; 10%N])) = true.
Proof. vm_compute. auto. Qed.
