(* ===== verification/CloudProtocol.v ===== *)
(** The ownership protocol of cloud calls.  A dispatcher is in a phase: it does not own the call, owns it
    and has sent nothing, was refused, may have been accepted, or has sealed the receipt of an accepted
    request.  Programs that move only along the protocol keep, in every interleaving and whatever
    stops, the invariant that all requests of a call but the last were refused. *)

From stdpp Require Import relations.
From Stdlib Require Import String.
From S2P Require Import Prelude JsText CanonicalJson Digest Async CloudGateway CloudStore.
Open Scope string_scope.
Open Scope list_scope.

Inductive phase : Type := ph_idle | ph_fresh | ph_refused | ph_open | ph_sealed (receipt : Digest).

(** The answers that say a request was not accepted, and the errors of a connection that was never
    made. *)
Definition REFUSALS : list Z := [400; 401; 403; 429]%Z.
Definition refused (o : FetchOutcome) : bool :=
  match o with
  | fetch_throw e => existsb (fun code => includes code PROVEN_NOT_ACCEPTED_CODES) (codes_of e)
  | fetch_response r => includes (rs_status r) REFUSALS
  end.

Lemma refused_status_spec s : refused_status s = includes s REFUSALS.
Proof. unfold refused_status, includes. apply bool_decide_ext. unfold REFUSALS. rewrite !elem_of_cons. tauto. Qed.

Definition after_post (o : FetchOutcome) : phase := if refused o then ph_refused else ph_open.

Definition RECEIPT_ROLE : ustr := u "cloud-completion-receipt".

(** The receipt is stored and bound to the call. *)
Definition receipt_bound (t : CloudTables) (c : ustr) (d : Digest) : Prop :=
  mkCallBinding c RECEIPT_ROLE d ∈ t_bindings t /\ hasArtifact d t = true.

(** Artifacts and bindings are never removed. *)
Definition grows (t t' : CloudTables) : Prop :=
  (forall d, hasArtifact d t = true -> hasArtifact d t' = true) /\ (forall b, b ∈ t_bindings t -> b ∈ t_bindings t').

(** ** The protocol *)

Inductive move (c : ustr) : phase -> CloudTables -> phase -> CloudTables -> Prop :=
| mv_quiet ph t t' : t_calls t' = t_calls t -> grows t t' -> move c ph t ph t'
| mv_create t t' r : JsMap.get c (t_calls t) = None -> cc_state r = cc_prepared ->
    t_calls t' = t_calls t ++ [(c, r)] -> grows t t' -> move c ph_idle t ph_idle t'
| mv_take t t' r r' : JsMap.get c (t_calls t) = Some r -> cc_state r = cc_prepared -> cc_state r' = cc_dispatching ->
    t_calls t' = JsMap.set c r' (t_calls t) -> grows t t' -> move c ph_idle t ph_fresh t'
| mv_seal d t t' : t_calls t' = t_calls t -> grows t t' -> receipt_bound t' c d -> move c ph_open t (ph_sealed d) t'
| mv_complete d t t' r : cc_state r = cc_completed -> cc_responseDigest r = Some d ->
    t_calls t' = JsMap.set c r (t_calls t) -> grows t t' -> move c (ph_sealed d) t ph_idle t'
| mv_release ph t t' r : ph = ph_fresh \/ ph = ph_refused -> cc_state r = cc_prepared ->
    t_calls t' = JsMap.set c r (t_calls t) -> grows t t' -> move c ph t ph_idle t'
| mv_close ph t t' r : ph <> ph_idle -> cc_state r = cc_outcome_unknown ->
    t_calls t' = JsMap.set c r (t_calls t) -> grows t t' -> move c ph t ph_idle t'
| mv_abandon ph t t' : t_calls t' = t_calls t -> grows t t' -> move c ph t ph_idle t'.

Section Protocol.
Local Abbreviation program := (prog CloudTables FetchRequest FetchOutcome CloudErr).

(** Every step of the program is a move, every request is made by a fresh owner, and a result is
    returned in a phase where [Q] holds. *)
Fixpoint safe {A} (c : ustr) (Q : phase -> A -> Prop) (ph : phase) (p : program A) : Prop :=
  match p with
  | Ret a => Q ph a
  | Throw _ => True
  | Post _ k => ph = ph_fresh /\ forall o, safe c Q (after_post o) (k o)
  | @Atomic _ _ _ _ _ R work k =>
      exists next : R -> phase, (forall t, move c ph t (next (work t).2) (work t).1) /\ forall r, safe c Q (next r) (k r)
  end.

Lemma safe_mono {A} c (Q Q' : phase -> A -> Prop) p : forall ph, (forall ph' a, Q ph' a -> Q' ph' a) -> safe c Q ph p -> safe c Q' ph p.
Proof.
  induction p as [a|e|R work k IH|r k IH]; intros ph HQ; cbn [safe]; [apply HQ | done | | ].
  - intros (next & Hm & Hk). exists next. split; [done|]. intros r. apply IH; [done | apply Hk].
  - intros [-> Hk]. split; [done|]. intros o. apply IH; [done | apply Hk].
Qed.

Lemma safe_bind {A B} c (Q : phase -> A -> Prop) (Q' : phase -> B -> Prop) (f : A -> program B) p : forall ph,
  safe c Q ph p -> (forall ph' a, Q ph' a -> safe c Q' ph' (f a)) -> safe c Q' ph (pbind p f).
Proof.
  induction p as [a|e|R work k IH|r k IH]; intros ph; cbn [safe pbind]; [intros H Hf; by apply Hf | done | | ].
  - intros (next & Hm & Hk) Hf. exists next. split; [done|]. intros r. by apply IH.
  - intros [-> Hk] Hf. split; [done|]. intros o. by apply IH.
Qed.

(** ** The invariant *)

(** The call of every dispatcher. *)
Variable ids : list ustr.

Definition posts_of (c : ustr) (posts : list (nat * FetchRequest * FetchOutcome)) : list FetchOutcome :=
  omap (fun p => if bool_decide (ids !! p.1.1 = Some c) then Some p.2 else None) posts.

Definition all_refused (os : list FetchOutcome) : Prop := Forall (fun o => refused o = true) os.
Definition earlier_refused (os : list FetchOutcome) : Prop := forall k o, os !! k = Some o -> S k < length os -> refused o = true.

Definition owner (phs : list phase) (i : nat) (c : ustr) (ph : phase) : Prop :=
  ids !! i = Some c /\ phs !! i = Some ph /\ ph <> ph_idle.

Record call_inv (t : CloudTables) (posts : list (nat * FetchRequest * FetchOutcome)) (phs : list phase) (c : ustr) : Prop := {
  ci_unique : forall i j ph ph', owner phs i c ph -> owner phs j c ph' -> i = j;
  ci_row : forall i ph, owner phs i c ph -> exists r, JsMap.get c (t_calls t) = Some r /\ cc_state r = cc_dispatching;
  ci_last : earlier_refused (posts_of c posts);
  ci_free : (forall r, JsMap.get c (t_calls t) = Some r -> cc_state r = cc_prepared) -> all_refused (posts_of c posts);
  ci_hold : forall i ph, owner phs i c ph -> ph = ph_fresh \/ ph = ph_refused -> all_refused (posts_of c posts);
  ci_sealed : forall i d, owner phs i c (ph_sealed d) -> receipt_bound t c d;
  ci_completed : forall r d, JsMap.get c (t_calls t) = Some r -> cc_state r = cc_completed -> cc_responseDigest r = Some d ->
    receipt_bound t c d
}.

Definition system_inv {A} (sys : system CloudTables FetchRequest FetchOutcome CloudErr A) : Prop :=
  length (sys_threads sys) = length ids /\
  exists phs, length phs = length ids /\
    (forall i p, sys_threads sys !! i = Some p -> exists c ph, ids !! i = Some c /\ phs !! i = Some ph /\ safe c (fun _ _ => True) ph p) /\
    forall c, call_inv (sys_store sys) (sys_posts sys) phs c.

Lemma all_earlier os : all_refused os -> earlier_refused os.
Proof. unfold all_refused. rewrite Forall_lookup. intros H k o Ho _. by apply (H k). Qed.

Lemma earlier_snoc os o : all_refused os -> earlier_refused (os ++ [o]).
Proof.
  intros H k o' Ho Hk. rewrite length_app in Hk. cbn in Hk. rewrite lookup_app_l in Ho by lia.
  unfold all_refused in H. rewrite Forall_lookup in H. by apply (H k).
Qed.

Lemma posts_of_snoc c posts i r o : posts_of c (posts ++ [(i, r, o)]) =
  posts_of c posts ++ (if bool_decide (ids !! i = Some c) then [o] else []).
Proof. unfold posts_of. rewrite omap_app. cbn. by case_bool_decide. Qed.

Lemma bound_grows t t' c d : grows t t' -> receipt_bound t c d -> receipt_bound t' c d.
Proof. intros [Ha Hb] [H1 H2]. split; auto. Qed.

Lemma get_snoc_ne {V} (c0 c : ustr) (v : V) l : c0 <> c -> JsMap.get c0 (l ++ [(c, v)]) = JsMap.get c0 l.
Proof. intros Hne. induction l as [|[k w] l IH]; cbn; [by rewrite decide_False | by rewrite IH]. Qed.

Lemma get_snoc {V} (c : ustr) (v : V) l : JsMap.get c l = None -> JsMap.get c (l ++ [(c, v)]) = Some v.
Proof. induction l as [|[k w] l IH]; cbn; [by rewrite decide_True|]. by destruct (decide (c = k)). Qed.

(** A move changes the row of its own call only. *)
Lemma move_other c c0 ph t ph' t' : move c ph t ph' t' -> c0 <> c ->
  JsMap.get c0 (t_calls t') = JsMap.get c0 (t_calls t) /\ grows t t'.
Proof.
  intros Hm Hne. destruct Hm as [? ? ? H G|? ? ? Hn ? H G|? ? ? ? ? ? ? H G|? ? ? H G|? ? ? ? ? ? H G|? ? ? ? ? ? H G|? ? ? ? ? ? H G|? ? ? H G];
    (split; [|done]); rewrite H; try done; try by apply JsMap.get_set_ne.
  by apply get_snoc_ne.
Qed.

(** ** Preservation *)

Lemma owner_insert phs i c ph j c0 q : i < length phs -> ids !! i = Some c ->
  owner (<[i := ph]> phs) j c0 q -> (j = i /\ c0 = c /\ q = ph /\ ph <> ph_idle) \/ (owner phs j c0 q /\ (j = i -> False)).
Proof.
  intros Hi Hc (H1 & H2 & H3). destruct (decide (j = i)) as [->|Hne].
  - left. rewrite list_lookup_insert_eq in H2 by done. rewrite Hc in H1. injection H1 as ->. injection H2 as ->. done.
  - right. rewrite list_lookup_insert_ne in H2 by done. done.
Qed.

(** The invariant of a call with at most one owner. *)
Lemma sole_inv t posts phs c i ph :
  (forall j q, owner phs j c q -> j = i /\ q = ph) ->
  (ph <> ph_idle -> exists r, JsMap.get c (t_calls t) = Some r /\ cc_state r = cc_dispatching) ->
  earlier_refused (posts_of c posts) ->
  ((forall r, JsMap.get c (t_calls t) = Some r -> cc_state r = cc_prepared) -> all_refused (posts_of c posts)) ->
  (ph = ph_fresh \/ ph = ph_refused -> all_refused (posts_of c posts)) ->
  (forall d, ph = ph_sealed d -> receipt_bound t c d) ->
  (forall r d, JsMap.get c (t_calls t) = Some r -> cc_state r = cc_completed -> cc_responseDigest r = Some d -> receipt_bound t c d) ->
  call_inv t posts phs c.
Proof.
  intros Hone Hrow Hlast Hfree Hhold Hseal Hdone. split; try done.
  - intros j k q q' Hj Hk. apply Hone in Hj as [-> _]. by apply Hone in Hk as [-> _].
  - intros j q Hj. destruct (Hone j q Hj) as [-> ->]. apply Hrow. apply Hj.
  - intros j q Hj. destruct (Hone j q Hj) as [-> ->]. apply Hhold.
  - intros j d Hj. apply Hone in Hj as [_ Hd]. by apply Hseal.
Qed.

Lemma inv_other t t' posts phs i c ph c0 : i < length phs -> ids !! i = Some c -> c0 <> c ->
  JsMap.get c0 (t_calls t') = JsMap.get c0 (t_calls t) -> grows t t' ->
  call_inv t posts phs c0 -> call_inv t' posts (<[i := ph]> phs) c0.
Proof.
  intros Hi Hc Hne Hget G [U R L F H S D].
  assert (Ho : forall j q, owner (<[i := ph]> phs) j c0 q -> owner phs j c0 q).
  { intros j q Hj. by destruct (owner_insert _ _ _ _ _ _ _ Hi Hc Hj) as [(_ & ? & _)|[? _]]. }
  split; rewrite ?Hget; eauto using bound_grows.
Qed.

Lemma owner_sole t posts phs i c ph ph' : call_inv t posts phs c -> ids !! i = Some c -> phs !! i = Some ph -> ph <> ph_idle ->
  forall j q, owner (<[i := ph']> phs) j c q -> j = i /\ q = ph'.
Proof.
  intros I Hc Hp Hn j q Hj. pose proof (lookup_lt_Some _ _ _ Hp) as Hi.
  destruct (owner_insert _ _ _ _ _ _ _ Hi Hc Hj) as [(-> & _ & -> & _)|[Hj' Hne]]; [done|].
  exfalso. apply Hne. apply (ci_unique _ _ _ _ I j i q ph Hj'). by split.
Qed.

(** The row of an owned call is being dispatched. *)
Lemma owned_row t posts phs i c ph : call_inv t posts phs c -> ids !! i = Some c -> phs !! i = Some ph -> ph <> ph_idle ->
  exists r, JsMap.get c (t_calls t) = Some r /\ cc_state r = cc_dispatching.
Proof. intros I Hc Hp Hn. apply (ci_row _ _ _ _ I i ph). by split. Qed.

(** Moves that leave the row keep the invariant. *)
Lemma quiet_inv t t' posts phs c : call_inv t posts phs c -> t_calls t' = t_calls t -> grows t t' -> call_inv t' posts phs c.
Proof. intros [U R L F H S D] E G. split; rewrite ?E; eauto using bound_grows. Qed.

Lemma abandon_inv t posts phs i c : i < length phs -> ids !! i = Some c -> call_inv t posts phs c -> call_inv t posts (<[i := ph_idle]> phs) c.
Proof.
  intros Hi Hc [U R L F H S D].
  assert (Ho : forall j q, owner (<[i := ph_idle]> phs) j c q -> owner phs j c q).
  { intros j q Hj. by destruct (owner_insert _ _ _ _ _ _ _ Hi Hc Hj) as [(_ & _ & _ & Hn)|[? _]]. }
  split; eauto.
Qed.

Lemma no_owner t posts phs c r : call_inv t posts phs c -> JsMap.get c (t_calls t) = Some r -> cc_state r <> cc_dispatching ->
  forall j q, owner phs j c q -> False.
Proof. intros I Hr Hs j q Hj. destruct (ci_row _ _ _ _ I j q Hj) as (r' & Hr' & Hd). congruence. Qed.

(** Settling: the owner writes the row and gives the call up. *)
Lemma settle_inv t t' posts phs i c ph r : call_inv t posts phs c -> ids !! i = Some c -> phs !! i = Some ph -> ph <> ph_idle ->
  t_calls t' = JsMap.set c r (t_calls t) ->
  (cc_state r = cc_prepared -> all_refused (posts_of c posts)) ->
  (forall d, cc_state r = cc_completed -> cc_responseDigest r = Some d -> receipt_bound t' c d) ->
  call_inv t' posts (<[i := ph_idle]> phs) c.
Proof.
  intros I Hc Hp Hn E Hprep Hdone. pose proof (owner_sole _ _ _ _ _ _ ph_idle I Hc Hp Hn) as Hone.
  apply (sole_inv _ _ _ _ i ph_idle); rewrite ?E; [done | done | apply I | | by intros [|] | done | ].
  - intros H. apply Hprep, H, JsMap.get_set_eq.
  - intros r' d Hr'. rewrite JsMap.get_set_eq in Hr'. injection Hr' as <-. apply Hdone.
Qed.

Lemma create_inv t t' posts phs c r : call_inv t posts phs c -> JsMap.get c (t_calls t) = None -> cc_state r = cc_prepared ->
  t_calls t' = t_calls t ++ [(c, r)] -> grows t t' -> call_inv t' posts phs c.
Proof.
  intros I Hnone Hs E G.
  assert (Hno : forall j q, owner phs j c q -> False).
  { intros j q Hj. destruct (ci_row _ _ _ _ I j q Hj) as (r' & Hr' & _). congruence. }
  apply (sole_inv _ _ _ _ 0 ph_idle); rewrite ?E; [|done|apply I| |by intros [|]|done|].
  - intros j q Hj. by destruct (Hno j q).
  - intros _. apply (ci_free _ _ _ _ I). by rewrite Hnone.
  - intros r' d Hr'. rewrite get_snoc in Hr' by done. injection Hr' as <-. congruence.
Qed.

Lemma take_inv t t' posts phs i c r r' : call_inv t posts phs c -> i < length phs -> ids !! i = Some c ->
  JsMap.get c (t_calls t) = Some r -> cc_state r = cc_prepared -> cc_state r' = cc_dispatching ->
  t_calls t' = JsMap.set c r' (t_calls t) -> call_inv t' posts (<[i := ph_fresh]> phs) c.
Proof.
  intros I Hi Hc Hr Hs Hs' E.
  assert (Hall : all_refused (posts_of c posts)). { apply (ci_free _ _ _ _ I). rewrite Hr. by intros r0 [= <-]. }
  apply (sole_inv _ _ _ _ i ph_fresh); rewrite ?E; [| |apply I| done |done|done|].
  - intros j q Hj. destruct (owner_insert _ _ _ _ _ _ _ Hi Hc Hj) as [(-> & _ & -> & _)|[Hj' _]]; [done|].
    exfalso. apply (no_owner _ _ _ _ r I Hr) in Hj'; [done | congruence].
  - intros _. exists r'. split; [apply JsMap.get_set_eq | done].
  - intros r0 d Hr0. rewrite JsMap.get_set_eq in Hr0. injection Hr0 as <-. congruence.
Qed.

Lemma seal_inv t t' posts phs i c d : call_inv t posts phs c -> ids !! i = Some c -> phs !! i = Some ph_open ->
  t_calls t' = t_calls t -> grows t t' -> receipt_bound t' c d -> call_inv t' posts (<[i := ph_sealed d]> phs) c.
Proof.
  intros I Hc Hp E G Hb. pose proof (owner_sole _ _ _ _ _ _ (ph_sealed d) I Hc Hp ltac:(done)) as Hone.
  apply (sole_inv _ _ _ _ i (ph_sealed d)); rewrite ?E; [done| |apply I|apply I|by intros [|]|by intros d' [= <-]|].
  - intros _. by apply (owned_row _ _ _ _ _ _ I Hc Hp).
  - intros r d' Hr Hs Hd. by eapply bound_grows, (ci_completed _ _ _ _ I).
Qed.

Lemma move_inv t t' posts phs i c ph ph' : call_inv t posts phs c -> ids !! i = Some c -> phs !! i = Some ph ->
  move c ph t ph' t' -> call_inv t' posts (<[i := ph']> phs) c.
Proof.
  intros I Hc Hp Hm. pose proof (lookup_lt_Some _ _ _ Hp) as Hi.
  destruct Hm as [ph t t' E G|t t' r Hn Hs E G|t t' r r' Hr Hs Hs' E G|d t t' E G Hb|d t t' r Hs Hd E G|ph t t' r Hph Hs E G|ph t t' r Hph Hs E G|ph t t' E G].
  - rewrite list_insert_id by done. by eapply quiet_inv.
  - rewrite list_insert_id by done. by eapply create_inv.
  - by eapply take_inv.
  - by eapply seal_inv.
  - eapply settle_inv; [done..|congruence|]. intros d' _ Hd'. assert (d' = d) as -> by congruence.
    eapply bound_grows; [done|]. apply (ci_sealed _ _ _ _ I i). by split.
  - eapply settle_inv; [done..| |done| |congruence]; [by destruct Hph as [-> | ->]|].
    intros _. apply (ci_hold _ _ _ _ I i ph); [|done]. split; [done|]. split; [done|]. by destruct Hph as [-> | ->].
  - eapply settle_inv; [done..| |]; congruence.
  - apply abandon_inv; [done..|]. by eapply quiet_inv.
Qed.

Lemma post_inv t posts phs i c request o : call_inv t posts phs c -> ids !! i = Some c -> phs !! i = Some ph_fresh ->
  call_inv t (posts ++ [(i, request, o)]) (<[i := after_post o]> phs) c.
Proof.
  intros I Hc Hp. pose proof (owner_sole _ _ _ _ _ _ (after_post o) I Hc Hp ltac:(done)) as Hone.
  destruct (owned_row _ _ _ _ _ _ I Hc Hp ltac:(done)) as (r & Hr & Hs).
  assert (Hall : all_refused (posts_of c posts)). { apply (ci_hold _ _ _ _ I i ph_fresh); [by split | by left]. }
  assert (Hsnoc : posts_of c (posts ++ [(i, request, o)]) = posts_of c posts ++ [o]).
  { rewrite posts_of_snoc. by rewrite bool_decide_eq_true_2. }
  apply (sole_inv _ _ _ _ i (after_post o)); rewrite ?Hsnoc; [done|eauto|by apply earlier_snoc| | | |apply I].
  - intros Hf. specialize (Hf r Hr). congruence.
  - unfold after_post. destruct (refused o) eqn:Eo; [|by intros [|]]. intros _. unfold all_refused in *.
    apply Forall_app. split; [done | by constructor].
  - unfold after_post. by destruct (refused o).
Qed.

Lemma post_other t posts phs i c ph request o c0 : i < length phs -> ids !! i = Some c -> c0 <> c ->
  call_inv t posts phs c0 -> call_inv t (posts ++ [(i, request, o)]) (<[i := ph]> phs) c0.
Proof.
  intros Hi Hc Hne I. apply (inv_other t t posts phs i c ph c0) in I; [|done..|by split].
  assert (Hs : posts_of c0 (posts ++ [(i, request, o)]) = posts_of c0 posts).
  { rewrite posts_of_snoc, bool_decide_eq_false_2, app_nil_r; congruence. }
  destruct I as [U R L F H S D]. split; rewrite ?Hs; eauto.
Qed.

(** Replacing one program and its phase. *)
Lemma threads_insert {A} (ps : list (program A)) phs i p c ph :
  (forall j q, ps !! j = Some q -> exists c ph, ids !! j = Some c /\ phs !! j = Some ph /\ safe c (fun _ _ => True) ph q) ->
  i < length phs -> ids !! i = Some c -> safe c (fun _ _ => True) ph p ->
  forall j q, <[i := p]> ps !! j = Some q -> exists c ph', ids !! j = Some c /\ <[i := ph]> phs !! j = Some ph' /\ safe c (fun _ _ => True) ph' q.
Proof.
  intros Hall Hi Hc Hs j q. destruct (decide (i = j)) as [<-|Hne].
  - intros Hq. assert (Hl : i < length ps). { apply lookup_lt_Some in Hq. by rewrite length_insert in Hq. }
    rewrite list_lookup_insert_eq in Hq by done. injection Hq as <-. exists c, ph. by rewrite list_lookup_insert_eq.
  - rewrite !list_lookup_insert_ne by done. apply Hall.
Qed.

(** Every step of every dispatcher, every answer of the provider and every crash keeps the invariant. *)
Lemma step_system_inv {A} (s s' : system CloudTables FetchRequest FetchOutcome CloudErr A) : system_inv s -> sys_step s s' -> system_inv s'.
Proof.
  intros (Hlen & phs & Hphs & Hsafe & Hinv) Hstep.
  destruct Hstep as [t posts ps i R work k Hp|t posts ps i request o k Hp|t posts ps i p e Hp];
    cbn [sys_store sys_posts sys_threads] in *; destruct (Hsafe _ _ Hp) as (c & ph & Hc & Hph & Hs);
    (split; [cbn [sys_threads]; by rewrite length_insert|]); pose proof (lookup_lt_Some _ _ _ Hph) as Hi; cbn [safe] in Hs.
  - destruct Hs as (next & Hm & Hk). exists (<[i := next (work t).2]> phs). rewrite length_insert. split; [done|].
    split; [by eapply threads_insert|]. intros c0. destruct (decide (c0 = c)) as [->|Hne].
    + by eapply move_inv.
    + destruct (move_other _ _ _ _ _ _ (Hm t) Hne). by eapply inv_other.
  - destruct Hs as [-> Hk]. exists (<[i := after_post o]> phs). rewrite length_insert. split; [done|].
    split; [by eapply threads_insert|]. intros c0. destruct (decide (c0 = c)) as [->|Hne]; [by apply post_inv | by eapply post_other].
  - exists (<[i := ph_idle]> phs). rewrite length_insert. split; [done|].
    split; [by eapply (threads_insert ps phs i (Throw e) c ph_idle)|]. intros c0.
    destruct (decide (c0 = c)) as [->|Hne]; [by apply abandon_inv|]. by eapply inv_other.
Qed.

Lemma reachable_system_inv {A} (s s' : system CloudTables FetchRequest FetchOutcome CloudErr A) : system_inv s -> rtc sys_step s s' -> system_inv s'.
Proof. intros H Hr. induction Hr as [|s s1 s' Hs _ IH]; [done|]. apply IH. by eapply step_system_inv. Qed.

(** Tables in which every completed call has its receipt, before any request. *)
Definition receipts_stored (t : CloudTables) : Prop :=
  forall c r d, JsMap.get c (t_calls t) = Some r -> cc_state r = cc_completed -> cc_responseDigest r = Some d -> receipt_bound t c d.

Lemma initial_system_inv {A} t (ps : list (program A)) : receipts_stored t -> length ps = length ids ->
  (forall i p c, ps !! i = Some p -> ids !! i = Some c -> safe c (fun _ _ => True) ph_idle p) -> system_inv (mkSystem t [] ps).
Proof.
  intros Ht Hlen Hs. split; [done|]. exists (replicate (length ids) ph_idle). rewrite length_replicate. split; [done|]. split.
  - intros i p Hp. cbn in Hp. destruct (lookup_lt_is_Some_2 ids i) as [c Hc]. { rewrite <-Hlen. by eapply lookup_lt_Some. }
    exists c, ph_idle. split; [done|]. split; [|by eapply Hs]. apply lookup_replicate. split; [done|]. by eapply lookup_lt_Some.
  - intros c. cbn [sys_store sys_posts]. apply (sole_inv _ _ _ _ 0 ph_idle); cbn; [| done | by intros k o | by constructor | by intros [|] | done | apply Ht].
    intros j q (_ & Hq & Hn). apply lookup_replicate in Hq as [-> _]. done.
Qed.
End Protocol.
