(* ===== verification/CloudTheorems.v ===== *)
(** What the dispatch of cloud calls guarantees: the programs of CloudCalls keep to the protocol of
    CloudProtocol, so a call is accepted at most once whatever is interleaved or stops; the adapter
    reports a valid result only for an approved request answered with one; and the approved digest
    determines the request that is sent. *)

From stdpp Require Import relations.
From Stdlib Require Import String.
From S2P Require Import Prelude JsText CanonicalJson JsJson Digest Async CloudWire CloudGateway CloudStore Usage CloudCalls CloudProtocol.
Open Scope string_scope.
Open Scope list_scope.
Open Scope prog_scope.

Section Safety.
Context {DD : Doubles} {HH : Hashing}.
Variable RESULT_Check : jsvalue -> bool.
Variable c : ustr.
Local Abbreviation program := (prog CloudTables FetchRequest FetchOutcome CloudErr).

(** ** Programs that leave the phase *)

Definition quiet {A} (p : program A) : Prop := forall ph, safe c (fun ph' _ => ph' = ph) ph p.

Lemma quiet_bind {A B} (Q : phase -> B -> Prop) (p : program A) (f : A -> program B) ph :
  quiet p -> (forall a, safe c Q ph (f a)) -> safe c Q ph (pbind p f).
Proof. intros Hp Hf. eapply safe_bind; [apply Hp|]. intros ph' a ->. apply Hf. Qed.

Lemma quiet_ret {A} (a : A) : quiet (Ret a).
Proof. done. Qed.
Lemma quiet_throw {A} e : quiet (Throw e : program A).
Proof. done. Qed.
Lemma quiet_lift {A} (r : result WireErr A) : quiet (lift r).
Proof. by destruct r. Qed.

Lemma grows_refl t : grows t t.
Proof. by split. Qed.
Hint Resolve grows_refl : core.

Lemma quiet_read {R} (f : CloudTables -> R) : quiet (store_read f).
Proof. intros ph. exists (fun _ => ph). split; [|done]. intros t. by apply mv_quiet. Qed.

(** A transaction whose commits are moves. *)
Lemma tx_safe {R} (Q : phase -> R -> Prop) ph (work : tx R) (next : R -> phase) :
  (forall t r t', work t = Ok (r, t') -> move c ph t (next r) t') -> (forall r, Q (next r) r) -> safe c Q ph (store_tx work).
Proof.
  intros Hm HQ. exists (fun r => match r with Ok x => next x | Err _ => ph end). split.
  - intros t. unfold run_tx. destruct (work t) as [[r t']|e] eqn:E; [by apply Hm|]. by apply mv_quiet.
  - by intros [r|e]; [apply HQ|].
Qed.

Lemma quiet_tx {R} (work : tx R) :
  (forall t r t', work t = Ok (r, t') -> t_calls t' = t_calls t /\ grows t t') -> quiet (store_tx work).
Proof. intros H ph. apply (tx_safe _ _ _ (fun _ => ph)); [|done]. intros t r t' E. apply H in E as [? ?]. by apply mv_quiet. Qed.

(** ** The transactions *)

Ltac tx_inv H := repeat (match type of H with
  | (if ?b then Err _ else _) = Ok _ => destruct b eqn:?; [done|]
  | match ?x with _ => _ end = Ok _ => destruct x eqn:?; try done
  end); try (injection H as <- <-).

Lemma putArtifact_grows d s t r t' : putArtifact d s t = Ok (r, t') -> t_calls t' = t_calls t /\ grows t t'.
Proof.
  unfold putArtifact. intros H. tx_inv H. split; [done|]. split; [|done]. intros d' Hd'. unfold hasArtifact in *. cbn.
  rewrite JsMap.has_true in *. apply JsMap.elem_of_keys_set. by right.
Qed.

Lemma bind_bound k role d t r t' : bindCloudCallArtifact k role d t = Ok (r, t') ->
  t_calls t' = t_calls t /\ grows t t' /\ mkCallBinding k role d ∈ t_bindings t' /\ hasArtifact d t' = true.
Proof.
  unfold bindCloudCallArtifact. intros H. tx_inv H. repeat split; try done; cbn.
  - intros b Hb. apply elem_of_app. by left.
  - apply elem_of_app. right. by left.
  - unfold hasArtifact, JsMap.has. cbn. by rewrite Heqo0.
Qed.

Lemma create_move r0 t r t' : cc_state r0 = cc_prepared -> createCloudCall c r0 t = Ok (r, t') -> move c ph_idle t ph_idle t'.
Proof.
  unfold createCloudCall. intros Hs H. tx_inv H. apply orb_false_iff in Heqb as [Hn _]. rewrite JsMap.has_false in Hn.
  by eapply mv_create.
Qed.

Lemma transition_move d now t r t' : transitionPreparedCloudCallToDispatching c d now t = Ok (r, t') ->
  move c ph_idle t (if r then ph_fresh else ph_idle) t'.
Proof.
  unfold transitionPreparedCloudCallToDispatching, getCloudCall. intros H. tx_inv H; [|by apply (mv_quiet c ph_idle)..].
  apply andb_true_iff in Heqb as [_ Hs]. rewrite bool_decide_eq_true in Hs. eapply mv_take; [done | done | | done | done]; done.
Qed.

Lemma complete_move d now t r t' : completeCloudCall c d now t = Ok (r, t') -> move c (ph_sealed d) t ph_idle t'.
Proof. unfold completeCloudCall. intros H. tx_inv H. eapply mv_complete; [ | | done | done]; done. Qed.

Lemma attempt_grows k started responded completed outcome provider t r t' :
  insertTransportAttempt k started responded completed outcome provider t = Ok (r, t') -> t_calls t' = t_calls t /\ grows t t'.
Proof. unfold insertTransportAttempt. intros H. tx_inv H. by split. Qed.

Lemma append_grows i t r t' : appendUsage i t = Ok (r, t') -> t_calls t' = t_calls t /\ grows t t'.
Proof. unfold appendUsage. intros H. tx_inv H. by split. Qed.

Lemma settle_effect started updated outcome next t r t' :
  settleCloudCallTransport c started updated outcome next t = Ok (r, t') ->
  exists row, cc_state row = next /\ t_calls t' = JsMap.set c row (t_calls t) /\ grows t t'.
Proof.
  unfold settleCloudCallTransport, rbind. destruct (insertTransportAttempt _ _ _ _ _ _ t) as [[r1 t1]|] eqn:E; [|done].
  apply attempt_grows in E as [Ec G]. cbn. intros H. tx_inv H. eexists. split; [|by rewrite <-Ec]. done.
Qed.

(** ** The programs *)

Lemma putSql_quiet d s : quiet (putSqlArtifact d s).
Proof.
  intros ph. apply quiet_bind; [apply quiet_read|]. intros [|]; [done|]. apply quiet_tx. apply putArtifact_grows.
Qed.

Lemma persistDispatchBytes_quiet bs s : quiet (persistDispatchBytes bs s).
Proof. intros ph. apply quiet_bind; [apply putSql_quiet | done]. Qed.

Lemma fsync_quiet s e : quiet (fsyncEnvelope s e).
Proof. intros ph. apply quiet_bind; [apply quiet_lift|]. intros bs. apply quiet_bind; [apply putSql_quiet | done]. Qed.

Lemma usage_quiet i receipt d : quiet (persistReceiptUsage i receipt d).
Proof.
  intros ph. apply quiet_bind; [apply quiet_read|]. intros [x|[]]; [done | done|].
  apply quiet_bind; [apply quiet_read|]. intros ledger. apply quiet_tx, append_grows.
Qed.

Lemma bind_quiet i role d : quiet (bind i role d).
Proof. apply quiet_tx. intros t r t' H. by apply bind_bound in H as (? & ? & _). Qed.

Lemma persistPrepared_safe i : call_id i = c -> safe c (fun ph _ => ph = ph_idle) ph_idle (persistPreparedCall i).
Proof.
  intros Hc. unfold persistPreparedCall. do 4 (apply quiet_bind; [apply fsync_quiet|]; intros ?).
  apply quiet_bind; [apply quiet_read|]. intros [|]; [|done]. apply quiet_bind; [apply quiet_read|]. intros [r|]; [done|].
  exists (fun _ => ph_idle). split.
  - intros t. unfold run_tx. destruct (createCloudCall _ _ t) as [[x t']|e] eqn:E; [|by apply mv_quiet].
    rewrite Hc in E. eapply create_move; [|exact E]. done.
  - intros [x|[]]; [| |done].
    + do 5 (apply quiet_bind; [apply bind_quiet|]; intros ?). done.
    + apply quiet_bind; [apply quiet_read|]. by intros [r|].
Qed.

Lemma persistReceipt_quiet i receipt : quiet (persistReceipt i receipt false).
Proof.
  intros ph. apply quiet_bind; [apply quiet_lift|]. intros bs. apply quiet_bind; [apply putSql_quiet|]. intros _.
  apply quiet_bind; [apply quiet_ret|]. intros _. apply quiet_bind; [apply usage_quiet | done].
Qed.

(** Persisting the receipt of an accepted request seals it. *)
Lemma persistReceipt_seals i receipt : call_id i = c ->
  safe c (fun ph d => ph = ph_sealed d) ph_open (persistReceipt i receipt true).
Proof.
  intros Hc. apply quiet_bind; [apply quiet_lift|]. intros bs. apply quiet_bind; [apply putSql_quiet|]. intros _.
  eapply (safe_bind c (fun ph (_ : unit) => ph = ph_sealed (objectDigestFromBytes bs))).
  - apply (tx_safe _ _ _ (fun _ => ph_sealed (objectDigestFromBytes bs))); [|done]. intros t r t' H. rewrite Hc in H.
    apply bind_bound in H as (? & ? & ?). by apply mv_seal.
  - intros ph _ ->. apply quiet_bind; [apply usage_quiet | done].
Qed.

(** The phase in which the adapter returns. *)
Definition result_phase (ph : phase) (r : CloudDispatchResult) : Prop :=
  match r with
  | dr_completed _ => ph = ph_open
  | dr_not_dispatched _ _ => ph = ph_fresh \/ ph = ph_refused
  | dr_outcome_unknown _ _ => ph <> ph_idle
  end.

Lemma settle_call_safe i r ph : call_id i = c -> result_phase ph r -> safe c (fun _ _ => True) ph (settle_call i r).
Proof.
  intros Hc. destruct r as [receipt|code receipt|keys evidence]; cbn [result_phase settle_call].
  - intros ->. eapply safe_bind; [by apply persistReceipt_seals|]. intros ph d ->. rewrite Hc.
    eapply (safe_bind c (fun _ _ => True)); [apply (tx_safe _ _ _ (fun _ => ph_idle)); [|done]; intros; by eapply complete_move|].
    intros ph' x _. apply quiet_bind; [apply quiet_tx; intros; by eapply attempt_grows | done].
  - intros Hph. apply quiet_bind; [apply persistReceipt_quiet|]. intros d. rewrite Hc.
    eapply (safe_bind c (fun _ _ => True)); [|done]. apply (tx_safe _ _ _ (fun _ => ph_idle)); [|done].
    intros t x t' H. apply settle_effect in H as (row & Hs & E & G). by eapply mv_release.
  - intros Hph. apply quiet_bind; [apply quiet_lift|]. intros d. apply quiet_bind; [apply quiet_read|]. intros [|]; [|done].
    apply quiet_bind; [apply bind_quiet|]. intros _. rewrite Hc.
    eapply (safe_bind c (fun _ _ => True)); [|done]. apply (tx_safe _ _ _ (fun _ => ph_idle)); [|done].
    intros t x t' H. apply settle_effect in H as (row & Hs & E & G). by eapply mv_close.
Qed.

(** ** The adapter *)

Variable a : OneShotAdapter (Store := CloudTables).
Hypothesis put_quiet : forall bs, quiet (op_putBytes (ad_options a) bs).

Lemma refuse_safe d evidence code message ph : ph = ph_fresh \/ ph = ph_refused ->
  safe c result_phase ph (refuse a d evidence code message).
Proof.
  intros Hph. apply quiet_bind; [apply put_quiet|]. intros digest. unfold notDispatched, rbind.
  by destruct (baseReceipt _ _).
Qed.

Lemma unknown_safe d evidence ph : ph <> ph_idle -> safe c result_phase ph (unknown_outcome a d evidence).
Proof. intros Hph. apply quiet_bind; [apply quiet_lift|]. intros r. by apply quiet_bind; [apply put_quiet|]. Qed.

Lemma incomplete_open o d digest cancelled : safe c result_phase ph_open (lift (incomplete (Store := CloudTables) o d digest cancelled)).
Proof. unfold incomplete, rbind. by destruct (baseReceipt o d). Qed.

Lemma settle_body_open d contentType collected overflow : safe c result_phase ph_open (settle_body RESULT_Check a d contentType collected overflow).
Proof.
  unfold settle_body. destruct (_ && _ && _); [by apply quiet_bind; [apply put_quiet|]|].
  destruct (po_overflow _ || _); [apply quiet_bind; [apply put_quiet|]; intros; apply incomplete_open|].
  destruct (bool_decide _); [apply quiet_bind; [apply put_quiet|]; intros; apply incomplete_open|].
  destruct (decodeResult _ _ _); (apply quiet_bind; [apply quiet_lift|]; intros; by apply quiet_bind; [apply put_quiet|]).
Qed.

Lemma settle_post_safe d o : safe c result_phase (after_post o) (settle_post RESULT_Check a d o).
Proof.
  unfold after_post. destruct o as [e|r]; cbn [settle_post refused].
  - unfold classifyPostOnceThrow. destruct (existsb _ _); [apply refuse_safe; by right | by apply unknown_safe].
  - unfold settle_response. rewrite refused_status_spec. destruct (includes _ _); [apply refuse_safe; by right|].
    destruct (negb _); [by apply unknown_safe|]. destruct (readLimited _) as [[bs overflow]|]; [|by apply unknown_safe].
    apply quiet_bind; [apply quiet_lift|]. intros _. apply settle_body_open.
Qed.

Lemma completeOnce_safe d : safe c result_phase ph_fresh (completeOnce RESULT_Check a d).
Proof.
  apply quiet_bind; [apply quiet_lift|]. intros reconstructed. apply quiet_bind; [apply quiet_lift|]. intros [|]; cbn [negb].
  2: { apply refuse_safe. by left. }
  apply quiet_bind; [apply quiet_lift|]. intros digest. apply quiet_bind; [apply quiet_lift|]. intros [inj|].
  - split; [done|]. apply settle_post_safe.
  - apply refuse_safe. by left.
Qed.
End Safety.

(** A dispatcher keeps to the protocol of its call. *)
Lemma dispatch_safe {DD : Doubles} {HH : Hashing} RESULT_Check i :
  (forall bs, quiet (call_id i) (op_putBytes (ad_options (di_adapter i)) bs)) ->
  safe (call_id i) (fun _ _ => True) ph_idle (dispatchCloudCall RESULT_Check i).
Proof.
  intros Hput. eapply safe_bind; [by apply persistPrepared_safe|]. intros ph requestDigest ->.
  eapply (safe_bind _ (fun ph owned => ph = if (owned : bool) then ph_fresh else ph_idle)).
  - apply (tx_safe _ _ _ _ (fun owned => if (owned : bool) then ph_fresh else ph_idle)); [|done]. intros. by eapply transition_move.
  - intros ph [|] ->; [|done]. eapply safe_bind; [by apply completeOnce_safe|]. intros ph r Hr. by apply settle_call_safe.
Qed.

(** ** At most one acceptance *)

(** Where an adapter puts response bytes: the store of the caller, or nowhere when no sink is given. *)
Definition sink_ok {HH : Hashing} (o : OneShotAdapterOptions (Store := CloudTables)) : Prop :=
  (forall bs, op_putBytes o bs = hash_only bs) \/ exists schema, forall bs, op_putBytes o bs = persistDispatchBytes bs schema.

Lemma sink_quiet {HH : Hashing} c o : sink_ok o -> forall bs, quiet c (op_putBytes o bs).
Proof. intros [H|[schema H]] bs; rewrite H; [apply quiet_ret | apply persistDispatchBytes_quiet]. Qed.

(** C13: whatever dispatchers run on one store, however their steps interleave, whatever the provider
    answers and whichever of them stop, the provider may have accepted a cloud call at most once: every
    request made for a call but the last was proven not accepted; when the call is prepared, so that it
    can be dispatched again, all of them were; and a completed call has its receipt stored and bound. *)
Theorem cloud_call_accepted_once {DD : Doubles} {HH : Hashing} RESULT_Check (inputs : list DispatchInput) t s :
  receipts_stored t -> Forall (fun i => sink_ok (ad_options (di_adapter i))) inputs ->
  rtc sys_step (mkSystem t [] (map (dispatchCloudCall RESULT_Check) inputs)) s ->
  forall c, let outcomes := posts_of (map call_id inputs) c (sys_posts s) in
  earlier_refused outcomes /\
  (forall r, getCloudCall c (sys_store s) = Some r -> cc_state r = cc_prepared -> all_refused outcomes) /\
  (forall r d, getCloudCall c (sys_store s) = Some r -> cc_state r = cc_completed -> cc_responseDigest r = Some d ->
     receipt_bound (sys_store s) c d).
Proof.
  intros Ht Hsinks Hrun c. apply (reachable_system_inv (map call_id inputs)) in Hrun as (_ & phs & _ & _ & Hinv).
  - destruct (Hinv c) as [_ _ L F _ _ D]. split_and!; [done | | done].
    intros r Hr Hs. apply F. unfold getCloudCall in Hr. rewrite Hr. by intros r' [= <-].
  - apply initial_system_inv; [done | by rewrite !length_map |]. intros i p k Hp Hk. apply list_lookup_fmap_Some in Hp as (input & -> & Ei).
    apply list_lookup_fmap_Some in Hk as (input' & -> & Ei'). assert (input' = input) as -> by congruence.
    apply dispatch_safe, sink_quiet. rewrite Forall_lookup in Hsinks. by apply (Hsinks i).
Qed.

(** ** What the adapter reports *)

Section Report.
Context {DD : Doubles} {HH : Hashing}.
Variable RESULT_Check : jsvalue -> bool.
Variable a : OneShotAdapter (Store := CloudTables).
Variable d : CloudDispatch.
Hypothesis sink : sink_ok (ad_options a).

(** The request of a dispatch whose envelopes match and whose wire envelope is the approved one. *)
Definition sealed_request (request : FetchRequest) : Prop :=
  let o := ad_options a in
  let wire := payload (d_wireRequest d) in
  exists body,
    providerBodyBytes (payload (d_conversation d)) (payload (d_request d)) (op_capabilities o) = Ok body /\
    wireDispatchBindingsMatch d (op_capabilities o) body = Ok true /\
    op_approved o = true /\ envelopeDigest (d_wireRequest d) = Ok (op_approvedDigest o) /\
    request = mkFetch (string_field "endpointIdentity" wire)
      (JsMap.set (u "authorization") (op_authorization o) (foldl set_header [] (array_field "nonSecretHeaders" wire))) body.

(** A result against the requests made. *)
Definition adapter_report (posts : list (FetchRequest * FetchOutcome)) (r : CloudDispatchResult) : Prop :=
  match r with
  | dr_completed receipt =>
      exists request response collected overflow,
        posts = [(request, fetch_response response)] /\ sealed_request request /\
        success_status (rs_status response) = true /\ readLimited (rs_body response) = Some (collected, overflow) /\
        baseReceipt (ad_options a) d = Ok (receipt_base receipt) /\
        match receipt with
        | VALID_RESULT _ _ finish raw value digest =>
            let parsed := parseBody collected (default [] (rs_contentType response)) overflow in
            overflow = false /\ length (po_tools parsed) <= 1 /\ RESULT_Check value = true /\ bindingsMatch value d = true /\
            raw = objectDigestFromBytes collected /\ digest = objectDigestFromBytes (utf8_encode (JSON_stringify value))
        | INCOMPLETE _ _ _ incident _ _ _ | FAILED_ACCEPTED _ _ incident _ _ => incident = objectDigestFromBytes collected
        | FAILED_NOT_ACCEPTED _ _ _ _ => False
        end
  | dr_not_dispatched _ receipt =>
      (exists base evidence code message, receipt = FAILED_NOT_ACCEPTED base evidence code message) /\
      (posts = [] \/ exists request outcome, posts = [(request, outcome)] /\ sealed_request request /\ refused outcome = true)
  | dr_outcome_unknown _ _ =>
      exists request outcome, posts = [(request, outcome)] /\ sealed_request request /\ refused outcome = false
  end.

Lemma runs_lift {A} (r : result WireErr A) s posts s' x : runs (lift (Store := CloudTables) r) s posts s' x -> posts = [] /\ r = Ok x.
Proof. destruct r; cbn; [|done]. by intros (-> & _ & ->). Qed.

Lemma runs_put bs s posts s' x : runs (op_putBytes (ad_options a) bs) s posts s' x -> posts = [] /\ x = objectDigestFromBytes bs.
Proof.
  destruct sink as [H|[schema H]]; rewrite H.
  - by intros (-> & _ & ->).
  - cbn. destruct (hasArtifact _ s); cbn.
    + by intros (-> & _ & ->).
    + destruct (run_tx _ _) as [t' [[]|e]]; cbn; [by intros (-> & _ & ->) | done].
Qed.

(** Peels the programs that make no request off a run. *)
Ltac peel H := repeat match type of H with
  | runs (pbind (lift _) _) _ _ _ _ =>
      let N := fresh in let E := fresh "E" in apply runs_bind in H; destruct H as (? & ? & ? & ? & [-> E]%runs_lift & N & ->); rename N into H; cbn [app] in *
  | runs (pbind (op_putBytes _ _) _) _ _ _ _ =>
      let N := fresh in apply runs_bind in H; destruct H as (? & ? & ? & ? & [-> ->]%runs_put & N & ->); rename N into H; cbn [app] in *
  | runs (lift _) _ _ _ _ => apply runs_lift in H as [-> H]
  | runs (Ret _) _ _ _ _ => destruct H as (-> & _ & ->)
  end.

Lemma runs_refuse evidence code message s posts s' r : runs (refuse a d evidence code message) s posts s' r ->
  posts = [] /\ exists base e, r = dr_not_dispatched code (FAILED_NOT_ACCEPTED base e code message).
Proof.
  unfold refuse, notDispatched, rbind. intros H. peel H. destruct (baseReceipt _ d); [|done]. injection H as <-. split; [done|]. by do 2 eexists.
Qed.

Lemma runs_unknown evidence s posts s' r : runs (unknown_outcome a d evidence) s posts s' r ->
  posts = [] /\ exists keys e, r = dr_outcome_unknown keys e.
Proof. unfold unknown_outcome. intros H. peel H. split; [done|]. by do 2 eexists. Qed.

Lemma incomplete_receipt digest cancelled r : incomplete (ad_options a) d digest cancelled = Ok r ->
  exists b acceptedAt finish code retry message,
    baseReceipt (ad_options a) d = Ok b /\ r = dr_completed (INCOMPLETE b acceptedAt finish digest code retry message).
Proof. unfold incomplete, rbind. destruct (baseReceipt _ d) as [b|]; [|done]. intros [= <-]. destruct cancelled; eauto 10. Qed.

Lemma decodeResult_ok parsed v f : decodeResult RESULT_Check parsed d = decoded_ok v f ->
  length (po_tools parsed) <= 1 /\ RESULT_Check v = true /\ bindingsMatch v d = true.
Proof.
  unfold decodeResult. destruct (1 <? length (po_tools parsed))%nat eqn:El; [done|]. apply Nat.ltb_ge in El.
  assert (Ht : forall text f' e1 e2, decode_text RESULT_Check text d f' e1 e2 = decoded_ok v f -> RESULT_Check v = true /\ bindingsMatch v d = true).
  { intros text f' e1 e2. unfold decode_text. destruct (JSON_parse text) as [w|]; [|done].
    destruct (RESULT_Check w) eqn:E1, (bindingsMatch w d) eqn:E2; cbn; try done. by intros [= <- <-]. }
  destruct (po_tools parsed) as [|[tool|] tools]; repeat case_match; try done; intros Hok; apply Ht in Hok; done.
Qed.

(** The results of a successful response. *)
Definition body_result (collected : bytes) (overflow : bool) (contentType : ustr) (r : CloudDispatchResult) : Prop :=
  match r with
  | dr_completed receipt =>
      baseReceipt (ad_options a) d = Ok (receipt_base receipt) /\
      match receipt with
      | VALID_RESULT _ _ finish raw value digest =>
          overflow = false /\ length (po_tools (parseBody collected contentType overflow)) <= 1 /\
          RESULT_Check value = true /\ bindingsMatch value d = true /\
          raw = objectDigestFromBytes collected /\ digest = objectDigestFromBytes (utf8_encode (JSON_stringify value))
      | INCOMPLETE _ _ _ incident _ _ _ | FAILED_ACCEPTED _ _ incident _ _ => incident = objectDigestFromBytes collected
      | FAILED_NOT_ACCEPTED _ _ _ _ => False
      end
  | dr_not_dispatched _ _ => False
  | dr_outcome_unknown _ _ => True
  end.

Lemma parseBody_overflow bs ct o : po_overflow (parseBody bs ct o) = o.
Proof.
  unfold parseBody. destruct o; [done|]. destruct (_ && _).
  - by destruct (parseProviderPayload _ _) as [[[? ?] ?]|].
  - unfold parseSse. by destruct (foldl _ _ _) as [[[? ?] ?] ?].
Qed.

Lemma runs_body ct collected overflow s posts s' r : runs (settle_body RESULT_Check a d ct collected overflow) s posts s' r ->
  posts = [] /\ body_result collected overflow ct r.
Proof.
  unfold settle_body. destruct (_ && _ && _). { intros H. by peel H. }
  rewrite parseBody_overflow. destruct overflow; cbn [orb].
  { intros H. peel H. by apply incomplete_receipt in H as (? & ? & ? & ? & ? & ? & Hb & ->). }
  destruct (bool_decide _). { intros H. peel H. by apply incomplete_receipt in H as (? & ? & ? & ? & ? & ? & Hb & ->). }
  destruct (bool_decide _). { intros H. peel H. by apply incomplete_receipt in H as (? & ? & ? & ? & ? & ? & Hb & ->). }
  destruct (decodeResult _ _ _) as [v f|message] eqn:Ed; intros H; peel H; [|done].
  apply decodeResult_ok in Ed as (? & ? & ?). done.
Qed.

Lemma runs_settle request o s posts s' r : sealed_request request ->
  runs (settle_post RESULT_Check a d o) s posts s' r -> posts = [] /\ adapter_report [(request, o)] r.
Proof.
  intros Hq. assert (Hr : forall evidence code message, refused o = true -> runs (refuse a d evidence code message) s posts s' r -> posts = [] /\ adapter_report [(request, o)] r).
  { intros evidence code message Ho H. apply runs_refuse in H as (-> & base & e & ->). split; [done|]. cbn.
    split; [by eauto|]. right. eauto. }
  assert (Hu : forall evidence, refused o = false -> runs (unknown_outcome a d evidence) s posts s' r -> posts = [] /\ adapter_report [(request, o)] r).
  { intros evidence Ho H. apply runs_unknown in H as (-> & keys & e & ->). split; [done|]. cbn. eauto. }
  destruct o as [e|response]; cbn [settle_post refused] in *.
  - unfold classifyPostOnceThrow. destruct (existsb _ _); [by apply Hr | by apply Hu].
  - unfold settle_response. rewrite refused_status_spec. destruct (includes (rs_status response) _) eqn:Es; [by apply Hr|].
    destruct (success_status _) eqn:Ess; cbn [negb]; [|by apply Hu].
    destruct (readLimited _) as [[collected overflow]|] eqn:El; [|by apply Hu]. intros H. peel H.
    apply runs_body in H as [-> H]. split; [done|]. destruct r as [receipt|code receipt|keys evidence]; cbn in *; [|done|].
    + destruct H as [Hb H]. exists request, response, collected, overflow. split_and!; try done.
    + eauto.
Qed.

Lemma refuse_reported evidence code message s posts s' r : runs (refuse a d evidence code message) s posts s' r -> adapter_report posts r.
Proof. intros H. apply runs_refuse in H as (-> & base & e & ->). split; [by do 4 eexists | by left]. Qed.

Lemma inject_sealed body digest i : envelopeDigest (d_wireRequest d) = Ok digest ->
  providerBodyBytes (payload (d_conversation d)) (payload (d_request d)) (op_capabilities (ad_options a)) = Ok body ->
  wireDispatchBindingsMatch d (op_capabilities (ad_options a)) body = Ok true ->
  injectSealedAuthorization (payload (d_wireRequest d)) body (op_approved (ad_options a)) (op_approvedDigest (ad_options a))
    digest (op_authorization (ad_options a)) = Ok (Some i) ->
  sealed_request (mkFetch (inj_endpointIdentity i) (inj_headers i) (inj_body i)).
Proof.
  intros Hd Hb Hm. unfold injectSealedAuthorization. destruct (op_approved _) eqn:Ea; cbn [negb orb]; [|done].
  destruct (bool_decide _) eqn:Ed; cbn [negb]; [|done]. apply bool_decide_eq_true in Ed. destruct (negb _); [done|]. intros [= <-].
  exists body. cbn. by rewrite Hd, Ed.
Qed.

Lemma adapter_reported s posts s' r : runs (completeOnce RESULT_Check a d) s posts s' r -> adapter_report posts r.
Proof.
  unfold completeOnce. intros H. peel H. destruct x4; cbn [negb] in H; [|by eapply refuse_reported].
  peel H. destruct x7 as [i|]; [|by eapply refuse_reported]. destruct H as (o & rest & -> & H).
  eapply runs_settle in H as [-> H]; [exact H | by eapply inject_sealed].
Qed.

(** Whatever is posted is the sealed request. *)
Lemma posted_sealed s posts s' r q o : runs (completeOnce RESULT_Check a d) s posts s' r -> (q, o) ∈ posts -> sealed_request q.
Proof.
  intros H%adapter_reported Hin. unfold adapter_report in H. destruct r; repeat match goal with
    | H : exists _, _ |- _ => destruct H as [? H]
    | H : _ /\ _ |- _ => destruct H as [? H]
    | H : _ \/ _ |- _ => destruct H as [H|H]
    end; subst; try (by apply not_elem_of_nil in Hin); by apply list_elem_of_singleton in Hin as [= -> _].
Qed.

(** C15: a run of the adapter makes at most one request, the sealed and approved one, and its report is
    what happened: a completed call was answered with a success status, and a valid result was then the
    only terminal result of a complete body, fits the result schema and is bound to the dispatch, with
    the digests of what was received; a call is reported as not dispatched only when nothing was sent
    or the provider is known to have refused; and the outcome is unknown only for a request that was
    sent and not refused. *)
Theorem completeOnce_reports s posts s' r : runs (completeOnce RESULT_Check a d) s posts s' r -> adapter_report posts r.
Proof. apply adapter_reported. Qed.
End Report.

(** ** Causes of errors *)

(** The bound on the chain of causes is never reached: every object is visited once. *)
Lemma collectErrorCodes_total heap : forall fuel seen error, NoDup seen -> (forall i, i ∈ seen -> i < length heap) ->
  length heap - length seen + 2 <= fuel -> is_Some (collectErrorCodes fuel heap seen error).
Proof.
  induction fuel as [|fuel IH]; intros seen error Hn Hb Hf; [lia|]. cbn [collectErrorCodes]. destruct error as [| |i]; [done | done|].
  destruct (includes i seen) eqn:Ei; [done|]. apply includes_false in Ei. destruct (heap !! i) as [node|] eqn:Eh; [|done].
  pose proof (lookup_lt_Some _ _ _ Eh) as Hi.
  assert (Hb' : forall j, j ∈ i :: seen -> j < length heap). { intros j [->|Hj]%elem_of_cons; [done | by apply Hb]. }
  assert (Hlen : length (i :: seen) <= length heap).
  { rewrite <- (length_seq (length heap) 0). apply submseteq_length, NoDup_submseteq; [by constructor|]. intros j Hj.
    apply elem_of_seq. specialize (Hb' j Hj). lia. }
  cbn [length] in Hlen. destruct (IH (i :: seen) (en_cause node)) as [rest ->]; [by constructor | done | cbn [length]; lia | by eexists].
Qed.

Lemma codes_of_complete e : Some (codes_of e) = collectErrorCodes (S (S (length (te_heap e)))) (te_heap e) [] (te_root e).
Proof.
  unfold codes_of. destruct (collectErrorCodes_total (te_heap e) (S (S (length (te_heap e)))) [] (te_root e)) as [l ->];
    [constructor | by intros i Hi%not_elem_of_nil | cbn; lia | done].
Qed.

(** ** Concrete instances *)

#[local] Existing Instance half_doubles.
#[local] Existing Instance rolling_hash.

Lemma sample_sink : sink_ok (ad_options (di_adapter input_a)).
Proof. right. by exists None. Qed.

Lemma cloud_call_accepted_once_witness :
  earlier_refused (posts_of (map call_id [input_a; input_a]) (u "call") (sys_posts retried)) /\
  length (posts_of (map call_id [input_a; input_a]) (u "call") (sys_posts retried)) = 2.
Proof.
  split; [|vm_compute; reflexivity].
  apply (cloud_call_accepted_once accept_all [input_a; input_a] sample_tables retried); [done | |apply run_schedule_rtc].
  constructor; [apply sample_sink|]. constructor; [apply sample_sink | constructor].
Defined.

Lemma answered_run : exists posts s' r,
  runs (completeOnce accept_all (di_adapter input_a) dispatch_a) sample_tables posts s' r /\ length posts = 1.
Proof. apply (execute_some _ _ [answered]). vm_compute. reflexivity. Qed.

Lemma completeOnce_reports_witness : exists posts r,
  adapter_report accept_all (di_adapter input_a) dispatch_a posts r /\ length posts = 1.
Proof.
  destruct answered_run as (posts & s' & r & Hr & Hl). exists posts, r. split; [|exact Hl].
  exact (completeOnce_reports accept_all (di_adapter input_a) dispatch_a sample_sink sample_tables posts s' r Hr).
Defined.
