(* ===== verification/CloudApproval.v ===== *)
(** An approval of a provider request fixes what is sent: two dispatches that post under the same
    approved digest post the same request, up to the credential and collisions of SHA-256. *)

From Stdlib Require Import String.
From S2P Require Import Prelude JsText CanonicalJson CanonicalJsonTheorems JsJson Digest DigestTheorems Async CloudWire CloudGateway CloudStore CloudCalls CloudProtocol CloudTheorems.
Open Scope string_scope.
Open Scope list_scope.

Section Approval.
Context `{D : Doubles} {L : DoublesLaws} {HH : Hashing}.

(** A JSON value of 16-bit strings without lone surrogates, and without names that are array indices;
    payloads that passed their schema are of this form. *)
Definition json_payload (v : jsvalue) : Prop := good v /\ readable (fun k => array_index k = None) v.

Lemma readable_printable P v : readable P v -> printable true v = true /\ keys_ok P v.
Proof.
  induction v as [| | | |b|n|s|items IH|fields IH] using jsvalue_ind'; intros Hr; try done.
  - by destruct n.
  - cbn [readable printable] in *. by rewrite Hr.
  - cbn [readable printable keys_ok] in *. rewrite foldr_and_Forall in *. rewrite forallb_forall. rewrite Forall_forall in *.
    split; [intros x Hx%list_elem_of_In | intros x Hx]; by apply IH, Hr.
  - cbn [readable printable keys_ok] in *. destruct Hr as [_ Hr]. rewrite foldr_and_Forall in *. rewrite forallb_forall.
    rewrite Forall_forall in *. split.
    + intros x Hx%list_elem_of_In. destruct (Hr x Hx) as (_ & Hk & Hv). rewrite Hk. by apply IH.
    + intros x Hx. destruct (Hr x Hx) as (Hk & _ & Hv). split; [done|]. by apply IH.
Qed.

(** Copying a payload through its canonical text puts it in normal form. *)
Lemma jsonValue_norm v : json_payload v -> jsonValue v = Ok (norm v).
Proof.
  intros [[Hw _] Hr]. destruct (readable_printable _ _ Hr) as [Hp Hk]. unfold jsonValue. rewrite JSON_roundtrip by done.
  unfold canonicalizeRfc8785. rewrite walk_printable_ok by done. cbn [of_canon of_digest rbind].
  pose proof (norm_readable _ _ _ Hw Hp Hk) as Hn. by rewrite <- (stringify_show _ _ Hn), JSON_roundtrip.
Qed.

Lemma norm_string_inv v s : norm v = VStr s -> v = VStr s.
Proof. destruct v as [| | | | |[]| | |]; cbn; congruence. Qed.

Lemma norm_undefined_inv v : norm v = VUndefined -> v = VUndefined.
Proof. destruct v as [| | | | |[]| | |]; cbn; congruence. Qed.

(** The fields that are read depend on the normal form only. *)
Lemma norm_object_field v w k : js_wf v -> js_wf w -> norm v = norm w -> norm (object_field k v) = norm (object_field k w).
Proof.
  destruct v as [| | | | |[]| | |fs]; destruct w as [| | | | |[]| | |gs]; try done.
  intros [Hf _] [Hg _] E. pose proof (norm_get _ _ (u k) Hf Hg E) as Eg. cbn [object_field].
  by destruct (JsMap.get (u k) fs), (JsMap.get (u k) gs); try done; injection Eg as Eg.
Qed.

Lemma string_of_field k v : string_field k v = match object_field k v with VStr s => s | _ => [] end.
Proof. destruct v; try done. cbn. by destruct (JsMap.get _ _) as [[]|]. Qed.

Lemma norm_string_field v w k : js_wf v -> js_wf w -> norm v = norm w -> string_field k v = string_field k w.
Proof.
  intros Hv Hw E. pose proof (norm_object_field v w k Hv Hw E) as Ef. rewrite !string_of_field.
  destruct (object_field k v) as [| | | | |[]|s| |] eqn:E1; destruct (object_field k w) as [| | | | |[]|s'| |]; cbn in Ef; congruence.
Qed.

Lemma norm_array_field v w k : js_wf v -> js_wf w -> norm v = norm w -> map norm (array_field k v) = map norm (array_field k w).
Proof.
  intros Hv Hw E. pose proof (norm_object_field v w k Hv Hw E) as Ef. unfold array_field.
  destruct (object_field k v) as [| | | | |[]|s|items|] eqn:E1; destruct (object_field k w) as [| | | | |[]|s'|items'|]; cbn in Ef; try done.
  by injection Ef as Ef.
Qed.

Lemma array_field_wf v k : js_wf v -> Forall js_wf (array_field k v).
Proof.
  intros Hv. unfold array_field, object_field. destruct v as [| | | | | | | |fs]; try constructor. destruct Hv as [_ Hf].
  rewrite foldr_and_Forall in Hf. destruct (JsMap.get (u k) fs) as [x|] eqn:Ex; [|constructor]. cbn [default].
  apply JsMap.get_some_elem in Ex. rewrite Forall_forall in Hf. specialize (Hf _ Ex). cbn [snd] in Hf.
  destruct x; try constructor. cbn [js_wf] in Hf. by rewrite foldr_and_Forall in Hf.
Qed.

Lemma headers_norm l m acc : Forall js_wf l -> Forall js_wf m -> map norm l = map norm m -> foldl set_header acc l = foldl set_header acc m.
Proof.
  revert m acc. induction l as [|x l IH]; intros [|y m] acc Hl Hm E; try done. cbn [map] in E. injection E as E1 E2.
  inversion_clear Hl as [|? ? Hx Hl']. inversion_clear Hm as [|? ? Hy Hm']. cbn [foldl].
  assert (set_header acc x = set_header acc y) as ->; [|by apply IH].
  unfold set_header. by rewrite !(norm_string_field x y) by done.
Qed.

(** ** The approved digest *)

Lemma digest_units d : isObjectDigest_units d = true -> units16 d.
Proof.
  unfold isObjectDigest_units, ascii_text. destruct (forallb _ d) eqn:E; [|done]. intros _. rewrite forallb_forall in E.
  apply Forall_forall. intros x Hx. specialize (E x (proj1 (list_elem_of_In _ _) Hx)). apply N.ltb_lt in E. lia.
Qed.

Definition wire_envelope (p : jsvalue) (digest : Digest) : jsvalue :=
  VObj [(u "schemaName", VStr (u "ProviderWireRequest")); (u "schemaVersion", VInt 1); (u "payload", p);
        (u "payloadDigest", VStr digest); (u "signatures", VArr [])].

Lemma good_norm v : good v -> good (norm v).
Proof. intros [? ?]. split; [by apply norm_wf | by apply units_norm]. Qed.

Lemma wire_envelope_good p digest : good p -> units16 digest -> good (wire_envelope p digest).
Proof.
  intros Hp Hd. apply good_obj. split; [apply (bool_decide_unpack _); by vm_compute|].
  repeat (constructor; [split; [apply u_units|]|]); [split; [done | apply u_units] | by split | done | by split | by apply good_arr | constructor].
Qed.

(** The bytes whose digest is approved: the wire payload in an unsigned envelope. *)
Definition wire_text (d : CloudDispatch) : result WireErr bytes :=
  let? e := unsignedEnvelope (u "ProviderWireRequest") (payload (d_wireRequest d)) in envelopeBytes e.

Lemma envelopeBytes_wire p digest : json_payload p -> envelopeBytes (mkEnvelope (u "ProviderWireRequest") 1 p digest []) =
  if isObjectDigest_units digest
  then let? text := of_digest (of_canon (canonicalize (wire_envelope (norm p) digest))) in Ok (utf8_encode text)
  else Err wire_brand.
Proof.
  intros Hp. unfold envelopeBytes. cbn [payload env_payloadDigest schemaName schemaVersion signatures].
  rewrite jsonValue_norm by done. cbn [rbind]. by destruct (isObjectDigest_units digest).
Qed.

(** A dispatch whose envelopes match is approved by the digest of its resealed wire payload. *)
Lemma sealed_digest a d request : json_payload (payload (d_wireRequest d)) -> sealed_request a d request ->
  exists digest text, isObjectDigest_units digest = true /\
    canonicalize (wire_envelope (norm (payload (d_wireRequest d))) digest) = Ok text /\ wire_text d = Ok (utf8_encode text) /\
    sha256Utf8 text = op_approvedDigest (ad_options a) /\
    sha256Hex (fr_body request) = string_field "bodyObjectDigest" (payload (d_wireRequest d)).
Proof.
  intros Hp (body & _ & Hm & _ & Hd & ->). cbn [fr_body]. unfold wire_text. set (wire := payload (d_wireRequest d)) in *. unfold wireDispatchBindingsMatch in Hm.
  apply rbind_ok in Hm as (conversation & _ & Hm). apply rbind_ok in Hm as (cp & _ & Hm). fold wire in Hm.
  destruct (bool_decide (objectDigestFromBytes body = _)) eqn:Hbody; cbn [negb] in Hm; [|done]. apply bool_decide_eq_true in Hbody.
  apply rbind_ok in Hm as (requestDigest & _ & Hm). destruct (negb _); [done|].
  apply rbind_ok in Hm as (sealed & Hsealed & Hm). rewrite Hd in Hsealed. injection Hsealed as <-.
  apply rbind_ok in Hm as (unsigned & Hu & Hm). apply rbind_ok in Hm as (resealed & Hr & [= Hm]). rewrite Hu. cbn [rbind].
  rewrite !andb_true_iff in Hm. destruct Hm as (((((((((Hs & _) & _) & _) & _) & _) & _) & _) & _) & _). apply bool_decide_eq_true in Hs.
  unfold unsignedEnvelope in Hu. apply rbind_ok in Hu as (json & Hj & Hu). apply rbind_ok in Hu as (digest & _ & [= <-]).
  rewrite envelopeBytes_wire by done. unfold envelopeDigest in Hr. cbn [payload env_payloadDigest schemaName schemaVersion signatures] in Hr.
  rewrite jsonValue_norm in Hr by done. cbn [rbind] in Hr. destruct (isObjectDigest_units digest) eqn:Ed; cbn [negb] in Hr; [|done].
  exists digest. change (of_digest (let? text := of_canon (canonicalize (wire_envelope (norm wire) digest)) in
    Ok (objectDigestFromBytes (utf8_encode text))) = Ok resealed) in Hr.
  destruct (canonicalize (wire_envelope (norm wire) digest)) as [text|] eqn:Et; cbn in Hr; [|done].
  exists text. injection Hr as <-. split_and!; [done | done | done | by rewrite Hs | done].
Qed.

Lemma wire_payload_eq p q digest digest' : json_payload p -> json_payload q ->
  norm (wire_envelope (norm p) digest) = norm (wire_envelope (norm q) digest') -> norm p = norm q.
Proof.
  intros [[Hp _] _] [[Hq _] _] E.
  assert (Hn : forall x y, NoDup (map fst (match wire_envelope x y with VObj fs => fs | _ => [] end))).
  { intros x y. apply (bool_decide_unpack _). by vm_compute. }
  pose proof (norm_get _ _ (u "payload") (Hn (norm p) digest) (Hn (norm q) digest') E) as Eg.
  change (Some (norm (norm p)) = Some (norm (norm q))) in Eg. injection Eg as Eg. by rewrite !norm_idem in Eg.
Qed.

Lemma sealed_requests_same a1 d1 r1 a2 d2 r2 :
  json_payload (payload (d_wireRequest d1)) -> json_payload (payload (d_wireRequest d2)) ->
  sealed_request a1 d1 r1 -> sealed_request a2 d2 r2 ->
  op_approvedDigest (ad_options a1) = op_approvedDigest (ad_options a2) ->
  (exists x y : bytes, x <> y /\ sha256_hex x = sha256_hex y) \/
  fr_url r1 = fr_url r2 /\ fr_body r1 = fr_body r2 /\
  exists headers,
    fr_headers r1 = JsMap.set (u "authorization") (op_authorization (ad_options a1)) headers /\
    fr_headers r2 = JsMap.set (u "authorization") (op_authorization (ad_options a2)) headers.
Proof.
  intros P1 P2 S1 S2 Ha.
  destruct (sealed_digest _ _ _ P1 S1) as (g1 & t1 & G1 & C1 & T1 & A1 & B1).
  destruct (sealed_digest _ _ _ P2 S2) as (g2 & t2 & G2 & C2 & T2 & A2 & B2).
  destruct (wire_envelope_good _ g1 (good_norm _ (proj1 P1)) (digest_units _ G1)) as [W1 U1].
  destruct (wire_envelope_good _ g2 (good_norm _ (proj1 P2)) (digest_units _ G2)) as [W2 U2].
  destruct (hash_injective _ _ _ _ W1 W2 U1 U2 C1 C2 ltac:(by rewrite A1, A2)) as [[Hne Hh]|E]; [left; by do 2 eexists|].
  apply wire_payload_eq in E; [|done..]. destruct P1 as [[W1' _] _], P2 as [[W2' _] _].
  assert (sha256_hex (fr_body r1) = sha256_hex (fr_body r2)) as Eh.
  { apply (app_inv_head (u "sha256:")). change (sha256Hex (fr_body r1) = sha256Hex (fr_body r2)).
    rewrite B1, B2. by apply norm_string_field. }
  destruct (decide (fr_body r1 = fr_body r2)) as [Eb|Eb]; [|left; by exists (fr_body r1), (fr_body r2)]. right.
  destruct S1 as (b1 & _ & _ & _ & _ & ->). destruct S2 as (b2 & _ & _ & _ & _ & ->). cbn [fr_url fr_body fr_headers] in *.
  split_and!; [by apply norm_string_field | done |]. eexists. split; [reflexivity|].
  f_equal. apply headers_norm; [by apply array_field_wf.. | by apply norm_array_field].
Qed.

End Approval.

(** ** A concrete instance *)

#[local] Existing Instance half_doubles.
#[local] Existing Instance half_laws.
#[local] Existing Instance rolling_hash.

(** A payload is well formed by computation. *)
Fixpoint unitsb (v : jsvalue) : bool :=
  match v with
  | VStr s => forallb (fun c => c <? 65536)%N s
  | VArr items => forallb unitsb items
  | VObj fs => forallb (fun kv => forallb (fun c => c <? 65536)%N (fst kv) && unitsb (snd kv)) fs
  | _ => true
  end.

Fixpoint readableb (v : jsvalue) : bool :=
  match v with
  | VUndefined | VUnsupported | VHole => false
  | VNull | VBool _ => true
  | VNum n => number_readable n
  | VStr s => negb (hasUnpairedSurrogate s)
  | VArr items => forallb readableb items
  | VObj fs => bool_decide (NoDup (map fst fs)) &&
      forallb (fun kv => bool_decide (array_index (fst kv) = None) && negb (hasUnpairedSurrogate (fst kv)) && readableb (snd kv)) fs
  end.

Lemma unitsb_ok v : unitsb v = true -> units_ok v.
Proof.
  assert (H16 : forall s, forallb (fun c => c <? 65536)%N s = true -> units16 s).
  { intros s Hs. rewrite forallb_forall in Hs. apply Forall_forall. intros x Hx%list_elem_of_In%Hs. apply N.ltb_lt in Hx. exact Hx. }
  induction v as [| | | |b|n|s|items IH|fs IH] using jsvalue_ind'; intros H; try done; [by apply H16| |];
    cbn [unitsb units_ok] in *; rewrite foldr_and_Forall, Forall_forall; rewrite forallb_forall in H; rewrite Forall_forall in IH.
  - intros x Hx. apply IH; [done|]. by apply H, list_elem_of_In.
  - intros x Hx. specialize (H x (proj1 (list_elem_of_In _ _) Hx)). apply andb_true_iff in H as [H1 H2]. split; [by apply H16 | by apply IH].
Qed.

Lemma readableb_ok v : readableb v = true -> readable (fun k => array_index k = None) v /\ js_wf v.
Proof.
  induction v as [| | | |b|n|s|items IH|fs IH] using jsvalue_ind'; intros H; try done.
  - by destruct n.
  - cbn in *. by apply negb_true_iff in H.
  - cbn [readableb readable js_wf] in *. rewrite !foldr_and_Forall, !Forall_forall. rewrite forallb_forall in H. rewrite Forall_forall in IH.
    split; intros x Hx; apply IH; try done; by apply H, list_elem_of_In.
  - cbn [readableb readable js_wf] in *. apply andb_true_iff in H as [Hn H]. apply bool_decide_eq_true in Hn.
    rewrite !foldr_and_Forall, !Forall_forall. rewrite forallb_forall in H. rewrite Forall_forall in IH.
    assert (Hall : forall x, x ∈ fs -> (array_index (fst x) = None /\ hasUnpairedSurrogate (fst x) = false /\
      readable (fun k => array_index k = None) (snd x)) /\ js_wf (snd x)).
    { intros x Hx. specialize (H x (proj1 (list_elem_of_In _ _) Hx)). rewrite !andb_true_iff in H. destruct H as [[H1 H2] H3].
      apply bool_decide_eq_true in H1. apply negb_true_iff in H2. by destruct (IH x Hx H3). }
    split; (split; [done|]); intros x Hx; by apply Hall.
Qed.

Lemma json_payload_ok v : readableb v && unitsb v = true -> json_payload v.
Proof. intros [H1 H2]%andb_true_iff. apply readableb_ok in H1 as [? ?]. apply unitsb_ok in H2. by repeat split. Qed.

Lemma sample_payload : json_payload (payload (d_wireRequest dispatch_a)).
Proof. apply json_payload_ok. vm_compute. reflexivity. Qed.

(** The same dispatch with another credential. *)
Definition other_adapter : OneShotAdapter (Store := CloudTables) :=
  let o := ad_options (di_adapter input_a) in
  mkAdapter (mkOptions (op_capabilities o) (op_approved o) (op_approvedDigest o) (u "Bearer other") (op_completedAt o) (op_acceptedAt o) (op_putBytes o))
    (ad_recovery (di_adapter input_a)).

Lemma other_run : exists posts s' r, runs (completeOnce accept_all other_adapter dispatch_a) sample_tables posts s' r /\ length posts = 1.
Proof. apply (execute_some _ _ [answered]). vm_compute. reflexivity. Qed.

