(* ===== verification/ContextSelect.v ===== *)
(** The selection of evidence for a context packet (packages/context-compiler/src/select.ts).  The
    evidence graph, its bundles and the requirement ledger are JSON objects that passed their schema;
    utilities are IEEE doubles. *)

From Stdlib Require Import String.
From S2P Require Import Prelude JsText CanonicalJson Digest JsJson CloudWire.
Open Scope string_scope.
Open Scope list_scope.

(** ** Reading JSON objects *)

Section Fields.
Context {DD : Doubles}.

Definition text_of (v : jsvalue) : ustr := match v with VStr s => s | _ => [] end.
Definition texts_of (k : string) (v : jsvalue) : list ustr := map text_of (array_field k v).
Definition flag_of (k : string) (v : jsvalue) : bool := match object_field k v with VBool b => b | _ => false end.
Definition has_text (k s : string) (v : jsvalue) : bool := bool_decide (string_field k v = u s).

(** [new Map(items.map((item) => [item.id, item]))]: the last item of an id. *)
Definition map_by (key : jsvalue -> ustr) (items : list jsvalue) : list (ustr * jsvalue) :=
  foldl (fun m item => JsMap.set (key item) item m) [] items.
End Fields.

Definition id_of {DD : Doubles} (v : jsvalue) : ustr := string_field "id" v.

Inductive OmissionReason : Set := duplicate | lower_utility | untrusted | window_capacity.
#[export] Instance OmissionReason_eq_dec : EqDecision OmissionReason.
Proof. solve_decision. Defined.

Definition reason_text (r : OmissionReason) : ustr :=
  match r with
  | duplicate => u "duplicate" | lower_utility => u "lower-utility" | untrusted => u "untrusted" | window_capacity => u "window-capacity"
  end.

Record OmittedEvidence := mkOmitted { om_evidenceId : ustr; om_reason : OmissionReason }.
#[export] Instance OmittedEvidence_eq_dec : EqDecision OmittedEvidence.
Proof. solve_decision. Defined.

Inductive BundleSelection {DD : Doubles} : Type :=
| selection (bundles : list jsvalue) (omitted : list OmittedEvidence)
| capacity (omitted : list OmittedEvidence).

(** What can be thrown: an evidence id of the wrong form, or an error of the token estimate. *)
Inductive SelectErr (E : Type) : Type := bad_evidence_id | estimate_error (e : E).
Arguments bad_evidence_id {E}.
Arguments estimate_error {E}.

Section Select.
Context {DD : Doubles} {FF : FloatValues}.

(** ** Bundles *)

Definition graph_nodes (graph : jsvalue) : list jsvalue := array_field "nodes" graph.
Definition graph_edges (graph : jsvalue) : list jsvalue := array_field "edges" graph.
Definition nodeIds (bundle : jsvalue) : list ustr := texts_of "nodeIds" bundle.
Definition edgeIds (bundle : jsvalue) : list ustr := texts_of "edgeIds" bundle.

Definition nodesOf (bundle graph : jsvalue) : list jsvalue :=
  omap (fun i => JsMap.get i (map_by id_of (graph_nodes graph))) (nodeIds bundle).

Definition isNeverOmitBundle (bundle graph : jsvalue) : bool :=
  flag_of "mandatory" bundle ||
  (has_text "purpose" "requirement-witness" bundle || has_text "purpose" "instruction-scope" bundle ||
   has_text "purpose" "verification-capability" bundle) ||
  has_text "purpose" "counter-evidence" bundle ||
  existsb (fun node => has_text "kind" "test-result" node || has_text "kind" "test" node) (nodesOf bundle graph) &&
  existsb (fun edge => includes (id_of edge) (edgeIds bundle) &&
                       (has_text "relation" "FAILS_AT" edge || has_text "relation" "CONTRADICTS" edge)) (graph_edges graph).

Definition requirementWeight (ledger : jsvalue) (requirementId : ustr) : f64 :=
  match array_find (fun item => bool_decide (id_of item = requirementId)) (array_field "requirements" ledger) with
  | None => f64_of_Z 0
  | Some requirement => if has_text "priority" "MUST" requirement then f64_of_Z 1 else f64_literal 1 2
  end.

Definition REQUIREMENT_PREFIX : ustr := u "requirement:".

(** [identityKey.replace(/^requirement:/u, "")] *)
Definition strip_requirement (key : ustr) : ustr :=
  if startsWith REQUIREMENT_PREFIX key then drop (length REQUIREMENT_PREFIX) key else key.

Definition covers_relation (edge : jsvalue) : bool :=
  has_text "relation" "SATISFIES" edge || has_text "relation" "COVERED_BY" edge || has_text "relation" "SUPPORTS" edge.

Definition add_endpoint (graph : jsvalue) (ids : list ustr) (endpoint : ustr) : list ustr :=
  match array_find (fun item => bool_decide (id_of item = endpoint)) (graph_nodes graph) with
  | Some node => if has_text "kind" "requirement" node then setAdd ids (strip_requirement (string_field "identityKey" node)) else ids
  | None => ids
  end.

Definition coveredRequirements (bundle graph ledger : jsvalue) : list ustr :=
  let witnessed :=
    if has_text "purpose" "requirement-witness" bundle then
      foldl (fun ids requirement =>
        match array_find (fun item => bool_decide (string_field "identityKey" item = REQUIREMENT_PREFIX ++ id_of requirement)) (graph_nodes graph) with
        | Some node => if includes (id_of node) (nodeIds bundle) then setAdd ids (id_of requirement) else ids
        | None => ids
        end) [] (array_field "requirements" ledger)
    else [] in
  foldl (fun ids edge =>
    if negb (includes (id_of edge) (edgeIds bundle)) then ids
    else if negb (covers_relation edge) then ids
    else foldl (add_endpoint graph) ids [string_field "from" edge; string_field "to" edge])
    witnessed (graph_edges graph).

(** ** Similarity and risk *)

(** The arguments list the elements of sets. *)
Definition jaccard (left right : list ustr) : f64 :=
  if bool_decide (left = []) && bool_decide (right = []) then f64_of_Z 1 else
  let intersection := length (List.filter (fun item => includes item right) left) in
  let union := (length left + length right - intersection)%nat in
  if (union =? 0)%nat then f64_of_Z 0 else (f64_of_Z (Z.of_nat intersection) / f64_of_Z (Z.of_nat union))%f64.

Definition nodeKeys (bundle graph : jsvalue) : list ustr := uniq (map (string_field "identityKey") (nodesOf bundle graph)).

Definition contentDigests (bundle graph : jsvalue) : list ustr :=
  uniq (omap (fun node => match object_field "contentObjectDigest" node with VStr s => Some s | _ => None end) (nodesOf bundle graph)).

Definition trust_of (node : jsvalue) : jsvalue := object_field "trust" node.

Definition independenceGroups (bundle graph : jsvalue) : list ustr :=
  uniq (map (fun node => string_field "independenceGroup" (trust_of node)) (nodesOf bundle graph)).

Definition node_risk (node : jsvalue) : f64 := f64_value (object_field "adversarialRisk" (trust_of node)).

Definition adversarialRisk (bundle graph : jsvalue) : f64 :=
  match nodesOf bundle graph with
  | [] => f64_of_Z 0
  | nodes => (foldl (fun sum node => sum + node_risk node) (f64_of_Z 0) nodes / f64_of_Z (Z.of_nat (length nodes)))%f64
  end.

Definition untrusted_node (node : jsvalue) : bool :=
  f64_le (f64_literal 85 100) (node_risk node) || has_text "status" "invalidated" node || has_text "authorship" "LOCAL_MODEL" node.

Definition isUntrusted (bundle graph : jsvalue) : bool := existsb untrusted_node (nodesOf bundle graph).

(** A shared digest makes both sets non-empty. *)
Definition isDuplicateOf (candidate : jsvalue) (selected : list jsvalue) (graph : jsvalue) : bool :=
  existsb (fun bundle =>
    f64_le (f64_literal 9 10) (jaccard (nodeKeys candidate graph) (nodeKeys bundle graph)) ||
    existsb (fun digest => includes digest (contentDigests bundle graph)) (contentDigests candidate graph)) selected.

(** ** Utility *)

Record UtilityState := mkUtility {
  us_causal : Z;
  us_witnesses : Z;
  us_groups : list ustr;
  us_overlap : f64;
  us_risk : f64;
  us_seenKeys : list (list ustr)
}.

Definition utility_step (graph : jsvalue) (st : UtilityState) (bundle : jsvalue) : UtilityState :=
  let keys := nodeKeys bundle graph in
  mkUtility
    (if has_text "purpose" "causal-path" bundle then us_causal st + 2 else us_causal st)%Z
    (if has_text "purpose" "requirement-witness" bundle || has_text "purpose" "counter-evidence" bundle
     then us_witnesses st + 1 else us_witnesses st)%Z
    (foldl setAdd (us_groups st) (independenceGroups bundle graph))
    (foldl (fun overlap prior => overlap + jaccard keys prior) (us_overlap st) (us_seenKeys st))%f64
    (us_risk st + adversarialRisk bundle graph)%f64
    (us_seenKeys st ++ [keys]).

Definition coverage_of (set : list jsvalue) (graph ledger : jsvalue) : f64 :=
  foldl (fun coverage requirement =>
    let hits := length (List.filter (fun bundle => includes (id_of requirement) (coveredRequirements bundle graph ledger)) set) in
    coverage + requirementWeight ledger (id_of requirement) * f64_of_Z (Z.min 1 (Z.of_nat hits)))%f64
    (f64_of_Z 0) (array_field "requirements" ledger).

Definition utilityOf (selected : list jsvalue) (candidate : option jsvalue) (graph ledger : jsvalue) (tokenCost : Z) : f64 :=
  let set := match candidate with None => selected | Some c => selected ++ [c] end in
  let st := foldl (utility_step graph) (mkUtility 0 0 [] (f64_of_Z 0) (f64_of_Z 0) []) set in
  (coverage_of set graph ledger + f64_of_Z (us_causal st) + f64_of_Z (us_witnesses st)
   + f64_of_Z (Z.of_nat (length (us_groups st))) * f64_literal 1 4
   - us_overlap st - us_risk st - f64_of_Z tokenCost / f64_of_Z 1000)%f64.

Definition KIND_RANK : list (ustr * Z) :=
  [(u "directory", 0%Z); (u "file", 1%Z); (u "symbol", 2%Z); (u "code-region", 3%Z); (u "test", 4%Z); (u "test-result", 5%Z)].

(** [String(rank).padStart(2, "0")]; every rank has at most two digits. *)
Definition hierarchySortKey (node : jsvalue) : ustr :=
  let text := int_toString (default 50%Z (JsMap.get (string_field "kind" node) KIND_RANK)) in
  replicate (2 - length text) 48%N ++ text ++ [0%N] ++ string_field "identityKey" node ++ [0%N] ++ string_field "label" node.

(** ** The greedy selection *)

Context {E : Type}.
Variable estimateBundleTokens : jsvalue -> result E Z.
Variables (graph ledger : jsvalue) (tokenBudget : Z).

Definition estimate (bundle : jsvalue) : result (SelectErr E) Z :=
  match estimateBundleTokens bundle with Ok z => Ok z | Err e => Err (estimate_error e) end.

Definition asEvidenceId (value : ustr) : result (SelectErr E) ustr :=
  throw_if negb (isEvidenceId value) with bad_evidence_id; Ok value.

Definition omitNodes (bundle : jsvalue) (reason : OmissionReason) (selectedIds : list ustr) (into : list OmittedEvidence)
    : result (SelectErr E) (list OmittedEvidence) :=
  rfold (fun into i =>
    if includes i selectedIds then Ok into else
    let? evidenceId := asEvidenceId i in Ok (into ++ [mkOmitted evidenceId reason])) into (nodeIds bundle).

Record SelectState := mkSelect {
  ss_selected : list jsvalue;
  ss_used : Z;
  ss_selectedIds : list ustr;
  ss_omitted : list OmittedEvidence
}.

Definition take_bundle (bundle : jsvalue) (cost : Z) (st : SelectState) : SelectState :=
  mkSelect (ss_selected st ++ [bundle]) (ss_used st + cost) (foldl setAdd (ss_selectedIds st) (nodeIds bundle)) (ss_omitted st).

Definition omit_bundle (bundle : jsvalue) (reason : OmissionReason) (st : SelectState) : result (SelectErr E) SelectState :=
  let? omitted := omitNodes bundle reason (ss_selectedIds st) (ss_omitted st) in
  Ok (mkSelect (ss_selected st) (ss_used st) (ss_selectedIds st) omitted).

(** The loop over the bundles that must not be omitted; [None] in the result is the early return. *)
Fixpoint select_mandatory (bundles : list jsvalue) (st : SelectState) : result (SelectErr E) (SelectState * bool) :=
  match bundles with
  | [] => Ok (st, true)
  | bundle :: rest =>
      if isUntrusted bundle graph then
        let? st := omit_bundle bundle untrusted st in select_mandatory rest st
      else
        let? cost := estimate bundle in
        if (tokenBudget <? ss_used st + cost)%Z then Ok (st, false)
        else select_mandatory rest (take_bundle bundle cost st)
  end.

Record Best := mkBest { best_index : option nat; best_gain : f64; best_id : ustr }.

(** [compareUtf8(bundle.id, bestId) < 0] *)
Definition id_before (a b : ustr) : bool := utf16_leb a b && negb (bool_decide (a = b)).

Definition consider (selected : list jsvalue) (baseline : f64) (best : Best) (entry : nat * jsvalue) : result (SelectErr E) Best :=
  let '(index, bundle) := entry in
  let? estimated := estimate bundle in
  let cost := Z.max 1 estimated in
  let gain := ((utilityOf selected (Some bundle) graph ledger cost - baseline) / f64_of_Z cost)%f64 in
  Ok (if f64_lt (best_gain best) gain ||
         f64_eq gain (best_gain best) && id_before (id_of bundle) (best_id best) && f64_lt (f64_of_Z 0) gain
      then mkBest (Some index) gain (id_of bundle) else best).

Definition find_best (selected remaining : list jsvalue) : result (SelectErr E) Best :=
  rfold (consider selected (utilityOf selected None graph ledger 0)) (mkBest None (f64_of_Z 0) []) (imap pair remaining).

(** One bundle that the search has chosen. *)
Definition settle_chosen (chosen : jsvalue) (st : SelectState) : result (SelectErr E) SelectState :=
  if isUntrusted chosen graph then omit_bundle chosen untrusted st
  else if isDuplicateOf chosen (ss_selected st) graph then omit_bundle chosen duplicate st
  else
    let? cost := estimate chosen in
    if (tokenBudget <? ss_used st + cost)%Z then omit_bundle chosen window_capacity st
    else Ok (take_bundle chosen cost st).

(** The while loop; an iteration that does not end it takes a bundle off [remaining]. *)
Fixpoint select_optional (fuel : nat) (remaining : list jsvalue) (st : SelectState) : result (SelectErr E) SelectState :=
  match fuel with
  | O => Ok st
  | S fuel =>
      match remaining with
      | [] => Ok st
      | _ =>
          let? best := find_best (ss_selected st) remaining in
          match best_index best with
          | Some index =>
              if f64_le (best_gain best) (f64_of_Z 0) then rfold (fun st bundle => omit_bundle bundle lower_utility st) st remaining
              else match remaining !! index with
                   | Some chosen =>
                       let? st := settle_chosen chosen st in
                       select_optional fuel (delete index remaining) st
                   | None => Ok st
                   end
          | None => rfold (fun st bundle => omit_bundle bundle lower_utility st) st remaining
          end
      end
  end.

(** The loop that keeps one entry per id and reason, in the order of the ids. *)
Definition omission_key (item : OmittedEvidence) : ustr := om_evidenceId item ++ u ":" ++ reason_text (om_reason item).

Fixpoint unique_omitted (selectedIds seen : list ustr) (items : list OmittedEvidence) : list OmittedEvidence :=
  match items with
  | [] => []
  | item :: rest =>
      if includes (om_evidenceId item) selectedIds then unique_omitted selectedIds seen rest
      else if includes (omission_key item) seen then unique_omitted selectedIds seen rest
      else item :: unique_omitted selectedIds (omission_key item :: seen) rest
  end.

Definition sort_omitted (items : list OmittedEvidence) : list OmittedEvidence :=
  sort_by (fun a b => utf16_leb (om_evidenceId a) (om_evidenceId b)) items.

Definition selectBundles (bundles : list jsvalue) : result (SelectErr E) BundleSelection :=
  let ordered := sort_by (fun a b => utf16_leb (id_of a) (id_of b)) bundles in
  let mandatory := List.filter (fun b => isNeverOmitBundle b graph) ordered in
  let optional := List.filter (fun b => negb (isNeverOmitBundle b graph)) ordered in
  let? '(st, fits) := select_mandatory mandatory (mkSelect [] 0 [] []) in
  if negb fits then Ok (capacity (ss_omitted st)) else
  let? st := select_optional (length optional) optional st in
  Ok (selection (ss_selected st) (unique_omitted (ss_selectedIds st) [] (sort_omitted (ss_omitted st)))).
End Select.
