(* ===== verification/ContextSelectTheorems.v ===== *)
(** What the selection of evidence guarantees: it ends, stays within the token budget, never takes
    untrusted evidence, keeps every trusted bundle that must not be omitted, and accounts for every
    node it leaves out. *)

From Stdlib Require Import String.
From S2P Require Import Prelude JsText CanonicalJson Digest JsJson CloudWire ContextSelect.
Open Scope string_scope.
Open Scope list_scope.

Section Selection.
Context {DD : Doubles} {FF : FloatValues} {E : Type}.
Variable estimateBundleTokens : jsvalue -> result E Z.
Variables (graph ledger : jsvalue) (tokenBudget : Z).
Local Abbreviation cost_of := estimateBundleTokens.

Definition total (costs : list Z) : Z := foldr Z.add 0%Z costs.

Lemma total_app l m : total (l ++ m) = (total l + total m)%Z.
Proof. unfold total. induction l as [|x l IH]; cbn; lia. Qed.

(** [ss] is a state reached after settling the bundles [P]. *)
Record settled (P : list jsvalue) (st : SelectState) : Prop := {
  sd_split : exists rest, P ≡ₚ ss_selected st ++ rest;
  sd_ids : forall i, i ∈ ss_selectedIds st <-> exists b, b ∈ ss_selected st /\ i ∈ nodeIds b;
  sd_cost : exists costs, Forall2 (fun b c => cost_of b = Ok c) (ss_selected st) costs /\ ss_used st = total costs;
  sd_budget : (ss_used st <= Z.max 0 tokenBudget)%Z;
  sd_trusted : Forall (fun b => isUntrusted b graph = false) (ss_selected st);
  sd_accounted : forall b i, b ∈ P -> i ∈ nodeIds b -> i ∈ ss_selectedIds st \/ exists r, mkOmitted i r ∈ ss_omitted st;
  sd_justified : forall o, o ∈ ss_omitted st -> exists b, b ∈ P /\ om_evidenceId o ∈ nodeIds b /\
    (om_reason o = untrusted -> isUntrusted b graph = true);
  sd_kept : forall b, b ∈ P -> isNeverOmitBundle b graph = true -> b ∈ ss_selected st \/
    isUntrusted b graph = true /\ forall i, i ∈ nodeIds b -> i ∈ ss_selectedIds st \/ mkOmitted i untrusted ∈ ss_omitted st
}.

Lemma settled_start : settled [] (mkSelect [] 0 [] []).
Proof.
  split; cbn [ss_selected ss_used ss_selectedIds ss_omitted].
  - by exists [].
  - intros i. split; [by intros ?%not_elem_of_nil|]. by intros (b & ?%not_elem_of_nil & _).
  - exists []. by split; [constructor|].
  - lia.
  - constructor.
  - by intros b i ?%not_elem_of_nil.
  - by intros o ?%not_elem_of_nil.
  - by intros b ?%not_elem_of_nil.
Qed.

(** Taking a trusted bundle that fits. *)
Lemma settled_take P st b c : settled P st -> isUntrusted b graph = false -> cost_of b = Ok c ->
  (ss_used st + c <= tokenBudget)%Z -> settled (P ++ [b]) (take_bundle b c st).
Proof.
  intros [(rest & Hs) Hi (costs & Hc & Hu) Hb Ht Ha Hj Hk] Hb' Hcost Hle.
  split; cbn [take_bundle ss_selected ss_used ss_selectedIds ss_omitted].
  - exists rest. rewrite Hs. solve_Permutation.
  - intros i. rewrite elem_of_foldl_setAdd, Hi. setoid_rewrite elem_of_app. setoid_rewrite list_elem_of_singleton. naive_solver.
  - exists (costs ++ [c]). split; [by apply Forall2_app; [|constructor]|]. rewrite total_app. cbn. lia.
  - lia.
  - apply Forall_app. split; [done | by constructor].
  - intros b0 i Hb0 Hin. rewrite elem_of_foldl_setAdd. apply elem_of_app in Hb0 as [Hb0|Hb0].
    + destruct (Ha b0 i Hb0 Hin); [by left; left | by right].
    + apply list_elem_of_singleton in Hb0 as ->. left. by right.
  - intros o Ho. destruct (Hj o Ho) as (b0 & Hb0 & ?). exists b0. split; [apply elem_of_app; by left | done].
  - intros b0 Hb0 Hn. setoid_rewrite elem_of_foldl_setAdd. rewrite elem_of_app. apply elem_of_app in Hb0 as [Hb0|Hb0].
    + destruct (Hk b0 Hb0 Hn) as [?|[? Hall]]; [by left; left|]. right. split; [done|]. intros i Hin.
      destruct (Hall i Hin); [by left; left | by right].
    + left. by right.
Qed.

Lemma omitNodes_spec b r ids into out : omitNodes (E := E) b r ids into = Ok out ->
  (forall o, o ∈ out <-> o ∈ into \/ om_reason o = r /\ om_evidenceId o ∈ nodeIds b /\ om_evidenceId o ∉ ids).
Proof.
  unfold omitNodes. revert into. induction (nodeIds b) as [|i l IH]; intros into; cbn [rfold].
  - intros [= <-] o. set_solver.
  - intros H. apply rbind_ok in H as (into' & H1 & H2). intros o. rewrite (IH _ H2 o). destruct (includes i ids) eqn:Ei.
    + injection H1 as <-. apply includes_true in Ei. set_solver.
    + apply includes_false in Ei. apply rbind_ok in H1 as (e & He & [= <-]). unfold asEvidenceId in He.
      destruct (negb (isEvidenceId i)); [done|]. injection He as <-. rewrite elem_of_app, list_elem_of_singleton, elem_of_cons.
      destruct o as [oi orr]; cbn. split; [|naive_solver]. intros [[?|[= -> ->]]|?]; naive_solver.
Qed.

(** Omitting a bundle: one that must be kept is omitted as untrusted only. *)
Lemma settled_omit P st b r st' : settled P st -> omit_bundle (E := E) b r st = Ok st' ->
  (r = untrusted -> isUntrusted b graph = true) -> (isNeverOmitBundle b graph = true -> r = untrusted) ->
  settled (P ++ [b]) st'.
Proof.
  intros [(rest & Hs) Hi Hcost Hb Ht Ha Hj Hk] H Hr Hn. apply rbind_ok in H as (out & Ho & [= <-]).
  pose proof (omitNodes_spec _ _ _ _ _ Ho) as Hout. split; cbn [ss_selected ss_used ss_selectedIds ss_omitted]; try done.
  - exists (rest ++ [b]). rewrite Hs. solve_Permutation.
  - intros b0 i Hb0 Hin. apply elem_of_app in Hb0 as [Hb0|Hb0].
    + destruct (Ha b0 i Hb0 Hin) as [?|[r0 ?]]; [by left|]. right. exists r0. apply Hout. by left.
    + apply list_elem_of_singleton in Hb0 as ->. destruct (decide (i ∈ ss_selectedIds st)); [by left|]. right. exists r. apply Hout. by right.
  - intros o Hin. apply Hout in Hin as [Hin|(Hre & Hid & _)].
    + destruct (Hj o Hin) as (b0 & Hb0 & ?). exists b0. split; [apply elem_of_app; by left | done].
    + exists b. split; [apply elem_of_app; right; by left|]. split; [done|]. intros Hu. apply Hr. congruence.
  - intros b0 Hb0 Hnever. apply elem_of_app in Hb0 as [Hb0|Hb0].
    + destruct (Hk b0 Hb0 Hnever) as [?|[? Hall]]; [by left|]. right. split; [done|]. intros i Hin.
      destruct (Hall i Hin); [by left|]. right. apply Hout. by left.
    + apply list_elem_of_singleton in Hb0 as ->. specialize (Hn Hnever) as ->. right. split; [by apply Hr|]. intros i Hin.
      destruct (decide (i ∈ ss_selectedIds st)); [by left|]. right. apply Hout. by right.
Qed.

Lemma settled_perm P P' st : P ≡ₚ P' -> settled P st -> settled P' st.
Proof.
  intros Hp [(rest & Hs) Hi Hc Hb Ht Ha Hj Hk]. split; try done.
  - exists rest. by rewrite <- Hp.
  - intros b i. rewrite <- Hp. apply Ha.
  - intros o Ho. destruct (Hj o Ho) as (b & Hin & ?). exists b. by rewrite <- Hp.
  - intros b. rewrite <- Hp. apply Hk.
Qed.

Lemma estimate_ok b c : estimate estimateBundleTokens b = Ok c -> cost_of b = Ok c.
Proof. unfold estimate. destruct (cost_of b); [by intros [= ->] | done]. Qed.

(** ** The mandatory bundles *)

Definition trustedb (b : jsvalue) : bool := negb (isUntrusted b graph).

Lemma select_mandatory_spec bundles : forall P st st' fits, Forall (fun b => isNeverOmitBundle b graph = true) bundles -> settled P st ->
  select_mandatory estimateBundleTokens graph tokenBudget bundles st = Ok (st', fits) ->
  if fits then settled (P ++ bundles) st'
  else exists pre b c, (pre ++ [b]) `sublist_of` bundles /\ Forall (fun b => trustedb b = true) (pre ++ [b]) /\ cost_of b = Ok c /\
         ss_selected st' = ss_selected st ++ pre /\ (tokenBudget < ss_used st' + c)%Z /\ exists Q, settled Q st'.
Proof.
  induction bundles as [|b bundles IH]; intros P st st' fits Hn Hst; cbn [select_mandatory].
  { intros [= -> <-]. by rewrite app_nil_r. }
  inversion_clear Hn as [|? ? Hb Hn']. destruct (isUntrusted b graph) eqn:Eu.
  - intros H. apply rbind_ok in H as (st1 & H1 & H2).
    assert (Hsel : ss_selected st1 = ss_selected st) by (apply rbind_ok in H1 as (out & _ & [= <-]); done).
    apply (settled_omit P) in H1; [|done|done|done]. specialize (IH _ _ _ _ Hn' H1 H2). destruct fits.
    + by rewrite <- app_assoc in IH.
    + destruct IH as (pre & b' & c & Hsub & Hrest). exists pre, b', c. rewrite Hsel in Hrest. split; [by apply sublist_cons | done].
  - intros H. apply rbind_ok in H as (c & Hc%estimate_ok & H). destruct (tokenBudget <? ss_used st + c)%Z eqn:El.
    + injection H as <- <-. apply Z.ltb_lt in El. exists [], b, c. rewrite app_nil_r. cbn [app].
      split_and!; [by apply sublist_skip, sublist_nil_l | constructor; [by unfold trustedb; rewrite Eu | done] | done | done | done | by exists P].
    + apply Z.ltb_ge in El. specialize (IH _ _ _ _ Hn' (settled_take P st b c Hst Eu Hc ltac:(lia)) H). destruct fits.
      * by rewrite <- app_assoc in IH.
      * destruct IH as (pre & b' & c' & Hsub & Htr & Hc' & Hsel & Hrest). exists (b :: pre), b', c'. cbn [take_bundle ss_selected] in Hsel.
        rewrite <- app_assoc in Hsel. cbn [app]. split_and!; [by apply sublist_skip | constructor; [by unfold trustedb; rewrite Eu | done] | done | done | by apply Hrest | by apply Hrest].
Qed.

(** ** The optional bundles *)

Lemma omit_all_spec bundles : forall P st st', Forall (fun b => isNeverOmitBundle b graph = false) bundles -> settled P st ->
  rfold (fun st b => omit_bundle (E := E) b lower_utility st) st bundles = Ok st' -> settled (P ++ bundles) st'.
Proof.
  induction bundles as [|b bundles IH]; intros P st st' Hn Hst; cbn [rfold].
  { intros [= <-]. by rewrite app_nil_r. }
  inversion_clear Hn as [|? ? Hb Hn']. intros H. apply rbind_ok in H as (st1 & H1 & H2).
  apply (settled_omit P) in H1; [|done|done|congruence]. specialize (IH _ _ _ Hn' H1 H2). by rewrite <- app_assoc in IH.
Qed.

Lemma find_best_bound selected remaining best i :
  find_best estimateBundleTokens graph ledger selected remaining = Ok best -> best_index best = Some i -> i < length remaining.
Proof.
  unfold find_best. intros H. revert i. change ((fun best => forall i, best_index best = Some i -> i < length remaining) best).
  revert H. assert (Hin : forall e, e ∈ imap pair remaining -> e.1 < length remaining).
  { intros [j b] He. apply list_elem_of_lookup in He as [k Hk]. rewrite list_lookup_imap in Hk.
    destruct (remaining !! k) eqn:Ek; [|done]. injection Hk as <- <-. cbn. by eapply lookup_lt_Some. }
  revert Hin. set (init := mkBest _ _ _). assert (Hinit : forall i, best_index init = Some i -> i < length remaining) by done.
  revert Hinit. generalize init. clear init. induction (imap pair remaining) as [|e l IH]; intros st0 H0 Hin; cbn [rfold].
  { by intros [= <-]. }
  intros H. apply rbind_ok in H as (st1 & H1 & H2). apply (IH st1); [|set_solver|done].
  destruct e as [j b]. cbn [consider] in H1. apply rbind_ok in H1 as (c & _ & [= <-]). specialize (Hin (j, b) ltac:(left)). cbn [fst] in Hin.
  destruct (_ || _); cbn [best_index]; [by intros i [= <-] | done].
Qed.

Lemma settle_chosen_spec P chosen st st' : settled P st -> isNeverOmitBundle chosen graph = false ->
  settle_chosen estimateBundleTokens graph tokenBudget chosen st = Ok st' -> settled (P ++ [chosen]) st'.
Proof.
  intros Hst Hn. unfold settle_chosen. destruct (isUntrusted chosen graph) eqn:Eu.
  { intros H. eapply settled_omit; [done | done | done | congruence]. }
  destruct (isDuplicateOf _ _ _). { intros H. eapply settled_omit; [done | done | done | congruence]. }
  intros H. apply rbind_ok in H as (c & Hc%estimate_ok & H). destruct (_ <? _)%Z eqn:El.
  { eapply settled_omit; [done | done | done | congruence]. }
  injection H as <-. apply Z.ltb_ge in El. by apply settled_take.
Qed.

Lemma select_optional_spec fuel : forall remaining P st st', length remaining <= fuel ->
  Forall (fun b => isNeverOmitBundle b graph = false) remaining -> settled P st ->
  select_optional estimateBundleTokens graph ledger tokenBudget fuel remaining st = Ok st' -> settled (P ++ remaining) st'.
Proof.
  induction fuel as [|fuel IH]; intros remaining P st st' Hf Hn Hst; cbn [select_optional].
  { intros [= <-]. destruct remaining; [by rewrite app_nil_r | cbn in Hf; lia]. }
  destruct remaining as [|r0 rs] eqn:Er. { intros [= <-]. by rewrite app_nil_r. }
  rewrite <- Er in *. intros H. apply rbind_ok in H as (best & Hb & H). destruct (best_index best) as [index|] eqn:Ei; [|by eapply omit_all_spec].
  destruct (f64_le _ _); [by eapply omit_all_spec|]. pose proof (find_best_bound _ _ _ _ Hb Ei) as Hlt.
  destruct (lookup_lt_is_Some_2 _ _ Hlt) as [chosen Hl]. rewrite Hl in H. apply rbind_ok in H as (st1 & H1 & H2).
  assert (Hperm : remaining ≡ₚ chosen :: delete index remaining) by (by apply delete_Permutation).
  rewrite Hperm in Hn. inversion_clear Hn as [|? ? Hc Hn'].
  apply (settle_chosen_spec P) in H1; [|done|done]. apply (IH _ (P ++ [chosen])) in H2; [| |done|done].
  - eapply settled_perm; [|exact H2]. transitivity (P ++ chosen :: delete index remaining); [solve_Permutation | by apply Permutation_app_head].
  - apply Permutation_length in Hperm. cbn in Hperm. lia.
Qed.

(** ** The list of omissions *)

Lemma omission_key_inj a b : omission_key a = omission_key b -> a = b.
Proof.
  destruct a as [i r], b as [j q]. unfold omission_key. cbn [om_evidenceId om_reason]. intros E0.
  assert (r = q) as ->.
  { apply (f_equal (@rev N)) in E0. rewrite !rev_app_distr in E0. destruct r, q; try done; vm_compute in E0; discriminate E0. }
  by apply app_inv_tail in E0 as ->.
Qed.

Lemma unique_omitted_spec ids items : forall seen o, o ∈ unique_omitted ids seen items <->
  o ∈ items /\ om_evidenceId o ∉ ids /\ omission_key o ∉ seen.
Proof.
  induction items as [|x items IH]; intros seen o; cbn [unique_omitted]; [set_solver|].
  destruct (includes (om_evidenceId x) ids) eqn:E1.
  { apply includes_true in E1. rewrite IH, elem_of_cons. split; [naive_solver|]. intros ([->|?] & ? & ?); naive_solver. }
  apply includes_false in E1. destruct (includes (omission_key x) seen) eqn:E2.
  { apply includes_true in E2. rewrite IH, elem_of_cons. split; [naive_solver|]. intros ([->|?] & ? & ?); naive_solver. }
  apply includes_false in E2. rewrite elem_of_cons, IH, !elem_of_cons. split.
  - intros [->|(? & ? & ?)]; [by split; [left|]|]. split; [by right|]. naive_solver.
  - intros ([->|Hin] & H1 & H2); [by left|]. destruct (decide (o = x)) as [->|Hne]; [by left|]. right. split_and!; [done | done|].
    intros [Hk%omission_key_inj|?]; done.
Qed.

Lemma unique_omitted_sub ids items : forall seen, unique_omitted ids seen items `sublist_of` items.
Proof.
  induction items as [|x items IH]; intros seen; cbn [unique_omitted]; [done|].
  destruct (includes _ ids); [by apply sublist_cons|]. destruct (includes _ seen); [by apply sublist_cons | by apply sublist_skip].
Qed.

Lemma unique_omitted_NoDup ids items : forall seen, NoDup (unique_omitted ids seen items).
Proof.
  induction items as [|x items IH]; intros seen; cbn [unique_omitted]; [constructor|].
  destruct (includes _ ids); [done|]. destruct (includes _ seen); [done|]. constructor; [|done].
  rewrite unique_omitted_spec. intros (_ & _ & H). apply H. by left.
Qed.

Lemma elem_of_sort_omitted o items : o ∈ sort_omitted items <-> o ∈ items.
Proof. apply elem_of_sort_by. Qed.

(** ** The selection *)

Lemma never_split (bundles : list jsvalue) :
  let ordered := sort_by (fun a b => utf16_leb (id_of a) (id_of b)) bundles in
  List.filter (fun b => isNeverOmitBundle b graph) ordered ++ List.filter (fun b => negb (isNeverOmitBundle b graph)) ordered ≡ₚ bundles.
Proof.
  intros ordered. rewrite <- (sort_by_perm (fun a b => utf16_leb (id_of a) (id_of b)) bundles). fold ordered.
  induction ordered as [|b l IH]; cbn [List.filter]; [done|]. destruct (isNeverOmitBundle b graph); cbn [negb].
  - cbn [app]. by rewrite IH.
  - rewrite <- Permutation_middle. by rewrite IH.
Qed.

Lemma filtered_forall {A} (p : A -> bool) l : Forall (fun x => p x = true) (List.filter p l).
Proof. apply Forall_forall. intros x [_ H]%elem_of_List_filter. done. Qed.

Lemma optional_forall (l : list jsvalue) :
  Forall (fun b => isNeverOmitBundle b graph = false) (List.filter (fun b => negb (isNeverOmitBundle b graph)) l).
Proof. eapply Forall_impl; [apply filtered_forall|]. intros b. cbn. by rewrite negb_true_iff. Qed.

Lemma selectBundles_settled bundles sel om :
  selectBundles estimateBundleTokens graph ledger tokenBudget bundles = Ok (selection sel om) ->
  exists st, settled bundles st /\ sel = ss_selected st /\ om = unique_omitted (ss_selectedIds st) [] (sort_omitted (ss_omitted st)).
Proof.
  unfold selectBundles. intros H. apply rbind_ok in H as ([st fits] & H1 & H2). destruct fits; cbn [negb] in H2; [|done].
  apply rbind_ok in H2 as (st' & H2 & [= <- <-]). exists st'. split; [|done].
  apply (select_mandatory_spec _ []) in H1; [|apply filtered_forall | apply settled_start].
  apply (select_optional_spec _ _ _ _ _ (Nat.le_refl _) (optional_forall _) H1) in H2. eapply settled_perm; [|exact H2]. apply never_split.
Qed.

(** The mandatory material is refused for capacity only when it does not fit. *)
Lemma selectBundles_capacity bundles om :
  selectBundles estimateBundleTokens graph ledger tokenBudget bundles = Ok (capacity om) ->
  exists bs costs, bs ⊆+ bundles /\ Forall (fun b => isNeverOmitBundle b graph = true /\ isUntrusted b graph = false) bs /\
    Forall2 (fun b c => cost_of b = Ok c) bs costs /\ (tokenBudget < total costs)%Z.
Proof.
  unfold selectBundles. intros H. apply rbind_ok in H as ([st fits] & H1 & H2). destruct fits; cbn [negb] in H2; [by apply rbind_ok in H2 as (? & _ & ?)|].
  clear H2. apply (select_mandatory_spec _ []) in H1 as (pre & b & c & Hsub & Ht & Hc & Hsel & Hlt & Q & HQ); [|apply filtered_forall | apply settled_start].
  destruct (sd_cost _ _ HQ) as (costs & Hcosts & Hu). rewrite Hsel in Hcosts. cbn [ss_selected app] in Hcosts.
  exists (pre ++ [b]), (costs ++ [c]). split_and!.
  - etransitivity; [by apply sublist_submseteq|]. rewrite <- (never_split bundles) at 2. apply submseteq_inserts_r. done.
  - apply Forall_forall. intros x Hx. split.
    + pose proof (filtered_forall (fun b => isNeverOmitBundle b graph) (sort_by (fun a b => utf16_leb (id_of a) (id_of b)) bundles)) as Hall.
      rewrite Forall_forall in Hall. apply Hall. by eapply elem_of_submseteq, sublist_submseteq.
    + rewrite Forall_forall in Ht. specialize (Ht x Hx). unfold trustedb in Ht. by apply negb_true_iff in Ht.
  - apply Forall2_app; [done|]. by constructor.
  - rewrite total_app. cbn. lia.
Qed.

(** ** Totality *)

(** The ids have their form, and the cost can be estimated. *)
Definition selectable (b : jsvalue) : Prop := Forall (fun i => isEvidenceId i = true) (nodeIds b) /\ exists c, cost_of b = Ok c.

Lemma rfold_total {A S X} (f : S -> A -> result X S) (Q : A -> Prop) xs : (forall s x, Q x -> exists s', f s x = Ok s') -> Forall Q xs ->
  forall s, exists s', rfold f s xs = Ok s'.
Proof.
  intros Hf. induction 1 as [|x xs Hx _ IH]; intros s; cbn [rfold]; [by eexists|]. destruct (Hf s x Hx) as [s' ->]. apply IH.
Qed.

Lemma omit_total b r st : selectable b -> exists st', omit_bundle (E := E) b r st = Ok st'.
Proof.
  intros [Hi _]. assert (exists out, omitNodes (E := E) b r (ss_selectedIds st) (ss_omitted st) = Ok out) as [out Ho].
  { apply (rfold_total _ (fun i => isEvidenceId i = true)); [|done]. intros into i Hv. destruct (includes _ _); [by eexists|].
    unfold asEvidenceId. rewrite Hv. cbn [negb rbind]. by eexists. }
  unfold omit_bundle. rewrite Ho. by eexists.
Qed.

Lemma estimate_total b : selectable b -> exists c, estimate estimateBundleTokens b = Ok c.
Proof. intros [_ [c Hc]]. exists c. unfold estimate. by rewrite Hc. Qed.

Lemma select_mandatory_total bundles : Forall selectable bundles -> forall st,
  exists r, select_mandatory estimateBundleTokens graph tokenBudget bundles st = Ok r.
Proof.
  induction 1 as [|b bundles Hb _ IH]; intros st; cbn [select_mandatory]; [by eexists|]. destruct (isUntrusted b graph).
  - destruct (omit_total b untrusted st Hb) as [st' ->]. apply IH.
  - destruct (estimate_total b Hb) as [c ->]. cbn [rbind]. destruct (_ <? _)%Z; [by eexists | apply IH].
Qed.

Lemma find_best_total selected remaining : Forall selectable remaining ->
  exists best, find_best estimateBundleTokens graph ledger selected remaining = Ok best.
Proof.
  intros Hr. unfold find_best. eapply (rfold_total _ (fun e => selectable e.2)).
  - intros best [i b] Hb. cbn [consider snd] in *. destruct (estimate_total b Hb) as [c ->]. cbn [rbind]. by eexists.
  - apply Forall_forall. intros [i b] He. apply list_elem_of_lookup in He as [k Hk]. rewrite list_lookup_imap in Hk.
    destruct (remaining !! k) as [x|] eqn:Ek; [|done]. injection Hk as <- <-. rewrite Forall_lookup in Hr. by apply (Hr k).
Qed.

Lemma settle_chosen_total chosen st : selectable chosen ->
  exists st', settle_chosen estimateBundleTokens graph tokenBudget chosen st = Ok st'.
Proof.
  intros Hc. unfold settle_chosen. destruct (isUntrusted _ _); [by apply omit_total|]. destruct (isDuplicateOf _ _ _); [by apply omit_total|].
  destruct (estimate_total chosen Hc) as [c ->]. cbn [rbind]. destruct (_ <? _)%Z; [by apply omit_total | by eexists].
Qed.

Lemma select_optional_total fuel : forall remaining st, Forall selectable remaining ->
  exists st', select_optional estimateBundleTokens graph ledger tokenBudget fuel remaining st = Ok st'.
Proof.
  assert (Homit : forall l st, Forall selectable l -> exists st', rfold (fun st b => omit_bundle (E := E) b lower_utility st) st l = Ok st').
  { intros l st Hl. apply (rfold_total _ selectable); [|done]. intros s x. apply omit_total. }
  induction fuel as [|fuel IH]; intros remaining st Hr; cbn [select_optional]; [by eexists|].
  destruct remaining as [|r0 rs] eqn:Er; [by eexists|]. rewrite <- Er in *. destruct (find_best_total (ss_selected st) remaining Hr) as [best ->].
  cbn [rbind]. destruct (best_index best) as [i|]; [|by apply Homit]. destruct (f64_le _ _); [by apply Homit|].
  destruct (remaining !! i) as [chosen|] eqn:El; [|by eexists]. assert (Hperm : remaining ≡ₚ chosen :: delete i remaining) by (by apply delete_Permutation).
  rewrite Hperm in Hr. inversion_clear Hr as [|? ? Hc Hr']. destruct (settle_chosen_total chosen st Hc) as [st' ->]. by apply IH.
Qed.

(** The selection always ends with a result. *)
Lemma selectBundles_total bundles : Forall selectable bundles ->
  exists r, selectBundles estimateBundleTokens graph ledger tokenBudget bundles = Ok r.
Proof.
  intros H. rewrite <- (never_split bundles) in H. apply Forall_app in H as [H1 H2]. unfold selectBundles.
  destruct (select_mandatory_total _ H1 (mkSelect [] 0 [] [])) as [[st fits] ->]. cbn [rbind]. destruct fits; cbn [negb]; [|by eexists].
  destruct (select_optional_total (length (List.filter (fun b => negb (isNeverOmitBundle b graph)) (sort_by (fun a b => utf16_leb (id_of a) (id_of b)) bundles))) _ st H2) as [st' ->].
  by eexists.
Qed.

(** C19: the selection of evidence ends with a result.  What it selects is part of the bundles given,
    fits the token budget and is trusted, and contains every trusted bundle that must not be omitted;
    every node of every bundle is either selected or listed once per reason as omitted, never both, and
    an omission as untrusted names a node of an untrusted bundle.  It gives up for capacity only when
    trusted bundles that must not be omitted exceed the budget. *)
Theorem selectBundles_exact bundles : Forall selectable bundles ->
  exists r, selectBundles estimateBundleTokens graph ledger tokenBudget bundles = Ok r /\
  match r with
  | capacity _ => exists bs costs, bs ⊆+ bundles /\
      Forall (fun b => isNeverOmitBundle b graph = true /\ isUntrusted b graph = false) bs /\
      Forall2 (fun b c => cost_of b = Ok c) bs costs /\ (tokenBudget < total costs)%Z
  | selection sel om =>
      sel ⊆+ bundles /\
      (exists costs, Forall2 (fun b c => cost_of b = Ok c) sel costs /\ (total costs <= Z.max 0 tokenBudget)%Z) /\
      Forall (fun b => isUntrusted b graph = false) sel /\
      (forall b, b ∈ bundles -> isNeverOmitBundle b graph = true -> isUntrusted b graph = false -> b ∈ sel) /\
      (forall b i, b ∈ bundles -> i ∈ nodeIds b ->
         ((exists s, s ∈ sel /\ i ∈ nodeIds s) <-> ~ exists r, mkOmitted i r ∈ om)) /\
      NoDup om /\
      (forall i, mkOmitted i untrusted ∈ om -> exists b, b ∈ bundles /\ i ∈ nodeIds b /\ isUntrusted b graph = true)
  end.
Proof.
  intros Hs. destruct (selectBundles_total bundles Hs) as [r Hr]. exists r. split; [done|]. destruct r as [sel om|om]; [|by eapply selectBundles_capacity].
  destruct (selectBundles_settled _ _ _ Hr) as (st & [(rest & Hp) Hi (costs & Hc & Hu) Hb Ht Ha Hj Hk] & -> & ->). split_and!.
  - rewrite Hp. by apply submseteq_inserts_r.
  - exists costs. split; [done | lia].
  - done.
  - intros b Hin Hn Htr. destruct (Hk b Hin Hn) as [?|[? _]]; [done | congruence].
  - intros b i Hin Hid. rewrite <- Hi. setoid_rewrite unique_omitted_spec. setoid_rewrite elem_of_sort_omitted. cbn [om_evidenceId]. split.
    + intros Hsel (r & _ & Hno & _). done.
    + intros Hno. destruct (Ha b i Hin Hid) as [?|[r Hom]]; [done|]. destruct (decide (i ∈ ss_selectedIds st)); [done|].
      destruct Hno. exists r. split_and!; [done | done | by intros ?%not_elem_of_nil].
  - apply unique_omitted_NoDup.
  - intros i Hin. apply unique_omitted_spec in Hin as (Hin & _ & _). rewrite elem_of_sort_omitted in Hin.
    destruct (Hj _ Hin) as (b & Hb' & Hid & Hun). exists b. split_and!; [done | done | by apply Hun].
Qed.
End Selection.

(** ** A concrete selection *)

#[local] Existing Instance half_doubles.
#[local] Existing Instance half_values.

Definition member (k : string) (v : jsvalue) : ustr * jsvalue := (u k, v).
Definition sample_id (c : N) : ustr := u "evidence_" ++ replicate 52 c.

Definition sample_node (c : N) (authorship : string) : jsvalue :=
  VObj [member "id" (VStr (sample_id c)); member "kind" (VStr (u "file")); member "identityKey" (VStr [c]); member "label" (VStr [c]);
        member "authorship" (VStr (u authorship)); member "status" (VStr (u "verified"));
        member "trust" (VObj [member "adversarialRisk" (VNum (SafeInt 0)); member "independenceGroup" (VStr [c])])].

Definition sample_bundle (id purpose : string) (cs : list N) (mandatory : bool) : jsvalue :=
  VObj [member "id" (VStr (u id)); member "purpose" (VStr (u purpose)); member "nodeIds" (VArr (map (fun c => VStr (sample_id c)) cs));
        member "edgeIds" (VArr []); member "mandatory" (VBool mandatory)].

Definition sample_graph : jsvalue :=
  VObj [member "nodes" (VArr [sample_node 97 "DETERMINISTIC"; sample_node 98 "DETERMINISTIC"; sample_node 99 "LOCAL_MODEL";
                              sample_node 100 "DETERMINISTIC"]);
        member "edges" (VArr [])].
Definition sample_ledger : jsvalue := VObj [member "requirements" (VArr [])].
Definition ten_tokens (_ : jsvalue) : result Empty_set Z := Ok 10%Z.

(** A mandatory bundle, a causal path that fits, one by a local model, and one that no longer fits. *)
Definition sample_bundles : list jsvalue :=
  [sample_bundle "m" "interface-contract" [97%N] true; sample_bundle "c" "causal-path" [98%N] false;
   sample_bundle "l" "causal-path" [99%N] false; sample_bundle "x" "causal-path" [100%N] false].

Lemma selectBundles_exact_witness : exists om,
  selectBundles ten_tokens sample_graph sample_ledger 25 sample_bundles =
    Ok (selection [sample_bundle "m" "interface-contract" [97%N] true; sample_bundle "c" "causal-path" [98%N] false] om) /\
  om = [mkOmitted (sample_id 99) untrusted; mkOmitted (sample_id 100) window_capacity] /\ NoDup om.
Proof.
  destruct (selectBundles_exact ten_tokens sample_graph sample_ledger 25 sample_bundles) as (r & Hr & H).
  - repeat constructor; try (by vm_compute); by exists 10%Z.
  - assert (Hr' := Hr). vm_compute in Hr'. injection Hr' as <-. destruct H as (_ & _ & _ & _ & _ & Hn & _).
    eexists. split; [exact Hr|]. split; [reflexivity | exact Hn].
Defined.
