(* ===== verification/ContextPacket.v ===== *)
(** The context packet (packages/context-compiler/src/serialize.ts and tokenize.ts): its assembly from
    selected evidence, the checks that make it closed, its text for the model, the redaction of what
    goes in, and the token accounting.  Packets, graphs and manifests are JSON objects; a thrown
    [CompilationFailure] is kept by its code. *)

From Stdlib Require Import String.
From S2P Require Import Prelude JsText CanonicalJson JsJson Digest Classification Egress CloudWire ContextSelect.
Open Scope string_scope.
Open Scope list_scope.

Inductive FailureCode : Set := CLOSURE | LOCAL_MODEL_PROSE | DIGEST_ONLY | PACKET_SCHEMA | BINDING.

(** A [CompilationFailure], a [TokenizerError], or any other error. *)
Inductive CompileErr : Set := failure (code : FailureCode) | unknown_tokenizer | thrown.

Inductive CompilationPurpose : Set := purpose_initial | purpose_followup | purpose_repair.
#[export] Instance CompilationPurpose_eq_dec : EqDecision CompilationPurpose.
Proof. solve_decision. Defined.

Definition from_select {A} (r : result (SelectErr CompileErr) A) : result CompileErr A :=
  match r with Ok a => Ok a | Err bad_evidence_id => Err thrown | Err (estimate_error e) => Err e end.

Definition SERIALIZATION_SECTION_TITLES : list string :=
  ["1. Control envelope"; "2. Original task and normative requirements"; "3. Effective instructions and mandatory skills";
   "4. Most critical causal bundles"; "5. Repository map"; "6. Exact code/test/config evidence";
   "7. Runtime/history/external docs"; "8. Evidence-backed conflicts and unknowns"; "9. Verification capabilities";
   "10. Compact evidence/omission manifest"; "11. Repeat terminal output contract"].

Definition STRUCTURAL_KINDS : list ustr :=
  map u ["directory"; "file"; "symbol"; "code-region"; "requirement"; "task"; "constraint"; "invariant"].
Definition CODE_KINDS : list ustr := map u ["file"; "symbol"; "code-region"; "test"; "build-config"; "schema"; "api-contract"].
Definition RUNTIME_KINDS : list ustr :=
  map u ["test-result"; "coverage-region"; "stack-frame"; "commit"; "diff-hunk"; "runtime-observation"; "external-documentation"].

Section Packet.
Context {DD : Doubles} {FF : FloatValues} {HH : Hashing}.
(** The entropy test of the scanner; the pieces of the tokenizer's expression; [Buffer.from(text,
    "base64")]; the compiled packet schema; and the JSON schemas of the two terminal tools. *)
Variable entropy_below : ustr -> Z -> bool.
Variable pretokens : ustr -> list ustr.
Variable buffer_from_base64 : ustr -> bytes.
Variable PACKET_Check : jsvalue -> bool.
Variables submit_schema request_schema : jsvalue.

(** ** Tokens *)

Definition countTokens (text tokenizerRevision : ustr) : result CompileErr Z :=
  throw_if negb (bool_decide (tokenizerRevision = PI_HEC_CLOUD_TOKENIZER_REVISION)) with unknown_tokenizer;
  Ok (foldl (fun tokens piece => (tokens + piece_tokens piece)%Z) 0%Z (pretokens text)).

Record OutputReserveInput := mkReserve {
  or_purpose : CompilationPurpose;
  or_requiredFileCount : Z;
  or_requiredInterfaceCount : Z;
  or_operationTypes : Z;
  or_fullReplacementRepair : bool;
  or_schemaOverheadTokens : Z;
  or_historicalOutputTokens : list Z;
  or_evidenceTokens : Z
}.

(** The counts are integers, so only the two scaled terms are rounded. *)
Definition estimateReservedOutput (i : OutputReserveInput) : Z :=
  let replacement := or_fullReplacementRepair i || bool_decide (or_purpose i = purpose_repair) in
  let evidence := default 0%Z (f64_ceil (f64_of_Z (or_evidenceTokens i) * (if replacement then f64_literal 3 2 else f64_literal 35 100))%f64) in
  let historical :=
    match last (sort_by Z.leb (or_historicalOutputTokens i)) with
    | None => 0%Z
    | Some largest => default 0%Z (f64_ceil (f64_of_Z largest * f64_literal 12 10)%f64)
    end in
  Z.max 1 (or_schemaOverheadTokens i + or_requiredFileCount i * 512 + or_requiredInterfaceCount i * 128 + or_operationTypes i * 256
           + evidence + historical).

Definition capacityStatesFor (purpose : CompilationPurpose) : CapacityWaitingState * CapacityWaitingState :=
  match purpose with
  | purpose_initial => (WAITING_INITIAL_CONTEXT_CAPACITY, WAITING_INITIAL_OUTPUT_CAPACITY)
  | purpose_followup => (WAITING_DELTA_CONTEXT_CAPACITY, WAITING_DELTA_OUTPUT_CAPACITY)
  | purpose_repair => (WAITING_REPAIR_CONTEXT_CAPACITY, WAITING_REPAIR_OUTPUT_CAPACITY)
  end.

(** [None] is "ok". *)
Definition evaluateCapacity (purpose : CompilationPurpose) (inputTokens reserved contextLimit maxOutput : Z) : option CapacityWaitingState :=
  let '(context, output) := capacityStatesFor purpose in
  if (maxOutput <? reserved)%Z then Some output
  else if (contextLimit <? inputTokens + reserved)%Z then Some context
  else None.

(** ** Values and envelopes *)

Definition canonical_text (v : jsvalue) : result CompileErr ustr :=
  match canonicalizeRfc8785 v with Ok text => Ok text | Err _ => Err thrown end.

Definition digest_result {A} (r : result DigestErr A) : result CompileErr A := match r with Ok a => Ok a | Err _ => Err thrown end.

(** [toJsonValue]: a copy; [undefined] and non-finite numbers are refused. *)
Fixpoint toJsonValue (v : jsvalue) : result CompileErr jsvalue :=
  match v with
  | VNull | VBool _ | VStr _ => Ok v
  | VNum NonFinite => Err thrown
  | VNum _ => Ok v
  | VHole => Ok VHole
  | VArr items => let? copied := rmap toJsonValue items in Ok (VArr copied)
  | VObj fields =>
      let? members := rmap (fun kv => let? v := toJsonValue (snd kv) in Ok (fst kv, v)) fields in
      Ok (VObj (foldl (fun o kv => obj_assign (fst kv) (snd kv) o) [] members))
  | VUndefined | VUnsupported => Err thrown
  end.

Definition objectDigestOf (v : jsvalue) : result CompileErr Digest :=
  let? text := canonical_text v in Ok (objectDigestFromBytes (utf8_encode text)).

Record EnvelopeSigner := mkSigner {
  sg_sign : bytes -> ustr;
  sg_keyId : ustr;
  sg_certificateObjectDigest : ustr;
  sg_signedAt : ustr
}.

Definition signArtifactEnvelope (schema : string) (p : jsvalue) (s : EnvelopeSigner) : result CompileErr (ArtifactEnvelope jsvalue) :=
  let? json := toJsonValue p in
  let? digest := digest_result (payloadDigest (u schema) 1 json) in
  let unsigned := mkSignature (sg_keyId s) (u "Ed25519") (sg_signedAt s) (sg_certificateObjectDigest s) [] in
  let? input := digest_result (signatureInputDigest (u schema) 1 digest unsigned (sg_certificateObjectDigest s)) in
  Ok (mkEnvelope (u schema) 1 p digest
        [mkSignature (sg_keyId s) (u "Ed25519") (sg_signedAt s) (sg_certificateObjectDigest s) (sg_sign s (utf8_encode input))]).

Definition envelopeDigestOf (e : ArtifactEnvelope jsvalue) : result CompileErr Digest :=
  let? json := toJsonValue (payload e) in
  digest_result (envelopeObjectDigest (mkEnvelope (schemaName e) (schemaVersion e) json (env_payloadDigest e) (signatures e))).

Definition unsignedEnvelope (schema : string) (p : jsvalue) : result CompileErr (ArtifactEnvelope jsvalue) :=
  let? json := toJsonValue p in
  let? digest := digest_result (payloadDigest (u schema) 1 json) in
  Ok (mkEnvelope (u schema) 1 p digest []).

(** ** Inline bodies *)

Definition isDigestOnlyText (text : ustr) : bool := isObjectDigest_units (trim text).

Definition content_of (source : jsvalue) : EncodedContent :=
  let content := object_field "content" source in
  if has_text "encoding" "utf-8" content then utf8_content (string_field "text" content) else base64_content (string_field "base64" content).

Definition content_text (c : EncodedContent) : ustr :=
  match c with utf8_content text => text | base64_content b => toString_utf8 (buffer_from_base64 b) end.

Definition payloadBody (payload : jsvalue) : ustr :=
  join_unit LF (map (fun source => content_text (content_of source)) (array_field "sources" payload)).

Definition evidenceId_of (payload : jsvalue) : ustr := string_field "evidenceId" payload.
Definition node_of (payload : jsvalue) : jsvalue := object_field "node" payload.

Definition assertNotLocalModel (node : jsvalue) : result CompileErr unit :=
  throw_if has_text "authorship" "LOCAL_MODEL" node || has_text "authorship" "CLOUD_MODEL" node with failure LOCAL_MODEL_PROSE; Ok tt.

Definition assertIndependentlyReproduced (payload : jsvalue) : result CompileErr unit :=
  let? _ := assertNotLocalModel (node_of payload) in
  if includes (string_field "kind" (node_of payload)) STRUCTURAL_KINDS then Ok tt else
  throw_if bool_decide (array_field "provenance" (node_of payload) = []) with failure CLOSURE;
  throw_if has_text "directness" "model-derived" (trust_of (node_of payload)) with failure CLOSURE;
  Ok tt.

Definition is_digest_source (source : jsvalue) : bool :=
  match content_of source with utf8_content text => isDigestOnlyText text | base64_content _ => false end.

Definition assertInlineBody (payload : jsvalue) : result CompileErr unit :=
  let body := payloadBody payload in
  throw_if bool_decide (body = []) with failure DIGEST_ONLY;
  throw_if existsb is_digest_source (array_field "sources" payload) with failure DIGEST_ONLY;
  throw_if isDigestOnlyText body with failure DIGEST_ONLY;
  Ok tt.

Definition skillContentDigest (content : ustr) : Digest := sha256Hex (utf8_encode content).

(** ** Omissions *)

Definition omission_leb (a b : OmittedEvidence) : bool :=
  if bool_decide (om_evidenceId a = om_evidenceId b) then utf16_leb (reason_text (om_reason a)) (reason_text (om_reason b))
  else utf16_leb (om_evidenceId a) (om_evidenceId b).

Definition omission_json (o : OmittedEvidence) : jsvalue :=
  obj [("evidenceId", VStr (om_evidenceId o)); ("reason", VStr (reason_text (om_reason o)))].

Definition omissionRootDigest (pairs : list OmittedEvidence) : result CompileErr Digest :=
  digest_result (taggedHash "omission-root" 1 (obj [("pairs", VArr (map omission_json (sort_by omission_leb pairs)))])).

Definition criticalOmissionEntries (omitted : list OmittedEvidence) (bundles : list jsvalue) (graph : jsvalue) : list OmittedEvidence :=
  let criticalIds := flat_map nodeIds (List.filter (fun b => isNeverOmitBundle b graph) bundles) in
  sort_omitted (List.filter (fun item => includes (om_evidenceId item) criticalIds &&
    (bool_decide (om_reason item = untrusted) || bool_decide (om_reason item = window_capacity))) omitted).

Definition count_reason (r : OmissionReason) (omitted : list OmittedEvidence) : jsvalue :=
  VInt (Z.of_nat (length (List.filter (fun o => bool_decide (om_reason o = r)) omitted))).

(** ** The repository map *)

Definition pathOf (node : jsvalue) : ustr :=
  match split_unit COLON (string_field "identityKey" node) with _ :: p :: _ => p | _ => string_field "label" node end.

Record MapEntry := mkMapEntry { me_path : ustr; me_kind : ustr; me_symbols : list ustr; me_relationIds : list ustr }.

Definition map_node_leb (a b : jsvalue) : bool :=
  if bool_decide (hierarchySortKey a = hierarchySortKey b) then utf16_leb (pathOf a) (pathOf b)
  else utf16_leb (hierarchySortKey a) (hierarchySortKey b).

Definition add_map_node (relations : list jsvalue) (byPath : list (ustr * MapEntry)) (node : jsvalue) : list (ustr * MapEntry) :=
  let path := pathOf node in
  let symbols := if has_text "kind" "symbol" node then [string_field "label" node] else [] in
  let relationIds := map id_of (List.filter (fun edge =>
    bool_decide (string_field "from" edge = id_of node) || bool_decide (string_field "to" edge = id_of node)) relations) in
  match JsMap.get path byPath with
  | None => JsMap.set path (mkMapEntry path (string_field "kind" node) symbols relationIds) byPath
  | Some e => JsMap.set path (mkMapEntry (me_path e) (me_kind e) (me_symbols e ++ symbols) (me_relationIds e ++ relationIds)) byPath
  end.

Definition entry_json (e : MapEntry) : jsvalue :=
  obj [("path", VStr (me_path e)); ("kind", VStr (me_kind e)); ("symbols", VArr (map VStr (sort_by utf16_leb (uniq (me_symbols e)))));
       ("relationIds", VArr (map VStr (sort_by utf16_leb (uniq (me_relationIds e)))))].

Definition buildRepositoryMap (graph : jsvalue) (bundles relations : list jsvalue) : list jsvalue :=
  let selected := flat_map nodeIds bundles in
  let nodes := sort_by map_node_leb (List.filter (fun node => includes (id_of node) selected &&
    (has_text "kind" "directory" node || has_text "kind" "file" node || has_text "kind" "symbol" node)) (graph_nodes graph)) in
  map entry_json (JsMap.values (foldl (add_map_node relations) [] nodes)).

(** ** Facts *)

Record FactLists := mkFacts { fl_verifiedFacts : list ustr; fl_unknowns : list ustr; fl_conflicts : list ustr; fl_risks : list ustr }.

Definition evidence_id (value : ustr) : result CompileErr ustr := from_select (asEvidenceId value).

Definition classify_node (selectedIds : list ustr) (f : FactLists) (node : jsvalue) : result CompileErr FactLists :=
  if negb (includes (id_of node) selectedIds) then Ok f
  else if has_text "authorship" "LOCAL_MODEL" node || has_text "authorship" "CLOUD_MODEL" node then Ok f
  else if has_text "kind" "unknown" node || has_text "status" "unknown" node then
    let? i := evidence_id (id_of node) in Ok (mkFacts (fl_verifiedFacts f) (fl_unknowns f ++ [i]) (fl_conflicts f) (fl_risks f))
  else if has_text "kind" "conflict" node || has_text "status" "conflicted" node then
    let? i := evidence_id (id_of node) in Ok (mkFacts (fl_verifiedFacts f) (fl_unknowns f) (fl_conflicts f ++ [i]) (fl_risks f))
  else if has_text "kind" "risk" node then
    let? i := evidence_id (id_of node) in Ok (mkFacts (fl_verifiedFacts f) (fl_unknowns f) (fl_conflicts f) (fl_risks f ++ [i]))
  else if has_text "status" "verified" node &&
          (has_text "kind" "fact" node || has_text "kind" "constraint" node || has_text "kind" "invariant" node) then
    let? i := evidence_id (id_of node) in Ok (mkFacts (fl_verifiedFacts f ++ [i]) (fl_unknowns f) (fl_conflicts f) (fl_risks f))
  else Ok f.

Definition classifyFactLists (graph : jsvalue) (selectedIds : list ustr) : result CompileErr FactLists :=
  let? f := rfold (classify_node selectedIds) (mkFacts [] [] [] []) (graph_nodes graph) in
  Ok (mkFacts (sort_by utf16_leb (fl_verifiedFacts f)) (sort_by utf16_leb (fl_unknowns f))
        (sort_by utf16_leb (fl_conflicts f)) (sort_by utf16_leb (fl_risks f))).

(** ** Closure *)

Definition reach {A} (f : A -> result CompileErr unit) (xs : list A) : result CompileErr unit := rfold (fun _ x => f x) tt xs.

Definition distinct (ids : list ustr) : bool := (length (uniq ids) =? length ids)%nat.

(** A payload that a bundle or a fact list refers to. *)
Definition assert_payload (payloadById : list (ustr * jsvalue)) (i : ustr) : result CompileErr unit :=
  match JsMap.get i payloadById with
  | None => Err (failure CLOSURE)
  | Some payload => let? _ := assertInlineBody payload in assertIndependentlyReproduced payload
  end.

Definition assert_relation (relationById : list (ustr * jsvalue)) (i : ustr) : result CompileErr unit :=
  throw_if negb (JsMap.has i relationById) with failure CLOSURE; Ok tt.

Definition assert_instruction (pair : jsvalue * jsvalue) : result CompileErr unit :=
  let '(descriptor, body) := pair in
  throw_if negb (bool_decide (string_field "scope" descriptor = string_field "scope" body)) ||
    negb (f64_eq (f64_value (object_field "precedence" descriptor)) (f64_value (object_field "precedence" body))) with failure CLOSURE;
  throw_if negb (bool_decide (skillContentDigest (string_field "verbatimContent" body) = string_field "contentDigest" descriptor))
    with failure CLOSURE;
  Ok tt.

Definition assert_mandatory_skill (loadedById : list (ustr * jsvalue)) (descriptor : jsvalue) : result CompileErr unit :=
  if negb (has_text "loadPolicy" "mandatory" descriptor) then Ok tt else
  match JsMap.get (id_of descriptor) loadedById with
  | None => Err (failure DIGEST_ONLY)
  | Some loaded =>
      throw_if isDigestOnlyText (string_field "verbatimContent" loaded) with failure DIGEST_ONLY;
      throw_if negb (bool_decide (skillContentDigest (string_field "verbatimContent" loaded) = string_field "contentDigest" descriptor))
        with failure CLOSURE;
      Ok tt
  end.

Definition assert_loaded_skill (loaded : jsvalue) : result CompileErr unit :=
  throw_if negb (bool_decide (skillContentDigest (string_field "verbatimContent" loaded) =
    string_field "contentDigest" (object_field "descriptor" loaded))) with failure CLOSURE;
  Ok tt.

Definition assert_not_leaked (graphNodes : list (ustr * jsvalue)) (payload : jsvalue) : result CompileErr unit :=
  match JsMap.get (evidenceId_of payload) graphNodes with
  | Some node => throw_if has_text "authorship" "LOCAL_MODEL" node with failure LOCAL_MODEL_PROSE; Ok tt
  | None => Ok tt
  end.

Definition fact_ids (packet : jsvalue) : list ustr :=
  texts_of "verifiedFacts" packet ++ texts_of "unknowns" packet ++ texts_of "conflicts" packet ++ texts_of "risks" packet.

Definition assertPacketClosure (packet graph : jsvalue) : result CompileErr unit :=
  throw_if negb (PACKET_Check packet) with failure PACKET_SCHEMA;
  let payloads := array_field "evidencePayloads" packet in
  let payloadById := map_by evidenceId_of payloads in
  throw_if negb (distinct (map evidenceId_of payloads)) with failure CLOSURE;
  let relations := array_field "relations" packet in
  let relationById := map_by id_of relations in
  throw_if negb (distinct (map id_of relations)) with failure CLOSURE;
  let? _ := reach (fun bundle =>
    let? _ := reach (assert_payload payloadById) (nodeIds bundle) in
    reach (assert_relation relationById) (edgeIds bundle)) (array_field "bundles" packet) in
  let? _ := reach (assert_payload payloadById) (fact_ids packet) in
  let? _ := reach (fun entry => reach (assert_relation relationById) (texts_of "relationIds" entry)) (array_field "repositoryMap" packet) in
  let instructions := array_field "instructions" (object_field "instructionManifest" packet) in
  let bodies := array_field "authoritativeInstructions" packet in
  throw_if negb (length instructions =? length bodies)%nat with failure CLOSURE;
  let? _ := reach assert_instruction (zip instructions bodies) in
  let loaded := array_field "loadedSkills" packet in
  let? _ := reach (assert_mandatory_skill (map_by (string_field "skillId") loaded)) (array_field "skills" (object_field "skillManifest" packet)) in
  let? _ := reach assert_loaded_skill loaded in
  throw_if bool_decide (string_field "originalRequest" (object_field "requirementLedger" packet) = []) with failure CLOSURE;
  reach (assert_not_leaked (map_by id_of (graph_nodes graph))) payloads.

Definition assertPacketByteClosure (packet graph : jsvalue) : result CompileErr unit :=
  let? text := canonical_text packet in
  match JSON_parse text with
  | None => Err thrown
  | Some image =>
      throw_if negb (match image with VObj _ | VArr _ => true | _ => false end) || negb (PACKET_Check image) with failure PACKET_SCHEMA;
      assertPacketClosure image graph
  end.

(** ** Assembly *)

Record PacketBuildInput := mkPacketInput {
  pb_runId : ustr;
  pb_snapshotId : ustr;
  pb_snapshotRootDigest : ustr;
  pb_control : jsvalue;
  pb_requirementLedger : jsvalue;
  pb_instructionManifest : jsvalue;
  pb_skillManifest : jsvalue;
  pb_authoritativeInstructions : list jsvalue;
  pb_loadedSkills : list jsvalue;
  pb_graph : jsvalue;
  pb_bundles : list jsvalue;
  pb_candidateBundles : option (list jsvalue);
  pb_payloads : list jsvalue;
  pb_verificationCapabilities : list jsvalue;
  pb_omitted : list OmittedEvidence;
  pb_tokenization : jsvalue
}.

Definition add_relation (edges : list (ustr * jsvalue)) (relations : list jsvalue) (edgeId : ustr) : result CompileErr (list jsvalue) :=
  match JsMap.get edgeId edges with
  | None => Err (failure CLOSURE)
  | Some edge => Ok (if includes (id_of edge) (map id_of relations) then relations else relations ++ [edge])
  end.

Definition collect_relations (graph : jsvalue) (bundles : list jsvalue) : result CompileErr (list jsvalue) :=
  let? relations := rfold (add_relation (map_by id_of (graph_edges graph))) [] (flat_map edgeIds bundles) in
  Ok (sort_by (fun a b => utf16_leb (id_of a) (id_of b)) relations).

(** [payloads.filter(...)], whose callback throws. *)
Definition keep_payload (selectedIds : list ustr) (kept : list jsvalue) (item : jsvalue) : result CompileErr (list jsvalue) :=
  if negb (includes (evidenceId_of item) selectedIds) then Ok kept else
  let? _ := assertNotLocalModel (node_of item) in
  let? _ := assertInlineBody item in
  Ok (kept ++ [item]).

Definition add_extra (all : list jsvalue) (payloads : list jsvalue) (i : ustr) : result CompileErr (list jsvalue) :=
  if includes i (map evidenceId_of payloads) then Ok payloads else
  match array_find (fun item => bool_decide (evidenceId_of item = i)) all with
  | None => Err (failure CLOSURE)
  | Some extra =>
      let? _ := assertNotLocalModel (node_of extra) in
      let? _ := assertInlineBody extra in
      Ok (payloads ++ [extra])
  end.

Definition payload_leb (a b : jsvalue) : bool :=
  let ka := hierarchySortKey (node_of a) in
  let kb := hierarchySortKey (node_of b) in
  if bool_decide (ka = kb) then utf16_leb (evidenceId_of a) (evidenceId_of b) else utf16_leb ka kb.

Definition VIds (ids : list ustr) : jsvalue := VArr (map VStr ids).

Definition buildContextPacket (i : PacketBuildInput) : result CompileErr jsvalue :=
  let selectedIds := flat_map nodeIds (pb_bundles i) in
  let? relations := collect_relations (pb_graph i) (pb_bundles i) in
  let? selectedPayloads := rfold (keep_payload selectedIds) [] (pb_payloads i) in
  let? facts := classifyFactLists (pb_graph i) selectedIds in
  let? payloads := rfold (add_extra (pb_payloads i)) selectedPayloads
    (fl_verifiedFacts facts ++ fl_unknowns facts ++ fl_conflicts facts ++ fl_risks facts) in
  let? ledgerDigest := objectDigestOf (pb_requirementLedger i) in
  let? instructionDigest := objectDigestOf (pb_instructionManifest i) in
  let? skillDigest := objectDigestOf (pb_skillManifest i) in
  let? omissionDigest := omissionRootDigest (pb_omitted i) in
  let packet := obj [
    ("schemaVersion", VInt 1); ("runId", VStr (pb_runId i)); ("snapshotId", VStr (pb_snapshotId i));
    ("snapshotRootDigest", VStr (pb_snapshotRootDigest i)); ("requirementLedgerObjectDigest", VStr ledgerDigest);
    ("instructionManifestObjectDigest", VStr instructionDigest); ("skillManifestObjectDigest", VStr skillDigest);
    ("control", pb_control i); ("requirementLedger", pb_requirementLedger i); ("instructionManifest", pb_instructionManifest i);
    ("skillManifest", pb_skillManifest i); ("authoritativeInstructions", VArr (pb_authoritativeInstructions i));
    ("repositoryMap", VArr (buildRepositoryMap (pb_graph i) (pb_bundles i) relations)); ("bundles", VArr (pb_bundles i));
    ("relations", VArr relations); ("evidencePayloads", VArr (sort_by payload_leb payloads));
    ("loadedSkills", VArr (pb_loadedSkills i)); ("verifiedFacts", VIds (fl_verifiedFacts facts)); ("unknowns", VIds (fl_unknowns facts));
    ("conflicts", VIds (fl_conflicts facts)); ("risks", VIds (fl_risks facts));
    ("verificationCapabilities", VArr (pb_verificationCapabilities i));
    ("omissionManifest", obj [
      ("omittedEvidenceRootDigest", VStr omissionDigest);
      ("countsByReason", obj [("duplicate", count_reason duplicate (pb_omitted i)); ("lower-utility", count_reason lower_utility (pb_omitted i));
        ("untrusted", count_reason untrusted (pb_omitted i)); ("window-capacity", count_reason window_capacity (pb_omitted i))]);
      ("criticalOmissions", VArr (map omission_json
        (criticalOmissionEntries (pb_omitted i) (default (pb_bundles i) (pb_candidateBundles i)) (pb_graph i))))]);
    ("tokenization", pb_tokenization i)] in
  let? _ := assertPacketClosure packet (pb_graph i) in
  let? _ := assertPacketByteClosure packet (pb_graph i) in
  Ok packet.

(** ** The text for the model *)

Definition renderControl (control : jsvalue) (includeRunId : bool) : result CompileErr ustr :=
  canonical_text (if includeRunId then control else
    obj (map (fun k => (k, object_field k control)) ["schemaVersion"; "role"; "userScope"; "allowedResultKinds"; "allowedChangeOperations";
      "forbiddenCapabilities"; "resultSchemaObjectDigest"; "contextRequestPolicy"])).

Definition renderPayload (payload : jsvalue) : ustr :=
  evidenceId_of payload ++ [LF] ++ string_field "kind" (node_of payload) ++ [LF] ++ payloadBody payload.

Definition payloadsForKinds (packet : jsvalue) (kinds : list ustr) : list jsvalue :=
  sort_by payload_leb (List.filter (fun item => includes (string_field "kind" (node_of item)) kinds) (array_field "evidencePayloads" packet)).

Definition pick (v : jsvalue) (ks : list string) : jsvalue := obj (map (fun k => (k, object_field k v)) ks).

Definition packet_sections (packet : jsvalue) (includeRunId : bool) : result CompileErr (list ustr) :=
  let causal := List.filter (has_text "purpose" "causal-path") (array_field "bundles" packet) in
  let conflictNodes := List.filter (fun item => includes (evidenceId_of item) (texts_of "conflicts" packet) ||
    includes (evidenceId_of item) (texts_of "unknowns" packet)) (array_field "evidencePayloads" packet) in
  let control := object_field "control" packet in
  let? s1 := renderControl control includeRunId in
  let? s2 := canonical_text (pick (object_field "requirementLedger" packet)
    ["originalRequest"; "requirements"; "nonGoals"; "conflicts"; "openQuestions"]) in
  let? s3 := canonical_text (obj [("instructions", object_field "authoritativeInstructions" packet);
    ("skills", VArr (map (fun item => pick item ["skillId"; "verbatimContent"]) (array_field "loadedSkills" packet)))]) in
  let? s4 := canonical_text (VArr causal) in
  let? s5 := canonical_text (object_field "repositoryMap" packet) in
  let? s9 := canonical_text (object_field "verificationCapabilities" packet) in
  let? s10 := canonical_text (object_field "omissionManifest" packet) in
  let? s11 := canonical_text (obj [("allowedResultKinds", object_field "allowedResultKinds" control);
    ("resultSchemaObjectDigest", object_field "resultSchemaObjectDigest" control); ("exactlyOneTerminalCallRequired", VBool true)]) in
  Ok [s1; s2; s3; s4; s5; join_unit LF (map renderPayload (payloadsForKinds packet CODE_KINDS));
      join_unit LF (map renderPayload (payloadsForKinds packet RUNTIME_KINDS)); join_unit LF (map renderPayload conflictNodes); s9; s10; s11].

Fixpoint join_text (sep : ustr) (parts : list ustr) : ustr :=
  match parts with [] => [] | [p] => p | p :: rest => p ++ sep ++ join_text sep rest end.

Definition serializePacketSections (packet : jsvalue) (includeRunIdInControl : bool) : result CompileErr ustr :=
  let? sections := packet_sections packet includeRunIdInControl in
  Ok (join_text [LF; LF] (imap (fun index title => u "## " ++ u title ++ [LF] ++ default [] (sections !! index)) SERIALIZATION_SECTION_TITLES)).

Definition tool_json (name description : string) (schema : jsvalue) : result CompileErr jsvalue :=
  let? digest := objectDigestOf schema in
  Ok (obj [("name", str name); ("description", str description); ("inputSchema", schema); ("inputSchemaObjectDigest", VStr digest)]).

Definition compileConversation (packet binding : jsvalue) (requestBindingDigest : Digest) (systemPrompt : ustr) : result CompileErr jsvalue :=
  let? userText := serializePacketSections packet true in
  let? submit := tool_json "submit_solution" "Submit the terminal solution, no-change, or user-input result." submit_schema in
  let? request := tool_json "request_context" "Request additional unresolved evidence without solving." request_schema in
  Ok (obj [("schemaVersion", VInt 1); ("requestBinding", binding); ("requestBindingDigest", VStr requestBindingDigest);
    ("systemPrompt", VStr systemPrompt);
    ("messages", VArr [obj [("role", str "user"); ("content", VArr [obj [("kind", str "text");
       ("text", VStr (if bool_decide (userText = []) then u "context" else userText))]])]]);
    ("tools", VArr [submit; request]); ("allowedTerminalTools", VArr [str "submit_solution"; str "request_context"]);
    ("exactlyOneTerminalCallRequired", VBool true)]).

Definition conversationBytes (conversation : jsvalue) : result CompileErr bytes :=
  let? text := canonical_text conversation in Ok (utf8_encode text).

(** ** Redaction *)

Definition sourcePathOf (ref : jsvalue) : option ustr :=
  if has_text "origin" "repository" ref then Some (string_field "path" ref)
  else if has_text "origin" "external" ref then Some (string_field "url" ref) else None.

Definition set_field (k : string) (v o : jsvalue) : jsvalue :=
  match o with VObj fields => VObj (JsMap.set (u k) v fields) | _ => o end.

Record Redacted := mkRedacted { rd_payloads : list jsvalue; rd_restricted : bool; rd_findings : list DlpFinding }.

Inductive RedactResult : Type := redact_ok (r : Redacted) | PATCH_DEPENDS_ON_REDACTED.

(** The new source, the scan, and whether an intended patch depends on what is redacted. *)
Definition redact_source (project : DataClassification) (intendedPatchPaths : list ustr) (path : option ustr) (source : jsvalue)
    : jsvalue * DlpScanResult * bool :=
  let sourcePath := match sourcePathOf (object_field "sourceRef" source) with Some p => Some p | None => path end in
  let content := content_of source in
  let scanned := scanSourceContent entropy_below content sourcePath (Some project) in
  let conflict := match sourcePath with
    | Some p => includes p intendedPatchPaths && existsb redactionPermitted (findings scanned)
    | None => false
    end in
  let inline := set_field "content" (obj [("encoding", str "utf-8"); ("text", VStr (redactedText scanned))]) source in
  (match content with
   | utf8_content _ => inline
   | base64_content b =>
       if negb (bool_decide (redactedText scanned = [])) && negb (bool_decide (redactedText scanned = toString_utf8 (buffer_from_base64 b)))
       then inline else source
   end, scanned, conflict).

Fixpoint redact_sources (project : DataClassification) (intendedPatchPaths : list ustr) (path : option ustr) (sources : list jsvalue)
    (done : list jsvalue) (restrictedSoFar : bool) (fs : list DlpFinding) : option (list jsvalue * bool * list DlpFinding) :=
  match sources with
  | [] => Some (done, restrictedSoFar, fs)
  | source :: rest =>
      let '(source', scanned, conflict) := redact_source project intendedPatchPaths path source in
      if conflict then None else
      redact_sources project intendedPatchPaths path rest (done ++ [source'])
        (restrictedSoFar || bool_decide (scan_classification scanned = restricted) || negb (inspectable scanned)) (fs ++ findings scanned)
  end.

(** A payload without sources makes the access to its first one throw. *)
Fixpoint redact_loop (project : DataClassification) (intendedPatchPaths : list ustr) (payloads : list jsvalue) (acc : Redacted)
    : result CompileErr RedactResult :=
  match payloads with
  | [] => Ok (redact_ok acc)
  | payload :: rest =>
      match array_field "sources" payload with
      | [] => Err thrown
      | (first :: _) as sources =>
          match redact_sources project intendedPatchPaths (sourcePathOf (object_field "sourceRef" first)) sources [] (rd_restricted acc) (rd_findings acc) with
          | None => Ok PATCH_DEPENDS_ON_REDACTED
          | Some (sources', r, fs) =>
              redact_loop project intendedPatchPaths rest (mkRedacted (rd_payloads acc ++ [set_field "sources" (VArr sources') payload]) r fs)
          end
      end
  end.

Definition redactPayloads (payloads : list jsvalue) (project : DataClassification) (intendedPatchPaths : list ustr) : result CompileErr RedactResult :=
  redact_loop project intendedPatchPaths payloads (mkRedacted [] false []).

(** The redacted text, the findings, and whether the text is restricted. *)
Definition redactVerbatim (text : ustr) (project : DataClassification) (path : option ustr) : ustr * list DlpFinding * bool :=
  let scanned := scanText entropy_below text path (Some project) in
  (redactedText scanned, findings scanned, bool_decide (scan_classification scanned = restricted)).

Definition collectSourceRefs (packet : jsvalue) : list jsvalue :=
  map (object_field "sourceRef") (array_field "authoritativeInstructions" packet) ++
  flat_map (fun p => map (object_field "sourceRef") (array_field "sources" p)) (array_field "evidencePayloads" packet).
End Packet.
