(* ===== verification/ContextCompiler.v ===== *)
(** Compiling the context of a cloud call (packages/context-compiler/src/index.ts and cache-prefix.ts):
    redaction, selection, the packet with its closure and capacity checks, and the artifacts of the
    call: request binding, conversation, egress manifest and canonical request. *)

From Stdlib Require Import String.
From S2P Require Import Prelude JsText CanonicalJson JsJson Digest Classification Egress CloudStore Usage CloudWire ContextSelect ContextPacket.
Open Scope string_scope.
Open Scope list_scope.

(** ** The stable prefix *)

Record CachePrefixParts := mkParts {
  controlProtocol : ustr;
  toolResultSchemas : ustr;
  platformPolicy : ustr;
  effectiveInstructions : ustr;
  mandatorySkills : ustr;
  repositoryManifests : ustr;
  taskSpecificEvidence : ustr
}.

Definition CACHE_PREFIX_ORDER : list (string * (CachePrefixParts -> ustr)) :=
  [("control-protocol", controlProtocol); ("tool-result-schemas", toolResultSchemas); ("platform-policy", platformPolicy);
   ("effective-instructions", effectiveInstructions); ("mandatory-skills", mandatorySkills);
   ("repository-context-manifests", repositoryManifests); ("task-specific-evidence", taskSpecificEvidence)].

Definition buildStableCachePrefix (parts : CachePrefixParts) : ustr :=
  join_unit LF (map (fun '(id, part) => u "<<" ++ u id ++ u ">>" ++ [LF] ++ part parts) CACHE_PREFIX_ORDER).

Definition prefixContainsRunId (prefix runId : ustr) : bool := includes_text runId prefix.

(** ** Inputs and outcomes *)

(** A deployment: its provider, and its limits. *)
Record QualifiedDeployment := mkDeployment {
  qd_provider : EgressProviderChain;
  qd_tokenizerRevision : ustr;
  qd_contextLimitTokens : Z;
  qd_maxOutputTokens : Z
}.

Inductive FailedCode : Set :=
| RUN_MISMATCH | PATCH_ON_REDACTED | CRITICAL_OMISSION | CACHE_PREFIX | EGRESS_REJECTED | UNKNOWN_TOKENIZER | CODE (c : FailureCode) | COMPILE.

Inductive WaitingState : Set := waiting_capacity (s : CapacityWaitingState) | WAITING_CLOUD_ELIGIBILITY.

Section Compiler.
Context {DD : Doubles} {FF : FloatValues} {HH : Hashing}.
Variable entropy_below : ustr -> Z -> bool.
Variable pretokens : ustr -> list ustr.
Variable buffer_from_base64 : ustr -> bytes.
Variable PACKET_Check : jsvalue -> bool.
Variables submit_schema request_schema : jsvalue.

Record CompilerInput := mkCompilerInput {
  ci_purpose : CompilationPurpose;
  ci_projectId : ustr;
  ci_runId : ustr;
  ci_cloudCallId : ustr;
  ci_snapshotId : ustr;
  ci_snapshotRootDigest : ustr;
  ci_control : jsvalue;
  ci_requirementLedger : jsvalue;
  ci_instructionManifest : jsvalue;
  ci_skillManifest : jsvalue;
  ci_authoritativeInstructions : list jsvalue;
  ci_loadedSkills : list jsvalue;
  ci_graph : jsvalue;
  ci_bundles : list jsvalue;
  ci_payloads : list jsvalue;
  ci_verificationCapabilities : list jsvalue;
  ci_deployment : QualifiedDeployment;
  ci_policy : EgressPolicy;
  ci_signer : EnvelopeSigner;
  ci_expiresAt : ustr;
  ci_historicalOutputTokens : list Z;
  ci_intendedPatchPaths : option (list ustr);
  ci_expectedOperationTypes : option (list ustr);
  ci_parentCloudCallId : option ustr;
  ci_contextDeltaObjectDigest : option Digest;
  ci_repairPacketObjectDigest : option Digest;
  ci_priorCandidateManifestObjectDigest : option Digest
}.

Record CompiledCloudArtifacts := mkArtifacts {
  ca_packet : jsvalue;
  ca_packetEnvelope : ArtifactEnvelope jsvalue;
  ca_requestBinding : jsvalue;
  ca_requestBindingDigest : Digest;
  ca_conversation : jsvalue;
  ca_conversationEnvelope : ArtifactEnvelope jsvalue;
  ca_egress : jsvalue;
  ca_egressEnvelope : ArtifactEnvelope jsvalue;
  ca_canonical : jsvalue;
  ca_canonicalEnvelope : ArtifactEnvelope jsvalue;
  ca_cachePrefix : ustr;
  ca_cacheIdentity : Digest;
  ca_omittedEvidence : list OmittedEvidence
}.

Inductive CompilationOutcome : Type :=
| compiled (artifacts : CompiledCloudArtifacts)
| outcome_waiting (state : WaitingState)
| failed (code : FailedCode).

(** ** Tokens of a bundle *)

Definition source_tokens (revision : ustr) (tokens : Z) (source : jsvalue) : result CompileErr Z :=
  match content_of source with
  | utf8_content text => let? n := countTokens pretokens text revision in Ok (tokens + n)%Z
  | base64_content b => Ok (tokens + (Z.of_nat (length b) + 3) / 4)%Z
  end.

Definition estimateBundleTokens (payloads : list jsvalue) (revision : ustr) (bundle : jsvalue) : result CompileErr Z :=
  rfold (fun tokens i =>
    match array_find (fun item => bool_decide (evidenceId_of item = i)) payloads with
    | None => Ok tokens
    | Some payload => rfold (source_tokens revision) tokens (array_field "sources" payload)
    end) 8%Z (nodeIds bundle).

(** The tokens of the inline text of all payloads. *)
Definition evidence_tokens (payloads : list jsvalue) (revision : ustr) : result CompileErr Z :=
  rfold (fun sum item =>
    let? inner := rfold (fun inner source =>
      match content_of source with
      | utf8_content text => let? n := countTokens pretokens text revision in Ok (inner + n)%Z
      | base64_content _ => Ok inner
      end) 0%Z (array_field "sources" item) in
    Ok (sum + inner)%Z) 0%Z payloads.

(** ** The request *)

Definition purpose_text (p : CompilationPurpose) : string :=
  match p with purpose_initial => "initial" | purpose_followup => "context-followup" | purpose_repair => "repair" end.

Definition buildRequestBinding (i : CompilerInput) (packetDigest resultSchema : Digest) : result CompileErr jsvalue :=
  let d := qd_provider (ci_deployment i) in
  let shared := [("schemaVersion", VInt 1); ("runId", VStr (ci_runId i)); ("cloudCallId", VStr (ci_cloudCallId i));
    ("contextPacketObjectDigest", VStr packetDigest); ("baseSnapshotId", VStr (ci_snapshotId i));
    ("baseSnapshotRootDigest", VStr (ci_snapshotRootDigest i)); ("deploymentId", VStr (Egress.deploymentId d));
    ("adapterVersionObjectDigest", VStr (Egress.adapterVersionObjectDigest d)); ("modelRevision", VStr (Egress.modelRevision d));
    ("resultSchemaObjectDigest", VStr resultSchema); ("purpose", str (purpose_text (ci_purpose i)))] in
  match ci_purpose i with
  | purpose_initial => Ok (obj shared)
  | purpose_followup =>
      match ci_parentCloudCallId i, ci_contextDeltaObjectDigest i with
      | Some parent, Some delta => Ok (obj (shared ++ [("parentCloudCallId", VStr parent); ("contextDeltaObjectDigest", VStr delta)]))
      | _, _ => Err (failure BINDING)
      end
  | purpose_repair =>
      match ci_parentCloudCallId i, ci_repairPacketObjectDigest i, ci_priorCandidateManifestObjectDigest i with
      | Some parent, Some repair, Some prior =>
          Ok (obj (shared ++ [("parentCloudCallId", VStr parent); ("repairPacketObjectDigest", VStr repair);
                              ("priorCandidateManifestObjectDigest", VStr prior)]))
      | _, _, _ => Err (failure BINDING)
      end
  end.

(** The members that the purpose adds are those of the binding. *)
Definition buildCanonical (purpose : CompilationPurpose) (binding : jsvalue) (bindingDigest egressDigest conversationDigest : Digest)
    (maxOutputTokens : Z) : jsvalue :=
  let copy k := (k, object_field k binding) in
  obj ([("schemaVersion", VInt 1); copy "runId"; copy "cloudCallId"; ("requestBindingDigest", VStr bindingDigest); copy "deploymentId";
        copy "adapterVersionObjectDigest"; copy "contextPacketObjectDigest"; ("egressManifestObjectDigest", VStr egressDigest);
        ("compiledConversationObjectDigest", VStr conversationDigest); ("resultMode", str "terminal-tools");
        ("maxOutputTokens", VInt maxOutputTokens); ("reasoningProfile", str "none"); ("requestBinding", binding); copy "purpose"] ++
       match purpose with
       | purpose_initial => []
       | purpose_followup => [copy "parentCloudCallId"; copy "contextDeltaObjectDigest"]
       | purpose_repair => [copy "parentCloudCallId"; copy "repairPacketObjectDigest"; copy "priorCandidateManifestObjectDigest"]
       end).

Definition cacheParts (packet : jsvalue) : CachePrefixParts :=
  let control := object_field "control" packet in
  mkParts
    (join_unit LF [u "role=CLOUD_EXECUTOR"; u "allowedResultKinds=submit_solution,request_context";
       u "forbidden=" ++ join_unit COMMA (texts_of "forbiddenCapabilities" control);
       u "resultSchema=" ++ string_field "resultSchemaObjectDigest" control])
    (JSON_stringify (obj [("submit", submit_schema); ("request", request_schema)]))
    (JSON_stringify (object_field "userScope" control))
    (join_unit LF (map (string_field "verbatimContent") (array_field "authoritativeInstructions" packet)))
    (join_unit LF (map (string_field "verbatimContent")
       (List.filter (fun item => has_text "loadPolicy" "mandatory" (object_field "descriptor" item)) (array_field "loadedSkills" packet))))
    (JSON_stringify (object_field "repositoryMap" packet))
    (join_unit LF (map (fun item => evidenceId_of item ++ u ":" ++
       objectDigestFromBytes (utf8_encode (payloadBody buffer_from_base64 item))) (array_field "evidencePayloads" packet))).

Definition digestText (text : ustr) : jsvalue := VStr (objectDigestFromBytes (utf8_encode text)).

Definition cacheIdentityDigest (projectId : ustr) (parts : CachePrefixParts) : result CompileErr Digest :=
  objectDigestOf (obj [("projectId", VStr projectId); ("controlProtocolDigest", digestText (controlProtocol parts));
    ("toolResultSchemasDigest", digestText (toolResultSchemas parts)); ("platformPolicyDigest", digestText (platformPolicy parts));
    ("effectiveInstructionsDigest", digestText (effectiveInstructions parts)); ("mandatorySkillsDigest", digestText (mandatorySkills parts));
    ("repositoryManifestsDigest", digestText (repositoryManifests parts)); ("taskSpecificEvidenceDigest", digestText (taskSpecificEvidence parts))]).

(** ** Egress *)

(** A source reference keeps its JSON. *)
Definition ref_of (v : jsvalue) : SourceRef jsvalue :=
  if has_text "origin" "repository" v then repository_ref (string_field "path" v) v
  else if has_text "origin" "external" v then external_ref (string_field "url" v) v else artifact_ref v.
Definition ref_json (r : SourceRef jsvalue) : jsvalue :=
  match r with repository_ref _ v | external_ref _ v | artifact_ref v => v end.

Definition redaction_json (r : Redaction (Detail := jsvalue)) : jsvalue :=
  obj [("marker", VStr (red_marker r)); ("findingType", VStr (finding_text (red_findingType r))); ("sourceRef", ref_json (red_sourceRef r))].

Definition egress_json (m : EgressManifest (Detail := jsvalue)) : jsvalue :=
  let p := m_provider m in
  obj ([("schemaVersion", VInt 1); ("runId", VStr (m_runId m)); ("snapshotId", VStr (m_snapshotId m));
        ("contextPacketObjectDigest", VStr (m_contextPacketObjectDigest m)); ("deploymentId", VStr (Egress.deploymentId p));
        ("adapterVersionObjectDigest", VStr (Egress.adapterVersionObjectDigest p)); ("endpointIdentity", VStr (Egress.endpointIdentity p));
        ("providerChain", VIds (Egress.providerChain p)); ("modelRevision", VStr (Egress.modelRevision p));
        ("retentionPolicyObjectDigest", VStr (Egress.retentionPolicyObjectDigest p));
        ("classification", VStr (classification_text (m_classification m))); ("sourceRefs", VArr (map ref_json (m_sourceRefs m)));
        ("redactions", VArr (map redaction_json (m_redactions m))); ("scannerVersions", VIds (m_scannerVersions m));
        ("compiledConversationObjectDigest", VStr (m_compiledConversationObjectDigest m)); ("expiresAt", VStr (m_expiresAt m))] ++
       match Egress.region p with Some r => [("region", VStr r)] | None => [] end).

(** ** Redaction of instructions and skills *)

Record RedactedInstructions := mkInstructions {
  ri_bodies : list jsvalue;
  ri_findings : list DlpFinding;
  ri_restricted : bool
}.

Definition redact_instruction (project : DataClassification) (item : jsvalue) : jsvalue * list DlpFinding * bool :=
  let '(text, fs, r) := redactVerbatim entropy_below (string_field "verbatimContent" item) project (sourcePathOf (object_field "sourceRef" item)) in
  (obj [("scope", object_field "scope" item); ("precedence", object_field "precedence" item); ("sourceRef", object_field "sourceRef" item);
        ("verbatimContent", VStr text)], fs, r).

Definition redact_skill (project : DataClassification) (item : jsvalue) : jsvalue * list DlpFinding * bool :=
  let descriptor := object_field "descriptor" item in
  let '(text, fs, r) := redactVerbatim entropy_below (string_field "verbatimContent" item) project (sourcePathOf (object_field "sourceRef" descriptor)) in
  (set_field "descriptor" (set_field "contentDigest" (VStr (skillContentDigest text)) descriptor) (set_field "verbatimContent" (VStr text) item), fs, r).

Definition redact_all (f : jsvalue -> jsvalue * list DlpFinding * bool) (items : list jsvalue) : RedactedInstructions :=
  let results := map f items in
  mkInstructions (map (fun r => r.1.1) results) (flat_map (fun r => r.1.2) results) (existsb (fun r => r.2) results).

Definition manifest_of_bodies (manifest : jsvalue) (bodies : list jsvalue) : jsvalue :=
  set_field "instructions" (VArr (imap (fun index descriptor =>
    match bodies !! index with
    | None => descriptor
    | Some body => set_field "contentDigest" (VStr (skillContentDigest (string_field "verbatimContent" body))) descriptor
    end) (array_field "instructions" manifest))) manifest.

Definition manifest_of_skills (manifest : jsvalue) (skills : list jsvalue) : jsvalue :=
  set_field "skills" (VArr (map (fun descriptor =>
    match array_find (fun item => bool_decide (string_field "skillId" item = id_of descriptor)) skills with
    | None => descriptor
    | Some loaded => set_field "contentDigest" (object_field "contentDigest" (object_field "descriptor" loaded)) descriptor
    end) (array_field "skills" manifest))) manifest.

Definition as_digest (value : ustr) : result CompileErr Digest := throw_if negb (isObjectDigest_units value) with thrown; Ok value.

(** ** Compilation *)

Definition kind_count (kinds : list string) (payloads : list jsvalue) : Z :=
  Z.of_nat (length (List.filter (fun item => existsb (fun k => has_text "kind" k (node_of item)) kinds) payloads)).

Definition reserved_output (i : CompilerInput) (payloads : list jsvalue) : result CompileErr Z :=
  let? tokens := evidence_tokens payloads (qd_tokenizerRevision (ci_deployment i)) in
  Ok (estimateReservedOutput (mkReserve (ci_purpose i) (Z.max 1 (kind_count ["file"] payloads)) (kind_count ["api-contract"; "schema"; "symbol"] payloads)
        (Z.of_nat (match ci_expectedOperationTypes i with Some ts => length ts | None => length (array_field "allowedChangeOperations" (ci_control i)) end))
        (bool_decide (ci_purpose i = purpose_repair)) 2048 (ci_historicalOutputTokens i) tokens)).

Definition tokenization_json (i : CompilerInput) (inputTokens reserved : Z) : jsvalue :=
  obj [("deploymentId", VStr (Egress.deploymentId (qd_provider (ci_deployment i)))); ("inputTokens", VInt inputTokens);
       ("reservedOutputTokens", VInt reserved); ("tokenizerRevision", VStr (qd_tokenizerRevision (ci_deployment i)))].

(** From the tokenized packet to the artifacts. *)
Definition seal_artifacts (i : CompilerInput) (packet : jsvalue) (parts : CachePrefixParts) (dlp : list DlpFinding) (omitted : list OmittedEvidence)
    : result CompileErr CompilationOutcome :=
  let prefix := buildStableCachePrefix parts in
  let? packetEnvelope := signArtifactEnvelope "ContextPacket" packet (ci_signer i) in
  let? packetDigest := envelopeDigestOf packetEnvelope in
  let? resultSchema := as_digest (string_field "resultSchemaObjectDigest" (ci_control i)) in
  let? binding := buildRequestBinding i packetDigest resultSchema in
  let? bindingJson := toJsonValue binding in
  let? bindingDigest := digest_result (taggedHash "cloud-request-binding" 1 (obj [("requestBinding", bindingJson)])) in
  let? conversation := compileConversation buffer_from_base64 submit_schema request_schema packet binding bindingDigest
    (if bool_decide (prefix = []) then u "cloud-executor" else prefix) in
  let? conversationEnvelope := unsignedEnvelope "CompiledCloudConversation" conversation in
  let? conversationDigest := envelopeDigestOf conversationEnvelope in
  let? bytes := conversationBytes conversation in
  match buildEgressManifest entropy_below (Egress.mkInput (ci_runId i) (ci_snapshotId i) packetDigest conversationDigest bytes
          (map ref_of (collectSourceRefs packet)) None (qd_provider (ci_deployment i)) (ci_policy i) (ci_expiresAt i)
          (ci_intendedPatchPaths i) (Some dlp)) with
  | Egress.waiting _ _ => Ok (outcome_waiting WAITING_CLOUD_ELIGIBILITY)
  | Egress.rejected _ => Ok (failed EGRESS_REJECTED)
  | Egress.manifest m _ =>
      let egress := egress_json m in
      let? egressEnvelope := unsignedEnvelope "EgressManifest" egress in
      let? egressDigest := envelopeDigestOf egressEnvelope in
      let canonical := buildCanonical (ci_purpose i) binding bindingDigest egressDigest conversationDigest (qd_maxOutputTokens (ci_deployment i)) in
      let? canonicalEnvelope := signArtifactEnvelope "CanonicalCloudRequest" canonical (ci_signer i) in
      let? identity := cacheIdentityDigest (ci_projectId i) parts in
      Ok (compiled (mkArtifacts packet packetEnvelope binding bindingDigest conversation conversationEnvelope egress egressEnvelope
            canonical canonicalEnvelope prefix identity omitted))
  end.

(** From the selected bundles to the tokenized packet. *)
Definition compile_packet (i : CompilerInput) (payloads bodies skills : list jsvalue) (dlp : list DlpFinding) (reserved : Z)
    (bundles : list jsvalue) (omitted : list OmittedEvidence) : result CompileErr CompilationOutcome :=
  let? packet := buildContextPacket buffer_from_base64 PACKET_Check
    (mkPacketInput (ci_runId i) (ci_snapshotId i) (ci_snapshotRootDigest i) (ci_control i) (ci_requirementLedger i)
       (manifest_of_bodies (ci_instructionManifest i) bodies) (manifest_of_skills (ci_skillManifest i) skills) bodies skills (ci_graph i)
       bundles (Some (ci_bundles i)) payloads (ci_verificationCapabilities i) omitted (tokenization_json i 0 reserved)) in
  if negb (bool_decide (array_field "criticalOmissions" (object_field "omissionManifest" packet) = [])) then Ok (failed CRITICAL_OMISSION) else
  let parts := cacheParts packet in
  let prefix := buildStableCachePrefix parts in
  if prefixContainsRunId prefix (ci_runId i) then Ok (failed CACHE_PREFIX) else
  let? sections := serializePacketSections buffer_from_base64 packet true in
  let? inputTokens := countTokens pretokens (prefix ++ [LF] ++ sections) (qd_tokenizerRevision (ci_deployment i)) in
  let tokenized := set_field "tokenization" (set_field "inputTokens" (VInt inputTokens) (object_field "tokenization" packet)) packet in
  let? _ := assertPacketClosure buffer_from_base64 PACKET_Check tokenized (ci_graph i) in
  let? _ := assertPacketByteClosure buffer_from_base64 PACKET_Check tokenized (ci_graph i) in
  match evaluateCapacity (ci_purpose i) inputTokens reserved (qd_contextLimitTokens (ci_deployment i)) (qd_maxOutputTokens (ci_deployment i)) with
  | Some state => Ok (outcome_waiting (waiting_capacity state))
  | None => seal_artifacts i tokenized parts dlp omitted
  end.

Definition compile_body (i : CompilerInput) : result CompileErr CompilationOutcome :=
  if negb (bool_decide (string_field "runId" (ci_control i) = ci_runId i)) then Ok (failed RUN_MISMATCH) else
  let revision := qd_tokenizerRevision (ci_deployment i) in
  let project := projectClassification (ci_policy i) in
  let? _ := countTokens pretokens (u "probe") revision in
  let? redaction := redactPayloads entropy_below buffer_from_base64 (ci_payloads i) project (default [] (ci_intendedPatchPaths i)) in
  match redaction with
  | PATCH_DEPENDS_ON_REDACTED => Ok (failed PATCH_ON_REDACTED)
  | redact_ok redacted =>
      let instructions := redact_all (redact_instruction project) (ci_authoritativeInstructions i) in
      let skills := redact_all (redact_skill project) (ci_loadedSkills i) in
      let dlp := rd_findings redacted ++ ri_findings instructions ++ ri_findings skills in
      if (rd_restricted redacted || ri_restricted instructions || ri_restricted skills) &&
         (negb (noEgressCloudRoleAvailable (ci_policy i)) || isPublicCloudExecutor (qd_provider (ci_deployment i)))
      then Ok (outcome_waiting WAITING_CLOUD_ELIGIBILITY)
      else
        let? reserved := reserved_output i (rd_payloads redacted) in
        let budget := Z.max 1 (qd_contextLimitTokens (ci_deployment i) - reserved) in
        let? selected := from_select (selectBundles (estimateBundleTokens (rd_payloads redacted) revision) (ci_graph i) (ci_requirementLedger i) budget (ci_bundles i)) in
        match selected with
        | capacity _ => Ok (outcome_waiting (waiting_capacity (capacityStatesFor (ci_purpose i)).1))
        | selection bundles omitted => compile_packet i (rd_payloads redacted) (ri_bodies instructions) (ri_bodies skills) dlp reserved bundles omitted
        end
  end.

(** The [try] around the body turns what is thrown into a failure. *)
Definition compileCloudContext (i : CompilerInput) : CompilationOutcome :=
  match compile_body i with
  | Ok outcome => outcome
  | Err unknown_tokenizer => failed UNKNOWN_TOKENIZER
  | Err (failure c) => failed (CODE c)
  | Err thrown => failed COMPILE
  end.
End Compiler.
