(* ===== verification/ContextTheorems.v ===== *)
(** Theorems about the compiled context of a cloud call: what a packet that is sent contains, and how
    the request is tied to it. *)

From Stdlib Require Import String.
From S2P Require Import Prelude JsText CanonicalJson JsJson Digest Classification Egress CloudStore Usage CloudWire CloudCalls ContextSelect ContextSelectTheorems ContextPacket ContextCompiler.
Open Scope string_scope.
Open Scope list_scope.

(** ** Fields *)

Section Fields.
Context {DD : Doubles}.

Lemma object_field_set k k' v o : u k <> u k' -> object_field k (set_field k' v o) = object_field k o.
Proof. intros Hk. destruct o; try done. cbn [set_field object_field]. rewrite JsMap.get_set. by rewrite decide_False. Qed.

Lemma array_field_set k k' v o : u k <> u k' -> array_field k (set_field k' v o) = array_field k o.
Proof. intros Hk. unfold array_field. by rewrite object_field_set. Qed.

Lemma texts_of_set k k' v o : u k <> u k' -> texts_of k (set_field k' v o) = texts_of k o.
Proof. intros Hk. unfold texts_of. by rewrite array_field_set. Qed.

Lemma map_by_get key items i x : JsMap.get i (map_by key items) = Some x -> x ∈ items /\ key x = i.
Proof.
  unfold map_by. induction items as [|y items IH] using rev_ind; [done|]. rewrite foldl_app. cbn [foldl]. rewrite JsMap.get_set, elem_of_app.
  case_decide as Hd; [|by intros [? ?]%IH; auto]. intros [= <-]. split; [right; by left | done].
Qed.

Lemma map_by_has key items i : JsMap.has i (map_by key items) = true -> exists x, x ∈ items /\ key x = i.
Proof.
  rewrite JsMap.has_true. intros H. destruct (JsMap.get i (map_by key items)) as [x|] eqn:E.
  - exists x. by eapply map_by_get.
  - by apply JsMap.get_none in E.
Qed.
End Fields.

(** ** Throwing loops that only check *)

Lemma reach_ok {A} (f : A -> result CompileErr unit) xs r x : reach f xs = Ok r -> x ∈ xs -> f x = Ok tt.
Proof.
  unfold reach. generalize tt at 1. induction xs as [|y xs IH]; intros s; cbn [rfold]; [by intros _ ?%not_elem_of_nil|].
  intros H. apply rbind_ok in H as ([] & Hy & H). rewrite elem_of_cons. intros [->|Hx]; [done | by eapply IH].
Qed.

Section Context.
Context {DD : Doubles} {FF : FloatValues} {HH : Hashing}.
Variable entropy_below : ustr -> Z -> bool.
Variable pretokens : ustr -> list ustr.
Variable buffer_from_base64 : ustr -> bytes.
Variable PACKET_Check : jsvalue -> bool.
Variables submit_schema request_schema : jsvalue.

Notation body_of := (payloadBody buffer_from_base64).
Notation closure := (assertPacketClosure buffer_from_base64 PACKET_Check).

(** ** The specification of evidence that may be sent *)

Definition model_authored (node : jsvalue) : bool := has_text "authorship" "LOCAL_MODEL" node || has_text "authorship" "CLOUD_MODEL" node.

(** The evidence carries its content, and a deterministic source stands behind it. *)
Record inline_evidence (payload : jsvalue) : Prop := {
  ie_body : body_of payload <> [];
  ie_not_digest : isDigestOnlyText (body_of payload) = false;
  ie_sources : forall s, s ∈ array_field "sources" payload -> is_digest_source s = false;
  ie_author : model_authored (node_of payload) = false;
  ie_reproduced : string_field "kind" (node_of payload) ∈ STRUCTURAL_KINDS \/
    array_field "provenance" (node_of payload) <> [] /\ has_text "directness" "model-derived" (trust_of (node_of payload)) = false
}.

Record closed_packet (packet : jsvalue) : Prop := {
  cl_nodes : forall b n, b ∈ array_field "bundles" packet -> n ∈ nodeIds b ->
    exists p, p ∈ array_field "evidencePayloads" packet /\ evidenceId_of p = n /\ inline_evidence p;
  cl_edges : forall b e, b ∈ array_field "bundles" packet -> e ∈ edgeIds b ->
    exists r, r ∈ array_field "relations" packet /\ id_of r = e;
  cl_facts : forall n, n ∈ fact_ids packet ->
    exists p, p ∈ array_field "evidencePayloads" packet /\ evidenceId_of p = n /\ inline_evidence p;
  cl_instructions : Forall2 (fun d b => string_field "contentDigest" d = skillContentDigest (string_field "verbatimContent" b))
    (array_field "instructions" (object_field "instructionManifest" packet)) (array_field "authoritativeInstructions" packet);
  cl_skills : forall d, d ∈ array_field "skills" (object_field "skillManifest" packet) -> has_text "loadPolicy" "mandatory" d = true ->
    exists s, s ∈ array_field "loadedSkills" packet /\ string_field "skillId" s = id_of d /\
      isDigestOnlyText (string_field "verbatimContent" s) = false /\
      string_field "contentDigest" d = skillContentDigest (string_field "verbatimContent" s);
  cl_request : string_field "originalRequest" (object_field "requirementLedger" packet) <> []
}.

Lemma assert_payload_ok payloads n : assert_payload buffer_from_base64 (map_by evidenceId_of payloads) n = Ok tt ->
  exists p, p ∈ payloads /\ evidenceId_of p = n /\ inline_evidence p.
Proof.
  unfold assert_payload. destruct (JsMap.get n _) as [p|] eqn:E; [|done]. apply map_by_get in E as [Hp Hn]. intros H.
  apply rbind_ok in H as ([] & Hbody & Hrep). exists p. split; [done|]. split; [done|].
  unfold assertInlineBody in Hbody. inv_ok. unfold assertIndependentlyReproduced in Hrep. apply rbind_ok in Hrep as ([] & Ha & Hr).
  unfold assertNotLocalModel in Ha. inv_ok. split; try done.
  - intros H0. by rewrite bool_decide_eq_false in Hb.
  - intros s Hs. destruct (is_digest_source s) eqn:E; [|done]. rewrite <- not_true_iff_false, existsb_exists in Hb0. destruct Hb0. exists s.
    by rewrite <- list_elem_of_In.
  - destruct (includes _ STRUCTURAL_KINDS) eqn:E; [left; by apply includes_true|]. right. inv_ok. split; [|done].
    by apply bool_decide_eq_false in Hb3.
Qed.

Lemma zip_ok (ds bs : list jsvalue) : length ds = length bs -> (forall p, p ∈ zip ds bs -> assert_instruction p = Ok tt) ->
  Forall2 (fun d b => string_field "contentDigest" d = skillContentDigest (string_field "verbatimContent" b)) ds bs.
Proof.
  revert bs. induction ds as [|d ds IH]; intros [|b bs] Hl H; try done; constructor; [|apply IH; [by injection Hl|]; intros p Hp; apply H; by right].
  specialize (H (d, b) ltac:(by left)). unfold assert_instruction in H. inv_ok. by rewrite negb_false_iff, bool_decide_eq_true in Hb0.
Qed.

Lemma closure_closed packet graph : closure packet graph = Ok tt -> closed_packet packet.
Proof.
  unfold assertPacketClosure. intros H. do 3 (destruct (negb _) in H; [done|]). apply rbind_ok in H as ([] & Hb & H).
  apply rbind_ok in H as ([] & Hf & H). apply rbind_ok in H as ([] & _ & H). destruct (negb _) eqn:El in H; [done|].
  apply rbind_ok in H as ([] & Hi & H). apply rbind_ok in H as ([] & Hs & H). apply rbind_ok in H as ([] & _ & H).
  destruct (bool_decide _) eqn:Er in H; [done|]. split.
  - intros b n Hb' Hn. apply (reach_ok _ _ _ _ Hb) in Hb'. apply rbind_ok in Hb' as ([] & Hp & _). eapply assert_payload_ok, reach_ok; done.
  - intros b e Hb' He. apply (reach_ok _ _ _ _ Hb) in Hb'. apply rbind_ok in Hb' as ([] & _ & Hp). apply (reach_ok _ _ _ _ Hp) in He.
    unfold assert_relation in He. inv_ok. apply negb_false_iff in Hb0. by apply map_by_has.
  - intros n Hn. by eapply assert_payload_ok, reach_ok.
  - apply zip_ok; [by apply negb_false_iff, Nat.eqb_eq in El|]. intros p Hp. by eapply reach_ok.
  - intros d Hd Hm. apply (reach_ok _ _ _ _ Hs) in Hd. unfold assert_mandatory_skill in Hd. rewrite Hm in Hd. cbn [negb] in Hd.
    destruct (JsMap.get _ _) as [s|] eqn:E; [|done]. apply map_by_get in E as [Hin Hid]. inv_ok. exists s. split_and!; try done.
    by rewrite negb_false_iff, bool_decide_eq_true in Hb1.
  - by apply bool_decide_eq_false in Er.
Qed.

(** ** The packet as built *)

Lemma collect_relations_sub graph bundles relations r : collect_relations graph bundles = Ok relations -> r ∈ relations -> r ∈ graph_edges graph.
Proof.
  unfold collect_relations. intros H. apply rbind_ok in H as (rs & Hrs & H). injection H as <-. rewrite elem_of_sort_by. revert Hrs.
  apply (rfold_ind (fun rs => r ∈ rs -> r ∈ graph_edges graph)); [|by intros ?%not_elem_of_nil]. intros rs0 e rs1 _ IH. unfold add_relation.
  destruct (JsMap.get e _) as [edge|] eqn:E; [|done]. apply map_by_get in E as [He _]. intros [= <-]. destruct (includes _ _); [done|].
  rewrite elem_of_app, list_elem_of_singleton. intros [?| ->]; auto.
Qed.

(** Payloads that were admitted into a packet. *)
Definition admitted (all : list jsvalue) (p : jsvalue) : Prop := p ∈ all /\ model_authored (node_of p) = false /\ body_of p <> [].

Lemma admit_ok all p : p ∈ all -> assertNotLocalModel (node_of p) = Ok tt -> assertInlineBody buffer_from_base64 p = Ok tt -> admitted all p.
Proof.
  unfold assertNotLocalModel, assertInlineBody. intros Hp Ha Hb. inv_ok. split_and!; try done. by apply bool_decide_eq_false in Hb0.
Qed.

Lemma admitted_snoc all kept p : Forall (admitted all) kept -> admitted all p -> Forall (admitted all) (kept ++ [p]).
Proof. intros. apply Forall_app. split; [done | by constructor]. Qed.

Lemma kept_admitted ids all kept : rfold (keep_payload buffer_from_base64 ids) [] all = Ok kept -> Forall (admitted all) kept.
Proof.
  apply (rfold_ind (Forall (admitted all))); [|constructor]. intros kept0 p kept1 Hp Hk. unfold keep_payload. destruct (negb _); [by intros [= <-]|].
  intros H. apply rbind_ok in H as ([] & Ha & H). apply rbind_ok in H as ([] & Hb & [= <-]). by apply admitted_snoc, admit_ok.
Qed.

Lemma array_find_elem {A} (q : A -> bool) xs x : array_find q xs = Some x -> x ∈ xs.
Proof. induction xs as [|y xs IH]; cbn; [done|]. destruct (q y); [intros [= ->]; by left|]. intros ?%IH. by right. Qed.

Lemma extra_admitted all ids kept kept' : Forall (admitted all) kept -> rfold (add_extra buffer_from_base64 all) kept ids = Ok kept' ->
  Forall (admitted all) kept'.
Proof.
  intros Hk. apply (rfold_ind (Forall (admitted all))); [|done]. intros kept0 p kept1 _ IH. unfold add_extra. destruct (includes _ _); [by intros [= <-]|].
  destruct (array_find _ all) as [x|] eqn:E; [|done]. apply array_find_elem in E. intros H.
  apply rbind_ok in H as ([] & Ha & H). apply rbind_ok in H as ([] & Hb & [= <-]). by apply admitted_snoc, admit_ok.
Qed.

Notation packet_of := (buildContextPacket buffer_from_base64 PACKET_Check).

(** The parts of a packet that the theorems speak of. *)
Record built (b : PacketBuildInput) (packet : jsvalue) : Prop := {
  bt_bundles : array_field "bundles" packet = pb_bundles b;
  bt_payloads : Forall (admitted (pb_payloads b)) (array_field "evidencePayloads" packet);
  bt_relations : forall r, r ∈ array_field "relations" packet -> r ∈ graph_edges (pb_graph b);
  bt_critical : array_field "criticalOmissions" (object_field "omissionManifest" packet) =
    map omission_json (criticalOmissionEntries (pb_omitted b) (default (pb_bundles b) (pb_candidateBundles b)) (pb_graph b));
  bt_tokenization : object_field "tokenization" packet = pb_tokenization b;
  bt_instructions : array_field "authoritativeInstructions" packet = pb_authoritativeInstructions b;
  bt_skills : array_field "loadedSkills" packet = pb_loadedSkills b;
  bt_fields : exists fs, packet = VObj fs
}.

Lemma buildContextPacket_built b packet : packet_of b = Ok packet -> built b packet.
Proof.
  unfold buildContextPacket. intros H. do 8 (apply rbind_ok in H as (? & ? & H)). apply rbind_ok in H as ([] & _ & H). apply rbind_ok in H as ([] & _ & H).
  injection H as <-. split; try reflexivity; [| |by eexists].
  - change (array_field "evidencePayloads" _) with (sort_by payload_leb x2). apply Forall_forall. intros p. rewrite elem_of_sort_by. revert p.
    apply Forall_forall. eapply extra_admitted; [by eapply kept_admitted | done].
  - intros r. change (array_field "relations" _) with x. by apply collect_relations_sub with (pb_bundles b).
Qed.

(** ** Nothing critical is left out *)

Lemma critical_none omitted bundles graph b i : criticalOmissionEntries omitted bundles graph = [] ->
  b ∈ bundles -> isNeverOmitBundle b graph = true -> i ∈ nodeIds b -> mkOmitted i untrusted ∉ omitted.
Proof.
  unfold criticalOmissionEntries. set (ids := flat_map _ _). intros Hnil Hb Hn Hi Hin.
  assert (mkOmitted i untrusted ∈ []) as ?%not_elem_of_nil; [|done]. rewrite <- Hnil, elem_of_sort_omitted, elem_of_List_filter. split; [done|].
  cbn [om_evidenceId om_reason]. rewrite bool_decide_true, andb_true_r by done. apply includes_true. subst ids. apply list_elem_of_In, in_flat_map.
  exists b. split; [|by apply list_elem_of_In]. apply filter_In. split; [by apply list_elem_of_In | done].
Qed.

(** A node that makes one bundle untrusted makes every bundle with it untrusted. *)
Lemma untrusted_shared b graph : isUntrusted b graph = true ->
  exists i, i ∈ nodeIds b /\ forall b', i ∈ nodeIds b' -> isUntrusted b' graph = true.
Proof.
  unfold isUntrusted. intros (node & Hn & Hu)%existsb_exists. apply list_elem_of_In in Hn. unfold nodesOf in Hn.
  apply list_elem_of_omap in Hn as (i & Hi & Hget). exists i. split; [done|]. intros b' Hb'. apply existsb_exists. exists node. split; [|done].
  apply list_elem_of_In. unfold nodesOf. apply list_elem_of_omap. by exists i.
Qed.

Lemma never_omitted {E} (estimate : jsvalue -> result E Z) graph ledger budget bundles sel om b :
  selectBundles estimate graph ledger budget bundles = Ok (selection sel om) -> criticalOmissionEntries om bundles graph = [] ->
  b ∈ bundles -> isNeverOmitBundle b graph = true -> b ∈ sel.
Proof.
  intros Hsel Hc Hb Hn. destruct (selectBundles_settled _ _ _ _ _ _ _ Hsel) as (st & Hst & -> & ->).
  destruct (sd_kept _ _ _ _ _ Hst b Hb Hn) as [?|[Hu Hall]]; [done|]. exfalso. destruct (untrusted_shared b graph Hu) as (i & Hi & Hshared).
  assert (Hni : i ∉ ss_selectedIds st).
  { intros Hin. apply (sd_ids _ _ _ _ _ Hst) in Hin as (b' & Hb' & Hi'). pose proof (sd_trusted _ _ _ _ _ Hst) as Ht. rewrite Forall_forall in Ht.
    specialize (Ht b' Hb'). rewrite (Hshared b' Hi') in Ht. done. }
  destruct (Hall i Hi) as [?|Hom]; [done|]. apply (critical_none _ _ _ b i Hc Hb Hn Hi). apply (unique_omitted_spec estimate graph).
  rewrite elem_of_sort_omitted. split_and!; [done | done | by intros ?%not_elem_of_nil].
Qed.

(** ** The stages of a compilation *)

Notation compile := (compileCloudContext entropy_below pretokens buffer_from_base64 PACKET_Check submit_schema request_schema).
Notation seal_stage := (seal_artifacts entropy_below buffer_from_base64 submit_schema request_schema).
Notation packet_stage := (compile_packet entropy_below pretokens buffer_from_base64 PACKET_Check submit_schema request_schema).

Definition project_of (i : CompilerInput) : DataClassification := projectClassification (ci_policy i).
Definition redacted_instructions (i : CompilerInput) : RedactedInstructions :=
  redact_all (redact_instruction entropy_below (project_of i)) (ci_authoritativeInstructions i).
Definition redacted_skills (i : CompilerInput) : RedactedInstructions := redact_all (redact_skill entropy_below (project_of i)) (ci_loadedSkills i).

(** A restricted text in any part of the input. *)
Definition restricted_part (i : CompilerInput) (redacted : Redacted) : bool :=
  rd_restricted redacted || ri_restricted (redacted_instructions i) || ri_restricted (redacted_skills i).

Definition packet_input (i : CompilerInput) (redacted : Redacted) (reserved : Z) (bundles : list jsvalue) (omitted : list OmittedEvidence) : PacketBuildInput :=
  let bodies := ri_bodies (redacted_instructions i) in
  let skills := ri_bodies (redacted_skills i) in
  mkPacketInput (ci_runId i) (ci_snapshotId i) (ci_snapshotRootDigest i) (ci_control i) (ci_requirementLedger i)
    (manifest_of_bodies (ci_instructionManifest i) bodies) (manifest_of_skills (ci_skillManifest i) skills) bodies skills (ci_graph i)
    bundles (Some (ci_bundles i)) (rd_payloads redacted) (ci_verificationCapabilities i) omitted (tokenization_json i 0 reserved).

(** The values a compilation that succeeds passes through. *)
Record compilation (i : CompilerInput) (art : CompiledCloudArtifacts) (redacted : Redacted) (reserved inputTokens : Z)
    (bundles : list jsvalue) (omitted : list OmittedEvidence) (packet : jsvalue) (sections : ustr) : Prop := {
  cp_redacted : redactPayloads entropy_below buffer_from_base64 (ci_payloads i) (project_of i) (default [] (ci_intendedPatchPaths i)) =
    Ok (redact_ok redacted);
  cp_egress : restricted_part i redacted = true ->
    noEgressCloudRoleAvailable (ci_policy i) = true /\ isPublicCloudExecutor (qd_provider (ci_deployment i)) = false;
  cp_reserved : reserved_output pretokens i (rd_payloads redacted) = Ok reserved;
  cp_selected : selectBundles (estimateBundleTokens pretokens (rd_payloads redacted) (qd_tokenizerRevision (ci_deployment i))) (ci_graph i)
    (ci_requirementLedger i) (Z.max 1 (qd_contextLimitTokens (ci_deployment i) - reserved)) (ci_bundles i) = Ok (selection bundles omitted);
  cp_packet : packet_of (packet_input i redacted reserved bundles omitted) = Ok packet;
  cp_critical : array_field "criticalOmissions" (object_field "omissionManifest" packet) = [];
  cp_prefix : prefixContainsRunId (buildStableCachePrefix (cacheParts buffer_from_base64 submit_schema request_schema packet)) (ci_runId i) = false;
  cp_sections : serializePacketSections buffer_from_base64 packet true = Ok sections;
  cp_tokens : countTokens pretokens (buildStableCachePrefix (cacheParts buffer_from_base64 submit_schema request_schema packet) ++ [LF] ++ sections)
    (qd_tokenizerRevision (ci_deployment i)) = Ok inputTokens;
  cp_closed : closure (set_field "tokenization" (set_field "inputTokens" (VInt inputTokens) (object_field "tokenization" packet)) packet) (ci_graph i) = Ok tt;
  cp_capacity : evaluateCapacity (ci_purpose i) inputTokens reserved (qd_contextLimitTokens (ci_deployment i)) (qd_maxOutputTokens (ci_deployment i)) = None;
  cp_seal : seal_stage i (set_field "tokenization" (set_field "inputTokens" (VInt inputTokens) (object_field "tokenization" packet)) packet)
    (cacheParts buffer_from_base64 submit_schema request_schema packet)
    (rd_findings redacted ++ ri_findings (redacted_instructions i) ++ ri_findings (redacted_skills i)) omitted = Ok (compiled art)
}.

Lemma from_select_ok {A} (r : result (SelectErr CompileErr) A) a : from_select r = Ok a -> r = Ok a.
Proof. by destruct r as [|[]]; cbn; [intros [= ->]| |]. Qed.

Lemma compilation_of i art : compile i = compiled art ->
  exists redacted reserved inputTokens bundles omitted packet sections,
    compilation i art redacted reserved inputTokens bundles omitted packet sections.
Proof.
  unfold compileCloudContext. destruct (compile_body _ _ _ _ _ _ i) as [out|[]] eqn:E; try done. intros ->. revert E. unfold compile_body.
  destruct (negb _); [done|]. intros H. apply rbind_ok in H as (probe & _ & H). apply rbind_ok in H as ([redacted|] & Hred & H); [|done].
  fold (project_of i) in *. fold (redacted_instructions i) in H. fold (redacted_skills i) in H. fold (restricted_part i redacted) in H.
  destruct (restricted_part i redacted && _) eqn:Er; [done|]. apply rbind_ok in H as (reserved & Hres & H).
  apply rbind_ok in H as ([bundles omitted|] & Hsel%from_select_ok & H); [|done]. unfold compile_packet in H.
  apply rbind_ok in H as (packet & Hp & H). destruct (negb _) eqn:Ec in H; [done|]. destruct (prefixContainsRunId _ _) eqn:Epre; [done|].
  apply rbind_ok in H as (sections & Hs & H). apply rbind_ok in H as (inputTokens & Ht & H). apply rbind_ok in H as ([] & Hcl & H).
  apply rbind_ok in H as ([] & _ & H). destruct (evaluateCapacity _ _ _ _ _) eqn:Ecap; [done|].
  exists redacted, reserved, inputTokens, bundles, omitted, packet, sections. split; try done.
  - intros Hr. rewrite Hr in Er. cbn [andb] in Er. apply orb_false_iff in Er as [H1 H2]. by rewrite negb_false_iff in H1.
  - by rewrite negb_false_iff, bool_decide_eq_true in Ec.
Qed.

(** ** The sealed artifacts *)

(** The request names the artifacts it was built with. *)
Record request_bound (i : CompilerInput) (art : CompiledCloudArtifacts) : Prop := {
  rb_packet : payload (ca_packetEnvelope art) = ca_packet art /\
    envelopeDigestOf (ca_packetEnvelope art) = Ok (string_field "contextPacketObjectDigest" (ca_canonical art));
  rb_conversation : payload (ca_conversationEnvelope art) = ca_conversation art /\
    envelopeDigestOf (ca_conversationEnvelope art) = Ok (string_field "compiledConversationObjectDigest" (ca_canonical art));
  rb_egress : payload (ca_egressEnvelope art) = ca_egress art /\
    envelopeDigestOf (ca_egressEnvelope art) = Ok (string_field "egressManifestObjectDigest" (ca_canonical art));
  rb_canonical : payload (ca_canonicalEnvelope art) = ca_canonical art;
  rb_binding : object_field "requestBinding" (ca_canonical art) = ca_requestBinding art /\
    object_field "requestBinding" (ca_conversation art) = ca_requestBinding art;
  rb_bindingDigest : string_field "requestBindingDigest" (ca_canonical art) = ca_requestBindingDigest art /\
    string_field "requestBindingDigest" (ca_conversation art) = ca_requestBindingDigest art /\
    exists json, toJsonValue (ca_requestBinding art) = Ok json /\
      taggedHash "cloud-request-binding" 1 (obj [("requestBinding", json)]) = Ok (ca_requestBindingDigest art);
  rb_manifest : exists m fs dlp bytes, ca_egress art = egress_json m /\ conversationBytes (ca_conversation art) = Ok bytes /\
    buildEgressManifest entropy_below (Egress.mkInput (ci_runId i) (ci_snapshotId i) (string_field "contextPacketObjectDigest" (ca_canonical art))
      (string_field "compiledConversationObjectDigest" (ca_canonical art)) bytes (map ref_of (collectSourceRefs (ca_packet art))) None
      (qd_provider (ci_deployment i)) (ci_policy i) (ci_expiresAt i) (ci_intendedPatchPaths i) (Some dlp)) = Egress.manifest m fs /\
    policyAllows (m_classification m) (ci_policy i) = true
}.

Lemma manifest_permitted {Detail} (input : EgressScanInput (Detail := Detail)) m fs :
  buildEgressManifest entropy_below input = Egress.manifest m fs -> policyAllows (m_classification m) (policy input) = true.
Proof.
  unfold buildEgressManifest. destruct (intendedPatchDependsOnRedacted _ _); [done|]. destruct (_ && _); [done|].
  destruct (if bool_decide _ then _ else _) as [class|]; [|done]. destruct (negb (policyAllows class _)) eqn:E; [done|].
  intros [= <- <-]. by apply negb_false_iff in E.
Qed.

Lemma sign_payload schema p s e : signArtifactEnvelope schema p s = Ok e -> payload e = p.
Proof. unfold signArtifactEnvelope. intros H. do 3 (apply rbind_ok in H as (? & _ & H)). by injection H as <-. Qed.

Lemma unsigned_payload schema p e : unsignedEnvelope schema p = Ok e -> payload e = p.
Proof. unfold unsignedEnvelope. intros H. do 2 (apply rbind_ok in H as (? & _ & H)). by injection H as <-. Qed.

(** The members of a binding that the request copies. *)
Lemma binding_packet i packetDigest schema binding : buildRequestBinding i packetDigest schema = Ok binding ->
  object_field "contextPacketObjectDigest" binding = VStr packetDigest.
Proof.
  unfold buildRequestBinding. destruct (ci_purpose i); [by intros [= <-]| |].
  - destruct (ci_parentCloudCallId i), (ci_contextDeltaObjectDigest i); try done. by intros [= <-].
  - destruct (ci_parentCloudCallId i), (ci_repairPacketObjectDigest i), (ci_priorCandidateManifestObjectDigest i); try done. by intros [= <-].
Qed.

Lemma canonical_packet purpose binding bd ed cd mx d : object_field "contextPacketObjectDigest" binding = VStr d ->
  string_field "contextPacketObjectDigest" (buildCanonical purpose binding bd ed cd mx) = d.
Proof. intros H. unfold buildCanonical. rewrite H. by destruct purpose. Qed.

Lemma prefix_nonempty parts : buildStableCachePrefix parts <> [].
Proof. done. Qed.

Lemma sections_nonempty packet f text : serializePacketSections buffer_from_base64 packet f = Ok text -> text <> [].
Proof. unfold serializePacketSections. intros H. apply rbind_ok in H as (sections & _ & H). by injection H as <-. Qed.

(** What the conversation says. *)
Lemma conversation_text packet binding d prompt conversation :
  compileConversation buffer_from_base64 submit_schema request_schema packet binding d prompt = Ok conversation ->
  exists text, serializePacketSections buffer_from_base64 packet true = Ok text /\ string_field "systemPrompt" conversation = prompt /\
    map messageText (array_field "messages" conversation) = [text] /\ object_field "requestBinding" conversation = binding /\
    string_field "requestBindingDigest" conversation = d.
Proof.
  unfold compileConversation. intros H. apply rbind_ok in H as (text & Ht & H). apply rbind_ok in H as (? & _ & H).
  apply rbind_ok in H as (? & _ & H). injection H as <-. exists text. split_and!; try done. rewrite bool_decide_false by by eapply sections_nonempty.
  reflexivity.
Qed.

(** The fields of the sealed artifacts. *)
Lemma seal_bound i packet parts dlp omitted art : seal_stage i packet parts dlp omitted = Ok (compiled art) ->
  ca_packet art = packet /\ ca_cachePrefix art = buildStableCachePrefix parts /\ request_bound i art /\
  exists text, serializePacketSections buffer_from_base64 packet true = Ok text /\
    string_field "systemPrompt" (ca_conversation art) = ca_cachePrefix art /\ map messageText (array_field "messages" (ca_conversation art)) = [text].
Proof.
  unfold seal_artifacts. intros H. apply rbind_ok in H as (pe & Hpe & H). apply rbind_ok in H as (pd & Hpd & H).
  apply rbind_ok in H as (schema & _ & H). apply rbind_ok in H as (binding & Hb & H). apply rbind_ok in H as (json & Hj & H).
  apply rbind_ok in H as (bd & Hbd & H). rewrite bool_decide_false in H by apply prefix_nonempty. apply rbind_ok in H as (conv & Hconv & H).
  apply rbind_ok in H as (ce & Hce & H). apply rbind_ok in H as (cd & Hcd & H). apply rbind_ok in H as (bytes & Hbytes & H).
  destruct (buildEgressManifest _ _) as [m fs| |] eqn:Em; [|done|done]. apply rbind_ok in H as (ee & Hee & H). apply rbind_ok in H as (ed & Hed & H).
  apply rbind_ok in H as (ke & Hke & H). apply rbind_ok in H as (identity & _ & H). apply (inj Ok) in H. injection H as <-.
  pose proof (binding_packet _ _ _ _ Hb) as Hbp. pose proof (conversation_text _ _ _ _ _ Hconv) as (text & Ht & Hsys & Hmsg & Hcb & Hcbd).
  cbn [ca_packet ca_cachePrefix]. split_and!; [done | done | | by exists text].
  split; cbn [ca_packet ca_packetEnvelope ca_requestBinding ca_requestBindingDigest ca_conversation ca_conversationEnvelope ca_egress ca_egressEnvelope
              ca_canonical ca_canonicalEnvelope].
  - split; [by eapply sign_payload|]. by rewrite (canonical_packet _ _ _ _ _ _ _ Hbp).
  - split; [by eapply unsigned_payload|]. by rewrite Hcd.
  - split; [by eapply unsigned_payload|]. by rewrite Hed.
  - by eapply sign_payload.
  - done.
  - split_and!; [done | done|]. exists json. split; [done|]. unfold digest_result in Hbd. by destruct (taggedHash _ _ _) as [t|]; [injection Hbd as <-|].
  - exists m, fs, dlp, bytes. split_and!; [done | done | by rewrite (canonical_packet _ _ _ _ _ _ _ Hbp) | by apply manifest_permitted in Em].
Qed.

(** Setting the token counts does not change the text of a packet. *)
Lemma sections_tokenized v packet f :
  serializePacketSections buffer_from_base64 (set_field "tokenization" v packet) f = serializePacketSections buffer_from_base64 packet f.
Proof.
  unfold serializePacketSections, packet_sections, payloadsForKinds. by rewrite !object_field_set, !array_field_set, !texts_of_set by done.
Qed.

Lemma capacity_bounds purpose input reserved limit maxOutput : evaluateCapacity purpose input reserved limit maxOutput = None ->
  (input + reserved <= limit)%Z /\ (reserved <= maxOutput)%Z.
Proof.
  unfold evaluateCapacity. destruct (capacityStatesFor purpose). destruct (Z.ltb_spec maxOutput reserved); [done|].
  destruct (Z.ltb_spec limit (input + reserved)); [done|]. lia.
Qed.

(** ** Redaction *)

(** A source with the text that the scan of its content leaves; binary content stays when the scan has nothing to replace in it. *)
Definition source_redacted (project : DataClassification) (path : option ustr) (s s' : jsvalue) : Prop :=
  let own := match sourcePathOf (object_field "sourceRef" s) with Some p => Some p | None => path end in
  let text := redactedText (scanSourceContent entropy_below (content_of s) own (Some project)) in
  s' = set_field "content" (obj [("encoding", str "utf-8"); ("text", VStr text)]) s \/
  exists b, content_of s = base64_content b /\ s' = s /\ (text = [] \/ text = toString_utf8 (buffer_from_base64 b)).

(** A payload all of whose sources are redacted. *)
Definition payload_redacted (project : DataClassification) (original p : jsvalue) : Prop :=
  exists first rest sources, array_field "sources" original = first :: rest /\
    Forall2 (source_redacted project (sourcePathOf (object_field "sourceRef" first))) (first :: rest) sources /\
    p = set_field "sources" (VArr sources) original.

(** An instruction or a skill with the text that the scan of its content leaves. *)
Definition instruction_redacted (project : DataClassification) (item item' : jsvalue) : Prop :=
  item' = obj [("scope", object_field "scope" item); ("precedence", object_field "precedence" item); ("sourceRef", object_field "sourceRef" item);
    ("verbatimContent", VStr (redactedText (scanText entropy_below (string_field "verbatimContent" item)
      (sourcePathOf (object_field "sourceRef" item)) (Some project))))].
Definition skill_redacted (project : DataClassification) (item item' : jsvalue) : Prop :=
  let descriptor := object_field "descriptor" item in
  let text := redactedText (scanText entropy_below (string_field "verbatimContent" item) (sourcePathOf (object_field "sourceRef" descriptor)) (Some project)) in
  item' = set_field "descriptor" (set_field "contentDigest" (VStr (skillContentDigest text)) descriptor) (set_field "verbatimContent" (VStr text) item).

Lemma redact_source_spec project paths path s s' scanned c : redact_source entropy_below buffer_from_base64 project paths path s = (s', scanned, c) ->
  source_redacted project path s s'.
Proof.
  unfold redact_source, source_redacted. intros H. injection H as <- _ _. destruct (content_of s) as [t|b] eqn:E; [by left|].
  destruct (negb _ && negb _) eqn:Eb; [by left|]. right. exists b. split_and!; [done | done|].
  apply andb_false_iff in Eb as [Eb|Eb]; apply negb_false_iff, bool_decide_eq_true in Eb; [by left | by right].
Qed.

Lemma redact_sources_spec project paths path sources : forall done r fs out,
  redact_sources entropy_below buffer_from_base64 project paths path sources done r fs = Some out ->
  exists more, out.1.1 = done ++ more /\ Forall2 (source_redacted project path) sources more.
Proof.
  induction sources as [|s sources IH]; intros done r fs out; cbn [redact_sources].
  - intros [= <-]. exists []. by rewrite app_nil_r.
  - destruct (redact_source _ _ _ _ _ s) as [[s' scanned] c] eqn:E. destruct c; [done|]. intros (more & Hm & Hf)%IH.
    exists (s' :: more). split; [by rewrite Hm, <- app_assoc|]. constructor; [by eapply redact_source_spec | done].
Qed.

Lemma redact_loop_spec project paths payloads : forall acc redacted,
  redact_loop entropy_below buffer_from_base64 project paths payloads acc = Ok (redact_ok redacted) ->
  exists more, rd_payloads redacted = rd_payloads acc ++ more /\ Forall2 (payload_redacted project) payloads more.
Proof.
  induction payloads as [|p payloads IH]; intros acc redacted; cbn [redact_loop].
  - intros [= <-]. exists []. by rewrite app_nil_r.
  - destruct (array_field "sources" p) as [|first rest] eqn:Es; [done|].
    destruct (redact_sources _ _ _ _ _ _ _ _ _) as [[[sources r] fs]|] eqn:E; [|done]. intros (more & Hm & Hf)%IH.
    apply redact_sources_spec in E as (new & Hn & Hs). cbn [fst] in Hn. subst sources. cbn [rd_payloads] in Hm.
    exists (set_field "sources" (VArr new) p :: more). split; [by rewrite Hm, <- app_assoc|]. constructor; [|done]. by exists first, rest, new.
Qed.

Lemma redacted_instructions_spec i : Forall2 (instruction_redacted (project_of i)) (ci_authoritativeInstructions i) (ri_bodies (redacted_instructions i)).
Proof.
  unfold redacted_instructions, redact_all. cbn [ri_bodies]. rewrite map_map. induction (ci_authoritativeInstructions i); constructor; done.
Qed.

Lemma redacted_skills_spec i : Forall2 (skill_redacted (project_of i)) (ci_loadedSkills i) (ri_bodies (redacted_skills i)).
Proof.
  unfold redacted_skills, redact_all. cbn [ri_bodies]. rewrite map_map. induction (ci_loadedSkills i); constructor; done.
Qed.

(** C17: when the compiler returns a context, nothing that must not be omitted is missing from its packet:
    every such bundle of the input is there and trusted, and every bundle there is a trusted one of the
    input.  Each node and each fact of the packet comes with a payload that carries its content, each edge with
    a relation of the graph, instructions and mandatory skills with the content their digests name.  Every payload is one of the
    input whose node no model wrote, with the text of each source replaced by what the scan for sensitive content leaves of
    it (binary content the scan finds no text in stays, and counts as restricted); the instructions and the skills are those
    of the input, all of them and in their order, with their text replaced in the same way.  The text reused between calls does not name
    the run, and restricted content is only compiled for an executor that may hold it. *)
Theorem compiled_context_closed i art : compile i = compiled art ->
  let packet := ca_packet art in
  closed_packet packet /\
  (forall b, b ∈ ci_bundles i -> isNeverOmitBundle b (ci_graph i) = true -> b ∈ array_field "bundles" packet) /\
  (forall b, b ∈ array_field "bundles" packet -> b ∈ ci_bundles i /\ isUntrusted b (ci_graph i) = false) /\
  (forall r, r ∈ array_field "relations" packet -> r ∈ graph_edges (ci_graph i)) /\
  prefixContainsRunId (ca_cachePrefix art) (ci_runId i) = false /\
  exists redacted,
    redactPayloads entropy_below buffer_from_base64 (ci_payloads i) (project_of i) (default [] (ci_intendedPatchPaths i)) = Ok (redact_ok redacted) /\
    Forall (fun p => (exists original, original ∈ ci_payloads i /\ payload_redacted (project_of i) original p) /\
      model_authored (node_of p) = false /\ body_of p <> []) (array_field "evidencePayloads" packet) /\
    Forall2 (instruction_redacted (project_of i)) (ci_authoritativeInstructions i) (array_field "authoritativeInstructions" packet) /\
    Forall2 (skill_redacted (project_of i)) (ci_loadedSkills i) (array_field "loadedSkills" packet) /\
    (restricted_part i redacted = true ->
       noEgressCloudRoleAvailable (ci_policy i) = true /\ isPublicCloudExecutor (qd_provider (ci_deployment i)) = false).
Proof.
  intros H packet. destruct (compilation_of i art H) as (redacted & reserved & n & bundles & omitted & packet0 & sections & C).
  destruct (seal_bound _ _ _ _ _ _ (cp_seal _ _ _ _ _ _ _ _ _ C)) as (Hp & Hpre & _ & _). subst packet. rewrite Hp, Hpre.
  destruct (buildContextPacket_built _ _ (cp_packet _ _ _ _ _ _ _ _ _ C)) as [Hbu Hpay Hrel Hcrit _ Hins Hsk _].
  rewrite !array_field_set, Hbu, Hins, Hsk by done. cbn [packet_input pb_payloads pb_authoritativeInstructions pb_loadedSkills pb_bundles pb_candidateBundles pb_omitted pb_graph default] in *.
  rewrite (cp_critical _ _ _ _ _ _ _ _ _ C) in Hcrit. symmetry in Hcrit. apply map_eq_nil in Hcrit. pose proof (cp_selected _ _ _ _ _ _ _ _ _ C) as Hsel.
  destruct (selectBundles_settled _ _ _ _ _ _ _ Hsel) as (st & Hst & Eb & _). split_and!.
  - by eapply closure_closed, cp_closed.
  - intros b. by eapply never_omitted.
  - intros b Hb. rewrite Eb in Hb. destruct (sd_split _ _ _ _ _ Hst) as [rest Hperm]. split; [rewrite Hperm; apply elem_of_app; by left|].
    pose proof (sd_trusted _ _ _ _ _ Hst) as Ht. rewrite Forall_forall in Ht. by apply Ht.
  - done.
  - by apply (cp_prefix _ _ _ _ _ _ _ _ _ C).
  - exists redacted. pose proof (cp_redacted _ _ _ _ _ _ _ _ _ C) as Hred.
    split_and!; [done | | apply redacted_instructions_spec | apply redacted_skills_spec | by apply (cp_egress _ _ _ _ _ _ _ _ _ C)].
    apply redact_loop_spec in Hred as (more & Hm & Hall). cbn [rd_payloads app] in Hm. rewrite Hm in Hpay. eapply Forall_impl; [exact Hpay|].
    intros p (Hin & Hauthor & Hbody). split_and!; [|done..]. apply list_elem_of_lookup_1 in Hin as [n' Hn].
    destruct (Forall2_lookup_r _ _ _ _ _ Hall Hn) as (original & Ho & Hr). exists original. split; [by eapply list_elem_of_lookup_2 | done].
Qed.

(** C18: the tokens counted are those of the text that is sent, the system prompt and the message of the
    conversation, and with the output reserved they fit the limits of the deployment; the signed request
    names the digests of the packet, conversation, egress manifest and binding of the same compilation,
    and the egress manifest, made from the bytes of that conversation, has a classification that the
    policy permits. *)
Theorem compiled_request_bound i art : compile i = compiled art ->
  request_bound i art /\
  exists text inputTokens reserved,
    serializePacketSections buffer_from_base64 (ca_packet art) true = Ok text /\
    string_field "systemPrompt" (ca_conversation art) = ca_cachePrefix art /\
    map messageText (array_field "messages" (ca_conversation art)) = [text] /\
    countTokens pretokens (ca_cachePrefix art ++ [LF] ++ text) (qd_tokenizerRevision (ci_deployment i)) = Ok inputTokens /\
    object_field "tokenization" (ca_packet art) = tokenization_json i inputTokens reserved /\
    (inputTokens + reserved <= qd_contextLimitTokens (ci_deployment i))%Z /\ (reserved <= qd_maxOutputTokens (ci_deployment i))%Z.
Proof.
  intros H. destruct (compilation_of i art H) as (redacted & reserved & n & bundles & omitted & packet0 & sections & C).
  destruct (seal_bound _ _ _ _ _ _ (cp_seal _ _ _ _ _ _ _ _ _ C)) as (Hp & Hpre & Hb & text & Ht & Hsys & Hmsg).
  split; [done|]. exists text, n, reserved. rewrite Hp. rewrite sections_tokenized in *. pose proof (cp_sections _ _ _ _ _ _ _ _ _ C) as Hs.
  rewrite Hs in Ht. injection Ht as <-. destruct (capacity_bounds _ _ _ _ _ (cp_capacity _ _ _ _ _ _ _ _ _ C)). split_and!; try done.
  - rewrite Hpre. by apply (cp_tokens _ _ _ _ _ _ _ _ _ C).
  - destruct (buildContextPacket_built _ _ (cp_packet _ _ _ _ _ _ _ _ _ C)) as [_ _ _ _ Htok _ _ [fs ->]]. rewrite Htok.
    cbn [set_field object_field]. by rewrite JsMap.get_set_eq.
Qed.
End Context.

(** ** A concrete compilation *)

#[local] Existing Instance half_doubles.
#[local] Existing Instance half_values.
#[local] Existing Instance rolling_hash.

(** One token per line, an expression that finds no other texts than these, and a schema that accepts. *)
Definition line_tokens (text : ustr) : list ustr := split_unit LF text.
Definition low_entropy (_ : ustr) (_ : Z) : bool := true.
Definition no_bytes (_ : ustr) : bytes := [].
Definition accept_all {DD : Doubles} (_ : jsvalue) : bool := true.

Definition sample_control : jsvalue :=
  obj [("schemaVersion", VInt 1); ("runId", str "run_one"); ("role", str "CLOUD_EXECUTOR"); ("userScope", str "all");
       ("allowedResultKinds", VArr []); ("allowedChangeOperations", VArr [str "create"]); ("forbiddenCapabilities", VArr [str "network"]);
       ("resultSchemaObjectDigest", VStr packet_digest); ("contextRequestPolicy", str "none")].

Definition sample_requirements : jsvalue :=
  obj [("originalRequest", str "fix"); ("requirements", VArr []); ("nonGoals", VArr []); ("conflicts", VArr []); ("openQuestions", VArr [])].

Definition sample_payload (c : N) (text : string) : jsvalue :=
  obj [("evidenceId", VStr (sample_id c)); ("node", sample_node c "DETERMINISTIC");
       ("sources", VArr [obj [("sourceRef", obj [("origin", str "repository"); ("path", str "a.ts")]);
                              ("content", obj [("encoding", str "utf-8"); ("text", str text)])]])].

Definition sample_instruction : jsvalue :=
  obj [("scope", str "."); ("precedence", VInt 0); ("sourceRef", obj [("origin", str "repository"); ("path", str "A.md")]);
       ("verbatimContent", str "keep it")].
Definition sample_descriptor : jsvalue := obj [("scope", str "."); ("precedence", VInt 0); ("contentDigest", str "stale")].

Definition sample_compiler_input (graph : jsvalue) (bundles payloads : list jsvalue) (limit : Z) : CompilerInput :=
  mkCompilerInput purpose_initial (u "project") (u "run_one") (u "call") (u "snap") (u "root") sample_control sample_requirements
    (obj [("instructions", VArr [sample_descriptor])]) (obj [("skills", VArr [])]) [sample_instruction] [] graph bundles payloads []
    (mkDeployment (mkProvider (u "dep") (u "adapter") (u "https://provider.example") [u "provider"] (u "m1") None (u "retention"))
       PI_HEC_CLOUD_TOKENIZER_REVISION limit 4000)
    (mkPolicy internal [public; internal] true true false) (mkSigner (fun bs => bs) (u "key") packet_digest (u "2024-01-01T00:00:00.000Z"))
    (u "2024-01-02T00:00:00.000Z") [] None None None None None None.

Local Notation sample_compile := (compileCloudContext low_entropy line_tokens no_bytes accept_all (obj []) (obj [])).

(** A mandatory bundle and a causal path. *)
Definition sample_compiled_input : CompilerInput :=
  sample_compiler_input sample_graph
    [sample_bundle "m" "interface-contract" [97%N] true; sample_bundle "c" "causal-path" [98%N] false]
    [sample_payload 97 "let a = 1;"; sample_payload 98 "let b = 2;"] 9000.

Definition is_compiled {DD : Doubles} {HH : Hashing} (o : CompilationOutcome) : bool := match o with compiled _ => true | _ => false end.

Lemma is_compiled_some {DD : Doubles} {HH : Hashing} (o : CompilationOutcome) : is_compiled o = true -> exists art, o = compiled art.
Proof. destruct o; [by eexists | done | done]. Qed.

Lemma sample_is_compiled : is_compiled (sample_compile sample_compiled_input) = true.
Proof. vm_compute. reflexivity. Qed.

Lemma compiled_context_closed_witness : exists art, sample_compile sample_compiled_input = compiled art /\
  sample_bundle "m" "interface-contract" [97%N] true ∈ array_field "bundles" (ca_packet art).
Proof.
  destruct (is_compiled_some _ sample_is_compiled) as [art H]. exists art. split; [exact H|].
  destruct (compiled_context_closed low_entropy line_tokens no_bytes accept_all (obj []) (obj []) _ _ H) as (_ & Hn & _).
  apply Hn; [by left | reflexivity].
Defined.

Lemma compiled_request_bound_witness : exists art n r, sample_compile sample_compiled_input = compiled art /\
  object_field "tokenization" (ca_packet art) = tokenization_json sample_compiled_input n r /\ (n + r <= 9000)%Z.
Proof.
  destruct (is_compiled_some _ sample_is_compiled) as [art H].
  destruct (compiled_request_bound low_entropy line_tokens no_bytes accept_all (obj []) (obj []) _ _ H)
    as (_ & text & n & r & _ & _ & _ & _ & Ht & Hl & _).
  exists art, n, r. split; [exact H|]. split; [exact Ht | exact Hl].
Defined.

(** A mandatory bundle that a local model wrote is a critical omission, whatever the limits. *)
Example untrusted_mandatory_fails :
  sample_compile (sample_compiler_input sample_graph [sample_bundle "m" "interface-contract" [97%N; 99%N] true] [sample_payload 97 "let a = 1;"] 9000)
  = failed CRITICAL_OMISSION.
Proof. vm_compute. reflexivity. Qed.

(** Without the tokens for the mandatory bundle the call waits for context capacity. *)
Example mandatory_waits :
  sample_compile (sample_compiler_input sample_graph [sample_bundle "m" "interface-contract" [97%N] true] [sample_payload 97 "let a = 1;"] 2500)
  = outcome_waiting (waiting_capacity WAITING_INITIAL_CONTEXT_CAPACITY).
Proof. vm_compute. reflexivity. Qed.

(** A verified fact in a mandatory bundle: the packet carries its content, the message to the model does
    not, since no section renders payloads of its kind. *)
Definition fact_node : jsvalue :=
  set_field "provenance" (VArr [str "run"]) (set_field "kind" (str "fact") (sample_node 97 "DETERMINISTIC")).
Definition fact_input : CompilerInput :=
  sample_compiler_input (obj [("nodes", VArr [fact_node]); ("edges", VArr [])]) [sample_bundle "m" "requirement-witness" [97%N] true]
    [set_field "node" fact_node (sample_payload 97 "port is closed")] 9000.

Definition says (text : string) (o : CompilationOutcome) : option (list ustr * list bool) :=
  match o with
  | compiled art => Some (map (payloadBody no_bytes) (array_field "evidencePayloads" (ca_packet art)),
                          map (fun m => includes_text (u text) (messageText m)) (array_field "messages" (ca_conversation art)))
  | _ => None
  end.

Lemma fact_content_not_sent : says "port is closed" (sample_compile fact_input) = Some ([u "port is closed"], [false]).
Proof. vm_compute. reflexivity. Qed.
