(* ===== verification/OperationStore.v ===== *)
(** Queued operations and their leases (packages/state-store/src/operation-store.ts with scope.ts, the
    lease tokens of crypto.ts and the table of migrations/control/0001_initial.sql), and the handlers of
    the control plane that use them (faex1/apps/control-plane/src/api/operations.ts, api/runners.ts and
    orchestration/recovery.ts).  Every write is one transaction; a statement that breaks a constraint of
    the table throws. *)

From Stdlib Require Import String.
From S2P Require Import Prelude JsText CanonicalJson Digest Identity.
Open Scope string_scope.
Open Scope list_scope.

(** ** Kinds and states *)

Definition OPERATION_KINDS : list ustr := map u
  ["CAPTURE_SNAPSHOT"; "UPLOAD_SNAPSHOT"; "RESOLVE_INSTRUCTIONS"; "INDEX_SNAPSHOT"; "PLAN_BASELINE"; "RUN_BASELINE_CHECK"; "RUN_PREFLIGHT";
   "COMPILE_CONTEXT"; "MATERIALIZE_CANDIDATE"; "PLAN_VERIFICATION"; "RUN_VERIFICATION_CHECK"; "PREPARE_REPAIR"; "APPLY_USER_INPUT";
   "REQUEST_REPAIR"; "REQUEST_CANCELLATION"; "PROMOTE_WORKSPACE"; "SPAWN_AGENT"; "CONSUME_AGENT"; "VALIDATE_ARTIFACT"; "SELECT_PROFILE";
   "INTEGRATE_CHANGESET"; "CHECK_ACCEPTANCE"; "RECONCILE_AGENTS"].

Definition RECLAIMABLE_OPERATION_KINDS : list ustr := map u
  ["CAPTURE_SNAPSHOT"; "UPLOAD_SNAPSHOT"; "RESOLVE_INSTRUCTIONS"; "INDEX_SNAPSHOT"; "PLAN_BASELINE"; "RUN_BASELINE_CHECK"; "RUN_PREFLIGHT";
   "COMPILE_CONTEXT"; "MATERIALIZE_CANDIDATE"; "PLAN_VERIFICATION"; "RUN_VERIFICATION_CHECK"; "PREPARE_REPAIR"; "SPAWN_AGENT";
   "CONSUME_AGENT"; "VALIDATE_ARTIFACT"; "SELECT_PROFILE"; "INTEGRATE_CHANGESET"; "CHECK_ACCEPTANCE"; "RECONCILE_AGENTS"].

Definition reclaimable_kind (kind : ustr) : bool := includes kind RECLAIMABLE_OPERATION_KINDS.

Inductive OperationState : Set := op_ready | op_leased | op_succeeded | op_failed | op_cancelled | op_unknown.
#[export] Instance OperationState_eq_dec : EqDecision OperationState.
Proof. solve_decision. Defined.

Record OperationRow := mkOperation {
  op_runId : ustr;
  op_kind : ustr;
  op_dedupeKey : ustr;
  op_inputDigest : ustr;
  op_state : OperationState;
  op_reclaimable : bool;
  op_leaseGeneration : Z;
  op_leaseOwner : option ustr;
  op_leaseUntil : option ustr;
  op_leaseTokenHash : option ustr;
  op_resultDigest : option ustr;
  op_errorDigest : option ustr;
  op_createdAt : ustr;
  op_updatedAt : ustr
}.

(** A project and an operation of it. *)
Notation OpKey := (prod ustr ustr).

(** Artifacts and runs by project; runner principals with their revocation. *)
Record OperationTables := mkOpTables {
  ot_artifacts : list (ustr * ustr);
  ot_runs : list (ustr * ustr);
  ot_runners : list (ustr * option ustr);
  ot_operations : list (OpKey * OperationRow)
}.

Definition with_operations (ops : list (OpKey * OperationRow)) (t : OperationTables) : OperationTables :=
  mkOpTables (ot_artifacts t) (ot_runs t) (ot_runners t) ops.

(** What is thrown: not found, a refused lease, a conflict with its code, a broken constraint, a request
    without authority, a kind outside the union, and a time that is no date. *)
Inductive OpErr : Set := NOT_FOUND | LEASE_REJECTED | OPERATION_INPUT_CONFLICT | OPERATION_DEDUPE_CONFLICT | CONSTRAINT | UNAUTHENTICATED | UNHANDLED_KIND | RANGE_ERROR.
#[export] Instance OpErr_eq_dec : EqDecision OpErr.
Proof. solve_decision. Defined.

Definition otx (R : Type) : Type := OperationTables -> result OpErr (R * OperationTables).

(** [executeWrite]: commit, or roll back when the work throws. *)
Definition commit {R} (work : otx R) (t : OperationTables) : OperationTables * result OpErr R :=
  match work t with Ok (r, t') => (t', Ok r) | Err e => (t, Err e) end.

(** ** Scopes *)

Record ProjectScope := mkProjectScope { ps_scope : PrincipalScope; ps_projectId : ustr; ps_roles : list ustr; ps_grantObjectDigest : ustr }.

Definition hasProjectGrant (scope : PrincipalScope) (projectId : ustr) : bool :=
  existsb (fun grant => bool_decide (pg_projectId grant = projectId)) (projectGrants scope).

Definition toProjectScope (scope : PrincipalScope) (projectId : ustr) : result OpErr ProjectScope :=
  match array_find (fun entry => bool_decide (pg_projectId entry = projectId)) (projectGrants scope) with
  | None => Err NOT_FOUND
  | Some grant => Ok (mkProjectScope scope projectId (pg_roles grant) (pg_grantObjectDigest grant))
  end.

Definition scopedProjectId (scope : ProjectScope) : result OpErr ustr :=
  throw_if negb (hasProjectGrant (ps_scope scope) (ps_projectId scope)) || bool_decide (ps_projectId scope = []) with NOT_FOUND;
  Ok (ps_projectId scope).

(** ** The table *)

Definition artifactExists (t : OperationTables) (projectId digest : ustr) : bool := includes (projectId, digest) (ot_artifacts t).
Definition runExists (t : OperationTables) (projectId runId : ustr) : bool := includes (projectId, runId) (ot_runs t).

Definition none_of {A} (o : option A) : bool := match o with None => true | Some _ => false end.

(** The [CHECK] over the state, the lease and the outcome. *)
Definition row_check (r : OperationRow) : bool :=
  let leaseNull := none_of (op_leaseOwner r) && none_of (op_leaseUntil r) && none_of (op_leaseTokenHash r) in
  let leaseSet := negb (none_of (op_leaseOwner r)) && negb (none_of (op_leaseUntil r)) && negb (none_of (op_leaseTokenHash r)) in
  match op_state r with
  | op_ready => leaseNull && none_of (op_resultDigest r) && none_of (op_errorDigest r)
  | op_leased => leaseSet && none_of (op_resultDigest r) && none_of (op_errorDigest r)
  | op_succeeded => leaseNull && negb (none_of (op_resultDigest r)) && none_of (op_errorDigest r)
  | op_failed | op_unknown => leaseNull && none_of (op_resultDigest r) && negb (none_of (op_errorDigest r))
  | op_cancelled => leaseNull && none_of (op_resultDigest r) && none_of (op_errorDigest r)
  end.

Definition artifact_or_null (t : OperationTables) (projectId : ustr) (d : option ustr) : bool :=
  match d with None => true | Some d => artifactExists t projectId d end.

(** The foreign keys, the registry of kinds among them, and the checks of one row. *)
Definition row_ok (t : OperationTables) (key : OpKey) (r : OperationRow) : bool :=
  row_check r && (0 <=? op_leaseGeneration r)%Z && runExists t (fst key) (op_runId r) && artifactExists t (fst key) (op_inputDigest r) &&
  artifact_or_null t (fst key) (op_resultDigest r) && artifact_or_null t (fst key) (op_errorDigest r) &&
  includes (op_kind r) OPERATION_KINDS && bool_decide (op_reclaimable r = reclaimable_kind (op_kind r)).

Definition same_dedupe (projectId runId dedupeKey : ustr) (entry : OpKey * OperationRow) : bool :=
  bool_decide (fst (fst entry) = projectId) && bool_decide (op_runId (snd entry) = runId) && bool_decide (op_dedupeKey (snd entry) = dedupeKey).

Definition insert_operation (key : OpKey) (r : OperationRow) : otx unit := fun t =>
  throw_if JsMap.has key (ot_operations t) || existsb (same_dedupe (fst key) (op_runId r) (op_dedupeKey r)) (ot_operations t) with CONSTRAINT;
  throw_if negb (row_ok t key r) with CONSTRAINT;
  Ok (tt, with_operations (ot_operations t ++ [(key, r)]) t).

Definition update_operation (key : OpKey) (r : OperationRow) : otx unit := fun t =>
  throw_if negb (row_ok t key r) with CONSTRAINT;
  Ok (tt, with_operations (JsMap.set key r (ot_operations t)) t).

Definition readOperation (t : OperationTables) (projectId operationId : ustr) : option OperationRow :=
  JsMap.get (projectId, operationId) (ot_operations t).

(** [readOperation(...)] after a write, with the [StoreLookupError] of a missing row. *)
Definition reread (key : OpKey) (t : OperationTables) : result OpErr ((ustr * OperationRow) * OperationTables) :=
  match readOperation t (fst key) (snd key) with None => Err NOT_FOUND | Some r => Ok ((snd key, r), t) end.

Definition write_back (key : OpKey) (r : OperationRow) : otx (ustr * OperationRow) := fun t =>
  let? '(_, t) := update_operation key r t in reread key t.

(** ** Enqueueing *)

Record EnqueueOperationInput := mkEnqueue {
  eo_operationId : ustr;
  eo_runId : ustr;
  eo_operationKind : ustr;
  eo_dedupeKey : ustr;
  eo_inputDigest : ustr;
  eo_createdAt : ustr
}.

Definition ready_row (i : EnqueueOperationInput) : OperationRow :=
  mkOperation (eo_runId i) (eo_operationKind i) (eo_dedupeKey i) (eo_inputDigest i) op_ready (reclaimable_kind (eo_operationKind i)) 0
    None None None None None (eo_createdAt i) (eo_createdAt i).

(** The id and row of the operation that stands for the request. *)
Definition enqueue_work (projectId : ustr) (i : EnqueueOperationInput) : otx (ustr * OperationRow) := fun t =>
  throw_if negb (runExists t projectId (eo_runId i)) with NOT_FOUND;
  throw_if negb (artifactExists t projectId (eo_inputDigest i)) with NOT_FOUND;
  match readOperation t projectId (eo_operationId i) with
  | Some existing =>
      throw_if negb (bool_decide (op_inputDigest existing = eo_inputDigest i)) with OPERATION_INPUT_CONFLICT;
      Ok ((eo_operationId i, existing), t)
  | None =>
      match array_find (same_dedupe projectId (eo_runId i) (eo_dedupeKey i)) (ot_operations t) with
      | Some (key, found) =>
          if bool_decide (op_inputDigest found = eo_inputDigest i) then reread key t else Err OPERATION_DEDUPE_CONFLICT
      | None =>
          let? '(_, t) := insert_operation (projectId, eo_operationId i) (ready_row i) t in
          reread (projectId, eo_operationId i) t
      end
  end.

Definition enqueueOperation (scope : ProjectScope) (i : EnqueueOperationInput) (t : OperationTables) : OperationTables * result OpErr (ustr * OperationRow) :=
  match scopedProjectId scope with
  | Err e => (t, Err e)
  | Ok projectId => if negb (includes (eo_operationKind i) OPERATION_KINDS) then (t, Err UNHANDLED_KIND) else commit (enqueue_work projectId i) t
  end.

Definition getOperation (scope : ProjectScope) (operationId : ustr) (t : OperationTables) : result OpErr OperationRow :=
  let? projectId := scopedProjectId scope in
  match readOperation t projectId operationId with None => Err NOT_FOUND | Some r => Ok r end.

(** ** Leases *)

Section Leases.
(** [createHmac("sha256", key).update(token).digest()] with the key of the host, and base64url. *)
Variable hmac_sha256 : bytes -> bytes -> bytes.
Variable hostLeaseKey : bytes.
Variable base64url_encode : bytes -> ustr.
Variable base64url_decode : ustr -> bytes.

Definition hashLeaseToken (token : bytes) : bytes := hmac_sha256 hostLeaseKey token.

Definition hex_encode (bs : bytes) : ustr := flat_map (fun b => [hex_digit (b / 16)%N; hex_digit (b mod 16)%N]) bs.

Definition leaseTokenHashHex (token : bytes) : ustr := hex_encode (hashLeaseToken token).

Definition hmacEqual (left right : bytes) : bool := (length left =? length right)%nat && bool_decide (left = right).

Definition verifyLeaseToken (token : bytes) (storedHex : ustr) : bool := hmacEqual (hex_decode storedHex) (hashLeaseToken token).

(** Strings are compared by their code units. *)
Definition later (a b : ustr) : bool := utf16_leb b a && negb (bool_decide (a = b)).

Definition assertLiveLease (row : OperationRow) (token owner now : ustr) : result OpErr unit :=
  throw_if negb (bool_decide (op_state row = op_leased)) with LEASE_REJECTED;
  throw_if match op_leaseUntil row with None => true | Some until => later now until end with LEASE_REJECTED;
  throw_if negb (bool_decide (op_leaseOwner row = Some owner)) with LEASE_REJECTED;
  throw_if match op_leaseTokenHash row with None => true | Some h => negb (verifyLeaseToken (base64url_decode token) h) end with LEASE_REJECTED;
  Ok tt.

Definition assertLeaseGeneration (row : OperationRow) (expected : option Z) : result OpErr unit :=
  match expected with
  | None => Ok tt
  | Some g => throw_if negb (op_leaseGeneration row =? g)%Z with LEASE_REJECTED; Ok tt
  end.

Definition assertObservedInput (row : OperationRow) (observed : option ustr) : result OpErr unit :=
  match observed with
  | None => Ok tt
  | Some d => throw_if negb (bool_decide (op_inputDigest row = d)) with LEASE_REJECTED; Ok tt
  end.

Definition leaseRow (projectId operationId : ustr) (t : OperationTables) : result OpErr OperationRow :=
  match readOperation t projectId operationId with None => Err NOT_FOUND | Some r => Ok r end.

(** The guards of [leaseOperation]. *)
Definition assert_leasable (row : OperationRow) (now : ustr) : result OpErr unit :=
  let state := op_state row in
  throw_if bool_decide (state = op_succeeded) || bool_decide (state = op_cancelled) with LEASE_REJECTED;
  throw_if negb (op_reclaimable row) && negb (bool_decide (state = op_ready)) with LEASE_REJECTED;
  if bool_decide (state = op_leased) then
    throw_if negb (op_reclaimable row) || match op_leaseUntil row with None => true | Some until => negb (later now until) end with LEASE_REJECTED;
    Ok tt
  else
    throw_if negb (bool_decide (state = op_ready)) && negb (bool_decide (state = op_failed)) && negb (bool_decide (state = op_unknown)) with LEASE_REJECTED;
    throw_if (bool_decide (state = op_failed) || bool_decide (state = op_unknown)) && negb (op_reclaimable row) with LEASE_REJECTED;
    Ok tt.

Definition leased_row (row : OperationRow) (owner until hash now : ustr) : OperationRow :=
  mkOperation (op_runId row) (op_kind row) (op_dedupeKey row) (op_inputDigest row) op_leased (op_reclaimable row) (op_leaseGeneration row + 1)
    (Some owner) (Some until) (Some hash) None None (op_createdAt row) now.

Definition extended_row (row : OperationRow) (until now : ustr) : OperationRow :=
  mkOperation (op_runId row) (op_kind row) (op_dedupeKey row) (op_inputDigest row) (op_state row) (op_reclaimable row) (op_leaseGeneration row)
    (op_leaseOwner row) (Some until) (op_leaseTokenHash row) (op_resultDigest row) (op_errorDigest row) (op_createdAt row) now.

Definition settled_row (row : OperationRow) (state : OperationState) (result error : option ustr) (now : ustr) : OperationRow :=
  mkOperation (op_runId row) (op_kind row) (op_dedupeKey row) (op_inputDigest row) state (op_reclaimable row) (op_leaseGeneration row)
    None None None result error (op_createdAt row) now.

Record LeaseResult := mkLease { lr_token : ustr; lr_generation : Z; lr_leaseUntil : ustr }.

(** [token] stands for the random bytes. *)
Definition lease_work (projectId operationId owner leaseUntil now : ustr) (token : bytes) : otx LeaseResult := fun t =>
  let? row := leaseRow projectId operationId t in
  let? _ := assert_leasable row now in
  let? '(_, t) := update_operation (projectId, operationId) (leased_row row owner leaseUntil (leaseTokenHashHex token) now) t in
  Ok (mkLease (base64url_encode token) (op_leaseGeneration row + 1) leaseUntil, t).

Definition heartbeat_work (projectId operationId token owner leaseUntil now : ustr) (generation : option Z) (observed : option ustr) : otx unit := fun t =>
  let? row := leaseRow projectId operationId t in
  let? _ := assertLiveLease row token owner now in
  let? _ := assertLeaseGeneration row generation in
  let? _ := assertObservedInput row observed in
  update_operation (projectId, operationId) (extended_row row leaseUntil now) t.

Definition complete_work (projectId operationId token owner resultDigest now updatedAt : ustr) (generation : option Z) : otx (ustr * OperationRow) := fun t =>
  let? row := leaseRow projectId operationId t in
  let? _ := assertLiveLease row token owner now in
  let? _ := assertLeaseGeneration row generation in
  throw_if negb (artifactExists t projectId resultDigest) with NOT_FOUND;
  write_back (projectId, operationId) (settled_row row op_succeeded (Some resultDigest) None updatedAt) t.

Definition fail_work (projectId operationId token owner errorDigest now updatedAt : ustr) (generation : option Z) : otx (ustr * OperationRow) := fun t =>
  let? row := leaseRow projectId operationId t in
  let? _ := assertLiveLease row token owner now in
  let? _ := assertLeaseGeneration row generation in
  throw_if negb (artifactExists t projectId errorDigest) with NOT_FOUND;
  write_back (projectId, operationId) (settled_row row op_failed None (Some errorDigest) updatedAt) t.

Definition unknown_work (projectId operationId errorDigest updatedAt : ustr) : otx (ustr * OperationRow) := fun t =>
  let? row := leaseRow projectId operationId t in
  throw_if negb (artifactExists t projectId errorDigest) with NOT_FOUND;
  write_back (projectId, operationId) (settled_row row op_unknown None (Some errorDigest) updatedAt) t.

(** The work in the project of a scope. *)
Definition scoped {R} (scope : ProjectScope) (work : ustr -> otx R) (t : OperationTables) : OperationTables * result OpErr R :=
  match scopedProjectId scope with Err e => (t, Err e) | Ok projectId => commit (work projectId) t end.

Definition leaseOperation (scope : ProjectScope) (operationId owner leaseUntil now : ustr) (token : bytes) :=
  scoped scope (fun projectId => lease_work projectId operationId owner leaseUntil now token).
Definition heartbeatOperation (scope : ProjectScope) (operationId token owner leaseUntil now : ustr) (generation : option Z) (observed : option ustr) :=
  scoped scope (fun projectId => heartbeat_work projectId operationId token owner leaseUntil now generation observed).
Definition completeOperation (scope : ProjectScope) (operationId token owner resultDigest now updatedAt : ustr) (generation : option Z) :=
  scoped scope (fun projectId => complete_work projectId operationId token owner resultDigest now updatedAt generation).
Definition failOperation (scope : ProjectScope) (operationId token owner errorDigest now updatedAt : ustr) (generation : option Z) :=
  scoped scope (fun projectId => fail_work projectId operationId token owner errorDigest now updatedAt generation).
Definition markOperationUnknown (scope : ProjectScope) (operationId errorDigest updatedAt : ustr) :=
  scoped scope (fun projectId => unknown_work projectId operationId errorDigest updatedAt).

(** A lease of the owner ends at the given time. *)
Definition expire_row (owner leaseUntil : ustr) (row : OperationRow) : OperationRow :=
  if bool_decide (op_leaseOwner row = Some owner) && bool_decide (op_state row = op_leased)
  then extended_row row leaseUntil (op_updatedAt row) else row.

Definition expireLeasesForOwner (owner leaseUntil : ustr) (t : OperationTables) : OperationTables :=
  with_operations (map (fun '(key, row) => (key, expire_row owner leaseUntil row)) (ot_operations t)) t.

(** ** Listing *)

(** [TEXT] columns are ordered by their bytes. *)
Definition text_leb (a b : ustr) : bool := utf16_leb (utf8_encode a) (utf8_encode b).
Definition op_key_leb (a b : OpKey * OperationRow) : bool :=
  if bool_decide (fst (fst a) = fst (fst b)) then text_leb (snd (fst a)) (snd (fst b)) else text_leb (fst (fst a)) (fst (fst b)).

Definition scanOperations (t : OperationTables) : list (OpKey * OperationRow) := sort_by op_key_leb (ot_operations t).

Definition created_leb (a b : OpKey * OperationRow) : bool :=
  if bool_decide (op_createdAt (snd a) = op_createdAt (snd b)) then text_leb (snd (fst a)) (snd (fst b))
  else text_leb (op_createdAt (snd a)) (op_createdAt (snd b)).

Definition listOperations (scope : ProjectScope) (t : OperationTables) : result OpErr (list (ustr * OperationRow)) :=
  let? projectId := scopedProjectId scope in
  Ok (map (fun e => (snd (fst e), snd e)) (sort_by created_leb (List.filter (fun e => bool_decide (fst (fst e) = projectId)) (ot_operations t)))).

Definition claimable (projectIds : list ustr) (now : ustr) (entry : OpKey * OperationRow) : bool :=
  let row := snd entry in
  if negb (includes (fst (fst entry)) projectIds) then false
  else if bool_decide (op_state row = op_ready) then true
  else if bool_decide (op_state row = op_leased) && op_reclaimable row && match op_leaseUntil row with None => false | Some until => later now until end
  then true
  else if (bool_decide (op_state row = op_failed) || bool_decide (op_state row = op_unknown)) && op_reclaimable row
  then negb (bool_decide (op_state row = op_failed) && bool_decide (op_kind row = u "SPAWN_AGENT"))
  else false.

Definition listClaimableOperations (t : OperationTables) (projectIds : list ustr) (now : ustr) : list (OpKey * OperationRow) :=
  if bool_decide (projectIds = []) then [] else List.filter (claimable projectIds now) (scanOperations t).

(** ** The handlers *)

(** [Date.parse]: milliseconds, [None] when not finite. *)
Variable Date_parse : ustr -> option Z.

(** [new Date(Date.parse(now) + 30_000).toISOString()] *)
Definition lease_end (now : ustr) : result OpErr ustr :=
  match date_plus Date_parse now 30000 with Some until => Ok until | None => Err RANGE_ERROR end.

Definition RUNNER_OPERATION_KINDS : list ustr := map u
  ["CAPTURE_SNAPSHOT"; "UPLOAD_SNAPSHOT"; "APPLY_USER_INPUT"; "REQUEST_REPAIR"; "REQUEST_CANCELLATION"; "PROMOTE_WORKSPACE"].
Definition WORKER_OPERATION_KINDS : list ustr := map u
  ["RESOLVE_INSTRUCTIONS"; "INDEX_SNAPSHOT"; "PLAN_BASELINE"; "RUN_BASELINE_CHECK"; "RUN_PREFLIGHT"; "COMPILE_CONTEXT"; "MATERIALIZE_CANDIDATE";
   "PLAN_VERIFICATION"; "RUN_VERIFICATION_CHECK"; "PREPARE_REPAIR"; "SPAWN_AGENT"; "CONSUME_AGENT"; "VALIDATE_ARTIFACT"; "SELECT_PROFILE";
   "INTEGRATE_CHANGESET"; "CHECK_ACCEPTANCE"; "RECONCILE_AGENTS"].

Definition requireOwningRunner (scope : PrincipalScope) (leaseOwner : option ustr) : result OpErr unit :=
  if negb (bool_decide (sc_identityKind scope = k_runner)) then Ok tt else
  throw_if match leaseOwner with None => true | Some owner => negb (bool_decide (owner = sc_principalId scope)) end with NOT_FOUND;
  Ok tt.

(** A runner that is unknown or revoked is asked to stop. *)
Definition runner_revoked (t : OperationTables) (principalId : ustr) : bool :=
  match JsMap.get principalId (ot_runners t) with Some None => false | _ => true end.

(** The checks that open the handlers of one operation. *)
Definition open_operation (scope : PrincipalScope) (projectId operationId : ustr) (t : OperationTables) : result OpErr (ProjectScope * OperationRow) :=
  let? projectScope := toProjectScope scope projectId in
  let? record := getOperation projectScope operationId t in
  let? _ := requireOwningRunner scope (op_leaseOwner record) in
  Ok (projectScope, record).

(** The time the lease now ends, and whether the runner should cancel. *)
Definition handleHeartbeat (scope : PrincipalScope) (projectId operationId leaseToken : ustr) (leaseGeneration : Z) (observed now : ustr)
    (t : OperationTables) : OperationTables * result OpErr (ustr * bool) :=
  match open_operation scope projectId operationId t with
  | Err e => (t, Err e)
  | Ok (projectScope, _) =>
      match lease_end now with
      | Err e => (t, Err e)
      | Ok leaseUntil =>
          match heartbeatOperation projectScope operationId leaseToken (sc_principalId scope) leaseUntil now (Some leaseGeneration) (Some observed) t with
          | (t, Err e) => (t, Err e)
          | (t, Ok _) => (t, Ok (leaseUntil, runner_revoked t (sc_principalId scope)))
          end
      end
  end.

Inductive OperationOutcome : Set := SUCCEEDED (resultObjectDigest : ustr) | FAILED (errorObjectDigest : ustr) | UNKNOWN (errorObjectDigest : ustr).

(** The part of the handler that settles the operation; an unknown outcome first proves the lease. *)
Definition handleComplete (scope : PrincipalScope) (projectId operationId leaseToken : ustr) (leaseGeneration : Z) (outcome : OperationOutcome) (now : ustr)
    (t : OperationTables) : OperationTables * result OpErr (ustr * OperationRow) :=
  match open_operation scope projectId operationId t with
  | Err e => (t, Err e)
  | Ok (projectScope, current) =>
      let owner := sc_principalId scope in
      match outcome with
      | SUCCEEDED d => completeOperation projectScope operationId leaseToken owner d now now (Some leaseGeneration) t
      | FAILED d => failOperation projectScope operationId leaseToken owner d now now (Some leaseGeneration) t
      | UNKNOWN d =>
          match lease_end now with
          | Err e => (t, Err e)
          | Ok leaseUntil =>
              match heartbeatOperation projectScope operationId leaseToken owner leaseUntil now (Some leaseGeneration) (Some (op_inputDigest current)) t with
              | (t, Err e) => (t, Err e)
              | (t, Ok _) => markOperationUnknown projectScope operationId d now t
              end
          end
      end
  end.

Definition allowed_kinds (scope : PrincipalScope) (t : OperationTables) : result OpErr (list ustr) :=
  if bool_decide (sc_identityKind scope = k_runner) then
    throw_if runner_revoked t (sc_principalId scope) with UNAUTHENTICATED; Ok RUNNER_OPERATION_KINDS
  else throw_if negb (bool_decide (sc_identityKind scope = k_worker)) with UNAUTHENTICATED; Ok WORKER_OPERATION_KINDS.

Definition claimable_for (kinds : list ustr) (scope : PrincipalScope) (now : ustr) (t : OperationTables) : list (OpKey * OperationRow) :=
  List.filter (fun e => includes (op_kind (snd e)) kinds) (listClaimableOperations t (map pg_projectId (projectGrants scope)) now).

(** The synchronous end of the handler, run once or again after waiting for work; [None] is "NO_JOB". *)
Definition handleLease (scope : PrincipalScope) (now : ustr) (token : bytes) (t : OperationTables)
    : OperationTables * result OpErr (option (OpKey * LeaseResult)) :=
  match allowed_kinds scope t with
  | Err e => (t, Err e)
  | Ok kinds =>
      match claimable_for kinds scope now t with
      | [] => (t, Ok None)
      | first :: _ =>
          match toProjectScope scope (fst (fst first)) with
          | Err e => (t, Err e)
          | Ok projectScope =>
              match lease_end now with
              | Err e => (t, Err e)
              | Ok leaseUntil =>
                  match leaseOperation projectScope (snd (fst first)) (sc_principalId scope) leaseUntil now token t with
                  | (t, Err e) => (t, Err e)
                  | (t, Ok leased) => (t, Ok (Some (fst first, leased)))
                  end
              end
          end
      end
  end.

(** ** Recovery *)

Record RecoveryReport := mkRecoveryReport { rr_succeededSkipped : Z; rr_reclaimable : Z; rr_markedUnknown : Z }.

Definition is_expired (row : OperationRow) (now : ustr) : bool := match op_leaseUntil row with None => false | Some until => later now until end.

(** One row of the scan; the rows were read before the first was marked. *)
Definition recover_row (adminScope : PrincipalScope) (now errorDigest : ustr) (st : OperationTables * RecoveryReport) (entry : OpKey * OperationRow)
    : result OpErr (OperationTables * RecoveryReport) :=
  let '(t, r) := st in
  let '(key, row) := entry in
  let more := mkRecoveryReport (rr_succeededSkipped r) (rr_reclaimable r + 1) (rr_markedUnknown r) in
  let unknown := mkRecoveryReport (rr_succeededSkipped r) (rr_reclaimable r) (rr_markedUnknown r + 1) in
  match op_state row with
  | op_succeeded | op_cancelled => Ok (t, mkRecoveryReport (rr_succeededSkipped r + 1) (rr_reclaimable r) (rr_markedUnknown r))
  | op_ready => Ok (t, more)
  | op_failed => Ok (t, if op_reclaimable row then more else r)
  | op_leased =>
      if is_expired row now && (op_reclaimable row || reclaimable_kind (op_kind row)) then Ok (t, more)
      else if is_expired row now && negb (op_reclaimable row) then
        let? scope := toProjectScope adminScope (fst key) in
        match markOperationUnknown scope (snd key) errorDigest now t with
        | (_, Err e) => Err e
        | (t, Ok _) => Ok (t, unknown)
        end
      else Ok (t, r)
  | op_unknown => Ok (t, unknown)
  end.

(** The loop over the operations; transactions before one that throws stay committed. *)
Fixpoint recover_rows (adminScope : PrincipalScope) (now errorDigest : ustr) (rows : list (OpKey * OperationRow)) (st : OperationTables * RecoveryReport)
    : OperationTables * result OpErr RecoveryReport :=
  match rows with
  | [] => (fst st, Ok (snd st))
  | row :: rest =>
      match recover_row adminScope now errorDigest st row with
      | Err e => (fst st, Err e)
      | Ok st => recover_rows adminScope now errorDigest rest st
      end
  end.

Definition recoverOperations (adminScope : PrincipalScope) (now errorDigest : ustr) (t : OperationTables) : OperationTables * result OpErr RecoveryReport :=
  recover_rows adminScope now errorDigest (scanOperations t) (t, mkRecoveryReport 0 0 0).
End Leases.
