(* ===== verification/OperationTheorems.v ===== *)
(** Theorems about queued operations: the history of every operation is a run of a lease machine,
    whatever handlers run and in which order. *)

From Stdlib Require Import String.
From S2P Require Import Prelude JsText CanonicalJson Digest Identity OperationStore.
Open Scope string_scope.
Open Scope list_scope.

(** ** The abstract machine *)

(** What happens to an operation: a lease is granted, its holder settles it, or recovery gives it up. *)
Inductive OpEvent : Type :=
| Granted (k : OpKey) (g : Z) (owner hash : ustr)
| Settled (k : OpKey) (g : Z) (owner token : ustr) (s : OperationState)
| Abandoned (k : OpKey) (g : Z).

Definition event_key (e : OpEvent) : OpKey := match e with Granted k _ _ _ | Settled k _ _ _ _ | Abandoned k _ => k end.
Definition events_of (k : OpKey) (h : list OpEvent) : list OpEvent := List.filter (fun e => bool_decide (event_key e = k)) h.

Inductive phase : Set := Waiting | Held (owner hash : ustr) | Finished (s : OperationState).

Section Theorems.
Variable hmac_sha256 : bytes -> bytes -> bytes.
Variable hostLeaseKey : bytes.
Variable base64url_encode : bytes -> ustr.
Variable base64url_decode : ustr -> bytes.
Variable Date_parse : ustr -> option Z.

(** The token is the one whose hash was stored with the lease. *)
Definition proves (token hash : ustr) : Prop := verifyLeaseToken hmac_sha256 hostLeaseKey (base64url_decode token) hash = true.

Definition grantable (reclaimable : bool) (ph : phase) : Prop :=
  match ph with Waiting => True | Finished op_succeeded => False | _ => reclaimable = true end.

(** A lease has the next generation; only the holder of the running lease settles it, once. *)
Inductive lease_history (k : OpKey) (reclaimable : bool) : Z -> phase -> list OpEvent -> Prop :=
| lh_start : lease_history k reclaimable 0 Waiting []
| lh_grant g ph es owner hash : lease_history k reclaimable g ph es -> grantable reclaimable ph ->
    lease_history k reclaimable (g + 1) (Held owner hash) (es ++ [Granted k (g + 1) owner hash])
| lh_settle g owner hash es token s : lease_history k reclaimable g (Held owner hash) es -> proves token hash ->
    s ∈ [op_succeeded; op_failed; op_unknown] ->
    lease_history k reclaimable g (Finished s) (es ++ [Settled k g owner token s])
| lh_abandon g owner hash es : lease_history k reclaimable g (Held owner hash) es -> reclaimable = false ->
    lease_history k reclaimable g (Finished op_unknown) (es ++ [Abandoned k g]).

(** The row of an operation in a phase. *)
Definition in_phase (r : OperationRow) (ph : phase) : Prop :=
  match ph with
  | Waiting => op_state r = op_ready
  | Held owner hash => op_state r = op_leased /\ op_leaseOwner r = Some owner /\ op_leaseTokenHash r = Some hash
  | Finished s => op_state r = s /\ s ∈ [op_succeeded; op_failed; op_unknown]
  end.

(** *** What the machine guarantees *)

Definition is_granted (e : OpEvent) : bool := match e with Granted _ _ _ _ => true | _ => false end.

(** Grants count the generation; without reclaiming there is one. *)
Lemma history_grants k rc g ph es : lease_history k rc g ph es ->
  Z.of_nat (length (List.filter is_granted es)) = g /\ (rc = false -> (g <= 1)%Z /\ (ph = Waiting -> g = 0)%Z) /\ (0 <= g)%Z.
Proof.
  induction 1 as [|g ph es owner hash _ (IH & Hrc & Hg) Hgr|g owner hash es token s _ (IH & Hrc & Hg) _ _|g owner hash es _ (IH & Hrc & Hg) _].
  - cbn. lia.
  - rewrite List.filter_app, length_app. cbn. split_and!; [lia| |lia]. intros ->. split; [|done]. destruct (Hrc eq_refl) as [? Hw].
    destruct ph as [|? ?|[]]; cbn in Hgr; try done. rewrite (Hw eq_refl). lia.
  - rewrite List.filter_app, length_app. cbn. split_and!; [lia| |lia]. intros Hr. split; [by apply Hrc | done].
  - rewrite List.filter_app, length_app. cbn. split_and!; [lia| |lia]. intros Hr. split; [by apply Hrc | done].
Qed.

Lemma snoc_split {A} (es : list A) e l x r : es ++ [e] = l ++ x :: r -> r = [] /\ es = l /\ e = x \/ exists r', r = r' ++ [e] /\ es = l ++ x :: r'.
Proof.
  destruct r as [|y r] using rev_ind; intros H.
  - left. by apply app_inj_tail in H as [-> ->].
  - right. exists r. rewrite app_comm_cons, app_assoc in H. by apply app_inj_tail in H as [-> ->].
Qed.

(** The phase after a last event. *)
Lemma history_last k rc g ph es e : lease_history k rc g ph (es ++ [e]) ->
  match e with
  | Granted _ g' owner hash => g' = g /\ ph = Held owner hash
  | Settled _ g' _ _ s => g' = g /\ ph = Finished s
  | Abandoned _ g' => g' = g /\ ph = Finished op_unknown
  end.
Proof.
  remember (es ++ [e]) as L eqn:E. intros H. destruct H; [by destruct es|..]; apply app_inj_tail in E as [_ <-]; done.
Qed.

(** A settlement follows the grant of the same lease, to the same owner, by the token granted; after
    success nothing follows. *)
Lemma history_settled k rc g ph es l k' g' owner token s r : lease_history k rc g ph es -> es = l ++ Settled k' g' owner token s :: r ->
  (exists l' hash, l = l' ++ [Granted k g' owner hash] /\ proves token hash) /\ (s = op_succeeded -> r = []).
Proof.
  intros H. revert l r. induction H as [|g ph es o hash H IH Hgr|g o hash es tok s0 H IH Hp Hs|g o hash es H IH Hrc]; intros l r E.
  - by destruct l.
  - apply snoc_split in E as [(_ & _ & ?)|(r' & -> & E)]; [done|]. destruct (IH _ _ E) as [? Hr]. split; [done|]. intros Hs. specialize (Hr Hs) as ->.
    subst es s. apply history_last in H as [_ ->]. done.
  - apply snoc_split in E as [(-> & -> & [= -> -> -> -> ->])|(r' & -> & E)].
    + split; [|done]. inversion H as [|? ? es' ? ? ? ?| |]; subst. by exists es', hash.
    + destruct (IH _ _ E) as [? Hr]. split; [done|]. intros ->. specialize (Hr eq_refl) as ->. subst es. by apply history_last in H as [_ ?].
  - apply snoc_split in E as [(_ & _ & ?)|(r' & -> & E)]; [done|]. destruct (IH _ _ E) as [? Hr]. split; [done|]. intros ->. specialize (Hr eq_refl) as ->.
    subst es. by apply history_last in H as [_ ?].
Qed.

(** ** Tables *)

Notation row t k := (JsMap.get k (ot_operations t)).

Lemma get_snoc_key {V} (k k' : OpKey) (v : V) m : JsMap.get k (m ++ [(k', v)]) =
  match JsMap.get k m with Some x => Some x | None => if decide (k = k') then Some v else None end.
Proof. induction m as [|[k0 v0] m IH]; cbn; [done|]. destruct (decide (k = k0)); [done | apply IH]. Qed.

Lemma get_map_row k (f : OperationRow -> OperationRow) (m : list (OpKey * OperationRow)) : JsMap.get k (map (fun '(key, r) => (key, f r)) m) = f <$> JsMap.get k m.
Proof. induction m as [|[k0 r0] m IH]; cbn; [done|]. by destruct (decide (k = k0)). Qed.

Definition rows_ok (t : OperationTables) : Prop := forall k r, row t k = Some r -> row_ok t k r = true.

(** What every write keeps: the other tables, one row per key, and the constraints. *)
Record keeps (t t' : OperationTables) : Prop := {
  kp_artifacts : ot_artifacts t' = ot_artifacts t;
  kp_runs : ot_runs t' = ot_runs t;
  kp_runners : ot_runners t' = ot_runners t;
  kp_keys : NoDup (JsMap.keys (ot_operations t)) -> NoDup (JsMap.keys (ot_operations t'));
  kp_rows : rows_ok t -> rows_ok t'
}.

#[local] Instance keeps_preorder : PreOrder keeps.
Proof. split; [by split|]. intros t1 t2 t3 [] []. split; [congruence | congruence | congruence | auto | auto]. Qed.

Lemma row_ok_same t t' k r : ot_artifacts t' = ot_artifacts t -> ot_runs t' = ot_runs t -> row_ok t' k r = row_ok t k r.
Proof. unfold row_ok, runExists, artifact_or_null, artifactExists. by intros -> ->. Qed.

Lemma insert_spec key r t x t' : insert_operation key r t = Ok (x, t') ->
  keeps t t' /\ row t key = None /\ forall k, row t' k = if decide (k = key) then Some r else row t k.
Proof.
  unfold insert_operation. intros H. destruct (JsMap.has key (ot_operations t) || _) eqn:E; [done|]. apply orb_false_iff in E as [E _].
  destruct (negb (row_ok t key r)) eqn:Er; [done|]. apply negb_false_iff in Er. injection H as <- <-. unfold JsMap.has in E.
  destruct (JsMap.get key _) eqn:Ek; [done|]. assert (Hrow : forall k, JsMap.get k (ot_operations t ++ [(key, r)]) = if decide (k = key) then Some r else row t k).
  { intros k. rewrite get_snoc_key. case_decide; subst; [by rewrite Ek|]. by destruct (JsMap.get k _). }
  split; [|done]. split; try done.
  - cbn [with_operations ot_operations]. intros Hn. unfold JsMap.keys. rewrite map_app. apply NoDup_app. split_and!; [done| |apply NoDup_singleton].
    intros k Hk. cbn. rewrite list_elem_of_singleton. intros ->. by apply JsMap.get_none in Ek.
  - intros Hok k r0. cbn [with_operations ot_operations]. rewrite Hrow, (row_ok_same t) by done. case_decide; [intros [= ->]; by subst | apply Hok].
Qed.

Lemma update_spec key r t x t' : update_operation key r t = Ok (x, t') ->
  keeps t t' /\ forall k, row t' k = if decide (k = key) then Some r else row t k.
Proof.
  unfold update_operation. intros H. destruct (negb (row_ok t key r)) eqn:Er; [done|]. apply negb_false_iff in Er. injection H as <- <-.
  assert (Hrow : forall k, JsMap.get k (JsMap.set key r (ot_operations t)) = if decide (k = key) then Some r else row t k) by (intros; apply JsMap.get_set).
  split; [|done]. split; try done.
  - cbn. apply JsMap.NoDup_keys_set.
  - intros Hok k r0. cbn [with_operations ot_operations]. rewrite Hrow, (row_ok_same t) by done. case_decide; [intros [= ->]; by subst | apply Hok].
Qed.

Lemma write_back_spec key r t y t' : write_back key r t = Ok (y, t') ->
  keeps t t' /\ forall k, row t' k = if decide (k = key) then Some r else row t k.
Proof.
  unfold write_back. intros H. apply rbind_ok in H as ([x t1] & H1 & H2). unfold reread in H2. destruct (readOperation _ _ _); [|done].
  injection H2 as _ <-. by eapply update_spec.
Qed.

(** ** One row *)

Definition grantable_row (r : OperationRow) : Prop :=
  op_state r = op_ready \/ op_reclaimable r = true /\ op_state r ∈ [op_leased; op_failed; op_unknown].

(** What one step does to the row of an operation, with the events of that operation. *)
Inductive row_change (k : OpKey) : list OpEvent -> option OperationRow -> option OperationRow -> Prop :=
| rc_same o : row_change k [] o o
| rc_create i : row_change k [] None (Some (ready_row i))
| rc_grant r owner until hash now : grantable_row r ->
    row_change k [Granted k (op_leaseGeneration r + 1) owner hash] (Some r) (Some (leased_row r owner until hash now))
| rc_extend r until now : op_state r = op_leased -> row_change k [] (Some r) (Some (extended_row r until now))
| rc_settle r owner hash token s result error now : op_state r = op_leased -> op_leaseOwner r = Some owner -> op_leaseTokenHash r = Some hash ->
    proves token hash -> s ∈ [op_succeeded; op_failed; op_unknown] ->
    row_change k [Settled k (op_leaseGeneration r) owner token s] (Some r) (Some (settled_row r s result error now))
| rc_abandon r error now : op_state r = op_leased -> op_reclaimable r = false ->
    row_change k [Abandoned k (op_leaseGeneration r)] (Some r) (Some (settled_row r op_unknown None (Some error) now)).

(** The history of a row after a change of it. *)
Definition historic (k : OpKey) (o : option OperationRow) (es : list OpEvent) : Prop :=
  match o with
  | None => es = []
  | Some r => exists ph, lease_history k (op_reclaimable r) (op_leaseGeneration r) ph es /\ in_phase r ph
  end.

Ltac not_listed H := repeat (apply elem_of_cons in H as [?|H]; [congruence|]); by apply not_elem_of_nil in H.

Lemma in_phase_leased r ph : op_state r = op_leased -> in_phase r ph ->
  exists owner hash, ph = Held owner hash /\ op_leaseOwner r = Some owner /\ op_leaseTokenHash r = Some hash.
Proof.
  destruct ph as [|owner hash|s]; cbn; intros Hs H; [congruence | naive_solver|]. destruct H as [H Hin]. rewrite Hs in H. subst s.
  not_listed Hin.
Qed.

Lemma row_change_historic k evs o o' es : historic k o es -> row_change k evs o o' -> historic k o' (es ++ evs).
Proof.
  intros H C. destruct C as [o|i|r owner until hash now Hg|r until now Hs|r owner hash token s result error now Hs Ho Hh Hp Hin|r error now Hs Hr];
    cbn [historic] in *; rewrite ?app_nil_r; try done.
  - subst es. exists Waiting. split; [constructor | done].
  - destruct H as (ph & H & Hph). exists (Held owner hash). split; [|done]. cbn. apply lh_grant with ph; [done|].
    destruct ph as [|? ?|s]; cbn in *; [done| |].
    + destruct Hph as [Hst _], Hg as [?|[? _]]; [congruence | done].
    + destruct Hph as [<- Hin], Hg as [Hg|[Hg Hl]]; [rewrite Hg in Hin; not_listed Hin|]. destruct (op_state r); try done; not_listed Hl.
  - destruct H as (ph & H & Hph). destruct (in_phase_leased r ph Hs Hph) as (owner' & hash' & -> & Ho' & Hh'). rewrite Ho in Ho'. rewrite Hh in Hh'.
    injection Ho' as <-. injection Hh' as <-. exists (Finished s). split; [by apply lh_settle with hash | done].
  - destruct H as (ph & H & Hph). destruct (in_phase_leased r ph Hs Hph) as (owner' & hash' & -> & _). exists (Finished op_unknown).
    split; [by apply lh_abandon with owner' hash' | split; [done | set_solver]].
Qed.

(** A success is the end. *)
Lemma row_change_succeeded k evs r o' : op_state r = op_succeeded -> row_change k evs (Some r) o' -> evs = [] /\ o' = Some r.
Proof.
  intros Hs C. inversion C as [| |? ? ? ? ? Hg|? ? ? Hl|? ? ? ? ? ? ? ? Hl|? ? ? Hl]; subst; try congruence; [done|].
  destruct Hg as [?|[_ Hin]]; [congruence|]. rewrite Hs in Hin. not_listed Hin.
Qed.

(** ** The transactions *)

Record effect (t : OperationTables) (evs : list OpEvent) (t' : OperationTables) : Prop := {
  ef_keeps : keeps t t';
  ef_rows : forall k, row_change k (events_of k evs) (row t k) (row t' k)
}.

Lemma effect_none t : effect t [] t.
Proof. split; [reflexivity | intros k; constructor]. Qed.

Lemma events_of_own k evs : Forall (fun e => event_key e = k) evs -> events_of k evs = evs.
Proof. unfold events_of. induction 1 as [|e evs He _ IH]; cbn; [done|]. by rewrite bool_decide_true, IH. Qed.

Lemma events_of_other k k' evs : k <> k' -> Forall (fun e => event_key e = k') evs -> events_of k evs = [].
Proof. unfold events_of. intros Hne. induction 1 as [|e evs He _ IH]; cbn; [done|]. by rewrite bool_decide_false, IH by congruence. Qed.

(** A write of one row. *)
Lemma effect_key key evs t t' r : keeps t t' -> (forall k, row t' k = if decide (k = key) then Some r else row t k) ->
  Forall (fun e => event_key e = key) evs -> row_change key evs (row t key) (Some r) -> effect t evs t'.
Proof.
  intros Hk Hrow He Hc. split; [done|]. intros k. rewrite Hrow. destruct (decide (k = key)) as [->|Hne].
  - by rewrite events_of_own.
  - rewrite (events_of_other k key) by done. constructor.
Qed.

Lemma enqueue_effect projectId i t y t' : enqueue_work projectId i t = Ok (y, t') -> effect t [] t'.
Proof.
  unfold enqueue_work. destruct (negb _); [done|]. destruct (negb _); [done|]. destruct (readOperation t projectId _) as [r|] eqn:Er.
  { destruct (negb _); [done|]. intros [= _ <-]. apply effect_none. }
  destruct (array_find _ _) as [[key found]|].
  { destruct (bool_decide _); [|done]. unfold reread. destruct (readOperation t key.1 key.2); [|done]. intros [= _ <-]. apply effect_none. }
  intros H. apply rbind_ok in H as ([x t1] & H1 & H2). unfold reread in H2. destruct (readOperation t1 _ _); [|done]. injection H2 as _ <-.
  apply insert_spec in H1 as (Hk & Hnone & Hrow). eapply effect_key; [done | exact Hrow | constructor|]. rewrite Hnone. constructor.
Qed.

Lemma leaseRow_some projectId operationId t r : leaseRow projectId operationId t = Ok r -> row t (projectId, operationId) = Some r.
Proof. unfold leaseRow, readOperation. destruct (JsMap.get _ _); [by intros [= ->] | done]. Qed.

Lemma assert_leasable_row r now : assert_leasable r now = Ok tt -> grantable_row r.
Proof.
  unfold assert_leasable, grantable_row. destruct (op_state r) eqn:Es, (op_reclaimable r) eqn:Er; cbn; try done; auto; intros _; right; (split; [done|]);
    set_solver.
Qed.

Notation lease_tx := (lease_work hmac_sha256 hostLeaseKey base64url_encode).
Notation heartbeat_tx := (heartbeat_work hmac_sha256 hostLeaseKey base64url_decode).
Notation complete_tx := (complete_work hmac_sha256 hostLeaseKey base64url_decode).
Notation fail_tx := (fail_work hmac_sha256 hostLeaseKey base64url_decode).

Lemma lease_effect projectId operationId owner until now token t l t' : lease_tx projectId operationId owner until now token t = Ok (l, t') ->
  effect t [Granted (projectId, operationId) (lr_generation l) owner (leaseTokenHashHex hmac_sha256 hostLeaseKey token)] t'.
Proof.
  unfold lease_work. intros H. apply rbind_ok in H as (r & Hr%leaseRow_some & H). apply rbind_ok in H as ([] & Hl%assert_leasable_row & H).
  apply rbind_ok in H as ([x t1] & H1 & H2). injection H2 as <- <-. apply update_spec in H1 as [Hk Hrow].
  eapply effect_key; [done | exact Hrow | by constructor|]. rewrite Hr. by constructor.
Qed.

(** The lease that a token and an owner prove. *)
Definition holds (r : OperationRow) (token owner : ustr) : Prop :=
  op_state r = op_leased /\ op_leaseOwner r = Some owner /\ exists hash, op_leaseTokenHash r = Some hash /\ proves token hash.

Lemma live_lease r token owner now : assertLiveLease hmac_sha256 hostLeaseKey base64url_decode r token owner now = Ok tt -> holds r token owner.
Proof.
  unfold assertLiveLease. intros H. inv_ok. apply negb_false_iff, bool_decide_eq_true in Hb, Hb1. destruct (op_leaseTokenHash r) as [h|] eqn:Eh; [|done].
  apply negb_false_iff in Hb2. split_and!; [done | done|]. by exists h.
Qed.

(** The lease of a row has not ended. *)
Definition in_time (r : OperationRow) (now : ustr) : Prop := exists until, op_leaseUntil r = Some until /\ later now until = false.

Lemma live_in_time r token owner now : assertLiveLease hmac_sha256 hostLeaseKey base64url_decode r token owner now = Ok tt -> in_time r now.
Proof. unfold assertLiveLease. intros H. inv_ok. destruct (op_leaseUntil r) as [until|] eqn:E; [|done]. by exists until. Qed.

Lemma observed_ok r d : assertObservedInput r (Some d) = Ok tt -> op_inputDigest r = d.
Proof. unfold assertObservedInput. intros H. inv_ok. by apply negb_false_iff, bool_decide_eq_true in Hb. Qed.

Lemma generation_ok r g : assertLeaseGeneration r (Some g) = Ok tt -> op_leaseGeneration r = g.
Proof. unfold assertLeaseGeneration. intros H. inv_ok. apply negb_false_iff in Hb. lia. Qed.

(** A heartbeat extends the lease of its holder. *)
Lemma heartbeat_effect projectId operationId token owner until now g observed t x t' :
  heartbeat_tx projectId operationId token owner until now (Some g) (Some observed) t = Ok (x, t') ->
  effect t [] t' /\ exists r, row t (projectId, operationId) = Some r /\ holds r token owner /\ op_leaseGeneration r = g /\
    op_inputDigest r = observed /\ in_time r now /\
    row t' (projectId, operationId) = Some (extended_row r until now) /\ forall k, k <> (projectId, operationId) -> row t' k = row t k.
Proof.
  unfold heartbeat_work. intros H. apply rbind_ok in H as (r & Hr%leaseRow_some & H). apply rbind_ok in H as ([] & Hl & H).
  pose proof (live_in_time _ _ _ _ Hl) as Ht. apply live_lease in Hl.
  apply rbind_ok in H as ([] & Hg%generation_ok & H). apply rbind_ok in H as ([] & Ho%observed_ok & H). apply update_spec in H as [Hk Hrow]. split.
  - eapply effect_key; [done | exact Hrow | constructor|]. rewrite Hr. constructor. apply Hl.
  - exists r. split_and!; try done; [|]. { rewrite Hrow. by rewrite decide_True. } intros k Hne. rewrite Hrow. by rewrite decide_False.
Qed.

(** The holder settles its lease. *)
Lemma settled_effect key r token owner s result error now t y t' : row t key = Some r -> holds r token owner ->
  s ∈ [op_succeeded; op_failed; op_unknown] -> write_back key (settled_row r s result error now) t = Ok (y, t') ->
  effect t [Settled key (op_leaseGeneration r) owner token s] t'.
Proof.
  intros Hr (Hst & Ho & hash & Hh & Hp) Hs H. apply write_back_spec in H as [Hk Hrow]. eapply effect_key; [done | exact Hrow | by constructor|].
  rewrite Hr. by apply rc_settle with hash.
Qed.

Lemma complete_effect projectId operationId token owner d now updated g t y t' :
  complete_tx projectId operationId token owner d now updated (Some g) t = Ok (y, t') ->
  effect t [Settled (projectId, operationId) g owner token op_succeeded] t'.
Proof.
  unfold complete_work. intros H. apply rbind_ok in H as (r & Hr%leaseRow_some & H). apply rbind_ok in H as ([] & Hl%live_lease & H).
  apply rbind_ok in H as ([] & <-%generation_ok & H). destruct (negb _); [done|]. eapply settled_effect; [done | done | set_solver | done].
Qed.

Lemma fail_effect projectId operationId token owner d now updated g t y t' :
  fail_tx projectId operationId token owner d now updated (Some g) t = Ok (y, t') ->
  effect t [Settled (projectId, operationId) g owner token op_failed] t'.
Proof.
  unfold fail_work. intros H. apply rbind_ok in H as (r & Hr%leaseRow_some & H). apply rbind_ok in H as ([] & Hl%live_lease & H).
  apply rbind_ok in H as ([] & <-%generation_ok & H). destruct (negb _); [done|]. eapply settled_effect; [done | done | set_solver | done].
Qed.

Lemma unknown_spec projectId operationId d updated t y t' : unknown_work projectId operationId d updated t = Ok (y, t') ->
  keeps t t' /\ exists r, row t (projectId, operationId) = Some r /\
    forall k, row t' k = if decide (k = (projectId, operationId)) then Some (settled_row r op_unknown None (Some d) updated) else row t k.
Proof.
  unfold unknown_work. intros H. apply rbind_ok in H as (r & Hr%leaseRow_some & H). destruct (negb _); [done|].
  apply write_back_spec in H as [Hk Hrow]. split; [done|]. by exists r.
Qed.

Lemma expire_effect owner until t : effect t [] (expireLeasesForOwner owner until t).
Proof.
  split.
  - split; try done.
    + cbn. intros Hn. unfold JsMap.keys. rewrite map_map. by erewrite map_ext; [exact Hn|]; intros [].
    + intros Hok k r. cbn [expireLeasesForOwner with_operations ot_operations]. rewrite get_map_row, (row_ok_same t) by done.
      destruct (row t k) as [r0|] eqn:Er; [|done]. cbn. intros [= <-]. specialize (Hok k r0 Er). unfold expire_row. destruct (_ && _) eqn:E; [|done].
      apply andb_true_iff in E as [_ Es]. rewrite bool_decide_eq_true in Es. revert Hok. unfold row_ok, row_check. cbn. rewrite Es.
      destruct (op_leaseUntil r0); [done|]. cbn. by rewrite !andb_false_r.
  - intros k. cbn [expireLeasesForOwner with_operations ot_operations events_of List.filter]. rewrite get_map_row.
    destruct (row t k) as [r0|]; cbn; [|constructor]. unfold expire_row. destruct (_ && _) eqn:E; [|constructor].
    apply andb_true_iff in E as [_ Es]. rewrite bool_decide_eq_true in Es. by constructor.
Qed.

(** ** The handlers *)

Lemma scoped_cases {R} scope (work : ustr -> otx R) t t' r : scoped scope work t = (t', r) ->
  t' = t /\ (exists e, r = Err e) \/ exists x, work (ps_projectId scope) t = Ok (x, t') /\ r = Ok x.
Proof.
  unfold scoped, commit. destruct (scopedProjectId scope) as [p|e] eqn:E; [|intros [= <- <-]; left; by eauto].
  unfold scopedProjectId in E. destruct (_ || _); [done|]. injection E as <-. destruct (work _ t) as [[x t1]|e]; intros [= <- <-]; [right | left]; by eauto.
Qed.

Lemma toProjectScope_id scope projectId ps : toProjectScope scope projectId = Ok ps -> ps_projectId ps = projectId.
Proof. unfold toProjectScope. destruct (array_find _ _); [by intros [= <-] | done]. Qed.

Lemma open_id scope projectId operationId t ps r : open_operation scope projectId operationId t = Ok (ps, r) -> ps_projectId ps = projectId.
Proof.
  unfold open_operation. intros H. apply rbind_ok in H as (ps' & Hps & H). apply rbind_ok in H as (r' & _ & H). apply rbind_ok in H as (? & _ & H).
  injection H as <- _. by eapply toProjectScope_id.
Qed.

Notation on_heartbeat := (handleHeartbeat hmac_sha256 hostLeaseKey base64url_decode Date_parse).
Notation on_complete := (handleComplete hmac_sha256 hostLeaseKey base64url_decode Date_parse).
Notation on_lease := (handleLease hmac_sha256 hostLeaseKey base64url_encode Date_parse).

Definition outcome_state (o : OperationOutcome) : OperationState :=
  match o with SUCCEEDED _ => op_succeeded | FAILED _ => op_failed | UNKNOWN _ => op_unknown end.

(** The events of the answers. *)
Definition lease_events (owner : ustr) (token : bytes) (r : result OpErr (option (OpKey * LeaseResult))) : list OpEvent :=
  match r with Ok (Some (k, l)) => [Granted k (lr_generation l) owner (leaseTokenHashHex hmac_sha256 hostLeaseKey token)] | _ => [] end.
Definition settle_events (key : OpKey) (g : Z) (owner token : ustr) (o : OperationOutcome) (r : result OpErr (ustr * OperationRow)) : list OpEvent :=
  match r with Ok _ => [Settled key g owner token (outcome_state o)] | Err _ => [] end.

Lemma handleHeartbeat_effect scope projectId operationId token g observed now t t' r :
  on_heartbeat scope projectId operationId token g observed now t = (t', r) -> effect t [] t'.
Proof.
  unfold handleHeartbeat. destruct (open_operation _ _ _ _) as [[ps cur]|e]; [|intros [= <- _]; apply effect_none].
  destruct (lease_end _ now); [|intros [= <- _]; apply effect_none].
  destruct (heartbeatOperation _ _ _ _ _ _ _ _ _ _ _ _) as [t1 r1] eqn:E. assert (effect t [] t1).
  { apply scoped_cases in E as [[-> _]|(x & E & _)]; [apply effect_none | by apply heartbeat_effect in E as [? _]]. }
  destruct r1; by intros [= <- _].
Qed.

(** What a heartbeat of an operation with row [r] does: it is refused and changes nothing, or it comes with the owner, the token, the
    generation and the input of the running lease before it ends, and the lease then ends thirty seconds later. *)
Definition heartbeat_answer (t : OperationTables) (k : OpKey) (r : OperationRow) (owner token : ustr) (g : Z) (observed now : ustr)
    (t' : OperationTables) (answer : result OpErr (ustr * bool)) : Prop :=
  match answer with
  | Err _ => t' = t
  | Ok (until, _) =>
      holds r token owner /\ op_leaseGeneration r = g /\ op_inputDigest r = observed /\ in_time r now /\
      date_plus Date_parse now (30 * 1000) = Some until /\
      row t' k = Some (mkOperation (op_runId r) (op_kind r) (op_dedupeKey r) (op_inputDigest r) (op_state r) (op_reclaimable r) (op_leaseGeneration r)
        (op_leaseOwner r) (Some until) (op_leaseTokenHash r) (op_resultDigest r) (op_errorDigest r) (op_createdAt r) now) /\
      forall k', k' <> k -> row t' k' = row t k'
  end.

Lemma heartbeat_of_holder scope k r token g observed now t t' answer : row t k = Some r ->
  on_heartbeat scope k.1 k.2 token g observed now t = (t', answer) ->
  heartbeat_answer t k r (sc_principalId scope) token g observed now t' answer.
Proof.
  intros Hr. unfold handleHeartbeat. destruct (open_operation _ _ _ _) as [[ps cur]|e] eqn:Eo; [|by intros [= <- <-]]. apply open_id in Eo.
  destruct (lease_end Date_parse now) as [until|] eqn:Ee; [|by intros [= <- <-]].
  destruct (heartbeatOperation _ _ _ _ _ _ _ _ _ _ _ _) as [t1 r1] eqn:E. apply scoped_cases in E as [[-> [e ->]]|(x & E & ->)]; [by intros [= <- <-]|].
  intros [= <- <-]. rewrite Eo in E. apply heartbeat_effect in E as (_ & r0 & Hr0 & Hh & Hg & Hob & Ht & Hr' & Hother).
  destruct k as [p o]. cbn [fst snd] in *. rewrite Hr in Hr0. injection Hr0 as <-. cbn [heartbeat_answer]. split_and!; try done.
  unfold lease_end in Ee. destruct (date_plus _ _ _) eqn:Ed; [|done]. apply (inj Ok) in Ee. by subst.
Qed.

Lemma handleComplete_effect scope projectId operationId token g outcome now t t' r :
  on_complete scope projectId operationId token g outcome now t = (t', r) ->
  effect t (settle_events (projectId, operationId) g (sc_principalId scope) token outcome r) t'.
Proof.
  unfold handleComplete. destruct (open_operation _ _ _ _) as [[ps cur]|e] eqn:Eo; [|intros [= <- <-]; apply effect_none]. apply open_id in Eo.
  destruct outcome as [d|d|d].
  - intros E. apply scoped_cases in E as [[-> [e ->]]|(x & E & ->)]; [apply effect_none|]. rewrite Eo in E. by apply complete_effect in E.
  - intros E. apply scoped_cases in E as [[-> [e ->]]|(x & E & ->)]; [apply effect_none|]. rewrite Eo in E. by apply fail_effect in E.
  - destruct (lease_end _ now); [|intros [= <- <-]; apply effect_none].
    destruct (heartbeatOperation _ _ _ _ _ _ _ _ _ _ _ _) as [t1 r1] eqn:E. apply scoped_cases in E as [[-> [e ->]]|(x & E & ->)].
    { intros [= <- <-]. apply effect_none. }
    rewrite Eo in E. apply heartbeat_effect in E as (Hext & r0 & Hr & (Hst & Ho & hash & Hh & Hp) & Hg & _ & _ & Hr' & Hother). intros E.
    apply scoped_cases in E as [[-> [e ->]]|(y & E & ->)]; [done|]. rewrite Eo in E. apply unknown_spec in E as (Hk & r1 & Hr1 & Hrow).
    rewrite Hr' in Hr1. injection Hr1 as <-. cbn [settle_events outcome_state].
    apply (effect_key (projectId, operationId) _ _ _ (settled_row r0 op_unknown None (Some d) now)).
    + etrans; [apply Hext | done].
    + intros k. rewrite Hrow. case_decide; [done | by apply Hother].
    + by constructor.
    + rewrite Hr, <- Hg. apply rc_settle with hash; try done. set_solver.
Qed.

Lemma handleLease_effect scope now token t t' r : on_lease scope now token t = (t', r) -> effect t (lease_events (sc_principalId scope) token r) t'.
Proof.
  unfold handleLease. destruct (allowed_kinds scope t) as [kinds|e]; [|intros [= <- <-]; apply effect_none].
  destruct (claimable_for kinds scope now t) as [|[[p o] row] rest]; [intros [= <- <-]; apply effect_none|].
  destruct (toProjectScope scope _) as [ps|e] eqn:Ep; [|intros [= <- <-]; apply effect_none]. apply toProjectScope_id in Ep. cbn [fst snd] in *.
  destruct (lease_end _ now); [|intros [= <- <-]; apply effect_none].
  destruct (leaseOperation _ _ _ _ _ _ _ _ _ _) as [t1 r1] eqn:E. apply scoped_cases in E as [[-> [e ->]]|(l & E & ->)].
  - intros [= <- <-]. apply effect_none.
  - intros [= <- <-]. rewrite Ep in E. by apply lease_effect in E.
Qed.

Lemma enqueueOperation_effect scope i t : effect t [] (enqueueOperation scope i t).1.
Proof.
  unfold enqueueOperation, commit. destruct (scopedProjectId scope) as [p|e]; [|apply effect_none]. destruct (negb _); [apply effect_none|].
  destruct (enqueue_work p i t) as [[y t']|e] eqn:E; [by eapply enqueue_effect | apply effect_none].
Qed.

(** ** Recovery *)

(** Recovery marks rows whose lease ran out and that nobody may take over. *)
Definition abandoned_row (r : OperationRow) (o' : option OperationRow) : Prop :=
  exists error now, op_state r = op_leased /\ op_reclaimable r = false /\ o' = Some (settled_row r op_unknown None (Some error) now).

Lemma recover_row_spec scope now d t rep key r t' rep' : row t key = Some r -> recover_row scope now d (t, rep) (key, r) = Ok (t', rep') ->
  keeps t t' /\ (forall k, k <> key -> row t' k = row t k) /\ (row t' key = row t key \/ abandoned_row r (row t' key)).
Proof.
  intros Hr. assert (Hsame : keeps t t /\ (forall k, k <> key -> row t k = row t k) /\ (row t key = row t key \/ abandoned_row r (row t key))).
  { split; [reflexivity|]. split; [done | by left]. }
  unfold recover_row. destruct (op_state r) eqn:Es; try (by intros [= <- _]).
  destruct (is_expired r now && (op_reclaimable r || _)) eqn:E1; [by intros [= <- _]|].
  destruct (is_expired r now && negb (op_reclaimable r)) eqn:E2; [|by intros [= <- _]]. apply andb_true_iff in E2 as [_ E2]. apply negb_true_iff in E2.
  intros H. apply rbind_ok in H as (ps & Hps%toProjectScope_id & H). destruct (markOperationUnknown _ _ _ _ _) as [t1 r1] eqn:E.
  apply scoped_cases in E as [[-> [e ->]]|(y & E & ->)]; [done|]. injection H as <- _. rewrite Hps in E. destruct key as [p o]. cbn [fst snd] in *.
  apply unknown_spec in E as (Hk & r0 & Hr0 & Hrow). rewrite Hr in Hr0. injection Hr0 as <-. split; [done|]. split.
  - intros k Hne. rewrite Hrow. by rewrite decide_False.
  - right. exists d, now. split_and!; [done | done|]. rewrite Hrow. by rewrite decide_True.
Qed.

Lemma recover_rows_spec scope now d rows : forall t rep t' res, NoDup (map fst rows) -> (forall k r, (k, r) ∈ rows -> row t k = Some r) ->
  recover_rows scope now d rows (t, rep) = (t', res) ->
  keeps t t' /\ forall k, row t' k = row t k \/ exists r, row t k = Some r /\ abandoned_row r (row t' k).
Proof.
  induction rows as [|[key r] rows IH]; intros t rep t' res Hn Hrows; cbn [recover_rows].
  { intros [= <- _]. split; [reflexivity|]. intros k. by left. }
  cbn [map fst] in Hn. apply NoDup_cons in Hn as [Hkey Hn]. destruct (recover_row _ _ _ _ _) as [[t1 rep1]|e] eqn:E.
  - pose proof (Hrows key r ltac:(by left)) as Hr. destruct (recover_row_spec _ _ _ _ _ _ _ _ _ Hr E) as (Hk & Hother & Hown). intros H.
    destruct (IH t1 rep1 t' res Hn) as [Hk' Hall]; [|done|].
    { intros k r0 Hin. rewrite Hother; [apply Hrows; by right|]. intros ->. apply Hkey. by apply (list_elem_of_fmap_2 fst rows (key, r0)). }
    split; [by etrans|]. intros k. destruct (decide (k = key)) as [->|Hne]; [|rewrite <- (Hother k Hne); apply Hall].
    destruct Hown as [Hown|(err & n & Hs & Hrc & Hown)]; [rewrite <- Hown; apply Hall|]. right. exists r. split; [done|].
    destruct (Hall key) as [->|(r1 & Hr1 & err' & n' & Hs' & _)]; [by exists err, n|]. rewrite Hown in Hr1. by injection Hr1 as <-.
  - intros [= <- _]. split; [reflexivity|]. intros k. by left.
Qed.

(** The operations that a recovery gave up. *)
Definition abandoned_event (t' : OperationTables) (entry : OpKey * OperationRow) : option OpEvent :=
  match row t' (fst entry) with
  | Some r' => if bool_decide (op_state (snd entry) = op_leased) && bool_decide (op_state r' = op_unknown)
               then Some (Abandoned (fst entry) (op_leaseGeneration (snd entry))) else None
  | None => None
  end.
Definition abandoned_events (t t' : OperationTables) : list OpEvent := omap (abandoned_event t') (ot_operations t).

Lemma events_of_abandoned t' k m : NoDup (JsMap.keys m) ->
  events_of k (omap (abandoned_event t') m) = match JsMap.get k m with Some r => option_list (abandoned_event t' (k, r)) | None => [] end.
Proof.
  assert (Hkey : forall k0 r0 e, abandoned_event t' (k0, r0) = Some e -> event_key e = k0).
  { intros k0 r0 e. unfold abandoned_event. cbn. destruct (JsMap.get k0 _); [|done]. destruct (_ && _); [by intros [= <-] | done]. }
  assert (Hnone : forall m, k ∉ JsMap.keys m -> events_of k (omap (abandoned_event t') m) = []).
  { induction m0 as [|[k0 r0] m0 IH]; [done|]. cbn [JsMap.keys map fst]. intros [Hne Hm]%not_elem_of_cons. cbn [omap list_omap].
    destruct (abandoned_event t' (k0, r0)) as [e|] eqn:E; [|by apply IH]. unfold events_of in *. cbn [List.filter]. apply Hkey in E.
    rewrite bool_decide_false by congruence. by apply IH. }
  induction m as [|[k0 r0] m IH]; [done|]. cbn [JsMap.keys map fst JsMap.get omap list_omap]. intros [Hk0 Hn]%NoDup_cons.
  destruct (decide (k = k0)) as [->|Hne].
  - destruct (abandoned_event t' (k0, r0)) as [e|] eqn:E; cbn [option_list]; [|by apply Hnone]. unfold events_of in *. cbn [List.filter].
    pose proof (Hkey _ _ _ E). rewrite bool_decide_true by done. by rewrite Hnone.
  - destruct (abandoned_event t' (k0, r0)) as [e|] eqn:E; [|by apply IH]. unfold events_of in *. cbn [List.filter]. apply Hkey in E.
    rewrite bool_decide_false by congruence. by apply IH.
Qed.

Lemma scan_rows t k r : NoDup (JsMap.keys (ot_operations t)) -> (k, r) ∈ scanOperations t -> row t k = Some r.
Proof. intros Hn. unfold scanOperations. rewrite elem_of_sort_by. by apply JsMap.elem_get. Qed.

Lemma recover_effect scope now d t : NoDup (JsMap.keys (ot_operations t)) ->
  effect t (abandoned_events t (recoverOperations scope now d t).1) (recoverOperations scope now d t).1.
Proof.
  intros Hn. destruct (recoverOperations scope now d t) as [t' res] eqn:E. cbn [fst]. unfold recoverOperations in E.
  apply recover_rows_spec in E as [Hk Hall].
  - split; [done|]. intros k. unfold abandoned_events. rewrite events_of_abandoned by done.
    destruct (Hall k) as [Hs|(r & Hr & err & n & Hst & Hrc & Hr')].
    + rewrite Hs. destruct (row t k) as [r|] eqn:Er; [|constructor]. unfold abandoned_event. cbn [fst snd]. rewrite Hs.
      destruct (op_state r); cbn; constructor.
    + rewrite Hr. unfold abandoned_event. cbn [fst snd]. rewrite Hr', Hst. cbn. by constructor.
  - unfold scanOperations. by rewrite sort_by_perm.
  - intros k r. by apply scan_rows.
Qed.

(** ** Every order of steps *)

(** A step of the control plane: a handler, a recovery, or a change of the other tables, in which
    artifacts and runs are only added. *)
Inductive op_step (t : OperationTables) : list OpEvent -> OperationTables -> Prop :=
| st_enqueue scope i : op_step t [] (enqueueOperation scope i t).1
| st_lease scope now token t' r : on_lease scope now token t = (t', r) -> op_step t (lease_events (sc_principalId scope) token r) t'
| st_heartbeat scope projectId operationId token g observed now :
    op_step t [] (on_heartbeat scope projectId operationId token g observed now t).1
| st_complete scope projectId operationId token g outcome now t' r : on_complete scope projectId operationId token g outcome now t = (t', r) ->
    op_step t (settle_events (projectId, operationId) g (sc_principalId scope) token outcome r) t'
| st_recover scope now d : op_step t (abandoned_events t (recoverOperations scope now d t).1) (recoverOperations scope now d t).1
| st_expire owner until : op_step t [] (expireLeasesForOwner owner until t)
| st_tables artifacts runs runners : ot_artifacts t ⊆ artifacts -> ot_runs t ⊆ runs ->
    op_step t [] (mkOpTables artifacts runs runners (ot_operations t)).

(** The tables after some steps, and what happened. *)
Inductive reached : OperationTables -> list OpEvent -> Prop :=
| reached_empty artifacts runs runners : reached (mkOpTables artifacts runs runners []) []
| reached_step t h evs t' : reached t h -> op_step t evs t' -> reached t' (h ++ evs).

Lemma row_ok_mono t t' k r : ot_artifacts t ⊆ ot_artifacts t' -> ot_runs t ⊆ ot_runs t' -> row_ok t k r = true -> row_ok t' k r = true.
Proof.
  intros Ha Hr. assert (Hart : forall d, artifactExists t k.1 d = true -> artifactExists t' k.1 d = true).
  { intros d. unfold artifactExists. rewrite !includes_true. apply Ha. }
  assert (Hrun : runExists t k.1 (op_runId r) = true -> runExists t' k.1 (op_runId r) = true).
  { unfold runExists. rewrite !includes_true. apply Hr. }
  unfold row_ok, artifact_or_null. rewrite !andb_true_iff. intros (((((((? & ?) & ?) & ?) & Hx) & Hy) & ?) & ?). split_and!; auto;
    [destruct (op_resultDigest r) | destruct (op_errorDigest r)]; auto.
Qed.

Lemma step_rows t evs t' : NoDup (JsMap.keys (ot_operations t)) -> op_step t evs t' ->
  NoDup (JsMap.keys (ot_operations t')) /\ (rows_ok t -> rows_ok t') /\ forall k, row_change k (events_of k evs) (row t k) (row t' k).
Proof.
  intros Hn H. assert (Heff : forall es t1, effect t es t1 ->
    NoDup (JsMap.keys (ot_operations t1)) /\ (rows_ok t -> rows_ok t1) /\ forall k, row_change k (events_of k es) (row t k) (row t1 k)).
  { intros es t1 [[_ _ _ Hk Hr] Hrows]. split_and!; auto. }
  destruct H as [scope i|scope now token t' r E|scope p o token g ob now|scope p o token g outcome now t' r E|scope now d|owner until|artifacts runs runners Ha Hr].
  - apply Heff, enqueueOperation_effect.
  - by apply Heff, handleLease_effect with now.
  - apply Heff. destruct (on_heartbeat _ _ _ _ _ _ _ t) as [t' r] eqn:E. by eapply handleHeartbeat_effect.
  - by apply Heff, handleComplete_effect with now.
  - by apply Heff, recover_effect.
  - apply Heff, expire_effect.
  - split_and!; [done| |intros k; constructor]. intros Hok k r Hrow. by apply row_ok_mono with t; [..|apply Hok].
Qed.

(** The invariant of the table. *)
Lemma reached_inv t h : reached t h -> NoDup (JsMap.keys (ot_operations t)) /\ rows_ok t /\ forall k, historic k (row t k) (events_of k h).
Proof.
  induction 1 as [artifacts runs runners|t h evs t' _ (Hn & Hok & Hh) Hs]; [split_and!; [constructor | done | done]|].
  destruct (step_rows t evs t' Hn Hs) as (Hn' & Hok' & Hrows). split_and!; [done | auto|]. intros k. unfold events_of. rewrite List.filter_app.
  by eapply row_change_historic.
Qed.

(** The row of every operation is in a phase of the lease machine that its history leads to. *)
Lemma reached_history t h k r : reached t h -> row t k = Some r ->
  exists ph, lease_history k (op_reclaimable r) (op_leaseGeneration r) ph (events_of k h) /\ in_phase r ph.
Proof. intros H Hr. destruct (reached_inv t h H) as (_ & _ & Hh). specialize (Hh k). by rewrite Hr in Hh. Qed.

(** C7: whatever handlers, recoveries and expirations run, in any order, every operation of the table
    keeps the constraints of its table and its events follow the lease protocol: the generation counts the
    leases granted, and an operation that is not reclaimable is leased at most once; a settlement is the
    next event after the grant of the lease of its generation, by the owner it was granted to and with the
    token of that grant; a heartbeat is refused and changes nothing unless it comes with the owner, the token,
    the generation and the input of the running lease before that ends, and then moves the end of this lease only
    to thirty seconds from now; nothing happens after a success, and no later step changes the row. *)
Theorem operation_leases_exclusive t h k r : reached t h -> row t k = Some r ->
  row_ok t k r = true /\
  Z.of_nat (length (List.filter is_granted (events_of k h))) = op_leaseGeneration r /\
  (op_reclaimable r = false -> (op_leaseGeneration r <= 1)%Z) /\
  (forall before g owner token s after, events_of k h = before ++ Settled k g owner token s :: after ->
     (exists before' hash, before = before' ++ [Granted k g owner hash] /\ proves token hash) /\ (s = op_succeeded -> after = [])) /\
  (forall scope token g observed now t' answer, on_heartbeat scope k.1 k.2 token g observed now t = (t', answer) ->
     heartbeat_answer t k r (sc_principalId scope) token g observed now t' answer) /\
  (op_state r = op_succeeded -> forall evs t', op_step t evs t' -> row t' k = Some r /\ events_of k evs = []).
Proof.
  intros H Hr. destruct (reached_inv t h H) as (Hn & Hok & _). destruct (reached_history t h k r H Hr) as (ph & Hh & _).
  destruct (history_grants _ _ _ _ _ Hh) as (Hg & Hrc & _). split_and!; [by apply Hok | done | by intros ?; apply Hrc| | |].
  - intros before g owner token s after E. by eapply history_settled.
  - intros scope token g observed now t' answer. by apply heartbeat_of_holder.
  - intros Hs evs t' Hstep. destruct (step_rows t evs t' Hn Hstep) as (_ & _ & Hrows). specialize (Hrows k). rewrite Hr in Hrows.
    by apply row_change_succeeded in Hrows as [-> ->].
Qed.

(** ** Progress *)

Lemma hex_value_digit n : (n < 16)%N -> hex_value (hex_digit n) = Some n.
Proof.
  intros H. assert (Hall : forallb (fun n => bool_decide (hex_value (hex_digit n) = Some n)) (map N.of_nat (seq 0 16)) = true) by (vm_compute; reflexivity).
  rewrite forallb_forall in Hall. specialize (Hall n). rewrite bool_decide_eq_true in Hall. apply Hall. apply in_map_iff. exists (N.to_nat n).
  rewrite N2Nat.id. split; [done|]. apply in_seq. lia.
Qed.

Lemma hex_roundtrip bs : Forall (fun b => b < 256)%N bs -> hex_decode (hex_encode bs) = bs.
Proof.
  induction 1 as [|b bs Hb _ IH]; [done|]. unfold hex_encode in *. cbn [flat_map app hex_decode]. rewrite !hex_value_digit.
  - rewrite IH. f_equal. pose proof (N.div_mod b 16). lia.
  - apply N.mod_lt. lia.
  - apply N.Div0.div_lt_upper_bound. lia.
Qed.

Lemma verify_granted token : Forall (fun b => b < 256)%N (hmac_sha256 hostLeaseKey token) ->
  verifyLeaseToken hmac_sha256 hostLeaseKey token (leaseTokenHashHex hmac_sha256 hostLeaseKey token) = true.
Proof.
  intros Hb. unfold verifyLeaseToken, leaseTokenHashHex, hashLeaseToken, hmacEqual. rewrite hex_roundtrip by done. rewrite Nat.eqb_refl. by rewrite bool_decide_true.
Qed.

Lemma claimable_leasable projectIds now k r : claimable projectIds now (k, r) = true -> k.1 ∈ projectIds /\ assert_leasable r now = Ok tt.
Proof.
  unfold claimable, assert_leasable. cbn [fst snd]. destruct (includes k.1 projectIds) eqn:Ei; cbn [negb]; [|done]. apply includes_true in Ei.
  intros H. split; [done|]. destruct (op_state r), (op_reclaimable r); cbn in *; try done. destruct (op_leaseUntil r); [|done]. by destruct (later _ _).
Qed.

Lemma leased_row_ok t k r owner until hash now : row_ok t k r = true -> row_ok t k (leased_row r owner until hash now) = true.
Proof.
  unfold row_ok. rewrite !andb_true_iff. cbn. intros (((((((_ & Hg) & ?) & ?) & _) & _) & ?) & ?). split_and!; try done. lia.
Qed.

(** The row an outcome leaves, and the artifact it names. *)
Definition settled_by (outcome : OperationOutcome) (r : OperationRow) (now : ustr) : OperationRow :=
  match outcome with
  | SUCCEEDED d => settled_row r op_succeeded (Some d) None now
  | FAILED d => settled_row r op_failed None (Some d) now
  | UNKNOWN d => settled_row r op_unknown None (Some d) now
  end.
Definition outcome_digest (o : OperationOutcome) : ustr := match o with SUCCEEDED d | FAILED d | UNKNOWN d => d end.

(** The row with an outcome: the state, with the artifact as its result or its error, in the next generation and without a lease. *)
Definition recorded (outcome : OperationOutcome) (r : OperationRow) (now : ustr) : OperationRow :=
  mkOperation (op_runId r) (op_kind r) (op_dedupeKey r) (op_inputDigest r)
    (match outcome with SUCCEEDED _ => op_succeeded | FAILED _ => op_failed | UNKNOWN _ => op_unknown end)
    (op_reclaimable r) (op_leaseGeneration r + 1) None None None
    (match outcome with SUCCEEDED d => Some d | _ => None end) (match outcome with SUCCEEDED _ => None | FAILED d | UNKNOWN d => Some d end)
    (op_createdAt r) now.

Lemma settled_recorded outcome r owner until hash now now' : settled_by outcome (leased_row r owner until hash now) now' = recorded outcome r now'.
Proof. by destruct outcome. Qed.

Lemma settled_by_ok t k r outcome now : row_ok t k r = true -> artifactExists t k.1 (outcome_digest outcome) = true ->
  row_ok t k (settled_by outcome r now) = true.
Proof.
  unfold row_ok. rewrite !andb_true_iff. intros (((((((_ & Hg) & ?) & ?) & _) & _) & ?) & ?) Hd. destruct outcome; cbn in *; by split_and!.
Qed.

Lemma extended_row_ok t k r until now : op_state r = op_leased -> row_ok t k r = true -> row_ok t k (extended_row r until now) = true.
Proof.
  intros Hs. unfold row_ok, row_check. cbn [extended_row op_state op_leaseOwner op_leaseUntil op_leaseTokenHash op_resultDigest op_errorDigest
    op_leaseGeneration op_runId op_inputDigest op_kind op_reclaimable none_of negb]. rewrite Hs, !andb_true_iff. tauto.
Qed.

Lemma granted_scope scope projectId : projectId ∈ map pg_projectId (projectGrants scope) -> projectId <> [] ->
  exists ps, toProjectScope scope projectId = Ok ps /\ scopedProjectId ps = Ok projectId.
Proof.
  intros (g & -> & Hg)%list_elem_of_fmap Hne. unfold toProjectScope. destruct (array_find _ _) as [g'|] eqn:E.
  - eexists. split; [done|]. unfold scopedProjectId. cbn [ps_scope ps_projectId]. rewrite (bool_decide_false (pg_projectId g = [])) by done.
    rewrite orb_false_r. replace (hasProjectGrant scope (pg_projectId g)) with true; [done|]. symmetry. apply existsb_exists. exists g.
    split; [by apply list_elem_of_In | by apply bool_decide_eq_true].
  - pose proof (array_find_none _ _ E g Hg) as Hf. cbn beta in Hf. by rewrite bool_decide_true in Hf.
Qed.

Lemma lease_tx_ok t p o r owner until now token : row t (p, o) = Some r -> row_ok t (p, o) r = true -> assert_leasable r now = Ok tt ->
  lease_tx p o owner until now token t = Ok (mkLease (base64url_encode token) (op_leaseGeneration r + 1) until,
    with_operations (JsMap.set (p, o) (leased_row r owner until (leaseTokenHashHex hmac_sha256 hostLeaseKey token) now) (ot_operations t)) t).
Proof.
  intros Hr Hok Hl. unfold lease_work, leaseRow, readOperation. rewrite Hr. cbn [rbind]. rewrite Hl. cbn [rbind]. unfold update_operation.
  rewrite leased_row_ok by done. done.
Qed.

Notation put k r t := (with_operations (JsMap.set k r (ot_operations t)) t).

Lemma write_back_ok t p o r : row_ok t (p, o) r = true -> write_back (p, o) r t = Ok ((o, r), put (p, o) r t).
Proof.
  intros Hok. unfold write_back, update_operation. rewrite Hok. cbn [negb rbind]. unfold reread, readOperation.
  cbn [fst snd with_operations ot_operations]. by rewrite JsMap.get_set_eq.
Qed.

(** A row leased to an owner, whose token is known, while the lease runs. *)
Record running (r : OperationRow) (owner token now : ustr) (g : Z) : Prop := {
  rn_holds : holds r token owner;
  rn_time : in_time r now;
  rn_generation : op_leaseGeneration r = g
}.

Lemma running_asserts r owner token now g : running r owner token now g ->
  assertLiveLease hmac_sha256 hostLeaseKey base64url_decode r token owner now = Ok tt /\ assertLeaseGeneration r (Some g) = Ok tt.
Proof.
  intros [(Hs & Ho & hash & Hh & Hp) (until & Hu & Hl) Hg]. unfold assertLiveLease, assertLeaseGeneration.
  rewrite Hs, Hu, Ho, Hh, Hl, Hp, Hg, Z.eqb_refl. by rewrite !bool_decide_true.
Qed.

(** The holder settles its operation with any outcome. *)
Lemma complete_ok t scope ps p o r token g outcome now until : open_operation scope p o t = Ok (ps, r) -> scopedProjectId ps = Ok p ->
  row t (p, o) = Some r -> row_ok t (p, o) r = true -> running r (sc_principalId scope) token now g ->
  artifactExists t p (outcome_digest outcome) = true -> lease_end Date_parse now = Ok until ->
  exists t', on_complete scope p o token g outcome now t = (t', Ok (o, settled_by outcome r now)) /\
    row t' (p, o) = Some (settled_by outcome r now) /\ forall k, k <> (p, o) -> row t' k = row t k.
Proof.
  intros Hopen Hsc Hr Hok Hrun Hd Hend. destruct (running_asserts _ _ _ _ _ Hrun) as [Hl Hg].
  assert (Hstate : op_state r = op_leased) by apply Hrun.
  assert (Hput : forall t1, (forall k, row t1 k = if decide (k = (p, o)) then Some (settled_by outcome r now) else row t k) ->
    row t1 (p, o) = Some (settled_by outcome r now) /\ forall k, k <> (p, o) -> row t1 k = row t k).
  { intros t1 H1. split; [by rewrite H1, decide_True|]. intros k Hne. by rewrite H1, decide_False. }
  unfold handleComplete. rewrite Hopen. pose proof (settled_by_ok t (p, o) r outcome now Hok Hd) as Hset.
  destruct outcome as [d|d|d]; cbn [outcome_digest] in Hd.
  1, 2: unfold completeOperation, failOperation, scoped, commit; rewrite Hsc; unfold complete_work, fail_work, leaseRow, readOperation;
    rewrite Hr; cbn [rbind]; rewrite Hl; cbn [rbind]; rewrite Hg; cbn [rbind]; rewrite Hd; cbn [negb]; cbn [settled_by] in Hset |- *;
    rewrite (write_back_ok _ _ _ _ Hset); eexists; (split; [reflexivity|]); apply Hput; intros k; apply JsMap.get_set.
  rewrite Hend. unfold heartbeatOperation, markOperationUnknown, scoped, commit. rewrite Hsc. unfold heartbeat_work, leaseRow, readOperation.
  rewrite Hr. cbn [rbind]. rewrite Hl. cbn [rbind]. rewrite Hg. cbn [rbind]. unfold assertObservedInput. rewrite bool_decide_true by done. cbn [negb rbind].
  unfold update_operation. rewrite (extended_row_ok t (p, o) r until now Hstate Hok). cbn [negb].
  unfold unknown_work, leaseRow, readOperation. cbn [with_operations ot_operations]. rewrite JsMap.get_set_eq. cbn [rbind].
  change (artifactExists (put (p, o) (extended_row r until now) t) p d) with (artifactExists t p d). rewrite Hd. cbn [negb].
  change (settled_row (extended_row r until now) op_unknown None (Some d) now) with (settled_by (UNKNOWN d) r now).
  rewrite (write_back_ok (put (p, o) (extended_row r until now) t)) by (by rewrite (row_ok_same t)). eexists. split; [reflexivity|].
  apply Hput. intros k. cbn [with_operations ot_operations]. rewrite !JsMap.get_set. by case_decide.
Qed.

(** C8: the first operation that a worker or a registered runner can claim is leased to it under the next
    generation, for thirty seconds, and until the lease ends the token it was given settles the operation: as
    succeeded, failed or unknown, with the artifact named.  The table then has the operation in that state, with the
    artifact as its result or its error and without a lease, and the rows of the other operations as they were. *)
Theorem claimed_operation_completes t h scope kinds now token p o r rest until now' until' outcome :
  reached t h -> allowed_kinds scope t = Ok kinds -> claimable_for kinds scope now t = ((p, o), r) :: rest -> p <> [] ->
  base64url_decode (base64url_encode token) = token -> Forall (fun b => b < 256)%N (hmac_sha256 hostLeaseKey token) ->
  date_plus Date_parse now (30 * 1000) = Some until -> later now' until = false -> date_plus Date_parse now' (30 * 1000) = Some until' ->
  artifactExists t p (outcome_digest outcome) = true ->
  exists t1 l t2, on_lease scope now token t = (t1, Ok (Some ((p, o), l))) /\
    lr_generation l = (op_leaseGeneration r + 1)%Z /\ lr_leaseUntil l = until /\
    on_complete scope p o (lr_token l) (lr_generation l) outcome now' t1 = (t2, Ok (o, recorded outcome r now')) /\
    row t2 (p, o) = Some (recorded outcome r now') /\ forall k, k <> (p, o) -> row t2 k = row t k.
Proof.
  intros H Hkinds Hc Hp Hb64 Hbytes Hend Hlater Hend' Hd. destruct (reached_inv t h H) as (Hn & Hok & _).
  assert (Hin : ((p, o), r) ∈ claimable_for kinds scope now t) by (rewrite Hc; by left).
  unfold claimable_for in Hin. apply elem_of_List_filter in Hin as [Hin _]. unfold listClaimableOperations in Hin.
  destruct (bool_decide _); [by apply not_elem_of_nil in Hin|]. apply elem_of_List_filter in Hin as [Hin Hcl].
  apply scan_rows in Hin; [|done]. apply claimable_leasable in Hcl as [Hgrant Hl]. cbn [fst] in Hgrant. pose proof (Hok _ _ Hin) as Hrow.
  destruct (granted_scope scope p Hgrant Hp) as (ps & Hps & Hsc).
  set (hash := leaseTokenHashHex hmac_sha256 hostLeaseKey token). set (r1 := leased_row r (sc_principalId scope) until hash now).
  set (t1 := put (p, o) r1 t). assert (Hr1 : row t1 (p, o) = Some r1) by (cbn [t1 with_operations ot_operations]; apply JsMap.get_set_eq).
  destruct (complete_ok t1 scope ps p o r1 (base64url_encode token) (op_leaseGeneration r + 1) outcome now' until') as (t2 & Ht2 & Hrow2 & Hother);
    [..|unfold r1 in Ht2, Hrow2; rewrite settled_recorded in Ht2, Hrow2].
  - unfold open_operation. rewrite Hps. cbn [rbind]. unfold getOperation. rewrite Hsc. cbn [rbind]. unfold readOperation. rewrite Hr1. cbn [rbind].
    unfold requireOwningRunner. destruct (negb _); [done|]. cbn [r1 leased_row op_leaseOwner]. by rewrite bool_decide_true.
  - done.
  - done.
  - rewrite (row_ok_same t) by done. by apply leased_row_ok.
  - split; [|by exists until | done]. split; [done|]. split; [done|]. exists hash. split; [done|]. unfold proves. rewrite Hb64. by apply verify_granted.
  - done.
  - unfold lease_end. change 30000%Z with (30 * 1000)%Z. by rewrite Hend'.
  - exists t1, (mkLease (base64url_encode token) (op_leaseGeneration r + 1) until), t2.
    split; [|split; [done|]; split; [done|]; split; [exact Ht2|]; split; [done|]].
    + unfold handleLease. rewrite Hkinds, Hc. cbn [fst snd]. rewrite Hps. unfold lease_end. change 30000%Z with (30 * 1000)%Z. rewrite Hend.
      unfold leaseOperation, scoped, commit. rewrite Hsc. by rewrite (lease_tx_ok t p o r).
    + intros k Hne. rewrite Hother by done. cbn [t1 with_operations ot_operations]. by rewrite JsMap.get_set, decide_False.
Qed.
End Theorems.

(** ** A concrete run *)

Definition plain_mac (key token : bytes) : bytes := key ++ token.
Definition run_now : ustr := u "2026-01-02T00:00:00.000Z".
Definition run_end : ustr := u "2026-01-02T00:00:30.000Z".
Definition run_later : ustr := u "2026-01-02T00:00:20.000Z".
Definition run_parse (text : ustr) : option Z :=
  if bool_decide (text = run_now) then Some 1767312000000%Z else if bool_decide (text = run_later) then Some 1767312020000%Z else None.
Definition same_text (x : ustr) : ustr := x.

Definition run_scope : PrincipalScope := mkScope (u "runner-1") k_runner (u "s") [] [mkProjectGrant (u "p") [] (u "g")] (u "0").
Definition run_enqueue : EnqueueOperationInput := mkEnqueue (u "op-1") (u "run-1") (u "PROMOTE_WORKSPACE") (u "dedupe") (u "in") (u "1").

Definition run_t0 : OperationTables := mkOpTables [(u "p", u "in"); (u "p", u "out")] [(u "p", u "run-1")] [(u "runner-1", None)] [].
Definition run_t1 : OperationTables := Eval vm_compute in (enqueueOperation (mkProjectScope run_scope (u "p") [] (u "g")) run_enqueue run_t0).1.
Definition run_lease := Eval vm_compute in handleLease plain_mac [7%N] same_text run_parse run_scope run_now [1%N; 2%N] run_t1.
Definition run_t2 : OperationTables := Eval vm_compute in run_lease.1.
Definition run_done := Eval vm_compute in
  handleComplete plain_mac [7%N] same_text run_parse run_scope (u "p") (u "op-1") [1%N; 2%N] 1 (SUCCEEDED (u "out")) run_later run_t2.
Definition run_t3 : OperationTables := Eval vm_compute in run_done.1.

Definition run_key : OpKey := (u "p", u "op-1").
Definition run_history : list OpEvent :=
  [Granted run_key 1 (u "runner-1") (u "070102"); Settled run_key 1 (u "runner-1") [1%N; 2%N] op_succeeded].

Lemma run_reached_1 : reached plain_mac [7%N] same_text same_text run_parse run_t1 [].
Proof.
  change run_t1 with (enqueueOperation (mkProjectScope run_scope (u "p") [] (u "g")) run_enqueue run_t0).1.
  apply (reached_step _ _ _ _ _ run_t0 [] []); constructor.
Qed.

Lemma run_reached_3 : reached plain_mac [7%N] same_text same_text run_parse run_t3 run_history.
Proof.
  change run_history with (([] ++ [Granted run_key 1 (u "runner-1") (u "070102")]) ++ [Settled run_key 1 (u "runner-1") [1%N; 2%N] op_succeeded]).
  eapply reached_step; [eapply reached_step; [apply run_reached_1|]|].
  - apply (st_lease plain_mac [7%N] same_text same_text run_parse run_t1 run_scope run_now [1%N; 2%N] run_t2 run_lease.2). vm_compute. reflexivity.
  - apply (st_complete plain_mac [7%N] same_text same_text run_parse run_t2 run_scope (u "p") (u "op-1") [1%N; 2%N] 1 (SUCCEEDED (u "out")) run_later
      run_t3 run_done.2). vm_compute. reflexivity.
Qed.

Lemma operation_leases_exclusive_witness : exists r, JsMap.get run_key (ot_operations run_t3) = Some r /\ op_state r = op_succeeded /\
  (op_leaseGeneration r <= 1)%Z /\ forall evs t', op_step plain_mac [7%N] same_text same_text run_parse run_t3 evs t' ->
  JsMap.get run_key (ot_operations t') = Some r.
Proof.
  eexists. split; [vm_compute; reflexivity|]. split; [reflexivity|].
  destruct (operation_leases_exclusive plain_mac [7%N] same_text same_text run_parse run_t3 run_history run_key _ run_reached_3 eq_refl)
    as (_ & _ & Hrc & _ & _ & Hs). split; [apply Hrc; reflexivity|]. intros evs t' Hstep. apply (Hs eq_refl evs t' Hstep).
Defined.

Lemma claimed_operation_completes_witness : exists t1 l t2 r,
  handleLease plain_mac [7%N] same_text run_parse run_scope run_now [1%N; 2%N] run_t1 = (t1, Ok (Some (run_key, l))) /\
  handleComplete plain_mac [7%N] same_text run_parse run_scope (u "p") (u "op-1") (lr_token l) (lr_generation l) (SUCCEEDED (u "out")) run_later t1 =
    (t2, Ok (u "op-1", r)) /\ JsMap.get run_key (ot_operations t2) = Some r /\ op_resultDigest r = Some (u "out").
Proof.
  destruct (claimed_operation_completes plain_mac [7%N] same_text same_text run_parse run_t1 [] run_scope RUNNER_OPERATION_KINDS run_now [1%N; 2%N]
    (u "p") (u "op-1") (ready_row run_enqueue) [] run_end run_later (u "2026-01-02T00:00:50.000Z") (SUCCEEDED (u "out")))
    as (t1 & l & t2 & H1 & _ & _ & H2 & H3 & _).
  - exact run_reached_1.
  - vm_compute. reflexivity.
  - vm_compute. reflexivity.
  - discriminate.
  - reflexivity.
  - repeat constructor.
  - vm_compute. reflexivity.
  - vm_compute. reflexivity.
  - vm_compute. reflexivity.
  - vm_compute. reflexivity.
  - exists t1, l, t2, (recorded (SUCCEEDED (u "out")) (ready_row run_enqueue) run_later).
    split; [exact H1|]. split; [exact H2|]. split; [exact H3 | reflexivity].
Defined.
