(* ===== verification/RunStore.v ===== *)
(** Runs in the state store (packages/state-store/src/repositories/runs.ts and events.ts, with the
    constraints and triggers of migrations/control/0001_initial.sql): the stored projection, the
    append-only event log, and the transaction that reduces an event and writes all of it. *)

From S2P Require Import Prelude Ids RunStates StateInvariants RunRegistry RunReducer.
Open Scope string_scope.
Open Scope list_scope.

(** ** Tables *)

Record RunRow := mkRunRow {
  rn_workspaceId : string;
  rn_state : RunState;
  rn_stateVersion : Z;
  rn_taskArtifactDigest : string;
  rn_snapshotId : option string;
  rn_requirementLedgerDigest : option string;
  rn_evidenceGraphDigest : option string;
  rn_contextPacketDigest : option string;
  rn_currentCandidateManifestDigest : option string;
  rn_verdictReportDigest : option string;
  rn_terminalResultDigest : option string;
  rn_createdAt : string;
  rn_updatedAt : string
}.

Record RunArtifactRow := mkRunArtifact { ra_projectId : string; ra_runId : string; ra_role : string; ra_digest : string; ra_createdAt : string }.

Record RunEventRow := mkRunEventRow {
  re_projectId : string;
  re_eventId : string;
  re_runId : string;
  re_sequence : Z;
  re_eventType : RunEventType;
  re_actorType : RunActorType;
  re_actorId : string;
  re_causationId : option string;
  re_correlationId : option string;
  re_payloadDigest : string;
  re_occurredAt : string
}.

Record SnapshotRow := mkSnapshot { sn_projectId : string; sn_snapshotId : string; sn_workspaceId : string; sn_manifestDigest : string }.
Record SnapshotArtifactRow := mkSnapshotArtifact { sa_projectId : string; sa_snapshotId : string; sa_digest : string }.

(** Projects with their trust, workspaces, artifacts with their schema, and the run tables. *)
Record RunTables := mkRunTables {
  rt_projects : list (string * bool);
  rt_workspaces : list (string * string);
  rt_artifacts : list ((string * string) * option string);
  rt_snapshots : list SnapshotRow;
  rt_snapshotArtifacts : list SnapshotArtifactRow;
  rt_runs : list ((string * string) * RunRow);
  rt_runArtifacts : list RunArtifactRow;
  rt_runEvents : list RunEventRow
}.

Definition with_runs (x : list ((string * string) * RunRow)) (t : RunTables) : RunTables :=
  mkRunTables (rt_projects t) (rt_workspaces t) (rt_artifacts t) (rt_snapshots t) (rt_snapshotArtifacts t) x (rt_runArtifacts t) (rt_runEvents t).
Definition with_runArtifacts (x : list RunArtifactRow) (t : RunTables) : RunTables :=
  mkRunTables (rt_projects t) (rt_workspaces t) (rt_artifacts t) (rt_snapshots t) (rt_snapshotArtifacts t) (rt_runs t) x (rt_runEvents t).
Definition with_runEvents (x : list RunEventRow) (t : RunTables) : RunTables :=
  mkRunTables (rt_projects t) (rt_workspaces t) (rt_artifacts t) (rt_snapshots t) (rt_snapshotArtifacts t) (rt_runs t) (rt_runArtifacts t) x.

Inductive RunStoreErr :=
| RUN_NOT_FOUND | STATE_VERSION_CONFLICT | CARDINALITY | PROJECT_UNTRUSTED | RUN_CONSTRAINT | reduce_error (e : ReduceError) | brand_error (e : BrandError).

Definition rtx (R : Type) : Type := RunTables -> result RunStoreErr (R * RunTables).

(** [executeWrite] *)
Definition run_commit {R} (work : rtx R) (t : RunTables) : RunTables * result RunStoreErr R :=
  match work t with Ok (r, t') => (t', Ok r) | Err e => (t, Err e) end.

(** The project of a scope and the projects it is granted. *)
Record RunScope := mkRunScope { rs_grants : list string; rs_projectId : string }.

Definition run_scoped {R} (scope : RunScope) (work : string -> rtx R) (t : RunTables) : RunTables * result RunStoreErr R :=
  if negb (includes (rs_projectId scope) (rs_grants scope)) || bool_decide (rs_projectId scope = "") then (t, Err RUN_NOT_FOUND)
  else run_commit (work (rs_projectId scope)) t.

(** ** Constraints *)

Definition artifact_exists (t : RunTables) (projectId digest : string) : bool := JsMap.has (projectId, digest) (rt_artifacts t).
Definition artifact_null (t : RunTables) (projectId : string) (d : option string) : bool :=
  match d with None => true | Some d => artifact_exists t projectId d end.

(** The snapshot of a run is one of its workspace. *)
Definition snapshot_ok (t : RunTables) (projectId workspaceId : string) (s : option string) : bool :=
  match s with
  | None => true
  | Some s => existsb (fun x => bool_decide (sn_projectId x = projectId) && bool_decide (sn_workspaceId x = workspaceId) &&
                                bool_decide (sn_snapshotId x = s)) (rt_snapshots t)
  end.

(** The foreign keys and checks of a run row. *)
Definition run_row_ok (t : RunTables) (projectId : string) (r : RunRow) : bool :=
  includes (projectId, rn_workspaceId r) (rt_workspaces t) && snapshot_ok t projectId (rn_workspaceId r) (rn_snapshotId r) &&
  artifact_exists t projectId (rn_taskArtifactDigest r) && artifact_null t projectId (rn_requirementLedgerDigest r) &&
  artifact_null t projectId (rn_evidenceGraphDigest r) && artifact_null t projectId (rn_contextPacketDigest r) &&
  artifact_null t projectId (rn_currentCandidateManifestDigest r) && artifact_null t projectId (rn_verdictReportDigest r) &&
  artifact_null t projectId (rn_terminalResultDigest r) && (0 <=? rn_stateVersion r)%Z &&
  Bool.eqb (is_state (rn_state r) SUCCEEDED) (match rn_terminalResultDigest r with Some _ => true | None => false end).

Definition run_role (r : string) : option ArtifactRoleEntry :=
  array_find (fun e => match ownerKind e with OwnRun => true | _ => false end && bool_decide (role e = r)) ARTIFACT_ROLE_REGISTRY.

Definition singular (e : ArtifactRoleEntry) : bool := match cardinality e with EXACTLY_ONE | ZERO_OR_ONE => true | ONE_OR_MORE => false end.

Definition of_run (projectId runId : string) (x : RunArtifactRow) : bool := bool_decide (ra_projectId x = projectId) && bool_decide (ra_runId x = runId).

(** The primary key, the foreign keys and the trigger [enforce_run_artifact_role]. *)
Definition insert_run_artifact (x : RunArtifactRow) : rtx unit := fun t =>
  throw_if negb (JsMap.has (ra_projectId x, ra_runId x) (rt_runs t)) with RUN_CONSTRAINT;
  match run_role (ra_role x), JsMap.get (ra_projectId x, ra_digest x) (rt_artifacts t) with
  | Some entry, Some schema =>
      throw_if match artifactSchemaName entry with None => false | Some s => negb (bool_decide (schema = Some s)) end with RUN_CONSTRAINT;
      throw_if singular entry && existsb (fun y => of_run (ra_projectId x) (ra_runId x) y && bool_decide (ra_role y = ra_role x)) (rt_runArtifacts t)
        with RUN_CONSTRAINT;
      throw_if existsb (fun y => of_run (ra_projectId x) (ra_runId x) y && bool_decide (ra_role y = ra_role x) && bool_decide (ra_digest y = ra_digest x))
        (rt_runArtifacts t) with RUN_CONSTRAINT;
      Ok (tt, with_runArtifacts (rt_runArtifacts t ++ [x]) t)
  | _, _ => Err RUN_CONSTRAINT
  end.

Definition event_of_run (projectId runId : string) (x : RunEventRow) : bool := bool_decide (re_projectId x = projectId) && bool_decide (re_runId x = runId).

Definition insert_run_event (x : RunEventRow) : rtx unit := fun t =>
  throw_if existsb (fun y => bool_decide (re_projectId y = re_projectId x) && bool_decide (re_eventId y = re_eventId x)) (rt_runEvents t) with RUN_CONSTRAINT;
  throw_if existsb (fun y => event_of_run (re_projectId x) (re_runId x) y && (re_sequence y =? re_sequence x)%Z) (rt_runEvents t) with RUN_CONSTRAINT;
  throw_if negb (0 <? re_sequence x)%Z || negb (JsMap.has (re_projectId x, re_runId x) (rt_runs t)) ||
    negb (artifact_exists t (re_projectId x) (re_payloadDigest x)) with RUN_CONSTRAINT;
  Ok (tt, with_runEvents (rt_runEvents t ++ [x]) t).

(** ** Loading *)

Definition digestForRole (artifacts : VerifiedArtifactSet) (r : string) : option string :=
  b_objectDigest <$> array_find (fun binding => bool_decide (b_role binding = r)) (bindings artifacts).

Definition resolveSnapshotId (t : RunTables) (projectId workspaceId : string) (artifacts : VerifiedArtifactSet) (inherited : option string) : option string :=
  match digestForRole artifacts R_SNAPSHOT with
  | None => inherited
  | Some manifest =>
      match array_find (fun s => bool_decide (sn_projectId s = projectId) && bool_decide (sn_workspaceId s = workspaceId) &&
                                 bool_decide (sn_manifestDigest s = manifest)) (rt_snapshots t) with
      | Some s => Some (sn_snapshotId s)
      | None =>
          match array_find (fun s => bool_decide (sa_projectId s = projectId) && bool_decide (sa_digest s = manifest)) (rt_snapshotArtifacts t) with
          | Some s => Some (sa_snapshotId s)
          | None => inherited
          end
      end
  end.

Definition brand_run {A} (c : result BrandError A) : result RunStoreErr A := match c with Ok a => Ok a | Err e => Err (brand_error e) end.

(** [ORDER BY role, artifact_digest] *)
Definition artifact_leb (a b : RunArtifactRow) : bool :=
  if bool_decide (ra_role a = ra_role b) then str_leb (ra_digest a) (ra_digest b) else str_leb (ra_role a) (ra_role b).

Definition group_artifact (grouped : list (string * list string)) (x : RunArtifactRow) : result RunStoreErr (list (string * list string)) :=
  let? digest := brand_run (asObjectDigest (ra_digest x)) in
  Ok (JsMap.set (ra_role x) (default [] (JsMap.get (ra_role x) grouped) ++ [digest]) grouped).

Definition loadArtifactRoles (t : RunTables) (projectId runId : string) : result RunStoreErr (list ProjectionRole) :=
  let? grouped := rfold group_artifact [] (sort_by artifact_leb (List.filter (of_run projectId runId) (rt_runArtifacts t))) in
  rmap (fun '(r, objectDigests) =>
    match array_find (fun entry => bool_decide (role entry = r)) ARTIFACT_ROLE_REGISTRY with
    | None => Err (reduce_error (UnknownArtifactRole r))
    | Some registered => Ok (mkProjectionRole r (cardinality registered) objectDigests)
    end) grouped.

Definition loadRunProjection (t : RunTables) (projectId runId : string) : result RunStoreErr (option RunProjection) :=
  match JsMap.get (projectId, runId) (rt_runs t) with
  | None => Ok None
  | Some row =>
      let? id := brand_run (asRunId runId) in
      let? roles := loadArtifactRoles t projectId runId in
      let? terminal := match rn_terminalResultDigest row with None => Ok None | Some d => let? d := brand_run (asObjectDigest d) in Ok (Some d) end in
      Ok (Some (mkRunProjection projectId id (rn_workspaceId row) (rn_state row) (rn_stateVersion row) (rn_snapshotId row) roles None terminal (rn_updatedAt row)))
  end.

Definition getRun (scope : RunScope) (runId : string) (t : RunTables) : result RunStoreErr RunProjection :=
  throw_if negb (includes (rs_projectId scope) (rs_grants scope)) || bool_decide (rs_projectId scope = "") with RUN_NOT_FOUND;
  let? p := loadRunProjection t (rs_projectId scope) runId in
  match p with None => Err RUN_NOT_FOUND | Some p => Ok p end.

(** [ORDER BY sequence] *)
Definition listRunEvents (scope : RunScope) (runId : string) (t : RunTables) : result RunStoreErr (list RunEventRow) :=
  throw_if negb (includes (rs_projectId scope) (rs_grants scope)) || bool_decide (rs_projectId scope = "") with RUN_NOT_FOUND;
  let? p := loadRunProjection t (rs_projectId scope) runId in
  match p with
  | None => Err RUN_NOT_FOUND
  | Some _ => Ok (sort_by (fun a b => re_sequence a <=? re_sequence b)%Z (List.filter (event_of_run (rs_projectId scope) runId) (rt_runEvents t)))
  end.

(** ** Writing *)

Definition createRun_work (projectId runId workspaceId taskEnvelopeDigest createdAt : string) : rtx RunProjection := fun t =>
  match JsMap.get projectId (rt_projects t) with
  | None => Err RUN_NOT_FOUND
  | Some trusted =>
      throw_if negb trusted with PROJECT_UNTRUSTED;
      throw_if negb (artifact_exists t projectId taskEnvelopeDigest) with RUN_NOT_FOUND;
      let row := mkRunRow workspaceId CREATED 0 taskEnvelopeDigest None None None None None None None createdAt createdAt in
      throw_if JsMap.has (projectId, runId) (rt_runs t) || negb (run_row_ok t projectId row) with RUN_CONSTRAINT;
      let t := with_runs (rt_runs t ++ [((projectId, runId), row)]) t in
      let? '(_, t) := insert_run_artifact (mkRunArtifact projectId runId "task-envelope" taskEnvelopeDigest createdAt) t in
      Ok (createRunProjection projectId runId workspaceId createdAt taskEnvelopeDigest, t)
  end.

Definition createRun (scope : RunScope) (runId workspaceId taskEnvelopeDigest createdAt : string) :=
  run_scoped scope (fun projectId => createRun_work projectId runId workspaceId taskEnvelopeDigest createdAt).

Definition lift_reduce {A} (r : result ReduceError A) : result RunStoreErr A := match r with Ok a => Ok a | Err e => Err (reduce_error e) end.

Definition enforceCardinality (s : RunState) (artifacts : VerifiedArtifactSet) : result RunStoreErr unit :=
  let? ok := lift_reduce (artifactRolesSatisfyState (presentRolesOf artifacts) s) in
  throw_if negb ok with CARDINALITY;
  rfold (fun _ r =>
    match run_role r with
    | None => Err CARDINALITY
    | Some registered =>
        throw_if singular registered && (1 <? length (List.filter (fun b => bool_decide (b_role b = r)) (bindings artifacts)))%nat with CARDINALITY;
        Ok tt
    end) tt (presentRolesOf artifacts).

Definition replaceRunArtifacts (projectId runId : string) (artifacts : VerifiedArtifactSet) (createdAt : string) : rtx unit := fun t =>
  let t := with_runArtifacts (List.filter (fun x => negb (of_run projectId runId x)) (rt_runArtifacts t)) t in
  rfold (fun st b => insert_run_artifact (mkRunArtifact projectId runId (b_role b) (b_objectDigest b) createdAt) (snd st)) (tt, t) (bindings artifacts).

(** The row that the update writes; the task digest may not be null. *)
Definition next_row (t : RunTables) (row : RunRow) (projectId : string) (current next : RunProjection) (artifacts : VerifiedArtifactSet)
    (terminal : option string) : result RunStoreErr RunRow :=
  match digestForRole artifacts R_TASK with
  | None => Err RUN_CONSTRAINT
  | Some task =>
      Ok (mkRunRow (rn_workspaceId row) (p_state next) (p_stateVersion next) task
        (resolveSnapshotId t projectId (p_workspaceId next) artifacts (match p_snapshotId next with Some s => Some s | None => p_snapshotId current end))
        (digestForRole artifacts R_LEDGER) (digestForRole artifacts R_EVIDENCE) (digestForRole artifacts R_CONTEXT) (digestForRole artifacts R_CANDIDATE)
        (digestForRole artifacts R_VERDICT) terminal (rn_createdAt row) (p_updatedAt next))
  end.

Definition event_row (projectId : string) (ev : RunDomainEvent) (sequence : Z) (payloadDigest : string) : RunEventRow :=
  mkRunEventRow projectId (ev_eventId ev) (ev_runId ev) sequence (ev_eventType ev) (ev_actorType ev) (ev_actorId ev) (ev_causationId ev)
    (ev_correlationId ev) payloadDigest (ev_occurredAt ev).

Definition persist_work (projectId : string) (ev : RunDomainEvent) (artifacts : VerifiedArtifactSet) (payloadDigest : string) : rtx RunProjection := fun t =>
  let? loaded := loadRunProjection t projectId (ev_runId ev) in
  match loaded, JsMap.get (projectId, ev_runId ev) (rt_runs t) with
  | Some current, Some row =>
      throw_if negb (p_stateVersion current =? ev_expectedStateVersion ev)%Z with STATE_VERSION_CONFLICT;
      throw_if negb (artifact_exists t projectId payloadDigest) with RUN_NOT_FOUND;
      let? '(next, _) := lift_reduce (reduceRun current ev artifacts) in
      let? _ := enforceCardinality (p_state next) artifacts in
      let? _ := lift_reduce (projectionArtifactRoles artifacts) in
      let terminal :=
        if is_state (p_state next) SUCCEEDED
        then match p_terminalResultObjectDigest next with Some d => Some d | None => digestForRole artifacts R_SUCCESS end
        else None in
      throw_if is_state (p_state next) SUCCEEDED && match terminal with None => true | Some _ => false end with CARDINALITY;
      let? row' := next_row t row projectId current next artifacts terminal in
      throw_if negb (run_row_ok t projectId row') with RUN_CONSTRAINT;
      throw_if negb (rn_stateVersion row =? ev_expectedStateVersion ev)%Z with STATE_VERSION_CONFLICT;
      let t := with_runs (JsMap.set (projectId, ev_runId ev) row' (rt_runs t)) t in
      let? '(_, t) := insert_run_event (event_row projectId ev (p_stateVersion next) payloadDigest) t in
      let? '(_, t) := replaceRunArtifacts projectId (ev_runId ev) artifacts (ev_occurredAt ev) t in
      let? stored := loadRunProjection t projectId (ev_runId ev) in
      match stored with None => Err STATE_VERSION_CONFLICT | Some p => Ok (p, t) end
  | _, _ => Err RUN_NOT_FOUND
  end.

Definition persistRunEvent (scope : RunScope) (ev : RunDomainEvent) (artifacts : VerifiedArtifactSet) (payloadDigest : string) (t : RunTables)
    : RunTables * result RunStoreErr RunProjection :=
  if negb (includes (rs_projectId scope) (rs_grants scope)) || bool_decide (rs_projectId scope = "") then (t, Err RUN_NOT_FOUND)
  else if negb (bool_decide (ev_projectId ev = rs_projectId scope)) then (t, Err RUN_NOT_FOUND)
  else run_commit (persist_work (rs_projectId scope) ev artifacts payloadDigest) t.
