(* ===== verification/RunStoreTheorems.v ===== *)
(** The run store refines the reducer: a stored run is the result of reducing the events of its log,
    in order, from a fresh projection. *)

From S2P Require Import Prelude Ids RunStates StateInvariants RunRegistry RunReducer RunTheorems RunStore.
Open Scope string_scope.
Open Scope list_scope.

(** ** Grouped artifacts *)

Definition grouped_has (g : list (string * list string)) (r d : string) : Prop := exists ds, (r, ds) ∈ g /\ d ∈ ds.

Definition holds_role (roles : list ProjectionRole) (r d : string) : Prop := exists e, e ∈ roles /\ pr_role e = r /\ d ∈ pr_objectDigests e.

Lemma elem_get_iff {V} (k : string) (v : V) m : NoDup (JsMap.keys m) -> (k, v) ∈ m <-> JsMap.get k m = Some v.
Proof. intros Hn. split; [by apply JsMap.elem_get | apply JsMap.get_some_elem]. Qed.

Lemma group_add g r d r' d' : NoDup (JsMap.keys g) ->
  grouped_has (JsMap.set r (default [] (JsMap.get r g) ++ [d]) g) r' d' <-> grouped_has g r' d' \/ r' = r /\ d' = d.
Proof.
  intros Hn. unfold grouped_has. setoid_rewrite (fun k v => elem_get_iff k v g Hn).
  setoid_rewrite (fun k v => elem_get_iff k v _ (JsMap.NoDup_keys_set r (default [] (JsMap.get r g) ++ [d]) g Hn)). setoid_rewrite JsMap.get_set.
  destruct (decide (r' = r)) as [->|Hne].
  - split.
    + intros (ds & [= <-] & [Hin|Hin]%elem_of_app).
      * left. destruct (JsMap.get r g) as [ds|]; [by exists ds | by apply not_elem_of_nil in Hin].
      * right. by apply list_elem_of_singleton in Hin as ->.
    + intros [(ds & Hg & Hin)|[_ ->]]; eexists; (split; [done|]); apply elem_of_app.
      * left. by rewrite Hg.
      * right. by left.
  - naive_solver.
Qed.

(** Turning groups into roles. *)
Lemma roles_of_groups {E} (err : string -> E) g roles r d :
  rmap (fun '(r, ds) =>
    match array_find (fun entry => bool_decide (role entry = r)) ARTIFACT_ROLE_REGISTRY with
    | None => Err (err r)
    | Some registered => Ok (mkProjectionRole r (cardinality registered) ds)
    end) g = Ok roles -> holds_role roles r d <-> grouped_has g r d.
Proof.
  intros H. apply rmap_ok in H. unfold holds_role, grouped_has. induction H as [|[r0 ds0] e g roles He _ IH].
  - split; [intros (e & ?%not_elem_of_nil & _) | intros (ds & ?%not_elem_of_nil & _)]; done.
  - destruct (array_find _ _); [|done]. injection He as <-. setoid_rewrite elem_of_cons. split.
    + intros (e' & [->|Hin] & Hr & Hd); [cbn in *; subst; eauto|]. destruct IH as [IH _]. destruct IH as (ds & ? & ?); [by exists e' | eauto].
    + intros (ds & [[= -> ->]|Hin] & Hd); [eexists; split; [by left | done]|]. destruct IH as [_ IH]. destruct IH as (e' & ? & ?); [by exists ds | eauto].
Qed.

Lemma keys_fold bs : forall g, NoDup (JsMap.keys g) -> NoDup (JsMap.keys (fold_left groupBinding bs g)).
Proof. induction bs as [|b bs IH]; intros g Hn; cbn; [done|]. by apply IH, JsMap.NoDup_keys_set. Qed.

Lemma grouped_bindings bs r d : forall g, NoDup (JsMap.keys g) ->
  grouped_has (fold_left groupBinding bs g) r d <-> grouped_has g r d \/ mkBinding r d ∈ bs.
Proof.
  induction bs as [|[r0 d0] bs IH]; intros g Hn; cbn [fold_left]; [rewrite elem_of_nil; tauto|].
  rewrite IH by (by apply JsMap.NoDup_keys_set). unfold groupBinding. cbn [b_role b_objectDigest]. rewrite group_add by done. rewrite elem_of_cons.
  split; [intros [[?|[-> ->]]|?]; auto | intros [?|[[= -> ->]|?]]; auto].
Qed.

(** The roles that the reducer records are the bindings it was given. *)
Lemma projection_roles arts roles r d : projectionArtifactRoles arts = Ok roles -> holds_role roles r d <-> mkBinding r d ∈ bindings arts.
Proof.
  unfold projectionArtifactRoles. intros H. rewrite (roles_of_groups _ _ _ _ _ H). unfold grouped_has. setoid_rewrite elem_of_sort_by.
  change (grouped_has (fold_left groupBinding (bindings arts) []) r d <-> mkBinding r d ∈ bindings arts).
  rewrite grouped_bindings by constructor. split; [intros [(ds & ?%not_elem_of_nil & _)|?]; done | auto].
Qed.

(** The artifacts stored for a run. *)
Definition stored_role (t : RunTables) (projectId runId r d : string) : Prop :=
  exists x, x ∈ rt_runArtifacts t /\ ra_projectId x = projectId /\ ra_runId x = runId /\ ra_role x = r /\ ra_digest x = d.

Lemma grouped_rows xs r d : forall g g', NoDup (JsMap.keys g) -> rfold group_artifact g xs = Ok g' ->
  grouped_has g' r d <-> grouped_has g r d \/ exists x, x ∈ xs /\ ra_role x = r /\ ra_digest x = d.
Proof.
  induction xs as [|x xs IH]; intros g g' Hn; cbn [rfold].
  - intros [= <-]. split; [auto | intros [?|(x & ?%not_elem_of_nil & _)]; done].
  - intros H. apply rbind_ok in H as (g1 & H1 & H2). unfold group_artifact in H1. apply rbind_ok in H1 as (dg & Hd & [= <-]).
    assert (dg = ra_digest x) as ->. { unfold brand_run, asObjectDigest in Hd. destruct (isObjectDigest _); [by injection Hd as <- | done]. }
    rewrite (IH _ _ (JsMap.NoDup_keys_set _ _ _ Hn) H2), group_add by done. setoid_rewrite elem_of_cons. naive_solver.
Qed.

Lemma loaded_roles t projectId runId roles r d : loadArtifactRoles t projectId runId = Ok roles ->
  holds_role roles r d <-> stored_role t projectId runId r d.
Proof.
  unfold loadArtifactRoles. intros H. apply rbind_ok in H as (g & Hg & H). rewrite (roles_of_groups _ _ _ _ _ H).
  assert (Hn : NoDup (JsMap.keys ([] : list (string * list string)))) by constructor. rewrite (grouped_rows _ r d _ _ Hn Hg). unfold stored_role. setoid_rewrite elem_of_sort_by. setoid_rewrite elem_of_List_filter.
  unfold of_run. setoid_rewrite andb_true_iff. setoid_rewrite bool_decide_eq_true. split.
  - intros [(ds & ?%not_elem_of_nil & _)|(x & [? [? ?]] & ? & ?)]; [done|]. by exists x.
  - intros (x & ? & ? & ? & ? & ?). right. by exists x.
Qed.

(** ** The reducer reads the core of a projection *)

(** Everything but the snapshot, the operation and the order of artifacts. *)
Record same_core (p q : RunProjection) : Prop := {
  sc_project : p_projectId p = p_projectId q;
  sc_run : p_runId p = p_runId q;
  sc_workspace : p_workspaceId p = p_workspaceId q;
  sc_state : p_state p = p_state q;
  sc_version : p_stateVersion p = p_stateVersion q;
  sc_terminal : p_terminalResultObjectDigest p = p_terminalResultObjectDigest q;
  sc_updated : p_updatedAt p = p_updatedAt q;
  sc_roles : forall r d, holds_role (p_artifactRoles p) r d <-> holds_role (p_artifactRoles q) r d
}.

#[local] Instance same_core_equiv : Equivalence same_core.
Proof.
  split; [by split | intros p q []; split; try congruence; intros; symmetry; auto|].
  intros p q x [] []. split; try congruence. intros. etrans; eauto.
Qed.

Lemma commit_core p q ev c arts f p' t : p_state p = p_state q -> p_stateVersion p = p_stateVersion q -> p_projectId p = p_projectId q ->
  p_runId p = p_runId q -> p_workspaceId p = p_workspaceId q -> commitTransition p ev c arts f = Ok (p', t) ->
  exists q', commitTransition q ev c arts f = Ok (q', t) /\ same_core p' q'.
Proof.
  intros Hs Hv Hp Hr Hw. unfold commitTransition. rewrite Hs, Hv. intros H. destruct (_ <? _)%Z; [done|]. apply rbind_ok in H as (et & -> & H).
  apply rbind_ok in H as (roles & -> & H). injection H as <- <-. cbn [rbind]. eexists. split; [done|]. by split.
Qed.

Lemma guard_core g p q ev arts : p_state p = p_state q -> p_stateVersion p = p_stateVersion q -> evaluateGuard g p ev arts = evaluateGuard g q ev arts.
Proof. intros Hs Hv. unfold evaluateGuard. by rewrite Hs, Hv. Qed.

Lemma reduce_core p q ev arts p' t : same_core p q -> reduceRun p ev arts = Ok (p', t) -> exists q', reduceRun q ev arts = Ok (q', t) /\ same_core p' q'.
Proof.
  intros [Hp Hr Hw Hs Hv _ _ _]. unfold reduceRun. intros H. apply rbind_ok in H as (et & -> & H). cbn [rbind]. rewrite <- Hs.
  destruct (getRunEventContract (p_state p) et) as [c|]; [|done]. destruct (negb _); [done|]. apply rbind_ok in H as (x & Hg & H).
  assert (rfold (fun _ g => evaluateGuard g q ev arts) tt (guardIds c) = Ok x) as ->.
  { rewrite <- Hg. clear -Hs Hv. generalize tt. induction (guardIds c) as [|g gs IH]; intros s; cbn [rfold]; [done|].
    rewrite (guard_core g p q) by done. by destruct (evaluateGuard g q ev arts); cbn [rbind]. }
  cbn [rbind]. unfold applyEnterState, applyCancellationRequested, applyCancellationSettled, applyCancellationUnknown, applyPlatformFailure in *.
  rewrite <- Hs. destruct et; repeat match goal with
    | H : rbind _ _ = Ok _ |- _ => apply rbind_ok in H as (? & -> & H); cbn [rbind]
    | H : context [match ev_payload ev with _ => _ end] |- _ => destruct (ev_payload ev); try done
    | H : (if ?b then Err _ else _) = Ok _ |- _ => destruct b; [done|]
    end; by eapply commit_core.
Qed.

(** ** The log of a run *)

Notation log_entry := (RunDomainEvent * VerifiedArtifactSet * RunTransitionEvent)%type.

(** An event row of a reduced event. *)
Definition logged (projectId runId : string) (x : RunEventRow) (s : log_entry) : Prop :=
  ev_runId s.1.1 = runId /\ exists payload, x = event_row projectId s.1.1 (t_sequence s.2) payload.

(** The stored run is that of its reduced log. *)
Definition refined (t : RunTables) (projectId runId : string) (row : RunRow) : Prop :=
  exists p0 tr q, initial p0 /\ p_projectId p0 = projectId /\ p_runId p0 = runId /\ run p0 tr q /\
    (rn_workspaceId row = p_workspaceId q /\ rn_state row = p_state q /\ rn_stateVersion row = p_stateVersion q /\
     rn_terminalResultDigest row = p_terminalResultObjectDigest q /\ rn_updatedAt row = p_updatedAt q) /\
    (forall r d, stored_role t projectId runId r d <-> holds_role (p_artifactRoles q) r d) /\
    Forall2 (logged projectId runId) (List.filter (event_of_run projectId runId) (rt_runEvents t)) tr.

Record store_inv (t : RunTables) : Prop := {
  si_runs : forall projectId runId row, JsMap.get (projectId, runId) (rt_runs t) = Some row -> refined t projectId runId row;
  si_events : forall x, x ∈ rt_runEvents t -> JsMap.has (re_projectId x, re_runId x) (rt_runs t) = true;
  si_artifacts : forall x, x ∈ rt_runArtifacts t -> JsMap.has (ra_projectId x, ra_runId x) (rt_runs t) = true
}.

Lemma run_core p0 tr q : run p0 tr q -> p_projectId q = p_projectId p0 /\ p_runId q = p_runId p0.
Proof.
  induction 1 as [|tr p ea t p' _ [IH1 IH2] Hs]; [done|]. apply reduceRun_inv in Hs as (c & f & _ & _ & _ & _ & _ & Hc).
  apply commitTransition_ok in Hc. destruct_and! Hc. split; congruence.
Qed.

(** Versions count the events. *)
Lemma run_versions p0 tr q : initial p0 -> run p0 tr q ->
  p_stateVersion q = Z.of_nat (length tr) /\ map (fun s => t_sequence s.2) tr = map (fun n => Z.of_nat (S n)) (seq 0 (length tr)).
Proof.
  intros (a & b & c & d & e & ->). induction 1 as [|tr p ea t p' _ [IH1 IH2] Hs]; [done|].
  apply reduceRun_inv in Hs as (ct & f & _ & _ & _ & _ & _ & Hc). apply commitTransition_ok in Hc. destruct_and! Hc. rewrite length_app. cbn [length]. split; [lia|].
  rewrite Nat.add_1_r, seq_S, !map_app, IH2. cbn [map snd Nat.add]. f_equal. f_equal. lia.
Qed.

(** What a successful reduction records. *)
Lemma reduce_records p ev arts p' t : reduceRun p ev arts = Ok (p', t) ->
  projectionArtifactRoles arts = Ok (p_artifactRoles p') /\ t_sequence t = p_stateVersion p' /\ p_workspaceId p' = p_workspaceId p /\
  p_terminalResultObjectDigest p' = (if is_state (p_state p') SUCCEEDED then successfulRunResultDigest arts else None).
Proof.
  intros H. apply reduceRun_inv in H as (c & f & _ & _ & _ & _ & _ & Hc). apply commitTransition_ok in Hc.
  destruct Hc as (Hst & _ & _ & Hroles & Hterm & _ & _ & Hws & _ & _ & _ & Hseq & _). rewrite Hst. by split_and!.
Qed.

(** The columns of a row that a projection determines. *)
Definition row_columns (row : RunRow) (q : RunProjection) : Prop :=
  rn_workspaceId row = p_workspaceId q /\ rn_state row = p_state q /\ rn_stateVersion row = p_stateVersion q /\
  rn_terminalResultDigest row = p_terminalResultObjectDigest q /\ rn_updatedAt row = p_updatedAt q.

(** The loaded projection of a row; it has the snapshot of the row and no active operation. *)
Lemma loaded_columns t projectId runId row p q : JsMap.get (projectId, runId) (rt_runs t) = Some row -> row_columns row q ->
  p_projectId q = projectId -> p_runId q = runId -> (forall r d, stored_role t projectId runId r d <-> holds_role (p_artifactRoles q) r d) ->
  loadRunProjection t projectId runId = Ok (Some p) -> same_core p q.
Proof.
  intros Hrow (Hw & Hs & Hv & Ht & Hu) Hp Hr Hroles. unfold loadRunProjection. rewrite Hrow. intros H.
  apply rbind_ok in H as (id & Hid & H). apply rbind_ok in H as (roles & Hl & H). apply rbind_ok in H as (terminal & Hterm & H). injection H as <-.
  split; cbn; try done.
  - unfold brand_run, asRunId in Hid. destruct (isRunId runId); [injection Hid as <-; congruence | done].
  - rewrite <- Ht. destruct (rn_terminalResultDigest row) as [dg|]; [|by injection Hterm as <-]. apply rbind_ok in Hterm as (d' & Hd & [= <-]).
    unfold brand_run, asObjectDigest in Hd. destruct (isObjectDigest dg); [by injection Hd as <- | done].
  - intros r d. rewrite <- Hroles. by apply loaded_roles.
Qed.

Lemma loaded_row t projectId runId row p : JsMap.get (projectId, runId) (rt_runs t) = Some row ->
  loadRunProjection t projectId runId = Ok (Some p) ->
  p_projectId p = projectId /\ p_runId p = runId /\ p_workspaceId p = rn_workspaceId row /\ p_snapshotId p = rn_snapshotId row /\ p_activeOperationId p = None.
Proof.
  unfold loadRunProjection. intros -> H. apply rbind_ok in H as (id & Hid & H). apply rbind_ok in H as (roles & _ & H).
  apply rbind_ok in H as (terminal & _ & H). injection H as <-. split_and!; try done.
  unfold brand_run, asRunId in Hid. by destruct (isRunId runId); [injection Hid as <-|].
Qed.

(** The loaded projection of a refined row. *)
Lemma loaded_core t projectId runId row p : JsMap.get (projectId, runId) (rt_runs t) = Some row -> refined t projectId runId row ->
  loadRunProjection t projectId runId = Ok (Some p) ->
  exists p0 tr q, initial p0 /\ run p0 tr q /\ p_projectId p0 = projectId /\ p_runId p0 = runId /\ same_core p q /\
    Forall2 (logged projectId runId) (List.filter (event_of_run projectId runId) (rt_runEvents t)) tr.
Proof.
  intros Hrow (p0 & tr & q & Hi & Hp & Hr & Hrun & Hcols & Hroles & Hlog) H. destruct (run_core _ _ _ Hrun) as [Hc1 Hc2].
  exists p0, tr, q. split_and!; try done. apply (loaded_columns t projectId runId row); congruence || done.
Qed.

(** ** Writes *)

Lemma insert_artifact_ok x t y t' : insert_run_artifact x t = Ok (y, t') ->
  t' = with_runArtifacts (rt_runArtifacts t ++ [x]) t /\ JsMap.has (ra_projectId x, ra_runId x) (rt_runs t) = true.
Proof.
  unfold insert_run_artifact. destruct (JsMap.has _ _) eqn:E; cbn [negb]; [|done]. destruct (run_role _), (JsMap.get (ra_projectId x, ra_digest x) (rt_artifacts t)); try done.
  intros H. do 3 inv_ok_step. by injection H as _ <-.
Qed.

Lemma replace_ok projectId runId arts createdAt t y t' : replaceRunArtifacts projectId runId arts createdAt t = Ok (y, t') ->
  t' = with_runArtifacts (List.filter (fun x => negb (of_run projectId runId x)) (rt_runArtifacts t) ++
         map (fun b => mkRunArtifact projectId runId (b_role b) (b_objectDigest b) createdAt) (bindings arts)) t.
Proof.
  unfold replaceRunArtifacts. set (l := List.filter _ _). assert (H : forall bs x z l0,
    rfold (fun st b => insert_run_artifact (mkRunArtifact projectId runId (b_role b) (b_objectDigest b) createdAt) (snd st))
      (x, with_runArtifacts l0 t) bs = Ok (z, t') ->
    t' = with_runArtifacts (l0 ++ map (fun b => mkRunArtifact projectId runId (b_role b) (b_objectDigest b) createdAt) bs) t).
  { induction bs as [|b bs IH]; intros x z l0; cbn [rfold map].
    - intros [= _ <-]. by rewrite app_nil_r.
    - intros H. apply rbind_ok in H as ([z1 t1] & H1 & H2). cbn [snd] in H1. apply insert_artifact_ok in H1 as [-> _].
      cbn [with_runArtifacts rt_runArtifacts] in H2. apply IH in H2. by rewrite <- app_assoc in H2. }
  intros H0. by apply H in H0.
Qed.

Lemma insert_event_ok x t y t' : insert_run_event x t = Ok (y, t') -> t' = with_runEvents (rt_runEvents t ++ [x]) t.
Proof. unfold insert_run_event. destruct (existsb _ _); [done|]. destruct (existsb _ _); [done|]. destruct (_ || _); [done|]. by intros [= _ <-]. Qed.

(** ** Steps of the store *)

(** Another run is not touched: its row, its artifacts and its events stay. *)
Lemma refined_frame t t' projectId runId row : (forall r d, stored_role t' projectId runId r d <-> stored_role t projectId runId r d) ->
  List.filter (event_of_run projectId runId) (rt_runEvents t') = List.filter (event_of_run projectId runId) (rt_runEvents t) ->
  refined t projectId runId row -> refined t' projectId runId row.
Proof.
  intros Ha He (p0 & tr & q & Hi & Hp & Hr & Hrun & Hc & Hroles & Hlog). exists p0, tr, q. rewrite He. split_and!; try done; try apply Hc.
  intros r d. rewrite Ha. apply Hroles.
Qed.

Lemma get_snoc_run (k k' : string * string) (v : RunRow) m : JsMap.get k (m ++ [(k', v)]) =
  match JsMap.get k m with Some x => Some x | None => if decide (k = k') then Some v else None end.
Proof. induction m as [|[k0 v0] m IH]; cbn; [done|]. destruct (decide (k = k0)); [done | apply IH]. Qed.

Lemma has_some {V} (k : string * string) (m : list (string * string * V)) : JsMap.has k m = true <-> exists v, JsMap.get k m = Some v.
Proof. unfold JsMap.has. destruct (JsMap.get k m); naive_solver. Qed.

Lemma filter_none {A} (f : A -> bool) l : (forall x, x ∈ l -> f x = false) -> List.filter f l = [].
Proof. induction l as [|x l IH]; intros H; cbn; [done|]. rewrite (H x) by (by left). apply IH. intros y Hy. apply H. by right. Qed.

Lemma createRun_inv projectId runId workspaceId digest createdAt t p t' : store_inv t ->
  createRun_work projectId runId workspaceId digest createdAt t = Ok (p, t') -> store_inv t'.
Proof.
  intros [Hruns Hev Hart]. unfold createRun_work. destruct (JsMap.get projectId (rt_projects t)) as [trusted|]; [|done]. intros H.
  do 2 inv_ok_step. destruct (JsMap.has (projectId, runId) (rt_runs t) || _) eqn:E; [done|]. apply orb_false_iff in E as [Hnew _].
  apply rbind_ok in H as ([y t1] & H1 & H2). injection H2 as _ <-. apply insert_artifact_ok in H1 as [-> _].
  assert (Hnone : JsMap.get (projectId, runId) (rt_runs t) = None). { unfold JsMap.has in Hnew. by destruct (JsMap.get _ (rt_runs t)). }
  set (row := mkRunRow _ _ _ _ _ _ _ _ _ _ _ _ _). set (x := mkRunArtifact _ _ _ _ _).
  assert (Hhas : forall k, JsMap.has k (rt_runs t) = true -> JsMap.has k (rt_runs t ++ [((projectId, runId), row)]) = true).
  { intros k [v Hv]%has_some. apply has_some. exists v. by rewrite get_snoc_run, Hv. }
  assert (Hx : JsMap.has (projectId, runId) (rt_runs t ++ [((projectId, runId), row)]) = true).
  { apply has_some. exists row. rewrite get_snoc_run, Hnone. by rewrite decide_True. }
  split; cbn [with_runArtifacts with_runs rt_runs rt_runEvents rt_runArtifacts].
  - intros pj rn r0. rewrite get_snoc_run. destruct (JsMap.get (pj, rn) (rt_runs t)) as [r1|] eqn:E1.
    + intros [= <-]. apply (refined_frame t); [|done | by apply Hruns]. intros r d. unfold stored_role. cbn [with_runArtifacts rt_runArtifacts with_runs].
      setoid_rewrite elem_of_app. setoid_rewrite list_elem_of_singleton. split; [|intros (z & Hz & ?); exists z; split; [by left | done]].
      intros (z & [Hz| ->] & Hp & Hr & ?); [by exists z|]. cbn in Hp, Hr. subst pj rn. congruence.
    + case_decide as Hk; [|done]. injection Hk as -> ->. intros [= <-].
      exists (createRunProjection projectId runId workspaceId createdAt digest), [], (createRunProjection projectId runId workspaceId createdAt digest).
      split_and!; try done; [by do 5 eexists | constructor | |].
      * intros r d. unfold stored_role, holds_role. cbn [with_runArtifacts rt_runArtifacts with_runs createRunProjection p_artifactRoles].
        setoid_rewrite elem_of_app. setoid_rewrite list_elem_of_singleton. split.
        -- intros (z & [Hz| ->] & Hp & Hr & <- & <-); [|eexists; split; [done|]; cbn; split; [done | by left]].
           apply Hart in Hz. rewrite Hp, Hr in Hz. congruence.
        -- intros (e & -> & <- & Hd). cbn in Hd. apply list_elem_of_singleton in Hd as ->. exists x. split_and!; [by right | done..].
      * cbn [with_runArtifacts rt_runEvents with_runs]. replace (List.filter _ _) with (@nil RunEventRow); [constructor|]. symmetry.
        apply filter_none. intros z Hz. unfold event_of_run. destruct (bool_decide (re_projectId z = projectId)) eqn:E2; [|done].
        apply bool_decide_eq_true in E2. apply bool_decide_eq_false. intros E3. apply Hev in Hz. rewrite E2, E3 in Hz. congruence.
  - intros z Hz. by apply Hhas, Hev.
  - intros z [Hz|Hz]%elem_of_app; [by apply Hhas, Hart|]. by apply list_elem_of_singleton in Hz as ->.
Qed.

Lemma lift_reduce_ok {A} (r : result ReduceError A) a : lift_reduce r = Ok a -> r = Ok a.
Proof. by destruct r; cbn; [intros [= ->]|]. Qed.

(** The stored result is that of the projection. *)
Lemma stored_terminal p ev arts next tr : reduceRun p ev arts = Ok (next, tr) ->
  (if is_state (p_state next) SUCCEEDED
   then match p_terminalResultObjectDigest next with Some d => Some d | None => digestForRole arts R_SUCCESS end
   else None) = p_terminalResultObjectDigest next.
Proof.
  intros H. destruct (reduce_records _ _ _ _ _ H) as (_ & _ & _ & ->). destruct (is_state _ _); [|done].
  change (digestForRole arts R_SUCCESS) with (successfulRunResultDigest arts). by destruct (successfulRunResultDigest arts).
Qed.

(** Everything a successful write of an event went through. *)
Lemma persist_ok projectId ev arts payload t p t' : persist_work projectId ev arts payload t = Ok (p, t') ->
  exists current row next tr row',
    loadRunProjection t projectId (ev_runId ev) = Ok (Some current) /\ JsMap.get (projectId, ev_runId ev) (rt_runs t) = Some row /\
    p_stateVersion current = ev_expectedStateVersion ev /\ reduceRun current ev arts = Ok (next, tr) /\
    (rn_workspaceId row' = rn_workspaceId row /\ rn_state row' = p_state next /\ rn_stateVersion row' = p_stateVersion next /\
     rn_terminalResultDigest row' = p_terminalResultObjectDigest next /\ rn_updatedAt row' = p_updatedAt next) /\
    rn_snapshotId row' = resolveSnapshotId t projectId (p_workspaceId next) arts
      (match p_snapshotId next with Some s => Some s | None => p_snapshotId current end) /\
    t' = with_runArtifacts (List.filter (fun x => negb (of_run projectId (ev_runId ev) x)) (rt_runArtifacts t) ++
           map (fun b => mkRunArtifact projectId (ev_runId ev) (b_role b) (b_objectDigest b) (ev_occurredAt ev)) (bindings arts))
         (with_runEvents (rt_runEvents t ++ [event_row projectId ev (p_stateVersion next) payload])
           (with_runs (JsMap.set (projectId, ev_runId ev) row' (rt_runs t)) t)) /\
    loadRunProjection t' projectId (ev_runId ev) = Ok (Some p).
Proof.
  unfold persist_work. intros H. apply rbind_ok in H as ([current|] & Hl & H); [|done].
  destruct (JsMap.get (projectId, ev_runId ev) (rt_runs t)) as [row|] eqn:Erow; [|done]. destruct (negb (_ =? _)%Z) eqn:Ev; [done|].
  apply negb_false_iff, Z.eqb_eq in Ev. destruct (negb (artifact_exists _ _ _)); [done|]. apply rbind_ok in H as ([next tr] & Hr & H).
  assert (Hred : reduceRun current ev arts = Ok (next, tr)) by (by apply lift_reduce_ok).
  apply rbind_ok in H as (? & _ & H). apply rbind_ok in H as (? & _ & H). destruct (_ && _); [done|]. apply rbind_ok in H as (row' & Hrow' & H).
  destruct (negb (run_row_ok _ _ _)); [done|]. destruct (negb (rn_stateVersion row =? _)%Z); [done|].
  apply rbind_ok in H as ([y1 t1] & H1 & H). apply rbind_ok in H as ([y2 t2] & H2 & H).
  apply rbind_ok in H as ([stored|] & Hst & H); [|done]. injection H as <- <-. apply insert_event_ok in H1. apply replace_ok in H2.
  exists current, row, next, tr, row'. split; [exact Hl|]. split; [reflexivity|]. split; [exact Ev|]. split; [exact Hred|].
  assert (forall (P Q R S : Prop), P /\ Q -> R -> S -> P /\ Q /\ R /\ S) as Hsplit by tauto. apply Hsplit; [| |exact Hst].
  - rewrite (stored_terminal _ _ _ _ _ Hred) in Hrow'. unfold next_row in Hrow'. destruct (digestForRole arts R_TASK); [|done]. injection Hrow' as <-.
    cbn. by split_and!.
  - rewrite H2, H1. reflexivity.
Qed.

Lemma filter_snoc {A} (f : A -> bool) l x : List.filter f (l ++ [x]) = List.filter f l ++ (if f x then [x] else []).
Proof. rewrite List.filter_app. cbn. by destruct (f x). Qed.

(** The artifacts written for a run are the roles of the projection. *)
Lemma written_roles (t : RunTables) projectId runId arts createdAt t' roles r d : projectionArtifactRoles arts = Ok roles ->
  rt_runArtifacts t' = List.filter (fun x => negb (of_run projectId runId x)) (rt_runArtifacts t) ++
    map (fun b => mkRunArtifact projectId runId (b_role b) (b_objectDigest b) createdAt) (bindings arts) ->
  stored_role t' projectId runId r d <-> holds_role roles r d.
Proof.
  intros Hroles Hr. rewrite (projection_roles _ _ r d Hroles). unfold stored_role. rewrite Hr. setoid_rewrite elem_of_app. split.
  - intros (z & [Hz|Hz] & Hzp & Hzr & <- & <-).
    + apply elem_of_List_filter in Hz as [_ Hz]. unfold of_run in Hz. rewrite Hzp, Hzr in Hz. by rewrite !bool_decide_true in Hz.
    + apply list_elem_of_fmap in Hz as ([br bd] & -> & Hb). done.
  - intros Hb. eexists. split; [right; apply list_elem_of_fmap; by eexists | done].
Qed.

(** The snapshot of a run after an event: the one of its workspace whose manifest the event brings, else one with that artifact, else the former. *)
Definition snapshot_named (t : RunTables) (projectId workspaceId : string) (arts : VerifiedArtifactSet) (former found : option string) : Prop :=
  let of_workspace d s := sn_projectId s = projectId /\ sn_workspaceId s = workspaceId /\ sn_manifestDigest s = d in
  let with_artifact d s := sa_projectId s = projectId /\ sa_digest s = d in
  (found = former /\ forall b, b ∈ bindings arts -> b_role b <> "snapshot-manifest") \/
  exists b, b ∈ bindings arts /\ b_role b = "snapshot-manifest" /\
    ((exists s, s ∈ rt_snapshots t /\ of_workspace (b_objectDigest b) s /\ found = Some (sn_snapshotId s)) \/
     (forall s, s ∈ rt_snapshots t -> ~ of_workspace (b_objectDigest b) s) /\
     ((exists s, s ∈ rt_snapshotArtifacts t /\ with_artifact (b_objectDigest b) s /\ found = Some (sa_snapshotId s)) \/
      (forall s, s ∈ rt_snapshotArtifacts t -> ~ with_artifact (b_objectDigest b) s) /\ found = former)).

Lemma snapshot_resolved t projectId workspaceId arts former :
  snapshot_named t projectId workspaceId arts former (resolveSnapshotId t projectId workspaceId arts former).
Proof.
  unfold snapshot_named, resolveSnapshotId, digestForRole. destruct (array_find _ (bindings arts)) as [b|] eqn:Eb; cbn [fmap option_fmap option_map].
  - apply array_find_some in Eb as [Hb Hrole]. apply bool_decide_eq_true in Hrole. right. exists b. split_and!; [done | done|].
    destruct (array_find _ (rt_snapshots t)) as [s|] eqn:Es.
    + apply array_find_some in Es as [Hs Hm]. rewrite !andb_true_iff, !bool_decide_eq_true in Hm. left. exists s. tauto.
    + right. split.
      { intros s Hs (H1 & H2 & H3). pose proof (array_find_none _ _ Es s Hs) as Hm. cbn beta in Hm. by rewrite !bool_decide_true in Hm. }
      destruct (array_find _ (rt_snapshotArtifacts t)) as [s|] eqn:Ea.
      * apply array_find_some in Ea as [Hs Hm]. rewrite !andb_true_iff, !bool_decide_eq_true in Hm. left. exists s. tauto.
      * right. split; [|done]. intros s Hs (H1 & H2). pose proof (array_find_none _ _ Ea s Hs) as Hm. cbn beta in Hm. by rewrite !bool_decide_true in Hm.
  - left. split; [done|]. intros b Hb Hrole. pose proof (array_find_none _ _ Eb b Hb) as Hm. cbn beta in Hm. by rewrite bool_decide_true in Hm.
Qed.

(** One written event is one step of the reducer on what was loaded; the snapshot is the one of the snapshot artifact. *)
Record written (t : RunTables) (projectId : string) (p : RunProjection) (ev : RunDomainEvent) (arts : VerifiedArtifactSet) (payload : string)
    (p' : RunProjection) (t' : RunTables) : Prop := {
  wr_loaded : loadRunProjection t' projectId (ev_runId ev) = Ok (Some p');
  wr_reduced : exists next transition, reduceRun p ev arts = Ok (next, transition) /\ same_core p' next /\
    rt_runEvents t' = rt_runEvents t ++ [event_row projectId ev (p_stateVersion next) payload];
  wr_snapshot : snapshot_named t projectId (p_workspaceId p) arts (p_snapshotId p) (p_snapshotId p')
}.

Lemma reduce_keeps p ev arts p' tr : reduceRun p ev arts = Ok (p', tr) ->
  p_projectId p' = p_projectId p /\ p_runId p' = p_runId p /\ p_snapshotId p' = p_snapshotId p.
Proof.
  intros H. apply reduceRun_inv in H as (c & f & _ & _ & _ & _ & _ & Hc). unfold commitTransition in Hc. destruct (_ <? _)%Z; [done|].
  apply rbind_ok in Hc as (? & _ & Hc). apply rbind_ok in Hc as (? & _ & Hc). injection Hc as <- _. done.
Qed.

Lemma persist_written projectId ev arts payload t p p' t' : loadRunProjection t projectId (ev_runId ev) = Ok (Some p) ->
  persist_work projectId ev arts payload t = Ok (p', t') -> written t projectId p ev arts payload p' t'.
Proof.
  intros Hl H. apply persist_ok in H as (current & row & next & tr & row' & Hc & Hrow & _ & Hred & (Hw & Hcols) & Hsnap & Ht & Hst).
  rewrite Hl in Hc. injection Hc as <-. destruct (loaded_row _ _ _ _ _ Hrow Hl) as (Hp & Hr & Hws & _).
  destruct (reduce_records _ _ _ _ _ Hred) as (Hroles & _ & Hwn & _). destruct (reduce_keeps _ _ _ _ _ Hred) as (Hkp & Hkr & Hks).
  assert (Hrow' : JsMap.get (projectId, ev_runId ev) (rt_runs t') = Some row') by (subst t'; apply JsMap.get_set_eq).
  split; [done| |].
  - exists next, tr. split; [done|]. split; [|by subst t']. apply (loaded_columns t' projectId (ev_runId ev) row'); try congruence.
    + split; [congruence | done].
    + intros r d. eapply written_roles; [done|]. by subst t'.
  - destruct (loaded_row _ _ _ _ _ Hrow' Hst) as (_ & _ & _ & -> & _). rewrite Hsnap, Hwn, Hks.
    assert (match p_snapshotId p with Some s => Some s | None => p_snapshotId p end = p_snapshotId p) as -> by (by destruct (p_snapshotId p)). apply snapshot_resolved.
Qed.

Lemma persist_inv projectId ev arts payload t p t' : store_inv t -> persist_work projectId ev arts payload t = Ok (p, t') -> store_inv t'.
Proof.
  intros [Hruns Hev Hart] H. apply persist_ok in H as (current & row & next & tr1 & row' & Hl & Hrow & Hver & Hred & Hcols & _ & -> & _).
  set (run_id := ev_runId ev) in *.
  assert (Hhas : forall k, JsMap.has k (rt_runs t) = true -> JsMap.has k (JsMap.set (projectId, run_id) row' (rt_runs t)) = true).
  { intros k [v Hv]%has_some. apply has_some. rewrite JsMap.get_set. case_decide; eauto. }
  assert (Hself : JsMap.has (projectId, run_id) (JsMap.set (projectId, run_id) row' (rt_runs t)) = true).
  { apply Hhas, has_some. eauto. }
  split; cbn [with_runArtifacts with_runEvents with_runs rt_runs rt_runEvents rt_runArtifacts].
  - intros pj rn r0. rewrite JsMap.get_set. case_decide as Hk.
    + injection Hk as -> ->. intros [= <-].
      destruct (loaded_core t projectId run_id row current Hrow (Hruns _ _ _ Hrow) Hl) as (p0 & tr & q & Hi & Hrun & Hp & Hr & Hcore & Hlog).
      destruct (reduce_core _ _ _ _ _ _ Hcore Hred) as (q' & Hq & Hcore'). destruct (reduce_records _ _ _ _ _ Hq) as (Hroles & Hseq & Hws & _).
      exists p0, (tr ++ [((ev, arts), tr1)]), q'. split_and!; try done.
      * by eapply run_snoc.
      * destruct (Hruns _ _ _ Hrow) as (p1 & trx & qx & _ & _ & _ & _ & (Hwx & _) & _). destruct Hcols as (-> & _). destruct Hcore as [_ _ Hcw _ _ _ _ _].
        unfold loadRunProjection in Hl. rewrite Hrow in Hl. inv_ok. cbn in Hcw. by rewrite Hws.
      * destruct Hcols as (_ & -> & _). apply Hcore'.
      * destruct Hcols as (_ & _ & -> & _). apply Hcore'.
      * destruct Hcols as (_ & _ & _ & -> & _). apply Hcore'.
      * destruct Hcols as (_ & _ & _ & _ & ->). apply Hcore'.
      * intros r d. by apply (written_roles t projectId run_id arts (ev_occurredAt ev)).
      * cbn [with_runArtifacts with_runEvents rt_runEvents]. rewrite filter_snoc. unfold event_of_run at 2. cbn [event_row re_projectId re_runId].
        rewrite !bool_decide_true by done. cbn [andb]. apply Forall2_app; [done|]. constructor; [|constructor]. split; [done|]. exists payload.
        cbn [fst snd]. by rewrite Hseq, (sc_version _ _ Hcore').
    + intros Hr0. apply (refined_frame t); [| |by apply Hruns].
      * intros r d. unfold stored_role. cbn [with_runArtifacts rt_runArtifacts]. setoid_rewrite elem_of_app. split.
        -- intros (z & [Hz|Hz] & Hzp & Hzr & ?); [apply elem_of_List_filter in Hz as [Hz _]; by exists z|].
           apply list_elem_of_fmap in Hz as (b & -> & _). cbn in Hzp, Hzr. congruence.
        -- intros (z & Hz & Hzp & Hzr & ?). exists z. split; [left | done]. apply elem_of_List_filter. split; [done|]. unfold of_run. rewrite Hzp, Hzr.
           destruct (bool_decide (pj = projectId)) eqn:E1, (bool_decide (rn = run_id)) eqn:E2; try done.
           apply bool_decide_eq_true in E1, E2. congruence.
      * cbn [with_runArtifacts with_runEvents rt_runEvents]. rewrite filter_snoc. unfold event_of_run at 2. cbn [event_row re_projectId re_runId]. fold run_id.
        destruct (bool_decide (projectId = pj)) eqn:E1, (bool_decide (run_id = rn)) eqn:E2; cbn [andb]; rewrite ?app_nil_r; try done.
        apply bool_decide_eq_true in E1, E2. congruence.
  - intros z [Hz|Hz]%elem_of_app; [by apply Hhas, Hev|]. apply list_elem_of_singleton in Hz as ->. done.
  - intros z [Hz|Hz]%elem_of_app; [apply elem_of_List_filter in Hz as [Hz _]; by apply Hhas, Hart|]. by apply list_elem_of_fmap in Hz as (b & -> & _).
Qed.

(** A step: a run is created, an event is written, or other tables change. *)
Inductive store_step (t : RunTables) : RunTables -> Prop :=
| ss_create scope runId workspaceId digest createdAt : store_step t (createRun scope runId workspaceId digest createdAt t).1
| ss_persist scope ev arts payload : store_step t (persistRunEvent scope ev arts payload t).1
| ss_other t' : rt_runs t' = rt_runs t -> rt_runArtifacts t' = rt_runArtifacts t -> rt_runEvents t' = rt_runEvents t -> store_step t t'.

Inductive stored : RunTables -> Prop :=
| stored_empty t : rt_runs t = [] -> rt_runArtifacts t = [] -> rt_runEvents t = [] -> stored t
| stored_step t t' : stored t -> store_step t t' -> stored t'.

Lemma commit_inv {R} (work : rtx R) t : store_inv t -> (forall r t', work t = Ok (r, t') -> store_inv t') -> store_inv (run_commit work t).1.
Proof. intros Hi Hw. unfold run_commit. destruct (work t) as [[r t']|e] eqn:E; [by eapply Hw | done]. Qed.

Lemma stored_inv t : stored t -> store_inv t.
Proof.
  induction 1 as [t H1 H2 H3|t t' _ IH Hs].
  - split; rewrite ?H1, ?H2, ?H3; [done | by intros ? ?%not_elem_of_nil..].
  - destruct Hs as [scope runId ws d c|scope ev arts payload|t' H1 H2 H3].
    + unfold createRun, run_scoped. destruct (_ || _); [done|]. apply commit_inv; [done|]. intros r t'. by apply createRun_inv.
    + unfold persistRunEvent. destruct (_ || _); [done|]. destruct (negb _); [done|]. apply commit_inv; [done|]. intros r t'. by apply persist_inv.
    + destruct IH as [Hr He Ha]. split; rewrite ?H1, ?H2, ?H3; [|done..]. intros pj rn row Hrow. apply (refined_frame t); [|by rewrite H3 | by apply Hr].
      intros r d. unfold stored_role. by rewrite H2.
Qed.

Lemma sort_sorted {A} (leb : A -> A -> bool) l : StronglySorted (fun a b => leb a b = true) l -> sort_by leb l = l.
Proof.
  induction 1 as [|x l _ IH Hx]; [done|]. rewrite sort_by_cons, IH. destruct l as [|y l]; [done|]. cbn. inversion_clear Hx as [|? ? Hxy]. by rewrite Hxy.
Qed.

(** An event log numbered from one on. *)
Lemma numbered_sorted l : forall n, map re_sequence l = map (fun i => Z.of_nat (S i)) (seq n (length l)) ->
  StronglySorted (fun a b => (re_sequence a <=? re_sequence b)%Z = true) l.
Proof.
  induction l as [|x l IH]; intros n; cbn [map length seq]; [constructor|]. intros [= Hx Hl]. constructor; [by eapply IH|].
  apply Forall_forall. intros y Hy. assert (Hin : re_sequence y ∈ map re_sequence l) by (by apply (list_elem_of_fmap_2 re_sequence)).
  rewrite Hl in Hin. apply list_elem_of_fmap in Hin as (i & Hi & Hs). apply elem_of_seq in Hs. rewrite Hx, Hi. apply Z.leb_le. lia.
Qed.

Lemma logged_sequences pj rn events tr : Forall2 (logged pj rn) events tr -> map re_sequence events = map (fun s => t_sequence s.2) tr.
Proof. induction 1 as [|x s events tr (_ & payload & ->) _ IH]; cbn; [done|]. by rewrite IH. Qed.

(** C6: a stored run refines the reducer.  After any sequence of created runs, written events and other
    changes, what is loaded for a run is, up to the snapshot and the order of artifacts, what reducing the
    events of its log in order makes of a fresh projection, without an active operation; the log is numbered
    from one without gaps up to the version of the run.  Whoever holds a grant of the project reads this projection
    and this log.  An event that is accepted is one step of the reducer on what was loaded and is appended to the log, and the
    snapshot becomes the one of the snapshot artifact, or stays; an event that expects another version is refused and changes nothing. *)
Theorem stored_run_refines t pj rn p : stored t -> loadRunProjection t pj rn = Ok (Some p) ->
  exists p0 tr q events, initial p0 /\ run p0 tr q /\ p_projectId p0 = pj /\ p_runId p0 = rn /\ same_core p q /\ p_activeOperationId p = None /\
    Forall2 (logged pj rn) events tr /\ map re_sequence events = map (fun n => Z.of_nat (S n)) (seq 0 (length events)) /\ p_stateVersion p = Z.of_nat (length events) /\
    forall scope, rs_projectId scope = pj -> pj ∈ rs_grants scope -> pj <> "" ->
      getRun scope rn t = Ok p /\ listRunEvents scope rn t = Ok events /\
      forall ev arts payload t' a, ev_projectId ev = pj -> ev_runId ev = rn -> persistRunEvent scope ev arts payload t = (t', a) ->
        match a with
        | Ok p' => ev_expectedStateVersion ev = p_stateVersion p /\ written t pj p ev arts payload p' t'
        | Err e => t' = t /\ (ev_expectedStateVersion ev <> p_stateVersion p -> e = STATE_VERSION_CONFLICT)
        end.
Proof.
  intros Hs Hl. apply stored_inv in Hs. assert (exists row, JsMap.get (pj, rn) (rt_runs t) = Some row) as [row Hrow].
  { unfold loadRunProjection in Hl. destruct (JsMap.get (pj, rn) (rt_runs t)); [eauto | done]. }
  destruct (loaded_core t pj rn row p Hrow (si_runs _ Hs _ _ _ Hrow) Hl) as (p0 & tr & q & Hi & Hrun & Hp & Hr & Hcore & Hlog).
  destruct (run_versions _ _ _ Hi Hrun) as [Hv Hseq]. set (events := List.filter _ _) in Hlog. pose proof (Forall2_length _ _ _ Hlog) as Hlen.
  assert (Hnum : map re_sequence events = map (fun n => Z.of_nat (S n)) (seq 0 (length events))).
  { rewrite (logged_sequences _ _ _ _ Hlog), Hseq. by rewrite Hlen. }
  exists p0, tr, q, events. split_and!; try done.
  - by apply (loaded_row _ _ _ _ _ Hrow Hl).
  - rewrite (sc_version _ _ Hcore), Hv. by rewrite Hlen.
  - intros scope Hsc Hg Hne. unfold getRun, listRunEvents, persistRunEvent.
    rewrite Hsc, (proj2 (includes_true pj _) Hg), (bool_decide_false (pj = "")) by done. cbn [negb orb]. rewrite Hl. cbn [rbind]. fold events.
    rewrite (sort_sorted _ _ (numbered_sorted _ _ Hnum)). split; [done|]. split; [done|]. intros ev arts payload t' a Hep Her.
    rewrite bool_decide_true by done. cbn [negb]. unfold run_commit. destruct (persist_work pj ev arts payload t) as [[p' t1]|e] eqn:E; intros [= <- <-].
    + rewrite <- Her in Hl. split; [|by apply persist_written]. apply persist_ok in E as (current & ? & ? & ? & ? & Hc & _ & Hver & _). congruence.
    + split; [done|]. intros Hver. unfold persist_work in E. rewrite Her, Hl in E. cbn [rbind] in E. rewrite Hrow in E.
      rewrite (proj2 (Z.eqb_neq _ _)) in E by congruence. by injection E as <-.
Qed.

Definition sample_store : RunTables :=
  mkRunTables [("project", true)] [("project", "workspace")] [(("project", sample_digest), Some "TaskEnvelope")] [] [] [] [] [].
Definition sample_scope : RunScope := mkRunScope ["project"] "project".
Definition task_artifacts : VerifiedArtifactSet := mkArtifacts [mkBinding "task-envelope" sample_digest] true RUN_GUARD_IDS.
Definition created_store : RunTables := Eval vm_compute in
  fst (createRun sample_scope (p_runId fresh) "workspace" sample_digest "2026-01-01T00:00:00.000Z" sample_store).
Definition moved_store : RunTables := Eval vm_compute in fst (persistRunEvent sample_scope fresh_step task_artifacts sample_digest created_store).
Definition moved_projection : RunProjection := Eval vm_compute in
  match loadRunProjection moved_store "project" (p_runId fresh) with Ok (Some p) => p | _ => fresh end.

Lemma moved_stored : stored moved_store.
Proof.
  apply (stored_step created_store); [apply (stored_step sample_store); [by apply stored_empty|]|].
  - assert (Hc : created_store = (createRun sample_scope (p_runId fresh) "workspace" sample_digest "2026-01-01T00:00:00.000Z" sample_store).1)
      by (vm_compute; reflexivity). rewrite Hc. apply ss_create.
  - assert (Hm : moved_store = (persistRunEvent sample_scope fresh_step task_artifacts sample_digest created_store).1)
      by (vm_compute; reflexivity). rewrite Hm. apply ss_persist.
Qed.

Lemma moved_loaded : loadRunProjection moved_store "project" (p_runId fresh) = Ok (Some moved_projection).
Proof. vm_compute. reflexivity. Qed.

Lemma stored_run_refines_witness :
  exists p0 tr q events, initial p0 /\ run p0 tr q /\ p_projectId p0 = "project" /\ p_runId p0 = p_runId fresh /\ same_core moved_projection q /\
    Forall2 (logged "project" (p_runId fresh)) events tr /\ getRun sample_scope (p_runId fresh) moved_store = Ok moved_projection /\
    listRunEvents sample_scope (p_runId fresh) moved_store = Ok events.
Proof.
  destruct (stored_run_refines moved_store "project" (p_runId fresh) moved_projection moved_stored moved_loaded)
    as (p0 & tr & q & events & Hi & Hrun & Hp & Hr & Hc & _ & Hlog & _ & _ & Hread).
  destruct (Hread sample_scope eq_refl ltac:(by left) ltac:(done)) as (Hg & Hl & _).
  exists p0, tr, q, events. split; [exact Hi|]. split; [exact Hrun|]. split; [exact Hp|]. split; [exact Hr|]. split; [exact Hc|].
  split; [exact Hlog|]. split; [exact Hg | exact Hl].
Defined.
