(* ===== verification/Idempotency.v ===== *)
(** Idempotent mutations of the control plane: the table of reserved and answered requests
    (packages/state-store/src/idempotency.ts with the constraints of api_idempotency_requests), the
    sealed form of a stored response (crypto.ts), and the wrapper of every mutation handler
    (withIdempotency in faex1/apps/control-plane/src/orchestration/handlers.ts) with its error replies.

    AES-256-GCM, base64url and the clock are parameters. *)

From Stdlib Require Import String.
From S2P Require Import Prelude JsText CanonicalJson JsJson Digest Egress Identity Replay HttpGate.
Open Scope string_scope.
Open Scope list_scope.

(** ** Errors and replies *)

Record HttpSignal := mkHttpSignal { hs_status : Z; hs_code : string; hs_message : string; hs_operationId : option ustr }.

Inductive StoreError : Type :=
| e_signal (s : HttpSignal) | e_unauthenticated | e_lookup | e_untrusted_project | e_idempotency_conflict | e_state_version
| e_conflict | e_lease (message : ustr) | e_reconcile_required | e_internal.

Section Replies.
Context `{D : Doubles}.

Inductive Payload : Type := no_payload | payload_bytes (b : bytes) | payload_json (v : jsvalue).
Record Reply := mkReply { rp_status : Z; rp_headers : list (ustr * ustr); rp_payload : Payload }.

(** [reply.header]: names are kept in lower case. *)
Definition reply_header (key value : ustr) (hs : list (ustr * ustr)) : list (ustr * ustr) := JsMap.set (toLowerCase key) value hs.
Definition reply_headers (kvs hs : list (ustr * ustr)) : list (ustr * ustr) := fold_left (fun hs kv => reply_header kv.1 kv.2 hs) kvs hs.

Definition apiErrorBody (code message : string) (operationId runId : option ustr) : jsvalue :=
  let retryClass := if bool_decide (code = "TEMPORARILY_UNAVAILABLE") then u "safe"
                    else if bool_decide (code = "INTERNAL") then u "ambiguous" else u "never" in
  VObj ([(u "schemaVersion", VInt 1); (u "code", VStr (u code)); (u "message", VStr (u message)); (u "retryClass", VStr retryClass)] ++
        opt_member "operationId" VStr operationId ++ opt_member "runId" VStr runId).

(** What is sent never tells a refusal from an absence. *)
Definition sendError (hs : list (ustr * ustr)) (status : Z) (code message : string) (operationId : option ustr) (extra : list (ustr * ustr)) : Reply :=
  let '(status, code, message) := if (status =? 403)%Z then (404%Z, "NOT_FOUND", "not found") else (status, code, message) in
  mkReply status (reply_header (u "content-type") (u "application/json") (reply_headers extra hs))
    (payload_json (apiErrorBody code message operationId None)).

Definition mapStoreError (hs : list (ustr * ustr)) (error : StoreError) (operationId : option ustr) : Reply :=
  let headers := match operationId with None => [] | Some id => [(u "operation-id", id)] end in
  let named := match error with e_signal s => match hs_operationId s with Some id => Some id | None => operationId end | _ => operationId end in
  match error with
  | e_signal s => sendError hs (hs_status s) (hs_code s) (hs_message s) named headers
  | e_unauthenticated => sendError hs 401 "AUTHENTICATION_FAILED" "authentication failed" None []
  | e_lookup | e_untrusted_project => sendError hs 404 "NOT_FOUND" "not found" named headers
  | e_idempotency_conflict => sendError hs 409 "OPERATION_ID_REUSED" "operation id reused" named headers
  | e_state_version => sendError hs 412 "STATE_VERSION_MISMATCH" "state version mismatch" named headers
  | e_conflict => sendError hs 409 "DOMAIN_INVARIANT_FAILED" "already exists" named headers
  | e_lease message =>
      match indexOf (u "expired") message with
      | Some _ => sendError hs 410 "LEASE_EXPIRED" "lease expired" named headers
      | None => sendError hs 409 "LEASE_INVALID" "lease invalid" named headers
      end
  | e_reconcile_required | e_internal => sendError hs 500 "INTERNAL" "internal error" named headers
  end.
End Replies.

(** ** The table *)

Inductive IdempotencyState : Set := id_reserved | id_completed | id_failed | id_reconcile_required.
#[export] Instance IdempotencyState_eq_dec : EqDecision IdempotencyState.
Proof. solve_decision. Defined.

Record IdempotencyRow := mkIdempotency {
  ir_scopeKey : ustr;
  ir_method : ustr;
  ir_targetUri : ustr;
  ir_semanticRequestDigest : ustr;
  ir_state : IdempotencyState;
  ir_responseStatus : option Z;
  ir_headers : option bytes;
  ir_body : option bytes;
  ir_keyId : option ustr;
  ir_nonce : option ustr;
  ir_createdAt : ustr;
  ir_updatedAt : ustr;
  ir_expiresAt : ustr
}.

#[export] Instance IdempotencyRow_eq_dec : EqDecision IdempotencyRow.
Proof. solve_decision. Defined.

(** The principal and the operation id. *)
Notation IdemKey := (prod ustr ustr) (only parsing).
Notation IdempotencyTable := (list (prod (prod ustr ustr) IdempotencyRow)) (only parsing).

Definition is_null {A} (o : option A) : bool := match o with None => true | Some _ => false end.

(** The CHECK constraint. *)
Definition idempotency_check (r : IdempotencyRow) : bool :=
  match ir_state r with
  | id_reserved | id_reconcile_required =>
      is_null (ir_responseStatus r) && is_null (ir_headers r) && is_null (ir_body r) && is_null (ir_keyId r) && is_null (ir_nonce r)
  | id_completed | id_failed =>
      match ir_responseStatus r with None => false | Some s => (100 <=? s)%Z && (s <=? 599)%Z end &&
      negb (is_null (ir_headers r)) && negb (is_null (ir_keyId r)) && negb (is_null (ir_nonce r))
  end.

(** The two UNIQUE constraints between rows of different keys; NULL is not equal to NULL. *)
Definition same_subject (p : ustr) (r : IdempotencyRow) (entry : IdemKey * IdempotencyRow) : bool :=
  bool_decide (entry.1.1 = p) && bool_decide (ir_scopeKey entry.2 = ir_scopeKey r) && bool_decide (ir_method entry.2 = ir_method r) &&
  bool_decide (ir_targetUri entry.2 = ir_targetUri r) && bool_decide (ir_semanticRequestDigest entry.2 = ir_semanticRequestDigest r).
Definition same_nonce (r : IdempotencyRow) (entry : IdemKey * IdempotencyRow) : bool :=
  negb (is_null (ir_nonce r)) && bool_decide (ir_keyId entry.2 = ir_keyId r) && bool_decide (ir_nonce entry.2 = ir_nonce r).

Definition write_idempotency (key : IdemKey) (r : IdempotencyRow) (t : IdempotencyTable) : result StoreError IdempotencyTable :=
  throw_if negb (idempotency_check r) with e_internal;
  throw_if existsb (fun entry => negb (bool_decide (entry.1 = key)) && (same_subject key.1 r entry || same_nonce r entry)) t with e_internal;
  Ok (JsMap.set key r t).

(** ** Stored responses *)

Record IdempotentResponse := mkResponse { is_status : Z; is_headers : list (ustr * ustr); is_body : bytes }.
Record IdempotencyReplay := mkReplay { ip_state : IdempotencyState; ip_responseStatus : Z; ip_headers : bytes; ip_body : bytes }.
Inductive IdempotencyReservation : Type := reserved | replay (r : IdempotencyReplay).

Definition u32_be (n : N) : bytes := [n / 16777216 mod 256; n / 65536 mod 256; n / 256 mod 256; n mod 256]%N.
Definition read_u32_be (bs : bytes) : N :=
  match bs with a :: b :: c :: d :: _ => (((a * 256 + b) * 256 + c) * 256 + d)%N | _ => 0%N end.

(** [writeUInt32BE] throws when the length does not fit. *)
Definition packResponsePlaintext (headers body : bytes) : result StoreError bytes :=
  throw_if (4294967295 <? N.of_nat (length headers))%N with e_internal;
  Ok (u32_be (N.of_nat (length headers)) ++ headers ++ body).

Definition unpackResponsePlaintext (packed : bytes) : result StoreError (bytes * bytes) :=
  throw_if (length packed <? 4)%nat with e_internal;
  let headerLength := N.to_nat (read_u32_be packed) in
  throw_if (length packed <? 4 + headerLength)%nat with e_internal;
  Ok (take headerLength (drop 4 packed), drop (4 + headerLength) packed).

Definition or_internal {E A} (r : result E A) : result StoreError A := match r with Ok a => Ok a | Err _ => Err e_internal end.

Section Store.
Context `{D : Doubles}.
(** AES-256-GCM under the key of the table: nonce, additional data and plaintext to the tag and the
    ciphertext; opening fails when the tag does not match. *)
Variable seal : bytes -> bytes -> bytes -> bytes * bytes.
Variable unseal : bytes -> bytes -> bytes -> bytes -> option bytes.
Variable responseKeyId : ustr.
Variable base64url_encode : bytes -> ustr.
Variable base64url_decode : ustr -> bytes.

Definition responseAad (principalId scopeKey operationId semanticRequestDigest : ustr) : result StoreError bytes :=
  let? text := or_internal (canonicalizeRfc8785 (VObj [
    (u "operationId", VStr operationId); (u "principalId", VStr principalId); (u "scopeKey", VStr scopeKey);
    (u "semanticRequestDigest", VStr semanticRequestDigest)])) in
  Ok (utf8_encode text).

(** The nonce stands for the random bytes; the tag is stored as the headers' ciphertext. *)
Definition encryptApiResponsePayload (aad headers body nonce : bytes) : result StoreError (bytes * bytes) :=
  let? packed := packResponsePlaintext headers body in Ok (seal nonce aad packed).

Definition decryptApiResponsePayload (aad nonce headersCiphertext bodyCiphertext : bytes) : result StoreError (bytes * bytes) :=
  match unseal nonce aad headersCiphertext bodyCiphertext with
  | None => Err e_internal
  | Some packed => unpackResponsePlaintext packed
  end.

Definition decryptReplay (principalId operationId : ustr) (row : IdempotencyRow) : result StoreError IdempotencyReplay :=
  throw_if negb (bool_decide (ir_state row = id_completed)) && negb (bool_decide (ir_state row = id_failed)) with e_internal;
  match ir_responseStatus row, ir_headers row, ir_body row, ir_nonce row with
  | Some status, Some headers, Some body, Some nonce =>
      let? aad := responseAad principalId (ir_scopeKey row) operationId (ir_semanticRequestDigest row) in
      let? '(headers, body) := decryptApiResponsePayload aad (base64url_decode nonce) headers body in
      Ok (mkReplay (ir_state row) status headers body)
  | _, _, _, _ => Err e_internal
  end.

Record ReserveIdempotencyInput := mkReserve {
  ri_operationId : ustr; ri_scopeKey : ustr; ri_method : ustr; ri_targetUri : ustr; ri_semanticRequestDigest : ustr; ri_createdAt : ustr; ri_expiresAt : ustr
}.

(** A transaction: the new table, or the old one and the error. *)
Definition idem_commit {R} (work : IdempotencyTable -> result StoreError (R * IdempotencyTable)) (t : IdempotencyTable)
    : IdempotencyTable * result StoreError R :=
  match work t with Ok (r, t') => (t', Ok r) | Err e => (t, Err e) end.

Definition existing_answer (principalId operationId : ustr) (existing : IdempotencyRow) : result StoreError IdempotencyReservation :=
  match ir_state existing with
  | id_reconcile_required => Err e_reconcile_required
  | id_reserved => Ok reserved
  | id_completed | id_failed => let? r := decryptReplay principalId operationId existing in Ok (replay r)
  end.

Definition reserveApiIdempotency (principalId : ustr) (i : ReserveIdempotencyInput) : IdempotencyTable -> IdempotencyTable * result StoreError IdempotencyReservation :=
  idem_commit (fun t =>
    match JsMap.get (principalId, ri_operationId i) t with
    | Some existing =>
        throw_if negb (bool_decide (ir_semanticRequestDigest existing = ri_semanticRequestDigest i)) with e_idempotency_conflict;
        let? answer := existing_answer principalId (ri_operationId i) existing in Ok (answer, t)
    | None =>
        let row := mkIdempotency (ri_scopeKey i) (ri_method i) (ri_targetUri i) (ri_semanticRequestDigest i) id_reserved None None None None None
          (ri_createdAt i) (ri_createdAt i) (ri_expiresAt i) in
        let? t := write_idempotency (principalId, ri_operationId i) row t in
        Ok (reserved, t)
    end).

Record CompleteIdempotencyInput := mkComplete {
  ci_operationId : ustr; ci_scopeKey : ustr; ci_semanticRequestDigest : ustr; ci_responseStatus : Z; ci_headers : bytes; ci_body : bytes; ci_updatedAt : ustr
}.

Definition answered_row (row : IdempotencyRow) (state : IdempotencyState) (status : Z) (sealed : bytes * bytes) (nonce updatedAt : ustr) : IdempotencyRow :=
  mkIdempotency (ir_scopeKey row) (ir_method row) (ir_targetUri row) (ir_semanticRequestDigest row) state (Some status)
    (Some sealed.1) (Some sealed.2) (Some responseKeyId) (Some nonce) (ir_createdAt row) updatedAt (ir_expiresAt row).

Definition finishIdempotency (principalId : ustr) (i : CompleteIdempotencyInput) (state : IdempotencyState) (nonce : bytes)
    : IdempotencyTable -> IdempotencyTable * result StoreError unit :=
  idem_commit (fun t =>
    match JsMap.get (principalId, ci_operationId i) t with
    | None => Err e_lookup
    | Some existing =>
        throw_if negb (bool_decide (ir_semanticRequestDigest existing = ci_semanticRequestDigest i)) with e_idempotency_conflict;
        throw_if bool_decide (ir_state existing = id_reconcile_required) with e_reconcile_required;
        throw_if negb (bool_decide (ir_state existing = id_reserved)) with e_idempotency_conflict;
        let? aad := responseAad principalId (ci_scopeKey i) (ci_operationId i) (ci_semanticRequestDigest i) in
        let? sealed := encryptApiResponsePayload aad (ci_headers i) (ci_body i) nonce in
        let? t := write_idempotency (principalId, ci_operationId i)
          (answered_row existing state (ci_responseStatus i) sealed (base64url_encode nonce) (ci_updatedAt i)) t in
        Ok (tt, t)
    end).

Definition completeApiIdempotency (principalId : ustr) (i : CompleteIdempotencyInput) := finishIdempotency principalId i id_completed.
Definition failApiIdempotency (principalId : ustr) (i : CompleteIdempotencyInput) := finishIdempotency principalId i id_failed.

Definition markApiIdempotencyReconcileRequired (principalId operationId updatedAt : ustr) : IdempotencyTable -> IdempotencyTable * result StoreError unit :=
  idem_commit (fun t =>
    match JsMap.get (principalId, operationId) t with
    | None => Err e_lookup
    | Some row =>
        let? t := write_idempotency (principalId, operationId)
          (mkIdempotency (ir_scopeKey row) (ir_method row) (ir_targetUri row) (ir_semanticRequestDigest row) id_reconcile_required None None None None None
             (ir_createdAt row) updatedAt (ir_expiresAt row)) t in
        Ok (tt, t)
    end).

Definition getApiIdempotency (principalId operationId : ustr) (t : IdempotencyTable) : result StoreError IdempotencyReservation :=
  match JsMap.get (principalId, operationId) t with
  | None => Err e_lookup
  | Some existing => existing_answer principalId operationId existing
  end.

(** ** The wrapper of mutation handlers *)

Context `{Hashing}.
Variable sha256 : bytes -> bytes.
(** [Date.parse]: milliseconds, [None] when not finite. *)
Variable Date_parse : ustr -> option Z.

(** [new Date(Date.parse(now) + 24 * 3600_000).toISOString()] *)
Definition day_after (now : ustr) : option ustr := date_plus Date_parse now (24 * 3600000).

Definition encodeHeaderBag (headers : list (ustr * ustr)) : result StoreError bytes :=
  let? text := or_internal (canonicalizeRfc8785 (VObj (map (fun kv => (kv.1, VStr kv.2)) headers))) in Ok (utf8_encode text).

(** Assigning a string to [__proto__] adds no property. *)
Definition decodeHeaderBag (bs : bytes) : result StoreError (list (ustr * ustr)) :=
  match JSON_parse (toString_utf8 bs) with
  | Some (VObj members) =>
      Ok (fold_left (fun headers kv =>
        match kv.2 with VStr value => if bool_decide (kv.1 = PROTO) then headers else JsMap.set kv.1 value headers | _ => headers end) members [])
  | _ => Err e_internal
  end.

Definition bodiless (status : Z) : bool := (status =? 304)%Z || (status =? 204)%Z.

Definition replayResponse (hs : list (ustr * ustr)) (r : IdempotencyReplay) : result StoreError Reply :=
  let? headers := decodeHeaderBag (ip_headers r) in
  Ok (mkReply (ip_responseStatus r) (reply_headers headers hs) (if bodiless (ip_responseStatus r) then no_payload else payload_bytes (ip_body r))).

Definition kind_text (k : IdentityKind) : ustr :=
  u match k with k_admin => "admin" | k_broker => "broker" | k_runner => "runner" | k_worker => "worker" | k_service => "service" end.

Record SemanticSubject := mkSubject {
  su_principalId : ustr; su_audience : ustr; su_scopeKey : ustr; su_operationId : ustr; su_method : ustr; su_targetUri : ustr;
  su_contentType : ustr; su_bodyDigest : ustr; su_ifMatch : option ustr
}.

Definition request_json (s : SemanticSubject) : jsvalue :=
  VObj ([(u "principalId", VStr (su_principalId s)); (u "audience", VStr (su_audience s)); (u "scopeKey", VStr (su_scopeKey s));
         (u "operationId", VStr (su_operationId s)); (u "method", VStr (toUpperCase (su_method s))); (u "targetUri", VStr (su_targetUri s));
         (u "contentType", VStr (su_contentType s)); (u "bodyDigest", VStr (su_bodyDigest s))] ++ opt_member "ifMatch" VStr (su_ifMatch s)).

Definition semanticDigest (s : SemanticSubject) : result StoreError ustr :=
  let? text := or_internal (canonicalizeRfc8785 (request_json s)) in Ok (sha256Utf8 text).

Definition signal (status : Z) (code message : string) : StoreError := e_signal (mkHttpSignal status code message None).

(** The operation id, the body and its digest. *)
Definition requireJsonMutation (request : Request) (jsonLimit : nat) : result StoreError (ustr * bytes * ustr) :=
  throw_if bool_decide (mediaTypeOf (string_header request "content-type") <> Some (u "application/json"))
    with signal 415 "MEDIA_TYPE_UNSUPPORTED" "application/json required";
  match rawBody request with
  | None => Err (signal 400 "SCHEMA_INVALID" "missing body")
  | Some raw =>
      throw_if (jsonLimit <? length raw)%nat with signal 413 "CONTENT_TOO_LARGE" "body too large";
      throw_if match string_header request "content-length" with
               | None => false | Some l => bool_decide (parseInt10 l <> Some (Z.of_nat (length raw)))
               end with signal 400 "SCHEMA_INVALID" "content-length mismatch";
      let computed := contentDigestSha256 sha256 raw in
      throw_if bool_decide (string_header request "content-digest" <> Some computed) with signal 422 "CONTENT_DIGEST_MISMATCH" "content-digest mismatch";
      match string_header request "operation-id" with
      | Some ((_ :: _) as operationId) => Ok (operationId, raw, computed)
      | _ => Err (signal 400 "SCHEMA_INVALID" "operation-id required")
      end
  end.

Definition projectScopeKey (params : list (ustr * ustr)) : ustr := default (u "admin") (JsMap.get (u "projectId") params).

Definition targetUri (protocol : ustr) (request : Request) : ustr :=
  protocol ++ u "://" ++ default (u "localhost") (string_header request "host") ++ url request.

Definition subject_of (scope : PrincipalScope) (request : Request) (spec : HttpOperationSpec) (protocol operationId bodyDigest : ustr) : SemanticSubject :=
  mkSubject (sc_principalId scope) (match sc_audiences scope with a :: _ => a | [] => kind_text (sc_identityKind scope) end)
    (projectScopeKey (params request)) operationId (method_text (op_method spec)) (targetUri protocol request) (u "application/json") bodyDigest
    (string_header request "if-match").

(** What precedes the reservation; its errors are not caught by the wrapper. *)
Record Mutation := mkMutation { mu_principalId : ustr; mu_operationId : ustr; mu_digest : ustr; mu_method : ustr; mu_targetUri : ustr }.

Definition prepare_mutation (spec : option HttpOperationSpec) (scope : option PrincipalScope) (request : Request) (protocol : ustr) (jsonLimit : nat)
    : result StoreError Mutation :=
  match spec with
  | None => Err (signal 404 "NOT_FOUND" "not found")
  | Some spec =>
      match scope with
      | None => Err e_unauthenticated
      | Some scope =>
          let? '(operationId, _, bodyDigest) := requireJsonMutation request jsonLimit in
          let? digest := semanticDigest (subject_of scope request spec protocol operationId bodyDigest) in
          Ok (mkMutation (sc_principalId scope) operationId digest (method_text (op_method spec)) (targetUri protocol request))
      end
  end.

(** The reservation: a reply for a request already answered or refused, or the start of its work. *)
Definition begin_mutation (m : Mutation) (now : ustr) (t : IdempotencyTable) : IdempotencyTable * option Reply :=
  let op := u "operation-id" in
  match day_after now with
  | None => (t, Some (mapStoreError [] e_internal (Some (mu_operationId m))))
  | Some expiresAt =>
      match reserveApiIdempotency (mu_principalId m)
              (mkReserve (mu_operationId m) (mu_digest m) (mu_method m) (mu_targetUri m) (mu_digest m) now expiresAt) t with
      | (t, Err e) => (t, Some (mapStoreError [] e (Some (mu_operationId m))))
      | (t, Ok reserved) => (t, None)
      | (t, Ok (replay r)) =>
          let hs := reply_header op (mu_operationId m) [] in
          (t, Some match replayResponse hs r with Ok reply => reply | Err e => mapStoreError hs e (Some (mu_operationId m)) end)
      end
  end.

(** The reply for a stored response. *)
Definition sent_reply (m : Mutation) (r : IdempotentResponse) : Reply :=
  let hs := reply_header (u "operation-id") (mu_operationId m) (reply_headers (is_headers r) []) in
  if bodiless (is_status r) then mkReply (is_status r) hs no_payload
  else mkReply (is_status r) (reply_header (u "content-type") (u "application/json") hs) (payload_bytes (is_body r)).

(** The response of the work is stored, then sent. *)
Definition finish_mutation (m : Mutation) (outcome : result StoreError IdempotentResponse) (nonce : bytes) (now : ustr) (t : IdempotencyTable)
    : IdempotencyTable * Reply :=
  let refuse t e := (t, mapStoreError [] e (Some (mu_operationId m))) in
  match outcome with
  | Err e => refuse t e
  | Ok r =>
      match encodeHeaderBag (JsMap.set (u "operation-id") (mu_operationId m) (is_headers r)) with
      | Err e => refuse t e
      | Ok bag =>
          match completeApiIdempotency (mu_principalId m) (mkComplete (mu_operationId m) (mu_digest m) (mu_digest m) (is_status r) bag (is_body r) now) nonce t with
          | (t, Err e) => refuse t e
          | (t, Ok _) => (t, sent_reply m r)
          end
      end
  end.

(** One request from its start to its end; [work] acts on everything else. *)
Definition withIdempotency {W} (spec : option HttpOperationSpec) (scope : option PrincipalScope) (request : Request) (protocol : ustr) (jsonLimit : nat)
    (work : W -> W * result StoreError IdempotentResponse) (now later : ustr) (nonce : bytes) (st : IdempotencyTable * W)
    : (IdempotencyTable * W) * result StoreError Reply :=
  let '(t, w) := st in
  match prepare_mutation spec scope request protocol jsonLimit with
  | Err e => (st, Err e)
  | Ok m =>
      match begin_mutation m now t with
      | (t, Some reply) => ((t, w), Ok reply)
      | (t, None) =>
          let '(w, outcome) := work w in
          let '(t, reply) := finish_mutation m outcome nonce later t in
          ((t, w), Ok reply)
      end
  end.
End Store.
