(* ===== verification/IdempotencyTheorems.v ===== *)
(** A mutation that was answered is answered the same way from then on, without running again. *)

From Stdlib Require Import String.
From S2P Require Import Prelude JsText CanonicalJson CanonicalJsonTheorems JsJson Digest DigestTheorems Egress Identity Replay HttpGate Idempotency.
Open Scope string_scope.
Open Scope list_scope.

(** ** Decoding with replacement agrees with strict decoding *)

Lemma code_units_bmp cp : (cp < 65536)%N -> code_units cp = [cp].
Proof. intros Hc. unfold code_units. by rewrite (proj2 (N.ltb_lt _ _) Hc). Qed.

Lemma code_units_pair cp : (65536 <= cp)%N -> code_units cp = [55296 + (cp - 65536) / 1024; 56320 + (cp - 65536) mod 1024]%N.
Proof. intros Hc. unfold code_units. by rewrite (proj2 (N.ltb_ge _ _) Hc). Qed.

Lemma in_range_true lo hi b : in_range lo hi b = true -> (lo <= b /\ b <= hi)%N.
Proof. unfold in_range. rewrite andb_true_iff, N.leb_le, N.leb_le. done. Qed.

Lemma toString_strict_n n : forall bs s, length bs <= n -> utf8_decode bs = Some s -> toString_utf8 bs = s.
Proof.
  induction n as [|n IH]; intros [|b1 r1] s Hn Hd; cbn [length] in Hn; try lia; try (cbn in Hd; by injection Hd as <-).
  unfold toString_utf8 in *. cbn [utf8_decode] in Hd. cbn [decode_from]. unfold decode_next at 1. cbn [needed idle]. unfold decode_first at 1.
  destruct (b1 <? 128)%N; [|destruct (in_range 194 223 b1) eqn:R1; [|destruct (in_range 224 239 b1) eqn:R2; [|destruct (in_range 240 244 b1) eqn:R3; [|done]]]].
  - destruct (utf8_decode r1) as [t|] eqn:E; [|done]. injection Hd as <-. cbn. f_equal. apply IH; [lia | done].
  - destruct r1 as [|b2 r2]; [done|]. destruct (is_cont b2) eqn:E2; [|done]. destruct (utf8_decode r2) as [t|] eqn:E; [|done]. injection Hd as <-.
    cbn [decode_from app]. unfold decode_next at 1. cbn [needed lower upper codePoint]. unfold is_cont in E2. rewrite E2.
    cbn [length] in Hn. rewrite (IH r2 t) by (lia || done). apply in_range_true in R1, E2. rewrite code_units_bmp by lia. done.
  - destruct r1 as [|b2 [|b3 r3]]; [done..|]. destruct (second3 b1 b2) eqn:E2; [|done]. destruct (is_cont b3) eqn:E3; [|done]. cbn [andb] in Hd.
    destruct (utf8_decode r3) as [t|] eqn:E; [|done]. injection Hd as <-. cbn [length] in Hn.
    cbn [decode_from app]. unfold decode_next at 1. cbn [needed lower upper codePoint]. unfold second3 in E2. rewrite E2. cbn [app].
    cbn [decode_from]. unfold decode_next at 1. cbn [needed lower upper codePoint]. unfold is_cont in E3. rewrite E3.
    rewrite (IH r3 t) by (lia || done). apply in_range_true in R2, E2, E3. rewrite code_units_bmp by (destruct (b1 =? 224)%N, (b1 =? 237)%N; lia). cbn [app]. f_equal.
    destruct (b1 =? 224)%N, (b1 =? 237)%N; lia.
  - destruct r1 as [|b2 [|b3 [|b4 r4]]]; [done..|]. destruct (second4 b1 b2) eqn:E2; [|done]. destruct (is_cont b3) eqn:E3; [|done].
    destruct (is_cont b4) eqn:E4; [|done]. cbn [andb] in Hd. destruct (utf8_decode r4) as [t|] eqn:E; [|done]. injection Hd as <-. cbn [length] in Hn.
    cbn [decode_from app]. unfold decode_next at 1. cbn [needed lower upper codePoint]. unfold second4 in E2. rewrite E2. cbn [app].
    cbn [decode_from]. unfold decode_next at 1. cbn [needed lower upper codePoint]. unfold is_cont in E3, E4. rewrite E3. cbn [app].
    cbn [decode_from]. unfold decode_next at 1. cbn [needed lower upper codePoint]. rewrite E4.
    rewrite (IH r4 t) by (lia || done). apply in_range_true in R3, E2, E3, E4.
    set (cp := ((((b1 - 240) * 64 + (b2 - 128)) * 64 + (b3 - 128)) * 64 + (b4 - 128))%N).
    assert (Hcp : (cp = (b1 - 240) * 262144 + (b2 - 128) * 4096 + (b3 - 128) * 64 + (b4 - 128))%N) by (unfold cp; lia).
    rewrite code_units_pair by (rewrite Hcp; destruct (b1 =? 240)%N eqn:B, (b1 =? 244)%N; rewrite ?N.eqb_eq, ?N.eqb_neq in B; lia).
    rewrite Hcp. done.
Qed.

Lemma toString_encode s : clean s -> toString_utf8 (utf8_encode s) = s.
Proof. intros [Hu Hp]. eapply toString_strict_n; [done|]. by apply utf8_encode_decode. Qed.

(** ** Packing *)

Lemma unpack_pack h b p : packResponsePlaintext h b = Ok p -> unpackResponsePlaintext p = Ok (h, b).
Proof.
  unfold packResponsePlaintext. destruct (_ <? _)%N eqn:E; [done|]. intros Hp. apply (inj Ok) in Hp. subst p. apply N.ltb_ge in E.
  set (n := N.of_nat (length h)) in *. unfold unpackResponsePlaintext. assert (Hr : read_u32_be (u32_be n ++ h ++ b) = n).
  { unfold u32_be, read_u32_be. cbn [app]. pose proof (N.div_mod n 256). pose proof (N.div_mod (n / 256) 256). pose proof (N.div_mod (n / 65536) 256).
    rewrite (N.mod_small (n / 16777216)) by (apply N.Div0.div_lt_upper_bound; lia).
    assert (n / 65536 = n / 256 / 256)%N by (rewrite N.Div0.div_div; done). assert (n / 16777216 = n / 65536 / 256)%N by (rewrite N.Div0.div_div; done). lia. }
  rewrite Hr. assert (length (u32_be n ++ h ++ b) = 4 + length h + length b) as Hlen by (rewrite !length_app; cbn; lia).
  rewrite Hlen. replace (N.to_nat n) with (length h) by (unfold n; lia). replace (4 + length h + length b <? 4)%nat with false by (symmetry; apply Nat.ltb_ge; lia).
  replace (4 + length h + length b <? 4 + length h)%nat with false by (symmetry; apply Nat.ltb_ge; lia).
  assert (drop 4 (u32_be n ++ h ++ b) = h ++ b) as -> by done. assert (drop (4 + length h) (u32_be n ++ h ++ b) = drop (length h) (h ++ b)) as -> by done.
  by rewrite take_app_length, drop_app_length.
Qed.

(** ** Header bags *)

Section Bags.
Context `{L : DoublesLaws}.

(** Header names as handlers write them. *)
Definition header_name (k : ustr) : Prop := toLowerCase k = k /\ array_index k = None /\ k <> PROTO /\ units16 k.

Definition header_list (hs : list (ustr * ustr)) : Prop := NoDup (map fst hs) /\ Forall (fun kv => header_name kv.1 /\ units16 kv.2) hs.

Definition bag_value (hs : list (ustr * ustr)) : jsvalue := VObj (map (fun kv => (kv.1, VStr kv.2)) hs).

Lemma bag_fields hs : map fst (map (fun kv : ustr * ustr => (kv.1, VStr kv.2)) hs) = map fst hs.
Proof. by rewrite map_map. Qed.

Lemma bag_wf hs : NoDup (map fst hs) -> js_wf (bag_value hs).
Proof. intros Hn. cbn [js_wf bag_value]. split; [by rewrite bag_fields|]. rewrite foldr_and_Forall. apply Forall_forall. by intros [k v] ([k' v'] & [= -> ->] & _)%list_elem_of_fmap. Qed.

Lemma bag_norm hs : norm (bag_value hs) = bag_value (sort_by key_leb hs).
Proof.
  unfold bag_value. cbn [norm]. rewrite map_map. cbn [fst snd norm].
  change (fun x : ustr * ustr => (x.1, VStr x.2)) with (fun kv : ustr * ustr => (kv.1, VStr kv.2)). f_equal.
  induction hs as [|[k v] hs IH]; [done|]. cbn [map]. rewrite !sort_by_cons, IH. clear IH. cbn [fst snd]. induction (sort_by key_leb hs) as [|[k' v'] r IHr]; [done|].
  cbn. unfold key_leb in *. cbn [fst] in *. destruct (utf16_leb k k'); [done|]. cbn. by rewrite IHr.
Qed.

Lemma set_all_fresh hs : NoDup (map fst hs) -> Forall (fun kv : ustr * ustr => kv.1 <> PROTO) hs -> forall acc, (forall k, k ∈ map fst hs -> k ∉ map fst acc) ->
  fold_left (fun headers kv => match snd kv with VStr value => if bool_decide (kv.1 = PROTO) then headers else JsMap.set kv.1 value headers | _ => headers end)
    (map (fun kv => (kv.1, VStr kv.2)) hs) acc = acc ++ hs.
Proof.
  induction hs as [|[k v] hs IH]; intros Hn Hp acc Hf; cbn [map fold_left fst snd]; [by rewrite app_nil_r|].
  inversion_clear Hn as [|? ? Hk Hn']. inversion_clear Hp as [|? ? Hk' Hp']. cbn [fst] in Hk'. rewrite bool_decide_false by done.
  rewrite set_absent by (apply Hf; by left). rewrite IH; [by rewrite <- app_assoc | done | done|].
  intros k'' Hin. rewrite map_app, elem_of_app. cbn. intros [Ha | ->%list_elem_of_singleton]; [by apply (Hf k''); [right|] | done].
Qed.

(** The stored bag reads back as the headers in the order of their names. *)
Lemma bag_roundtrip hs bs : header_list hs -> encodeHeaderBag hs = Ok bs -> decodeHeaderBag bs = Ok (sort_by key_leb hs).
Proof.
  intros [Hn Hh] He. unfold encodeHeaderBag in He. fold (bag_value hs) in He. unfold canonicalizeRfc8785 in He.
  destruct (walk true (bag_value hs)) as [text|] eqn:E; [|done]. cbn in He. injection He as <-.
  pose proof (bag_wf hs Hn) as Hwf. pose proof (walk_ok_printable _ _ _ Hwf E) as Hp. rewrite (walk_printable_ok _ _ Hwf Hp) in E. apply (inj Ok) in E. subst text.
  unfold decodeHeaderBag. rewrite toString_encode; [|apply clean_show; [by apply norm_printable | apply units_norm]].
  2: { cbn [units_ok bag_value]. rewrite foldr_and_Forall. apply Forall_forall. intros [k v] ([k' v'] & [= -> ->] & Hin)%list_elem_of_fmap.
       rewrite Forall_forall in Hh. destruct (Hh _ Hin) as [(_ & _ & _ & ?) ?]. done. }
  assert (Hr : readable (fun k => array_index k = None) (norm (bag_value hs))).
  { apply (norm_readable _ true); [done | done|]. cbn [keys_ok bag_value]. rewrite foldr_and_Forall. apply Forall_forall.
    intros [k v] ([k' v'] & [= -> ->] & Hin)%list_elem_of_fmap. rewrite Forall_forall in Hh. destruct (Hh _ Hin) as [(_ & ? & _ & _) ?]. done. }
  rewrite <- (stringify_show _ _ Hr), (JSON_roundtrip _ Hr), bag_norm. unfold bag_value.
  rewrite (set_all_fresh (sort_by key_leb hs)); [done | by rewrite sort_by_perm | |by intros ? ? ?%not_elem_of_nil].
  apply Forall_forall. intros kv Hin. rewrite elem_of_sort_by in Hin. rewrite Forall_forall in Hh. by destruct (Hh _ Hin) as [(_ & _ & ? & _) _].
Qed.

Lemma get_reply_headers kvs : NoDup (map fst kvs) -> Forall (fun kv : ustr * ustr => toLowerCase kv.1 = kv.1) kvs -> forall hs k,
  JsMap.get k (reply_headers kvs hs) = match JsMap.get k kvs with Some v => Some v | None => JsMap.get k hs end.
Proof.
  induction kvs as [|[k v] kvs IH]; intros Hn Hl hs k'; [done|]. inversion_clear Hn as [|? ? Hk Hn']. inversion_clear Hl as [|? ? Hlk Hl'].
  unfold reply_headers in *. cbn [fold_left fst snd] in *. rewrite (IH Hn' Hl'). unfold reply_header. cbn [fst] in Hlk. rewrite Hlk, JsMap.get_set. cbn [JsMap.get].
  destruct (decide (k' = k)) as [->|Hne]; [|done]. by rewrite (proj2 (JsMap.get_none k kvs) Hk).
Qed.
End Bags.

(** ** Requests in any order *)

Section Machine.
Context `{L : DoublesLaws} `{Hashing}.
Variables (seal : bytes -> bytes -> bytes -> bytes * bytes) (unseal : bytes -> bytes -> bytes -> bytes -> option bytes).
Variables (responseKeyId : ustr) (base64url_encode : bytes -> ustr) (base64url_decode : ustr -> bytes).
Variable (sha256 : bytes -> bytes) (Date_parse : ustr -> option Z).
(** What was sealed opens to itself, and a nonce survives its text form. *)
Hypothesis seal_opens : forall nonce aad text, unseal nonce aad (seal nonce aad text).1 (seal nonce aad text).2 = Some text.
Hypothesis nonce_text : forall nonce, base64url_decode (base64url_encode nonce) = nonce.

Notation begin_ := (begin_mutation unseal base64url_decode Date_parse).
Notation finish_ := (finish_mutation seal responseKeyId base64url_encode).
Notation reconcile := (markApiIdempotencyReconcileRequired).

Definition mu_key (m : Mutation) : ustr * ustr := (mu_principalId m, mu_operationId m).

(** Work that starts, a request answered at once, a response stored and sent, work refused at its end,
    a request set aside for reconciliation. *)
Inductive idem_event : Type :=
| ev_started (m : Mutation)
| ev_answered (m : Mutation) (reply : Reply)
| ev_stored (m : Mutation) (r : IdempotentResponse) (reply : Reply)
| ev_refused (m : Mutation) (reply : Reply)
| ev_reconciled (key : ustr * ustr).

Inductive idem_step (t : IdempotencyTable) : idem_event -> IdempotencyTable -> Prop :=
| step_started m now t' : begin_ m now t = (t', None) -> idem_step t (ev_started m) t'
| step_answered m now t' reply : begin_ m now t = (t', Some reply) -> idem_step t (ev_answered m reply) t'
| step_stored m r nonce now t' reply : finish_ m (Ok r) nonce now t = (t', reply) -> t' <> t -> idem_step t (ev_stored m r reply) t'
| step_refused m outcome nonce now reply : finish_ m outcome nonce now t = (t, reply) -> idem_step t (ev_refused m reply) t
| step_reconciled p o now t' : reconcile p o now t = (t', Ok tt) -> idem_step t (ev_reconciled (p, o)) t'.

Inductive idem_reached : IdempotencyTable -> list idem_event -> Prop :=
| idem_empty : idem_reached [] []
| idem_next t h ev t' : idem_reached t h -> idem_step t ev t' -> idem_reached t' (h ++ [ev]).

(** What storing a response does. *)
Lemma stored_effect m r nonce now t t' reply : finish_ m (Ok r) nonce now t = (t', reply) -> t' <> t ->
  exists bag existing aad packed, encodeHeaderBag (JsMap.set (u "operation-id") (mu_operationId m) (is_headers r)) = Ok bag /\
    JsMap.get (mu_key m) t = Some existing /\ ir_semanticRequestDigest existing = mu_digest m /\ ir_state existing = id_reserved /\
    responseAad (mu_principalId m) (mu_digest m) (mu_operationId m) (mu_digest m) = Ok aad /\ packResponsePlaintext bag (is_body r) = Ok packed /\
    t' = JsMap.set (mu_key m) (answered_row responseKeyId existing id_completed (is_status r) (seal nonce aad packed) (base64url_encode nonce) now) t /\
    reply = sent_reply m r.
Proof.
  unfold finish_mutation, completeApiIdempotency, finishIdempotency, idem_commit.
  destruct (encodeHeaderBag _) as [bag|] eqn:Eb; [|by intros [= <- _]]. cbn [ci_operationId ci_semanticRequestDigest ci_scopeKey ci_headers ci_body ci_responseStatus ci_updatedAt].
  fold (mu_key m). destruct (JsMap.get (mu_key m) t) as [existing|] eqn:Eg; [|by intros [= <- _]].
  destruct (bool_decide_reflect (ir_semanticRequestDigest existing = mu_digest m)) as [Ed|]; [|by intros [= <- _]]. cbn [negb].
  destruct (bool_decide (ir_state existing = id_reconcile_required)); [by intros [= <- _]|].
  destruct (bool_decide_reflect (ir_state existing = id_reserved)) as [Es|]; [|by intros [= <- _]]. cbn [negb].
  destruct (responseAad _ _ _ _) as [aad|] eqn:Ea; [|by intros [= <- _]]. cbn [rbind]. unfold encryptApiResponsePayload.
  destruct (packResponsePlaintext bag (is_body r)) as [packed|] eqn:Ep; [|by intros [= <- _]]. cbn [rbind].
  unfold write_idempotency. destruct (idempotency_check _); [|by intros [= <- _]]. cbn [negb]. destruct (existsb _ t); [by intros [= <- _]|]. cbn [rbind].
  intros [= <- <-] _. by exists bag, existing, aad, packed.
Qed.

(** ** Invariant *)

Definition same_scope (t : IdempotencyTable) : Prop := forall k row, JsMap.get k t = Some row -> ir_scopeKey row = ir_semanticRequestDigest row.

(** The row of a stored response: it opens to the response, unless it was set aside. *)
Definition stored_row (m : Mutation) (r : IdempotentResponse) (set_aside : Prop) (row : IdempotencyRow) : Prop :=
  ir_semanticRequestDigest row = mu_digest m /\ ir_state row <> id_reserved /\
  (set_aside /\ ir_state row = id_reconcile_required \/ ir_state row = id_completed /\ exists bag, encodeHeaderBag (JsMap.set (u "operation-id") (mu_operationId m) (is_headers r)) = Ok bag /\
     decryptReplay unseal base64url_decode (mu_principalId m) (mu_operationId m) row = Ok (mkReplay id_completed (is_status r) bag (is_body r))).

Record idem_inv (t : IdempotencyTable) (h : list idem_event) : Prop := {
  ii_scope : same_scope t;
  ii_stored : forall m r reply, ev_stored m r reply ∈ h -> reply = sent_reply m r /\
    exists row, JsMap.get (mu_key m) t = Some row /\ stored_row m r (ev_reconciled (mu_key m) ∈ h) row
}.

Lemma reserve_cases p i t t' a : reserveApiIdempotency unseal base64url_decode p i t = (t', a) ->
  t' = t \/ JsMap.get (p, ri_operationId i) t = None /\ a = Ok reserved /\
    t' = JsMap.set (p, ri_operationId i) (mkIdempotency (ri_scopeKey i) (ri_method i) (ri_targetUri i) (ri_semanticRequestDigest i) id_reserved
      None None None None None (ri_createdAt i) (ri_createdAt i) (ri_expiresAt i)) t.
Proof.
  unfold reserveApiIdempotency, idem_commit. destruct (JsMap.get (p, ri_operationId i) t) as [row|].
  - destruct (negb _); [intros [= <- _]; by left|]. destruct (existing_answer _ _ _ _ _); intros [= <- _]; by left.
  - unfold write_idempotency. destruct (negb _); [intros [= <- _]; by left|]. destruct (existsb _ t); [intros [= <- _]; by left|].
    cbn [rbind]. intros [= <- <-]. by right.
Qed.

Lemma begin_cases m now t t' a : begin_ m now t = (t', a) ->
  t' = t \/ JsMap.get (mu_key m) t = None /\ exists row, ir_scopeKey row = ir_semanticRequestDigest row /\ t' = JsMap.set (mu_key m) row t.
Proof.
  unfold begin_mutation. destruct (day_after _ now); [|intros [= <- _]; by left].
  destruct (reserveApiIdempotency _ _ _ _ t) as [t1 a1] eqn:E. apply reserve_cases in E as [->|(Hn & -> & ->)].
  - destruct a1 as [[|r]|e]; intros [= <- _]; by left.
  - intros [= <- _]. right. split; [done|]. eexists. split; [|done]. done.
Qed.

(** A row that other steps leave alone keeps its response. *)
Lemma inv_frame t h ev t' : idem_inv t h -> same_scope t' ->
  (forall k row, JsMap.get k t = Some row -> ev = ev_reconciled k \/ ir_state row = id_reserved \/ JsMap.get k t' = Some row) ->
  (forall k row, JsMap.get k t = Some row -> ev = ev_reconciled k -> exists row', JsMap.get k t' = Some row' /\
     ir_semanticRequestDigest row' = ir_semanticRequestDigest row /\ ir_state row' = id_reconcile_required) ->
  (forall m r reply, ev = ev_stored m r reply -> reply = sent_reply m r /\
    exists row, JsMap.get (mu_key m) t' = Some row /\ stored_row m r (ev_reconciled (mu_key m) ∈ h ++ [ev]) row) ->
  idem_inv t' (h ++ [ev]).
Proof.
  intros [_ Hst] Hsc Hkeep Hrec Hev. split; [done|]. intros m r reply. rewrite elem_of_app, list_elem_of_singleton. intros [Hin | <-]; [|by apply Hev].
  destruct (Hst _ _ _ Hin) as (-> & row & Hrow & Hd & Hs & Ho). split; [done|]. destruct (Hkeep _ _ Hrow) as [->|[?|Hk]]; [|done|].
  - destruct (Hrec _ _ Hrow eq_refl) as (row' & Hrow' & Hd' & Hs'). exists row'. split; [done|]. split; [congruence|]. split; [congruence|]. left.
    split; [|done]. rewrite elem_of_app, list_elem_of_singleton. by right.
  - exists row. split; [done|]. split; [done|]. split; [done|]. destruct Ho as [[Ho ?]|Ho]; [left; split; [|done]; rewrite elem_of_app; by left | by right].
Qed.

Lemma set_scope t k row : same_scope t -> ir_scopeKey row = ir_semanticRequestDigest row -> same_scope (JsMap.set k row t).
Proof. intros Ht Hr k' row'. rewrite JsMap.get_set. destruct (decide (k' = k)) as [->|]; [by intros [= <-] | apply Ht]. Qed.

Lemma decrypt_answered m r bag existing aad packed nonce now : ir_scopeKey existing = mu_digest m -> ir_semanticRequestDigest existing = mu_digest m ->
  responseAad (mu_principalId m) (mu_digest m) (mu_operationId m) (mu_digest m) = Ok aad -> packResponsePlaintext bag (is_body r) = Ok packed ->
  decryptReplay unseal base64url_decode (mu_principalId m) (mu_operationId m)
    (answered_row responseKeyId existing id_completed (is_status r) (seal nonce aad packed) (base64url_encode nonce) now) =
  Ok (mkReplay id_completed (is_status r) bag (is_body r)).
Proof.
  intros Hs Hd Ha Hp. unfold decryptReplay, answered_row. cbn [ir_state ir_responseStatus ir_headers ir_body ir_nonce ir_scopeKey ir_semanticRequestDigest].
  rewrite bool_decide_true by done. cbn [negb andb]. rewrite Hs, Hd, Ha. cbn [rbind]. unfold decryptApiResponsePayload.
  by rewrite nonce_text, seal_opens, (unpack_pack _ _ _ Hp).
Qed.

Lemma reached_idem_inv t h : idem_reached t h -> idem_inv t h.
Proof.
  induction 1 as [|t h ev t' Hr IH Hs]; [by split; [|intros ? ? ? ?%not_elem_of_nil]|].
  destruct Hs as [m now t' E|m now t' reply E|m r nonce now t' reply E Hne|m outcome nonce now reply E|p o now t' E].
  1,2: apply begin_cases in E as [->|(Hn & row & Hsc & ->)];
    [apply (inv_frame t); [done | apply IH | by intros; right; right | done | done]|
     apply (inv_frame t); [done | apply set_scope; [apply IH | done] | | done | done]; intros k row' Hrow'; right; right; rewrite JsMap.get_set_ne; [done | congruence]].
  - apply stored_effect in E as (bag & existing & aad & packed & Hb & Hg & Hd & Hst & Ha & Hp & -> & ->); [|done].
    pose proof (ii_scope _ _ IH _ _ Hg) as Hsc. apply (inv_frame t); [done | apply set_scope; [apply IH | done] | | done|].
    + intros k row' Hrow'. destruct (decide (k = mu_key m)) as [->|]; [right; left; congruence | right; right; by rewrite JsMap.get_set_ne].
    + intros m' r' reply' [= <- <- <-]. split; [done|]. eexists. split; [apply JsMap.get_set_eq|]. split; [done|]. split; [done|]. right. split; [done|].
      exists bag. split; [done|]. apply decrypt_answered; [congruence | done..].
  - apply (inv_frame t); [done | apply IH | by intros; right; right | done | done].
  - unfold markApiIdempotencyReconcileRequired, idem_commit in E. destruct (JsMap.get (p, o) t) as [row|] eqn:Hg; [|done].
    unfold write_idempotency in E. destruct (negb _); [done|]. destruct (existsb _ t); [done|]. cbn [rbind] in E. injection E as <-.
    pose proof (ii_scope _ _ IH _ _ Hg) as Hsc. apply (inv_frame t); [done | apply set_scope; [apply IH | done] | | | done].
    + intros k row' Hrow'. destruct (decide (k = (p, o))) as [->|]; [by left | right; right; by rewrite JsMap.get_set_ne].
    + intros k row' Hrow' [= <-]. rewrite Hg in Hrow'. injection Hrow' as <-. eexists. split; [apply JsMap.get_set_eq|]. done.
Qed.

(** ** Answers *)

(** The replay [b] of a response [r] that was sent as [a]: only the content type that sending adds is missing. *)
Definition same_answer (r : IdempotentResponse) (a b : Reply) : Prop :=
  rp_status a = rp_status b /\ rp_payload a = rp_payload b /\
  (forall name, name <> u "content-type" -> JsMap.get name (rp_headers a) = JsMap.get name (rp_headers b)) /\
  JsMap.get (u "content-type") (rp_headers b) = JsMap.get (u "content-type") (is_headers r).

Definition set_aside_reply (operationId : ustr) : Reply := mapStoreError [] e_reconcile_required (Some operationId).
Definition conflict_reply (operationId : ustr) : Reply := mapStoreError [] e_idempotency_conflict (Some operationId).

Lemma operation_id_name : header_name (u "operation-id").
Proof. split; [done|]. split; [done|]. split; [done|]. apply u_units. Qed.

Lemma header_list_set hs id : header_list hs -> units16 id -> header_list (JsMap.set (u "operation-id") id hs).
Proof.
  intros [Hn Hh] Hid. split; [by apply JsMap.NoDup_keys_set|]. apply Forall_forall. intros [k v] Hin.
  assert (Hg : JsMap.get k (JsMap.set (u "operation-id") id hs) = Some v) by (apply JsMap.elem_get; [by apply JsMap.NoDup_keys_set | done]).
  rewrite JsMap.get_set in Hg. destruct (decide (k = u "operation-id")) as [->|]; [injection Hg as <-; split; [apply operation_id_name | done]|].
  apply JsMap.get_some_elem in Hg. rewrite Forall_forall in Hh. by apply (Hh (k, v)).
Qed.

Lemma header_list_lower hs : header_list hs -> Forall (fun kv : ustr * ustr => toLowerCase kv.1 = kv.1) hs.
Proof. intros [_ Hh]. eapply Forall_impl; [exact Hh|]. by intros kv [(? & _) _]. Qed.

Lemma header_list_sort hs : header_list hs -> header_list (sort_by key_leb hs).
Proof. intros [Hn Hh]. split; [by rewrite sort_by_perm|]. by rewrite sort_by_perm. Qed.

(** The replay of a stored bag is the reply that was sent. *)
Lemma replay_same m r bag : header_list (is_headers r) -> units16 (mu_operationId m) ->
  encodeHeaderBag (JsMap.set (u "operation-id") (mu_operationId m) (is_headers r)) = Ok bag ->
  exists reply, replayResponse (reply_header (u "operation-id") (mu_operationId m) []) (mkReplay id_completed (is_status r) bag (is_body r)) = Ok reply /\
    same_answer r (sent_reply m r) reply.
Proof.
  intros Hh Hid Hb. pose proof (header_list_set _ _ Hh Hid) as Hs. unfold replayResponse. cbn [ip_headers ip_responseStatus ip_body].
  rewrite (bag_roundtrip _ _ Hs Hb). cbn [rbind]. eexists. split; [done|].
  assert (Hget : forall name, JsMap.get name (reply_headers (sort_by key_leb (JsMap.set (u "operation-id") (mu_operationId m) (is_headers r)))
      (reply_header (u "operation-id") (mu_operationId m) [])) =
    JsMap.get name (reply_header (u "operation-id") (mu_operationId m) (reply_headers (is_headers r) []))).
  { intros name. pose proof (header_list_sort _ Hs) as Hss. rewrite get_reply_headers by (by apply Hss || by apply header_list_lower).
    rewrite <- (get_perm (JsMap.set (u "operation-id") (mu_operationId m) (is_headers r))) by (by apply Hs || by rewrite sort_by_perm).
    unfold reply_header. change (toLowerCase (u "operation-id")) with (u "operation-id"). rewrite !JsMap.get_set.
    rewrite get_reply_headers by (by apply Hh || by apply header_list_lower). cbn [JsMap.get]. destruct (decide (name = u "operation-id")); [done|]. by destruct (JsMap.get name (is_headers r)). }
  unfold same_answer, sent_reply. destruct (bodiless (is_status r)); cbn [rp_status rp_payload rp_headers]; (split; [done|]); (split; [done|]).
  all: split; [intros name Hne; rewrite Hget|rewrite Hget; unfold reply_header; rewrite JsMap.get_set_ne by done;
    rewrite get_reply_headers by (by apply Hh || by apply header_list_lower); cbn [JsMap.get]; by destruct (JsMap.get _ (is_headers r))].
  { done. }
  unfold reply_header at 1. change (toLowerCase (u "content-type")) with (u "content-type"). by rewrite JsMap.get_set_ne.
Qed.

Lemma begin_stored t h m r reply m' now expires : idem_reached t h -> ev_stored m r reply ∈ h -> header_list (is_headers r) ->
  units16 (mu_operationId m) -> mu_key m' = mu_key m -> day_after Date_parse now = Some expires ->
  reply = sent_reply m r /\ exists reply', begin_ m' now t = (t, Some reply') /\
    if bool_decide (mu_digest m' = mu_digest m)
    then same_answer r reply reply' \/ ev_reconciled (mu_key m) ∈ h /\ reply' = set_aside_reply (mu_operationId m')
    else reply' = conflict_reply (mu_operationId m').
Proof.
  intros Hr Hin Hh Hid Hk Hday. destruct (ii_stored _ _ (reached_idem_inv _ _ Hr) _ _ _ Hin) as (-> & row & Hrow & Hd & _ & Hst). split; [done|].
  unfold begin_mutation, reserveApiIdempotency, idem_commit. rewrite Hday. cbn [ri_operationId ri_semanticRequestDigest]. fold (mu_key m'). rewrite Hk, Hrow, Hd.
  injection Hk as Hp Ho. destruct (bool_decide_reflect (mu_digest m' = mu_digest m)) as [E|E].
  - rewrite E, bool_decide_true by done. cbn [negb]. unfold existing_answer. destruct Hst as [[Hrec ->]|(-> & bag & Hb & Hdec)].
    + cbn [rbind]. eexists. split; [done|]. by right.
    + rewrite Hp, Ho, Hdec. cbn [rbind]. destruct (replay_same m r bag Hh Hid Hb) as (reply' & -> & Hsame). exists reply'. split; [done|]. by left.
  - rewrite bool_decide_false by congruence. cbn [negb]. by eexists.
Qed.

Lemma finish_stored t h m r reply m' outcome nonce now : idem_reached t h -> ev_stored m r reply ∈ h -> mu_key m' = mu_key m ->
  (finish_ m' outcome nonce now t).1 = t.
Proof.
  intros Hr Hin Hk. destruct (ii_stored _ _ (reached_idem_inv _ _ Hr) _ _ _ Hin) as (-> & row & Hrow & Hd & Hs & _).
  destruct outcome as [r'|e]; [|done]. destruct (finish_ m' (Ok r') nonce now t) as [t' reply'] eqn:E. cbn. destruct (decide (t' = t)) as [|Hne]; [done|].
  apply stored_effect in E as (? & existing & ? & ? & _ & Hg & _ & Hst & _); [|done]. congruence.
Qed.

(** ** Semantic digests *)

Definition subject_units (s : SemanticSubject) : Prop :=
  units16 (su_principalId s) /\ units16 (su_audience s) /\ units16 (su_scopeKey s) /\ units16 (su_operationId s) /\ units16 (toUpperCase (su_method s)) /\
  units16 (su_targetUri s) /\ units16 (su_contentType s) /\ units16 (su_bodyDigest s) /\ match su_ifMatch s with Some i => units16 i | None => True end.

Lemma subject_wf s : js_wf (request_json s).
Proof. destruct s as [? ? ? ? ? ? ? ? [i|]]; cbn; (split; [apply (bool_decide_unpack _); vm_compute; exact I | done]). Qed.

Lemma subject_units_ok s : subject_units s -> units_ok (request_json s).
Proof.
  intros (? & ? & ? & ? & ? & ? & ? & ? & Hi). unfold request_json. cbn [units_ok]. rewrite foldr_and_Forall. apply Forall_app. split.
  - repeat constructor; try done; try apply u_units.
  - destruct (su_ifMatch s) as [i|]; cbn; repeat constructor; try done; apply u_units.
Qed.

(** Requests with the same digest have the same subject, unless SHA-256 collides. *)
Definition same_subject_of (s s' : SemanticSubject) : Prop :=
  su_principalId s = su_principalId s' /\ su_audience s = su_audience s' /\ su_scopeKey s = su_scopeKey s' /\ su_operationId s = su_operationId s' /\
  toUpperCase (su_method s) = toUpperCase (su_method s') /\ su_targetUri s = su_targetUri s' /\ su_contentType s = su_contentType s' /\
  su_bodyDigest s = su_bodyDigest s' /\ su_ifMatch s = su_ifMatch s'.

Lemma semantic_binds s s' d : subject_units s -> subject_units s' -> semanticDigest s = Ok d -> semanticDigest s' = Ok d ->
  same_subject_of s s' \/ exists t t', collides t t'.
Proof.
  intros Hu Hu' Hs Hs'. unfold semanticDigest, canonicalizeRfc8785 in *.
  destruct (walk true (request_json s)) as [t|] eqn:E; [|done]. destruct (walk true (request_json s')) as [t'|] eqn:E'; [|done].
  cbn [or_internal rbind] in *. apply (inj Ok) in Hs, Hs'. pose proof (subject_wf s) as W. pose proof (subject_wf s') as W'.
  pose proof (walk_ok_printable _ _ _ W E) as P. pose proof (walk_ok_printable _ _ _ W' E') as P'.
  rewrite (walk_printable_ok _ _ W P) in E. rewrite (walk_printable_ok _ _ W' P') in E'. apply (inj Ok) in E, E'. subst t t'.
  apply subject_units_ok in Hu, Hu'.
  destruct (decide (utf8_encode (show (norm (request_json s))) = utf8_encode (show (norm (request_json s'))))) as [Heq|Hne].
  - left. destruct (clean_show (norm (request_json s))) as [A1 A2]; [by apply norm_printable | by apply units_norm|].
    destruct (clean_show (norm (request_json s'))) as [B1 B2]; [by apply norm_printable | by apply units_norm|].
    apply utf8_encode_inj in Heq; [|done..]. apply show_norm_inj in Heq; [|done..].
    assert (Hg : forall k, norm <$> JsMap.get (u k) (match request_json s with VObj fs => fs | _ => [] end) =
                           norm <$> JsMap.get (u k) (match request_json s' with VObj fs => fs | _ => [] end)).
    { intros k. apply norm_get; [apply W | apply W' | exact Heq]. }
    clear -Hg. destruct s as [a b c d e f g h i], s' as [a' b' c' d' e' f' g' h' i']. unfold same_subject_of. cbn [su_principalId su_audience su_scopeKey su_operationId su_method su_targetUri su_contentType su_bodyDigest su_ifMatch].
    unfold request_json in Hg. cbn [su_principalId su_audience su_scopeKey su_operationId su_method su_targetUri su_contentType su_bodyDigest su_ifMatch] in Hg.
    remember (toUpperCase e) as e1 eqn:He. remember (toUpperCase e') as e2 eqn:He'. clear He He'. pose proof (Hg "principalId") as H1. pose proof (Hg "audience") as H2. pose proof (Hg "scopeKey") as H3. pose proof (Hg "operationId") as H4.
    pose proof (Hg "method") as H5. pose proof (Hg "targetUri") as H6. pose proof (Hg "contentType") as H7. pose proof (Hg "bodyDigest") as H8. pose proof (Hg "ifMatch") as H9.
    clear Hg. destruct i as [i|], i' as [i'|]; vm_compute in H1, H2, H3, H4, H5, H6, H7, H8, H9; split_and!; congruence.
  - right. exists (show (norm (request_json s))), (show (norm (request_json s'))). split; [done|].
    subst d. unfold sha256Utf8, sha256Hex in Hs'. by apply app_inv_head in Hs'.
Qed.

Definition request_subject (spec : HttpOperationSpec) (scope : PrincipalScope) (request : Request) (protocol : ustr) : SemanticSubject :=
  subject_of scope request spec protocol (default [] (string_header request "operation-id")) (contentDigestSha256 sha256 (default [] (rawBody request))).

Notation prepare spec scope := (prepare_mutation sha256 (Some spec) (Some scope)).

Lemma prepare_subject spec scope request protocol limit m : prepare spec scope request protocol limit = Ok m ->
  semanticDigest (request_subject spec scope request protocol) = Ok (mu_digest m) /\ mu_key m = (sc_principalId scope, default [] (string_header request "operation-id")).
Proof.
  unfold prepare_mutation, requireJsonMutation, request_subject. destruct (bool_decide _); [done|]. destruct (rawBody request) as [raw|]; [|done].
  destruct (_ <? _)%nat; [done|]. match goal with |- context [throw_if ?b with _; _] => destruct b; [done|] end. destruct (bool_decide _); [done|].
  destruct (string_header request "operation-id") as [[|c o]|]; [done| |done]. cbn [rbind default]. unfold id.
  destruct (semanticDigest _) as [d|] eqn:E; [|done]. cbn [rbind]. intros [= <-]. cbn [mu_digest]. done.
Qed.

Lemma same_subject_digest s s' : same_subject_of s s' -> semanticDigest s = semanticDigest s'.
Proof.
  intros (H1 & H2 & H3 & H4 & H5 & H6 & H7 & H8 & H9). unfold semanticDigest, request_json. by rewrite H1, H2, H3, H4, H5, H6, H7, H8, H9.
Qed.


(** ** What the wrapper does not do *)

(** A request that comes again while its work runs, or after the process stopped in between, runs again. *)
Lemma reserved_runs_again m now now' t t' : day_after Date_parse now' <> None -> begin_ m now t = (t', None) -> begin_ m now' t' = (t', None).
Proof.
  intros Hday. unfold begin_mutation. destruct (day_after Date_parse now); [|done]. destruct (day_after Date_parse now'); [|done]. destruct (reserveApiIdempotency _ _ _ _ t) as [t1 [[|rep]|e]] eqn:E; [|done..]. intros [= <-].
  assert (Hrow : exists row, JsMap.get (mu_key m) t1 = Some row /\ ir_semanticRequestDigest row = mu_digest m /\ ir_state row = id_reserved).
  { unfold reserveApiIdempotency, idem_commit in E. cbn [ri_operationId ri_semanticRequestDigest] in E. fold (mu_key m) in E.
    destruct (JsMap.get (mu_key m) t) as [row|] eqn:Hg.
    - destruct (bool_decide_reflect (ir_semanticRequestDigest row = mu_digest m)) as [Hd|]; [|done]. cbn [negb] in E. unfold existing_answer in E.
      destruct (ir_state row) eqn:Hst; [|try (destruct (decryptReplay _ _ _ _ _); done)..|done]. cbn [rbind] in E. injection E as <-. by exists row.
    - destruct (write_idempotency _ _ t) as [t2|] eqn:Hw; [|done]. cbn [rbind] in E. injection E as <-. unfold write_idempotency in Hw.
      destruct (negb _); [done|]. destruct (existsb _ t); [done|]. injection Hw as <-. eexists. by rewrite JsMap.get_set_eq. }
  destruct Hrow as (row & Hg & Hd & Hst). unfold reserveApiIdempotency, idem_commit. cbn [ri_operationId ri_semanticRequestDigest]. fold (mu_key m).
  rewrite Hg, bool_decide_true by done. cbn [negb]. unfold existing_answer. rewrite Hst. done.
Qed.

(** The replay of a response with a body does not say what the body is. *)
Lemma replay_without_content_type m r bag reply : header_list (is_headers r) -> units16 (mu_operationId m) -> JsMap.get (u "content-type") (is_headers r) = None ->
  bodiless (is_status r) = false -> encodeHeaderBag (JsMap.set (u "operation-id") (mu_operationId m) (is_headers r)) = Ok bag ->
  replayResponse (reply_header (u "operation-id") (mu_operationId m) []) (mkReplay id_completed (is_status r) bag (is_body r)) = Ok reply ->
  JsMap.get (u "content-type") (rp_headers reply) = None /\ JsMap.get (u "content-type") (rp_headers (sent_reply m r)) = Some (u "application/json").
Proof.
  intros Hh Hid Hn Hb He Hr. pose proof (header_list_set _ _ Hh Hid) as Hs. unfold replayResponse in Hr. cbn [ip_headers ip_responseStatus ip_body] in Hr.
  rewrite (bag_roundtrip _ _ Hs He) in Hr. cbn [rbind] in Hr. apply (inj Ok) in Hr. subst reply. cbn [rp_headers]. split.
  - pose proof (header_list_sort _ Hs) as Hss. rewrite get_reply_headers by (by apply Hss || by apply header_list_lower).
    rewrite <- (get_perm (JsMap.set (u "operation-id") (mu_operationId m) (is_headers r))) by (by apply Hs || by rewrite sort_by_perm).
    rewrite JsMap.get_set_ne by done. by rewrite Hn.
  - unfold sent_reply. rewrite Hb. cbn [rp_headers]. unfold reply_header at 1. apply JsMap.get_set_eq.
Qed.
End Machine.

(** ** A stored request *)

Definition plain_hash : Hashing := {| sha256_hex := fun bs => bs |}.
Definition open_seal (nonce aad text : bytes) : bytes * bytes := ([], text).
Definition open_unseal (nonce aad tag text : bytes) : option bytes := Some text.
Definition same_bytes (b : bytes) : bytes := b.

Definition idem_spec : HttpOperationSpec :=
  mkOperation "createProject" POST "/v1/projects" [aud_admin] None [] mut_sync "R+J+I" [].
Definition idem_scope : PrincipalScope := mkScope (u "root") k_admin (u "aabb") [u "admin"] [] (u "1").
Definition idem_request : Request :=
  mkRequest (Some "createProject") (Some []) (u "/v1/projects")
    [(u "host", one (u "h")); (u "content-type", one (u "application/json")); (u "operation-id", one (u "op_1"));
     (u "content-digest", one (contentDigestSha256 same_bytes [123; 125]%N))] (Some [123; 125]%N) [].
Definition idem_response : IdempotentResponse := mkResponse 201 [(u "location", u "/v1/projects/p"); (u "etag", u "0")] [123; 125]%N.

Definition idem_clock (_ : ustr) : option Z := Some 0%Z.

Local Notation idem_prepared := (prepare_mutation (D := half_doubles) (H := plain_hash) same_bytes (Some idem_spec) (Some idem_scope) idem_request (u "https") 1024).
Definition idem_mutation : Mutation := Eval vm_compute in match idem_prepared with Ok m => m | Err _ => mkMutation [] [] [] [] [] end.
Definition idem_started : list ((ustr * ustr) * IdempotencyRow) := Eval vm_compute in
  fst (begin_mutation (D := half_doubles) open_unseal same_bytes idem_clock idem_mutation (u "1") []).
Definition idem_finished : list ((ustr * ustr) * IdempotencyRow) := Eval vm_compute in
  fst (finish_mutation (D := half_doubles) open_seal (u "key") same_bytes idem_mutation (Ok idem_response) [1%N] (u "2") idem_started).
Definition idem_history : list (idem_event (H := half_doubles)) :=
  [ev_started idem_mutation; ev_stored idem_mutation idem_response (sent_reply idem_mutation idem_response)].

Lemma idem_request_stored :
  idem_reached (H := half_doubles) open_seal open_unseal (u "key") same_bytes same_bytes idem_clock idem_finished idem_history.
Proof.
  unfold idem_history. apply (idem_next _ _ _ _ _ _ idem_started [ev_started idem_mutation]).
  - apply (idem_next _ _ _ _ _ _ [] []); [constructor|]. apply (step_started _ _ _ _ _ _ _ _ (u "1")). vm_compute. reflexivity.
  - apply (step_stored _ _ _ _ _ _ _ _ _ [1%N] (u "2")); [vm_compute; reflexivity | discriminate].
Qed.

Definition counting_work (runs : nat) : nat * result StoreError IdempotentResponse := (S runs, Ok idem_response).

Lemma idem_subject_units : subject_units (request_subject same_bytes idem_spec idem_scope idem_request (u "https")).
Proof. unfold subject_units. cbn [su_ifMatch request_subject subject_of]. split_and!; try done; apply (bool_decide_unpack _); vm_compute; exact I. Qed.

Lemma idem_headers : header_list (is_headers idem_response).
Proof. split; [apply (bool_decide_unpack _); vm_compute; exact I|]. repeat constructor; try done; apply (bool_decide_unpack _); vm_compute; exact I. Qed.

Lemma idem_prepared_ok : idem_prepared = Ok idem_mutation.
Proof. vm_compute. reflexivity. Qed.

Lemma idem_not_set_aside : ev_reconciled (mu_key idem_mutation) ∉ idem_history.
Proof. unfold idem_history. rewrite !elem_of_cons. by intros [?|[?|?%not_elem_of_nil]]. Qed.

