(* ===== verification/EvidenceGraph.v ===== *)
(** The evidence graph (packages/evidence/src/graph.ts, with evidenceIdFromNode of
    packages/repository/src/ingestion/evidence-id.ts): nodes and edges named by the digest of what
    identifies them, merging that keeps all provenance, and the checks a graph passes.

    The compiled schemas are parameters; numbers that need not be integers are doubles. *)

From Stdlib Require Import String.
From S2P Require Import Prelude Ids JsText CanonicalJson JsJson Digest.
Open Scope string_scope.
Open Scope list_scope.

(** ** Data *)

Inductive SourceRange : Set := whole | byte_range (byteStart byteEnd : Z) (displayLines : option (Z * Z)).

Inductive EvidenceSource : Set :=
| repository_source (sourceKind snapshotId artifactObjectDigest path : ustr) (range : SourceRange) (quoteDigest : ustr)
| artifact_source (sourceKind artifactObjectDigest : ustr) (range : SourceRange) (quoteDigest : ustr)
| external_source (fetchReceiptObjectDigest artifactObjectDigest url : ustr) (range : SourceRange) (quoteDigest : ustr).

Record Provenance := mkProvenance {
  pv_source : EvidenceSource;
  pv_extractorId : ustr;
  pv_extractorVersion : ustr;
  pv_observedAt : ustr;
  pv_contentDigest : ustr;
  pv_queryId : option ustr
}.

Record TrustVector := mkTrust {
  tv_authority : f64;
  tv_directness : ustr;
  tv_extractorReliability : f64;
  tv_freshness : f64;
  tv_independenceGroup : ustr;
  tv_adversarialRisk : f64
}.

Inductive Authorship : Set := DETERMINISTIC | USER | LOCAL_MODEL | CLOUD_MODEL.
#[export] Instance Authorship_eq_dec : EqDecision Authorship.
Proof. solve_decision. Defined.

Inductive EvidenceStatus : Set := es_verified | es_probable | es_unknown | es_conflicted | es_invalidated.
#[export] Instance EvidenceStatus_eq_dec : EqDecision EvidenceStatus.
Proof. solve_decision. Defined.

Record EvidenceNode := mkNode {
  en_id : ustr;
  en_kind : ustr;
  en_identityKey : ustr;
  en_authorship : Authorship;
  en_label : ustr;
  en_status : EvidenceStatus;
  en_trust : TrustVector;
  en_provenance : list Provenance;
  en_estimatedTokens : Z;
  en_contentObjectDigest : option ustr
}.

Record EvidenceEdge := mkEdge {
  ee_id : ustr;
  ee_from : ustr;
  ee_to : ustr;
  ee_relation : ustr;
  ee_polarity : ustr;
  ee_confidence : f64;
  ee_provenance : list Provenance
}.

Record EvidenceGraph := mkGraph { eg_snapshotId : ustr; eg_nodes : list EvidenceNode; eg_edges : list EvidenceEdge }.

Inductive GraphErr : Set :=
| DISTINCT_IDENTITIES | IDENTITY_FIELDS_DISAGREE | HISTORICAL_COLLAPSE | AUTHORSHIP_TRANSMUTED | GRAPH_SCHEMA | DELTA_SCHEMA | DELTA_BASE
| DUPLICATE_NODE | NODE_WITHOUT_PROVENANCE | NODE_ID_MISMATCH | DUPLICATE_EDGE | MISSING_ENDPOINT | EDGE_ID_MISMATCH | EDGE_WITHOUT_PROVENANCE
| INVALID_ID | UNHANDLED_UNIT_KIND | CANONICAL_ERROR | DIGEST_ERROR | NO_SNAPSHOT | MERGE_FUEL
| RRF_RANK | ABORTED | INTENT_SCHEMA | ACTION_SCHEMA | PROPOSAL_SCHEMA | CHANNEL_DELTA.

Definition graph_canon {E A} (r : result E A) : result GraphErr A := match r with Ok a => Ok a | Err _ => Err CANONICAL_ERROR end.
Definition graph_digest {E A} (r : result E A) : result GraphErr A := match r with Ok a => Ok a | Err _ => Err DIGEST_ERROR end.

(** ** Numbers *)

Definition is_nan (x : f64) : bool := match x with SpecFloat.S754_nan => true | _ => false end.
Definition is_neg_zero (x : f64) : bool := match x with SpecFloat.S754_zero true => true | _ => false end.

(** [Math.max] and [Math.min]: not a number when one is not, and 0 above -0. *)
Definition f64_max (x y : f64) : f64 :=
  if is_nan x || is_nan y then SpecFloat.S754_nan
  else if f64_lt x y then y else if f64_lt y x then x else if is_neg_zero x then y else x.
Definition f64_min (x y : f64) : f64 :=
  if is_nan x || is_nan y then SpecFloat.S754_nan
  else if f64_lt x y then x else if f64_lt y x then y else if is_neg_zero y then y else x.

(** ** Identities *)

Definition FUSION_EXTRACTOR_ID : ustr := u "pi-hec-rrf-fusion/v1".
Definition FUSION_EXTRACTOR_VERSION : ustr := u "fusion-weights/v1".

Definition isVolatileExtractor (extractorId : ustr) : bool := bool_decide (extractorId = FUSION_EXTRACTOR_ID).

Definition strip_prefix (p s : ustr) : ustr := if startsWith p s then drop (length p) s else s.
Definition strip_suffix (p s : ustr) : ustr := if endsWith p s then take (length s - length p) s else s.

Section Graph.
Context `{D : Doubles} `{Hashing}.
(** The compiled schemas of graphs and deltas. *)
Variable graph_schema : EvidenceGraph -> bool.

Definition text_member (k : string) (v : ustr) : ustr * jsvalue := (u k, VStr v).

Definition provenanceIdentity (p : Provenance) : result GraphErr ustr :=
  if isVolatileExtractor (pv_extractorId p) then
    graph_canon (canonicalizeRfc8785 (VObj [text_member "extractorId" (pv_extractorId p); text_member "extractorVersion" (pv_extractorVersion p);
      text_member "contentDigest" (pv_contentDigest p)]))
  else match pv_source p with
  | repository_source kind _ _ path _ _ =>
      if bool_decide (kind = u "git-history") then Ok (u "git:" ++ strip_suffix (u ".diff") (strip_prefix (u ".git/commits/") path))
      else Ok (u "repo:" ++ path)
  | external_source _ artifact url _ quote =>
      graph_canon (canonicalizeRfc8785 (VObj [text_member "url" url; text_member "artifactObjectDigest" artifact; text_member "quoteDigest" quote;
        text_member "extractorId" (pv_extractorId p); text_member "extractorVersion" (pv_extractorVersion p)]))
  | artifact_source _ artifact _ quote =>
      graph_canon (canonicalizeRfc8785 (VObj [text_member "artifactObjectDigest" artifact; text_member "quoteDigest" quote;
        text_member "extractorId" (pv_extractorId p); text_member "extractorVersion" (pv_extractorVersion p)]))
  end.

Definition identityProvenanceIdentities (provenance : list Provenance) : result GraphErr (list ustr) :=
  let? identities := rmap provenanceIdentity (List.filter (fun p => negb (isVolatileExtractor (pv_extractorId p))) provenance) in
  Ok (sort_by utf16_leb (uniq identities)).

Definition range_json (r : SourceRange) : jsvalue :=
  match r with
  | whole => VObj [text_member "kind" (u "whole")]
  | byte_range s e lines =>
      VObj ([text_member "kind" (u "bytes"); (u "byteStart", VInt s); (u "byteEnd", VInt e)] ++
        opt_member "displayLines" (fun l => VObj [(u "startLine", VInt (fst l)); (u "endLine", VInt (snd l))]) lines)
  end.

Definition source_json (s : EvidenceSource) : jsvalue :=
  match s with
  | repository_source kind snapshot artifact path range quote =>
      VObj [text_member "origin" (u "repository"); text_member "sourceKind" kind; text_member "snapshotId" snapshot;
        text_member "artifactObjectDigest" artifact; text_member "path" path; (u "range", range_json range); text_member "quoteDigest" quote]
  | artifact_source kind artifact range quote =>
      VObj [text_member "origin" (u "artifact"); text_member "sourceKind" kind; text_member "artifactObjectDigest" artifact;
        (u "range", range_json range); text_member "quoteDigest" quote]
  | external_source receipt artifact url range quote =>
      VObj [text_member "origin" (u "external"); text_member "sourceKind" (u "external-documentation"); text_member "fetchReceiptObjectDigest" receipt;
        text_member "artifactObjectDigest" artifact; text_member "url" url; (u "range", range_json range); text_member "quoteDigest" quote]
  end.

Definition sourceAsJson (s : EvidenceSource) : result GraphErr jsvalue :=
  let? text := graph_canon (canonicalizeRfc8785 (source_json s)) in
  match JSON_parse text with Some v => Ok v | None => Err CANONICAL_ERROR end.

Definition provenanceDedupeKey (p : Provenance) : result GraphErr ustr :=
  let? source := sourceAsJson (pv_source p) in
  graph_canon (canonicalizeRfc8785 (VObj ([text_member "extractorId" (pv_extractorId p); text_member "extractorVersion" (pv_extractorVersion p);
    text_member "contentDigest" (pv_contentDigest p); (u "source", source)] ++ opt_member "queryId" VStr (pv_queryId p)))).

(** The first item of every key. *)
Definition keep_first {A} (items : list (ustr * A)) : list (ustr * A) :=
  fold_left (fun acc kv => if JsMap.has kv.1 acc then acc else acc ++ [kv]) items [].

Definition keyed_provenance (items : list Provenance) : result GraphErr (list (ustr * Provenance)) :=
  rmap (fun p => let? key := provenanceDedupeKey p in Ok (key, p)) items.

Definition by_first {A} (a b : ustr * A) : bool := utf16_leb a.1 b.1.

Definition mergeProvenance (left right : list Provenance) : result GraphErr (list Provenance) :=
  let? keyed := keyed_provenance (left ++ right) in
  Ok (map snd (sort_by by_first (keep_first keyed))).

Definition asObjectDigest_graph (value : ustr) : result GraphErr ustr := if isObjectDigest_units value then Ok value else Err INVALID_ID.
Definition asEvidenceId_graph (value : ustr) : result GraphErr ustr := if isEvidenceId value then Ok value else Err INVALID_ID.
Definition asSnapshotId_graph (value : ustr) : result GraphErr ustr :=
  match ascii_text value with Some s => if isSnapshotId s then Ok value else Err INVALID_ID | None => Err INVALID_ID end.

(** The Crockford rendering of the hexadecimal part of a digest. *)
Definition digest_id (prefix : ustr) (digest : ustr) : result GraphErr ustr :=
  match sha256HexToCrockford32 (drop 7 digest) with Some body => Ok (prefix ++ body) | None => Err DIGEST_ERROR end.

Definition evidenceIdFromNode (snapshotId kind identityKey : ustr) (provenanceIdentities : list ustr) (contentObjectDigest : option ustr)
    : result GraphErr ustr :=
  let? digest := graph_digest (taggedHash "evidence-node" 1
    (VObj ([text_member "snapshotId" snapshotId; text_member "kind" kind; text_member "identityKey" identityKey;
            (u "provenanceIdentities", VArr (map VStr (sort_by utf16_leb provenanceIdentities)))] ++
           opt_member "contentObjectDigest" VStr contentObjectDigest))) in
  digest_id (u "evidence_") digest.

(** The id of a node in a snapshot. *)
Definition nodeIdentityId (snapshotId : ustr) (kind identityKey : ustr) (provenance : list Provenance) (content : option ustr) : result GraphErr ustr :=
  let? identities := identityProvenanceIdentities provenance in
  let? content := match content with None => Ok None | Some d => let? d := asObjectDigest_graph d in Ok (Some d) end in
  evidenceIdFromNode snapshotId kind identityKey identities content.

(** The id of the draft is not read. *)
Definition createEvidenceNode (snapshotId : ustr) (draft : EvidenceNode) : result GraphErr EvidenceNode :=
  let? id := nodeIdentityId snapshotId (en_kind draft) (en_identityKey draft) (en_provenance draft) (en_contentObjectDigest draft) in
  Ok (mkNode id (en_kind draft) (en_identityKey draft) (en_authorship draft) (en_label draft) (en_status draft) (en_trust draft) (en_provenance draft)
        (en_estimatedTokens draft) (en_contentObjectDigest draft)).

Definition createEvidenceEdge (from to relation polarity : ustr) (confidence : f64) (provenance : list Provenance) : result GraphErr EvidenceEdge :=
  let? identities := identityProvenanceIdentities provenance in
  let? digest := graph_digest (taggedHash "evidence-edge" 1
    (VObj [text_member "from" from; text_member "to" to; text_member "relation" relation; text_member "polarity" polarity;
           (u "provenanceIdentities", VArr (map VStr identities))])) in
  let? id := digest_id (u "edge_") digest in
  Ok (mkEdge id from to relation polarity confidence provenance).

Definition emptyEvidenceGraph (snapshotId : ustr) : EvidenceGraph := mkGraph snapshotId [] [].

Definition evidenceGraphDigest (graph : EvidenceGraph) : result GraphErr ustr :=
  let? identities := rmap (fun n => identityProvenanceIdentities (en_provenance n)) (eg_nodes graph) in
  let? text := graph_canon (canonicalizeRfc8785 (VObj [(u "schemaVersion", VInt 1); text_member "snapshotId" (eg_snapshotId graph);
    (u "nodeIds", VArr (map VStr (sort_by utf16_leb (map en_id (eg_nodes graph)))));
    (u "edgeIds", VArr (map VStr (sort_by utf16_leb (map ee_id (eg_edges graph)))));
    (u "provenanceIdentities", VArr (map VStr (sort_by utf16_leb (concat identities))))])) in
  Ok (objectDigestFromBytes (utf8_encode text)).

(** ** Merging *)

Definition from_history (p : Provenance) : bool :=
  match pv_source p with repository_source kind _ _ _ _ _ => bool_decide (kind = u "git-history") | _ => false end.

Definition isHistoricalNode (n : EvidenceNode) : bool :=
  bool_decide (en_kind n = u "commit") || bool_decide (en_kind n = u "diff-hunk") || existsb from_history (en_provenance n).

Definition status_rank (s : EvidenceStatus) : nat :=
  match s with es_verified => 0 | es_probable => 1 | es_unknown => 2 | es_conflicted => 3 | es_invalidated => 4 end.
Definition worseStatus (left right : EvidenceStatus) : EvidenceStatus := if (status_rank right <=? status_rank left)%nat then left else right.

Definition mergeAuthorship (left right : Authorship) : Authorship :=
  if bool_decide (left = CLOUD_MODEL) || bool_decide (right = CLOUD_MODEL) then CLOUD_MODEL
  else if bool_decide (left = LOCAL_MODEL) || bool_decide (right = LOCAL_MODEL) then LOCAL_MODEL
  else if bool_decide (left = USER) || bool_decide (right = USER) then USER
  else DETERMINISTIC.

Definition mergeTrustVector (left right : TrustVector) : TrustVector :=
  if negb (bool_decide (tv_independenceGroup left = tv_independenceGroup right)) then left
  else mkTrust (tv_authority left) (tv_directness left) (f64_min (tv_extractorReliability left) (tv_extractorReliability right))
         (f64_min (tv_freshness left) (tv_freshness right)) (tv_independenceGroup left) (f64_max (tv_adversarialRisk left) (tv_adversarialRisk right)).

Definition by_person_or_rule (a : Authorship) : bool := bool_decide (a = DETERMINISTIC) || bool_decide (a = USER).
Definition by_model (a : Authorship) : bool := bool_decide (a = LOCAL_MODEL) || bool_decide (a = CLOUD_MODEL).

Definition mergeEvidenceNodes (left right : EvidenceNode) : result GraphErr EvidenceNode :=
  throw_if negb (bool_decide (en_id left = en_id right)) with DISTINCT_IDENTITIES;
  throw_if negb (bool_decide (en_kind left = en_kind right)) || negb (bool_decide (en_identityKey left = en_identityKey right)) with IDENTITY_FIELDS_DISAGREE;
  throw_if negb (Bool.eqb (isHistoricalNode left) (isHistoricalNode right)) with HISTORICAL_COLLAPSE;
  let independenceConflict := negb (bool_decide (tv_independenceGroup (en_trust left) = tv_independenceGroup (en_trust right))) in
  let authorship := mergeAuthorship (en_authorship left) (en_authorship right) in
  throw_if by_person_or_rule (en_authorship left) && by_model (en_authorship right) && bool_decide (authorship = DETERMINISTIC) with AUTHORSHIP_TRANSMUTED;
  let? provenance := mergeProvenance (en_provenance left) (en_provenance right) in
  Ok (mkNode (en_id left) (en_kind left) (en_identityKey left) authorship
        (if utf16_leb (en_label left) (en_label right) then en_label left else en_label right)
        (if independenceConflict then es_conflicted else worseStatus (en_status left) (en_status right))
        (mergeTrustVector (en_trust left) (en_trust right)) provenance (Z.max (en_estimatedTokens left) (en_estimatedTokens right))
        (match en_contentObjectDigest left with Some d => Some d | None => en_contentObjectDigest right end)).

Definition mergeEvidenceEdges (left right : EvidenceEdge) : result GraphErr EvidenceEdge :=
  throw_if negb (bool_decide (ee_id left = ee_id right)) with DISTINCT_IDENTITIES;
  let? provenance := mergeProvenance (ee_provenance left) (ee_provenance right) in
  Ok (mkEdge (ee_id left) (ee_from left) (ee_to left) (ee_relation left) (ee_polarity left) (f64_max (ee_confidence left) (ee_confidence right)) provenance).

(** ** The checks of a graph *)

Definition check_node (snapshotId : ustr) (seen : list ustr) (n : EvidenceNode) : result GraphErr (list ustr) :=
  throw_if includes (en_id n) seen with DUPLICATE_NODE;
  throw_if match en_provenance n with [] => true | _ => false end with NODE_WITHOUT_PROVENANCE;
  let? snapshotId := asSnapshotId_graph snapshotId in
  let? expected := nodeIdentityId snapshotId (en_kind n) (en_identityKey n) (en_provenance n) (en_contentObjectDigest n) in
  throw_if negb (bool_decide (expected = en_id n)) with NODE_ID_MISMATCH;
  Ok (setAdd seen (en_id n)).

Definition check_edge (nodeIds seen : list ustr) (e : EvidenceEdge) : result GraphErr (list ustr) :=
  throw_if includes (ee_id e) seen with DUPLICATE_EDGE;
  throw_if negb (includes (ee_from e) nodeIds) || negb (includes (ee_to e) nodeIds) with MISSING_ENDPOINT;
  let? expected := createEvidenceEdge (ee_from e) (ee_to e) (ee_relation e) (ee_polarity e) (ee_confidence e) (ee_provenance e) in
  throw_if negb (bool_decide (ee_id expected = ee_id e)) with EDGE_ID_MISMATCH;
  throw_if match ee_provenance e with [] => true | _ => false end with EDGE_WITHOUT_PROVENANCE;
  Ok (setAdd seen (ee_id e)).

Definition assertEvidenceGraph (graph : EvidenceGraph) : result GraphErr unit :=
  throw_if negb (graph_schema graph) with GRAPH_SCHEMA;
  let? nodeIds := rfold (check_node (eg_snapshotId graph)) [] (eg_nodes graph) in
  let? _ := rfold (check_edge nodeIds) [] (eg_edges graph) in
  Ok tt.

Definition merge_into {A} (id : A -> ustr) (merge : A -> A -> result GraphErr A) (m : list (ustr * A)) (x : A) : result GraphErr (list (ustr * A)) :=
  match JsMap.get (id x) m with
  | None => Ok (JsMap.set (id x) x m)
  | Some existing => let? merged := merge existing x in Ok (JsMap.set (id x) merged m)
  end.

(** A map by id of a list; a later item with the same id replaces an earlier one. *)
Definition map_by_id {A} (id : A -> ustr) (xs : list A) : list (ustr * A) := fold_left (fun m x => JsMap.set (id x) x m) xs [].

Definition by_key {A} (id : A -> ustr) (a b : A) : bool := utf16_leb (id a) (id b).

Definition mergeEvidence (graph : EvidenceGraph) (nodes : list EvidenceNode) (edges : list EvidenceEdge) : result GraphErr EvidenceGraph :=
  let? nodeMap := rfold (merge_into en_id mergeEvidenceNodes) (map_by_id en_id (eg_nodes graph)) nodes in
  let? edgeMap := rfold (merge_into ee_id mergeEvidenceEdges) (map_by_id ee_id (eg_edges graph)) edges in
  let merged := mkGraph (eg_snapshotId graph) (sort_by (by_key en_id) (JsMap.values nodeMap)) (sort_by (by_key ee_id) (JsMap.values edgeMap)) in
  let? _ := assertEvidenceGraph merged in
  Ok merged.

(** What a delta names and brings; its other members are copied only. *)
Record EvidenceDelta := mkDelta {
  ed_baseEvidenceGraphObjectDigest : ustr;
  ed_nodes : list EvidenceNode;
  ed_edges : list EvidenceEdge;
  ed_unresolvedClaimIds : list ustr
}.
Variable delta_schema : EvidenceDelta -> bool.

Definition applyEvidenceDelta (graph : EvidenceGraph) (delta : EvidenceDelta) : result GraphErr EvidenceGraph :=
  throw_if negb (delta_schema delta) with DELTA_SCHEMA;
  let? digest := evidenceGraphDigest graph in
  throw_if negb (bool_decide (ed_baseEvidenceGraphObjectDigest delta = digest)) with DELTA_BASE;
  mergeEvidence graph (ed_nodes delta) (ed_edges delta).

(** ** Nodes of index rows *)

Definition estimatedTokensFor (text : ustr) : Z := (Z.of_nat (utf8ByteLength text) + 3) / 4.

Definition independenceGroupFor (producer blobDigest : ustr) : ustr := take 256 (producer ++ u ":" ++ blobDigest).

Definition evidenceKindForUnitKind (kind : ustr) : result GraphErr ustr :=
  if includes kind (map u ["function"; "method"; "class"; "top-level"]) then Ok (u "symbol")
  else if bool_decide (kind = u "test") then Ok (u "test")
  else if bool_decide (kind = u "schema-object") then Ok (u "schema")
  else if bool_decide (kind = u "config-block") then Ok (u "build-config")
  else if bool_decide (kind = u "commit") then Ok (u "commit")
  else if bool_decide (kind = u "diff") then Ok (u "diff-hunk")
  else if bool_decide (kind = u "directory") then Ok (u "directory")
  else if includes kind (map u ["file"; "markdown-section"; "fallback-window"]) then Ok (u "code-region")
  else Err UNHANDLED_UNIT_KIND.

Record IndexUnitRow := mkUnit {
  iu_evidenceId : ustr; iu_path : ustr; iu_kind : ustr; iu_symbolId : ustr; iu_byteStart : Z; iu_byteEnd : Z; iu_lineStart : Z; iu_lineEnd : Z;
  iu_contentDigest : ustr; iu_snapshotId : ustr; iu_text : ustr; iu_producer : ustr; iu_category : ustr
}.

Definition identityKeyForUnit (r : IndexUnitRow) : ustr :=
  take 1024 (if bool_decide (iu_kind r = u "diff") then u "diff:" ++ iu_symbolId r
             else if bool_decide (iu_kind r = u "commit") then u "commit:" ++ iu_symbolId r
             else iu_kind r ++ u ":" ++ iu_path r ++ u ":" ++ int_toString (iu_byteStart r) ++ u ":" ++ int_toString (iu_byteEnd r) ++ u ":" ++ iu_symbolId r).

Definition rangeFor (r : IndexUnitRow) : SourceRange :=
  if (iu_byteStart r <? iu_byteEnd r)%Z
  then byte_range (iu_byteStart r) (iu_byteEnd r) (Some (Z.max 1 (iu_lineStart r), Z.max 1 (iu_lineEnd r)))
  else whole.

Definition sourceKindFor (r : IndexUnitRow) : ustr :=
  if bool_decide (iu_kind r = u "commit") || bool_decide (iu_kind r = u "diff") || startsWith (u ".git/") (iu_path r) then u "git-history"
  else if bool_decide (iu_category r = u "instruction") then u "project-instruction" else u "repository".

Definition unitToNode (r : IndexUnitRow) (extractorId observedAt : ustr) : result GraphErr EvidenceNode :=
  let quoteDigest := sha256Utf8 (iu_text r) in
  let? blob := asObjectDigest_graph (iu_contentDigest r) in
  let historical := bool_decide (sourceKindFor r = u "git-history") in
  let? snapshotId := asSnapshotId_graph (iu_snapshotId r) in
  let? kind := evidenceKindForUnitKind (iu_kind r) in
  let trust := mkTrust (if historical then f64_literal 7 10 else f64_literal 85 100) (if historical then u "observed" else u "static-derived")
    (f64_literal 9 10) (if historical then f64_literal 5 10 else f64_of_Z 1) (independenceGroupFor (iu_producer r) blob) (f64_literal 5 100) in
  let provenance := mkProvenance (repository_source (sourceKindFor r) snapshotId blob (iu_path r) (rangeFor r) quoteDigest)
    extractorId (iu_producer r) observedAt quoteDigest None in
  createEvidenceNode snapshotId
    (mkNode [] kind (identityKeyForUnit r) DETERMINISTIC (match iu_symbolId r with [] => iu_path r | s => s end) es_probable trust [provenance]
       (estimatedTokensFor (iu_text r)) (Some blob)).
End Graph.
