(* ===== verification/EvidenceGraphTheorems.v ===== *)
(** Merging evidence loses and launders nothing: a merged graph passes the checks of a graph, has the
    nodes of both sides, and every node carries the provenance, the doubts and the worst authorship of
    all nodes that were merged into it. *)

From Stdlib Require Import String.
From S2P Require Import Prelude Ids JsText CanonicalJson CanonicalJsonTheorems JsJson Digest EvidenceGraph.
Open Scope string_scope.
Open Scope list_scope.

(** ** Maps by id *)

Section ById.
Context {A : Type} (id : A -> ustr).

(** A map whose entries are filed under their own id. *)
Definition filed (m : list (ustr * A)) : Prop := NoDup (JsMap.keys m) /\ forall k x, JsMap.get k m = Some x -> id x = k.

Lemma filed_set m x : filed m -> filed (JsMap.set (id x) x m).
Proof.
  intros [Hn Hf]. split; [by apply JsMap.NoDup_keys_set|]. intros k y. rewrite JsMap.get_set. destruct (decide (k = id x)) as [->|]; [by intros [= <-] | apply Hf].
Qed.

Lemma by_id_filed xs : filed (map_by_id id xs).
Proof.
  unfold map_by_id. assert (H : filed []) by (split; [constructor | done]). revert H. generalize (@nil (ustr * A)). induction xs as [|x xs IH]; intros m Hm; [done|].
  cbn [fold_left]. by apply IH, filed_set.
Qed.

Lemma by_id_finds xs x : NoDup (map id xs) -> x ∈ xs -> JsMap.get (id x) (map_by_id id xs) = Some x.
Proof.
  intros Hn Hx. unfold map_by_id. generalize (@nil (ustr * A)). induction xs as [|y xs IH]; intros m; [by apply not_elem_of_nil in Hx|].
  apply NoDup_cons in Hn as [Hy Hn]. cbn [fold_left]. apply elem_of_cons in Hx as [->|Hx]; [|by apply IH].
  clear IH. assert (Hg : JsMap.get (id y) (JsMap.set (id y) y m) = Some y) by apply JsMap.get_set_eq. revert Hg. generalize (JsMap.set (id y) y m).
  induction xs as [|z xs IH]; intros m' Hg; [done|]. cbn [fold_left map] in *. apply NoDup_cons in Hn as [_ Hn]. apply not_elem_of_cons in Hy as [Hne Hy].
  apply IH; [done | done|]. by rewrite JsMap.get_set_ne.
Qed.

Lemma by_id_from xs k x : JsMap.get k (map_by_id id xs) = Some x -> x ∈ xs.
Proof.
  unfold map_by_id. assert (H : forall k x, JsMap.get k (@nil (ustr * A)) = Some x -> x ∈ xs) by done. revert H.
  assert (Hsub : forall y, y ∈ xs -> y ∈ xs) by done. revert Hsub. generalize (@nil (ustr * A)). generalize xs at 1 4 as ys. induction ys as [|y ys IH]; intros m Hs Hm; [apply Hm|].
  cbn [fold_left]. apply IH; [intros z Hz; apply Hs; by right|]. intros k' z. rewrite JsMap.get_set. destruct (decide (k' = id y)); [|apply Hm].
  intros [= <-]. apply Hs. by left.
Qed.

Lemma filed_values m x : filed m -> x ∈ JsMap.values m <-> JsMap.get (id x) m = Some x.
Proof.
  intros [Hn Hf]. unfold JsMap.values. split.
  - intros ([k y] & -> & Hin)%list_elem_of_fmap. cbn. apply JsMap.elem_get in Hin; [|done]. by rewrite (Hf _ _ Hin).
  - intros Hg. apply JsMap.get_some_elem in Hg. by apply (list_elem_of_fmap_2 snd) in Hg.
Qed.

Lemma filed_ids m : filed m -> map id (JsMap.values m) = JsMap.keys m.
Proof.
  intros [Hn Hf]. unfold JsMap.values, JsMap.keys. rewrite map_map. apply map_ext_in. intros [k x] Hin%list_elem_of_In. cbn.
  apply Hf. by apply JsMap.elem_get.
Qed.
End ById.

(** ** Sorting *)

Lemma by_key_sorted {A} (id : A -> ustr) l : StronglySorted (fun a b => by_key id a b = true) (sort_by (by_key id) l).
Proof.
  apply Sorted_StronglySorted; [intros a b c; unfold by_key; apply utf16_leb_trans|]. apply sort_by_sorted. intros a b. unfold by_key. apply utf16_leb_total.
Qed.

(** ** Keys of provenance *)

(** The same item, but for the time it was observed. *)
Record same_item (p q : Provenance) : Prop := {
  si_source : pv_source p = pv_source q;
  si_extractorId : pv_extractorId p = pv_extractorId q;
  si_extractorVersion : pv_extractorVersion p = pv_extractorVersion q;
  si_contentDigest : pv_contentDigest p = pv_contentDigest q;
  si_queryId : pv_queryId p = pv_queryId q
}.

Lemma same_item_refl p : same_item p p.
Proof. done. Qed.
Lemma same_item_trans p q r : same_item p q -> same_item q r -> same_item p r.
Proof. intros [] []. split; congruence. Qed.

Section Keys.
Context {D : Doubles} {L : DoublesLaws}.

Lemma rfc8785_injective v w t : js_wf v -> js_wf w -> canonicalizeRfc8785 v = Ok t -> canonicalizeRfc8785 w = Ok t -> norm v = norm w.
Proof.
  intros Hv Hw Ev Ew. unfold canonicalizeRfc8785 in *. pose proof (walk_ok_printable _ _ _ Hv Ev) as Pv. pose proof (walk_ok_printable _ _ _ Hw Ew) as Pw.
  rewrite (walk_printable_ok true v Hv Pv) in Ev. rewrite (walk_printable_ok true w Hw Pw) in Ew. apply show_norm_inj; auto. congruence.
Qed.

(** Reading canonical text gives the normal form. *)
Lemma rfc8785_reads v t : js_wf v -> keys_ok (fun k => array_index k = None) v -> canonicalizeRfc8785 v = Ok t -> JSON_parse t = Some (norm v).
Proof.
  intros Hv Hk Ev. unfold canonicalizeRfc8785 in *. pose proof (walk_ok_printable _ _ _ Hv Ev) as Pv. rewrite (walk_printable_ok true v Hv Pv) in Ev.
  injection Ev as <-. pose proof (norm_readable _ _ _ Hv Pv Hk) as Hr. rewrite <- (stringify_show _ _ Hr). by apply JSON_roundtrip.
Qed.

Lemma get_norm_member fs k : NoDup (map fst fs) ->
  JsMap.get k (sort_by key_leb (map (fun kv => (fst kv, norm (snd kv))) fs)) = norm <$> JsMap.get k fs.
Proof.
  intros Hn. rewrite (get_perm _ (map (fun kv => (fst kv, norm (snd kv))) fs)).
  - clear Hn. induction fs as [|[k' v] fs IH]; [done|]. cbn. by case_decide.
  - rewrite sort_by_perm, map_map. done.
  - apply sort_by_perm.
Qed.

(** Objects with the same normal form have the same members, up to their normal form. *)
Lemma norm_members fs gs k : NoDup (map fst fs) -> NoDup (map fst gs) -> norm (VObj fs) = norm (VObj gs) ->
  norm <$> JsMap.get k fs = norm <$> JsMap.get k gs.
Proof. intros Hf Hg E. rewrite <- !get_norm_member by done. cbn [norm] in E. congruence. Qed.

Definition safe_range (r : SourceRange) : bool :=
  match r with
  | whole => true
  | byte_range s e lines => isSafe s && isSafe e && match lines with Some (a, b) => isSafe a && isSafe b | None => true end
  end.
Definition safe_source (s : EvidenceSource) : bool :=
  match s with repository_source _ _ _ _ r _ | artifact_source _ _ r _ | external_source _ _ _ r _ => safe_range r end.

(** The byte and line numbers of its sources are integers a double holds. *)
Definition safe_node (n : EvidenceNode) : Prop := Forall (fun p => safe_source (pv_source p) = true) (en_provenance n).

Ltac names_differ := apply (bool_decide_unpack _); vm_compute; exact I.

Lemma range_wf r : safe_range r = true -> js_wf (range_json r).
Proof.
  destruct r as [|s e [[a b]|]]; cbn [safe_range]; intros H; cbn [range_json opt_member app js_wf foldr snd text_member VInt fst];
    repeat match goal with |- _ /\ _ => split | |- NoDup _ => names_differ end; try exact I; try (by destruct (isSafe s), (isSafe e)).
  all: by destruct (isSafe s), (isSafe e), (isSafe a), (isSafe b).
Qed.

Lemma source_wf s : safe_source s = true -> js_wf (source_json s).
Proof.
  destruct s; cbn [safe_source]; intros H%range_wf; cbn [source_json js_wf foldr snd text_member];
    repeat match goal with |- _ /\ _ => split | |- NoDup _ => names_differ end; done.
Qed.

Lemma source_keys s : keys_ok (fun k => array_index k = None) (source_json s).
Proof.
  destruct s; destruct range as [|? ? [[? ?]|]]; cbn [source_json range_json opt_member app keys_ok foldr fst snd text_member VInt]; 
  repeat split; vm_compute; reflexivity.
Qed.

(** Equality of two members read off an equality of normal forms. *)
Ltac member E k :=
  let H := fresh "M" in
  pose proof (fun Hf Hg => norm_members _ _ (u k) Hf Hg E) as H;
  specialize (H ltac:(names_differ) ltac:(names_differ)); vm_compute in H.

Lemma range_json_inj r r' : norm (range_json r) = norm (range_json r') -> r = r'.
Proof.
  destruct r as [|s e [[a b]|]], r' as [|s' e' [[a' b']|]]; cbn [range_json opt_member app]; intros E; try done; member E "kind"; try done;
    member E "displayLines"; try done; member E "byteStart"; member E "byteEnd"; congruence.
Qed.

Lemma source_json_inj s s' : norm (source_json s) = norm (source_json s') -> s = s'.
Proof.
  destruct s, s'; cbn [source_json]; intros E; try (member E "origin"; done);
    pose proof (fun Hf Hg => norm_members _ _ (u "range") Hf Hg E) as R; specialize (R ltac:(names_differ) ltac:(names_differ));
    match type of R with norm <$> JsMap.get _ ?fs = norm <$> JsMap.get _ ?gs =>
      match fs with context [(u "range", range_json ?a)] => match gs with context [(u "range", range_json ?b)] =>
        change (Some (norm (range_json a)) = Some (norm (range_json b))) in R end end end;
    apply (inj Some), range_json_inj in R; subst;
    member E "artifactObjectDigest"; member E "quoteDigest"; try (member E "sourceKind"); try (member E "snapshotId"); try (member E "path");
    try (member E "fetchReceiptObjectDigest"); try (member E "url"); congruence.
Qed.

Lemma sourceAsJson_norm s v : safe_source s = true -> sourceAsJson s = Ok v -> v = norm (source_json s).
Proof.
  intros Hs. unfold sourceAsJson. destruct (canonicalizeRfc8785 (source_json s)) as [t|] eqn:E; [|done]. cbn [graph_canon rbind].
  rewrite (rfc8785_reads _ _ (source_wf s Hs) (source_keys s) E). by intros [= <-].
Qed.

Definition key_members (p : Provenance) (source : jsvalue) : list (ustr * jsvalue) :=
  [text_member "extractorId" (pv_extractorId p); text_member "extractorVersion" (pv_extractorVersion p);
   text_member "contentDigest" (pv_contentDigest p); (u "source", source)] ++ opt_member "queryId" VStr (pv_queryId p).

Lemma key_members_wf p v : js_wf v -> js_wf (VObj (key_members p v)).
Proof.
  intros Hv. unfold key_members. destruct (pv_queryId p); cbn [opt_member app js_wf foldr snd text_member];
    repeat match goal with |- _ /\ _ => split | |- NoDup _ => names_differ end; done.
Qed.

(** Two items with one key differ at most in the time they were observed. *)
Lemma dedupe_key_exact p q k : safe_source (pv_source p) = true -> safe_source (pv_source q) = true ->
  provenanceDedupeKey p = Ok k -> provenanceDedupeKey q = Ok k ->
  same_item p q.
Proof.
  intros Hp Hq. unfold provenanceDedupeKey. destruct (sourceAsJson (pv_source p)) as [v|] eqn:Ev; [|done]. destruct (sourceAsJson (pv_source q)) as [w|] eqn:Ew; [|done].
  apply sourceAsJson_norm in Ev, Ew; [|done..]. cbn [rbind].
  change ([_; _; _; _] ++ opt_member "queryId" VStr (pv_queryId p)) with (key_members p v). change ([_; _; _; _] ++ opt_member "queryId" VStr (pv_queryId q)) with (key_members q w).
  destruct (canonicalizeRfc8785 (VObj (key_members p v))) as [t|] eqn:Et; [|done]. destruct (canonicalizeRfc8785 (VObj (key_members q w))) as [t'|] eqn:Et'; [|done].
  cbn [graph_canon]. intros [= ->] [= ->]. pose proof (norm_wf _ (source_wf _ Hp)) as Wv. pose proof (norm_wf _ (source_wf _ Hq)) as Ww. rewrite <- Ev in Wv. rewrite <- Ew in Ww.
  pose proof (rfc8785_injective _ _ _ (key_members_wf p v Wv) (key_members_wf q w Ww) Et Et') as E.
  pose proof (norm_members _ _ (u "source") (proj1 (key_members_wf p v Wv)) (proj1 (key_members_wf q w Ww)) E) as R.
  change (Some (norm v) = Some (norm w)) in R. apply (inj Some) in R. rewrite Ev, Ew, !norm_idem in R by (by apply source_wf). apply source_json_inj in R.
  clear Ev Ew Et Et' Wv Ww Hp Hq. destruct p as [sp xp vp op cp qp], q as [sq xq vq oq cq qq]. cbn [pv_source pv_extractorId pv_extractorVersion pv_contentDigest pv_queryId] in *.
  unfold key_members in E. cbn [pv_source pv_extractorId pv_extractorVersion pv_contentDigest pv_queryId] in E. clear k.
  destruct qp, qq; cbn [opt_member app] in E; member E "queryId"; try done; member E "extractorId"; member E "extractorVersion"; member E "contentDigest"; split; cbn [pv_source pv_extractorId pv_extractorVersion pv_contentDigest pv_queryId]; congruence.
Qed.
End Keys.

(** ** Provenance *)

Section Provenance.
Context `{D : Doubles} `{Hashing}.

Lemma keep_first_spec {A} (items : list (ustr * A)) :
  NoDup (map fst (keep_first items)) /\ (forall x, x ∈ keep_first items -> x ∈ items) /\ (forall k, k ∈ map fst items -> k ∈ map fst (keep_first items)).
Proof.
  unfold keep_first. induction items as [|[k v] items IH] using rev_ind; [split_and!; [constructor | done | done]|].
  rewrite fold_left_app. cbn [fold_left fst]. destruct IH as (Hn & Hs & Hk). set (acc := fold_left _ items []) in *. destruct (JsMap.has k acc) eqn:E.
  - apply JsMap.has_true in E. split_and!; [done | intros x Hx; rewrite elem_of_app; left; by apply Hs|].
    intros k'. rewrite map_app, elem_of_app. cbn. intros [?| ->%list_elem_of_singleton]; [by apply Hk | done].
  - apply JsMap.has_false, JsMap.get_none in E. split_and!.
    + rewrite map_app. apply NoDup_app. split_and!; [done| |apply NoDup_singleton]. intros x Hx ->%list_elem_of_singleton. by apply E.
    + intros x. rewrite !elem_of_app. intros [Hx|Hx]; [left; by apply Hs | by right].
    + intros k'. rewrite !map_app, !elem_of_app. intros [?|?]; [left; by apply Hk | by right].
Qed.

Lemma keyed_spec items keyed : keyed_provenance items = Ok keyed -> map snd keyed = items /\ forall k p, (k, p) ∈ keyed -> provenanceDedupeKey p = Ok k.
Proof.
  unfold keyed_provenance. revert keyed. induction items as [|p items IH]; intros keyed; cbn [rmap].
  - intros [= <-]. split; [done|]. by intros k p ?%not_elem_of_nil.
  - destruct (provenanceDedupeKey p) as [k|] eqn:E; [|done]. cbn [rbind]. destruct (rmap _ items) as [rest|] eqn:Er; [|done]. cbn [rbind]. intros [= <-].
    destruct (IH _ eq_refl) as [<- Hk]. split; [done|]. intros k' p'. rewrite elem_of_cons. intros [[= -> ->]|Hin]; [done | by apply Hk].
Qed.

(** Merged provenance is the provenance of both sides, once per key, in the order of the keys. *)
Lemma mergeProvenance_spec l r merged : mergeProvenance l r = Ok merged ->
  (forall p, p ∈ merged -> p ∈ l ++ r) /\ (forall p, p ∈ l ++ r -> exists p' k, p' ∈ merged /\ provenanceDedupeKey p = Ok k /\ provenanceDedupeKey p' = Ok k) /\
  exists keys, rmap provenanceDedupeKey merged = Ok keys /\ NoDup keys /\ StronglySorted (fun a b => utf16_leb a b = true) keys.
Proof.
  unfold mergeProvenance. destruct (keyed_provenance (l ++ r)) as [keyed|] eqn:E; [|done]. cbn [rbind]. intros [= <-].
  apply keyed_spec in E as [Hs Hk]. destruct (keep_first_spec keyed) as (Hn & Hsub & Hkeys). split_and!.
  - intros p ([k p'] & -> & Hin)%list_elem_of_fmap. rewrite elem_of_sort_by in Hin. apply Hsub in Hin. rewrite <- Hs. by apply (list_elem_of_fmap_2 snd) in Hin.
  - intros p Hp. rewrite <- Hs in Hp. apply list_elem_of_fmap in Hp as ([k p0] & -> & Hin). cbn. pose proof (Hk _ _ Hin) as Hkp.
    pose proof (list_elem_of_fmap_2 fst _ _ Hin) as Hk'. apply Hkeys in Hk'. apply list_elem_of_fmap in Hk' as ([k' p'] & Hkk & Hin'). cbn in Hkk. subst k'.
    exists p', k. split_and!; [|done | apply Hk, Hsub, Hin']. apply list_elem_of_fmap. exists (k, p'). split; [done|]. by rewrite elem_of_sort_by.
  - exists (map fst (sort_by by_first (keep_first keyed))). split_and!.
    + assert (Hall : forall k p, (k, p) ∈ sort_by by_first (keep_first keyed) -> provenanceDedupeKey p = Ok k).
      { intros k p Hin. rewrite elem_of_sort_by in Hin. by apply Hk, Hsub. }
      revert Hall. generalize (sort_by by_first (keep_first keyed)). intros l0. induction l0 as [|[k p] l0 IH]; intros Hall; [done|]. cbn [map rmap snd fst].
      rewrite (Hall k p) by left. cbn [rbind]. rewrite IH by (intros; apply Hall; by right). done.
    + by rewrite sort_by_perm.
    + pose proof (by_key_sorted fst (keep_first keyed)) as Hsort. change (by_key fst) with (@by_first Provenance) in Hsort. revert Hsort.
      generalize (sort_by by_first (keep_first keyed)). intros l0. induction 1 as [|x l0 _ IH Hx]; [constructor|]. cbn [map]. constructor; [done|].
      apply Forall_map. eapply Forall_impl; [exact Hx|]. done.
Qed.
End Provenance.

(** ** Absorption *)

Definition authorship_rank (a : Authorship) : nat := match a with DETERMINISTIC => 0 | USER => 1 | LOCAL_MODEL => 2 | CLOUD_MODEL => 3 end.
Definition doubtful (s : EvidenceStatus) : bool := (3 <=? status_rank s)%nat.

Section Merging.
Context `{D : Doubles} `{Hashing}.
Variables (graph_schema : EvidenceGraph -> bool) (delta_schema : EvidenceDelta -> bool).

(** An item, or another one with the same key. *)
Definition one_item (p p' : Provenance) : Prop := p' = p \/ exists k, provenanceDedupeKey p = Ok k /\ provenanceDedupeKey p' = Ok k.

(** [n'] accounts for [n]. *)
Record absorbs (n n' : EvidenceNode) : Prop := {
  ab_id : en_id n' = en_id n;
  ab_kind : en_kind n' = en_kind n;
  ab_identityKey : en_identityKey n' = en_identityKey n;
  ab_authorship : authorship_rank (en_authorship n) <= authorship_rank (en_authorship n');
  ab_doubt : doubtful (en_status n) = true -> doubtful (en_status n') = true;
  ab_tokens : (en_estimatedTokens n <= en_estimatedTokens n')%Z;
  ab_content : en_contentObjectDigest n <> None -> en_contentObjectDigest n' <> None;
  ab_provenance : forall p, p ∈ en_provenance n -> exists p', p' ∈ en_provenance n' /\ one_item p p'
}.

Lemma absorbs_refl n : absorbs n n.
Proof. split; try done. intros p Hp. exists p. split; [done | by left]. Qed.

Lemma absorbs_trans a b c : absorbs a b -> absorbs b c -> absorbs a c.
Proof.
  intros [] []. split; try congruence; try lia; try auto. intros p Hp. destruct (ab_provenance0 p Hp) as (p1 & H1 & E1). destruct (ab_provenance1 p1 H1) as (p2 & H2 & E2).
  exists p2. split; [done|]. destruct E1 as [->|(k & K & K1)]; [done|]. right. exists k. split; [done|]. destruct E2 as [->|(k' & ? & ?)]; [done | congruence].
Qed.

Lemma mergeAuthorship_rank a b : authorship_rank (mergeAuthorship a b) = Nat.max (authorship_rank a) (authorship_rank b).
Proof. by destruct a, b. Qed.

Lemma worse_doubt a b : doubtful a = true \/ doubtful b = true -> doubtful (worseStatus a b) = true.
Proof. destruct a, b; by intros [?|?]. Qed.

Lemma merge_absorbs l r n : mergeEvidenceNodes l r = Ok n ->
  absorbs l n /\ absorbs r n /\ isHistoricalNode l = isHistoricalNode r /\ forall p, p ∈ en_provenance n -> p ∈ en_provenance l ++ en_provenance r.
Proof.
  unfold mergeEvidenceNodes. destruct (bool_decide_reflect (en_id l = en_id r)) as [Hid|]; [|done]. cbn [negb].
  destruct (bool_decide_reflect (en_kind l = en_kind r)) as [Hk|]; [|done]. destruct (bool_decide_reflect (en_identityKey l = en_identityKey r)) as [Hi|]; [|done]. cbn [negb orb].
  destruct (Bool.eqb_spec (isHistoricalNode l) (isHistoricalNode r)) as [Hh|]; [|done]. cbn [negb].
  destruct (_ && _); [done|]. destruct (mergeProvenance _ _) as [pv|] eqn:Ep; [|done]. cbn [rbind]. intros [= <-].
  apply mergeProvenance_spec in Ep as (Hsub & Hall & _). set (conflict := negb (bool_decide (tv_independenceGroup (en_trust l) = tv_independenceGroup (en_trust r)))).
  split_and!; [split; cbn..|done|done].
  - done.
  - done.
  - done.
  - rewrite mergeAuthorship_rank. lia.
  - intros Hd. destruct conflict; [done|]. apply worse_doubt. by left.
  - lia.
  - by destruct (en_contentObjectDigest l).
  - intros p Hp. destruct (Hall p) as (p' & k & ? & ? & ?); [rewrite elem_of_app; by left|]. exists p'. split; [done|]. right. by exists k.
  - done.
  - done.
  - done.
  - rewrite mergeAuthorship_rank. lia.
  - intros Hd. destruct conflict; [done|]. apply worse_doubt. by right.
  - lia.
  - by destruct (en_contentObjectDigest l).
  - intros p Hp. destruct (Hall p) as (p' & k & ? & ? & ?); [rewrite elem_of_app; by right|]. exists p'. split; [done|]. right. by exists k.
Qed.

(** The map of nodes while the new nodes [seen] have been merged into it. *)
Record merging (old seen : list EvidenceNode) (m : list (ustr * EvidenceNode)) : Prop := {
  mg_filed : filed en_id m;
  mg_absorbs : forall n, n ∈ old ++ seen -> exists n', JsMap.get (en_id n) m = Some n' /\ absorbs n n';
  mg_from : forall k n', JsMap.get k m = Some n' -> (exists n, n ∈ old ++ seen /\ en_id n = k) /\
    forall p, p ∈ en_provenance n' -> exists n, n ∈ old ++ seen /\ en_id n = k /\ p ∈ en_provenance n
}.

Lemma merging_init old : NoDup (map en_id old) -> merging old [] (map_by_id en_id old).
Proof.
  intros Hn. split; [apply by_id_filed| |].
  - intros n. rewrite app_nil_r. intros Hin. exists n. split; [by apply by_id_finds | apply absorbs_refl].
  - intros k n' Hg. rewrite app_nil_r. pose proof (proj2 (by_id_filed en_id old) _ _ Hg) as Hk. apply by_id_from in Hg. split; [by exists n' | intros p Hp; by exists n'].
Qed.

Lemma merging_step old seen m n m' : merging old seen m -> merge_into en_id mergeEvidenceNodes m n = Ok m' -> merging old (seen ++ [n]) m'.
Proof.
  intros [Hf Ha Hfrom] Hm. unfold merge_into in Hm. assert (Hin : forall x, x ∈ old ++ seen -> x ∈ old ++ seen ++ [n]) by (intros x; rewrite !elem_of_app; tauto).
  assert (Hnew : n ∈ old ++ seen ++ [n]) by (rewrite !elem_of_app; right; right; left).
  destruct (JsMap.get (en_id n) m) as [x|] eqn:Eg.
  - destruct (mergeEvidenceNodes x n) as [y|] eqn:Ey; [|done]. cbn [rbind] in Hm. injection Hm as <-. destruct (merge_absorbs _ _ _ Ey) as (Hx & Hy & _ & Hp).
    assert (Hid : en_id y = en_id n) by apply Hy. split.
    + rewrite <- Hid. by apply filed_set.
    + intros z. rewrite app_assoc, elem_of_app, list_elem_of_singleton. intros [Hz| ->]; [|exists y; split; [apply JsMap.get_set_eq | done]].
      destruct (Ha z Hz) as (z' & Hg & Hab). rewrite JsMap.get_set. destruct (decide (en_id z = en_id n)) as [E|]; [|by exists z'].
      exists y. split; [done|]. rewrite E, Eg in Hg. injection Hg as <-. by eapply absorbs_trans.
    + intros k z'. rewrite JsMap.get_set. destruct (decide (k = en_id n)) as [->|Hne].
      * intros [= <-]. split; [by exists n|]. intros p Hin'. apply Hp in Hin'. rewrite elem_of_app in Hin'. destruct Hin' as [Hin'|Hin']; [|by exists n].
        destruct (proj2 (Hfrom _ _ Eg) p Hin') as (w & Hw & ? & ?). exists w. auto.
      * intros Hg. destruct (Hfrom _ _ Hg) as [(w & Hw & Hk) Hpr]. split; [exists w; auto|]. intros p Hp'. destruct (Hpr p Hp') as (w' & ? & ? & ?). exists w'. auto.
  - injection Hm as <-. split.
    + by apply filed_set.
    + intros z. rewrite app_assoc, elem_of_app, list_elem_of_singleton. intros [Hz| ->]; [|exists n; split; [apply JsMap.get_set_eq | apply absorbs_refl]].
      destruct (Ha z Hz) as (z' & Hg & Hab). rewrite JsMap.get_set_ne by congruence. by exists z'.
    + intros k z'. rewrite JsMap.get_set. destruct (decide (k = en_id n)) as [->|Hne].
      * intros [= <-]. split; [by exists n | intros p Hp; by exists n].
      * intros Hg. destruct (Hfrom _ _ Hg) as [(w & Hw & Hk) Hpr]. split; [exists w; auto|]. intros p Hp'. destruct (Hpr p Hp') as (w' & ? & ? & ?). exists w'. auto.
Qed.

Lemma merging_all old ns : forall seen m m', merging old seen m -> rfold (merge_into en_id mergeEvidenceNodes) m ns = Ok m' -> merging old (seen ++ ns) m'.
Proof.
  induction ns as [|n ns IH]; intros seen m m' Hm; cbn [rfold]; [intros [= <-]; by rewrite app_nil_r|].
  destruct (merge_into _ _ m n) as [m1|] eqn:E; [|done]. cbn [rbind]. intros Hr. pose proof (merging_step _ _ _ _ _ Hm E) as H1.
  specialize (IH _ _ _ H1 Hr). by rewrite <- app_assoc in IH.
Qed.

(** ** Graphs that pass the checks *)

Record sound_graph (g : EvidenceGraph) : Prop := {
  sg_schema : graph_schema g = true;
  sg_nodes : NoDup (map en_id (eg_nodes g));
  sg_named : forall n, n ∈ eg_nodes g -> en_provenance n <> [] /\
    nodeIdentityId (eg_snapshotId g) (en_kind n) (en_identityKey n) (en_provenance n) (en_contentObjectDigest n) = Ok (en_id n);
  sg_edges : NoDup (map ee_id (eg_edges g));
  sg_ends : forall e, e ∈ eg_edges g -> ee_from e ∈ map en_id (eg_nodes g) /\ ee_to e ∈ map en_id (eg_nodes g);
  sg_edges_named : forall e, e ∈ eg_edges g -> ee_provenance e <> [] /\
    exists x, createEvidenceEdge (ee_from e) (ee_to e) (ee_relation e) (ee_polarity e) (ee_confidence e) (ee_provenance e) = Ok x /\ ee_id x = ee_id e
}.

Lemma setAdd_fresh (l : list ustr) x : x ∉ l -> setAdd l x = l ++ [x].
Proof. intros Hx. unfold setAdd. by rewrite (proj2 (includes_false _ _) Hx). Qed.

Lemma checked_nodes snapshotId ns : forall seen ids, NoDup seen -> rfold (check_node snapshotId) seen ns = Ok ids ->
  ids = seen ++ map en_id ns /\ NoDup ids /\ forall n, n ∈ ns -> en_provenance n <> [] /\
    nodeIdentityId snapshotId (en_kind n) (en_identityKey n) (en_provenance n) (en_contentObjectDigest n) = Ok (en_id n).
Proof.
  induction ns as [|n ns IH]; intros seen ids Hn; cbn [rfold map]; [intros [= <-]; rewrite app_nil_r; split_and!; [done | done | by intros ? ?%not_elem_of_nil]|].
  unfold check_node at 1. destruct (includes (en_id n) seen) eqn:Ei; [done|]. apply includes_false in Ei.
  destruct (en_provenance n) as [|p ps] eqn:Ep; [done|]. unfold asSnapshotId_graph. destruct (ascii_text snapshotId) as [s|]; [|done]. destruct (isSnapshotId s); [|done]. cbn [rbind].
  destruct (nodeIdentityId _ _ _ _ _) as [x|] eqn:Ex; [|done]. cbn [rbind]. destruct (bool_decide_reflect (x = en_id n)) as [->|]; [|done]. cbn [negb rbind].
  rewrite setAdd_fresh by done. intros Hr. apply IH in Hr as (-> & Hd & Hall).
  - rewrite <- app_assoc in *. split_and!; [done | done|]. intros m. rewrite elem_of_cons. intros [->|Hm]; [by rewrite Ep | by apply Hall].
  - apply NoDup_app. split_and!; [done | by intros y Hy ->%list_elem_of_singleton | apply NoDup_singleton].
Qed.

Lemma checked_edges nodeIds es : forall seen ids, NoDup seen -> rfold (check_edge nodeIds) seen es = Ok ids ->
  ids = seen ++ map ee_id es /\ NoDup ids /\ forall e, e ∈ es -> ee_from e ∈ nodeIds /\ ee_to e ∈ nodeIds /\ ee_provenance e <> [] /\
    exists x, createEvidenceEdge (ee_from e) (ee_to e) (ee_relation e) (ee_polarity e) (ee_confidence e) (ee_provenance e) = Ok x /\ ee_id x = ee_id e.
Proof.
  induction es as [|e es IH]; intros seen ids Hn; cbn [rfold map]; [intros [= <-]; rewrite app_nil_r; split_and!; [done | done | by intros ? ?%not_elem_of_nil]|].
  unfold check_edge at 1. destruct (includes (ee_id e) seen) eqn:Ei; [done|]. apply includes_false in Ei.
  destruct (includes (ee_from e) nodeIds) eqn:Ef; [|done]. destruct (includes (ee_to e) nodeIds) eqn:Et; [|done]. cbn [negb orb]. apply includes_true in Ef, Et.
  destruct (createEvidenceEdge _ _ _ _ _ _) as [x|] eqn:Ex; [|done]. cbn [rbind]. destruct (bool_decide_reflect (ee_id x = ee_id e)) as [Hx|]; [|done]. cbn [negb].
  destruct (ee_provenance e) as [|p ps] eqn:Ep; [done|]. cbn [rbind]. rewrite setAdd_fresh by done. intros Hr. apply IH in Hr as (-> & Hd & Hall).
  - rewrite <- app_assoc in *. split_and!; [done | done|]. intros m. rewrite elem_of_cons. intros [->|Hm]; [|by apply Hall]. rewrite Ep. split_and!; [done | done | done | by exists x].
  - apply NoDup_app. split_and!; [done | by intros y Hy ->%list_elem_of_singleton | apply NoDup_singleton].
Qed.

Lemma assert_sound g : assertEvidenceGraph graph_schema g = Ok tt -> sound_graph g.
Proof.
  unfold assertEvidenceGraph. destruct (graph_schema g) eqn:Es; [|done]. cbn [negb]. destruct (rfold (check_node _) [] _) as [ids|] eqn:En; [|done]. cbn [rbind].
  destruct (rfold (check_edge ids) [] _) as [eids|] eqn:Ee; [|done]. intros _. apply checked_nodes in En as (-> & Hn & Hnodes); [|constructor].
  apply checked_edges in Ee as (-> & He & Hedges); [|constructor]. split; try done; intros x Hx; destruct (Hedges x Hx) as (? & ? & ? & ?); done.
Qed.

Lemma mergeEvidence_merging g ns es g' : NoDup (map en_id (eg_nodes g)) -> mergeEvidence graph_schema g ns es = Ok g' ->
  sound_graph g' /\ eg_snapshotId g' = eg_snapshotId g /\ StronglySorted (fun a b => by_key en_id a b = true) (eg_nodes g') /\
  exists m, merging (eg_nodes g) ns m /\ eg_nodes g' ≡ₚ JsMap.values m.
Proof.
  intros Hn. unfold mergeEvidence. destruct (rfold _ (map_by_id en_id _) ns) as [m|] eqn:Em; [|done]. cbn [rbind].
  destruct (rfold _ (map_by_id ee_id _) es) as [em|]; [|done]. cbn [rbind]. set (g1 := mkGraph _ _ _). destruct (assertEvidenceGraph graph_schema g1) as [[]|] eqn:Ea; [|done].
  cbn [rbind]. intros [= <-]. split_and!; [by apply assert_sound | done | apply by_key_sorted|].
  exists m. split; [|apply sort_by_perm]. apply (merging_all _ ns [] _ _ (merging_init _ Hn) Em).
Qed.

Lemma one_item_same {L : DoublesLaws} p p' : safe_source (pv_source p) = true -> safe_source (pv_source p') = true -> one_item p p' -> same_item p p'.
Proof. intros Hp Hp' [->|(k & ? & ?)]; [done | by eapply dedupe_key_exact]. Qed.

(** C32: merging loses no node and no item of provenance, and launders nothing.  A merged graph passes the
    checks of a graph: every node and edge is named by the digest of its own identity, with provenance,
    and edges end at nodes.  Its nodes are those of the graph and of the new evidence, one per id in the
    order of the ids; every one of them is absorbed by the node with its id, which has an authorship at
    least as far from deterministic, a doubt for every doubt, and for every item of its provenance one
    with the same source, extractor, version, content digest and query.  Of items that differ only in the
    time they were observed one is kept, and a node has no provenance but that of the nodes it absorbed.  The
    numbers in the ranges of the sources are integers that a double holds. *)
Theorem merged_evidence_kept {L : DoublesLaws} g ns es g' : sound_graph g -> Forall safe_node (eg_nodes g ++ ns) -> mergeEvidence graph_schema g ns es = Ok g' ->
  sound_graph g' /\ eg_snapshotId g' = eg_snapshotId g /\ StronglySorted (fun a b => by_key en_id a b = true) (eg_nodes g') /\
  (forall n, n ∈ eg_nodes g ++ ns -> exists n', n' ∈ eg_nodes g' /\ absorbs n n' /\
     forall p, p ∈ en_provenance n -> exists p', p' ∈ en_provenance n' /\ same_item p p') /\
  (forall n', n' ∈ eg_nodes g' -> (exists n, n ∈ eg_nodes g ++ ns /\ en_id n = en_id n') /\
     forall p, p ∈ en_provenance n' -> exists n, n ∈ eg_nodes g ++ ns /\ en_id n = en_id n' /\ p ∈ en_provenance n).
Proof.
  intros Hg Hsafe Hm. destruct (mergeEvidence_merging _ _ _ _ (sg_nodes _ Hg) Hm) as (Hs & Hi & Hsort & m & [Hf Ha Hfrom] & Hp).
  assert (Hitem : forall n p, n ∈ eg_nodes g ++ ns -> p ∈ en_provenance n -> safe_source (pv_source p) = true).
  { intros n p Hn Hpn. rewrite Forall_forall in Hsafe. specialize (Hsafe n Hn). unfold safe_node in Hsafe. rewrite Forall_forall in Hsafe. by apply Hsafe. }
  split_and!; [done..| |].
  - intros n Hn. destruct (Ha n Hn) as (n' & Hget & Hab). exists n'. split_and!; [|done|].
    + rewrite Hp. apply (filed_values en_id m n' Hf). by rewrite (ab_id _ _ Hab).
    + intros p Hpn. destruct (ab_provenance _ _ Hab p Hpn) as (p' & Hp' & Hone). exists p'. split; [done|].
      destruct (proj2 (Hfrom _ _ Hget) p' Hp') as (x & Hx & _ & Hpx). apply one_item_same; [exact (Hitem _ _ Hn Hpn) | exact (Hitem _ _ Hx Hpx) | done].
  - intros n' Hin. rewrite Hp in Hin. apply (filed_values en_id m n' Hf) in Hin. apply (Hfrom _ _ Hin).
Qed.
End Merging.

(** ** Concrete evidence *)

Module Sample.
(** Sixty-four hexadecimal digits that depend on the bytes. *)
Definition weak_hash : Hashing :=
  {| sha256_hex := fun bs => let s := fold_left (fun h b => (h * 31 + b) mod 4096)%N bs 0%N in
       [hex_digit (s mod 16); hex_digit ((s / 16) mod 16); hex_digit ((s / 256) mod 16)]%N ++ replicate 61 48%N |}.
#[local] Existing Instance half_doubles.
#[local] Existing Instance weak_hash.

Definition snapshot : ustr := u "snap_00000000-0000-7000-8000-000000000001".
Definition quote_of (s : string) : ustr := sha256Utf8 (u s).
Definition read_at (path extractor : string) : Provenance :=
  mkProvenance (repository_source (u "repository") snapshot (quote_of path) (u path) whole (quote_of path)) (u extractor) (u "v1")
    (u "2025-01-01T00:00:00.000Z") (quote_of path) None.
Definition trust : TrustVector := mkTrust (f64_of_Z 1) (u "observed") (f64_of_Z 1) (f64_of_Z 1) (u "group") (f64_of_Z 0).
Definition draft (path extractor : string) (a : Authorship) (s : EvidenceStatus) : EvidenceNode :=
  mkNode [] (u "code-region") (u path) a (u path) s trust [read_at path extractor] 10 None.
Definition made (n : EvidenceNode) : EvidenceNode := match createEvidenceNode snapshot n with Ok n => n | Err _ => n end.

Definition rule : EvidenceNode := Eval vm_compute in made (draft "a.ts" "index" DETERMINISTIC es_verified).
Definition guess : EvidenceNode := Eval vm_compute in made (draft "a.ts" "model" LOCAL_MODEL es_invalidated).
Definition other : EvidenceNode := Eval vm_compute in made (draft "b.ts" "index" DETERMINISTIC es_verified).
Definition link : list EvidenceEdge := Eval vm_compute in
  match createEvidenceEdge (en_id rule) (en_id other) (u "imports") (u "positive") (f64_of_Z 1) [read_at "a.ts" "index"] with Ok e => [e] | Err _ => [] end.
Definition before : EvidenceGraph := mkGraph snapshot [rule] [].
Definition after : EvidenceGraph := Eval vm_compute in
  match mergeEvidence (fun _ => true) before [guess; other] link with Ok g => g | Err _ => emptyEvidenceGraph [] end.

Lemma merged_evidence_kept_witness : length (eg_nodes after) = 2%nat /\ length (eg_edges after) = 1%nat /\
  exists n', n' ∈ eg_nodes after /\ absorbs guess n' /\ forall p, p ∈ en_provenance guess -> exists p', p' ∈ en_provenance n' /\ same_item p p'.
Proof.
  assert (Hb : sound_graph (fun _ => true) before) by (apply assert_sound; vm_compute; reflexivity).
  assert (Hs : Forall safe_node (eg_nodes before ++ [guess; other])) by (repeat constructor).
  assert (Ha : mergeEvidence (fun _ => true) before [guess; other] link = Ok after) by (vm_compute; reflexivity).
  destruct (merged_evidence_kept (fun _ => true) (L := half_laws) before [guess; other] link after Hb Hs Ha) as (_ & _ & _ & Hall & _).
  split; [reflexivity|]. split; [reflexivity|]. apply Hall. apply elem_of_app. right. left.
Defined.
End Sample.
