(* ===== verification/Dedupe.v ===== *)
(** Deduplication of evidence (packages/evidence/src/dedupe.ts): five rounds, each of which clusters
    the subjects by a relation with a union-find and merges every cluster into one subject; the node of
    a merged subject gets a new id, and the edges follow. *)

From Stdlib Require Import String.
From S2P Require Import Prelude Ids JsText CanonicalJson JsJson Digest RelativePath UnionFind EvidenceGraph.
Open Scope string_scope.
Open Scope list_scope.

(** ** Data *)

Record DedupeSubject := mkSubject {
  ds_node : EvidenceNode;
  ds_producer : ustr;
  ds_blobDigest : ustr;
  ds_scipSymbolId : ustr;
  ds_fqSignature : ustr;
  ds_astFingerprint : ustr;
  ds_path : ustr;
  ds_byteStart : Z;
  ds_byteEnd : Z;
  ds_generated : bool;
  ds_overloadKey : ustr;
  ds_normalizedTextDigest : ustr
}.

Record WorkingSubject := mkWorking { ws_subject : DedupeSubject; ws_memberIds : list ustr }.

Record DedupeResult := mkDeduped { dr_subjects : list DedupeSubject; dr_nodes : list EvidenceNode; dr_edges : list EvidenceEdge }.

(** [ds] with another node and another range. *)
Definition with_node (s : DedupeSubject) (node : EvidenceNode) (byteStart byteEnd : Z) : DedupeSubject :=
  mkSubject node (ds_producer s) (ds_blobDigest s) (ds_scipSymbolId s) (ds_fqSignature s) (ds_astFingerprint s) (ds_path s)
    byteStart byteEnd (ds_generated s) (ds_overloadKey s) (ds_normalizedTextDigest s).

Definition SLASH : N := 47.

(** [s.lastIndexOf(c)] of one unit *)
Fixpoint lastIndexOf (c : N) (s : ustr) : option nat :=
  match s with
  | [] => None
  | x :: r => match lastIndexOf c r with
              | Some i => Some (S i)
              | None => if (x =? c)%N then Some O else None
              end
  end.

Definition dirname (path : ustr) : ustr := match lastIndexOf SLASH path with Some (S i) => take (S i) path | _ => [] end.

Definition nonempty (s : ustr) : bool := match s with [] => false | _ => true end.

(** ** Which subjects may be one *)

Definition sameProducerBlob (left right : DedupeSubject) : bool :=
  bool_decide (ds_producer left = ds_producer right) && bool_decide (ds_blobDigest left = ds_blobDigest right) && nonempty (ds_blobDigest left).

Fixpoint take_while (test : N -> bool) (s : ustr) : ustr :=
  match s with c :: r => if test c then c :: take_while test r else [] | [] => [] end.

(** The name after [.git/commits/], up to a slash or a dot. *)
Definition commit_at (s : ustr) : option ustr :=
  if startsWith (u ".git/commits/") s then
    match take_while (fun c => negb ((c =? SLASH) || (c =? 46))%N) (drop 13 s) with [] => None | name => Some name end
  else None.

Fixpoint commit_after_slash (s : ustr) : option ustr :=
  match s with
  | [] => None
  | c :: r => if (c =? SLASH)%N then match commit_at r with Some name => Some name | None => commit_after_slash r end else commit_after_slash r
  end.

(** The leftmost match of [/(?:^|\/)\.git\/commits\/([^/.]+)/]. *)
Definition commit_in_path (path : ustr) : option ustr :=
  match commit_at path with Some name => Some name | None => commit_after_slash path end.

Definition commitIdentity (s : DedupeSubject) : ustr :=
  if negb (isHistoricalNode (ds_node s)) then [] else
  match commit_in_path (ds_path s) with
  | Some name => name
  | None => if bool_decide (en_kind (ds_node s) = u "commit") || bool_decide (en_kind (ds_node s) = u "diff-hunk") then ds_scipSymbolId s else []
  end.

(** Both present and different. *)
Definition differ (a b : ustr) : bool := nonempty a && nonempty b && negb (bool_decide (a = b)).

Definition revisionMismatch (left right : DedupeSubject) : bool :=
  if negb (Bool.eqb (isHistoricalNode (ds_node left)) (isHistoricalNode (ds_node right))) then true
  else if negb (isHistoricalNode (ds_node left)) then false
  else if differ (ds_blobDigest left) (ds_blobDigest right) then true
  else differ (commitIdentity left) (commitIdentity right).

Definition blockedPair (left right : DedupeSubject) : bool :=
  if negb (bool_decide (ds_producer left = ds_producer right)) && negb (sameProducerBlob left right) then true
  else if revisionMismatch left right then true
  else if negb (Bool.eqb (ds_generated left) (ds_generated right)) then true
  else if ds_generated left && ds_generated right && negb (bool_decide (ds_path left = ds_path right)) then true
  else differ (ds_overloadKey left) (ds_overloadKey right).

(** Present and the same. *)
Definition agree (a b : ustr) : bool := nonempty a && bool_decide (a = b).

Definition sameScipOrFq (left right : DedupeSubject) : bool :=
  agree (ds_scipSymbolId left) (ds_scipSymbolId right) || agree (ds_fqSignature left) (ds_fqSignature right).

Definition intervalContains (outer inner : DedupeSubject) : bool :=
  bool_decide (ds_path outer = ds_path inner) && bool_decide (en_kind (ds_node outer) = en_kind (ds_node inner)) &&
  (ds_byteStart outer <=? ds_byteStart inner)%Z && (ds_byteEnd inner <=? ds_byteEnd outer)%Z &&
  (negb (ds_byteStart outer =? ds_byteStart inner)%Z || negb (ds_byteEnd outer =? ds_byteEnd inner)%Z).

(** The relations of the five rounds. *)
Definition same_blob (l r : DedupeSubject) : bool :=
  negb (blockedPair l r) && sameProducerBlob l r && nonempty (ds_blobDigest l) && nonempty (ds_blobDigest r).
Definition same_symbol (l r : DedupeSubject) : bool := negb (blockedPair l r) && sameScipOrFq l r.
Definition same_ast (l r : DedupeSubject) : bool := negb (blockedPair l r) && agree (ds_astFingerprint l) (ds_astFingerprint r).
Definition same_interval (l r : DedupeSubject) : bool :=
  negb (blockedPair l r) && bool_decide (ds_producer l = ds_producer r) && (intervalContains l r || intervalContains r l).
Definition same_clone (l r : DedupeSubject) : bool :=
  negb (blockedPair l r) && bool_decide (ds_producer l = ds_producer r) &&
  bool_decide (ds_normalizedTextDigest l = ds_normalizedTextDigest r) &&
  bool_decide (dirname (ds_path l) = dirname (ds_path r)) && negb (ds_generated l) && negb (ds_generated r).

(** ** Subjects of nodes *)

Section Subjects.
Context `{D : Doubles} `{HH : Hashing} `{UU : Unicode}.

(** [text.replace(/\s+/g, " ")] *)
Fixpoint collapse_space (inside : bool) (s : ustr) : ustr :=
  match s with
  | [] => []
  | c :: r => if is_space c then (if inside then collapse_space true r else 32%N :: collapse_space true r) else c :: collapse_space false r
  end.

Definition normalizeCloneText (text : ustr) : ustr := trim (collapse_space false (nfc text)).
Definition normalizedTextDigest (text : ustr) : ustr := sha256Utf8 (normalizeCloneText text).

Fixpoint all_strings (items : list jsvalue) : option (list ustr) :=
  match items with
  | [] => Some []
  | VStr s :: rest => match all_strings rest with Some l => Some (s :: l) | None => None end
  | _ :: _ => None
  end.

Definition parseParentHierarchy (raw : ustr) : list ustr :=
  match raw with
  | [] => []
  | _ => match JSON_parse raw with
         | Some (VArr items) => match all_strings items with Some parents => parents | None => [raw] end
         | _ => [raw]
         end
  end.

Definition fqSignatureFor (symbolId interfaceFingerprint : ustr) : ustr :=
  match symbolId, interfaceFingerprint with
  | [], _ => interfaceFingerprint
  | _, [] => symbolId
  | _, _ => symbolId ++ u "#" ++ interfaceFingerprint
  end.

Definition overloadKeyFor (symbolId interfaceFingerprint : ustr) : ustr :=
  match symbolId, interfaceFingerprint with [], [] => [] | _, _ => symbolId ++ u ":" ++ interfaceFingerprint end.

(** [text.split(part).join("")] of a part that is not empty *)
Fixpoint without_part (part : ustr) (skip : nat) (text : ustr) : ustr :=
  match text with
  | [] => []
  | c :: r => match skip with
              | S k => without_part part k r
              | O => if startsWith part text then without_part part (length part - 1) r else c :: without_part part O r
              end
  end.

Definition NUL : N := 0.

Definition astFingerprintFor (kind language symbolId text parentHierarchy : ustr) : ustr :=
  let parents := List.filter (fun item => negb (bool_decide (item = symbolId)) && negb (existsb (N.eqb SLASH) item)) (parseParentHierarchy parentHierarchy) in
  let stripped := match symbolId with [] => text | _ => without_part symbolId O text end in
  sha256Utf8 (u "ast-tree-span" ++ [NUL] ++ kind ++ [NUL] ++ language ++ [NUL] ++ join_unit NUL parents ++ [NUL] ++ normalizeCloneText stripped).

(** The path and the bytes of the first source in the repository. *)
Fixpoint first_place (path : ustr) (provenance : list Provenance) : ustr * Z * Z :=
  match provenance with
  | [] => (path, 0, 0)%Z
  | p :: rest => match pv_source p with
                 | repository_source _ _ _ path (byte_range s e _) _ => (path, s, e)
                 | repository_source _ _ _ path whole _ => (path, 0, 0)%Z
                 | _ => first_place path rest
                 end
  end.

Definition subjectFromNode (n : EvidenceNode) : DedupeSubject :=
  let '(path, byteStart, byteEnd) := first_place (en_identityKey n) (en_provenance n) in
  mkSubject n (match en_provenance n with p :: _ => pv_extractorVersion p | [] => u "unknown-producer" end)
    (default [] (en_contentObjectDigest n)) [] [] [] path byteStart byteEnd false [] (normalizedTextDigest (en_label n)).

(** ** Merging *)

Fixpoint snapshot_of (provenance : list Provenance) : result GraphErr (option ustr) :=
  match provenance with
  | [] => Ok None
  | p :: rest => match pv_source p with
                 | repository_source _ snapshotId _ _ _ _ => let? id := asSnapshotId_graph snapshotId in Ok (Some id)
                 | _ => snapshot_of rest
                 end
  end.
Definition snapshotIdOf (n : EvidenceNode) : result GraphErr (option ustr) := snapshot_of (en_provenance n).

Definition remintNode (n : EvidenceNode) (snapshotId : ustr) : result GraphErr EvidenceNode := createEvidenceNode snapshotId n.

(** The subject that is kept, with what the other one adds. *)
Definition absorb_subject (keep drop : WorkingSubject) : result GraphErr WorkingSubject :=
  let k := ds_node (ws_subject keep) in
  let d := ds_node (ws_subject drop) in
  let? provenance := mergeProvenance (en_provenance k) (en_provenance d) in
  let trust := mkTrust (tv_authority (en_trust k)) (tv_directness (en_trust k)) (tv_extractorReliability (en_trust k))
    (f64_min (tv_freshness (en_trust k)) (tv_freshness (en_trust d))) (tv_independenceGroup (en_trust k))
    (f64_max (tv_adversarialRisk (en_trust k)) (tv_adversarialRisk (en_trust d))) in
  let merged := mkNode (en_id k) (en_kind k) (en_identityKey k) (en_authorship k) (en_label k)
    (if bool_decide (en_status k = es_conflicted) || bool_decide (en_status d = es_conflicted) then es_conflicted else en_status k)
    trust provenance (Z.max (en_estimatedTokens k) (en_estimatedTokens d)) (en_contentObjectDigest k) in
  let? own := snapshotIdOf merged in
  let? snapshotId := match own with Some id => Ok (Some id) | None => snapshotIdOf d end in
  match snapshotId with
  | None => Err NO_SNAPSHOT
  | Some snapshotId =>
      let? node := remintNode merged snapshotId in
      Ok (mkWorking (with_node (ws_subject keep) node (Z.min (ds_byteStart (ws_subject keep)) (ds_byteStart (ws_subject drop)))
                       (Z.max (ds_byteEnd (ws_subject keep)) (ds_byteEnd (ws_subject drop))))
            (ws_memberIds keep ++ ws_memberIds drop))
  end.

(** The subject whose node has the smaller id is kept. *)
Definition mergeSubjects (left right : WorkingSubject) : result GraphErr WorkingSubject :=
  if utf16_leb (en_id (ds_node (ws_subject left))) (en_id (ds_node (ws_subject right)))
  then absorb_subject left right else absorb_subject right left.

(** [rest.reduce(mergeSubjects, head)]; a group is not empty. *)
Definition merge_group (group : list WorkingSubject) : result GraphErr (list WorkingSubject) :=
  match group with
  | [] => Ok []
  | head :: rest => let? merged := rfold mergeSubjects head rest in Ok [merged]
  end.

Definition working_id (w : WorkingSubject) : ustr := en_id (ds_node (ws_subject w)).

Definition unionFindMerge (shouldMerge : DedupeSubject -> DedupeSubject -> bool) (subjects : list WorkingSubject)
    : result GraphErr (list WorkingSubject) :=
  match cluster_by (fun l r => shouldMerge (ws_subject l) (ws_subject r)) subjects with
  | None => Err MERGE_FUEL
  | Some groups => let? merged := rmap merge_group groups in Ok (sort_by (by_key working_id) (concat merged))
  end.

Definition toWorking (s : DedupeSubject) : result GraphErr WorkingSubject :=
  let? id := asEvidenceId_graph (en_id (ds_node s)) in Ok (mkWorking s [id]).

Definition replace_members (m : list (ustr * ustr)) (w : WorkingSubject) : result GraphErr (list (ustr * ustr)) :=
  let? survivor := asEvidenceId_graph (working_id w) in
  Ok (fold_left (fun m member => JsMap.set member survivor m) (ws_memberIds w) m).

Definition replacementsFrom (subjects : list WorkingSubject) : result GraphErr (list (ustr * ustr)) := rfold replace_members [] subjects.

Definition dedupe_rounds : list (DedupeSubject -> DedupeSubject -> bool) := [same_blob; same_symbol; same_ast; same_interval; same_clone].

Definition dedupeSubjectsWithMap (input : list DedupeSubject) : result GraphErr (list DedupeSubject * list (ustr * ustr)) :=
  let? current := rmap toWorking input in
  let? current := rfold (fun current shouldMerge => unionFindMerge shouldMerge current) current dedupe_rounds in
  let? replacements := replacementsFrom current in
  Ok (map ws_subject current, replacements).

Definition dedupeSubjects (input : list DedupeSubject) : result GraphErr (list DedupeSubject) :=
  let? r := dedupeSubjectsWithMap input in Ok r.1.

(** ** Edges *)

Definition replaced (replacements : list (ustr * ustr)) (id : ustr) : ustr := default id (JsMap.get id replacements).

(** [rewritten] after one more edge; the ids in it are the ids seen. *)
Definition remap_edge (replacements : list (ustr * ustr)) (rewritten : list EvidenceEdge) (e : EvidenceEdge) : result GraphErr (list EvidenceEdge) :=
  let? fromKey := asEvidenceId_graph (ee_from e) in
  let? toKey := asEvidenceId_graph (ee_to e) in
  let from := replaced replacements fromKey in
  let to := replaced replacements toKey in
  if bool_decide (from = to) then Ok rewritten else
  let? next := createEvidenceEdge from to (ee_relation e) (ee_polarity e) (ee_confidence e) (ee_provenance e) in
  if includes (ee_id next) (map ee_id rewritten) then Ok rewritten else Ok (rewritten ++ [next]).

Definition remapEdges (edges : list EvidenceEdge) (replacements : list (ustr * ustr)) : result GraphErr (list EvidenceEdge) :=
  let? rewritten := rfold (remap_edge replacements) [] edges in
  Ok (sort_by (by_key ee_id) rewritten).

Definition dedupeEvidence (subjects : list DedupeSubject) (edges : list EvidenceEdge) : result GraphErr DedupeResult :=
  let? r := dedupeSubjectsWithMap subjects in
  let? edges := remapEdges edges r.2 in
  Ok (mkDeduped r.1 (map ds_node r.1) edges).
End Subjects.
