(* ===== verification/DedupeTheorems.v ===== *)
(** Deduplication keeps what the evidence says: the rounds end, the survivors stand for disjoint parts of
    the input that together are all of it, and each carries the provenance of its part. *)

From Stdlib Require Import String.
From stdpp Require Import relations.
From S2P Require Import Prelude Ids JsText CanonicalJson CanonicalJsonTheorems JsJson Digest RelativePath UnionFind EvidenceGraph EvidenceGraphTheorems Dedupe.
Open Scope string_scope.
Open Scope list_scope.

(** ** Subjects that may be one *)

Record alike (s t : DedupeSubject) : Prop := {
  al_producer : ds_producer s = ds_producer t;
  al_generated : ds_generated s = ds_generated t;
  al_path : ds_generated s = true -> ds_path s = ds_path t;
  al_historical : isHistoricalNode (ds_node s) = isHistoricalNode (ds_node t)
}.

#[export] Instance alike_equivalence : Equivalence alike.
Proof.
  split; [by intros s | intros s t []; split; try congruence; intros Hg; symmetry; apply al_path0; congruence|].
  intros s t x [] []. split; try congruence. intros Hg. rewrite al_path0 by done. apply al_path1. congruence.
Qed.

Lemma unblocked_alike l r : blockedPair l r = false -> alike l r.
Proof.
  unfold blockedPair, revisionMismatch, sameProducerBlob. destruct (bool_decide_reflect (ds_producer l = ds_producer r)) as [Hp|]; [|done]. cbn [negb andb].
  destruct (Bool.eqb_spec (isHistoricalNode (ds_node l)) (isHistoricalNode (ds_node r))) as [Hh|]; [|done]. cbn [negb].
  set (revision := if negb (isHistoricalNode (ds_node l)) then false else _). destruct revision; [done|].
  destruct (Bool.eqb_spec (ds_generated l) (ds_generated r)) as [Hg|]; [|done]. cbn [negb].
  destruct (bool_decide_reflect (ds_path l = ds_path r)) as [|Hn]; [by split|]. rewrite <- Hg. destruct (ds_generated l) eqn:Eg; [done|]. intros _. by split; rewrite ?Eg.
Qed.

Lemma differ_sym a b : differ a b = differ b a.
Proof. unfold differ. rewrite (andb_comm (nonempty a)). f_equal. f_equal. apply bool_decide_ext. split; congruence. Qed.

Lemma agree_sym a b : agree a b = true -> agree b a = true.
Proof. unfold agree. case_bool_decide as E; [subst; by rewrite bool_decide_true by done | by rewrite andb_false_r]. Qed.

Lemma sameProducerBlob_sym l r : sameProducerBlob l r = true -> sameProducerBlob r l = true.
Proof.
  unfold sameProducerBlob. rewrite !andb_true_iff, !bool_decide_eq_true. intros [[H1 H2] H3]. rewrite <- H1, <- H2. done.
Qed.

Lemma blockedPair_sym l r : blockedPair l r = false -> blockedPair r l = false.
Proof.
  intros H. pose proof (unblocked_alike _ _ H) as [Hp Hg Hpath Hh]. revert H. unfold blockedPair, revisionMismatch. rewrite Hp, Hg, Hh, !Bool.eqb_reflx.
  rewrite !bool_decide_true by done. cbn [negb andb]. rewrite (differ_sym (ds_blobDigest r)), (differ_sym (commitIdentity r)), (differ_sym (ds_overloadKey r)).
  destruct (if negb (isHistoricalNode (ds_node r)) then _ else _); [done|]. destruct (ds_generated r) eqn:Er; [|done]. cbn [andb]. rewrite Hpath by congruence. done.
Qed.

Lemma unblocked_sym l r : negb (blockedPair l r) = true -> negb (blockedPair r l) = true.
Proof. rewrite !negb_true_iff. apply blockedPair_sym. Qed.

(** A relation of the rounds: symmetric, and only between subjects that may be one. *)
Definition proper_round (f : DedupeSubject -> DedupeSubject -> bool) : Prop :=
  (forall l r, f l r = true -> f r l = true) /\ forall l r, f l r = true -> alike l r.

Lemma rounds_proper : Forall proper_round dedupe_rounds.
Proof.
  unfold dedupe_rounds. repeat (apply Forall_cons; split; [split|]); [..|constructor]; intros l r; unfold same_blob, same_symbol, same_ast, same_interval, same_clone; rewrite !andb_true_iff; intros H; destruct_and?.
  all: try (by apply unblocked_alike, negb_true_iff).
  all: repeat split; try done; try (by apply unblocked_sym); try (by apply sameProducerBlob_sym); try (by apply agree_sym);
    try (rewrite bool_decide_eq_true in *; congruence).
  - unfold sameScipOrFq in *. match goal with H : _ || _ = true |- _ => apply orb_true_iff in H as [H|H]; rewrite (agree_sym _ _ H); [done | by rewrite orb_true_r] end.
  - by rewrite orb_comm.
Qed.

(** The members of a cluster are alike. *)
Lemma cluster_alike {A} (relates : A -> A -> bool) (R : A -> A -> Prop) `{!Equivalence R} xs :
  (forall x y, relates x y = true -> relates y x = true) -> (forall x y, relates x y = true -> R x y) ->
  exists groups, cluster_by relates xs = Some groups /\ concat groups ≡ₚ xs /\ forall g x y, g ∈ groups -> x ∈ g -> y ∈ g -> R x y.
Proof.
  intros Hs HR. destruct (cluster_by_components relates Hs xs) as (lab & groups & Hlab & Hc & Hg & Hp & _). exists groups. split_and!; [done | done|].
  intros g x y. rewrite Hg. intros (r & -> & _)%list_elem_of_fmap (e & -> & He)%list_elem_of_fmap (e' & -> & He')%list_elem_of_fmap.
  unfold with_label in *. rewrite elem_of_List_filter in He, He'. destruct He as [He Hr%Nat.eqb_eq], He' as [He' Hr'%Nat.eqb_eq].
  unfold indexed in He, He'. apply elem_of_lookup_imap_1 in He as (i & x & -> & Hx), He' as (j & y & -> & Hy). cbn [fst snd] in *.
  assert (Hij : rtsc (fun a b => linked_at relates xs a b = true) i j) by (apply Hlab; [by eapply lookup_lt_Some | by eapply lookup_lt_Some | congruence]).
  clear -Hij Hx Hy HR Equivalence0. revert x Hx. induction Hij as [i|i k j Hik _ IH]; intros x Hx; [assert (x = y) as -> by congruence; reflexivity|].
  assert (exists z, xs !! k = Some z /\ R x z) as (z & Hz & Hxz).
  { unfold sc, linked_at in Hik. rewrite Hx in Hik. destruct (xs !! k) as [z|]; [|by destruct Hik]. exists z. split; [done|]. destruct Hik as [E|E]; [|symmetry]; by apply HR. }
  etransitivity; [exact Hxz | by apply IH].
Qed.

(** ** Subjects that stand for others *)

Section Dedupe.
Context {D : Doubles} {L : DoublesLaws} {HH : Hashing} {UU : Unicode}.

Notation prov s := (en_provenance (ds_node s)).
Notation node_id s := (en_id (ds_node s)).

(** [t] accounts for [s]. *)
Record accounts (t s : DedupeSubject) : Prop := {
  ac_alike : alike t s;
  ac_range : (ds_byteStart t <= ds_byteStart s /\ ds_byteEnd s <= ds_byteEnd t)%Z;
  ac_tokens : (en_estimatedTokens (ds_node s) <= en_estimatedTokens (ds_node t))%Z;
  ac_conflict : en_status (ds_node s) = es_conflicted -> en_status (ds_node t) = es_conflicted;
  ac_provenance : forall p, p ∈ prov s -> exists q, q ∈ prov t /\ same_item p q
}.

Lemma accounts_refl s : accounts s s.
Proof. split; try done. intros p Hp. exists p. split; [done | apply same_item_refl]. Qed.

Lemma accounts_trans a b c : accounts a b -> accounts b c -> accounts a c.
Proof.
  intros [] []. split; [by etransitivity | lia | lia | auto|]. intros p Hp. destruct (ac_provenance1 p Hp) as (q & Hq & H1). destruct (ac_provenance0 q Hq) as (r & Hr & H2).
  exists r. split; [done | by eapply same_item_trans].
Qed.

(** The node has the id of its own identity. *)
Definition own_id (n : EvidenceNode) : Prop :=
  exists snapshotId, nodeIdentityId snapshotId (en_kind n) (en_identityKey n) (en_provenance n) (en_contentObjectDigest n) = Ok (en_id n).

(** [t] is the result of merging [ms]. *)
Record stands_for (t : DedupeSubject) (ms : list DedupeSubject) : Prop := {
  sf_accounts : forall s, s ∈ ms -> accounts t s;
  sf_provenance : forall p, p ∈ prov t -> exists s, s ∈ ms /\ p ∈ prov s;
  sf_named : ms = [t] \/ own_id (ds_node t);
  sf_some : ms <> []
}.

Definition stands (w : WorkingSubject) (ms : list DedupeSubject) : Prop :=
  stands_for (ws_subject w) ms /\ ws_memberIds w = map (fun s => node_id s) ms /\ Forall (fun s => safe_node (ds_node s)) ms.

Lemma stands_safe w ms : stands w ms -> safe_node (ds_node (ws_subject w)).
Proof.
  intros (Hs & _ & Hsafe). apply Forall_forall. intros p Hp. destruct (sf_provenance _ _ Hs p Hp) as (s & Hin & Hp'). rewrite Forall_forall in Hsafe.
  specialize (Hsafe s Hin). unfold safe_node in Hsafe. rewrite Forall_forall in Hsafe. by apply Hsafe.
Qed.

Lemma merged_items k d merged : safe_node k -> safe_node d -> mergeProvenance (en_provenance k) (en_provenance d) = Ok merged ->
  (forall p, p ∈ merged -> p ∈ en_provenance k ++ en_provenance d) /\
  forall p, p ∈ en_provenance k ++ en_provenance d -> exists q, q ∈ merged /\ same_item p q.
Proof.
  intros Hk Hd Hm. destruct (mergeProvenance_spec _ _ _ Hm) as (Hsub & Hall & _). split; [done|]. intros p Hp.
  assert (Hsafe : forall p, p ∈ en_provenance k ++ en_provenance d -> safe_source (pv_source p) = true).
  { intros x. rewrite elem_of_app. unfold safe_node in *. rewrite Forall_forall in *. intros [Hx|Hx]; auto. }
  destruct (Hall p Hp) as (q & key & Hq & Hkp & Hkq). exists q. split; [done|]. apply (dedupe_key_exact p q key); [by apply Hsafe | by apply Hsafe, Hsub | done | done].
Qed.

Lemma merged_history k d merged id status trust tokens : safe_node k -> safe_node d -> isHistoricalNode k = isHistoricalNode d ->
  mergeProvenance (en_provenance k) (en_provenance d) = Ok merged ->
  isHistoricalNode (mkNode id (en_kind k) (en_identityKey k) (en_authorship k) (en_label k) status trust merged tokens (en_contentObjectDigest k)) = isHistoricalNode k.
Proof.
  intros Hk Hd Hh Hm. destruct (merged_items _ _ _ Hk Hd Hm) as [Hsub Hall]. apply Bool.eq_iff_eq_true. revert Hh. unfold isHistoricalNode. cbn [en_kind en_provenance].
  intros Hh. rewrite !orb_true_iff, !existsb_exists. split; (intros [?|(p & Hp & Hf)]; [by left|]); apply list_elem_of_In in Hp.
  - apply Hsub, elem_of_app in Hp as [Hp|Hp]; [right; exists p; by rewrite <- list_elem_of_In|].
    assert (Hd' : existsb from_history (en_provenance d) = true) by (apply existsb_exists; exists p; by rewrite <- list_elem_of_In).
    rewrite Hd', orb_true_r, !orb_true_iff, existsb_exists in Hh. done.
  - destruct (Hall p) as (q & Hq & [Hs _ _ _ _]); [rewrite elem_of_app; by left|]. right. exists q. rewrite <- list_elem_of_In. split; [done|]. unfold from_history in *. by rewrite <- Hs.
Qed.

Lemma created_node snapshotId draft n : createEvidenceNode snapshotId draft = Ok n ->
  n = mkNode (en_id n) (en_kind draft) (en_identityKey draft) (en_authorship draft) (en_label draft) (en_status draft) (en_trust draft) (en_provenance draft)
        (en_estimatedTokens draft) (en_contentObjectDigest draft) /\ own_id n.
Proof.
  unfold createEvidenceNode. destruct (nodeIdentityId _ _ _ _ _) as [id|] eqn:E; [|done]. cbn [rbind]. intros [= <-]. split; [done|]. by exists snapshotId.
Qed.

Lemma absorb_stands k d w ms ns : stands k ms -> stands d ns -> alike (ws_subject k) (ws_subject d) -> absorb_subject k d = Ok w -> stands w (ms ++ ns).
Proof.
  intros Hk Hd Ha. pose proof (stands_safe _ _ Hk) as Sk. pose proof (stands_safe _ _ Hd) as Sd. unfold absorb_subject.
  destruct (mergeProvenance _ _) as [merged|] eqn:Em; [|done]. cbn [rbind]. set (draft := mkNode (en_id (ds_node (ws_subject k))) _ _ _ _ _ _ _ _ _).
  destruct (snapshotIdOf draft) as [own|]; [|done]. cbn [rbind]. destruct (match own with Some id => _ | None => _ end) as [[snapshotId|]|]; [|done..]. cbn [rbind].
  destruct (remintNode draft snapshotId) as [n|] eqn:En; [|done]. cbn [rbind]. intros [= <-]. apply created_node in En as [En Hown].
  destruct (merged_items _ _ _ Sk Sd Em) as [Hsub Hall]. pose proof (merged_history _ _ _ (en_id n) (en_status draft) (en_trust draft) (en_estimatedTokens draft) Sk Sd (al_historical _ _ Ha) Em) as Hh.
  change (mkNode (en_id n) _ _ _ _ _ _ _ _ _) with (mkNode (en_id n) (en_kind draft) (en_identityKey draft) (en_authorship draft) (en_label draft) (en_status draft) (en_trust draft)
    (en_provenance draft) (en_estimatedTokens draft) (en_contentObjectDigest draft)) in Hh. rewrite <- En in Hh.
  assert (Etok : en_estimatedTokens n = Z.max (en_estimatedTokens (ds_node (ws_subject k))) (en_estimatedTokens (ds_node (ws_subject d)))) by (by rewrite En).
  assert (Epr : en_provenance n = merged) by (by rewrite En).
  assert (Est : en_status n = if bool_decide (en_status (ds_node (ws_subject k)) = es_conflicted) || bool_decide (en_status (ds_node (ws_subject d)) = es_conflicted)
    then es_conflicted else en_status (ds_node (ws_subject k))) by (by rewrite En).
  set (t := with_node (ws_subject k) n _ _).
  assert (Hkeep : accounts t (ws_subject k)).
  { split; [by split | cbn; lia | cbn; lia | cbn; rewrite Est; by intros ->|]. intros p Hp. cbn [t with_node ds_node]. rewrite Epr. apply Hall. rewrite elem_of_app. by left. }
  assert (Hdrop : accounts t (ws_subject d)).
  { split; [etransitivity; [apply Hkeep | done] | cbn; lia | cbn; lia | cbn; rewrite Est; intros ->; by rewrite orb_true_r|].
    intros p Hp. cbn [t with_node ds_node]. rewrite Epr. apply Hall. rewrite elem_of_app. by right. }
  destruct Hk as (Hk & Mk & Fk), Hd as (Hd & Md & Fd). split_and!; [|cbn; by rewrite map_app, Mk, Md | by apply Forall_app].
  cbn [ws_subject]. split.
  - intros s [Hs|Hs]%elem_of_app; [exact (accounts_trans _ _ _ Hkeep (sf_accounts _ _ Hk s Hs)) | exact (accounts_trans _ _ _ Hdrop (sf_accounts _ _ Hd s Hs))].
  - cbn [t with_node ds_node]. rewrite Epr. intros p [Hp|Hp]%Hsub%elem_of_app.
    + destruct (sf_provenance _ _ Hk p Hp) as (s & Hs & ?). exists s. rewrite elem_of_app. auto.
    + destruct (sf_provenance _ _ Hd p Hp) as (s & Hs & ?). exists s. rewrite elem_of_app. auto.
  - by right.
  - intros [E _]%app_eq_nil. by apply (sf_some _ _ Hk).
Qed.

Lemma merge_stands l r w ms ns : stands l ms -> stands r ns -> alike (ws_subject l) (ws_subject r) -> mergeSubjects l r = Ok w ->
  exists xs, xs ≡ₚ ms ++ ns /\ stands w xs.
Proof.
  intros Hl Hr Ha. unfold mergeSubjects. destruct (utf16_leb _ _); intros Hm.
  - exists (ms ++ ns). split; [done | by eapply absorb_stands].
  - exists (ns ++ ms). split; [apply Permutation_app_comm | eapply absorb_stands; [done..|by symmetry | done]].
Qed.

(** ** Groups and rounds *)

Notation pairs_of := (list (WorkingSubject * list DedupeSubject)).
Definition standing (ps : pairs_of) : Prop := Forall (fun p => stands p.1 p.2) ps.

Lemma merge_rest_stands ps : standing ps -> forall acc xs w, stands acc xs -> (forall p, p ∈ ps -> alike (ws_subject acc) (ws_subject p.1)) ->
  rfold mergeSubjects acc (map fst ps) = Ok w -> exists ys, ys ≡ₚ xs ++ concat (map snd ps) /\ stands w ys.
Proof.
  induction ps as [|[r ns] ps IH]; intros Hps acc xs w Hacc Ha; cbn [map rfold concat fst snd].
  - intros [= <-]. exists xs. by rewrite app_nil_r.
  - apply Forall_cons in Hps as [Hr Hps]. destruct (mergeSubjects acc r) as [m|] eqn:Em; [|done]. cbn [rbind]. intros Hw.
    destruct (merge_stands _ _ _ _ _ Hacc Hr (Ha (r, ns) ltac:(left)) Em) as (zs & Hzs & Hm).
    assert (alike (ws_subject m) (ws_subject acc)) as Hma.
    { destruct Hacc as (Hacc & _), Hm as (Hm & _). destruct xs as [|s xs]; [by destruct (sf_some _ _ Hacc)|].
      etransitivity; [apply (sf_accounts _ _ Hm s); rewrite Hzs; left | symmetry; apply (sf_accounts _ _ Hacc s); left]. }
    destruct (IH Hps m zs w Hm) as (ys & Hys & Hst); [|done|].
    { intros p Hp. etransitivity; [exact Hma | apply Ha; by right]. }
    exists ys. split; [|done]. by rewrite Hys, Hzs, app_assoc.
Qed.

Lemma merge_group_stands ps out : standing ps -> (forall p q, p ∈ ps -> q ∈ ps -> alike (ws_subject p.1) (ws_subject q.1)) ->
  merge_group (map fst ps) = Ok out -> exists qs, map fst qs = out /\ standing qs /\ concat (map snd qs) ≡ₚ concat (map snd ps).
Proof.
  intros Hps Ha. destruct ps as [|[h hs] ps]; cbn [map merge_group]; [intros [= <-]; by exists []|]. apply Forall_cons in Hps as [Hh Hps]. cbn [fst].
  destruct (rfold mergeSubjects h _) as [w|] eqn:E; [|done]. cbn [rbind]. intros [= <-].
  destruct (merge_rest_stands ps Hps h hs w Hh) as (ys & Hys & Hw); [|done|].
  { intros p Hp. apply (Ha (h, hs) p); [left | by right]. }
  exists [(w, ys)]. split_and!; [done | by constructor|]. cbn. by rewrite app_nil_r.
Qed.

Lemma split_groups {A B} (groups : list (list A)) : forall ps : list (A * B), map fst ps = concat groups -> exists pgs, concat pgs = ps /\ map (map fst) pgs = groups.
Proof.
  induction groups as [|g groups IH]; intros ps; cbn [concat]; [intros ->%map_eq_nil; by exists []|].
  intros (p1 & p2 & -> & <- & H2)%map_eq_app. destruct (IH p2 H2) as (pgs & <- & <-). by exists (p1 :: pgs).
Qed.

Lemma groups_stand pgs : Forall standing pgs -> (forall g p q, g ∈ pgs -> p ∈ g -> q ∈ g -> alike (ws_subject p.1) (ws_subject q.1)) ->
  forall outs, rmap merge_group (map (map fst) pgs) = Ok outs ->
  exists qs, map fst qs = concat outs /\ standing qs /\ concat (map snd qs) ≡ₚ concat (map snd (concat pgs)).
Proof.
  induction pgs as [|g pgs IH]; intros Hs Ha outs; cbn [map rmap concat]; [intros [= <-]; exists []; split_and!; [done | constructor | done]|]. apply Forall_cons in Hs as [Hg Hs].
  destruct (merge_group (map fst g)) as [out|] eqn:E; [|done]. cbn [rbind]. destruct (rmap merge_group _) as [rest|]; [|done]. cbn [rbind]. intros [= <-].
  destruct (merge_group_stands g out Hg) as (q1 & <- & S1 & P1); [intros p q; apply Ha; left | done|].
  destruct (IH Hs ltac:(intros ? ? ? ?; apply Ha; by right) rest eq_refl) as (q2 & H2 & S2 & P2).
  exists (q1 ++ q2). cbn [concat]. rewrite !map_app, !concat_app. split_and!; [by rewrite H2 | by apply Forall_app | by rewrite P1, P2].
Qed.

Lemma concat_perm {A} (xs ys : list (list A)) : xs ≡ₚ ys -> concat xs ≡ₚ concat ys.
Proof.
  induction 1 as [|x xs ys _ IH|x y xs|xs ys zs _ IH1 _ IH2]; cbn; [done | by rewrite IH | rewrite !app_assoc; apply Permutation_app_tail, Permutation_app_comm | by rewrite IH1].
Qed.

(** The subjects stand for disjoint parts of the input, which together are all of it. *)
Definition covers (input : list DedupeSubject) (current : list WorkingSubject) : Prop :=
  exists ps, map fst ps = current /\ standing ps /\ concat (map snd ps) ≡ₚ input.

Lemma covers_perm input cur cur' : cur' ≡ₚ cur -> covers input cur -> covers input cur'.
Proof.
  intros Hp (ps & <- & Hs & Hc). apply Permutation_map_inv in Hp as (qs & -> & Hq). exists qs. split_and!; [done | unfold standing; by rewrite <- Hq|]. rewrite <- Hc. apply concat_perm, Permutation_map. by symmetry.
Qed.

Lemma round_covers input f cur : proper_round f -> covers input cur ->
  match unionFindMerge f cur with
  | Ok cur' => covers input cur' /\ StronglySorted (fun a b => by_key working_id a b = true) cur'
  | Err _ => True
  end.
Proof.
  intros [Hsym Halike] Hc. unfold unionFindMerge.
  assert (Equivalence (fun l r => alike (ws_subject l) (ws_subject r))) as Heq.
  { split; [intros x; reflexivity | intros x y H; by symmetry | intros x y z H H'; by etransitivity]. }
  destruct (cluster_alike (fun l r => f (ws_subject l) (ws_subject r)) (fun l r => alike (ws_subject l) (ws_subject r)) cur) as (groups & -> & Hp & Ha); [by intros ? ?; apply Hsym | by intros ? ?; apply Halike|].
  destruct (rmap merge_group groups) as [outs|] eqn:E; [|done]. cbn [rbind]. split; [|apply by_key_sorted].
  apply (covers_perm _ (concat outs)); [apply sort_by_perm|]. apply (covers_perm _ _ _ Hp) in Hc as (ps & Hps & Hs & Hin).
  apply split_groups in Hps as (pgs & <- & <-). destruct (groups_stand pgs) with (outs := outs) as (qs & Hq & Sq & Pq); [| |done|].
  - apply Forall_forall. intros g Hg. unfold standing in *. rewrite Forall_forall in *. intros p Hp'. apply Hs. apply list_elem_of_In, in_concat. exists g. by rewrite <- !list_elem_of_In.
  - intros g p q Hg Hp' Hq'. apply (Ha (map fst g)); by apply list_elem_of_fmap_2.
  - exists qs. split_and!; [done | done | by rewrite Pq].
Qed.

Lemma rounds_cover input rounds : Forall proper_round rounds -> forall cur cur', covers input cur ->
  rfold (fun current shouldMerge => unionFindMerge shouldMerge current) cur rounds = Ok cur' ->
  covers input cur' /\ (rounds <> [] -> StronglySorted (fun a b => by_key working_id a b = true) cur').
Proof.
  induction rounds as [|f rounds IH]; intros Hf cur cur' Hc; cbn [rfold]; [intros [= <-]; done|]. apply Forall_cons in Hf as [Hf Hfs].
  pose proof (round_covers input f cur Hf Hc) as Hr. destruct (unionFindMerge f cur) as [m|]; [|done]. cbn [rbind]. destruct Hr as [Hm Hsort].
  intros H. destruct rounds as [|g rounds]; [cbn in H; injection H as <-; done|]. destruct (IH Hfs m cur' Hm H) as [? Hs]. split; [done|]. intros _. by apply Hs.
Qed.

Lemma evidence_id_same x y : asEvidenceId_graph x = Ok y -> y = x.
Proof. unfold asEvidenceId_graph. destruct (isEvidenceId x); [by intros [= ->] | done]. Qed.

Lemma start_covers input cur : Forall (fun s => safe_node (ds_node s)) input -> rmap toWorking input = Ok cur -> covers input cur.
Proof.
  intros Hs Hc. exists (map (fun s => (mkWorking s [node_id s], [s])) input). split_and!.
  - revert cur Hc. clear Hs. induction input as [|s input IH]; intros cur; cbn [rmap map]; [by intros [= <-]|]. unfold toWorking at 1.
    destruct (asEvidenceId_graph (node_id s)) as [id|] eqn:E; [|done]. apply evidence_id_same in E as ->. cbn [rbind]. destruct (rmap toWorking input) as [rest|]; [|done].
    cbn [rbind fst]. intros [= <-]. f_equal. by apply IH.
  - unfold standing. apply Forall_map. eapply Forall_impl; [exact Hs|]. intros s H. split_and!; [|done | by constructor]. cbn. split; [|  | by left | done].
    + intros x ->%list_elem_of_singleton. apply accounts_refl.
    + intros p Hp. exists s. split; [left | done].
  - rewrite map_map. cbn. clear. by induction input as [|s input IH]; cbn; [|rewrite IH].
Qed.

(** ** Replacements *)

Lemma replace_members_spec m w m' : replace_members m w = Ok m' ->
  forall id, JsMap.get id m' = if decide (id ∈ ws_memberIds w) then Some (working_id w) else JsMap.get id m.
Proof.
  unfold replace_members. destruct (asEvidenceId_graph (working_id w)) as [x|] eqn:E; [|done]. apply evidence_id_same in E as ->. cbn [rbind]. intros [= <-] id.
  generalize (ws_memberIds w) as ids. intros ids. induction ids as [|i ids IH] using rev_ind; [by rewrite decide_False by apply not_elem_of_nil|].
  rewrite fold_left_app. cbn [fold_left]. rewrite JsMap.get_set, IH. pose proof (elem_of_app ids [i] id) as Hi. rewrite list_elem_of_singleton in Hi. repeat case_decide; subst; naive_solver.
Qed.

Lemma replacements_spec cur : NoDup (concat (map ws_memberIds cur)) -> forall m m', rfold replace_members m cur = Ok m' ->
  (forall w id, w ∈ cur -> id ∈ ws_memberIds w -> JsMap.get id m' = Some (working_id w)) /\
  (forall id, id ∉ concat (map ws_memberIds cur) -> JsMap.get id m' = JsMap.get id m).
Proof.
  induction cur as [|w cur IH]; intros Hn m m'; cbn [rfold map concat]; [intros [= <-]; split; [by intros ? ? ?%not_elem_of_nil | done]|].
  destruct (replace_members m w) as [m1|] eqn:E; [|done]. cbn [rbind]. intros Hr. cbn [map concat] in Hn. apply NoDup_app in Hn as (_ & Hd & Hn).
  destruct (IH Hn m1 m' Hr) as [Hin Hout]. pose proof (replace_members_spec _ _ _ E) as Hw. split.
  - intros w' id [->|Hw']%elem_of_cons Hid; [|by apply Hin]. rewrite Hout by (by apply Hd). rewrite Hw. by rewrite decide_True.
  - intros id. rewrite elem_of_app. intros Hid. rewrite Hout, Hw by tauto. rewrite decide_False by tauto. done.
Qed.

(** ** Edges *)

(** [next] is the edge [e] between the nodes that replaced its ends. *)
Definition remade (rho : list (ustr * ustr)) (e next : EvidenceEdge) : Prop :=
  createEvidenceEdge (replaced rho (ee_from e)) (replaced rho (ee_to e)) (ee_relation e) (ee_polarity e) (ee_confidence e) (ee_provenance e) = Ok next.

(** The new edges are the old ones with their ends replaced, once per id, without loops. *)
Record edges_follow (rho : list (ustr * ustr)) (old new : list EvidenceEdge) : Prop := {
  ef_from : forall e', e' ∈ new -> exists e, e ∈ old /\ remade rho e e' /\ ee_from e' = replaced rho (ee_from e) /\ ee_to e' = replaced rho (ee_to e) /\ ee_from e' <> ee_to e';
  ef_all : forall e, e ∈ old -> replaced rho (ee_from e) <> replaced rho (ee_to e) -> exists e' next, e' ∈ new /\ remade rho e next /\ ee_id next = ee_id e';
  ef_once : NoDup (map ee_id new)
}.

Lemma created_edge from to relation polarity confidence provenance e : createEvidenceEdge from to relation polarity confidence provenance = Ok e -> ee_from e = from /\ ee_to e = to.
Proof.
  unfold createEvidenceEdge. destruct (identityProvenanceIdentities provenance); [|done]. cbn [rbind]. destruct (graph_digest _); [|done]. cbn [rbind].
  destruct (digest_id _ _); [|done]. cbn [rbind]. by intros [= <-].
Qed.

Lemma remap_step rho seen acc e acc' : edges_follow rho seen acc -> remap_edge rho acc e = Ok acc' -> edges_follow rho (seen ++ [e]) acc'.
Proof.
  intros [Hf Ha Ho]. unfold remap_edge. destruct (asEvidenceId_graph (ee_from e)) as [x|] eqn:Ex; [|done]. apply evidence_id_same in Ex as ->. cbn [rbind].
  destruct (asEvidenceId_graph (ee_to e)) as [y|] eqn:Ey; [|done]. apply evidence_id_same in Ey as ->. cbn [rbind].
  assert (Hold : forall l : list EvidenceEdge, (forall e', e' ∈ acc -> e' ∈ l) -> forall e0, e0 ∈ seen -> replaced rho (ee_from e0) <> replaced rho (ee_to e0) -> exists e' next, e' ∈ l /\ remade rho e0 next /\ ee_id next = ee_id e').
  { intros l Hl e0 H0 Hne. destruct (Ha e0 H0 Hne) as (e' & next & ? & ? & ?). exists e', next. auto. }
  assert (Hkept : forall e', e' ∈ acc -> exists e0, e0 ∈ seen ++ [e] /\ remade rho e0 e' /\ ee_from e' = replaced rho (ee_from e0) /\ ee_to e' = replaced rho (ee_to e0) /\ ee_from e' <> ee_to e').
  { intros e' He'. destruct (Hf e' He') as (e0 & ? & ?). exists e0. rewrite elem_of_app. auto. }
  destruct (bool_decide_reflect (replaced rho (ee_from e) = replaced rho (ee_to e))) as [Heq|Hne].
  - intros [= <-]. split; [done| |done]. intros e0 [H0| ->%list_elem_of_singleton]%elem_of_app Hn; [by apply Hold | done].
  - destruct (createEvidenceEdge _ _ _ _ _ _) as [next|] eqn:En; [|done]. cbn [rbind]. destruct (includes (ee_id next) (map ee_id acc)) eqn:Ei.
    + apply includes_true in Ei. intros [= <-]. split; [done| |done]. intros e0 [H0| ->%list_elem_of_singleton]%elem_of_app Hn; [by apply Hold|].
      apply list_elem_of_fmap in Ei as (e' & Hid & He'). by exists e', next.
    + apply includes_false in Ei. intros [= <-]. destruct (created_edge _ _ _ _ _ _ _ En) as [E1 E2]. split.
      * intros e' [He'| ->%list_elem_of_singleton]%elem_of_app; [by apply Hkept|]. exists e. rewrite elem_of_app. split_and!; [right; left | done | done | done | congruence].
      * intros e0 [H0| ->%list_elem_of_singleton]%elem_of_app Hn; [apply Hold; [intros ? ?; rewrite elem_of_app; by left | done..]|].
        exists next, next. rewrite elem_of_app. split_and!; [right; left | done | done].
      * rewrite map_app. apply NoDup_app. split_and!; [done | by intros ? ? ->%list_elem_of_singleton | apply NoDup_singleton].
Qed.

Lemma remap_follow rho es : forall seen acc out, edges_follow rho seen acc -> rfold (remap_edge rho) acc es = Ok out -> edges_follow rho (seen ++ es) out.
Proof.
  induction es as [|e es IH]; intros seen acc out H; cbn [rfold]; [intros [= <-]; by rewrite app_nil_r|].
  destruct (remap_edge rho acc e) as [acc'|] eqn:E; [|done]. cbn [rbind]. intros Hr. pose proof (IH _ _ _ (remap_step _ _ _ _ _ H E) Hr) as Hf. by rewrite <- app_assoc in Hf.
Qed.

Lemma remapEdges_follow rho es out : remapEdges es rho = Ok out -> edges_follow rho es out /\ StronglySorted (fun a b => by_key ee_id a b = true) out.
Proof.
  unfold remapEdges. destruct (rfold (remap_edge rho) [] es) as [l|] eqn:E; [|done]. cbn [rbind]. intros [= <-]. split; [|apply by_key_sorted].
  assert (edges_follow rho [] []) as H0 by (split; [by intros ? ?%not_elem_of_nil | by intros ? ?%not_elem_of_nil | constructor]).
  destruct (remap_follow rho es [] [] l H0 E) as [Hf Ha Ho]. pose proof (sort_by_perm (by_key ee_id) l) as Hp. split.
  - intros e' He'. apply Hf. by rewrite <- Hp.
  - intros e He Hne. destruct (Ha e He Hne) as (e' & next & ? & ?). exists e', next. by rewrite Hp.
  - by rewrite Hp.
Qed.

(** ** The clustering does not run out of fuel *)

Definition ends {A} (r : result GraphErr A) : Prop := r <> Err MERGE_FUEL.

Lemma ends_bind {A B} (r : result GraphErr A) (f : A -> result GraphErr B) : ends r -> (forall a, ends (f a)) -> ends (rbind r f).
Proof. unfold ends. destruct r as [a|e]; cbn; [intros _ H; apply H | congruence]. Qed.
Lemma ends_rmap {A B} (f : A -> result GraphErr B) xs : (forall x, ends (f x)) -> ends (rmap f xs).
Proof. intros Hf. induction xs as [|x xs IH]; cbn [rmap]; [done|]. apply ends_bind; [apply Hf|]. intros y. apply ends_bind; [done|]. done. Qed.
Lemma ends_rfold {A S} (f : S -> A -> result GraphErr S) xs : (forall s x, ends (f s x)) -> forall s, ends (rfold f s xs).
Proof. intros Hf. induction xs as [|x xs IH]; intros s; cbn [rfold]; [done|]. apply ends_bind; [apply Hf | intros y; apply IH]. Qed.
Lemma ends_canon {E A} (r : result E A) : ends (graph_canon r).
Proof. by destruct r. Qed.
Lemma ends_digest {E A} (r : result E A) : ends (graph_digest r).
Proof. by destruct r. Qed.

Create HintDb ends.
#[local] Hint Resolve ends_canon ends_digest : ends.
Ltac ends_step :=
  first [ done | solve [auto with ends] | apply ends_bind; [|intros ?] | apply ends_rmap; intros ? | apply ends_rfold; intros ? ? | case_match | intros ? ].
Ltac ends_auto := repeat ends_step.

Lemma ends_evidence_id x : ends (asEvidenceId_graph x).
Proof. unfold asEvidenceId_graph. ends_auto. Qed.
Lemma ends_mergeProvenance l r : ends (mergeProvenance l r).
Proof. unfold mergeProvenance, keyed_provenance, provenanceDedupeKey, sourceAsJson. ends_auto. Qed.
Lemma ends_identities ps : ends (identityProvenanceIdentities ps).
Proof. unfold identityProvenanceIdentities, provenanceIdentity. ends_auto. Qed.
Lemma ends_digest_id p d : ends (digest_id p d).
Proof. unfold digest_id. ends_auto. Qed.
#[local] Hint Resolve ends_evidence_id ends_mergeProvenance ends_identities ends_digest_id : ends.
Lemma ends_node snapshotId n : ends (createEvidenceNode snapshotId n).
Proof. unfold createEvidenceNode, nodeIdentityId, evidenceIdFromNode, asObjectDigest_graph. ends_auto. Qed.
Lemma ends_edge a b c d e f : ends (createEvidenceEdge a b c d e f).
Proof. unfold createEvidenceEdge. ends_auto. Qed.
Lemma ends_snapshot ps : ends (snapshot_of ps).
Proof. induction ps as [|p ps IH]; cbn [snapshot_of]; [done|]. unfold asSnapshotId_graph. ends_auto. Qed.
#[local] Hint Resolve ends_node ends_edge ends_snapshot : ends.
Lemma ends_merge l r : ends (mergeSubjects l r).
Proof. unfold mergeSubjects, absorb_subject, snapshotIdOf, remintNode. ends_auto. Qed.
#[local] Hint Resolve ends_merge : ends.

Lemma ends_round f cur : proper_round f -> ends (unionFindMerge f cur).
Proof.
  intros [Hs _]. unfold unionFindMerge, merge_group. destruct (cluster_by_components (fun l r => f (ws_subject l) (ws_subject r)) ltac:(by intros ? ?; apply Hs) cur) as (_ & groups & _ & -> & _).
  ends_auto.
Qed.

Lemma ends_rounds rounds : Forall proper_round rounds -> forall cur, ends (rfold (fun current shouldMerge => unionFindMerge shouldMerge current) cur rounds).
Proof.
  induction 1 as [|f rounds Hf _ IH]; intros cur; cbn [rfold]; [done|]. apply ends_bind; [by apply ends_round | done].
Qed.

Lemma ends_dedupe subjects edges : ends (dedupeEvidence subjects edges).
Proof.
  unfold dedupeEvidence, dedupeSubjectsWithMap, remapEdges, replacementsFrom. apply ends_bind; [|unfold remap_edge; ends_auto]. apply ends_bind; [unfold toWorking; ends_auto|].
  intros cur. apply ends_bind; [apply ends_rounds, rounds_proper|]. unfold replace_members. ends_auto.
Qed.

(** ** The result *)

(** C33: deduplication loses no evidence.  It never runs out of steps; when it succeeds, every surviving
    subject stands for one part of the input, the parts together are the whole input, and the survivor
    accounts for its part: same producer, same generated flag, current or historical like all of it,
    its range and size cover theirs, a conflict of any is its conflict, every item of provenance of any
    is kept up to the time of observation, and it has no other.  A survivor of a real merge is named by
    its own identity.  Every edge between parts that stay apart is kept between their survivors, once,
    and no other edge appears. *)
Theorem deduped_evidence_kept subjects edges : NoDup (map (fun s => node_id s) subjects) -> Forall (fun s => safe_node (ds_node s)) subjects ->
  match dedupeEvidence subjects edges with
  | Err e => e <> MERGE_FUEL
  | Ok r =>
      dr_nodes r = map ds_node (dr_subjects r) /\ StronglySorted (fun a b => by_key (fun s => node_id s) a b = true) (dr_subjects r) /\
      exists parts rho, Forall2 stands_for (dr_subjects r) parts /\ concat parts ≡ₚ subjects /\
        Forall2 (fun t ms => forall s, s ∈ ms -> replaced rho (node_id s) = node_id t) (dr_subjects r) parts /\
        (forall id, id ∉ map (fun s => node_id s) subjects -> replaced rho id = id) /\
        edges_follow rho edges (dr_edges r)
  end.
Proof.
  intros Hn Hs. destruct (dedupeEvidence subjects edges) as [r|e] eqn:Er; [|intros ->; by apply (ends_dedupe subjects edges)]. revert Er. unfold dedupeEvidence, dedupeSubjectsWithMap.
  destruct (rmap toWorking subjects) as [start|] eqn:E0; [|done]. cbn [rbind]. destruct (rfold _ start dedupe_rounds) as [cur|] eqn:Ec; [|done]. cbn [rbind].
  destruct (replacementsFrom cur) as [rho|] eqn:Er; [|done]. cbn [rbind snd fst]. destruct (remapEdges edges rho) as [es|] eqn:Ee; [|done]. cbn [rbind]. intros [= <-].
  destruct (rounds_cover subjects dedupe_rounds rounds_proper start cur (start_covers _ _ Hs E0) Ec) as [(ps & <- & Hps & Hin) Hsort].
  cbn [dr_nodes dr_subjects dr_edges]. split_and!; [done| |].
  - specialize (Hsort ltac:(done)). clear -Hsort. induction Hsort as [|w l _ IH Hw]; cbn [map]; constructor; [done|]. apply Forall_map. exact Hw.
  - exists (map snd ps), rho. assert (Hmem : concat (map ws_memberIds (map fst ps)) = map (fun s => node_id s) (concat (map snd ps))).
    { clear -Hps. induction Hps as [|[w ms] ps (_ & Hm & _) _ IH]; [done|]. cbn [map concat fst snd] in *. by rewrite map_app, IH, Hm. }
    destruct (replacements_spec (map fst ps)) with (m := @nil (ustr * ustr)) (m' := rho) as [Hrin Hrout]; [rewrite Hmem, Hin; done | done|].
    split_and!; [| done | | |by apply remapEdges_follow].
    + clear -Hps. induction Hps as [|[w ms] ps Hw _ IH]; cbn; constructor; [apply Hw | done].
    + assert (Hget : forall w s, w ∈ ps -> s ∈ w.2 -> replaced rho (node_id s) = node_id (ws_subject w.1)).
      { intros [w ms] s Hw Hs'. cbn [fst snd] in *. unfold replaced. rewrite (Hrin w (node_id s)); [done | by apply (list_elem_of_fmap_2 fst _ _ Hw)|].
        unfold standing in Hps. rewrite Forall_forall in Hps. destruct (Hps _ Hw) as (_ & Hm & _). cbn [fst snd] in Hm. rewrite Hm. by apply (list_elem_of_fmap_2 (fun s => node_id s)). }
      clear -Hget. induction ps as [|w ps IH]; cbn; constructor; [intros s Hs; apply Hget; [left | done]|]. apply IH. intros w' s Hw'. apply Hget. by right.
    + intros id Hid. unfold replaced. rewrite Hrout; [done|]. rewrite Hmem, Hin. done.
Qed.
End Dedupe.

(** ** Concrete subjects *)

Module Duplicates.
Import Sample.
#[local] Existing Instance half_doubles.
#[local] Existing Instance weak_hash.

(** A region of a file, a schema a model reported in it, and another file. *)
Definition region : EvidenceNode := rule.
Definition model_schema : EvidenceNode := Eval vm_compute in
  made (mkNode [] (u "schema") (u "a.ts") LOCAL_MODEL (u "a.ts") es_invalidated trust [read_at "a.ts" "index"] 20 None).
Definition elsewhere : EvidenceNode := other.

Definition subject (n : EvidenceNode) (blob overload : string) : DedupeSubject :=
  mkSubject n (u "index") (u blob) [] [] [] (en_identityKey n) 0 10 false (u overload) (u blob).

Definition edge (a b : EvidenceNode) : EvidenceEdge :=
  match createEvidenceEdge (en_id a) (en_id b) (u "imports") (u "positive") (f64_of_Z 1) [read_at "a.ts" "index"] with Ok e => e | Err _ => mkEdge [] [] [] [] [] (f64_of_Z 0) [] end.

Definition inputs : list DedupeSubject := Eval vm_compute in [subject region "one" "f"; subject model_schema "one" ""; subject elsewhere "two" ""].
Definition input_edges : list EvidenceEdge := Eval vm_compute in [edge region model_schema; edge model_schema elsewhere; edge region elsewhere].
Definition output : DedupeResult := Eval vm_compute in match dedupeEvidence inputs input_edges with Ok r => r | Err _ => mkDeduped [] [] [] end.

Lemma deduped_evidence_kept_witness : length (dr_subjects output) = 2%nat /\ length (dr_edges output) = 1%nat /\
  exists parts rho, Forall2 stands_for (dr_subjects output) parts /\ concat parts ≡ₚ inputs /\ edges_follow rho input_edges (dr_edges output).
Proof.
  assert (Hn : NoDup (map (fun s => en_id (ds_node s)) inputs)) by (apply (bool_decide_unpack _); vm_compute; exact I).
  assert (Hs : Forall (fun s => safe_node (ds_node s)) inputs) by (repeat constructor).
  pose proof (@deduped_evidence_kept half_doubles half_laws weak_hash inputs input_edges Hn Hs) as H.
  assert (E : dedupeEvidence inputs input_edges = Ok output) by (vm_compute; reflexivity). rewrite E in H.
  destruct H as (_ & _ & parts & rho & H1 & H2 & _ & _ & H3). split; [reflexivity|]. split; [reflexivity|]. exists parts, rho. split; [exact H1|]. split; [exact H2 | exact H3].
Defined.

(** What a model reported becomes deterministic evidence that is not invalidated, though merging evidence
    with evidence of a model keeps the mark of the model and the worse status. *)
Lemma authorship_laundered : en_authorship model_schema = LOCAL_MODEL /\ en_status model_schema = es_invalidated /\
  mergeAuthorship (en_authorship region) (en_authorship model_schema) = LOCAL_MODEL /\ worseStatus (en_status region) (en_status model_schema) = es_invalidated /\
  match dedupeSubjects [subject region "one" ""; subject model_schema "one" ""] with
  | Ok [s] => en_authorship (ds_node s) = DETERMINISTIC /\ en_status (ds_node s) = es_verified
  | _ => False
  end.
Proof. vm_compute. done. Qed.

(** Subjects of different overloads are blocked as a pair, but one without an overload joins them. *)
Lemma overloads_bridged :
  blockedPair (subject region "one" "f") (subject elsewhere "one" "g") = true /\
  match dedupeSubjects [subject region "one" "f"; subject elsewhere "one" "g"; subject model_schema "one" ""] with Ok [_] => True | _ => False end.
Proof. vm_compute. done. Qed.
End Duplicates.
