(* ===== verification/Retrieval.v ===== *)
(** Retrieval of evidence (packages/evidence/src/fusion.ts, frontier.ts, claims.ts and the parts of
    channels.ts that do not query the index): channels turn index rows and proposals of the local model
    into deltas, their rankings are fused by reciprocal ranks, the fused candidates are deduplicated and
    merged into the graph; the frontier answers a retrieval action only once.

    The index database (its statements), the compiled schemas and the messages of exceptions are
    parameters; the clock gives one time during a retrieval. *)

From Stdlib Require Import String.
From S2P Require Import Prelude Ids JsText CanonicalJson JsJson Digest RelativePath UnionFind EvidenceGraph Dedupe.
Open Scope string_scope.
Open Scope list_scope.

(** ** Sources, provenance and trust *)

Definition repositorySourceRef (snapshotId artifact path quote : ustr) (sourceKind : option ustr) (range : option SourceRange) : EvidenceSource :=
  repository_source (default (u "repository") sourceKind) snapshotId artifact path (default whole range) quote.

Definition artifactSourceRef (artifact quote : ustr) (sourceKind : option ustr) : EvidenceSource :=
  artifact_source (default (u "runtime") sourceKind) artifact whole quote.

Definition makeProvenance (source : EvidenceSource) (extractorId extractorVersion observedAt contentDigest : ustr) (queryId : option ustr) : Provenance :=
  mkProvenance source extractorId extractorVersion observedAt contentDigest queryId.

Definition defaultTrust (group : ustr) (authority : option f64) (directness : option ustr) (reliability freshness risk : option f64) : TrustVector :=
  mkTrust (default (f64_literal 8 10) authority) (default (u "static-derived") directness) (default (f64_literal 9 10) reliability)
    (default (f64_of_Z 1) freshness) group (default (f64_literal 1 10) risk).

(** ** Fusion *)

Definition RRF_K : Z := 60.

Inductive RetrievalChannelId : Set :=
| ch_exact | ch_bm25 | ch_dense | ch_hybrid | ch_ast | ch_scip | ch_dataflow | ch_tests | ch_git_history | ch_analogues | ch_build_config
| ch_instructions | ch_external_docs | ch_local_hypothesis.
#[export] Instance RetrievalChannelId_eq_dec : EqDecision RetrievalChannelId.
Proof. solve_decision. Defined.

Definition RETRIEVAL_CHANNEL_IDS : list RetrievalChannelId :=
  [ch_exact; ch_bm25; ch_dense; ch_hybrid; ch_ast; ch_scip; ch_dataflow; ch_tests; ch_git_history; ch_analogues; ch_build_config;
   ch_instructions; ch_external_docs; ch_local_hypothesis].

Definition channel_text (c : RetrievalChannelId) : ustr :=
  u match c with
    | ch_exact => "exact" | ch_bm25 => "bm25" | ch_dense => "dense" | ch_hybrid => "hybrid" | ch_ast => "ast" | ch_scip => "scip"
    | ch_dataflow => "dataflow" | ch_tests => "tests" | ch_git_history => "git-history" | ch_analogues => "analogues"
    | ch_build_config => "build-config" | ch_instructions => "instructions" | ch_external_docs => "external-docs"
    | ch_local_hypothesis => "local-hypothesis"
    end.

Definition FUSION_WEIGHTS_VERSION : Z := 1.

(** In tenths. *)
Definition weight_tenths (c : RetrievalChannelId) : Z :=
  match c with
  | ch_exact => 14 | ch_bm25 => 10 | ch_dense => 10 | ch_hybrid => 11 | ch_ast => 12 | ch_scip => 13 | ch_dataflow => 12 | ch_tests => 13
  | ch_git_history => 11 | ch_analogues => 8 | ch_build_config => 10 | ch_instructions => 14 | ch_external_docs => 6 | ch_local_hypothesis => 4
  end.
Definition FUSION_CHANNEL_WEIGHTS (c : RetrievalChannelId) : f64 := f64_literal (weight_tenths c) 10.

(** The literal of the source text: [1], [0.8], [1.4]. *)
Definition weight_text (c : RetrievalChannelId) : ustr :=
  let t := weight_tenths c in
  if (t mod 10 =? 0)%Z then int_toString (t / 10) else int_toString (t / 10) ++ u "." ++ int_toString (t mod 10).

Record RankedCandidate := mkRanked {
  rc_evidenceId : ustr;
  rc_identityKey : ustr;
  rc_channelId : RetrievalChannelId;
  rc_rank : Z;
  rc_node : EvidenceNode;
  rc_edges : list EvidenceEdge
}.
Record ChannelRanking := mkRanking { cr_channelId : RetrievalChannelId; cr_candidates : list RankedCandidate }.

(** The features a fusion sets; the others are undefined. *)
Record RerankerFeatures := mkFeatures {
  rf_lexicalRank : option Z;
  rf_denseRank : option Z;
  rf_sourceAuthority : f64;
  rf_freshness : f64;
  rf_sourceIndependence : ustr;
  rf_tokenCost : Z;
  rf_adversarialRisk : f64;
  rf_contributingChannelIds : list RetrievalChannelId;
  rf_rrfScore : f64
}.

(** The tie break is the identity key, this channel and the evidence id. *)
Record FusedCandidate := mkFused {
  fc_evidenceId : ustr;
  fc_identityKey : ustr;
  fc_rrfScore : f64;
  fc_node : EvidenceNode;
  fc_edges : list EvidenceEdge;
  fc_features : RerankerFeatures;
  fc_tieChannel : RetrievalChannelId
}.

Definition rrfContribution (c : RetrievalChannelId) (rank : Z) : result GraphErr f64 :=
  throw_if (rank <? 1)%Z with RRF_RANK;
  Ok (f64_div (FUSION_CHANNEL_WEIGHTS c) (f64_of_Z (RRF_K + rank))).

Definition positionalCandidates (ranking : ChannelRanking) : list RankedCandidate :=
  imap (fun index c => mkRanked (rc_evidenceId c) (rc_identityKey c) (cr_channelId ranking) (Z.of_nat index + 1) (rc_node c) (rc_edges c)) (cr_candidates ranking).

(** What is collected of one evidence id. *)
Record FusionEntry := mkEntry {
  fe_identityKey : ustr;
  fe_evidenceId : ustr;
  fe_node : EvidenceNode;
  fe_edges : list EvidenceEdge;
  fe_score : f64;
  fe_channels : list RetrievalChannelId;
  fe_lexicalRank : option Z;
  fe_denseRank : option Z
}.

Definition with_provenance (n : EvidenceNode) (provenance : list Provenance) (tokens : Z) : EvidenceNode :=
  mkNode (en_id n) (en_kind n) (en_identityKey n) (en_authorship n) (en_label n) (en_status n) (en_trust n) provenance tokens (en_contentObjectDigest n).

Definition rank_in (which : RetrievalChannelId) (c : RankedCandidate) (before : option Z) : option Z :=
  if bool_decide (rc_channelId c = which) then Some (rc_rank c) else before.

Definition first_entry (c : RankedCandidate) (contribution : f64) : FusionEntry :=
  mkEntry (rc_identityKey c) (rc_evidenceId c) (rc_node c) (rc_edges c) contribution [rc_channelId c] (rank_in ch_bm25 c None) (rank_in ch_dense c None).

Definition more_entry (e : FusionEntry) (c : RankedCandidate) (contribution : f64) : FusionEntry :=
  mkEntry (fe_identityKey e) (fe_evidenceId e)
    (with_provenance (fe_node e) (en_provenance (fe_node e) ++ en_provenance (rc_node c)) (Z.max (en_estimatedTokens (fe_node e)) (en_estimatedTokens (rc_node c))))
    (fe_edges e ++ rc_edges c) (f64_add (fe_score e) contribution) (fe_channels e ++ [rc_channelId c])
    (rank_in ch_bm25 c (fe_lexicalRank e)) (rank_in ch_dense c (fe_denseRank e)).

Definition fuse_candidate (byId : list (ustr * FusionEntry)) (c : RankedCandidate) : result GraphErr (list (ustr * FusionEntry)) :=
  let? contribution := rrfContribution (rc_channelId c) (rc_rank c) in
  Ok (JsMap.set (rc_evidenceId c)
        (match JsMap.get (rc_evidenceId c) byId with None => first_entry c contribution | Some e => more_entry e c contribution end) byId).

Definition channel_leb (a b : RetrievalChannelId) : bool := utf16_leb (channel_text a) (channel_text b).

(** [compare(left, right) <= 0] of the final order. *)
Definition fused_leb (l r : FusedCandidate) : bool :=
  if negb (f64_eq (fc_rrfScore r) (fc_rrfScore l)) then f64_lt (fc_rrfScore r) (fc_rrfScore l)
  else if negb (bool_decide (fc_identityKey l = fc_identityKey r)) then utf16_leb (fc_identityKey l) (fc_identityKey r)
  else if negb (bool_decide (fc_tieChannel l = fc_tieChannel r)) then channel_leb (fc_tieChannel l) (fc_tieChannel r)
  else utf16_leb (fc_evidenceId l) (fc_evidenceId r).

Section Fusion.
Context {D : Doubles} {HH : Hashing} {UU : Unicode}.

Definition FUSION_WEIGHTS_DIGEST : result GraphErr ustr :=
  let? text := graph_canon (canonicalizeRfc8785 (VObj [(u "version", VInt FUSION_WEIGHTS_VERSION); (u "k", VInt RRF_K);
    (u "weights", VObj (map (fun c => (channel_text c, VNum (Number_ (weight_text c)))) RETRIEVAL_CHANNEL_IDS))])) in
  Ok (objectDigestFromBytes (utf8_encode text)).

Definition fusion_provenance (digest observedAt : ustr) : Provenance :=
  makeProvenance (artifactSourceRef digest digest (Some (u "runtime"))) FUSION_EXTRACTOR_ID FUSION_EXTRACTOR_VERSION observedAt digest None.

Definition fused_of (digest observedAt : ustr) (e : FusionEntry) : FusedCandidate :=
  let channels := sort_by channel_leb (fe_channels e) in
  let node := with_provenance (fe_node e) (en_provenance (fe_node e) ++ [fusion_provenance digest observedAt]) (en_estimatedTokens (fe_node e)) in
  mkFused (fe_evidenceId e) (fe_identityKey e) (fe_score e) node (fe_edges e)
    (mkFeatures (fe_lexicalRank e) (fe_denseRank e) (tv_authority (en_trust node)) (tv_freshness (en_trust node)) (tv_independenceGroup (en_trust node))
       (en_estimatedTokens node) (tv_adversarialRisk (en_trust node)) channels (fe_score e))
    (match channels with c :: _ => c | [] => ch_exact end).

Definition fuseRankings (rankings : list ChannelRanking) (observedAt : ustr) : result GraphErr (list FusedCandidate) :=
  let? digest := FUSION_WEIGHTS_DIGEST in
  let? byId := rfold (fun byId ranking => rfold fuse_candidate byId (positionalCandidates ranking)) [] rankings in
  Ok (sort_by fused_leb (map (fused_of digest observedAt) (JsMap.values byId))).

Definition attachFusionProvenance (draft : EvidenceNode) (observedAt : ustr) : result GraphErr EvidenceNode :=
  let? digest := FUSION_WEIGHTS_DIGEST in
  Ok (with_provenance draft (en_provenance draft ++ [fusion_provenance digest observedAt]) (en_estimatedTokens draft)).

(** ** The frontier *)

Inductive FilterValue : Set := one_text (s : ustr) | many_texts (l : list ustr).

Record RetrievalAction := mkAction {
  ra_id : ustr;
  ra_channelId : ustr;
  ra_targetClaimIds : list ustr;
  ra_query : ustr;
  ra_filters : list (ustr * FilterValue);
  ra_expectedInformationGain : f64;
  ra_expectedTrustGain : f64;
  ra_estimatedLatencyMs : Z;
  ra_estimatedPacketTokens : Z
}.

Definition createRetrievalAction (id channelId : ustr) (targetClaimIds : list ustr) (query : ustr) (filters : option (list (ustr * FilterValue)))
    (gain trustGain : option f64) (latency tokens : option Z) : RetrievalAction :=
  mkAction id channelId targetClaimIds query (default [] filters) (default (f64_literal 5 10) gain) (default (f64_literal 5 10) trustGain)
    (default 1%Z latency) (default 1%Z tokens).

Definition filterValue (filters : list (ustr * FilterValue)) (key : string) : option ustr :=
  match JsMap.get (u key) filters with
  | Some (one_text s) => Some s
  | Some (many_texts (s :: _)) => Some s
  | _ => None
  end.

Definition normalizeQuery (query : ustr) : ustr := collapse_space false (trim (nfc query)).

Definition filter_json (f : FilterValue) : jsvalue := match f with one_text s => VStr s | many_texts l => VArr (map VStr l) end.
Definition canonicalizeFilters (filters : list (ustr * FilterValue)) : result GraphErr ustr :=
  graph_canon (canonicalizeRfc8785 (VObj (map (fun kv => (kv.1, filter_json kv.2)) filters))).

Definition actionCanonicalDigest (snapshotId : ustr) (a : RetrievalAction) : result GraphErr ustr :=
  let? filters := canonicalizeFilters (ra_filters a) in
  Ok (sha256Utf8 (snapshotId ++ ra_channelId a ++ normalizeQuery (ra_query a) ++ filters)).

Inductive FrontierDecision : Set := accepted | repeat_action.

Record RetrievalFrontier := mkFrontier { rf_snapshotId : ustr; rf_visited : list ustr }.

Definition newFrontier (snapshotId : ustr) (visited : list ustr) : RetrievalFrontier := mkFrontier snapshotId (uniq visited).
Definition visitedDigests (f : RetrievalFrontier) : list ustr := sort_by utf16_leb (rf_visited f).
Definition frontier_has (f : RetrievalFrontier) (a : RetrievalAction) : result GraphErr bool :=
  let? digest := actionCanonicalDigest (rf_snapshotId f) a in Ok (includes digest (rf_visited f)).

Definition register (f : RetrievalFrontier) (a : RetrievalAction) : result GraphErr (FrontierDecision * RetrievalFrontier) :=
  let? digest := actionCanonicalDigest (rf_snapshotId f) a in
  if includes digest (rf_visited f) then Ok (repeat_action, f)
  else Ok (accepted, mkFrontier (rf_snapshotId f) (rf_visited f ++ [digest])).

Definition repeatConflictDelta (snapshotId : ustr) (a : RetrievalAction) (baseDigest : ustr) (unresolved : list ustr) (digest observedAt : ustr)
    : result GraphErr EvidenceDelta :=
  let extractor := u "pi-hec-retrieval-frontier/v1" in
  let? node := createEvidenceNode snapshotId
    (mkNode [] (u "conflict") (take 1024 (u "repeat-action:" ++ digest)) DETERMINISTIC (u "repeat retrieval action " ++ ra_channelId a) es_conflicted
       (defaultTrust (independenceGroupFor extractor digest) (Some (f64_of_Z 1)) (Some (u "observed")) None None (Some (f64_of_Z 0)))
       [makeProvenance (artifactSourceRef baseDigest digest (Some (u "runtime"))) extractor (u "no-repeat/v1") observedAt digest None] 1 None) in
  Ok (mkDelta baseDigest [node] [] unresolved).

(** [expand] of the frontier: the deltas it yields, and the frontier after. *)
Definition frontier_expand (action_schema : RetrievalAction -> bool) (expand : RetrievalAction -> result GraphErr (list EvidenceDelta))
    (f : RetrievalFrontier) (a : RetrievalAction) (baseDigest : ustr) (unresolved : list ustr) (observedAt : ustr)
    : result GraphErr (list EvidenceDelta) * RetrievalFrontier :=
  if negb (action_schema a) then (Err ACTION_SCHEMA, f) else
  match register f a with
  | Err e => (Err e, f)
  | Ok (repeat_action, f) =>
      (let? digest := actionCanonicalDigest (rf_snapshotId f) a in
       let? delta := repeatConflictDelta (rf_snapshotId f) a baseDigest unresolved digest observedAt in Ok [delta], f)
  | Ok (accepted, f) => (expand a, f)
  end.
End Fusion.

(** ** Channels *)

Inductive ChannelProbe : Set := available | degraded | unavailable.
#[export] Instance ChannelProbe_eq_dec : EqDecision ChannelProbe.
Proof. solve_decision. Defined.
Definition probe_text (p : ChannelProbe) : ustr := u match p with available => "available" | degraded => "degraded" | unavailable => "unavailable" end.

(** A row of the index; [ur_unit] has the columns the nodes are made of. *)
Record UnitRow := mkRow {
  ur_unit : IndexUnitRow;
  ur_parentHierarchy : ustr;
  ur_language : ustr;
  ur_interfaceFingerprint : ustr;
  ur_isGenerated : Z
}.
Record EdgeRow := mkEdgeRow { er_fromId : ustr; er_toId : ustr; er_relation : ustr; er_producer : ustr }.

Record LocalEvidenceProposal := mkProposal { lp_proposalId : ustr; lp_kind : ustr; lp_statement : ustr; lp_citedSourceRefs : list EvidenceSource }.

(** Statements of the index: the rows with one of some ids, the rows at a place, the edges at an id. *)
Record IndexDb := mkDb {
  db_units_in : list ustr -> list UnitRow;
  db_units_at : ustr -> Z -> Z -> list UnitRow;
  db_edges_at : ustr -> list EdgeRow
}.

Record EvidenceChannelHost := mkHost {
  h_snapshotId : ustr;
  h_db : option IndexDb;
  h_now : ustr;
  h_graph : option EvidenceGraph;
  h_localProposals : list LocalEvidenceProposal;
  h_fetchExternal : bool
}.

Definition hostGraph (h : EvidenceChannelHost) : EvidenceGraph := default (emptyEvidenceGraph (h_snapshotId h)) (h_graph h).

Definition edge_key (r : EdgeRow) : ustr := er_fromId r ++ [NUL] ++ er_toId r ++ [NUL] ++ er_relation r ++ [NUL] ++ er_producer r.

Definition queryEdges (db : IndexDb) (ids : list ustr) : list EdgeRow :=
  map snd (keep_first (map (fun r => (edge_key r, r)) (concat (map (db_edges_at db) ids)))).

(** Statements for 64 ids at a time; the fuel bounds the statements. *)
Fixpoint query_chunks (fuel : nat) (db : IndexDb) (ids : list ustr) : list UnitRow :=
  match fuel, ids with
  | S fuel, _ :: _ => db_units_in db (take 64 ids) ++ query_chunks fuel db (drop 64 ids)
  | _, _ => []
  end.
Definition queryUnitsByEvidenceIds (db : IndexDb) (ids : list ustr) : list UnitRow := query_chunks (length ids) db ids.

Definition isCapabilityNode (n : EvidenceNode) : bool :=
  startsWith (u "channel-capability:") (en_identityKey n) || startsWith (u "channel-failure:") (en_identityKey n).

(** [new Map(items.map((item) => [item.id, item])).values()] in the order of the ids *)
Definition unique_by {A} (id : A -> ustr) (items : list A) : list A := sort_by (by_key id) (JsMap.values (map_by_id id items)).

Definition known_node_ids (g : EvidenceGraph) (nodes : list EvidenceNode) : list ustr := map en_id (eg_nodes g) ++ map en_id nodes.
Definition between_known (known : list ustr) (e : EvidenceEdge) : bool := includes (ee_from e) known && includes (ee_to e) known.

Section Channels.
Context {D : Doubles} {HH : Hashing} {UU : Unicode}.
Variables (graph_schema : EvidenceGraph -> bool) (delta_schema : EvidenceDelta -> bool) (proposal_schema : LocalEvidenceProposal -> bool).

Definition unitToSubject (row : UnitRow) (node : EvidenceNode) : DedupeSubject :=
  let r := ur_unit row in
  mkSubject node (iu_producer r) (iu_contentDigest r) (iu_symbolId r) (fqSignatureFor (iu_symbolId r) (ur_interfaceFingerprint row))
    (astFingerprintFor (iu_kind r) (ur_language row) (iu_symbolId r) (iu_text r) (ur_parentHierarchy row)) (iu_path r) (iu_byteStart r) (iu_byteEnd r)
    (ur_isGenerated row =? 1)%Z (overloadKeyFor (iu_symbolId r) (ur_interfaceFingerprint row)) (normalizedTextDigest (iu_text r)).

Definition edgeFromRow (observedAt extractorId : ustr) (row : EdgeRow) : result GraphErr EvidenceEdge :=
  let? digest := asObjectDigest_graph (sha256Utf8 (er_fromId row ++ u ":" ++ er_toId row ++ u ":" ++ er_relation row)) in
  let? from := asEvidenceId_graph (er_fromId row) in
  let? to := asEvidenceId_graph (er_toId row) in
  createEvidenceEdge from to (er_relation row) (u "positive") (f64_literal 8 10)
    [makeProvenance (artifactSourceRef digest digest None) extractorId (er_producer row) observedAt digest None].

Definition channel_extractor (id : RetrievalChannelId) : ustr := u "pi-hec-channel-" ++ channel_text id ++ u "/v1".

Definition capabilityNode (h : EvidenceChannelHost) (id : RetrievalChannelId) (probe : ChannelProbe) : result GraphErr EvidenceNode :=
  let? digest := asObjectDigest_graph (sha256Utf8 (u "channel:" ++ channel_text id ++ u ":" ++ probe_text probe)) in
  createEvidenceNode (h_snapshotId h)
    (mkNode [] (u "unknown") (u "channel-capability:" ++ channel_text id ++ u ":" ++ probe_text probe) DETERMINISTIC
       (u "channel " ++ channel_text id ++ u " " ++ probe_text probe)
       match probe with available => es_verified | degraded => es_probable | unavailable => es_unknown end
       (defaultTrust (independenceGroupFor (u "channel:" ++ channel_text id) digest)
          (Some (if bool_decide (probe = unavailable) then f64_of_Z 0 else f64_literal 4 10)) (Some (u "observed"))
          (Some (if bool_decide (probe = available) then f64_of_Z 1 else f64_literal 2 10)) (Some (f64_of_Z 1)) (Some (f64_of_Z 0)))
       [makeProvenance (artifactSourceRef digest digest None) (channel_extractor id) (u "capability/v1") (h_now h) digest None] 1 (Some digest)).

Definition failureNode (h : EvidenceChannelHost) (id : RetrievalChannelId) (extractorId message : ustr) : result GraphErr EvidenceNode :=
  let? digest := asObjectDigest_graph (sha256Utf8 message) in
  createEvidenceNode (h_snapshotId h)
    (mkNode [] (u "unknown") (u "channel-failure:" ++ channel_text id) DETERMINISTIC (u "channel " ++ channel_text id ++ u " failed") es_unknown
       (defaultTrust (independenceGroupFor (u "channel-failure:" ++ channel_text id) digest) (Some (f64_of_Z 0)) (Some (u "observed"))
          (Some (f64_of_Z 0)) None None)
       [makeProvenance (artifactSourceRef digest digest None) extractorId (u "failure/v1") (h_now h) digest None] 1 (Some digest)).

(** One candidate more, unless its row was seen. *)
Definition candidate_of_row (db : IndexDb) (id : RetrievalChannelId) (extractorId observedAt : ustr) (candidates : list RankedCandidate) (row : UnitRow)
    : result GraphErr (list RankedCandidate) :=
  let r := ur_unit row in
  if includes (iu_evidenceId r) (map rc_evidenceId candidates) then Ok candidates else
  let? node := unitToNode r extractorId observedAt in
  let? edges := rmap (edgeFromRow observedAt extractorId) (queryEdges db [iu_evidenceId r]) in
  Ok (candidates ++ [mkRanked (iu_evidenceId r) (en_identityKey node) id (Z.of_nat (length candidates) + 1) node edges]).

Definition candidatesFromRows (db : IndexDb) (id : RetrievalChannelId) (rows : list UnitRow) (extractorId observedAt : ustr) : result GraphErr (list RankedCandidate) :=
  rfold (candidate_of_row db id extractorId observedAt) [] rows.

Definition toDelta (h : EvidenceChannelHost) (candidates : list RankedCandidate) (extraNodes : list EvidenceNode) (unresolved : list ustr) : result GraphErr EvidenceDelta :=
  let nodes := map rc_node candidates ++ extraNodes in
  let edges := List.filter (between_known (known_node_ids (hostGraph h) nodes)) (concat (map rc_edges candidates)) in
  let? base := evidenceGraphDigest (hostGraph h) in
  let delta := mkDelta base nodes (unique_by ee_id edges) unresolved in
  throw_if negb (delta_schema delta) with CHANNEL_DELTA;
  Ok delta.

(** The deltas of a channel over the index.  [rows] are the rows of its statements, or the message of
    what stopped them; [message_of] gives the message of an exception of the code. *)
Definition channel_run (message_of : GraphErr -> ustr) (h : EvidenceChannelHost) (id : RetrievalChannelId) (aborted : bool) (probe : ChannelProbe)
    (rows : result ustr (list UnitRow)) (claimIds : list ustr) : result GraphErr (list EvidenceDelta) :=
  throw_if aborted with ABORTED;
  match h_db h with
  | Some db =>
      if bool_decide (probe = unavailable) then
        let? node := capabilityNode h id unavailable in
        let? delta := toDelta h [] [node] claimIds in Ok [delta]
      else
        let tried : result ustr EvidenceDelta :=
          match rows with
          | Err message => Err message
          | Ok rows =>
              match (let? candidates := candidatesFromRows db id rows (channel_extractor id) (h_now h) in
                     let? extra := if bool_decide (probe = degraded) then let? node := capabilityNode h id degraded in Ok [node] else Ok [] in
                     toDelta h candidates extra (match candidates with [] => claimIds | _ => [] end)) with
              | Ok delta => Ok delta
              | Err e => Err (message_of e)
              end
          end in
        match tried with
        | Ok delta => Ok [delta]
        | Err message =>
            let? node := failureNode h id (channel_extractor id) message in
            let? delta := toDelta h [] [node] claimIds in Ok [delta]
        end
  | None =>
      let? node := capabilityNode h id unavailable in
      let? delta := toDelta h [] [node] claimIds in Ok [delta]
  end.

(** [seed] of the channel of external documentation. *)
Definition external_seed (h : EvidenceChannelHost) (aborted : bool) (claimIds : list ustr) : result GraphErr (list EvidenceDelta) :=
  throw_if aborted with ABORTED;
  if h_fetchExternal h then Ok [] else
  let? node := capabilityNode h ch_external_docs unavailable in
  let? claims := rmap asEvidenceId_graph claimIds in
  let? delta := toDelta h [] [node] claims in Ok [delta].

Definition ingestLocalEvidenceProposal (snapshotId : ustr) (observedAt : ustr) (p : LocalEvidenceProposal) : result GraphErr EvidenceNode :=
  throw_if negb (proposal_schema p) with PROPOSAL_SCHEMA;
  let? digest := asObjectDigest_graph (sha256Utf8 (lp_statement p)) in
  let sources := match lp_citedSourceRefs p with [] => [artifactSourceRef digest digest (Some (u "model-output"))] | cited => cited end in
  createEvidenceNode snapshotId
    (mkNode [] (lp_kind p) (take 1024 (u "local-proposal:" ++ lp_proposalId p)) LOCAL_MODEL (take 1024 (lp_statement p))
       (if bool_decide (lp_kind p = u "conflict") then es_conflicted else es_unknown)
       (defaultTrust (independenceGroupFor (u "local-model") digest) (Some (f64_literal 2 10)) (Some (u "model-derived")) (Some (f64_literal 3 10))
          (Some (f64_of_Z 1)) (Some (f64_literal 4 10)))
       (map (fun source => makeProvenance source (u "pi-hec-local-evidence-proposal/v1") (u "advisory/v1") observedAt digest None) sources)
       (estimatedTokensFor (lp_statement p)) (Some digest)).

(** [seed] of the channel of local proposals. *)
Definition local_seed (h : EvidenceChannelHost) (aborted : bool) (claimIds : list ustr) : result GraphErr (list EvidenceDelta) :=
  throw_if aborted with ABORTED;
  let? nodes := rmap (ingestLocalEvidenceProposal (h_snapshotId h) (h_now h)) (h_localProposals h) in
  let? claims := match nodes with [] => Ok [] | _ => rmap asEvidenceId_graph claimIds end in
  let? delta := toDelta h [] nodes claims in Ok [delta].

(** [expand] of the channel of local proposals. *)
Definition local_expand (h : EvidenceChannelHost) (aborted : bool) (a : RetrievalAction) : result GraphErr (list EvidenceDelta) :=
  throw_if aborted with ABORTED;
  let wanted p := match filterValue (ra_filters a) "proposalId" with None => true | Some id => bool_decide (lp_proposalId p = id) end in
  let? nodes := rmap (ingestLocalEvidenceProposal (h_snapshotId h) (h_now h)) (List.filter wanted (h_localProposals h)) in
  let? claims := rmap asEvidenceId_graph (ra_targetClaimIds a) in
  let? delta := toDelta h [] nodes claims in Ok [delta].

Definition rank_node (id : RetrievalChannelId) (edges : list EvidenceEdge) (candidates : list RankedCandidate) (n : EvidenceNode) : result GraphErr (list RankedCandidate) :=
  if isCapabilityNode n then Ok candidates else
  let? evidenceId := asEvidenceId_graph (en_id n) in
  Ok (candidates ++ [mkRanked evidenceId (en_identityKey n) id (Z.of_nat (length candidates) + 1) n edges]).

Definition rankingFromDeltas (id : RetrievalChannelId) (deltas : list EvidenceDelta) : result GraphErr ChannelRanking :=
  let? candidates := rfold (fun candidates d => rfold (rank_node id (ed_edges d)) candidates (ed_nodes d)) [] deltas in
  Ok (mkRanking id candidates).

(** [seed] of the hybrid channel, from what the two channels it combines yield. *)
Definition hybrid_seed (h : EvidenceChannelHost) (bm25 dense : list EvidenceDelta) (claimIds : list ustr) : result GraphErr (list EvidenceDelta) :=
  let? lexical := rankingFromDeltas ch_bm25 bm25 in
  let? vectors := rankingFromDeltas ch_dense dense in
  let? fused := fuseRankings [lexical; vectors] (h_now h) in
  let? claims := match fused with [] => rmap asEvidenceId_graph claimIds | _ => Ok [] end in
  let? delta := toDelta h (imap (fun i f => mkRanked (fc_evidenceId f) (fc_identityKey f) ch_hybrid (Z.of_nat i + 1) (fc_node f) (fc_edges f)) fused) [] claims in
  Ok [delta].

Definition hybrid_probe (left right : ChannelProbe) : ChannelProbe :=
  match left, right with
  | unavailable, unavailable => unavailable
  | available, available => available
  | _, _ => degraded
  end.

(** ** Retrieval *)

Definition PRIMITIVE_CHANNELS : list RetrievalChannelId := List.filter (fun c => negb (bool_decide (c = ch_hybrid))) RETRIEVAL_CHANNEL_IDS.

Record RetrievalIntent := mkIntent { ri_snapshotId : ustr; ri_claimIds : list ustr }.
Variable intent_schema : RetrievalIntent -> bool.

(** The subject of a fused candidate, given the rows found by id. *)
Definition subject_for (h : EvidenceChannelHost) (byId : list (ustr * UnitRow)) (item : FusedCandidate) : DedupeSubject :=
  let row := match JsMap.get (fc_evidenceId item) byId with Some r => Some r | None => JsMap.get (en_id (fc_node item)) byId end in
  match row with
  | Some row => unitToSubject row (fc_node item)
  | None =>
      let fallback := subjectFromNode (fc_node item) in
      match h_db h with
      | Some db =>
          if negb (bool_decide (ds_path fallback = en_identityKey (fc_node item))) then
            match db_units_at db (ds_path fallback) (ds_byteStart fallback) (ds_byteEnd fallback) with
            | hit :: _ => unitToSubject hit (fc_node item)
            | [] => fallback
            end
          else fallback
      | None => fallback
      end
  end.

Definition subjectsForRanked (h : EvidenceChannelHost) (ranked : list FusedCandidate) : list DedupeSubject :=
  let rows := match h_db h with None => [] | Some db => queryUnitsByEvidenceIds db (map fc_evidenceId ranked) end in
  map (subject_for h (map_by_id (fun row => iu_evidenceId (ur_unit row)) rows)) ranked.

(** What a channel answers: its probe, whether the signal is aborted when its turn comes, and what its
    seed yields. *)
Record ChannelAnswer := mkAnswer { ca_id : RetrievalChannelId; ca_aborted : bool; ca_probe : ChannelProbe; ca_seed : result GraphErr (list EvidenceDelta) }.

(** The nodes about channels, the unresolved claims and the rankings so far. *)
Record Gathered := mkGathered { ga_extra : list EvidenceNode; ga_unresolved : list ustr; ga_rankings : list ChannelRanking }.

Definition add_claims (claims : list ustr) (unresolved : list ustr) : result GraphErr (list ustr) :=
  rfold (fun acc c => let? id := asEvidenceId_graph c in Ok (setAdd acc id)) unresolved claims.

Definition optional_channel (c : RetrievalChannelId) : bool := bool_decide (c = ch_external_docs) || bool_decide (c = ch_local_hypothesis).

Definition gather (intent : RetrievalIntent) (g : Gathered) (c : ChannelAnswer) : result GraphErr Gathered :=
  throw_if ca_aborted c with ABORTED;
  let? _ := asSnapshotId_graph (ri_snapshotId intent) in
  let? unresolved := if bool_decide (ca_probe c = unavailable) && negb (optional_channel (ca_id c)) then add_claims (ri_claimIds intent) (ga_unresolved g)
                     else Ok (ga_unresolved g) in
  let? deltas := ca_seed c in
  let? unresolved := rfold (fun acc d => add_claims (ed_unresolvedClaimIds d) acc) unresolved deltas in
  let extra := ga_extra g ++ concat (map (fun d => List.filter isCapabilityNode (ed_nodes d)) deltas) in
  let? ranking := rankingFromDeltas (ca_id c) deltas in
  Ok (mkGathered extra unresolved (ga_rankings g ++ [ranking])).

Record RetrieveAndFuseResult := mkRetrieved { rr_graph : EvidenceGraph; rr_delta : EvidenceDelta; rr_fusion : list FusedCandidate; rr_subjects : list DedupeSubject }.

Definition retrieveAndFuse (h : EvidenceChannelHost) (intent : RetrievalIntent) (channels : list ChannelAnswer) : result GraphErr RetrieveAndFuseResult :=
  throw_if negb (intent_schema intent) with INTENT_SCHEMA;
  let? g := rfold (gather intent) (mkGathered [] [] []) (List.filter (fun c => bool_decide (ca_id c ∈ PRIMITIVE_CHANNELS)) channels) in
  let? fusion := fuseRankings (ga_rankings g) (h_now h) in
  let? deduped := dedupeEvidence (subjectsForRanked h fusion) (concat (map fc_edges fusion)) in
  let base := hostGraph h in
  let uniqueNodes := unique_by en_id (dr_nodes deduped ++ ga_extra g) in
  let edges := List.filter (between_known (known_node_ids base uniqueNodes)) (dr_edges deduped) in
  let? graph := mergeEvidence graph_schema base uniqueNodes edges in
  let? digest := evidenceGraphDigest base in
  let delta := mkDelta digest uniqueNodes edges (sort_by utf16_leb (ga_unresolved g)) in
  throw_if negb (delta_schema delta) with DELTA_SCHEMA;
  Ok (mkRetrieved graph delta fusion (dr_subjects deduped)).
End Channels.
