(* ===== verification/RetrievalTheorems.v ===== *)
(** Retrieval composes: fusion is grouping by evidence id and summarising every group, and what a
    retrieval returns is coherent, since its delta applied to the graph it started from gives the graph
    it returns.  The frontier accepts an action once. *)

From Stdlib Require Import String.
From S2P Require Import Prelude Ids JsText CanonicalJson CanonicalJsonTheorems JsJson Digest RelativePath UnionFind EvidenceGraph EvidenceGraphTheorems Dedupe Retrieval.
Open Scope string_scope.
Open Scope list_scope.

(** ** Fusion is a summary by id *)

Definition contribution (c : RankedCandidate) : f64 := f64_div (FUSION_CHANNEL_WEIGHTS (rc_channelId c)) (f64_of_Z (RRF_K + rc_rank c)).

(** The last rank in a channel. *)
Definition last_rank (which : RetrievalChannelId) (cs : list RankedCandidate) : option Z :=
  fold_left (fun r c => rank_in which c r) cs None.

(** What all candidates of one id add up to. *)
Definition summary (c : RankedCandidate) (cs : list RankedCandidate) : FusionEntry :=
  mkEntry (rc_identityKey c) (rc_evidenceId c)
    (with_provenance (rc_node c) (concat (map (fun c => en_provenance (rc_node c)) (c :: cs)))
       (fold_left (fun t c => Z.max t (en_estimatedTokens (rc_node c))) cs (en_estimatedTokens (rc_node c))))
    (concat (map rc_edges (c :: cs))) (fold_left (fun s c => f64_add s (contribution c)) cs (contribution c))
    (map rc_channelId (c :: cs)) (last_rank ch_bm25 (c :: cs)) (last_rank ch_dense (c :: cs)).

Lemma with_provenance_same n : with_provenance n (en_provenance n) (en_estimatedTokens n) = n.
Proof. by destruct n. Qed.

Lemma summary_first c : first_entry c (contribution c) = summary c [].
Proof. unfold first_entry, summary. cbn [map concat fold_left]. by rewrite !app_nil_r, with_provenance_same. Qed.

Lemma summary_more c cs d : more_entry (summary c cs) d (contribution d) = summary c (cs ++ [d]).
Proof.
  unfold more_entry, summary. cbn [fe_identityKey fe_evidenceId fe_node fe_edges fe_score fe_channels fe_lexicalRank fe_denseRank with_provenance en_provenance en_estimatedTokens].
  unfold last_rank. cbn [map concat fold_left]. rewrite !map_app, !concat_app, !fold_left_app. cbn [map concat fold_left]. by rewrite !app_nil_r, !app_assoc.
Qed.

Definition of_id (id : ustr) (cs : list RankedCandidate) : list RankedCandidate := List.filter (fun c => bool_decide (rc_evidenceId c = id)) cs.

Definition summarised (cs : list RankedCandidate) : option FusionEntry := match cs with c :: rest => Some (summary c rest) | [] => None end.

Lemma of_id_snoc id cs c : of_id id (cs ++ [c]) = of_id id cs ++ (if bool_decide (rc_evidenceId c = id) then [c] else []).
Proof. unfold of_id. rewrite List.filter_app. cbn. by case_bool_decide. Qed.

Lemma of_id_in id cs : id ∈ map rc_evidenceId cs <-> of_id id cs <> [].
Proof.
  split.
  - intros (c & -> & Hc)%list_elem_of_fmap E. assert (c ∈ of_id (rc_evidenceId c) cs) as H; [|rewrite E in H; by apply not_elem_of_nil in H].
    apply elem_of_List_filter. split; [done|]. by apply bool_decide_eq_true.
  - destruct (of_id id cs) as [|c rest] eqn:E; [done|]. intros _. assert (c ∈ of_id id cs) as H by (rewrite E; left).
    apply elem_of_List_filter in H as [Hc <-%bool_decide_eq_true]. by apply (list_elem_of_fmap_2 rc_evidenceId).
Qed.

(** A map that files [f id] under every id it has. *)
Lemma set_tabulated {V} (f g : ustr -> V) ids id v :
  NoDup ids -> g id = v -> (forall x, x <> id -> g x = f x) ->
  JsMap.set id v (map (fun x => (x, f x)) ids) = map (fun x => (x, g x)) (setAdd ids id).
Proof.
  intros Hn Hv Hg. unfold setAdd. destruct (includes id ids) eqn:E.
  - apply includes_true in E. induction ids as [|x ids IH]; [by apply not_elem_of_nil in E|]. apply NoDup_cons in Hn as [Hx Hn]. cbn.
    destruct (decide (id = x)) as [<-|Hne].
    + rewrite Hv. f_equal. apply map_ext_in. intros y Hy%list_elem_of_In. rewrite Hg; [done|]. by intros ->.
    + rewrite (Hg x) by done. f_equal. apply IH; [done|]. by apply elem_of_cons in E as [?|?].
  - apply includes_false in E. induction ids as [|x ids IH]; cbn; [by rewrite Hv|]. apply not_elem_of_cons in E as [Hne E]. apply NoDup_cons in Hn as [_ Hn].
    rewrite decide_False by done. rewrite (Hg x) by done. f_equal. by apply IH.
Qed.

Lemma get_tabulated {V} (f : ustr -> V) ids id : JsMap.get id (map (fun x => (x, f x)) ids) = if decide (id ∈ ids) then Some (f id) else None.
Proof.
  induction ids as [|x ids IH]; cbn; [by rewrite decide_False by apply not_elem_of_nil|]. rewrite IH. pose proof (elem_of_cons ids id x). repeat case_decide; subst; naive_solver.
Qed.

Definition somes {V} (m : list (ustr * V)) : list (ustr * option V) := map (fun kv => (kv.1, Some kv.2)) m.

Lemma set_somes {V} k (v : V) m : somes (JsMap.set k v m) = JsMap.set k (Some v) (somes m).
Proof. induction m as [|[k' v'] m IH]; [done|]. cbn. case_decide; cbn; [done | by f_equal]. Qed.
Lemma get_somes {V} k (m : list (ustr * V)) : JsMap.get k (somes m) = Some <$> JsMap.get k m.
Proof. induction m as [|[k' v'] m IH]; [done|]. cbn. by case_decide. Qed.

(** The ids in the order they appear, each with what its candidates add up to. *)
Definition fused_entries (cs : list RankedCandidate) : list (ustr * option FusionEntry) :=
  map (fun id => (id, summarised (of_id id cs))) (uniq (map rc_evidenceId cs)).

Lemma uniq_last (l : list ustr) x : uniq (l ++ [x]) = setAdd (uniq l) x.
Proof. unfold uniq. by rewrite fold_left_app. Qed.

Lemma fuse_step cs m c : somes m = fused_entries cs -> (1 <= rc_rank c)%Z ->
  exists m', fuse_candidate m c = Ok m' /\ somes m' = fused_entries (cs ++ [c]).
Proof.
  intros Hm Hr. unfold fuse_candidate, rrfContribution. rewrite (proj2 (Z.ltb_ge _ _)) by lia. cbn [rbind]. change (f64_div _ _) with (contribution c).
  eexists. split; [done|]. rewrite set_somes, Hm. unfold fused_entries. rewrite map_app. cbn [map]. rewrite uniq_last. destruct (uniq_spec (map rc_evidenceId cs)) as [Hn Hin].
  apply set_tabulated; [done| |].
  - rewrite of_id_snoc, bool_decide_true by done. pose proof (get_somes (rc_evidenceId c) m) as Hg. rewrite Hm in Hg. unfold fused_entries in Hg. rewrite get_tabulated in Hg.
    case_decide as Hc.
    + destruct (JsMap.get (rc_evidenceId c) m) as [e|]; [|done]. cbn in Hg. apply (inj Some) in Hg. destruct (of_id (rc_evidenceId c) cs) as [|x rest]; [done|].
      cbn [summarised app] in *. injection Hg as <-. by rewrite summary_more.
    + destruct (JsMap.get (rc_evidenceId c) m); [done|]. assert (of_id (rc_evidenceId c) cs = []) as ->; [|cbn; by rewrite summary_first].
      destruct (of_id (rc_evidenceId c) cs) eqn:E; [done|]. exfalso. apply Hc, Hin, of_id_in. by rewrite E.
  - intros x Hx. rewrite of_id_snoc, bool_decide_false by done. by rewrite app_nil_r.
Qed.

Lemma fuse_all ds : Forall (fun c => (1 <= rc_rank c)%Z) ds -> forall cs m, somes m = fused_entries cs ->
  exists m', rfold fuse_candidate m ds = Ok m' /\ somes m' = fused_entries (cs ++ ds).
Proof.
  induction 1 as [|c ds Hc _ IH]; intros cs m Hm; cbn [rfold]; [exists m; by rewrite app_nil_r|].
  destruct (fuse_step cs m c Hm Hc) as (m1 & -> & H1). cbn [rbind]. destruct (IH _ _ H1) as (m' & ? & H'). exists m'. by rewrite <- app_assoc in H'.
Qed.

Lemma positions_ranked ranking : Forall (fun c => (1 <= rc_rank c)%Z) (positionalCandidates ranking).
Proof. apply Forall_forall. intros c (i & x & -> & _)%elem_of_lookup_imap_1. cbn. lia. Qed.

Lemma fuse_rankings_all rankings : forall cs m, somes m = fused_entries cs ->
  exists m', rfold (fun byId ranking => rfold fuse_candidate byId (positionalCandidates ranking)) m rankings = Ok m' /\
    somes m' = fused_entries (cs ++ concat (map positionalCandidates rankings)).
Proof.
  induction rankings as [|r rankings IH]; intros cs m Hm; cbn [rfold map concat]; [exists m; by rewrite app_nil_r|].
  destruct (fuse_all _ (positions_ranked r) cs m Hm) as (m1 & -> & H1). cbn [rbind]. destruct (IH _ _ H1) as (m' & ? & H'). exists m'. by rewrite <- app_assoc in H'.
Qed.

Section Fused.
Context {D : Doubles} {HH : Hashing}.

(** Fusing is grouping the candidates by id, summarising every group, and sorting. *)
Lemma fuseRankings_exact rankings now ranked : fuseRankings rankings now = Ok ranked ->
  exists digest entries, FUSION_WEIGHTS_DIGEST = Ok digest /\
    let cs := concat (map positionalCandidates rankings) in
    map Some entries = map (fun id => summarised (of_id id cs)) (uniq (map rc_evidenceId cs)) /\
    ranked = sort_by fused_leb (map (fused_of digest now) entries).
Proof.
  unfold fuseRankings. destruct FUSION_WEIGHTS_DIGEST as [digest|]; [|done]. cbn [rbind].
  destruct (fuse_rankings_all rankings [] [] eq_refl) as (m & -> & Hm). cbn [rbind app] in *. intros [= <-]. exists digest, (JsMap.values m). split_and!; [done| |done].
  apply (f_equal (map snd)) in Hm. unfold somes, fused_entries in Hm. rewrite !map_map in Hm. unfold JsMap.values. rewrite map_map. exact Hm.
Qed.

(** Every id a channel ranked is fused, once. *)
Lemma fused_ids rankings now ranked : fuseRankings rankings now = Ok ranked ->
  NoDup (map fc_evidenceId ranked) /\ forall id, id ∈ map fc_evidenceId ranked <-> exists r, r ∈ rankings /\ id ∈ map rc_evidenceId (cr_candidates r).
Proof.
  intros (digest & entries & _ & Hs & ->)%fuseRankings_exact. set (cs := concat (map positionalCandidates rankings)) in *.
  assert (Hids : map fc_evidenceId (map (fused_of digest now) entries) = uniq (map rc_evidenceId cs)).
  { rewrite map_map. cbn [fused_of fc_evidenceId]. transitivity (map fe_evidenceId entries); [done|].
    assert (Hall : Forall (fun id => id ∈ map rc_evidenceId cs) (uniq (map rc_evidenceId cs))) by (apply Forall_forall; intros id; apply uniq_spec).
    revert Hs Hall. generalize (uniq (map rc_evidenceId cs)) as ids. intros ids. revert entries. induction ids as [|id ids IH]; intros [|e entries] Hs Hall; try done.
    cbn [map] in *. injection Hs as He Hs. apply Forall_cons in Hall as [Hid Hall]. f_equal; [|by apply IH]. unfold summarised in He.
    destruct (of_id id cs) as [|c rest] eqn:E; [done|]. injection He as ->. cbn. assert (c ∈ of_id id cs) as Hc by (rewrite E; left).
    by apply elem_of_List_filter in Hc as [_ ?%bool_decide_eq_true]. }
  pose proof (sort_by_perm fused_leb (map (fused_of digest now) entries)) as Hp. destruct (uniq_spec (map rc_evidenceId cs)) as [Hn Hin]. split.
  - rewrite Hp, Hids. done.
  - intros id. rewrite Hp, Hids, Hin. unfold cs. clear. induction rankings as [|r rankings IH]; cbn [map concat].
    + split; [by intros ?%not_elem_of_nil | by intros (? & ?%not_elem_of_nil & _)].
    + rewrite map_app, elem_of_app, IH. assert (map rc_evidenceId (positionalCandidates r) = map rc_evidenceId (cr_candidates r)) as ->.
      { unfold positionalCandidates. apply list_eq. intros i. etransitivity; [apply list_lookup_fmap|]. rewrite list_lookup_imap. etransitivity; [|symmetry; apply list_lookup_fmap].
        by destruct (cr_candidates r !! i). }
      split; [intros [?|(r' & ? & ?)]; [exists r; split; [left | done] | exists r'; split; [by right | done]]|]. intros (r' & [->|?]%elem_of_cons & ?); [by left | right; by exists r'].
Qed.
End Fused.

(** ** Rankings and claims *)

Section Retrieved.
Context {D : Doubles} {HH : Hashing} {UU : Unicode}.
Variables (graph_schema : EvidenceGraph -> bool) (delta_schema : EvidenceDelta -> bool) (intent_schema : RetrievalIntent -> bool).

Lemma evidence_id_kept x y : asEvidenceId_graph x = Ok y -> y = x.
Proof. unfold asEvidenceId_graph. destruct (isEvidenceId x); [by intros [= ->] | done]. Qed.

Lemma ranked_nodes id edges ns : forall cs cs', rfold (rank_node id edges) cs ns = Ok cs' ->
  map rc_evidenceId cs' = map rc_evidenceId cs ++ map en_id (List.filter (fun n => negb (isCapabilityNode n)) ns).
Proof.
  induction ns as [|n ns IH]; intros cs cs'; cbn [rfold List.filter map]; [intros [= <-]; by rewrite app_nil_r|]. unfold rank_node at 1.
  destruct (isCapabilityNode n); cbn [negb rbind]; [apply IH|]. destruct (asEvidenceId_graph (en_id n)) as [x|] eqn:E; [|done]. apply evidence_id_kept in E as ->. cbn [rbind].
  intros H%IH. rewrite H, map_app, <- app_assoc. done.
Qed.

(** A ranking has the nodes of the deltas that are not about channels. *)
Lemma ranking_ids id ds ranking : rankingFromDeltas id ds = Ok ranking ->
  map rc_evidenceId (cr_candidates ranking) = concat (map (fun d => map en_id (List.filter (fun n => negb (isCapabilityNode n)) (ed_nodes d))) ds).
Proof.
  unfold rankingFromDeltas. destruct (rfold _ [] ds) as [cs|] eqn:E; [|done]. cbn [rbind]. intros [= <-]. cbn [cr_candidates].
  assert (H : forall cs0 cs, rfold (fun candidates d => rfold (rank_node id (ed_edges d)) candidates (ed_nodes d)) cs0 ds = Ok cs ->
    map rc_evidenceId cs = map rc_evidenceId cs0 ++ concat (map (fun d => map en_id (List.filter (fun n => negb (isCapabilityNode n)) (ed_nodes d))) ds)).
  { clear. induction ds as [|d ds IH]; intros cs0 cs; cbn [rfold map concat]; [intros [= <-]; by rewrite app_nil_r|].
    destruct (rfold (rank_node id (ed_edges d)) cs0 (ed_nodes d)) as [cs1|] eqn:E; [|done]. cbn [rbind]. intros H%IH. rewrite H, (ranked_nodes _ _ _ _ _ E). by rewrite app_assoc. }
  by apply (H [] cs).
Qed.

Lemma add_claims_spec claims : forall acc acc', add_claims claims acc = Ok acc' -> forall x, x ∈ acc' <-> x ∈ acc \/ x ∈ claims.
Proof.
  unfold add_claims. induction claims as [|c claims IH]; intros acc acc'; cbn [rfold]; [intros [= <-] x; rewrite elem_of_nil; tauto|].
  destruct (asEvidenceId_graph c) as [y|] eqn:E; [|done]. apply evidence_id_kept in E as ->. cbn [rbind]. intros H x. rewrite (IH _ _ H), elem_of_setAdd, elem_of_cons. tauto.
Qed.

Lemma delta_claims_spec ds : forall acc acc', rfold (fun acc d => add_claims (ed_unresolvedClaimIds d) acc) acc ds = Ok acc' ->
  forall x, x ∈ acc' <-> x ∈ acc \/ exists d, d ∈ ds /\ x ∈ ed_unresolvedClaimIds d.
Proof.
  induction ds as [|d ds IH]; intros acc acc'; cbn [rfold].
  - intros [= <-] x. split; [by left | by intros [?|(? & ?%not_elem_of_nil & _)]].
  - destruct (add_claims _ acc) as [acc1|] eqn:E; [|done]. cbn [rbind]. intros H x. rewrite (IH _ _ H), (add_claims_spec _ _ _ E). split.
    + intros [[?|?]|(d' & ? & ?)]; [by left | right; exists d; split; [left | done] | right; exists d'; split; [by right | done]].
    + intros [?|(d' & [->|?]%elem_of_cons & ?)]; [by left; left | by left; right | right; by exists d'].
Qed.

(** The claims a channel leaves unresolved. *)
Definition leaves_open (intent : RetrievalIntent) (c : ChannelAnswer) (x : ustr) : Prop :=
  (ca_probe c = unavailable /\ optional_channel (ca_id c) = false /\ x ∈ ri_claimIds intent) \/
  exists ds d, ca_seed c = Ok ds /\ d ∈ ds /\ x ∈ ed_unresolvedClaimIds d.

Lemma gather_spec intent g c g' : gather intent g c = Ok g' ->
  ca_aborted c = false /\ (forall x, x ∈ ga_unresolved g' <-> x ∈ ga_unresolved g \/ leaves_open intent c x) /\
  exists ds ranking, ca_seed c = Ok ds /\ rankingFromDeltas (ca_id c) ds = Ok ranking /\ ga_rankings g' = ga_rankings g ++ [ranking].
Proof.
  unfold gather. destruct (ca_aborted c); [done|]. destruct (asSnapshotId_graph _); [|done]. cbn [rbind].
  destruct (if bool_decide (ca_probe c = unavailable) && negb (optional_channel (ca_id c)) then _ else _) as [u1|] eqn:E1; [|done]. cbn [rbind].
  destruct (ca_seed c) as [ds|] eqn:Es; [|done]. cbn [rbind]. destruct (rfold _ u1 ds) as [u2|] eqn:E2; [|done]. cbn [rbind].
  destruct (rankingFromDeltas (ca_id c) ds) as [ranking|] eqn:Er; [|done]. cbn [rbind]. intros [= <-]. cbn [ga_unresolved ga_rankings]. split_and!; [done| |by exists ds, ranking].
  intros x. rewrite (delta_claims_spec _ _ _ E2).
  assert (Hu : x ∈ u1 <-> x ∈ ga_unresolved g \/ (ca_probe c = unavailable /\ optional_channel (ca_id c) = false /\ x ∈ ri_claimIds intent)).
  { destruct (bool_decide_reflect (ca_probe c = unavailable)) as [Hp|Hp], (optional_channel (ca_id c)) eqn:Eo; cbn [negb andb] in E1; try (injection E1 as <-; naive_solver).
    rewrite (add_claims_spec _ _ _ E1). tauto. }
  rewrite Hu. unfold leaves_open. rewrite Es. split.
  - intros [[?|?]|(d & ? & ?)]; [by left | right; by left | right; right; by exists ds, d].
  - intros [?|[?|(ds' & d & [= <-] & ? & ?)]]; [by left; left | by left; right | right; by exists d].
Qed.

Lemma gather_all intent cs : forall g g', rfold (gather intent) g cs = Ok g' ->
  (forall x, x ∈ ga_unresolved g' <-> x ∈ ga_unresolved g \/ exists c, c ∈ cs /\ leaves_open intent c x) /\
  (forall r, r ∈ ga_rankings g -> r ∈ ga_rankings g') /\
  forall c, c ∈ cs -> ca_aborted c = false /\ exists ds ranking, ca_seed c = Ok ds /\ rankingFromDeltas (ca_id c) ds = Ok ranking /\ ranking ∈ ga_rankings g'.
Proof.
  induction cs as [|c cs IH]; intros g g'; cbn [rfold].
  - intros [= <-]. split_and!; [|done | by intros ? ?%not_elem_of_nil]. intros x. split; [by left | by intros [?|(? & ?%not_elem_of_nil & _)]].
  - destruct (gather intent g c) as [g1|] eqn:E; [|done]. cbn [rbind]. intros H. destruct (IH _ _ H) as (Hu & Hr & Hc). apply gather_spec in E as (Ha & Hu1 & ds & ranking & Es & Er & E1).
    split_and!.
    + intros x. rewrite Hu, Hu1. split.
      * intros [[?|?]|(c' & ? & ?)]; [by left | right; exists c; split; [left | done] | right; exists c'; split; [by right | done]].
      * intros [?|(c' & [->|?]%elem_of_cons & ?)]; [by left; left | by left; right | right; by exists c'].
    + intros r Hin. apply Hr. rewrite E1, elem_of_app. by left.
    + intros c' [->|Hc']%elem_of_cons; [|by apply Hc]. split; [done|]. exists ds, ranking. split_and!; [done | done|]. apply Hr. rewrite E1, elem_of_app. right. left.
Qed.

Lemma unique_ids {A} (id : A -> ustr) xs x : x ∈ xs -> id x ∈ map id (unique_by id xs).
Proof.
  intros Hx. unfold unique_by. rewrite sort_by_perm, (filed_ids id _ (by_id_filed id xs)). unfold map_by_id.
  assert (H : forall m, id x ∈ JsMap.keys m \/ x ∈ xs -> id x ∈ JsMap.keys (fold_left (fun m x => JsMap.set (id x) x m) xs m)); [|apply H; by right].
  clear Hx. induction xs as [|y xs IH]; intros m; cbn [fold_left]; [intros [?|?%not_elem_of_nil]; done|]. intros H. apply IH. rewrite elem_of_cons in H.
  assert (Hk : forall k, k ∈ JsMap.keys (JsMap.set (id y) y m) <-> k = id y \/ k ∈ JsMap.keys m).
  { intros k. rewrite <- !JsMap.has_true. unfold JsMap.has. rewrite JsMap.get_set. case_decide; [naive_solver|]. naive_solver. }
  rewrite Hk. naive_solver.
Qed.

(** ** Coherence *)

(** C34: what a retrieval returns is coherent.  Its delta names the graph it started from and applied to
    it gives the graph it returns; that graph passes all checks, has absorbed every node it had before,
    and has a node for every survivor of the deduplication.  Every node a channel brought, but for those
    about channels, is fused, and every evidence id once.  The unresolved claims are exactly those that
    some delta left unresolved, and all claims of the intent when a channel that is not optional is
    unavailable. *)
Theorem retrieval_coherent h intent channels r : sound_graph graph_schema (hostGraph h) ->
  retrieveAndFuse graph_schema delta_schema intent_schema h intent channels = Ok r ->
  let used := List.filter (fun c => bool_decide (ca_id c ∈ PRIMITIVE_CHANNELS)) channels in
  applyEvidenceDelta graph_schema delta_schema (hostGraph h) (rr_delta r) = Ok (rr_graph r) /\
  sound_graph graph_schema (rr_graph r) /\
  (forall n, n ∈ eg_nodes (hostGraph h) -> exists n', n' ∈ eg_nodes (rr_graph r) /\ absorbs n n') /\
  (forall s, s ∈ rr_subjects r -> exists n', n' ∈ eg_nodes (rr_graph r) /\ en_id n' = en_id (ds_node s)) /\
  NoDup (map fc_evidenceId (rr_fusion r)) /\
  (forall c ds d n, c ∈ used -> ca_seed c = Ok ds -> d ∈ ds -> n ∈ ed_nodes d -> isCapabilityNode n = false -> en_id n ∈ map fc_evidenceId (rr_fusion r)) /\
  (forall x, x ∈ ed_unresolvedClaimIds (rr_delta r) <-> exists c, c ∈ used /\ leaves_open intent c x).
Proof.
  intros Hb. unfold retrieveAndFuse. destruct (intent_schema intent); [|done]. cbn [negb]. destruct (rfold (gather intent) _ _) as [g|] eqn:Eg; [|done]. cbn [rbind].
  destruct (fuseRankings (ga_rankings g) (h_now h)) as [fusion|] eqn:Ef; [|done]. cbn [rbind]. destruct (dedupeEvidence _ _) as [deduped|] eqn:Ed; [|done]. cbn [rbind].
  set (nodes := unique_by en_id _). set (edges := List.filter _ _). destruct (mergeEvidence graph_schema (hostGraph h) nodes edges) as [graph|] eqn:Em; [|done]. cbn [rbind].
  destruct (evidenceGraphDigest (hostGraph h)) as [digest|] eqn:Edig; [|done]. cbn [rbind]. set (delta := mkDelta digest nodes edges _). destruct (delta_schema delta) eqn:Es; [|done]. cbn [negb].
  intros [= <-]. cbn [rr_graph rr_delta rr_fusion rr_subjects]. destruct (gather_all _ _ _ _ Eg) as (Hu & _ & Hc). destruct (fused_ids _ _ _ Ef) as [Hn Hids].
  destruct (mergeEvidence_merging graph_schema _ _ _ _ (sg_nodes _ _ Hb) Em) as (Hs & _ & _ & m & [Hf Ha _] & Hp).
  assert (Hnode : forall n, n ∈ eg_nodes (hostGraph h) ++ nodes -> exists n', n' ∈ eg_nodes graph /\ absorbs n n').
  { intros n Hin. destruct (Ha n Hin) as (n' & Hget & Hab). exists n'. split; [|done]. rewrite Hp. apply (filed_values en_id m n' Hf). by rewrite (ab_id _ _ Hab). }
  split_and!.
  - unfold applyEvidenceDelta. rewrite Es, Edig. cbn [negb rbind ed_baseEvidenceGraphObjectDigest delta]. by rewrite bool_decide_true by done.
  - done.
  - intros n Hin. apply Hnode. rewrite elem_of_app. by left.
  - intros s Hin. assert (Hdn : dr_nodes deduped = map ds_node (dr_subjects deduped)).
    { revert Ed. unfold dedupeEvidence. destruct (dedupeSubjectsWithMap _) as [[ss rho]|]; [|done]. cbn [rbind]. destruct (remapEdges _ _); [|done]. cbn [rbind]. by intros [= <-]. }
    assert (Hid : en_id (ds_node s) ∈ map en_id nodes).
    { apply (unique_ids en_id). rewrite elem_of_app, Hdn. left. by apply (list_elem_of_fmap_2 ds_node). }
    apply list_elem_of_fmap in Hid as (n & -> & Hnn). destruct (Hnode n) as (n' & ? & Hab); [rewrite elem_of_app; by right|]. exists n'. split; [done | apply Hab].
  - done.
  - intros c ds d n Hcin Eds Hd Hnn Hcap. destruct (Hc c Hcin) as (_ & ds' & ranking & Eds' & Hr & Hrin). rewrite Eds in Eds'. injection Eds' as <-.
    apply Hids. exists ranking. split; [done|]. rewrite (ranking_ids _ _ _ Hr). apply list_elem_of_In, in_concat. eexists. split; [apply in_map, list_elem_of_In, Hd|].
    apply in_map, filter_In. rewrite <- list_elem_of_In. by rewrite Hcap.
  - intros x. cbn [delta ed_unresolvedClaimIds]. rewrite elem_of_sort_by, Hu. split; [by intros [?%not_elem_of_nil|?] | by right].
Qed.
End Retrieved.

(** ** The frontier *)

Section Frontier.
Context {D : Doubles} {HH : Hashing} {UU : Unicode}.

(** Registering actions one after another; the decisions with the digests. *)
Fixpoint register_all (f : RetrievalFrontier) (actions : list RetrievalAction) : result GraphErr (list FrontierDecision * RetrievalFrontier) :=
  match actions with
  | [] => Ok ([], f)
  | a :: rest => let? r := register f a in let? rs := register_all r.2 rest in Ok (r.1 :: rs.1, rs.2)
  end.

(** An action is accepted exactly when no action with its digest was registered before. *)
Lemma frontier_accepts_once f actions ds f' : register_all f actions = Ok (ds, f') -> NoDup (rf_visited f) ->
  NoDup (rf_visited f') /\ forall i a d, actions !! i = Some a -> ds !! i = Some d -> exists digest, actionCanonicalDigest (rf_snapshotId f) a = Ok digest /\
    (d = repeat_action <-> digest ∈ rf_visited f \/ exists j b, (j < i)%nat /\ actions !! j = Some b /\ actionCanonicalDigest (rf_snapshotId f) b = Ok digest).
Proof.
  revert f ds f'. induction actions as [|a actions IH]; intros f ds f'; cbn [register_all]; [intros [= <- <-]; done|]. unfold register.
  destruct (actionCanonicalDigest (rf_snapshotId f) a) as [digest|] eqn:Ed; [|done]. cbn [rbind]. intros H Hn.
  set (f1 := if includes digest (rf_visited f) then f else mkFrontier (rf_snapshotId f) (rf_visited f ++ [digest])).
  set (d1 := if includes digest (rf_visited f) then repeat_action else accepted).
  assert (H1 : (let? rs := register_all f1 actions in Ok (d1 :: rs.1, rs.2)) = Ok (ds, f')) by (subst f1 d1; destruct (includes digest (rf_visited f)); exact H). clear H.
  destruct (register_all f1 actions) as [[ds1 f2]|] eqn:Er; [|done]. cbn [rbind fst snd] in H1. injection H1 as <- <-.
  assert (Hs : rf_snapshotId f1 = rf_snapshotId f) by (subst f1; by destruct (includes _ _)).
  assert (Hv : forall x, x ∈ rf_visited f1 <-> x ∈ rf_visited f \/ x = digest).
  { intros x. subst f1. destruct (includes digest (rf_visited f)) eqn:Ei; cbn; [apply includes_true in Ei; naive_solver|]. by rewrite elem_of_app, list_elem_of_singleton. }
  assert (Hn1 : NoDup (rf_visited f1)).
  { subst f1. destruct (includes digest (rf_visited f)) eqn:Ei; [done|]. apply includes_false in Ei. apply NoDup_app. split_and!; [done | by intros ? ? ->%list_elem_of_singleton | apply NoDup_singleton]. }
  destruct (IH _ _ _ Er Hn1) as [Hn2 Hall]. split; [done|]. intros [|i] b d; cbn.
  - intros [= <-] [= <-]. exists digest. split; [done|]. subst d1. destruct (includes digest (rf_visited f)) eqn:Ei.
    + apply includes_true in Ei. split; [by left | done].
    + apply includes_false in Ei. split; [done|]. intros [?|(j & ? & Hj & _)]; [done | lia].
  - intros Hb Hd. destruct (Hall i b d Hb Hd) as (digest' & E' & Hiff). rewrite Hs in *. exists digest'. split; [done|]. rewrite Hiff, Hv. split.
    + intros [[?| ->]|(j & b' & ? & ? & ?)]; [by left | right; exists 0%nat, a; split_and!; [lia | done | done] | right; exists (S j), b'; split_and!; [lia | done | congruence]].
    + intros [?|([|j] & b' & ? & Hj & Eb)]; [by left; left | cbn in Hj; injection Hj as <-; left; right; congruence|].
      right. exists j, b'. split_and!; [lia | done | congruence].
Qed.
End Frontier.

(** ** A concrete retrieval *)

Module SampleRetrieval.
Import Sample.
(** Doubles by the text of their literal. *)
#[local] Instance literal_doubles : Doubles := {| double := ustr; double_isInteger := fun _ => false; double_toString := fun s => s; double_parse := Double |}.
#[local] Existing Instance weak_hash.
#[local] Instance plain_unicode : Unicode := {| nfc := fun s => s; toUpperCase := fun s => s |}.

Definition row (path : string) : UnitRow :=
  mkRow (mkUnit (match createEvidenceNode snapshot (draft path "row" DETERMINISTIC es_verified) with Ok n => en_id n | Err _ => [] end)
           (u path) (u "function") (u "f") 0 10 1 2 (quote_of path) snapshot (u "text") (u "producer") (u "source")) [] (u "ts") [] 0.
Definition index : IndexDb := mkDb (fun _ => [row "a.ts"; row "b.ts"]) (fun _ _ _ => []) (fun _ => []).
Definition host : EvidenceChannelHost := mkHost snapshot (Some index) (u "2025-01-01T00:00:00.000Z") (Some before)
  [mkProposal (u "p1") (u "risk") (u "may fail") []] false.
Definition claim : ustr := en_id other.
Definition answers : list ChannelAnswer := Eval vm_compute in
  [mkAnswer ch_exact false available (channel_run (fun _ => true) (fun _ => []) host ch_exact false available (Ok [row "a.ts"; row "b.ts"]) [claim]);
   mkAnswer ch_scip false unavailable (channel_run (fun _ => true) (fun _ => []) host ch_scip false unavailable (Ok []) [claim]);
   mkAnswer ch_local_hypothesis false available (local_seed (fun _ => true) (fun _ => true) host false [claim])].
Definition retrieved : result GraphErr RetrieveAndFuseResult := Eval vm_compute in
  retrieveAndFuse (fun _ => true) (fun _ => true) (fun _ => true) host (mkIntent snapshot [claim]) answers.
Definition the_retrieved : RetrieveAndFuseResult := Eval vm_compute in
  match retrieved with Ok r => r | Err _ => mkRetrieved before (mkDelta [] [] [] []) [] [] end.

Lemma retrieval_coherent_witness : length (rr_fusion the_retrieved) = 3%nat /\ length (eg_nodes (rr_graph the_retrieved)) = 4%nat /\
  applyEvidenceDelta (fun _ => true) (fun _ => true) before (rr_delta the_retrieved) = Ok (rr_graph the_retrieved) /\ claim ∈ ed_unresolvedClaimIds (rr_delta the_retrieved).
Proof.
  assert (Hb : sound_graph (fun _ => true) (hostGraph host)) by (apply assert_sound; vm_compute; reflexivity).
  assert (Hr : retrieveAndFuse (fun _ => true) (fun _ => true) (fun _ => true) host (mkIntent snapshot [claim]) answers = Ok the_retrieved) by (vm_compute; reflexivity).
  destruct (retrieval_coherent (fun _ => true) (fun _ => true) (fun _ => true) host (mkIntent snapshot [claim]) answers the_retrieved Hb Hr) as (H1 & _ & _ & _ & _ & _ & _).
  split; [reflexivity|]. split; [reflexivity|]. split; [exact H1|]. apply (bool_decide_unpack _). vm_compute. exact I.
Defined.
End SampleRetrieval.
