(* ===== verification/Instructions.v ===== *)
(** Instruction files (packages/instructions/src/context-discovery.ts and scope-trie.ts): the front matter
    parser, the discovery of one instruction file per directory of a snapshot, the chain of files that
    applies to a path, and the capabilities the chain allows and denies.

    UTF-8 decoding of bytes, base64url and the compiled schemas are parameters.  The parser works on the
    list of the lines that are left where the code keeps an index into all lines. *)

From Stdlib Require Import String.
From S2P Require Import Prelude Ids JsText CanonicalJson JsJson Digest RelativePath EvidenceGraph Dedupe.
Open Scope string_scope.
Open Scope list_scope.

(** ** Front matter *)

(** A number keeps its digits.  A map has its own members; assigning the name [__proto__] sets the
    prototype when the value is an object, and nothing otherwise. *)
Inductive YamlValue : Set :=
| YStr (s : ustr)
| YBool (b : bool)
| YNum (digits : ustr)
| YList (items : list YamlValue)
| YMap (proto : option YamlValue) (own : list (ustr * YamlValue)).

Inductive YamlErr : Set := YAML_TRAILING | YAML_NOT_MAPPING | YAML_INDENT | YAML_LINE | YAML_FUEL.

Definition SPACE : N := 32.
Definition is_line_end (c : N) : bool := existsb (N.eqb c) [10; 13; 8232; 8233]%N.

Fixpoint leadingSpaces (line : ustr) : nat := match line with c :: r => if (c =? SPACE)%N then S (leadingSpaces r) else 0 | [] => 0 end.

Definition blank_line (line : ustr) : bool := match trim line with [] => true | _ => false end.
Definition comment_line (line : ustr) : bool := startsWith (u "#") (trimStart line).

Definition isListLine (line : ustr) (indent : nat) : bool := (leadingSpaces line =? indent)%nat && startsWith (u "- ") (drop indent line).

Fixpoint peekSignificant (lines : list ustr) : option ustr :=
  match lines with
  | [] => None
  | line :: rest => if negb (blank_line line) && negb (comment_line line) then Some line else peekSignificant rest
  end.

Definition is_key_unit (c : N) : bool :=
  ((65 <=? c) && (c <=? 90) || (97 <=? c) && (c <=? 122) || is_digit c || (c =? 95) || (c =? 45))%N.

(** A line [key: rest]: the key of letters, digits, [_] and [-], and the rest trimmed; the rest has no
    line end after its leading white space. *)
Definition key_line (s : ustr) : option (ustr * ustr) :=
  let key := take_while is_key_unit s in
  match key, drop (length key) s with
  | _ :: _, c :: rest => if (c =? COLON)%N && negb (existsb is_line_end (trimStart rest)) then Some (key, trim rest) else None
  | _, _ => None
  end.

Definition all_digits (s : ustr) : bool := match s with [] => false | _ => forallb is_digit s end.
Definition is_integer_text (s : ustr) : bool := match s with c :: r => if (c =? 45)%N then all_digits r else all_digits s | [] => false end.

(** Begins and ends with the unit. *)
Definition quoted_by (q : N) (s : ustr) : bool := startsWith [q] s && endsWith [q] s.

Definition parseScalar (raw : ustr) : YamlValue :=
  if bool_decide (raw = u "true") then YBool true
  else if bool_decide (raw = u "false") then YBool false
  else if bool_decide (raw = u "null") || bool_decide (raw = u "~") then YStr []
  else if is_integer_text raw then YNum raw
  else if quoted_by 34 raw || quoted_by 39 raw then YStr (drop 1 (take (length raw - 1) raw))
  else YStr raw.

(** [result[key] = value] *)
Definition yaml_assign (key : ustr) (v : YamlValue) (m : option YamlValue * list (ustr * YamlValue)) : option YamlValue * list (ustr * YamlValue) :=
  if bool_decide (key = PROTO) then match v with YMap _ _ | YList _ => (Some v, m.2) | _ => m end
  else (m.1, JsMap.set key v m.2).

Definition spaces (n : nat) : ustr := replicate n SPACE.

(** The value and the lines that are left; the fuel bounds the calls and the turns of the loops. *)
Fixpoint parseYamlValue (fuel : nat) (lines : list ustr) (indent : nat) : result YamlErr (YamlValue * list ustr) :=
  match fuel with
  | O => Err YAML_FUEL
  | S fuel =>
      match lines with
      | [] => Ok (YMap None [], [])
      | line :: _ => if isListLine line indent then parseYamlList fuel lines indent [] else parseYamlMapping fuel lines indent (None, [])
      end
  end
with parseYamlMapping (fuel : nat) (lines : list ustr) (indent : nat) (m : option YamlValue * list (ustr * YamlValue)) : result YamlErr (YamlValue * list ustr) :=
  match fuel with
  | O => Err YAML_FUEL
  | S fuel =>
      match lines with
      | [] => Ok (YMap m.1 m.2, [])
      | line :: rest =>
          if blank_line line || comment_line line then parseYamlMapping fuel rest indent m
          else if (leadingSpaces line <? indent)%nat then Ok (YMap m.1 m.2, lines)
          else if (indent <? leadingSpaces line)%nat then Err YAML_INDENT
          else match key_line (drop indent line) with
               | None => Err YAML_LINE
               | Some (key, []) =>
                   match peekSignificant rest with
                   | Some next =>
                       if (indent <? leadingSpaces next)%nat then
                         let? nested := parseYamlValue fuel rest (leadingSpaces next) in
                         parseYamlMapping fuel nested.2 indent (yaml_assign key nested.1 m)
                       else parseYamlMapping fuel rest indent (yaml_assign key (YStr []) m)
                   | None => parseYamlMapping fuel rest indent (yaml_assign key (YStr []) m)
                   end
               | Some (key, remainder) => parseYamlMapping fuel rest indent (yaml_assign key (parseScalar remainder) m)
               end
      end
  end
with parseYamlList (fuel : nat) (lines : list ustr) (indent : nat) (items : list YamlValue) : result YamlErr (YamlValue * list ustr) :=
  match fuel with
  | O => Err YAML_FUEL
  | S fuel =>
      match lines with
      | [] => Ok (YList items, [])
      | line :: rest =>
          if blank_line line then parseYamlList fuel rest indent items
          else if (leadingSpaces line <? indent)%nat || negb (isListLine line indent) then Ok (YList items, lines)
          else match trim (drop (indent + 1) line) with
               | [] =>
                   match peekSignificant rest with
                   | Some next =>
                       if (indent <? leadingSpaces next)%nat then
                         let? nested := parseYamlValue fuel rest (leadingSpaces next) in
                         parseYamlList fuel nested.2 indent (items ++ [nested.1])
                       else parseYamlList fuel rest indent (items ++ [YStr []])
                   | None => parseYamlList fuel rest indent (items ++ [YStr []])
                   end
               | remainder =>
                   if existsb (N.eqb COLON) remainder && negb (startsWith [39%N] remainder) && negb (startsWith [34%N] remainder) then
                     let? nested := parseYamlMapping fuel ((spaces (indent + 2) ++ remainder) :: rest) (indent + 2) (None, []) in
                     parseYamlList fuel rest indent (items ++ [nested.1])
                   else parseYamlList fuel rest indent (items ++ [parseScalar remainder])
               end
      end
  end.

Definition yaml_fuel (lines : list ustr) : nat := 3 * length lines + 3.

Definition parseYamlMap (block : ustr) : result YamlErr YamlValue :=
  let lines := split_unit LF block in
  let? r := parseYamlValue (yaml_fuel lines) lines 0 in
  throw_if existsb (fun line => negb (blank_line line)) r.2 with YAML_TRAILING;
  match r.1 with YMap _ _ => Ok r.1 | _ => Err YAML_NOT_MAPPING end.

(** The index of the first [\n---] before a line feed or the end. *)
Fixpoint close_at (s : ustr) : option nat :=
  match s with
  | [] => None
  | c :: r =>
      if startsWith (LF :: u "---") s && match drop 4 s with [] => true | d :: _ => (d =? LF)%N end then Some O
      else match close_at r with Some n => Some (S n) | None => None end
  end.

(** [/!!|&[A-Za-z0-9_]|^\s*\*/m] *)
Fixpoint tag_or_alias (line_start : bool) (s : ustr) : bool :=
  (line_start && startsWith (u "*") (trimStart s)) ||
  match s with
  | [] => false
  | c :: r => startsWith (u "!!") s
              || ((c =? 38)%N && match r with d :: _ => is_key_unit d && negb (d =? 45)%N | [] => false end)
              || tag_or_alias (is_line_end c) r
  end.

Inductive FrontmatterResult : Set :=
| no_frontmatter (body : ustr)
| frontmatter (fields : YamlValue) (body : ustr)
| frontmatter_error.

Definition parseYamlFrontmatter (text : ustr) : FrontmatterResult :=
  let stripped := match text with c :: r => if (c =? 65279)%N then r else text | [] => text end in
  let normalized := replaceAll [13; 10]%N [10]%N stripped in
  if negb (startsWith (u "---" ++ [LF]) normalized) && negb (bool_decide (normalized = u "---")) && negb (startsWith (u "---" ++ [13%N]) normalized)
  then no_frontmatter text
  else
    let rest := if startsWith (u "---" ++ [LF]) normalized then drop 4 normalized else drop 3 normalized in
    match close_at rest with
    | None => frontmatter_error
    | Some close =>
        let yamlBlock := take close rest in
        if tag_or_alias true yamlBlock || match indexOf (u "<<:") yamlBlock with Some _ => true | None => false end then frontmatter_error
        else match parseYamlMap yamlBlock with
             | Ok fields => frontmatter fields (drop (close + 5) rest)
             | Err _ => frontmatter_error
             end
    end.

(** [fields.name], through the prototypes *)
Fixpoint yaml_member (name : ustr) (v : YamlValue) : option YamlValue :=
  match v with
  | YMap proto own => match JsMap.get name own with Some x => Some x | None => match proto with Some p => yaml_member name p | None => None end end
  | _ => None
  end.

Definition yamlStringList (v : option YamlValue) : list ustr :=
  match v with
  | Some (YStr s) => [s]
  | Some (YList items) => concat (map (fun i => match i with YStr s => [s] | _ => [] end) items)
  | _ => []
  end.

(** The own members of a map. *)
Definition yamlMap (v : option YamlValue) : list (ustr * YamlValue) := match v with Some (YMap _ own) => own | _ => [] end.

(** ** Paths *)

Definition posixDirname (path : ustr) : ustr := match lastIndexOf SLASH path with Some (S i) => take (S i) path | _ => u "." end.
Definition posixBasename (path : ustr) : ustr := match lastIndexOf SLASH path with Some i => drop (S i) path | None => path end.

Definition is_dot (path : ustr) : bool := bool_decide (path = u ".") || bool_decide (path = []).

Definition posixJoin (left right : ustr) : ustr := if is_dot left then right else if is_dot right then left else left ++ [SLASH] ++ right.

Definition isPathInsideRoot (root candidate : ustr) : bool :=
  if is_dot root then negb (includes (u "..") (split_unit SLASH candidate))
  else bool_decide (candidate = root) || startsWith (root ++ [SLASH]) candidate.

Definition ancestorScopes (path : ustr) : list ustr :=
  if is_dot path then [u "."] else
  let segments := split_unit SLASH path in
  u "." :: map (fun i => join_unit SLASH (take (S i) segments)) (seq 0 (length segments)).

Definition pathHasBlockedAncestor (path : ustr) (blocked : list ustr) : bool :=
  existsb (fun scope => negb (bool_decide (scope = u ".")) && includes scope blocked) (ancestorScopes path) || includes path blocked.

Definition isSafeSnapshotPath (path : ustr) : bool :=
  match path with
  | [] => false
  | _ => negb (existsb (N.eqb 92) path) && negb (existsb (N.eqb 0) path) && negb (startsWith [SLASH] path) &&
         forallb (fun s => match s with [] => false | _ => true end && negb (bool_decide (s = u ".")) && negb (bool_decide (s = u ".."))) (split_unit SLASH path)
  end.

(** ** Discovery *)

Definition CONTEXT_FILE_CANDIDATES : list ustr := map u ["AGENTS.override.md"; "AGENTS.md"; "AGENTS.MD"; "CLAUDE.md"; "CLAUDE.MD"].

Inductive TrustLabel : Set := platform | user | trusted_project | untrusted_data.
#[export] Instance TrustLabel_eq_dec : EqDecision TrustLabel.
Proof. solve_decision. Defined.
Definition trust_text (t : TrustLabel) : ustr :=
  u match t with platform => "platform" | user => "user" | trusted_project => "trusted-project" | untrusted_data => "untrusted-data" end.

Inductive SnapshotNode : Set :=
| sn_file (path : ustr) (bs : bytes)
| sn_directory (path : ustr)
| sn_symlink (path target : ustr)
| sn_submodule (path : ustr).

(** A platform source ([es_platform]) or one of the user. *)
Record ExternalInstructionSource := mkExternal {
  xs_platform : bool;
  xs_pathLabel : ustr;
  xs_bytes : bytes;
  xs_artifactObjectDigest : option ustr
}.
Definition xs_trust (x : ExternalInstructionSource) : TrustLabel := if xs_platform x then platform else user.

Record WorktreeShadow := mkShadow { wsh_worktreeRoot : ustr; wsh_filename : ustr; wsh_shadowedPath : ustr }.

Record DiscoveredContextFile := mkContextFile {
  cf_id : ustr;
  cf_scope : ustr;
  cf_filename : ustr;
  cf_path : ustr;
  cf_body : ustr;
  cf_bytes : bytes;
  cf_contentDigest : ustr;
  cf_trust : TrustLabel;
  cf_sourceRef : EvidenceSource;
  cf_precedence : nat
}.

Record ContextDiscoveryInput := mkDiscovery {
  ci_snapshotId : ustr;
  ci_nodes : list SnapshotNode;
  ci_projectTrusted : bool;
  ci_globalSources : list ExternalInstructionSource;
  ci_changesetTouched : list ustr
}.

(** Of a collision, the paths. *)
Record ContextDiscoveryResult := mkDiscovered {
  cd_files : list DiscoveredContextFile;
  cd_collisions : list (list ustr);
  cd_worktreeShadows : list WorktreeShadow
}.

Definition file_path (n : SnapshotNode) : option ustr := match n with sn_file path _ => Some path | _ => None end.

Definition compareScope_leb (left right : ustr) : bool :=
  if bool_decide (left = right) then true
  else if bool_decide (left = u ".") then true
  else if bool_decide (right = u ".") then false
  else let dl := length (split_unit SLASH left) in
       let dr := length (split_unit SLASH right) in
       if negb (dl =? dr)%nat then (dl <? dr)%nat else utf16_leb left right.

Section Discovery.
Context {D : Doubles} {HH : Hashing} {UU : Unicode}.
Variables (toString_utf8 : bytes -> ustr) (base64url : bytes -> ustr) (descriptor_schema : DiscoveredContextFile -> bool).

Definition quoteDigestForBytes (bs : bytes) : result GraphErr ustr :=
  graph_digest (taggedHash "quote" 1 (VObj [(u "bytesBase64url", VStr (base64url bs))])).

Definition repository_ref (snapshotId path : ustr) (bs : bytes) : result GraphErr EvidenceSource :=
  let? quote := quoteDigestForBytes bs in
  Ok (repository_source (u "project-instruction") snapshotId (objectDigestFromBytes bs) path whole quote).

Definition artifact_ref (bs : bytes) (digest : option ustr) (sourceKind : ustr) : result GraphErr EvidenceSource :=
  let? quote := quoteDigestForBytes bs in
  Ok (artifact_source sourceKind (default (objectDigestFromBytes bs) digest) whole quote).

Definition instructionId (raw : ustr) : ustr :=
  let normalized := nfc raw in
  if (utf8ByteLength normalized <=? 256)%nat then normalized else u "instr-" ++ take 16 (drop 7 (sha256Hex (utf8_encode normalized))).

Definition blockedPrefixes (nodes : list SnapshotNode) : list ustr :=
  fold_left (fun acc n => match n with
                          | sn_symlink path _ | sn_submodule path => if isSafeSnapshotPath path then setAdd acc (nfc path) else acc
                          | _ => acc
                          end) nodes [].

(** The raw paths of the instruction files by the normal form of their path. *)
Definition identity_groups (blocked : list ustr) (nodes : list SnapshotNode) : list (ustr * list ustr) :=
  fold_left (fun groups n =>
    match n with
    | sn_file path _ =>
        if negb (isSafeSnapshotPath path) || pathHasBlockedAncestor (nfc path) blocked then groups
        else if negb (includes (posixBasename (nfc path)) CONTEXT_FILE_CANDIDATES) then groups
        else JsMap.set (nfc path) (default [] (JsMap.get (nfc path) groups) ++ [path]) groups
    | _ => groups
    end) nodes [].

Definition paths_collide (paths : list ustr) : bool := (1 <? length (uniq paths))%nat.

Fixpoint file_at (raw : ustr) (nodes : list SnapshotNode) : option bytes :=
  match nodes with
  | [] => None
  | sn_file path bs :: rest => if bool_decide (path = raw) then Some bs else file_at raw rest
  | _ :: rest => file_at raw rest
  end.

Definition DirFiles : Type := list (ustr * (ustr * bytes)).

Definition add_dir_file (nodes : list SnapshotNode) (exclude : list ustr) (byDir : list (ustr * DirFiles)) (group : ustr * list ustr) : list (ustr * DirFiles) :=
  let '(identity, paths) := group in
  if paths_collide paths || includes identity exclude then byDir else
  match paths with
  | [] => byDir
  | raw :: _ =>
      if includes raw exclude then byDir else
      match file_at raw nodes with
      | None => byDir
      | Some bs =>
          let dirFiles := default [] (JsMap.get (posixDirname identity) byDir) in
          let dirFiles := if JsMap.has (posixBasename identity) dirFiles then dirFiles else JsMap.set (posixBasename identity) (identity, bs) dirFiles in
          JsMap.set (posixDirname identity) dirFiles byDir
      end
  end.

Definition first_named (files : DirFiles) (names : list ustr) : option (ustr * bytes) :=
  fold_left (fun hit name => match hit with Some h => Some h | None => JsMap.get name files end) names None.
Definition selectCandidate (files : DirFiles) : option (ustr * bytes) := first_named files CONTEXT_FILE_CANDIDATES.

(** [toDiscovered]: the path of a file that is not in the repository is its id. *)
Definition toDiscovered (id scope filename path : ustr) (bs : bytes) (trust : TrustLabel) (sourceRef : EvidenceSource) (precedence : nat) (repository : bool)
    : option DiscoveredContextFile :=
  let file := mkContextFile id scope filename (if repository then path else id) (toString_utf8 bs) bs (sha256Hex bs) trust sourceRef precedence in
  if descriptor_schema file then Some file else None.

(** The files selected so far and the collisions. *)
Definition Selected : Type := list DiscoveredContextFile * list (list ustr).

(** [commitDiscovered], and the push that follows; the precedence is the number of files selected. *)
Definition commit_file (sel : Selected) (id scope filename path : ustr) (bs : bytes) (trust : TrustLabel) (sourceRef : EvidenceSource) (repository : bool) : Selected :=
  match toDiscovered id scope filename path bs trust sourceRef (length sel.1) repository with
  | Some file => (sel.1 ++ [file], sel.2)
  | None => (sel.1, sel.2 ++ [[path]])
  end.

Definition select_global (sel : Selected) (x : ExternalInstructionSource) : result GraphErr Selected :=
  let filename := posixBasename (xs_pathLabel x) in
  if negb (includes filename CONTEXT_FILE_CANDIDATES) then Ok sel else
  let? ref := artifact_ref (xs_bytes x) (xs_artifactObjectDigest x) (if xs_platform x then u "platform-policy" else u "user-task") in
  Ok (commit_file sel (instructionId (u "global:" ++ trust_text (xs_trust x) ++ u ":" ++ filename)) (u ".") filename
        (u "global/" ++ trust_text (xs_trust x) ++ u "/" ++ filename) (xs_bytes x) (xs_trust x) ref false).

Definition select_directory (i : ContextDiscoveryInput) (byDir : list (ustr * DirFiles)) (sel : Selected) (directory : ustr) : result GraphErr Selected :=
  match JsMap.get directory byDir with
  | None => Ok sel
  | Some files =>
      match selectCandidate files with
      | None => Ok sel
      | Some (path, bs) =>
          let? ref := repository_ref (ci_snapshotId i) path bs in
          Ok (commit_file sel (instructionId path) directory (posixBasename path) path bs
                (if ci_projectTrusted i then trusted_project else untrusted_data) ref true)
      end
  end.

Definition findWorktreeShadows (nodes : list SnapshotNode) (files : list DiscoveredContextFile) : list WorktreeShadow :=
  concat (map (fun n =>
    match n with
    | sn_file path _ =>
        if bool_decide (posixBasename path = u ".git") && negb (bool_decide (posixDirname path = u ".")) then
          match List.find (fun f => bool_decide (cf_scope f = posixDirname path)) files with
          | Some f => [mkShadow (posixDirname path) (cf_filename f) (cf_filename f)]
          | None => []
          end
        else []
    | _ => []
    end) nodes).

Definition discoverContextFiles (i : ContextDiscoveryInput) : result GraphErr ContextDiscoveryResult :=
  let exclude := uniq (map nfc (ci_changesetTouched i)) in
  let groups := identity_groups (blockedPrefixes (ci_nodes i)) (ci_nodes i) in
  let collisions := concat (map (fun g => if paths_collide g.2 then [sort_by utf16_leb (uniq g.2)] else []) groups) in
  let byDir := fold_left (add_dir_file (ci_nodes i) exclude) groups [] in
  let? sel := rfold select_global ([], collisions) (ci_globalSources i) in
  let? sel := rfold (select_directory i byDir) sel (sort_by compareScope_leb (JsMap.keys byDir)) in
  Ok (mkDiscovered sel.1 sel.2 (findWorktreeShadows (ci_nodes i) sel.1)).

(** ** The scope trie *)

Record ScopeTrie := mkTrie {
  st_snapshotId : ustr;
  st_filesByScope : list (ustr * DiscoveredContextFile);
  st_ordered : list DiscoveredContextFile;
  st_worktreeShadows : list WorktreeShadow
}.

Definition buildScopeTrie (d : ContextDiscoveryResult) (snapshotId : ustr) : ScopeTrie :=
  mkTrie snapshotId (map_by_id cf_scope (cd_files d)) (cd_files d) (cd_worktreeShadows d).

Definition scopeApplies (scope touchedPath : ustr) : bool :=
  if bool_decide (scope = u ".") then true else
  let directory := if existsb (N.eqb SLASH) touchedPath then posixDirname touchedPath else u "." in
  includes scope (ancestorScopes directory) || includes scope (ancestorScopes touchedPath).

Definition shadow_match (touchedPath : ustr) (m : option WorktreeShadow) (s : WorktreeShadow) : option WorktreeShadow :=
  if bool_decide (touchedPath = wsh_worktreeRoot s) || startsWith (wsh_worktreeRoot s ++ [SLASH]) touchedPath then
    match m with
    | None => Some s
    | Some best => if (length (wsh_worktreeRoot best) <? length (wsh_worktreeRoot s))%nat then Some s else m
    end
  else m.
Definition shadowedPathsFor (t : ScopeTrie) (touchedPath : ustr) : list ustr :=
  match fold_left (shadow_match touchedPath) (st_worktreeShadows t) None with Some s => [wsh_shadowedPath s] | None => [] end.

Definition from_artifact (s : EvidenceSource) : bool := match s with artifact_source _ _ _ _ => true | _ => false end.

(** The descriptor of every file was checked when it was discovered; [toEffective] checks it again. *)
Definition toEffective (f : DiscoveredContextFile) : result GraphErr DiscoveredContextFile := throw_if negb (descriptor_schema f) with GRAPH_SCHEMA; Ok f.

Definition in_chain (t : ScopeTrie) (touchedPath : ustr) (f : DiscoveredContextFile) : bool :=
  if startsWith (u "global:") (cf_path f) || from_artifact (cf_sourceRef f) then true
  else if includes (cf_path f) (shadowedPathsFor t touchedPath) then false
  else scopeApplies (cf_scope f) touchedPath.

Definition effectiveChainForPath (t : ScopeTrie) (touchedPath : ustr) : result GraphErr (list DiscoveredContextFile) :=
  rmap toEffective (List.filter (in_chain t touchedPath) (st_ordered t)).

Inductive CoverageResult : Set := covered | missing_instructions (ids : list ustr).

Definition checkCompiledContextCoverage (t : ScopeTrie) (touchedPaths compiledInstructionIds : list ustr) : result GraphErr CoverageResult :=
  let? chains := rmap (effectiveChainForPath t) touchedPaths in
  match uniq (List.filter (fun id => negb (includes id compiledInstructionIds)) (map cf_id (concat chains))) with
  | [] => Ok covered
  | missing => Ok (missing_instructions (sort_by utf16_leb missing))
  end.

(** ** Capabilities *)

Inductive Capability : Set := hostShell | secretEgress | network | promotion | signing | deployment.
#[export] Instance Capability_eq_dec : EqDecision Capability.
Proof. solve_decision. Defined.

Definition CapabilityPolicy : Type := Capability -> bool.
Definition EMPTY_POLICY : CapabilityPolicy := fun _ => false.
Definition set_capability (p : CapabilityPolicy) (k : Capability) (v : bool) : CapabilityPolicy := fun k' => if decide (k' = k) then v else p k'.

Definition capabilityKey (raw : ustr) : option Capability :=
  let key := replaceAll [95%N] [45%N] (toLowerCase (trim raw)) in
  if bool_decide (key = u "host-shell") || bool_decide (key = u "hostshell") then Some hostShell
  else if bool_decide (key = u "secret-egress") || bool_decide (key = u "secretegress") then Some secretEgress
  else if bool_decide (key = u "network") then Some network
  else if bool_decide (key = u "promotion") then Some promotion
  else if bool_decide (key = u "signing") then Some signing
  else if bool_decide (key = u "deployment") then Some deployment
  else None.

Definition may_allow (t : TrustLabel) : bool := bool_decide (t = platform) || bool_decide (t = user).

Definition apply_capability (trust : TrustLabel) (allow : bool) (p : CapabilityPolicy) (field : ustr * YamlValue) : CapabilityPolicy :=
  match capabilityKey field.1, field.2 with
  | Some k, YBool true => if negb allow then set_capability p k false else if may_allow trust then set_capability p k true else p
  | _, _ => p
  end.
Definition applyCapabilityMap (p : CapabilityPolicy) (fields : list (ustr * YamlValue)) (trust : TrustLabel) (allow : bool) : CapabilityPolicy :=
  fold_left (apply_capability trust allow) fields p.

Definition apply_instruction (p : CapabilityPolicy) (f : DiscoveredContextFile) : CapabilityPolicy :=
  match parseYamlFrontmatter (cf_body f) with
  | frontmatter fields _ =>
      let p := applyCapabilityMap p (yamlMap (yaml_member (u "allow") fields)) (cf_trust f) true in
      applyCapabilityMap p (yamlMap (yaml_member (u "deny") fields)) (cf_trust f) false
  | _ => p
  end.
Definition resolveCapabilityPolicy (chain : list DiscoveredContextFile) : CapabilityPolicy := fold_left apply_instruction chain EMPTY_POLICY.

Definition trusted (t : TrustLabel) : bool := bool_decide (t = platform) || bool_decide (t = user) || bool_decide (t = trusted_project).

Definition mandatory_of (f : DiscoveredContextFile) : list ustr :=
  if negb (trusted (cf_trust f)) then [] else
  match parseYamlFrontmatter (cf_body f) with
  | frontmatter fields _ => yamlStringList (yaml_member (u "mandatory-skills") fields) ++ yamlStringList (yaml_member (u "mandatorySkills") fields)
  | _ => []
  end.
Definition mandatorySkillIdsFromInstructions (chain : list DiscoveredContextFile) : list ustr := uniq (concat (map mandatory_of chain)).
End Discovery.
