(* ===== verification/InstructionTheorems.v ===== *)
(** A repository can only take capabilities away: a capability is granted only by an instruction file of
    the platform or of the user, and any applicable file of the project that denies it wins.  Parsing
    front matter terminates. *)

From Stdlib Require Import String.
From S2P Require Import Prelude Ids JsText CanonicalJson JsJson Digest RelativePath EvidenceGraph Dedupe Instructions.
Open Scope string_scope.
Open Scope list_scope.

(** ** The parser terminates *)

Definition parses_within {A} (n : nat) (r : result YamlErr (A * list ustr)) : Prop :=
  match r with Ok (_, rest) => length rest <= n | Err e => e <> YAML_FUEL end.

Lemma within_bind {A B} n (r : result YamlErr (A * list ustr)) (f : A * list ustr -> result YamlErr (B * list ustr)) :
  parses_within n r -> (forall a rest, length rest <= n -> parses_within n (f (a, rest))) -> parses_within n (rbind r f).
Proof. destruct r as [[a rest]|e]; cbn; auto. Qed.

Lemma within_mono {A} n m (r : result YamlErr (A * list ustr)) : parses_within n r -> n <= m -> parses_within m r.
Proof. destruct r as [[a rest]|e]; cbn; [lia | done]. Qed.

Lemma yaml_terminates fuel :
  (forall lines indent, 3 * length lines + 3 <= fuel -> parses_within (length lines) (parseYamlValue fuel lines indent)) /\
  (forall lines indent m, 3 * length lines + 1 <= fuel -> parses_within (length lines) (parseYamlMapping fuel lines indent m)) /\
  (forall lines indent items, 3 * length lines + 2 <= fuel -> parses_within (length lines) (parseYamlList fuel lines indent items)).
Proof.
  induction fuel as [|fuel (IHv & IHm & IHl)]; [split_and!; intros; lia|]. split_and!.
  - intros lines indent Hf. cbn [parseYamlValue]. destruct lines as [|line rest]; [cbn; lia|]. destruct (isListLine line indent); [apply IHl | apply IHm]; cbn [length] in *; lia.
  - intros [|line rest] indent m Hf; cbn [parseYamlMapping length] in *; [cbn; lia|].
    assert (Hm : forall m', parses_within (S (length rest)) (parseYamlMapping fuel rest indent m')) by (intros m'; eapply within_mono; [apply IHm; lia | lia]).
    destruct (blank_line line || comment_line line); [apply Hm|]. destruct (_ <? _)%nat; [cbn; lia|]. destruct (_ <? _)%nat; [done|].
    destruct (key_line (drop indent line)) as [[key [|c remainder]]|]; [|apply Hm | done].
    destruct (peekSignificant rest) as [next|]; [|apply Hm]. destruct (_ <? _)%nat; [|apply Hm].
    eapply within_mono; [apply (within_bind (length rest))|lia]; [apply IHv; lia|]. intros a rest' Hr. eapply within_mono; [apply IHm; cbn; lia | cbn; lia].
  - intros [|line rest] indent items Hf; cbn [parseYamlList length] in *; [cbn; lia|].
    assert (Hl : forall items', parses_within (S (length rest)) (parseYamlList fuel rest indent items')) by (intros items'; eapply within_mono; [apply IHl; lia | lia]).
    destruct (blank_line line); [apply Hl|]. destruct (_ || _); [cbn; lia|]. destruct (trim (drop (indent + 1) line)) as [|c remainder].
    + destruct (peekSignificant rest) as [next|]; [|apply Hl]. destruct (_ <? _)%nat; [|apply Hl].
      eapply within_mono; [apply (within_bind (length rest))|lia]; [apply IHv; lia|]. intros a rest' Hr. eapply within_mono; [apply IHl; cbn; lia | cbn; lia].
    + destruct (_ && _); [|apply Hl]. pose proof (IHm ((spaces (indent + 2) ++ c :: remainder) :: rest) (indent + 2) (None, []) ltac:(cbn [length]; lia)) as Hn.
      destruct (parseYamlMapping fuel (_ :: rest) _ _) as [[v rest']|e]; cbn [rbind]; [apply Hl | exact Hn].
Qed.

(** Front matter is parsed, or refused for what it says. *)
Lemma parseYamlMap_terminates block : parseYamlMap block <> Err YAML_FUEL.
Proof.
  unfold parseYamlMap. set (lines := split_unit LF block). pose proof (proj1 (yaml_terminates (yaml_fuel lines)) lines 0 ltac:(unfold yaml_fuel; lia)) as H.
  destruct (parseYamlValue _ lines 0) as [[v rest]|e]; cbn [rbind fst snd]; [|intros [= ->]; by apply H]. destruct (existsb _ rest); [done|]. by destruct v.
Qed.

(** ** What an instruction says of a capability *)

Definition names_capability (k : Capability) (fields : list (ustr * YamlValue)) : bool :=
  existsb (fun kv => match capabilityKey kv.1, kv.2 with Some k', YBool true => bool_decide (k' = k) | _, _ => false end) fields.

Definition says (member : string) (body : ustr) (k : Capability) : bool :=
  match parseYamlFrontmatter body with frontmatter fields _ => names_capability k (yamlMap (yaml_member (u member) fields)) | _ => false end.

Definition grants (f : DiscoveredContextFile) (k : Capability) : bool := may_allow (cf_trust f) && says "allow" (cf_body f) k.
Definition denies (f : DiscoveredContextFile) (k : Capability) : bool := says "deny" (cf_body f) k.

Lemma applyCapabilityMap_spec trust allow k fields : forall p,
  applyCapabilityMap p fields trust allow k =
  if names_capability k fields then (if allow then may_allow trust || p k else false) else p k.
Proof.
  unfold applyCapabilityMap. induction fields as [|[key v] fields IH]; intros p; cbn [fold_left names_capability existsb fst snd]; [done|]. rewrite IH. fold (names_capability k fields).
  unfold apply_capability. cbn [fst snd]. destruct (capabilityKey key) as [k'|]; [|done]. destruct v as [|[]| | |]; try done. unfold set_capability.
  destruct (bool_decide_reflect (k' = k)) as [->|Hne]; cbn [orb].
  - destruct allow, (may_allow trust), (names_capability k fields); cbn [negb orb]; rewrite ?decide_True by done; done.
  - destruct allow, (may_allow trust), (names_capability k fields); cbn [negb orb]; rewrite ?decide_False by done; done.
Qed.

Lemma apply_instruction_spec p f k : apply_instruction p f k = if denies f k then false else grants f k || p k.
Proof.
  unfold apply_instruction, denies, grants, says. destruct (parseYamlFrontmatter (cf_body f)) as [|fields body|]; [by rewrite andb_false_r| |by rewrite andb_false_r].
  rewrite !applyCapabilityMap_spec. destruct (names_capability k (yamlMap (yaml_member (u "deny") fields))); [done|].
  destruct (names_capability k (yamlMap (yaml_member (u "allow") fields))), (may_allow (cf_trust f)); done.
Qed.

(** A capability is granted when some file grants it and neither it nor a later one denies it. *)
Lemma policy_exact chain k : resolveCapabilityPolicy chain k = true <->
  exists pre f post, chain = pre ++ f :: post /\ grants f k = true /\ forall g, g ∈ f :: post -> denies g k = false.
Proof.
  unfold resolveCapabilityPolicy. induction chain as [|f chain IH] using rev_ind.
  - split; [done|]. intros (pre & f & post & E & _). by destruct pre.
  - rewrite fold_left_app. cbn [fold_left]. rewrite apply_instruction_spec. split.
    + destruct (denies f k) eqn:Ed; [done|]. intros [Hg|Hp]%orb_true_iff.
      * exists chain, f, []. split_and!; [done | done|]. by intros g ->%list_elem_of_singleton.
      * apply IH in Hp as (pre & g & post & -> & Hg & Hall). exists pre, g, (post ++ [f]). split_and!; [by rewrite <- app_assoc | done|].
        intros h. rewrite app_comm_cons, elem_of_app, list_elem_of_singleton. intros [?| ->]; [by apply Hall | done].
    + intros (pre & g & post & E & Hg & Hall). destruct post as [|h post _] using rev_ind.
      * apply app_inj_tail in E as [-> ->]. rewrite (Hall g) by left. by rewrite Hg.
      * rewrite app_comm_cons, app_assoc in E. apply app_inj_tail in E as [-> ->]. rewrite (Hall h) by (right; apply elem_of_app; right; left).
        apply orb_true_iff. right. apply IH. exists pre, g, post. split_and!; [done | done|]. intros x Hx. apply Hall. rewrite app_comm_cons, elem_of_app. by left.
Qed.

(** ** Discovery *)

Section Discovery.
Context {D : Doubles} {HH : Hashing} {UU : Unicode}.
Variables (toString_utf8 : bytes -> ustr) (base64url : bytes -> ustr) (descriptor_schema : DiscoveredContextFile -> bool).

(** What a group of raw paths with one normal form is. *)
Definition good_group (blocked : list ustr) (nodes : list SnapshotNode) (g : ustr * list ustr) : Prop :=
  pathHasBlockedAncestor g.1 blocked = false /\ forall raw, raw ∈ g.2 -> nfc raw = g.1 /\ isSafeSnapshotPath raw = true /\ exists bs, sn_file raw bs ∈ nodes.

Lemma set_keeps {V} (P : ustr * V -> Prop) k v m : Forall P m -> P (k, v) -> Forall P (JsMap.set k v m).
Proof.
  intros Hm Hk. induction m as [|[k' v'] m IH]; cbn; [by constructor|]. apply Forall_cons in Hm as [H' Hm]. case_decide as E; [subst; by constructor | constructor; auto].
Qed.

Lemma groups_good blocked nodes : Forall (good_group blocked nodes) (identity_groups blocked nodes).
Proof.
  unfold identity_groups. assert (H : forall ns m, (forall n, n ∈ ns -> n ∈ nodes) -> Forall (good_group blocked nodes) m -> Forall (good_group blocked nodes) (fold_left (fun groups n =>
    match n with
    | sn_file path _ =>
        if negb (isSafeSnapshotPath path) || pathHasBlockedAncestor (nfc path) blocked then groups
        else if negb (includes (posixBasename (nfc path)) CONTEXT_FILE_CANDIDATES) then groups
        else JsMap.set (nfc path) (default [] (JsMap.get (nfc path) groups) ++ [path]) groups
    | _ => groups
    end) ns m)); [|by apply H].
  induction ns as [|n ns IH]; intros m Hin Hm; cbn [fold_left]; [done|]. apply IH; [intros x Hx; apply Hin; by right|]. destruct n as [path bs| | |]; try done.
  destruct (isSafeSnapshotPath path) eqn:Es; [|done]. cbn [negb orb]. destruct (pathHasBlockedAncestor (nfc path) blocked) eqn:Eb; [done|]. destruct (negb (includes _ _)); [done|].
  apply set_keeps; [done|]. split; [done|]. cbn [fst snd]. intros raw. rewrite elem_of_app, list_elem_of_singleton. intros [Hraw| ->].
  - destruct (JsMap.get (nfc path) m) as [paths|] eqn:Eg; [|by apply not_elem_of_nil in Hraw]. apply JsMap.get_some_elem in Eg. rewrite Forall_forall in Hm. apply (proj2 (Hm _ Eg)). done.
  - split_and!; [done | done|]. exists bs. apply Hin. left.
Qed.

Lemma file_at_some raw nodes bs : file_at raw nodes = Some bs -> sn_file raw bs ∈ nodes.
Proof.
  induction nodes as [|n nodes IH]; cbn; [done|]. destruct n as [path bs'| | |]; try (intros H; right; by apply IH).
  case_bool_decide as E; [intros [= ->]; subst; left | intros H; right; by apply IH].
Qed.

(** What the files kept for a directory are. *)
Definition good_entry (blocked exclude : list ustr) (nodes : list SnapshotNode) (e : ustr * (ustr * bytes)) : Prop :=
  pathHasBlockedAncestor e.2.1 blocked = false /\ e.2.1 ∉ exclude /\ exists raw, nfc raw = e.2.1 /\ isSafeSnapshotPath raw = true /\ sn_file raw e.2.2 ∈ nodes.

Lemma directories_good blocked exclude nodes groups : Forall (good_group blocked nodes) groups -> forall byDir : list (ustr * DirFiles),
  Forall (fun d => Forall (good_entry blocked exclude nodes) d.2) byDir ->
  Forall (fun d => Forall (good_entry blocked exclude nodes) d.2) (fold_left (add_dir_file nodes exclude) groups byDir).
Proof.
  induction 1 as [|[identity paths] groups [Hb Hp] _ IH]; intros byDir Hd; cbn [fold_left]; [done|]. apply IH. unfold add_dir_file. cbn [fst snd] in *.
  destruct (paths_collide paths); [done|]. cbn [orb]. destruct (includes identity exclude) eqn:Ei; [done|]. apply includes_false in Ei.
  destruct paths as [|raw paths]; [done|]. destruct (includes raw exclude); [done|]. destruct (file_at raw nodes) as [bs|] eqn:Ef; [|done]. apply file_at_some in Ef.
  destruct (Hp raw ltac:(left)) as (Hn & Hs & _). apply set_keeps; [done|]. cbn [snd].
  assert (Hold : Forall (good_entry blocked exclude nodes) (default [] (JsMap.get (posixDirname identity) byDir))).
  { destruct (JsMap.get _ byDir) as [fs|] eqn:Eg; [|constructor]. apply JsMap.get_some_elem in Eg. rewrite Forall_forall in Hd. apply (Hd _ Eg). }
  destruct (JsMap.has _ _); [done|]. apply set_keeps; [done|]. split_and!; [done | done|]. exists raw. done.
Qed.

Lemma first_named_in files names hit : first_named files names = Some hit -> exists name, JsMap.get name files = Some hit.
Proof.
  unfold first_named. assert (H : forall h, (forall x, h = Some x -> exists name, JsMap.get name files = Some x) ->
    fold_left (fun hit name => match hit with Some h => Some h | None => JsMap.get name files end) names h = Some hit -> exists name, JsMap.get name files = Some hit); [|by apply H].
  induction names as [|n names IH]; intros h Hh; cbn [fold_left]; [apply Hh|]. apply IH. intros x. destruct h as [y|]; [intros [= <-]; by apply Hh | intros Hx; by exists n].
Qed.

(** A file of the platform or the user, and a file of the repository. *)
Definition from_global (i : ContextDiscoveryInput) (f : DiscoveredContextFile) : Prop :=
  exists x, x ∈ ci_globalSources i /\ cf_trust f = xs_trust x /\ cf_body f = toString_utf8 (xs_bytes x).
Definition from_repository (i : ContextDiscoveryInput) (f : DiscoveredContextFile) : Prop :=
  may_allow (cf_trust f) = false /\ cf_trust f = (if ci_projectTrusted i then trusted_project else untrusted_data) /\
  cf_path f ∉ map nfc (ci_changesetTouched i) /\ pathHasBlockedAncestor (cf_path f) (blockedPrefixes (ci_nodes i)) = false /\
  exists raw, nfc raw = cf_path f /\ isSafeSnapshotPath raw = true /\ sn_file raw (cf_bytes f) ∈ ci_nodes i.

Lemma globals_selected i xs : (forall x, x ∈ xs -> x ∈ ci_globalSources i) -> forall sel sel', rfold (select_global toString_utf8 base64url descriptor_schema) sel xs = Ok sel' ->
  exists added, sel'.1 = sel.1 ++ added /\ Forall (from_global i) added.
Proof.
  induction xs as [|x xs IH]; intros Hx sel sel'; cbn [rfold]; [intros [= <-]; exists []; split; [by rewrite app_nil_r | constructor]|].
  destruct (select_global _ _ _ sel x) as [sel1|] eqn:E; [|done]. cbn [rbind]. intros Hr. destruct (IH ltac:(intros y Hy; apply Hx; by right) _ _ Hr) as (added & -> & Ha).
  revert E. unfold select_global. destruct (negb _); [intros <-%(inj Ok); by exists added|]. destruct (artifact_ref _ _ _ _) as [ref|]; [|done]. cbn [rbind]. intros <-%(inj Ok).
  unfold commit_file, toDiscovered. set (f := mkContextFile _ _ _ _ _ _ _ _ _ _). destruct (descriptor_schema f); [|by exists added]. cbn [fst].
  exists (f :: added). split; [by rewrite <- app_assoc|]. constructor; [|done]. exists x. split; [apply Hx; left | done].
Qed.

Lemma directories_selected i (byDir : list (ustr * DirFiles)) : Forall (fun d => Forall (good_entry (blockedPrefixes (ci_nodes i)) (uniq (map nfc (ci_changesetTouched i))) (ci_nodes i)) d.2) byDir ->
  forall dirs sel sel', rfold (select_directory toString_utf8 base64url descriptor_schema i byDir) sel dirs = Ok sel' ->
  exists added, sel'.1 = sel.1 ++ added /\ Forall (from_repository i) added.
Proof.
  intros Hd. induction dirs as [|dir dirs IH]; intros sel sel'; cbn [rfold]; [intros [= <-]; exists []; split; [by rewrite app_nil_r | constructor]|].
  destruct (select_directory _ _ _ i byDir sel dir) as [sel1|] eqn:E; [|done]. cbn [rbind]. intros Hr. destruct (IH _ _ Hr) as (added & -> & Ha).
  revert E. unfold select_directory. destruct (JsMap.get dir byDir) as [files|] eqn:Ed; [|intros <-%(inj Ok); by exists added].
  destruct (selectCandidate files) as [[path bs]|] eqn:Ec; [|intros <-%(inj Ok); by exists added]. destruct (repository_ref _ _ _ _) as [ref|]; [|done]. cbn [rbind]. intros <-%(inj Ok).
  unfold commit_file, toDiscovered. set (f := mkContextFile _ _ _ _ _ _ _ _ _ _). destruct (descriptor_schema f); [|by exists added]. cbn [fst].
  exists (f :: added). split; [by rewrite <- app_assoc|]. constructor; [|done].
  apply first_named_in in Ec as (name & Hname). apply JsMap.get_some_elem in Ed, Hname. rewrite Forall_forall in Hd. specialize (Hd _ Ed). cbn [snd] in Hd. rewrite Forall_forall in Hd.
  destruct (Hd _ Hname) as (Hb & He & raw & Hraw). cbn [fst snd] in *. split_and!; [by destruct (ci_projectTrusted i) | done | by rewrite (proj2 (uniq_spec _)) in He | done | by exists raw].
Qed.

Lemma discovered_files i d : discoverContextFiles toString_utf8 base64url descriptor_schema i = Ok d ->
  exists globals project, cd_files d = globals ++ project /\ Forall (from_global i) globals /\ Forall (from_repository i) project.
Proof.
  unfold discoverContextFiles. set (byDir := fold_left _ (identity_groups _ _) []). destruct (rfold (select_global _ _ _) _ _) as [sel|] eqn:E1; [|done]. cbn [rbind].
  destruct (rfold (select_directory _ _ _ i byDir) sel _) as [sel'|] eqn:E2; [|done]. cbn [rbind]. intros [= <-]. cbn [cd_files].
  apply (globals_selected i) in E1 as (globals & E1 & Hg); [|done]. apply directories_selected in E2 as (project & -> & Hp).
  - exists globals, project. by rewrite E1.
  - apply directories_good; [apply groups_good | constructor].
Qed.

Lemma rmap_checked chain out : rmap (toEffective descriptor_schema) chain = Ok out -> out = chain.
Proof.
  revert out. induction chain as [|f chain IH]; intros out; cbn [rmap]; [by intros [= <-]|]. unfold toEffective at 1. destruct (negb _); [done|]. cbn [rbind].
  destruct (rmap _ chain) as [rest|]; [|done]. cbn [rbind]. intros [= <-]. f_equal. by apply IH.
Qed.

(** C36: a repository can only take capabilities away.  Whatever files a snapshot has, a capability is
    granted for a path only when a source of the platform or of the user allows it, and it is not
    granted when an applicable file of the repository denies it.  The files of the repository that apply
    are files of the snapshot, not below a symbolic link or a submodule and not touched by the change
    set, with the trust of the project. *)
Theorem repository_only_denies i d path chain k : discoverContextFiles toString_utf8 base64url descriptor_schema i = Ok d ->
  effectiveChainForPath descriptor_schema (buildScopeTrie d (ci_snapshotId i)) path = Ok chain ->
  (resolveCapabilityPolicy chain k = true -> exists x, x ∈ ci_globalSources i /\ says "allow" (toString_utf8 (xs_bytes x)) k = true) /\
  (forall f, f ∈ chain -> may_allow (cf_trust f) = false -> denies f k = true -> resolveCapabilityPolicy chain k = false) /\
  (forall f, f ∈ chain -> may_allow (cf_trust f) = false -> from_repository i f).
Proof.
  intros (globals & project & Hfiles & Hg & Hp)%discovered_files. unfold effectiveChainForPath. cbn [buildScopeTrie st_ordered]. rewrite Hfiles, List.filter_app. set (t := buildScopeTrie _ _).
  intros ->%rmap_checked. set (gs := List.filter _ globals). set (ps := List.filter _ project).
  assert (Hgs : forall f, f ∈ gs -> from_global i f) by (intros f [Hf _]%elem_of_List_filter; rewrite Forall_forall in Hg; by apply Hg).
  assert (Hps : forall f, f ∈ ps -> from_repository i f) by (intros f [Hf _]%elem_of_List_filter; rewrite Forall_forall in Hp; by apply Hp).
  assert (Hglobal : forall f, from_global i f -> may_allow (cf_trust f) = true) by (intros f (x & _ & -> & _); unfold xs_trust; by destruct (xs_platform x)).
  split_and!.
  - intros (pre & f & post & E & Hf & _)%policy_exact. unfold grants in Hf. apply andb_true_iff in Hf as [Ht Hs].
    assert (Hin : f ∈ gs ++ ps) by (rewrite E, elem_of_app; right; left). apply elem_of_app in Hin as [Hin|Hin].
    + destruct (Hgs f Hin) as (x & Hx & _ & Hbody). exists x. by rewrite <- Hbody.
    + destruct (Hps f Hin) as [Hno _]. congruence.
  - intros f Hf Ht Hd. apply not_true_iff_false. intros (pre & g & post & E & Hgr & Hall)%policy_exact. unfold grants in Hgr. apply andb_true_iff in Hgr as [Htg _].
    assert (Hgps : g ∉ ps) by (intros Hin; destruct (Hps g Hin) as [Hno _]; congruence). assert (Hfps : f ∈ ps).
    { apply elem_of_app in Hf as [Hf|Hf]; [|done]. specialize (Hglobal f (Hgs f Hf)). congruence. }
    assert (Hpost : f ∈ g :: post); [|rewrite (Hall f Hpost) in Hd; done].
    clear -E Hgps Hfps. revert pre E. induction gs as [|x gs IH]; intros pre E.
    + exfalso. apply Hgps. cbn in E. rewrite E, elem_of_app. right. left.
    + destruct pre as [|y pre]; cbn in E; injection E as E1 E; [right; rewrite <- E, elem_of_app; by right | by apply (IH pre)].
  - intros f [Hf|Hf]%elem_of_app Ht; [|by apply Hps]. specialize (Hglobal f (Hgs f Hf)). congruence.
Qed.
End Discovery.

(** ** Concrete instructions *)

Module SampleInstructions.
#[local] Existing Instance half_doubles.
#[local] Instance byte_sum : Hashing := {| sha256_hex := fun bs => let s := fold_left N.add bs 0%N in [hex_digit (s mod 16); hex_digit ((s / 16) mod 16)]%N ++ replicate 62 48%N |}.
#[local] Instance same_form : Unicode := {| nfc := fun s => s; toUpperCase := fun s => s |}.

Definition lines_text (lines : list string) : ustr := concat (map (fun l => u l ++ [LF]) lines).
Definition platform_text : ustr := lines_text ["---"; "allow:"; "  network: true"; "  signing: true"; "---"; "Platform policy"].
Definition project_text : ustr := lines_text ["---"; "deny:"; "  network: true"; "allow:"; "  deployment: true"; "---"; "Project"].
(** The same denial after a line that is no mapping. *)
Definition broken_text : ustr := lines_text ["---"; "deny:"; "  network: true"; "see the wiki"; "---"; "Project"].

Definition discover := discoverContextFiles (fun bs => bs) (fun bs => bs) (fun _ => true).
Definition input (nodes : list SnapshotNode) : ContextDiscoveryInput :=
  mkDiscovery (u "snap") nodes true [mkExternal true (u "etc/AGENTS.md") platform_text None] [].
Definition chain_of (nodes : list SnapshotNode) (path : string) : list DiscoveredContextFile :=
  match discover (input nodes) with
  | Ok d => match effectiveChainForPath (fun _ => true) (buildScopeTrie d (u "snap")) (u path) with Ok c => c | Err _ => [] end
  | Err _ => []
  end.

Definition project : list SnapshotNode := [sn_file (u "AGENTS.md") project_text; sn_file (u "src/a.ts") []].
Definition discovered : ContextDiscoveryResult := Eval vm_compute in match discover (input project) with Ok d => d | Err _ => mkDiscovered [] [] [] end.
Definition project_chain : list DiscoveredContextFile := Eval vm_compute in chain_of project "src/a.ts".

Lemma repository_only_denies_witness : length project_chain = 2%nat /\ resolveCapabilityPolicy project_chain network = false /\
  resolveCapabilityPolicy project_chain signing = true /\ exists x, x ∈ ci_globalSources (input project) /\ says "allow" (xs_bytes x) signing = true.
Proof.
  assert (Hd : discover (input project) = Ok discovered) by (vm_compute; reflexivity).
  assert (Hc : effectiveChainForPath (fun _ => true) (buildScopeTrie discovered (ci_snapshotId (input project))) (u "src/a.ts") = Ok project_chain) by (vm_compute; reflexivity).
  assert (Hs : resolveCapabilityPolicy project_chain signing = true) by (vm_compute; reflexivity).
  split; [reflexivity|]. split; [vm_compute; reflexivity|]. split; [exact Hs|].
  exact (proj1 (repository_only_denies (fun bs => bs) (fun bs => bs) (fun _ => true) (input project) discovered (u "src/a.ts") project_chain signing Hd Hc) Hs).
Defined.

(** A denial in front matter that does not parse is not heeded. *)
Lemma invalid_denial_ignored :
  resolveCapabilityPolicy (chain_of [sn_file (u "AGENTS.md") broken_text] "src/a.ts") network = true /\ parseYamlFrontmatter broken_text = frontmatter_error.
Proof. vm_compute. done. Qed.

(** A file in a directory whose name begins with [global:] applies to paths outside it. *)
Lemma global_directory_applies : map cf_path (chain_of [sn_file (u "global:x/AGENTS.md") project_text] "src/a.ts") = [u "global:platform:AGENTS.md"; u "global:x/AGENTS.md"] /\
  scopeApplies (u "global:x") (u "src/a.ts") = false.
Proof. vm_compute. done. Qed.

(** A list item that is a mapping of two lines is refused. *)
Lemma two_line_item_refused : parseYamlFrontmatter (lines_text ["---"; "rules:"; "  - name: a"; "    level: b"; "---"]) = frontmatter_error /\
  (exists fields, parseYamlFrontmatter (lines_text ["---"; "rules:"; "  - name: a"; "---"]) = frontmatter fields []).
Proof. split; [vm_compute; reflexivity|]. eexists. vm_compute. reflexivity. Qed.
End SampleInstructions.
