(* ===== verification/Skills.v ===== *)
(** The resolution of skills (packages/instructions/src/skill-resolver.ts): which skills the trusted
    instructions, the touched paths and the evidence require, their dependencies, the bodies that are
    loaded within the token budget, and the conflicts.

    The compiled schemas and the estimate of tokens are parameters; the skills are those discovery found. *)

From Stdlib Require Import String.
From S2P Require Import Prelude Ids JsText CanonicalJson JsJson Digest RelativePath EvidenceGraph Dedupe Instructions.
Open Scope string_scope.
Open Scope list_scope.

(** ** Data *)

Inductive LoadPolicy : Set := lp_mandatory | lp_applicable | lp_on_request.
#[export] Instance LoadPolicy_eq_dec : EqDecision LoadPolicy.
Proof. solve_decision. Defined.

Record SkillDescriptor := mkSkillDescriptor {
  sd_id : ustr;
  sd_name : ustr;
  sd_description : ustr;
  sd_sourceRef : EvidenceSource;
  sd_scope : ustr;
  sd_contentDigest : ustr;
  sd_loadPolicy : LoadPolicy;
  sd_executableAssets : list EvidenceSource
}.

Record DiscoveredSkill := mkSkill {
  sk_descriptor : SkillDescriptor;
  sk_body : ustr;
  sk_bytes : bytes;
  sk_dependencies : list ustr;
  sk_pathScope : ustr;
  sk_trust : TrustLabel
}.
Definition sk_id (s : DiscoveredSkill) : ustr := sd_id (sk_descriptor s).

Record SkillConflict := mkConflict { sc_skillIds : list ustr; sc_sourceRefs : list EvidenceSource; sc_reason : ustr }.

Record LoadedSkillBody := mkLoaded { ls_skillId : ustr; ls_descriptor : SkillDescriptor; ls_verbatimContent : ustr }.

Record SkillManifest := mkManifest { sm_snapshotId : ustr; sm_skills : list SkillDescriptor; sm_conflicts : list SkillConflict }.

Record SkillResolverInput := mkResolver {
  ri_snapshot : ustr;
  ri_skills : list DiscoveredSkill;
  ri_conflicts : list SkillConflict;
  ri_instructionChain : list DiscoveredContextFile;
  ri_touchedPaths : list ustr;
  ri_provenSkillIds : list ustr;
  ri_proposedSkillIds : list ustr;
  ri_tokenBudget : Z;
  ri_maxSkillBodyBytes : option Z
}.

Record SkillResolverResult := mkResolved { sr_manifest : SkillManifest; sr_loadedSkills : list LoadedSkillBody; sr_omittedSkillIds : list ustr }.

Inductive SkillErr : Set := SKILL_MANIFEST_INVALID | SKILL_FUEL.

Definition DEFAULT_MAX_BODY_BYTES : Z := 262144.

Definition isTrusted (s : DiscoveredSkill) : bool := trusted (sk_trust s).

Definition isPathScoped (s : DiscoveredSkill) (touchedPaths : list ustr) : bool :=
  if bool_decide (sk_pathScope s = u ".") then false
  else existsb (fun path => bool_decide (path = sk_pathScope s) || isPathInsideRoot (sk_pathScope s) path) touchedPaths.

Definition defaultEstimateTokens (text : ustr) : Z := (Z.of_nat (utf8ByteLength text) + 3) / 4.

(** ** The closure of dependencies *)

Record Closing := mkClosing {
  cl_visiting : list ustr;
  cl_visited : list ustr;
  cl_ordered : list ustr;
  cl_cycleIds : list ustr;
  cl_conflicts : list SkillConflict
}.

Definition SkillMap : Type := list (ustr * DiscoveredSkill).

Definition join_with (sep : ustr) (parts : list ustr) : ustr :=
  match parts with [] => [] | p :: rest => p ++ concat (map (fun q => sep ++ q) rest) end.

Fixpoint stack_position (id : ustr) (stack : list ustr) : option nat :=
  match stack with [] => None | x :: rest => if bool_decide (x = id) then Some O else match stack_position id rest with Some n => Some (S n) | None => None end end.

(** The state after a cycle through [id] was found. *)
Definition note_cycle (byId : SkillMap) (st : Closing) (id : ustr) (stack : list ustr) : Closing :=
  let cycle := match stack_position id stack with Some start => drop start stack | None => stack ++ [id] end in
  let refs := concat (map (fun item => match JsMap.get item byId with Some s => [sd_sourceRef (sk_descriptor s)] | None => [] end) cycle) in
  mkClosing (cl_visiting st) (cl_visited st) (cl_ordered st) (fold_left setAdd cycle (cl_cycleIds st))
    (cl_conflicts st ++ [mkConflict cycle refs (u "dependency cycle involving " ++ join_with (u " -> ") cycle)]).

(** The fuel bounds the depth of the recursion. *)
Fixpoint visit_skill (fuel : nat) (byId : SkillMap) (stack : list ustr) (st : Closing) (id : ustr) : result SkillErr Closing :=
  match fuel with
  | O => Err SKILL_FUEL
  | S fuel =>
      if includes id (cl_visited st) || includes id (cl_cycleIds st) then Ok st
      else if includes id (cl_visiting st) then Ok (note_cycle byId st id stack)
      else match JsMap.get id byId with
           | None => Ok st
           | Some s =>
               let st := mkClosing (setAdd (cl_visiting st) id) (cl_visited st) (cl_ordered st) (cl_cycleIds st) (cl_conflicts st) in
               let? st := rfold (visit_skill fuel byId (stack ++ [id])) st (sk_dependencies s) in
               Ok (mkClosing (List.filter (fun x => negb (bool_decide (x = id))) (cl_visiting st)) (setAdd (cl_visited st) id) (cl_ordered st ++ [id])
                     (cl_cycleIds st) (cl_conflicts st))
           end
  end.

(** The closed ids, the ids on cycles, and the conflicts. *)
Definition closeDependencies (roots : list ustr) (byId : SkillMap) (conflicts : list SkillConflict) : result SkillErr (list ustr * list ustr * list SkillConflict) :=
  let? st := rfold (visit_skill (length byId + 2) byId []) (mkClosing [] [] [] [] conflicts) roots in
  Ok (List.filter (fun id => negb (includes id (cl_cycleIds st))) (cl_ordered st), cl_cycleIds st, cl_conflicts st).

(** ** Resolution *)

Definition conflict_key (c : SkillConflict) : ustr := join_unit NUL (sc_skillIds c).
Definition conflict_leb (l r : SkillConflict) : bool :=
  if bool_decide (conflict_key l = conflict_key r) then utf16_leb (sc_reason l) (sc_reason r) else utf16_leb (conflict_key l) (conflict_key r).
Definition sortConflicts (conflicts : list SkillConflict) : list SkillConflict := sort_by conflict_leb conflicts.

Section Resolver.
Context {UU : Unicode}.
Variables (manifest_schema : SkillManifest -> bool) (loaded_schema : LoadedSkillBody -> bool) (estimate : ustr -> Z).

Definition orderedUnique (ids : list ustr) : list ustr := uniq (map nfc ids).

Definition by_skill_id (skills : list DiscoveredSkill) : SkillMap := map_by_id sk_id skills.

Definition mandatory_ids (i : SkillResolverInput) : list ustr :=
  List.filter (fun id => JsMap.has id (by_skill_id (ri_skills i)))
    (orderedUnique (mandatorySkillIdsFromInstructions (ri_instructionChain i) ++
       map sk_id (List.filter (fun s => bool_decide (sd_loadPolicy (sk_descriptor s) = lp_mandatory) && isTrusted s) (ri_skills i)))).

Definition path_scoped_ids (i : SkillResolverInput) : list ustr :=
  List.filter (fun id => JsMap.has id (by_skill_id (ri_skills i)))
    (map sk_id (List.filter (fun s => isPathScoped s (ri_touchedPaths i) && isTrusted s) (ri_skills i))).

Definition trusted_id (byId : SkillMap) (id : ustr) : bool := match JsMap.get id byId with Some s => isTrusted s | None => false end.

Definition proven_ids (i : SkillResolverInput) : list ustr :=
  List.filter (trusted_id (by_skill_id (ri_skills i))) (orderedUnique (ri_provenSkillIds i)).

Definition withLoadPolicy (s : DiscoveredSkill) (mandatory highApplicability : list ustr) : SkillDescriptor :=
  let d := sk_descriptor s in
  let policy := if includes (sk_id s) mandatory then lp_mandatory else if includes (sk_id s) highApplicability then lp_applicable else lp_on_request in
  mkSkillDescriptor (sd_id d) (sd_name d) (sd_description d) (sd_sourceRef d) (sd_scope d) (sd_contentDigest d) policy (sd_executableAssets d).

(** What the loop has loaded, omitted, described and reported, and the tokens it used. *)
Record Loading := mkLoading {
  lo_loaded : list LoadedSkillBody;
  lo_omitted : list ustr;
  lo_descriptors : list SkillDescriptor;
  lo_conflicts : list SkillConflict;
  lo_usedTokens : Z
}.

Definition own_conflict (s : DiscoveredSkill) (reason : string) : SkillConflict :=
  mkConflict [sk_id s] [sd_sourceRef (sk_descriptor s)] (u reason ++ sk_id s).

(** [required] are the ids that are mandatory, path-scoped or proven. *)
Definition load_skill (mandatory required high : list ustr) (maxBody budget : Z) (l : Loading) (s : DiscoveredSkill) : Loading :=
  let descriptor := withLoadPolicy s mandatory high in
  let l := mkLoading (lo_loaded l) (lo_omitted l) (lo_descriptors l ++ [descriptor]) (lo_conflicts l) (lo_usedTokens l) in
  let report c := mkLoading (lo_loaded l) (lo_omitted l) (lo_descriptors l) (lo_conflicts l ++ [c]) (lo_usedTokens l) in
  let omit := mkLoading (lo_loaded l) (lo_omitted l ++ [sk_id s]) (lo_descriptors l) (lo_conflicts l) (lo_usedTokens l) in
  let oversized := (maxBody <? Z.of_nat (length (sk_bytes s)))%Z in
  if oversized && includes (sk_id s) high then report (own_conflict s "oversized skill body for ")
  else if negb (includes (sk_id s) high && negb oversized) then omit
  else
    let tokens := estimate (sk_body s) in
    if negb (includes (sk_id s) required) && (budget <? lo_usedTokens l + tokens)%Z then omit
    else
      let body := mkLoaded (sk_id s) descriptor (sk_body s) in
      if negb (loaded_schema body) then report (own_conflict s "loaded skill body schema invalid for ")
      else mkLoading (lo_loaded l ++ [body]) (lo_omitted l) (lo_descriptors l) (lo_conflicts l) (lo_usedTokens l + tokens).

(** The ids of high applicability, from the required ids and the closure. *)
Definition high_ids (byId : SkillMap) (required closed cyclic : list ustr) : list ustr :=
  uniq (List.filter (fun id => negb (includes id cyclic) && trusted_id byId id) (required ++ closed)).

Definition resolveSkills (i : SkillResolverInput) : result SkillErr SkillResolverResult :=
  let byId := by_skill_id (ri_skills i) in
  let mandatory := mandatory_ids i in
  let required := mandatory ++ path_scoped_ids i ++ proven_ids i in
  let? closing := closeDependencies (orderedUnique required) byId (ri_conflicts i) in
  let '(closed, cyclic, conflicts) := closing in
  let high := high_ids byId required closed cyclic in
  let l := fold_left (load_skill mandatory required high (default DEFAULT_MAX_BODY_BYTES (ri_maxSkillBodyBytes i)) (ri_tokenBudget i)) (ri_skills i)
             (mkLoading [] [] [] conflicts 0) in
  let manifest := mkManifest (ri_snapshot i) (sort_by (by_key sd_id) (lo_descriptors l)) (sortConflicts (lo_conflicts l)) in
  throw_if negb (manifest_schema manifest) with SKILL_MANIFEST_INVALID;
  Ok (mkResolved manifest (sort_by (by_key ls_skillId) (lo_loaded l)) (sort_by utf16_leb (lo_omitted l))).
End Resolver.
