(* ===== verification/SkillTheorems.v ===== *)
(** The resolution of skills terminates and is sound: only trusted skills are loaded, verbatim and within
    the limit of size, each required or needed by a required one, and a trusted skill that is required is
    loaded or reported in a conflict whatever the token budget. *)

From Stdlib Require Import String.
From stdpp Require Import relations.
From S2P Require Import Prelude Ids JsText CanonicalJson JsJson Digest RelativePath EvidenceGraph EvidenceGraphTheorems Dedupe Instructions Skills.
Open Scope string_scope.
Open Scope list_scope.

(** ** The closure *)

(** [b] is a dependency of the known skill [a]. *)
Definition depends_on (byId : SkillMap) (a b : ustr) : Prop := exists s, JsMap.get a byId = Some s /\ b ∈ sk_dependencies s.
Definition needs (byId : SkillMap) : ustr -> ustr -> Prop := rtc (depends_on byId).

Section Closure.
Variable byId : SkillMap.

Lemma setAdd_new (l : list ustr) x : x ∉ l -> setAdd l x = l ++ [x].
Proof. intros Hx. unfold setAdd. by rewrite (proj2 (includes_false _ _) Hx). Qed.

(** The stack of a visit: distinct known skills, which are the ones being visited. *)
Record on_stack (st : Closing) (stack : list ustr) : Prop := {
  os_visiting : cl_visiting st = stack;
  os_once : NoDup stack;
  os_known : forall x, x ∈ stack -> x ∈ map fst byId
}.

(** What a visit that starts at one of [from] adds. *)
Record visited_from (from : ustr -> Prop) (st st' : Closing) : Prop := {
  vf_visiting : cl_visiting st' = cl_visiting st;
  vf_ordered : forall x, x ∈ cl_ordered st' -> x ∈ cl_ordered st \/ exists r, from r /\ needs byId r x;
  vf_cycles : forall x, x ∈ cl_cycleIds st' -> x ∈ cl_cycleIds st \/ exists c, c ∈ cl_conflicts st' /\ x ∈ sc_skillIds c;
  vf_conflicts : forall c, c ∈ cl_conflicts st -> c ∈ cl_conflicts st'
}.

Lemma visited_refl from st : visited_from from st st.
Proof. split; try done; intros x Hx; by left. Qed.

Lemma visited_trans from st1 st2 st3 : visited_from from st1 st2 -> visited_from from st2 st3 -> visited_from from st1 st3.
Proof.
  intros [V1 O1 C1 K1] [V2 O2 C2 K2]. split; [congruence| | |auto].
  - intros x [Hx|?]%O2; [by apply O1 | by right].
  - intros x [Hx|?]%C2; [|by right]. destruct (C1 x Hx) as [?|(c & ? & ?)]; [by left | right; exists c; auto].
Qed.

Lemma visited_weaken (from from' : ustr -> Prop) st st' : (forall r, from r -> exists r', from' r' /\ needs byId r' r) -> visited_from from st st' -> visited_from from' st st'.
Proof.
  intros Hw [V O C K]. split; try done. intros x [?|(r & Hr & Hn)]%O; [by left|]. right. destruct (Hw r Hr) as (r' & Hr' & Hn'). exists r'. split; [done|]. unfold needs in *. by etransitivity.
Qed.

Lemma stack_bound st stack : on_stack st stack -> length stack <= length byId.
Proof.
  intros [_ Hn Hk]. rewrite <- (length_map fst byId). apply NoDup_incl_length; [by apply NoDup_ListNoDup|]. intros x Hx. apply list_elem_of_In, Hk. by apply list_elem_of_In.
Qed.

Lemma visit_fold fuel stack deps : (forall st id, on_stack st stack -> exists st', visit_skill fuel byId stack st id = Ok st' /\ visited_from (eq id) st st') ->
  forall st, on_stack st stack -> exists st', rfold (visit_skill fuel byId stack) st deps = Ok st' /\ visited_from (fun r => r ∈ deps) st st'.
Proof.
  intros Hv. induction deps as [|d deps IH]; intros st Hs; cbn [rfold]; [exists st; split; [done | apply visited_refl]|].
  destruct (Hv st d Hs) as (st1 & -> & H1). cbn [rbind]. assert (Hs1 : on_stack st1 stack) by (destruct Hs; split; [rewrite (vf_visiting _ _ _ H1); done | done | done]).
  destruct (IH st1 Hs1) as (st2 & -> & H2). exists st2. split; [done|]. eapply visited_trans.
  - eapply visited_weaken; [|exact H1]. intros r <-. exists d. split; [left | apply rtc_refl].
  - eapply visited_weaken; [|exact H2]. intros r Hr. exists r. split; [by right | apply rtc_refl].
Qed.

Lemma elem_of_folded_setAdd (xs acc : list ustr) y : y ∈ fold_left setAdd xs acc <-> y ∈ acc \/ y ∈ xs.
Proof. revert acc. induction xs as [|x xs IH]; intros acc; cbn [fold_left]; [rewrite elem_of_nil; tauto|]. rewrite IH, elem_of_setAdd, elem_of_cons. tauto. Qed.

Lemma cycle_noted from st id stack : visited_from from st (note_cycle byId st id stack).
Proof.
  unfold note_cycle. set (cycle := match stack_position id stack with Some _ => _ | None => _ end). split; cbn; [done | by left | |intros c Hc; rewrite elem_of_app; by left].
  intros x. rewrite elem_of_folded_setAdd. intros [?|Hx]; [by left|]. right. eexists. split; [rewrite elem_of_app; right; left | done].
Qed.

Lemma visit_total fuel : forall stack st id, on_stack st stack -> length byId + 2 <= fuel + length stack ->
  exists st', visit_skill fuel byId stack st id = Ok st' /\ visited_from (eq id) st st'.
Proof.
  induction fuel as [|fuel IH]; intros stack st id Hs Hf; [pose proof (stack_bound _ _ Hs); lia|]. cbn [visit_skill].
  destruct (_ || _); [exists st; split; [done | apply visited_refl]|]. destruct (includes id (cl_visiting st)) eqn:Ei; [eexists; split; [done | apply cycle_noted]|].
  apply includes_false in Ei. destruct (JsMap.get id byId) as [s|] eqn:Eg; [|exists st; split; [done | apply visited_refl]].
  pose proof (os_visiting _ _ Hs) as Hv. rewrite Hv in Ei. set (st1 := mkClosing (setAdd (cl_visiting st) id) _ _ _ _).
  assert (Hs1 : on_stack st1 (stack ++ [id])).
  { split; cbn.
    - by rewrite Hv, setAdd_new.
    - apply NoDup_app. split_and!; [apply Hs | by intros x Hx ->%list_elem_of_singleton | apply NoDup_singleton].
    - intros x [Hx| ->%list_elem_of_singleton]%elem_of_app; [by apply (os_known _ _ Hs)|]. apply JsMap.get_some_elem in Eg. by apply (list_elem_of_fmap_2 fst) in Eg. }
  destruct (visit_fold fuel (stack ++ [id]) (sk_dependencies s) ltac:(intros; apply IH; [done | rewrite length_app; cbn; lia]) st1 Hs1) as (st2 & -> & [V O C K]).
  cbn [rbind]. eexists. split; [done|]. split; cbn.
  - rewrite V. cbn. rewrite Hv, setAdd_new by done. rewrite List.filter_app. cbn. rewrite bool_decide_true by done. cbn. rewrite app_nil_r.
    clear -Ei. induction stack as [|x stack IH]; [done|]. cbn. apply not_elem_of_cons in Ei as [Hne Ei]. rewrite bool_decide_false by congruence. cbn. f_equal. by apply IH.
  - intros x. rewrite elem_of_app, list_elem_of_singleton. intros [Hx| ->]; [|right; exists id; split; [done | apply rtc_refl]].
    destruct (O x Hx) as [?|(r & Hr & Hn)]; [by left|]. right. exists id. split; [done|]. eapply rtc_l; [|exact Hn]. exists s. done.
  - intros x Hx. exact (C x Hx).
  - exact K.
Qed.

(** The closure ends; the closed ids are needed by a root, and the ids on cycles are reported. *)
Lemma closeDependencies_total roots conflicts : exists closed cyclic conflicts', closeDependencies roots byId conflicts = Ok (closed, cyclic, conflicts') /\
  (forall x, x ∈ closed -> exists r, r ∈ roots /\ needs byId r x) /\ (forall x, x ∈ cyclic -> exists c, c ∈ conflicts' /\ x ∈ sc_skillIds c) /\
  (forall c, c ∈ conflicts -> c ∈ conflicts').
Proof.
  unfold closeDependencies. set (st0 := mkClosing [] [] [] [] conflicts).
  assert (H0 : on_stack st0 []) by (split; [done | constructor | by intros x ?%not_elem_of_nil]).
  destruct (visit_fold (length byId + 2) [] roots ltac:(intros; apply visit_total; [done | cbn; lia]) st0 H0) as (st & -> & [_ O C K]). cbn [rbind].
  do 3 eexists. split; [done|]. split_and!.
  - intros x [Hx _]%elem_of_List_filter. destruct (O x Hx) as [?%not_elem_of_nil|?]; done.
  - intros x Hx. destruct (C x Hx) as [?%not_elem_of_nil|?]; done.
  - done.
Qed.
End Closure.

(** ** Loading *)

Section Loading.
Context {UU : Unicode}.
Variables (manifest_schema : SkillManifest -> bool) (loaded_schema : LoadedSkillBody -> bool) (estimate : ustr -> Z).

Definition in_conflict (id : ustr) (cs : list SkillConflict) : Prop := exists c, c ∈ cs /\ id ∈ sc_skillIds c.

(** What the loop has done with the skills [seen]. *)
Record loading_ok (required high : list ustr) (maxBody : Z) (seen : list DiscoveredSkill) (start : list SkillConflict) (l : Loading) : Prop := {
  lk_loaded : forall b, b ∈ lo_loaded l -> exists s, s ∈ seen /\ ls_skillId b = sk_id s /\ ls_verbatimContent b = sk_body s /\ sk_id s ∈ high /\
    (Z.of_nat (length (sk_bytes s)) <= maxBody)%Z;
  lk_each : forall s, s ∈ seen -> sk_id s ∈ map ls_skillId (lo_loaded l) \/ sk_id s ∈ lo_omitted l \/ in_conflict (sk_id s) (lo_conflicts l);
  lk_required : forall s, s ∈ seen -> sk_id s ∈ high -> sk_id s ∈ required -> sk_id s ∈ map ls_skillId (lo_loaded l) \/ in_conflict (sk_id s) (lo_conflicts l);
  lk_conflicts : forall c, c ∈ start -> c ∈ lo_conflicts l
}.

Lemma in_conflict_app id cs ds : in_conflict id cs -> in_conflict id (cs ++ ds).
Proof. intros (c & ? & ?). exists c. rewrite elem_of_app. auto. Qed.

(** One more skill: it is loaded, reported, or omitted although it is not both of high applicability and required. *)
Lemma load_step mandatory required high maxBody budget seen start l s : loading_ok required high maxBody seen start l ->
  loading_ok required high maxBody (seen ++ [s]) start (load_skill loaded_schema estimate mandatory required high maxBody budget l s).
Proof.
  intros [Hl He Hr Hc].
  assert (Hgen : forall loaded omitted ds cs t, (forall b, b ∈ lo_loaded l -> b ∈ loaded) -> (forall x, x ∈ lo_omitted l -> x ∈ omitted) -> (forall c, c ∈ lo_conflicts l -> c ∈ cs) ->
    (forall b, b ∈ loaded -> b ∈ lo_loaded l \/ (ls_skillId b = sk_id s /\ ls_verbatimContent b = sk_body s /\ sk_id s ∈ high /\ (Z.of_nat (length (sk_bytes s)) <= maxBody)%Z)) ->
    (sk_id s ∈ map ls_skillId loaded \/ in_conflict (sk_id s) cs \/ (sk_id s ∈ omitted /\ ~ (sk_id s ∈ high /\ sk_id s ∈ required))) ->
    loading_ok required high maxBody (seen ++ [s]) start (mkLoading loaded omitted ds cs t)).
  { intros loaded omitted ds cs t Ml Mo Mc Hnew Hs.
    assert (Mid : forall x, x ∈ map ls_skillId (lo_loaded l) -> x ∈ map ls_skillId loaded) by (intros x (b & -> & Hb)%list_elem_of_fmap; apply (list_elem_of_fmap_2 ls_skillId), Ml, Hb).
    assert (Mcf : forall x, in_conflict x (lo_conflicts l) -> in_conflict x cs) by (intros x (c & ? & ?); exists c; auto).
    split; cbn.
    - intros b [Hb|Hb]%Hnew; [|exists s; split; [rewrite elem_of_app; right; left | done]]. destruct (Hl b Hb) as (s' & ? & ?). exists s'. rewrite elem_of_app. auto.
    - intros s' [Hs'| ->%list_elem_of_singleton]%elem_of_app; [|tauto]. destruct (He s' Hs') as [?|[?|?]]; auto.
    - intros s' [Hs'| ->%list_elem_of_singleton]%elem_of_app Hh Hq; [|tauto]. destruct (Hr s' Hs' Hh Hq) as [?|?]; auto.
    - auto. }
  unfold load_skill. cbn [lo_loaded lo_omitted lo_descriptors lo_conflicts lo_usedTokens]. destruct (includes (sk_id s) high) eqn:Eh.
  - apply includes_true in Eh. destruct (maxBody <? _)%Z eqn:Eo; cbn [andb negb].
    + apply Hgen; [auto | auto | intros c ?; rewrite elem_of_app; by left | auto|]. right. left. eexists. split; [rewrite elem_of_app; right; left | left].
    + apply Z.ltb_ge in Eo. destruct (includes (sk_id s) required) eqn:Eq; cbn [negb andb].
      * destruct (loaded_schema _); cbn [negb].
        -- apply Hgen; [intros b ?; rewrite elem_of_app; by left | auto | auto | | left; rewrite map_app, elem_of_app; right; left].
           intros b [?| ->%list_elem_of_singleton]%elem_of_app; [by left | by right].
        -- apply Hgen; [auto | auto | intros c ?; rewrite elem_of_app; by left | auto|]. right. left. eexists. split; [rewrite elem_of_app; right; left | left].
      * apply includes_false in Eq. destruct (budget <? _)%Z.
        -- apply Hgen; [auto | intros x ?; rewrite elem_of_app; by left | auto | auto|]. right. right. split; [rewrite elem_of_app; right; left | tauto].
        -- destruct (loaded_schema _); cbn [negb].
           ++ apply Hgen; [intros b ?; rewrite elem_of_app; by left | auto | auto | | left; rewrite map_app, elem_of_app; right; left].
              intros b [?| ->%list_elem_of_singleton]%elem_of_app; [by left | by right].
           ++ apply Hgen; [auto | auto | intros c ?; rewrite elem_of_app; by left | auto|]. right. left. eexists. split; [rewrite elem_of_app; right; left | left].
  - apply includes_false in Eh. rewrite andb_false_r. cbn [andb negb]. apply Hgen; [auto | intros x ?; rewrite elem_of_app; by left | auto | auto|].
    right. right. split; [rewrite elem_of_app; right; left | tauto].
Qed.

Lemma load_all mandatory required high maxBody budget start ss : forall seen l, loading_ok required high maxBody seen start l ->
  loading_ok required high maxBody (seen ++ ss) start (fold_left (load_skill loaded_schema estimate mandatory required high maxBody budget) ss l).
Proof.
  induction ss as [|s ss IH]; intros seen l Hl; cbn [fold_left]; [by rewrite app_nil_r|].
  pose proof (IH _ _ (load_step mandatory required high maxBody budget seen start l s Hl)) as H. by rewrite <- app_assoc in H.
Qed.

Definition required_ids (i : SkillResolverInput) : list ustr := mandatory_ids i ++ path_scoped_ids i ++ proven_ids i.

Lemma trusted_known ss s : NoDup (map sk_id ss) -> s ∈ ss -> trusted_id (by_skill_id ss) (sk_id s) = isTrusted s.
Proof. intros Hn Hs. unfold trusted_id, by_skill_id. by rewrite (by_id_finds sk_id ss s Hn Hs). Qed.

(** C37: the resolution of skills ends, and only a manifest its schema refuses makes it fail.  A loaded body
    is the body of a trusted skill within the limit of size, which is required (mandatory, scoped to a
    touched path or proven applicable) or needed by a required one.  A trusted skill that is required is
    loaded or reported in a conflict, whatever the budget, and every skill is loaded, omitted or
    reported. *)
Theorem resolved_skills_sound i : NoDup (map sk_id (ri_skills i)) ->
  match resolveSkills manifest_schema loaded_schema estimate i with
  | Err e => e = SKILL_MANIFEST_INVALID
  | Ok r =>
      let byId := by_skill_id (ri_skills i) in
      let loaded := map ls_skillId (sr_loadedSkills r) in
      let conflicts := sm_conflicts (sr_manifest r) in
      (forall b, b ∈ sr_loadedSkills r -> exists s, s ∈ ri_skills i /\ ls_skillId b = sk_id s /\ ls_verbatimContent b = sk_body s /\ isTrusted s = true /\
         (Z.of_nat (length (sk_bytes s)) <= default DEFAULT_MAX_BODY_BYTES (ri_maxSkillBodyBytes i))%Z /\
         (sk_id s ∈ required_ids i \/ exists root, root ∈ orderedUnique (required_ids i) /\ needs byId root (sk_id s))) /\
      (forall s, s ∈ ri_skills i -> isTrusted s = true -> sk_id s ∈ required_ids i -> sk_id s ∈ loaded \/ in_conflict (sk_id s) conflicts) /\
      (forall s, s ∈ ri_skills i -> sk_id s ∈ loaded \/ sk_id s ∈ sr_omittedSkillIds r \/ in_conflict (sk_id s) conflicts)
  end.
Proof.
  intros Hn. unfold resolveSkills. fold (required_ids i). set (byId := by_skill_id (ri_skills i)).
  destruct (closeDependencies_total byId (orderedUnique (required_ids i)) (ri_conflicts i)) as (closed & cyclic & cs & -> & Hclosed & Hcyclic & _). cbn [rbind].
  set (high := high_ids byId (required_ids i) closed cyclic). set (maxBody := default _ _). set (l := fold_left _ _ _).
  assert (Hl : loading_ok (required_ids i) high maxBody (ri_skills i) cs l).
  { apply (load_all _ _ _ _ _ _ _ []). split; cbn; [by intros b ?%not_elem_of_nil | by intros s ?%not_elem_of_nil | by intros s ?%not_elem_of_nil | done]. }
  assert (Hhigh : forall x, x ∈ high <-> (x ∈ required_ids i \/ x ∈ closed) /\ x ∉ cyclic /\ trusted_id byId x = true).
  { intros x. unfold high, high_ids. rewrite (proj2 (uniq_spec _)), elem_of_List_filter, elem_of_app, andb_true_iff, negb_true_iff, includes_false. tauto. }
  destruct (manifest_schema _); [|done]. cbn [negb sr_loadedSkills sr_manifest sr_omittedSkillIds sm_conflicts]. destruct Hl as [L1 L2 L3 L4].
  assert (Hloaded : forall x, x ∈ map ls_skillId (sort_by (by_key ls_skillId) (lo_loaded l)) <-> x ∈ map ls_skillId (lo_loaded l)) by (intros x; by rewrite sort_by_perm).
  assert (Hconf : forall x, in_conflict x (lo_conflicts l) -> in_conflict x (sortConflicts (lo_conflicts l))).
  { intros x (c & Hc & Hx). exists c. split; [|done]. unfold sortConflicts. by rewrite elem_of_sort_by. }
  split_and!.
  - intros b. rewrite elem_of_sort_by. intros (s & Hs & Hid & Hb & Hh & Hsize)%L1. exists s. apply Hhigh in Hh as (Hr & _ & Ht). unfold byId in Ht. rewrite (trusted_known (ri_skills i) s Hn Hs) in Ht.
    split_and!; [done..|]. destruct Hr as [?|Hx]; [by left | right; by apply Hclosed].
  - intros s Hs Ht Hr. rewrite Hloaded. destruct (decide (sk_id s ∈ cyclic)) as [Hcy|Hcy].
    + right. apply Hconf. destruct (Hcyclic _ Hcy) as (c & Hc & Hx). exists c. split; [by apply L4 | done].
    + assert (Hh : sk_id s ∈ high) by (apply Hhigh; split_and!; [by left | done | unfold byId; by rewrite (trusted_known (ri_skills i) s Hn Hs)]). destruct (L3 s Hs Hh Hr) as [?|?]; auto.
  - intros s Hs. rewrite Hloaded, elem_of_sort_by. destruct (L2 s Hs) as [?|[?|?]]; auto.
Qed.
End Loading.

(** ** Concrete skills *)

Module SampleSkills.
#[local] Instance as_is : Unicode := {| nfc := fun s => s; toUpperCase := fun s => s |}.

Definition skill (id scope : string) (deps : list string) (policy : LoadPolicy) (trust : TrustLabel) : DiscoveredSkill :=
  mkSkill (mkSkillDescriptor (u id) (u id) (u "what it does") (artifact_source (u "user-task") (u id) whole (u id)) (u scope) (u id) policy []) (u id) (u id) (map u deps) (u scope) trust.

Definition resolver (skills : list DiscoveredSkill) (proven : list string) : SkillResolverInput :=
  mkResolver (u "snap") skills [] [] [u "src/a.ts"] (map u proven) [] 0 None.
Definition resolve (i : SkillResolverInput) : result SkillErr SkillResolverResult := resolveSkills (fun _ => true) (fun _ => true) defaultEstimateTokens i.

Definition skills : list DiscoveredSkill :=
  [skill "build" "src" ["base"] lp_on_request trusted_project; skill "base" "." [] lp_on_request trusted_project; skill "must" "." [] lp_mandatory user;
   skill "rogue" "src" [] lp_mandatory untrusted_data].
Definition resolved : SkillResolverResult := Eval vm_compute in match resolve (resolver skills []) with Ok r => r | Err _ => mkResolved (mkManifest [] [] []) [] [] end.

Lemma resolved_skills_sound_witness : map ls_skillId (sr_loadedSkills resolved) = map u ["build"; "must"] /\ sr_omittedSkillIds resolved = map u ["base"; "rogue"] /\
  forall s, s ∈ skills -> sk_id s ∈ map ls_skillId (sr_loadedSkills resolved) \/ sk_id s ∈ sr_omittedSkillIds resolved \/ in_conflict (sk_id s) (sm_conflicts (sr_manifest resolved)).
Proof.
  assert (Hn : NoDup (map sk_id (ri_skills (resolver skills [])))) by (apply (bool_decide_unpack _); vm_compute; exact I).
  pose proof (resolved_skills_sound (fun _ => true) (fun _ => true) defaultEstimateTokens (resolver skills []) Hn) as H.
  assert (E : resolveSkills (fun _ => true) (fun _ => true) defaultEstimateTokens (resolver skills []) = Ok resolved) by (vm_compute; reflexivity). rewrite E in H.
  split; [vm_compute; reflexivity|]. split; [vm_compute; reflexivity|]. destruct H as (_ & _ & H3). exact H3.
Defined.

(** [c] is on the cycle of [b] and [c], but since [b] was found on the cycle of [a] and [b] before, [c] is
    neither reported nor kept from loading, while [b] is not loaded. *)
Definition cycles : list DiscoveredSkill :=
  [skill "a" "src" ["b"] lp_on_request user; skill "b" "." ["a"; "c"] lp_on_request user; skill "c" "." ["b"] lp_on_request user].
Lemma cycle_missed : match resolve (resolver cycles ["c"; "a"]) with
  | Ok r => map ls_skillId (sr_loadedSkills r) = [u "c"] /\ map sc_skillIds (sm_conflicts (sr_manifest r)) = [[u "a"; u "b"]]
  | Err _ => False
  end.
Proof. vm_compute. split; reflexivity. Qed.
End SampleSkills.
