(* ===== verification/Sandbox.v ===== *)
(** Sandbox jobs: the runner's side of the protocol (packages/sandbox/src/protocol.ts), the result of a
    guest (hyperv/result.ts), the redaction of secrets (redact.ts), the construction of a signed job and
    the reading of its result by the verifier (packages/verification/src/producers/sandbox-job.ts and
    sandbox-exec.ts, plan/command-authority.ts, observationsFor of evidence/run.ts), and the one-use
    grants of the secret broker (faex1/apps/secret-broker/src/grant-verifier.ts).

    The cryptographic primitives, the compiled schemas, the parsing and printing of dates and the
    backends that start virtual machines are parameters.  The set of consumed nonces is passed along,
    also when the code throws; a key pair the source generates is an argument.  The numbers of a guest
    frame are integers, as the guest's script prints them. *)

From Stdlib Require Import String.
From S2P Require Import Prelude Ids JsText CanonicalJson JsJson Digest ChangeApply Classification CloudWire ContextPacket Identity Plan PlanRevise Evidence.
Open Scope string_scope.
Open Scope list_scope.

Inductive ReasonCode : Set :=
| extraProperties | signatureInvalid | nonceReplay | jobExpired | leaseMismatch | audienceMismatch
| grantMissing | imageDigestMismatch | inputRootMismatch | schemaInvalid | capabilityAbsent
| outputPolicyViolation | attestationMismatch.
#[export] Instance ReasonCode_eq_dec : EqDecision ReasonCode.
Proof. solve_decision. Defined.

Definition REASON (r : ReasonCode) : ustr := u match r with
  | extraProperties => "extra-properties" | signatureInvalid => "signature-invalid" | jobExpired => "expired"
  | nonceReplay => "nonce-replay" | leaseMismatch => "lease-mismatch" | audienceMismatch => "audience-mismatch"
  | grantMissing => "grant-missing" | imageDigestMismatch => "image-digest-mismatch"
  | inputRootMismatch => "input-root-mismatch" | schemaInvalid => "schema-invalid"
  | capabilityAbsent => "capability-absent" | outputPolicyViolation => "output-policy-violation"
  | attestationMismatch => "attestation-mismatch"
  end.

(** What may be thrown. *)
Inductive SandboxErr : Type :=
| result_schema | not_json | digest_threw (e : DigestErr) | type_error | invalid_time | backend_error
| executable_not_in_image | mint_failed.

Definition of_digest_sandbox {A} (r : result DigestErr A) : result SandboxErr A :=
  match r with Ok a => Ok a | Err e => Err (digest_threw e) end.

(** ** Limits of a guest *)

Record SafetyProfile := mkSafety {
  sp_cpuMillis : Z; sp_memoryBytes : Z; sp_processCount : Z; sp_diskBytes : Z; sp_wallClockMillis : Z;
  sp_stdoutBytes : Z; sp_stderrBytes : Z
}.

Record SandboxResourceUsage := mkUsage {
  ru_cpuMillis : Z; ru_peakMemoryBytes : Z; ru_peakProcessCount : Z; ru_writtenBytes : Z;
  ru_networkSentBytes : Z; ru_networkReceivedBytes : Z; ru_wallClockMillis : Z
}.

Inductive SafetyVerdict : Set := safety_ok | safety_limit | safety_timeout.
#[export] Instance SafetyVerdict_eq_dec : EqDecision SafetyVerdict.
Proof. solve_decision. Defined.

Definition evaluateSafety (usage : SandboxResourceUsage) (profile : SafetyProfile) (timedOut : bool) : SafetyVerdict :=
  if timedOut then safety_timeout
  else if (sp_processCount profile <? ru_peakProcessCount usage)%Z then safety_limit
  else if (sp_diskBytes profile <? ru_writtenBytes usage)%Z then safety_limit
  else if (sp_memoryBytes profile <? ru_peakMemoryBytes usage)%Z then safety_limit
  else if (sp_cpuMillis profile <? ru_cpuMillis usage)%Z then safety_limit
  else if (sp_wallClockMillis profile <? ru_wallClockMillis usage)%Z then safety_limit
  else safety_ok.

Definition boundOutput (bs : bytes) (limit : Z) : bytes * bool :=
  if (Z.of_nat (length bs) <=? limit)%Z then (bs, false)
  else (take (Z.to_nat (if (limit <? 0)%Z then Z.of_nat (length bs) + limit else limit)) bs, true).

(** ** Hypervisor binaries and the environment of a guest *)

Definition HYPERVISOR_BINARIES : list ustr :=
  map u ["qemu-system-x86_64"; "qemu-system-x86_64.exe"; "qemu-img"; "qemu-img.exe"; "powershell"; "powershell.exe";
         "pwsh"; "pwsh.exe"].

Definition hypervisorBinaryAllowed (file : ustr) : bool :=
  let normalized := replaceAll [BACKSLASH] [SLASH] file in
  includes (toLowerCase (default normalized (last (split_unit SLASH normalized)))) HYPERVISOR_BINARIES.

Inductive Platform : Set := p_linux | p_windows | p_macos.
#[export] Instance Platform_eq_dec : EqDecision Platform.
Proof. solve_decision. Defined.

Definition guest_allowed : list ustr := map u ["LANG"; "LC_ALL"; "TZ"; "TERM"].

(** [/proxy|secret|token|credential|cas_|control_/i] *)
Definition guest_secret_re : regex :=
  alts (map (lit_i false) ["proxy"; "secret"; "token"; "credential"; "cas_"; "control_"]).

Definition guestEnvironment (platform : Platform) (commandEnvironment hostEnvironment : list (ustr * ustr)) : list (ustr * ustr) :=
  let pathValue := if bool_decide (platform = p_windows) then u "C:\sandbox\bin" else u "/usr/bin:/bin" in
  foldl (fun env kv =>
      if negb (includes kv.1 guest_allowed) then env
      else if test guest_secret_re (kv.1 ++ u "=" ++ kv.2) then env
      else JsMap.set kv.1 kv.2 env)
    [(u "PATH", pathValue); (u "HOME", u "/sandbox"); (u "TZ", u "UTC")] commandEnvironment.

(** ** Redaction (redact.ts) *)

Definition upper_hex (c : N) : N := if in_range 97 102 c then (c - 32)%N else c.

Definition hex_units (bs : bytes) : ustr := concat (map (fun b => [hex_digit (b / 16); hex_digit (b mod 16)]%N) bs).

(** The loop over the occurrences of [needle], which is not empty: the encodings of a secret that is not empty are not
    either *)
Definition redact_needle (needle replacement : bytes) (input : bytes) : bytes := replace_from (length input) needle replacement input.

(** [utf8.toString("base64url")]: the other alphabet, without padding *)
Definition base64url_encode (bs : bytes) : ustr :=
  map (fun c => if (c =? 43)%N then 45%N else if (c =? 47)%N then 95%N else c)
    (List.filter (fun c => negb (c =? 61)%N) (b64_encode bs)).

Section Redaction.
(** [encodeURIComponent(utf8.toString("utf8"))] *)
Variable toUriComponent : bytes -> ustr.

Definition encodingsOf (secret : bytes) : list bytes :=
  [secret; utf8_encode (hex_units secret); utf8_encode (map upper_hex (hex_units secret)); utf8_encode (b64_encode secret);
   utf8_encode (base64url_encode secret); utf8_encode (toUriComponent secret)].

Definition redactSecretMaterial (input : bytes) (secrets : list bytes) : bytes :=
  foldl (fun current secret =>
      if (length secret =? 0)%nat then current else
      foldl (fun current needle => redact_needle needle (utf8_encode (u "***REDACTED***")) current) current
        (sort_by (fun left right => (length right <=? length left)%nat) (encodingsOf secret)))
    input secrets.
End Redaction.

(** ** Envelopes as they arrive *)

Section Protocol.
Context {DD : Doubles} {HH : Hashing} {KeyObject : Type}.
(** [cryptoVerify(null, input, publicKey, Buffer.from(signature, "base64"))], [cryptoSign(null, input, key)] *)
Variable cryptoVerify : bytes -> KeyObject -> ustr -> bool.
Variable cryptoSign : bytes -> KeyObject -> bytes.

Definition json_of (v : jsvalue) : result SandboxErr jsvalue :=
  match toJsonValue v with Ok json => Ok json | Err _ => Err not_json end.

Definition sandboxObjectDigestOf (value : jsvalue) : result SandboxErr Digest :=
  let? text := of_digest_sandbox (of_canon (canonicalize value)) in Ok (sha256Utf8 text).

Record EnvelopeShape := mkShape {
  es_schemaName : ustr;
  es_schemaVersion : number double;
  es_payload : jsvalue;
  es_payloadDigest : ustr;
  es_signatures : list EnvelopeSignature
}.

(** [isEnvelopeSignature], with the value as a signature *)
Definition isEnvelopeSignature (value : jsvalue) : option EnvelopeSignature :=
  match object_field "keyId" value, object_field "algorithm" value, object_field "signedAt" value,
        object_field "signerCertificateObjectDigest" value, object_field "signature" value with
  | VStr kid, VStr alg, VStr at_, VStr cert, VStr sig =>
      if bool_decide (alg = u "Ed25519") || bool_decide (alg = u "ECDSA-P256-SHA256")
      then Some (mkSignature kid alg at_ cert sig) else None
  | _, _, _, _, _ => None
  end.

Definition parseEnvelope (input : jsvalue) : option EnvelopeShape :=
  match object_field "schemaName" input, object_field "schemaVersion" input,
        object_field "payloadDigest" input, object_field "signatures" input with
  | VStr name, VNum ver, VStr digest, VArr entries =>
      sigs ← mapM isEnvelopeSignature entries;
      Some (mkShape name ver (object_field "payload" input) digest sigs)
  | _, _, _, _ => None
  end.

(** [payloadDigest] and [signatureInputDigest] with the version as it arrived *)
Definition shape_payloadDigest (name : ustr) (ver : number double) (p : jsvalue) : result DigestErr Digest :=
  taggedHash "artifact-payload" 1
    (VObj [(u "schemaName", VStr name); (u "schemaVersion", VNum ver); (u "payload", p)]).
Definition shape_signatureInput (name : ustr) (ver : number double) (digest : ustr) (s : EnvelopeSignature) : result DigestErr Digest :=
  taggedHash "artifact-signature-input" 1
    (VObj [(u "schemaName", VStr name); (u "schemaVersion", VNum ver);
           (u "payloadDigest", VStr digest); (u "keyId", VStr (keyId s));
           (u "algorithm", VStr (algorithm s)); (u "signedAt", VStr (signedAt s));
           (u "signerCertificateObjectDigest", VStr (signerCertificateObjectDigest s))]).

Definition verifyDetached (e : EnvelopeShape) (publicKey : KeyObject) : result SandboxErr bool :=
  let? p := json_of (es_payload e) in
  let? digest := of_digest_sandbox (shape_payloadDigest (es_schemaName e) (es_schemaVersion e) p) in
  if bool_decide (digest <> es_payloadDigest e) then Ok false else
  match es_signatures e with
  | [] => Ok false
  | s :: _ =>
      if bool_decide (algorithm s <> u "Ed25519") then Ok false else
      let? input := of_digest_sandbox (shape_signatureInput (es_schemaName e) (es_schemaVersion e) digest s) in
      Ok (cryptoVerify (utf8_encode input) publicKey (signature s))
  end.

Definition verifyInputSignature (input : jsvalue) (publicKey : KeyObject) : result SandboxErr bool :=
  match parseEnvelope input with None => Ok false | Some parsed => verifyDetached parsed publicKey end.

Definition envelopePayload (input : jsvalue) : jsvalue :=
  match parseEnvelope input with None => VUndefined | Some parsed => es_payload parsed end.

Definition signJobEnvelope (name : ustr) (p : jsvalue) (privateKey : KeyObject) (kid cert at_ : ustr)
    : result SandboxErr (ArtifactEnvelope jsvalue) :=
  let? digest := of_digest_sandbox (payloadDigest name 1 p) in
  let unsigned := mkSignature kid (u "Ed25519") at_ cert [] in
  let? input := of_digest_sandbox (signatureInputDigest name 1 digest unsigned cert) in
  Ok (mkEnvelope name 1 p digest
        [mkSignature kid (u "Ed25519") at_ cert (b64_encode (cryptoSign (utf8_encode input) privateKey))]).

(** The envelope as the JSON value that is sent *)
Definition envelope_value (e : ArtifactEnvelope jsvalue) : jsvalue :=
  VObj [(u "schemaName", VStr (schemaName e)); (u "schemaVersion", VInt (schemaVersion e)); (u "payload", payload e);
        (u "payloadDigest", VStr (env_payloadDigest e)); (u "signatures", VArr (map signature_json (signatures e)))].

(** ** Results *)

Record JobIdentity := mkJobIdentity {
  ji_projectId : ustr;
  ji_runId : ustr;
  ji_operationId : ustr;
  ji_leaseGeneration : number double
}.

Definition identityFromPayload (p : jsvalue) : JobIdentity :=
  let text k fallback := match object_field k p with VStr s => s | _ => u fallback end in
  mkJobIdentity (text "projectId" "invalid") (text "runId" "run_01234567-89ab-7cde-8f01-23456789abcd")
    (text "operationId" "op_01234567-89ab-7cde-8f01-23456789abcd")
    (match object_field "leaseGeneration" p with VNum n => n | _ => SafeInt 0 end).

Inductive Termination : Set := EXITED | SIGNALLED | SAFETY_LIMIT.
#[export] Instance Termination_eq_dec : EqDecision Termination.
Proof. solve_decision. Defined.

Inductive SandboxJobResult : Type :=
| JOB_COMPLETED (identity : JobIdentity) (jobDigest : Digest) (exitCode : Z) (termination : Termination)
    (stdoutObjectDigest stderrObjectDigest : Digest) (produced : list Digest) (outputTree : Digest)
    (usage : SandboxResourceUsage) (startedAt completedAt : ustr)
| JOB_REJECTED (identity : JobIdentity) (jobDigest : Digest) (reasonCode : ustr) (evidence : Digest) (completedAt : ustr)
| JOB_UNKNOWN (identity : JobIdentity) (jobDigest : Digest) (lastEvidence : Digest) (completedAt : ustr).

Definition termination_text (t : Termination) : ustr :=
  u match t with EXITED => "EXITED" | SIGNALLED => "SIGNALLED" | SAFETY_LIMIT => "SAFETY_LIMIT" end.

Definition identity_fields (i : JobIdentity) (outcome : string) (jobDigest : Digest) : list (ustr * jsvalue) :=
  [(u "schemaVersion", VInt 1); (u "outcome", VStr (u outcome)); (u "projectId", VStr (ji_projectId i));
   (u "runId", VStr (ji_runId i)); (u "operationId", VStr (ji_operationId i));
   (u "leaseGeneration", VNum (ji_leaseGeneration i)); (u "sandboxJobObjectDigest", VStr jobDigest)].

Definition usage_json (r : SandboxResourceUsage) : jsvalue :=
  VObj [(u "cpuMillis", VInt (ru_cpuMillis r)); (u "peakMemoryBytes", VInt (ru_peakMemoryBytes r));
        (u "peakProcessCount", VInt (ru_peakProcessCount r)); (u "writtenBytes", VInt (ru_writtenBytes r));
        (u "networkSentBytes", VInt (ru_networkSentBytes r)); (u "networkReceivedBytes", VInt (ru_networkReceivedBytes r));
        (u "wallClockMillis", VInt (ru_wallClockMillis r))].

Definition job_result_json (r : SandboxJobResult) : jsvalue :=
  match r with
  | JOB_COMPLETED i d ec t out err produced tree usage started completed =>
      VObj (identity_fields i "COMPLETED" d ++
        [(u "exitCode", VInt ec); (u "termination", VStr (termination_text t)); (u "stdoutObjectDigest", VStr out);
         (u "stderrObjectDigest", VStr err); (u "producedArtifactObjectDigests", VArr (map VStr produced));
         (u "observedOutputTreeDigest", VStr tree); (u "resourceUsage", usage_json usage); (u "startedAt", VStr started);
         (u "completedAt", VStr completed)])
  | JOB_REJECTED i d reason evidence completed =>
      VObj (identity_fields i "REJECTED" d ++
        [(u "reasonCode", VStr reason); (u "evidenceObjectDigest", VStr evidence); (u "completedAt", VStr completed)])
  | JOB_UNKNOWN i d evidence completed =>
      VObj (identity_fields i "OUTCOME_UNKNOWN" d ++
        [(u "lastEvidenceObjectDigest", VStr evidence); (u "completedAt", VStr completed)])
  end.

(** [jobValidator.Check] and [resultValidator.Check] *)
Variable jobCheck : jsvalue -> bool.
Variable resultCheck : SandboxJobResult -> bool.

Definition rejectedResult (identity : JobIdentity) (jobDigest : Digest) (reason : ReasonCode) (evidence : jsvalue)
    (completedAt : ustr) : result SandboxErr SandboxJobResult :=
  let? d := sandboxObjectDigestOf evidence in
  let r := JOB_REJECTED identity jobDigest (REASON reason) d completedAt in
  throw_if negb (resultCheck r) with result_schema; Ok r.

Definition unknownResult (identity : JobIdentity) (jobDigest : Digest) (evidence : jsvalue) (completedAt : ustr)
    : result SandboxErr SandboxJobResult :=
  let? d := sandboxObjectDigestOf evidence in
  let r := JOB_UNKNOWN identity jobDigest d completedAt in
  throw_if negb (resultCheck r) with result_schema; Ok r.

Definition sandboxOutputTreeDigest (entries : list (ustr * Digest * Z)) : result SandboxErr Digest :=
  let sorted := sort_by (fun left right => utf16_leb left.1.1 right.1.1) entries in
  of_digest_sandbox (taggedHash "sandbox-output-tree" 1
    (VObj [(u "entries", VArr (map (fun e => VObj [(u "path", VStr e.1.1); (u "digest", VStr e.1.2); (u "byteLength", VInt e.2)]) sorted))])).

(** ** Signing the output *)

Record JobAttestation := mkAttestation {
  at_jobNonce : ustr;
  at_ephemeralSpkiSha256 : ustr;
  at_runnerCertificateObjectDigest : Digest;
  at_issuedAt : ustr;
  at_expiresAt : ustr;
  at_signature : ustr
}.

(** The attestation without its signature *)
Definition attestation_json (a : JobAttestation) : jsvalue :=
  VObj [(u "schemaVersion", VInt 1); (u "jobNonce", VStr (at_jobNonce a));
        (u "ephemeralSpkiSha256", VStr (at_ephemeralSpkiSha256 a));
        (u "runnerCertificateObjectDigest", VStr (at_runnerCertificateObjectDigest a));
        (u "issuedAt", VStr (at_issuedAt a)); (u "expiresAt", VStr (at_expiresAt a))].

Definition attestation_text (a : JobAttestation) : result SandboxErr ustr :=
  let? json := json_of (attestation_json a) in of_digest_sandbox (of_canon (canonicalize json)).

Definition signAttestation (a : JobAttestation) (runnerPrivateKey : KeyObject) : result SandboxErr JobAttestation :=
  let? canonical := attestation_text a in
  Ok (mkAttestation (at_jobNonce a) (at_ephemeralSpkiSha256 a) (at_runnerCertificateObjectDigest a) (at_issuedAt a)
        (at_expiresAt a) (b64_encode (cryptoSign (utf8_encode canonical) runnerPrivateKey))).

Record SignedSandboxJobResult := mkSignedResult {
  sr_result : SandboxJobResult;
  sr_envelope : ArtifactEnvelope jsvalue;
  sr_attestation : JobAttestation;
  sr_ephemeralPublicKey : KeyObject
}.

(** [generateKeyPairSync("ed25519")] and the exported public key *)
Record EphemeralKeys := mkKeys { ek_private : KeyObject; ek_public : KeyObject; ek_spki : bytes }.

Inductive CapabilityProbe : Type := available | unavailable (missing : ustr).

Record SandboxImageRef := mkImage { im_platform : Platform; im_digest : Digest; im_path : ustr; im_provenancePath : ustr }.

Record SandboxBackend := mkBackend {
  probe : SandboxImageRef -> CapabilityProbe;
  run_backend : jsvalue -> result SandboxErr SandboxJobResult
}.

Record SandboxBackends := mkBackends { qemu : SandboxBackend; hyperv : SandboxBackend; macos : SandboxBackend }.

(** The context without the set of consumed nonces; what only the backends read is left out. *)
Record SandboxExecutionContext := mkExecution {
  sx_now : ustr;
  sx_runnerId : ustr;
  sx_runnerPrivateKey : KeyObject;
  sx_runnerCertificateDigest : Digest;
  sx_runnerCertificateSerial : ustr;
  sx_controlPublicKey : KeyObject;
  sx_identityStore : IdentityStorePort;
  sx_currentLeaseGeneration : Z;
  sx_expectedInputRoot : Digest;
  sx_expectedImageDigest : Digest;
  sx_platform : Platform;
  sx_image : SandboxImageRef;
  sx_backends : SandboxBackends
}.

(** [Date.parse]: milliseconds, [None] when not finite. *)
Variable Date_parse : ustr -> option Z.

(** [new Date(Date.parse(now) + 15 * 60 * 1000).toISOString()], [None] when it throws *)
Definition fifteenMinutesLater (now : ustr) : option ustr := date_plus Date_parse now (15 * 60 * 1000).
(** [process.platform === "win32"] *)
Variable host_windows : bool.

Definition signOutput (r : SandboxJobResult) (context : SandboxExecutionContext) (keys : EphemeralKeys) (jobNonce : ustr)
    : result SandboxErr SignedSandboxJobResult :=
  let spkiSha256 := sha256_hex (ek_spki keys) in
  let certDigest := u "sha256:" ++ spkiSha256 in
  let? json := json_of (job_result_json r) in
  let? envelope := signJobEnvelope (u "SandboxJobResult") json (ek_private keys)
    (u "ephemeral-" ++ take 16 spkiSha256) certDigest (sx_now context) in
  match fifteenMinutesLater (sx_now context) with
  | None => Err invalid_time
  | Some expires =>
      let? attestation := signAttestation
        (mkAttestation jobNonce spkiSha256 (sx_runnerCertificateDigest context) (sx_now context) expires [])
        (sx_runnerPrivateKey context) in
      Ok (mkSignedResult r envelope attestation (ek_public keys))
  end.

(** ** Admission and dispatch *)

Definition runnerHasProjectGrant (context : SandboxExecutionContext) (projectId : ustr) : bool :=
  let digest := sx_runnerCertificateDigest context in
  let spki := if startsWith (u "sha256:") digest then drop (length (u "sha256:")) digest else digest in
  match lookupBySerialAndSpki (sx_identityStore context) (sx_runnerCertificateSerial context) spki with
  | None => false
  | Some record =>
      match revokedAt record with
      | Some _ => false
      | None => existsb (fun g => bool_decide (g_projectId g = projectId) && bool_decide (g_revokedAt g = None))
                  (listGrants (sx_identityStore context) (sx_runnerId context))
      end
  end.

Definition backend_for (context : SandboxExecutionContext) : SandboxBackend :=
  match sx_platform context with
  | p_linux => if host_windows then hyperv (sx_backends context) else qemu (sx_backends context)
  | p_windows => hyperv (sx_backends context)
  | p_macos => macos (sx_backends context)
  end.

Definition dispatch (job : jsvalue) (context : SandboxExecutionContext) : result SandboxErr SandboxJobResult :=
  let identity := identityFromPayload job in
  let? json := json_of job in
  let? digest := sandboxObjectDigestOf json in
  let backend := backend_for context in
  match probe backend (sx_image context) with
  | unavailable missing =>
      unknownResult identity digest
        (VObj [(u "reason", VStr (REASON capabilityAbsent)); (u "missing", VStr missing)]) (sx_now context)
  | available => run_backend backend job
  end.

Definition jobObjectDigest (e : EnvelopeShape) : result SandboxErr Digest :=
  let? p := json_of (es_payload e) in
  let? sorted := of_digest_sandbox (sortSignatures (es_signatures e)) in
  let? text := of_digest_sandbox (of_canon (canonicalize
    (VObj [(u "schemaName", VStr (es_schemaName e)); (u "schemaVersion", VNum (es_schemaVersion e)); (u "payload", p);
           (u "payloadDigest", VStr (es_payloadDigest e)); (u "signatures", VArr (map signature_json sorted))]))) in
  Ok (objectDigestFromBytes (utf8_encode text)).

(** [payload.nonce] where it is a string: reading it from [null] or [undefined] throws *)
Definition payload_nonce (p : jsvalue) : result SandboxErr ustr :=
  match p with VNull | VUndefined => Err type_error | _ => Ok (string_field "nonce" p) end.

(** [value === number] for an integer *)
Definition is_integer (v : jsvalue) (z : Z) : bool :=
  match v with VNum (SafeInt x) => (x =? z)%Z | VNum NegZero => (0 =? z)%Z | _ => false end.

(** [left < right] on strings *)
Definition text_before (left right : ustr) : bool := negb (utf16_leb right left).

Definition executeSandboxJob (consumed : list ustr) (envelopeInput : jsvalue) (context : SandboxExecutionContext)
    (keys : EphemeralKeys) : list ustr * result SandboxErr SignedSandboxJobResult :=
  let reason_json reason := VObj [(u "reason", VStr (REASON reason))] in
  let rejected identity digest reason nonce :=
    let? r := rejectedResult identity digest reason (reason_json reason) (sx_now context) in
    signOutput r context keys nonce in
  let schema_invalid p :=
    let? digest := sandboxObjectDigestOf (reason_json schemaInvalid) in
    rejected (identityFromPayload p) digest schemaInvalid [] in
  match parseEnvelope envelopeInput with
  | None => (consumed, schema_invalid VUndefined)
  | Some parsed =>
      let job := es_payload parsed in
      if bool_decide (es_schemaName parsed <> u "SandboxJob") then (consumed, schema_invalid job) else
      let identity := identityFromPayload job in
      match jobObjectDigest parsed with
      | Err e => (consumed, Err e)
      | Ok digest =>
      match payload_nonce job with
      | Err e => (consumed, Err e)
      | Ok nonce =>
      if negb (jobCheck job) then (consumed, rejected identity digest extraProperties nonce) else
      match verifyDetached parsed (sx_controlPublicKey context) with
      | Err e => (consumed, Err e)
      | Ok false => (consumed, rejected identity digest signatureInvalid nonce)
      | Ok true =>
      if includes nonce consumed then (consumed, rejected identity digest nonceReplay nonce) else
      let consumed := consumed ++ [nonce] in
      let issued := string_field "issuedAt" job in
      let expires := string_field "expiresAt" job in
      if text_before (sx_now context) issued || text_before expires (sx_now context) || utf16_leb expires issued
      then (consumed, rejected identity digest jobExpired nonce)
      else if bool_decide (string_field "targetRunnerId" job <> sx_runnerId context)
      then (consumed, rejected identity digest audienceMismatch nonce)
      else if negb (runnerHasProjectGrant context (string_field "projectId" job))
      then (consumed, rejected identity digest grantMissing nonce)
      else if negb (is_integer (object_field "leaseGeneration" job) (sx_currentLeaseGeneration context))
      then (consumed, rejected identity digest leaseMismatch nonce)
      else if bool_decide (string_field "sandboxImageObjectDigest" job <> sx_expectedImageDigest context)
      then (consumed, rejected identity digest imageDigestMismatch nonce)
      else if bool_decide (string_field "inputTreeRootDigest" job <> sx_expectedInputRoot context)
      then (consumed, rejected identity digest inputRootMismatch nonce)
      else (consumed, let? r := dispatch job context in signOutput r context keys nonce)
      end end end
  end.

(** ** The result of a guest (hyperv/result.ts) *)

Record GuestFrame := mkFrame {
  gf_ec : Z; gf_term : Termination; gf_out : ustr; gf_err : ustr; gf_nproc : Z; gf_wrote : Z; gf_priv : Z; gf_ns : Z;
  gf_ulimit : Z
}.

Definition identityOf (job : jsvalue) : JobIdentity :=
  mkJobIdentity (string_field "projectId" job) (string_field "runId" job) (string_field "operationId" job)
    (match object_field "leaseGeneration" job with VNum n => n | _ => NonFinite end).

(** [Buffer.from(text, "base64")], which ignores what is not base64 and does not throw *)
Variable Buffer_from_base64 : ustr -> bytes.

Definition resultFromGuestFrame (job : jsvalue) (frame : option GuestFrame) (safety : SafetyProfile)
    (stdoutLimit stderrLimit : Z) (startedAt completedAt : ustr) (networkSentBytes networkReceivedBytes : Z)
    : result SandboxErr SandboxJobResult :=
  let identity := identityOf job in
  let? json := json_of job in
  let? jobDigest := sandboxObjectDigestOf json in
  let unknown reason := unknownResult identity jobDigest (VObj [(u "reason", VStr (u reason))]) completedAt in
  match frame with
  | None => unknown "guest-timeout"
  | Some frame =>
      if (gf_priv frame =? 0)%Z || (gf_ulimit frame =? 0)%Z then unknown "privilege-or-ulimit-unenforceable"
      else if (gf_ns frame =? 0)%Z then unknown "oci-namespaces-unenforceable"
      else
      let stdout := Buffer_from_base64 (gf_out frame) in
      let stderr := Buffer_from_base64 (gf_err frame) in
      let boundedOut := boundOutput stdout stdoutLimit in
      let boundedErr := boundOutput stderr stderrLimit in
      let usage wall := mkUsage 0 0 (Z.max 0 (gf_nproc frame)) (Z.max 0 (gf_wrote frame)) (Z.max 0 networkSentBytes)
                          (Z.max 0 networkReceivedBytes) wall in
      let timedOut := bool_decide (gf_term frame = SAFETY_LIMIT) &&
        ((gf_ec frame =? 124)%Z || (gf_ec frame =? 137)%Z || (gf_ec frame =? 143)%Z) in
      let verdict := evaluateSafety (usage (if timedOut then sp_wallClockMillis safety + 1 else 0)%Z) safety timedOut in
      let termination :=
        if bool_decide (verdict = safety_limit) || bool_decide (verdict = safety_timeout) then SAFETY_LIMIT
        else gf_term frame in
      let? tree := sandboxOutputTreeDigest [] in
      let r := JOB_COMPLETED identity jobDigest (gf_ec frame) termination (objectDigestFromBytes boundedOut.1)
                 (objectDigestFromBytes boundedErr.1) [] tree (usage 0%Z) startedAt completedAt in
      if negb (resultCheck r) then unknown "completed-schema-invalid" else Ok r
  end.

(** ** Signed jobs of the verifier (plan/command-authority.ts, producers/sandbox-job.ts) *)

Record SealedImageIndex := mkImageIndex {
  si_files : list (ustr * Digest);
  si_sandboxImageObjectDigest : Digest;
  si_safetyProfileObjectDigest : Digest
}.

Definition approvalForCommand (spec : jsvalue) : CheckApproval :=
  if bool_decide (string_field "authority" spec = u "CLOUD_PROPOSED") then REQUIRE_USER else APPROVAL_AUTO.

Definition executionGate (a : CheckApproval) : ustr :=
  u match a with APPROVAL_AUTO => "run" | REQUIRE_USER => "wait" | APPROVAL_DENY => "deny" end.

Definition normalizeSnapshotPath (executable : ustr) : result SandboxErr ustr :=
  let replaced := replaceAll [BACKSLASH] [SLASH] executable in
  let trimmed := if startsWith [SLASH] replaced then drop 1 replaced else replaced in
  throw_if includes_text (u "..") trimmed || bool_decide (trimmed = []) with executable_not_in_image; Ok trimmed.

Definition signPlanEnvelope (name : ustr) (p : jsvalue) (privateKey : KeyObject) (kid cert at_ : ustr)
    : result SandboxErr (ArtifactEnvelope jsvalue) :=
  let? digest := of_digest_sandbox (payloadDigest name 1 p) in
  let unsigned := mkSignature kid (u "Ed25519") at_ cert [] in
  let? input := of_digest_sandbox (signatureInputDigest name 1 digest unsigned cert) in
  Ok (mkEnvelope name 1 p digest
        [mkSignature kid (u "Ed25519") at_ cert (b64_encode (cryptoSign (utf8_encode input) privateKey))]).

Record SandboxJobSigner := mkJobSigner {
  js_privateKey : KeyObject; js_keyId : ustr; js_certDigest : Digest; js_signedAt : ustr; js_expiresAt : ustr
}.

Record SandboxJobIdentity := mkBindingIdentity {
  bi_projectId : ustr;
  bi_runId : ustr;
  bi_operationId : ustr;
  bi_leaseGeneration : Z;
  bi_targetRunnerId : ustr;
  bi_inputTreeRootDigest : Digest;
  bi_environmentRecipeObjectDigest : Digest;
  bi_approvalOrStandingPolicyObjectDigest : Digest
}.

Record SandboxJobBinding := mkJobBinding { jb_image : SealedImageIndex; jb_signer : SandboxJobSigner; jb_identity : SandboxJobIdentity }.

Definition bindCommandSpecEnvelope (spec : jsvalue) (s : SandboxJobSigner) : result SandboxErr (ArtifactEnvelope jsvalue * Digest) :=
  let? json := json_of spec in
  let? e := signPlanEnvelope (u "CommandSpec") json (js_privateKey s) (js_keyId s) (js_certDigest s) (js_signedAt s) in
  let? d := of_digest_sandbox (envelopeObjectDigest e) in Ok (e, d).

Definition bindResolvedCommandEnvelope (resolved : jsvalue) (s : SandboxJobSigner)
    : result SandboxErr (ArtifactEnvelope jsvalue * Digest) :=
  let? json := json_of resolved in
  let? e := signPlanEnvelope (u "ResolvedCommandSpec") json (js_privateKey s) (js_keyId s) (js_certDigest s) (js_signedAt s) in
  let? d := of_digest_sandbox (envelopeObjectDigest e) in Ok (e, d).

Definition commandSpecContentDigest (spec : jsvalue) : result SandboxErr Digest :=
  let? json := json_of spec in Ok (objectDigestFromBytes (utf8_encode (JSON_stringify json))).

Definition resolveCommandSpec (spec : jsvalue) (sourceCommandObjectDigest : Digest) (image : SealedImageIndex)
    : result SandboxErr jsvalue :=
  let? executablePath := normalizeSnapshotPath (string_field "executable" spec) in
  match JsMap.get executablePath (si_files image) with
  | None => Err executable_not_in_image
  | Some executableDigest =>
      Ok (VObj [(u "schemaVersion", VInt 1); (u "sourceCommandObjectDigest", VStr sourceCommandObjectDigest);
                (u "executablePath", VStr executablePath); (u "executableDigest", VStr executableDigest);
                (u "argv", object_field "argv" spec); (u "workingDirectory", object_field "workingDirectory" spec);
                (u "environment", VObj []); (u "secretHandles", object_field "secretHandles" spec);
                (u "networkDestinations", VArr []); (u "readOnlyMounts", VArr []);
                (u "writableRoots", object_field "writableRoots" spec);
                (u "sandboxImageObjectDigest", VStr (si_sandboxImageObjectDigest image));
                (u "safetyProfileObjectDigest", VStr (si_safetyProfileObjectDigest image))])
  end.

Definition phaseFor (s : CheckSubject) : ustr :=
  u match s with SUBJECT_BASELINE => "BASELINE" | SUBJECT_CANDIDATE => "CANDIDATE" | SUBJECT_PAIRED => "ADDITIONAL_CHECK" end.

Definition sandbox_job (check : CheckNode) (b : SandboxJobBinding) (resolvedDigest : Digest) (nonce : ustr) : jsvalue :=
  let i := jb_identity b in
  VObj [(u "schemaVersion", VInt 1); (u "projectId", VStr (bi_projectId i)); (u "runId", VStr (bi_runId i));
        (u "operationId", VStr (bi_operationId i)); (u "leaseGeneration", VInt (bi_leaseGeneration i));
        (u "targetRunnerId", VStr (bi_targetRunnerId i)); (u "phase", VStr (phaseFor (check_subject check)));
        (u "resolvedCommandSpecObjectDigest", VStr resolvedDigest);
        (u "approvalOrStandingPolicyObjectDigest", VStr (bi_approvalOrStandingPolicyObjectDigest i));
        (u "inputTreeRootDigest", VStr (bi_inputTreeRootDigest i));
        (u "environmentRecipeObjectDigest", VStr (bi_environmentRecipeObjectDigest i));
        (u "sandboxImageObjectDigest", VStr (si_sandboxImageObjectDigest (jb_image b)));
        (u "safetyProfileObjectDigest", VStr (si_safetyProfileObjectDigest (jb_image b)));
        (u "secretInjectionGrantObjectDigests", VArr []);
        (u "outputPolicy", VObj [(u "stdoutBytes", VInt 65536); (u "stderrBytes", VInt 65536);
           (u "artifactBytes", VInt 1048576); (u "allowedArtifactGlobs", VArr [VStr (u "out/**")])]);
        (u "issuedAt", VStr (js_signedAt (jb_signer b))); (u "expiresAt", VStr (js_expiresAt (jb_signer b)));
        (u "nonce", VStr nonce)].

Record SignedSandboxCommand := mkSignedCommand {
  sc_resolved : jsvalue;
  sc_resolvedEnvelopeDigest : Digest;
  sc_commandEnvelopeDigest : Digest;
  sc_jobEnvelope : ArtifactEnvelope jsvalue
}.

Definition buildSignedSandboxJob (spec : jsvalue) (check : CheckNode) (b : SandboxJobBinding) : result SandboxErr SignedSandboxCommand :=
  let? '(commandEnvelope, commandDigest) := bindCommandSpecEnvelope spec (jb_signer b) in
  let? resolved := resolveCommandSpec spec commandDigest (jb_image b) in
  let? '(resolvedEnvelope, resolvedDigest) := bindResolvedCommandEnvelope resolved (jb_signer b) in
  match mintGeneralId (u "nonce") (check_id check ++ u ":" ++ resolvedDigest) with
  | None => Err mint_failed
  | Some nonce =>
      let? json := json_of (sandbox_job check b resolvedDigest nonce) in
      let s := jb_signer b in
      let? jobEnvelope := signPlanEnvelope (u "SandboxJob") json (js_privateKey s) (js_keyId s) (js_certDigest s) (js_signedAt s) in
      let? commandEnvelopeDigest := of_digest_sandbox (envelopeObjectDigest commandEnvelope) in
      Ok (mkSignedCommand resolved resolvedDigest commandEnvelopeDigest jobEnvelope)
  end.

(** ** Executors (producers/sandbox-exec.ts, [observationsFor] of evidence/run.ts) *)

Inductive SandboxCommandResult : Type :=
| COMMAND_COMPLETED (exitCode : Z) (observations : list RunObservation)
| COMMAND_UNKNOWN (reason : ustr) (observations : list RunObservation)
| COMMAND_REJECTED (reason : ustr) (observations : list RunObservation).

Definition command_observations (r : SandboxCommandResult) : list RunObservation :=
  match r with COMMAND_COMPLETED _ o | COMMAND_UNKNOWN _ o | COMMAND_REJECTED _ o => o end.

Definition error_observation : RunObservation := mkObservation 1 None ERROR None None 0 None None.

Record SandboxRunInput := mkRunInput {
  ri_spec : jsvalue; ri_resolved : jsvalue; ri_resolvedEnvelopeDigest : Digest;
  ri_jobEnvelope : ArtifactEnvelope jsvalue; ri_networkRequired : bool
}.

Definition network_none (spec : jsvalue) : bool := bool_decide (string_field "network" spec = u "NONE").

(** [createSandboxExecutor(context).run] *)
Definition run_in_sandbox (consumed : list ustr) (input : SandboxRunInput) (context : SandboxExecutionContext)
    (keys : EphemeralKeys) : list ustr * result SandboxErr SandboxCommandResult :=
  if bool_decide (string_field "executablePath" (ri_resolved input) = [])
  then (consumed, Ok (COMMAND_REJECTED (u "executable-not-resolved") [error_observation]))
  else if negb (ri_networkRequired input) && negb (network_none (ri_spec input))
  then (consumed, Ok (COMMAND_UNKNOWN (u "network-capability-unavailable") [error_observation]))
  else if match payload (ri_jobEnvelope input) with
          | VObj fields => negb match JsMap.get (u "resolvedCommandSpecObjectDigest") fields with
                                | Some (VStr d) => bool_decide (d = ri_resolvedEnvelopeDigest input) | _ => false end
          | _ => false
          end
  then (consumed, Ok (COMMAND_REJECTED (u "resolved-digest-mismatch") [error_observation]))
  else
    let '(consumed, signed) := executeSandboxJob consumed (envelope_value (ri_jobEnvelope input)) context keys in
    (consumed,
     let? signed := signed in
     Ok match sr_result signed with
        | JOB_COMPLETED _ _ ec _ out err _ _ usage _ _ =>
            COMMAND_COMPLETED ec
              [mkObservation 1 None (if (ec =? 0)%Z then PASSED else OBS_FAILED) None (Some ec) (ru_wallClockMillis usage)
                 (Some out) (Some err)]
        | JOB_REJECTED _ _ reason _ _ => COMMAND_REJECTED reason [error_observation]
        | JOB_UNKNOWN _ _ _ _ => COMMAND_UNKNOWN (u "sandbox-outcome-unknown") [error_observation]
        end).

Definition networkCapabilityUnavailable_run (input : SandboxRunInput) : SandboxCommandResult :=
  if bool_decide (string_field "executablePath" (ri_resolved input) = [])
  then COMMAND_UNKNOWN (u "executable-not-resolved") [error_observation]
  else if negb (network_none (ri_spec input)) || ri_networkRequired input
  then COMMAND_UNKNOWN (u "pi-hec-sb-net-unavailable") [error_observation]
  else COMMAND_UNKNOWN (u "sandbox-not-configured") [error_observation].

(** [observationsFor]: [existing] are the observations given for the check, [spec] is its recipe when that is a
    command; the executor is the one of [createSandboxExecutor]. *)
Definition observationsFor (consumed : list ustr) (existing : option (list RunObservation)) (check : CheckNode)
    (spec : option jsvalue) (binding : option SandboxJobBinding) (context : SandboxExecutionContext) (keys : EphemeralKeys)
    : list ustr * result SandboxErr (list RunObservation) :=
  match existing with
  | Some observations => (consumed, Ok observations)
  | None =>
  match spec with
  | None => (consumed, Ok [])
  | Some spec =>
      let gate := executionGate (approval check) in
      if bool_decide (gate = u "wait") || bool_decide (gate = u "deny") then (consumed, Ok [error_observation]) else
      match binding with
      | None => (consumed, Ok [error_observation])
      | Some b =>
          match buildSignedSandboxJob spec check b with
          | Err executable_not_in_image => (consumed, Ok [error_observation])
          | Err e => (consumed, Err e)
          | Ok signed =>
              let '(consumed, r) := run_in_sandbox consumed
                (mkRunInput spec (sc_resolved signed) (sc_resolvedEnvelopeDigest signed) (sc_jobEnvelope signed)
                   (negb (network_none spec))) context keys in
              (consumed, let? r := r in Ok (command_observations r))
          end
      end
  end end.

(** ** Grants to inject a secret (secret-broker/src/grant-verifier.ts) *)

Record GrantExpected := mkExpected {
  ge_targetRunnerId : ustr;
  ge_targetProcessDigest : ustr;
  ge_projectId : ustr;
  ge_runId : ustr;
  ge_operationId : ustr;
  ge_destination : jsvalue;
  ge_permittedNetworkDestinations : list ustr
}.

Definition sameDestinations (left right : list ustr) : bool :=
  (length left =? length right)%nat && bool_decide (sort_by utf16_leb left = sort_by utf16_leb right).

Definition sameDestination (left right : jsvalue) : result SandboxErr bool :=
  let? l := of_digest_sandbox (of_canon (canonicalize left)) in
  let? r := of_digest_sandbox (of_canon (canonicalize right)) in Ok (bool_decide (l = r)).

Definition item_text (v : jsvalue) : ustr := match v with VStr s => s | _ => [] end.

(** [grantValidator.Check] *)
Variable grantCheck : jsvalue -> bool.

(** The inner result is [{ ok: true; grant }] or [{ ok: false; reason }]. *)
Definition verifyGrant (consumedNonces : list ustr) (input : jsvalue) (now : ustr) (capabilityAuthorityPublicKey : KeyObject)
    (expected : GrantExpected) : list ustr * result SandboxErr (result ustr jsvalue) :=
  let grant := envelopePayload input in
  let refuse reason := (consumedNonces, Ok (Err (u reason))) in
  if negb (grantCheck grant) then refuse "extra-properties" else
  match verifyInputSignature input capabilityAuthorityPublicKey with
  | Err e => (consumedNonces, Err e)
  | Ok false => refuse "signature-invalid"
  | Ok true =>
  let text k := string_field k grant in
  if includes (text "nonce") consumedNonces then refuse "nonce-replay"
  else if text_before now (text "issuedAt") || text_before (text "expiresAt") now || utf16_leb (text "expiresAt") (text "issuedAt")
  then refuse "expired"
  else if bool_decide (text "targetRunnerId" <> ge_targetRunnerId expected) then refuse "attestation-mismatch"
  else if bool_decide (text "targetProcessDigest" <> ge_targetProcessDigest expected) then refuse "attestation-mismatch"
  else if bool_decide (text "projectId" <> ge_projectId expected) || bool_decide (text "runId" <> ge_runId expected)
          || bool_decide (text "operationId" <> ge_operationId expected) then refuse "attestation-mismatch"
  else
  match sameDestination (object_field "destination" grant) (ge_destination expected) with
  | Err e => (consumedNonces, Err e)
  | Ok false => refuse "destination-mismatch"
  | Ok true =>
      if negb (sameDestinations (map item_text (array_field "permittedNetworkDestinations" grant))
                 (ge_permittedNetworkDestinations expected)) then refuse "network-mismatch"
      else (consumedNonces ++ [text "nonce"], Ok (Ok grant))
  end end.
End Protocol.

(** ** Sealed secrets *)

Record SealedSecret := mkSealed {
  ss_ephemeralX25519PublicKey : ustr; ss_iv : ustr; ss_ciphertext : ustr; ss_tag : ustr
}.

Section Seals.
Context {PrivateKey PublicKey : Type}.
(** [diffieHellman], [hkdfSync("sha256", shared, "pi-hec-secret-seal-v1", "aes-256-gcm", 32)], AES-256-GCM as the
    ciphertext with its tag, SPKI keys and base64url *)
Variable diffieHellman : PrivateKey -> PublicKey -> bytes.
Variable hkdf : bytes -> bytes.
Variable aes_encrypt : bytes -> bytes -> bytes -> bytes * bytes.
Variable aes_decrypt : bytes -> bytes -> bytes -> bytes -> option bytes.
Variable exportSpki : PublicKey -> bytes.
Variable createPublicKey : bytes -> option PublicKey.
Variable base64url_decode : ustr -> bytes.

(** The ephemeral pair and [iv] are generated. *)
Definition sealSecretToRecipient (plaintext recipientPublicKeyRaw : bytes) (ephemeral : PrivateKey * PublicKey) (iv : bytes)
    : option SealedSecret :=
  recipient ← createPublicKey recipientPublicKeyRaw;
  let key := hkdf (diffieHellman ephemeral.1 recipient) in
  let '(ciphertext, tag) := aes_encrypt key iv plaintext in
  Some (mkSealed (base64url_encode (exportSpki ephemeral.2)) (base64url_encode iv) (base64url_encode ciphertext) (base64url_encode tag)).

Definition unsealSecret (sealed : SealedSecret) (recipientPrivateKey : PrivateKey) : option bytes :=
  eph ← createPublicKey (base64url_decode (ss_ephemeralX25519PublicKey sealed));
  let key := hkdf (diffieHellman recipientPrivateKey eph) in
  aes_decrypt key (base64url_decode (ss_iv sealed)) (base64url_decode (ss_ciphertext sealed)) (base64url_decode (ss_tag sealed)).
End Seals.
