(* ===== verification/SandboxTheorems.v ===== *)
(** What the runner and the verifier guarantee about sandbox jobs: a backend is asked to run a job only when
    the control authority signed it and every check of the specification holds, each nonce admits one job,
    what the runner returns is signed by a key it attests, a job the verifier builds is admitted, and
    redaction leaves no encoding of a secret. *)

From Stdlib Require Import String.
From S2P Require Import Prelude Ids JsText CanonicalJson JsJson Digest ChangeApply Classification CloudWire ContextPacket Identity Plan PlanRevise Evidence CanonicalJsonTheorems DigestTheorems TextPatchTheorems Approval Sandbox.
Open Scope string_scope.
Open Scope list_scope.

Section Runner.
Context {DD : Doubles} {HH : Hashing} {KeyObject : Type}.
Variable cryptoVerify : bytes -> KeyObject -> ustr -> bool.
Variable cryptoSign : bytes -> KeyObject -> bytes.
Variable jobCheck : jsvalue -> bool.
Variable resultCheck : SandboxJobResult -> bool.
Variable Date_parse : ustr -> option Z.
Variable host_windows : bool.

Abbreviation Context_ := (SandboxExecutionContext (KeyObject := KeyObject)).
Local Notation execute := (executeSandboxJob cryptoVerify cryptoSign jobCheck resultCheck Date_parse host_windows).
Local Notation sign_output := (signOutput cryptoSign Date_parse).
Local Notation verify_detached := (verifyDetached cryptoVerify).

(** ** Admission *)

(** The first signature is an Ed25519 signature of the key over the payload. *)
Definition control_signed (e : EnvelopeShape) (pk : KeyObject) : Prop :=
  exists s rest p input, es_signatures e = s :: rest /\ algorithm s = u "Ed25519" /\ json_of (es_payload e) = Ok p /\
    shape_payloadDigest (es_schemaName e) (es_schemaVersion e) p = Ok (es_payloadDigest e) /\
    shape_signatureInput (es_schemaName e) (es_schemaVersion e) (es_payloadDigest e) s = Ok input /\
    cryptoVerify (utf8_encode input) pk (signature s) = true.

Lemma of_digest_sandbox_ok {A} (c : result DigestErr A) a : of_digest_sandbox c = Ok a <-> c = Ok a.
Proof. destruct c; cbn; split; congruence. Qed.

Lemma verifyDetached_true e pk : verify_detached e pk = Ok true <-> control_signed e pk.
Proof.
  unfold verifyDetached, control_signed. split.
  - intros (p & Hp & (d & Hd & H)%rbind_ok)%rbind_ok. rewrite of_digest_sandbox_ok in Hd.
    destruct (bool_decide (d <> _)) eqn:Ed; [done|]. apply bool_decide_eq_false, dec_stable in Ed. subst d.
    destruct (es_signatures e) as [|s rest]; [done|]. destruct (bool_decide (algorithm s <> _)) eqn:Ea; [done|].
    apply bool_decide_eq_false, dec_stable in Ea. apply rbind_ok in H as (i & Hi & H). rewrite of_digest_sandbox_ok in Hi.
    apply (inj Ok) in H. exists s, rest, p, i. by split_and!.
  - intros (s & rest & p & i & Hs & Ha & Hp & Hd & Hi & Hv). rewrite Hp. cbn [rbind]. rewrite Hd. cbn [rbind of_digest_sandbox].
    rewrite bool_decide_false by tauto. rewrite Hs, bool_decide_false by tauto. rewrite Hi. cbn [rbind of_digest_sandbox]. by rewrite Hv.
Qed.

(** What the specification asks the runner to check before it starts a job. *)
Record job_authorized (consumed : list ustr) (input : jsvalue) (context : Context_) (job : jsvalue) (nonce : ustr) : Prop := {
  ja_signed : exists parsed, parseEnvelope input = Some parsed /\ es_schemaName parsed = u "SandboxJob" /\
    es_payload parsed = job /\ control_signed parsed (sx_controlPublicKey context);
  ja_schema : jobCheck job = true;
  ja_nonce : payload_nonce job = Ok nonce;
  ja_fresh : nonce ∉ consumed;
  ja_issued : utf16_leb (string_field "issuedAt" job) (sx_now context) = true;
  ja_unexpired : utf16_leb (sx_now context) (string_field "expiresAt" job) = true;
  ja_interval : utf16_leb (string_field "expiresAt" job) (string_field "issuedAt" job) = false;
  ja_audience : string_field "targetRunnerId" job = sx_runnerId context;
  ja_grant : runnerHasProjectGrant context (string_field "projectId" job) = true;
  ja_lease : is_integer (object_field "leaseGeneration" job) (sx_currentLeaseGeneration context) = true;
  ja_image : string_field "sandboxImageObjectDigest" job = sx_expectedImageDigest context;
  ja_input : string_field "inputTreeRootDigest" job = sx_expectedInputRoot context
}.

(** The decision of the runner before any backend is asked. *)
Inductive decision : Type :=
| threw (e : SandboxErr)
| refused (identity : JobIdentity) (digest : result SandboxErr Digest) (reason : ReasonCode) (nonce : ustr)
| admitted (job : jsvalue) (nonce : ustr).

Definition job_refusal (context : Context_) (job : jsvalue) : option ReasonCode :=
  let issued := string_field "issuedAt" job in
  let expires := string_field "expiresAt" job in
  if text_before (sx_now context) issued || text_before expires (sx_now context) || utf16_leb expires issued then Some jobExpired
  else if bool_decide (string_field "targetRunnerId" job <> sx_runnerId context) then Some audienceMismatch
  else if negb (runnerHasProjectGrant context (string_field "projectId" job)) then Some grantMissing
  else if negb (is_integer (object_field "leaseGeneration" job) (sx_currentLeaseGeneration context)) then Some leaseMismatch
  else if bool_decide (string_field "sandboxImageObjectDigest" job <> sx_expectedImageDigest context) then Some imageDigestMismatch
  else if bool_decide (string_field "inputTreeRootDigest" job <> sx_expectedInputRoot context) then Some inputRootMismatch
  else None.

Definition admission (consumed : list ustr) (input : jsvalue) (context : Context_) : list ustr * decision :=
  let invalid p := refused (identityFromPayload p) (sandboxObjectDigestOf (VObj [(u "reason", VStr (REASON schemaInvalid))])) schemaInvalid [] in
  match parseEnvelope input with
  | None => (consumed, invalid VUndefined)
  | Some parsed =>
      let job := es_payload parsed in
      if bool_decide (es_schemaName parsed <> u "SandboxJob") then (consumed, invalid job) else
      match jobObjectDigest parsed, payload_nonce job with
      | Err e, _ | _, Err e => (consumed, threw e)
      | Ok digest, Ok nonce =>
          let refuse reason := refused (identityFromPayload job) (Ok digest) reason nonce in
          if negb (jobCheck job) then (consumed, refuse extraProperties) else
          match verify_detached parsed (sx_controlPublicKey context) with
          | Err e => (consumed, threw e)
          | Ok false => (consumed, refuse signatureInvalid)
          | Ok true =>
              if includes nonce consumed then (consumed, refuse nonceReplay) else
              (consumed ++ [nonce], match job_refusal context job with Some r => refuse r | None => admitted job nonce end)
          end
      end
  end.

Definition finish (context : Context_) (keys : EphemeralKeys) (d : decision) : result SandboxErr SignedSandboxJobResult :=
  match d with
  | threw e => Err e
  | refused identity digest reason nonce =>
      let? digest := digest in
      let? r := rejectedResult resultCheck identity digest reason (VObj [(u "reason", VStr (REASON reason))]) (sx_now context) in
      sign_output r context keys nonce
  | admitted job nonce =>
      let? r := dispatch resultCheck host_windows job context in sign_output r context keys nonce
  end.

Lemma execute_admission consumed input context keys :
  execute consumed input context keys =
  (fst (admission consumed input context), finish context keys (snd (admission consumed input context))).
Proof.
  unfold executeSandboxJob, admission. destruct (parseEnvelope input) as [parsed|]; [|reflexivity].
  destruct (bool_decide (es_schemaName parsed <> _)); [reflexivity|].
  destruct (jobObjectDigest parsed) as [digest|]; [|reflexivity].
  destruct (payload_nonce (es_payload parsed)) as [nonce|]; [|reflexivity].
  destruct (negb (jobCheck (es_payload parsed))); [reflexivity|].
  destruct (verify_detached parsed _) as [[|]|]; [|reflexivity..].
  destruct (includes nonce consumed); [reflexivity|]. unfold job_refusal.
  repeat match goal with |- context [if ?b then (_, _) else _] => destruct b; [reflexivity|] end. reflexivity.
Qed.

Lemma text_before_false left right : text_before left right = false <-> utf16_leb right left = true.
Proof. unfold text_before. apply negb_false_iff. Qed.

Lemma job_refusal_none context job :
  job_refusal context job = None <->
  utf16_leb (string_field "issuedAt" job) (sx_now context) = true /\
  utf16_leb (sx_now context) (string_field "expiresAt" job) = true /\
  utf16_leb (string_field "expiresAt" job) (string_field "issuedAt" job) = false /\
  string_field "targetRunnerId" job = sx_runnerId context /\
  runnerHasProjectGrant context (string_field "projectId" job) = true /\
  is_integer (object_field "leaseGeneration" job) (sx_currentLeaseGeneration context) = true /\
  string_field "sandboxImageObjectDigest" job = sx_expectedImageDigest context /\
  string_field "inputTreeRootDigest" job = sx_expectedInputRoot context.
Proof.
  unfold job_refusal. split.
  - intros H. repeat match type of H with (if ?b then Some _ else _) = _ => destruct b eqn:?; [discriminate H|] end.
    clean_guards. by repeat match goal with H : text_before _ _ = false |- _ => apply text_before_false in H end.
  - intros (H1 & H2 & H3 & H4 & H5 & H6 & H7 & H8).
    rewrite (proj2 (text_before_false _ _) H1), (proj2 (text_before_false _ _) H2), H3, H5, H6, !bool_decide_false by tauto. done.
Qed.

Lemma admission_admitted consumed input context consumed' job nonce :
  admission consumed input context = (consumed', admitted job nonce) ->
  consumed' = consumed ++ [nonce] /\ job_authorized consumed input context job nonce.
Proof.
  unfold admission. intros H. destruct (parseEnvelope input) as [parsed|] eqn:Ep; [|done].
  destruct (bool_decide (es_schemaName parsed <> _)) eqn:En; [done|].
  destruct (jobObjectDigest parsed) as [digest|]; [|done].
  destruct (payload_nonce (es_payload parsed)) as [n|] eqn:Hn; [|done].
  destruct (negb (jobCheck (es_payload parsed))) eqn:Ec; [done|].
  destruct (verify_detached parsed _) as [[|]|] eqn:Ev; [|done..].
  destruct (includes n consumed) eqn:Ei; [done|].
  destruct (job_refusal _ _) eqn:Er; [done|]. injection H as <- <- <-. split; [done|].
  apply job_refusal_none in Er. clean_guards. constructor; try tauto.
  - exists parsed. apply verifyDetached_true in Ev. by split_and!.
  - intros Hin. apply includes_true in Hin. congruence.
Qed.

(** With the digest of the envelope the checks are also enough. *)
Lemma authorized_admitted consumed input context job nonce :
  job_authorized consumed input context job nonce ->
  (forall parsed, parseEnvelope input = Some parsed -> is_ok (jobObjectDigest parsed) = true) ->
  admission consumed input context = (consumed ++ [nonce], admitted job nonce).
Proof.
  intros [(parsed & Hp & Hn & Hj & Hs) Hc Hno Hf H1 H2 H3 H4 H5 H6 H7 H8] Hd. specialize (Hd _ Hp). unfold admission.
  rewrite Hp, bool_decide_false by tauto. destruct (jobObjectDigest parsed); [|done]. rewrite Hj, Hno, Hc. cbn [negb].
  apply verifyDetached_true in Hs. rewrite Hs. destruct (includes nonce consumed) eqn:E; [by apply includes_true in E|].
  rewrite (proj2 (job_refusal_none context job)); [done|]. by split_and!.
Qed.

Lemma admission_consumed consumed input context :
  exists added, fst (admission consumed input context) = consumed ++ added.
Proof.
  unfold admission. repeat case_match; cbn [fst]; try (exists []; by rewrite app_nil_r); by eexists.
Qed.

Definition with_backends (context : Context_) (b : SandboxBackends) : Context_ :=
  mkExecution (sx_now context) (sx_runnerId context) (sx_runnerPrivateKey context) (sx_runnerCertificateDigest context)
    (sx_runnerCertificateSerial context) (sx_controlPublicKey context) (sx_identityStore context)
    (sx_currentLeaseGeneration context) (sx_expectedInputRoot context) (sx_expectedImageDigest context)
    (sx_platform context) (sx_image context) b.

Lemma finish_refused context keys d consumed input consumed' :
  admission consumed input context = (consumed', d) -> (forall job nonce, d <> admitted job nonce) ->
  (forall b, execute consumed input (with_backends context b) keys = (consumed', finish context keys d)) /\
  (forall signed, finish context keys d = Ok signed -> exists identity digest reason evidence,
     sr_result signed = JOB_REJECTED identity digest (REASON reason) evidence (sx_now context)).
Proof.
  intros Ha Hd. split.
  - intros b. rewrite execute_admission.
    change (admission consumed input (with_backends context b)) with (admission consumed input context).
    rewrite Ha. destruct d as [e|identity digest reason nonce|job nonce]; [reflexivity..|]. by destruct (Hd job nonce).
  - intros signed. destruct d as [e|identity digest reason nonce|job nonce]; [done| |by destruct (Hd job nonce)].
    cbn [finish]. intros (dg & _ & (r & Hr & Hs)%rbind_ok)%rbind_ok. unfold rejectedResult in Hr.
    apply rbind_ok in Hr as (ev & _ & Hr). destruct (negb _); [done|]. apply (inj Ok) in Hr. subst r.
    unfold signOutput in Hs. apply rbind_ok in Hs as (json & _ & (e & _ & Hs)%rbind_ok).
    destruct (fifteenMinutesLater _ _); [|done]. apply rbind_ok in Hs as (a & _ & Hs). apply (inj Ok) in Hs. subst signed.
    cbn [sr_result]. by eexists _, _, _, _.
Qed.

(** C9: A backend is asked to run a job only when it is authorized: the control authority signed the
    envelope, its schema holds, the nonce was not used before, the time is within the validity of the job, the
    job names this runner, the runner has a grant for the project that is not revoked, and the lease
    generation, the image and the input root are the current ones.  Then the nonce is consumed and the result
    is what the backend reports.  Otherwise what the runner answers does not depend on the backends at all,
    and an answer is a rejection with its reason. *)
Theorem sandbox_job_authorized consumed input context keys :
  (exists job nonce, job_authorized consumed input context job nonce /\
     execute consumed input context keys =
       (consumed ++ [nonce], let? r := dispatch resultCheck host_windows job context in sign_output r context keys nonce)) \/
  (exists consumed' answer, execute consumed input context keys = (consumed', answer) /\ consumed `prefix_of` consumed' /\
     (forall b, execute consumed input (with_backends context b) keys = (consumed', answer)) /\
     (forall signed, answer = Ok signed -> exists identity digest reason evidence,
        sr_result signed = JOB_REJECTED identity digest (REASON reason) evidence (sx_now context))).
Proof.
  rewrite execute_admission. destruct (admission consumed input context) as [consumed' d] eqn:Ha. cbn [fst snd].
  destruct (admission_consumed consumed input context) as [added Hadd]. rewrite Ha in Hadd. cbn [fst] in Hadd.
  destruct d as [e|identity digest reason nonce|job nonce].
  3: { left. destruct (admission_admitted _ _ _ _ _ _ Ha) as [-> Hj]. by exists job, nonce. }
  all: right; eexists _, _; split; [reflexivity|]; split; [by exists added|].
  all: apply (finish_refused context keys _ _ _ _ Ha); discriminate.
Qed.

(** ** Every nonce admits one job *)

Fixpoint admitted_nonces (consumed : list ustr) (requests : list (jsvalue * Context_)) : list ustr :=
  match requests with
  | [] => []
  | (input, context) :: rest =>
      let '(consumed', d) := admission consumed input context in
      match d with admitted _ nonce => [nonce] | _ => [] end ++ admitted_nonces consumed' rest
  end.

(** Whatever is asked of runners that share the set of nonces, no nonce admits two jobs. *)
Theorem job_nonce_once consumed requests :
  NoDup (admitted_nonces consumed requests) /\ (forall n, n ∈ admitted_nonces consumed requests -> n ∉ consumed).
Proof.
  revert consumed. induction requests as [|[input context] rest IH]; intros consumed; cbn [admitted_nonces].
  { split; [constructor | intros n H; by apply not_elem_of_nil in H]. }
  destruct (admission consumed input context) as [consumed' d] eqn:Ha.
  destruct (admission_consumed consumed input context) as [added Hadd]. rewrite Ha in Hadd. cbn [fst] in Hadd. subst consumed'.
  destruct (IH (consumed ++ added)) as [Hn Hd].
  assert (forall n, n ∈ admitted_nonces (consumed ++ added) rest -> n ∉ consumed) as Hr.
  { intros n Hin Hc. apply (Hd n Hin), elem_of_app. by left. }
  destruct d as [e|identity digest reason nonce|job nonce]; cbn [app]; [by split..|].
  destruct (admission_admitted _ _ _ _ _ _ Ha) as [E Hj]. apply app_inv_head in E. subst added. split.
  - constructor; [|done]. intros Hin. apply (Hd _ Hin), elem_of_app. right. by left.
  - intros n [->|Hin]%elem_of_cons; [exact (ja_fresh _ _ _ _ _ Hj) | by apply Hr].
Qed.

(** ** JSON copies *)

Lemma foldl_assign (fs acc : list (ustr * jsvalue)) :
  NoDup (map fst (acc ++ fs)) -> PROTO ∉ map fst fs ->
  foldl (fun o kv => obj_assign (fst kv) (snd kv) o) acc fs = acc ++ fs.
Proof.
  revert acc. induction fs as [|[k v] fs IH]; intros acc Hn Hp; cbn [foldl map fst snd] in *; [by rewrite app_nil_r|].
  apply not_elem_of_cons in Hp as [Hk Hp]. rewrite obj_assign_fresh; [|done|].
  - rewrite IH; [by rewrite <- app_assoc | by rewrite <- app_assoc | done].
  - rewrite map_app in Hn. apply NoDup_app in Hn as (_ & Hd & _). intros Hin. apply (Hd k Hin). by left.
Qed.

Lemma toJson_members fs :
  NoDup (map fst fs) -> PROTO ∉ map fst fs -> Forall (fun kv : ustr * jsvalue => toJsonValue kv.2 = Ok kv.2) fs ->
  toJsonValue (VObj fs) = Ok (VObj fs).
Proof.
  intros Hn Hp Hf. cbn [toJsonValue].
  assert (rmap (fun kv => let? v := toJsonValue (snd kv) in Ok (fst kv, v)) fs = Ok fs) as ->.
  { apply rmap_ok. apply Forall2_same_length_lookup. split; [done|]. intros i x y Hx Hy. simplify_eq.
    rewrite Forall_lookup in Hf. rewrite (Hf _ _ Hx). cbn [rbind]. by destruct x. }
  cbn [rbind]. by rewrite foldl_assign.
Qed.

Lemma assign_stable (fs acc : list (ustr * jsvalue)) :
  NoDup (map fst acc) -> PROTO ∉ map fst acc -> Forall (fun kv => toJsonValue kv.2 = Ok kv.2) acc ->
  Forall (fun kv => toJsonValue kv.2 = Ok kv.2) fs ->
  let o := foldl (fun o kv => obj_assign (fst kv) (snd kv) o) acc fs in
  NoDup (map fst o) /\ PROTO ∉ map fst o /\ Forall (fun kv => toJsonValue kv.2 = Ok kv.2) o.
Proof.
  revert acc. induction fs as [|[k v] fs IH]; intros acc Hn Hp Ha Hf; cbn [foldl]; [done|].
  apply Forall_cons in Hf as [Hv Hf]. apply IH; [| | |done]; unfold obj_assign; case_bool_decide as E; try done.
  - by apply JsMap.NoDup_keys_set.
  - intros [Hk|Hk]%JsMap.elem_of_keys_set; [by apply E | by apply Hp].
  - clear Hn Hp. induction Ha as [|[k0 v0] m Hx Ha IHm]; cbn [JsMap.set]; [by constructor|].
    case_decide; by constructor.
Qed.

Lemma toJson_idem v j : toJsonValue v = Ok j -> toJsonValue j = Ok j.
Proof.
  revert j. induction v as [| | | |b|n|s|items IH|fs IH] using jsvalue_ind'; intros j H; cbn [toJsonValue] in H;
    try discriminate H; try (apply (inj Ok) in H; subst j; reflexivity).
  - destruct n; try discriminate H; apply (inj Ok) in H; subst j; reflexivity.
  - apply rbind_ok in H as (copied & Hc & H). apply (inj Ok) in H. subst j. cbn [toJsonValue].
    assert (rmap toJsonValue copied = Ok copied) as ->; [|done]. apply rmap_ok in Hc. apply rmap_ok.
    induction Hc as [|x y xs ys Hxy _ IH2]; constructor; apply Forall_cons in IH as [Hx IH]; [by apply Hx | by apply IH2].
  - apply rbind_ok in H as (members & Hm & H). apply (inj Ok) in H. subst j. apply rmap_ok in Hm.
    assert (Forall (fun kv : ustr * jsvalue => toJsonValue kv.2 = Ok kv.2) members) as Hs.
    { induction Hm as [|x y xs ys Hxy _ IH2]; constructor; apply Forall_cons in IH as [Hx IH]; [|by apply IH2].
      apply rbind_ok in Hxy as (w & Hw & Hxy). apply (inj Ok) in Hxy. subst y. by apply Hx. }
    destruct (assign_stable members []) as (H1 & H2 & H3); [constructor | apply not_elem_of_nil | constructor | done |].
    by apply toJson_members.
Qed.

Lemma json_of_idem v j : json_of v = Ok j -> json_of j = Ok j.
Proof.
  unfold json_of. destruct (toJsonValue v) as [w|] eqn:E; [|done]. intros H. apply (inj Ok) in H. subst w.
  by rewrite (toJson_idem _ _ E).
Qed.

(** ** Signed envelopes *)

Lemma parse_signed name p digest kid cert at_ sig :
  parseEnvelope (envelope_value (mkEnvelope name 1 p digest [mkSignature kid (u "Ed25519") at_ cert sig])) =
  Some (mkShape name (SafeInt 1) p digest [mkSignature kid (u "Ed25519") at_ cert sig]).
Proof. reflexivity. Qed.

(** A key pair for signatures. *)
Definition key_pair (sk pk : KeyObject) : Prop := forall b, cryptoVerify b pk (b64_encode (cryptoSign b sk)) = true.

Lemma sign_job_inv name p sk kid cert at_ e :
  signJobEnvelope cryptoSign name p sk kid cert at_ = Ok e ->
  exists digest sig input,
    payloadDigest name 1 p = Ok digest /\
    signatureInputDigest name 1 digest (mkSignature kid (u "Ed25519") at_ cert []) cert = Ok input /\
    sig = b64_encode (cryptoSign (utf8_encode input) sk) /\
    e = mkEnvelope name 1 p digest [mkSignature kid (u "Ed25519") at_ cert sig].
Proof.
  unfold signJobEnvelope. intros (digest & Hd & (input & Hi & H)%rbind_ok)%rbind_ok. rewrite of_digest_sandbox_ok in Hd, Hi.
  apply (inj Ok) in H. subst e. by exists digest, (b64_encode (cryptoSign (utf8_encode input) sk)), input.
Qed.

Lemma signed_control_signed name p sk pk kid cert at_ e :
  key_pair sk pk -> json_of p = Ok p -> signJobEnvelope cryptoSign name p sk kid cert at_ = Ok e ->
  exists parsed, parseEnvelope (envelope_value e) = Some parsed /\ es_schemaName parsed = name /\ es_payload parsed = p /\
    control_signed parsed pk.
Proof.
  intros Hk Hp H. destruct (sign_job_inv _ _ _ _ _ _ _ H) as (digest & sig & input & Hd & Hi & -> & ->).
  eexists. split; [apply parse_signed|]. split; [done|]. split; [done|].
  eexists _, [], p, input. split; [reflexivity|]. split; [reflexivity|]. split; [exact Hp|]. split; [exact Hd|].
  split; [exact Hi|]. apply Hk.
Qed.

(** ** What the runner returns *)

Record attested (context : Context_) (keys : EphemeralKeys (KeyObject := KeyObject)) (nonce : ustr) (runnerPublicKey : KeyObject)
    (signed : SignedSandboxJobResult) : Prop := {
  att_payload : json_of (job_result_json (sr_result signed)) = Ok (payload (sr_envelope signed));
  att_verifies : verifyInputSignature cryptoVerify (envelope_value (sr_envelope signed)) (sr_ephemeralPublicKey signed) = Ok true;
  att_key : sr_ephemeralPublicKey signed = ek_public keys /\
    at_ephemeralSpkiSha256 (sr_attestation signed) = sha256_hex (ek_spki keys);
  att_certificate : map signerCertificateObjectDigest (signatures (sr_envelope signed)) =
    [u "sha256:" ++ at_ephemeralSpkiSha256 (sr_attestation signed)];
  att_nonce : at_jobNonce (sr_attestation signed) = nonce;
  att_runner : at_runnerCertificateObjectDigest (sr_attestation signed) = sx_runnerCertificateDigest context;
  att_issued : at_issuedAt (sr_attestation signed) = sx_now context /\
    date_plus Date_parse (sx_now context) (15 * 60 * 1000) = Some (at_expiresAt (sr_attestation signed));
  att_signed : exists text, attestation_text (sr_attestation signed) = Ok text /\
    cryptoVerify (utf8_encode text) runnerPublicKey (at_signature (sr_attestation signed)) = true
}.

Lemma signOutput_attested r context keys nonce signed runnerPublicKey :
  key_pair (ek_private keys) (ek_public keys) -> key_pair (sx_runnerPrivateKey context) runnerPublicKey ->
  sign_output r context keys nonce = Ok signed ->
  sr_result signed = r /\ attested context keys nonce runnerPublicKey signed.
Proof.
  intros Hk Hr H. unfold signOutput in H. apply rbind_ok in H as (json & Hj & (e & He & H)%rbind_ok).
  destruct (fifteenMinutesLater Date_parse (sx_now context)) as [expires|] eqn:Ef; [|done].
  apply rbind_ok in H as (a & Ha & H). apply (inj Ok) in H. subst signed. cbn [sr_result sr_envelope sr_attestation sr_ephemeralPublicKey].
  unfold signAttestation in Ha. apply rbind_ok in Ha as (text & Ht & Ha). apply (inj Ok) in Ha. subst a. split; [done|].
  destruct (signed_control_signed _ _ _ _ _ _ _ _ Hk (json_of_idem _ _ Hj) He) as (parsed & Hp & _ & _ & Hs).
  destruct (sign_job_inv _ _ _ _ _ _ _ He) as (digest & sig & input & _ & _ & _ & ->).
  constructor; cbn [sr_result sr_envelope sr_attestation sr_ephemeralPublicKey at_ephemeralSpkiSha256 at_jobNonce
    at_runnerCertificateObjectDigest at_issuedAt at_expiresAt at_signature payload signatures map]; try done.
  - unfold verifyInputSignature. rewrite Hp. by apply verifyDetached_true.
  - exists text. split; [exact Ht | apply Hr].
Qed.

(** The nonce an answer is bound to: the one of the job, when the envelope has one. *)
Definition answer_nonce (input : jsvalue) : ustr :=
  match parseEnvelope input with
  | Some parsed => if bool_decide (es_schemaName parsed = u "SandboxJob") then string_field "nonce" (es_payload parsed) else []
  | None => []
  end.

Lemma admission_nonce consumed input context :
  match snd (admission consumed input context) with
  | refused _ _ _ nonce | admitted _ nonce => nonce = answer_nonce input
  | threw _ => True
  end.
Proof.
  unfold admission, answer_nonce. destruct (parseEnvelope input) as [parsed|]; [|done].
  destruct (decide (es_schemaName parsed = u "SandboxJob")) as [E|E].
  2: { rewrite bool_decide_true, bool_decide_false by done. done. }
  rewrite bool_decide_false, bool_decide_true by tauto.
  destruct (jobObjectDigest parsed); [|done]. unfold payload_nonce.
  destruct (es_payload parsed) eqn:Ej; try done; repeat case_match; cbn [snd] in *; simplify_eq; done.
Qed.

(** C10: Whatever the runner answers, a rejection included, comes in an envelope that verifies under the
    ephemeral key of the job, and with an attestation that the runner's key signed and that names that key,
    the nonce of the job, the runner's certificate and a validity of fifteen minutes; the certificate digest
    in the envelope is the attested key. *)
Theorem sandbox_result_attested consumed input context keys runnerPublicKey consumed' signed :
  key_pair (ek_private keys) (ek_public keys) -> key_pair (sx_runnerPrivateKey context) runnerPublicKey ->
  execute consumed input context keys = (consumed', Ok signed) ->
  attested context keys (answer_nonce input) runnerPublicKey signed.
Proof.
  intros Hk Hr H. rewrite execute_admission in H. pose proof (admission_nonce consumed input context) as Hn.
  destruct (admission consumed input context) as [c d]. cbn [fst snd] in H, Hn. apply pair_equal_spec in H as [_ H].
  destruct d as [e|identity digest reason nonce|job nonce]; cbn [finish] in H; [done| |]; subst nonce.
  - apply rbind_ok in H as (dg & _ & (r & _ & H)%rbind_ok). by eapply signOutput_attested.
  - apply rbind_ok in H as (r & _ & H). by eapply signOutput_attested.
Qed.

(** ** Jobs the verifier builds *)

Lemma sandbox_job_json check b resolvedDigest nonce :
  toJsonValue (sandbox_job (KeyObject := KeyObject) check b resolvedDigest nonce) = Ok (sandbox_job check b resolvedDigest nonce).
Proof.
  apply toJson_members.
  - apply (bool_decide_unpack _). vm_compute. exact I.
  - apply (bool_decide_unpack _). vm_compute. exact I.
  - repeat (constructor; [reflexivity|]). constructor.
Qed.

Lemma sandbox_job_wf check b resolvedDigest nonce :
  isSafe (bi_leaseGeneration (jb_identity b)) = true -> js_wf (sandbox_job (KeyObject := KeyObject) check b resolvedDigest nonce).
Proof.
  intros Hs. apply wf_fields; [apply (bool_decide_unpack _); vm_compute; exact I|].
  do 14 (constructor; [first [exact I | exact Hs | reflexivity]|]).
  constructor; [apply wf_fields; [apply (bool_decide_unpack _); vm_compute; exact I | by repeat constructor]|].
  by repeat (constructor; [exact I|]).
Qed.

Lemma signed_digest_ok name p sk kid cert at_ e :
  json_of p = Ok p -> js_wf p -> isUndefined p = false -> signJobEnvelope cryptoSign name p sk kid cert at_ = Ok e ->
  forall parsed, parseEnvelope (envelope_value e) = Some parsed -> is_ok (jobObjectDigest parsed) = true.
Proof.
  intros Hj Hw Hu H parsed Hp. destruct (sign_job_inv _ _ _ _ _ _ _ H) as (digest & sig & input & Hd & Hi & Hsig & ->).
  rewrite parse_signed in Hp. apply (inj Some) in Hp. subst parsed.
  assert (is_ok (envelopeDigest (fun x => x) (mkEnvelope name 1 p digest [mkSignature kid (u "Ed25519") at_ cert sig])) = true) as Hok.
  { apply (envelopeDigest_signed cryptoVerify cryptoSign (fun _ => 0%Z) (fun x => x) name p sk kid cert at_); [done..|]. unfold signEnvelope.
    rewrite Hd. cbn [rbind lift_digest]. rewrite Hi. cbn [rbind lift_digest]. by rewrite Hsig. }
  unfold jobObjectDigest. cbn [es_payload es_schemaName es_schemaVersion es_payloadDigest es_signatures]. rewrite Hj. cbn [rbind].
  unfold envelopeDigest, envelopeObjectDigest, canonicalizeEnvelope in Hok.
  cbn [schemaName schemaVersion payload env_payloadDigest signatures] in Hok.
  destruct (sortSignatures _) as [sorted|]; cbn [rbind of_digest_sandbox lift_digest] in Hok |- *; [|done].
  unfold VInt in Hok. destruct (of_canon _); cbn [rbind of_digest_sandbox lift_digest] in Hok |- *; done.
Qed.

(** The context of the runner is the one the verifier built the job for. *)
Record runner_expects (context : Context_) (b : SandboxJobBinding (KeyObject := KeyObject)) : Prop := {
  re_issued : utf16_leb (js_signedAt (jb_signer b)) (sx_now context) = true;
  re_unexpired : utf16_leb (sx_now context) (js_expiresAt (jb_signer b)) = true;
  re_interval : utf16_leb (js_expiresAt (jb_signer b)) (js_signedAt (jb_signer b)) = false;
  re_audience : bi_targetRunnerId (jb_identity b) = sx_runnerId context;
  re_grant : runnerHasProjectGrant context (bi_projectId (jb_identity b)) = true;
  re_lease : bi_leaseGeneration (jb_identity b) = sx_currentLeaseGeneration context;
  re_image : si_sandboxImageObjectDigest (jb_image b) = sx_expectedImageDigest context;
  re_input : bi_inputTreeRootDigest (jb_identity b) = sx_expectedInputRoot context;
  re_key : key_pair (js_privateKey (jb_signer b)) (sx_controlPublicKey context);
  re_safe : isSafe (bi_leaseGeneration (jb_identity b)) = true
}.

Lemma buildSigned_inv spec check b signed :
  buildSignedSandboxJob cryptoSign spec check b = Ok signed ->
  exists nonce, let job := sandbox_job check b (sc_resolvedEnvelopeDigest signed) nonce in
    mintGeneralId (u "nonce") (check_id check ++ u ":" ++ sc_resolvedEnvelopeDigest signed) = Some nonce /\
    string_field "executablePath" (sc_resolved signed) <> [] /\
    signJobEnvelope cryptoSign (u "SandboxJob") job (js_privateKey (jb_signer b)) (js_keyId (jb_signer b))
      (js_certDigest (jb_signer b)) (js_signedAt (jb_signer b)) = Ok (sc_jobEnvelope signed).
Proof.
  unfold buildSignedSandboxJob. intros ([ce cd] & Hc & (resolved & Hr & ([re rd] & Hre & H)%rbind_ok)%rbind_ok)%rbind_ok.
  destruct (mintGeneralId _ _) as [nonce|] eqn:Em; [|done].
  unfold json_of in H. rewrite sandbox_job_json in H. cbn [rbind] in H.
  apply rbind_ok in H as (e & He & (ced & _ & H)%rbind_ok). apply (inj Ok) in H. subst signed.
  exists nonce. cbn [sc_resolvedEnvelopeDigest sc_jobEnvelope sc_resolved]. split; [done|]. split; [|exact He].
  unfold resolveCommandSpec in Hr. apply rbind_ok in Hr as (path & Hp & Hr). destruct (JsMap.get path _); [|done].
  apply (inj Ok) in Hr. subst resolved. unfold normalizeSnapshotPath in Hp.
  destruct (_ || _) eqn:Eb in Hp; [done|]. apply (inj Ok) in Hp. apply orb_false_iff in Eb as [_ Eb].
  apply bool_decide_eq_false in Eb. subst path. exact Eb.
Qed.

(** C11: A job the verifier builds and signs is admitted by a runner that was set up for it: for a nonce that
    is not used yet, the runner consumes the nonce and answers with the signed result of its backend. *)
Theorem built_job_admitted spec check b signed consumed context keys nonce :
  buildSignedSandboxJob cryptoSign spec check b = Ok signed ->
  mintGeneralId (u "nonce") (check_id check ++ u ":" ++ sc_resolvedEnvelopeDigest signed) = Some nonce ->
  runner_expects context b -> jobCheck (payload (sc_jobEnvelope signed)) = true -> nonce ∉ consumed ->
  execute consumed (envelope_value (sc_jobEnvelope signed)) context keys =
  (consumed ++ [nonce],
   let? r := dispatch resultCheck host_windows (payload (sc_jobEnvelope signed)) context in sign_output r context keys nonce).
Proof.
  intros Hb Hm He Hc Hf. destruct (buildSigned_inv _ _ _ _ Hb) as (n & Hn & _ & Hs). assert (n = nonce) as -> by congruence.
  set (job := sandbox_job check b (sc_resolvedEnvelopeDigest signed) nonce) in *.
  assert (json_of job = Ok job) as Hj by (unfold json_of, job; by rewrite sandbox_job_json).
  assert (payload (sc_jobEnvelope signed) = job) as Hp.
  { destruct (sign_job_inv _ _ _ _ _ _ _ Hs) as (? & ? & ? & _ & _ & _ & ->). done. }
  rewrite Hp in *. destruct He. rewrite execute_admission, (authorized_admitted consumed _ context job nonce); [done| |].
  - destruct (signed_control_signed _ _ _ _ _ _ _ _ re_key0 Hj Hs) as (parsed & H1 & H2 & H3 & H4).
    constructor; try done; [by exists parsed|]. unfold job, sandbox_job, is_integer, VInt.
    change (object_field "leaseGeneration" _) with (VNum (SafeInt (bi_leaseGeneration (jb_identity b)))).
    by apply Z.eqb_eq.
  - by apply (signed_digest_ok (u "SandboxJob") job (js_privateKey (jb_signer b)) (js_keyId (jb_signer b))
      (js_certDigest (jb_signer b)) (js_signedAt (jb_signer b))); [|apply sandbox_job_wf| |].
Qed.

(** The nonce of a job is determined by the check and the digest of its command: once it is consumed, observing
    the check again under the same binding gives no result. *)
Theorem repeated_check_refused spec check b signed consumed context keys nonce consumed' observed :
  buildSignedSandboxJob cryptoSign spec check b = Ok signed ->
  mintGeneralId (u "nonce") (check_id check ++ u ":" ++ sc_resolvedEnvelopeDigest signed) = Some nonce ->
  nonce ∈ consumed ->
  observationsFor cryptoVerify cryptoSign jobCheck resultCheck Date_parse host_windows consumed None check (Some spec)
    (Some b) context keys = (consumed', Ok observed) ->
  observed = [error_observation].
Proof.
  intros Hb Hm Hin H. unfold observationsFor in H. destruct (_ || _) in H; [by apply pair_equal_spec in H as [_ H%(inj Ok)]|].
  rewrite Hb in H. unfold run_in_sandbox in H. cbn [ri_resolved ri_networkRequired ri_spec ri_jobEnvelope ri_resolvedEnvelopeDigest] in H.
  destruct (bool_decide _) in H; [by apply pair_equal_spec in H as [_ H%(inj Ok)]|].
  destruct (_ && _) in H; [by apply pair_equal_spec in H as [_ H%(inj Ok)]|].
  match type of H with context [if ?b then _ else _] => destruct b; [by apply pair_equal_spec in H as [_ H%(inj Ok)]|] end.
  destruct (execute consumed (envelope_value (sc_jobEnvelope signed)) context keys) as [c answer] eqn:Ex.
  apply pair_equal_spec in H as [_ H]. apply rbind_ok in H as (r & (sr & -> & Hr)%rbind_ok & H).
  rewrite execute_admission in Ex.
  destruct (admission consumed (envelope_value (sc_jobEnvelope signed)) context) as [c' d] eqn:Ha.
  apply pair_equal_spec in Ex as [_ Ex]. cbn [snd] in Ex.
  assert (forall job n, d <> admitted job n) as Hd.
  { intros job n ->. pose proof (admission_nonce consumed (envelope_value (sc_jobEnvelope signed)) context) as Hn. rewrite Ha in Hn. cbn [snd] in Hn.
    destruct (admission_admitted _ _ _ _ _ _ Ha) as [_ [_ _ _ Hf _ _ _ _ _ _ _ _]]. apply Hf. rewrite Hn.
    destruct (buildSigned_inv _ _ _ _ Hb) as (n' & Hn' & _ & Hs). rewrite Hn' in Hm. apply (inj Some) in Hm. subst n'.
    destruct (sign_job_inv _ _ _ _ _ _ _ Hs) as (? & ? & ? & _ & _ & _ & ->).
    unfold answer_nonce. rewrite parse_signed. cbn [es_schemaName es_payload]. rewrite bool_decide_true by done. exact Hin. }
  destruct (finish_refused context keys d _ _ _ Ha Hd) as [_ Hj]. destruct (Hj sr Ex) as (i & dg & reason & ev & Hres).
  rewrite Hres in Hr. apply (inj Ok) in Hr, H. by subst r observed.
Qed.

(** ** Grants of the secret broker *)

Variable grantCheck : jsvalue -> bool.

(** A grant is accepted only when the capability authority signed it, it is valid now and was not used, and it is
    for exactly the runner, process, project, run, operation, destination and network destinations of the request;
    it is refused from then on. *)
Theorem secret_grant_once consumed input now pk expected consumed' grant :
  verifyGrant cryptoVerify grantCheck consumed input now pk expected = (consumed', Ok (Ok grant)) ->
  let text k := string_field k grant in
  envelopePayload input = grant /\ grantCheck grant = true /\ verifyInputSignature cryptoVerify input pk = Ok true /\
  text "nonce" ∉ consumed /\ utf16_leb (text "issuedAt") now = true /\ utf16_leb now (text "expiresAt") = true /\
  text "targetRunnerId" = ge_targetRunnerId expected /\ text "targetProcessDigest" = ge_targetProcessDigest expected /\
  text "projectId" = ge_projectId expected /\ text "runId" = ge_runId expected /\ text "operationId" = ge_operationId expected /\
  sameDestination (object_field "destination" grant) (ge_destination expected) = Ok true /\
  map item_text (array_field "permittedNetworkDestinations" grant) ≡ₚ ge_permittedNetworkDestinations expected /\
  forall now' expected', verifyGrant cryptoVerify grantCheck consumed' input now' pk expected' = (consumed', Ok (Err (u "nonce-replay"))).
Proof.
  intros H text. unfold verifyGrant in H. destruct (negb (grantCheck _)) eqn:Ec; [by apply pair_equal_spec in H as [_ H%(inj Ok)]|].
  destruct (verifyInputSignature _ _ _) as [[|]|] eqn:Ev; [|by apply pair_equal_spec in H as [_ H%(inj Ok)]|by apply pair_equal_spec in H as [_ H]].
  repeat match type of H with (if ?b then _ else _) = _ => destruct b eqn:?; [by apply pair_equal_spec in H as [_ H%(inj Ok)]|] end.
  destruct (sameDestination _ _) as [[|]|] eqn:Es; [|by apply pair_equal_spec in H as [_ H%(inj Ok)]|by apply pair_equal_spec in H as [_ H]].
  destruct (negb (sameDestinations _ _)) eqn:Ed; [by apply pair_equal_spec in H as [_ H%(inj Ok)]|].
  apply pair_equal_spec in H as [<- H]. apply (inj Ok), (inj Ok) in H. subst text. subst grant. clean_guards.
  repeat match goal with H : text_before _ _ = false |- _ => apply text_before_false in H end.
  split_and!; try done.
  - intros Hin. apply includes_true in Hin. congruence.
  - apply andb_true_iff in Ed as [_ Ed]. apply bool_decide_eq_true in Ed.
    rewrite <- (sort_by_perm utf16_leb (map item_text _)), Ed. apply sort_by_perm.
  - intros now' expected'. unfold verifyGrant. rewrite Ec. cbn [negb]. rewrite Ev.
    rewrite (proj2 (includes_true _ _)); [done|]. apply elem_of_app. right. by left.
Qed.
End Runner.

(** ** Redaction *)

Definition occurs (p s : bytes) : Prop := exists a b, s = a ++ p ++ b.
Definition STAR : N := 42.

Lemma occurs_app_star p x y : STAR ∉ p -> occurs p (x ++ STAR :: y) -> occurs p x \/ occurs p y.
Proof.
  intros Hp (a & b & E). destruct (decide (length (a ++ p) <= length x)) as [H1|H1].
  - left. exists a, (drop (length (a ++ p)) x). rewrite app_assoc in E.
    assert (take (length (a ++ p)) (x ++ STAR :: y) = a ++ p) as Ht by (by rewrite E, take_app_length).
    rewrite take_app_le in Ht by done. 
    transitivity (take (length (a ++ p)) x ++ drop (length (a ++ p)) x); [by rewrite take_drop | by rewrite Ht, <- app_assoc].
  - right. destruct (decide (length x < length a)) as [H2|H2].
    + exists (drop (S (length x)) a), b.
      assert (drop (S (length x)) (x ++ STAR :: y) = y) as Hd.
      { rewrite drop_app_ge by lia. replace (S (length x) - length x) with 1 by lia. done. }
      rewrite <- Hd, E, drop_app_le by lia. done.
    + exfalso. apply Hp. assert ((a ++ p ++ b) !! length x = Some STAR) as Hl.
      { rewrite <- E, lookup_app_r, Nat.sub_diag by lia. done. }
      rewrite length_app in H1. rewrite lookup_app_r in Hl by lia. rewrite lookup_app_l in Hl by lia.
      by apply list_elem_of_lookup_2 in Hl.
Qed.

Lemma occurs_cons p c s : occurs p s -> occurs p (c :: s).
Proof. intros (a & b & ->). by exists (c :: a), b. Qed.

Lemma occurs_cons_inv p c s : occurs p (c :: s) -> startsWith p (c :: s) = true \/ occurs p s.
Proof.
  intros ([|x a] & b & E).
  - left. cbn [app] in E. apply startsWith_app. by exists b.
  - right. injection E as -> ->. by exists a, b.
Qed.

Lemma occurs_drop p n s : occurs p (drop n s) -> occurs p s.
Proof. intros (a & b & E). exists (take n s ++ a), b. by rewrite <- app_assoc, <- E, take_drop. Qed.

Section Replacement.
Variable r0 : bytes.
Local Notation r := (STAR :: r0 ++ [STAR]).

Lemma replaced_prefix n q p s : STAR ∉ p -> startsWith p (replace_from n q r s) = true -> startsWith p s = true.
Proof.
  revert p s. induction n as [|n IH]; intros p s Hp H; [done|]. destruct s as [|c t]; [done|]. cbn [replace_from] in H.
  destruct p as [|a p]; [done|]. apply not_elem_of_cons in Hp as [Ha Hp].
  destruct (startsWith q (c :: t)).
  - cbn [app startsWith] in H. apply andb_true_iff in H as [H%N.eqb_eq _]. congruence.
  - cbn [startsWith] in H |- *. apply andb_true_iff in H as [-> H]. by apply IH.
Qed.

Lemma occurs_after p x : STAR ∉ p -> ~ occurs p r -> occurs p (r ++ x) -> occurs p x.
Proof.
  intros Hp Hr H. replace (r ++ x) with ((STAR :: r0) ++ STAR :: x) in H by (cbn; by rewrite <- app_assoc).
  destruct (occurs_app_star _ _ _ Hp H) as [(a & b & E)|Ho]; [|done]. destruct Hr. exists a, (b ++ [STAR]).
  change (STAR :: r0 ++ [STAR]) with ((STAR :: r0) ++ [STAR]). rewrite E. by rewrite <- !app_assoc.
Qed.

(** Replacing one text creates no occurrence of another. *)
Lemma replaced_occurs n q p s : STAR ∉ p -> ~ occurs p r -> occurs p (replace_from n q r s) -> occurs p s.
Proof.
  intros Hp Hr. revert s. induction n as [|n IH]; intros s H; [done|]. destruct s as [|c t]; [done|]. cbn [replace_from] in H.
  destruct (startsWith q (c :: t)).
  - apply occurs_after in H; [|done..]. by apply (occurs_drop _ (length q)), IH.
  - destruct (occurs_cons_inv _ _ _ H) as [H1|H1]; [|by apply occurs_cons, IH].
    exists []. apply startsWith_app. destruct p as [|a p]; [done|]. cbn [startsWith] in H1 |- *.
    apply andb_true_iff in H1 as [-> H1]. apply not_elem_of_cons in Hp as [_ Hp]. by apply (replaced_prefix n q).
Qed.

Lemma replaced_removes n p s : length s <= n -> p <> [] -> STAR ∉ p -> ~ occurs p r -> ~ occurs p (replace_from n p r s).
Proof.
  intros Hl Hn Hp Hr. revert s Hl. induction n as [|n IH]; intros s Hl H.
  { destruct s; [|cbn in Hl; lia]. destruct H as (a & b & E). destruct a, p; done. }
  destruct s as [|c t]; cbn [replace_from] in H.
  { destruct H as (a & b & E). destruct a, p; done. }
  cbn [length] in Hl. destruct (startsWith p (c :: t)) eqn:Es.
  - apply occurs_after in H; [|done..]. revert H. apply IH. rewrite length_drop. destruct p; [done|]. cbn. lia.
  - destruct (occurs_cons_inv _ _ _ H) as [H1|H1]; [|revert H1; apply IH; lia].
    destruct p as [|a p]; [done|]. cbn [startsWith] in H1, Es. apply andb_true_iff in H1 as [Hac H1].
    rewrite Hac in Es. cbn [andb] in Es. apply not_elem_of_cons in Hp as [_ Hp]. apply (replaced_prefix n (a :: p)) in H1; [|done].
    congruence.
Qed.
End Replacement.

Section RedactionTheorem.
Variable toUriComponent : bytes -> ustr.

Local Notation MARK := (utf8_encode (u "***REDACTED***")).
Local Notation needle_step := (fun current needle => redact_needle needle MARK current).

Lemma needles_keep p needles s : STAR ∉ p -> ~ occurs p MARK -> occurs p (foldl needle_step s needles) -> occurs p s.
Proof.
  intros Hp Hm. revert s. induction needles as [|q needles IH]; intros s H; cbn [foldl] in H; [done|].
  apply IH in H. exact (replaced_occurs (utf8_encode (u "**REDACTED**")) _ q p s Hp Hm H).
Qed.

Lemma needles_remove p needles s :
  p ∈ needles -> p <> [] -> STAR ∉ p -> ~ occurs p MARK -> ~ occurs p (foldl needle_step s needles).
Proof.
  intros Hin Hn Hp Hm. apply list_elem_of_split in Hin as (l1 & l2 & ->). rewrite foldl_app. cbn [foldl].
  intros H%needles_keep; [|done..].
  exact (replaced_removes (utf8_encode (u "**REDACTED**")) _ p _ (Nat.le_refl _) Hn Hp Hm H).
Qed.

(** After redaction no encoding of a secret is left in the output: not its bytes, nor its hexadecimal, base64,
    base64url or percent-encoded form, as long as the encoding has no asterisk and is not a part of the marker. *)
Theorem redaction_leaves_no_secret input secrets secret needle :
  secret ∈ secrets -> secret <> [] -> needle ∈ encodingsOf toUriComponent secret -> needle <> [] ->
  STAR ∉ needle -> ~ occurs needle MARK ->
  ~ occurs needle (redactSecretMaterial toUriComponent input secrets).
Proof.
  intros Hin Hs Hn Hne Hp Hm. apply list_elem_of_split in Hin as (l1 & l2 & ->). unfold redactSecretMaterial.
  rewrite foldl_app. cbn [foldl].
  set (s0 := foldl _ input l1). clearbody s0.
  assert (forall l s, occurs needle (foldl (fun current secret => if (length secret =? 0)%nat then current else
      foldl needle_step current (sort_by (fun left right => (length right <=? length left)%nat) (encodingsOf toUriComponent secret))) s l) ->
    occurs needle s) as Hkeep.
  { induction l as [|x l IH]; intros s H; cbn [foldl] in H; [done|]. apply IH in H.
    destruct (length x =? 0)%nat; [done|]. by apply needles_keep in H. }
  intros H%Hkeep. destruct (length secret =? 0)%nat eqn:El; [apply Nat.eqb_eq, nil_length_inv in El; done|].
  revert H. apply needles_remove; [|done..]. by rewrite sort_by_perm.
Qed.
End RedactionTheorem.

(** ** The environment of a guest *)

Definition guest_variable (platform : Platform) (command : list (ustr * ustr)) (k v : ustr) : Prop :=
  (k = u "PATH" /\ v = (if bool_decide (platform = p_windows) then u "C:\sandbox\bin" else u "/usr/bin:/bin")) \/
  (k = u "HOME" /\ v = u "/sandbox") \/ (k = u "TZ" /\ v = u "UTC") \/
  (k ∈ guest_allowed /\ (k, v) ∈ command /\ test guest_secret_re (k ++ u "=" ++ v) = false).

(** A guest sees six variables at most: a fixed path and home, and of the command's own environment only language,
    time zone and terminal, unless they look like a secret; nothing of the host's environment. *)
Theorem guest_environment_closed platform command host k v :
  JsMap.get k (guestEnvironment platform command host) = Some v -> guest_variable platform command k v.
Proof.
  unfold guestEnvironment. set (start := [_; _; _]).
  assert (forall k v, JsMap.get k start = Some v -> guest_variable platform command k v) as Hs.
  { intros k' v'. unfold start, guest_variable. cbn [JsMap.get].
    repeat case_decide; intros Hv; try discriminate Hv; apply (inj Some) in Hv; subst v'; tauto. }
  clearbody start. assert (command ⊆ command) as Hsub by done. revert start Hs Hsub. generalize command at 2 4 as cmd.
  induction cmd as [|[k1 v1] cmd IH]; intros start Hs Hsub; cbn [foldl]; [apply Hs|]. apply IH; [|set_solver]. clear IH.
  cbn [fst snd]. destruct (includes k1 guest_allowed) eqn:Ei; cbn [negb]; [|exact Hs].
  destruct (test guest_secret_re (k1 ++ u "=" ++ v1)) eqn:Et; [exact Hs|]. intros k' v'. rewrite JsMap.get_set.
  destruct (decide (k' = k1)) as [->|Ek]; [|apply Hs].
  intros H. apply (inj Some) in H. subst v'. right; right; right. apply includes_true in Ei. split_and!; [done| |done].
  apply Hsub. by left.
Qed.

(** ** Sealed secrets *)

Section Sealing.
Context {PrivateKey PublicKey : Type}.
Variable diffieHellman : PrivateKey -> PublicKey -> bytes.
Variable hkdf : bytes -> bytes.
Variable aes_encrypt : bytes -> bytes -> bytes -> bytes * bytes.
Variable aes_decrypt : bytes -> bytes -> bytes -> bytes -> option bytes.
Variable exportSpki : PublicKey -> bytes.
Variable createPublicKey : bytes -> option PublicKey.
Variable base64url_decode : ustr -> bytes.
Hypothesis base64url_inverse : forall bs, base64url_decode (base64url_encode bs) = bs.
Hypothesis spki_inverse : forall pk, createPublicKey (exportSpki pk) = Some pk.
Hypothesis gcm_inverse : forall key iv plain, aes_decrypt key iv (aes_encrypt key iv plain).1 (aes_encrypt key iv plain).2 = Some plain.

(** What is sealed to a runner's key opens with it. *)
Theorem sealed_secret_opens plain recipient recipientPrivate ephemeral iv :
  diffieHellman ephemeral.1 recipient = diffieHellman recipientPrivate ephemeral.2 ->
  exists sealed, sealSecretToRecipient diffieHellman hkdf aes_encrypt exportSpki createPublicKey plain (exportSpki recipient)
                   ephemeral iv = Some sealed /\
    unsealSecret diffieHellman hkdf aes_decrypt createPublicKey base64url_decode sealed recipientPrivate = Some plain.
Proof.
  intros Hdh. unfold sealSecretToRecipient, unsealSecret. rewrite spki_inverse. cbn [mbind option_bind].
  pose proof (gcm_inverse (hkdf (diffieHellman ephemeral.1 recipient)) iv plain) as Hg.
  destruct (aes_encrypt _ _ _) as [c t]. eexists. split; [reflexivity|].
  cbn [ss_ephemeralX25519PublicKey ss_iv ss_ciphertext ss_tag]. rewrite !base64url_inverse, spki_inverse. cbn [mbind option_bind].
  by rewrite <- Hdh.
Qed.
End Sealing.

(** ** Concrete instances *)

#[local] Existing Instance half_doubles.
#[local] Existing Instance digit_hash.

Definition any_job : jsvalue -> bool := fun v => match v with VObj _ => true | _ => false end.
Definition any_result : SandboxJobResult -> bool := fun _ => true.
Definition toy_clock (_ : ustr) : option Z := Some 1767312000000%Z.
Definition toy_runner_cert : ustr := u "sha256:" ++ replicate 64 98%N.
Definition toy_store : IdentityStorePort :=
  StaticIdentityStore [mkRecord (u "r1") k_runner (u "s1") (replicate 64 98%N) None (u "2030-01-01") []]
    [(u "r1", [mkGrantRecord (u "p") [] a_digest None])] None.
Definition toy_safety : SafetyProfile := mkSafety 1000 1000 4 1000 1000 1000 1000.
Definition toy_frame : GuestFrame := mkFrame 0 EXITED [] [] 10 0 1 1 1.

(** A guest that used more processes than its profile allows and exited with 0 *)
Definition toy_backend : SandboxBackend :=
  mkBackend (fun _ => available)
    (fun job => resultFromGuestFrame any_result (fun _ => []) job (Some toy_frame) toy_safety 10 10 (u "2026-01-01") (u "2026-01-02") 0 0).
Definition toy_execution : SandboxExecutionContext :=
  mkExecution (u "2026-01-02") (u "r1") 2%N toy_runner_cert (u "s1") 1%N toy_store 7 a_digest a_digest p_linux
    (mkImage p_linux a_digest [] []) (mkBackends toy_backend toy_backend toy_backend).
Definition toy_keys : EphemeralKeys := mkKeys 3%N 3%N [1; 2; 3]%N.
Definition toy_binding : SandboxJobBinding :=
  mkJobBinding (mkImageIndex [(u "bin/sh", a_digest)] a_digest a_digest)
    (mkJobSigner 1%N (u "control") a_digest (u "2026-01-01") (u "2026-01-03"))
    (mkBindingIdentity (u "p") (u "run") (u "op") 7 (u "r1") a_digest a_digest a_digest).
Definition toy_spec : jsvalue :=
  VObj [(u "executable", VStr (u "/bin/sh")); (u "argv", VArr []); (u "workingDirectory", VStr (u "."));
        (u "network", VStr (u "NONE")); (u "secretHandles", VArr []); (u "writableRoots", VArr [])].
Definition toy_check : CheckNode := mkCheck (u "k1") [] SUBJECT_CANDIDATE (Plan.CommandSpec PROJECT_CI) [] true APPROVAL_AUTO.
Definition toy_build : result SandboxErr SignedSandboxCommand := buildSignedSandboxJob toy_sign toy_spec toy_check toy_binding.
Definition toy_command : SignedSandboxCommand :=
  match toy_build with Ok s => s | Err _ => mkSignedCommand VNull [] [] (mkEnvelope [] 0 VNull [] []) end.
Definition toy_nonce : ustr :=
  default [] (mintGeneralId (u "nonce") (check_id toy_check ++ u ":" ++ sc_resolvedEnvelopeDigest toy_command)).
Definition toy_run (consumed : list ustr) : list ustr * result SandboxErr SignedSandboxJobResult :=
  executeSandboxJob toy_verify toy_sign any_job any_result toy_clock false consumed (envelope_value (sc_jobEnvelope toy_command))
    toy_execution toy_keys.

Lemma toy_key_pair k : key_pair toy_verify toy_sign k k.
Proof. intros b. unfold toy_verify. by apply bool_decide_eq_true. Qed.

Lemma toy_built : toy_build = Ok toy_command.
Proof. vm_compute. reflexivity. Qed.

Lemma toy_expects : runner_expects toy_verify toy_sign toy_execution toy_binding.
Proof. constructor; try (vm_compute; reflexivity). apply toy_key_pair. Qed.

Lemma sandbox_result_attested_witness :
  exists signed, snd (toy_run []) = Ok signed /\
    attested toy_verify toy_clock toy_execution toy_keys (answer_nonce (envelope_value (sc_jobEnvelope toy_command))) 2%N signed.
Proof.
  destruct (toy_run []) as [consumed' [signed|e]] eqn:E; [|vm_compute in E; discriminate E].
  exists signed. split; [reflexivity|]. unfold toy_run in E.
  exact (sandbox_result_attested toy_verify toy_sign any_job any_result toy_clock false [] (envelope_value (sc_jobEnvelope toy_command))
    toy_execution toy_keys 2%N consumed' signed (toy_key_pair 3%N) (toy_key_pair 2%N) E).
Defined.

Lemma built_job_admitted_witness :
  fst (toy_run []) = [toy_nonce].
Proof.
  unfold toy_run.
  rewrite (built_job_admitted toy_verify toy_sign any_job any_result toy_clock false toy_spec toy_check toy_binding toy_command []
    toy_execution toy_keys toy_nonce toy_built).
  - reflexivity.
  - vm_compute. reflexivity.
  - exact toy_expects.
  - vm_compute. reflexivity.
  - apply not_elem_of_nil.
Defined.

(** ** Where the code falls short *)

(** A guest that exceeded its limit of processes and exited with 0 terminates by SAFETY_LIMIT, and the check it ran
    is observed as passed. *)
Theorem safety_limit_passes :
  match toy_run [] with
  | (_, Ok signed) => match sr_result signed with JOB_COMPLETED _ _ ec t _ _ _ _ _ _ _ => (ec, t) = (0%Z, SAFETY_LIMIT) | _ => False end
  | _ => False
  end /\
  match observationsFor toy_verify toy_sign any_job any_result toy_clock false [] None toy_check (Some toy_spec) (Some toy_binding)
          toy_execution toy_keys with
  | (_, Ok observed) => map state observed = [PASSED]
  | _ => False
  end.
Proof. vm_compute. split; reflexivity. Qed.

Definition null_job : jsvalue :=
  VObj [(u "schemaName", VStr (u "SandboxJob")); (u "schemaVersion", VInt 1); (u "payload", VNull);
        (u "payloadDigest", VStr []); (u "signatures", VArr [])].

(** An envelope without a payload makes the runner throw instead of rejecting it. *)
Theorem null_payload_throws context keys :
  executeSandboxJob toy_verify toy_sign any_job any_result toy_clock false [] null_job context keys = ([], Err type_error).
Proof. vm_compute. reflexivity. Qed.
