(* ===== verification/Preflight.v ===== *)
(** Preflight (packages/preflight/src: closure/templates.ts, evaluate.ts and seed.ts, actions.ts, scheduler.ts, stability.ts,
    tools/scanner.ts and orchestrator.ts): rounds of retrieval, proposals of the analysts and execution of the scheduled actions,
    until the evidence closes the task, nothing more can be asked, or a resource limit is hit; and what a closure report says.

    The answers of the channels, of the analysts and of the executed actions, the compiled schemas, the state of the abort signal
    and [Math.log] are parameters, per round where they may change; analysts answer in the order of their lanes.  A run of rounds
    has fuel, since nothing bounds how often a channel may bring new evidence.  Theorems are at the end of the file. *)

From Stdlib Require Import String SpecFloat.
From S2P Require Import Prelude Ids JsText CanonicalJson JsJson Digest CanonicalJsonTheorems RelativePath Classification EvidenceGraph Dedupe Retrieval EvidenceGraphTheorems RetrievalTheorems.
Open Scope string_scope.
Open Scope list_scope.

(** ** Closure templates *)

Inductive ClosureTemplate : Set := t_bug | t_feature | t_refactor | t_investigation.

Definition KIND (kinds : list string) (graph : EvidenceGraph) : bool :=
  existsb (fun n => includes (en_kind n) (map u kinds) && bool_decide (en_authorship n = DETERMINISTIC)) (eg_nodes graph).
Definition RELATION (relation : string) (graph : EvidenceGraph) : bool :=
  existsb (fun e => bool_decide (ee_relation e = u relation)) (eg_edges graph).
Definition KIND_OR_RELATION (kinds : list string) (relation : string) (graph : EvidenceGraph) : bool :=
  KIND kinds graph || RELATION relation graph.

Definition ClosurePredicate : Type := string * (EvidenceGraph -> bool).

Definition BUG_PREDICATES : list ClosurePredicate :=
  [("symptom", KIND ["task"; "requirement"]); ("reproducible-observation", KIND ["test"; "test-result"]);
   ("execution-path", KIND_OR_RELATION ["stack-frame"] "FLOWS_TO");
   ("responsible-boundary", KIND_OR_RELATION ["api-contract"; "symbol"] "CANDIDATE_LOCUS");
   ("affected-contract", KIND ["api-contract"; "schema"]); ("regression-witness", RELATION "COVERED_BY")].

Definition FEATURE_PREDICATES : list ClosurePredicate :=
  [("requirement", KIND ["requirement"]); ("public-internal-contract", KIND ["api-contract"; "schema"]);
   ("insertion-boundaries", RELATION "CANDIDATE_LOCUS"); ("existing-patterns", KIND ["symbol"; "code-region"]);
   ("consumers", KIND_OR_RELATION ["symbol"] "REFERENCES"); ("verification-capabilities", KIND ["test"; "test-result"])].

Definition REFACTOR_PREDICATES : list ClosurePredicate :=
  [("behavioral-invariants", KIND ["invariant"; "constraint"]); ("dependency-boundary", KIND ["dependency"]);
   ("reverse-dependencies", RELATION "REFERENCES"); ("compatibility-surface", KIND ["api-contract"; "schema"]);
   ("preserving-tests", KIND_OR_RELATION ["test"] "COVERED_BY")].

(** A deterministic node of one of the kinds whose key has a prefix *)
Definition keyed_node (kinds : list string) (prefix : string) (graph : EvidenceGraph) : bool :=
  existsb (fun n => bool_decide (en_authorship n = DETERMINISTIC) && includes (en_kind n) (map u kinds) &&
                    startsWith (u prefix) (en_identityKey n)) (eg_nodes graph).

Definition INVESTIGATION_PREDICATES : list ClosurePredicate :=
  [("claim", KIND ["fact"; "hypothesis"; "task"]); ("authoritative-evidence", RELATION "SUPPORTS");
   ("contradicting-evidence", fun graph => RELATION "CONTRADICTS" graph || keyed_node ["fact"] "contradiction-scan:" graph);
   ("uncertainty-boundary", keyed_node ["constraint"; "fact"] "uncertainty-boundary:");
   ("reproducible-explanation", KIND_OR_RELATION ["test-result"; "stack-frame"] "FLOWS_TO")].

Definition closurePredicatesFor (template : ClosureTemplate) : list ClosurePredicate :=
  match template with
  | t_bug => BUG_PREDICATES | t_feature => FEATURE_PREDICATES | t_refactor => REFACTOR_PREDICATES
  | t_investigation => INVESTIGATION_PREDICATES
  end.

Definition allTemplatePredicatesPass (template : ClosureTemplate) (graph : EvidenceGraph) : bool :=
  forallb (fun p : ClosurePredicate => p.2 graph) (closurePredicatesFor template).

Definition has_kind (kind : string) (n : EvidenceNode) : bool := bool_decide (en_kind n = u kind).

Definition factUnknowns (graph : EvidenceGraph) : list EvidenceNode :=
  List.filter (fun n => (has_kind "unknown" n || bool_decide (en_status n = es_unknown)) && negb (isCapabilityNode n) &&
                        negb (bool_decide (en_authorship n = LOCAL_MODEL))) (eg_nodes graph).
Definition criticalConflicts (graph : EvidenceGraph) : list EvidenceNode :=
  List.filter (fun n => has_kind "conflict" n || bool_decide (en_status n = es_conflicted)) (eg_nodes graph).
Definition instructionNodes (graph : EvidenceGraph) : list EvidenceNode := List.filter (has_kind "instruction") (eg_nodes graph).
Definition dependencyNodes (graph : EvidenceGraph) : list EvidenceNode := List.filter (has_kind "dependency") (eg_nodes graph).

Definition is_locus (e : EvidenceEdge) : bool := bool_decide (ee_relation e = u "CANDIDATE_LOCUS").

Definition locusNodeIds (graph : EvidenceGraph) : result GraphErr (list ustr) :=
  let? ids := rfold (fun ids e =>
      if negb (is_locus e) then Ok ids else
      let? to := asEvidenceId_graph (ee_to e) in
      let? from := asEvidenceId_graph (ee_from e) in Ok (setAdd (setAdd ids to) from)) [] (eg_edges graph) in
  Ok (sort_by utf16_leb ids).

Definition reverseDependencyEdges (graph : EvidenceGraph) : nat :=
  length (List.filter (fun e => includes (ee_relation e) (map u ["REFERENCES"; "MAY_CALL"; "IMPORTS"])) (eg_edges graph)).

(** ** Evaluation of closure *)

Inductive ClosureState : Set := COMPLETE | SATURATED_WITH_UNKNOWNS | RESOURCE_LIMITED.
#[export] Instance ClosureState_eq_dec : EqDecision ClosureState.
Proof. solve_decision. Defined.

Definition closure_text (s : ClosureState) : ustr :=
  u match s with COMPLETE => "COMPLETE" | SATURATED_WITH_UNKNOWNS => "SATURATED_WITH_UNKNOWNS" | RESOURCE_LIMITED => "RESOURCE_LIMITED" end.

Record PreflightRequirement := mkPreflightRequirement { pr_id : ustr; pr_must : bool; pr_text : ustr }.

Inductive WitnessStatus : Set := w_covered | w_unknown | w_conflicted.
#[export] Instance WitnessStatus_eq_dec : EqDecision WitnessStatus.
Proof. solve_decision. Defined.

Record WitnessRecord := mkWitness { wr_requirementId : ustr; wr_bundleIds : list ustr; wr_status : WitnessStatus }.

Record ClosureEvaluation := mkEvaluation {
  ce_state : ClosureState;
  ce_templatePredicatesPass : bool;
  ce_witnesses : list WitnessRecord;
  ce_unresolved : list ustr;
  ce_frontierFixed : bool;
  ce_channelsDrained : bool;
  ce_auditStable : bool
}.

Record ResourceLimitSignal := mkLimits {
  rl_aborted : bool;
  rl_runnerAvailable : bool;
  rl_memoryBytes : option Z;
  rl_modelContextTokens : option Z;
  rl_timeoutMs : option Z
}.

Definition resourceLimitHit (limits : ResourceLimitSignal) : bool :=
  rl_aborted limits || negb (rl_runnerAvailable limits) ||
  match rl_timeoutMs limits with Some t => (t <=? 0)%Z | None => false end ||
  match rl_memoryBytes limits with Some m => (m <? 1)%Z | None => false end ||
  match rl_modelContextTokens limits with Some c => (c <? 1)%Z | None => false end.

Definition requirement_key (id : ustr) : ustr := u "requirement:" ++ id.

Definition touches (id : ustr) (e : EvidenceEdge) : bool := bool_decide (ee_from e = id) || bool_decide (ee_to e = id).

Definition requirementHasWitness (graph : EvidenceGraph) (requirementId : ustr) : bool :=
  match array_find (fun n => bool_decide (en_identityKey n = requirement_key requirementId)) (eg_nodes graph) with
  | None => false
  | Some requirement =>
      existsb (fun e => touches (en_id requirement) e && includes (ee_relation e) (map u ["SATISFIES"; "COVERED_BY"; "SUPPORTS"]))
        (eg_edges graph)
  end.

Definition requirement_conflicted (graph : EvidenceGraph) (id : ustr) : bool :=
  existsb (fun n =>
      existsb (fun e => touches (en_id n) e &&
          existsb (fun r => bool_decide (en_identityKey r = requirement_key id) && touches (en_id r) e) (eg_nodes graph))
        (eg_edges graph))
    (criticalConflicts graph).

Definition evaluateWitnesses (graph : EvidenceGraph) (requirements : list PreflightRequirement) : list WitnessRecord :=
  map (fun r =>
      if requirement_conflicted graph (pr_id r) then mkWitness (pr_id r) [] w_conflicted
      else if requirementHasWitness graph (pr_id r) then mkWitness (pr_id r) [u "bundle_witness_" ++ pr_id r] w_covered
      else mkWitness (pr_id r) [] w_unknown)
    (sort_by (by_key pr_id) requirements).

Definition mandatoryClosurePredicatesPass (template : ClosureTemplate) (graph : EvidenceGraph) (requirements : list PreflightRequirement)
    : result GraphErr bool :=
  if negb (allTemplatePredicatesPass template graph) then Ok false
  else if existsb (fun r => negb (requirementHasWitness graph (pr_id r))) (List.filter pr_must requirements) then Ok false
  else
    let? loci := locusNodeIds graph in
    if (length loci =? 0)%nat then Ok false
    else if (reverseDependencyEdges graph =? 0)%nat then Ok false
    else if (length (instructionNodes graph) =? 0)%nat then Ok false
    else if (length (dependencyNodes graph) =? 0)%nat ||
            existsb (fun n => negb (bool_decide (en_status n = es_verified))) (dependencyNodes graph) then Ok false
    else if (0 <? length (factUnknowns graph))%nat then Ok false
    else if (0 <? length (criticalConflicts graph))%nat then Ok false
    else Ok true.

Definition evaluateClosureState (template : ClosureTemplate) (graph : EvidenceGraph) (requirements : list PreflightRequirement)
    (frontierFixed channelsDrained auditStable : bool) (resources : ResourceLimitSignal) (unresolved : list ustr)
    : result GraphErr ClosureEvaluation :=
  let witnesses := evaluateWitnesses graph requirements in
  let? templatePass := mandatoryClosurePredicatesPass template graph requirements in
  if resourceLimitHit resources then
    Ok (mkEvaluation RESOURCE_LIMITED templatePass witnesses unresolved frontierFixed channelsDrained auditStable)
  else if templatePass && frontierFixed && channelsDrained && auditStable then
    Ok (mkEvaluation COMPLETE true witnesses [] true true true)
  else Ok (mkEvaluation SATURATED_WITH_UNKNOWNS templatePass witnesses unresolved frontierFixed channelsDrained auditStable).

Record ClosureReport := mkReport {
  cr_runId : ustr;
  cr_snapshotId : ustr;
  cr_state : ClosureState;
  cr_evidenceGraphObjectDigest : ustr;
  cr_requirementWitnesses : list WitnessRecord;
  cr_unresolvedCriticalEvidenceIds : list ustr;
  cr_exhaustedActionDigests : list ustr;
  cr_stabilityAuditObjectDigest : ustr
}.

Definition witness_text (s : WitnessStatus) : ustr :=
  u match s with w_covered => "covered" | w_unknown => "unknown" | w_conflicted => "conflicted" end.

Inductive PreflightErr : Type := graph_error (e : GraphErr) | report_invalid | delta_invalid | not_parsed.
Definition of_graph {A} (r : result GraphErr A) : result PreflightErr A := match r with Ok a => Ok a | Err e => Err (graph_error e) end.

Section Preflight.
Context {D : Doubles} {HH : Hashing} {UU : Unicode}.

Definition witness_json (w : WitnessRecord) : jsvalue :=
  VObj [text_member "requirementId" (wr_requirementId w); (u "bundleIds", VArr (map VStr (wr_bundleIds w)));
        text_member "status" (witness_text (wr_status w))].

Definition report_json (r : ClosureReport) : jsvalue :=
  VObj [(u "schemaVersion", VInt 1); text_member "runId" (cr_runId r); text_member "snapshotId" (cr_snapshotId r);
        text_member "state" (closure_text (cr_state r)); text_member "evidenceGraphObjectDigest" (cr_evidenceGraphObjectDigest r);
        (u "requirementWitnesses", VArr (map witness_json (cr_requirementWitnesses r)));
        (u "unresolvedCriticalEvidenceIds", VArr (map VStr (cr_unresolvedCriticalEvidenceIds r)));
        (u "exhaustedActionDigests", VArr (map VStr (cr_exhaustedActionDigests r)));
        text_member "stabilityAuditObjectDigest" (cr_stabilityAuditObjectDigest r)].

(** [REPORT.Check] *)
Variable report_schema : ClosureReport -> bool.

Definition buildClosureReport (runId snapshotId : ustr) (evaluation : ClosureEvaluation) (graphDigest : ustr) (exhausted : list ustr)
    (auditDigest : ustr) : result PreflightErr ClosureReport :=
  let report := mkReport runId snapshotId (ce_state evaluation) graphDigest (ce_witnesses evaluation) (ce_unresolved evaluation)
                  exhausted auditDigest in
  throw_if negb (report_schema report) with report_invalid; Ok report.

Definition closureReportDigest (report : ClosureReport) : result PreflightErr Digest :=
  let? text := of_graph (graph_canon (canonicalizeRfc8785 (report_json report))) in
  match JSON_parse text with
  | None => Err not_parsed
  | Some value => of_graph (graph_digest (payloadDigest (u "ClosureReport") 1 value))
  end.

Definition digestCanonical (value : jsvalue) : result PreflightErr Digest :=
  let? text := of_graph (graph_canon (canonicalizeRfc8785 value)) in Ok (objectDigestFromBytes (utf8_encode text)).

(** ** The deterministic seed *)

Record SeedInstruction := mkSeedInstruction { sd_path : ustr; sd_contentDigest : Digest }.

Definition SEED_EXTRACTOR : ustr := u "pi-hec-preflight-seed/v1".

Definition tokens_of_length (text : ustr) : Z := Z.max 1 ((Z.of_nat (length text) + 3) / 4).

Definition seed_trust (digest : ustr) (directness : string) : TrustVector :=
  defaultTrust (independenceGroupFor SEED_EXTRACTOR digest) (Some (f64_of_Z 1)) (Some (u directness)) None None None.

Definition seed_task (snapshotId originalRequest nowIso : ustr) : result GraphErr EvidenceNode :=
  let requestDigest := sha256Utf8 originalRequest in
  let? object := asObjectDigest_graph requestDigest in
  createEvidenceNode snapshotId
    (mkNode [] (u "task") (u "task:" ++ requestDigest) DETERMINISTIC (take 1024 originalRequest) es_verified
       (seed_trust requestDigest "asserted")
       [makeProvenance (artifactSourceRef object requestDigest (Some (u "user-task"))) SEED_EXTRACTOR (u "seed/v1") nowIso requestDigest None]
       (tokens_of_length originalRequest) (Some object)).

Definition seed_requirement (snapshotId nowIso : ustr) (r : PreflightRequirement) : result GraphErr EvidenceNode :=
  let digest := sha256Utf8 (u "requirement:" ++ pr_id r ++ u ":" ++ pr_text r) in
  let? object := asObjectDigest_graph digest in
  createEvidenceNode snapshotId
    (mkNode [] (u "requirement") (requirement_key (pr_id r)) DETERMINISTIC (take 1024 (pr_text r)) es_probable
       (seed_trust digest "asserted")
       [makeProvenance (artifactSourceRef object digest (Some (u "user-task"))) SEED_EXTRACTOR (u "seed/v1") nowIso digest None]
       (tokens_of_length (pr_text r)) (Some object)).

Definition seed_instruction (snapshotId nowIso : ustr) (i : SeedInstruction) : result GraphErr EvidenceNode :=
  let digest := sd_contentDigest i in
  let? object := asObjectDigest_graph digest in
  createEvidenceNode snapshotId
    (mkNode [] (u "instruction") (u "instruction:" ++ sd_path i) DETERMINISTIC (take 1024 (sd_path i)) es_verified
       (seed_trust digest "static-derived")
       [makeProvenance (repository_source (u "project-instruction") snapshotId object (sd_path i) whole digest) SEED_EXTRACTOR
          (u "seed/v1") nowIso digest None] 1 (Some object)).

Variable graph_schema : EvidenceGraph -> bool.

Definition deterministicSeed (originalRequest snapshotId : ustr) (requirements : list PreflightRequirement)
    (instructions : list SeedInstruction) (nowIso : ustr) : result GraphErr EvidenceGraph :=
  let? taskNode := seed_task snapshotId originalRequest nowIso in
  let? requirementNodes := rmap (seed_requirement snapshotId nowIso) (sort_by (by_key pr_id) requirements) in
  let? instructionNodes := rmap (seed_instruction snapshotId nowIso) (sort_by (by_key sd_path) instructions) in
  let? contains := rmap (fun n => createEvidenceEdge (en_id taskNode) (en_id n) (u "CONTAINS") (u "positive") (f64_of_Z 1)
                                    (en_provenance taskNode)) requirementNodes in
  let? applies := rmap (fun n => createEvidenceEdge (en_id n) (en_id taskNode) (u "APPLIES_TO") (u "positive") (f64_of_Z 1)
                                   (en_provenance n)) instructionNodes in
  mergeEvidence graph_schema (emptyEvidenceGraph snapshotId) (taskNode :: requirementNodes ++ instructionNodes) (contains ++ applies).

(** ** Analyst text (tools/scanner.ts) *)

Definition LOCAL_TEXT_TAINT_MARKER : ustr := u "[untrusted-analyst-trace]".

Definition line_start : regex := Alt AtStart (chr LF).
Definition diff_header : regex :=
  cats [line_start; lit "--- "; plus (Cls (fun c => negb (c =? LF)%N)); chr LF; lit "+++ "].
Definition hunk_header : regex := cats [line_start; lit "@@ -"; plus (Cls is_digit)].
Definition sk_token : regex :=
  cats [WordB; lit "sk-"; at_least (Cls (fun c => is_alnum c || (c =? 95)%N || (c =? 45)%N)) 8; WordB].
Definition akia_token : regex := cats [WordB; lit "AKIA"; at_least (Cls (fun c => is_upper c || is_digit c)) 8; WordB].
Definition url_re : regex := cats [lit_i true "http"; opt (Cls (same_i true 115)); lit "://"].

Definition SCAN_PATTERNS : list (string * (ustr -> bool)) :=
  [("code-fence", includes_text (u "```")); ("unified-diff", fun t => test diff_header t || test hunk_header t);
   ("shell-rm", includes_text (u "rm ")); ("invoke-webrequest", includes_text (u "Invoke-WebRequest"));
   ("bin-sh", includes_text (u "/bin/sh")); ("apply-patch", test (lit_i true "apply this patch"));
   ("secret-token", fun t => test sk_token t || test akia_token t); ("url", test url_re); ("fileContent", includes_text (u "fileContent"))].

(** The reasons; the text is tainted when there is one. *)
Definition scanAnalystText (text : ustr) : list string :=
  map fst (List.filter (fun p : string * (ustr -> bool) => p.2 text) SCAN_PATTERNS).

Record AnalystTrace := mkTrace { at_text : ustr; at_scanReasons : list string }.
Definition persistAnalystTrace (text : ustr) : AnalystTrace := mkTrace text (scanAnalystText text).

Definition sanitizeLocalText (text : ustr) : ustr :=
  match at_scanReasons (persistAnalystTrace text) with [] => text | _ => LOCAL_TEXT_TAINT_MARKER end.

(** ** Proposed actions *)

Definition FORBIDDEN_FILTERS : list ustr := map u ["command"; "argv"; "cwd"; "patch"; "content"; "fileContent"].

Definition TOOL_CHANNEL_TO_RETRIEVAL : list (ustr * RetrievalChannelId) :=
  [(u "lexical", ch_bm25); (u "structural", ch_ast); (u "history", ch_git_history); (u "tests", ch_tests);
   (u "instructions", ch_instructions)].

(** Reading a property of an object literal also finds the members of [Object.prototype]. *)
Definition PROTOTYPE_MEMBERS : list ustr :=
  map u ["constructor"; "hasOwnProperty"; "isPrototypeOf"; "propertyIsEnumerable"; "toLocaleString"; "toString"; "valueOf"; "__proto__";
         "__defineGetter__"; "__defineSetter__"; "__lookupGetter__"; "__lookupSetter__"].

Inductive ChannelResolution : Set := resolved (c : RetrievalChannelId) | inherited_member | unresolved_channel.

Definition resolveChannelId (channelId : ustr) : ChannelResolution :=
  match array_find (fun c => bool_decide (channel_text c = channelId)) RETRIEVAL_CHANNEL_IDS with
  | Some c => resolved c
  | None =>
      match JsMap.get channelId TOOL_CHANNEL_TO_RETRIEVAL with
      | Some c => resolved c
      | None => if includes channelId PROTOTYPE_MEMBERS then inherited_member else unresolved_channel
      end
  end.

Inductive ProposedActionClassification : Type := admissible (action : RetrievalAction) | pending_targets | inadmissible.

(** [ACTION.Check] *)
Variable action_schema : RetrievalAction -> bool.

Definition forbidden_filter (channel : ChannelResolution) (key : ustr) : bool :=
  includes key FORBIDDEN_FILTERS ||
  (bool_decide (key = u "url") && negb match channel with resolved c => bool_decide (c = ch_external_docs) | _ => false end).

Definition with_id (a : RetrievalAction) (id : ustr) : RetrievalAction :=
  mkAction id (ra_channelId a) (ra_targetClaimIds a) (ra_query a) (ra_filters a) (ra_expectedInformationGain a) (ra_expectedTrustGain a)
    (ra_estimatedLatencyMs a) (ra_estimatedPacketTokens a).

Definition classifyProposedAction (snapshotId : ustr) (graph : EvidenceGraph) (proposed : RetrievalAction)
    : result GraphErr ProposedActionClassification :=
  if negb (action_schema proposed) then Ok inadmissible else
  let channel := resolveChannelId (ra_channelId proposed) in
  if match channel with unresolved_channel => true | _ => false end then Ok inadmissible else
  if existsb (forbidden_filter channel) (map fst (ra_filters proposed)) then Ok inadmissible else
  let known := map en_id (eg_nodes graph) in
  match List.filter (fun id => includes id known) (ra_targetClaimIds proposed) with
  | [] => Ok (if (0 <? length (ra_targetClaimIds proposed))%nat then pending_targets else inadmissible)
  | first :: rest =>
      let tainted := (0 <? length (scanAnalystText (ra_query proposed)))%nat in
      let query := normalizeQuery (ra_query proposed) in
      let query := if tainted || bool_decide (query = LOCAL_TEXT_TAINT_MARKER) then
                     take 4096 <$> (en_identityKey <$> array_find (fun n => bool_decide (en_id n = first)) (eg_nodes graph))
                   else Some query in
      match query with
      | None => Ok inadmissible
      | Some [] => Ok inadmissible
      | Some query =>
          let? targets := rmap asEvidenceId_graph (first :: rest) in
          match channel with
          | resolved c =>
              let reconstructed := createRetrievalAction (ra_id proposed) (channel_text c) targets query (Some (ra_filters proposed))
                (Some (ra_expectedInformationGain proposed)) (Some (ra_expectedTrustGain proposed))
                (Some (ra_estimatedLatencyMs proposed)) (Some (ra_estimatedPacketTokens proposed)) in
              if negb (action_schema reconstructed) then Ok inadmissible else
              let? digest := actionCanonicalDigest snapshotId reconstructed in
              Ok (admissible (with_id reconstructed digest))
          (* the channel of the reconstructed action is not a string *)
          | _ => Ok inadmissible
          end
      end
  end.

Definition reconstructAction (snapshotId : ustr) (graph : EvidenceGraph) (proposed : RetrievalAction) : result GraphErr (option RetrievalAction) :=
  let? c := classifyProposedAction snapshotId graph proposed in
  Ok match c with admissible a => Some a | _ => None end.

(** ** Scheduling *)

Variable Math_log : f64 -> f64.
Definition Math_sqrt : f64 -> f64 := SFsqrt 53 1024.

Definition upperConfidenceBound (expected : f64) (armPulls totalPulls : Z) : f64 :=
  let explore := (f64_of_Z 2 * Math_log (f64_of_Z (Z.max totalPulls 1)))%f64 in
  if (armPulls <=? 0)%Z then (expected + Math_sqrt explore)%f64 else (expected + Math_sqrt (explore / f64_of_Z armPulls))%f64.

Definition actionPriority (a : RetrievalAction) (criticality independence : f64) (channelPulls totalPulls indexCost : Z) : f64 :=
  let ucb := upperConfidenceBound (ra_expectedInformationGain a) channelPulls totalPulls in
  let cost := (ra_estimatedLatencyMs a + indexCost + ra_estimatedPacketTokens a)%Z in
  let denominator := if (cost <=? 0)%Z then 1%Z else cost in
  (ucb * criticality * independence * ra_expectedTrustGain a / f64_of_Z denominator)%f64.

Definition dominates (left right : RetrievalAction) : bool :=
  let strictlyBetter := f64_lt (ra_expectedInformationGain right) (ra_expectedInformationGain left) ||
    f64_lt (ra_expectedTrustGain right) (ra_expectedTrustGain left) || (ra_estimatedLatencyMs left <? ra_estimatedLatencyMs right)%Z in
  f64_le (ra_expectedInformationGain right) (ra_expectedInformationGain left) &&
  f64_le (ra_expectedTrustGain right) (ra_expectedTrustGain left) &&
  (ra_estimatedLatencyMs left <=? ra_estimatedLatencyMs right)%Z && strictlyBetter.

Definition paretoFrontier (actions : list RetrievalAction) : list RetrievalAction :=
  List.filter (fun candidate =>
    negb (existsb (fun other => negb (bool_decide (ra_id other = ra_id candidate)) && dominates other candidate) actions)) actions.

(** ** Stability *)

Record CriticalFacets := mkFacets { cf_loci : list ustr; cf_instructionIds : list ustr; cf_proofObligationKeys : list ustr }.

Record StabilityAudit := mkAudit {
  sa_stable : bool;
  sa_paraphraseStable : bool;
  sa_channelDropoutStable : bool;
  sa_permutationStable : bool;
  sa_sourceIndependenceStable : bool;
  sa_instructionScopeStable : bool;
  sa_facets : CriticalFacets
}.

Definition retainNodes (graph : EvidenceGraph) (keep : EvidenceNode -> bool) : EvidenceGraph :=
  let nodes := List.filter keep (eg_nodes graph) in
  let ids := map en_id nodes in
  mkGraph (eg_snapshotId graph) nodes (List.filter (between_known ids) (eg_edges graph)).

Definition locusIdentityKeys (graph : EvidenceGraph) : list ustr :=
  let byId := map_by_id en_id (eg_nodes graph) in
  sort_by utf16_leb (foldl (fun keys e =>
      if negb (is_locus e) then keys else
      match JsMap.get (ee_to e) byId with Some target => setAdd keys (en_identityKey target) | None => keys end)
    [] (eg_edges graph)).

Definition compileCriticalFacets (graph : EvidenceGraph) (proofObligationKeys : list ustr) : result GraphErr CriticalFacets :=
  let? ids := rmap (fun n => asEvidenceId_graph (en_id n)) (instructionNodes graph) in
  Ok (mkFacets (locusIdentityKeys graph) (sort_by utf16_leb ids) (sort_by utf16_leb proofObligationKeys)).

Definition facets_json (f : CriticalFacets) : jsvalue :=
  VObj [(u "loci", VArr (map VStr (cf_loci f))); (u "instructionIds", VArr (map VStr (cf_instructionIds f)));
        (u "proofObligationKeys", VArr (map VStr (cf_proofObligationKeys f)))].

(** [facetsEqual] and [sameKeys] compare the texts of [JSON.stringify], which differ when the lists of strings do. *)
Definition facetsEqual (left right : CriticalFacets) : bool :=
  bool_decide (cf_loci left = cf_loci right) && bool_decide (cf_instructionIds left = cf_instructionIds right) &&
  bool_decide (cf_proofObligationKeys left = cf_proofObligationKeys right).

Definition sameKeys (left right : list ustr) : bool := bool_decide (left = right).

(** [query.normalize("NFD")] *)
Variable nfd : ustr -> ustr.

(** [query.replace(/\s+/gu, "  ")] *)
Fixpoint widen_space (inside : bool) (s : ustr) : ustr :=
  match s with
  | [] => []
  | c :: r => if is_space c then (if inside then widen_space true r else SPACE :: SPACE :: widen_space true r) else c :: widen_space false r
  end.

Definition paraphraseQueries (query : ustr) : list ustr :=
  let normalized := normalizeQuery query in
  let add variants value :=
    if (0 <? length value)%nat && negb (bool_decide (value = normalized)) && negb (includes value variants) then variants ++ [value] else variants in
  let variants := add (add [] ([SPACE] ++ query ++ [SPACE])) (widen_space false query) in
  if bool_decide (nfc query = nfd query) then variants else add (add variants (nfc query)) (nfd query).

Definition with_query (a : RetrievalAction) (query : ustr) : RetrievalAction :=
  mkAction (ra_id a) (ra_channelId a) (ra_targetClaimIds a) query (ra_filters a) (ra_expectedInformationGain a) (ra_expectedTrustGain a)
    (ra_estimatedLatencyMs a) (ra_estimatedPacketTokens a).

(** A loop that returns false at the first item that does not hold *)
Fixpoint all_hold {A} (holds : A -> result GraphErr bool) (items : list A) : result GraphErr bool :=
  match items with
  | [] => Ok true
  | x :: rest => let? ok := holds x in if ok then all_hold holds rest else Ok false
  end.

Definition paraphraseStable (snapshotId : ustr) (actions : list RetrievalAction) : result GraphErr bool :=
  all_hold (fun a =>
    let? canonical := actionCanonicalDigest snapshotId a in
    all_hold (fun variant => let? d := actionCanonicalDigest snapshotId (with_query a variant) in Ok (bool_decide (d = canonical)))
      (paraphraseQueries (ra_query a))) actions.

(** [/^pi-hec-channel-([^/]+)\/v1$/u] *)
Definition extractorChannel (extractorId : ustr) : option ustr :=
  let prefix := u "pi-hec-channel-" in
  let suffix := u "/v1" in
  if startsWith prefix extractorId && endsWith suffix extractorId && (length prefix + length suffix <? length extractorId)%nat then
    let middle := take (length extractorId - length prefix - length suffix) (drop (length prefix) extractorId) in
    if has_unit SLASH middle then None else Some middle
  else None.

Definition graphWithoutChannel (graph : EvidenceGraph) (channelId : ustr) : EvidenceGraph :=
  retainNodes graph (fun n => existsb (fun p => negb (bool_decide (extractorChannel (pv_extractorId p) = Some channelId))) (en_provenance n)).

Definition graphWithoutIndependenceGroup (graph : EvidenceGraph) (group : ustr) : EvidenceGraph :=
  retainNodes graph (fun n => negb (bool_decide (tv_independenceGroup (en_trust n) = group))).

Definition graphWithoutInstructions (graph : EvidenceGraph) : EvidenceGraph := retainNodes graph (fun n => negb (has_kind "instruction" n)).

Definition reversedGraph (graph : EvidenceGraph) : EvidenceGraph :=
  mkGraph (eg_snapshotId graph) (rev (eg_nodes graph)) (rev (eg_edges graph)).

Definition sourceIndependenceGroups (graph : EvidenceGraph) : list ustr :=
  sort_by utf16_leb (uniq (map (fun n => tv_independenceGroup (en_trust n)) (eg_nodes graph))).

(** The loci and obligations of a part of the graph are those of the whole *)
Definition same_critical (facets : CriticalFacets) (graph : EvidenceGraph) (keys : list ustr) : result GraphErr bool :=
  let? part := compileCriticalFacets graph keys in
  Ok (sameKeys (cf_loci facets) (cf_loci part) && sameKeys (cf_proofObligationKeys facets) (cf_proofObligationKeys part)).

Definition auditStability (graph : EvidenceGraph) (previous : option CriticalFacets) (actions : list RetrievalAction)
    (keys : list ustr) (channels : list RetrievalChannelId) : result GraphErr StabilityAudit :=
  let? facets := compileCriticalFacets graph keys in
  let? snapshotId := asSnapshotId_graph (eg_snapshotId graph) in
  let? paraphrase := paraphraseStable snapshotId actions in
  let? dropout := all_hold (fun c => same_critical facets (graphWithoutChannel graph (channel_text c)) keys) channels in
  let? reversed := compileCriticalFacets (reversedGraph graph) keys in
  let permutation := facetsEqual facets reversed in
  let? independence := all_hold (fun g => same_critical facets (graphWithoutIndependenceGroup graph g) keys) (sourceIndependenceGroups graph) in
  let? scope := same_critical facets (graphWithoutInstructions graph) keys in
  let compared := match previous with None => true | Some p => facetsEqual p facets end in
  Ok (mkAudit (paraphrase && dropout && permutation && independence && scope && compared) paraphrase dropout permutation independence
        scope facets).

Definition stabilityAuditDigest (a : StabilityAudit) : result PreflightErr Digest :=
  digestCanonical (VObj [(u "stable", VBool (sa_stable a)); (u "paraphraseStable", VBool (sa_paraphraseStable a));
    (u "channelDropoutStable", VBool (sa_channelDropoutStable a)); (u "permutationStable", VBool (sa_permutationStable a));
    (u "sourceIndependenceStable", VBool (sa_sourceIndependenceStable a));
    (u "instructionScopeStable", VBool (sa_instructionScopeStable a)); (u "facets", facets_json (sa_facets a))]).

(** ** The orchestrator *)

Record PreflightTask := mkTask {
  pt_runId : ustr;
  pt_snapshotId : ustr;
  pt_originalRequest : ustr;
  pt_closureTemplate : ClosureTemplate;
  pt_requirements : list PreflightRequirement
}.

Record PreflightResult := mkResult {
  pf_graph : EvidenceGraph;
  pf_closure : ClosureReport;
  pf_actionLog : list RetrievalAction;
  pf_traces : list AnalystTrace;
  pf_evaluation : ClosureEvaluation;
  pf_closureDigest : Digest
}.

Variables (delta_schema : EvidenceDelta -> bool) (intent_schema : RetrievalIntent -> bool).

Definition mergeDelta (graph : EvidenceGraph) (delta : EvidenceDelta) : result PreflightErr EvidenceGraph :=
  throw_if negb (delta_schema delta) with delta_invalid;
  let? digest := of_graph (evidenceGraphDigest graph) in
  if bool_decide (ed_baseEvidenceGraphObjectDigest delta = digest)
  then of_graph (applyEvidenceDelta graph_schema delta_schema graph delta)
  else of_graph (mergeEvidence graph_schema graph (ed_nodes delta) (ed_edges delta)).

Definition node_with (graph : EvidenceGraph) (id : ustr) : option EvidenceNode :=
  array_find (fun n => bool_decide (en_id n = id)) (eg_nodes graph).

Fixpoint requirementCriticality (graph : EvidenceGraph) (requirements : list PreflightRequirement) (score : f64) (targets : list ustr) : f64 :=
  match targets with
  | [] => score
  | id :: rest =>
      match node_with graph id with
      | None => requirementCriticality graph requirements score rest
      | Some n =>
          match array_find (fun r => bool_decide (en_identityKey n = requirement_key (pr_id r))) requirements with
          | None => requirementCriticality graph requirements score rest
          | Some r => if pr_must r then f64_of_Z 1
                      else requirementCriticality graph requirements (f64_max score (f64_literal 1 2)) rest
          end
      end
  end.

Fixpoint sourceIndependence (graph : EvidenceGraph) (channel : ustr) (targets : list ustr) : f64 :=
  match targets with
  | [] => f64_of_Z 1
  | id :: rest =>
      match node_with graph id with
      | None => sourceIndependence graph channel rest
      | Some n => if existsb (fun p => bool_decide (pv_extractorId p = u "pi-hec-channel-" ++ channel ++ u "/v1")) (en_provenance n)
                  then f64_literal 1 2 else sourceIndependence graph channel rest
      end
  end.

Definition unresolvedCritical (graph : EvidenceGraph) (requirements : list PreflightRequirement) : result GraphErr (list ustr) :=
  let uncovered := List.filter (fun w => negb (bool_decide (wr_status w = w_covered))) (evaluateWitnesses graph requirements) in
  let nodes := omap (fun w => array_find (fun n => bool_decide (en_identityKey n = requirement_key (wr_requirementId w))) (eg_nodes graph))
                 uncovered in
  let? ids := rmap (fun n => asEvidenceId_graph (en_id n)) (nodes ++ factUnknowns graph) in
  Ok (sort_by utf16_leb (uniq ids)).

Record PreflightResourceLimits := mkResources {
  pl_runnerAvailable : option bool; pl_memoryBytes : option Z; pl_modelContextTokens : option Z; pl_timeoutMs : option Z
}.

Definition resourcesFrom (limits : PreflightResourceLimits) (aborted : bool) : ResourceLimitSignal :=
  mkLimits aborted (negb (bool_decide (pl_runnerAvailable limits = Some false))) (pl_memoryBytes limits) (pl_modelContextTokens limits)
    (pl_timeoutMs limits).

(** What happens around a round: the abort signal when it begins and when it has executed its actions, the answers of the channels, of
    the analysts and of the executed actions. *)
Record RoundInput := mkRound {
  in_aborted : bool;
  in_aborted_later : bool;
  in_channels : list ChannelAnswer;
  in_lanes : list (list RetrievalAction);
  in_statements : list ustr;
  in_execute : RetrievalAction -> EvidenceGraph -> result GraphErr EvidenceDelta
}.

Record PreflightState := mkState {
  ps_graph : EvidenceGraph;
  ps_frontier : RetrievalFrontier;
  ps_actionLog : list RetrievalAction;
  ps_traces : list AnalystTrace;
  ps_channelPulls : list (ustr * Z);
  ps_previousFacets : CriticalFacets;
  ps_replayQueue : option (list RetrievalAction)
}.

Section Rounds.
Variables (task : PreflightTask) (limits : PreflightResourceLimits) (host : EvidenceChannelHost).

Definition requirement_ids : list ustr := map pr_id (pt_requirements task).

Definition host_with (graph : EvidenceGraph) : EvidenceChannelHost :=
  mkHost (h_snapshotId host) (h_db host) (h_now host) (Some graph) (h_localProposals host) (h_fetchExternal host).

Definition preflight_finish (s : PreflightState) (evaluation : ClosureEvaluation) (auditDigest : Digest) : result PreflightErr PreflightResult :=
  let? digest := of_graph (evidenceGraphDigest (ps_graph s)) in
  let? closure := buildClosureReport (pt_runId task) (pt_snapshotId task) evaluation digest (visitedDigests (ps_frontier s)) auditDigest in
  let? closureDigest := closureReportDigest closure in
  Ok (mkResult (ps_graph s) closure (ps_actionLog s) (ps_traces s) evaluation closureDigest).

Definition audit_of (s : PreflightState) : result GraphErr StabilityAudit :=
  auditStability (ps_graph s) (Some (ps_previousFacets s)) (ps_actionLog s) requirement_ids RETRIEVAL_CHANNEL_IDS.

Definition evaluation_of (s : PreflightState) (fixed drained stable aborted : bool) : result GraphErr ClosureEvaluation :=
  let? unresolved := unresolvedCritical (ps_graph s) (pt_requirements task) in
  evaluateClosureState (pt_closureTemplate task) (ps_graph s) (pt_requirements task) fixed drained stable (resourcesFrom limits aborted) unresolved.

(** The replayed actions by their classification: those to try, with what they come from, and those to keep. *)
Definition classify_replay (graph : EvidenceGraph) (queue : list RetrievalAction)
    : result GraphErr (list (RetrievalAction * RetrievalAction) * list RetrievalAction) :=
  rfold (fun acc raw =>
    let? c := classifyProposedAction (pt_snapshotId task) graph raw in
    Ok match c with
       | admissible a => (acc.1 ++ [(raw, a)], acc.2)
       | pending_targets => (acc.1, acc.2 ++ [raw])
       | inadmissible => acc
       end) ([], []) queue.

(** The admissible actions of the proposals, each once and none that was visited. *)
Definition admit_actions (graph : EvidenceGraph) (frontier : RetrievalFrontier) (proposed : list RetrievalAction)
    : result GraphErr (list RetrievalAction) :=
  let? r := rfold (fun acc raw =>
    let? reconstructed := reconstructAction (pt_snapshotId task) graph raw in
    match reconstructed with
    | None => Ok acc
    | Some a =>
        let? key := actionCanonicalDigest (pt_snapshotId task) a in
        let? visited := frontier_has frontier a in
        if includes key acc.1 || visited then Ok acc else Ok (acc.1 ++ [key], acc.2 ++ [a])
    end) (([], []) : list ustr * list RetrievalAction) proposed in
  Ok r.2.

Definition priority_of (s : PreflightState) (graph : EvidenceGraph) (a : RetrievalAction) : f64 :=
  actionPriority a (requirementCriticality graph (pt_requirements task) (f64_literal 1 4) (ra_targetClaimIds a))
    (sourceIndependence graph (ra_channelId a) (ra_targetClaimIds a)) (default 0%Z (JsMap.get (ra_channelId a) (ps_channelPulls s)))
    (Z.of_nat (length (ps_actionLog s))) 1.

(** The comparator of the schedule, on actions with their digest: not positive *)
Definition scheduled_before (s : PreflightState) (graph : EvidenceGraph) (left right : RetrievalAction * ustr) : bool :=
  let leftScore := priority_of s graph left.1 in
  let rightScore := priority_of s graph right.1 in
  if f64_eq leftScore rightScore then utf16_leb left.2 right.2 else negb (f64_lt (f64_of_Z 0) (rightScore - leftScore)%f64).

Definition schedule (s : PreflightState) (graph : EvidenceGraph) (actions : list RetrievalAction) : result GraphErr (list RetrievalAction) :=
  let? keyed := rmap (fun a => let? d := actionCanonicalDigest (pt_snapshotId task) a in Ok (a, d)) (paretoFrontier actions) in
  Ok (map fst (sort_by (scheduled_before s graph) keyed)).

(** Registering and executing the scheduled actions on the graph: what was executed, the frontier and the pulls *)
Definition execute_action (execute : RetrievalAction -> EvidenceGraph -> result GraphErr EvidenceDelta) (graph : EvidenceGraph)
    (acc : list (RetrievalAction * EvidenceDelta) * RetrievalFrontier * list (ustr * Z)) (a : RetrievalAction)
    : result GraphErr (list (RetrievalAction * EvidenceDelta) * RetrievalFrontier * list (ustr * Z)) :=
  let '(done, frontier, pulls) := acc in
  let? '(decision, frontier) := register frontier a in
  match decision with
  | repeat_action => Ok (done, frontier, pulls)
  | accepted =>
      let pulls := JsMap.set (ra_channelId a) (default 0%Z (JsMap.get (ra_channelId a) pulls) + 1)%Z pulls in
      let? delta := execute a graph in Ok (done ++ [(a, delta)], frontier, pulls)
  end.

Definition replay_rest (held : list RetrievalAction) (candidates : list (RetrievalAction * RetrievalAction))
    (executed : list RetrievalAction) : result GraphErr (list RetrievalAction) :=
  let? executedKeys := rmap (actionCanonicalDigest (pt_snapshotId task)) executed in
  let? rest := rmap (fun p : RetrievalAction * RetrievalAction =>
    let? d := actionCanonicalDigest (pt_snapshotId task) p.2 in Ok (p.1, includes d executedKeys)) candidates in
  Ok (held ++ map fst (List.filter (fun p : RetrievalAction * bool => negb p.2) rest)).

Definition preflight_round (s : PreflightState) (i : RoundInput) : result PreflightErr (PreflightState + PreflightResult) :=
  if in_aborted i then
    let? evaluation := of_graph (evaluation_of s false false false true) in
    let? audit := of_graph (audit_of s) in
    let? d := stabilityAuditDigest audit in
    let? r := preflight_finish s evaluation d in Ok (inr r)
  else
  let before := map en_id (eg_nodes (ps_graph s)) in
  let intent := mkIntent (pt_snapshotId task) (map en_id (List.filter (has_kind "requirement") (eg_nodes (ps_graph s)))) in
  let? fused := of_graph (retrieveAndFuse graph_schema delta_schema intent_schema (host_with (ps_graph s)) intent (in_channels i)) in
  let graph := rr_graph fused in
  let unconsumed := existsb (fun n => negb (includes (en_id n) before) && negb (isCapabilityNode n)) (ed_nodes (rr_delta fused)) in
  let? _ := of_graph (evidenceGraphDigest graph) in
  let? '(proposed, replay, traces) :=
    match ps_replayQueue s with
    | Some queue =>
        let? c := of_graph (classify_replay graph queue) in Ok (map snd c.1, Some c, ps_traces s)
    | None =>
        let? _ := of_graph (unresolvedCritical graph (pt_requirements task)) in
        Ok (concat (in_lanes i), None,
            ps_traces s ++ map (fun a => persistAnalystTrace (ra_query a)) (concat (in_lanes i)) ++ map persistAnalystTrace (in_statements i))
    end in
  let? admitted := of_graph (admit_actions graph (ps_frontier s) proposed) in
  let? scheduled := of_graph (schedule s graph admitted) in
  let? '(executed, frontier, pulls) :=
    of_graph (rfold (execute_action (in_execute i) graph) ([], ps_frontier s, ps_channelPulls s) scheduled) in
  let? merged := rfold (fun g (item : RetrievalAction * EvidenceDelta) => mergeDelta g item.2) graph executed in
  let? queue := match replay with
                | None => Ok None
                | Some c => let? rest := of_graph (replay_rest c.2 c.1 (map fst executed)) in Ok (Some rest)
                end in
  let next := mkState merged frontier (ps_actionLog s ++ map fst executed) traces pulls (ps_previousFacets s) queue in
  let? audit := of_graph (audit_of next) in
  let fixed := (length admitted =? 0)%nat in
  let? evaluation := of_graph (evaluation_of next fixed (negb unconsumed) (sa_stable audit) (in_aborted_later i)) in
  let next := mkState merged frontier (ps_actionLog next) traces pulls (sa_facets audit) queue in
  if bool_decide (ce_state evaluation = RESOURCE_LIMITED) ||
     (bool_decide (ce_state evaluation = COMPLETE) && fixed && negb unconsumed && sa_stable audit) then
    let? d := stabilityAuditDigest audit in
    let? r := preflight_finish next evaluation d in Ok (inr r)
  else if fixed && negb unconsumed then
    let? evaluation := of_graph (evaluation_of next true true (sa_stable audit) (in_aborted_later i)) in
    let? d := stabilityAuditDigest audit in
    let? r := preflight_finish next evaluation d in Ok (inr r)
  else Ok (inl next).

(** [for (;;)]: [None] when the rounds are used up *)
Fixpoint preflight_rounds (s : PreflightState) (rounds : list RoundInput) : result PreflightErr (option PreflightResult) :=
  match rounds with
  | [] => Ok None
  | i :: rest =>
      let? r := preflight_round s i in
      match r with inr result => Ok (Some result) | inl s => preflight_rounds s rest end
  end.

Definition runAdaptivePreflight (instructions : list SeedInstruction) (extraGraph : option EvidenceGraph)
    (replayActions : option (list RetrievalAction)) (nowIso : ustr) (rounds : list RoundInput) : result PreflightErr (option PreflightResult) :=
  let? seed := of_graph (deterministicSeed (pt_originalRequest task) (pt_snapshotId task) (pt_requirements task) instructions nowIso) in
  let? graph := match extraGraph with
                | None => Ok seed
                | Some extra => of_graph (mergeEvidence graph_schema seed (eg_nodes extra) (eg_edges extra))
                end in
  let? facets := of_graph (compileCriticalFacets graph requirement_ids) in
  preflight_rounds (mkState graph (newFrontier (pt_snapshotId task) []) [] [] [] facets replayActions) rounds.
End Rounds.

(** [defaultExecute]: [expand] are the deltas the channel with the id of the action yields *)
Definition defaultExecute (expand : RetrievalChannelId -> RetrievalAction -> result GraphErr (list EvidenceDelta)) (a : RetrievalAction)
    (graph : EvidenceGraph) : result GraphErr EvidenceDelta :=
  match resolveChannelId (ra_channelId a) with
  | resolved c =>
      let? deltas := expand c a in
      let? digest := evidenceGraphDigest graph in
      Ok (foldl (fun merged d => mkDelta digest (ed_nodes merged ++ ed_nodes d) (ed_edges merged ++ ed_edges d)
                   (uniq (ed_unresolvedClaimIds merged ++ ed_unresolvedClaimIds d))) (mkDelta digest [] [] []) deltas)
  | _ => let? digest := evidenceGraphDigest graph in Ok (mkDelta digest [] [] (ra_targetClaimIds a))
  end.

(** ** What closure means *)

Record closed_evidence (template : ClosureTemplate) (requirements : list PreflightRequirement) (graph : EvidenceGraph) : Prop := {
  cl_template : forall name holds, (name, holds) ∈ closurePredicatesFor template -> holds graph = true;
  cl_musts : forall r, r ∈ requirements -> pr_must r = true -> exists n e, n ∈ eg_nodes graph /\ e ∈ eg_edges graph /\
    en_identityKey n = requirement_key (pr_id r) /\ touches (en_id n) e = true /\ ee_relation e ∈ map u ["SATISFIES"; "COVERED_BY"; "SUPPORTS"];
  cl_locus : exists e, e ∈ eg_edges graph /\ is_locus e = true;
  cl_instructions : exists n, n ∈ eg_nodes graph /\ en_kind n = u "instruction";
  cl_dependencies : (exists n, n ∈ eg_nodes graph /\ en_kind n = u "dependency") /\
    forall n, n ∈ eg_nodes graph -> en_kind n = u "dependency" -> en_status n = es_verified;
  cl_known : forall n, n ∈ eg_nodes graph -> en_status n = es_unknown \/ en_kind n = u "unknown" ->
    isCapabilityNode n = true \/ en_authorship n = LOCAL_MODEL;
  cl_consistent : forall n, n ∈ eg_nodes graph -> en_status n <> es_conflicted /\ en_kind n <> u "conflict"
}.

Lemma filter_nil {A} (p : A -> bool) l : (0 <? length (List.filter p l))%nat = false -> forall x, x ∈ l -> p x = false.
Proof.
  intros H x Hx. destruct (p x) eqn:E; [|done].
  assert (x ∈ List.filter p l) as Hin by (apply list_elem_of_In, filter_In; split; [by apply list_elem_of_In | done]).
  destruct (List.filter p l); [by apply not_elem_of_nil in Hin | done].
Qed.

Lemma filter_permuted {A} (p : A -> bool) l m : l ≡ₚ m -> List.filter p l ≡ₚ List.filter p m.
Proof.
  induction 1 as [|x l m _ IH|x y l|l m k _ IH1 _ IH2]; cbn [List.filter]; [done| | |by etransitivity].
  - destruct (p x); [by rewrite IH | done].
  - destruct (p x), (p y); try done. apply Permutation_swap.
Qed.

Lemma filter_some {A} (p : A -> bool) l : (length (List.filter p l) =? 0)%nat = false -> exists x, x ∈ l /\ p x = true.
Proof.
  destruct (List.filter p l) as [|x r] eqn:E; [done|]. intros _. exists x.
  assert (In x (List.filter p l)) as Hin by (rewrite E; by left). apply filter_In in Hin as [Hin Hp].
  split; [by apply list_elem_of_In | done].
Qed.

Lemma witness_found graph id : requirementHasWitness graph id = true -> exists n e, n ∈ eg_nodes graph /\ e ∈ eg_edges graph /\
  en_identityKey n = requirement_key id /\ touches (en_id n) e = true /\ ee_relation e ∈ map u ["SATISFIES"; "COVERED_BY"; "SUPPORTS"].
Proof.
  unfold requirementHasWitness. destruct (array_find _ _) as [n|] eqn:E; [|done]. apply array_find_some in E as [Hn Hk].
  apply bool_decide_eq_true in Hk. intros (e & He & H)%existsb_elem. apply andb_true_iff in H as [Ht Hr]. apply includes_true in Hr.
  by exists n, e.
Qed.

Lemma locus_ids_some graph ids : locusNodeIds graph = Ok ids -> (length ids =? 0)%nat = false -> exists e, e ∈ eg_edges graph /\ is_locus e = true.
Proof.
  unfold locusNodeIds. intros (found & Hf & H)%rbind_ok Hl. apply (inj Ok) in H. subst ids.
  destruct (existsb is_locus (eg_edges graph)) eqn:E; [by apply existsb_elem|]. exfalso.
  assert (found = []) as ->; [|done].
  refine (rfold_ind (fun ids => ids = []) _ _ _ _ _ eq_refl Hf). intros ids e ids' He -> Hs. cbn beta in Hs.
  rewrite (proj1 (existsb_none _ _) E _ He) in Hs. cbn [negb] in Hs. by apply (inj Ok) in Hs.
Qed.

Lemma mandatory_closed template graph requirements :
  mandatoryClosurePredicatesPass template graph requirements = Ok true -> closed_evidence template requirements graph.
Proof.
  unfold mandatoryClosurePredicatesPass. intros H.
  destruct (allTemplatePredicatesPass template graph) eqn:Et; cbn [negb] in H; [|done].
  destruct (existsb _ (List.filter pr_must requirements)) eqn:Em; [done|].
  apply rbind_ok in H as (loci & Hl & H).
  destruct (length loci =? 0)%nat eqn:E1; [done|]. destruct (reverseDependencyEdges graph =? 0)%nat; [done|].
  destruct (length (instructionNodes graph) =? 0)%nat eqn:E3; [done|].
  destruct (_ || _) eqn:E4 in H; [done|]. apply orb_false_iff in E4 as [E4 E5].
  destruct (0 <? length (factUnknowns graph))%nat eqn:E6; [done|]. destruct (0 <? length (criticalConflicts graph))%nat eqn:E7; [done|].
  constructor.
  - intros name holds Hin. unfold allTemplatePredicatesPass in Et. rewrite forallb_forall in Et.
    apply list_elem_of_In in Hin. exact (Et _ Hin).
  - intros r Hr Hm. apply witness_found. apply negb_false_iff. refine (proj1 (existsb_none (fun r => negb (requirementHasWitness graph (pr_id r))) _) Em _ _).
    apply list_elem_of_In, filter_In. split; [by apply list_elem_of_In | done].
  - by apply (locus_ids_some graph loci).
  - destruct (filter_some _ _ E3) as (n & Hn & Hk). exists n. by apply bool_decide_eq_true in Hk.
  - destruct (filter_some _ _ E4) as (n & Hn & Hk). apply bool_decide_eq_true in Hk. split; [by exists n|]. intros m Hm Hkind.
    assert (m ∈ dependencyNodes graph) as Hd by (apply list_elem_of_In, filter_In; split; [by apply list_elem_of_In | by apply bool_decide_eq_true]).
    pose proof (proj1 (existsb_none _ _) E5 m Hd) as Hv. by apply negb_false_iff, bool_decide_eq_true in Hv.
  - intros n Hn Hu. pose proof (filter_nil _ _ E6 n Hn) as Hf. cbn beta in Hf. unfold has_kind in Hf.
    destruct (isCapabilityNode n); [by left|]. right. destruct (decide (en_authorship n = LOCAL_MODEL)) as [Ea|Ea]; [done|]. exfalso.
    rewrite (bool_decide_false (en_authorship n = LOCAL_MODEL)) in Hf by done. rewrite !andb_true_r in Hf.
    apply orb_false_iff in Hf as [H1 H2]. apply bool_decide_eq_false in H1, H2. tauto.
  - intros n Hn. pose proof (filter_nil _ _ E7 n Hn) as Hf. unfold has_kind in Hf. apply orb_false_iff in Hf as [H1 H2].
    apply bool_decide_eq_false in H1, H2. tauto.
Qed.

(** ** Corroboration *)

Lemma all_hold_true {A} (holds : A -> result GraphErr bool) items x :
  all_hold holds items = Ok true -> x ∈ items -> holds x = Ok true.
Proof.
  induction items as [|y items IH]; intros H Hx; [by apply not_elem_of_nil in Hx|]. cbn [all_hold] in H.
  apply rbind_ok in H as (ok & Hy & H). destruct ok; [|done]. apply elem_of_cons in Hx as [->|Hx]; [done | by apply IH].
Qed.

Lemma locus_keys_elem graph k :
  k ∈ locusIdentityKeys graph <-> exists e n, e ∈ eg_edges graph /\ is_locus e = true /\
    JsMap.get (ee_to e) (map_by_id en_id (eg_nodes graph)) = Some n /\ en_identityKey n = k.
Proof.
  unfold locusIdentityKeys. rewrite elem_of_sort_by.
  assert (forall es acc, k ∈ foldl (fun keys e => if negb (is_locus e) then keys else
      match JsMap.get (ee_to e) (map_by_id en_id (eg_nodes graph)) with Some target => setAdd keys (en_identityKey target) | None => keys end)
      acc es <-> k ∈ acc \/ exists e n, e ∈ es /\ is_locus e = true /\
      JsMap.get (ee_to e) (map_by_id en_id (eg_nodes graph)) = Some n /\ en_identityKey n = k) as Hf.
  { induction es as [|e es IH]; intros acc; cbn [foldl].
    { split; [by left|]. intros [H|(e & n & H & _)]; [done | by apply not_elem_of_nil in H]. }
    rewrite IH. destruct (is_locus e) eqn:El; cbn [negb].
    - destruct (JsMap.get (ee_to e) _) as [n|] eqn:Eg.
      + rewrite elem_of_setAdd. split.
        * intros [[->|H]|(e' & n' & H & Hr)]; [right | by left | right].
          -- exists e, n. split; [by left | done].
          -- exists e', n'. split; [by right | done].
        * intros [H|(e' & n' & [->|H]%elem_of_cons & Hl & Hg & Hk)]; [left; by right| |right; by exists e', n'].
          left. left. congruence.
      + split; [intros [H|(e' & n' & H & Hr)]; [by left | right; exists e', n'; split; [by right | done]]|].
        intros [H|(e' & n' & [->|H]%elem_of_cons & Hl & Hg & Hk)]; [by left | congruence | right; by exists e', n'].
    - split; [intros [H|(e' & n' & H & Hr)]; [by left | right; exists e', n'; split; [by right | done]]|].
      intros [H|(e' & n' & [->|H]%elem_of_cons & Hl & Hg & Hk)]; [by left | congruence | right; by exists e', n']. }
  rewrite Hf. split; [intros [H|H]; [by apply not_elem_of_nil in H | done] | by right].
Qed.

Lemma map_by_id_get (ns : list EvidenceNode) id n : JsMap.get id (map_by_id en_id ns) = Some n -> n ∈ ns /\ en_id n = id.
Proof.
  unfold map_by_id.
  assert (forall l acc, JsMap.get id (fold_left (fun m x => JsMap.set (en_id x) x m) l acc) = Some n ->
    JsMap.get id acc = Some n \/ (n ∈ l /\ en_id n = id)) as H.
  { induction l as [|x l IH]; intros acc Hg; cbn [fold_left] in Hg; [by left|]. apply IH in Hg as [Hg|[Hn Hid]].
    - rewrite JsMap.get_set in Hg. case_decide as E; [|by left]. apply (inj Some) in Hg. subst x. right. split; [by left | done].
    - right. split; [by right | done]. }
  intros Hg. by apply H in Hg as [Hg|Hg].
Qed.

(** A locus is corroborated when nodes of two independent sources have its key. *)
Definition corroborated (graph : EvidenceGraph) (k : ustr) : Prop :=
  exists n n', n ∈ eg_nodes graph /\ n' ∈ eg_nodes graph /\ en_identityKey n = k /\ en_identityKey n' = k /\
    tv_independenceGroup (en_trust n) <> tv_independenceGroup (en_trust n').

Lemma audit_corroborates graph previous actions keys channels audit k :
  auditStability graph previous actions keys channels = Ok audit -> sa_stable audit = true ->
  k ∈ locusIdentityKeys graph -> corroborated graph k.
Proof.
  unfold auditStability. intros (facets & Hf & (snap & _ & (para & _ & (drop & _ & (reversed & _ & (indep & Hi & (scope & _ & H)%rbind_ok)%rbind_ok)%rbind_ok)%rbind_ok)%rbind_ok)%rbind_ok)%rbind_ok Hs Hk.
  apply (inj Ok) in H. subst audit. cbn [sa_stable] in Hs. rewrite !andb_true_iff in Hs. destruct Hs as [[[_ ->] _] _].
  pose proof Hk as Hk0. apply locus_keys_elem in Hk as (e & n & He & Hl & Hg & Hkey). apply map_by_id_get in Hg as [Hn Hid].
  assert (tv_independenceGroup (en_trust n) ∈ sourceIndependenceGroups graph) as Hgrp.
  { unfold sourceIndependenceGroups. rewrite elem_of_sort_by, (proj2 (uniq_spec _)). apply list_elem_of_In, (in_map (fun n => tv_independenceGroup (en_trust n))). by apply list_elem_of_In. }
  pose proof (all_hold_true _ _ _ Hi Hgrp) as Hh. unfold same_critical in Hh. apply rbind_ok in Hh as (part & Hp & Hh).
  apply (inj Ok) in Hh. apply andb_true_iff in Hh as [Hh _]. apply bool_decide_eq_true in Hh.
  assert (cf_loci facets = locusIdentityKeys graph /\
    cf_loci part = locusIdentityKeys (graphWithoutIndependenceGroup graph (tv_independenceGroup (en_trust n)))) as [E1 E2].
  { unfold compileCriticalFacets in Hf, Hp. apply rbind_ok in Hf as (? & _ & Hf). apply rbind_ok in Hp as (? & _ & Hp).
    apply (inj Ok) in Hf, Hp. by subst facets part. }
  rewrite <- E1, Hh, E2 in Hk0. apply locus_keys_elem in Hk0 as (e' & n' & _ & _ & Hg' & Hkey').
  apply map_by_id_get in Hg' as [Hn' _]. unfold graphWithoutIndependenceGroup, retainNodes in Hn'. cbn [eg_nodes] in Hn'.
  apply list_elem_of_In, filter_In in Hn' as [Hn' Hd]. apply negb_true_iff, bool_decide_eq_false in Hd.
  exists n, n'. split_and!; [done | by apply list_elem_of_In | done | done | congruence].
Qed.

(** ** Order *)

Lemma map_by_id_complete (ns : list EvidenceNode) n : NoDup (map en_id ns) -> n ∈ ns -> JsMap.get (en_id n) (map_by_id en_id ns) = Some n.
Proof.
  intros Hn Hin. assert (is_Some (JsMap.get (en_id n) (map_by_id en_id ns))) as [m Hm].
  { unfold map_by_id. clear Hn. assert (forall l acc, n ∈ l \/ is_Some (JsMap.get (en_id n) acc) ->
      is_Some (JsMap.get (en_id n) (fold_left (fun m x => JsMap.set (en_id x) x m) l acc))) as H.
    { induction l as [|x l IH]; intros acc H; cbn [fold_left]; [destruct H as [H|H]; [by apply not_elem_of_nil in H | done]|].
      apply IH. rewrite JsMap.get_set. case_decide; [by right; eexists|]. destruct H as [[->|H]%elem_of_cons|H]; [done | by left | by right]. }
    apply H. by left. }
  rewrite Hm. f_equal. apply map_by_id_get in Hm as [Hm Hid]. by apply (NoDup_key_inj en_id ns).
Qed.

Lemma sorted_set_unique (l m : list ustr) : NoDup l -> NoDup m -> (forall x, x ∈ l <-> x ∈ m) -> sort_by utf16_leb l = sort_by utf16_leb m.
Proof. intros Hl Hm H. apply (sort_by_key_perm (fun x : ustr => x)); [done|]. by apply NoDup_Permutation. Qed.

Lemma locus_fold_nodup (get : ustr -> option EvidenceNode) es acc : NoDup acc ->
  NoDup (foldl (fun keys e => if negb (is_locus e) then keys else
    match get (ee_to e) with Some target => setAdd keys (en_identityKey target) | None => keys end) acc es).
Proof.
  revert acc. induction es as [|e es IH]; intros acc Ha; cbn [foldl]; [done|]. apply IH.
  destruct (negb _); [done|]. destruct (get _) as [n|]; [|done]. unfold setAdd. destruct (includes _ _) eqn:E; [done|].
  apply NoDup_app. split; [done|]. split; [|apply NoDup_singleton]. intros x Hx ->%list_elem_of_singleton. apply includes_true in Hx. congruence.
Qed.

(** The critical facets do not depend on the order of nodes and edges, so the permutation part of an audit accept_all holds. *)
Theorem facets_order_independent g g' keys : NoDup (map en_id (eg_nodes g)) -> eg_nodes g ≡ₚ eg_nodes g' -> eg_edges g ≡ₚ eg_edges g' ->
  forall f, compileCriticalFacets g keys = Ok f -> compileCriticalFacets g' keys = Ok f.
Proof.
  intros Hn Hp He f H. unfold compileCriticalFacets in *. apply rbind_ok in H as (ids & Hi & H). apply (inj Ok) in H. subst f.
  assert (NoDup (map en_id (eg_nodes g'))) as Hn' by (by rewrite <- Hp).
  assert (forall id, JsMap.get id (map_by_id en_id (eg_nodes g)) = JsMap.get id (map_by_id en_id (eg_nodes g'))) as Hget.
  { intros id. destruct (JsMap.get id (map_by_id en_id (eg_nodes g))) as [n|] eqn:E.
    - apply map_by_id_get in E as [Hin <-]. symmetry. apply map_by_id_complete; [done|]. by rewrite <- Hp.
    - destruct (JsMap.get id (map_by_id en_id (eg_nodes g'))) as [n|] eqn:E'; [|done].
      apply map_by_id_get in E' as [Hin <-]. rewrite map_by_id_complete in E; [done | done | by rewrite Hp]. }
  assert (locusIdentityKeys g' = locusIdentityKeys g) as ->.
  { unfold locusIdentityKeys. apply sorted_set_unique;
      [apply (locus_fold_nodup (fun id => JsMap.get id (map_by_id en_id (eg_nodes g')))); constructor
      |apply (locus_fold_nodup (fun id => JsMap.get id (map_by_id en_id (eg_nodes g)))); constructor|]. intros k.
    rewrite <- (elem_of_sort_by utf16_leb), <- (elem_of_sort_by utf16_leb (foldl _ [] (eg_edges g))).
    etransitivity; [apply (locus_keys_elem g' k)|]. etransitivity; [|symmetry; apply (locus_keys_elem g k)].
    split; intros (e & n & Hin & Hr); exists e, n; (split; [by rewrite ?He || rewrite <- He|]); [by rewrite Hget | by rewrite <- Hget]. }
  assert (exists ids', rmap (fun n => asEvidenceId_graph (en_id n)) (instructionNodes g') = Ok ids' /\ ids' ≡ₚ ids) as (ids' & -> & Hids).
  { assert (instructionNodes g ≡ₚ instructionNodes g') as Hin by (apply filter_permuted, Hp).
    apply rmap_ok in Hi. destruct (Permutation_Forall2 Hin Hi) as (ids' & Hpi & Hf). exists ids'. split; [by apply rmap_ok | by symmetry]. }
  cbn [rbind]. do 2 f_equal. apply (sort_by_key_perm (fun x : ustr => x)); [done|]. done.
Qed.

(** ** Rounds *)

Section RoundTheorems.
Variables (task : PreflightTask) (limits : PreflightResourceLimits) (host : EvidenceChannelHost).
Local Notation digest_of := (actionCanonicalDigest (pt_snapshotId task)).
Local Notation sound := (sound_graph graph_schema).

(** The ids of the nodes of a graph. *)
Definition known_ids (g : EvidenceGraph) : list ustr := map en_id (eg_nodes g).

(** An action that may be executed: for one of the channels, on claims that are nodes of the graph, without filters that name a
    command, a patch or content, and with a URL for external documents only. *)
Definition executable (g : EvidenceGraph) (a : RetrievalAction) : Prop :=
  exists c, ra_channelId a = channel_text c /\ ra_targetClaimIds a <> [] /\ ra_targetClaimIds a ⊆ known_ids g /\ ra_query a <> [] /\
    (forall k, k ∈ map fst (ra_filters a) -> k ∉ map u ["command"; "argv"; "cwd"; "patch"; "content"; "fileContent"] /\
       (k = u "url" -> c = ch_external_docs)) /\
    digest_of a = Ok (ra_id a).

Lemma executable_mono g g' a : known_ids g ⊆ known_ids g' -> executable g a -> executable g' a.
Proof. intros Hg (c & Hc & Ht & Hk & Hrest). exists c. split_and!; [done | done | set_solver | apply Hrest..]. Qed.

Lemma executables_mono g g' actions : known_ids g ⊆ known_ids g' -> Forall (executable g) actions -> Forall (executable g') actions.
Proof. intros Hg Ha. eapply Forall_impl; [exact Ha|]. intros a. by apply executable_mono. Qed.

Lemma evidence_ids_same xs ys : rmap asEvidenceId_graph xs = Ok ys -> ys = xs.
Proof.
  intros H%rmap_ok. induction H as [|x y xs ys Hx _ IH]; [done|]. subst ys. unfold asEvidenceId_graph in Hx. destruct (isEvidenceId x); [|done]. by injection Hx as <-.
Qed.

Lemma allowed_filter c k : forbidden_filter (resolved c) k = false ->
  k ∉ map u ["command"; "argv"; "cwd"; "patch"; "content"; "fileContent"] /\ (k = u "url" -> c = ch_external_docs).
Proof.
  unfold forbidden_filter. intros [Hf Hu]%orb_false_iff. split; [by apply includes_false in Hf|]. intros ->. rewrite bool_decide_true in Hu by done.
  by apply negb_false_iff, bool_decide_eq_true in Hu.
Qed.

Lemma digest_with_id a id : digest_of (with_id a id) = digest_of a.
Proof. reflexivity. Qed.

Lemma classify_executable graph raw a : classifyProposedAction (pt_snapshotId task) graph raw = Ok (admissible a) -> executable graph a.
Proof.
  unfold classifyProposedAction. intros H. destruct (negb (action_schema raw)); [by apply (inj Ok) in H|].
  destruct (match resolveChannelId _ with unresolved_channel => true | _ => false end); [by apply (inj Ok) in H|].
  destruct (existsb _ (map fst (ra_filters raw))) eqn:Ef; [by apply (inj Ok) in H|].
  destruct (List.filter _ (ra_targetClaimIds raw)) as [|first rest] eqn:Ek; [destruct (0 <? _)%nat; by apply (inj Ok) in H|].
  match type of H with match ?q with _ => _ end = _ => destruct q as [[|c0 query]|]; [by apply (inj Ok) in H| |by apply (inj Ok) in H] end.
  apply rbind_ok in H as (targets & Ht & H). destruct (resolveChannelId (ra_channelId raw)) as [c| |]; [|by apply (inj Ok) in H..].
  destruct (negb _); [by apply (inj Ok) in H|]. apply rbind_ok in H as (d & Hd & H). apply (inj Ok) in H. injection H as <-.
  apply evidence_ids_same in Ht. subst targets. exists c. split_and!; [done | done | | done | | by rewrite digest_with_id].
  - cbn [ra_targetClaimIds with_id createRetrievalAction]. rewrite <- Ek. intros id [_ Hid]%elem_of_List_filter. by apply includes_true in Hid.
  - intros k Hk. apply allowed_filter. exact (proj1 (existsb_none _ _) Ef k Hk).
Qed.

Lemma admit_executable graph frontier proposed actions :
  admit_actions task graph frontier proposed = Ok actions -> Forall (executable graph) actions.
Proof.
  unfold admit_actions. intros (r & Hr & H)%rbind_ok. apply (inj Ok) in H. subst actions.
  refine (rfold_ind (fun acc : list ustr * list RetrievalAction => Forall (executable graph) acc.2) _ _ _ _ _ _ Hr); [|constructor].
  intros acc raw acc' _ Hacc Hs. cbn beta in Hs. apply rbind_ok in Hs as (rec & Hrec & Hs).
  destruct rec as [a|]; [|by apply (inj Ok) in Hs; subst acc'].
  apply rbind_ok in Hs as (key & _ & (visited & _ & Hs)%rbind_ok). destruct (_ || _); apply (inj Ok) in Hs; subst acc'; [done|].
  cbn [snd]. apply Forall_app. split; [done|]. constructor; [|constructor].
  unfold reconstructAction in Hrec. apply rbind_ok in Hrec as (c & Hc & Hrec). apply (inj Ok) in Hrec.
  destruct c as [a'| |]; [|done..]. injection Hrec as <-. by apply (classify_executable graph raw).
Qed.

Lemma schedule_subset s graph actions scheduled : schedule task s graph actions = Ok scheduled -> forall a, a ∈ scheduled -> a ∈ actions.
Proof.
  unfold schedule. intros (keyed & Hk & H)%rbind_ok a Ha. apply (inj Ok) in H. subst scheduled.
  apply list_elem_of_In, in_map_iff in Ha as ([a' d] & <- & Ha). apply list_elem_of_In in Ha. rewrite elem_of_sort_by in Ha. cbn [fst].
  apply rmap_ok in Hk. apply list_elem_of_lookup_1 in Ha as [i Hi]. destruct (Forall2_lookup_r _ _ _ _ _ Hk Hi) as (x & Hx & Hd).
  apply rbind_ok in Hd as (d' & _ & Hd). apply (inj Ok) in Hd. injection Hd as -> _.
  apply list_elem_of_lookup_2 in Hx. unfold paretoFrontier in Hx. apply list_elem_of_In, filter_In in Hx as [Hx _]. by apply list_elem_of_In.
Qed.

(** The log has every visited action once, and only executable ones. *)
Definition logged (g : EvidenceGraph) (log : list RetrievalAction) (frontier : RetrievalFrontier) : Prop :=
  rf_snapshotId frontier = pt_snapshotId task /\ rf_visited frontier = map ra_id log /\ NoDup (map ra_id log) /\ Forall (executable g) log.

Lemma logged_mono g g' log frontier : known_ids g ⊆ known_ids g' -> logged g log frontier -> logged g' log frontier.
Proof. intros Hg (? & ? & ? & Hf). split_and!; [done..|]. by apply (executables_mono g). Qed.

Lemma execute_logged execute graph log actions done frontier pulls done' frontier' pulls' :
  Forall (executable graph) actions -> logged graph (log ++ map fst done) frontier ->
  rfold (execute_action execute graph) (done, frontier, pulls) actions = Ok (done', frontier', pulls') ->
  logged graph (log ++ map fst done') frontier'.
Proof.
  intros Ha Hl Hr.
  refine (rfold_ind (fun acc : list (RetrievalAction * EvidenceDelta) * RetrievalFrontier * list (ustr * Z) =>
    logged graph (log ++ map fst acc.1.1) acc.1.2) _ _ _ _ _ _ Hr); [|exact Hl].
  intros [[d f] p] a acc' Hin (Hsnap & Hv & Hn & Hf) Hs. cbn [fst snd] in Hsnap, Hv, Hn, Hf. unfold execute_action in Hs.
  apply rbind_ok in Hs as ([decision f'] & Hreg & Hs). unfold register in Hreg. apply rbind_ok in Hreg as (dg & Hd & Hreg).
  rewrite Forall_forall in Ha. pose proof (Ha a Hin) as Hax. destruct (Ha a Hin) as (c & _ & _ & _ & _ & _ & Hid). rewrite Hsnap, Hid in Hd. apply (inj Ok) in Hd. subst dg.
  destruct (includes (ra_id a) (rf_visited f)) eqn:Ei; apply (inj Ok) in Hreg; injection Hreg as <- <-.
  - apply (inj Ok) in Hs. subst acc'. done.
  - apply rbind_ok in Hs as (delta & _ & Hs). apply (inj Ok) in Hs. subst acc'. cbn [fst snd]. rewrite map_app, app_assoc. cbn [map fst].
    split; [done|]. split; [cbn [rf_visited]; rewrite Hv, !map_app; done|]. split.
    + rewrite map_app. apply NoDup_app. split; [done|]. split; [|apply NoDup_singleton].
      intros x Hx ->%list_elem_of_singleton. rewrite <- Hv in Hx. apply includes_true in Hx. congruence.
    + apply Forall_app. split; [done|]. constructor; [|constructor]. exact Hax.
Qed.

Lemma of_graph_ok {A} (r : result GraphErr A) a : of_graph r = Ok a <-> r = Ok a.
Proof. destruct r; cbn; split; congruence. Qed.

(** A graph that passes the checks and has all nodes of the former one. *)
Definition grown (g g' : EvidenceGraph) : Prop := sound g' /\ known_ids g ⊆ known_ids g'.

Lemma grown_trans a b c : grown a b -> grown b c -> grown a c.
Proof. intros [_ Hab] [Hc Hbc]. split; [done | by etransitivity]. Qed.

Lemma merge_grown g ns es g' : sound g -> mergeEvidence graph_schema g ns es = Ok g' -> grown g g'.
Proof.
  intros Hg Hm. destruct (mergeEvidence_merging graph_schema _ _ _ _ (sg_nodes _ _ Hg) Hm) as (Hs & _ & _ & m & [Hf Ha _] & Hp). split; [done|].
  intros id (n & -> & Hn)%list_elem_of_fmap. destruct (Ha n) as (n' & Hget & Hab); [rewrite elem_of_app; by left|]. rewrite <- (ab_id _ _ Hab).
  apply (list_elem_of_fmap_2 en_id). rewrite Hp. apply (filed_values en_id m n' Hf). by rewrite (ab_id _ _ Hab).
Qed.

Lemma mergeDelta_grown g d g' : sound g -> mergeDelta g d = Ok g' -> grown g g'.
Proof.
  intros Hg Hm. unfold mergeDelta in Hm. destruct (negb _); [done|]. apply rbind_ok in Hm as (dg & _ & Hm).
  destruct (bool_decide _); apply of_graph_ok in Hm; [|by apply (merge_grown g _ _ _ Hg Hm)]. unfold applyEvidenceDelta in Hm.
  destruct (negb _); [done|]. apply rbind_ok in Hm as (? & _ & Hm). destruct (negb _); [done|]. by apply (merge_grown g _ _ _ Hg Hm).
Qed.

Lemma merge_all_grown g (items : list (RetrievalAction * EvidenceDelta)) g' :
  sound g -> rfold (fun g item => mergeDelta g item.2) g items = Ok g' -> grown g g'.
Proof.
  intros Hg Hr. refine (rfold_ind (grown g) _ _ _ _ _ (conj Hg (reflexivity _)) Hr). intros t x t' _ Ht Hs.
  eapply grown_trans; [exact Ht|]. apply (mergeDelta_grown t x.2); [apply Ht | done].
Qed.

Lemma retrieve_grown g intent channels fused :
  sound g -> retrieveAndFuse graph_schema delta_schema intent_schema (host_with host g) intent channels = Ok fused -> grown g (rr_graph fused).
Proof.
  intros Hg Hr. unfold retrieveAndFuse in Hr. destruct (negb _); [done|].
  apply rbind_ok in Hr as (gathered & _ & (fusion & _ & (deduped & _ & (graph & Hm & (dg & _ & Hr)%rbind_ok)%rbind_ok)%rbind_ok)%rbind_ok).
  destruct (negb _); [done|]. apply (inj Ok) in Hr. subst fused. by apply (merge_grown g _ _ _ Hg Hm).
Qed.

Record good_state (s : PreflightState) : Prop := {
  gs_sound : sound (ps_graph s);
  gs_logged : logged (ps_graph s) (ps_actionLog s) (ps_frontier s)
}.

(** What a preflight result says. *)
Record result_justified (r : PreflightResult) : Prop := {
  rj_sound : sound (pf_graph r);
  rj_digest : evidenceGraphDigest (pf_graph r) = Ok (cr_evidenceGraphObjectDigest (pf_closure r));
  rj_state : cr_state (pf_closure r) = ce_state (pf_evaluation r);
  rj_witnesses : cr_requirementWitnesses (pf_closure r) = evaluateWitnesses (pf_graph r) (pt_requirements task);
  rj_exhausted : cr_exhaustedActionDigests (pf_closure r) ≡ₚ map ra_id (pf_actionLog r);
  rj_once : NoDup (map ra_id (pf_actionLog r));
  rj_executable : Forall (executable (pf_graph r)) (pf_actionLog r);
  rj_saturated : ce_state (pf_evaluation r) <> RESOURCE_LIMITED ->
    ce_frontierFixed (pf_evaluation r) = true /\ ce_channelsDrained (pf_evaluation r) = true;
  rj_complete : ce_state (pf_evaluation r) = COMPLETE ->
    closed_evidence (pt_closureTemplate task) (pt_requirements task) (pf_graph r) /\
    forall k, k ∈ locusIdentityKeys (pf_graph r) -> corroborated (pf_graph r) k
}.

Lemma evaluation_facts s fixed drained stable aborted ev :
  evaluation_of task limits s fixed drained stable aborted = Ok ev ->
  ce_witnesses ev = evaluateWitnesses (ps_graph s) (pt_requirements task) /\ ce_frontierFixed ev = fixed /\ ce_channelsDrained ev = drained /\
  (ce_state ev = COMPLETE -> mandatoryClosurePredicatesPass (pt_closureTemplate task) (ps_graph s) (pt_requirements task) = Ok true /\
     stable = true /\ aborted = false).
Proof.
  unfold evaluation_of, evaluateClosureState. intros (unresolved & _ & (pass & Hp & H)%rbind_ok)%rbind_ok.
  destruct (resourceLimitHit _) eqn:El; [apply (inj Ok) in H; by subst ev|].
  destruct (pass && fixed && drained && stable) eqn:Ea; apply (inj Ok) in H; subst ev; [|done].
  rewrite !andb_true_iff in Ea. destruct Ea as [[[-> ->] ->] ->]. split_and!; try done. intros _. split_and!; try done.
  unfold resourceLimitHit in El. cbn [resourcesFrom rl_aborted] in El. by destruct aborted.
Qed.

Lemma finish_facts s ev ad r :
  preflight_finish task s ev ad = Ok r ->
  pf_graph r = ps_graph s /\ pf_evaluation r = ev /\ pf_actionLog r = ps_actionLog s /\
  evidenceGraphDigest (ps_graph s) = Ok (cr_evidenceGraphObjectDigest (pf_closure r)) /\ cr_state (pf_closure r) = ce_state ev /\
  cr_requirementWitnesses (pf_closure r) = ce_witnesses ev /\ cr_exhaustedActionDigests (pf_closure r) = visitedDigests (ps_frontier s).
Proof.
  unfold preflight_finish. intros (dg & Hd & (closure & Hc & (cd & _ & H)%rbind_ok)%rbind_ok)%rbind_ok. apply (inj Ok) in H. subst r.
  unfold buildClosureReport in Hc. destruct (negb _); [done|]. apply (inj Ok) in Hc. subst closure. apply of_graph_ok in Hd. by split_and!.
Qed.

Lemma finish_justified s ev ad r fixed drained stable aborted :
  good_state s -> evaluation_of task limits s fixed drained stable aborted = Ok ev ->
  (ce_state ev <> RESOURCE_LIMITED -> fixed = true /\ drained = true) ->
  (ce_state ev = COMPLETE -> forall k, k ∈ locusIdentityKeys (ps_graph s) -> corroborated (ps_graph s) k) ->
  preflight_finish task s ev ad = Ok r -> result_justified r.
Proof.
  intros [Hg (Hsnap & Hv & Hn & Hf)] He Hsat Hcor Hr. destruct (evaluation_facts _ _ _ _ _ _ He) as (Hw & Hfx & Hdr & Hc).
  destruct (finish_facts _ _ _ _ Hr) as (Eg & Ee & El & Hd & Hst & Hwr & Hx). constructor.
  all: rewrite ?Eg, ?Ee, ?El.
  - exact Hg.
  - exact Hd.
  - exact Hst.
  - congruence.
  - rewrite Hx. unfold visitedDigests. by rewrite sort_by_perm, Hv.
  - exact Hn.
  - exact Hf.
  - rewrite Hfx, Hdr. exact Hsat.
  - intros Hcomp. split; [apply mandatory_closed; by apply Hc | by apply Hcor].
Qed.

Local Notation round := (preflight_round task limits host).

Lemma aborted_justified s i r : good_state s -> in_aborted i = true -> round s i = Ok r ->
  exists result, r = inr result /\ result_justified result.
Proof.
  intros Hs Ha Hr. unfold preflight_round in Hr. rewrite Ha in Hr.
  apply rbind_ok in Hr as (ev & He & (audit & _ & (d & _ & (res & Hf & Hr)%rbind_ok)%rbind_ok)%rbind_ok).
  apply of_graph_ok in He. apply (inj Ok) in Hr. subst r. exists res. split; [done|].
  destruct (evaluation_facts _ _ _ _ _ _ He) as (_ & _ & _ & Hc).
  apply (finish_justified s ev d res false false false true Hs He); [| |exact Hf].
  - intros Hne. exfalso. unfold evaluation_of, evaluateClosureState in He. apply rbind_ok in He as (? & _ & (? & _ & He)%rbind_ok).
    apply (inj Ok) in He. subst ev. done.
  - intros Hcomp. apply Hc in Hcomp as (_ & _ & ?). done.
Qed.

Lemma round_justified s i r : good_state s -> round s i = Ok r ->
  match r with inl s' => good_state s' | inr result => result_justified result end.
Proof.
  intros Hs Hr. destruct (in_aborted i) eqn:Ea; [destruct (aborted_justified s i r Hs Ea Hr) as (result & -> & Hj); exact Hj|].
  unfold preflight_round in Hr. rewrite Ea in Hr. destruct Hs as [Hg Hl].
  apply rbind_ok in Hr as (fused & Hfused & Hr). apply of_graph_ok in Hfused. destruct (retrieve_grown _ _ _ _ Hg Hfused) as [Hg1 Hin1].
  apply rbind_ok in Hr as (? & _ & Hr). apply rbind_ok in Hr as ([[proposed replay] traces] & _ & Hr).
  apply rbind_ok in Hr as (actions & Hadm & Hr). apply of_graph_ok in Hadm. pose proof (admit_executable _ _ _ _ Hadm) as Hex.
  apply rbind_ok in Hr as (scheduled & Hsch & Hr). apply of_graph_ok in Hsch.
  assert (Forall (executable (rr_graph fused)) scheduled) as Hsx.
  { rewrite Forall_forall in Hex |- *. intros a Ha. apply Hex. by apply (schedule_subset _ _ _ _ Hsch). }
  apply rbind_ok in Hr as ([[executed frontier] pulls] & Hexe & Hr). apply of_graph_ok in Hexe.
  apply rbind_ok in Hr as (merged & Hm & Hr). destruct (merge_all_grown _ _ _ Hg1 Hm) as [Hg2 Hin2].
  assert (logged merged (ps_actionLog s ++ map fst executed) frontier) as Hlog.
  { apply (logged_mono (rr_graph fused)); [done|]. eapply (execute_logged _ _ _ _ [] _ _ _ _ _ Hsx); [|exact Hexe]. cbn [map]. rewrite app_nil_r.
    by apply (logged_mono (ps_graph s)). }
  apply rbind_ok in Hr as (queue & _ & Hr). apply rbind_ok in Hr as (audit & Haud & Hr). apply of_graph_ok in Haud.
  unfold audit_of in Haud. cbn [ps_graph ps_previousFacets ps_actionLog] in Haud.
  apply rbind_ok in Hr as (ev & Hev & Hr). apply of_graph_ok in Hev.
  assert (sa_stable audit = true -> forall k, k ∈ locusIdentityKeys merged -> corroborated merged k) as Hcor.
  { intros Hst k. by apply (audit_corroborates merged (Some (ps_previousFacets s)) (ps_actionLog s ++ map fst executed)
      (requirement_ids task) RETRIEVAL_CHANNEL_IDS audit). }
  set (next := mkState merged frontier _ traces pulls (sa_facets audit) queue) in Hr.
  assert (good_state next) as Hnext by (split; [exact Hg2 | exact Hlog]).
  set (fixed := (length actions =? 0)%nat) in *. set (drained := negb (existsb _ _)) in *.
  destruct (_ || _) eqn:Eb in Hr.
  - apply rbind_ok in Hr as (d & _ & (res & Hf & Hr)%rbind_ok). apply (inj Ok) in Hr. subst r.
    apply (finish_justified next ev d res fixed drained (sa_stable audit) (in_aborted_later i) Hnext Hev); [| |exact Hf].
    + intros Hne. rewrite bool_decide_false in Eb by done. cbn [orb] in Eb. rewrite !andb_true_iff in Eb. tauto.
    + intros Hcomp. apply Hcor. by destruct (evaluation_facts _ _ _ _ _ _ Hev) as (_ & _ & _ & Hc); apply Hc in Hcomp as (_ & ? & _).
  - destruct (fixed && drained) eqn:Efd; [|apply (inj Ok) in Hr; subst r; exact Hnext].
    apply rbind_ok in Hr as (ev2 & Hev2 & (d & _ & (res & Hf & Hr)%rbind_ok)%rbind_ok). apply of_graph_ok in Hev2. apply (inj Ok) in Hr. subst r.
    apply (finish_justified next ev2 d res true true (sa_stable audit) (in_aborted_later i) Hnext Hev2); [done| |exact Hf].
    intros Hcomp. apply Hcor. by destruct (evaluation_facts _ _ _ _ _ _ Hev2) as (_ & _ & _ & Hc); apply Hc in Hcomp as (_ & ? & _).
Qed.

Lemma rounds_justified rounds s result :
  good_state s -> preflight_rounds task limits host s rounds = Ok (Some result) -> result_justified result.
Proof.
  revert s. induction rounds as [|i rounds IH]; intros s Hs H; cbn [preflight_rounds] in H; [done|].
  apply rbind_ok in H as (r & Hr & H). pose proof (round_justified _ _ _ Hs Hr) as Hj. destruct r as [s'|result'].
  - by apply (IH s').
  - apply (inj Ok) in H. injection H as <-. done.
Qed.

Lemma seed_sound request snapshot requirements instructions now g :
  deterministicSeed request snapshot requirements instructions now = Ok g -> sound g.
Proof.
  unfold deterministicSeed. intros (? & _ & (? & _ & (? & _ & (? & _ & (? & _ & Hm)%rbind_ok)%rbind_ok)%rbind_ok)%rbind_ok)%rbind_ok.
  by destruct (mergeEvidence_merging graph_schema (emptyEvidenceGraph snapshot) _ _ _ (NoDup_nil_2 (A := ustr)) Hm) as [Hs _].
Qed.

End RoundTheorems.
End Preflight.

(** ** A preflight that is complete *)

Module SamplePreflight.
Import Sample.
#[local] Instance literal_doubles : Doubles := {| double := ustr; double_isInteger := fun _ => false; double_toString := fun s => s; double_parse := Double |}.
#[local] Existing Instance weak_hash.
#[local] Instance plain_unicode : Unicode := {| nfc := fun s => s; toUpperCase := fun s => s |}.
Definition accept_all {A} (_ : A) : bool := true.
Definition now : ustr := u "2025-01-01T00:00:00.000Z".

Definition node (kind key group : string) : EvidenceNode :=
  let digest := quote_of group in
  match createEvidenceNode snapshot
    (mkNode [] (u kind) (u key) DETERMINISTIC [] es_verified (defaultTrust (u group) None None None None None)
       [makeProvenance (artifactSourceRef digest digest None) (u group) (u "v1") now digest None] 1 None) with
  | Ok n => n
  | Err _ => mkNode [] [] [] DETERMINISTIC [] es_unknown (defaultTrust [] None None None None None) [] 0 None
  end.
Definition edge (n : EvidenceNode) (relation : string) : EvidenceEdge :=
  match createEvidenceEdge (en_id n) (en_id n) (u relation) (u "positive") (f64_of_Z 1) (en_provenance n) with
  | Ok e => e
  | Err _ => mkEdge [] [] [] [] [] (f64_of_Z 0) []
  end.

(** The symbol to change is found by two sources. *)
Definition nodes : list EvidenceNode := Eval vm_compute in
  [node "symbol" "symbol:f" "index"; node "symbol" "symbol:f" "trace"; node "invariant" "invariant:i" "index";
   node "dependency" "dependency:d" "index"; node "schema" "schema:s" "index"; node "test" "test:t" "index"].
Definition edges : list EvidenceEdge := Eval vm_compute in
  match nodes with a :: b :: _ => [edge a "CANDIDATE_LOCUS"; edge b "CANDIDATE_LOCUS"; edge a "REFERENCES"] | _ => [] end.
Definition extra : EvidenceGraph := mkGraph snapshot nodes edges.
Definition the_task : PreflightTask := mkTask (u "run") snapshot (u "Refactor f") t_refactor [].
Definition no_limits : PreflightResourceLimits := mkResources None None None None.
Definition the_host : EvidenceChannelHost := mkHost snapshot None now None [] false.
Definition quiet : RoundInput := mkRound false false [] [] [] (fun _ _ => Err ABORTED).
Definition run_sample (extra : EvidenceGraph) : result PreflightErr (option PreflightResult) :=
  runAdaptivePreflight accept_all accept_all accept_all (fun x => x) (fun s => s) accept_all accept_all the_task no_limits the_host
    [mkSeedInstruction (u "AGENTS.md") (quote_of "rules")] (Some extra) None now [quiet].
Definition state_of (r : result PreflightErr (option PreflightResult)) : option ClosureState :=
  match r with Ok (Some r) => Some (ce_state (pf_evaluation r)) | _ => None end.

(** The pattern meant for the command rm also matches words that end in these letters. *)
Lemma scan_of_plain_words : scanAnalystText (u "confirm the contract") = ["shell-rm"].
Proof. vm_compute. reflexivity. Qed.

Lemma sample_complete : state_of (run_sample extra) = Some COMPLETE.
Proof. vm_compute. reflexivity. Qed.

(** Without the second source the evidence is saturated, not complete. *)
Definition one_source : EvidenceGraph := Eval vm_compute in
  match nodes with a :: _ :: rest => mkGraph snapshot (a :: rest) [edge a "CANDIDATE_LOCUS"; edge a "REFERENCES"] | _ => extra end.
Lemma one_source_saturated : state_of (run_sample one_source) = Some SATURATED_WITH_UNKNOWNS.
Proof. vm_compute. reflexivity. Qed.

End SamplePreflight.
